(* ===== verification/_CoqProject ===== *)
-Q . S2P
Prelude.v
CInt.v
Pending.v
ChunkBuffer.v
PacketProto.v
Addr.v
Socks.v
UdpGw.v
FairQueue.v
Flow.v
Stream.v
DnsName.v
DnsText.v
DnsCompress.v
Contract.v
TcpClient.v
IpProto.v
DeviceUdp.v
SocksUdpGw.v
DnsHash.v
RrTypes.v
RrList.v
DnsCent.v
DnsCache.v
DnsCacheInv.v
DnsCacheAdd.v
DnsCacheOps.v
DnsCacheSafe.v
CacheLock.v
DnsCacheFile.v
DnsCacheRead.v
DnsCacheDisk.v
DnsCacheReload.v
DnsResponse.v
DnsResponseSpec.v
DnsResponseCache.v
DnsAnswer.v
DnsAnswerSpec.v
DnsAnswerRr.v
DnsAnswerSafe.v
DnsAnswerReply.v
DnsAnswerQuery.v
DnsAnswerOk.v
Bavl.v
BavlShape.v
BavlBalance.v
BavlOps.v
BavlSpec.v
BavlClient.v
