(* ===== verification/Prelude.v ===== *)
(** * KiloApp native code: verification library

    KiloApp sends the traffic of an Android device through a SOCKS server.  Its service
    starts two native programs, whose C sources are under [src/app/src/main/jni/]:
    [tun2socks] (in [badvpn/]) takes IP packets from the tun device, and [pdnsd] (in
    [pdnsd/src/]) answers DNS queries from a cache.  This library models the logic of both
    as Rocq functions and proves what it guarantees.

    ** The parts of the program and how they interact

    - Jobs and interfaces.  The objects of badvpn never call each other while one of them
      runs: they put jobs on the stack of a pending group ([BPending]), and the reactor runs
      the job on top.  Packets go from object to object through [PacketPassInterface] and
      [PacketRecvInterface], which turn each call into a job.
    - TCP.  lwIP ends the TCP connections of the device.  For each of them tun2socks has a
      client object, which opens a connection through [BSocksClient] (the SOCKS5 handshake)
      and relays bytes in both directions.
    - UDP.  A packet of the device is parsed and checked in [device_read_handler_send] and
      [process_device_udp_packet].  A DNS query is rewritten and sent to the DNS gateway
      (pdnsd); other datagrams go to [UdpGwClient], which multiplexes them over one stream:
      [BufferWriter] and [PacketProtoEncoder] write packets into [PacketBuffer] (a
      [ChunkBuffer2]), flows share the output through [PacketPassFairQueue],
      [PacketStreamSender] writes the stream, [PacketPassConnector] follows the connection
      as it comes and goes, and [PacketProtoDecoder] splits what comes back into packets.
      [SocksUdpGwClient] keeps the connection to the gateway alive.
    - DNS.  A response of a server is decoded ([decompress_name], [rrs2cent]) into cache
      entries, which [add_cache] puts into the cache: a hash table of entries, whose record
      sets are in a list by age.  The cache is saved to a file and read again, and is
      protected by a lock for readers and writers.  A query of a client is decoded
      ([process_query]) and answered from entries of the cache ([compose_answer]), whose
      names are compressed again ([compress_name]).

    ** Files

    A file models one part; the objects of the C code are records, their functions are
    definitions with the same names.

    - [Prelude]: the monad [M] of handlers, checked access to bytes, lemmas on lists.
    - [CInt]: [misc/byteorder.h], [misc/bsize.h], [misc/balign.h] and others.
    - [Pending]: [base/BPending.c], [flow/PacketPassInterface.c].
    - [ChunkBuffer]: [structure/ChunkBuffer2.h]; the class [PacketStore].
    - [PacketProto]: [flow/PacketProtoEncoder.c] (Module [Encoder]),
      [flow/PacketProtoDecoder.c] (Module [Decoder]).
    - [Addr]: [system/BAddr.h].
    - [Socks]: [socksclient/BSocksClient.c].
    - [UdpGw]: [udpgw_client/UdpGwClient.c].
    - [FairQueue]: [flow/PacketPassFairQueue.c].
    - [Flow]: [flow/PacketRecvInterface.c], [flow/BufferWriter.c], [flow/PacketBuffer.c],
      [flow/PacketProtoFlow.c].
    - [Stream]: [flow/PacketStreamSender.c] (Module [Sender]), [flow/PacketPassConnector.c]
      (Module [Connector]).
    - [Contract], [TcpClient]: [tun2socks/tun2socks.c], the [client_] functions.
    - [IpProto], [DeviceUdp]: [misc/ipv4_proto.h], [misc/ipv6_proto.h], [misc/udp_proto.h];
      [tun2socks/tun2socks.c], the packets of the device.
    - [SocksUdpGw]: [tun2socks/SocksUdpGwClient.c].
    - [DnsName], [DnsText], [DnsCompress]: [dns.c] and [helpers.c], names in messages and as
      text, and their compression.
    - [DnsHash]: [hash.c].
    - [RrTypes], [RrList], [DnsCent], [DnsCache]: [rr_types.h] and [cache.c], the list by age,
      one entry, and the cache; [DnsCacheInv], [DnsCacheAdd], [DnsCacheOps] and
      [DnsCacheSafe] hold the invariant and the theorems.
    - [CacheLock]: the lock of [cache.c].
    - [DnsCacheFile]: the file of [cache.c]; [DnsCacheRead], [DnsCacheDisk] and
      [DnsCacheReload] hold the theorems.
    - [DnsResponse]: [rr_to_cache] and [rrs2cent] of [dns_query.c], the arrays of [list.c];
      [DnsResponseSpec] and [DnsResponseCache] hold the theorems.
    - [DnsAnswer]: [dns_answer.c] from [sva_add] to [process_query].  [DnsAnswerSpec] has the
      format of a record with holes for what is not known yet, [DnsAnswerRr] proves
      [add_rr] right, [DnsAnswerSafe] has the ghost log of the sections and the sets that
      are added to it, [DnsAnswerReply] composes the answer, [DnsAnswerQuery] decodes the
      query, and [DnsAnswerOk] holds the theorems.
    - [Bavl]: [structure/BAVL.h], the tree with parent pointers; [BavlShape] relates the
      nodes in memory to trees, [BavlBalance] proves the rebalancing right, [BavlOps] the
      other functions, [BavlSpec] has the specification, and [BavlClient] puts the trees
      where file [UdpGw] has lists.

    ** How the code is modelled

    A function that changes an object is a function in the monad [M S E]: it has the state
    [S], makes calls to other objects, which are the outputs [E] in their order, and is
    [None] where the C code has no defined result: an assertion that fails, an access
    outside of a buffer or to an object that was freed.  A theorem that a function returns
    is therefore also one that it is safe.  Objects that point to each other live in a heap
    of their own, a finite map from addresses.  Functions that decode bytes return [option]
    for safety and a sum or [rc] for the errors the C code reports.

    Integers are [Z], and a result that is stored in an object of the C code wraps at its
    width; the target has 64 bits and little-endian byte order.

    Other objects are present in one of three ways.  Where the other side is modelled, the
    two are composed ([Flow], [Stream]).  Where it only has to be of a kind, it is a class
    with laws: [PacketStore] and [PacketStoreLaws] of file [ChunkBuffer] are all that
    [PacketBuffer] knows of its buffer, and file [ChunkBuffer] discharges them; and
    [AnswerEnv] with [AnswerEnvLaws] is what an answer is composed from, the cache and the
    resolver, which other threads may change between two calls; and [Comparator] is what a
    balanced tree asks of the order of its values.  Where it is lwIP, a socket or the system,
    it is a contract, a partial function on the calls ([Contract]): a call outside of it is
    an error, and what it may report back are the inputs of a step.  The contract of lwIP
    exists twice, because [tun2socks] does not keep its rule for [ERR_ABRT]: [react] is
    weaker there, and [react_strict] is what lwIP documents; [tcp_client_safe] tells where
    they differ.  [malloc] succeeds or
    fails as a parameter says.

    ** What the theorems show

    - Invariants: every handler of an object keeps its invariant, from which follows that no
      sequence of inputs the contracts allow ends in a failed assertion
      ([BSocksClient_safe], [UdpGwClient_safe], [PacketPassFairQueue_safe],
      [tcp_client_safe], [cache_safe], [cache_lock_excludes]).
    - Refinements: the buffer of packets, the decoder, the flow and the connector implement
      queues of packets ([ChunkBuffer2_fifo], [PacketProtoDecoder_refines],
      [PacketProtoFlow_fifo], [PacketPassConnector_refines]); the table of connections is a
      map with the least recently used reused ([UdpGwClient_SubmitPacket_lru]); the hash
      table is a map on names ([dns_hash_refines_map]); [rrs2cent] implements the format of
      records ([rrs2cent_decodes]), and an answer is the chain of aliases that the resolver
      found, in this format ([compose_answer_correct]); the balanced tree is the ordered
      sequence of its nodes ([BAVL_refines_ordered_nodes]).
    - Equivalence: two ways to read a name ([parsestr2rhn_str2rhn]), the trees of connections
      and the lists that stand for them ([connection_trees_equiv]).
    - Round trips: packets through a stream ([packet_stream_end_to_end]), names through
      compression ([compress_decompress]) and text ([rhn2str_str2rhn]), DNS queries through
      the gateway ([dns_gateway_roundtrip]), the cache through its file
      ([disk_cache_roundtrip]), answers through the decoder of responses
      ([answers_decode]).
    - Safety against made-up input: [decompress_name_spec], [rrs2cent_decodes],
      [read_disk_cache_safe], [device_read_handler_send_safe], [process_query_correct].
    - Progress: [PacketPassFairQueue_fair], [tcp_client_waits],
      [SocksUdpGwClient_reconnects], [cache_lock_no_lost_wakeup], and the termination of
      every function with fuel.
    - Flaws: [recv_abort_keeps_pbuf], [closed_not_aborted] and [timedlock_strands_readers]
      prove behaviour that the authors cannot have wanted.

    ** Fuel and bounds

    Recursion that is not structural has fuel, and a theorem shows that it is enough.
    [decompress_name] has 257 steps: each step but the last copies a label or follows a
    pointer, a name has at most 256 bytes, and at most 255 pointers are followed; the
    theorems about it need no more.  The functions on names have the length of the buffer as
    fuel, for each step moves on.  The callbacks of a TCP client that call each other have
    [FUEL], 5, the depth of their calls.  The list by age and the balanced tree have the
    number of their nodes.  A chain of aliases has [MAX_HOPS] + 1 steps, which is the bound
    of the C loop.
    A theorem whose statement mentions a bound ([2 ^ 31] bytes of a message, counters below
    their width) has the bound of the C type.

    ** Not modelled

    - Code that is input and output: the reactor, sockets, timers and the tun device of
      badvpn; the query state machines, server threads and server tests of pdnsd; logs and
      dumps; [libancillary] and [system.cpp].
    - The balanced trees that the preprocessor generates ([SAvl_impl.h], [CAvl_impl.h]) and
      intrusive lists: such a tree is the ordered list of its nodes, a list is a list.
    - The parser of the configuration of pdnsd, which runs once at the start, and the
      initialisation of both programs.
    - [add_reverse_cache], which goes through the text of an address.
    - The width of [time_t]: a time stamp of the cache is any integer.  A walk through the
      hash table while entries are deleted.
    - lwIP (third party), the programs of badvpn that [Android.mk] does not build, and the
      Kotlin user interface. *)

From Stdlib Require Export ZArith Lia Bool.
From stdpp Require Export base numbers list gmap option.
#[global] Open Scope Z_scope.

(** Integer arithmetic is left to [lia]. *)
#[global] Arguments Z.add : simpl never.
#[global] Arguments Z.sub : simpl never.
#[global] Arguments Z.mul : simpl never.
#[global] Arguments Z.div : simpl never.
#[global] Arguments Z.modulo : simpl never.
#[global] Arguments Z.opp : simpl never.
#[global] Arguments Z.pow : simpl never.
#[global] Arguments Z.min : simpl never.
#[global] Arguments Z.max : simpl never.
#[global] Arguments Z.of_nat : simpl never.
#[global] Arguments Z.to_nat : simpl never.

(** ** Handlers

    A handler of the C code runs to completion on the state of its object,
    may call other objects (the outputs, in the order of the calls), and fails
    when one of its [ASSERT]s does not hold. *)

Definition M (S E A : Type) : Type := S → option (A * S * list E).

#[export] Instance M_ret S E : MRet (M S E) := λ A x s, Some (x, s, []).
#[export] Instance M_bind S E : MBind (M S E) := λ A B f m s,
  match m s with
  | Some (a, s', es) =>
      match f a s' with
      | Some (b, s'', es') => Some (b, s'', es ++ es')
      | None => None
      end
  | None => None
  end.

Section handlers.
Context {S E : Type}.

(** [ASSERT(b)] *)
Definition ASSERT (b : bool) : M S E unit :=
  λ s, if b then Some (tt, s, []) else None.
(** [ASSERT(0)] *)
Definition unreachable {A} : M S E A := λ _, None.
Definition get : M S E S := λ s, Some (s, s, []).
Definition put (s : S) : M S E unit := λ _, Some (tt, s, []).
Definition modify (f : S → S) : M S E unit := λ s, Some (tt, f s, []).
(** a call to another object *)
Definition emit (e : E) : M S E unit := λ s, Some (tt, s, [e]).
End handlers.

Declare Scope kilo_scope.
Delimit Scope kilo_scope with kilo.
#[global] Open Scope kilo_scope.

(** [if (b) { m }] *)
Definition when {S E} (b : bool) (m : M S E unit) : M S E unit :=
  if b then m else mret tt.

(** the same outside the monad: [None] when the assertion fails *)
Notation "'assert!' b ; k" := (if b then k else None)
  (at level 10, b at level 99, k at level 200) : kilo_scope.
Definition not_null {A} (p : option A) : bool := match p with Some _ => true | None => false end.

(** A run of a bind is a run of both halves; the outputs are concatenated. *)
Lemma M_bind_Some {S E A B} (m : M S E A) (f : A → M S E B) s b s2 es :
  mbind f m s = Some (b, s2, es) ↔
  ∃ a s1 e1 e2, m s = Some (a, s1, e1) ∧ f a s1 = Some (b, s2, e2) ∧ es = e1 ++ e2.
Proof.
  unfold mbind, M_bind. split.
  - destruct (m s) as [[[a s1] e1]|]; [|done].
    destruct (f a s1) as [[[b' s2'] e2]|] eqn:Hf; [|done].
    intros [= <- <- <-]. eauto 10.
  - intros (a & s1 & e1 & e2 & -> & -> & ->). done.
Qed.

(** Running a bind whose first half is known. *)
Lemma M_bind_run {S E A B} (m : M S E A) (f : A → M S E B) s a s1 e1 :
  m s = Some (a, s1, e1) →
  mbind f m s =
    match f a s1 with Some (b, s2, e2) => Some (b, s2, e1 ++ e2) | None => None end.
Proof. unfold mbind, M_bind. by intros ->. Qed.

(** The same for a first half without outputs. *)
Lemma M_bind_run0 {S E A B} (m : M S E A) (f : A → M S E B) s a s1 :
  m s = Some (a, s1, []) → mbind f m s = f a s1.
Proof.
  unfold mbind, M_bind. intros ->. by destruct (f a s1) as [[[? ?] ?]|].
Qed.
Lemma ASSERT_true {S E A} (b : bool) (f : unit → M S E A) s :
  b = true → mbind f (ASSERT b) s = f tt s.
Proof. intros ->. exact (M_bind_run0 (ASSERT true) f s tt s eq_refl). Qed.
Lemma M_bind_ext {S E A B} (m : M S E A) (f g : A → M S E B) s :
  (∀ a s', f a s' = g a s') → mbind f m s = mbind g m s.
Proof.
  intros H. unfold mbind, M_bind. destruct (m s) as [[[a s1] e1]|]; [|done]. by rewrite H.
Qed.
Lemma M_bind_assoc {S E A B C} (m : M S E A) (f : A → M S E B) (g : B → M S E C) s :
  mbind g (mbind f m) s = mbind (λ a, mbind g (f a)) m s.
Proof.
  unfold mbind, M_bind. destruct (m s) as [[[a s1] e1]|]; [|done].
  destruct (f a s1) as [[[b s2] e2]|]; [|done]. destruct (g b s2) as [[[c s3] e3]|]; [|done].
  by rewrite app_assoc.
Qed.

(** ** Objects made of objects

    A handler of a part runs on its part of the state; the calls it makes to other
    objects are calls of the whole. *)
Fixpoint calls {S E F} (call : F → M S E unit) (fs : list F) : M S E unit :=
  match fs with
  | [] => mret tt
  | f :: fs' => call f;; calls call fs'
  end.
Definition zoom {S E T F A} (part : S → T) (update : T → S → S) (call : F → M S E unit)
    (h : M T F A) : M S E A := λ s,
  match h (part s) with
  | None => None
  | Some (a, t, fs) => (calls call fs;; mret a) (update t s)
  end.
Lemma zoom_run {S E T F A} part update call (h : M T F A) (s : S) a t fs s' (es : list E) :
  h (part s) = Some (a, t, fs) → calls call fs (update t s) = Some (tt, s', es) →
  zoom part update call h s = Some (a, s', es).
Proof.
  unfold zoom. intros -> H. rewrite (M_bind_run _ _ _ _ _ _ H). cbn. by rewrite app_nil_r.
Qed.

Lemma calls_one {S E F} (call : F → M S E unit) f (s : S) s' es :
  call f s = Some (tt, s', es) → calls call [f] s = Some (tt, s', es).
Proof. intros H. cbn. rewrite (M_bind_run _ _ _ _ _ _ H). cbn. by rewrite app_nil_r. Qed.

Lemma calls_app {S E F} (call : F → M S E unit) fs1 fs2 (s : S) :
  calls call (fs1 ++ fs2) s =
    match calls call fs1 s with
    | Some (_, s1, e1) =>
        match calls call fs2 s1 with
        | Some (u, s2, e2) => Some (u, s2, e1 ++ e2)
        | None => None
        end
    | None => None
    end.
Proof.
  revert s. induction fs1 as [|f fs1 IH]; intros s; cbn.
  - by destruct (calls call fs2 s) as [[[] ?]|].
  - unfold mbind, M_bind. destruct (call f s) as [[[? s1] e1]|]; [|done].
    rewrite IH. destruct (calls call fs1 s1) as [[[? s2] e2]|]; [|done].
    destruct (calls call fs2 s2) as [[[? s3] e3]|]; [|done]. by rewrite app_assoc.
Qed.

(** Symbolic execution of a handler, one silent operation at a time. *)
Ltac m_step := erewrite M_bind_run0; [|reflexivity]; cbn beta iota.
Ltac m_assert := rewrite ASSERT_true; [|first [reflexivity | assumption]]; cbn beta iota.

(** The same by a known run of the first operation. *)
Ltac m_run H := rewrite (M_bind_run0 _ _ _ _ _ H); cbn beta iota.

(** Symbolic execution of a handler: unfold the monad, take the state apart. *)
Ltac run_unfold :=
  repeat (progress (cbv [mbind M_bind mret M_ret get put modify emit ASSERT] in *); cbn beta iota in * ).
Ltac run_inv :=
  repeat match goal with
    | H : mbind _ _ _ = Some _ |- _ =>
        apply M_bind_Some in H;
        let a := fresh "a" in let s := fresh "s" in
        let e1 := fresh "e" in let e2 := fresh "e" in
        let H1 := fresh "H" in let H2 := fresh "H" in
        destruct H as (a & s & e1 & e2 & H1 & H2 & ->)
    | H : get _ = Some _ |- _ => unfold get in H; simplify_eq
    | H : put _ _ = Some _ |- _ => unfold put in H; simplify_eq
    | H : modify _ _ = Some _ |- _ => unfold modify in H; simplify_eq
    | H : emit _ _ = Some _ |- _ => unfold emit in H; simplify_eq
    | H : mret _ _ = Some _ |- _ => unfold mret, M_ret in H; simplify_eq
    | H : ASSERT ?b _ = Some _ |- _ =>
        unfold ASSERT in H; destruct b eqn:?; simplify_eq
    end.

(** ** Reflexive transitive closure of a labelled step function

    A component is driven by a list of inputs; [runs step s is] is the final
    state together with everything it output, or [None] when an [ASSERT] fails
    on the way. *)
Fixpoint runs {S E I} (step : I → M S E unit) (ins : list I) : M S E unit :=
  match ins with
  | [] => mret tt
  | i :: ins' => step i ≫= λ _, runs step ins'
  end.

Lemma runs_app {S E I} (step : I → M S E unit) ins1 ins2 s :
  runs step (ins1 ++ ins2) s =
    match runs step ins1 s with
    | Some (_, s1, e1) =>
        match runs step ins2 s1 with
        | Some (u, s2, e2) => Some (u, s2, e1 ++ e2)
        | None => None
        end
    | None => None
    end.
Proof.
  revert s. induction ins1 as [|i ins1 IH]; intros s; simpl.
  - cbv [mret M_ret]. destruct (runs step ins2 s) as [[[[] ?] ?]|]; done.
  - cbv [mbind M_bind]. destruct (step i s) as [[[? s1] e1]|]; [|done].
    rewrite IH. destruct (runs step ins1 s1) as [[[? s2] e2]|]; [|done].
    destruct (runs step ins2 s2) as [[[? s3] e3]|]; [|done].
    by rewrite app_assoc.
Qed.

(** An invariant of every step is an invariant of every run. *)
Lemma runs_invariant {S E I} (step : I → M S E unit) (P : S → Prop) ins s u s' es :
  (∀ i s u s' es, P s → step i s = Some (u, s', es) → P s') →
  P s → runs step ins s = Some (u, s', es) → P s'.
Proof.
  intros Hstep. revert s u s' es.
  induction ins as [|i ins IH]; intros s u s' es HP; simpl.
  - by intros [= <- <- <-].
  - intros H. run_inv. eauto.
Qed.

(** ** Booleans and propositions *)

Lemma bool_decide_ite {A} (P : Prop) `{Decision P} (x y : A) :
  P → (if bool_decide P then x else y) = x.
Proof. intros HP. by rewrite bool_decide_true. Qed.

Ltac zbool :=
  repeat match goal with
    | H : (_ && _)%bool = true |- _ => apply andb_true_iff in H as [? ?]
    | H : (_ && _)%bool = false |- _ => apply andb_false_iff in H
    | H : (_ || _)%bool = true |- _ => apply orb_true_iff in H
    | H : (_ || _)%bool = false |- _ => apply orb_false_iff in H as [? ?]
    | H : negb _ = true |- _ => apply negb_true_iff in H
    | H : negb _ = false |- _ => apply negb_false_iff in H
    | H : (_ =? _) = true |- _ => apply Z.eqb_eq in H
    | H : (_ =? _) = false |- _ => apply Z.eqb_neq in H
    | H : (_ <? _) = true |- _ => apply Z.ltb_lt in H
    | H : (_ <? _) = false |- _ => apply Z.ltb_ge in H
    | H : (_ <=? _) = true |- _ => apply Z.leb_le in H
    | H : (_ <=? _) = false |- _ => apply Z.leb_gt in H
    | H : (_ >? _) = true |- _ => rewrite Z.gtb_ltb in H
    | H : (_ >? _) = false |- _ => rewrite Z.gtb_ltb in H
    | H : (_ >=? _) = true |- _ => rewrite Z.geb_leb in H
    | H : (_ >=? _) = false |- _ => rewrite Z.geb_leb in H
    end.

(** Case analysis on the outermost integer comparison of the goal. *)
Ltac zcase :=
  match goal with
  | |- context [?a =? ?b] => destruct (Z.eqb_spec a b)
  | |- context [?a <? ?b] => destruct (Z.ltb_spec a b)
  | |- context [?a <=? ?b] => destruct (Z.leb_spec a b)
  | |- context [?a >? ?b] => rewrite (Z.gtb_ltb a b); destruct (Z.ltb_spec b a)
  | |- context [?a >=? ?b] => rewrite (Z.geb_leb a b); destruct (Z.leb_spec b a)
  end; cbn [andb orb negb]; try lia.

(** Case analysis on the given comparison. *)
Tactic Notation "zif" constr(b) :=
  let E := fresh "E" in destruct b eqn:E; zbool.

(** ** Lists indexed by integers

    Buffers of the C code are lists of bytes, offsets are integers. *)

Definition zlen {A} (l : list A) : Z := Z.of_nat (length l).
Definition ztake {A} (n : Z) (l : list A) : list A := take (Z.to_nat n) l.
Definition zdrop {A} (n : Z) (l : list A) : list A := drop (Z.to_nat n) l.
(** the [n] elements from offset [o] *)
Definition slice {A} (o n : Z) (l : list A) : list A := ztake n (zdrop o l).
(** [memcpy(l + o, d, zlen d)] *)
Definition splice {A} (o : Z) (d l : list A) : list A :=
  ztake o l ++ d ++ zdrop (o + zlen d) l.

#[global] Arguments zlen : simpl never.
#[global] Arguments ztake : simpl never.
#[global] Arguments zdrop : simpl never.
#[global] Arguments slice : simpl never.
#[global] Arguments splice : simpl never.

Section zlists.
Context {A : Type}.
Implicit Types (l d : list A).

Lemma zlen_nonneg l : 0 ≤ zlen l.
Proof. unfold zlen. lia. Qed.
Lemma zlen_nil : zlen (@nil A) = 0.
Proof. done. Qed.
Lemma zlen_cons (x : A) l : zlen (x :: l) = 1 + zlen l.
Proof. unfold zlen. cbn [length]. lia. Qed.
Lemma zlen_app l d : zlen (l ++ d) = zlen l + zlen d.
Proof. unfold zlen. rewrite length_app. lia. Qed.
Lemma zlen_ztake n l : 0 ≤ n → zlen (ztake n l) = Z.min n (zlen l).
Proof. unfold zlen, ztake. rewrite length_take. lia. Qed.
Lemma zlen_zdrop n l : 0 ≤ n → zlen (zdrop n l) = Z.max 0 (zlen l - n).
Proof. unfold zlen, zdrop. rewrite length_drop. lia. Qed.
Lemma zlen_slice o n l :
  0 ≤ o → 0 ≤ n → o + n ≤ zlen l → zlen (slice o n l) = n.
Proof. intros. unfold slice. rewrite zlen_ztake, zlen_zdrop by lia. lia. Qed.
Lemma zlen_splice o d l :
  0 ≤ o → o + zlen d ≤ zlen l → zlen (splice o d l) = zlen l.
Proof.
  intros. pose proof (zlen_nonneg d). unfold splice.
  rewrite !zlen_app, zlen_ztake, zlen_zdrop by lia. lia.
Qed.
Lemma zlen_0_nil l : zlen l = 0 → l = [].
Proof. unfold zlen. destruct l; [done|]. cbn [length]. lia. Qed.

Lemma ztake_all n l : zlen l ≤ n → ztake n l = l.
Proof. unfold zlen, ztake. intros. apply take_ge. lia. Qed.
Lemma ztake_0 l : ztake 0 l = [].
Proof. done. Qed.
Lemma zdrop_0 l : zdrop 0 l = l.
Proof. done. Qed.
Lemma zdrop_all n l : zlen l ≤ n → zdrop n l = [].
Proof. unfold zlen, zdrop. intros. apply drop_ge. lia. Qed.
Lemma ztake_zdrop n l : ztake n l ++ zdrop n l = l.
Proof. apply take_drop. Qed.
Lemma ztake_app_length l d : ztake (zlen l) (l ++ d) = l.
Proof. unfold ztake, zlen. rewrite Nat2Z.id. apply take_app_length. Qed.
Lemma zdrop_app_length l d : zdrop (zlen l) (l ++ d) = d.
Proof. unfold zdrop, zlen. rewrite Nat2Z.id. apply drop_app_length. Qed.
Lemma ztake_app_length' n l d : n = zlen l → ztake n (l ++ d) = l.
Proof. intros ->. apply ztake_app_length. Qed.
Lemma zdrop_app_length' n l d : n = zlen l → zdrop n (l ++ d) = d.
Proof. intros ->. apply zdrop_app_length. Qed.
Lemma zdrop_zdrop a b l : 0 ≤ a → 0 ≤ b → zdrop a (zdrop b l) = zdrop (a + b) l.
Proof. intros. unfold zdrop. rewrite drop_drop. f_equal. lia. Qed.
Lemma ztake_app_l n l d : n ≤ zlen l → ztake n (l ++ d) = ztake n l.
Proof. unfold zlen, ztake. intros. apply take_app_le. lia. Qed.
Lemma zdrop_app_l n l d : n ≤ zlen l → zdrop n (l ++ d) = zdrop n l ++ d.
Proof. unfold zlen, zdrop. intros. apply drop_app_le. lia. Qed.
Lemma zdrop_app_r n l d : zlen l ≤ n → zdrop n (l ++ d) = zdrop (n - zlen l) d.
Proof.
  unfold zlen, zdrop. intros. rewrite drop_app_ge by lia. f_equal. lia.
Qed.
Lemma ztake_app_r n l d :
  zlen l ≤ n → ztake n (l ++ d) = l ++ ztake (n - zlen l) d.
Proof.
  unfold zlen, ztake. intros. rewrite take_app_ge by lia. do 2 f_equal. lia.
Qed.
Lemma zdrop_ztake a b l :
  0 ≤ a → 0 ≤ b → zdrop a (ztake b l) = ztake (b - a) (zdrop a l).
Proof.
  intros. unfold zdrop, ztake. rewrite drop_take_drop || rewrite skipn_firstn_comm.
  f_equal. lia.
Qed.
Lemma ztake_ztake a b l : 0 ≤ a ≤ b → ztake a (ztake b l) = ztake a l.
Proof. intros. unfold ztake. rewrite take_take. f_equal. lia. Qed.

(** Reading what was just written, and reading elsewhere. *)
Lemma slice_splice_same o d l n :
  0 ≤ o → n = zlen d → o + zlen d ≤ zlen l → slice o n (splice o d l) = d.
Proof.
  intros ? -> ?. pose proof (zlen_nonneg d). unfold slice, splice.
  rewrite zdrop_app_length' by (rewrite zlen_ztake; lia).
  apply ztake_app_length.
Qed.
Lemma slice_splice_before o n p d l :
  0 ≤ o → 0 ≤ n → o + n ≤ p → p ≤ zlen l → slice o n (splice p d l) = slice o n l.
Proof.
  intros. unfold slice, splice.
  rewrite zdrop_app_l by (rewrite zlen_ztake; lia).
  rewrite ztake_app_l by (rewrite zdrop_ztake, zlen_ztake, zlen_zdrop; lia).
  rewrite zdrop_ztake, ztake_ztake by lia. done.
Qed.
Lemma slice_splice_after o n p d l :
  0 ≤ p → p + zlen d ≤ o → o ≤ zlen l → slice o n (splice p d l) = slice o n l.
Proof.
  intros. pose proof (zlen_nonneg d). unfold slice, splice.
  rewrite zdrop_app_r by (rewrite zlen_ztake; lia).
  rewrite zlen_ztake by lia. rewrite zdrop_app_r by lia.
  rewrite zdrop_zdrop by lia. f_equal. f_equal. lia.
Qed.
Lemma slice_app_l o n l d :
  0 ≤ o → 0 ≤ n → o + n ≤ zlen l → slice o n (l ++ d) = slice o n l.
Proof.
  intros. unfold slice. rewrite zdrop_app_l by lia.
  apply ztake_app_l. rewrite zlen_zdrop; lia.
Qed.
Lemma slice_app_r o n l d :
  zlen l ≤ o → slice o n (l ++ d) = slice (o - zlen l) n d.
Proof. intros. unfold slice. by rewrite zdrop_app_r. Qed.
Lemma slice_0_app n l d : n = zlen l → slice 0 n (l ++ d) = l.
Proof. intros ->. unfold slice. rewrite zdrop_0. apply ztake_app_length. Qed.
Lemma slice_all l n : n = zlen l → slice 0 n l = l.
Proof. intros ->. unfold slice. rewrite zdrop_0. by apply ztake_all. Qed.
Lemma slice_0_len o l : slice o 0 l = [].
Proof. done. Qed.
Lemma slice_split o n m l :
  0 ≤ o → 0 ≤ n → 0 ≤ m → slice o (n + m) l = slice o n l ++ slice (o + n) m l.
Proof.
  intros. unfold slice. rewrite <-(ztake_zdrop n (ztake (n + m) (zdrop o l))).
  rewrite ztake_ztake, zdrop_ztake, zdrop_zdrop by lia. do 2 f_equal; [lia|].
  f_equal. lia.
Qed.
(** Writing what is there already. *)
Lemma splice_id o d l :
  0 ≤ o → o + zlen d ≤ zlen l → slice o (zlen d) l = d → splice o d l = l.
Proof.
  intros Ho Hl Hs. pose proof (zlen_nonneg d). unfold splice. rewrite <-Hs at 1.
  unfold slice. rewrite <-(ztake_zdrop o l) at 4. f_equal.
  rewrite <-(ztake_zdrop (zlen d) (zdrop o l)) at 2. f_equal.
  rewrite zdrop_zdrop by lia. f_equal. lia.
Qed.
(** Two adjacent writes are one. *)
Lemma splice_splice_before o d1 d2 l :
  0 ≤ o → o + zlen d1 + zlen d2 ≤ zlen l →
  splice o d1 (splice (o + zlen d1) d2 l) = splice o (d1 ++ d2) l.
Proof.
  intros. pose proof (zlen_nonneg d1). pose proof (zlen_nonneg d2). unfold splice.
  rewrite ztake_app_l by (rewrite zlen_ztake; lia). rewrite ztake_ztake by lia.
  rewrite zdrop_app_length' by (rewrite zlen_ztake; lia).
  rewrite zlen_app, <-app_assoc. do 4 f_equal. lia.
Qed.
Lemma splice_splice_after o d1 d2 l :
  0 ≤ o → o + zlen d1 + zlen d2 ≤ zlen l →
  splice (o + zlen d1) d2 (splice o d1 l) = splice o (d1 ++ d2) l.
Proof.
  intros. pose proof (zlen_nonneg d1). pose proof (zlen_nonneg d2).
  assert (Ht : zlen (ztake o l) = o) by (rewrite zlen_ztake; lia).
  unfold splice. rewrite ztake_app_r, zdrop_app_r by lia. rewrite Ht.
  rewrite ztake_app_length', zdrop_app_r by lia. rewrite zdrop_zdrop, zlen_app by lia.
  rewrite <-!app_assoc. do 4 f_equal. lia.
Qed.
End zlists.

(** The sum of [f] over a list. *)
Definition zsum {A} (f : A → Z) (l : list A) : Z := foldr (λ x n, f x + n) 0 l.
#[global] Arguments zsum : simpl never.
Lemma zsum_cons {A} (f : A → Z) x l : zsum f (x :: l) = f x + zsum f l.
Proof. done. Qed.
Lemma zsum_app {A} (f : A → Z) l l' : zsum f (l ++ l') = zsum f l + zsum f l'.
Proof. induction l as [|x l IH]; [done|]. rewrite <-app_comm_cons, !zsum_cons, IH. lia. Qed.
Lemma zsum_insert {A} (f : A → Z) l i x y : l !! i = Some x → zsum f (<[i := y]> l) = zsum f l - f x + f y.
Proof.
  revert i. induction l as [|z l IH]; intros [|i] H; [done|done| |].
  - injection H as <-. change (zsum f (y :: l) = zsum f (z :: l) - f z + f y). rewrite !zsum_cons. lia.
  - change (zsum f (z :: <[i := y]> l) = zsum f (z :: l) - f x + f y). rewrite !zsum_cons, (IH i H). lia.
Qed.
Lemma zsum_replicate {A} (f : A → Z) n x : f x = 0 → zsum f (replicate n x) = 0.
Proof. intros Hf. induction n as [|n IH]; [done|]. cbn [replicate]. rewrite zsum_cons. lia. Qed.
Lemma zsum_nonneg {A} (f : A → Z) l : (∀ x, x ∈ l → 0 ≤ f x) → 0 ≤ zsum f l.
Proof.
  induction l as [|x l IH]; intros H; [done|]. rewrite zsum_cons. pose proof (H x ltac:(by left)).
  assert (0 ≤ zsum f l); [|lia]. apply IH. intros y Hy. apply H. by right.
Qed.
Lemma zsum_zero {A} (f : A → Z) l : (∀ x, x ∈ l → 0 ≤ f x) → zsum f l = 0 ↔ ∀ x, x ∈ l → f x = 0.
Proof.
  induction l as [|y l IH]; intros H; [split; [set_solver|done]|]. rewrite zsum_cons.
  pose proof (H y ltac:(by left)). pose proof (zsum_nonneg f l ltac:(intros; apply H; by right)).
  assert (IH' := IH ltac:(intros; apply H; by right)). split.
  - intros Hs x [->|Hx]%elem_of_cons; [lia|]. apply IH'; [lia|done].
  - intros Hz. rewrite (Hz y) by (by left). rewrite (proj2 IH'); [lia|]. intros. apply Hz. by right.
Qed.
Lemma zsum_ext {A} (f g : A → Z) l : (∀ x, x ∈ l → f x = g x) → zsum f l = zsum g l.
Proof.
  induction l as [|x l IH]; intros H; [done|]. rewrite !zsum_cons, H by (by left). rewrite IH; [done|].
  intros y Hy. apply H. by right.
Qed.
#[export] Instance zsum_perm {A} (f : A → Z) : Proper ((≡ₚ) ==> (=)) (zsum f).
Proof. intros l l' H. induction H; rewrite ?zsum_cons in *; lia. Qed.
Lemma foldl_add {A} (f : A → Z) l x : foldl (λ n y, n + f y) x l = x + zsum f l.
Proof. revert x. induction l as [|y l IH]; intros x; cbn [foldl]; [unfold zsum; cbn; lia|]. rewrite IH, zsum_cons. lia. Qed.

(** The sum of [f] over a map. *)
Definition msum {A} (f : A → Z) (m : gmap Z A) : Z := zsum (λ p, f p.2) (map_to_list m).
Lemma msum_empty {A} (f : A → Z) : msum f ∅ = 0.
Proof. done. Qed.
Lemma msum_insert {A} (f : A → Z) m k x : m !! k = None → msum f (<[k := x]> m) = f x + msum f m.
Proof. intros H. unfold msum. by rewrite map_to_list_insert, zsum_cons. Qed.
Lemma msum_delete {A} (f : A → Z) m k x : m !! k = Some x → msum f (delete k m) = msum f m - f x.
Proof.
  intros H. rewrite <-(insert_delete_id m k x H) at 2. rewrite msum_insert by apply lookup_delete_eq. lia.
Qed.
Lemma msum_update {A} (f : A → Z) m k x y : m !! k = Some x → msum f (<[k := y]> m) = msum f m - f x + f y.
Proof.
  intros H. rewrite <-insert_delete_eq, msum_insert by apply lookup_delete_eq. rewrite (msum_delete f m k x H). lia.
Qed.
Lemma msum_fmap {A B} (f : B → Z) (g : A → B) (m : gmap Z A) : msum f (g <$> m) = msum (λ x, f (g x)) m.
Proof.
  induction m as [|k x m Hk IH] using map_ind; [by rewrite fmap_empty|].
  rewrite fmap_insert, !msum_insert; [by rewrite IH| done |]. by rewrite lookup_fmap, Hk.
Qed.
Lemma msum_nonneg {A} (f : A → Z) m : (∀ x, 0 ≤ f x) → 0 ≤ msum f m.
Proof. intros H. apply zsum_nonneg. intros; apply H. Qed.
Lemma msum_pos {A} (f : A → Z) m k x : (∀ x, 0 ≤ f x) → m !! k = Some x → f x ≤ msum f m.
Proof.
  intros H Hk. rewrite <-(insert_delete_id m k x Hk), msum_insert by apply lookup_delete_eq.
  pose proof (msum_nonneg f (delete k m) H). lia.
Qed.
Lemma msum_elem {A} (f : A → Z) m : (∀ x, 0 ≤ f x) → 0 < msum f m → ∃ k x, m !! k = Some x ∧ 0 < f x.
Proof.
  intros H. induction m as [|k x m Hk IH] using map_ind; [rewrite msum_empty; lia|]. rewrite msum_insert by done. intros Hs.
  destruct (decide (0 < f x)); [exists k, x; by rewrite lookup_insert_eq|]. destruct IH as (k' & y & Hy & ?); [lia|].
  exists k', y. split; [|done]. rewrite lookup_insert_ne; [done|]. congruence.
Qed.
Lemma msum_add {A} (f g : A → Z) m : msum (λ x, f x + g x) m = msum f m + msum g m.
Proof.
  induction m as [|k x m Hk IH] using map_ind; [by rewrite !msum_empty|]. rewrite !msum_insert by done. lia.
Qed.
Lemma msum_ext {A} (f g : A → Z) m : (∀ x, f x = g x) → msum f m = msum g m.
Proof. intros H. apply zsum_ext. intros; apply H. Qed.

Lemma omap_ext_in {A B} (f g : A → option B) (l : list A) :
  (∀ x, x ∈ l → f x = g x) → omap f l = omap g l.
Proof.
  induction l as [|x l IH]; intros H; [done|]. cbn. rewrite H by (by left).
  rewrite IH; [done|]. intros y Hy. apply H. by right.
Qed.

Lemma omap_cons {A B} (f : A → option B) x (l : list A) :
  omap f (x :: l) = match f x with Some y => y :: omap f l | None => omap f l end.
Proof. done. Qed.

Create HintDb zlist.
Create Rewrite HintDb zlist.
#[export] Hint Rewrite @zlen_app @zlen_cons @zlen_nil : zlist.
#[export] Hint Resolve zlen_nonneg : zlist.
