(* ===== verification/CInt.v ===== *)
(** * Fixed-width integers, sizes and byte order

    [misc/byteorder.h], [misc/read_write_int.h], [misc/bsize.h],
    [misc/balign.h], [misc/minmax.h] and [misc/compare.h].  Integers are [Z];
    an operation of the C code whose result is stored in a [w]-bit object wraps
    modulo [2^w].  The target is the 64-bit little-endian build
    ([BADVPN_LITTLE_ENDIAN] in [Android.mk]), so [size_t] has 64 bits. *)

From S2P Require Import Prelude.

Definition u8 (x : Z) : Z := x mod 2 ^ 8.
Definition u16 (x : Z) : Z := x mod 2 ^ 16.
Definition u32 (x : Z) : Z := x mod 2 ^ 32.
Definition u64 (x : Z) : Z := x mod 2 ^ 64.
(** conversion to [int] *)
Definition to_int (x : Z) : Z := let y := u32 x in if y >=? 2 ^ 31 then y - 2 ^ 32 else y.
Definition UINT8_MAX : Z := 255.
Definition UINT16_MAX : Z := 65535.
Definition UINT32_MAX : Z := 4294967295.
Definition UINT64_MAX : Z := 18446744073709551615.
Definition SIZE_MAX : Z := UINT64_MAX.
Definition INT_MAX : Z := 2147483647.

Lemma to_int_small x : 0 ≤ x ≤ INT_MAX → to_int x = x.
Proof.
  unfold to_int, u32, INT_MAX. intros. rewrite Z.mod_small by lia. zcase.
Qed.

(** the length of an explicit list of bytes *)
Ltac zlens :=
  rewrite ?zlen_app, ?zlen_cons; try change (zlen (@nil Z)) with 0;
  try change (zlen (@nil (list Z))) with 0.

(** ** Bytes *)

Abbreviation bytes := (list Z).
Definition is_byte (b : Z) : bool := (0 <=? b) && (b <? 256).
Definition bytes_ok (l : bytes) : Prop := Forall (λ b, 0 ≤ b < 256) l.
Definition bytes_okb (l : bytes) : bool := forallb is_byte l.

Lemma bytes_okb_spec l : bytes_okb l = true ↔ bytes_ok l.
Proof.
  unfold bytes_okb, bytes_ok. rewrite forallb_forall, List.Forall_forall.
  unfold is_byte. split; intros H x Hx; specialize (H x Hx); zbool; lia.
Qed.
Lemma bytes_ok_app l k : bytes_ok (l ++ k) ↔ bytes_ok l ∧ bytes_ok k.
Proof. apply Forall_app. Qed.
Lemma bytes_ok_cons b l : bytes_ok (b :: l) ↔ 0 ≤ b < 256 ∧ bytes_ok l.
Proof. apply Forall_cons_iff. Qed.
Lemma bytes_ok_nil : bytes_ok [].
Proof. constructor. Qed.
Lemma bytes_ok_take n l : bytes_ok l → bytes_ok (take n l).
Proof. apply Forall_take. Qed.
Lemma bytes_ok_drop n l : bytes_ok l → bytes_ok (drop n l).
Proof. apply Forall_drop. Qed.
Lemma bytes_ok_slice o n l : bytes_ok l → bytes_ok (slice o n l).
Proof. intros. by apply bytes_ok_take, bytes_ok_drop. Qed.
Create HintDb cint.
#[export] Hint Resolve bytes_ok_nil bytes_ok_take bytes_ok_drop bytes_ok_slice : cint.

(** ** Loads and stores (read_write_int.h)

    [le_bytes n x]: the object representation of the [n]-byte integer [x]. *)

Fixpoint le_bytes (n : nat) (x : Z) : bytes :=
  match n with
  | O => []
  | S n' => x mod 256 :: le_bytes n' (x / 256)
  end.
Fixpoint le_val (l : bytes) : Z :=
  match l with
  | [] => 0
  | b :: l' => b + 256 * le_val l'
  end.
Definition be_bytes (n : nat) (x : Z) : bytes := rev (le_bytes n x).
Definition be_val (l : bytes) : Z := le_val (rev l).

Lemma length_le_bytes n x : length (le_bytes n x) = n.
Proof. revert x. induction n; intros; simpl; [done|]. by rewrite IHn. Qed.
Lemma zlen_le_bytes n x : zlen (le_bytes n x) = Z.of_nat n.
Proof. unfold zlen. by rewrite length_le_bytes. Qed.
Lemma zlen_be_bytes n x : zlen (be_bytes n x) = Z.of_nat n.
Proof. unfold be_bytes, zlen. by rewrite length_rev, length_le_bytes. Qed.
Lemma le_bytes_ok n x : bytes_ok (le_bytes n x).
Proof.
  revert x. induction n; intros; simpl; [constructor|].
  constructor; [apply Z.mod_pos_bound; lia | apply IHn].
Qed.
Lemma be_bytes_ok n x : bytes_ok (be_bytes n x).
Proof. unfold be_bytes, bytes_ok. apply List.Forall_rev, le_bytes_ok. Qed.

Lemma le_val_bound l : bytes_ok l → 0 ≤ le_val l < 256 ^ zlen l.
Proof.
  induction 1 as [|b l Hb Hl IH]; simpl; [done|].
  rewrite zlen_cons, Z.pow_add_r by (pose proof (zlen_nonneg l); lia). lia.
Qed.
Lemma le_val_le_bytes n x : le_val (le_bytes n x) = x mod 256 ^ Z.of_nat n.
Proof.
  revert x. induction n as [|n IH]; intros x.
  - simpl. by rewrite Z.mod_1_r.
  - cbn [le_bytes le_val]. rewrite IH, Nat2Z.inj_succ, Z.pow_succ_r by lia.
    rewrite (Z.rem_mul_r x 256) by lia. done.
Qed.
Lemma le_bytes_le_val l : bytes_ok l → le_bytes (length l) (le_val l) = l.
Proof.
  induction 1 as [|b l Hb Hl IH]; simpl; [done|].
  rewrite (Z.mul_comm 256), Z.mod_add, Z.div_add, (Z.mod_small b), (Z.div_small b) by lia.
  rewrite Z.add_0_l. by rewrite IH.
Qed.
Lemma be_val_be_bytes n x : be_val (be_bytes n x) = x mod 256 ^ Z.of_nat n.
Proof. unfold be_val, be_bytes. by rewrite rev_involutive, le_val_le_bytes. Qed.
Lemma be_bytes_be_val l : bytes_ok l → be_bytes (length l) (be_val l) = l.
Proof.
  intros. unfold be_val, be_bytes. rewrite <-length_rev, le_bytes_le_val.
  - apply rev_involutive.
  - by apply List.Forall_rev.
Qed.
Lemma le_val_app l k : le_val (l ++ k) = le_val l + 256 ^ zlen l * le_val k.
Proof.
  induction l as [|b l IH]; cbn [le_val app].
  - change (zlen (@nil Z)) with 0. lia.
  - rewrite IH, zlen_cons, Z.pow_add_r by (pose proof (zlen_nonneg l); lia). lia.
Qed.
Lemma be_val_cons b l : be_val (b :: l) = 256 ^ zlen l * b + be_val l.
Proof.
  unfold be_val. simpl. rewrite le_val_app. cbn [le_val].
  unfold zlen. rewrite length_rev. lia.
Qed.
Lemma be_val_bound l : bytes_ok l → 0 ≤ be_val l < 256 ^ zlen l.
Proof.
  intros H. unfold be_val. pose proof (le_val_bound (rev l)) as Hb.
  unfold zlen in *. rewrite length_rev in Hb. by apply Hb, List.Forall_rev.
Qed.

(** [badvpn_read_le16] etc.: a load at an offset of a buffer. *)
Definition read_le16 (o : Z) (l : bytes) : Z := le_val (slice o 2 l).
Definition badvpn_read_be16 (o : Z) (l : bytes) : Z := be_val (slice o 2 l).

(** ** Byte order (byteorder.h, little-endian branch) *)

Definition badvpn_reverse16 (x : Z) : Z := be_val (le_bytes 2 x).
Definition badvpn_reverse32 (x : Z) : Z := be_val (le_bytes 4 x).
Definition hton16 (x : Z) : Z := badvpn_reverse16 x.
Definition ntoh16 (x : Z) : Z := hton16 x.
Definition hton32 (x : Z) : Z := badvpn_reverse32 x.
Definition ntoh32 (x : Z) : Z := hton32 x.
Definition htol16 (x : Z) : Z := x.
Definition ltoh16 (x : Z) : Z := htol16 x.

Lemma le_bytes_be_val n l :
  bytes_ok l → length l = n → le_bytes n (be_val l) = rev l.
Proof.
  intros Hl <-. unfold be_val. rewrite <-length_rev.
  apply le_bytes_le_val. by apply List.Forall_rev.
Qed.
Lemma le_bytes_hton16 x : le_bytes 2 (hton16 x) = be_bytes 2 x.
Proof. apply le_bytes_be_val; [apply le_bytes_ok|done]. Qed.
Lemma le_bytes_hton32 x : le_bytes 4 (hton32 x) = be_bytes 4 x.
Proof. apply le_bytes_be_val; [apply le_bytes_ok|done]. Qed.
Lemma hton16_range x : 0 ≤ hton16 x < 2 ^ 16.
Proof. exact (be_val_bound _ (le_bytes_ok 2 x)). Qed.
Lemma hton32_range x : 0 ≤ hton32 x < 2 ^ 32.
Proof. exact (be_val_bound _ (le_bytes_ok 4 x)). Qed.
Lemma ntoh16_hton16 x : ntoh16 (hton16 x) = x mod 2 ^ 16.
Proof.
  unfold ntoh16. unfold hton16 at 1, badvpn_reverse16.
  rewrite le_bytes_hton16, be_val_be_bytes. done.
Qed.
Lemma ntoh32_hton32 x : ntoh32 (hton32 x) = x mod 2 ^ 32.
Proof.
  unfold ntoh32. unfold hton32 at 1, badvpn_reverse32.
  rewrite le_bytes_hton32, be_val_be_bytes. done.
Qed.
Lemma hton16_inj x y : 0 ≤ x < 2 ^ 16 → 0 ≤ y < 2 ^ 16 → hton16 x = hton16 y → x = y.
Proof.
  intros Hx Hy H. apply (f_equal ntoh16) in H.
  rewrite !ntoh16_hton16, !Z.mod_small in H by lia. done.
Qed.

(** ** Sizes *)

Section bsize.
(** [bsize_t]: a [size_t] with an overflow flag. *)
Record bsize_t := { is_overflow : bool; bvalue : Z }.

Definition bsize_fromsize (v : Z) : bsize_t := {| is_overflow := false; bvalue := v |}.
Definition bsize_fromint (v : Z) : bsize_t :=
  {| is_overflow := (v <? 0) || (v >? SIZE_MAX); bvalue := u64 v |}.
Definition bsize_toint (s : bsize_t) : option Z :=
  if is_overflow s || (bvalue s >? INT_MAX) then None else Some (bvalue s).
Definition bsize_add (s1 s2 : bsize_t) : bsize_t :=
  {| is_overflow := is_overflow s1 || is_overflow s2 || (bvalue s2 >? SIZE_MAX - bvalue s1);
     bvalue := u64 (bvalue s1 + bvalue s2) |}.
Definition bsize_max (s1 s2 : bsize_t) : bsize_t :=
  {| is_overflow := is_overflow s1 || is_overflow s2;
     bvalue := u64 (Z.b2z (bvalue s1 >? bvalue s2) * bvalue s1
                    + Z.b2z (bvalue s1 <=? bvalue s2) * bvalue s2) |}.
Definition bsize_mul (s1 s2 : bsize_t) : bsize_t :=
  {| is_overflow := is_overflow s1 || is_overflow s2
       || (negb (bvalue s1 =? 0) && (bvalue s2 >? SIZE_MAX / bvalue s1));
     bvalue := u64 (bvalue s1 * bvalue s2) |}.

Definition bsize_ok (s : bsize_t) : Prop := 0 ≤ bvalue s ≤ SIZE_MAX.
(** what a [bsize_t] stands for: the exact value, unless it overflowed *)
Definition bsize_is (s : bsize_t) (v : Z) : Prop :=
  bsize_ok s ∧ if is_overflow s then SIZE_MAX < v else bvalue s = v.

Lemma bsize_fromsize_is v : 0 ≤ v ≤ SIZE_MAX → bsize_is (bsize_fromsize v) v.
Proof. done. Qed.
Lemma u64_ok x : 0 ≤ u64 x ≤ SIZE_MAX.
Proof. unfold u64, SIZE_MAX, UINT64_MAX. pose proof (Z.mod_pos_bound x (2^64)). lia. Qed.
Lemma u64_small x : 0 ≤ x ≤ SIZE_MAX → u64 x = x.
Proof. unfold u64, SIZE_MAX, UINT64_MAX. intros. apply Z.mod_small. lia. Qed.
Lemma bsize_add_is s1 s2 v1 v2 :
  0 ≤ v1 → 0 ≤ v2 → bsize_is s1 v1 → bsize_is s2 v2 →
  bsize_is (bsize_add s1 s2) (v1 + v2).
Proof.
  unfold bsize_is, bsize_ok. intros ?? [Ho1 H1] [Ho2 H2]. simpl.
  split; [apply u64_ok|].
  destruct (is_overflow s1), (is_overflow s2); simpl; try lia.
  zcase. rewrite u64_small; lia.
Qed.
Lemma bsize_max_is s1 s2 v1 v2 :
  bsize_is s1 v1 → bsize_is s2 v2 →
  is_overflow s1 = false → is_overflow s2 = false →
  bsize_is (bsize_max s1 s2) (Z.max v1 v2).
Proof.
  unfold bsize_is, bsize_ok. intros [Ho1 H1] [Ho2 H2] E1 E2. simpl.
  rewrite E1, E2 in *. split; [apply u64_ok|]. simpl.
  rewrite Z.gtb_ltb. destruct (Z.ltb_spec (bvalue s2) (bvalue s1)),
    (Z.leb_spec (bvalue s1) (bvalue s2)); try lia; cbn [Z.b2z];
    rewrite u64_small; lia.
Qed.
Lemma bsize_mul_is s1 s2 v1 v2 :
  0 ≤ v1 → 0 ≤ v2 → bsize_is s1 v1 → bsize_is s2 v2 →
  is_overflow s1 = false → is_overflow s2 = false →
  bsize_is (bsize_mul s1 s2) (v1 * v2).
Proof.
  unfold bsize_is, bsize_ok. intros ?? [Ho1 H1] [Ho2 H2] E1 E2. simpl.
  rewrite E1, E2 in *. simpl. split; [apply u64_ok|]. subst.
  destruct (Z.eqb_spec (bvalue s1) 0) as [->|Hne]; simpl.
  - by rewrite u64_small by (unfold SIZE_MAX, UINT64_MAX; lia).
  - rewrite Z.gtb_ltb. destruct (Z.ltb_spec (SIZE_MAX / bvalue s1) (bvalue s2)) as [Hlt|Hle].
    + assert (SIZE_MAX < bvalue s1 * bvalue s2); [|lia].
      apply Z.nle_gt. intros Hle. apply (Z.div_le_lower_bound _ (bvalue s1)) in Hle; lia.
    + rewrite u64_small; [done|].
      pose proof (Z.mul_div_le SIZE_MAX (bvalue s1)). nia.
Qed.
(** Sizes that do not overflow. *)
Lemma bsize_add_small a b :
  0 ≤ a → 0 ≤ b → a + b ≤ SIZE_MAX →
  bsize_add (bsize_fromsize a) (bsize_fromsize b) = bsize_fromsize (a + b).
Proof.
  intros. unfold bsize_add, bsize_fromsize. cbn. rewrite u64_small by lia. f_equal.
  rewrite Z.gtb_ltb. by apply Z.ltb_ge; lia.
Qed.
Lemma bsize_mul_small a b :
  0 ≤ a → 0 ≤ b → a * b ≤ SIZE_MAX →
  bsize_mul (bsize_fromsize a) (bsize_fromsize b) = bsize_fromsize (a * b).
Proof.
  intros. unfold bsize_mul, bsize_fromsize. cbn. rewrite u64_small by nia. f_equal.
  destruct (Z.eqb_spec a 0) as [->|]; [done|]. cbn. rewrite Z.gtb_ltb. apply Z.ltb_ge.
  apply Z.div_le_lower_bound; lia.
Qed.
End bsize.

#[global] Arguments le_bytes : simpl never.
#[global] Arguments le_val : simpl never.

(** [bdivide_up]: the quotient rounded up, on [size_t]. *)
Definition bdivide_up (a b : Z) : Z :=
  let r := a mod b in if r >? 0 then a / b + 1 else a / b.

Lemma bdivide_up_spec a b :
  0 < b → b * bdivide_up a b - b < a ≤ b * bdivide_up a b.
Proof.
  intros Hb. unfold bdivide_up.
  pose proof (Z.div_mod a b ltac:(lia)). pose proof (Z.mod_pos_bound a b Hb).
  zcase.
Qed.
Lemma bdivide_up_nonneg a b : 0 ≤ a → 0 < b → 0 ≤ bdivide_up a b.
Proof. intros. pose proof (bdivide_up_spec a b). nia. Qed.
Lemma bdivide_up_mono a a' b : 0 < b → a ≤ a' → bdivide_up a b ≤ bdivide_up a' b.
Proof.
  intros. pose proof (bdivide_up_spec a b). pose proof (bdivide_up_spec a' b). nia.
Qed.

#[global] Arguments bdivide_up : simpl never.
#[global] Arguments to_int : simpl never.
#[global] Arguments u8 : simpl never.
#[global] Arguments u16 : simpl never.
#[global] Arguments u32 : simpl never.
#[global] Arguments u64 : simpl never.

(** ** minmax.h, compare.h *)

Definition bmin (a b : Z) : Z := if a <? b then a else b.
Definition bmax (a b : Z) : Z := if a >? b then a else b.
Lemma bmin_spec a b : bmin a b = Z.min a b.
Proof. unfold bmin. zcase. Qed.
Lemma bmax_spec a b : bmax a b = Z.max a b.
Proof. unfold bmax. zcase. Qed.

(** [B_COMPARE(a, b)] is [(a > b) - (a < b)]. *)
Definition B_COMPARE (a b : Z) : Z := Z.b2z (a >? b) - Z.b2z (a <? b).
Lemma B_COMPARE_spec a b :
  B_COMPARE a b = match a ?= b with Lt => -1 | Eq => 0 | Gt => 1 end.
Proof.
  unfold B_COMPARE. rewrite Z.gtb_ltb.
  destruct (Z.compare_spec a b), (Z.ltb_spec b a), (Z.ltb_spec a b); simpl; lia.
Qed.
