(* ===== verification/Pending.v ===== *)
(** * Deferred jobs and the packet passing interface

    [base/BPending.c] and [flow/PacketPassInterface.h], [.c].  A pending group is
    a stack of jobs; the reactor always runs the job on top.  The interface
    between a packet sender and its receiver is made of three jobs, and lets each
    side call the other only through the group. *)

From S2P Require Import Prelude CInt.

(** ** BPending.c

    The list of jobs of a group, the first job first.  A job that is not in the
    list is one whose [pending_node.next] points to itself. *)
Section BPending.
Context {J : Type} `{EqDecision J}.
Implicit Types (g : list J) (o p : J).

Definition BPendingGroup_Init : list J := [].
Definition BPendingGroup_Free g : option unit :=
  assert! bool_decide (g = []); Some tt.
Definition BPendingGroup_HasJobs g : bool := negb (bool_decide (g = [])).
Definition BPendingGroup_PeekJob g : option J := head g.
(** [BPending__List_Remove] *)
Definition list_remove o g : list J := filter (λ p, p ≠ o) g.
Definition BSmallPending_IsSet o g : bool := bool_decide (o ∈ g).
(** the job to run and the group its handler runs in *)
Definition BPendingGroup_ExecuteJob g : option (J * list J) :=
  match BPendingGroup_PeekJob g with
  | Some p => Some (p, list_remove p g)
  | None => None
  end.
Definition BSmallPending_Set o g : list J :=
  let g := if BSmallPending_IsSet o g then list_remove o g else g in o :: g.
Definition BSmallPending_Unset o g : list J :=
  if BSmallPending_IsSet o g then list_remove o g else g.
Definition BSmallPending_Free o g : list J :=
  if BSmallPending_IsSet o g then list_remove o g else g.

Lemma elem_of_list_remove o p g : p ∈ list_remove o g ↔ p ≠ o ∧ p ∈ g.
Proof. unfold list_remove. by rewrite list_elem_of_filter. Qed.
Lemma list_remove_id o g : o ∉ g → list_remove o g = g.
Proof.
  unfold list_remove. induction g as [|p g IH]; [done|]. rewrite not_elem_of_cons.
  intros [Hne Hin]. rewrite filter_cons_True by done. by rewrite IH.
Qed.
Lemma NoDup_list_remove o g : NoDup g → NoDup (list_remove o g).
Proof. apply list.NoDup_filter. Qed.
Lemma Set_eq o g : BSmallPending_Set o g = o :: list_remove o g.
Proof.
  unfold BSmallPending_Set, BSmallPending_IsSet. case_bool_decide; [done|].
  by rewrite list_remove_id.
Qed.
Lemma Unset_eq o g : BSmallPending_Unset o g = list_remove o g.
Proof.
  unfold BSmallPending_Unset, BSmallPending_IsSet. case_bool_decide; [done|].
  by rewrite list_remove_id.
Qed.
Lemma elem_of_Set o p g : p ∈ BSmallPending_Set o g ↔ p = o ∨ p ∈ g.
Proof.
  rewrite Set_eq, elem_of_cons, elem_of_list_remove. destruct (decide (p = o)); tauto.
Qed.
Lemma elem_of_Unset o p g : p ∈ BSmallPending_Unset o g ↔ p ≠ o ∧ p ∈ g.
Proof. by rewrite Unset_eq, elem_of_list_remove. Qed.
Lemma NoDup_Set o g : NoDup g → NoDup (BSmallPending_Set o g).
Proof.
  intros H. rewrite Set_eq. constructor; [|by apply NoDup_list_remove].
  rewrite elem_of_list_remove. by intros [? _].
Qed.
Lemma NoDup_Unset o g : NoDup g → NoDup (BSmallPending_Unset o g).
Proof. rewrite Unset_eq. apply NoDup_list_remove. Qed.
Lemma Execute_cons p g :
  NoDup (p :: g) → BPendingGroup_ExecuteJob (p :: g) = Some (p, g).
Proof.
  intros [? ?]%list.NoDup_cons. unfold BPendingGroup_ExecuteJob.
  change (BPendingGroup_PeekJob (p :: g)) with (Some p). do 2 f_equal.
  unfold list_remove at 1. rewrite filter_cons_False by (intros H'; by apply H').
  by apply list_remove_id.
Qed.
End BPending.
Create HintDb pending.
#[export] Hint Resolve NoDup_Set NoDup_Unset NoDup_list_remove : pending.

(** ** PacketPassInterface *)

Inductive ppi_state := PPI_STATE_NONE | PPI_STATE_OPERATION_PENDING | PPI_STATE_BUSY
  | PPI_STATE_DONE_PENDING.
#[export] Instance ppi_state_eq_dec : EqDecision ppi_state.
Proof. solve_decision. Defined.

(** the three jobs of an interface, among the other jobs of its group *)
Inductive job := job_operation | job_requestcancel | job_done | other_job (n : Z).
#[export] Instance job_eq_dec : EqDecision job.
Proof. solve_decision. Defined.

Record PacketPassInterface := mkPPI {
  mtu : Z;
  has_requestcancel : bool;         (** [handler_requestcancel != NULL] *)
  has_done : bool;                  (** [handler_done != NULL] *)
  job_operation_data : Z;
  job_operation_len : Z;
  state : ppi_state;
  cancel_requested : bool;
  pg : list job;                    (** the pending group *)
}.

(** Calls of the handlers of the two sides. *)
Inductive ppi_call :=
| handler_operation (data data_len : Z)
| handler_requestcancel
| handler_done
| run_other (n : Z).

Definition set_state (st : ppi_state) (i : PacketPassInterface) : PacketPassInterface :=
  mkPPI (mtu i) (has_requestcancel i) (has_done i) (job_operation_data i)
    (job_operation_len i) st (cancel_requested i) (pg i).
Definition set_cancel (c : bool) (i : PacketPassInterface) : PacketPassInterface :=
  mkPPI (mtu i) (has_requestcancel i) (has_done i) (job_operation_data i)
    (job_operation_len i) (state i) c (pg i).
Definition set_pg (g : list job) (i : PacketPassInterface) : PacketPassInterface :=
  mkPPI (mtu i) (has_requestcancel i) (has_done i) (job_operation_data i)
    (job_operation_len i) (state i) (cancel_requested i) g.
Definition BPending_Set (j : job) : M PacketPassInterface ppi_call unit :=
  modify (λ i, set_pg (BSmallPending_Set j (pg i)) i).
Definition BPending_Unset (j : job) : M PacketPassInterface ppi_call unit :=
  modify (λ i, set_pg (BSmallPending_Unset j (pg i)) i).
Definition set_st (st : ppi_state) : M PacketPassInterface ppi_call unit :=
  modify (set_state st).
Definition is_state (st : ppi_state) (i : PacketPassInterface) : bool :=
  bool_decide (state i = st).

Definition PacketPassInterface_Init (m : Z) (g : list job) : option PacketPassInterface :=
  assert! (m >=? 0);
  Some (mkPPI m false false 0 0 PPI_STATE_NONE false g).

Definition PacketPassInterface_Free : M PacketPassInterface ppi_call unit :=
  modify (λ i, set_pg (BSmallPending_Free job_done (pg i)) i);;
  modify (λ i, set_pg (BSmallPending_Free job_requestcancel (pg i)) i);;
  modify (λ i, set_pg (BSmallPending_Free job_operation (pg i)) i).

Definition PacketPassInterface_EnableCancel : M PacketPassInterface ppi_call unit :=
  i ← get;
  ASSERT (negb (has_requestcancel i));;
  ASSERT (negb (has_done i));;
  put (mkPPI (mtu i) true (has_done i) (job_operation_data i) (job_operation_len i)
         (state i) (cancel_requested i) (pg i)).

Definition PacketPassInterface_Sender_Init : M PacketPassInterface ppi_call unit :=
  i ← get;
  ASSERT (negb (has_done i));;
  put (mkPPI (mtu i) (has_requestcancel i) true (job_operation_data i) (job_operation_len i)
         (state i) (cancel_requested i) (pg i)).

Definition PacketPassInterface_Done : M PacketPassInterface ppi_call unit :=
  i ← get;
  ASSERT (is_state PPI_STATE_BUSY i);;
  BPending_Unset job_requestcancel;;
  BPending_Set job_done;;
  set_st PPI_STATE_DONE_PENDING.

(** [data] is an address; 0 is the null pointer *)
Definition PacketPassInterface_Sender_Send (data data_len : Z) : M PacketPassInterface ppi_call unit :=
  i ← get;
  ASSERT (data_len >=? 0);;
  ASSERT (data_len <=? mtu i);;
  ASSERT (negb (data_len >? 0) || negb (data =? 0));;
  ASSERT (is_state PPI_STATE_NONE i);;
  ASSERT (has_done i);;
  modify (λ i, mkPPI (mtu i) (has_requestcancel i) (has_done i) data data_len
                 (state i) (cancel_requested i) (pg i));;
  BPending_Set job_operation;;
  set_st PPI_STATE_OPERATION_PENDING;;
  modify (set_cancel false).

Definition PacketPassInterface_Sender_RequestCancel : M PacketPassInterface ppi_call unit :=
  i ← get;
  ASSERT (is_state PPI_STATE_OPERATION_PENDING i || is_state PPI_STATE_BUSY i
          || is_state PPI_STATE_DONE_PENDING i);;
  ASSERT (has_requestcancel i);;
  if cancel_requested i then mret tt
  else
    modify (set_cancel true);;
    if is_state PPI_STATE_OPERATION_PENDING i then
      BPending_Unset job_operation;;
      BPending_Set job_done;;
      set_st PPI_STATE_DONE_PENDING
    else if is_state PPI_STATE_BUSY i then BPending_Set job_requestcancel
    else mret tt.

Definition _PacketPassInterface_job_operation : M PacketPassInterface ppi_call unit :=
  i ← get;
  ASSERT (is_state PPI_STATE_OPERATION_PENDING i);;
  set_st PPI_STATE_BUSY;;
  emit (handler_operation (job_operation_data i) (job_operation_len i)).

Definition _PacketPassInterface_job_requestcancel : M PacketPassInterface ppi_call unit :=
  i ← get;
  ASSERT (is_state PPI_STATE_BUSY i);;
  ASSERT (cancel_requested i);;
  ASSERT (has_requestcancel i);;
  emit handler_requestcancel.

Definition _PacketPassInterface_job_done : M PacketPassInterface ppi_call unit :=
  i ← get;
  ASSERT (is_state PPI_STATE_DONE_PENDING i);;
  set_st PPI_STATE_NONE;;
  emit handler_done.

(** [BPendingGroup_ExecuteJob] on the group of the interface *)
Definition execute_job : M PacketPassInterface ppi_call unit :=
  i ← get;
  match BPendingGroup_ExecuteJob (pg i) with
  | None => mret tt
  | Some (j, g) =>
      modify (set_pg g);;
      match j with
      | job_operation => _PacketPassInterface_job_operation
      | job_requestcancel => _PacketPassInterface_job_requestcancel
      | job_done => _PacketPassInterface_job_done
      | other_job n => emit (run_other n)
      end
  end.

(** ** The two users of an interface

    The sender sends and requests cancellation, the receiver finishes the
    operation, other components set their own jobs in the group, and the reactor
    runs jobs. *)
Inductive ppi_op := Send (data data_len : Z) | RequestCancel | Done | Execute
  | SetOther (n : Z).
Inductive ppi_event := sent (data data_len : Z) | call (c : ppi_call).

Definition with_events (pre : list ppi_event) (r : option (unit * PacketPassInterface * list ppi_call)) :
    option (unit * PacketPassInterface * list ppi_event) :=
  match r with Some (u, i, es) => Some (u, i, pre ++ map call es) | None => None end.
Definition ppi_step (op : ppi_op) : M PacketPassInterface ppi_event unit := λ i,
  match op with
  | Send d l => with_events [sent d l] (PacketPassInterface_Sender_Send d l i)
  | RequestCancel => with_events [] (PacketPassInterface_Sender_RequestCancel i)
  | Done => with_events [] (PacketPassInterface_Done i)
  | Execute => with_events [] (execute_job i)
  | SetOther n => with_events [] (BPending_Set (other_job n) i)
  end.

(** The jobs in the group are those the state asks for. *)
Definition jobs_ok (i : PacketPassInterface) : Prop :=
  match state i with
  | PPI_STATE_NONE =>
      job_operation ∉ pg i ∧ job_requestcancel ∉ pg i ∧ job_done ∉ pg i
  | PPI_STATE_OPERATION_PENDING =>
      job_operation ∈ pg i ∧ job_requestcancel ∉ pg i ∧ job_done ∉ pg i ∧
      cancel_requested i = false
  | PPI_STATE_BUSY =>
      job_operation ∉ pg i ∧ job_done ∉ pg i ∧
      (job_requestcancel ∈ pg i → cancel_requested i = true ∧ has_requestcancel i = true)
  | PPI_STATE_DONE_PENDING =>
      job_operation ∉ pg i ∧ job_requestcancel ∉ pg i ∧ job_done ∈ pg i
  end.
Definition ppi_wf (i : PacketPassInterface) : Prop := NoDup (pg i) ∧ jobs_ok i.

(** What the two sides may rely on: a send is followed by the receiver's
    handler on the same data, unless it was cancelled before, then by at most
    one cancel request, then by the sender's handler; only then the next send. *)
Inductive contract := CIdle | CSent (data data_len : Z) | CBusy (cancelled : bool).
Definition contract_step (c : contract) (e : ppi_event) : option contract :=
  match c, e with
  | CIdle, sent d l => Some (CSent d l)
  | CSent d l, call (handler_operation d' l') =>
      if (d =? d') && (l =? l') then Some (CBusy false) else None
  | CSent _ _, call handler_done => Some CIdle
  | CBusy false, call handler_requestcancel => Some (CBusy true)
  | CBusy _, call handler_done => Some CIdle
  | _, call (run_other _) => Some c
  | _, _ => None
  end.
Fixpoint contract_run (c : contract) (es : list ppi_event) : option contract :=
  match es with
  | [] => Some c
  | e :: es => c' ← contract_step c e; contract_run c' es
  end.
Lemma contract_run_app c es1 es2 :
  contract_run c (es1 ++ es2) = c' ← contract_run c es1; contract_run c' es2.
Proof.
  revert c. induction es1 as [|e es1 IH]; intros c; [done|]. simpl.
  destruct (contract_step c e); [|done]. simpl. apply IH.
Qed.

(** how the state of the interface and the history correspond *)
Definition contract_ok (i : PacketPassInterface) (c : contract) : Prop :=
  match c with
  | CIdle => state i = PPI_STATE_NONE
  | CSent d l =>
      (state i = PPI_STATE_OPERATION_PENDING ∧ job_operation_data i = d ∧ job_operation_len i = l)
      ∨ (state i = PPI_STATE_DONE_PENDING ∧ cancel_requested i = true)
  | CBusy b =>
      state i = PPI_STATE_BUSY ∧
        (b = true → cancel_requested i = true ∧ job_requestcancel ∉ pg i)
      ∨ state i = PPI_STATE_DONE_PENDING
  end.

Definition ppi_inv (i : PacketPassInterface) (c : contract) : Prop :=
  ppi_wf i ∧ contract_ok i c ∧ has_done i = true.

(** Run an operation on an explicit state. *)
Ltac ppi_exec H :=
  cbv [with_events PacketPassInterface_Sender_Send PacketPassInterface_Sender_RequestCancel
       PacketPassInterface_Done _PacketPassInterface_job_operation
       _PacketPassInterface_job_requestcancel _PacketPassInterface_job_done
       BPending_Set BPending_Unset set_st is_state set_state set_cancel set_pg
       mbind M_bind mret M_ret get put modify emit ASSERT] in H;
  cbn in H; repeat case_match; simplify_eq; cbn in *.
Ltac ppi_done :=
  unfold ppi_inv, ppi_wf, jobs_ok, contract_ok in *; cbn in *;
  rewrite ?elem_of_Set, ?elem_of_Unset, ?elem_of_cons in *;
  split_and!; auto with pending;
  try (intuition congruence).

Lemma Send_inv d l i c u i' es :
  ppi_inv i c → ppi_step (Send d l) i = Some (u, i', es) →
  ∃ c', contract_run c es = Some c' ∧ ppi_inv i' c'.
Proof.
  intros ((Hnd & Hj) & Hc & Hd) H. destruct i as [m hc hd dat len st cr g].
  cbn [ppi_step] in H. ppi_exec H. zbool. 
  destruct st; try done. exists (CSent d l). destruct c; cbn in *; ppi_done.
Qed.

Lemma RequestCancel_inv i c u i' es :
  ppi_inv i c → ppi_step RequestCancel i = Some (u, i', es) →
  ∃ c', contract_run c es = Some c' ∧ ppi_inv i' c'.
Proof.
  intros ((Hnd & Hj) & Hc & Hd) H. destruct i as [m hc hd dat len st cr g].
  cbn [ppi_step] in H. destruct st, c as [| |[]]; ppi_exec H; zbool; eexists; split; try reflexivity; ppi_done.
Qed.

Lemma Done_inv i c u i' es :
  ppi_inv i c → ppi_step Done i = Some (u, i', es) →
  ∃ c', contract_run c es = Some c' ∧ ppi_inv i' c'.
Proof.
  intros ((Hnd & Hj) & Hc & Hd) H. destruct i as [m hc hd dat len st cr g].
  cbn [ppi_step] in H. destruct st, c as [| |[]]; ppi_exec H; zbool; eexists; split; try reflexivity; ppi_done.
Qed.

Lemma SetOther_inv n i c u i' es :
  ppi_inv i c → ppi_step (SetOther n) i = Some (u, i', es) →
  ∃ c', contract_run c es = Some c' ∧ ppi_inv i' c'.
Proof.
  intros ((Hnd & Hj) & Hc & Hd) H. destruct i as [m hc hd dat len st cr g].
  cbn [ppi_step] in H. destruct st, c as [| |[]]; ppi_exec H; zbool; eexists; split; try reflexivity; ppi_done.
Qed.

(** A job of a well-formed interface never fails its assertions. *)
Lemma Execute_inv i c :
  ppi_inv i c →
  ∃ i' es c', ppi_step Execute i = Some (tt, i', es) ∧ contract_run c es = Some c' ∧
    ppi_inv i' c'.
Proof.
  intros ((Hnd & Hj) & Hc & Hd). destruct i as [m hc hd dat len st cr g]. cbn in Hnd, Hd.
  subst hd. cbn [ppi_step]. unfold execute_job.
  rewrite (M_bind_run _ _ _ _ _ _ eq_refl). cbn [pg].
  destruct g as [|j g]; [by eexists _, [], c|]. rewrite Execute_cons by done.
  apply list.NoDup_cons in Hnd as [Hj0 Hnd].
  unfold jobs_ok in Hj. cbn in Hj.
  destruct st; rewrite !elem_of_cons in Hj; destruct j; try (exfalso; intuition congruence);
    destruct c as [|dd ll|[]]; cbn in Hc; rewrite ?elem_of_cons in Hc;
    try (exfalso; intuition congruence).
  all: cbv [with_events _PacketPassInterface_job_operation
       _PacketPassInterface_job_requestcancel _PacketPassInterface_job_done
       set_st is_state set_state set_cancel set_pg
       mbind M_bind mret M_ret get put modify emit ASSERT]; cbn.
  all: repeat (case_bool_decide || match goal with
    |- context [if ?b then _ else _] => destruct b eqn:? end); cbn; try congruence.
  all: try (exfalso; intuition congruence).
  all: eexists _, _, _; split; [reflexivity|].
  all: cbn; repeat match goal with |- context [?x =? ?y] =>
    replace x with y by (intuition congruence); rewrite Z.eqb_refl; cbn end.
  all: (split; [reflexivity|]).
  all: ppi_done.
Qed.

Lemma ppi_step_inv op i c u i' es :
  ppi_inv i c → ppi_step op i = Some (u, i', es) →
  ∃ c', contract_run c es = Some c' ∧ ppi_inv i' c'.
Proof.
  intros Hi H. destruct op; eauto using Send_inv, RequestCancel_inv, Done_inv, SetOther_inv.
  destruct (Execute_inv i c Hi) as (i1 & es1 & c' & H1 & ? & ?). simplify_eq. eauto.
Qed.

Lemma ppi_runs_inv ops i c u i' es :
  ppi_inv i c → runs ppi_step ops i = Some (u, i', es) →
  ∃ c', contract_run c es = Some c' ∧ ppi_inv i' c'.
Proof.
  revert i c u es. induction ops as [|op ops IH]; intros i c u es Hi; cbn [runs].
  - intros [= <- <- <-]. by exists c.
  - intros H. run_inv. destruct (ppi_step_inv _ _ _ _ _ _ Hi H0) as (c1 & E1 & Hi1).
    destruct (IH _ _ _ _ Hi1 H1) as (c2 & E2 & Hi2).
    exists c2. by rewrite contract_run_app, E1.
Qed.

(** A fresh interface: [Init], [EnableCancel] when the receiver supports
    cancelling, and [Sender_Init]. *)
Definition ppi_fresh (m : Z) (cancel : bool) (g : list job) : option PacketPassInterface :=
  i ← PacketPassInterface_Init m g;
  match ((when cancel PacketPassInterface_EnableCancel);; PacketPassInterface_Sender_Init) i with
  | Some (_, i, _) => Some i
  | None => None
  end.

Lemma ppi_fresh_inv m cancel g :
  0 ≤ m → NoDup g → job_operation ∉ g → job_requestcancel ∉ g → job_done ∉ g →
  ∃ i, ppi_fresh m cancel g = Some i ∧ ppi_inv i CIdle.
Proof.
  intros Hm Hg ???. unfold ppi_fresh, PacketPassInterface_Init.
  rewrite Z.geb_leb, (proj2 (Z.leb_le 0 m)) by done.
  destruct cancel; eexists; (split; [reflexivity|]); ppi_done.
Qed.

(** ** Properties *)

(** The contract of the packet passing interface.  Whatever the two sides do
    with a fresh interface, as long as they keep to the assertions of its
    functions, the handlers are called in the order of the contract: each packet
    sent reaches the receiver's handler at most once and unchanged, is cancelled
    at most once and only while the receiver is busy with it, and the sender's
    handler is called exactly once before the next packet can be sent.  The
    assertions inside the jobs themselves never fail. *)
Theorem PacketPassInterface_contract m cancel g ops u i' es :
  0 ≤ m → NoDup g → job_operation ∉ g → job_requestcancel ∉ g → job_done ∉ g →
  (i ← ppi_fresh m cancel g; runs ppi_step ops i) = Some (u, i', es) →
  (∃ c, contract_run CIdle es = Some c ∧ contract_ok i' c) ∧
  is_Some (ppi_step Execute i').
Proof.
  intros Hm Hg H1 H2 H3 H.
  destruct (ppi_fresh_inv m cancel g Hm Hg H1 H2 H3) as (i & E & Hi).
  rewrite E in H. cbn in H. destruct (ppi_runs_inv _ _ _ _ _ _ Hi H) as (c & ? & Hi').
  destruct (Execute_inv _ _ Hi') as (i2 & es2 & c2 & E2 & _).
  split; [|by rewrite E2]. exists c. split; [done|]. apply Hi'.
Qed.

Lemma PacketPassInterface_contract_witness :
  ∃ i' es, (i ← ppi_fresh 1500 true [other_job 7];
    runs ppi_step [Send 4096 20; Execute; RequestCancel; SetOther 3; Execute; Execute; Done; Execute] i)
    = Some (tt, i', es) ∧
  (∃ c, contract_run CIdle es = Some c ∧ contract_ok i' c) ∧ is_Some (ppi_step Execute i').
Proof.
  eexists _, _. split; [vm_compute; reflexivity|].
  eapply (PacketPassInterface_contract 1500 true [other_job 7]
    [Send 4096 20; Execute; RequestCancel; SetOther 3; Execute; Execute; Done; Execute] tt).
  - done.
  - by apply list.NoDup_singleton.
  - by intros ?%list_elem_of_singleton.
  - by intros ?%list_elem_of_singleton.
  - by intros ?%list_elem_of_singleton.
  - vm_compute. reflexivity.
Defined.
