(* ===== verification/ChunkBuffer.v ===== *)
(** * Circular packet buffer

    [structure/ChunkBuffer2.h].  The buffer is an array of 4-byte blocks; a
    packet is one block holding its length followed by the blocks of its data,
    always contiguous.  The data that follows the last packet that fits before
    the end of the array starts again at block 0, and [wrap] remembers where
    the array was left.

    The model keeps the array as bytes; [input_dest] and [output_dest] are byte
    offsets into it.  Assertions are the boolean tests of the debug build. *)

From S2P Require Import Prelude CInt.

Record ChunkBuffer2 := mkCB {
  buffer : bytes;
  size : Z;
  wrap : Z;
  start : Z;
  used : Z;
  mtu : Z;
  input_dest : option Z;
  input_avail : Z;
  output_dest : option Z;
  output_avail : Z;
}.

(** [sizeof(struct ChunkBuffer2_block)] *)
Definition BLOCK : Z := 4.

Definition set_buffer (mem : bytes) (buf : ChunkBuffer2) : ChunkBuffer2 :=
  mkCB mem (size buf) (wrap buf) (start buf) (used buf) (mtu buf) (input_dest buf)
    (input_avail buf) (output_dest buf) (output_avail buf).
(** [buf->buffer[i].len] *)
Definition block_len (buf : ChunkBuffer2) (i : Z) : Z :=
  to_int (le_val (slice (BLOCK * i) BLOCK (buffer buf))).
Definition set_block_len (i len : Z) (buf : ChunkBuffer2) : ChunkBuffer2 :=
  set_buffer (splice (BLOCK * i) (le_bytes 4 len) (buffer buf)) buf.
Definition set_geometry (w s u : Z) (buf : ChunkBuffer2) : ChunkBuffer2 :=
  mkCB (buffer buf) (size buf) w s u (mtu buf) (input_dest buf) (input_avail buf)
    (output_dest buf) (output_avail buf).
Definition set_input (d : option Z) (a : Z) (buf : ChunkBuffer2) : ChunkBuffer2 :=
  mkCB (buffer buf) (size buf) (wrap buf) (start buf) (used buf) (mtu buf) d a
    (output_dest buf) (output_avail buf).
Definition set_output (d : option Z) (a : Z) (buf : ChunkBuffer2) : ChunkBuffer2 :=
  mkCB (buffer buf) (size buf) (wrap buf) (start buf) (used buf) (mtu buf)
    (input_dest buf) (input_avail buf) d a.

Definition _ChunkBuffer2_end (buf : ChunkBuffer2) : Z :=
  if used buf >=? wrap buf - start buf then used buf - (wrap buf - start buf)
  else start buf + used buf.

Definition _ChunkBuffer2_assert_buffer (buf : ChunkBuffer2) : bool :=
  (size buf >? 0) && (wrap buf >? 0) && (wrap buf <=? size buf)
  && (start buf >=? 0) && (start buf <? wrap buf)
  && (used buf >=? 0) && (used buf <=? wrap buf)
  && ((wrap buf =? size buf) || (used buf >=? wrap buf - start buf))
  && (mtu buf >=? 0).

(** the number of free blocks from [end] on *)
Definition free_blocks (buf : ChunkBuffer2) : Z :=
  let e := _ChunkBuffer2_end buf in
  if used buf >=? wrap buf - start buf then start buf - e else size buf - e.

Lemma free_blocks_cases buf :
  (wrap buf - start buf ≤ used buf ∧ free_blocks buf = start buf - _ChunkBuffer2_end buf) ∨
  (used buf < wrap buf - start buf ∧ free_blocks buf = size buf - _ChunkBuffer2_end buf).
Proof. unfold free_blocks. zcase; auto. Qed.

Definition opt_eqb (a b : option Z) : bool := bool_decide (a = b).

Definition _ChunkBuffer2_assert_io (buf : ChunkBuffer2) : bool :=
  let e := _ChunkBuffer2_end buf in
  (if size buf - e - 1 <? mtu buf then
     opt_eqb (input_dest buf) None && (input_avail buf =? -1)
   else if free_blocks buf >? 0 then
     opt_eqb (input_dest buf) (Some (BLOCK * (e + 1)))
     && (input_avail buf =? (free_blocks buf - 1) * BLOCK)
   else
     opt_eqb (input_dest buf) None && (input_avail buf =? -1))
  && (if used buf >? 0 then
        let datalen := block_len buf (start buf) in
        let blocklen := bdivide_up datalen BLOCK in
        (datalen >=? 0) && (blocklen <=? used buf - 1)
        && (blocklen <=? wrap buf - start buf - 1)
        && opt_eqb (output_dest buf) (Some (BLOCK * (start buf + 1)))
        && (output_avail buf =? datalen)
      else
        opt_eqb (output_dest buf) None && (output_avail buf =? -1)).

Definition _ChunkBuffer2_update_input (buf : ChunkBuffer2) : ChunkBuffer2 :=
  let e := _ChunkBuffer2_end buf in
  if size buf - e - 1 <? mtu buf then set_input None (-1) buf
  else
    let free := free_blocks buf in
    if free >? 0 then
      set_input (Some (BLOCK * (e + 1))) (to_int ((free - 1) * BLOCK)) buf
    else set_input None (-1) buf.

Definition _ChunkBuffer2_update_output (buf : ChunkBuffer2) : ChunkBuffer2 :=
  if used buf >? 0 then
    set_output (Some (BLOCK * (start buf + 1))) (block_len buf (start buf)) buf
  else set_output None (-1) buf.

Definition ChunkBuffer2_calc_blocks (chunk_len num : Z) : Z :=
  let chunk_data_blocks := to_int (bdivide_up (u64 chunk_len) BLOCK) in
  if chunk_data_blocks >? INT_MAX - 1 then -1
  else
    let chunk_blocks := 1 + chunk_data_blocks in
    if num >? INT_MAX - 1 then -1
    else
      let num_chunks := num + 1 in
      if chunk_blocks >? Z.quot INT_MAX num_chunks then -1
      else chunk_blocks * num_chunks.

Definition ChunkBuffer2_Init (mem : bytes) (blocks mtu_bytes : Z) : option ChunkBuffer2 :=
  assert! (blocks >? 0) && (mtu_bytes >=? 0);
  let buf := mkCB mem blocks blocks 0 0 (to_int (bdivide_up (u64 mtu_bytes) BLOCK))
               None (-1) None (-1) in
  assert! _ChunkBuffer2_assert_buffer buf;
  let buf := _ChunkBuffer2_update_output (_ChunkBuffer2_update_input buf) in
  assert! _ChunkBuffer2_assert_io buf;
  Some buf.

Definition ChunkBuffer2_SubmitPacket (buf : ChunkBuffer2) (len : Z) : option ChunkBuffer2 :=
  assert! not_null (input_dest buf) && (len >=? 0) && (len <=? input_avail buf);
  assert! _ChunkBuffer2_assert_buffer buf && _ChunkBuffer2_assert_io buf;
  let e := _ChunkBuffer2_end buf in
  let blocklen := to_int (bdivide_up (u64 len) BLOCK) in
  assert! (blocklen <=? size buf - e - 1);
  assert! (used buf <? wrap buf - start buf) || (blocklen <=? start buf - e - 1);
  let buf := set_block_len e len buf in
  let buf := set_geometry (wrap buf) (start buf) (used buf + (1 + blocklen)) buf in
  let buf :=
    if (used buf <=? wrap buf - start buf)
       && (mtu buf >? size buf - (e + 1 + blocklen) - 1)
    then set_geometry (e + 1 + blocklen) (start buf) (used buf) buf else buf in
  assert! _ChunkBuffer2_assert_buffer buf;
  let buf := _ChunkBuffer2_update_input buf in
  let buf := if used buf =? 1 + blocklen then _ChunkBuffer2_update_output buf else buf in
  assert! _ChunkBuffer2_assert_io buf;
  Some buf.

Definition ChunkBuffer2_ConsumePacket (buf : ChunkBuffer2) : option ChunkBuffer2 :=
  assert! not_null (output_dest buf);
  assert! _ChunkBuffer2_assert_buffer buf && _ChunkBuffer2_assert_io buf;
  assert! (1 <=? wrap buf - start buf) && (1 <=? used buf);
  let blocklen := to_int (bdivide_up (u64 (block_len buf (start buf))) BLOCK) in
  assert! (blocklen <=? wrap buf - start buf - 1) && (blocklen <=? used buf - 1);
  let data_wrapped := used buf >=? wrap buf - start buf in
  let buf := set_geometry (wrap buf) (start buf + (1 + blocklen))
               (used buf - (1 + blocklen)) buf in
  let buf := if start buf =? wrap buf then set_geometry (size buf) 0 (used buf) buf
             else buf in
  assert! _ChunkBuffer2_assert_buffer buf;
  let buf := if data_wrapped then _ChunkBuffer2_update_input buf else buf in
  let buf := _ChunkBuffer2_update_output buf in
  assert! _ChunkBuffer2_assert_io buf;
  Some buf.

(** What the user of the buffer does before [SubmitPacket]: it writes the data
    of the packet where [input_dest] points. *)
Definition write_input (buf : ChunkBuffer2) (d : bytes) : ChunkBuffer2 :=
  match input_dest buf with
  | Some o => set_buffer (splice o d (buffer buf)) buf
  | None => buf
  end.
(** The packet the user of the buffer reads at [output_dest]. *)
Definition read_output (buf : ChunkBuffer2) : option bytes :=
  o ← output_dest buf; Some (slice o (output_avail buf) (buffer buf)).

(** ** Layout of the packets in the array *)

(** blocks taken by the data of a packet *)
Definition blocklen (d : bytes) : Z := bdivide_up (zlen d) BLOCK.

(** [seg lim mem p q ds]: the packets [ds] lie one after the other from block
    [p] to block [q] of [mem]; each starts at or before block [lim]. *)
Inductive seg (lim : Z) (mem : bytes) : Z → Z → list bytes → Prop :=
| seg_nil p : seg lim mem p p []
| seg_cons p q d ds :
    p ≤ lim →
    to_int (le_val (slice (BLOCK * p) BLOCK mem)) = zlen d →
    slice (BLOCK * (p + 1)) (zlen d) mem = d →
    seg lim mem (p + (1 + blocklen d)) q ds →
    seg lim mem p q (d :: ds).

Lemma seg_nil' lim mem p q : p = q → seg lim mem p q [].
Proof. intros ->. constructor. Qed.
Lemma blocklen_nonneg d : 0 ≤ blocklen d.
Proof. apply bdivide_up_nonneg; [apply zlen_nonneg|done]. Qed.
Lemma blocklen_spec d : 4 * blocklen d - 4 < zlen d ≤ 4 * blocklen d.
Proof. pose proof (bdivide_up_spec (zlen d) BLOCK). unfold blocklen, BLOCK in *. lia. Qed.

Lemma seg_le lim mem p q ds : seg lim mem p q ds → p ≤ q.
Proof. induction 1; [lia|]. pose proof (blocklen_nonneg d). lia. Qed.

Lemma seg_snoc lim mem p q ds d :
  seg lim mem p q ds → q ≤ lim →
  to_int (le_val (slice (BLOCK * q) BLOCK mem)) = zlen d →
  slice (BLOCK * (q + 1)) (zlen d) mem = d →
  seg lim mem p (q + (1 + blocklen d)) (ds ++ [d]).
Proof.
  induction 1 as [p|p q d0 ds Hp Hh Hd Hs IH]; intros.
  - by constructor; [..|constructor].
  - simpl. constructor; auto.
Qed.

(** Writing outside the blocks of a segment leaves it alone. *)
Lemma seg_frame lim mem p q ds o d :
  seg lim mem p q ds → 0 ≤ p → BLOCK * q ≤ zlen mem →
  0 ≤ o → o + zlen d ≤ zlen mem → o + zlen d ≤ BLOCK * p ∨ BLOCK * q ≤ o →
  seg lim (splice o d mem) p q ds.
Proof.
  unfold BLOCK. induction 1 as [p|p q d0 ds Hp Hh Hd Hs IH]; intros; [constructor|].
  pose proof (seg_le _ _ _ _ _ Hs). pose proof (blocklen_spec d0).
  pose proof (blocklen_nonneg d0). pose proof (zlen_nonneg d0). pose proof (zlen_nonneg d).
  assert (∀ a n, 4 * p ≤ a → 0 ≤ n → a + n ≤ 4 * q →
    slice a n (splice o d mem) = slice a n mem) as Hframe.
  { intros. destruct H3 as [?|?].
    - apply slice_splice_after; lia.
    - apply slice_splice_before; lia. }
  constructor; unfold BLOCK in *.
  - done.
  - rewrite Hframe by lia. done.
  - rewrite Hframe by lia. done.
  - apply IH; lia.
Qed.

(** [n] packets of at most [m] bytes take at most [n * (1 + blocks(m))] blocks. *)
Lemma seg_size lim mem p q ds m :
  seg lim mem p q ds → Forall (λ d, zlen d ≤ m) ds →
  q - p ≤ zlen ds * (1 + bdivide_up m BLOCK).
Proof.
  induction 1 as [p|p q d ds Hp Hh Hd Hs IH]; intros HF.
  - change (zlen (@nil bytes)) with 0. lia.
  - inversion HF; subst. specialize (IH ltac:(done)). rewrite zlen_cons.
    assert (blocklen d ≤ bdivide_up m BLOCK) by (by apply bdivide_up_mono). lia.
Qed.

(** ** Invariant

    [wf buf q]: the fields satisfy the assertions of the code and [q] is the
    queue of packets in the buffer.  [lim] is the last block at which a packet of
    [mtu] blocks still fits before the end of the array. *)
Definition lim (buf : ChunkBuffer2) : Z := size buf - mtu buf - 1.

Definition geometry (buf : ChunkBuffer2) (q : list bytes) : Prop :=
  let mem := buffer buf in
  (used buf < wrap buf - start buf ∧ wrap buf = size buf ∧
     start buf + used buf ≤ lim buf ∧
     seg (lim buf) mem (start buf) (start buf + used buf) q)
  ∨ (wrap buf - start buf ≤ used buf ∧ lim buf < wrap buf ∧
     ∃ q1 q2, q = q1 ++ q2 ∧
       seg (lim buf) mem (start buf) (wrap buf) q1 ∧
       seg (lim buf) mem 0 (used buf - (wrap buf - start buf)) q2).

Record wf (buf : ChunkBuffer2) (q : list bytes) : Prop := {
  wf_mem : zlen (buffer buf) = BLOCK * size buf;
  wf_size : 0 < size buf ∧ BLOCK * size buf ≤ INT_MAX;
  wf_mtu : 0 ≤ mtu buf < size buf;
  wf_wrap : 0 < wrap buf ≤ size buf;
  wf_start : 0 ≤ start buf < wrap buf ∧ start buf ≤ lim buf;
  wf_used : 0 ≤ used buf ≤ wrap buf;
  wf_geom : geometry buf q;
  wf_in : _ChunkBuffer2_update_input buf = buf;
  wf_out : _ChunkBuffer2_update_output buf = buf;
}.

Lemma update_input_idem buf :
  _ChunkBuffer2_update_input (_ChunkBuffer2_update_input buf)
  = _ChunkBuffer2_update_input buf.
Proof.
  destruct buf. unfold _ChunkBuffer2_update_input at 2 3. cbn.
  repeat case_match; unfold _ChunkBuffer2_update_input, set_input, free_blocks,
    _ChunkBuffer2_end in *; cbn in *;
  repeat case_match; congruence.
Qed.

(** The end of the data lies at or before [lim]: the branch of [update_input]
    for "never possible" is never taken. *)
Lemma wf_end buf q :
  wf buf q → 0 ≤ _ChunkBuffer2_end buf ≤ lim buf ∧ 0 ≤ free_blocks buf ≤ size buf.
Proof.
  intros [Hm Hs Hmtu Hw Hst Hu Hg _ _]. unfold _ChunkBuffer2_end, free_blocks, _ChunkBuffer2_end.
  destruct Hg as [(?&?&?&?)|(?&?&q1&q2&?&?&?)]; repeat zcase.
Qed.

(** [input_dest] and [input_avail] in terms of the free blocks. *)
Lemma wf_input buf q :
  wf buf q →
  (free_blocks buf = 0 ∧ input_dest buf = None ∧ input_avail buf = -1) ∨
  (0 < free_blocks buf ∧
   input_dest buf = Some (BLOCK * (_ChunkBuffer2_end buf + 1)) ∧
   input_avail buf = (free_blocks buf - 1) * BLOCK).
Proof.
  intros Hwf. pose proof (wf_end _ _ Hwf) as [He Hf].
  pose proof (wf_in _ _ Hwf) as Hin. pose proof (wf_size _ _ Hwf). unfold lim in *.
  unfold _ChunkBuffer2_update_input in Hin. revert Hin.
  destruct (Z.ltb_spec (size buf - _ChunkBuffer2_end buf - 1) (mtu buf)); [lia|].
  rewrite Z.gtb_ltb. destruct (Z.ltb_spec 0 (free_blocks buf)); intros Hin; rewrite <-Hin; simpl.
  - right. rewrite Hin. split; [done|]. split; [done|].
    rewrite to_int_small; [done|]. unfold BLOCK in *. lia.
  - left. rewrite Hin. split; [lia|done].
Qed.

(** [output_dest] and [output_avail] describe the first packet. *)
Lemma wf_output buf q :
  wf buf q →
  match q with
  | [] => used buf = 0 ∧ output_dest buf = None ∧ output_avail buf = -1
  | d :: _ => 0 < used buf ∧ output_dest buf = Some (BLOCK * (start buf + 1)) ∧
      output_avail buf = zlen d ∧ block_len buf (start buf) = zlen d ∧
      slice (BLOCK * (start buf + 1)) (zlen d) (buffer buf) = d ∧
      1 + blocklen d ≤ used buf ∧ 1 + blocklen d ≤ wrap buf - start buf
  end.
Proof.
  intros Hwf. pose proof (wf_out _ _ Hwf) as Hout.
  destruct Hwf as [Hm Hs Hmtu Hw Hst Hu Hg _ _].
  unfold _ChunkBuffer2_update_output in Hout. rewrite Z.gtb_ltb in Hout.
  assert (match q with
    | [] => used buf = 0
    | d :: _ => 0 < used buf ∧ block_len buf (start buf) = zlen d ∧
      slice (BLOCK * (start buf + 1)) (zlen d) (buffer buf) = d ∧
      1 + blocklen d ≤ used buf ∧ 1 + blocklen d ≤ wrap buf - start buf end) as Hq.
  { destruct Hg as [(?&?&?&Hseg)|(?&?&q1&q2&->&Hseg&Hseg2)].
    - inversion Hseg as [|????? Hh Hd Hs']; subst.
      + lia.
      + pose proof (seg_le _ _ _ _ _ Hs'). pose proof (blocklen_nonneg d).
        repeat split; auto; lia.
    - inversion Hseg as [|? ? d q1' ? Hh Hd Hs']; subst; [lia|]. cbn [app].
      pose proof (seg_le _ _ _ _ _ Hs'). pose proof (blocklen_nonneg d).
      repeat split; auto; lia. }
  destruct q as [|d q]; [|destruct Hq as (? & Hb & ? & ? & ?)];
    destruct (Z.ltb_spec 0 (used buf)); try lia; rewrite <-Hout; simpl; [done|].
  rewrite Hout. repeat split; auto.
Qed.

Lemma opt_eqb_refl a : opt_eqb a a = true.
Proof. unfold opt_eqb. by rewrite bool_decide_true. Qed.

Lemma wf_assert_buffer buf q : wf buf q → _ChunkBuffer2_assert_buffer buf = true.
Proof.
  intros [Hm Hs Hmtu Hw Hst Hu Hg _ _]. unfold _ChunkBuffer2_assert_buffer.
  destruct Hg as [(?&?&?&?)|(?&?&q1&q2&?&?&?)]; repeat zcase; rewrite ?orb_true_r; done.
Qed.

Lemma wf_assert_io buf q : wf buf q → _ChunkBuffer2_assert_io buf = true.
Proof.
  intros Hwf. pose proof (wf_end _ _ Hwf) as [He Hf].
  pose proof (wf_input _ _ Hwf) as Hin. pose proof (wf_output _ _ Hwf) as Hout.
  unfold _ChunkBuffer2_assert_io, lim in *.
  apply andb_true_iff. split.
  - destruct Hin as [(?&->&->)|(?&->&->)]; rewrite !opt_eqb_refl; by repeat zcase.
  - destruct q as [|d q].
    + destruct Hout as (-> & -> & ->). done.
    + destruct Hout as (? & -> & -> & -> & ? & ? & ?).
      pose proof (zlen_nonneg d). change (bdivide_up (zlen d) BLOCK) with (blocklen d).
      rewrite opt_eqb_refl. by repeat zcase.
Qed.

(** ** Operations

    Helper facts: the fields the input and output parts depend on. *)

Lemma update_in_out buf :
  _ChunkBuffer2_update_input (_ChunkBuffer2_update_output buf)
  = _ChunkBuffer2_update_output (_ChunkBuffer2_update_input buf).
Proof.
  destruct buf. unfold _ChunkBuffer2_update_input, _ChunkBuffer2_update_output,
    free_blocks, _ChunkBuffer2_end, block_len, set_input, set_output.
  cbn. repeat case_match; try done; cbn in *; congruence.
Qed.
Lemma update_output_idem buf :
  _ChunkBuffer2_update_output (_ChunkBuffer2_update_output buf)
  = _ChunkBuffer2_update_output buf.
Proof.
  destruct buf. unfold _ChunkBuffer2_update_output at 2 3. cbn.
  repeat case_match; unfold _ChunkBuffer2_update_output, set_output, block_len in *;
    cbn in *; repeat case_match; congruence.
Qed.

(** The invariant without its input and output parts, re-established by
    updating both. *)
Definition wf_geo (buf : ChunkBuffer2) (q : list bytes) : Prop :=
  zlen (buffer buf) = BLOCK * size buf ∧ (0 < size buf ∧ BLOCK * size buf ≤ INT_MAX) ∧
  0 ≤ mtu buf < size buf ∧ 0 < wrap buf ≤ size buf ∧
  (0 ≤ start buf < wrap buf ∧ start buf ≤ lim buf) ∧ 0 ≤ used buf ≤ wrap buf ∧
  geometry buf q.

Definition refresh (buf : ChunkBuffer2) : ChunkBuffer2 :=
  _ChunkBuffer2_update_output (_ChunkBuffer2_update_input buf).

Lemma refresh_fields buf :
  buffer (refresh buf) = buffer buf ∧ size (refresh buf) = size buf ∧
  wrap (refresh buf) = wrap buf ∧ start (refresh buf) = start buf ∧
  used (refresh buf) = used buf ∧ mtu (refresh buf) = mtu buf.
Proof.
  unfold refresh, _ChunkBuffer2_update_output, _ChunkBuffer2_update_input.
  repeat case_match; done.
Qed.

Lemma wf_refresh buf q : wf_geo buf q → wf (refresh buf) q.
Proof.
  pose proof (refresh_fields buf) as (E1&E2&E3&E4&E5&E6).
  intros (?&?&?&?&?&?&Hg). split; unfold geometry, lim in *; rewrite ?E1, ?E2, ?E3, ?E4, ?E5, ?E6; try done.
  - unfold refresh. by rewrite update_in_out, update_input_idem.
  - unfold refresh. by rewrite update_output_idem.
Qed.

Lemma wf_geo_of buf q : wf buf q → wf_geo buf q.
Proof. by intros []. Qed.
Lemma wf_refreshed buf q : wf buf q → refresh buf = buf.
Proof. intros H. unfold refresh. by rewrite (wf_in _ _ H), (wf_out _ _ H). Qed.
Lemma wf_geo_assert_buffer buf q : wf_geo buf q → _ChunkBuffer2_assert_buffer buf = true.
Proof.
  intros H. apply wf_refresh in H. apply wf_assert_buffer in H. revert H.
  pose proof (refresh_fields buf) as (E1&E2&E3&E4&E5&E6).
  unfold _ChunkBuffer2_assert_buffer. by rewrite E2, E3, E4, E5, E6.
Qed.

(** *** Init *)
Lemma Init_wf mem blocks mtu_bytes :
  zlen mem = BLOCK * blocks → BLOCK * blocks ≤ INT_MAX → 0 ≤ mtu_bytes →
  bdivide_up mtu_bytes BLOCK < blocks →
  ∃ buf, ChunkBuffer2_Init mem blocks mtu_bytes = Some buf ∧ wf buf [] ∧
    size buf = blocks ∧ mtu buf = bdivide_up mtu_bytes BLOCK.
Proof.
  intros Hmem Hmax Hmtu Hlt.
  pose proof (bdivide_up_nonneg mtu_bytes BLOCK Hmtu ltac:(done)).
  pose proof (bdivide_up_spec mtu_bytes BLOCK ltac:(done)). unfold BLOCK, INT_MAX in *.
  assert (to_int (bdivide_up (u64 mtu_bytes) 4) = bdivide_up mtu_bytes 4) as Hm.
  { rewrite u64_small, to_int_small by (unfold SIZE_MAX, UINT64_MAX, INT_MAX; lia). done. }
  set (b0 := mkCB mem blocks blocks 0 0 (bdivide_up mtu_bytes 4) None (-1) None (-1)).
  assert (wf_geo b0 []) as Hgeo.
  { unfold wf_geo, lim, geometry. cbn. unfold BLOCK, INT_MAX, lim in *.
    split_and!; try lia. left. cbn. split_and!; [lia..|constructor]. }
  pose proof (wf_refresh _ _ Hgeo) as Hwf.
  exists (refresh b0). unfold ChunkBuffer2_Init, BLOCK. rewrite Hm. fold b0.
  rewrite (wf_geo_assert_buffer _ _ Hgeo). fold (refresh b0).
  rewrite (wf_assert_io _ _ Hwf).
  pose proof (refresh_fields b0) as (E1&E2&E3&E4&E5&E6).
  repeat zcase. split; [done|]. split; [done|]. by rewrite E2, E6.
Qed.

Lemma to_int_blocklen d :
  zlen d ≤ INT_MAX → to_int (bdivide_up (u64 (zlen d)) BLOCK) = blocklen d.
Proof.
  intros. pose proof (zlen_nonneg d). pose proof (blocklen_spec d). unfold INT_MAX in *.
  rewrite u64_small by (unfold SIZE_MAX, UINT64_MAX; lia). fold (blocklen d).
  apply to_int_small. unfold INT_MAX. lia.
Qed.

(** The length field just written reads back. *)
Lemma header_splice i n mem :
  0 ≤ i → BLOCK * i + 4 ≤ zlen mem → 0 ≤ n ≤ INT_MAX →
  to_int (le_val (slice (BLOCK * i) BLOCK (splice (BLOCK * i) (le_bytes 4 n) mem))) = n.
Proof.
  unfold BLOCK, INT_MAX. intros.
  rewrite slice_splice_same by (rewrite ?zlen_le_bytes; lia).
  rewrite le_val_le_bytes, Z.mod_small by lia. apply to_int_small. unfold INT_MAX. lia.
Qed.

Lemma update_input_set_buffer mem buf :
  _ChunkBuffer2_update_input (set_buffer mem buf) = set_buffer mem (_ChunkBuffer2_update_input buf).
Proof.
  unfold _ChunkBuffer2_update_input, free_blocks, _ChunkBuffer2_end.
  cbn. repeat case_match; done.
Qed.
Lemma update_output_set_buffer mem buf :
  (0 < used buf →
     slice (BLOCK * start buf) BLOCK mem = slice (BLOCK * start buf) BLOCK (buffer buf)) →
  _ChunkBuffer2_update_output (set_buffer mem buf) = set_buffer mem (_ChunkBuffer2_update_output buf).
Proof.
  unfold _ChunkBuffer2_update_output, block_len. cbn. intros H.
  rewrite Z.gtb_ltb. destruct (Z.ltb_spec 0 (used buf)) as [Hu|]; [|done].
  by rewrite (H Hu).
Qed.

(** *** Writing the packet data *)
Lemma write_input_wf buf q d o :
  wf buf q → input_dest buf = Some o → zlen d ≤ input_avail buf →
  wf (write_input buf d) q ∧
  slice (BLOCK * (_ChunkBuffer2_end buf + 1)) (zlen d) (buffer (write_input buf d)) = d.
Proof.
  intros Hwf Ho Hd. pose proof (wf_end _ _ Hwf) as [He Hf].
  destruct (wf_input _ _ Hwf) as [(?&?&?)|(Hfree&Hdest&Hav)]; [congruence|].
  rewrite Ho in Hdest. simplify_eq. rewrite Hav in Hd.
  pose proof (wf_output _ _ Hwf) as Hout. pose proof (zlen_nonneg d).
  pose proof (wf_in _ _ Hwf) as Hin. pose proof (wf_out _ _ Hwf) as Hou.
  destruct Hwf as [Hm Hs Hmtu Hw Hst Hu Hg _ _].
  unfold write_input. rewrite Ho. unfold free_blocks, _ChunkBuffer2_end, BLOCK in *.
  assert (geometry (write_input buf d) q ∧
    (0 < used buf → slice (4 * start buf) 4 (buffer (write_input buf d))
                     = slice (4 * start buf) 4 (buffer buf))) as [Hg' Hhd].
  { unfold geometry, write_input, lim in *. rewrite Ho. cbn.
    destruct Hg as [(?&?&?&Hseg)|(?&?&q1&q2&->&Hseg&Hseg2)]; rewrite Z.geb_leb in *;
      destruct (Z.leb_spec (wrap buf - start buf) (used buf)); try lia.
    - split.
      + left. split_and!; try done. apply seg_frame; unfold BLOCK; try done; lia.
      + intros. apply slice_splice_before; lia.
    - split.
      + right. split_and!; try done. exists q1, q2. split_and!; [done|..];
          apply seg_frame; unfold BLOCK; try done; lia.
      + intros. apply slice_splice_after; lia. }
  unfold write_input in *. rewrite Ho in *. cbn in *.
  split; [split; cbn; try done|].
  - rewrite zlen_splice; [done|lia|]. rewrite Hm. unfold BLOCK. repeat case_match; zbool; unfold lim in *; lia.
  - by rewrite update_input_set_buffer, Hin.
  - rewrite update_output_set_buffer, Hou; [done|]. exact Hhd.
  - apply slice_splice_same; [lia|done|]. rewrite Hm. unfold BLOCK.
    repeat case_match; zbool; unfold lim in *; lia.
Qed.

(** the state of [SubmitPacket] before the input and output parts are updated *)
Definition submit_state (buf : ChunkBuffer2) (d : bytes) : ChunkBuffer2 :=
  let e := _ChunkBuffer2_end buf in
  let buf := set_block_len e (zlen d) buf in
  let buf := set_geometry (wrap buf) (start buf) (used buf + (1 + blocklen d)) buf in
  if (used buf <=? wrap buf - start buf)
     && (mtu buf >? size buf - (e + 1 + blocklen d) - 1)
  then set_geometry (e + 1 + blocklen d) (start buf) (used buf) buf else buf.

Lemma submit_state_fields buf d :
  size (submit_state buf d) = size buf ∧ mtu (submit_state buf d) = mtu buf ∧
  start (submit_state buf d) = start buf ∧
  used (submit_state buf d) = used buf + (1 + blocklen d) ∧
  buffer (submit_state buf d)
    = splice (BLOCK * _ChunkBuffer2_end buf) (le_bytes 4 (zlen d)) (buffer buf) ∧
  output_dest (submit_state buf d) = output_dest buf ∧
  output_avail (submit_state buf d) = output_avail buf.
Proof. unfold submit_state. case_match; done. Qed.

(** The header is written at a free block: every packet already in the buffer is
    untouched, and the new one is appended. *)
Lemma submit_state_wf buf q d :
  wf buf q → 0 < free_blocks buf → zlen d ≤ (free_blocks buf - 1) * BLOCK →
  slice (BLOCK * (_ChunkBuffer2_end buf + 1)) (zlen d) (buffer buf) = d →
  wf_geo (submit_state buf d) (q ++ [d]) ∧
  (0 < used buf → block_len (submit_state buf d) (start buf) = block_len buf (start buf)).
Proof.
  intros Hwf Hfree Hd Hdata. pose proof (wf_end _ _ Hwf) as [He Hf].
  pose proof (blocklen_nonneg d). pose proof (blocklen_spec d). pose proof (zlen_nonneg d).
  destruct Hwf as [Hm Hs Hmtu Hw Hst Hu Hg _ _].
  unfold submit_state, set_block_len, block_len, wf_geo, geometry, lim, free_blocks in *.
  cbn [set_geometry set_buffer buffer size wrap start used mtu].
  remember (_ChunkBuffer2_end buf) as e eqn:Ee. unfold _ChunkBuffer2_end in Ee.
  set (mem' := splice (BLOCK * e) (le_bytes 4 (zlen d)) (buffer buf)).
  unfold BLOCK in *. fold mem'.
  set (L := size buf - mtu buf - 1) in *.
  assert (4 * e + 4 ≤ zlen (buffer buf)) as Hfit by lia.
  assert (zlen mem' = 4 * size buf) as Hm'.
  { unfold mem'. rewrite zlen_splice; rewrite ?zlen_le_bytes; lia. }
  assert (to_int (le_val (slice (4 * e) 4 mem')) = zlen d) as Hh.
  { apply header_splice; unfold BLOCK, INT_MAX in *; lia. }
  assert (slice (4 * (e + 1)) (zlen d) mem' = d) as Hd'.
  { unfold mem'. rewrite slice_splice_after; rewrite ?zlen_le_bytes; (lia || done). }
  assert (∀ p r ds, seg L (buffer buf) p r ds → 0 ≤ p → r ≤ size buf →
    r ≤ e ∨ e + 1 ≤ p → seg L mem' p r ds) as Hframe.
  { intros p r ds Hsg ???. unfold mem'.
    apply seg_frame; rewrite ?zlen_le_bytes; unfold BLOCK in *; try done; lia. }
  assert (∀ p ds, seg L (buffer buf) p e ds → 0 ≤ p →
    seg L mem' p (e + (1 + blocklen d)) (ds ++ [d])) as Hsnoc.
  { intros p ds Hsg ?. apply seg_snoc; unfold BLOCK; try done; [|lia].
    apply Hframe; (lia || done). }
  assert (0 < used buf → slice (4 * start buf) 4 mem' = slice (4 * start buf) 4 (buffer buf)) as Hhd.
  { intros. unfold mem'. destruct (Z.lt_ge_cases (start buf) e).
    - apply slice_splice_before; lia.
    - apply slice_splice_after; rewrite ?zlen_le_bytes; try lia.
      revert Ee Hfree. rewrite Z.geb_leb. zcase. }
  clearbody mem'. subst L. rewrite Z.geb_leb in Ee, Hf, Hfree, Hd.
  destruct Hg as [(Hu1&Hws&Hel&Hseg)|(Hu1&Hlw&q1&q2&->&Hseg&Hseg2)].
  - destruct (Z.leb_spec (wrap buf - start buf) (used buf)); [lia|]. subst e.
    specialize (Hsnoc _ _ Hseg ltac:(lia)).
    case_match eqn:Ec; cbn [set_geometry set_buffer buffer size wrap start used mtu].
    + zbool. split; [|intros; by rewrite Hhd]. split_and!; try lia.
      right. split_and!; try lia. exists (q ++ [d]), []. rewrite app_nil_r.
      split_and!; [done| |].
      * by replace (start buf + used buf + 1 + blocklen d)
          with (start buf + used buf + (1 + blocklen d)) by lia.
      * apply seg_nil'. lia.
    + apply andb_false_iff in Ec. split; [|intros; by rewrite Hhd].
      assert (start buf + used buf + 1 + blocklen d ≤ size buf - mtu buf - 1) by (destruct Ec; zbool; lia).
      split_and!; try lia. left. split_and!; try lia.
      by replace (start buf + (used buf + (1 + blocklen d)))
        with (start buf + used buf + (1 + blocklen d)) by lia.
  - destruct (Z.leb_spec (wrap buf - start buf) (used buf)); [|lia]. subst e.
    destruct (Z.leb_spec (used buf + (1 + blocklen d)) (wrap buf - start buf)); [lia|].
    cbn [andb set_geometry set_buffer buffer size wrap start used mtu].
    split; [|intros; by rewrite Hhd]. split_and!; try lia.
    right. split_and!; try lia. exists q1, (q2 ++ [d]). rewrite app_assoc.
    split_and!; [done| |].
    + apply Hframe; try done; lia.
    + specialize (Hsnoc _ _ Hseg2 ltac:(lia)).
      by replace (used buf + (1 + blocklen d) - (wrap buf - start buf))
        with (used buf - (wrap buf - start buf) + (1 + blocklen d)) by lia.
Qed.

(** *** SubmitPacket *)
Lemma Submit_wf buf q d o :
  wf buf q → input_dest buf = Some o → zlen d ≤ input_avail buf →
  ∃ buf', ChunkBuffer2_SubmitPacket (write_input buf d) (zlen d) = Some buf' ∧
    wf buf' (q ++ [d]) ∧ size buf' = size buf ∧ mtu buf' = mtu buf.
Proof.
  intros Hwf Ho Hd. destruct (write_input_wf _ _ _ _ Hwf Ho Hd) as [Hwf1 Hdata].
  pose proof (wf_input _ _ Hwf1) as Hin1.
  assert (input_dest (write_input buf d) = input_dest buf ∧
    input_avail (write_input buf d) = input_avail buf ∧
    _ChunkBuffer2_end (write_input buf d) = _ChunkBuffer2_end buf ∧
    size (write_input buf d) = size buf ∧ mtu (write_input buf d) = mtu buf)
    as (E1 & E2 & E3 & E4 & E5).
  { unfold write_input. by rewrite Ho. }
  rewrite <-E4, <-E5. rewrite <-E3 in Hdata. rewrite <-E2 in Hd. rewrite <-E1 in Ho.
  set (b1 := write_input buf d) in *. clearbody b1. clear Hwf E1 E2 E3 E4 E5 buf.
  destruct Hin1 as [(?&?&?)|(Hfree&Hdest&Hav)]; [congruence|].
  destruct (submit_state_wf b1 q d Hwf1 Hfree ltac:(lia) Hdata) as [Hgeo Hhd].
  pose proof (wf_refresh _ _ Hgeo) as Hwf2.
  pose proof (submit_state_fields b1 d) as (F1&F2&F3&F4&F5&F6&F7).
  pose proof (refresh_fields (submit_state b1 d)) as (R1&R2&R3&R4&R5&R6).
  pose proof (wf_end _ _ Hwf1) as [He Hf]. pose proof (wf_size _ _ Hwf1) as Hsz.
  pose proof (blocklen_nonneg d). pose proof (blocklen_spec d). pose proof (zlen_nonneg d).
  pose proof (wf_used _ _ Hwf1) as Hu.
  exists (refresh (submit_state b1 d)). split; [|by rewrite R2, R6].
  unfold ChunkBuffer2_SubmitPacket. rewrite Ho, (wf_assert_buffer _ _ Hwf1), (wf_assert_io _ _ Hwf1).
  rewrite to_int_blocklen by (unfold BLOCK, INT_MAX in *; lia). cbn [not_null andb].
  fold (submit_state b1 d). rewrite (wf_geo_assert_buffer _ _ Hgeo).
  assert ((if used (_ChunkBuffer2_update_input (submit_state b1 d)) =? 1 + blocklen d
     then _ChunkBuffer2_update_output (_ChunkBuffer2_update_input (submit_state b1 d))
     else _ChunkBuffer2_update_input (submit_state b1 d)) = refresh (submit_state b1 d)) as ->.
  { case_match eqn:Eu; [done|]. unfold refresh. zbool.
    rewrite <-update_in_out. f_equal. symmetry.
    assert (used (_ChunkBuffer2_update_input (submit_state b1 d)) = used (submit_state b1 d)) as E
      by (unfold _ChunkBuffer2_update_input; repeat case_match; done).
    rewrite E, F4 in Eu. specialize (Hhd ltac:(lia)).
    pose proof (wf_out _ _ Hwf1) as Hou. unfold _ChunkBuffer2_update_output in *.
    rewrite F4, F3, Hhd. rewrite Z.gtb_ltb in *.
    destruct (Z.ltb_spec 0 (used b1)); [|lia].
    destruct (Z.ltb_spec 0 (used b1 + (1 + blocklen d))); [|lia].
    pose proof (f_equal output_dest Hou) as G1. pose proof (f_equal output_avail Hou) as G2.
    cbn in G1, G2. unfold set_output. rewrite G1, G2, <-F6, <-F7.
    by destruct (submit_state b1 d). }
  rewrite (wf_assert_io _ _ Hwf2). unfold BLOCK, lim in *.
  assert (blocklen d ≤ size b1 - _ChunkBuffer2_end b1 - 1 ∧
    (used b1 < wrap b1 - start b1 ∨ blocklen d ≤ start b1 - _ChunkBuffer2_end b1 - 1)) as [? Hor]
    by (destruct (free_blocks_cases b1) as [[? E]|[? E]]; rewrite E in *;
        pose proof (wf_start _ _ Hwf1); pose proof (wf_wrap _ _ Hwf1); lia).
  assert ((used b1 <? wrap b1 - start b1) || (blocklen d <=? start b1 - _ChunkBuffer2_end b1 - 1) = true) as ->
    by (apply orb_true_iff; destruct Hor; [left|right]; zcase).
  repeat zcase. done.
Qed.

(** *** ConsumePacket *)

(** the state of [ConsumePacket] before the input and output parts are updated *)
Definition consume_state (buf : ChunkBuffer2) (d : bytes) : ChunkBuffer2 :=
  let buf := set_geometry (wrap buf) (start buf + (1 + blocklen d))
               (used buf - (1 + blocklen d)) buf in
  if start buf =? wrap buf then set_geometry (size buf) 0 (used buf) buf else buf.

(** Removing the first packet keeps the end of the data where it is. *)
Lemma consume_state_wf buf q d :
  wf buf (d :: q) →
  wf_geo (consume_state buf d) q ∧
  _ChunkBuffer2_end (consume_state buf d) = _ChunkBuffer2_end buf ∧
  free_blocks buf ≤ free_blocks (consume_state buf d) ∧
  (used buf < wrap buf - start buf → free_blocks (consume_state buf d) = free_blocks buf).
Proof.
  intros Hwf. pose proof (wf_output _ _ Hwf) as (Hu0 & Ho & Hav & Hbl & Hsl & Hu1 & Hu2).
  pose proof (wf_end _ _ Hwf) as [He Hf]. pose proof (blocklen_nonneg d).
  destruct Hwf as [Hm Hs Hmtu Hw Hst Hu Hg _ _].
  unfold consume_state, wf_geo, geometry, lim, free_blocks, _ChunkBuffer2_end in *.
  cbn [set_geometry set_buffer buffer size wrap start used mtu] in *.
  rewrite ?Z.geb_leb in *.
  destruct Hg as [(Hlt&Hws&Hel&Hseg)|(Hge&Hlw&q1&q2&Hq&Hseg&Hseg2)].
  - inversion Hseg as [|????? Hh Hd Hs']; subst.
    destruct (Z.leb_spec (wrap buf - start buf) (used buf)); [lia|].
    destruct (Z.eqb_spec (start buf + (1 + blocklen d)) (wrap buf)); [lia|].
    cbn [set_geometry set_buffer buffer size wrap start used mtu]. rewrite ?Z.geb_leb.
    destruct (Z.leb_spec (wrap buf - (start buf + (1 + blocklen d))) (used buf - (1 + blocklen d))); [lia|].
    split; [|lia]. split_and!; try lia. left. split_and!; try lia.
    by replace (start buf + (1 + blocklen d) + (used buf - (1 + blocklen d)))
      with (start buf + used buf) by lia.
  - destruct (Z.leb_spec (wrap buf - start buf) (used buf)); [|lia].
    inversion Hseg as [? E1 E2 E3|? ? d' q1' Hp Hh Hd Hs']; subst; [lia|].
    simpl in Hq. injection Hq as <- ->. pose proof (seg_le _ _ _ _ _ Hs').
    destruct (Z.eqb_spec (start buf + (1 + blocklen d)) (wrap buf)) as [Ew|Ew];
      cbn [set_geometry set_buffer buffer size wrap start used mtu]; rewrite ?Z.geb_leb.
    + rewrite Ew in Hs'. inversion Hs' as [|???? Hp2 ?? Hs2]; subst.
      * destruct (Z.leb_spec (size buf - 0) (used buf - (1 + blocklen d))); [lia|].
        split; [|lia]. split_and!; try lia. left. split_and!; try lia. cbn [app].
        by replace (0 + (used buf - (1 + blocklen d)))
          with (used buf - (wrap buf - start buf)) by lia.
      * pose proof (seg_le _ _ _ _ _ Hs2). pose proof (blocklen_nonneg d0). lia.
    + assert (start buf + (1 + blocklen d) ≤ size buf - mtu buf - 1).
      { inversion Hs'; subst; [lia|done]. }
      destruct (Z.leb_spec (wrap buf - (start buf + (1 + blocklen d))) (used buf - (1 + blocklen d))); [|lia].
      split; [|lia]. split_and!; try lia. right. split_and!; try lia.
      exists q1', q2. split_and!; [done..|].
      by replace (used buf - (1 + blocklen d) - (wrap buf - (start buf + (1 + blocklen d))))
        with (used buf - (wrap buf - start buf)) by lia.
Qed.

Lemma update_input_noop_eq buf buf' :
  _ChunkBuffer2_end buf' = _ChunkBuffer2_end buf → free_blocks buf' = free_blocks buf →
  size buf' = size buf → mtu buf' = mtu buf →
  input_dest buf' = input_dest buf → input_avail buf' = input_avail buf →
  _ChunkBuffer2_update_input buf = buf → _ChunkBuffer2_update_input buf' = buf'.
Proof.
  unfold _ChunkBuffer2_update_input. intros -> -> -> -> E1 E2 H.
  pose proof (f_equal input_dest H) as G1. pose proof (f_equal input_avail H) as G2.
  revert G1 G2. repeat case_match; unfold set_input; cbn; intros Q1 Q2; rewrite Q1, Q2, <-E1, <-E2;
    by destruct buf'.
Qed.

Lemma Consume_wf buf q d :
  wf buf (d :: q) →
  ∃ buf', ChunkBuffer2_ConsumePacket buf = Some buf' ∧ wf buf' q ∧
    size buf' = size buf ∧ mtu buf' = mtu buf ∧
    _ChunkBuffer2_end buf' = _ChunkBuffer2_end buf ∧ free_blocks buf ≤ free_blocks buf' ∧
    buffer buf' = buffer buf.
Proof.
  intros Hwf. pose proof (wf_output _ _ Hwf) as (Hu0 & Ho & Hav & Hbl & Hsl & Hu1 & Hu2).
  destruct (consume_state_wf _ _ _ Hwf) as (Hgeo & Hend & Hfree & Hsame).
  pose proof (wf_refresh _ _ Hgeo) as Hwf2. pose proof (zlen_nonneg d).
  pose proof (blocklen_spec d). pose proof (wf_wrap _ _ Hwf). pose proof (wf_size _ _ Hwf).
  pose proof (wf_start _ _ Hwf).
  assert (size (consume_state buf d) = size buf ∧ mtu (consume_state buf d) = mtu buf ∧
    input_dest (consume_state buf d) = input_dest buf ∧
    input_avail (consume_state buf d) = input_avail buf ∧
    buffer (consume_state buf d) = buffer buf) as (F1 & F2 & F3 & F4 & F5)
    by (unfold consume_state; case_match; done).
  pose proof (refresh_fields (consume_state buf d)) as (R1&R2&R3&R4&R5&R6).
  exists (refresh (consume_state buf d)). split.
  - unfold ChunkBuffer2_ConsumePacket.
    rewrite Ho, Hbl, (wf_assert_buffer _ _ Hwf), (wf_assert_io _ _ Hwf), to_int_blocklen
      by (unfold BLOCK, INT_MAX in *; lia). cbn [not_null andb].
    fold (consume_state buf d). rewrite (wf_geo_assert_buffer _ _ Hgeo).
    assert ((if used buf >=? wrap buf - start buf
       then _ChunkBuffer2_update_input (consume_state buf d) else consume_state buf d)
      = _ChunkBuffer2_update_input (consume_state buf d)) as ->.
    { case_match eqn:Ew; [done|]. symmetry. rewrite Z.geb_leb in Ew. zbool.
      apply (update_input_noop_eq buf);
        [done|apply Hsame; lia|done..|exact (wf_in _ _ Hwf)]. }
    fold (refresh (consume_state buf d)). rewrite (wf_assert_io _ _ Hwf2). by repeat zcase.
  - split_and!; [done|congruence..| | |congruence].
    + rewrite <-Hend. unfold _ChunkBuffer2_end. by rewrite R3, R4, R5.
    + replace (free_blocks (refresh (consume_state buf d))) with (free_blocks (consume_state buf d)); [done|].
      unfold free_blocks, _ChunkBuffer2_end. by rewrite R2, R3, R4, R5.
Qed.

(** *** Frame properties *)

(** A packet that is submitted behind others does not change where the first one
    is read. *)
Lemma Submit_output buf q x d b' :
  wf buf (x :: q) → zlen d ≤ INT_MAX → ChunkBuffer2_SubmitPacket (write_input buf d) (zlen d) = Some b' →
  output_dest b' = output_dest buf ∧ output_avail b' = output_avail buf.
Proof.
  intros Hwf Hd. destruct (wf_output _ _ Hwf) as (Hu & _).
  assert (used (write_input buf d) = used buf ∧ output_dest (write_input buf d) = output_dest buf ∧
    output_avail (write_input buf d) = output_avail buf) as (E1 & E2 & E3)
    by (unfold write_input; by destruct (input_dest buf)).
  rewrite <-E2, <-E3. rewrite <-E1 in Hu. generalize dependent (write_input buf d). clear Hwf.
  intros b Hu E1 E2 E3. pose proof (blocklen_nonneg d).
  unfold ChunkBuffer2_SubmitPacket. rewrite to_int_blocklen by done. cbn zeta.
  fold (submit_state b d). intros H'.
  repeat match type of H' with (if ?c then _ else None) = _ => destruct c; [|done] end. injection H' as <-.
  pose proof (submit_state_fields b d) as (F1&F2&F3&F4&F5&F6&F7).
  pose proof (refresh_fields (submit_state b d)) as (R1&R2&R3&R4&R5&R6).
  rewrite <-F6, <-F7. case_match eqn:Hn.
  - zbool. assert (used (_ChunkBuffer2_update_input (submit_state b d)) = used (submit_state b d)) as E'
      by (unfold _ChunkBuffer2_update_input; repeat case_match; done). lia.
  - unfold _ChunkBuffer2_update_input. repeat case_match; done.
Qed.

(** The area for the next packet lies in the memory. *)
Lemma input_fits buf q o :
  wf buf q → input_dest buf = Some o → 0 ≤ o ∧ o + input_avail buf ≤ zlen (buffer buf).
Proof.
  intros Hwf Ho. pose proof (wf_end _ _ Hwf) as [He Hf]. pose proof (wf_start _ _ Hwf) as [Hst _].
  pose proof (wf_wrap _ _ Hwf). pose proof (wf_mtu _ _ Hwf).
  destruct (wf_input _ _ Hwf) as [(?&?&?)|(Hfr&E&->)]; [congruence|]. rewrite (wf_mem _ _ Hwf).
  rewrite Ho in E. simplify_eq. unfold BLOCK, lim in *.
  destruct (free_blocks_cases buf) as [[? E']|[? E']]; rewrite E' in *; lia.
Qed.

(** A write inside this area changes nothing the buffer relies on. *)
Lemma write_within_wf buf q o k d :
  wf buf q → input_dest buf = Some o → 0 ≤ k → k + zlen d ≤ input_avail buf →
  let buf' := set_buffer (splice (o + k) d (buffer buf)) buf in
  wf buf' q ∧ slice (o + k) (zlen d) (buffer buf') = d ∧
  (k = 0 → buf' = write_input buf d).
Proof.
  intros Hwf Ho Hk Hd. destruct (input_fits _ _ _ Hwf Ho) as [Ho0 Hfit]. pose proof (zlen_nonneg d).
  set (e := slice o k (buffer buf) ++ d).
  assert (zlen (slice o k (buffer buf)) = k) as Hlk by (apply zlen_slice; lia).
  assert (zlen e = k + zlen d) as Hle by (unfold e; rewrite zlen_app; lia).
  assert (splice (o + k) d (buffer buf) = splice o e (buffer buf)) as Es.
  { unfold e. rewrite <-splice_splice_before by (rewrite ?Hlk; lia). rewrite Hlk. symmetry. apply splice_id.
    - lia.
    - rewrite Hlk, zlen_splice by lia. lia.
    - rewrite Hlk. apply slice_splice_before; lia. }
  assert (set_buffer (splice (o + k) d (buffer buf)) buf = write_input buf e) as E
    by (unfold write_input; by rewrite Ho, Es).
  cbn zeta. split; [|split].
  - rewrite E. apply (write_input_wf buf q e o Hwf Ho). lia.
  - cbn. apply slice_splice_same; lia.
  - intros ->. unfold write_input. rewrite Ho. do 2 f_equal. lia.
Qed.

(** Removing a packet writes nothing. *)
Lemma Consume_buffer buf b' :
  ChunkBuffer2_ConsumePacket buf = Some b' → buffer b' = buffer buf.
Proof.
  unfold ChunkBuffer2_ConsumePacket, _ChunkBuffer2_update_output, _ChunkBuffer2_update_input.
  intros H. repeat case_match; simplify_eq; done.
Qed.

(** ** The promise to the users of the buffer *)

(** A store of packets: where the next packet is written and read, and a queue
    of packets as its abstract state.  [PacketBuffer] is written against it. *)
Class PacketStore (B : Type) := {
  ps_in : B → option Z;         (** [input_dest] *)
  ps_in_avail : B → Z;          (** [input_avail] *)
  ps_out : B → option Z;        (** [output_dest] *)
  ps_out_avail : B → Z;         (** [output_avail] *)
  ps_write : B → bytes → B;     (** the data written by the producer *)
  ps_read : B → option bytes;   (** the data read by the consumer *)
  ps_submit : B → Z → option B;
  ps_consume : B → option B;
}.

(** The laws of a store whose abstract state is the queue [q]. *)
Class PacketStoreLaws {B} (PS : PacketStore B) (repr : B → list bytes → Prop) := {
  psl_submit b q d :
    repr b q → ps_in b ≠ None → zlen d ≤ ps_in_avail b →
    ∃ b', ps_submit (ps_write b d) (zlen d) = Some b' ∧ repr b' (q ++ [d]) ∧
      (q ≠ [] → ps_out b' = ps_out b ∧ ps_out_avail b' = ps_out_avail b);
  psl_consume b q d :
    repr b (d :: q) →
    ∃ b', ps_consume b = Some b' ∧ repr b' q ∧
      (∀ o, ps_in b = Some o → ps_in b' = Some o) ∧ ps_in_avail b ≤ ps_in_avail b';
  psl_in b q : repr b q → ps_in b = None ↔ ps_in_avail b < 0;
  psl_out b q :
    repr b q →
    match q with
    | [] => ps_out b = None ∧ ps_out_avail b = -1 ∧ ps_read b = None
    | d :: _ => ps_out b ≠ None ∧ ps_out_avail b = zlen d ∧ ps_read b = Some d
    end;
}.

(** [num] packets of at most [m] bytes fit. *)
Class PacketStoreRoom {B} (PS : PacketStore B) (repr : B → list bytes → Prop) (m num : Z) :=
  psl_room b q :
    repr b q → zlen q < num ∨ q = [] → Forall (λ d, zlen d ≤ m) q → m ≤ ps_in_avail b.

#[export] Instance ChunkBuffer2_store : PacketStore ChunkBuffer2 := {|
  ps_in := input_dest;
  ps_in_avail := input_avail;
  ps_out := output_dest;
  ps_out_avail := output_avail;
  ps_write := write_input;
  ps_read := read_output;
  ps_submit := ChunkBuffer2_SubmitPacket;
  ps_consume := ChunkBuffer2_ConsumePacket;
|}.

(** A buffer of the size [calc_blocks] computes for [num] packets of [m] bytes. *)
Definition sized (m num : Z) (buf : ChunkBuffer2) (q : list bytes) : Prop :=
  wf buf q ∧ mtu buf = bdivide_up m BLOCK ∧ size buf = (num + 1) * (1 + bdivide_up m BLOCK).

Lemma read_output_spec buf q :
  wf buf q → read_output buf = match q with [] => None | d :: _ => Some d end.
Proof.
  intros Hwf. pose proof (wf_output _ _ Hwf) as H. unfold read_output.
  destruct q as [|d q].
  - by destruct H as (_ & -> & _).
  - destruct H as (_ & -> & -> & _ & Hs & _). cbn. by rewrite Hs.
Qed.

(** With fewer than [num] packets in it, or when it is empty, there is room for
    one more packet of [m] bytes. *)
Lemma sized_room m num buf q :
  0 ≤ m → 0 < num → sized m num buf q →
  zlen q < num ∨ q = [] → Forall (λ d, zlen d ≤ m) q → m ≤ input_avail buf.
Proof.
  intros Hm Hnum (Hwf & Hmtu & Hsize) Hq HF.
  pose proof (bdivide_up_spec m BLOCK ltac:(done)). pose proof (bdivide_up_nonneg m BLOCK Hm ltac:(done)).
  set (B := bdivide_up m BLOCK) in *.
  pose proof (wf_end _ _ Hwf) as [He Hf]. pose proof (wf_start _ _ Hwf).
  assert (1 + B ≤ free_blocks buf) as Hfree.
  { destruct (free_blocks_cases buf) as [[Hu ->]|[Hu ->]]; [|unfold lim in *; lia].
    destruct (wf_geom _ _ Hwf) as [(?&?&?&?)|(_&Hl&q1&q2&->&Hs1&Hs2)]; [lia|].
    pose proof (wf_used _ _ Hwf).
    apply Forall_app in HF as [HF1 HF2].
    pose proof (seg_size _ _ _ _ _ _ Hs1 HF1). pose proof (seg_size _ _ _ _ _ _ Hs2 HF2).
    rewrite zlen_app in Hq. fold B in H2, H3. unfold lim, _ChunkBuffer2_end in *.
    rewrite Z.geb_leb in *. destruct (Z.leb_spec (wrap buf - start buf) (used buf)); [|lia].
    destruct Hq as [Hq|Hq].
    - assert (zlen q1 * (1 + B) + zlen q2 * (1 + B) ≤ (num - 1) * (1 + B)) by nia. nia.
    - apply app_eq_nil in Hq as [-> ->]. change (zlen (@nil bytes)) with 0 in *. lia. }
  destruct (wf_input _ _ Hwf) as [(?&?&?)|(_&_&->)]; [lia|]. unfold BLOCK in *. lia.
Qed.

Lemma wf_put buf q d :
  wf buf q → input_dest buf ≠ None → zlen d ≤ input_avail buf →
  ∃ buf', ChunkBuffer2_SubmitPacket (write_input buf d) (zlen d) = Some buf' ∧
    wf buf' (q ++ [d]) ∧ size buf' = size buf ∧ mtu buf' = mtu buf ∧
    (q ≠ [] → output_dest buf' = output_dest buf ∧ output_avail buf' = output_avail buf).
Proof.
  intros Hwf Hin Hd. destruct (input_dest buf) as [o|] eqn:Ho; [|done].
  destruct (Submit_wf _ _ _ _ Hwf Ho Hd) as (b' & E & ? & ? & ?). exists b'. split_and!; try done;
    intros Hq; destruct q as [|x q]; try done;
    apply (Submit_output buf q x d); try done; pose proof (wf_end _ _ Hwf) as [? ?];
    pose proof (wf_size _ _ Hwf) as [? ?]; destruct (wf_input _ _ Hwf) as [(?&?&?)|(?&?&?)]; unfold BLOCK in *; lia.
Qed.

Lemma wf_get buf q d :
  wf buf (d :: q) →
  ∃ buf', ChunkBuffer2_ConsumePacket buf = Some buf' ∧ wf buf' q ∧
    size buf' = size buf ∧ mtu buf' = mtu buf ∧
    (∀ o, input_dest buf = Some o → input_dest buf' = Some o) ∧
    input_avail buf ≤ input_avail buf'.
Proof.
  intros Hwf. destruct (Consume_wf _ _ _ Hwf) as (b' & ? & Hwf' & ? & ? & Hend & Hfree & _).
  exists b'. split_and!; [done..| |]; destruct (wf_input _ _ Hwf) as [(?&E1&E2)|(?&E1&E2)];
    destruct (wf_input _ _ Hwf') as [(?&E3&E4)|(?&E3&E4)]; rewrite ?E1, ?E2, ?E3, ?E4, ?Hend;
    unfold BLOCK; (done || lia).
Qed.

Lemma wf_in_avail buf q : wf buf q → input_dest buf = None ↔ input_avail buf < 0.
Proof.
  intros Hwf. destruct (wf_input _ _ Hwf) as [(?&->&->)|(?&->&->)]; unfold BLOCK;
    split; (done || lia).
Qed.

Lemma wf_read buf q :
  wf buf q →
  match q with
  | [] => output_dest buf = None ∧ output_avail buf = -1 ∧ read_output buf = None
  | d :: _ => output_dest buf ≠ None ∧ output_avail buf = zlen d ∧ read_output buf = Some d
  end.
Proof.
  intros Hwf. pose proof (wf_output _ _ Hwf) as H.
  pose proof (read_output_spec _ _ Hwf) as ->. destruct q.
  - by destruct H as (_ & -> & ->).
  - by destruct H as (_ & -> & -> & _).
Qed.

#[export] Instance ChunkBuffer2_wf_laws : PacketStoreLaws ChunkBuffer2_store wf.
Proof.
  split; cbn.
  - intros b q d Hwf Hin Hd. destruct (wf_put _ _ _ Hwf Hin Hd) as (b' & ? & ? & _ & _ & ?). by exists b'.
  - intros b q d Hwf. destruct (wf_get _ _ _ Hwf) as (b' & ? & ? & _ & _ & ?). by exists b'.
  - exact wf_in_avail.
  - exact wf_read.
Qed.

#[export] Instance ChunkBuffer2_sized_laws m num :
  PacketStoreLaws ChunkBuffer2_store (sized m num).
Proof.
  split; cbn.
  - intros b q d (Hwf & Hmtu & Hsize) Hin Hd.
    destruct (wf_put _ _ _ Hwf Hin Hd) as (b' & ? & ? & ? & ? & ?).
    exists b'. split; [done|]. split; [|done]. split; [done|]. split; congruence.
  - intros b q d (Hwf & Hmtu & Hsize).
    destruct (wf_get _ _ _ Hwf) as (b' & ? & ? & ? & ? & ?).
    exists b'. split; [done|]. split; [|done]. split; [done|]. split; congruence.
  - intros b q (Hwf & _). exact (wf_in_avail _ _ Hwf).
  - intros b q (Hwf & _). exact (wf_read _ _ Hwf).
Qed.

Lemma ChunkBuffer2_sized_room m num (Hm : 0 ≤ m) (Hnum : 0 < num) :
  PacketStoreRoom ChunkBuffer2_store (sized m num) m num.
Proof. intros b q Hs Hq HF. by apply (sized_room m num b q). Qed.

(** ** Size computation *)
Lemma calc_blocks_spec chunk_len num :
  0 ≤ chunk_len ≤ INT_MAX → 0 < num ≤ INT_MAX →
  let b := (num + 1) * (1 + bdivide_up chunk_len BLOCK) in
  ChunkBuffer2_calc_blocks chunk_len num = if b <=? INT_MAX then b else -1.
Proof.
  intros Hc Hn. pose proof (bdivide_up_spec chunk_len BLOCK ltac:(done)).
  pose proof (bdivide_up_nonneg chunk_len BLOCK ltac:(lia) ltac:(done)).
  unfold ChunkBuffer2_calc_blocks, BLOCK, INT_MAX in *.
  rewrite u64_small, to_int_small by (unfold SIZE_MAX, UINT64_MAX, INT_MAX; lia).
  set (c := bdivide_up chunk_len 4) in *. cbn zeta.
  rewrite !Z.gtb_ltb. destruct (Z.ltb_spec (2147483647 - 1) c); [lia|].
  destruct (Z.ltb_spec (2147483647 - 1) num).
  - destruct (Z.leb_spec ((num + 1) * (1 + c)) 2147483647); [nia|done].
  - rewrite Z.quot_div_nonneg by lia.
    pose proof (Z.mul_div_le 2147483647 (num + 1) ltac:(lia)).
    pose proof (Z.mul_succ_div_gt 2147483647 (num + 1) ltac:(lia)).
    destruct (Z.ltb_spec (2147483647 / (num + 1)) (1 + c)),
      (Z.leb_spec ((num + 1) * (1 + c)) 2147483647); nia.
Qed.

(** ** Clients of a store

    A client puts a packet when it fits and takes one when there is one; the
    events say which packets were accepted and which were read. *)
Inductive store_op := Put (d : bytes) | Get.
Inductive store_event := Accepted (d : bytes) | Taken (d : bytes).

Definition accepted (es : list store_event) : list bytes :=
  omap (λ e, match e with Accepted d => Some d | _ => None end) es.
Definition taken (es : list store_event) : list bytes :=
  omap (λ e, match e with Taken d => Some d | _ => None end) es.

Section store_client.
Context {B : Type} `{PS : PacketStore B}.

Definition store_step (op : store_op) : M B store_event unit := λ b,
  match op with
  | Put d =>
      if not_null (ps_in b) && (zlen d <=? ps_in_avail b) then
        match ps_submit (ps_write b d) (zlen d) with
        | Some b' => Some (tt, b', [Accepted d])
        | None => None
        end
      else Some (tt, b, [])
  | Get =>
      match ps_read b with
      | Some d =>
          match ps_consume b with
          | Some b' => Some (tt, b', [Taken d])
          | None => None
          end
      | None => Some (tt, b, [])
      end
  end.

Context {repr : B → list bytes → Prop}.
Context `{Laws : !PacketStoreLaws PS repr}.

Lemma store_step_fifo op b q :
  repr b q →
  ∃ b' q' es, store_step op b = Some (tt, b', es) ∧ repr b' q' ∧
    q ++ accepted es = taken es ++ q'.
Proof.
  intros Hr. destruct op as [d|]; cbn [store_step].
  - destruct (ps_in b) as [o|] eqn:Ho; cbn [not_null andb].
    + destruct (Z.leb_spec (zlen d) (ps_in_avail b)).
      * destruct (psl_submit b q d Hr) as (b' & -> & Hr' & _); [congruence|done|].
        exists b', (q ++ [d]), [Accepted d]. by simpl.
      * exists b, q, []. by rewrite app_nil_r.
    + exists b, q, []. by rewrite app_nil_r.
  - pose proof (psl_out b q Hr) as Hout. destruct q as [|d q].
    + destruct Hout as (_ & _ & ->). by exists b, [], [].
    + destruct Hout as (_ & _ & ->).
      destruct (psl_consume b q d Hr) as (b' & -> & Hr' & _).
      exists b', q, [Taken d]. simpl. by rewrite app_nil_r.
Qed.

Lemma accepted_app es1 es2 : accepted (es1 ++ es2) = accepted es1 ++ accepted es2.
Proof. unfold accepted. apply omap_app. Qed.
Lemma taken_app es1 es2 : taken (es1 ++ es2) = taken es1 ++ taken es2.
Proof. unfold taken. apply omap_app. Qed.

Lemma store_runs_fifo ops b q :
  repr b q →
  ∃ b' q' es, runs store_step ops b = Some (tt, b', es) ∧ repr b' q' ∧
    q ++ accepted es = taken es ++ q'.
Proof.
  revert b q. induction ops as [|op ops IH]; intros b q Hr; cbn [runs].
  - exists b, q, []. split; [done|]. split; [done|]. by rewrite app_nil_r.
  - destruct (store_step_fifo op b q Hr) as (b1 & q1 & e1 & H1 & Hr1 & E1).
    destruct (IH b1 q1 Hr1) as (b2 & q2 & e2 & H2 & Hr2 & E2).
    exists b2, q2, (e1 ++ e2). rewrite (M_bind_run _ _ _ _ _ _ H1), H2.
    split; [done|]. split; [done|].
    by rewrite accepted_app, taken_app, app_assoc, E1, <-app_assoc, E2, app_assoc.
Qed.

(** A property of every packet the client offers holds of every packet accepted. *)
Lemma store_runs_accepted (P : bytes → Prop) ops b b' es :
  Forall (λ op, match op with Put d => P d | Get => True end) ops →
  runs store_step ops b = Some (tt, b', es) → Forall P (accepted es).
Proof.
  intros HF. revert b es. induction HF as [|op ops Hop HF IH]; intros b es; cbn [runs].
  - intros [= <- <-]. constructor.
  - intros H. run_inv. rewrite accepted_app. apply Forall_app. split; [|by eapply IH].
    destruct op; cbn [store_step] in *; repeat case_match; simplify_eq; by repeat constructor.
Qed.
End store_client.

(** ** Properties *)

(** C1: the circular buffer is a FIFO queue of packets and none of its assertions
    ever fails: for a buffer made by [ChunkBuffer2_Init] and any sequence of
    writes (of packets that fit) and reads, the run completes, and the packets
    accepted are exactly the packets read followed by the packets still in the
    buffer, byte for byte and in order. *)
Theorem ChunkBuffer2_fifo mem blocks mtu_bytes ops :
  zlen mem = BLOCK * blocks → BLOCK * blocks ≤ INT_MAX → 0 ≤ mtu_bytes →
  bdivide_up mtu_bytes BLOCK < blocks →
  ∃ b0 b' q' es,
    ChunkBuffer2_Init mem blocks mtu_bytes = Some b0 ∧
    runs store_step ops b0 = Some (tt, b', es) ∧ wf b' q' ∧
    accepted es = taken es ++ q'.
Proof.
  intros H1 H2 H3 H4. destruct (Init_wf _ _ _ H1 H2 H3 H4) as (b0 & ? & Hwf & _).
  destruct (store_runs_fifo ops b0 [] Hwf) as (b' & q' & es & ? & ? & ?).
  by exists b0, b', q', es.
Qed.

Lemma ChunkBuffer2_fifo_witness :
  ∃ b0 b' q' es,
    ChunkBuffer2_Init (replicate 64 0) 16 8 = Some b0 ∧
    runs store_step [Put [1;2;3]; Put [4;5;6;7;8]; Get; Put [9]; Get; Put []] b0 = Some (tt, b', es) ∧
    wf b' q' ∧ accepted es = taken es ++ q'.
Proof.
  apply (ChunkBuffer2_fifo (replicate 64 0) 16 8
    [Put [1;2;3]; Put [4;5;6;7;8]; Get; Put [9]; Get; Put []]);
    by vm_compute.
Defined.

(** No packet is refused while there is room for it.  A buffer of
    [ChunkBuffer2_calc_blocks chunk_len num] blocks (when that is not the error
    -1) and MTU [chunk_len] accepts, whatever was written and read before, any
    packet of at most [chunk_len] bytes as long as fewer than [num] packets are
    in it. *)
Theorem ChunkBuffer2_capacity chunk_len num mem ops d b0 b' es :
  0 ≤ chunk_len ≤ INT_MAX → 0 < num ≤ INT_MAX → zlen d ≤ chunk_len →
  let blocks := ChunkBuffer2_calc_blocks chunk_len num in
  blocks ≠ -1 → BLOCK * blocks ≤ INT_MAX → zlen mem = BLOCK * blocks →
  Forall (λ op, match op with Put d => zlen d ≤ chunk_len | Get => True end) ops →
  ChunkBuffer2_Init mem blocks chunk_len = Some b0 →
  runs store_step ops b0 = Some (tt, b', es) →
  zlen (accepted es) - zlen (taken es) < num →
  ∃ b'', store_step (Put d) b' = Some (tt, b'', [Accepted d]).
Proof.
  intros Hc Hn Hd. rewrite calc_blocks_spec by done. case_match; [|done].
  intros blocks _ Hmax Hmem Hops Hinit Hrun Hlt. zbool.
  pose proof (bdivide_up_nonneg chunk_len BLOCK ltac:(lia) ltac:(done)).
  destruct (Init_wf mem blocks chunk_len) as (b & E & Hwf & Hsz & Hmtu); try done; try nia.
  rewrite Hinit in E. injection E as <-.
  assert (sized chunk_len num b0 []) as Hs by done.
  destruct (store_runs_fifo ops b0 [] Hs) as (b1 & q & es' & E & Hs' & Hq).
  rewrite Hrun in E. injection E as <- <-. cbn [app] in Hq.
  assert (Forall (λ d, zlen d ≤ chunk_len) q) as HF.
  { pose proof (store_runs_accepted _ ops b0 b' es Hops Hrun) as HF.
    rewrite Hq in HF. by apply Forall_app in HF as [_ ?]. }
  pose proof (ChunkBuffer2_sized_room chunk_len num ltac:(lia) ltac:(lia)) as Hroom.
  specialize (Hroom b' q Hs' ltac:(left; rewrite Hq, zlen_app in Hlt; lia) HF). cbn in Hroom.
  assert (input_dest b' ≠ None) as Hin.
  { intros E. apply (wf_in_avail b' q) in E; [|apply Hs']. lia. }
  destruct (wf_put b' q d) as (b'' & Hput & _); [apply Hs'|done|lia|].
  exists b''. cbn. destruct (input_dest b'); [|done]. cbn [not_null andb].
  destruct (Z.leb_spec (zlen d) (input_avail b')); [|lia]. by rewrite Hput.
Qed.

Lemma ChunkBuffer2_capacity_witness :
  ∃ b0 b' es,
    ChunkBuffer2_Init (replicate 36 0) 9 8 = Some b0 ∧
    runs store_step [Put [1;2;3]; Get; Put [1;2;3;4;5;6;7;8]] b0 = Some (tt, b', es) ∧
    ∃ b'', store_step (Put [8;7;6;5;4]) b' = Some (tt, b'', [Accepted [8;7;6;5;4]]).
Proof.
  eexists _, _, _. split; [vm_compute; reflexivity|]. split; [vm_compute; reflexivity|].
  eapply (ChunkBuffer2_capacity 8 2 (replicate 36 0) [Put [1;2;3]; Get; Put [1;2;3;4;5;6;7;8]]).
  all: first [vm_compute; reflexivity | by vm_compute | by repeat constructor].
Defined.
