(* ===== verification/PacketProto.v ===== *)
(** * Packets over a stream

    [protocol/packetproto.h], [flow/PacketProtoEncoder.c] and
    [flow/PacketProtoDecoder.c].  A packet is sent on a stream as a 16-bit
    little-endian length and that many bytes. *)

From S2P Require Import Prelude CInt.

(** [sizeof(struct packetproto_header)] *)
Definition HEADER : Z := 2.
Definition PACKETPROTO_ENCLEN (len : Z) : Z := HEADER + len.
Definition PACKETPROTO_MAXPAYLOAD : Z := UINT16_MAX.

(** the packet on the wire *)
Definition encode (d : bytes) : bytes := le_bytes 2 (zlen d) ++ d.

(** ** PacketProtoEncoder.c

    The encoder receives the payload of a packet from its input directly into the
    packet its output asked for, after the header.  [mem] is the memory the
    packets lie in and a pointer is an offset into it. *)
Module Encoder.

Record PacketProtoEncoder := mkEnc {
  output_packet : option Z;
  input_mtu : Z;
  input_recv : option Z;     (** the packet the input was asked for *)
  mem : bytes;
}.

(** [PacketRecvInterface_Receiver_Recv] on the input, [PacketRecvInterface_Done]
    on the output *)
Inductive event := Recv (data : Z) | Done (data_len : Z).

Definition PacketProtoEncoder_Init (mtu : Z) (memory : bytes) : option PacketProtoEncoder :=
  assert! (mtu <=? PACKETPROTO_MAXPAYLOAD);
  Some (mkEnc None mtu None memory).
(** the MTU of the output *)
Definition GetOutput_mtu (enc : PacketProtoEncoder) : Z := PACKETPROTO_ENCLEN (input_mtu enc).

Definition output_handler_recv (data : Z) : M PacketProtoEncoder event unit :=
  enc ← get;
  ASSERT (negb (not_null (output_packet enc)));;
  ASSERT (negb (not_null (input_recv enc)));;
  put (mkEnc (Some data) (input_mtu enc) (Some (data + HEADER)) (mem enc));;
  emit (Recv (data + HEADER)).

Definition input_handler_done (in_len : Z) : M PacketProtoEncoder event unit :=
  enc ← get;
  ASSERT (not_null (output_packet enc));;
  match output_packet enc with
  | None => mret tt
  | Some p =>
      put (mkEnc None (input_mtu enc) (input_recv enc)
             (splice p (le_bytes 2 (htol16 (u16 in_len))) (mem enc)));;
      emit (Done (PACKETPROTO_ENCLEN in_len))
  end.

(** The input delivers the payload [d] where it was asked to. *)
Definition deliver (d : bytes) : M PacketProtoEncoder event unit :=
  enc ← get;
  match input_recv enc with
  | None => unreachable
  | Some p =>
      ASSERT (zlen d <=? input_mtu enc);;
      put (mkEnc (output_packet enc) (input_mtu enc) None (splice p d (mem enc)));;
      input_handler_done (zlen d)
  end.

End Encoder.

(** ** PacketProtoDecoder.c

    The buffer [buf] is filled from the stream; [buf_start] and [buf_used] are the
    bytes not handed out yet.  [input_op] is the operation the input is busy
    with, [output_busy] whether the output is busy with a packet. *)
Module Decoder.

Record PacketProtoDecoder := mkDec {
  buf : bytes;
  buf_size : Z;
  buf_start : Z;
  buf_used : Z;
  output_mtu : Z;
  output_if_mtu : Z;                (** [PacketPassInterface_GetMTU(enc->output)] *)
  input_op : option (Z * Z);
  output_busy : bool;
}.
Definition set_buf (b : bytes) (start used : Z) (enc : PacketProtoDecoder) : PacketProtoDecoder :=
  mkDec b (buf_size enc) start used (output_mtu enc) (output_if_mtu enc) (input_op enc)
    (output_busy enc).
Definition set_input (op : option (Z * Z)) (enc : PacketProtoDecoder) : PacketProtoDecoder :=
  mkDec (buf enc) (buf_size enc) (buf_start enc) (buf_used enc) (output_mtu enc)
    (output_if_mtu enc) op (output_busy enc).
Definition set_output (b : bool) (enc : PacketProtoDecoder) : PacketProtoDecoder :=
  mkDec (buf enc) (buf_size enc) (buf_start enc) (buf_used enc) (output_mtu enc)
    (output_if_mtu enc) (input_op enc) b.

(** a packet passed to the output, and a call of [handler_error] *)
Inductive event := packet (d : bytes) | handler_error.

Definition StreamRecvInterface_Receiver_Recv (data data_len : Z) : M PacketProtoDecoder event unit :=
  enc ← get;
  ASSERT (data_len >? 0);;
  ASSERT (negb (not_null (input_op enc)));;
  put (set_input (Some (data, data_len)) enc).

Definition PacketPassInterface_Sender_Send (data data_len : Z) : M PacketProtoDecoder event unit :=
  enc ← get;
  ASSERT (data_len >=? 0);;
  ASSERT (data_len <=? output_if_mtu enc);;
  ASSERT (negb (output_busy enc));;
  put (set_output true enc);;
  emit (packet (slice data data_len (buf enc))).

(** the part of [process_data] after the loop that is left with [break] *)
Definition process_data_receive (was_error : bool) : M PacketProtoDecoder event unit :=
  enc ← get;
  (if was_error then modify (set_buf (buf enc) 0 0)
   else
     when (buf_start enc + buf_used enc =? buf_size enc)
       (modify (set_buf (splice 0 (slice (buf_start enc) (buf_used enc) (buf enc)) (buf enc))
                  0 (buf_used enc))));;
  enc ← get;
  StreamRecvInterface_Receiver_Recv (buf_start enc + buf_used enc)
    (buf_size enc - (buf_start enc + buf_used enc));;
  when was_error (emit handler_error).

Definition process_data : M PacketProtoDecoder event unit :=
  enc ← get;
  let data := buf_start enc in
  let left := buf_used enc in
  if left <? HEADER then process_data_receive false
  else
    let header_len := le_val (slice data 2 (buf enc)) in
    let data := data + HEADER in
    let left := left - HEADER in
    let data_len := ltoh16 header_len in
    if data_len >? output_mtu enc then process_data_receive true
    else if left <? data_len then process_data_receive false
    else
      modify (set_buf (buf enc) (buf_start enc + (HEADER + data_len))
                (buf_used enc - (HEADER + data_len)));;
      PacketPassInterface_Sender_Send data data_len.

Definition input_handler_done (data_len : Z) : M PacketProtoDecoder event unit :=
  enc ← get;
  ASSERT (data_len >? 0);;
  ASSERT (data_len <=? buf_size enc - (buf_start enc + buf_used enc));;
  modify (set_buf (buf enc) (buf_start enc) (buf_used enc + data_len));;
  process_data.

Definition output_handler_done : M PacketProtoDecoder event unit := process_data.

Definition PacketProtoDecoder_Reset : M PacketProtoDecoder event unit :=
  modify (λ enc, set_buf (buf enc) (buf_start enc + buf_used enc) 0 enc).

(** [PacketProtoDecoder_Init] with an output of MTU [mtu], given the memory that
    was allocated ([None] when the allocation failed) *)
Definition PacketProtoDecoder_Init (mtu : Z) (malloc : Z → option bytes) : option PacketProtoDecoder :=
  let output_mtu := bmin mtu PACKETPROTO_MAXPAYLOAD in
  let size := PACKETPROTO_ENCLEN output_mtu in
  mem ← malloc size;
  match StreamRecvInterface_Receiver_Recv 0 size
          (mkDec mem size 0 0 output_mtu mtu None false) with
  | Some (_, enc, _) => Some enc
  | None => None
  end.

(** What can happen to a decoder: the stream delivers bytes for the pending
    receive operation ([StreamRecvInterface_Done] asserts that there is at least
    one and not more than were asked for), the output finishes the packet it is
    busy with, the owner resets the decoder. *)
Inductive input := Bytes (d : bytes) | OutputDone | Reset.

Definition step (i : input) : M PacketProtoDecoder event unit :=
  match i with
  | Bytes d =>
      enc ← get;
      match input_op enc with
      | None => unreachable
      | Some (data, len) =>
          ASSERT (zlen d >? 0);;
          ASSERT (zlen d <=? len);;
          put (set_input None (set_buf (splice data d (buf enc)) (buf_start enc) (buf_used enc) enc));;
          input_handler_done (zlen d)
      end
  | OutputDone =>
      enc ← get;
      ASSERT (output_busy enc);;
      put (set_output false enc);;
      output_handler_done
  | Reset => PacketProtoDecoder_Reset
  end.

(** *** Reference decoder

    A decoder on an unbounded list of bytes. *)
Inductive parsed := Incomplete | TooLarge | Packet (d rest : bytes).
Definition parse (mtu : Z) (l : bytes) : parsed :=
  if zlen l <? 2 then Incomplete
  else
    let n := le_val (slice 0 2 l) in
    if n >? mtu then TooLarge
    else if zlen l - 2 <? n then Incomplete
    else Packet (slice 2 n l) (zdrop (2 + n) l).

(** the bytes not handed out and whether a packet is at the output *)
Definition ref_state : Type := bytes * bool.
Definition ref_process (mtu : Z) (pending : bytes) : ref_state * list event :=
  match parse mtu pending with
  | Incomplete => ((pending, false), [])
  | TooLarge => (([], false), [handler_error])
  | Packet d rest => ((rest, true), [packet d])
  end.
Definition ref_step (mtu : Z) (i : input) (st : ref_state) : ref_state * list event :=
  match i with
  | Bytes d => ref_process mtu (st.1 ++ d)
  | OutputDone => ref_process mtu st.1
  | Reset => (([], st.2), [])
  end.
Fixpoint ref_run (mtu : Z) (ins : list input) (st : ref_state) : ref_state * list event :=
  match ins with
  | [] => (st, [])
  | i :: ins =>
      let (st1, e1) := ref_step mtu i st in
      let (st2, e2) := ref_run mtu ins st1 in
      (st2, e1 ++ e2)
  end.

(** *** Invariant and refinement *)
Record wf (enc : PacketProtoDecoder) (st : ref_state) : Prop := {
  wf_mtu : 0 ≤ output_mtu enc ≤ output_if_mtu enc;
  wf_size : buf_size enc = 2 + output_mtu enc;
  wf_buf : zlen (buf enc) = buf_size enc;
  wf_bytes : bytes_ok (buf enc);
  wf_range : 0 ≤ buf_start enc ∧ 0 ≤ buf_used enc ∧ buf_start enc + buf_used enc ≤ buf_size enc;
  wf_pending : slice (buf_start enc) (buf_used enc) (buf enc) = st.1;
  wf_busy : output_busy enc = st.2;
  wf_input : input_op enc =
    if st.2 then None
    else Some (buf_start enc + buf_used enc, buf_size enc - (buf_start enc + buf_used enc));
  wf_room : st.2 = false → buf_start enc + buf_used enc < buf_size enc;
}.

(** the state in which [process_data] is called *)
Definition ready (enc : PacketProtoDecoder) (pending : bytes) : Prop :=
  0 ≤ output_mtu enc ≤ output_if_mtu enc ∧ buf_size enc = 2 + output_mtu enc ∧
  zlen (buf enc) = buf_size enc ∧ bytes_ok (buf enc) ∧
  0 ≤ buf_start enc ∧ 0 ≤ buf_used enc ∧ buf_start enc + buf_used enc ≤ buf_size enc ∧
  slice (buf_start enc) (buf_used enc) (buf enc) = pending ∧
  output_busy enc = false ∧ input_op enc = None.

Lemma bytes_ok_splice o d l : bytes_ok d → bytes_ok l → bytes_ok (splice o d l).
Proof.
  intros. unfold splice, ztake, zdrop. rewrite !bytes_ok_app. auto with cint.
Qed.

Lemma parse_slice mtu o n l :
  0 ≤ o → 0 ≤ n → o + n ≤ zlen l → bytes_ok l →
  parse mtu (slice o n l) =
    if n <? 2 then Incomplete
    else
      let len := le_val (slice o 2 l) in
      if len >? mtu then TooLarge
      else if n - 2 <? len then Incomplete
      else Packet (slice (o + 2) len l) (slice (o + (2 + len)) (n - (2 + len)) l).
Proof.
  intros Ho Hn Hl Hb. unfold parse. rewrite zlen_slice by lia.
  destruct (Z.ltb_spec n 2); [done|].
  assert (slice 0 2 (slice o n l) = slice o 2 l) as ->.
  { unfold slice. rewrite zdrop_0, ztake_ztake by lia. done. }
  set (len := le_val (slice o 2 l)). cbn zeta.
  destruct (len >? mtu); [done|]. destruct (Z.ltb_spec (n - 2) len); [done|].
  assert (0 ≤ len) by (apply le_val_bound; auto with cint).
  f_equal; unfold slice.
  - rewrite zdrop_ztake, ztake_ztake, zdrop_zdrop by lia. do 2 f_equal. lia.
  - rewrite zdrop_ztake, zdrop_zdrop by lia. do 2 f_equal. lia.
Qed.

Lemma process_data_receive_spec enc pending (was_error : bool) :
  ready enc pending → (was_error = false → buf_used enc < buf_size enc) →
  ∃ enc', process_data_receive was_error enc
      = Some (tt, enc', if was_error then [handler_error] else []) ∧
    wf enc' (if was_error then [] else pending, false) ∧ output_mtu enc' = output_mtu enc.
Proof.
  intros (Hmtu & Hsize & Hlen & Hb & Hs & Hu & Hsu & Hp & Hout & Hin) Hused.
  destruct enc as [b sz st us mt imt op bu]. cbn in *. subst op bu pending.
  assert (∀ b' st', zlen b' = sz → bytes_ok b' → 0 ≤ st' → st' + us < sz →
    slice st' us b' = slice st us b →
    StreamRecvInterface_Receiver_Recv (st' + us) (sz - (st' + us))
      (mkDec b' sz st' us mt imt None false)
    = Some (tt, mkDec b' sz st' us mt imt (Some (st' + us, sz - (st' + us))) false, []) ∧
    wf (mkDec b' sz st' us mt imt (Some (st' + us, sz - (st' + us))) false) (slice st us b, false)) as Hrecv.
  { intros b' st' ?????. split; [|split; cbn; auto; lia].
    unfold StreamRecvInterface_Receiver_Recv. cbv [mbind M_bind get put ASSERT]. cbn.
    rewrite Z.gtb_ltb. by zcase. }
  unfold process_data_receive. rewrite (M_bind_run _ _ _ _ _ _ eq_refl). cbn [buf buf_size buf_start buf_used].
  destruct was_error.
  - exists (mkDec b sz 0 0 mt imt (Some (0 + 0, sz - (0 + 0))) false).
    split; [|split; [split; cbn; auto; lia|done]].
    cbv [mbind M_bind modify get put ASSERT when emit StreamRecvInterface_Receiver_Recv]. cbn.
    rewrite Z.gtb_ltb. by zcase.
  - specialize (Hused eq_refl). unfold when.
    destruct (Z.eqb_spec (st + us) sz) as [He|He].
    + set (b' := splice 0 (slice st us b) b).
      destruct (Hrecv b' 0) as [E Hwf]; unfold b'; [..|eexists; split; [|split; [exact Hwf|done]]].
      * rewrite zlen_splice; rewrite ?zlen_slice; lia.
      * apply bytes_ok_splice; auto with cint.
      * lia.
      * lia.
      * apply slice_splice_same; rewrite ?zlen_slice; lia.
      * fold b' in E |- *. cbv [mbind M_bind modify get mret M_ret set_buf]. cbn. by rewrite E.
    + destruct (Hrecv b st) as [E Hwf]; [done..|lia|done|].
      eexists; split; [|split; [exact Hwf|done]].
      cbv [mbind M_bind modify get mret M_ret set_buf]. cbn. by rewrite E.
Qed.

Lemma process_data_spec enc pending :
  ready enc pending →
  ∃ enc', process_data enc = Some (tt, enc', (ref_process (output_mtu enc) pending).2) ∧
    wf enc' (ref_process (output_mtu enc) pending).1 ∧ output_mtu enc' = output_mtu enc.
Proof.
  intros Hr. pose proof (process_data_receive_spec _ _ true Hr ltac:(done)) as Htrue.
  pose proof (process_data_receive_spec _ _ false Hr) as Hfalse.
  destruct Hr as (Hmtu & Hsize & Hlen & Hb & Hs & Hu & Hsu & Hp & Hout & Hin). subst pending.
  unfold ref_process. rewrite parse_slice by (auto || lia).
  unfold process_data, ltoh16, htol16, HEADER. rewrite (M_bind_run _ _ _ _ _ _ eq_refl).
  set (len := le_val (slice (buf_start enc) 2 (buf enc))) in *.
  assert (0 ≤ len) by (apply le_val_bound; auto with cint). cbn zeta.
  destruct (Z.ltb_spec (buf_used enc) 2).
  { destruct Hfalse as (enc' & -> & ? & ?); [lia|]. by exists enc'. }
  rewrite Z.gtb_ltb. destruct (Z.ltb_spec (output_mtu enc) len).
  { destruct Htrue as (enc' & -> & ? & ?). by exists enc'. }
  destruct (Z.ltb_spec (buf_used enc - 2) len).
  { destruct Hfalse as (enc' & -> & ? & ?); [lia|]. by exists enc'. }
  destruct enc as [b sz st us mt imt op bu]. cbn in *. subst op bu.
  exists (mkDec b sz (st + (2 + len)) (us - (2 + len)) mt imt None true).
  split; [|split; [split; cbn; auto; lia|done]].
  cbv [mbind M_bind modify get put ASSERT set_buf set_output emit PacketPassInterface_Sender_Send]. cbn.
  rewrite Z.geb_leb. repeat zcase. done.
Qed.

(** The inputs the neighbours of the decoder may give it. *)
Definition legal (enc : PacketProtoDecoder) (i : input) : Prop :=
  match i with
  | Bytes d => bytes_ok d ∧ ∃ o len, input_op enc = Some (o, len) ∧ 0 < zlen d ≤ len
  | OutputDone => output_busy enc = true
  | Reset => True
  end.
Definition input_bytes_ok (i : input) : Prop :=
  match i with Bytes d => bytes_ok d | _ => True end.

Lemma step_legal enc i u enc' es :
  input_bytes_ok i → step i enc = Some (u, enc', es) → legal enc i.
Proof.
  intros Hi H. destruct i as [d| |]; cbn in *; [|by run_inv|done].
  run_inv. destruct (input_op s) as [[o len]|]; [|done]. run_inv. zbool. split; [done|].
  eauto 10.
Qed.

Lemma step_refines enc st i :
  wf enc st → legal enc i →
  ∃ enc', step i enc = Some (tt, enc', (ref_step (output_mtu enc) i st).2) ∧
    wf enc' (ref_step (output_mtu enc) i st).1 ∧ output_mtu enc' = output_mtu enc.
Proof.
  intros [Hmtu Hsize Hlen Hb Hr Hp Hbu Hin Hroom] Hl. destruct st as [pending busy].
  cbn in *. destruct enc as [b sz st us mt imt op bu]. cbn in *. subst bu op.
  destruct i as [d| |]; cbn [step ref_step legal fst snd] in *.
  - destruct Hl as (Hd & o & len & Hop & Hle). cbn in Hop. destruct busy; [done|].
    injection Hop as <- <-. specialize (Hroom eq_refl).
    rewrite (M_bind_run _ _ _ _ _ _ eq_refl). cbn [input_op].
    set (b' := splice (st + us) d b).
    destruct (process_data_spec (mkDec b' sz st (us + zlen d) mt imt None false) (pending ++ d))
      as (enc' & E & Hwf & Hm).
    { unfold ready, b'. cbn. split_and!; try lia; try done.
      - rewrite zlen_splice; lia.
      - by apply bytes_ok_splice.
      - rewrite slice_split, slice_splice_before, slice_splice_same by lia. by rewrite Hp. }
    exists enc'. split; [|done]. cbn [output_mtu] in E, Hwf. rewrite <-E. unfold input_handler_done.
    cbv [mbind M_bind get put ASSERT modify set_buf set_input]. cbn. rewrite !Z.gtb_ltb.
    repeat zcase. unfold b'. by destruct (process_data _) as [[[]]|].
  - cbn in Hl. subst busy. rewrite (M_bind_run _ _ _ _ _ _ eq_refl). cbn.
    destruct (process_data_spec (mkDec b sz st us mt imt None false) pending)
      as (enc' & E & Hwf & Hm); [by unfold ready; cbn; split_and!; lia || done|].
    exists enc'. split; [|done]. cbn [output_mtu] in E, Hwf. rewrite <-E.
    unfold output_handler_done. cbv [mbind M_bind get put ASSERT set_output]. cbn.
    by destruct (process_data _) as [[[]]|].
  - exists (mkDec b sz (st + us) 0 mt imt (if busy then None
      else Some (st + us, sz - (st + us))) busy).
    split; [|split; [split; cbn|done]].
    + cbv [modify set_buf PacketProtoDecoder_Reset]. by destruct busy.
    + lia.
    + lia.
    + lia.
    + done.
    + lia.
    + done.
    + done.
    + destruct busy; [done|]. f_equal. f_equal; lia.
    + intros ->. specialize (Hroom eq_refl). lia.
Qed.

Lemma runs_refines ins : ∀ enc st u enc' es,
  wf enc st → Forall input_bytes_ok ins → runs step ins enc = Some (u, enc', es) →
  es = (ref_run (output_mtu enc) ins st).2 ∧ wf enc' (ref_run (output_mtu enc) ins st).1 ∧
  output_mtu enc' = output_mtu enc.
Proof.
  induction ins as [|i ins IH]; intros enc st u enc' es Hwf Hb; cbn [runs ref_run].
  - intros [= <- <- <-]. done.
  - inversion Hb; subst. intros H. run_inv.
    destruct (step_refines enc st i Hwf) as (enc1 & E & Hwf1 & Hm); [by eapply step_legal|].
    rewrite H0 in E. simplify_eq.
    destruct (ref_step (output_mtu enc) i st) as [st1 e1'] eqn:Est. cbn [fst snd] in *.
    destruct (IH _ _ _ _ _ Hwf1 ltac:(done) H3) as (Ees & Hwf2 & Hm2). rewrite Hm in *.
    destruct (ref_run (output_mtu enc) ins st1) as [st2 e2'] eqn:Er. cbn [fst snd] in *.
    by subst.
Qed.

Lemma Decoder_Init_wf mtu malloc mem :
  0 ≤ mtu → let sz := PACKETPROTO_ENCLEN (bmin mtu PACKETPROTO_MAXPAYLOAD) in
  malloc sz = Some mem → zlen mem = sz → bytes_ok mem →
  ∃ enc, PacketProtoDecoder_Init mtu malloc = Some enc ∧ wf enc ([], false) ∧
    output_mtu enc = Z.min mtu PACKETPROTO_MAXPAYLOAD.
Proof.
  intros Hmtu sz Hm Hl Hb. unfold PacketProtoDecoder_Init. fold sz. rewrite Hm. cbn [mbind option_bind].
  subst sz. rewrite bmin_spec in *. unfold PACKETPROTO_ENCLEN, HEADER, PACKETPROTO_MAXPAYLOAD, UINT16_MAX in *.
  set (m := Z.min mtu 65535) in *.
  unfold StreamRecvInterface_Receiver_Recv. cbv [mbind M_bind get put ASSERT]. cbn [input_op not_null negb].
  rewrite Z.gtb_ltb. destruct (Z.ltb_spec 0 (2 + m)); [|lia].
  eexists. split; [reflexivity|]. split; [|done].
  split; cbn; try done; try lia. f_equal. f_equal; lia.
Qed.

(** *** Decoding what was encoded *)

Lemma parse_encode mtu d rest :
  bytes_ok d → zlen d ≤ mtu → zlen d ≤ PACKETPROTO_MAXPAYLOAD →
  parse mtu (encode d ++ rest) = Packet d rest.
Proof.
  intros Hd Hm Hmax. pose proof (zlen_nonneg d). pose proof (zlen_nonneg rest).
  unfold PACKETPROTO_MAXPAYLOAD, UINT16_MAX in *.
  unfold parse, encode. rewrite <-app_assoc, !zlen_app, zlen_le_bytes.
  destruct (Z.ltb_spec (Z.of_nat 2 + (zlen d + zlen rest)) 2); [lia|].
  rewrite slice_0_app by (by rewrite zlen_le_bytes).
  rewrite le_val_le_bytes, Z.mod_small by lia. rewrite Z.gtb_ltb.
  destruct (Z.ltb_spec mtu (zlen d)); [lia|].
  destruct (Z.ltb_spec (Z.of_nat 2 + (zlen d + zlen rest) - 2) (zlen d)); [lia|].
  f_equal.
  - rewrite slice_app_r by (rewrite zlen_le_bytes; lia). rewrite zlen_le_bytes. by apply slice_0_app.
  - rewrite app_assoc. apply zdrop_app_length'. rewrite zlen_app, zlen_le_bytes. lia.
Qed.

Lemma parse_incomplete mtu d l k :
  bytes_ok d → zlen d ≤ mtu → zlen d ≤ PACKETPROTO_MAXPAYLOAD →
  l ++ k = encode d → k ≠ [] → parse mtu l = Incomplete.
Proof.
  intros Hd Hm Hmax He Hk. pose proof (zlen_nonneg l). pose proof (zlen_nonneg d).
  unfold PACKETPROTO_MAXPAYLOAD, UINT16_MAX in *.
  assert (0 < zlen k) by (destruct k; [done|rewrite zlen_cons; pose proof (zlen_nonneg k); lia]).
  assert (zlen l + zlen k = 2 + zlen d) as Hlen.
  { rewrite <-zlen_app, He. unfold encode. by rewrite zlen_app, zlen_le_bytes. }
  unfold parse. destruct (Z.ltb_spec (zlen l) 2); [done|].
  assert (slice 0 2 l = le_bytes 2 (zlen d)) as ->.
  { rewrite <-(slice_app_l 0 2 l k) by lia. rewrite He. unfold encode.
    apply slice_0_app. by rewrite zlen_le_bytes. }
  rewrite le_val_le_bytes, Z.mod_small by lia. rewrite Z.gtb_ltb.
  destruct (Z.ltb_spec mtu (zlen d)); [lia|].
  destruct (Z.ltb_spec (zlen l - 2) (zlen d)); [done|lia].
Qed.

(** the bytes the stream delivered *)
Definition stream (ins : list input) : bytes :=
  concat (omap (λ i, match i with Bytes d => Some d | _ => None end) ins).
Definition not_reset (i : input) : Prop := i ≠ Reset.

Definition sendable (mtu : Z) (d : bytes) : Prop :=
  bytes_ok d ∧ zlen d ≤ mtu ∧ zlen d ≤ PACKETPROTO_MAXPAYLOAD.

(** the rest of the stream is the encoding of the packets still to come *)
Definition in_sync (mtu : Z) (st : ref_state) (future : bytes) (ps : list bytes) : Prop :=
  st.1 ++ future = concat (map encode ps) ∧ Forall (sendable mtu) ps ∧
  (st.2 = false → parse mtu st.1 = Incomplete).

Lemma encode_not_nil d : encode d ≠ [].
Proof. by unfold encode. Qed.

Lemma ref_process_sync mtu pending future ps :
  pending ++ future = concat (map encode ps) → Forall (sendable mtu) ps →
  ∃ ps1 ps2, ps = ps1 ++ ps2 ∧ (ref_process mtu pending).2 = map packet ps1 ∧
    in_sync mtu (ref_process mtu pending).1 future ps2.
Proof.
  intros He HF. unfold ref_process, in_sync. destruct ps as [|d ps]; cbn in He.
  - apply app_eq_nil in He as [-> ->]. by exists [], [].
  - inversion HF as [|? ? Hs HF']; subst.
    apply app_eq_app in He as (k & [[-> Hk]|[Hd Hk]]).
    + destruct Hs as (? & ? & ?).
      rewrite parse_encode by done. exists [d], ps. by cbn.
    + destruct Hs as (? & ? & ?).
      destruct k as [|b k].
      * rewrite app_nil_r in Hd. cbn in Hk. subst future pending.
        rewrite <-(app_nil_r (encode d)), parse_encode by done. exists [d], ps. by cbn.
      * rewrite (parse_incomplete mtu d _ (b :: k)) by done.
        exists [], (d :: ps). cbn. split_and!; [done..| |done|].
        -- subst future. rewrite Hd, <-app_assoc. done.
        -- intros _. by apply (parse_incomplete mtu d _ (b :: k)).
Qed.

Lemma ref_step_sync mtu i st future ps :
  not_reset i → in_sync mtu st (stream [i] ++ future) ps →
  ∃ ps1 ps2, ps = ps1 ++ ps2 ∧ (ref_step mtu i st).2 = map packet ps1 ∧
    in_sync mtu (ref_step mtu i st).1 future ps2.
Proof.
  intros Hn (He & HF & _). destruct i as [d| |]; [| |by destruct Hn]; unfold stream in He; cbn in He.
  - cbn [ref_step]. apply ref_process_sync; [|done]. rewrite app_nil_r in He. by rewrite <-app_assoc.
  - cbn [ref_step]. by apply ref_process_sync.
Qed.

Lemma stream_cons i ins : stream (i :: ins) = stream [i] ++ stream ins.
Proof. unfold stream. destruct i; cbn; by rewrite ?app_nil_r. Qed.

Lemma ref_run_sync mtu ins : ∀ st future ps,
  Forall not_reset ins → in_sync mtu st (stream ins ++ future) ps →
  ∃ ps1 ps2, ps = ps1 ++ ps2 ∧ (ref_run mtu ins st).2 = map packet ps1 ∧
    in_sync mtu (ref_run mtu ins st).1 future ps2.
Proof.
  induction ins as [|i ins IH]; intros st future ps Hn Hs; cbn [ref_run].
  - by exists [], ps.
  - inversion Hn; subst. rewrite stream_cons, <-app_assoc in Hs.
    destruct (ref_step_sync mtu i st _ ps ltac:(done) Hs) as (p1 & p2 & -> & E1 & Hs1).
    destruct (ref_step mtu i st) as [st1 e1]. cbn [fst snd] in *.
    destruct (IH st1 future p2 ltac:(done) Hs1) as (p3 & p4 & -> & E2 & Hs2).
    destruct (ref_run mtu ins st1) as [st2 e2]. cbn [fst snd] in *.
    exists (p1 ++ p3), p4. rewrite app_assoc, map_app. by subst.
Qed.

(** Nothing is left when the whole stream was decoded. *)
Lemma in_sync_done mtu st ps : in_sync mtu st [] ps → st.2 = false → ps = [].
Proof.
  intros (He & HF & Hp) Hb. specialize (Hp Hb). rewrite app_nil_r in He.
  destruct ps as [|d ps]; [done|]. inversion HF as [|? ? (?&?&?) HF']; subst. cbn in He.
  rewrite He, parse_encode in Hp by done. done.
Qed.

End Decoder.

(** ** Properties *)

(** C2: the streaming decoder is the reference decoder on an unbounded list of
    bytes.  Whatever pieces the stream arrives in, however long the output takes
    and whenever the owner resets it, it hands out the same packets and reports
    the same errors (a header that announces more than the MTU drops the
    buffered bytes and is reported once); no assertion fails, the packets lie inside the
    buffer, and when it waits for the stream it always has room for at least one
    byte inside its buffer. *)
Theorem PacketProtoDecoder_refines mtu malloc mem ins u enc es :
  0 ≤ mtu → let sz := PACKETPROTO_ENCLEN (bmin mtu PACKETPROTO_MAXPAYLOAD) in
  malloc sz = Some mem → zlen mem = sz → bytes_ok mem →
  Forall Decoder.input_bytes_ok ins →
  (enc0 ← Decoder.PacketProtoDecoder_Init mtu malloc; runs Decoder.step ins enc0)
    = Some (u, enc, es) →
  es = (Decoder.ref_run (Z.min mtu PACKETPROTO_MAXPAYLOAD) ins ([], false)).2 ∧
  (∀ o len, Decoder.input_op enc = Some (o, len) →
     0 < len ∧ 0 ≤ o ∧ o + len ≤ zlen (Decoder.buf enc)) ∧
  (Decoder.output_busy enc = false → is_Some (Decoder.input_op enc)) ∧
  (∀ i, Decoder.legal enc i → is_Some (Decoder.step i enc)).
Proof.
  intros Hmtu sz Hm Hl Hb HF H. destruct (Decoder.Decoder_Init_wf mtu malloc mem Hmtu Hm Hl Hb) as (enc0 & E & Hwf & Em).
  rewrite E in H. cbn in H.
  destruct (Decoder.runs_refines ins enc0 _ _ _ _ Hwf HF H) as (Hes & Hwf' & Em').
  rewrite Em in *. split; [done|]. pose proof Hwf' as [Hmtu' Hsize Hlen Hby Hr Hp Hbu Hin Hroom].
  split_and!.
  - intros o len Ho. rewrite Hin in Ho. case_match; [done|]. simplify_eq.
    specialize (Hroom eq_refl). lia.
  - intros Hb'. rewrite Hbu in Hb'. by rewrite Hin, Hb'.
  - intros i Hi. destruct (Decoder.step_refines _ _ i Hwf' Hi) as (? & -> & _). done.
Qed.

Lemma PacketProtoDecoder_refines_witness :
  ∃ enc es,
    (enc0 ← Decoder.PacketProtoDecoder_Init 4 (λ n, Some (replicate (Z.to_nat n) 0));
     runs Decoder.step [Decoder.Bytes [2]; Decoder.Bytes [0; 7; 8; 5]; Decoder.OutputDone;
       Decoder.Bytes [0]; Decoder.Bytes [1]] enc0) = Some (tt, enc, es) ∧
    es = (Decoder.ref_run (Z.min 4 PACKETPROTO_MAXPAYLOAD) [Decoder.Bytes [2];
       Decoder.Bytes [0; 7; 8; 5]; Decoder.OutputDone; Decoder.Bytes [0]; Decoder.Bytes [1]]
       ([], false)).2.
Proof.
  eexists _, _. split; [vm_compute; reflexivity|].
  eapply (PacketProtoDecoder_refines 4 (λ n, Some (replicate (Z.to_nat n) 0)) (replicate 6 0));
    [done|reflexivity|reflexivity| | |vm_compute; reflexivity].
  - by apply bytes_okb_spec.
  - repeat constructor; lia.
Defined.

(** What a decoder does with a prefix of the encoding of packets. *)
Lemma decoder_decodes mtu malloc mem ps ins future u enc es :
  0 ≤ mtu → let sz := PACKETPROTO_ENCLEN (bmin mtu PACKETPROTO_MAXPAYLOAD) in
  malloc sz = Some mem → zlen mem = sz → bytes_ok mem →
  Forall (Decoder.sendable mtu) ps →
  Forall Decoder.input_bytes_ok ins → Forall Decoder.not_reset ins →
  Decoder.stream ins ++ future = concat (map encode ps) →
  (enc0 ← Decoder.PacketProtoDecoder_Init mtu malloc; runs Decoder.step ins enc0)
    = Some (u, enc, es) →
  ∃ ps1 ps2, ps = ps1 ++ ps2 ∧ es = map Decoder.packet ps1 ∧
    (future = [] → Decoder.output_busy enc = false → ps2 = []).
Proof.
  intros Hmtu sz Hm Hl Hb Hps HF Hn Hs H.
  destruct (Decoder.Decoder_Init_wf mtu malloc mem Hmtu Hm Hl Hb) as (enc0 & E & Hwf & Em).
  rewrite E in H. cbn in H.
  destruct (Decoder.runs_refines ins enc0 _ _ _ _ Hwf HF H) as (Hes & Hwf' & Em'). rewrite Em in *.
  assert (Forall (Decoder.sendable (Z.min mtu PACKETPROTO_MAXPAYLOAD)) ps) as Hps'.
  { revert Hps. apply Forall_impl. intros d (?&?&?). unfold Decoder.sendable. split_and!; (done || lia). }
  destruct (Decoder.ref_run_sync (Z.min mtu PACKETPROTO_MAXPAYLOAD) ins ([], false) future ps Hn)
    as (ps1 & ps2 & -> & Ees & Hsync).
  { unfold Decoder.in_sync, Decoder.parse. by cbn. }
  exists ps1, ps2. split; [done|]. split; [congruence|]. intros -> Hbusy.
  eapply Decoder.in_sync_done; [exact Hsync|]. by rewrite <-(Decoder.wf_busy _ _ Hwf').
Qed.

(** C3: packets survive the stream.  A decoder that is fed, in any pieces, a
    prefix of the encoding of packets of at most its MTU hands out a prefix of
    these packets, unchanged and in order, and never reports an error; when the
    whole encoding has arrived and the output is not busy, all of them were
    handed out. *)
Theorem PacketProto_roundtrip mtu malloc mem ps ins future u enc es :
  0 ≤ mtu → let sz := PACKETPROTO_ENCLEN (bmin mtu PACKETPROTO_MAXPAYLOAD) in
  malloc sz = Some mem → zlen mem = sz → bytes_ok mem →
  Forall (Decoder.sendable mtu) ps →
  Forall Decoder.input_bytes_ok ins → Forall Decoder.not_reset ins →
  Decoder.stream ins ++ future = concat (map encode ps) →
  (enc0 ← Decoder.PacketProtoDecoder_Init mtu malloc; runs Decoder.step ins enc0)
    = Some (u, enc, es) →
  ∃ ps1 ps2, ps = ps1 ++ ps2 ∧ es = map Decoder.packet ps1 ∧
    (future = [] → Decoder.output_busy enc = false → ps2 = []).
Proof. apply decoder_decodes. Qed.

Lemma PacketProto_roundtrip_witness :
  ∃ enc es,
    (enc0 ← Decoder.PacketProtoDecoder_Init 4 (λ n, Some (replicate (Z.to_nat n) 0));
     runs Decoder.step [Decoder.Bytes [2]; Decoder.Bytes [0; 7; 8; 0]; Decoder.OutputDone;
       Decoder.Bytes [0]; Decoder.OutputDone] enc0) = Some (tt, enc, es) ∧
    ∃ ps1 ps2, [[7; 8]; []] = ps1 ++ ps2 ∧ es = map Decoder.packet ps1 ∧
      ((@nil Z) = [] → Decoder.output_busy enc = false → ps2 = []).
Proof.
  eexists _, _. split; [vm_compute; reflexivity|].
  eapply (PacketProto_roundtrip 4 (λ n, Some (replicate (Z.to_nat n) 0)) (replicate 6 0) _
    [Decoder.Bytes [2]; Decoder.Bytes [0; 7; 8; 0]; Decoder.OutputDone;
       Decoder.Bytes [0]; Decoder.OutputDone]);
    [done|reflexivity|reflexivity| | | | |reflexivity|vm_compute; reflexivity].
  - by apply bytes_okb_spec.
  - repeat constructor; lia || done.
  - repeat constructor; lia.
  - by repeat constructor.
Defined.

(** The encoder writes exactly the encoding of the packet its input delivers,
    asks its input for the payload right after the header, tells its output the
    encoded length, and leaves the memory outside of the packet alone. *)
Theorem PacketProtoEncoder_encodes mtu memory p d :
  mtu ≤ PACKETPROTO_MAXPAYLOAD → zlen d ≤ mtu →
  0 ≤ p → p + PACKETPROTO_ENCLEN (zlen d) ≤ zlen memory →
  ∃ enc0 enc,
    Encoder.PacketProtoEncoder_Init mtu memory = Some enc0 ∧
    (Encoder.output_handler_recv p;; Encoder.deliver d) enc0
      = Some (tt, enc, [Encoder.Recv (p + HEADER); Encoder.Done (zlen (encode d))]) ∧
    zlen (encode d) ≤ Encoder.GetOutput_mtu enc0 ∧
    Encoder.mem enc = splice p (encode d) memory ∧
    Encoder.output_packet enc = None ∧ Encoder.input_recv enc = None.
Proof.
  unfold PACKETPROTO_ENCLEN, HEADER, PACKETPROTO_MAXPAYLOAD, UINT16_MAX. intros Hm Hd Hp Hfit.
  pose proof (zlen_nonneg d).
  assert (zlen (encode d) = 2 + zlen d) as Hlen
    by (unfold encode; by rewrite zlen_app, zlen_le_bytes).
  exists (Encoder.mkEnc None mtu None memory),
    (Encoder.mkEnc None mtu None (splice p (encode d) memory)).
  unfold Encoder.PacketProtoEncoder_Init, PACKETPROTO_MAXPAYLOAD, UINT16_MAX.
  destruct (Z.leb_spec mtu 65535); [|lia]. split; [done|]. split; [|split; [|done]].
  - unfold Encoder.output_handler_recv, Encoder.deliver, Encoder.input_handler_done.
    cbv [mbind M_bind get put ASSERT emit mret M_ret]. cbn.
    destruct (Z.leb_spec (zlen d) mtu); [|lia]. cbn. unfold PACKETPROTO_ENCLEN, HEADER. rewrite Hlen.
    do 4 f_equal. unfold htol16, u16. rewrite Z.mod_small by lia.
    unfold encode. apply splice_splice_before; rewrite ?zlen_le_bytes; lia.
  - unfold Encoder.GetOutput_mtu, PACKETPROTO_ENCLEN, HEADER. cbn. lia.
Qed.

Lemma PacketProtoEncoder_encodes_witness :
  ∃ enc0 enc,
    Encoder.PacketProtoEncoder_Init 4 (replicate 8 0) = Some enc0 ∧
    (Encoder.output_handler_recv 1;; Encoder.deliver [9; 8]) enc0
      = Some (tt, enc, [Encoder.Recv (1 + HEADER); Encoder.Done (zlen (encode [9; 8]))]) ∧
    zlen (encode [9; 8]) ≤ Encoder.GetOutput_mtu enc0 ∧
    Encoder.mem enc = splice 1 (encode [9; 8]) (replicate 8 0) ∧
    Encoder.output_packet enc = None ∧ Encoder.input_recv enc = None.
Proof. apply (PacketProtoEncoder_encodes 4 (replicate 8 0) 1 [9; 8]); by vm_compute. Defined.
