(* ===== verification/Addr.v ===== *)
(** * Addresses

    [system/BAddr.h]: IP addresses and socket addresses, as tagged unions.  IPv4
    addresses and ports are kept as in the C structs, in network byte order in
    memory: [le_bytes] of the field is the address as it is written. *)

From S2P Require Import Prelude CInt.

Inductive BIPAddr :=
| BIPAddr_None
| BIPAddr_v4 (ipv4 : Z)
| BIPAddr_v6 (ipv6 : bytes).

(** [type] and the union; packet addresses ([BADDR_TYPE_PACKET]) are only used by
    sockets the program does not open *)
Inductive BAddr :=
| BAddr_None
| BAddr_v4 (ip port : Z)
| BAddr_v6 (ip : bytes) (port : Z).

#[export] Instance BIPAddr_eq_dec : EqDecision BIPAddr.
Proof. solve_decision. Defined.
#[export] Instance BAddr_eq_dec : EqDecision BAddr.
Proof. solve_decision. Defined.

Definition BADDR_TYPE_NONE : Z := 0.
Definition BADDR_TYPE_IPV4 : Z := 1.
Definition BADDR_TYPE_IPV6 : Z := 2.
Definition BIPAddr_type (a : BIPAddr) : Z :=
  match a with
  | BIPAddr_None => BADDR_TYPE_NONE | BIPAddr_v4 _ => BADDR_TYPE_IPV4
  | BIPAddr_v6 _ => BADDR_TYPE_IPV6
  end.
Definition BAddr_type (a : BAddr) : Z :=
  match a with
  | BAddr_None => BADDR_TYPE_NONE | BAddr_v4 _ _ => BADDR_TYPE_IPV4
  | BAddr_v6 _ _ => BADDR_TYPE_IPV6
  end.

(** the ranges of the fields *)
Definition BIPAddr_ok (a : BIPAddr) : Prop :=
  match a with
  | BIPAddr_None => True
  | BIPAddr_v4 ip => 0 ≤ ip < 2 ^ 32
  | BIPAddr_v6 ip => zlen ip = 16 ∧ bytes_ok ip
  end.
Definition BAddr_ok (a : BAddr) : Prop :=
  match a with
  | BAddr_None => True
  | BAddr_v4 ip port => 0 ≤ ip < 2 ^ 32 ∧ 0 ≤ port < 2 ^ 16
  | BAddr_v6 ip port => (zlen ip = 16 ∧ bytes_ok ip) ∧ 0 ≤ port < 2 ^ 16
  end.

Definition BIPAddr_IsInvalid (a : BIPAddr) : bool := BIPAddr_type a =? BADDR_TYPE_NONE.
Definition BAddr_IsInvalid (a : BAddr) : bool := BAddr_type a =? BADDR_TYPE_NONE.

(** [memcmp]: the sign of the first difference *)
Fixpoint memcmp (l k : bytes) : Z :=
  match l, k with
  | x :: l, y :: k => if x <? y then -1 else if x >? y then 1 else memcmp l k
  | _, _ => 0
  end.

Definition BIPAddr_Compare (a b : BIPAddr) : bool :=
  match a, b with
  | BIPAddr_v4 x, BIPAddr_v4 y => x =? y
  | BIPAddr_v6 x, BIPAddr_v6 y => memcmp x y =? 0
  | _, _ => false
  end.
Definition BAddr_GetPort (a : BAddr) : option Z :=
  match a with
  | BAddr_v4 _ port => Some port
  | BAddr_v6 _ port => Some port
  | BAddr_None => None
  end.
Definition BAddr_GetIPAddr (a : BAddr) : BIPAddr :=
  match a with
  | BAddr_v4 ip _ => BIPAddr_v4 ip
  | BAddr_v6 ip _ => BIPAddr_v6 ip
  | BAddr_None => BIPAddr_None
  end.
Definition BAddr_SetPort (a : BAddr) (port : Z) : option BAddr :=
  match a with
  | BAddr_v4 ip _ => Some (BAddr_v4 ip port)
  | BAddr_v6 ip _ => Some (BAddr_v6 ip port)
  | BAddr_None => None
  end.
Definition BAddr_MakeNone : BAddr := BAddr_None.
Definition BAddr_MakeIPv4 (ip port : Z) : BAddr := BAddr_v4 ip port.
Definition BAddr_MakeIPv6 (ip : bytes) (port : Z) : BAddr := BAddr_v6 (ztake 16 ip) port.
Definition BAddr_MakeFromIpaddrAndPort (ipaddr : BIPAddr) (port : Z) : BAddr :=
  match ipaddr with
  | BIPAddr_None => BAddr_MakeNone
  | BIPAddr_v4 ip => BAddr_MakeIPv4 ip port
  | BIPAddr_v6 ip => BAddr_MakeIPv6 ip port
  end.

Definition BAddr_Compare (a b : BAddr) : bool :=
  match a, b with
  | BAddr_v4 ip1 p1, BAddr_v4 ip2 p2 => (ip1 =? ip2) && (p1 =? p2)
  | BAddr_v6 ip1 p1, BAddr_v6 ip2 p2 => (memcmp ip1 ip2 =? 0) && (p1 =? p2)
  | _, _ => false
  end.

Definition BAddr_CompareOrder (a b : BAddr) : Z :=
  let cmp := B_COMPARE (BAddr_type a) (BAddr_type b) in
  if negb (cmp =? 0) then cmp
  else
    match a, b with
    | BAddr_v4 ip1 p1, BAddr_v4 ip2 p2 =>
        let cmp := B_COMPARE (ntoh32 ip1) (ntoh32 ip2) in
        if negb (cmp =? 0) then cmp else B_COMPARE (ntoh16 p1) (ntoh16 p2)
    | BAddr_v6 ip1 p1, BAddr_v6 ip2 p2 =>
        let cmp := memcmp ip1 ip2 in
        if negb (cmp =? 0) then B_COMPARE cmp 0 else B_COMPARE (ntoh16 p1) (ntoh16 p2)
    | _, _ => 0
    end.

(** ** Comparison *)

Lemma memcmp_eq l k : zlen l = zlen k → memcmp l k = 0 ↔ l = k.
Proof.
  revert k. induction l as [|x l IH]; intros [|y k]; rewrite ?zlen_cons, ?zlen_nil.
  - done.
  - pose proof (zlen_nonneg k). lia.
  - pose proof (zlen_nonneg l). lia.
  - intros H. cbn [memcmp]. rewrite Z.gtb_ltb.
    destruct (Z.ltb_spec x y); [split; [done|intros [=]; lia]|].
    destruct (Z.ltb_spec y x); [split; [done|intros [=]; lia]|].
    rewrite IH by lia. assert (x = y) as -> by lia. split; [by intros ->|by intros [= ->]].
Qed.
Lemma memcmp_refl l : memcmp l l = 0.
Proof. by apply memcmp_eq. Qed.
Lemma memcmp_antisym l k : memcmp k l = - memcmp l k.
Proof.
  revert k. induction l as [|x l IH]; intros [|y k]; cbn [memcmp]; try done.
  rewrite !Z.gtb_ltb. specialize (IH k).
  destruct (Z.ltb_spec x y), (Z.ltb_spec y x); lia.
Qed.
Lemma memcmp_range l k : memcmp l k = -1 ∨ memcmp l k = 0 ∨ memcmp l k = 1.
Proof.
  revert k. induction l as [|x l IH]; intros [|y k]; cbn [memcmp]; auto.
  repeat case_match; auto.
Qed.

Lemma BIPAddr_Compare_spec a b :
  BIPAddr_ok a → BIPAddr_ok b → a ≠ BIPAddr_None → BIPAddr_Compare a b = bool_decide (a = b).
Proof.
  destruct a as [|x|x], b as [|y|y]; cbn; try done; intros Ha Hb _; symmetry.
  - destruct (Z.eqb_spec x y); [apply bool_decide_eq_true|apply bool_decide_eq_false]; congruence.
  - destruct Ha, Hb. destruct (Z.eqb_spec (memcmp x y) 0) as [E|E];
      [apply bool_decide_eq_true|apply bool_decide_eq_false]; rewrite memcmp_eq in E by lia; congruence.
Qed.

(** [BAddr_Compare] is equality on addresses of a known family. *)
Lemma BAddr_Compare_spec a b :
  BAddr_ok a → BAddr_ok b → a ≠ BAddr_None → BAddr_Compare a b = bool_decide (a = b).
Proof.
  destruct a as [|x p|x p], b as [|y q|y q]; cbn; try done; intros Ha Hb _; symmetry.
  - destruct (Z.eqb_spec x y), (Z.eqb_spec p q); cbn;
      [apply bool_decide_eq_true|apply bool_decide_eq_false..]; congruence.
  - destruct Ha as [[? ?] ?], Hb as [[? ?] ?].
    destruct (Z.eqb_spec (memcmp x y) 0) as [E|E], (Z.eqb_spec p q); cbn;
      [apply bool_decide_eq_true|apply bool_decide_eq_false..]; rewrite memcmp_eq in E by lia; congruence.
Qed.

Lemma B_COMPARE_antisym a b : B_COMPARE b a = - B_COMPARE a b.
Proof. rewrite !B_COMPARE_spec, (Z.compare_antisym a b). by destruct (a ?= b). Qed.
Lemma B_COMPARE_0 a b : B_COMPARE a b = 0 ↔ a = b.
Proof. rewrite B_COMPARE_spec. destruct (Z.compare_spec a b); split; (done || lia). Qed.

Lemma hton32_inj x y : 0 ≤ x < 2 ^ 32 → 0 ≤ y < 2 ^ 32 → hton32 x = hton32 y → x = y.
Proof.
  intros Hx Hy H. apply (f_equal ntoh32) in H.
  rewrite !ntoh32_hton32, !Z.mod_small in H by lia. done.
Qed.

Lemma BAddr_CompareOrder_antisym a b : BAddr_CompareOrder b a = - BAddr_CompareOrder a b.
Proof.
  unfold BAddr_CompareOrder. rewrite (B_COMPARE_antisym (BAddr_type a)).
  assert (∀ x, (- x =? 0) = (x =? 0)) as Hz by (intros x; repeat zcase).
  rewrite Hz. destruct (B_COMPARE (BAddr_type a) (BAddr_type b) =? 0) eqn:E; cbn; [|done].
  destruct a as [|x p|x p], b as [|y q|y q]; try done.
  - rewrite (B_COMPARE_antisym (ntoh32 x)), (B_COMPARE_antisym (ntoh16 p)), Hz.
    by destruct (B_COMPARE (ntoh32 x) (ntoh32 y) =? 0).
  - rewrite (memcmp_antisym x), (B_COMPARE_antisym (ntoh16 p)), Hz.
    destruct (memcmp x y =? 0); cbn; [done|].
    rewrite <-B_COMPARE_antisym. destruct (memcmp_range x y) as [-> | [-> | ->]]; done.
Qed.

Lemma BAddr_CompareOrder_0 a b :
  BAddr_ok a → BAddr_ok b → BAddr_CompareOrder a b = 0 ↔ a = b.
Proof.
  intros Ha Hb. unfold BAddr_CompareOrder. split.
  - destruct (Z.eqb_spec (B_COMPARE (BAddr_type a) (BAddr_type b)) 0) as [E|E]; [|done]. cbn.
    rewrite B_COMPARE_0 in E. destruct a as [|x p|x p], b as [|y q|y q]; try done.
    + destruct Ha, Hb. destruct (Z.eqb_spec (B_COMPARE (ntoh32 x) (ntoh32 y)) 0) as [E1|]; [|done].
      cbn. intros E2. rewrite B_COMPARE_0 in E1, E2. apply hton32_inj in E1; [|done..].
      apply hton16_inj in E2; [|done..]. congruence.
    + destruct Ha as [[]], Hb as [[]]. destruct (Z.eqb_spec (memcmp x y) 0) as [E1|E1]; cbn.
      * rewrite B_COMPARE_0. intros E2. apply hton16_inj in E2; [|done..].
        apply memcmp_eq in E1; [congruence|lia].
      * rewrite B_COMPARE_0. done.
  - intros ->. assert (∀ x, B_COMPARE x x = 0) as E by (intros; by apply B_COMPARE_0).
    rewrite E. cbn. destruct b; rewrite ?E, ?memcmp_refl; cbn; by rewrite ?E.
Qed.
