(* ===== verification/Socks.v ===== *)
(** * SOCKS5 client

    [socksclient/BSocksClient.c], [misc/socks_proto.h]: the client side of the
    SOCKS5 handshake over a connection.  The object owns a connector, then a
    connection with its send and receive interfaces, and one buffer that holds in
    turn each message sent and each reply received. *)

From S2P Require Import Prelude CInt Addr.

(** ** socks_proto.h *)

Definition SOCKS_VERSION : Z := 5.
Definition SOCKS_METHOD_NO_AUTHENTICATION_REQUIRED : Z := 0.
Definition SOCKS_METHOD_USERNAME_PASSWORD : Z := 2.
Definition SOCKS_CMD_CONNECT : Z := 1.
Definition SOCKS_ATYP_IPV4 : Z := 1.
Definition SOCKS_ATYP_IPV6 : Z := 4.
Definition SOCKS_REP_SUCCEEDED : Z := 0.

(** sizes of the packed structs *)
Definition sizeof_client_hello_header : Z := 2.
Definition sizeof_client_hello_method : Z := 1.
Definition sizeof_server_hello : Z := 2.
Definition sizeof_request_header : Z := 4.
Definition sizeof_reply_header : Z := 4.
Definition sizeof_addr_ipv4 : Z := 6.
Definition sizeof_addr_ipv6 : Z := 18.

(** ** The object *)

Inductive socks_state :=
| STATE_CONNECTING | STATE_SENDING_HELLO | STATE_SENT_HELLO
| STATE_SENDING_PASSWORD | STATE_SENT_PASSWORD
| STATE_SENDING_REQUEST | STATE_SENT_REQUEST
| STATE_RECEIVED_REPLY_HEADER | STATE_UP.
#[export] Instance socks_state_eq_dec : EqDecision socks_state.
Proof. solve_decision. Defined.

Definition BSOCKSCLIENT_EVENT_ERROR : Z := 1.
Definition BSOCKSCLIENT_EVENT_UP : Z := 2.
Definition BSOCKSCLIENT_EVENT_ERROR_CLOSED : Z := 3.
Definition BCONNECTION_EVENT_RECVCLOSED : Z := 3.

(** [struct BSocksClient_auth_info]: the lengths are those of the strings *)
Record auth_info := mkAuth { auth_type : Z; username : bytes; password : bytes }.

Definition BSocksClient_auth_none : auth_info :=
  mkAuth SOCKS_METHOD_NO_AUTHENTICATION_REQUIRED [] [].
Definition BSocksClient_auth_password (username password : bytes) : auth_info :=
  mkAuth SOCKS_METHOD_USERNAME_PASSWORD username password.

(** The object; the interfaces it holds are the flags of what is initialised, the
    operation each is busy with, and [d_err], which is set by the first report of
    an error. *)
Record BSocksClient := mkSocks {
  auths : list auth_info;          (** [auth_info], [num_auth_info] *)
  dest_addr : BAddr;
  state : socks_state;
  buffer : option bytes;
  connector : bool;
  con : bool;
  con_recv : bool;                 (** [BConnection_RecvAsync_Init] *)
  con_send : bool;                 (** [BConnection_SendAsync_Init] *)
  send_sender : bool;              (** [PacketStreamSender_Init] *)
  send_op : option Z;              (** length of the packet [send_if] is busy with *)
  recv_op : option (Z * Z);        (** what [recv_if] is busy with *)
  recv_dest : Z;
  recv_len : Z;
  recv_total : Z;
  d_err : bool;
}.

(** A packet given to [send_if], and a call of the handler of the owner. *)
Inductive event := sent (d : bytes) | handler (ev : Z).

Abbreviation Sk := (M BSocksClient event).

Definition set_state (st : socks_state) : Sk unit := modify (λ o,
  mkSocks (auths o) (dest_addr o) st (buffer o) (connector o) (con o) (con_recv o) (con_send o)
    (send_sender o) (send_op o) (recv_op o) (recv_dest o) (recv_len o) (recv_total o) (d_err o)).
Definition set_buffer (b : option bytes) : Sk unit := modify (λ o,
  mkSocks (auths o) (dest_addr o) (state o) b (connector o) (con o) (con_recv o) (con_send o)
    (send_sender o) (send_op o) (recv_op o) (recv_dest o) (recv_len o) (recv_total o) (d_err o)).
Definition set_connector (b : bool) : Sk unit := modify (λ o,
  mkSocks (auths o) (dest_addr o) (state o) (buffer o) b (con o) (con_recv o) (con_send o)
    (send_sender o) (send_op o) (recv_op o) (recv_dest o) (recv_len o) (recv_total o) (d_err o)).
Definition set_con (b : bool) : Sk unit := modify (λ o,
  mkSocks (auths o) (dest_addr o) (state o) (buffer o) (connector o) b (con_recv o) (con_send o)
    (send_sender o) (send_op o) (recv_op o) (recv_dest o) (recv_len o) (recv_total o) (d_err o)).
Definition set_io (r s p : bool) : Sk unit := modify (λ o,
  mkSocks (auths o) (dest_addr o) (state o) (buffer o) (connector o) (con o) r s
    p None None (recv_dest o) (recv_len o) (recv_total o) (d_err o)).
Definition set_send_op (x : option Z) : Sk unit := modify (λ o,
  mkSocks (auths o) (dest_addr o) (state o) (buffer o) (connector o) (con o) (con_recv o) (con_send o)
    (send_sender o) x (recv_op o) (recv_dest o) (recv_len o) (recv_total o) (d_err o)).
Definition set_recv_op (x : option (Z * Z)) : Sk unit := modify (λ o,
  mkSocks (auths o) (dest_addr o) (state o) (buffer o) (connector o) (con o) (con_recv o) (con_send o)
    (send_sender o) (send_op o) x (recv_dest o) (recv_len o) (recv_total o) (d_err o)).
Definition set_recv (d l t : Z) : Sk unit := modify (λ o,
  mkSocks (auths o) (dest_addr o) (state o) (buffer o) (connector o) (con o) (con_recv o) (con_send o)
    (send_sender o) (send_op o) (recv_op o) d l t (d_err o)).
Definition set_err : Sk unit := modify (λ o,
  mkSocks (auths o) (dest_addr o) (state o) (buffer o) (connector o) (con o) (con_recv o) (con_send o)
    (send_sender o) (send_op o) (recv_op o) (recv_dest o) (recv_len o) (recv_total o) true).

(** ** Calls of other components

    Each asserts what the callee asserts: an interface is used only while it is
    initialised and idle, a packet lies inside the buffer. *)

(** [DEBUGERROR]: an error is reported once *)
Definition report_error (error : Z) : Sk unit :=
  o ← get; ASSERT (negb (d_err o));; set_err;; emit (handler error).

Definition init_control_io : Sk unit :=
  o ← get;
  ASSERT (con o && negb (con_recv o) && negb (con_send o) && negb (send_sender o));;
  set_io true true true.
Definition free_control_io : Sk unit :=
  o ← get;
  ASSERT (con o && con_recv o && con_send o && send_sender o);;
  set_io false false false.
Definition init_up_io : Sk unit :=
  o ← get;
  ASSERT (con o && negb (con_recv o) && negb (con_send o) && negb (send_sender o));;
  set_io true true false.
Definition free_up_io : Sk unit :=
  o ← get;
  ASSERT (con o && con_recv o && con_send o && negb (send_sender o));;
  set_io false false false.

(** [BRealloc]: the memory the allocator returns starts with the old contents;
    [alloc] is [None] when it fails, and otherwise what the rest contains *)
Definition realloc (old : option bytes) (size : Z) (junk : bytes) : bytes :=
  ztake size (default [] old ++ junk ++ replicate (Z.to_nat size) 0).
Definition reserve_buffer (alloc : option bytes) (size : bsize_t) : Sk bool :=
  if is_overflow size then mret false
  else
    match alloc with
    | None => mret false
    | Some junk =>
        o ← get;
        set_buffer (Some (realloc (buffer o) (bvalue size) junk));;
        mret true
    end.

(** [memcpy(o->buffer + off, d, zlen d)] *)
Definition write_buffer (off : Z) (d : bytes) : Sk unit :=
  o ← get;
  match buffer o with
  | None => unreachable
  | Some b =>
      ASSERT ((0 <=? off) && (off + zlen d <=? zlen b));;
      set_buffer (Some (splice off d b))
  end.
(** the [n] bytes at [o->buffer + off] *)
Definition read_buffer (off n : Z) : Sk bytes :=
  o ← get;
  match buffer o with
  | None => unreachable
  | Some b =>
      ASSERT ((0 <=? off) && (off + n <=? zlen b));;
      mret (slice off n b)
  end.

(** [PacketPassInterface_Sender_Send(o->control.send_if, o->buffer, len)] *)
Definition Sender_Send (len : Z) : Sk unit :=
  o ← get;
  ASSERT (send_sender o && negb (not_null (send_op o)) && (0 <=? len) && (len <=? INT_MAX));;
  d ← read_buffer 0 len;
  set_send_op (Some len);;
  emit (sent d).

Definition do_receive : Sk unit :=
  o ← get;
  ASSERT (recv_len o <? recv_total o);;
  ASSERT (con_recv o && negb (not_null (recv_op o)));;
  set_recv_op (Some (recv_dest o + recv_len o, recv_total o - recv_len o)).

Definition start_receive (dest total : Z) : Sk unit :=
  ASSERT (total >? 0);;
  set_recv dest 0 total;;
  do_receive.

(** ** Handlers *)

Definition client_hello (o : BSocksClient) : bytes :=
  [u8 SOCKS_VERSION; u8 (zlen (auths o))].

(** [connector_handler]; [con_ok] is the result of [BConnection_Init] *)
Definition connector_handler (is_error con_ok : bool) (alloc : option bytes) : Sk unit :=
  o ← get;
  ASSERT (bool_decide (state o = STATE_CONNECTING));;
  let fail0 := report_error BSOCKSCLIENT_EVENT_ERROR in
  if is_error then fail0
  else if negb con_ok then fail0
  else
    ASSERT (negb (con o));;
    set_con true;;
    init_control_io;;
    let fail1 :=
      free_control_io;;
      set_con false;;
      fail0 in
    if (zlen (auths o) =? 0) || (zlen (auths o) >? 255) then fail1
    else
      let size := bsize_add (bsize_fromsize sizeof_client_hello_header)
                    (bsize_mul (bsize_fromsize (zlen (auths o)))
                       (bsize_fromsize sizeof_client_hello_method)) in
      ok ← reserve_buffer alloc size;
      if negb ok then fail1
      else
        write_buffer 0 (client_hello o);;
        write_buffer sizeof_client_hello_header (map (λ ai, u8 (auth_type ai)) (auths o));;
        Sender_Send (bvalue size);;
        set_state STATE_SENDING_HELLO.

Definition connection_handler (ev : Z) : Sk unit :=
  o ← get;
  ASSERT (negb (bool_decide (state o = STATE_CONNECTING)));;
  if bool_decide (state o = STATE_UP) && (ev =? BCONNECTION_EVENT_RECVCLOSED) then
    report_error BSOCKSCLIENT_EVENT_ERROR_CLOSED
  else report_error BSOCKSCLIENT_EVENT_ERROR.

Definition auth_finished (alloc : option bytes) : Sk unit :=
  o ← get;
  let size := bsize_fromsize sizeof_request_header in
  let size :=
    match dest_addr o with
    | BAddr_v4 _ _ => bsize_add size (bsize_fromsize sizeof_addr_ipv4)
    | BAddr_v6 _ _ => bsize_add size (bsize_fromsize sizeof_addr_ipv6)
    | _ => size
    end in
  ok ← reserve_buffer alloc size;
  if negb ok then report_error BSOCKSCLIENT_EVENT_ERROR
  else
    atyp ←
      match dest_addr o with
      | BAddr_v4 ip port =>
          write_buffer sizeof_request_header (le_bytes 4 ip ++ le_bytes 2 port);;
          mret SOCKS_ATYP_IPV4
      | BAddr_v6 ip port =>
          write_buffer sizeof_request_header (ip ++ le_bytes 2 port);;
          mret SOCKS_ATYP_IPV6
      | _ => unreachable
      end;
    write_buffer 0 [u8 SOCKS_VERSION; u8 SOCKS_CMD_CONNECT; u8 0; u8 atyp];;
    Sender_Send (bvalue size);;
    set_state STATE_SENDING_REQUEST.

(** the search in [recv_handler_done] for a method the server chose *)
Fixpoint find_auth (auths : list auth_info) (method : Z) : option auth_info :=
  match auths with
  | [] => None
  | ai :: auths => if auth_type ai =? method then Some ai else find_auth auths method
  end.

Definition fail : Sk unit := report_error BSOCKSCLIENT_EVENT_ERROR.

(** the [i]-th byte of a message *)
Definition byte_at (d : bytes) (i : nat) : Z := default 0 (d !! i).

Definition password_packet (ai : auth_info) : bytes :=
  [1; u8 (zlen (username ai))] ++ username ai ++ [u8 (zlen (password ai))] ++ password ai.

(** [case STATE_SENT_HELLO] *)
Definition received_hello (alloc : option bytes) : Sk unit :=
  o ← get;
  imsg ← read_buffer 0 sizeof_server_hello;
  if negb (byte_at imsg 0 =? SOCKS_VERSION) then fail
  else
    match find_auth (auths o) (byte_at imsg 1) with
    | None => fail
    | Some ai =>
        if auth_type ai =? SOCKS_METHOD_NO_AUTHENTICATION_REQUIRED then auth_finished alloc
        else if auth_type ai =? SOCKS_METHOD_USERNAME_PASSWORD then
          if (zlen (username ai) =? 0) || (zlen (username ai) >? 255)
             || (zlen (password ai) =? 0) || (zlen (password ai) >? 255) then fail
          else
            let size := bsize_fromsize (1 + 1 + zlen (username ai) + 1 + zlen (password ai)) in
            ok ← reserve_buffer alloc size;
            if negb ok then fail
            else
              write_buffer 0 (password_packet ai);;
              Sender_Send (bvalue size);;
              set_state STATE_SENDING_PASSWORD
        else unreachable
    end.

(** [case STATE_SENT_REQUEST] *)
Definition received_reply_header : Sk unit :=
  imsg ← read_buffer 0 sizeof_reply_header;
  if negb (byte_at imsg 0 =? SOCKS_VERSION) then fail
  else if negb (byte_at imsg 1 =? SOCKS_REP_SUCCEEDED) then fail
  else
    let addr_len :=
      if byte_at imsg 3 =? SOCKS_ATYP_IPV4 then Some sizeof_addr_ipv4
      else if byte_at imsg 3 =? SOCKS_ATYP_IPV6 then Some sizeof_addr_ipv6
      else None in
    match addr_len with
    | None => fail
    | Some addr_len =>
        start_receive sizeof_reply_header addr_len;;
        set_state STATE_RECEIVED_REPLY_HEADER
    end.

(** [case STATE_SENT_PASSWORD] *)
Definition received_password_reply (alloc : option bytes) : Sk unit :=
  imsg ← read_buffer 0 2;
  if negb (byte_at imsg 0 =? 1) then fail
  else if negb (byte_at imsg 1 =? 0) then fail
  else auth_finished alloc.

(** [case STATE_RECEIVED_REPLY_HEADER] *)
Definition received_reply_rest : Sk unit :=
  o ← get;
  ASSERT (not_null (buffer o));;
  set_buffer None;;
  free_control_io;;
  init_up_io;;
  set_state STATE_UP;;
  emit (handler BSOCKSCLIENT_EVENT_UP).

Definition recv_handler_done (data_len : Z) (alloc : option bytes) : Sk unit :=
  o ← get;
  ASSERT (data_len >=? 0);;
  ASSERT (data_len <=? recv_total o - recv_len o);;
  set_recv (recv_dest o) (recv_len o + data_len) (recv_total o);;
  if recv_len o + data_len <? recv_total o then do_receive
  else
    match state o with
    | STATE_SENT_HELLO => received_hello alloc
    | STATE_SENT_REQUEST => received_reply_header
    | STATE_SENT_PASSWORD => received_password_reply alloc
    | STATE_RECEIVED_REPLY_HEADER => received_reply_rest
    | _ => unreachable
    end.

Definition send_handler_done (alloc : option bytes) : Sk unit :=
  o ← get;
  ASSERT (not_null (buffer o));;
  match state o with
  | STATE_SENDING_HELLO =>
      let size := bsize_fromsize sizeof_server_hello in
      ok ← reserve_buffer alloc size;
      if negb ok then fail
      else start_receive 0 (bvalue size);; set_state STATE_SENT_HELLO
  | STATE_SENDING_REQUEST =>
      let size := bsize_add (bsize_fromsize sizeof_reply_header)
                    (bsize_max (bsize_fromsize sizeof_addr_ipv4) (bsize_fromsize sizeof_addr_ipv6)) in
      ok ← reserve_buffer alloc size;
      if negb ok then fail
      else start_receive 0 sizeof_reply_header;; set_state STATE_SENT_REQUEST
  | STATE_SENDING_PASSWORD =>
      let size := bsize_fromsize 2 in
      ok ← reserve_buffer alloc size;
      if negb ok then fail
      else start_receive 0 (bvalue size);; set_state STATE_SENT_PASSWORD
  | _ => unreachable
  end.

(** [BSocksClient_Init]; [connector_ok] is the result of [BConnector_Init] *)
Definition BSocksClient_Init (server_addr : BAddr) (auth_info : list auth_info) (dest : BAddr)
    (connector_ok : bool) : option (option BSocksClient) :=
  assert! negb (BAddr_IsInvalid server_addr);
  assert! (BAddr_type dest =? BADDR_TYPE_IPV4) || (BAddr_type dest =? BADDR_TYPE_IPV6);
  assert! forallb (λ ai, (auth_type ai =? SOCKS_METHOD_NO_AUTHENTICATION_REQUIRED)
                      || (auth_type ai =? SOCKS_METHOD_USERNAME_PASSWORD)) auth_info;
  Some (if negb connector_ok then None
        else Some (mkSocks auth_info dest STATE_CONNECTING None true false false false false
                     None None 0 0 0 false)).

Definition BSocksClient_Free : Sk unit :=
  o ← get;
  (if negb (bool_decide (state o = STATE_CONNECTING)) then
     (if bool_decide (state o = STATE_UP) then free_up_io else free_control_io);;
     set_con false
   else mret tt);;
  ASSERT (connector o);;
  set_connector false;;
  when (not_null (buffer o)) (set_buffer None).

(** ** The world around the client

    The connector reports once; the connection reports an error; the send
    interface finishes the packet it is busy with; the receive interface delivers
    some of the bytes it was asked for, which it writes to the buffer.  After an
    error was reported the owner must free the object. *)
Inductive input :=
| Connector (is_error con_ok : bool) (alloc : option bytes)
| Connection (ev : Z)
| SendDone (alloc : option bytes)
| RecvDone (d : bytes) (alloc : option bytes).

Definition step (i : input) : Sk unit :=
  o ← get;
  ASSERT (negb (d_err o));;
  match i with
  | Connector is_error con_ok alloc =>
      ASSERT (bool_decide (state o = STATE_CONNECTING));;
      connector_handler is_error con_ok alloc
  | Connection ev =>
      ASSERT (con o);;
      connection_handler ev
  | SendDone alloc =>
      ASSERT (send_sender o && not_null (send_op o));;
      set_send_op None;;
      send_handler_done alloc
  | RecvDone d alloc =>
      ASSERT (negb (bool_decide (state o = STATE_UP)));;
      match recv_op o with
      | None => unreachable
      | Some (data, len) =>
          ASSERT ((0 <? zlen d) && (zlen d <=? len));;
          set_recv_op None;;
          write_buffer data d;;
          recv_handler_done (zlen d) alloc
      end
  end.

(** ** The conversation

    What has been sent and received in each state of a handshake that went well so
    far. *)

Definition hello (auths : list auth_info) : bytes :=
  [SOCKS_VERSION; zlen auths] ++ map (λ ai, u8 (auth_type ai)) auths.
Definition addr_bytes (a : BAddr) : bytes :=
  match a with
  | BAddr_v4 ip port => le_bytes 4 ip ++ le_bytes 2 port
  | BAddr_v6 ip port => ip ++ le_bytes 2 port
  | BAddr_None => []
  end.
Definition addr_atyp (a : BAddr) : Z :=
  match a with BAddr_v4 _ _ => SOCKS_ATYP_IPV4 | _ => SOCKS_ATYP_IPV6 end.
Definition request (dest : BAddr) : bytes :=
  [SOCKS_VERSION; SOCKS_CMD_CONNECT; 0; addr_atyp dest] ++ addr_bytes dest.
Definition reply_addr_len (atyp : Z) : option Z :=
  if atyp =? SOCKS_ATYP_IPV4 then Some sizeof_addr_ipv4
  else if atyp =? SOCKS_ATYP_IPV6 then Some sizeof_addr_ipv6 else None.

#[global] Arguments hello : simpl never.
#[global] Arguments request : simpl never.
#[global] Arguments password_packet : simpl never.

(** credentials the protocol can carry *)
Definition good_password (ai : auth_info) : Prop :=
  0 < zlen (username ai) ≤ 255 ∧ 0 < zlen (password ai) ≤ 255.

(** packets sent and bytes received when the server accepted the client *)
Inductive authenticated (auths : list auth_info) : list bytes → bytes → Prop :=
| auth_no ai :
    find_auth auths SOCKS_METHOD_NO_AUTHENTICATION_REQUIRED = Some ai →
    authenticated auths [hello auths] [SOCKS_VERSION; SOCKS_METHOD_NO_AUTHENTICATION_REQUIRED]
| auth_pw ai :
    find_auth auths SOCKS_METHOD_USERNAME_PASSWORD = Some ai → good_password ai →
    authenticated auths [hello auths; password_packet ai]
      [SOCKS_VERSION; SOCKS_METHOD_USERNAME_PASSWORD; 1; 0].

(** the whole handshake: one reply, with an address of the size its type says *)
Definition handshake (auths : list auth_info) (dest : BAddr) (snt : list bytes) (rcv : bytes) : Prop :=
  ∃ pre r rsv atyp rest,
    authenticated auths pre r ∧ snt = pre ++ [request dest] ∧
    rcv = r ++ [SOCKS_VERSION; SOCKS_REP_SUCCEEDED; rsv; atyp] ++ rest ∧
    reply_addr_len atyp = Some (zlen rest).

(** the object waits for [total] bytes at [dest] of the buffer; [got] have arrived *)
Definition receiving (dest total : Z) (got : bytes) (o : BSocksClient) : Prop :=
  ∃ b, buffer o = Some b ∧ send_op o = None ∧
    recv_dest o = dest ∧ recv_len o = zlen got ∧ recv_total o = total ∧
    recv_op o = Some (dest + zlen got, total - zlen got) ∧
    zlen got < total ∧ 0 ≤ dest ∧ dest + total ≤ zlen b ∧ slice dest (zlen got) b = got.
Definition sending (o : BSocksClient) : Prop :=
  not_null (buffer o) = true ∧ not_null (send_op o) = true ∧ recv_op o = None.

Definition conversation (o : BSocksClient) (snt : list bytes) (rcv : bytes) : Prop :=
  let au := auths o in
  match state o with
  | STATE_CONNECTING => snt = [] ∧ rcv = [] ∧ buffer o = None ∧ send_op o = None ∧ recv_op o = None
  | STATE_SENDING_HELLO => snt = [hello au] ∧ rcv = [] ∧ sending o
  | STATE_SENT_HELLO => snt = [hello au] ∧ receiving 0 2 rcv o
  | STATE_SENDING_PASSWORD => ∃ ai,
      find_auth au SOCKS_METHOD_USERNAME_PASSWORD = Some ai ∧ good_password ai ∧
      snt = [hello au; password_packet ai] ∧
      rcv = [SOCKS_VERSION; SOCKS_METHOD_USERNAME_PASSWORD] ∧ sending o
  | STATE_SENT_PASSWORD => ∃ ai got,
      find_auth au SOCKS_METHOD_USERNAME_PASSWORD = Some ai ∧ good_password ai ∧
      snt = [hello au; password_packet ai] ∧
      rcv = [SOCKS_VERSION; SOCKS_METHOD_USERNAME_PASSWORD] ++ got ∧ receiving 0 2 got o
  | STATE_SENDING_REQUEST => ∃ pre,
      authenticated au pre rcv ∧ snt = pre ++ [request (dest_addr o)] ∧ sending o
  | STATE_SENT_REQUEST => ∃ pre r got,
      authenticated au pre r ∧ snt = pre ++ [request (dest_addr o)] ∧ rcv = r ++ got ∧
      (∃ b, buffer o = Some b ∧ 22 ≤ zlen b) ∧ receiving 0 4 got o
  | STATE_RECEIVED_REPLY_HEADER => ∃ pre r rsv atyp n got,
      authenticated au pre r ∧ snt = pre ++ [request (dest_addr o)] ∧
      rcv = r ++ [SOCKS_VERSION; SOCKS_REP_SUCCEEDED; rsv; atyp] ++ got ∧
      reply_addr_len atyp = Some n ∧ receiving 4 n got o
  | STATE_UP =>
      handshake au (dest_addr o) snt rcv ∧ buffer o = None ∧ send_op o = None ∧ recv_op o = None
  end.

(** what is initialised in each state *)
Definition resources (o : BSocksClient) : Prop :=
  connector o = true ∧
  match state o with
  | STATE_CONNECTING =>
      con o = false ∧ con_recv o = false ∧ con_send o = false ∧ send_sender o = false
  | STATE_UP => con o = true ∧ con_recv o = true ∧ con_send o = true ∧ send_sender o = false
  | _ => con o = true ∧ con_recv o = true ∧ con_send o = true ∧ send_sender o = true
  end.

Definition config_ok (au : list auth_info) (dest : BAddr) : Prop :=
  Forall (λ ai, auth_type ai = SOCKS_METHOD_NO_AUTHENTICATION_REQUIRED ∨
                auth_type ai = SOCKS_METHOD_USERNAME_PASSWORD) au ∧
  BAddr_ok dest ∧ dest ≠ BAddr_None.

Record inv (au : list auth_info) (dest : BAddr) (o : BSocksClient) (snt : list bytes) (rcv : bytes) : Prop := {
  inv_config : config_ok (auths o) (dest_addr o);
  inv_auths : auths o = au;
  inv_dest : dest_addr o = dest;
  inv_res : resources o;
  inv_conv : d_err o = false → conversation o snt rcv;
}.

Definition sents (es : list event) : list bytes :=
  omap (λ e, match e with sent d => Some d | _ => None end) es.
Definition reports (es : list event) : list Z :=
  omap (λ e, match e with handler ev => Some ev | _ => None end) es.
Definition received (i : input) : bytes := match i with RecvDone d _ => d | _ => [] end.

(** What one step may do, from state [st] without error. *)
Definition good_step (au : list auth_info) (dest : BAddr) (st : socks_state) (snt : list bytes) (rcv : bytes)
    (r : option (unit * BSocksClient * list event)) : Prop :=
  ∃ o' es, r = Some (tt, o', es) ∧ inv au dest o' (snt ++ sents es) rcv ∧
    if d_err o' then
      reports es = [BSOCKSCLIENT_EVENT_ERROR] ∨
      reports es = [BSOCKSCLIENT_EVENT_ERROR_CLOSED] ∧ st = STATE_UP
    else st ≠ STATE_UP ∧
      reports es = if bool_decide (state o' = STATE_UP) then [BSOCKSCLIENT_EVENT_UP] else [].

Lemma zlen_realloc old size junk : 0 ≤ size → zlen (realloc old size junk) = size.
Proof.
  intros. unfold realloc. rewrite zlen_ztake, !zlen_app by done.
  pose proof (zlen_nonneg (default [] old)). pose proof (zlen_nonneg junk).
  assert (zlen (replicate (Z.to_nat size) 0) = size) as -> by (unfold zlen; rewrite length_replicate; lia).
  lia.
Qed.

(** Symbolic execution of a handler on an explicit object. *)
Ltac sk_exec :=
  cbv [mbind M_bind mret M_ret get put modify emit ASSERT unreachable
    set_state set_buffer set_connector set_con set_io set_send_op set_recv_op set_recv set_err];
  cbn.

Lemma Sender_Send_run au de st b rd rl rt n :
  0 ≤ n ≤ INT_MAX → n ≤ zlen b →
  Sender_Send n (mkSocks au de st (Some b) true true true true true None None rd rl rt false)
  = Some (tt, mkSocks au de st (Some b) true true true true true (Some n) None rd rl rt false,
      [sent (slice 0 n b)]).
Proof.
  intros Hn Hb. unfold Sender_Send, read_buffer. sk_exec.
  destruct (Z.leb_spec 0 n); [|lia]. destruct (Z.leb_spec n INT_MAX); [|lia]. sk_exec.
  destruct (Z.leb_spec (0 + n) (zlen b)); [|lia]. by sk_exec.
Qed.

Lemma write_buffer_run off d o b :
  buffer o = Some b → 0 ≤ off → off + zlen d ≤ zlen b →
  write_buffer off d o = set_buffer (Some (splice off d b)) o.
Proof.
  intros Hb H1 H2. unfold write_buffer. sk_exec. rewrite Hb.
  destruct (Z.leb_spec 0 off); [|lia]. destruct (Z.leb_spec (off + zlen d) (zlen b)); [|lia].
  by sk_exec.
Qed.

Lemma start_receive_run au de st b so rd rl rt dest total :
  0 < total →
  start_receive dest total (mkSocks au de st b true true true true true so None rd rl rt false)
  = Some (tt, mkSocks au de st b true true true true true so (Some (dest + 0, total - 0)) dest 0 total false, []).
Proof.
  intros H. unfold start_receive, do_receive. sk_exec. rewrite Z.gtb_ltb.
  destruct (Z.ltb_spec 0 total); [|lia]. sk_exec. destruct (Z.ltb_spec 0 total); [|lia]. by sk_exec.
Qed.

Lemma good_fail au dest st snt rcv o' ev :
  d_err o' = true → auths o' = au → dest_addr o' = dest → config_ok au dest → resources o' →
  ev = BSOCKSCLIENT_EVENT_ERROR ∨ ev = BSOCKSCLIENT_EVENT_ERROR_CLOSED ∧ st = STATE_UP →
  good_step au dest st snt rcv (Some (tt, o', [handler ev])).
Proof.
  intros Hd Ha Hde Hc Hr Hev. exists o', [handler ev]. rewrite Hd. split; [done|].
  split; [split; subst; try done; congruence|].
  destruct Hev as [-> | [-> ?]]; [by left|by right].
Qed.

Lemma good_quiet au dest st snt rcv o' es :
  d_err o' = false → auths o' = au → dest_addr o' = dest → config_ok au dest → resources o' →
  reports es = [] → state o' ≠ STATE_UP → st ≠ STATE_UP →
  conversation o' (snt ++ sents es) rcv →
  good_step au dest st snt rcv (Some (tt, o', es)).
Proof.
  intros Hd Ha Hde Hc Hr Hrep Hup Hup' Hconv. exists o', es. rewrite Hd. split; [done|].
  split; [split; subst; done|].
  by rewrite bool_decide_false.
Qed.

(** Every failure branch of a handler. *)
Ltac sk_fail := apply good_fail; cbn; unfold resources; cbn; auto.
Ltac sk_quiet := apply good_quiet; cbn; unfold resources; cbn; auto; try congruence.

Lemma hello_spec au b :
  0 < zlen au ≤ 255 → zlen b = 2 + zlen au →
  slice 0 (2 + zlen au)
    (splice 2 (map (λ ai, u8 (auth_type ai)) au) (splice 0 [u8 SOCKS_VERSION; u8 (zlen au)] b))
  = hello au.
Proof.
  intros Hau Hb. assert (∀ f : auth_info → Z, zlen (map f au) = zlen au) as Hmap
    by (intros; unfold zlen; by rewrite length_map).
  rewrite (slice_split 0 2), slice_splice_before, slice_splice_same, (slice_splice_same 2).
  all: rewrite ?zlen_splice, ?Hmap; try done; rewrite ?zlen_cons; change (zlen (@nil Z)) with 0; try lia.
  unfold hello, u8, SOCKS_VERSION. by rewrite (Z.mod_small (zlen au)) by lia.
Qed.

Lemma connector_good au dest o is_error con_ok alloc :
  inv au dest o [] [] → d_err o = false → state o = STATE_CONNECTING →
  good_step au dest STATE_CONNECTING [] [] (connector_handler is_error con_ok alloc o).
Proof.
  intros [Hcfg Hau Hde Hres Hconv] Herr Hst.
  specialize (Hconv Herr). unfold conversation, resources in *. rewrite Hst in *.
  destruct o as [au' de st bf cn co cr cs ps so ro rd rl rt er]. cbn in *.
  destruct Hres as (-> & -> & -> & -> & ->), Hconv as (_ & _ & -> & -> & ->). subst.
  unfold connector_handler. m_step. m_assert. unfold client_hello. cbn [auths].
  destruct is_error; [sk_exec; sk_fail|]. destruct con_ok; [|sk_exec; sk_fail]. cbn [negb].
  m_assert. m_step. m_step.
  pose proof (zlen_nonneg au).
  rewrite Z.gtb_ltb. destruct (Z.eqb_spec (zlen au) 0); [sk_exec; sk_fail|].
  destruct (Z.ltb_spec 255 (zlen au)); [sk_exec; sk_fail|]. cbn [orb].
  set (size := bsize_add _ _).
  assert (size = bsize_fromsize (2 + zlen au)) as ->.
  { subst size. unfold sizeof_client_hello_header, sizeof_client_hello_method.
    rewrite bsize_mul_small, Z.mul_1_r, bsize_add_small by (unfold SIZE_MAX, UINT64_MAX; lia). done. }
  destruct alloc as [junk|]; [|sk_exec; sk_fail].
  m_step. cbn [negb].
  assert (zlen (map (λ ai, u8 (auth_type ai)) au) = zlen au) as Hmap
    by (unfold zlen; by rewrite length_map).
  pose proof (zlen_realloc None (2 + zlen au) junk ltac:(lia)) as Hb0.
  set (b0 := realloc None (2 + zlen au) junk) in *.
  pose proof (hello_spec au b0 ltac:(lia) Hb0) as Hhello.
  erewrite M_bind_run0; [|apply (write_buffer_run _ _ _ b0); [done|done|zlens; lia]].
  cbn [auths dest_addr state buffer connector con con_recv con_send send_sender send_op recv_op recv_dest recv_len recv_total d_err].
  set (b1 := splice 0 _ b0) in *.
  assert (zlen b1 = 2 + zlen au) as Hb1 by (unfold b1; rewrite zlen_splice; zlens; lia).
  erewrite M_bind_run0; [|apply (write_buffer_run _ _ _ b1);
    [done|done|unfold sizeof_client_hello_header; lia]].
  cbn [auths dest_addr state buffer connector con con_recv con_send send_sender send_op recv_op recv_dest recv_len recv_total d_err].
  unfold sizeof_client_hello_header. set (b2 := splice 2 _ b1) in *.
  assert (zlen b2 = 2 + zlen au) as Hb2 by (unfold b2; rewrite zlen_splice; lia).
  rewrite (M_bind_run _ _ _ _ _ _ (Sender_Send_run au dest STATE_CONNECTING b2 rd rl rt (2 + zlen au) ltac:(unfold INT_MAX; lia) ltac:(lia))).
  sk_exec. sk_quiet. by rewrite Hhello.
Qed.

(** An object whose control interfaces are initialised and idle. *)
Definition control (au : list auth_info) (dest : BAddr) (st : socks_state) (b : option bytes)
    (rd rl rt : Z) : BSocksClient :=
  mkSocks au dest st b true true true true true None None rd rl rt false.

(** Reserving a buffer of a fixed size. *)
Lemma reserve_run au dest st b rd rl rt alloc n :
  0 ≤ n →
  (alloc = None ∧ reserve_buffer alloc (bsize_fromsize n) (control au dest st b rd rl rt)
     = Some (false, control au dest st b rd rl rt, [])) ∨
  ∃ b', zlen b' = n ∧ reserve_buffer alloc (bsize_fromsize n) (control au dest st b rd rl rt)
     = Some (true, control au dest st (Some b') rd rl rt, []).
Proof.
  intros Hn. destruct alloc as [junk|]; [right|by left].
  exists (realloc b n junk). split; [by apply zlen_realloc|done].
Qed.

(** Writing a message of two parts into a buffer of its size. *)
Lemma slice_two_writes n (h d b : bytes) :
  zlen h + zlen d = n → zlen b = n →
  slice 0 n (splice 0 h (splice (zlen h) d b)) = h ++ d.
Proof.
  intros Hn Hb. pose proof (splice_splice_before 0 h d b ltac:(lia) ltac:(lia)) as H.
  rewrite Z.add_0_l in H. rewrite H. apply slice_splice_same; zlens; lia.
Qed.

(** A two-part message in the buffer, the second part written first, is sent. *)
Lemma send_two_parts_run au dest st st' b rd rl rt n h d :
  zlen h + zlen d = n → zlen b = n → n ≤ INT_MAX →
  (write_buffer (zlen h) d;; write_buffer 0 h;; Sender_Send n;; set_state st')
    (control au dest st (Some b) rd rl rt)
  = Some (tt, mkSocks au dest st' (Some (splice 0 h (splice (zlen h) d b)))
      true true true true true (Some n) None rd rl rt false, [sent (h ++ d)]).
Proof.
  intros Hn Hb Hmax. pose proof (zlen_nonneg h). pose proof (zlen_nonneg d).
  erewrite M_bind_run0; [|apply (write_buffer_run _ _ _ b); [done|done|lia]].
  set (b1 := splice (zlen h) d b).
  assert (zlen b1 = n) as Hb1 by (unfold b1; rewrite zlen_splice; lia).
  erewrite M_bind_run0; [|apply (write_buffer_run _ _ _ b1); [done|done|lia]].
  set (b2 := splice 0 h b1).
  assert (zlen b2 = n) as Hb2 by (unfold b2; rewrite zlen_splice; lia).
  rewrite (M_bind_run _ _ _ _ _ _ (Sender_Send_run au dest st b2 rd rl rt n ltac:(lia) ltac:(lia))).
  assert (slice 0 n b2 = h ++ d) as -> by (unfold b2, b1; by apply slice_two_writes). done.
Qed.

Lemma auth_finished_good au dest st st' b rd rl rt alloc pre rcv :
  config_ok au dest → authenticated au pre rcv →
  st = STATE_SENT_HELLO ∨ st = STATE_SENT_PASSWORD → st' ≠ STATE_UP →
  good_step au dest st' pre rcv (auth_finished alloc (control au dest st b rd rl rt)).
Proof.
  intros Hcfg Hauth Hst Hup. pose proof Hcfg as (_ & Hok & Hne).
  unfold auth_finished. m_step. cbn [dest_addr control].
  assert (∀ atyp ab n, request dest = [SOCKS_VERSION; SOCKS_CMD_CONNECT; 0; atyp] ++ ab →
    4 + zlen ab = n → n ≤ INT_MAX → u8 atyp = atyp →
    good_step au dest st' pre rcv
      ((ok ← reserve_buffer alloc (bsize_fromsize n);
        if negb ok then report_error BSOCKSCLIENT_EVENT_ERROR
        else
          atyp ← (write_buffer sizeof_request_header ab;; mret atyp);
          write_buffer 0 [u8 SOCKS_VERSION; u8 SOCKS_CMD_CONNECT; u8 0; u8 atyp];;
          Sender_Send (bvalue (bsize_fromsize n));; set_state STATE_SENDING_REQUEST)
       (control au dest st b rd rl rt))) as Hgo.
  { intros atyp ab n Hreq Hn Hmax Hatyp. pose proof (zlen_nonneg ab).
    destruct (reserve_run au dest st b rd rl rt alloc n) as [[_ E]|(b' & Hb' & E)]; [lia| |];
      rewrite (M_bind_run0 _ _ _ _ _ E); cbn [negb].
    - sk_exec. unfold control. destruct Hst; subst; sk_fail.
    - rewrite !M_bind_assoc. 
      pose proof (send_two_parts_run au dest st STATE_SENDING_REQUEST b' rd rl rt n
        [SOCKS_VERSION; SOCKS_CMD_CONNECT; 0; atyp] ab Hn Hb' Hmax) as Erun.
      change (bvalue (bsize_fromsize n)) with n. unfold sizeof_request_header.
      change (zlen [SOCKS_VERSION; SOCKS_CMD_CONNECT; 0; atyp]) with 4 in Erun.
      erewrite M_bind_ext; [rewrite Erun|].
      + rewrite <-Hreq. sk_quiet. by exists pre.
      + intros ? ?. m_step. rewrite Hatyp. done. }
  destruct dest as [|ip p|ip p]; [done| |];
    unfold sizeof_request_header at 1, sizeof_addr_ipv4, sizeof_addr_ipv6;
    rewrite bsize_add_small by (unfold SIZE_MAX, UINT64_MAX; lia).
  - by apply (Hgo SOCKS_ATYP_IPV4 (le_bytes 4 ip ++ le_bytes 2 p)).
  - apply (Hgo SOCKS_ATYP_IPV6 (ip ++ le_bytes 2 p)); [done| |done|done].
    destruct Hok as [[Hip _] _]. by rewrite zlen_app, Hip, zlen_le_bytes.
Qed.

Lemma find_auth_Some au m ai : find_auth au m = Some ai → auth_type ai = m ∧ ai ∈ au.
Proof.
  induction au as [|a au IH]; [done|]. cbn. destruct (Z.eqb_spec (auth_type a) m).
  - intros [= <-]. split; [done|by left].
  - intros H. destruct (IH H). split; [done|by right].
Qed.

Lemma send_password_good au dest b rd rl rt alloc ai :
  config_ok au dest → good_password ai → find_auth au SOCKS_METHOD_USERNAME_PASSWORD = Some ai →
  good_step au dest STATE_SENT_HELLO [hello au] [SOCKS_VERSION; SOCKS_METHOD_USERNAME_PASSWORD]
    ((ok ← reserve_buffer alloc (bsize_fromsize (1 + 1 + zlen (username ai) + 1 + zlen (password ai)));
      if negb ok then fail
      else
        write_buffer 0 (password_packet ai);;
        Sender_Send (1 + 1 + zlen (username ai) + 1 + zlen (password ai));;
        set_state STATE_SENDING_PASSWORD) (control au dest STATE_SENT_HELLO b rd rl rt)).
Proof.
  intros Hcfg [Hu Hp] Hf. set (n := 1 + 1 + zlen (username ai) + 1 + zlen (password ai)).
  assert (zlen (password_packet ai) = n) as Hn by (unfold password_packet, n; zlens; lia).
  destruct (reserve_run au dest STATE_SENT_HELLO b rd rl rt alloc n) as [[_ E]|(b' & Hb' & E)]; [lia| |];
    rewrite (M_bind_run0 _ _ _ _ _ E); cbn [negb].
  - sk_exec. sk_fail.
  - erewrite M_bind_run0; [|apply (write_buffer_run _ _ _ b'); [done|done|lia]].
    set (b1 := splice 0 _ b'). assert (zlen b1 = n) as Hb1 by (unfold b1; rewrite zlen_splice; lia).
    rewrite (M_bind_run _ _ _ _ _ _
      (Sender_Send_run au dest STATE_SENT_HELLO b1 rd rl rt n ltac:(unfold INT_MAX; lia) ltac:(lia))).
    assert (slice 0 n b1 = password_packet ai) as -> by (unfold b1; apply slice_splice_same; lia).
    sk_quiet. by exists ai.
Qed.

(** The reply to the hello is in the buffer. *)
Lemma received_hello_good au dest b rd rl rt alloc r0 r1 :
  config_ok au dest → slice 0 2 b = [r0; r1] → 2 ≤ zlen b →
  good_step au dest STATE_SENT_HELLO [hello au] [r0; r1]
    (received_hello alloc (control au dest STATE_SENT_HELLO (Some b) rd rl rt)).
Proof.
  intros Hcfg Hr Hb. unfold received_hello, sizeof_server_hello. m_step.
  erewrite (M_bind_run0 _ _ _ [r0; r1]); [|].
  2: { unfold read_buffer. m_step. cbn [control buffer]. destruct (Z.leb_spec (0 + 2) (zlen b)); [|lia].
    m_assert. by rewrite Hr. }
  cbn [control auths]. change (byte_at [r0; r1] 0) with r0. change (byte_at [r0; r1] 1) with r1.
  destruct (Z.eqb_spec r0 SOCKS_VERSION) as [->|]; cbn [negb]; [|unfold fail; sk_exec; sk_fail].
  destruct (find_auth au r1) as [ai|] eqn:Hf; [|unfold fail; sk_exec; sk_fail].
  destruct (find_auth_Some _ _ _ Hf) as [Hty Hin]. pose proof Hcfg as [HF Hd].
  pose proof (proj1 (list.Forall_forall _ _) HF ai Hin) as Hcase. cbn in Hcase.
  destruct (Z.eqb_spec (auth_type ai) SOCKS_METHOD_NO_AUTHENTICATION_REQUIRED) as [E0|E0].
  - apply auth_finished_good; [done| |by left|done]. subst r1. rewrite E0 in *. by apply (auth_no _ ai).
  - destruct (Z.eqb_spec (auth_type ai) SOCKS_METHOD_USERNAME_PASSWORD) as [E2|E2]; [|naive_solver].
    subst r1. rewrite E2 in *. rewrite !Z.gtb_ltb.
    pose proof (zlen_nonneg (username ai)). pose proof (zlen_nonneg (password ai)).
    destruct (Z.eqb_spec (zlen (username ai)) 0); [unfold fail; sk_exec; sk_fail|].
    destruct (Z.ltb_spec 255 (zlen (username ai))); [unfold fail; sk_exec; sk_fail|].
    destruct (Z.eqb_spec (zlen (password ai)) 0); [unfold fail; sk_exec; sk_fail|].
    destruct (Z.ltb_spec 255 (zlen (password ai))); [unfold fail; sk_exec; sk_fail|].
    apply send_password_good; [done|split; lia|done].
Qed.

Lemma received_password_reply_good au dest b rd rl rt alloc ai r0 r1 :
  config_ok au dest → slice 0 2 b = [r0; r1] → 2 ≤ zlen b →
  find_auth au SOCKS_METHOD_USERNAME_PASSWORD = Some ai → good_password ai →
  good_step au dest STATE_SENT_PASSWORD [hello au; password_packet ai]
    ([SOCKS_VERSION; SOCKS_METHOD_USERNAME_PASSWORD] ++ [r0; r1])
    (received_password_reply alloc (control au dest STATE_SENT_PASSWORD (Some b) rd rl rt)).
Proof.
  intros Hcfg Hr Hb Hf Hp. unfold received_password_reply.
  erewrite (M_bind_run0 _ _ _ [r0; r1]); [|].
  2: { unfold read_buffer. m_step. cbn [control buffer]. destruct (Z.leb_spec (0 + 2) (zlen b)); [|lia].
    m_assert. by rewrite Hr. }
  change (byte_at [r0; r1] 0) with r0. change (byte_at [r0; r1] 1) with r1.
  destruct (Z.eqb_spec r0 1) as [->|]; cbn [negb]; [|unfold fail; sk_exec; sk_fail].
  destruct (Z.eqb_spec r1 0) as [->|]; cbn [negb]; [|unfold fail; sk_exec; sk_fail].
  apply auth_finished_good; [done| |by right|done]. by apply (auth_pw _ ai).
Qed.

Lemma received_reply_header_good au dest b rd rl rt pre r r0 r1 r2 r3 :
  config_ok au dest → authenticated au pre r →
  slice 0 4 b = [r0; r1; r2; r3] → 22 ≤ zlen b →
  good_step au dest STATE_SENT_REQUEST (pre ++ [request dest]) (r ++ [r0; r1; r2; r3])
    (received_reply_header (control au dest STATE_SENT_REQUEST (Some b) rd rl rt)).
Proof.
  intros Hcfg Hauth Hr Hb. unfold received_reply_header, sizeof_reply_header.
  erewrite (M_bind_run0 _ _ _ [r0; r1; r2; r3]); [|].
  2: { unfold read_buffer. m_step. cbn [control buffer]. destruct (Z.leb_spec (0 + 4) (zlen b)); [|lia].
    m_assert. by rewrite Hr. }
  change (byte_at [r0; r1; r2; r3] 0) with r0. change (byte_at [r0; r1; r2; r3] 1) with r1.
  change (byte_at [r0; r1; r2; r3] 3) with r3.
  destruct (Z.eqb_spec r0 SOCKS_VERSION) as [->|]; cbn [negb]; [|unfold fail; sk_exec; sk_fail].
  destruct (Z.eqb_spec r1 SOCKS_REP_SUCCEEDED) as [->|]; cbn [negb]; [|unfold fail; sk_exec; sk_fail].
  fold (reply_addr_len r3).
  destruct (reply_addr_len r3) as [n|] eqn:Hn; [|unfold fail; sk_exec; sk_fail].
  assert (0 < n ≤ 18) as Hn18.
  { unfold reply_addr_len, sizeof_addr_ipv4, sizeof_addr_ipv6 in Hn. repeat case_match; simplify_eq; lia. }
  unfold control. rewrite (M_bind_run0 _ _ _ _ _ (start_receive_run _ _ _ _ _ _ _ _ 4 n ltac:(lia))).
  sk_exec. sk_quiet. exists pre, r, r2, r3, n, []. rewrite !app_nil_r.
  split_and!; [done..|]. exists b. cbn. change (zlen (@nil Z)) with 0. split_and!; (done || lia).
Qed.

Lemma received_reply_rest_good au dest b rd rl rt pre r rsv atyp rest :
  config_ok au dest → authenticated au pre r → reply_addr_len atyp = Some (zlen rest) →
  good_step au dest STATE_RECEIVED_REPLY_HEADER (pre ++ [request dest])
    (r ++ [SOCKS_VERSION; SOCKS_REP_SUCCEEDED; rsv; atyp] ++ rest)
    (received_reply_rest (control au dest STATE_RECEIVED_REPLY_HEADER (Some b) rd rl rt)).
Proof.
  intros Hcfg Hauth Hn. unfold received_reply_rest, free_control_io, init_up_io. sk_exec.
  eexists _, _. split; [reflexivity|]. cbn. split; [|done].
  split; cbn; auto; [unfold resources; cbn; auto|]. intros _. unfold conversation. cbn.
  split_and!; [|done..]. exists pre, r, rsv, atyp, rest. by rewrite app_nil_r.
Qed.

(** Bytes delivered to a receiving object. *)
Definition after_recv (alloc : option bytes) (st : socks_state) : Sk unit :=
  match st with
  | STATE_SENT_HELLO => received_hello alloc
  | STATE_SENT_REQUEST => received_reply_header
  | STATE_SENT_PASSWORD => received_password_reply alloc
  | STATE_RECEIVED_REPLY_HEADER => received_reply_rest
  | _ => unreachable
  end.
Lemma deliver_run au dest st b so rd rl rt op got total d alloc :
  receiving rd total got (mkSocks au dest st (Some b) true true true true true so op rd rl rt false) →
  0 < zlen d → zlen d ≤ total - zlen got → st ≠ STATE_UP →
  ∃ b', zlen b' = zlen b ∧ slice rd (zlen (got ++ d)) b' = got ++ d ∧
    step (RecvDone d alloc) (mkSocks au dest st (Some b) true true true true true so op rd rl rt false)
    = if zlen (got ++ d) <? total then
        Some (tt, mkSocks au dest st (Some b') true true true true true None
          (Some (rd + zlen (got ++ d), total - zlen (got ++ d))) rd (zlen (got ++ d)) total false, [])
      else after_recv alloc st (control au dest st (Some b') rd (zlen (got ++ d)) total).
Proof.
  intros (b0 & E1 & E2 & E3 & E4 & E5 & E6 & Hgot & Hrd & Hfit & Hsl) Hd Hle Hst. cbn in *. simplify_eq.
  pose proof (zlen_nonneg got).
  exists (splice (rd + zlen got) d b0). split; [rewrite zlen_splice; lia|]. split.
  { rewrite zlen_app, slice_split, slice_splice_before, slice_splice_same by lia. by rewrite Hsl. }
  unfold step. m_step. m_assert. cbn [state]. rewrite bool_decide_false by done. m_assert. cbn [recv_op].
  destruct (Z.ltb_spec 0 (zlen d)); [|lia]. destruct (Z.leb_spec (zlen d) (total - zlen got)); [|lia].
  m_assert. m_step.
  erewrite M_bind_run0; [|apply (write_buffer_run _ _ _ b0); [done|lia|lia]].
  unfold recv_handler_done. m_step. cbn [recv_total recv_len].
  rewrite Z.geb_leb. destruct (Z.leb_spec 0 (zlen d)); [|lia]. m_assert.
  destruct (Z.leb_spec (zlen d) (total - zlen got)); [|lia]. m_assert. m_step. rewrite <-zlen_app.
  unfold control. cbn [recv_dest].
  destruct (Z.ltb_spec (zlen (got ++ d)) total) as [Hlt|Hge]; [|by destruct st].
  unfold do_receive. m_step. cbn [recv_len recv_total recv_dest].
  destruct (Z.ltb_spec (zlen (got ++ d)) total); [|lia]. m_assert. m_assert. done.
Qed.

(** What the neighbours may do to an object in a state without error. *)
Definition legal (o : BSocksClient) (i : input) : Prop :=
  d_err o = false ∧
  match i with
  | Connector _ _ _ => state o = STATE_CONNECTING
  | Connection _ => con o = true
  | SendDone _ => send_sender o = true ∧ send_op o ≠ None
  | RecvDone d _ => state o ≠ STATE_UP ∧ ∃ p len, recv_op o = Some (p, len) ∧ 0 < zlen d ≤ len
  end.

Lemma Socks_step_legal i o u o' es : step i o = Some (u, o', es) → legal o i.
Proof.
  unfold step. intros H. run_inv. zbool. unfold legal. split; [done|].
  destruct i as [? ? ?|?|?|d ?]; run_inv; zbool.
  - by apply bool_decide_eq_true in Heqb0.
  - done.
  - split; [done|]. by destruct (send_op s).
  - split; [by apply bool_decide_eq_false in Heqb0|].
    destruct (recv_op s) as [[p len]|]; [|done]. run_inv. zbool. eauto.
Qed.

Lemma connection_good au dest o snt rcv ev :
  inv au dest o snt rcv → d_err o = false → state o ≠ STATE_CONNECTING →
  good_step au dest (state o) snt rcv (connection_handler ev o).
Proof.
  intros [Hcfg Hau Hde Hres Hconv] Herr Hst. unfold connection_handler. m_step.
  rewrite (bool_decide_false (state o = STATE_CONNECTING)) by done. m_assert.
  assert (∀ e, e = BSOCKSCLIENT_EVENT_ERROR ∨ e = BSOCKSCLIENT_EVENT_ERROR_CLOSED ∧ state o = STATE_UP →
    good_step au dest (state o) snt rcv (report_error e o)) as Hrep.
  { intros e He. unfold report_error. m_step. rewrite Herr. m_assert. m_step.
    apply good_fail; subst; auto. }
  case_match eqn:E; apply Hrep; [right|by left]. zbool.
  split; [done|]. by apply bool_decide_eq_true in H.
Qed.

Lemma send_done_good au dest o snt rcv alloc :
  inv au dest o snt rcv → d_err o = false → send_sender o = true → send_op o ≠ None →
  good_step au dest (state o) snt rcv (step (SendDone alloc) o).
Proof.
  intros [Hcfg Hau Hde Hres Hconv] Herr Hs Hop. specialize (Hconv Herr).
  unfold conversation, resources, sending, receiving in *.
  destruct o as [au' de st bf cn co cr cs ps so ro rd rl rt er]. cbn in *. subst.
  destruct so as [len|]; [|done].
  assert (∀ n total st', 0 < total ≤ n → 
    (∀ b', zlen b' = n → conversation (mkSocks au dest st' (Some b') true true true true true None
        (Some (0, total)) 0 0 total false) snt rcv) →
    st' ≠ STATE_UP → st' ≠ STATE_CONNECTING → st ≠ STATE_UP → st ≠ STATE_CONNECTING →
    good_step au dest st snt rcv
      ((ok ← reserve_buffer alloc (bsize_fromsize n);
        if negb ok then fail else start_receive 0 total;; set_state st')
       (control au dest st bf rd rl rt))) as Hgo.
  { intros n total st' Hn Hc Hup Hcn Hup0 Hcn0.
    destruct (reserve_run au dest st bf rd rl rt alloc n) as [[_ E]|(b' & Hb' & E)]; [lia| |];
      rewrite (M_bind_run0 _ _ _ _ _ E); cbn [negb].
    - unfold fail. sk_exec. apply good_fail; auto. unfold resources. by destruct st.
    - unfold control. rewrite (M_bind_run0 _ _ _ _ _ (start_receive_run _ _ _ _ _ _ _ _ 0 total ltac:(lia))).
      rewrite Z.sub_0_r. sk_exec. apply good_quiet; auto.
      + unfold resources. cbn. by destruct st'.
      + rewrite app_nil_r. by apply Hc. }
  unfold step. m_step. m_assert. m_assert. m_step. unfold send_handler_done. m_step. cbn [state buffer].
  destruct Hres as [-> Hres].
  destruct st; cbn [state] in *; destruct_and?; subst; try discriminate;
    repeat match goal with H : ∃ _, _ |- _ => destruct H; destruct_and? end; simplify_eq.
  all: m_assert; unfold sizeof_server_hello, sizeof_reply_header.
  - apply (Hgo 2 2); [lia| |done..]. intros b' Hb'. split; [done|].
    exists b'. cbn. change (zlen (@nil Z)) with 0. split_and!; (done || lia).
  - apply (Hgo 2 2); [lia| |done..]. intros b' Hb'. eexists _, []. split_and!; [done..|].
    exists b'. cbn. change (zlen (@nil Z)) with 0. split_and!; (done || lia).
  - apply (Hgo 22 4); [lia| |done..]. intros b' Hb'. eexists _, rcv, []. rewrite app_nil_r.
    split_and!; [done..| |]; exists b'; [split; [done|lia]|].
    cbn. change (zlen (@nil Z)) with 0. split_and!; (done || lia).
Qed.

(** A list of known length is the list of its elements. *)
Lemma zlen_2 (l : bytes) : zlen l = 2 → ∃ a b, l = [a; b].
Proof. unfold zlen. destruct l as [|a [|b [|]]]; cbn; try lia. eauto. Qed.
Lemma zlen_4 (l : bytes) : zlen l = 4 → ∃ a b c d, l = [a; b; c; d].
Proof. unfold zlen. destruct l as [|a [|b [|c [|d [|]]]]]; cbn; try lia. eauto 6. Qed.

(** Fewer bytes than asked for: the object keeps receiving. *)
Lemma still_receiving au dest st b' rd total got so :
  zlen got < total → 0 ≤ rd → rd + total ≤ zlen b' → slice rd (zlen got) b' = got → so = None →
  receiving rd total got (mkSocks au dest st (Some b') true true true true true so
    (Some (rd + zlen got, total - zlen got)) rd (zlen got) total false).
Proof. intros. subst. exists b'. cbn. by split_and!. Qed.

Lemma recv_done_good au dest o snt rcv d alloc :
  inv au dest o snt rcv → legal o (RecvDone d alloc) →
  good_step au dest (state o) snt (rcv ++ d) (step (RecvDone d alloc) o).
Proof.
  intros [Hcfg Hau Hde Hres Hconv] (Herr & Hup & p & len & Hop & Hd & Hle).
  specialize (Hconv Herr). unfold conversation, resources in *.
  destruct o as [au' de st bf cn co cr cs ps so ro rd rl rt er]. cbn in *. subst.
  destruct Hres as [-> Hres].
  assert (∀ total got, receiving rd total got (mkSocks au dest st bf true true true true true so (Some (p, len)) rd rl rt false) →
    st ≠ STATE_CONNECTING → 
    (∀ b' , (∃ b, bf = Some b ∧ zlen b' = zlen b) → slice rd (zlen (got ++ d)) b' = got ++ d → 
        rd + total ≤ zlen b' →
      (zlen (got ++ d) < total → conversation (mkSocks au dest st (Some b') true true true true true None
         (Some (rd + zlen (got ++ d), total - zlen (got ++ d))) rd (zlen (got ++ d)) total false) snt (rcv ++ d)) ∧
      (zlen (got ++ d) = total → good_step au dest st snt (rcv ++ d)
         (after_recv alloc st (control au dest st (Some b') rd (zlen (got ++ d)) total)))) →
    good_step au dest st snt (rcv ++ d)
      (step (RecvDone d alloc) (mkSocks au dest st bf true true true true true so (Some (p, len)) rd rl rt false))) as Hgo.
  { intros total got Hr Hcn Hk. pose proof Hr as (b & Eb & _ & _ & _ & _ & E6 & Hg & H0 & Hfit & _).
    cbn in Eb, E6. subst bf. simplify_eq.
    destruct (deliver_run _ _ _ _ _ _ _ _ _ _ _ d alloc Hr Hd Hle Hup) as (b' & Hb' & Hsl & ->).
    destruct (Hk b') as [K1 K2]; [eauto|done|lia|].
    destruct (Z.ltb_spec (zlen (got ++ d)) total) as [Hlt|Hge].
    - apply good_quiet; auto; [unfold resources; by destruct st|]. rewrite app_nil_r. auto.
    - apply K2. rewrite zlen_app in *. lia. }
  assert (∀ rd' total got o, receiving rd' total got o → recv_dest o = rd') as Hrd
    by (intros ???? (? & _ & _ & E & _); exact E).
  destruct st; cbn [state] in *; try done;
    repeat match goal with H : ∃ _, _ |- _ => destruct H | H : _ ∧ _ |- _ => destruct H end;
    subst; try discriminate;
    try match goal with H : sending _ |- _ => destruct H as (_ & _ & [=]) end.
  all: match goal with H : receiving ?rd' _ _ _ |- _ =>
    pose proof (Hrd _ _ _ _ H) as Erd; cbn in Erd; subst rd end.
  - apply (Hgo 2 rcv); [done..|]. intros b' (b & -> & Hb) Hsl Hfit. split; intros Hl.
    + split; [done|]. by apply still_receiving.
    + destruct (zlen_2 _ Hl) as (r0 & r1 & E). rewrite E in *. cbn [after_recv].
      apply received_hello_good; [done|done|lia].
  - match goal with H : receiving 0 2 ?g _ |- _ => rename g into got end.
    change ((SOCKS_VERSION :: SOCKS_METHOD_USERNAME_PASSWORD :: got) ++ d)
      with ([SOCKS_VERSION; SOCKS_METHOD_USERNAME_PASSWORD] ++ (got ++ d)) in *.
    apply (Hgo 2 got); [done..|]. intros b' (b & -> & Hb) Hsl Hfit. split; intros Hl.
    + eexists _, (got ++ d). split_and!; [done..|]. by apply still_receiving.
    + destruct (zlen_2 _ Hl) as (r0 & r1 & E). rewrite E in *. cbn [after_recv].
      apply received_password_reply_good; [done|done|lia|done..].
  - match goal with H : receiving 0 4 ?g _ |- _ => rename g into got end.
    rewrite <-app_assoc in *. apply (Hgo 4 got); [done..|]. intros b' (b & [= <-] & Hb) Hsl Hfit. split; intros Hl.
    + eexists _, _, (got ++ d). split_and!; [done..| |by apply still_receiving]. exists b'. split; [done|lia].
    + destruct (zlen_4 _ Hl) as (r0 & r1 & r2 & r3 & E). rewrite E in *. cbn [after_recv].
      apply received_reply_header_good; [done|done|done|lia].
  - match goal with H : receiving 4 ?t ?g _ |- _ => rename g into got; rename t into total end.
    rewrite <-!app_assoc in *. apply (Hgo total got); [done..|]. intros b' (b & -> & Hb) Hsl Hfit. split; intros Hl.
    + eexists _, _, _, _, total, (got ++ d). split_and!; [done..|]. by apply still_receiving.
    + cbn [after_recv]. apply received_reply_rest_good; [done|done|transitivity (Some total); [done|exact (f_equal Some (eq_sym Hl))]].
Qed.

Lemma step_good au dest o snt rcv i :
  inv au dest o snt rcv → legal o i →
  good_step au dest (state o) snt (rcv ++ received i) (step i o).
Proof.
  intros Hi Hl. destruct i as [is_error con_ok alloc|ev|alloc|d alloc]; cbn [received]; rewrite ?app_nil_r.
  - destruct Hl as [Herr Hst]. rewrite Hst. unfold step. m_step. rewrite Herr. m_assert.
    rewrite Hst, bool_decide_true by done. m_assert.
    pose proof (inv_conv _ _ _ _ _ Hi Herr) as Hc. unfold conversation in Hc. rewrite Hst in Hc.
    destruct Hc as (-> & -> & _). by apply connector_good.
  - destruct Hl as [Herr Hcon]. unfold step. m_step. rewrite Herr. m_assert. rewrite Hcon. m_assert.
    apply connection_good; [done|done|]. intros E. destruct (inv_res _ _ _ _ _ Hi) as [_ Hr].
    rewrite E in Hr. destruct Hr. congruence.
  - destruct Hl as (Herr & Hs & Hop). by apply send_done_good.
  - by apply recv_done_good.
Qed.

(** What the owner has been told. *)
Definition told (o : BSocksClient) (reps : list Z) : Prop :=
  if d_err o then
    reps = [BSOCKSCLIENT_EVENT_ERROR] ∨
    reps = [BSOCKSCLIENT_EVENT_UP; BSOCKSCLIENT_EVENT_ERROR] ∨
    reps = [BSOCKSCLIENT_EVENT_UP; BSOCKSCLIENT_EVENT_ERROR_CLOSED]
  else if bool_decide (state o = STATE_UP) then reps = [BSOCKSCLIENT_EVENT_UP]
  else reps = [].

Lemma sents_app e1 e2 : sents (e1 ++ e2) = sents e1 ++ sents e2.
Proof. apply omap_app. Qed.
Lemma reports_app e1 e2 : reports (e1 ++ e2) = reports e1 ++ reports e2.
Proof. apply omap_app. Qed.

Lemma runs_good au dest ins : ∀ o snt rcv reps u o' es,
  inv au dest o snt rcv → told o reps → runs step ins o = Some (u, o', es) →
  inv au dest o' (snt ++ sents es) (rcv ++ concat (map received ins)) ∧
  told o' (reps ++ reports es).
Proof.
  induction ins as [|i ins IH]; intros o snt rcv reps u o' es Hi Ht; cbn [runs].
  - intros [= <- <- <-]. cbn. by rewrite !app_nil_r.
  - intros H. run_inv. pose proof (Socks_step_legal _ _ _ _ _ H0) as Hl.
    destruct (step_good _ _ _ _ _ _ Hi Hl) as (o1 & es1 & E & Hi1 & Hrep).
    rewrite H0 in E. simplify_eq.
    assert (told o1 (reps ++ reports es1)) as Ht1.
    { destruct Hl as [Herr _]. unfold told in Ht |- *. rewrite Herr in Ht. destruct (d_err o1).
      - case_bool_decide; subst reps; destruct Hrep as [->|[-> ?]]; auto; done.
      - destruct Hrep as [Hst ->]. rewrite bool_decide_false in Ht by done. subst reps.
        by case_bool_decide. }
    destruct (IH _ _ _ _ _ _ _ Hi1 Ht1 H1) as [Hi2 Ht2].
    cbn [map concat]. rewrite sents_app, reports_app, !app_assoc in *. done.
Qed.

Lemma Socks_Init_inv server au dest o :
  BAddr_ok dest → BSocksClient_Init server au dest true = Some (Some o) →
  inv au dest o [] [] ∧ told o [].
Proof.
  intros Hd. unfold BSocksClient_Init. repeat case_match; try done. intros [= <-]. zbool.
  split; [|done]. split; cbn; auto; [|unfold resources; cbn; auto].
  split; [|split; [done|intros ->; by destruct_or?]]. apply list.Forall_forall. intros ai Hin.
  apply list_elem_of_In in Hin.
  match goal with H : forallb _ _ = true |- _ => rewrite forallb_forall in H; specialize (H ai Hin);
      cbn in H; apply orb_true_iff in H as [H|H];
      apply Z.eqb_eq in H end; [by left|by right].
Qed.

Lemma Free_run au dest o snt rcv :
  inv au dest o snt rcv →
  ∃ o', BSocksClient_Free o = Some (tt, o', []) ∧ connector o' = false ∧ con o' = false ∧
    con_recv o' = false ∧ con_send o' = false ∧ send_sender o' = false ∧ buffer o' = None.
Proof.
  intros [_ _ _ [Hc Hres] _]. destruct o as [au' de st bf cn co cr cs ps so ro rd rl rt er].
  cbn in Hc, Hres. subst cn. unfold BSocksClient_Free, free_up_io, free_control_io.
  destruct st; cbn [state] in Hres; destruct_and!; subst; destruct bf; sk_exec;
    eexists; (split; [reflexivity|]); cbn; auto 10.
Qed.

(** ** Properties *)

(** C4: a connection is reported up only after a complete SOCKS5 handshake.  For
    a client made by [BSocksClient_Init], whatever the server sends and in whatever
    pieces, when the client is up without error it has sent exactly its hello (all
    its methods), its credentials if and only if the server chose the password
    method, and the connect request for its destination; it has received exactly a choice of
    one of its methods, a positive answer to the credentials, and one successful
    reply with an address of the announced size, and not a byte more, so that the
    stream handed to the owner starts with the first byte after the reply. *)
Theorem BSocksClient_handshake server au dest ins o0 u o es :
  BAddr_ok dest → BSocksClient_Init server au dest true = Some (Some o0) →
  runs step ins o0 = Some (u, o, es) → state o = STATE_UP → d_err o = false →
  handshake au dest (sents es) (concat (map received ins)) ∧
  reports es = [BSOCKSCLIENT_EVENT_UP].
Proof.
  intros Hd Hinit Hrun Hst Herr. destruct (Socks_Init_inv _ _ _ _ Hd Hinit) as [Hi Ht].
  destruct (runs_good _ _ _ _ _ _ _ _ _ _ Hi Ht Hrun) as [Hi' Ht'].
  pose proof (inv_conv _ _ _ _ _ Hi' Herr) as Hc. unfold conversation in Hc. rewrite Hst in Hc.
  unfold told in Ht'. rewrite Herr, Hst in Ht'. destruct Hc as [Hc _].
  by rewrite (inv_auths _ _ _ _ _ Hi'), (inv_dest _ _ _ _ _ Hi') in Hc.
Qed.

Definition witness_inputs : list input :=
  [Connector false true (Some []); SendDone (Some []); RecvDone [5] None; RecvDone [2] (Some [7]);
   SendDone (Some []); RecvDone [1; 0] (Some []); SendDone (Some [9; 9]);
   RecvDone [5; 0; 0] None; RecvDone [1] None; RecvDone [0; 0; 0; 0; 0] None; RecvDone [0] None].

Lemma BSocksClient_handshake_witness :
  ∃ o0 o es,
    BSocksClient_Init (BAddr_v4 16777343 14340)
      [BSocksClient_auth_none; BSocksClient_auth_password [117] [112; 119]]
      (BAddr_v4 134744072 20480) true = Some (Some o0) ∧
    runs step witness_inputs o0 = Some (tt, o, es) ∧
    handshake [BSocksClient_auth_none; BSocksClient_auth_password [117] [112; 119]]
      (BAddr_v4 134744072 20480) (sents es) (concat (map received witness_inputs)) ∧
    reports es = [BSOCKSCLIENT_EVENT_UP].
Proof.
  eexists _, _, _. split; [vm_compute; reflexivity|]. split; [vm_compute; reflexivity|].
  eapply (BSocksClient_handshake (BAddr_v4 16777343 14340) _ _ witness_inputs);
    [done|vm_compute; reflexivity|vm_compute; reflexivity|vm_compute; reflexivity|vm_compute; reflexivity].
Defined.

(** C5: the client is safe against the server.  In every state a run can reach,
    none of the assertions of the code can fail and no access to the buffer is out
    of bounds, whatever the allocator, the connection and the server do next; the
    client is never stuck (once connected and until it is up or failed it is
    sending or has asked for at least one byte); and the owner is told at most
    once that it is up, then at most once about an error, and nothing after. *)
Theorem BSocksClient_safe server au dest ins o0 u o es :
  BAddr_ok dest → BSocksClient_Init server au dest true = Some (Some o0) →
  runs step ins o0 = Some (u, o, es) →
  (∀ i, legal o i → is_Some (step i o)) ∧
  (d_err o = false → state o ≠ STATE_CONNECTING → state o ≠ STATE_UP →
     (send_op o ≠ None ∧ recv_op o = None) ∨
     (send_op o = None ∧ ∃ p n, recv_op o = Some (p, n) ∧ 0 < n)) ∧
  told o (reports es).
Proof.
  intros Hd Hinit Hrun. destruct (Socks_Init_inv _ _ _ _ Hd Hinit) as [Hi Ht].
  destruct (runs_good _ _ _ _ _ _ _ _ _ _ Hi Ht Hrun) as [Hi' Ht']. split_and!; [| |done].
  - intros i Hl. destruct (step_good _ _ _ _ _ _ Hi' Hl) as (? & ? & -> & _). done.
  - intros Herr Hc Hup. pose proof (inv_conv _ _ _ _ _ Hi' Herr) as Hconv. revert Hconv.
    assert (∀ p t g, receiving p t g o →
      send_op o = None ∧ ∃ p n, recv_op o = Some (p, n) ∧ 0 < n) as Hr.
    { intros p t g (b & _ & ? & _ & _ & _ & ? & ? & _). split; [done|]. do 2 eexists. split; [done|lia]. }
    assert (sending o → send_op o ≠ None ∧ recv_op o = None) as Hs.
    { intros (_ & ? & ?). split; [|done]. by destruct (send_op o). }
    unfold conversation. destruct (state o); try done; intros Hconv;
      repeat match goal with H : ∃ _, _ |- _ => destruct H | H : _ ∧ _ |- _ => destruct H end; eauto.
Qed.

Lemma BSocksClient_safe_witness :
  ∃ o0 o es,
    BSocksClient_Init (BAddr_v4 16777343 14340) [BSocksClient_auth_none]
      (BAddr_v4 134744072 20480) true = Some (Some o0) ∧
    runs step [Connector false true (Some []); SendDone (Some []); RecvDone [5; 0] None] o0
      = Some (tt, o, es) ∧
    told o (reports es).
Proof.
  eexists _, _, _. split; [vm_compute; reflexivity|]. split; [vm_compute; reflexivity|].
  eapply (BSocksClient_safe (BAddr_v4 16777343 14340) [BSocksClient_auth_none] (BAddr_v4 134744072 20480)
    [Connector false true (Some []); SendDone (Some []); RecvDone [5; 0] None]);
    [done|vm_compute; reflexivity|vm_compute; reflexivity].
Defined.

(** Freeing the client releases everything it holds, from every state a run can
    reach, errors included: no interface is freed twice or before it was
    initialised, and the connector, the connection, its interfaces and the buffer
    are all released. *)
Theorem BSocksClient_Free_releases server au dest ins o0 u o es :
  BAddr_ok dest → BSocksClient_Init server au dest true = Some (Some o0) →
  runs step ins o0 = Some (u, o, es) →
  ∃ o', BSocksClient_Free o = Some (tt, o', []) ∧ connector o' = false ∧ con o' = false ∧
    con_recv o' = false ∧ con_send o' = false ∧ send_sender o' = false ∧ buffer o' = None.
Proof.
  intros Hd Hinit Hrun. destruct (Socks_Init_inv _ _ _ _ Hd Hinit) as [Hi Ht].
  destruct (runs_good _ _ _ _ _ _ _ _ _ _ Hi Ht Hrun) as [Hi' _]. exact (Free_run _ _ _ _ _ Hi').
Qed.

Lemma BSocksClient_Free_releases_witness :
  ∃ o0 o es o',
    BSocksClient_Init (BAddr_v4 16777343 14340) [BSocksClient_auth_none]
      (BAddr_v4 134744072 20480) true = Some (Some o0) ∧
    runs step [Connector false true (Some []); SendDone (Some []); RecvDone [4; 0] None] o0
      = Some (tt, o, es) ∧
    BSocksClient_Free o = Some (tt, o', []) ∧ buffer o' = None.
Proof.
  eexists _, _, _. 
  pose proof (BSocksClient_Free_releases (BAddr_v4 16777343 14340) [BSocksClient_auth_none]
    (BAddr_v4 134744072 20480)
    [Connector false true (Some []); SendDone (Some []); RecvDone [4; 0] None]) as H.
  edestruct H as (o' & E & _ & _ & _ & _ & _ & Hb);
    [done|vm_compute; reflexivity|vm_compute; reflexivity|].
  exists o'. split; [vm_compute; reflexivity|]. split; [vm_compute; reflexivity|]. by split.
Defined.
