(* ===== verification/UdpGw.v ===== *)
(** * UDP gateway client

    [udpgw_client/UdpGwClient.c], [protocol/udpgw_proto.h]: UDP packets of local
    flows are multiplexed over one stream to a gateway.  Each pair of local and
    remote address has a connection with a 16-bit identifier.  The connections
    are found by address and by identifier, and are kept in a list, the least
    recently used first.

    A connection is an object of the heap that the two trees and the list point
    to.  A tree holds the nodes with the key each was inserted under. *)

From S2P Require Import Prelude CInt Addr PacketProto.

(** ** udpgw_proto.h *)

Definition UDPGW_CLIENT_FLAG_KEEPALIVE : Z := Z.shiftl 1 0.
Definition UDPGW_CLIENT_FLAG_REBIND : Z := Z.shiftl 1 1.
Definition UDPGW_CLIENT_FLAG_DNS : Z := Z.shiftl 1 2.
Definition UDPGW_CLIENT_FLAG_IPV6 : Z := Z.shiftl 1 3.

Definition sizeof_udpgw_header : Z := 3.
Definition sizeof_socks_udp_header : Z := 4.
Definition sizeof_udpgw_addr_ipv4 : Z := 6.
Definition sizeof_udpgw_addr_ipv6 : Z := 18.

(** the [ANDROID] branch *)
Definition udpgw_compute_mtu (dgram_mtu : Z) : Z :=
  let bs :=
    bsize_add (bsize_fromsize sizeof_socks_udp_header)
      (bsize_add
         (bsize_max (bsize_fromsize sizeof_udpgw_addr_ipv4)
            (bsize_fromsize sizeof_udpgw_addr_ipv6))
         (bsize_fromint dgram_mtu)) in
  match bsize_toint bs with None => -1 | Some s => s end.

(** ** Objects *)

Record UdpGwClient_conaddr := mkConaddr { local_addr : BAddr; remote_addr : BAddr }.

Record UdpGwClient_connection := mkCon {
  conaddr : UdpGwClient_conaddr;
  first_flags : Z;
  first_data : bytes;
  conid : Z;
  first_job : bool;             (** [BPending_IsSet(&con->first_job)] *)
  send_if : bool;               (** the [BufferWriter] has a packet to write into *)
}.

Record UdpGwClient := mkGw {
  udp_mtu : Z;
  max_connections : Z;
  send_buffer_size : Z;
  udpgw_mtu : Z;
  pp_mtu : Z;
  connections_tree_by_conaddr : list (UdpGwClient_conaddr * Z);
  connections_tree_by_conid : list (Z * Z);
  connections_list : list Z;
  num_connections : Z;
  next_conid : Z;
  keepalive_sending : bool;
  have_server : bool;
  heap : gmap Z UdpGwClient_connection;
}.

(** Calls the client makes: a packet is finished in the buffer of a connection, a
    packet is passed to the user, an error of the server, a keepalive packet is
    sent, the parts of a server connection are set up and freed. *)
Inductive event :=
| EndPacket (con : Z) (packet : bytes)
| handler_received (local_addr remote_addr : BAddr) (data : bytes)
| handler_servererror
| send_keepalive (packet : bytes)
| server_init
| server_free
| connection_freed (con : Z).

Abbreviation Gw := (M UdpGwClient event).

Definition set_trees t1 t2 l n (o : UdpGwClient) : UdpGwClient :=
  mkGw (udp_mtu o) (max_connections o) (send_buffer_size o) (udpgw_mtu o) (pp_mtu o)
    t1 t2 l n (next_conid o) (keepalive_sending o) (have_server o) (heap o).
Definition set_heap h (o : UdpGwClient) : UdpGwClient :=
  mkGw (udp_mtu o) (max_connections o) (send_buffer_size o) (udpgw_mtu o) (pp_mtu o)
    (connections_tree_by_conaddr o) (connections_tree_by_conid o) (connections_list o)
    (num_connections o) (next_conid o) (keepalive_sending o) (have_server o) h.
Definition set_next_conid n (o : UdpGwClient) : UdpGwClient :=
  mkGw (udp_mtu o) (max_connections o) (send_buffer_size o) (udpgw_mtu o) (pp_mtu o)
    (connections_tree_by_conaddr o) (connections_tree_by_conid o) (connections_list o)
    (num_connections o) n (keepalive_sending o) (have_server o) (heap o).
Definition set_flags k s (o : UdpGwClient) : UdpGwClient :=
  mkGw (udp_mtu o) (max_connections o) (send_buffer_size o) (udpgw_mtu o) (pp_mtu o)
    (connections_tree_by_conaddr o) (connections_tree_by_conid o) (connections_list o)
    (num_connections o) (next_conid o) k s (heap o).

(** [*con]; an access to a freed object is an error *)
Definition load (con : Z) : Gw UdpGwClient_connection :=
  o ← get;
  match heap o !! con with Some c => mret c | None => unreachable end.
Definition store (con : Z) (c : UdpGwClient_connection) : Gw unit :=
  o ← get; ASSERT (not_null (heap o !! con));; put (set_heap (<[con := c]> (heap o)) o).

(** ** Trees and list

    [BAVL_LookupExact], [BAVL_Insert] (which fails when a node with the same key is
    there) and [BAVL_Remove]. *)
Section tree.
Context {K : Type} (cmp : K → K → Z).
Definition BAVL_LookupExact (t : list (K * Z)) (key : K) : option Z :=
  snd <$> List.find (λ n, cmp (fst n) key =? 0) t.
Definition BAVL_Insert (t : list (K * Z)) (key : K) (node : Z) : option (list (K * Z)) :=
  match BAVL_LookupExact t key with
  | Some _ => None
  | None => Some (t ++ [(key, node)])
  end.
Definition BAVL_Remove (t : list (K * Z)) (node : Z) : list (K * Z) :=
  List.filter (λ n, negb (snd n =? node)) t.
End tree.

Definition LinkedList1_Remove (l : list Z) (node : Z) : list Z :=
  List.filter (λ n, negb (n =? node)) l.
Definition LinkedList1_Append (l : list Z) (node : Z) : list Z := l ++ [node].

Definition uint16_comparator (v1 v2 : Z) : Z := B_COMPARE v1 v2.
Definition conaddr_comparator (v1 v2 : UdpGwClient_conaddr) : Z :=
  let r := BAddr_CompareOrder (remote_addr v1) (remote_addr v2) in
  if negb (r =? 0) then r else BAddr_CompareOrder (local_addr v1) (local_addr v2).

Definition find_connection_by_conaddr (o : UdpGwClient) (a : UdpGwClient_conaddr) : option Z :=
  BAVL_LookupExact conaddr_comparator (connections_tree_by_conaddr o) a.
Definition find_connection_by_conid (o : UdpGwClient) (conid : Z) : option Z :=
  BAVL_LookupExact uint16_comparator (connections_tree_by_conid o) conid.

(** The loop of [find_unused_conid]; [fuel] bounds its iterations. *)
Fixpoint find_unused_conid_loop (fuel : nat) (o : UdpGwClient) : option UdpGwClient :=
  match fuel with
  | O => None
  | S fuel =>
      match find_connection_by_conid o (u16 (next_conid o)) with
      | None => Some o
      | Some _ =>
          let next := if next_conid o =? max_connections o - 1 then 0 else next_conid o + 1 in
          find_unused_conid_loop fuel (set_next_conid next o)
      end
  end.
Definition find_unused_conid : Gw Z :=
  o ← get;
  ASSERT (num_connections o <? max_connections o);;
  match find_unused_conid_loop (Z.to_nat (max_connections o)) o with
  | None => unreachable
  | Some o' => put o';; mret (u16 (next_conid o'))
  end.

(** ** Connections *)

(** the packet [connection_send] writes *)
Definition udpgw_packet (flags conid : Z) (remote : BAddr) (data : bytes) : bytes :=
  let flags :=
    if BAddr_type remote =? BADDR_TYPE_IPV6 then u8 (Z.lor flags UDPGW_CLIENT_FLAG_IPV6)
    else flags in
  le_bytes 1 flags ++ le_bytes 2 (ltoh16 conid)
  ++ match remote with
     | BAddr_v4 ip port => le_bytes 4 ip ++ le_bytes 2 port
     | BAddr_v6 ip port => ip ++ le_bytes 2 port
     | BAddr_None => []
     end
  ++ data.

(** [BufferWriter_StartPacket] fails when the flow has no buffer to write to;
    [BufferWriter_EndPacket] asserts that the packet fits its MTU *)
Definition connection_send (con : Z) (flags : Z) (data : bytes) : Gw unit :=
  o ← get;
  ASSERT (zlen data <=? udp_mtu o);;
  c ← load con;
  if negb (send_if c) then mret tt
  else
    let out := udpgw_packet flags (conid c) (remote_addr (conaddr c)) data in
    ASSERT (zlen out <=? udpgw_mtu o);;
    store con (mkCon (conaddr c) (first_flags c) (first_data c) (conid c) (first_job c) false);;
    emit (EndPacket con out).

Definition connection_first_job_handler (con : Z) : Gw unit :=
  c ← load con;
  connection_send con (Z.lor UDPGW_CLIENT_FLAG_REBIND (first_flags c)) (first_data c).

(** [malloc] is the address of the new object, [flow_ok] the result of
    [PacketProtoFlow_Init].  The source keeps a pointer to the caller's buffer in
    [first_data]; here it is the contents, which the buffer still has when the job
    runs: jobs run last set first, before the next event of the reactor. *)
Definition connection_init (malloc : option Z) (flow_ok : bool) (a : UdpGwClient_conaddr)
    (flags : Z) (data : bytes) : Gw unit :=
  o ← get;
  ASSERT (num_connections o <? max_connections o);;
  ASSERT (negb (not_null (find_connection_by_conaddr o a)));;
  ASSERT (zlen data <=? udp_mtu o);;
  match malloc with
  | None => mret tt
  | Some con =>
      ASSERT (negb (not_null (heap o !! con)));;
      id ← find_unused_conid;
      if negb flow_ok then mret tt
      else
        o ← get;
        match BAVL_Insert conaddr_comparator (connections_tree_by_conaddr o) a con,
              BAVL_Insert uint16_comparator (connections_tree_by_conid o) id con with
        | Some t1, Some t2 =>
            put (set_heap (<[con := mkCon a flags data id true false]> (heap o))
                   (set_trees t1 t2 (LinkedList1_Append (connections_list o) con)
                      (num_connections o + 1) o))
        | _, _ => unreachable
        end
  end.

Definition connection_free (con : Z) : Gw unit :=
  c ← load con;
  o ← get;
  put (set_heap (delete con (heap o))
         (set_trees (BAVL_Remove (connections_tree_by_conaddr o) con)
            (BAVL_Remove (connections_tree_by_conid o) con)
            (LinkedList1_Remove (connections_list o) con)
            (num_connections o - 1) o));;
  emit (connection_freed con).

Definition reuse_connection (a : UdpGwClient_conaddr) : Gw Z :=
  o ← get;
  ASSERT (negb (not_null (find_connection_by_conaddr o a)));;
  ASSERT (num_connections o >? 0);;
  match connections_list o with
  | [] => unreachable
  | con :: _ =>
      let t := BAVL_Remove (connections_tree_by_conaddr o) con in
      c ← load con;
      store con (mkCon a (first_flags c) (first_data c) (conid c) (first_job c) (send_if c));;
      match BAVL_Insert conaddr_comparator t a con with
      | None => unreachable
      | Some t =>
          modify (λ o, set_trees t (connections_tree_by_conid o) (connections_list o)
                         (num_connections o) o);;
          mret con
      end
  end.

Definition is_ip (a : BAddr) : bool :=
  (BAddr_type a =? BADDR_TYPE_IPV4) || (BAddr_type a =? BADDR_TYPE_IPV6).

(** "move connection to front of the list": it becomes the most recently used *)
Definition move_connection (con : Z) : Gw unit :=
  modify (λ o, set_trees (connections_tree_by_conaddr o) (connections_tree_by_conid o)
    (LinkedList1_Append (LinkedList1_Remove (connections_list o) con) con) (num_connections o) o).

Definition UdpGwClient_SubmitPacket (malloc : option Z) (flow_ok : bool)
    (local remote : BAddr) (is_dns : bool) (data : bytes) : Gw unit :=
  o ← get;
  ASSERT (is_ip local);;
  ASSERT (is_ip remote);;
  ASSERT (zlen data <=? udp_mtu o);;
  let a := mkConaddr local remote in
  let con := find_connection_by_conaddr o a in
  let flags := if is_dns then u8 (Z.lor 0 UDPGW_CLIENT_FLAG_DNS) else 0 in
  if negb (not_null con) && (num_connections o =? max_connections o) then
    con ← reuse_connection a;
    move_connection con;;
    connection_send con (u8 (Z.lor flags UDPGW_CLIENT_FLAG_REBIND)) data
  else
    match con with
    | None => connection_init malloc flow_ok a flags data
    | Some con => move_connection con;; connection_send con flags data
    end.

(** ** Packets from the server *)

Definition decoder_handler_error : Gw unit :=
  o ← get; ASSERT (have_server o);; emit handler_servererror.

(** the address in a packet and what follows it *)
Definition parse_remote (flags : Z) (data : bytes) : option (BAddr * bytes) :=
  if negb (Z.land flags UDPGW_CLIENT_FLAG_IPV6 =? 0) then
    if zlen data <? sizeof_udpgw_addr_ipv6 then None
    else Some (BAddr_v6 (slice 0 16 data) (le_val (slice 16 2 data)),
               zdrop sizeof_udpgw_addr_ipv6 data)
  else
    if zlen data <? sizeof_udpgw_addr_ipv4 then None
    else Some (BAddr_v4 (le_val (slice 0 4 data)) (le_val (slice 4 2 data)),
               zdrop sizeof_udpgw_addr_ipv4 data).

Definition recv_interface_handler_send (data : bytes) : Gw unit :=
  o ← get;
  ASSERT (have_server o);;
  ASSERT (zlen data <=? udpgw_mtu o);;
  if zlen data <? sizeof_udpgw_header then mret tt
  else
    let flags := le_val (slice 0 1 data) in
    let conid := ltoh16 (le_val (slice 1 2 data)) in
    match parse_remote flags (zdrop sizeof_udpgw_header data) with
    | None => mret tt
    | Some (remote, data) =>
        if zlen data >? udp_mtu o then mret tt
        else
          match find_connection_by_conid o conid with
          | None => mret tt
          | Some con =>
              c ← load con;
              if negb (BAddr_CompareOrder (remote_addr (conaddr c)) remote =? 0) then mret tt
              else
                move_connection con;;
                emit (handler_received (local_addr (conaddr c)) (remote_addr (conaddr c)) data)
          end
    end.

(** ** Keepalive *)

(** [keepalive_packet]: the length is written without conversion *)
Definition keepalive_packet : bytes :=
  le_bytes 2 sizeof_udpgw_header ++ [UDPGW_CLIENT_FLAG_KEEPALIVE; 0; 0].
Definition send_monitor_handler : Gw unit :=
  o ← get;
  if keepalive_sending o then mret tt
  else
    emit (send_keepalive keepalive_packet);;
    put (set_flags true (have_server o) o).
Definition keepalive_if_handler_done : Gw unit :=
  o ← get;
  ASSERT (keepalive_sending o);;
  put (set_flags false (have_server o) o).

(** ** Life of the client *)

Definition UdpGwClient_Init (mtu max send_size : Z) (queue_ok : bool) : option (option UdpGwClient) :=
  assert! (mtu >=? 0);
  assert! (udpgw_compute_mtu mtu >=? 0);
  assert! (udpgw_compute_mtu mtu <=? PACKETPROTO_MAXPAYLOAD);
  assert! (max >? 0);
  assert! (send_size >? 0);
  let max := if max >? UINT16_MAX + 1 then UINT16_MAX + 1 else max in
  Some (if queue_ok then
          Some (mkGw mtu max send_size (udpgw_compute_mtu mtu)
                  (udpgw_compute_mtu mtu + HEADER)
                  [] [] [] 0 0 false false ∅)
        else None).

Definition free_server : Gw unit := emit server_free.

(** the loop of [UdpGwClient_Free] *)
Fixpoint free_connections (fuel : nat) : Gw unit :=
  match fuel with
  | O => unreachable
  | S fuel =>
      o ← get;
      match connections_list o with
      | [] => mret tt
      | con :: _ => connection_free con;; free_connections fuel
      end
  end.
Definition UdpGwClient_Free : Gw unit :=
  o ← get;
  free_connections (S (length (connections_list o)));;
  when (have_server o) free_server.

(** [decoder_ok] is the result of [PacketProtoDecoder_Init] *)
Definition UdpGwClient_ConnectServer (decoder_ok : bool) : Gw bool :=
  o ← get;
  ASSERT (negb (have_server o));;
  if negb decoder_ok then mret false
  else
    emit server_init;;
    put (set_flags (keepalive_sending o) true o);;
    mret true.
Definition UdpGwClient_DisconnectServer : Gw unit :=
  o ← get;
  ASSERT (have_server o);;
  free_server;;
  put (set_flags (keepalive_sending o) false o).

(** ** The client and its surroundings

    Besides the calls of the owner: the first job of a connection runs, the flow of
    a connection offers a buffer, the decoder passes a packet or an error, the
    inactivity monitor fires and the keepalive packet has been sent. *)
Inductive input :=
| Submit (malloc : option Z) (flow_ok : bool) (local remote : BAddr) (is_dns : bool) (data : bytes)
| FirstJob (con : Z)
| WriterReady (con : Z)
| Received (data : bytes)
| DecoderError
| Monitor
| KeepaliveDone
| Connect (decoder_ok : bool)
| Disconnect.

Definition step (i : input) : Gw unit :=
  match i with
  | Submit malloc flow_ok local remote is_dns data =>
      UdpGwClient_SubmitPacket malloc flow_ok local remote is_dns data
  | FirstJob con =>
      c ← load con;
      ASSERT (first_job c);;
      store con (mkCon (conaddr c) (first_flags c) (first_data c) (conid c) false (send_if c));;
      connection_first_job_handler con
  | WriterReady con =>
      c ← load con;
      ASSERT (negb (send_if c));;
      store con (mkCon (conaddr c) (first_flags c) (first_data c) (conid c) (first_job c) true)
  | Received data => recv_interface_handler_send data
  | DecoderError => decoder_handler_error
  | Monitor => send_monitor_handler
  | KeepaliveDone => keepalive_if_handler_done
  | Connect decoder_ok => UdpGwClient_ConnectServer decoder_ok;; mret tt
  | Disconnect => UdpGwClient_DisconnectServer
  end.

(** ** Invariant *)

Definition conaddr_ok (a : UdpGwClient_conaddr) : Prop :=
  (BAddr_ok (local_addr a) ∧ is_ip (local_addr a) = true) ∧
  (BAddr_ok (remote_addr a) ∧ is_ip (remote_addr a) = true).

(** the connections of the heap, with distinct addresses and identifiers *)
Record heap_ok (max : Z) (mtu : Z) (h : gmap Z UdpGwClient_connection) : Prop := {
  ho_addr p c : h !! p = Some c → conaddr_ok (conaddr c);
  ho_conid p c : h !! p = Some c → 0 ≤ conid c < max;
  ho_data p c : h !! p = Some c → zlen (first_data c) ≤ mtu;
  ho_addr_inj p q c d : h !! p = Some c → h !! q = Some d → conaddr c = conaddr d → p = q;
  ho_conid_inj p q c d : h !! p = Some c → h !! q = Some d → conid c = conid d → p = q;
}.

Record gw_wf (o : UdpGwClient) : Prop := {
  gw_mtu : 0 ≤ udp_mtu o ∧ udpgw_mtu o = 22 + udp_mtu o ∧ udpgw_mtu o ≤ PACKETPROTO_MAXPAYLOAD;
  gw_max : 0 < max_connections o ≤ 65536;
  gw_next : 0 ≤ next_conid o < max_connections o;
  gw_num : num_connections o = zlen (connections_list o) ∧ num_connections o ≤ max_connections o;
  gw_nodup : NoDup (connections_list o);
  gw_list p : p ∈ connections_list o ↔ is_Some (heap o !! p);
  gw_heap : heap_ok (max_connections o) (udp_mtu o) (heap o);
  gw_tree_addr a p : (a, p) ∈ connections_tree_by_conaddr o ↔ ∃ c, heap o !! p = Some c ∧ conaddr c = a;
  gw_tree_conid i p : (i, p) ∈ connections_tree_by_conid o ↔ ∃ c, heap o !! p = Some c ∧ conid c = i;
}.

Section tree_lemmas.
Context {K : Type} (cmp : K → K → Z).

(** With distinct keys, looking up a key finds its only node. *)
Lemma BAVL_LookupExact_Some t key p :
  (∀ k q, (k, q) ∈ t → cmp k key = 0 ↔ k = key) →
  (∀ q r, (key, q) ∈ t → (key, r) ∈ t → q = r) →
  BAVL_LookupExact cmp t key = Some p ↔ (key, p) ∈ t.
Proof.
  intros Hcmp Hinj. unfold BAVL_LookupExact. destruct (List.find _ t) as [[k q]|] eqn:E; cbn.
  - apply List.find_some in E as [Hin Hc]. cbn in Hc. apply Z.eqb_eq in Hc.
    apply list_elem_of_In in Hin. apply (Hcmp _ _ Hin) in Hc as ->. split.
    + by intros [= ->].
    + intros Hp. f_equal. by apply Hinj.
  - split; [done|]. intros Hp. pose proof (List.find_none _ _ E (key, p)) as Hn.
    rewrite <-list_elem_of_In in Hn. specialize (Hn Hp). cbn in Hn. apply Z.eqb_neq in Hn.
    exfalso. apply Hn. by apply (Hcmp _ _ Hp).
Qed.
Lemma BAVL_LookupExact_None t key :
  (∀ k q, (k, q) ∈ t → cmp k key = 0 ↔ k = key) →
  BAVL_LookupExact cmp t key = None ↔ ∀ p, (key, p) ∉ t.
Proof.
  intros Hcmp. unfold BAVL_LookupExact. destruct (List.find _ t) as [[k q]|] eqn:E; cbn.
  - apply List.find_some in E as [Hin Hc]. cbn in Hc. apply Z.eqb_eq in Hc.
    apply list_elem_of_In in Hin. pose proof Hin as Hin'. apply (Hcmp _ _ Hin) in Hc as ->.
    split; [done|]. intros H. by destruct (H q).
  - split; [|done]. intros _ p Hp. pose proof (List.find_none _ _ E (key, p)) as Hn.
    rewrite <-list_elem_of_In in Hn. specialize (Hn Hp). cbn in Hn. apply Z.eqb_neq in Hn.
    apply Hn. by apply (Hcmp _ _ Hp).
Qed.
Lemma elem_of_BAVL_Remove t (node : Z) k p :
  (k, p) ∈ @BAVL_Remove K t node ↔ (k, p) ∈ t ∧ p ≠ node.
Proof.
  unfold BAVL_Remove. rewrite !list_elem_of_In, List.filter_In. cbn.
  rewrite negb_true_iff, Z.eqb_neq. done.
Qed.
Lemma BAVL_Insert_None t key node :
  BAVL_LookupExact cmp t key = None → BAVL_Insert cmp t key node = Some (t ++ [(key, node)]).
Proof. unfold BAVL_Insert. by intros ->. Qed.
End tree_lemmas.

Lemma elem_of_LinkedList1_Remove l (node p : Z) :
  p ∈ LinkedList1_Remove l node ↔ p ∈ l ∧ p ≠ node.
Proof.
  unfold LinkedList1_Remove. rewrite !list_elem_of_In, List.filter_In.
  rewrite negb_true_iff, Z.eqb_neq. done.
Qed.
Lemma LinkedList1_Remove_id l node : node ∉ l → LinkedList1_Remove l node = l.
Proof.
  unfold LinkedList1_Remove. induction l as [|p l IH]; [done|]. rewrite not_elem_of_cons.
  intros [Hne Hin]. cbn. destruct (Z.eqb_spec p node); [congruence|]. cbn. by rewrite IH.
Qed.
Lemma NoDup_LinkedList1_Remove l node : NoDup l → NoDup (LinkedList1_Remove l node).
Proof.
  unfold LinkedList1_Remove. induction 1 as [|p l Hp Hl IH]; [constructor|]. cbn.
  destruct (Z.eqb_spec p node); [done|]. cbn. constructor; [|done].
  intros H. apply (elem_of_LinkedList1_Remove l node p) in H. naive_solver.
Qed.
Lemma zlen_LinkedList1_Remove l node :
  NoDup l → node ∈ l → zlen (LinkedList1_Remove l node) = zlen l - 1.
Proof.
  unfold LinkedList1_Remove. induction 1 as [|p l Hp Hl IH]; [by intros ?%elem_of_nil|].
  intros [->|Hin]%elem_of_cons; cbn.
  - rewrite Z.eqb_refl. cbn. fold (LinkedList1_Remove l p). rewrite LinkedList1_Remove_id by done.
    rewrite zlen_cons. lia.
  - destruct (Z.eqb_spec p node); [congruence|]. cbn. rewrite !zlen_cons, IH by done. lia.
Qed.

Lemma conaddr_comparator_eq a b :
  conaddr_ok a → conaddr_ok b → conaddr_comparator a b = 0 ↔ a = b.
Proof.
  intros [[Hl1 _] [Hr1 _]] [[Hl2 _] [Hr2 _]]. unfold conaddr_comparator.
  destruct (Z.eqb_spec (BAddr_CompareOrder (remote_addr a) (remote_addr b)) 0) as [E|E]; cbn.
  - apply BAddr_CompareOrder_0 in E; [|done..]. rewrite BAddr_CompareOrder_0 by done.
    destruct a, b; cbn in *. naive_solver.
  - split; [done|]. intros ->. destruct E. by apply BAddr_CompareOrder_0.
Qed.
Lemma uint16_comparator_eq x y : uint16_comparator x y = 0 ↔ x = y.
Proof. apply B_COMPARE_0. Qed.

Section lookups.
Context (o : UdpGwClient) (Hwf : gw_wf o).

Lemma find_conaddr_Some a p :
  conaddr_ok a →
  find_connection_by_conaddr o a = Some p ↔ ∃ c, heap o !! p = Some c ∧ conaddr c = a.
Proof.
  intros Ha. unfold find_connection_by_conaddr. rewrite BAVL_LookupExact_Some; [apply gw_tree_addr; done|..].
  - intros k q Hin. apply (gw_tree_addr _ Hwf) in Hin as (c & Hc & <-).
    apply conaddr_comparator_eq; [by eapply ho_addr; [apply Hwf|]|done].
  - intros q r (c & Hc & E)%(gw_tree_addr _ Hwf) (d & Hd & E')%(gw_tree_addr _ Hwf).
    eapply ho_addr_inj; [apply Hwf|done..|congruence].
Qed.
Lemma find_conaddr_None a :
  conaddr_ok a →
  find_connection_by_conaddr o a = None ↔ ∀ p c, heap o !! p = Some c → conaddr c ≠ a.
Proof.
  intros Ha. destruct (find_connection_by_conaddr o a) as [p|] eqn:E.
  - apply find_conaddr_Some in E as (c & Hc & E); [|done]. naive_solver.
  - split; [|done]. intros _ p c Hc Hca.
    assert (find_connection_by_conaddr o a = Some p) by (apply find_conaddr_Some; eauto). congruence.
Qed.
Lemma find_conid_Some i p :
  find_connection_by_conid o i = Some p ↔ ∃ c, heap o !! p = Some c ∧ conid c = i.
Proof.
  unfold find_connection_by_conid. rewrite BAVL_LookupExact_Some; [apply gw_tree_conid; done|..].
  - intros k q _. apply uint16_comparator_eq.
  - intros q r (c & Hc & E)%(gw_tree_conid _ Hwf) (d & Hd & E')%(gw_tree_conid _ Hwf).
    eapply ho_conid_inj; [apply Hwf|done..|congruence].
Qed.
Lemma find_conid_None i :
  find_connection_by_conid o i = None ↔ ∀ p c, heap o !! p = Some c → conid c ≠ i.
Proof.
  destruct (find_connection_by_conid o i) as [p|] eqn:E.
  - apply find_conid_Some in E as (c & Hc & E). naive_solver.
  - split; [|done]. intros _ p c Hc Hca.
    assert (find_connection_by_conid o i = Some p) by (apply find_conid_Some; eauto). congruence.
Qed.
End lookups.

(** ** [find_unused_conid] terminates *)

Lemma find_conid_next_conid n o i :
  find_connection_by_conid (set_next_conid n o) i = find_connection_by_conid o i.
Proof. done. Qed.
Lemma u16_small x : 0 ≤ x < 65536 → u16 x = x.
Proof. intros. unfold u16. apply Z.mod_small. lia. Qed.
Lemma next_conid_mod N n : 0 ≤ n < N → (if n =? N - 1 then 0 else n + 1) = (n + 1) mod N.
Proof.
  intros. destruct (Z.eqb_spec n (N - 1)) as [->|].
  - replace (N - 1 + 1) with N by lia. by rewrite Z.mod_same by lia.
  - by rewrite Z.mod_small by lia.
Qed.

Lemma find_loop_None fuel : ∀ o,
  0 < max_connections o ≤ 65536 → 0 ≤ next_conid o < max_connections o →
  find_unused_conid_loop fuel o = None →
  ∀ j, 0 ≤ j < Z.of_nat fuel →
    is_Some (find_connection_by_conid o ((next_conid o + j) mod max_connections o)).
Proof.
  induction fuel as [|fuel IH]; intros o Hmax Hn; cbn [find_unused_conid_loop]; [lia|].
  rewrite u16_small by lia. destruct (find_connection_by_conid o (next_conid o)) as [q|] eqn:E; [|done].
  rewrite next_conid_mod by lia. intros H j Hj.
  destruct (Z.eq_dec j 0) as [->|]; [by rewrite Z.add_0_r, Z.mod_small, E by lia|].
  specialize (IH (set_next_conid ((next_conid o + 1) mod max_connections o) o)).
  cbn [max_connections next_conid set_next_conid] in IH.
  specialize (IH Hmax (Z.mod_pos_bound (next_conid o + 1) (max_connections o) ltac:(lia)) H (j - 1) ltac:(lia)).
  rewrite find_conid_next_conid, Z.add_mod_idemp_l in IH by lia.
  by replace (next_conid o + 1 + (j - 1)) with (next_conid o + j) in IH by lia.
Qed.

Lemma find_loop_Some fuel : ∀ o o',
  0 < max_connections o ≤ 65536 → 0 ≤ next_conid o < max_connections o →
  find_unused_conid_loop fuel o = Some o' →
  ∃ n, o' = set_next_conid n o ∧ 0 ≤ n < max_connections o ∧ find_connection_by_conid o n = None.
Proof.
  induction fuel as [|fuel IH]; intros o o' Hmax Hn; cbn [find_unused_conid_loop]; [done|].
  rewrite u16_small by lia. destruct (find_connection_by_conid o (next_conid o)) as [q|] eqn:E.
  - rewrite next_conid_mod by lia. intros H.
    destruct (IH (set_next_conid ((next_conid o + 1) mod max_connections o) o) o') as (n & -> & ? & ?);
      [done|cbn; apply Z.mod_pos_bound; lia|done|]. by exists n.
  - intros [= <-]. exists (next_conid o). split; [by destruct o|done].
Qed.

(** With every identifier below [N] in use there are at least [N] connections. *)
Lemma all_conids_used o (N : Z) :
  gw_wf o → 0 ≤ N → (∀ i, 0 ≤ i < N → is_Some (find_connection_by_conid o i)) →
  N ≤ num_connections o.
Proof.
  intros Hwf HN Hall. destruct (gw_num _ Hwf) as [-> _].
  set (ids := omap (λ p, conid <$> heap o !! p) (connections_list o)).
  assert (zlen ids ≤ zlen (connections_list o)) as Hlen.
  { subst ids. induction (connections_list o) as [|p l IH]; [done|]. cbn.
    destruct (heap o !! p); cbn; rewrite ?zlen_cons; lia. }
  enough (N ≤ zlen ids) by lia.
  assert (seqZ 0 N ⊆ ids) as Hsub.
  { intros i Hi. apply elem_of_seqZ in Hi. destruct (Hall i ltac:(lia)) as [p Hp].
    apply (find_conid_Some o Hwf) in Hp as (c & Hc & <-). apply list_elem_of_omap.
    exists p. split; [by apply (gw_list _ Hwf)|by rewrite Hc]. }
  pose proof (NoDup_seqZ 0 N) as Hnd. unfold zlen.
  assert (length (seqZ 0 N) ≤ length ids)%nat as Hle.
  { apply submseteq_length. by apply NoDup_submseteq. }
  rewrite length_seqZ in Hle. lia.
Qed.

Lemma find_unused_conid_spec o :
  gw_wf o → num_connections o < max_connections o →
  ∃ n, find_unused_conid o = Some (n, set_next_conid n o, []) ∧
    0 ≤ n < max_connections o ∧ find_connection_by_conid o n = None.
Proof.
  intros Hwf Hlt. pose proof (gw_max _ Hwf) as Hmax. pose proof (gw_next _ Hwf) as Hnext.
  unfold find_unused_conid. m_step. destruct (Z.ltb_spec (num_connections o) (max_connections o)); [|lia].
  m_assert. destruct (find_unused_conid_loop (Z.to_nat (max_connections o)) o) as [o'|] eqn:E.
  - destruct (find_loop_Some _ _ _ Hmax Hnext E) as (n & -> & Hn & Hf).
    exists n. split; [|done]. m_step. cbn [next_conid set_next_conid]. by rewrite u16_small by lia.
  - exfalso. pose proof (find_loop_None _ _ Hmax Hnext E) as Hall.
    assert (max_connections o ≤ num_connections o); [|lia].
    apply all_conids_used; [done|lia|]. intros i Hi.
    specialize (Hall ((i - next_conid o) mod max_connections o)).
    rewrite Z.add_mod_idemp_r in Hall by lia.
    replace (next_conid o + (i - next_conid o)) with i in Hall by lia.
    rewrite (Z.mod_small i) in Hall by lia. apply Hall.
    pose proof (Z.mod_pos_bound (i - next_conid o) (max_connections o) ltac:(lia)). lia.
Qed.

(** ** Abstract view: addresses and identifiers, the least recently used first *)

Definition entry (o : UdpGwClient) (p : Z) : option (UdpGwClient_conaddr * Z) :=
  (λ c, (conaddr c, conid c)) <$> heap o !! p.
Definition view (o : UdpGwClient) : list (UdpGwClient_conaddr * Z) :=
  omap (entry o) (connections_list o).

Lemma zlen_view o : gw_wf o → zlen (view o) = num_connections o.
Proof.
  intros Hwf. destruct (gw_num _ Hwf) as [-> _]. pose proof (gw_list _ Hwf) as Hl. unfold view.
  assert (∀ l, (∀ p, p ∈ l → is_Some (heap o !! p)) → zlen (omap (entry o) l) = zlen l) as H.
  { induction l as [|p l IH]; intros Hin; [done|]. cbn. unfold entry at 1.
    destruct (Hin p) as [c Hc]; [by left|]. rewrite Hc. cbn. rewrite !zlen_cons, IH; [done|].
    intros q Hq. apply Hin. by right. }
  apply H. intros p. apply Hl.
Qed.

Lemma elem_of_view o e : gw_wf o → e ∈ view o ↔ ∃ p c, heap o !! p = Some c ∧ e = (conaddr c, conid c).
Proof.
  intros Hwf. unfold view. rewrite list_elem_of_omap. split.
  - intros (p & _ & He). unfold entry in He. destruct (heap o !! p) as [c|] eqn:Hc; [|done].
    cbn in He. simplify_eq. eauto.
  - intros (p & c & Hc & ->). exists p. split; [apply (gw_list _ Hwf); eauto|].
    unfold entry. by rewrite Hc.
Qed.

(** Changing the parts of a connection that are not keys. *)
Definition same_keys (c c' : UdpGwClient_connection) : Prop :=
  conaddr c' = conaddr c ∧ conid c' = conid c ∧ first_data c' = first_data c.

Lemma store_spec o p c c' :
  gw_wf o → heap o !! p = Some c → same_keys c c' →
  store p c' o = Some (tt, set_heap (<[p:=c']> (heap o)) o, []) ∧
  gw_wf (set_heap (<[p:=c']> (heap o)) o) ∧
  view (set_heap (<[p:=c']> (heap o)) o) = view o.
Proof.
  intros Hwf Hc (Ea & Ei & Ed). split; [|split].
  - unfold store. m_step. rewrite Hc. by m_assert.
  - assert (∀ q d, <[p:=c']> (heap o) !! q = Some d →
      ∃ d0, heap o !! q = Some d0 ∧ same_keys d0 d) as Hlook.
    { intros q d Hd. destruct (decide (q = p)) as [->|Hne].
      - rewrite lookup_insert_eq in Hd. simplify_eq. exists c. done.
      - rewrite lookup_insert_ne in Hd by done. by exists d. }
    pose proof (gw_heap _ Hwf) as [H1 H2 H3 H4 H5].
    destruct Hwf as [Hm Hx Hn Hu Hnd Hl _ Ht1 Ht2].
    split; cbn [set_heap udp_mtu udpgw_mtu max_connections next_conid num_connections connections_list
      heap connections_tree_by_conaddr connections_tree_by_conid]; try done.
    + intros q. rewrite Hl. destruct (decide (q = p)) as [->|Hne];
        [rewrite lookup_insert_eq, Hc|rewrite lookup_insert_ne by done]; split; eauto.
    + split.
      * intros q d Hd. destruct (Hlook q d Hd) as (d0 & Hd0 & -> & _). eauto.
      * intros q d Hd. destruct (Hlook q d Hd) as (d0 & Hd0 & _ & -> & _). eauto.
      * intros q d Hd. destruct (Hlook q d Hd) as (d0 & Hd0 & _ & _ & ->). eauto.
      * intros q r d e Hd He. destruct (Hlook q d Hd) as (d0 & Hd0 & -> & _).
        destruct (Hlook r e He) as (e0 & He0 & -> & _). eauto.
      * intros q r d e Hd He. destruct (Hlook q d Hd) as (d0 & Hd0 & _ & -> & _).
        destruct (Hlook r e He) as (e0 & He0 & _ & -> & _). eauto.
    + intros a q. rewrite Ht1. split; intros (d & Hd & Hda).
      * destruct (decide (q = p)) as [->|Hne]; [exists c'; rewrite lookup_insert_eq|exists d; rewrite lookup_insert_ne by done];
          naive_solver congruence.
      * destruct (Hlook q d Hd) as (d0 & Hd0 & E & _). exists d0. split; [done|congruence].
    + intros i q. rewrite Ht2. split; intros (d & Hd & Hda).
      * destruct (decide (q = p)) as [->|Hne]; [exists c'; rewrite lookup_insert_eq|exists d; rewrite lookup_insert_ne by done];
          naive_solver congruence.
      * destruct (Hlook q d Hd) as (d0 & Hd0 & _ & E & _). exists d0. split; [done|congruence].
  - unfold view. cbn [connections_list set_heap]. apply omap_ext_in. intros q _. unfold entry. cbn [heap set_heap].
    destruct (decide (q = p)) as [->|Hne]; [rewrite lookup_insert_eq, Hc|by rewrite lookup_insert_ne].
    cbn. by rewrite Ea, Ei.
Qed.

Lemma load_run o p c : heap o !! p = Some c → load p o = Some (c, o, []).
Proof. intros Hc. unfold load. m_step. by rewrite Hc. Qed.

Lemma zlen_udpgw_packet flags i remote data :
  BAddr_ok remote → zlen (udpgw_packet flags i remote data) ≤ 21 + zlen data.
Proof.
  intros Hr. unfold udpgw_packet. rewrite !zlen_app, !zlen_le_bytes.
  destruct remote as [|ip port|ip port]; cbn in Hr; rewrite ?zlen_app, ?zlen_le_bytes.
  - change (zlen (@nil Z)) with 0. lia.
  - lia.
  - destruct Hr as [[-> _] _]. lia.
Qed.

(** *** connection_send *)
Lemma connection_send_spec o p c flags data :
  gw_wf o → heap o !! p = Some c → zlen data ≤ udp_mtu o →
  ∃ o', connection_send p flags data o = Some (tt, o',
      if send_if c then [EndPacket p (udpgw_packet flags (conid c) (remote_addr (conaddr c)) data)] else []) ∧
    gw_wf o' ∧ view o' = view o ∧ connections_list o' = connections_list o.
Proof.
  intros Hwf Hc Hd. unfold connection_send. m_step.
  destruct (Z.leb_spec (zlen data) (udp_mtu o)); [|lia]. m_assert.
  rewrite (M_bind_run0 _ _ _ _ _ (load_run _ _ _ Hc)).
  destruct (send_if c); cbn [negb]; [|by exists o].
  pose proof (gw_mtu _ Hwf). destruct (ho_addr _ _ _ (gw_heap _ Hwf) _ _ Hc) as [_ [Hr _]].
  pose proof (zlen_udpgw_packet flags (conid c) _ data Hr).
  set (pkt := udpgw_packet _ _ _ _) in *. destruct (Z.leb_spec (zlen pkt) (udpgw_mtu o)); [|lia]. m_assert.
  set (c' := mkCon _ _ _ _ _ _). destruct (store_spec o p c c' Hwf Hc) as (E & Hwf' & Hv); [done|].
  rewrite (M_bind_run0 _ _ _ _ _ E). eexists. split; [reflexivity|]. done.
Qed.

(** *** move_connection *)
Lemma move_connection_spec o p :
  gw_wf o → p ∈ connections_list o →
  ∃ o', move_connection p o = Some (tt, o', []) ∧ gw_wf o' ∧ heap o' = heap o ∧
    connections_list o' = LinkedList1_Remove (connections_list o) p ++ [p] ∧
    udp_mtu o' = udp_mtu o ∧ max_connections o' = max_connections o.
Proof.
  intros Hwf Hp. eexists. split; [reflexivity|]. split; [|done].
  destruct Hwf as [Hm Hx Hn Hu Hnd Hl Hh Ht1 Ht2]. split; cbn; try done.
  - destruct Hu as [-> ?]. unfold LinkedList1_Append. rewrite zlen_app, zlen_LinkedList1_Remove by done.
    rewrite zlen_cons. change (zlen (@nil Z)) with 0. lia.
  - unfold LinkedList1_Append. apply list.NoDup_app. split; [by apply NoDup_LinkedList1_Remove|].
    split; [|apply list.NoDup_singleton]. intros q Hq ->%list_elem_of_singleton.
    apply elem_of_LinkedList1_Remove in Hq. naive_solver.
  - intros q. rewrite <-Hl. unfold LinkedList1_Append.
    rewrite elem_of_app, elem_of_LinkedList1_Remove, list_elem_of_singleton.
    destruct (decide (q = p)); naive_solver.
Qed.

(** *** The effect on the view *)

(** the entries other than that of identifier [i], and that entry *)
Definition others (i : Z) (v : list (UdpGwClient_conaddr * Z)) : list (UdpGwClient_conaddr * Z) :=
  filter (λ e, e.2 ≠ i) v.

Lemma view_others o p c l :
  gw_wf o → heap o !! p = Some c →
  omap (entry o) (LinkedList1_Remove l p) = others (conid c) (omap (entry o) l).
Proof.
  intros Hwf Hc. pose proof (ho_conid_inj _ _ _ (gw_heap _ Hwf)) as Hinj.
  induction l as [|q l IH]; [done|]. unfold LinkedList1_Remove. cbn [List.filter].
  fold (LinkedList1_Remove l p). destruct (Z.eqb_spec q p) as [->|Hne]; cbn [negb].
  - rewrite omap_cons. assert (entry o p = Some (conaddr c, conid c)) as -> by (unfold entry; by rewrite Hc).
    unfold others. rewrite filter_cons_False by (cbn; naive_solver). exact IH.
  - rewrite !omap_cons. destruct (entry o q) as [e|] eqn:He; [|exact IH].
    unfold others. rewrite filter_cons_True; [by rewrite IH|]. intros E. apply Hne.
    unfold entry in He. destruct (heap o !! q) as [d|] eqn:Hd; [|done]. cbn in He. simplify_eq.
    cbn in E. eauto.
Qed.

Lemma view_move o p c o' :
  gw_wf o → heap o !! p = Some c → heap o' = heap o →
  connections_list o' = LinkedList1_Remove (connections_list o) p ++ [p] →
  view o' = others (conid c) (view o) ++ [(conaddr c, conid c)].
Proof.
  intros Hwf Hc Hh Hl. unfold view. rewrite Hl, omap_app.
  assert (∀ l : list Z, omap (entry o') l = omap (entry o) l) as E.
  { intros l. apply omap_ext_in. intros q _. unfold entry. by rewrite Hh. }
  rewrite !E, (view_others o p c) by done. f_equal. cbn. unfold entry. by rewrite Hc.
Qed.

(** *** connection_init *)
Lemma connection_init_spec o malloc flow_ok a flags data :
  gw_wf o → conaddr_ok a → find_connection_by_conaddr o a = None →
  num_connections o < max_connections o → zlen data ≤ udp_mtu o →
  (∀ p, malloc = Some p → heap o !! p = None) →
  ∃ o', connection_init malloc flow_ok a flags data o = Some (tt, o', []) ∧ gw_wf o' ∧
    (view o' = view o ∨
     ∃ i, view o' = view o ++ [(a, i)] ∧ 0 ≤ i < max_connections o ∧ (∀ e, e ∈ view o → e.2 ≠ i)) ∧
    (malloc ≠ None → flow_ok = true → view o' ≠ view o).
Proof.
  intros Hwf Ha Hf Hlt Hd Hfresh. unfold connection_init. m_step.
  destruct (Z.ltb_spec (num_connections o) (max_connections o)); [|lia]. m_assert.
  rewrite Hf. m_assert. destruct (Z.leb_spec (zlen data) (udp_mtu o)); [|lia]. m_assert.
  destruct malloc as [p|]; [|exists o; split_and!; auto; done].
  specialize (Hfresh p eq_refl). rewrite Hfresh. m_assert.
  destruct (find_unused_conid_spec o Hwf Hlt) as (n & E & Hn & Hunused).
  rewrite (M_bind_run0 _ _ _ _ _ E).
  assert (gw_wf (set_next_conid n o)) as Hwf1 by (destruct Hwf; split; done).
  destruct flow_ok; cbn [negb].
  2: { eexists. split; [reflexivity|]. split; [done|]. split; [by left|done]. }
  m_step. cbn [connections_tree_by_conaddr connections_tree_by_conid set_next_conid].
  rewrite BAVL_Insert_None by exact Hf. rewrite BAVL_Insert_None by exact Hunused.
  eexists. split; [reflexivity|].
  set (c := mkCon a flags data n true false). cbn [heap connections_list num_connections set_next_conid].
  pose proof (proj1 (find_conaddr_None o Hwf a Ha) Hf) as Hna.
  pose proof (proj1 (find_conid_None o Hwf n) Hunused) as Hni.
  assert (p ∉ connections_list o) as Hp.
  { intros Hp. apply (gw_list _ Hwf) in Hp. rewrite Hfresh in Hp. by destruct Hp. }
  assert (∀ q d, <[p:=c]> (heap o) !! q = Some d ↔ (q = p ∧ d = c) ∨ (q ≠ p ∧ heap o !! q = Some d)) as Hlook.
  { intros q d. rewrite lookup_insert_Some. naive_solver. }
  match goal with |- gw_wf ?x ∧ _ => set (o' := x) end.
  assert (view o' = view o ++ [(a, n)]) as Hview.
  { unfold view, o'. cbn. unfold LinkedList1_Append. rewrite omap_app. f_equal.
    - apply omap_ext_in. intros q Hq. unfold entry. cbn. rewrite lookup_insert_ne by naive_solver. done.
    - cbn. unfold entry. cbn. by rewrite lookup_insert_eq. }
  split; [|split].
  - pose proof (gw_heap _ Hwf) as [H1 H2 H3 H4 H5].
    destruct Hwf as [Hm Hx Hnx Hu Hnd Hl _ Ht1 Ht2]. split; subst o'; cbn; try done.
    + destruct Hu as [Hu1 ?]. unfold LinkedList1_Append. rewrite zlen_app, zlen_cons.
      change (zlen (@nil Z)) with 0. lia.
    + unfold LinkedList1_Append. apply list.NoDup_app. split; [done|].
      split; [|apply list.NoDup_singleton]. by intros q Hq ->%list_elem_of_singleton.
    + intros q. unfold LinkedList1_Append. rewrite elem_of_app, list_elem_of_singleton, Hl.
      split.
      * intros [[d Hq]| ->]; [|rewrite lookup_insert_eq; eauto].
        exists d. apply Hlook. right. split; [intros ->; congruence|done].
      * intros [d [[-> ->]|[? ?]]%Hlook]; eauto.
    + split.
      * intros q d [[-> ->]|[_ ?]]%Hlook; eauto.
      * intros q d [[-> ->]|[_ ?]]%Hlook; eauto.
      * intros q d [[-> ->]|[_ ?]]%Hlook; eauto.
      * intros q r d e [[-> ->]|[? ?]]%Hlook [[-> ->]|[? ?]]%Hlook E'; cbn in E'; eauto; exfalso; [symmetry in E'|]; naive_solver.
      * intros q r d e [[-> ->]|[? ?]]%Hlook [[-> ->]|[? ?]]%Hlook E'; cbn in E'; eauto; exfalso; [symmetry in E'|]; naive_solver.
    + intros a' q. rewrite elem_of_app, list_elem_of_singleton, Ht1. setoid_rewrite Hlook. split.
      * intros [(d & Hq & ?)|[= -> ->]]; [|exists c; auto]. exists d. split; [right; split; [intros ->; congruence|done]|done].
      * intros (d & [[-> ->]|[? ?]] & <-); [by right|left; eauto].
    + intros i q. rewrite elem_of_app, list_elem_of_singleton, Ht2. setoid_rewrite Hlook. split.
      * intros [(d & Hq & ?)|[= -> ->]]; [|exists c; auto]. exists d. split; [right; split; [intros ->; congruence|done]|done].
      * intros (d & [[-> ->]|[? ?]] & <-); [by right|left; eauto].
  - right. exists n. split; [done|]. split; [done|]. intros e (q & d & Hq & ->)%elem_of_view; [|done]. cbn. eauto.
  - intros _ _ E'. rewrite Hview in E'. apply (f_equal length) in E'. rewrite length_app in E'. cbn in E'. lia.
Qed.

(** *** reuse_connection *)
Definition rebound (a : UdpGwClient_conaddr) (c : UdpGwClient_connection) : UdpGwClient_connection :=
  mkCon a (first_flags c) (first_data c) (conid c) (first_job c) (send_if c).

Lemma reuse_connection_spec o a p l c :
  gw_wf o → conaddr_ok a → find_connection_by_conaddr o a = None →
  connections_list o = p :: l → heap o !! p = Some c →
  ∃ o', reuse_connection a o = Some (p, o', []) ∧ gw_wf o' ∧ connections_list o' = p :: l ∧
    heap o' = <[p:=rebound a c]> (heap o) ∧ udp_mtu o' = udp_mtu o ∧ max_connections o' = max_connections o ∧
    view o = (conaddr c, conid c) :: omap (entry o) l ∧
    view o' = (a, conid c) :: omap (entry o) l.
Proof.
  intros Hwf Ha Hf Hl Hc. unfold reuse_connection. m_step. rewrite Hf. m_assert.
  pose proof (gw_num _ Hwf) as [Hnum _]. rewrite Hl, zlen_cons in Hnum. pose proof (zlen_nonneg l).
  rewrite Z.gtb_ltb. destruct (Z.ltb_spec 0 (num_connections o)); [|lia]. m_assert. rewrite Hl.
  rewrite (M_bind_run0 _ _ _ _ _ (load_run _ _ _ Hc)). fold (rebound a c).
  unfold store. rewrite M_bind_assoc. m_step. rewrite M_bind_assoc, Hc. m_assert. m_step.
  pose proof (proj1 (find_conaddr_None o Hwf a Ha) Hf) as Hna.
  rewrite BAVL_Insert_None.
  2: { apply BAVL_LookupExact_None.
    - intros k q [Hin _]%elem_of_BAVL_Remove. apply (gw_tree_addr _ Hwf) in Hin as (d & Hd & <-).
      apply conaddr_comparator_eq; [by eapply ho_addr; [apply Hwf|]|done].
    - intros q [Hin _]%elem_of_BAVL_Remove. apply (gw_tree_addr _ Hwf) in Hin as (d & Hd & E). naive_solver. }
  m_step. eexists. split; [reflexivity|].
  assert (∀ q d, <[p:=rebound a c]> (heap o) !! q = Some d ↔
    (q = p ∧ d = rebound a c) ∨ (q ≠ p ∧ heap o !! q = Some d)) as Hlook.
  { intros q d. rewrite lookup_insert_Some. naive_solver. }
  assert (p ∉ l) as Hpl.
  { pose proof (gw_nodup _ Hwf) as Hnd. rewrite Hl in Hnd. by apply list.NoDup_cons in Hnd as [? _]. }
  split; [|split_and!; cbn; try done].
  - pose proof (gw_heap _ Hwf) as [H1 H2 H3 H4 H5].
    destruct Hwf as [Hm Hx Hnx Hu Hnd Hl' _ Ht1 Ht2]. split; cbn; try done.
    + intros q. rewrite Hl'. split.
      * intros [d Hd]. destruct (decide (q = p)) as [->|Hne]; [rewrite lookup_insert_eq|rewrite lookup_insert_ne by done]; eauto.
      * intros [d [[-> ->]|[? ?]]%Hlook]; eauto.
    + split.
      * intros q d [[-> ->]|[_ ?]]%Hlook; eauto.
      * intros q d [[-> ->]|[_ ?]]%Hlook; cbn; eauto.
      * intros q d [[-> ->]|[_ ?]]%Hlook; cbn; eauto.
      * intros q r d e [[-> ->]|[? ?]]%Hlook [[-> ->]|[? ?]]%Hlook E'; cbn in E'; eauto; exfalso; [symmetry in E'|]; naive_solver.
      * intros q r d e [[-> ->]|[? ?]]%Hlook [[-> ->]|[? ?]]%Hlook E'; cbn in E'; eauto.
    + intros a' q. rewrite elem_of_app, list_elem_of_singleton, elem_of_BAVL_Remove, Ht1. setoid_rewrite Hlook. split.
      * intros [((d & Hq & ?) & ?)|[= -> ->]]; [exists d; auto|exists (rebound a c); auto].
      * intros (d & [[-> ->]|[? ?]] & <-); [by right|left; eauto].
    + intros i q. rewrite Ht2. setoid_rewrite Hlook. split.
      * intros (d & Hq & <-). destruct (decide (q = p)) as [->|]; [|exists d; auto].
        exists (rebound a c). split; [by left|]. cbn. congruence.
      * intros (d & [[-> ->]|[? ?]] & <-); eauto.
  - unfold view. rewrite Hl, omap_cons. unfold entry at 1. by rewrite Hc.
  - unfold view. cbn [connections_list set_trees set_heap]. rewrite Hl, omap_cons. unfold entry at 1. cbn [heap set_trees set_heap].
    rewrite lookup_insert_eq. cbn. f_equal. apply omap_ext_in. intros q Hq. unfold entry. cbn.
    rewrite lookup_insert_ne by (intros ->; done). done.
Qed.

(** *** What a submitted packet does to the connections *)

Lemma load_alive o p : gw_wf o → p ∈ connections_list o → ∃ c, heap o !! p = Some c.
Proof. intros Hwf Hp. apply (gw_list _ Hwf) in Hp as [c ?]. by exists c. Qed.

(** The connection of the packet, its flags and the new view, for a packet that is
    sent on an existing connection or takes over the least recently used one. *)
Definition submit_on (o : UdpGwClient) (a : UdpGwClient_conaddr) (flags : Z) (data : bytes)
    (o' : UdpGwClient) (es : list event) (i : Z) (rest : list (UdpGwClient_conaddr * Z)) : Prop :=
  view o' = rest ++ [(a, i)] ∧
  ∃ p c, heap o !! p = Some c ∧ conid c = i ∧
    es = if send_if c then [EndPacket p (udpgw_packet flags i (remote_addr a) data)] else [].

Lemma SubmitPacket_spec o malloc flow_ok local remote (is_dns : bool) data :
  gw_wf o → conaddr_ok (mkConaddr local remote) → zlen data ≤ udp_mtu o →
  (∀ p, malloc = Some p → heap o !! p = None) →
  let a := mkConaddr local remote in
  let flags := if is_dns then UDPGW_CLIENT_FLAG_DNS else 0 in
  ∃ o' es, UdpGwClient_SubmitPacket malloc flow_ok local remote is_dns data o = Some (tt, o', es) ∧ gw_wf o' ∧
    ((∃ i, (a, i) ∈ view o ∧ submit_on o a flags data o' es i (others i (view o))) ∨
     ((∀ i, (a, i) ∉ view o) ∧ num_connections o < max_connections o ∧ es = [] ∧
        (view o' = view o ∧ (malloc = None ∨ flow_ok = false) ∨
         ∃ i, view o' = view o ++ [(a, i)] ∧ 0 ≤ i < max_connections o ∧ (∀ e, e ∈ view o → e.2 ≠ i))) ∨
     ((∀ i, (a, i) ∉ view o) ∧ num_connections o = max_connections o ∧
        ∃ b i v, view o = (b, i) :: v ∧
          submit_on o a (Z.lor flags UDPGW_CLIENT_FLAG_REBIND) data o' es i v)).
Proof.
  intros Hwf Ha Hd Hfresh a flags. subst a.
  unfold UdpGwClient_SubmitPacket. m_step. pose proof Ha as [[_ Hl] [_ Hr]]. cbn in Hl, Hr.
  rewrite Hl. m_assert. rewrite Hr. m_assert. destruct (Z.leb_spec (zlen data) (udp_mtu o)); [|lia]. m_assert.
  assert ((if is_dns then u8 (Z.lor 0 UDPGW_CLIENT_FLAG_DNS) else 0) = flags) as ->
    by (subst flags; by destruct is_dns).
  assert (u8 (Z.lor flags UDPGW_CLIENT_FLAG_REBIND) = Z.lor flags UDPGW_CLIENT_FLAG_REBIND) as ->
    by (subst flags; by destruct is_dns).
  set (a := mkConaddr local remote) in *.
  destruct (find_connection_by_conaddr o a) as [p|] eqn:Hf; cbn [not_null negb andb].
  - destruct (proj1 (find_conaddr_Some o Hwf a p Ha) Hf) as (c & Hc & Hca).
    assert (p ∈ connections_list o) as Hp by (apply (gw_list _ Hwf); eauto).
    destruct (move_connection_spec o p Hwf Hp) as (o1 & E & Hwf1 & Hh1 & Hl1 & Hm1 & _).
    rewrite (M_bind_run0 _ _ _ _ _ E).
    destruct (connection_send_spec o1 p c flags data Hwf1) as (o2 & E2 & Hwf2 & Hv2 & _); [by rewrite Hh1|lia|].
    rewrite E2. do 2 eexists. split; [reflexivity|]. split; [done|]. left. exists (conid c). split.
    { apply elem_of_view; [done|]. exists p, c. by rewrite <-Hca. }
    split; [|exists p, c; rewrite <-Hca; done].
    rewrite Hv2, (view_move o p c o1) by done. by rewrite Hca.
  - assert (∀ i, (a, i) ∉ view o) as Hnv.
    { intros i (p & c & Hc & [= E _])%elem_of_view; [|done].
      by apply (proj1 (find_conaddr_None o Hwf a Ha) Hf p c). }
    pose proof (gw_num _ Hwf) as [Hnum Hle].
    destruct (Z.eqb_spec (num_connections o) (max_connections o)) as [Hfull|Hnf].
    + pose proof (gw_max _ Hwf). destruct (connections_list o) as [|p l] eqn:Hlist.
      { change (zlen (@nil Z)) with 0 in Hnum. lia. }
      destruct (load_alive o p Hwf) as [c Hc]; [rewrite Hlist; by left|].
      destruct (reuse_connection_spec o a p l c Hwf Ha Hf Hlist Hc)
        as (o1 & E & Hwf1 & Hl1 & Hh1 & Hm1 & _ & Hv & Hv1).
      rewrite (M_bind_run0 _ _ _ _ _ E).
      destruct (move_connection_spec o1 p Hwf1) as (o2 & E2 & Hwf2 & Hh2 & Hl2 & Hm2 & _);
        [rewrite Hl1; by left|]. rewrite (M_bind_run0 _ _ _ _ _ E2).
      assert (heap o1 !! p = Some (rebound a c)) as Hc1 by (rewrite Hh1; apply lookup_insert_eq).
      destruct (connection_send_spec o2 p (rebound a c) (Z.lor flags UDPGW_CLIENT_FLAG_REBIND) data Hwf2)
        as (o3 & E3 & Hwf3 & Hv3 & _); [by rewrite Hh2|lia|].
      rewrite E3. do 2 eexists. split; [reflexivity|]. split; [done|]. right. right.
      split; [done|]. split; [done|]. exists (conaddr c), (conid c), (omap (entry o) l). split; [done|].
      split; [|by exists p, c]. rewrite Hv3, (view_move o1 p (rebound a c) o2) by done. cbn [conaddr conid rebound].
      f_equal. rewrite Hv1. unfold others. rewrite filter_cons_False by (cbn; naive_solver).
      assert (∀ e, e ∈ omap (entry o) l → e.2 ≠ conid c) as Hne.
      { intros e (q & Hq & He)%list_elem_of_omap. unfold entry in He.
        destruct (heap o !! q) as [d|] eqn:Hd'; [|done]. cbn in He. simplify_eq. cbn. intros Hi.
        assert (q = p) as -> by (eapply ho_conid_inj; [apply (gw_heap _ Hwf)|done..]).
        pose proof (gw_nodup _ Hwf) as Hnd. rewrite Hlist in Hnd. by apply list.NoDup_cons in Hnd as [? _]. }
      clear -Hne. induction (omap (entry o) l) as [|e v IH]; [done|].
      rewrite filter_cons_True by (apply Hne; by left). rewrite IH; [done|]. intros e' ?. apply Hne. by right.
    + destruct (connection_init_spec o malloc flow_ok a flags data Hwf Ha Hf ltac:(lia) Hd Hfresh)
        as (o1 & E & Hwf1 & Hv & Hok).
      rewrite E. do 2 eexists. split; [reflexivity|]. split; [done|]. right. left.
      split; [done|]. split; [lia|]. split; [done|]. destruct Hv as [Hv|Hv]; [left|by right].
      split; [done|]. destruct malloc as [p|]; [|by left]. right. destruct flow_ok; [|done].
      destruct Hok; done.
Qed.

(** ** Packets from the server *)

(** A packet is delivered only on the connection it names, from the address of
    that connection; every other packet is dropped without a trace. *)
Lemma recv_spec o data :
  gw_wf o → have_server o = true → zlen data ≤ udpgw_mtu o →
  (recv_interface_handler_send data o = Some (tt, o, [])) ∨
  ∃ o' a i d, recv_interface_handler_send data o
      = Some (tt, o', [handler_received (local_addr a) (remote_addr a) d]) ∧
    gw_wf o' ∧ (a, i) ∈ view o ∧ view o' = others i (view o) ++ [(a, i)] ∧
    i = le_val (slice 1 2 data) ∧ zlen d ≤ udp_mtu o.
Proof.
  intros Hwf Hs Hd. unfold recv_interface_handler_send. m_step. rewrite Hs. m_assert.
  destruct (Z.leb_spec (zlen data) (udpgw_mtu o)); [|lia]. m_assert.
  destruct (zlen data <? sizeof_udpgw_header); [by left|].
  destruct (parse_remote _ _) as [[remote d]|]; [|by left].
  rewrite Z.gtb_ltb. destruct (Z.ltb_spec (udp_mtu o) (zlen d)); [by left|].
  set (i := ltoh16 _). destruct (find_connection_by_conid o i) as [p|] eqn:Hf; [|by left].
  apply (find_conid_Some o Hwf) in Hf as (c & Hc & Hi).
  rewrite (M_bind_run0 _ _ _ _ _ (load_run _ _ _ Hc)).
  destruct (negb _); [by left|].
  assert (p ∈ connections_list o) as Hp by (apply (gw_list _ Hwf); eauto).
  destruct (move_connection_spec o p Hwf Hp) as (o1 & E & Hwf1 & Hh1 & Hl1 & _).
  rewrite (M_bind_run0 _ _ _ _ _ E). right.
  exists o1, (conaddr c), i, d. split; [done|]. split; [done|]. split.
  - apply elem_of_view; [done|]. exists p, c. by rewrite Hi.
  - split; [|done]. rewrite (view_move o p c o1) by done. by rewrite Hi.
Qed.

Lemma flag_ipv6_set f : Z.land (u8 (Z.lor f UDPGW_CLIENT_FLAG_IPV6)) UDPGW_CLIENT_FLAG_IPV6 ≠ 0.
Proof.
  intros H. apply (f_equal (λ x, Z.testbit x 3)) in H. unfold u8 in H.
  rewrite Z.land_spec, Z.mod_pow2_bits_low, Z.lor_spec in H by lia.
  cbn in H. by rewrite orb_true_r in H.
Qed.

Lemma le_bytes_app_slices {n m : nat} x y (rest : bytes) :
  slice 0 (Z.of_nat n) (le_bytes n x ++ le_bytes m y ++ rest) = le_bytes n x ∧
  slice (Z.of_nat n) (Z.of_nat m) (le_bytes n x ++ le_bytes m y ++ rest) = le_bytes m y ∧
  zdrop (Z.of_nat n + Z.of_nat m) (le_bytes n x ++ le_bytes m y ++ rest) = rest.
Proof.
  pose proof (zlen_le_bytes n x). pose proof (zlen_le_bytes m y). split_and!.
  - by apply slice_0_app.
  - rewrite slice_app_r, H, Z.sub_diag by lia. by apply slice_0_app.
  - rewrite app_assoc. apply zdrop_app_length'. rewrite zlen_app. lia.
Qed.

(** The address field reads back. *)
Lemma parse_remote_packet flags remote data :
  BAddr_ok remote → is_ip remote = true →
  (Z.land flags UDPGW_CLIENT_FLAG_IPV6 ≠ 0 ↔ BAddr_type remote = BADDR_TYPE_IPV6) →
  parse_remote flags
    (match remote with
     | BAddr_v4 ip port => le_bytes 4 ip ++ le_bytes 2 port
     | BAddr_v6 ip port => ip ++ le_bytes 2 port
     | BAddr_None => []
     end ++ data) = Some (remote, data).
Proof.
  intros Hr Hip Hfl. unfold parse_remote. pose proof (zlen_nonneg data).
  destruct remote as [|ip port|ip port]; [done| |]; cbn in Hr, Hfl.
  - destruct (Z.eqb_spec (Z.land flags UDPGW_CLIENT_FLAG_IPV6) 0); cbn [negb];
      [|match goal with H : _ ≠ 0 |- _ => by apply Hfl in H end].
    rewrite <-!app_assoc. destruct (@le_bytes_app_slices 4 2 ip port data) as (E1 & E2 & E3).
    change (Z.of_nat 4) with 4 in *. change (Z.of_nat 2) with 2 in *.
    unfold sizeof_udpgw_addr_ipv4. change (4 + 2) with 6 in E3. rewrite E1, E2, E3.
    rewrite !zlen_app, !zlen_le_bytes. destruct (Z.ltb_spec (Z.of_nat 4 + (Z.of_nat 2 + zlen data)) 6); [lia|].
    rewrite !le_val_le_bytes, !Z.mod_small by lia. done.
  - destruct (Z.eqb_spec (Z.land flags UDPGW_CLIENT_FLAG_IPV6) 0); cbn [negb];
      [by destruct (proj2 Hfl eq_refl)|].
    destruct Hr as [[Hlen _] Hport]. rewrite <-app_assoc, !zlen_app, zlen_le_bytes, Hlen.
    unfold sizeof_udpgw_addr_ipv6. destruct (Z.ltb_spec (16 + (Z.of_nat 2 + zlen data)) 18); [lia|].
    rewrite slice_0_app by done. rewrite slice_app_r, Hlen by lia. rewrite slice_0_app by done.
    rewrite app_assoc, zdrop_app_length' by (rewrite zlen_app, zlen_le_bytes, Hlen; lia).
    rewrite le_val_le_bytes, Z.mod_small by lia. done.
Qed.

Lemma recv_packet o a i flags data :
  gw_wf o → have_server o = true → (a, i) ∈ view o →
  0 ≤ flags < 256 → Z.land flags UDPGW_CLIENT_FLAG_IPV6 = 0 → zlen data ≤ udp_mtu o →
  ∃ o', recv_interface_handler_send (udpgw_packet flags i (remote_addr a) data) o
      = Some (tt, o', [handler_received (local_addr a) (remote_addr a) data]).
Proof.
  intros Hwf Hs Hv Hfl Hbit Hd. apply (elem_of_view _ _ Hwf) in Hv as (p & c & Hc & [= -> ->]).
  destruct (ho_addr _ _ _ (gw_heap _ Hwf) _ _ Hc) as [_ [Hr Hip]].
  pose proof (ho_conid _ _ _ (gw_heap _ Hwf) _ _ Hc) as Hi. pose proof (gw_max _ Hwf). pose proof (gw_mtu _ Hwf).
  pose proof (zlen_udpgw_packet flags (conid c) (remote_addr (conaddr c)) data Hr) as Hlen.
  set (remote := remote_addr (conaddr c)) in *. unfold recv_interface_handler_send. m_step. rewrite Hs. m_assert.
  destruct (Z.leb_spec (zlen (udpgw_packet flags (conid c) remote data)) (udpgw_mtu o)); [|lia]. m_assert.
  unfold udpgw_packet, ltoh16, htol16 in *.
  set (f := if BAddr_type remote =? BADDR_TYPE_IPV6 then _ else _).
  assert (0 ≤ f < 256) as Hf.
  { subst f. destruct (_ =? _); [|done]. unfold u8. apply Z.mod_pos_bound. lia. }
  assert (Z.land f UDPGW_CLIENT_FLAG_IPV6 ≠ 0 ↔ BAddr_type remote = BADDR_TYPE_IPV6) as Hf6.
  { subst f. destruct (Z.eqb_spec (BAddr_type remote) BADDR_TYPE_IPV6); [|tauto].
    split; [done|]. intros _. apply flag_ipv6_set. }
  match goal with |- context [le_bytes 1 f ++ le_bytes 2 (conid c) ++ ?r] =>
    destruct (@le_bytes_app_slices 1 2 f (conid c) r) as (E1 & E2 & E3) end.
  change (Z.of_nat 1) with 1 in *. change (Z.of_nat 2) with 2 in *. change (1 + 2) with 3 in E3.
  unfold sizeof_udpgw_header. rewrite E1, E2, E3.
  rewrite !le_val_le_bytes, !Z.mod_small by lia.
  rewrite parse_remote_packet by done. rewrite !zlen_app, !zlen_le_bytes.
  match goal with |- context [?x <? 3] => destruct (Z.ltb_spec x 3) as [Hlt|_] end.
  { exfalso. revert Hlt. pose proof (zlen_nonneg data).
    match goal with |- context [zlen (match remote with BAddr_None => _ | _ => _ end)] =>
      pose proof (zlen_nonneg (match remote with BAddr_None => [] | BAddr_v4 ip port => le_bytes 4 ip ++ le_bytes 2 port
       | BAddr_v6 ip port => ip ++ le_bytes 2 port end)) end. lia. }
  rewrite Z.gtb_ltb. destruct (Z.ltb_spec (udp_mtu o) (zlen data)); [lia|].
  rewrite (proj2 (find_conid_Some o Hwf (conid c) p)) by eauto.
  rewrite (M_bind_run0 _ _ _ _ _ (load_run _ _ _ Hc)).
  rewrite (proj2 (BAddr_CompareOrder_0 (remote_addr (conaddr c)) remote Hr Hr) eq_refl). cbn [negb Z.eqb].
  assert (p ∈ connections_list o) as Hp by (apply (gw_list _ Hwf); eauto).
  destruct (move_connection_spec o p Hwf Hp) as (o1 & E & _).
  rewrite (M_bind_run0 _ _ _ _ _ E). by exists o1.
Qed.

(** ** Init, Free and the invariant of every step *)

Lemma udpgw_compute_mtu_spec mtu :
  0 ≤ mtu ≤ INT_MAX →
  udpgw_compute_mtu mtu = if 22 + mtu <=? INT_MAX then 22 + mtu else -1.
Proof.
  intros Hm. unfold udpgw_compute_mtu.
  assert (bsize_fromint mtu = bsize_fromsize mtu) as ->.
  { unfold bsize_fromint, bsize_fromsize, INT_MAX in *. rewrite u64_small by (unfold SIZE_MAX, UINT64_MAX; lia).
    f_equal. rewrite Z.gtb_ltb. unfold SIZE_MAX, UINT64_MAX. repeat zcase. }
  change (bsize_max _ _) with (bsize_fromsize 18). unfold INT_MAX in *.
  rewrite !bsize_add_small by (unfold sizeof_socks_udp_header, SIZE_MAX, UINT64_MAX; lia).
  unfold bsize_toint, bsize_fromsize, sizeof_socks_udp_header, INT_MAX. cbn [is_overflow bvalue orb].
  rewrite Z.gtb_ltb. destruct (Z.ltb_spec 2147483647 (4 + (18 + mtu))), (Z.leb_spec (22 + mtu) 2147483647); lia.
Qed.

Lemma UdpGw_Init_wf mtu max send_size o :
  mtu ≤ INT_MAX → UdpGwClient_Init mtu max send_size true = Some (Some o) → gw_wf o.
Proof.
  intros Hm. unfold UdpGwClient_Init. repeat case_match; try done; intros [= <-]; zbool;
    rewrite udpgw_compute_mtu_spec in * by lia; unfold INT_MAX, PACKETPROTO_MAXPAYLOAD, UINT16_MAX in *;
    repeat case_match; zbool; try lia.
  all: split; cbn; rewrite ?udpgw_compute_mtu_spec by (unfold INT_MAX; lia); unfold INT_MAX, PACKETPROTO_MAXPAYLOAD, UINT16_MAX.
  all: try (split; intros *; rewrite ?lookup_empty; done).
  all: try (intros; rewrite lookup_empty; split; [by intros ?%elem_of_nil|by intros []]).
  all: try (intros; setoid_rewrite lookup_empty; split; [by intros ?%elem_of_nil|by intros (? & ? & ?)]).
  all: try lia; try constructor.
  all: first [done | lia].
Qed.

(** What the surroundings of the client may do. *)
Definition legal (o : UdpGwClient) (i : input) : Prop :=
  match i with
  | Submit malloc _ local remote _ data =>
      conaddr_ok (mkConaddr local remote) ∧ zlen data ≤ udp_mtu o ∧
      (∀ p, malloc = Some p → heap o !! p = None)
  | FirstJob p => ∃ c, heap o !! p = Some c ∧ first_job c = true
  | WriterReady p => ∃ c, heap o !! p = Some c ∧ send_if c = false
  | Received data => have_server o = true ∧ zlen data ≤ udpgw_mtu o
  | DecoderError | Disconnect => have_server o = true
  | Monitor => True
  | KeepaliveDone => keepalive_sending o = true
  | Connect _ => have_server o = false
  end.

Lemma gw_wf_flags k s o : gw_wf o → gw_wf (set_flags k s o).
Proof. intros []. split; done. Qed.

Lemma UdpGw_step_wf o i :
  gw_wf o → legal o i → ∃ o' es, step i o = Some (tt, o', es) ∧ gw_wf o'.
Proof.
  intros Hwf Hl. destruct i as [malloc flow_ok local remote is_dns data|p|p|data| | | |ok|]; cbn in Hl.
  - destruct Hl as (Ha & Hd & Hf).
    destruct (SubmitPacket_spec o malloc flow_ok local remote is_dns data Hwf Ha Hd Hf) as (o' & es & ? & ? & _).
    by exists o', es.
  - destruct Hl as (c & Hc & Hj). cbn [step]. rewrite (M_bind_run0 _ _ _ _ _ (load_run _ _ _ Hc)), Hj. m_assert.
    set (c' := mkCon _ _ _ _ _ _). destruct (store_spec o p c c' Hwf Hc) as (E & Hwf1 & _); [done|].
    rewrite (M_bind_run0 _ _ _ _ _ E). unfold connection_first_job_handler.
    assert (heap (set_heap (<[p:=c']> (heap o)) o) !! p = Some c') as Hc' by apply lookup_insert_eq.
    rewrite (M_bind_run0 _ _ _ _ _ (load_run _ _ _ Hc')).
    destruct (connection_send_spec _ p c' (Z.lor UDPGW_CLIENT_FLAG_REBIND (first_flags c')) (first_data c') Hwf1 Hc')
      as (o2 & E2 & Hwf2 & _); [|by rewrite E2; eauto].
    exact (ho_data _ _ _ (gw_heap _ Hwf) _ _ Hc).
  - destruct Hl as (c & Hc & Hj). cbn [step]. rewrite (M_bind_run0 _ _ _ _ _ (load_run _ _ _ Hc)), Hj. m_assert.
    set (c' := mkCon _ _ _ _ _ _). destruct (store_spec o p c c' Hwf Hc) as (E & Hwf1 & _); [done|]. eauto.
  - destruct Hl as [Hs Hd]. cbn [step]. destruct (recv_spec o data Hwf Hs Hd) as [E|(o' & a & i & d & E & ? & _)]; eauto.
  - cbn [step]. unfold decoder_handler_error. m_step. rewrite Hl. m_assert. by eexists _, _.
  - cbn [step]. unfold send_monitor_handler. m_step. destruct (keepalive_sending o); [by eexists _, _|].
    eexists _, _. split; [reflexivity|]. by apply gw_wf_flags.
  - cbn [step]. unfold keepalive_if_handler_done. m_step. rewrite Hl. m_assert.
    eexists _, _. split; [reflexivity|]. by apply gw_wf_flags.
  - cbn [step]. unfold UdpGwClient_ConnectServer. rewrite M_bind_assoc. m_step. rewrite Hl, M_bind_assoc. m_assert.
    destruct ok; cbn [negb]; [|by eexists _, _].
    eexists _, _. split; [reflexivity|]. by apply gw_wf_flags.
  - cbn [step]. unfold UdpGwClient_DisconnectServer. m_step. rewrite Hl. m_assert.
    eexists _, _. split; [reflexivity|]. by apply gw_wf_flags.
Qed.

(** Runs all of whose inputs are legal. *)
Inductive reachable (o0 : UdpGwClient) : UdpGwClient → Prop :=
| reach_refl : reachable o0 o0
| reach_step o i u o' es :
    reachable o0 o → legal o i → step i o = Some (u, o', es) → reachable o0 o'.

Lemma reachable_wf o0 o : gw_wf o0 → reachable o0 o → gw_wf o.
Proof.
  intros H0. induction 1 as [|o i u o' es Hr IH Hl Hs]; [done|].
  destruct (UdpGw_step_wf o i IH Hl) as (? & ? & E & ?). rewrite Hs in E. by simplify_eq.
Qed.

Lemma connection_free_spec o p l :
  gw_wf o → connections_list o = p :: l →
  ∃ o', connection_free p o = Some (tt, o', [connection_freed p]) ∧ gw_wf o' ∧
    connections_list o' = l ∧ have_server o' = have_server o.
Proof.
  intros Hwf Hl. destruct (load_alive o p Hwf) as [c Hc]; [rewrite Hl; by left|].
  unfold connection_free. rewrite (M_bind_run0 _ _ _ _ _ (load_run _ _ _ Hc)). m_step. m_step.
  eexists. split; [reflexivity|].
  assert (p ∉ l ∧ NoDup l) as [Hpl Hndl].
  { pose proof (gw_nodup _ Hwf) as Hnd. rewrite Hl in Hnd. by apply list.NoDup_cons in Hnd. }
  assert (LinkedList1_Remove (connections_list o) p = l) as Hrem.
  { rewrite Hl. unfold LinkedList1_Remove. cbn. rewrite Z.eqb_refl. cbn. by apply LinkedList1_Remove_id. }
  split; [|done].
  assert (∀ q d, delete p (heap o) !! q = Some d ↔ q ≠ p ∧ heap o !! q = Some d) as Hlook.
  { intros q d. rewrite lookup_delete_Some. naive_solver. }
  pose proof (gw_heap _ Hwf) as [H1 H2 H3 H4 H5].
  destruct Hwf as [Hm Hx Hnx Hu Hnd Hl' _ Ht1 Ht2]. split; cbn; rewrite ?Hrem; try done.
  - rewrite Hl, zlen_cons in Hu. lia.
  - intros q. split.
    + intros Hq. assert (q ≠ p) by (intros ->; done). rewrite lookup_delete_ne by done.
      apply Hl'. rewrite Hl. by right.
    + intros [d [Hne Hd]%Hlook]. assert (q ∈ connections_list o) as Hin by (apply Hl'; eauto).
      rewrite Hl in Hin. by apply elem_of_cons in Hin as [->|].
  - split.
    + intros q d [? ?]%Hlook. eauto.
    + intros q d [? ?]%Hlook. eauto.
    + intros q d [? ?]%Hlook. eauto.
    + intros q r d e [? ?]%Hlook [? ?]%Hlook. eauto.
    + intros q r d e [? ?]%Hlook [? ?]%Hlook. eauto.
  - intros a q. rewrite elem_of_BAVL_Remove, Ht1. setoid_rewrite Hlook. naive_solver.
  - intros i q. rewrite elem_of_BAVL_Remove, Ht2. setoid_rewrite Hlook. naive_solver.
Qed.

Lemma free_connections_S f :
  free_connections (S f) =
    (o ← get;
     match connections_list o with
     | [] => mret tt
     | con :: _ => connection_free con;; free_connections f
     end).
Proof. done. Qed.

Lemma free_connections_spec l : ∀ o,
  gw_wf o → connections_list o = l →
  ∃ o', free_connections (S (length l)) o = Some (tt, o', map connection_freed l) ∧ gw_wf o' ∧
    connections_list o' = [] ∧ have_server o' = have_server o.
Proof.
  induction l as [|p l IH]; intros o Hwf Hl.
  - exists o. rewrite free_connections_S. m_step. by rewrite Hl.
  - destruct (connection_free_spec o p l Hwf Hl) as (o1 & E & Hwf1 & Hl1 & Hs1).
    destruct (IH o1 Hwf1 Hl1) as (o2 & E2 & Hwf2 & Hl2 & Hs2).
    exists o2. cbn [length]. rewrite free_connections_S. m_step. rewrite Hl, (M_bind_run _ _ _ _ _ _ E).
    rewrite E2. cbn. split_and!; [done..|congruence].
Qed.

Lemma view_NoDup o : gw_wf o → NoDup ((view o).*1) ∧ NoDup ((view o).*2).
Proof.
  intros Hwf. pose proof (gw_heap _ Hwf) as [_ _ _ H4 H5]. unfold view.
  pose proof (gw_nodup _ Hwf) as Hnd. induction Hnd as [|p l Hp Hl [IH1 IH2]]; [split; constructor|].
  rewrite omap_cons. destruct (entry o p) as [e|] eqn:He; [|done].
  assert (∀ e', e' ∈ omap (entry o) l → e'.1 ≠ e.1 ∧ e'.2 ≠ e.2) as Hne.
  { intros e' (q & Hq & He')%list_elem_of_omap. unfold entry in He, He'.
    destruct (heap o !! p) as [c|] eqn:Hc; [|done]. destruct (heap o !! q) as [d|] eqn:Hd; [|done].
    cbn in He, He'. simplify_eq. cbn. split; intros E; destruct Hp; [rewrite <-(H4 q p d c)|rewrite <-(H5 q p d c)]; done. }
  cbn. split; constructor; auto; intros (e' & E & Hin)%list_elem_of_fmap; destruct (Hne e' Hin); congruence.
Qed.

(** ** Properties *)

(** C6: the tables of the client stay consistent and none of its assertions can
    fail.  After any sequence of packets submitted and received, buffers offered,
    keepalives, connections to the gateway and losses of it, there are at most
    [max_connections] (never more than 65536) connections, no two of them have the
    same addresses or the same identifier, and every further step completes. *)
Theorem UdpGwClient_safe mtu max send_size o0 o :
  mtu ≤ INT_MAX → UdpGwClient_Init mtu max send_size true = Some (Some o0) → reachable o0 o →
  zlen (view o) = num_connections o ∧ num_connections o ≤ max_connections o ≤ 65536 ∧
  NoDup ((view o).*1) ∧ NoDup ((view o).*2) ∧
  (∀ e, e ∈ view o → 0 ≤ e.2 < max_connections o) ∧
  (∀ i, legal o i → is_Some (step i o)).
Proof.
  intros Hm Hinit Hr. pose proof (reachable_wf _ _ (UdpGw_Init_wf _ _ _ _ Hm Hinit) Hr) as Hwf.
  pose proof (gw_max _ Hwf). pose proof (gw_num _ Hwf). destruct (view_NoDup o Hwf).
  split_and!; try done; try lia.
  - by apply zlen_view.
  - intros e (p & c & Hc & ->)%elem_of_view; [|done]. exact (ho_conid _ _ _ (gw_heap _ Hwf) _ _ Hc).
  - intros i Hl. destruct (UdpGw_step_wf o i Hwf Hl) as (? & ? & -> & _). done.
Qed.

Definition addr1 : BAddr := BAddr_v4 167772170 13568.
Definition addr2 : BAddr := BAddr_v4 134744072 13568.
Definition addr3 : BAddr := BAddr_v6 [32;1;72;96;72;96;0;0;0;0;0;0;0;0;136;136] 13568.
Definition gw0 (max : Z) : UdpGwClient := mkGw 100 max 4 122 124 [] [] [] 0 0 false false ∅.
Definition run_state (r : option (unit * UdpGwClient * list event)) (o : UdpGwClient) : UdpGwClient :=
  match r with Some (_, o', _) => o' | None => o end.
Definition gw1 : UdpGwClient :=
  run_state (step (Submit (Some 1000) true addr1 addr2 true [1; 2; 3]) (gw0 2)) (gw0 2).

(** Whether an input is legal is decided by evaluation on concrete inputs. *)
Ltac submit_legal_tac :=
  split; [unfold conaddr_ok; cbn; split_and?; first [lia|done|apply bytes_okb_spec; by vm_compute]|];
  split; [by vm_compute|intros p; try discriminate; intros [= <-]; by vm_compute].

Lemma submit_legal : legal (gw0 2) (Submit (Some 1000) true addr1 addr2 true [1; 2; 3]).
Proof. submit_legal_tac. Qed.
Lemma gw1_reachable : reachable (gw0 2) gw1.
Proof.
  eapply (reach_step _ _ (Submit (Some 1000) true addr1 addr2 true [1; 2; 3]));
    [apply reach_refl|exact submit_legal|vm_compute; reflexivity].
Qed.

Lemma UdpGwClient_safe_witness :
  UdpGwClient_Init 100 2 4 true = Some (Some (gw0 2)) ∧
  NoDup ((view gw1).*1) ∧ num_connections gw1 = 1.
Proof.
  split; [vm_compute; reflexivity|]. split; [|vm_compute; reflexivity].
  apply (UdpGwClient_safe 100 2 4 (gw0 2) gw1); [done|vm_compute; reflexivity|exact gw1_reachable].
Defined.

(** Allocating an identifier terminates: whenever there is room for one more
    connection, at most [max_connections] iterations of the loop find an identifier
    below [max_connections] that no connection uses. *)
Theorem UdpGwClient_conid_terminates mtu max send_size o0 o :
  mtu ≤ INT_MAX → UdpGwClient_Init mtu max send_size true = Some (Some o0) → reachable o0 o →
  num_connections o < max_connections o →
  ∃ n o', find_unused_conid o = Some (n, o', []) ∧ 0 ≤ n < max_connections o ∧
    (∀ e, e ∈ view o → e.2 ≠ n) ∧ view o' = view o.
Proof.
  intros Hm Hinit Hr Hlt. pose proof (reachable_wf _ _ (UdpGw_Init_wf _ _ _ _ Hm Hinit) Hr) as Hwf.
  destruct (find_unused_conid_spec o Hwf Hlt) as (n & E & Hn & Hf).
  eexists n, _. split; [exact E|]. split; [done|]. split; [|done].
  intros e (p & c & Hc & ->)%elem_of_view; [|done]. cbn.
  by apply (proj1 (find_conid_None o Hwf n) Hf p c).
Qed.

Lemma UdpGwClient_conid_terminates_witness :
  num_connections gw1 < max_connections gw1 ∧
  ∃ n o', find_unused_conid gw1 = Some (n, o', []) ∧ 0 ≤ n < max_connections gw1 ∧
    (∀ e, e ∈ view gw1 → e.2 ≠ n) ∧ view o' = view gw1.
Proof.
  split; [by vm_compute|].
  apply (UdpGwClient_conid_terminates 100 2 4 (gw0 2) gw1);
    [done|vm_compute; reflexivity|exact gw1_reachable|by vm_compute].
Defined.

(** C7: submitting a packet implements a table of connections with least recently
    used replacement.  On the list of (addresses, identifier), the least recently
    used first: a packet of a known flow goes out on its connection, which becomes
    the most recently used; a packet of a new flow opens a connection with an
    unused identifier while there is room (or is dropped when resources run out);
    otherwise the least recently used connection is given to the new flow and its
    packet is flagged so that the gateway forgets the old one.  Nothing else in
    the list changes, and the packet goes out exactly when the connection has a
    buffer for it. *)
Theorem UdpGwClient_SubmitPacket_lru mtu max send_size o0 o malloc flow_ok local remote (is_dns : bool) data :
  mtu ≤ INT_MAX → UdpGwClient_Init mtu max send_size true = Some (Some o0) → reachable o0 o →
  legal o (Submit malloc flow_ok local remote is_dns data) →
  let a := mkConaddr local remote in
  let flags := if is_dns then UDPGW_CLIENT_FLAG_DNS else 0 in
  ∃ o' es, UdpGwClient_SubmitPacket malloc flow_ok local remote is_dns data o = Some (tt, o', es) ∧
    ((∃ i, (a, i) ∈ view o ∧ submit_on o a flags data o' es i (others i (view o))) ∨
     ((∀ i, (a, i) ∉ view o) ∧ num_connections o < max_connections o ∧ es = [] ∧
        (view o' = view o ∧ (malloc = None ∨ flow_ok = false) ∨
         ∃ i, view o' = view o ++ [(a, i)] ∧ 0 ≤ i < max_connections o ∧ (∀ e, e ∈ view o → e.2 ≠ i))) ∨
     ((∀ i, (a, i) ∉ view o) ∧ num_connections o = max_connections o ∧
        ∃ b i v, view o = (b, i) :: v ∧
          submit_on o a (Z.lor flags UDPGW_CLIENT_FLAG_REBIND) data o' es i v)).
Proof.
  intros Hm Hinit Hr (Ha & Hd & Hf) a flags.
  pose proof (reachable_wf _ _ (UdpGw_Init_wf _ _ _ _ Hm Hinit) Hr) as Hwf.
  destruct (SubmitPacket_spec o malloc flow_ok local remote is_dns data Hwf Ha Hd Hf)
    as (o' & es & E & _ & Hcases). by exists o', es.
Qed.

Lemma UdpGwClient_SubmitPacket_lru_witness :
  ∃ o' es, UdpGwClient_SubmitPacket None true addr1 addr2 false [7] gw1 = Some (tt, o', es).
Proof.
  destruct (UdpGwClient_SubmitPacket_lru 100 2 4 (gw0 2) gw1 None true addr1 addr2 false [7])
    as (o' & es & E & _); [done|vm_compute; reflexivity|exact gw1_reachable| |by exists o', es].
  submit_legal_tac.
Defined.

(** A reply reaches the flow it belongs to.  A packet that carries the
    identifier and the remote address of a connection, built the way the client
    builds its own packets, is delivered to the local address of this connection,
    with the remote address and the data unchanged, for both address families. *)
Theorem UdpGwClient_roundtrip mtu max send_size o0 o a i flags data :
  mtu ≤ INT_MAX → UdpGwClient_Init mtu max send_size true = Some (Some o0) → reachable o0 o →
  have_server o = true → (a, i) ∈ view o →
  0 ≤ flags < 256 → Z.land flags UDPGW_CLIENT_FLAG_IPV6 = 0 → zlen data ≤ udp_mtu o →
  ∃ o', recv_interface_handler_send (udpgw_packet flags i (remote_addr a) data) o
      = Some (tt, o', [handler_received (local_addr a) (remote_addr a) data]).
Proof.
  intros Hm Hinit Hr. pose proof (reachable_wf _ _ (UdpGw_Init_wf _ _ _ _ Hm Hinit) Hr) as Hwf.
  by apply recv_packet.
Qed.

Definition gw_inputs : list input :=
  [Connect true; Submit (Some 1000) true addr1 addr3 false [1; 2]].
Definition gw2 : UdpGwClient := run_state (runs step gw_inputs (gw0 2)) (gw0 2).
Lemma gw2_reachable : reachable (gw0 2) gw2.
Proof.
  eapply (reach_step _ _ (Submit (Some 1000) true addr1 addr3 false [1; 2]));
    [eapply (reach_step _ _ (Connect true)); [apply reach_refl|done|vm_compute; reflexivity]
    | |vm_compute; reflexivity].
  submit_legal_tac.
Qed.

Lemma UdpGwClient_roundtrip_witness :
  ∃ o', recv_interface_handler_send (udpgw_packet 0 0 addr3 [9; 9]) gw2
      = Some (tt, o', [handler_received addr1 addr3 [9; 9]]).
Proof.
  apply (UdpGwClient_roundtrip 100 2 4 (gw0 2) gw2 (mkConaddr addr1 addr3) 0 0 [9; 9]);
    [done|vm_compute; reflexivity|exact gw2_reachable|vm_compute; reflexivity| |lia|reflexivity|by vm_compute].
  vm_compute. left.
Defined.

(** The client does not trust the gateway.  Whatever packet arrives, either it
    is dropped and nothing changes, or it is delivered to the local address of the
    connection whose identifier it carries, as coming from that connection's remote
    address, with at most [udp_mtu] bytes of data; the only change is that this
    connection becomes the most recently used. *)
Theorem UdpGwClient_receive mtu max send_size o0 o data :
  mtu ≤ INT_MAX → UdpGwClient_Init mtu max send_size true = Some (Some o0) → reachable o0 o →
  legal o (Received data) →
  recv_interface_handler_send data o = Some (tt, o, []) ∨
  ∃ o' a i d, recv_interface_handler_send data o
      = Some (tt, o', [handler_received (local_addr a) (remote_addr a) d]) ∧
    (a, i) ∈ view o ∧ view o' = others i (view o) ++ [(a, i)] ∧
    i = le_val (slice 1 2 data) ∧ zlen d ≤ udp_mtu o.
Proof.
  intros Hm Hinit Hr [Hs Hd]. pose proof (reachable_wf _ _ (UdpGw_Init_wf _ _ _ _ Hm Hinit) Hr) as Hwf.
  destruct (recv_spec o data Hwf Hs Hd) as [E|(o' & a & i & d & E & _ & H)]; [by left|right].
  by exists o', a, i, d.
Qed.

Lemma UdpGwClient_receive_witness :
  recv_interface_handler_send [8; 5; 0] gw2 = Some (tt, gw2, []) ∨
  ∃ o' a i d, recv_interface_handler_send [8; 5; 0] gw2
      = Some (tt, o', [handler_received (local_addr a) (remote_addr a) d]) ∧
    (a, i) ∈ view gw2 ∧ view o' = others i (view gw2) ++ [(a, i)] ∧
    i = le_val (slice 1 2 [8; 5; 0]) ∧ zlen d ≤ udp_mtu gw2.
Proof.
  apply (UdpGwClient_receive 100 2 4 (gw0 2) gw2);
    [done|vm_compute; reflexivity|exact gw2_reachable|by vm_compute].
Defined.

(** C8: freeing the client frees every connection, in the order of the list and
    each once, and then the connection to the gateway if there is one; the loop
    ends after one iteration per connection. *)
Theorem UdpGwClient_Free_all mtu max send_size o0 o :
  mtu ≤ INT_MAX → UdpGwClient_Init mtu max send_size true = Some (Some o0) → reachable o0 o →
  ∃ o', UdpGwClient_Free o = Some (tt, o',
      map connection_freed (connections_list o) ++ (if have_server o then [server_free] else [])) ∧
    connections_list o' = [] ∧ heap o' = ∅ ∧ num_connections o' = 0.
Proof.
  intros Hm Hinit Hr. pose proof (reachable_wf _ _ (UdpGw_Init_wf _ _ _ _ Hm Hinit) Hr) as Hwf.
  unfold UdpGwClient_Free. m_step.
  destruct (free_connections_spec (connections_list o) o Hwf eq_refl) as (o' & E & Hwf' & Hl' & Hs').
  rewrite (M_bind_run _ _ _ _ _ _ E). exists o'. split; [by destruct (have_server o)|].
  split; [done|]. split.
  - apply map_empty. intros p. destruct (heap o' !! p) as [c|] eqn:Hc; [|done].
    assert (p ∈ connections_list o') as Hp by (apply (gw_list _ Hwf'); eauto).
    rewrite Hl' in Hp. by apply elem_of_nil in Hp.
  - destruct (gw_num _ Hwf') as [-> _]. by rewrite Hl'.
Qed.

Lemma UdpGwClient_Free_all_witness :
  ∃ o', UdpGwClient_Free gw2 = Some (tt, o', [connection_freed 1000; server_free]) ∧
    connections_list o' = [] ∧ heap o' = ∅ ∧ num_connections o' = 0.
Proof.
  apply (UdpGwClient_Free_all 100 2 4 (gw0 2) gw2); [done|vm_compute; reflexivity|exact gw2_reachable].
Defined.

(** The packet that asks the gateway to forget the old flow can be lost: when the
    connection taken over has no buffer, the packet is dropped, and the next packet
    of the new flow goes out without the flag. *)
Example rebind_lost :
  (λ r, match r with Some (_, _, es) => es | None => [] end)
    (runs step [Submit (Some 1) true addr1 addr2 false [1]; WriterReady 1; FirstJob 1;
       Submit None true addr2 addr2 false [2]; WriterReady 1;
       Submit None true addr2 addr2 false [3]] (gw0 1))
  = [EndPacket 1 (udpgw_packet UDPGW_CLIENT_FLAG_REBIND 0 addr2 [1]);
     EndPacket 1 (udpgw_packet 0 0 addr2 [3])].
Proof. vm_compute. reflexivity. Qed.
