(* ===== verification/FairQueue.v ===== *)
(** * Fair queue of packets

    [flow/PacketPassFairQueue.c], [flow/PacketPassFairQueue.h]: flows share an
    output.  A flow has a time, which grows with the packets it sends; the queued
    flow with the smallest time sends next.  Times are 64-bit; when the time of the
    flow that sent would overflow, all times are moved back.

    Flows are objects of a heap.  The tree of queued flows is the list of its
    nodes in order; [SAvl] searches with [compare_flows] on the times the flows
    have at that moment. *)

From Stdlib Require Import Sorted.
From S2P Require Import Prelude CInt.

Definition FAIRQUEUE_MAX_TIME : Z := UINT64_MAX.

Record PacketPassFairQueueFlow := mkFlow {
  time : Z;
  is_queued : bool;
  queued_data : Z;
  queued_data_len : Z;
  handler_busy : bool;          (** whether a busy handler is set *)
}.

Record PacketPassFairQueue := mkQueue {
  output_mtu : Z;               (** [PacketPassInterface_GetMTU(m->output)] *)
  use_cancel : bool;
  packet_weight : Z;
  sending_flow : option Z;
  sending_len : Z;
  previous_flow : option Z;
  queued_tree : list Z;
  flows_list : list Z;
  freeing : bool;
  schedule_job : bool;          (** [BPending_IsSet(&m->schedule_job)] *)
  heap : gmap Z PacketPassFairQueueFlow;
}.

(** Calls of the queue: a packet goes to the output ([flow] is the flow it came
    from), the packet of a flow is done, the busy handler of a flow is called, the
    output is asked to cancel. *)
Inductive event :=
| output_send (flow : Z) (data data_len : Z)
| input_done (flow : Z)
| call_busy (flow : Z)
| request_cancel.

Abbreviation Q := (M PacketPassFairQueue event).

Definition set_heap h (m : PacketPassFairQueue) : PacketPassFairQueue :=
  mkQueue (output_mtu m) (use_cancel m) (packet_weight m) (sending_flow m) (sending_len m)
    (previous_flow m) (queued_tree m) (flows_list m) (freeing m) (schedule_job m) h.
Definition set_sending s len (m : PacketPassFairQueue) : PacketPassFairQueue :=
  mkQueue (output_mtu m) (use_cancel m) (packet_weight m) s len
    (previous_flow m) (queued_tree m) (flows_list m) (freeing m) (schedule_job m) (heap m).
Definition set_previous p (m : PacketPassFairQueue) : PacketPassFairQueue :=
  mkQueue (output_mtu m) (use_cancel m) (packet_weight m) (sending_flow m) (sending_len m)
    p (queued_tree m) (flows_list m) (freeing m) (schedule_job m) (heap m).
Definition set_tree t (m : PacketPassFairQueue) : PacketPassFairQueue :=
  mkQueue (output_mtu m) (use_cancel m) (packet_weight m) (sending_flow m) (sending_len m)
    (previous_flow m) t (flows_list m) (freeing m) (schedule_job m) (heap m).
Definition set_flows l (m : PacketPassFairQueue) : PacketPassFairQueue :=
  mkQueue (output_mtu m) (use_cancel m) (packet_weight m) (sending_flow m) (sending_len m)
    (previous_flow m) (queued_tree m) l (freeing m) (schedule_job m) (heap m).
Definition set_freeing b (m : PacketPassFairQueue) : PacketPassFairQueue :=
  mkQueue (output_mtu m) (use_cancel m) (packet_weight m) (sending_flow m) (sending_len m)
    (previous_flow m) (queued_tree m) (flows_list m) b (schedule_job m) (heap m).
Definition set_job b (m : PacketPassFairQueue) : PacketPassFairQueue :=
  mkQueue (output_mtu m) (use_cancel m) (packet_weight m) (sending_flow m) (sending_len m)
    (previous_flow m) (queued_tree m) (flows_list m) (freeing m) b (heap m).

Definition set_time t (f : PacketPassFairQueueFlow) : PacketPassFairQueueFlow :=
  mkFlow t (is_queued f) (queued_data f) (queued_data_len f) (handler_busy f).
Definition set_queued b d len (f : PacketPassFairQueueFlow) : PacketPassFairQueueFlow :=
  mkFlow (time f) b d len (handler_busy f).
Definition set_busy b (f : PacketPassFairQueueFlow) : PacketPassFairQueueFlow :=
  mkFlow (time f) (is_queued f) (queued_data f) (queued_data_len f) b.

(** [*flow]; an access to a freed flow is an error *)
Definition load (flow : Z) : Q PacketPassFairQueueFlow :=
  m ← get;
  match heap m !! flow with Some f => mret f | None => unreachable end.
Definition store (flow : Z) (f : PacketPassFairQueueFlow) : Q unit :=
  m ← get; ASSERT (not_null (heap m !! flow));; put (set_heap (<[flow := f]> (heap m)) m).

(** ** The tree of queued flows *)

Definition flow_time (h : gmap Z PacketPassFairQueueFlow) (flow : Z) : Z :=
  match h !! flow with Some f => time f | None => 0 end.
Definition compare_flows (h : gmap Z PacketPassFairQueueFlow) (f1 f2 : Z) : Z :=
  let cmp := B_COMPARE (flow_time h f1) (flow_time h f2) in
  if negb (cmp =? 0) then cmp else B_COMPARE f1 f2.

(** [Tree_Insert] fails when the node is there *)
Fixpoint Tree_Insert (cmp : Z → Z → Z) (p : Z) (t : list Z) : option (list Z) :=
  match t with
  | [] => Some [p]
  | q :: t' =>
      let c := cmp p q in
      if c =? 0 then None
      else if c <? 0 then Some (p :: q :: t')
      else cons q <$> Tree_Insert cmp p t'
  end.
Definition Tree_GetFirst (t : list Z) : option Z := head t.
Definition Tree_Remove (t : list Z) (p : Z) : list Z := filter (λ q, q ≠ p) t.
Definition Tree_IsEmpty (t : list Z) : bool := negb (not_null (head t)).

(** ** Functions of PacketPassFairQueue.c *)

Definition get_current_time : Q Z :=
  m ← get;
  match sending_flow m with
  | Some s => f ← load s; mret (time f)
  | None =>
      '(time1, have) ←
        match Tree_GetFirst (queued_tree m) with
        | Some first_flow =>
            f ← load first_flow;
            ASSERT (is_queued f);;
            mret (time f, true)
        | None => mret (0, false)
        end;
      '(time1, have) ←
        match previous_flow m with
        | Some p =>
            f ← load p;
            mret (if negb have || (time f <? time1) then (time f, true) else (time1, have))
        | None => mret (time1, have)
        end;
      mret (if (have : bool) then time1 else 0)
  end.

(** the loop of [increment_sent_flow] over the list of flows *)
Fixpoint subtract_flows (subtract : Z) (flow : Z) (l : list Z) : Q unit :=
  match l with
  | [] => mret tt
  | someflow :: l' =>
      f ← load someflow;
      (if (subtract >? time f) && negb (someflow =? flow) then
         ASSERT (negb (is_queued f));; store someflow (set_time 0 f)
       else store someflow (set_time (u64 (time f - subtract)) f));;
      subtract_flows subtract flow l'
  end.

Definition increment_sent_flow (flow : Z) (amount : Z) : Q unit :=
  m ← get;
  f ← load flow;
  ASSERT (amount <=? FAIRQUEUE_MAX_TIME);;
  ASSERT (negb (is_queued f));;
  ASSERT (negb (not_null (sending_flow m)));;
  when (amount >? FAIRQUEUE_MAX_TIME - time f)
    (subtract ←
       match Tree_GetFirst (queued_tree m) with
       | None => mret (time f)
       | Some first_flow =>
           g ← load first_flow; ASSERT (is_queued g);; mret (time g)
       end;
     subtract_flows subtract flow (flows_list m));;
  f ← load flow;
  store flow (set_time (u64 (time f + amount)) f).

Definition schedule : Q unit :=
  m ← get;
  ASSERT (negb (not_null (sending_flow m)));;
  ASSERT (negb (not_null (previous_flow m)));;
  ASSERT (negb (freeing m));;
  ASSERT (negb (Tree_IsEmpty (queued_tree m)));;
  match Tree_GetFirst (queued_tree m) with
  | None => unreachable
  | Some qflow =>
      f ← load qflow;
      ASSERT (is_queued f);;
      modify (set_tree (Tree_Remove (queued_tree m) qflow));;
      store qflow (set_queued false (queued_data f) (queued_data_len f) f);;
      emit (output_send qflow (queued_data f) (queued_data_len f));;
      modify (set_sending (Some qflow) (queued_data_len f))
  end.

Definition schedule_job_handler : Q unit :=
  m ← get;
  ASSERT (negb (not_null (sending_flow m)));;
  ASSERT (negb (freeing m));;
  modify (set_previous None);;
  when (negb (Tree_IsEmpty (queued_tree m))) schedule.

(** a flow that does not go on right after its last packet does not get the time it
    did not use *)
Definition raise_time (flow : Z) : Q unit :=
  m ← get;
  f ← load flow;
  if bool_decide (previous_flow m = Some flow) then modify (set_previous None)
  else
    now ← get_current_time;
    store flow (set_time (bmax (time f) now) f).

Definition queue_flow (flow data data_len : Z) : Q unit :=
  f ← load flow;
  store flow (set_queued false data data_len f);;
  m ← get;
  match Tree_Insert (compare_flows (heap m)) flow (queued_tree m) with
  | None => unreachable
  | Some t =>
      modify (set_tree t);;
      f ← load flow;
      store flow (set_queued true (queued_data f) (queued_data_len f) f)
  end.

Definition input_handler_send (flow data data_len : Z) : Q unit :=
  m ← get;
  ASSERT (negb (bool_decide (sending_flow m = Some flow)));;
  f ← load flow;
  ASSERT (negb (is_queued f));;
  ASSERT (negb (freeing m));;
  raise_time flow;;
  queue_flow flow data data_len;;
  when (negb (not_null (sending_flow m)) && negb (schedule_job m)) schedule.

Definition output_handler_done : Q unit :=
  m ← get;
  match sending_flow m with
  | None => unreachable
  | Some flow =>
      ASSERT (negb (not_null (previous_flow m)));;
      ASSERT (negb (schedule_job m));;
      ASSERT (negb (freeing m));;
      f ← load flow;
      ASSERT (negb (is_queued f));;
      modify (set_sending None (sending_len m));;
      modify (set_previous (Some flow));;
      increment_sent_flow flow (u64 (packet_weight m + sending_len m));;
      modify (set_job true);;
      emit (input_done flow);;
      f ← load flow;
      when (handler_busy f)
        (store flow (set_busy false f);; emit (call_busy flow))
  end.

Definition PacketPassFairQueue_Init (mtu : Z) (has_cancel use_cancel : bool) (packet_weight : Z) :
    option (option PacketPassFairQueue) :=
  assert! (packet_weight >? 0);
  assert! (negb use_cancel || has_cancel);
  Some (if negb ((mtu <=? FAIRQUEUE_MAX_TIME) && (packet_weight <=? FAIRQUEUE_MAX_TIME - mtu))
        then None
        else Some (mkQueue mtu use_cancel packet_weight None 0 None [] [] false false ∅)).

Definition PacketPassFairQueue_Free : Q unit :=
  m ← get;
  ASSERT (negb (not_null (head (flows_list m))));;
  ASSERT (Tree_IsEmpty (queued_tree m));;
  ASSERT (negb (not_null (previous_flow m)));;
  ASSERT (negb (not_null (sending_flow m)));;
  modify (set_job false).

Definition PacketPassFairQueue_PrepareFree : Q unit := modify (set_freeing true).

Definition PacketPassFairQueueFlow_Init (flow : Z) : Q unit :=
  m ← get;
  ASSERT (negb (freeing m));;
  ASSERT (negb (not_null (heap m !! flow)));;
  put (set_heap (<[flow := mkFlow 0 false 0 0 false]> (heap m)) (set_flows (flows_list m ++ [flow]) m)).

Definition PacketPassFairQueueFlow_Free (flow : Z) : Q unit :=
  m ← get;
  f ← load flow;
  ASSERT (freeing m || negb (bool_decide (sending_flow m = Some flow)));;
  when (bool_decide (sending_flow m = Some flow)) (modify (set_sending None (sending_len m)));;
  when (bool_decide (previous_flow m = Some flow)) (modify (set_previous None));;
  when (is_queued f) (modify (set_tree (Tree_Remove (queued_tree m) flow)));;
  modify (set_flows (filter (λ p, p ≠ flow) (flows_list m)));;
  modify (set_heap (delete flow (heap m))).

Definition PacketPassFairQueueFlow_AssertFree (flow : Z) : Q unit :=
  m ← get;
  ASSERT (freeing m || negb (bool_decide (sending_flow m = Some flow))).

Definition PacketPassFairQueueFlow_IsBusy (flow : Z) : Q bool :=
  m ← get;
  ASSERT (negb (freeing m));;
  mret (bool_decide (sending_flow m = Some flow)).

Definition PacketPassFairQueueFlow_RequestCancel (flow : Z) : Q unit :=
  m ← get;
  ASSERT (bool_decide (sending_flow m = Some flow));;
  ASSERT (use_cancel m);;
  ASSERT (negb (freeing m));;
  ASSERT (negb (schedule_job m));;
  emit request_cancel.

Definition PacketPassFairQueueFlow_SetBusyHandler (flow : Z) (handler : bool) : Q unit :=
  m ← get;
  ASSERT (bool_decide (sending_flow m = Some flow));;
  ASSERT (negb (freeing m));;
  f ← load flow;
  store flow (set_busy handler f).

(** ** The queue and its surroundings *)

Inductive input :=
| FlowInit (flow : Z)
| FlowFree (flow : Z)
| InputSend (flow data data_len : Z)
| OutputDone
| ScheduleJob
| RequestCancel (flow : Z)
| SetBusyHandler (flow : Z) (handler : bool)
| PrepareFree.

Definition step (i : input) : Q unit :=
  match i with
  | FlowInit p => PacketPassFairQueueFlow_Init p
  | FlowFree p => PacketPassFairQueueFlow_AssertFree p;; PacketPassFairQueueFlow_Free p
  | InputSend p d n => input_handler_send p d n
  | OutputDone => output_handler_done
  | ScheduleJob => modify (set_job false);; schedule_job_handler
  | RequestCancel p => PacketPassFairQueueFlow_RequestCancel p
  | SetBusyHandler p h => PacketPassFairQueueFlow_SetBusyHandler p h
  | PrepareFree => PacketPassFairQueue_PrepareFree
  end.

(** What the interfaces allow: a flow sends when its last packet is done, packets
    fit the MTU, nothing happens once the queue is about to be freed except that
    flows are freed. *)
Definition legal (m : PacketPassFairQueue) (i : input) : Prop :=
  match i with
  | FlowInit p => freeing m = false ∧ heap m !! p = None
  | FlowFree p => is_Some (heap m !! p) ∧ (freeing m = true ∨ sending_flow m ≠ Some p)
  | InputSend p _ n =>
      freeing m = false ∧ sending_flow m ≠ Some p ∧ 0 ≤ n ≤ output_mtu m ∧
      ∃ f, heap m !! p = Some f ∧ is_queued f = false
  | OutputDone => freeing m = false ∧ is_Some (sending_flow m)
  | ScheduleJob => freeing m = false ∧ schedule_job m = true
  | RequestCancel p => freeing m = false ∧ sending_flow m = Some p ∧ use_cancel m = true
  | SetBusyHandler p _ => freeing m = false ∧ sending_flow m = Some p
  | PrepareFree => True
  end.

#[global] Arguments load : simpl never.
#[global] Arguments store : simpl never.
#[global] Arguments get_current_time : simpl never.
#[global] Arguments increment_sent_flow : simpl never.
#[global] Arguments schedule : simpl never.
#[global] Arguments raise_time : simpl never.
#[global] Arguments queue_flow : simpl never.
#[global] Arguments subtract_flows : simpl never.

(** ** Runs of the small operations *)

Lemma flow_load_run m p f : heap m !! p = Some f → load p m = Some (f, m, []).
Proof. unfold load. intros H. m_step. by rewrite H. Qed.
Lemma flow_store_run m p f f0 :
  heap m !! p = Some f0 → store p f m = Some (tt, set_heap (<[p := f]> (heap m)) m, []).
Proof. unfold store. intros H. m_step. rewrite H. m_assert. done. Qed.
Ltac m_load H := erewrite M_bind_run0; [|apply flow_load_run; exact H]; cbn beta iota.
Ltac m_store H := erewrite M_bind_run0; [|eapply flow_store_run; exact H]; cbn beta iota.

Lemma flow_time_lookup h p f : h !! p = Some f → flow_time h p = time f.
Proof. unfold flow_time. by intros ->. Qed.
Lemma flow_time_insert_ne h p q f : p ≠ q → flow_time (<[p := f]> h) q = flow_time h q.
Proof. intros. unfold flow_time. by rewrite lookup_insert_ne. Qed.
Lemma flow_time_insert h p f : flow_time (<[p := f]> h) p = time f.
Proof. unfold flow_time. by rewrite lookup_insert_eq. Qed.

(** ** The order of the tree *)

Definition flow_lt (h : gmap Z PacketPassFairQueueFlow) (p q : Z) : Prop :=
  flow_time h p < flow_time h q ∨ (flow_time h p = flow_time h q ∧ p < q).

Lemma compare_flows_spec h p q :
  (compare_flows h p q = 0 ↔ p = q) ∧ (compare_flows h p q < 0 ↔ flow_lt h p q).
Proof.
  unfold compare_flows, flow_lt. rewrite !B_COMPARE_spec.
  destruct (Z.compare_spec (flow_time h p) (flow_time h q)) as [E|E|E]; cbn [Z.eqb negb].
  - destruct (Z.compare_spec p q); split; lia.
  - split; [|lia]. split; [lia|]. intros ->. lia.
  - split; [|lia]. split; [lia|]. intros ->. lia.
Qed.

Lemma Tree_Insert_spec h p t :
  StronglySorted (flow_lt h) t → p ∉ t →
  ∃ t', Tree_Insert (compare_flows h) p t = Some t' ∧ StronglySorted (flow_lt h) t' ∧
    (∀ q, q ∈ t' ↔ q = p ∨ q ∈ t).
Proof.
  induction t as [|q t IH]; intros Hs Hp.
  - exists [p]. split; [done|]. split; [repeat constructor|]. intros q. rewrite list_elem_of_singleton.
    split; [by left|]. by intros [|?%elem_of_nil].
  - apply StronglySorted_inv in Hs as [Hs Hq]. apply not_elem_of_cons in Hp as [Hne Hp].
    destruct (compare_flows_spec h p q) as [H0 Hlt]. cbn.
    destruct (Z.eqb_spec (compare_flows h p q) 0) as [E|E]; [by apply H0 in E|].
    destruct (Z.ltb_spec (compare_flows h p q) 0) as [L|L].
    + apply Hlt in L. exists (p :: q :: t). split; [done|].
      split; [|intros r; by rewrite elem_of_cons].
      constructor; [by constructor|]. constructor; [done|].
      apply list.Forall_forall. intros r Hr. eapply list.Forall_forall in Hq; [|exact Hr].
      unfold flow_lt in *. lia.
    + destruct (IH Hs Hp) as (t' & -> & Hs' & Ht'). exists (q :: t'). split; [done|]. split.
      * constructor; [done|]. apply list.Forall_forall. intros r [->|Hr]%Ht'.
        -- destruct (compare_flows_spec h p q). unfold flow_lt in *. lia.
        -- by eapply list.Forall_forall in Hq.
      * intros r. rewrite !elem_of_cons, Ht'. naive_solver.
Qed.

Lemma sorted_impl {A} (R R' : A → A → Prop) t :
  (∀ p q, p ∈ t → q ∈ t → R p q → R' p q) → StronglySorted R t → StronglySorted R' t.
Proof.
  induction t as [|p t IH]; intros H Hs; [constructor|].
  apply StronglySorted_inv in Hs as [Hs Hp]. constructor.
  - apply IH; [|done]. intros q r ??. apply H; by right.
  - apply list.Forall_forall. intros q Hq. apply H; [by left|by right|]. by eapply list.Forall_forall in Hp.
Qed.
Lemma sorted_times h h' t :
  (∀ p, p ∈ t → flow_time h' p = flow_time h p) →
  StronglySorted (flow_lt h) t → StronglySorted (flow_lt h') t.
Proof. intros H. apply sorted_impl. intros p q Hp Hq. unfold flow_lt. by rewrite !H. Qed.

(** The first node is the smallest. *)
Lemma sorted_first h p t q :
  StronglySorted (flow_lt h) (p :: t) → q ∈ p :: t → flow_time h p ≤ flow_time h q.
Proof.
  intros [_ Hp]%StronglySorted_inv [->|Hq]%elem_of_cons; [lia|].
  eapply list.Forall_forall in Hp; [|done]. unfold flow_lt in Hp. lia.
Qed.
Lemma Tree_Remove_first h p t :
  StronglySorted (flow_lt h) (p :: t) → Tree_Remove (p :: t) p = t ∧ p ∉ t.
Proof.
  intros [_ Hp]%StronglySorted_inv.
  assert (p ∉ t) as Hn.
  { intros Hin. eapply list.Forall_forall in Hp; [|exact Hin]. unfold flow_lt in Hp. lia. }
  split; [|done]. unfold Tree_Remove. rewrite filter_cons_False by naive_solver.
  clear Hp. induction t as [|q t IH]; [done|]. apply not_elem_of_cons in Hn as [? ?].
  rewrite filter_cons_True by done. by rewrite IH.
Qed.
Lemma sorted_remove h p t : StronglySorted (flow_lt h) t → StronglySorted (flow_lt h) (Tree_Remove t p).
Proof.
  unfold Tree_Remove. induction t as [|q t IH]; intros Hs; [constructor|].
  apply StronglySorted_inv in Hs as [Hs Hq]. rewrite filter_cons.
  destruct (decide (q ≠ p)); [|by apply IH]. constructor; [by apply IH|].
  apply list.Forall_forall. intros r [_ Hr]%list_elem_of_filter. by eapply list.Forall_forall in Hq.
Qed.

(** ** Invariant *)

(** the flows and the tree *)
Record q_core (m : PacketPassFairQueue) : Prop := {
  w_mtu : 0 ≤ output_mtu m ≤ INT_MAX;
  w_weight : 0 < packet_weight m ≤ INT_MAX;
  w_nodup : NoDup (flows_list m);
  w_list p : p ∈ flows_list m ↔ is_Some (heap m !! p);
  w_time p f : heap m !! p = Some f → 0 ≤ time f ≤ FAIRQUEUE_MAX_TIME;
  w_len p f : heap m !! p = Some f → is_queued f = true → 0 ≤ queued_data_len f ≤ output_mtu m;
  w_tree p : p ∈ queued_tree m ↔ ∃ f, heap m !! p = Some f ∧ is_queued f = true;
  w_sorted : StronglySorted (flow_lt (heap m)) (queued_tree m);
}.

(** and what goes on: a flow sends, or has just sent and the schedule job is set;
    a queued flow does not wait for nothing *)
Record q_wf (m : PacketPassFairQueue) : Prop := {
  w_core :> q_core m;
  w_sending s : sending_flow m = Some s →
    previous_flow m = None ∧ schedule_job m = false ∧ 0 ≤ sending_len m ≤ output_mtu m ∧
    (∃ f, heap m !! s = Some f ∧ is_queued f = false) ∧
    (∀ q, q ∈ queued_tree m → flow_time (heap m) s ≤ flow_time (heap m) q);
  w_previous p : previous_flow m = Some p →
    schedule_job m = true ∧ ∃ f, heap m !! p = Some f ∧ is_queued f = false;
  w_wake : queued_tree m ≠ [] → is_Some (sending_flow m) ∨ schedule_job m = true ∨ freeing m = true;
}.

Lemma queued_alive m p : q_core m → p ∈ queued_tree m → ∃ f, heap m !! p = Some f ∧ is_queued f = true.
Proof. intros Hwf. by rewrite (w_tree _ Hwf). Qed.

(** ** Time *)

(** What [get_current_time] returns is at most the time of every queued flow. *)
Lemma get_current_time_spec m :
  q_wf m → ∃ t, get_current_time m = Some (t, m, []) ∧ 0 ≤ t ≤ FAIRQUEUE_MAX_TIME ∧
    (∀ q, q ∈ queued_tree m → t ≤ flow_time (heap m) q) ∧
    (∀ s, sending_flow m = Some s → t = flow_time (heap m) s).
Proof.
  intros Hwf. unfold get_current_time. m_step.
  destruct (sending_flow m) as [s|] eqn:Hs.
  - destruct (w_sending _ Hwf s Hs) as (_ & _ & _ & (f & Hf & _) & Hle). m_load Hf.
    eexists. split; [reflexivity|]. rewrite (flow_time_lookup _ _ _ Hf) in *.
    split; [exact (w_time _ Hwf _ _ Hf)|]. split; [done|]. intros ? [= <-]. by rewrite (flow_time_lookup _ _ _ Hf).
  - set (k := match queued_tree m with [] => (0, false) | p :: _ => (flow_time (heap m) p, true) end).
    rewrite (M_bind_run0 _ _ m k m).
    2:{ unfold Tree_GetFirst, k. destruct (queued_tree m) as [|p t] eqn:Ht; [done|]. cbn [head].
        destruct (queued_alive m p (w_core _ Hwf)) as (f & Hf & Hq); [rewrite Ht; by left|]. m_load Hf.
        rewrite Hq. m_assert. by rewrite (flow_time_lookup _ _ _ Hf). }
    assert (∀ q, q ∈ queued_tree m → snd k = true ∧ fst k ≤ flow_time (heap m) q) as Hk.
    { intros q Hq. subst k. pose proof (w_sorted _ (w_core _ Hwf)) as Hst. destruct (queued_tree m) as [|p t]; [by apply elem_of_nil in Hq|].
      split; [done|]. by eapply sorted_first. }
    assert (0 ≤ fst k ≤ FAIRQUEUE_MAX_TIME) as Hkr.
    { subst k. destruct (queued_tree m) as [|p t] eqn:Ht; [cbn; unfold FAIRQUEUE_MAX_TIME, UINT64_MAX; lia|].
      destruct (queued_alive m p (w_core _ Hwf)) as (f & Hf & Hq); [rewrite Ht; by left|]. cbn.
      rewrite (flow_time_lookup _ _ _ Hf). exact (w_time _ Hwf _ _ Hf). }
    destruct k as [t1 have] eqn:Ek; cbn [fst snd] in *. clear Ek.
    destruct (previous_flow m) as [p|] eqn:Hp.
    + destruct (w_previous _ Hwf p Hp) as (_ & f & Hf & _). pose proof (w_time _ Hwf p f Hf).
      rewrite M_bind_assoc. m_load Hf. m_step.
      destruct (negb have || (time f <? t1)) eqn:Hc; eexists; (split; [reflexivity|]); (split; [destruct have; lia|]);
        (split; [|done]); intros q Hq; destruct (Hk q Hq) as [-> ?]; cbn in Hc; zbool; lia.
    + m_step. eexists. split; [reflexivity|].
      split; [destruct have; lia|]. split; [|done].
      intros q Hq. destruct (Hk q Hq) as [-> ?]. done.
Qed.

(** The effect of moving the times back by [sub] on the flow that just sent and on
    the others. *)
Definition moved (sub amount flow p : Z) (f : PacketPassFairQueueFlow) : PacketPassFairQueueFlow :=
  set_time (if p =? flow then time f - sub + amount else Z.max 0 (time f - sub)) f.

Lemma subtract_flows_spec sub flow l : ∀ m,
  NoDup l → 0 ≤ sub ≤ FAIRQUEUE_MAX_TIME →
  (∀ p, p ∈ l → ∃ f, heap m !! p = Some f ∧ 0 ≤ time f ≤ FAIRQUEUE_MAX_TIME ∧
                     (is_queued f = true → p ≠ flow → sub ≤ time f)) →
  ∃ h, subtract_flows sub flow l m = Some (tt, set_heap h m, []) ∧
    ∀ p, h !! p = if bool_decide (p ∈ l)
      then (λ f, set_time (if p =? flow then u64 (time f - sub) else Z.max 0 (time f - sub)) f) <$> heap m !! p
      else heap m !! p.
Proof.
  induction l as [|x l IH]; intros m Hnd Hsub Hl.
  - exists (heap m). split; [by destruct m|]. intros p. by rewrite bool_decide_false by apply not_elem_of_nil.
  - apply list.NoDup_cons in Hnd as [Hx Hnd].
    destruct (Hl x) as (f & Hf & Ht & Hq); [by left|].
    set (f' := set_time (if x =? flow then u64 (time f - sub) else Z.max 0 (time f - sub)) f).
    assert ((if (sub >? time f) && negb (x =? flow) then
         ASSERT (negb (is_queued f));; store x (set_time 0 f)
       else store x (set_time (u64 (time f - sub)) f)) m
       = Some (tt, set_heap (<[x := f']> (heap m)) m, [])) as E.
    { unfold f'. rewrite Z.gtb_ltb. destruct (Z.ltb_spec (time f) sub), (Z.eqb_spec x flow); cbn [andb negb].
      - by erewrite flow_store_run.
      - destruct (is_queued f) eqn:Hqf; [specialize (Hq eq_refl n); lia|]. m_assert.
        erewrite flow_store_run by done. do 6 f_equal. lia.
      - by erewrite flow_store_run.
      - erewrite flow_store_run by done. rewrite u64_small by (unfold FAIRQUEUE_MAX_TIME, SIZE_MAX in *; lia).
        do 6 f_equal. lia. }
    unfold subtract_flows; fold subtract_flows. m_load Hf. rewrite (M_bind_run0 _ _ _ _ _ E).
    destruct (IH (set_heap (<[x := f']> (heap m)) m) Hnd Hsub) as (h & E2 & Hh).
    { intros p Hp. cbn. rewrite lookup_insert_ne by (intros ->; done). apply Hl. by right. }
    exists h. split; [rewrite E2; by destruct m|]. intros p. rewrite Hh. cbn.
    destruct (decide (p = x)) as [->|Hne].
    + rewrite bool_decide_false by done. rewrite bool_decide_true by (by left).
      by rewrite lookup_insert_eq, Hf.
    + rewrite lookup_insert_ne by done. destruct (decide (p ∈ l)) as [Hin|Hin].
      * rewrite !bool_decide_true by (try right; done). done.
      * rewrite !bool_decide_false by (rewrite ?not_elem_of_cons; done). done.
Qed.

Lemma core_ext m m' :
  q_core m → output_mtu m' = output_mtu m → packet_weight m' = packet_weight m →
  flows_list m' = flows_list m → heap m' = heap m → queued_tree m' = queued_tree m → q_core m'.
Proof. intros [] E1 E2 E3 E4 E5. split; rewrite ?E1, ?E2, ?E3, ?E4, ?E5; done. Qed.

(** A change of a flow that stays queued or not, and that keeps its time if it is. *)
Lemma core_update m p f f' :
  q_core m → heap m !! p = Some f → is_queued f' = is_queued f →
  0 ≤ time f' ≤ FAIRQUEUE_MAX_TIME → (is_queued f = true → f' = f) →
  q_core (set_heap (<[p := f']> (heap m)) m).
Proof.
  intros Hc Hf Hq Ht Hsame. destruct (is_queued f) eqn:Hqf.
  { rewrite Hsame by done. eapply core_ext; [exact Hc|done..| |done]. cbn. by apply insert_id. }
  assert (p ∉ queued_tree m) as Hp.
  { intros (g & Hg & Hqg)%(w_tree _ Hc). rewrite Hf in Hg. simplify_eq. congruence. }
  destruct Hc as [H1 H2 H3 H4 H5 H6 H7 H8]. split; cbn; try done.
  - intros q. rewrite H4, lookup_insert_is_Some. destruct (decide (p = q)) as [->|]; naive_solver.
  - intros q g [[<- <-]|[? Hg]]%lookup_insert_Some; eauto.
  - intros q g [[<- <-]|[? Hg]]%lookup_insert_Some; [congruence|eauto].
  - intros q. rewrite H7. split; intros (g & Hg & Hqg).
    + exists g. rewrite lookup_insert_ne; [done|]. intros ->. congruence.
    + apply lookup_insert_Some in Hg as [[<- <-]|[? Hg]]; [congruence|eauto].
  - eapply sorted_times; [|exact H8]. intros q Hq'. apply flow_time_insert_ne. by intros ->.
Qed.

(** ** Time after a packet *)

Lemma increment_sent_flow_spec m flow f amount :
  q_core m → heap m !! flow = Some f → is_queued f = false → sending_flow m = None →
  (∀ q, q ∈ queued_tree m → time f ≤ flow_time (heap m) q) →
  0 ≤ amount ≤ FAIRQUEUE_MAX_TIME →
  ∃ sub h, increment_sent_flow flow amount m = Some (tt, set_heap h m, []) ∧ 0 ≤ sub ∧
    (∀ p, h !! p = moved sub amount flow p <$> heap m !! p) ∧
    (∀ q, q ∈ queued_tree m → sub ≤ flow_time (heap m) q) ∧
    0 ≤ time f - sub + amount ≤ FAIRQUEUE_MAX_TIME.
Proof.
  intros Hc Hf Hqf Hs Hmin Ha. pose proof (w_time _ Hc _ _ Hf) as Ht.
  unfold increment_sent_flow. m_step. m_load Hf. rewrite ASSERT_true by (apply Z.leb_le; lia).
  rewrite Hqf. m_assert. rewrite Hs. m_assert. rewrite Z.gtb_ltb.
  destruct (Z.ltb_spec (FAIRQUEUE_MAX_TIME - time f) amount) as [Hov|Hov]; cbn [when].
  - rewrite M_bind_assoc.
    set (sub := match queued_tree m with [] => time f | q :: _ => flow_time (heap m) q end).
    rewrite (M_bind_run0 _ _ m sub m).
    2:{ unfold Tree_GetFirst, sub. destruct (queued_tree m) as [|q t] eqn:Htr; [done|]. cbn [head].
        destruct (queued_alive m q Hc) as (g & Hg & Hqg); [rewrite Htr; by left|]. m_load Hg.
        rewrite Hqg. m_assert. by rewrite (flow_time_lookup _ _ _ Hg). }
    assert (∀ q, q ∈ queued_tree m → sub ≤ flow_time (heap m) q) as Hsub.
    { intros q Hq. subst sub. pose proof (w_sorted _ Hc) as Hst.
      destruct (queued_tree m) as [|p t]; [by apply elem_of_nil in Hq|]. by eapply sorted_first. }
    assert (time f ≤ sub ≤ FAIRQUEUE_MAX_TIME) as Hr.
    { subst sub. destruct (queued_tree m) as [|q t] eqn:Htr; [lia|].
      destruct (queued_alive m q Hc) as (g & Hg & Hqg); [rewrite Htr; by left|].
      rewrite (flow_time_lookup _ _ _ Hg). pose proof (w_time _ Hc _ _ Hg).
      specialize (Hmin q). rewrite (flow_time_lookup _ _ _ Hg) in Hmin. split; [apply Hmin; by left|lia]. }
    clearbody sub.
    destruct (subtract_flows_spec sub flow (flows_list m) m) as (h & E & Hh); [by apply w_nodup|lia| |].
    { intros p Hp. apply (w_list _ Hc) in Hp as [g Hg]. exists g. split; [done|]. split; [by eapply w_time|].
      intros Hqg Hne. rewrite <-(flow_time_lookup _ _ _ Hg). apply Hsub, (w_tree _ Hc). eauto. }
    rewrite (M_bind_run0 _ _ _ _ _ E).
    assert (∀ p, h !! p = (λ f, set_time (if p =? flow then u64 (time f - sub) else Z.max 0 (time f - sub)) f)
                            <$> heap m !! p) as Hh'.
    { intros p. rewrite Hh. case_bool_decide as Hp; [done|]. rewrite (w_list _ Hc) in Hp.
      destruct (heap m !! p); [destruct Hp; eauto|done]. }
    assert (heap (set_heap h m) !! flow = Some (set_time (u64 (time f - sub)) f)) as Hflow.
    { cbn. rewrite Hh', Hf. cbn. by rewrite Z.eqb_refl. }
    m_load Hflow. rewrite (flow_store_run _ _ _ _ Hflow).
    exists sub, (<[flow := moved sub amount flow flow f]> h). split.
    + match goal with |- context [<[flow := ?A]> _] => replace A with (moved sub amount flow flow f); [done|] end.
      unfold moved. rewrite Z.eqb_refl. unfold set_time. f_equal. cbn.
      unfold u64, FAIRQUEUE_MAX_TIME, UINT64_MAX in *.
      rewrite Zplus_mod_idemp_l, Z.mod_small by lia. lia.
    + split; [lia|]. split; [|split; [done|lia]]. intros p.
      destruct (decide (p = flow)) as [->|Hne]; [by rewrite lookup_insert_eq, Hf|].
      rewrite lookup_insert_ne, Hh' by done. unfold moved.
      by rewrite (proj2 (Z.eqb_neq p flow) Hne).
  - m_step. m_load Hf. rewrite (flow_store_run _ _ _ _ Hf).
    exists 0, (<[flow := moved 0 amount flow flow f]> (heap m)). split.
    + match goal with |- context [<[flow := ?A]> _] => replace A with (moved 0 amount flow flow f); [done|] end.
      unfold moved. rewrite Z.eqb_refl. unfold set_time. f_equal.
      rewrite u64_small by (unfold FAIRQUEUE_MAX_TIME, SIZE_MAX in *; lia). lia.
    + split; [done|]. split; [|split; [|lia]].
      * intros p. destruct (decide (p = flow)) as [->|Hne]; [by rewrite lookup_insert_eq, Hf|].
        rewrite lookup_insert_ne by done. unfold moved. rewrite (proj2 (Z.eqb_neq p flow) Hne).
        destruct (heap m !! p) as [g|] eqn:Hg; [|done]. cbn. f_equal.
        pose proof (w_time _ Hc _ _ Hg). rewrite Z.max_r by lia. destruct g. unfold set_time. cbn. f_equal. lia.
      * intros q (g & Hg & _)%(w_tree _ Hc). rewrite (flow_time_lookup _ _ _ Hg).
        by eapply w_time in Hg as [? _].
Qed.

(** ** Service *)

(** the weighted bytes that were sent for a flow *)
Definition cost (w : Z) (flow : Z) (e : event) : Z :=
  match e with output_send p _ n => if p =? flow then w + n else 0 | _ => 0 end.
Fixpoint served (w : Z) (flow : Z) (es : list event) : Z :=
  match es with [] => 0 | e :: es => cost w flow e + served w flow es end.
Lemma served_app w f es1 es2 : served w f (es1 ++ es2) = served w f es1 + served w f es2.
Proof. induction es1 as [|e es1 IH]; cbn; lia. Qed.
Definition sends (flow : Z) (e : event) : bool :=
  match e with output_send p _ _ => p =? flow | _ => false end.
Definition not_sent (flow : Z) (es : list event) : Prop := Forall (λ e, sends flow e = false) es.

(** how far the time of [f] is behind the time of [g]; the packet being sent counts
    as sent *)
Definition lag (m : PacketPassFairQueue) (f g : Z) : Z :=
  flow_time (heap m) g - flow_time (heap m) f
  - (if bool_decide (sending_flow m = Some f) then packet_weight m + sending_len m else 0).
Definition max_cost (m : PacketPassFairQueue) : Z := packet_weight m + output_mtu m.

(** What a step does to two flows, the second of which stays queued. *)
Record fair_step (f g : Z) (m m' : PacketPassFairQueue) (es : list event) : Prop := {
  fs_queued : g ∈ queued_tree m';
  fs_alive : is_Some (heap m' !! f);
  fs_lag : served (packet_weight m) f es + lag m' f g ≤ lag m f g;
  fs_bound : - max_cost m ≤ lag m f g ∨ 0 < served (packet_weight m) f es →
             - max_cost m ≤ lag m' f g;
}.

(** The queue [schedule] is called on. *)
Lemma schedule_spec m :
  q_core m → sending_flow m = None → previous_flow m = None → freeing m = false →
  schedule_job m = false → queued_tree m ≠ [] →
  ∃ p d n m', schedule m = Some (tt, m', [output_send p d n]) ∧ q_wf m' ∧
    0 ≤ n ≤ output_mtu m ∧ p ∈ queued_tree m ∧
    (∀ q, q ∈ queued_tree m → flow_time (heap m) p ≤ flow_time (heap m) q) ∧
    (∀ q, flow_time (heap m') q = flow_time (heap m) q) ∧
    (∀ q, q ∈ queued_tree m' ↔ q ∈ queued_tree m ∧ q ≠ p) ∧
    (∀ q, is_Some (heap m' !! q) ↔ is_Some (heap m !! q)) ∧
    sending_flow m' = Some p ∧ sending_len m' = n ∧
    packet_weight m' = packet_weight m ∧ output_mtu m' = output_mtu m.
Proof.
  intros Hc Hs Hp Hfr Hj Hne. unfold schedule. m_step. rewrite Hs. m_assert. rewrite Hp. m_assert.
  rewrite Hfr. m_assert. pose proof (w_sorted _ Hc) as Hst.
  destruct (queued_tree m) as [|p t] eqn:Ht; [done|]. cbn [Tree_IsEmpty head not_null negb]. m_assert.
  cbn [Tree_GetFirst head]. destruct (queued_alive m p Hc) as (f & Hf & Hq); [rewrite Ht; by left|].
  m_load Hf. rewrite Hq. m_assert. m_step.
  destruct (Tree_Remove_first _ _ _ Hst) as [Hrem Hpt]. rewrite Hrem.
  m_store Hf. cbn [mbind M_bind emit modify app].
  set (f' := set_queued false (queued_data f) (queued_data_len f) f).
  exists p, (queued_data f), (queued_data_len f). eexists. split; [reflexivity|]. cbn.
  set (h := <[p:=f']> (heap m)).
  assert (∀ q, flow_time h q = flow_time (heap m) q) as Htime.
  { intros q. destruct (decide (p = q)) as [<-|]; subst h.
    - by rewrite flow_time_insert, (flow_time_lookup _ _ _ Hf).
    - by rewrite flow_time_insert_ne. }
  assert (∀ q, is_Some (h !! q) ↔ is_Some (heap m !! q)) as Hdom.
  { intros q. subst h. rewrite lookup_insert_is_Some. destruct (decide (p = q)) as [<-|]; [|naive_solver].
    split; eauto. }
  pose proof (w_len _ Hc _ _ Hf Hq) as Hn.
  assert (∀ q, q ∈ t ↔ q ∈ p :: t ∧ q ≠ p) as Htree.
  { intros q. rewrite elem_of_cons. split; [|naive_solver]. intros Hin. split; [by right|by intros ->]. }
  split; [|split_and!; try done; try lia; [by left|intros q Hq'; by eapply sorted_first]].
  destruct Hc as [H1 H2 H3 H4 H5 H6 H7 H8]. split; cbn.
  - split; cbn; try done.
    + intros q. by rewrite H4, Hdom.
    + intros q g [[<- <-]|[? Hg]]%lookup_insert_Some; [cbn; eauto|eauto].
    + intros q g [[<- <-]|[? Hg]]%lookup_insert_Some; [done|eauto].
    + intros q. rewrite Htree, <-Ht, H7. subst h. split.
      * intros [(g & Hg & Hqg) ?]. exists g. by rewrite lookup_insert_ne.
      * intros (g & [[<- <-]|[? Hg]]%lookup_insert_Some & Hqg); [done|]. split; [eauto|done].
    + apply StronglySorted_inv in Hst as [Hst _]. eapply sorted_times; [|exact Hst]. intros; apply Htime.
  - intros s [= <-]. split_and!; try done; [lia|lia|..].
    + exists f'. subst h. by rewrite lookup_insert_eq.
    + intros q Hin. rewrite !Htime. eapply sorted_first; [exact Hst|by right].
  - rewrite Hp. done.
  - intros _. left. eauto.
Qed.

(** Scheduling is fair to a flow that stays queued. *)
Lemma schedule_fair m f g :
  q_core m → sending_flow m = None → previous_flow m = None → freeing m = false →
  schedule_job m = false → queued_tree m ≠ [] →
  ∃ m' es, schedule m = Some (tt, m', es) ∧ q_wf m' ∧
    packet_weight m' = packet_weight m ∧ output_mtu m' = output_mtu m ∧
    (g ∈ queued_tree m → is_Some (heap m !! f) → not_sent g es → fair_step f g m m' es).
Proof.
  intros Hc Hs Hp Hfr Hj Hne.
  destruct (schedule_spec m Hc Hs Hp Hfr Hj Hne) as
    (p & d & n & m' & E & Hwf & Hn & Hpt & Hmin & Htime & Htree & Hdom & Hs' & Hl' & Hw & Hm).
  exists m', [output_send p d n]. split_and!; try done. intros Hg Hf Hns.
  apply Forall_inv in Hns. cbn in Hns. apply Z.eqb_neq in Hns.
  pose proof (w_weight _ Hc). split.
  - apply Htree. naive_solver.
  - by apply Hdom.
  - unfold lag. cbn. rewrite !Htime, Hs, Hs', Hl', Hw. rewrite (bool_decide_false (None = Some f)) by done.
    destruct (Z.eqb_spec p f) as [->|Hne']; [rewrite bool_decide_true by done|rewrite bool_decide_false by congruence]; lia.
  - unfold lag, max_cost. cbn. rewrite !Htime, Hs, Hs', Hl', Hw. rewrite (bool_decide_false (None = Some f)) by done.
    specialize (Hmin g Hg).
    destruct (Z.eqb_spec p f) as [->|Hne']; [rewrite bool_decide_true by done|rewrite bool_decide_false by congruence]; lia.
Qed.

(** Inserting a flow into the tree. *)
Lemma insert_core m p f f' t :
  q_core m → heap m !! p = Some f → is_queued f = false → is_queued f' = true →
  0 ≤ time f' ≤ FAIRQUEUE_MAX_TIME → 0 ≤ queued_data_len f' ≤ output_mtu m →
  Tree_Insert (compare_flows (<[p := f']> (heap m))) p (queued_tree m) = Some t →
  q_core (set_tree t (set_heap (<[p := f']> (heap m)) m)) ∧ (∀ q, q ∈ t ↔ q = p ∨ q ∈ queued_tree m).
Proof.
  intros Hc Hf Hqf Hqf' Ht Hl Hins.
  assert (p ∉ queued_tree m) as Hp.
  { intros (g & Hg & Hqg)%(w_tree _ Hc). rewrite Hf in Hg. simplify_eq. congruence. }
  set (h := <[p := f']> (heap m)) in *.
  assert (StronglySorted (flow_lt h) (queued_tree m)) as Hst.
  { eapply sorted_times; [|exact (w_sorted _ Hc)]. intros q Hq. subst h. apply flow_time_insert_ne. by intros ->. }
  destruct (Tree_Insert_spec h p _ Hst Hp) as (t' & E & Hst' & Ht'). rewrite E in Hins. simplify_eq.
  split; [|done]. destruct Hc as [H1 H2 H3 H4 H5 H6 H7 H8]. split; cbn; try done.
  - intros q. rewrite H4. subst h. rewrite lookup_insert_is_Some. destruct (decide (p = q)) as [->|]; naive_solver.
  - intros q g [[<- <-]|[? Hg]]%lookup_insert_Some; eauto.
  - intros q g [[<- <-]|[? Hg]]%lookup_insert_Some; [done|eauto].
  - intros q. rewrite Ht', H7. subst h. split.
    + intros [->|(g & Hg & Hqg)]; [exists f'; by rewrite lookup_insert_eq|].
      exists g. rewrite lookup_insert_ne; [done|]. intros ->. congruence.
    + intros (g & [[<- <-]|[? Hg]]%lookup_insert_Some & Hqg); [by left|right; eauto].
Qed.

(** The time of a flow that starts to wait again. *)
Lemma raise_time_spec m p f :
  q_wf m → heap m !! p = Some f → is_queued f = false → sending_flow m ≠ Some p →
  ∃ f1 pv, raise_time p m = Some (tt, set_previous pv (set_heap (<[p := f1]> (heap m)) m), []) ∧
    is_queued f1 = false ∧ 0 ≤ time f1 ≤ FAIRQUEUE_MAX_TIME ∧
    (pv = None ∨ pv = previous_flow m) ∧ pv ≠ Some p ∧
    time f ≤ time f1 ∧ (∀ q, q ∈ queued_tree m → time f1 ≤ Z.max (time f) (flow_time (heap m) q)) ∧
    (∀ s, sending_flow m = Some s → flow_time (heap m) s ≤ time f1).
Proof.
  intros Hwf Hf Hq Hs. pose proof (w_time _ Hwf _ _ Hf). unfold raise_time. m_step. m_load Hf.
  case_bool_decide as Hp.
  - exists f, None. split; [cbn; by rewrite insert_id|]. split_and!; try done; try lia; [by left|].
    intros s Hs'. destruct (w_sending _ Hwf s Hs') as (Hpv & _). congruence.
  - destruct (get_current_time_spec m Hwf) as (t & E & Ht & Hmin & Hs').
    rewrite (M_bind_run0 _ _ _ _ _ E). rewrite (flow_store_run _ _ _ _ Hf), bmax_spec.
    exists (set_time (Z.max (time f) t) f), (previous_flow m). split; [done|]. cbn.
    split_and!; try done; try lia; [by right|..].
    + intros q Hq'. specialize (Hmin q Hq'). lia.
    + intros s Hss. rewrite <-(Hs' s Hss). lia.
Qed.

(** Putting it into the tree. *)
Lemma queue_flow_spec m p f d n :
  q_core m → heap m !! p = Some f → is_queued f = false → 0 ≤ n ≤ output_mtu m →
  ∃ t, let f' := set_queued true d n f in
    queue_flow p d n m = Some (tt, set_tree t (set_heap (<[p := f']> (heap m)) m), []) ∧
    q_core (set_tree t (set_heap (<[p := f']> (heap m)) m)) ∧
    (∀ q, q ∈ t ↔ q = p ∨ q ∈ queued_tree m).
Proof.
  intros Hc Hf Hq Hn. set (f2 := set_queued false d n f). set (f3 := set_queued true d n f).
  destruct (Tree_Insert_spec (<[p := f3]> (heap m)) p (queued_tree m)) as (t & Eins & _).
  { eapply sorted_times; [|exact (w_sorted _ Hc)]. intros q Hq'. apply flow_time_insert_ne. intros ->.
    apply (w_tree _ Hc) in Hq' as (g & Hg & Hqg). congruence. }
  { intros (g & Hg & Hqg)%(w_tree _ Hc). congruence. }
  destruct (insert_core m p f f3 t Hc Hf Hq eq_refl (w_time _ Hc _ _ Hf) Hn Eins) as [Hc3 Ht].
  exists t. split; [|done]. unfold queue_flow. m_load Hf. m_store Hf. m_step. cbn [heap set_heap queued_tree]. fold f2.
  assert (Tree_Insert (compare_flows (<[p:=f2]> (heap m))) p (queued_tree m) = Some t) as ->.
  { rewrite <-Eins. clear. induction (queued_tree m) as [|q l IH]; [done|]. cbn. rewrite IH.
    assert (compare_flows (<[p:=f2]> (heap m)) p q = compare_flows (<[p:=f3]> (heap m)) p q) as ->; [|done].
    unfold compare_flows. destruct (decide (p = q)) as [<-|]; [by rewrite !flow_time_insert|].
    by rewrite !flow_time_insert, !flow_time_insert_ne. }
  m_step. assert (heap (set_tree t (set_heap (<[p:=f2]> (heap m)) m)) !! p = Some f2) as Hf2 by apply lookup_insert_eq.
  m_load Hf2. rewrite (flow_store_run _ _ _ _ Hf2). cbn. by rewrite insert_insert_eq.
Qed.

Lemma fair_refl f g m m' :
  g ∈ queued_tree m' → is_Some (heap m' !! f) → packet_weight m' = packet_weight m →
  output_mtu m' = output_mtu m → lag m' f g ≤ lag m f g → (lag m' f g = lag m f g ∨ 0 ≤ lag m' f g) →
  0 ≤ max_cost m → fair_step f g m m' [].
Proof. intros Hg Hf Hw Hm Hle Hor Hc. split; try done; cbn; lia. Qed.

Definition step_ok (i : input) (m : PacketPassFairQueue) : Prop :=
  ∃ m' es, step i m = Some (tt, m', es) ∧ q_wf m' ∧
    packet_weight m' = packet_weight m ∧ output_mtu m' = output_mtu m ∧
    (∀ f g, f ≠ g → i ≠ FlowFree f → i ≠ FlowFree g → g ∈ queued_tree m → is_Some (heap m !! f) →
            not_sent g es → fair_step f g m m' es).

(** The flow waits; whether a packet is sent now is decided after this. *)
Lemma enqueue_spec m p d n f :
  q_wf m → heap m !! p = Some f → is_queued f = false → sending_flow m ≠ Some p → 0 ≤ n ≤ output_mtu m →
  ∃ pv t f3, let m3 := set_previous pv (set_tree t (set_heap (<[p := f3]> (heap m)) m)) in
    (raise_time p;; queue_flow p d n) m = Some (tt, m3, []) ∧ q_core m3 ∧
    (pv = None ∨ pv = previous_flow m) ∧ pv ≠ Some p ∧ p ∈ t ∧
    (∀ q, q ∈ t → q ≠ p → q ∈ queued_tree m) ∧
    (∀ s, sending_flow m = Some s → flow_time (heap m) s ≤ time f3) ∧
    (∀ f0 g, g ∈ queued_tree m → is_Some (heap m !! f0) → f0 ≠ g →
      g ∈ queued_tree m3 ∧ is_Some (heap m3 !! f0) ∧ lag m3 f0 g ≤ lag m f0 g ∧
      (lag m3 f0 g = lag m f0 g ∨ 0 ≤ lag m3 f0 g)).
Proof.
  intros Hwf Hf Hq Hs Hn. pose proof (w_core _ Hwf) as Hc.
  destruct (raise_time_spec m p f Hwf Hf Hq Hs) as (f1 & pv & E & Hq1 & Ht1 & Hpv & Hpvp & Hle & Hmin & Hsm).
  set (m1 := set_previous pv (set_heap (<[p := f1]> (heap m)) m)) in E.
  assert (q_core m1) as Hc1.
  { eapply core_ext; [eapply (core_update m p f f1); try done; congruence|done..]. }
  assert (heap m1 !! p = Some f1) as Hf1 by apply lookup_insert_eq.
  destruct (queue_flow_spec m1 p f1 d n Hc1 Hf1 Hq1 Hn) as (t & E2 & Hc2 & Ht).
  exists pv, t, (set_queued true d n f1). cbn zeta. rewrite (M_bind_run0 _ _ _ _ _ E), E2.
  assert (heap m1 = <[p := f1]> (heap m)) as Hh1 by done. rewrite Hh1, insert_insert_eq in *.
  split_and!; try done.
  - apply Ht. by left.
  - intros q [->|Hq']%Ht; done.
  - intros f0 g Hg Hf0 Hne. assert (g ≠ p) by (intros ->; apply (w_tree _ Hc) in Hg as (? & ? & ?); congruence).
    split; [apply Ht; by right|]. split.
    { cbn. rewrite lookup_insert_is_Some. destruct (decide (p = f0)); naive_solver. }
    unfold lag. cbn. rewrite (flow_time_insert_ne _ p g) by done.
    destruct (decide (f0 = p)) as [->|]; [|rewrite flow_time_insert_ne by done; lia].
    rewrite bool_decide_false by done. rewrite flow_time_insert, (flow_time_lookup _ _ _ Hf).
    specialize (Hmin g Hg). cbn. lia.
Qed.

Lemma input_handler_send_ok m p d n : q_wf m → legal m (InputSend p d n) → step_ok (InputSend p d n) m.
Proof.
  intros Hwf (Hfr & Hs & Hn & f & Hf & Hq). pose proof (w_core _ Hwf) as Hc.
  destruct (enqueue_spec m p d n f Hwf Hf Hq Hs Hn) as (pv & t & f3 & E & Hc3 & Hpv & Hpvp & Hpt & Ht & Hsm & Hlag).
  set (m3 := set_previous pv (set_tree t (set_heap (<[p := f3]> (heap m)) m))) in *.
  pose proof (w_mtu _ Hc). pose proof (w_weight _ Hc).
  assert (step (InputSend p d n) m =
    when (negb (not_null (sending_flow m)) && negb (schedule_job m)) schedule m3) as Estep.
  { cbn [step]. unfold input_handler_send. m_step. rewrite (bool_decide_false (sending_flow m = Some p)) by done.
    m_assert. m_load Hf. rewrite Hq. m_assert. rewrite Hfr. m_assert. rewrite <-M_bind_assoc.
    by rewrite (M_bind_run0 _ _ _ _ _ E). }
  unfold step_ok. rewrite Estep. clear Estep.
  destruct (negb (not_null (sending_flow m)) && negb (schedule_job m)) eqn:Hgo; cbn [when].
  - zbool. destruct (sending_flow m) eqn:Hsm'; [done|].
    assert (pv = None) as ->.
    { destruct Hpv as [|Hpv]; [done|]. destruct pv as [x|]; [|done].
      destruct (w_previous _ Hwf x) as [? _]; [done|congruence]. }
    assert (queued_tree m3 ≠ []) as Hne by (intros E0; unfold m3 in E0; cbn in E0; subst; by apply elem_of_nil in Hpt).
    destruct (schedule_spec m3) as (p' & d' & n' & m' & E' & Hwf' & _ & _ & _ & _ & _ & _ & _ & _ & Hw & Hm);
      [done..|]. exists m', [output_send p' d' n']. split_and!; try done.
    intros f0 g Hfg _ _ Hg Hf0 Hns. destruct (Hlag f0 g Hg Hf0 Hfg) as (Hg3 & Hf3 & Hl & Hor).
    destruct (schedule_fair m3 f0 g) as (? & ? & E2 & _ & _ & _ & Hfair); [done..|].
    rewrite E' in E2. simplify_eq. destruct (Hfair Hg3 Hf3 Hns) as [F1 F2 F3 F4].
    change (packet_weight m3) with (packet_weight m) in *. change (max_cost m3) with (max_cost m) in *.
    split; [done|done|lia|]. intros Hb. apply F4. unfold max_cost in *. destruct Hb; [left; lia|by right].
  - exists m3, []. split; [done|]. split.
    + split; [done|..]; cbn.
      * intros s Hss. destruct (w_sending _ Hwf s Hss) as (Hpn & Hj & Hl & (fs & Hfs & Hqs) & Hle').
        assert (s ≠ p) by congruence. split_and!; try done; try lia.
        -- destruct Hpv; congruence.
        -- exists fs. by rewrite lookup_insert_ne.
        -- intros q Hq'. rewrite (flow_time_insert_ne _ p s) by done. destruct (decide (q = p)) as [->|].
           ++ rewrite flow_time_insert. by apply Hsm.
           ++ rewrite flow_time_insert_ne by done. apply Hle'. by apply Ht.
      * intros x ->. destruct Hpv as [|Hpv]; [done|]. destruct (w_previous _ Hwf x) as (Hj & fx & Hfx & Hqx); [done|].
        split; [done|]. exists fx. rewrite lookup_insert_ne; [done|congruence].
      * intros _. destruct (sending_flow m); [by left; eauto|]. destruct (schedule_job m); [by right; left|done].
    + split; [done|]. split; [done|]. intros f0 g Hfg _ _ Hg Hf0 _.
      destruct (Hlag f0 g Hg Hf0 Hfg) as (Hg3 & Hf3 & Hl & Hor). apply fair_refl; try done. unfold max_cost. lia.
Qed.

(** Moving the times back keeps flows, tree and order. *)
Lemma moved_core m flow f sub amount h :
  q_core m → heap m !! flow = Some f → is_queued f = false → 0 ≤ sub →
  (∀ p, h !! p = moved sub amount flow p <$> heap m !! p) →
  (∀ q, q ∈ queued_tree m → sub ≤ flow_time (heap m) q) →
  0 ≤ time f - sub + amount ≤ FAIRQUEUE_MAX_TIME → q_core (set_heap h m).
Proof.
  intros Hc Hf Hq Hsub Hh Hmin Hr.
  assert (∀ p, is_Some (h !! p) ↔ is_Some (heap m !! p)) as Hdom.
  { intros p. rewrite Hh. by rewrite fmap_is_Some. }
  assert (∀ p g', h !! p = Some g' → ∃ g, heap m !! p = Some g ∧ g' = moved sub amount flow p g) as Hinv.
  { intros p g'. rewrite Hh. intros (g & ? & ?)%fmap_Some. eauto. }
  pose proof (w_tree _ Hc) as Htree.
  destruct Hc as [H1 H2 H3 H4 H5 H6 H7 H8]. split; cbn; try done.
  - intros p. by rewrite H4, Hdom.
  - intros p g' (g & Hg & ->)%Hinv. specialize (H5 _ _ Hg). unfold moved. cbn.
    destruct (Z.eqb_spec p flow) as [->|]; [|lia]. congruence.
  - intros p g' (g & Hg & ->)%Hinv. apply (H6 _ _ Hg).
  - intros p. rewrite H7. split.
    + intros (g & Hg & Hqg). exists (moved sub amount flow p g). by rewrite Hh, Hg.
    + intros (g' & (g & Hg & ->)%Hinv & Hqg). eauto.
  - apply sorted_impl with (R := flow_lt (heap m)); [|done]. intros p q Hp Hq'.
    assert (∀ x, x ∈ queued_tree m → flow_time h x = flow_time (heap m) x - sub) as Hx.
    { intros x Hx. specialize (Hmin x Hx). apply H7 in Hx as (g & Hg & Hqg).
      unfold flow_time in *. rewrite Hh, Hg in *. cbn. unfold moved. cbn.
      destruct (Z.eqb_spec x flow) as [->|]; [congruence|]. lia. }
    unfold flow_lt. rewrite !Hx by done. lia.
Qed.

(** Two flows after the times have been moved. *)
Lemma moved_time m flow f sub amount h g :
  heap m !! flow = Some f → (∀ p, h !! p = moved sub amount flow p <$> heap m !! p) →
  (flow_time h flow = flow_time (heap m) flow - sub + amount) ∧
  (g ≠ flow → is_Some (heap m !! g) → flow_time h g = Z.max 0 (flow_time (heap m) g - sub)).
Proof.
  intros Hf Hh. unfold flow_time. rewrite !Hh, Hf. split.
  - unfold moved. cbn. by rewrite Z.eqb_refl.
  - intros Hne [x Hx]. rewrite Hx. unfold moved. cbn. by rewrite (proj2 (Z.eqb_neq g flow) Hne).
Qed.

(** The part of [output_handler_done] before the busy handler. *)
Lemma output_handler_done_spec m s :
  q_wf m → sending_flow m = Some s → freeing m = false →
  ∃ h, let m' := set_job true (set_heap h (set_previous (Some s) (set_sending None (sending_len m) m))) in
    q_wf m' ∧
    (∃ f', h !! s = Some f' ∧
      output_handler_done m = (if handler_busy f'
        then Some (tt, set_heap (<[s := set_busy false f']> h) m', [input_done s; call_busy s])
        else Some (tt, m', [input_done s]))) ∧
    (∀ f g, f ≠ g → g ∈ queued_tree m → is_Some (heap m !! f) →
            fair_step f g m m' [input_done s]).
Proof.
  intros Hwf Hs Hfr. pose proof (w_core _ Hwf) as Hc.
  destruct (w_sending _ Hwf s Hs) as (Hp & Hj & Hlen & (f & Hf & Hq) & Hmin).
  pose proof (w_mtu _ Hc). pose proof (w_weight _ Hc). unfold INT_MAX in *.
  set (m1 := set_previous (Some s) (set_sending None (sending_len m) m)).
  assert (q_core m1) as Hc1 by (eapply core_ext; [exact Hc|done..]).
  assert (u64 (packet_weight m + sending_len m) = packet_weight m + sending_len m) as Hu.
  { apply u64_small. unfold SIZE_MAX, UINT64_MAX. lia. }
  rewrite (flow_time_lookup _ _ _ Hf) in Hmin.
  destruct (increment_sent_flow_spec m1 s f (packet_weight m + sending_len m) Hc1 Hf Hq eq_refl Hmin)
    as (sub & h & E & Hsub & Hh & Hsq & Hr); [unfold FAIRQUEUE_MAX_TIME, UINT64_MAX; lia|].
  exists h. set (m2 := set_job true (set_heap h m1)). cbn zeta.
  pose proof (moved_core m1 s f sub _ h Hc1 Hf Hq Hsub Hh Hsq Hr) as Hc2.
  assert (h !! s = Some (moved sub (packet_weight m + sending_len m) s s f)) as Hfs by by rewrite Hh; cbn; rewrite Hf.
  split; [|split].
  - split; [eapply core_ext; [exact Hc2|done..]|cbn; done|..]; cbn.
    + intros p [= <-]. split; [done|]. exists (moved sub (packet_weight m + sending_len m) s s f). done.
    + intros _. right. by left.
  - eexists. split; [exact Hfs|]. unfold output_handler_done. m_step. rewrite Hs, Hp. m_assert. rewrite Hj. m_assert.
    rewrite Hfr. m_assert. m_load Hf. rewrite Hq. m_assert. m_step. m_step. rewrite Hu. fold m1.
    rewrite (M_bind_run0 _ _ _ _ _ E). m_step. fold m2. erewrite M_bind_run; [|reflexivity].
    assert (heap m2 !! s = Some (moved sub (packet_weight m + sending_len m) s s f)) as Hf2 by exact Hfs.
    m_load Hf2. destruct (handler_busy _); cbn [when]; [|done]. by rewrite (M_bind_run0 _ _ _ _ _ (flow_store_run _ _ _ _ Hf2)).
  - intros x g Hne Hg Hx.
    assert (g ≠ s) as Hgs by (intros ->; apply (w_tree _ Hc) in Hg as (? & ? & ?); congruence).
    destruct (queued_alive m g Hc Hg) as (fg & Hfg & _).
    destruct (moved_time m s f sub _ h g Hf Hh) as [Hts Htg]. specialize (Htg Hgs ltac:(eauto)).
    destruct (moved_time m s f sub _ h x Hf Hh) as [_ Htx].
    specialize (Hsq g Hg). change (heap m1) with (heap m) in Hsq.
    unfold lag, max_cost in *. split; unfold lag, max_cost; cbn; rewrite ?Hs, ?Htg.
    + done.
    + rewrite Hh. cbn. by rewrite fmap_is_Some.
    + destruct (decide (x = s)) as [->|Hxs].
      * rewrite Hts, (bool_decide_true (Some s = Some s)) by done. rewrite bool_decide_false by done. lia.
      * rewrite Htx, (bool_decide_false (Some s = Some x)) by (done || congruence). rewrite bool_decide_false by done. lia.
    + destruct (decide (x = s)) as [->|Hxs].
      * rewrite Hts, (bool_decide_true (Some s = Some s)) by done. rewrite bool_decide_false by done. lia.
      * rewrite Htx, (bool_decide_false (Some s = Some x)) by (done || congruence). rewrite bool_decide_false by done. lia.
Qed.

(** The busy handler is no part of what the queue relies on. *)
Lemma wf_set_busy m p f b :
  q_wf m → heap m !! p = Some f → is_queued f = false →
  let m' := set_heap (<[p := set_busy b f]> (heap m)) m in
  q_wf m' ∧ (∀ q, flow_time (heap m') q = flow_time (heap m) q) ∧
  (∀ q, is_Some (heap m' !! q) ↔ is_Some (heap m !! q)).
Proof.
  intros Hwf Hf Hq m'.
  assert (∀ q, flow_time (heap m') q = flow_time (heap m) q) as Ht.
  { intros q. cbn. destruct (decide (p = q)) as [<-|].
    - by rewrite flow_time_insert, (flow_time_lookup _ _ _ Hf).
    - by rewrite flow_time_insert_ne. }
  assert (∀ q, is_Some (heap m' !! q) ↔ is_Some (heap m !! q)) as Hd.
  { intros q. cbn. rewrite lookup_insert_is_Some. destruct (decide (p = q)) as [<-|]; [|naive_solver]. split; eauto. }
  assert (∀ q, (∃ g, heap m !! q = Some g ∧ is_queued g = false) → ∃ g, heap m' !! q = Some g ∧ is_queued g = false) as Hnq.
  { intros q (g & Hg & Hqg). cbn. destruct (decide (p = q)) as [<-|].
    - exists (set_busy b f). by rewrite lookup_insert_eq.
    - exists g. by rewrite lookup_insert_ne. }
  split; [|done]. split.
  - eapply (core_update m p f); try done; [exact (w_core _ Hwf)|exact (w_time _ Hwf _ _ Hf)|congruence].
  - intros s Hs. destruct (w_sending _ Hwf s Hs) as (? & ? & ? & Hx & Hmin). split; [done|]. split; [done|]. split; [done|]. split; [by apply Hnq|].
    intros q Hq'. rewrite !Ht. by apply Hmin.
  - intros s Hs. destruct (w_previous _ Hwf s Hs) as (? & Hx). split; [done|]. by apply Hnq.
  - exact (w_wake _ Hwf).
Qed.

Lemma max_cost_pos m : q_core m → 0 ≤ max_cost m.
Proof. intros Hc. pose proof (w_mtu _ Hc). pose proof (w_weight _ Hc). unfold max_cost. lia. Qed.

Lemma output_handler_done_ok m : q_wf m → legal m OutputDone → step_ok OutputDone m.
Proof.
  intros Hwf (Hfr & s & Hs). destruct (output_handler_done_spec m s Hwf Hs Hfr) as (h & Hwf' & (f' & Hf' & E) & Hfair).
  unfold step_ok. cbn [step]. rewrite E.
  set (m' := set_job true _) in *. assert (is_queued f' = false) as Hq'.
  { destruct (w_previous _ Hwf' s eq_refl) as (_ & g & Hg & Hqg). cbn in Hg. congruence. }
  destruct (wf_set_busy m' s f' false Hwf' Hf' Hq') as (Hwf2 & Ht & Hd).
  destruct (handler_busy f').
  - eexists _, _. split; [reflexivity|]. split; [exact Hwf2|]. split_and!; try done.
    intros f g Hne _ _ Hg Hf _. destruct (Hfair f g Hne Hg Hf) as [F1 F2 F3 F4].
    split; [done|by apply Hd|..]; unfold lag in *; cbn [heap set_heap] in Ht; cbn in F3, F4 |- *; rewrite !Ht; done.
  - eexists _, _. split; [reflexivity|]. split; [exact Hwf'|]. split_and!; try done.
    intros f g Hne _ _ Hg Hf _. by apply Hfair.
Qed.

Lemma schedule_job_ok m : q_wf m → legal m ScheduleJob → step_ok ScheduleJob m.
Proof.
  intros Hwf (Hfr & Hj). pose proof (w_core _ Hwf) as Hc.
  assert (sending_flow m = None) as Hs.
  { destruct (sending_flow m) as [s|] eqn:Hs; [|done]. destruct (w_sending _ Hwf s Hs) as (_ & ? & _). congruence. }
  unfold step_ok. cbn [step]. unfold schedule_job_handler. m_step. m_step. cbn. rewrite Hs. m_assert. rewrite Hfr. m_assert.
  m_step. set (m1 := set_previous None (set_job false m)).
  assert (q_core m1) as Hc1 by (eapply core_ext; [exact Hc|done..]).
  destruct (queued_tree m) as [|p t] eqn:Ht; cbn [Tree_IsEmpty head not_null negb when].
  - exists m1, []. split; [done|]. split.
    + split; [done|..]; cbn; try done; intros; congruence.
    + split_and!; try done. by intros f g _ _ _ Hg%elem_of_nil.
  - assert (queued_tree m1 ≠ []) as Hne by (cbn; congruence).
    destruct (schedule_spec m1) as (p' & d' & n' & m' & E' & Hwf' & _ & _ & _ & _ & _ & _ & _ & _ & Hw & Hm); [done..|].
    exists m', [output_send p' d' n']. split_and!; try done.
    intros f g _ _ _ Hg Hf Hns. rewrite <-Ht in Hg.
    destruct (schedule_fair m1 f g) as (? & ? & E2 & _ & _ & _ & Hfair); [done..|].
    rewrite E' in E2. simplify_eq. destruct (Hfair Hg Hf Hns) as [F1 F2 F3 F4].
    by split.
Qed.

Lemma flow_init_ok m p : q_wf m → legal m (FlowInit p) → step_ok (FlowInit p) m.
Proof.
  intros Hwf (Hfr & Hp). pose proof (w_core _ Hwf) as Hc.
  unfold step_ok. cbn [step]. unfold PacketPassFairQueueFlow_Init. m_step. rewrite Hfr. m_assert. rewrite Hp. m_assert.
  eexists _, _. split; [reflexivity|].
  assert (∀ q g, heap m !! q = Some g → q ≠ p) as Hne by (intros q g Hg ->; congruence).
  assert (∀ q, q ∈ queued_tree m → q ≠ p) as Hnt by (intros q (g & Hg & _)%(w_tree _ Hc); eauto).
  split.
  - split; [destruct Hc as [H1 H2 H3 H4 H5 H6 H7 H8]; split|..]; cbn; try done.
    + apply list.NoDup_app. split_and!; [done| |apply list.NoDup_singleton].
      intros q Hq ->%list_elem_of_singleton. apply H4 in Hq as [? ?]. congruence.
    + intros q. rewrite elem_of_app, H4, list_elem_of_singleton, lookup_insert_is_Some.
      destruct (decide (p = q)); naive_solver.
    + intros q g [[<- <-]|[? Hg]]%lookup_insert_Some; [cbn; unfold FAIRQUEUE_MAX_TIME, UINT64_MAX; lia|eauto].
    + intros q g [[<- <-]|[? Hg]]%lookup_insert_Some; [done|eauto].
    + intros q. rewrite H7. split; intros (g & Hg & Hqg).
      * exists g. rewrite lookup_insert_ne; [done|]. by intros <-; apply (Hne _ _ Hg).
      * apply lookup_insert_Some in Hg as [[<- <-]|[? Hg]]; [done|eauto].
    + eapply sorted_times; [|exact H8]. intros q Hq. apply flow_time_insert_ne. intros <-. by apply (Hnt p).
    + intros s Hs. destruct (w_sending _ Hwf s Hs) as (? & ? & ? & (g & Hg & Hqg) & Hmin).
      split_and!; try done; try lia.
      * exists g. rewrite lookup_insert_ne; [done|]. intros <-. by apply (Hne _ _ Hg).
      * intros q Hq. rewrite !flow_time_insert_ne; [by apply Hmin|by intros <-; apply (Hnt p)|].
        intros <-. by apply (Hne _ _ Hg).
    + intros s Hs. destruct (w_previous _ Hwf s Hs) as (? & (g & Hg & Hqg)). split; [done|].
      exists g. rewrite lookup_insert_ne; [done|]. intros <-. by apply (Hne _ _ Hg).
    + exact (w_wake _ Hwf).
  - split_and!; try done. intros f g _ _ _ Hg [x Hf] _. pose proof (Hne _ _ Hf). pose proof (Hnt _ Hg).
    apply fair_refl; try done; [|unfold lag; cbn; rewrite !flow_time_insert_ne by done; lia..|by apply max_cost_pos].
    cbn. rewrite lookup_insert_ne by done. eauto.
Qed.

(** The state after a flow is freed. *)
Definition without (p : Z) (m : PacketPassFairQueue) : PacketPassFairQueue :=
  mkQueue (output_mtu m) (use_cancel m) (packet_weight m)
    (if bool_decide (sending_flow m = Some p) then None else sending_flow m) (sending_len m)
    (if bool_decide (previous_flow m = Some p) then None else previous_flow m)
    (Tree_Remove (queued_tree m) p) (filter (λ q, q ≠ p) (flows_list m))
    (freeing m) (schedule_job m) (delete p (heap m)).

Lemma Tree_Remove_id t p : p ∉ t → Tree_Remove t p = t.
Proof.
  unfold Tree_Remove. induction t as [|q t IH]; [done|]. intros [? ?]%not_elem_of_cons.
  rewrite filter_cons_True by done. by rewrite IH.
Qed.

Lemma FlowFree_run m p :
  q_core m → legal m (FlowFree p) → step (FlowFree p) m = Some (tt, without p m, []).
Proof.
  intros Hc ((f & Hf) & Hl). cbn [step]. unfold PacketPassFairQueueFlow_AssertFree.
  assert (freeing m || negb (bool_decide (sending_flow m = Some p)) = true) as Hb.
  { destruct Hl as [->|]; [done|]. rewrite bool_decide_false by done. apply orb_true_r. }
  rewrite M_bind_assoc. m_step. rewrite ASSERT_true by exact Hb.
  unfold PacketPassFairQueueFlow_Free. m_step. m_load Hf. rewrite ASSERT_true by exact Hb.
  set (s := if bool_decide (sending_flow m = Some p) then None else sending_flow m).
  rewrite (M_bind_run0 _ _ m tt (set_sending s (sending_len m) m)).
  2:{ unfold s. case_bool_decide; cbn [when]; [done|by destruct m]. }
  set (v := if bool_decide (previous_flow m = Some p) then None else previous_flow m).
  rewrite (M_bind_run0 _ _ _ tt (set_previous v (set_sending s (sending_len m) m))).
  2:{ unfold v. by destruct (bool_decide (previous_flow m = Some p)). }
  rewrite (M_bind_run0 _ _ _ tt (set_tree (Tree_Remove (queued_tree m) p)
    (set_previous v (set_sending s (sending_len m) m)))).
  2:{ destruct (is_queued f) eqn:Hq; cbn [when]; [done|]. rewrite Tree_Remove_id; [done|].
      intros (g & Hg & Hqg)%(w_tree _ Hc). congruence. }
  done.
Qed.

Lemma flow_free_ok m p : q_wf m → legal m (FlowFree p) → step_ok (FlowFree p) m.
Proof.
  intros Hwf Hl. pose proof (w_core _ Hwf) as Hc. unfold step_ok. rewrite (FlowFree_run m p Hc Hl).
  destruct Hl as [_ Hl]. eexists _, _. split; [reflexivity|].
  assert (∀ q, q ≠ p → flow_time (delete p (heap m)) q = flow_time (heap m) q) as Ht.
  { intros q Hq. unfold flow_time. by rewrite lookup_delete_ne. }
  assert (∀ q, q ∈ Tree_Remove (queued_tree m) p ↔ q ≠ p ∧ q ∈ queued_tree m) as Htr.
  { intros q. unfold Tree_Remove. by rewrite list_elem_of_filter. }
  assert (∀ q, (∃ g, heap m !! q = Some g ∧ is_queued g = false) → q ≠ p →
               ∃ g, delete p (heap m) !! q = Some g ∧ is_queued g = false) as Hnq.
  { intros q (g & Hg & Hqg) Hne. exists g. by rewrite lookup_delete_ne. }
  split.
  - split; [destruct Hc as [H1 H2 H3 H4 H5 H6 H7 H8]; split|..]; cbn; try done.
    + by apply list.NoDup_filter.
    + intros q. rewrite list_elem_of_filter, H4. destruct (decide (p = q)) as [<-|Hne].
      * rewrite lookup_delete_eq. split; [by intros [? _]|by intros [? ?]].
      * rewrite lookup_delete_ne by done. naive_solver.
    + intros q g [? Hg]%lookup_delete_Some. eauto.
    + intros q g [? Hg]%lookup_delete_Some. eauto.
    + intros q. rewrite Htr, H7. setoid_rewrite lookup_delete_Some. naive_solver.
    + apply sorted_times with (h := heap m); [|by apply sorted_remove]. intros q [Hq _]%Htr. by apply Ht.
    + intros s Hs. case_bool_decide as Hsp; [done|]. destruct (w_sending _ Hwf s Hs) as (Hpn & ? & ? & Hx & Hmin).
      assert (s ≠ p) by congruence. rewrite Hpn. split; [done|]. split; [done|]. split; [done|]. split; [by apply Hnq|].
      intros q [Hq Hq']%Htr. rewrite !Ht by done. by apply Hmin.
    + intros s Hs. case_bool_decide as Hsp; [done|]. destruct (w_previous _ Hwf s Hs) as (? & Hx).
      split; [done|]. apply Hnq; [done|congruence].
    + intros Hne. destruct (w_wake _ Hwf) as [[s Hs]|[?|?]]; [|clear Hne|by right; left|by right; right].
      * intros E. rewrite E in Hne. done.
      * case_bool_decide as Hsp; [|left; eauto]. destruct Hl; [by right; right|done].
  - split_and!; try done. intros f g Hne Hfp Hgp Hg [x Hf] _.
    assert (f ≠ p) by congruence. assert (g ≠ p) by congruence.
    assert (lag (without p m) f g = lag m f g) as El.
    { unfold lag. cbn. rewrite !Ht by done. destruct (decide (sending_flow m = Some p)) as [Hsp|Hsp].
      - rewrite (bool_decide_true (sending_flow m = Some p)), (bool_decide_false (None = Some f)),
          (bool_decide_false (sending_flow m = Some f)) by congruence. done.
      - by rewrite (bool_decide_false (sending_flow m = Some p)). }
    apply fair_refl; try done; [by apply Htr| |lia|by left|by apply max_cost_pos].
    cbn. rewrite lookup_delete_ne by done. eauto.
Qed.

(** Every step of a well-formed queue completes. *)
Lemma FairQueue_step_ok m i : q_wf m → legal m i → step_ok i m.
Proof.
  intros Hwf Hl. pose proof (w_core _ Hwf) as Hc. pose proof (max_cost_pos m Hc).
  destruct i as [p|p|p d n| | |p|p b|].
  - by apply flow_init_ok.
  - by apply flow_free_ok.
  - by apply input_handler_send_ok.
  - by apply output_handler_done_ok.
  - by apply schedule_job_ok.
  - destruct Hl as (Hfr & Hs & Hu). destruct (w_sending _ Hwf p Hs) as (_ & Hj & _).
    unfold step_ok. cbn [step]. unfold PacketPassFairQueueFlow_RequestCancel. m_step.
    rewrite (bool_decide_true (sending_flow m = Some p)) by done. m_assert. rewrite Hu. m_assert. rewrite Hfr. m_assert.
    rewrite Hj. m_assert. eexists _, _. split; [reflexivity|]. split_and!; try done.
    intros f g _ _ _ Hg Hf _. split; cbn; try done; lia.
  - destruct Hl as (Hfr & Hs). destruct (w_sending _ Hwf p Hs) as (_ & _ & _ & (f & Hf & Hq) & _).
    unfold step_ok. cbn [step]. unfold PacketPassFairQueueFlow_SetBusyHandler. m_step.
    rewrite (bool_decide_true (sending_flow m = Some p)) by done. m_assert. rewrite Hfr. m_assert. m_load Hf.
    rewrite (flow_store_run _ _ _ _ Hf). destruct (wf_set_busy m p f b Hwf Hf Hq) as (Hwf' & Ht & Hd).
    eexists _, _. split; [reflexivity|]. split_and!; try done. intros x g _ _ _ Hg Hx _.
    assert (lag (set_heap (<[p:=set_busy b f]> (heap m)) m) x g = lag m x g) as El.
    { unfold lag. cbn in Ht |- *. by rewrite !Ht. }
    apply fair_refl; try done; [by apply Hd|lia|by left].
  - unfold step_ok. cbn [step]. eexists _, _. split; [reflexivity|]. split.
    + split; [eapply core_ext; [exact Hc|done..]|exact (w_sending _ Hwf)|exact (w_previous _ Hwf)|].
      intros _. by right; right.
    + split_and!; try done. intros f g _ _ _ Hg Hf _. apply fair_refl; try done; by left.
Qed.

(** ** Runs *)

Inductive legal_run : PacketPassFairQueue → list input → list event → PacketPassFairQueue → Prop :=
| run_nil m : legal_run m [] [] m
| run_cons m i u m1 es1 ins es2 m2 :
    legal m i → step i m = Some (u, m1, es1) → legal_run m1 ins es2 m2 →
    legal_run m (i :: ins) (es1 ++ es2) m2.

Lemma legal_run_eq m ins es es' m' : legal_run m ins es m' → es = es' → legal_run m ins es' m'.
Proof. by intros ? <-. Qed.

Lemma legal_run_wf m ins es m' :
  q_wf m → legal_run m ins es m' →
  q_wf m' ∧ packet_weight m' = packet_weight m ∧ output_mtu m' = output_mtu m.
Proof.
  intros Hwf Hr. induction Hr as [m|m i u m1 es1 ins es2 m2 Hl Hs Hr IH]; [done|].
  destruct (FairQueue_step_ok m i Hwf Hl) as (m1' & es & E & Hwf1 & Hw & Hm & _).
  rewrite E in Hs. simplify_eq. destruct (IH Hwf1) as (? & ? & ?). split_and!; congruence.
Qed.

Lemma PacketPassFairQueue_Init_wf mtu has_cancel cancel weight m :
  0 ≤ mtu ≤ INT_MAX → weight ≤ INT_MAX →
  PacketPassFairQueue_Init mtu has_cancel cancel weight = Some (Some m) → q_wf m.
Proof.
  intros Hm Hw. unfold PacketPassFairQueue_Init. destruct (weight >? 0) eqn:E; [|done].
  destruct (_ || _); [|done]. destruct (_ && _); [|done]. intros [= <-]. zbool.
  split; [split|..]; cbn; try done; try lia.
  - constructor.
  - intros p. rewrite lookup_empty. split; [by intros ?%elem_of_nil|by intros [? ?]].
  - intros p. setoid_rewrite lookup_empty. split; [by intros ?%elem_of_nil|by intros (? & ? & _)].
  - constructor.
Qed.

Lemma legal_run_fair f g m ins es m' :
  q_wf m → legal_run m ins es m' → f ≠ g → FlowFree f ∉ ins → FlowFree g ∉ ins →
  g ∈ queued_tree m → is_Some (heap m !! f) → not_sent g es →
  served (packet_weight m) f es + lag m' f g ≤ lag m f g ∧
  (- max_cost m ≤ lag m f g ∨ 0 < served (packet_weight m) f es → - max_cost m ≤ lag m' f g).
Proof.
  intros Hwf Hr Hne. induction Hr as [m|m i u m1 es1 ins es2 m2 Hl Hs Hr IH]; intros Hf Hg Hgq Hfa Hns.
  { cbn. split; lia. }
  destruct (FairQueue_step_ok m i Hwf Hl) as (m1' & es & E & Hwf1 & Hw & Hm & Hfair).
  rewrite E in Hs. simplify_eq. apply not_elem_of_cons in Hf as [? ?]. apply not_elem_of_cons in Hg as [? ?].
  apply Forall_app in Hns as [Hns1 Hns2].
  destruct (Hfair f g) as [F1 F2 F3 F4]; [by auto..|].
  destruct (IH Hwf1) as [I1 I2]; [done..|]. rewrite served_app. unfold max_cost in *. rewrite Hw, Hm in *.
  split; lia.
Qed.

(** ** Properties *)

(** C9: the queue works for ever.  In every reachable state the queued flows are
    in the order of their times, a packet that waits is being waited for by the
    output or the schedule job (no lost wake-up), the flow that sends has the
    smallest time, times are 64-bit numbers, and no assertion of a further step can
    fail; once all flows are freed the queue can be freed. *)
Theorem PacketPassFairQueue_safe mtu has_cancel cancel weight m0 ins es m :
  0 ≤ mtu ≤ INT_MAX → weight ≤ INT_MAX →
  PacketPassFairQueue_Init mtu has_cancel cancel weight = Some (Some m0) → legal_run m0 ins es m →
  StronglySorted (flow_lt (heap m)) (queued_tree m) ∧
  (∀ p, p ∈ queued_tree m ↔ ∃ f, heap m !! p = Some f ∧ is_queued f = true) ∧
  (queued_tree m ≠ [] → freeing m = false → is_Some (sending_flow m) ∨ schedule_job m = true) ∧
  (∀ s q, sending_flow m = Some s → q ∈ queued_tree m → flow_time (heap m) s ≤ flow_time (heap m) q) ∧
  (∀ p f, heap m !! p = Some f → 0 ≤ time f < 2 ^ 64) ∧
  (∀ i, legal m i → is_Some (step i m)) ∧
  (flows_list m = [] → is_Some (PacketPassFairQueue_Free m)).
Proof.
  intros Hm Hw Hinit Hr. pose proof (PacketPassFairQueue_Init_wf _ _ _ _ _ Hm Hw Hinit) as Hwf0.
  destruct (legal_run_wf _ _ _ _ Hwf0 Hr) as (Hwf & _). pose proof (w_core _ Hwf) as Hc. split_and!.
  - apply (w_sorted _ Hc).
  - apply (w_tree _ Hc).
  - intros Hne Hfr. destruct (w_wake _ Hwf Hne) as [?|[?|?]]; [by left|by right|congruence].
  - intros s q Hs. by apply (w_sending _ Hwf s Hs).
  - intros p f Hf. pose proof (w_time _ Hc p f Hf). unfold FAIRQUEUE_MAX_TIME, UINT64_MAX in *. lia.
  - intros i Hl. destruct (FairQueue_step_ok m i Hwf Hl) as (? & ? & -> & _). done.
  - intros Hl. assert (∀ p, heap m !! p = None) as Hempty.
    { intros p. destruct (heap m !! p) eqn:Hp; [|done].
      assert (p ∈ flows_list m) as Hin by (apply (w_list _ Hc); eauto). rewrite Hl in Hin. by apply elem_of_nil in Hin. }
    assert (queued_tree m = []) as Ht.
    { destruct (queued_tree m) as [|p t] eqn:Ht; [done|].
      destruct (queued_alive m p Hc) as (? & Hp & _); [rewrite Ht; by left|]. by rewrite Hempty in Hp. }
    unfold PacketPassFairQueue_Free. m_step. rewrite Hl, Ht. m_assert. m_assert.
    destruct (previous_flow m) as [p|] eqn:Hp.
    { destruct (w_previous _ Hwf p Hp) as (_ & ? & Hx & _). by rewrite Hempty in Hx. }
    destruct (sending_flow m) as [p|] eqn:Hs.
    { destruct (w_sending _ Hwf p Hs) as (_ & _ & _ & (? & Hx & _) & _). by rewrite Hempty in Hx. }
    by m_assert.
Qed.

(** Two flows at a queue of weight 1 and MTU 100. *)
Definition queue0 : PacketPassFairQueue := mkQueue 100 true 1 None 0 None [] [] false false ∅.
Definition after (ins : list input) (m : PacketPassFairQueue) : PacketPassFairQueue * list event :=
  match runs step ins m with Some (_, m', es) => (m', es) | None => (m, []) end.
Definition two_inputs : list input :=
  [FlowInit 1; FlowInit 2; InputSend 1 10 100; InputSend 2 20 50; OutputDone; InputSend 1 11 100].
Definition two : PacketPassFairQueue := fst (after two_inputs queue0).

(** Each step of a concrete run is legal and is found by evaluation. *)
Ltac legal_tac :=
  match goal with
  | |- legal _ _ => vm_compute; first [done | split_and?; first [done | by eexists | by left | by right | by eexists _; split]]
  end.
Ltac run_tac := repeat (eapply run_cons; [legal_tac|vm_compute; reflexivity|]); apply run_nil.

Lemma two_reachable : ∃ es, legal_run queue0 two_inputs es two.
Proof. eexists. unfold two_inputs. run_tac. Qed.

Lemma PacketPassFairQueue_safe_witness :
  PacketPassFairQueue_Init 100 true true 1 = Some (Some queue0) ∧
  queued_tree two = [2; 1] ∧ StronglySorted (flow_lt (heap two)) (queued_tree two).
Proof.
  split; [vm_compute; reflexivity|]. split; [vm_compute; reflexivity|].
  destruct two_reachable as [es Hr].
  apply (PacketPassFairQueue_safe 100 true true 1 queue0 two_inputs es two);
    [done|done|vm_compute; reflexivity|exact Hr].
Defined.

(** C10: the queue is fair.  While a flow [g] waits, any other flow [f] is served at
    most by how far its time was behind the time of [g], and one packet: no matter
    what the other flows do, and whether times overflow and are moved back on the
    way, [g] is not overtaken for ever. *)
Theorem PacketPassFairQueue_fair mtu has_cancel cancel weight m0 ins0 es0 m ins es m' f g :
  0 ≤ mtu ≤ INT_MAX → weight ≤ INT_MAX →
  PacketPassFairQueue_Init mtu has_cancel cancel weight = Some (Some m0) → legal_run m0 ins0 es0 m →
  legal_run m ins es m' → f ≠ g → FlowFree f ∉ ins → FlowFree g ∉ ins →
  g ∈ queued_tree m → is_Some (heap m !! f) → not_sent g es →
  served weight f es ≤ Z.max 0 (flow_time (heap m) g - flow_time (heap m) f + (weight + mtu)).
Proof.
  intros Hm Hw Hinit Hr0 Hr Hne Hf Hg Hgq Hfa Hns.
  pose proof (PacketPassFairQueue_Init_wf _ _ _ _ _ Hm Hw Hinit) as Hwf0.
  destruct (legal_run_wf _ _ _ _ Hwf0 Hr0) as (Hwf & Hw1 & Hm1).
  assert (packet_weight m0 = weight ∧ output_mtu m0 = mtu) as [Hw0 Hm0].
  { unfold PacketPassFairQueue_Init in Hinit. destruct (weight >? 0); [|done].
    destruct (_ || _); [|done]. destruct (_ && _); [|done]. by injection Hinit as <-. }
  destruct (legal_run_fair f g m ins es m' Hwf Hr Hne Hf Hg Hgq Hfa Hns) as [H1 H2].
  rewrite Hw0 in Hw1. rewrite Hm0 in Hm1. unfold max_cost in H2. rewrite Hw1, Hm1 in *.
  unfold lag at 2 in H1. pose proof (w_weight _ (w_core _ Hwf)) as Hwp. rewrite Hw1 in *.
  case_bool_decide as Hs; [destruct (w_sending _ Hwf f Hs) as (_ & _ & Hl & _)|]; lia.
Qed.

Definition race : list input :=
  [ScheduleJob; OutputDone; InputSend 2 21 50; ScheduleJob].
Lemma race_run : ∃ m, legal_run two race [output_send 2 20 50; input_done 2; output_send 2 21 50] m.
Proof. eexists. unfold race. eapply legal_run_eq; [run_tac|vm_compute; reflexivity]. Qed.

Lemma PacketPassFairQueue_fair_witness :
  served 1 2 [output_send 2 20 50; input_done 2; output_send 2 21 50] = 102 ∧
  flow_time (heap two) 1 - flow_time (heap two) 2 = 101 ∧ 102 ≤ Z.max 0 (101 + (1 + 100)).
Proof.
  split; [vm_compute; reflexivity|]. split; [vm_compute; reflexivity|].
  destruct two_reachable as [es0 Hr0]. destruct race_run as [m' Hr].
  apply (PacketPassFairQueue_fair 100 true true 1 queue0 two_inputs es0 two race
    [output_send 2 20 50; input_done 2; output_send 2 21 50] m' 2 1);
    [done|done|vm_compute; reflexivity|exact Hr0|exact Hr|done| | | | |].
  - rewrite list_elem_of_In. cbn. intuition discriminate.
  - rewrite list_elem_of_In. cbn. intuition discriminate.
  - vm_compute. right. left.
  - by eexists.
  - repeat constructor.
Defined.

(** The bound depends on the past: a flow that has sent much while the queue was
    idle in between waits for a flow that starts later, until that one has sent as
    much; the time of an idle queue is 0 and not the time it had reached. *)
Definition alone (n : nat) : list input :=
  concat (replicate n [InputSend 1 10 100; OutputDone; ScheduleJob]).
Definition starve (n : nat) : list input :=
  InputSend 2 20 100 :: InputSend 1 11 100 :: concat (replicate n [OutputDone; InputSend 2 20 100; ScheduleJob]).
Example idle_head_start :
  (let es := snd (after (FlowInit 1 :: FlowInit 2 :: alone 5 ++ starve 4) queue0) in
   (served 1 1 es, served 1 2 es)) = (5 * 101, 5 * 101)
  ∧ 1 ∈ queued_tree (fst (after (FlowInit 1 :: FlowInit 2 :: alone 5 ++ starve 4) queue0)).
Proof. split; [vm_compute; reflexivity|]. vm_compute. left. Qed.
