(* ===== verification/Flow.v ===== *)
(** * Packet flow to a stream

    [flow/PacketRecvInterface.h], [flow/PacketRecvInterface.c],
    [flow/BufferWriter.c], [flow/PacketBuffer.c], [flow/PacketProtoFlow.c],
    [flow/PacketPassConnector.c] and [flow/PacketStreamSender.c]: a packet that is
    written at once is encoded in place in a buffer of packets, and leaves it
    through interfaces that may take their time. *)

From S2P Require Import Prelude CInt ChunkBuffer PacketProto.

(** ** PacketRecvInterface

    [job_operation] and [job_done] say whether the jobs are set; [None] is a
    failed assertion. *)

Inductive pri_state :=
| PRI_STATE_NONE | PRI_STATE_OPERATION_PENDING | PRI_STATE_BUSY | PRI_STATE_DONE_PENDING.
#[export] Instance pri_state_eq_dec : EqDecision pri_state.
Proof. solve_decision. Defined.

Record PacketRecvInterface := mkPRI {
  pri_mtu : Z;
  job_operation : bool;
  job_operation_data : option Z;
  job_done : bool;
  job_done_len : Z;
  state : pri_state;
}.

Definition is_state (st : pri_state) (i : PacketRecvInterface) : bool := bool_decide (state i = st).

Definition PacketRecvInterface_Init (mtu : Z) : option PacketRecvInterface :=
  assert! (mtu >=? 0);
  Some (mkPRI mtu false None false 0 PRI_STATE_NONE).

Definition PacketRecvInterface_Receiver_Recv (data : option Z) (i : PacketRecvInterface) :
    option PacketRecvInterface :=
  assert! negb (pri_mtu i >? 0) || not_null data;
  assert! is_state PRI_STATE_NONE i;
  Some (mkPRI (pri_mtu i) true data (job_done i) (job_done_len i) PRI_STATE_OPERATION_PENDING).

Definition PacketRecvInterface_Done (data_len : Z) (i : PacketRecvInterface) : option PacketRecvInterface :=
  assert! (data_len >=? 0);
  assert! (data_len <=? pri_mtu i);
  assert! is_state PRI_STATE_BUSY i;
  Some (mkPRI (pri_mtu i) (job_operation i) (job_operation_data i) true data_len PRI_STATE_DONE_PENDING).

(** The jobs: the new state and the argument the handler is called with. *)
Definition _PacketRecvInterface_job_operation (i : PacketRecvInterface) :
    option (PacketRecvInterface * option Z) :=
  assert! is_state PRI_STATE_OPERATION_PENDING i;
  Some (mkPRI (pri_mtu i) false (job_operation_data i) (job_done i) (job_done_len i) PRI_STATE_BUSY,
        job_operation_data i).
Definition _PacketRecvInterface_job_done (i : PacketRecvInterface) : option (PacketRecvInterface * Z) :=
  assert! is_state PRI_STATE_DONE_PENDING i;
  Some (mkPRI (pri_mtu i) (job_operation i) (job_operation_data i) false (job_done_len i) PRI_STATE_NONE,
        job_done_len i).

(** ** BufferWriter *)

Record BufferWriter := mkBW {
  out_have : bool;
  out : option Z;
  d_mtu : Z;
  d_writing : bool;
}.

Definition BufferWriter_Init (mtu : Z) : option BufferWriter :=
  assert! (mtu >=? 0);
  Some (mkBW false None mtu false).
Definition BufferWriter_output_handler_recv (data : option Z) (o : BufferWriter) : option BufferWriter :=
  assert! negb (out_have o);
  Some (mkBW true data (d_mtu o) (d_writing o)).
(** the result, and where to write *)
Definition BufferWriter_StartPacket (o : BufferWriter) : option (BufferWriter * option (option Z)) :=
  assert! negb (d_writing o);
  Some (if negb (out_have o) then (o, None)
        else (mkBW (out_have o) (out o) (d_mtu o) true, Some (out o))).
(** the assertions and fields; the caller passes the length on to the interface *)
Definition BufferWriter_EndPacket (len : Z) (o : BufferWriter) : option BufferWriter :=
  assert! (len >=? 0);
  assert! (len <=? d_mtu o);
  assert! out_have o;
  assert! d_writing o;
  Some (mkBW false (out o) (d_mtu o) false).

(** ** PacketBuffer

    Written against any store of packets. *)
Section packet_buffer.
Context {B : Type} `{PS : PacketStore B}.

Record PacketBuffer := mkPB { buf : B; input_mtu : Z }.

(** [PacketRecvInterface_Receiver_Recv] on the input,
    [PacketPassInterface_Sender_Send] on the output *)
Inductive pb_event := Recv (data : option Z) | Send (data : option Z) (data_len : Z).

Definition PacketBuffer_input_handler_done (in_len : Z) : M PacketBuffer pb_event unit :=
  b ← get;
  ASSERT (in_len >=? 0);;
  ASSERT (in_len <=? input_mtu b);;
  let was_empty := ps_out_avail (buf b) <? 0 in
  match ps_submit (buf b) in_len with
  | None => unreachable
  | Some c =>
      put (mkPB c (input_mtu b));;
      when (ps_in_avail c >=? input_mtu b) (emit (Recv (ps_in c)));;
      when was_empty (emit (Send (ps_out c) (ps_out_avail c)))
  end.

Definition PacketBuffer_output_handler_done : M PacketBuffer pb_event unit :=
  b ← get;
  let was_full := ps_in_avail (buf b) <? input_mtu b in
  match ps_consume (buf b) with
  | None => unreachable
  | Some c =>
      put (mkPB c (input_mtu b));;
      when (was_full && (ps_in_avail c >=? input_mtu b)) (emit (Recv (ps_in c)));;
      when (ps_out_avail c >=? 0) (emit (Send (ps_out c) (ps_out_avail c)))
  end.
End packet_buffer.
#[global] Arguments PacketBuffer : clear implicits.

(** [alloc] is the memory of [BAllocArray], if it succeeds *)
Definition PacketBuffer_Init (in_mtu out_mtu num_packets : Z) (alloc : Z → option bytes) :
    option (option (PacketBuffer ChunkBuffer2 * list pb_event)) :=
  assert! (out_mtu >=? in_mtu);
  assert! (num_packets >? 0);
  let num_blocks := ChunkBuffer2_calc_blocks in_mtu num_packets in
  if num_blocks <? 0 then Some None
  else
    match alloc num_blocks with
    | None => Some None
    | Some mem =>
        match ChunkBuffer2_Init mem num_blocks in_mtu with
        | None => None
        | Some c => Some (Some (mkPB c in_mtu, [Recv (input_dest c)]))
        end
    end.

(** ** PacketProtoFlow

    The writer, the encoder and the buffer, and the two interfaces between them.
    The packets lie in the memory of the buffer. *)

Record PacketProtoFlow := mkFlow {
  ainput : BufferWriter;
  ainput_recv : PacketRecvInterface;   (** [ainput.recv_interface] *)
  enc_input_mtu : Z;
  enc_output_packet : option Z;
  enc_output : PacketRecvInterface;    (** [encoder.output] *)
  pbuffer : PacketBuffer ChunkBuffer2;
  sending : option (option Z * Z);     (** what the output is busy with *)
}.

Definition set_ainput bw i (s : PacketProtoFlow) : PacketProtoFlow :=
  mkFlow bw i (enc_input_mtu s) (enc_output_packet s) (enc_output s) (pbuffer s) (sending s).
Definition set_enc_output i (s : PacketProtoFlow) : PacketProtoFlow :=
  mkFlow (ainput s) (ainput_recv s) (enc_input_mtu s) (enc_output_packet s) i (pbuffer s) (sending s).
Definition set_packet p (s : PacketProtoFlow) : PacketProtoFlow :=
  mkFlow (ainput s) (ainput_recv s) (enc_input_mtu s) p (enc_output s) (pbuffer s) (sending s).
Definition set_pbuffer b (s : PacketProtoFlow) : PacketProtoFlow :=
  mkFlow (ainput s) (ainput_recv s) (enc_input_mtu s) (enc_output_packet s) (enc_output s) b (sending s).
Definition set_sending o (s : PacketProtoFlow) : PacketProtoFlow :=
  mkFlow (ainput s) (ainput_recv s) (enc_input_mtu s) (enc_output_packet s) (enc_output s) (pbuffer s) o.
Definition memory (s : PacketProtoFlow) : bytes := buffer (buf (pbuffer s)).
Definition set_memory mem (s : PacketProtoFlow) : PacketProtoFlow :=
  set_pbuffer (mkPB (set_buffer mem (buf (pbuffer s))) (input_mtu (pbuffer s))) s.

(** the encoder as a part of the flow *)
Definition encoder (s : PacketProtoFlow) : Encoder.PacketProtoEncoder :=
  Encoder.mkEnc (enc_output_packet s) (enc_input_mtu s) None (memory s).
Definition set_encoder (e : Encoder.PacketProtoEncoder) (s : PacketProtoFlow) : PacketProtoFlow :=
  set_memory (Encoder.mem e)
    (mkFlow (ainput s) (ainput_recv s) (Encoder.input_mtu e) (Encoder.output_packet e) (enc_output s)
       (pbuffer s) (sending s)).

(** A packet the user wrote, or could not write; a packet given to the output; the
    packet the output has read when it is done. *)
Inductive event := Written (d : bytes) | Dropped (d : bytes) | Sent (data_len : Z) | Taken (p : bytes).
Abbreviation F := (M PacketProtoFlow event).

(** an operation of an interface, which may fail an assertion *)
Definition on_ainput_recv (f : PacketRecvInterface → option PacketRecvInterface) : F unit :=
  s ← get;
  match f (ainput_recv s) with None => unreachable | Some i => put (set_ainput (ainput s) i s) end.
Definition on_enc_output (f : PacketRecvInterface → option PacketRecvInterface) : F unit :=
  s ← get;
  match f (enc_output s) with None => unreachable | Some i => put (set_enc_output i s) end.

Definition encoder_call (e : Encoder.event) : F unit :=
  match e with
  | Encoder.Recv data => on_ainput_recv (PacketRecvInterface_Receiver_Recv (Some data))
  | Encoder.Done len => on_enc_output (PacketRecvInterface_Done len)
  end.
Definition buffer_call (e : pb_event) : F unit :=
  match e with
  | Recv data => on_enc_output (PacketRecvInterface_Receiver_Recv data)
  | Send data len => modify (set_sending (Some (data, len)));; emit (Sent len)
  end.
Definition run_encoder (h : M Encoder.PacketProtoEncoder Encoder.event unit) : F unit :=
  zoom encoder set_encoder encoder_call h.
Definition run_buffer (h : M (PacketBuffer ChunkBuffer2) pb_event unit) : F unit :=
  zoom pbuffer set_pbuffer buffer_call h.

Definition PacketProtoFlow_Init (mtu num_packets out_mtu : Z) (alloc : Z → option bytes) :
    option (option PacketProtoFlow) :=
  assert! (mtu >=? 0);
  assert! (mtu <=? PACKETPROTO_MAXPAYLOAD);
  assert! (num_packets >? 0);
  assert! (out_mtu >=? PACKETPROTO_ENCLEN mtu);
  match BufferWriter_Init mtu, PacketRecvInterface_Init mtu,
        PacketRecvInterface_Init (PACKETPROTO_ENCLEN mtu) with
  | Some bw, Some i0, Some i1 =>
      match PacketBuffer_Init (PACKETPROTO_ENCLEN mtu) out_mtu num_packets alloc with
      | None => None
      | Some None => Some None
      | Some (Some (b, es)) =>
          match calls buffer_call es (mkFlow bw i0 mtu None i1 b None) with
          | None => None
          | Some (_, s, _) => Some (Some s)
          end
      end
  | _, _, _ => None
  end.

(** What a user does to send a packet: start it, write it, end it. *)
Definition write_packet (d : bytes) : F unit :=
  s ← get;
  match BufferWriter_StartPacket (ainput s) with
  | None => unreachable
  | Some (_, None) => emit (Dropped d)
  | Some (bw, Some None) => unreachable
  | Some (bw, Some (Some p)) =>
      put (set_memory (splice p d (memory s)) s);;
      match BufferWriter_EndPacket (zlen d) bw with
      | None => unreachable
      | Some bw =>
          modify (λ s, set_ainput bw (ainput_recv s) s);;
          on_ainput_recv (PacketRecvInterface_Done (zlen d));;
          emit (Written d)
      end
  end.

(** The jobs of the two interfaces. *)
Definition exec_ainput_operation : F unit :=
  s ← get;
  match _PacketRecvInterface_job_operation (ainput_recv s) with
  | None => unreachable
  | Some (i, data) =>
      match BufferWriter_output_handler_recv data (ainput s) with
      | None => unreachable
      | Some bw => put (set_ainput bw i s)
      end
  end.
Definition exec_ainput_done : F unit :=
  s ← get;
  match _PacketRecvInterface_job_done (ainput_recv s) with
  | None => unreachable
  | Some (i, len) => put (set_ainput (ainput s) i s);; run_encoder (Encoder.input_handler_done len)
  end.
Definition exec_enc_operation : F unit :=
  s ← get;
  match _PacketRecvInterface_job_operation (enc_output s) with
  | None | Some (_, None) => unreachable
  | Some (i, Some data) => put (set_enc_output i s);; run_encoder (Encoder.output_handler_recv data)
  end.
Definition exec_enc_done : F unit :=
  s ← get;
  match _PacketRecvInterface_job_done (enc_output s) with
  | None => unreachable
  | Some (i, len) => put (set_enc_output i s);; run_buffer (PacketBuffer_input_handler_done len)
  end.
(** the output is done with the packet, which it has read from the buffer *)
Definition output_done : F unit :=
  s ← get;
  match sending s with
  | Some (Some p, len) =>
      emit (Taken (slice p len (memory s)));;
      put (set_sending None s);;
      run_buffer PacketBuffer_output_handler_done
  | _ => unreachable
  end.

Inductive input :=
| Write (d : bytes)
| ExecAinputOperation | ExecAinputDone | ExecEncOperation | ExecEncDone
| OutputDone.

Definition step (i : input) : F unit :=
  match i with
  | Write d => write_packet d
  | ExecAinputOperation => exec_ainput_operation
  | ExecAinputDone => exec_ainput_done
  | ExecEncOperation => exec_enc_operation
  | ExecEncDone => exec_enc_done
  | OutputDone => output_done
  end.

(** Packets fit the MTU; jobs run when they are set; the output is done with a
    packet it was given. *)
Definition legal (s : PacketProtoFlow) (i : input) : Prop :=
  match i with
  | Write d => zlen d ≤ enc_input_mtu s
  | ExecAinputOperation => job_operation (ainput_recv s) = true
  | ExecAinputDone => job_done (ainput_recv s) = true
  | ExecEncOperation => job_operation (enc_output s) = true
  | ExecEncDone => job_done (enc_output s) = true
  | OutputDone => sending s ≠ None
  end.

(** ** Invariant

    One request goes round: the buffer asks the encoder for a packet, the encoder
    the writer, and a packet that is written comes back the same way.  [chain m s l]
    says where it is and which packet [l] is on its way back. *)

Definition idle (i : PacketRecvInterface) : Prop :=
  job_operation i = false ∧ job_done i = false ∧ state i = PRI_STATE_NONE.
Definition asked (i : PacketRecvInterface) (data : option Z) : Prop :=
  job_operation i = true ∧ job_operation_data i = data ∧ job_done i = false ∧
  state i = PRI_STATE_OPERATION_PENDING.
Definition busy (i : PacketRecvInterface) : Prop :=
  job_operation i = false ∧ job_done i = false ∧ state i = PRI_STATE_BUSY.
Definition done_with (i : PacketRecvInterface) (len : Z) : Prop :=
  job_operation i = false ∧ job_done i = true ∧ job_done_len i = len ∧
  state i = PRI_STATE_DONE_PENDING.

Definition room (m : Z) (c : ChunkBuffer2) (o : Z) : Prop := input_dest c = Some o ∧ m ≤ input_avail c.

Inductive chain (m : Z) (s : PacketProtoFlow) : list bytes → Prop :=
| ch_full :
    input_avail (buf (pbuffer s)) < m → idle (enc_output s) → enc_output_packet s = None →
    idle (ainput_recv s) → out_have (ainput s) = false → chain m s []
| ch_asked o :
    room m (buf (pbuffer s)) o → asked (enc_output s) (Some o) → enc_output_packet s = None →
    idle (ainput_recv s) → out_have (ainput s) = false → chain m s []
| ch_encoder o :
    room m (buf (pbuffer s)) o → busy (enc_output s) → enc_output_packet s = Some o →
    asked (ainput_recv s) (Some (o + HEADER)) → out_have (ainput s) = false → chain m s []
| ch_writer o :
    room m (buf (pbuffer s)) o → busy (enc_output s) → enc_output_packet s = Some o →
    busy (ainput_recv s) → out_have (ainput s) = true → out (ainput s) = Some (o + HEADER) → chain m s []
| ch_written o d :
    room m (buf (pbuffer s)) o → busy (enc_output s) → enc_output_packet s = Some o →
    done_with (ainput_recv s) (zlen d) → out_have (ainput s) = false →
    PACKETPROTO_ENCLEN (zlen d) ≤ m → slice (o + HEADER) (zlen d) (memory s) = d → chain m s [d]
| ch_encoded o d :
    room m (buf (pbuffer s)) o → done_with (enc_output s) (zlen (encode d)) → enc_output_packet s = None →
    idle (ainput_recv s) → out_have (ainput s) = false →
    PACKETPROTO_ENCLEN (zlen d) ≤ m → slice o (zlen (encode d)) (memory s) = encode d → chain m s [d].

(** [q]: the packets in the buffer; the output is busy with the first one *)
Record flow_wf (mtu num : Z) (s : PacketProtoFlow) (q l : list bytes) : Prop := {
  f_mtu : 0 ≤ mtu ≤ PACKETPROTO_MAXPAYLOAD;
  f_num : 0 < num;
  f_mtus : d_mtu (ainput s) = mtu ∧ pri_mtu (ainput_recv s) = mtu ∧ enc_input_mtu s = mtu ∧
    pri_mtu (enc_output s) = PACKETPROTO_ENCLEN mtu ∧ input_mtu (pbuffer s) = PACKETPROTO_ENCLEN mtu;
  f_writing : d_writing (ainput s) = false;
  f_store : sized (PACKETPROTO_ENCLEN mtu) num (buf (pbuffer s)) q;
  f_fit : Forall (λ p, zlen p ≤ PACKETPROTO_ENCLEN mtu) q;
  f_sending : sending s = match q with
    | [] => None
    | p :: _ => Some (output_dest (buf (pbuffer s)), zlen p)
    end;
  f_chain : chain (PACKETPROTO_ENCLEN mtu) s l;
}.

Definition written (es : list event) : list bytes :=
  omap (λ e, match e with Written d => Some d | _ => None end) es.
Definition taken_packets (es : list event) : list bytes :=
  omap (λ e, match e with Taken p => Some p | _ => None end) es.

(** A step from [(q, l)] to [(q', l')]: nothing is lost, made up or reordered. *)
Definition flow_step_ok (mtu num : Z) (i : input) (s : PacketProtoFlow) (q l : list bytes) : Prop :=
  ∃ s' es q' l', step i s = Some (tt, s', es) ∧ flow_wf mtu num s' q' l' ∧
    q ++ map encode l ++ map encode (written es) = taken_packets es ++ q' ++ map encode l'.

Ltac flow_cbn :=
  cbn [set_packet set_ainput set_enc_output set_pbuffer set_sending set_memory set_encoder encoder memory
       ainput ainput_recv enc_input_mtu enc_output_packet enc_output pbuffer sending
       pri_mtu job_operation job_operation_data job_done job_done_len state
       out_have out d_mtu d_writing buf input_mtu
       Encoder.output_packet Encoder.input_mtu Encoder.input_recv Encoder.mem] in *.

(** What the code checks of an interface in each situation. *)
Lemma recv_idle i data :
  idle i → data ≠ None →
  ∃ i', PacketRecvInterface_Receiver_Recv data i = Some i' ∧ asked i' data ∧ pri_mtu i' = pri_mtu i.
Proof.
  intros (H1 & H2 & H3) Hd. unfold PacketRecvInterface_Receiver_Recv, is_state.
  destruct data as [p|]; [|done]. cbn [not_null]. rewrite orb_true_r, H3, bool_decide_true by done.
  eexists. split; [done|]. by split_and!.
Qed.
Lemma operation_asked i data :
  asked i data →
  ∃ i', _PacketRecvInterface_job_operation i = Some (i', data) ∧ busy i' ∧ pri_mtu i' = pri_mtu i.
Proof.
  intros (H1 & H2 & H3 & H4). unfold _PacketRecvInterface_job_operation, is_state.
  rewrite H4, bool_decide_true, H2 by done. eexists. split; [done|]. by split_and!.
Qed.
Lemma done_busy i len :
  busy i → 0 ≤ len ≤ pri_mtu i →
  ∃ i', PacketRecvInterface_Done len i = Some i' ∧ done_with i' len ∧ pri_mtu i' = pri_mtu i.
Proof.
  intros (H1 & H2 & H3) Hl. unfold PacketRecvInterface_Done, is_state.
  rewrite H3, bool_decide_true by done. repeat zcase. eexists. split; [done|]. by split_and!.
Qed.
Lemma job_done_with i len :
  done_with i len →
  ∃ i', _PacketRecvInterface_job_done i = Some (i', len) ∧ idle i' ∧ pri_mtu i' = pri_mtu i.
Proof.
  intros (H1 & H2 & H3 & H4). unfold _PacketRecvInterface_job_done, is_state.
  rewrite H4, bool_decide_true, H3 by done. eexists. split; [done|]. by split_and!.
Qed.

Lemma encode_len d : zlen (encode d) = PACKETPROTO_ENCLEN (zlen d).
Proof. unfold encode, PACKETPROTO_ENCLEN, HEADER. by rewrite zlen_app, zlen_le_bytes. Qed.

(** Only the job that moves the request is set. *)
Lemma chain_jobs m s l :
  chain m s l →
  (job_operation (enc_output s) = true → ∃ o, room m (buf (pbuffer s)) o ∧ asked (enc_output s) (Some o) ∧
     enc_output_packet s = None ∧ idle (ainput_recv s) ∧ out_have (ainput s) = false ∧ l = []) ∧
  (job_operation (ainput_recv s) = true → ∃ o, room m (buf (pbuffer s)) o ∧ busy (enc_output s) ∧
     enc_output_packet s = Some o ∧ asked (ainput_recv s) (Some (o + HEADER)) ∧
     out_have (ainput s) = false ∧ l = []).
Proof.
  intros H. unfold idle, asked, busy, done_with.
  split; intros Hj; destruct H; unfold idle, asked, busy, done_with in *; destruct_and?; try congruence;
    exists o; split_and!; done.
Qed.

Lemma set_memory_id s : set_memory (memory s) s = s.
Proof. by destruct s as [? ? ? ? ? [[]]]. Qed.

Lemma encoder_recv_run s o i :
  enc_output_packet s = None →
  PacketRecvInterface_Receiver_Recv (Some (o + HEADER)) (ainput_recv s) = Some i →
  run_encoder (Encoder.output_handler_recv o) s = Some (tt, set_packet (Some o) (set_ainput (ainput s) i s), []).
Proof.
  intros Hp Hi. eapply zoom_run.
  - unfold Encoder.output_handler_recv. m_step. unfold encoder at 1. cbn. rewrite Hp. m_assert. m_assert. reflexivity.
  - apply calls_one. cbn [encoder_call]. unfold on_ainput_recv. m_step.
    assert (set_encoder (Encoder.mkEnc (Some o) (enc_input_mtu s) (Some (o + HEADER)) (memory s)) s
            = set_packet (Some o) s) as E.
    { unfold set_encoder, set_packet. cbn. etransitivity; [|apply set_memory_id]. done. }
    cbn in E |- *. rewrite E. cbn. rewrite Hi. done.
Qed.

Lemma encoder_done_run s o len i :
  enc_output_packet s = Some o →
  PacketRecvInterface_Done (PACKETPROTO_ENCLEN len) (enc_output s) = Some i →
  run_encoder (Encoder.input_handler_done len) s
    = Some (tt, set_packet None (set_enc_output i
              (set_memory (splice o (le_bytes 2 (htol16 (u16 len))) (memory s)) s)), []).
Proof.
  intros Hp Hi. eapply zoom_run.
  - unfold Encoder.input_handler_done. m_step. unfold encoder at 1. cbn. rewrite Hp. m_assert. cbn. reflexivity.
  - apply calls_one. cbn [encoder_call]. unfold on_enc_output. m_step. cbn. rewrite Hi. done.
Qed.

Ltac flow_wf_tac Hm := split; flow_cbn; try done; try (destruct Hm as (?&?&?&?&?); split_and!; congruence).

Lemma exec_enc_operation_ok mtu num s q l :
  flow_wf mtu num s q l → legal s ExecEncOperation → flow_step_ok mtu num ExecEncOperation s q l.
Proof.
  intros [H1 H2 Hm Hw Hs Hf Hse Hc] Hl. destruct (chain_jobs _ _ _ Hc) as [Hj _].
  destruct (Hj Hl) as (o & Hr & Ha & Hp & Hi & Hh & ->).
  destruct (operation_asked _ _ Ha) as (i1 & E1 & Hb1 & Hm1).
  destruct (recv_idle (ainput_recv s) (Some (o + HEADER)) Hi) as (i0 & E0 & Ha0 & Hm0); [done|].
  unfold flow_step_ok. cbn [step]. unfold exec_enc_operation. m_step. rewrite E1. m_step.
  erewrite encoder_recv_run; [|done|exact E0].
  eexists _, _, q, []. split; [reflexivity|]. split; [|done].
  flow_wf_tac Hm. by apply (ch_encoder _ _ o).
Qed.

Lemma exec_ainput_operation_ok mtu num s q l :
  flow_wf mtu num s q l → legal s ExecAinputOperation → flow_step_ok mtu num ExecAinputOperation s q l.
Proof.
  intros [H1 H2 Hm Hw Hs Hf Hse Hc] Hl. destruct (chain_jobs _ _ _ Hc) as [_ Hj].
  destruct (Hj Hl) as (o & Hr & Hb & Hp & Ha & Hh & ->).
  destruct (operation_asked _ _ Ha) as (i1 & E1 & Hb1 & Hm1).
  unfold flow_step_ok. cbn [step]. unfold exec_ainput_operation. m_step. rewrite E1.
  unfold BufferWriter_output_handler_recv. rewrite Hh. cbn [negb].
  eexists _, _, q, []. split; [reflexivity|]. split; [|done].
  flow_wf_tac Hm. by apply (ch_writer _ _ o).
Qed.

(** Writing into the area of the next packet. *)
Lemma set_memory_wf m num s q o k d :
  sized m num (buf (pbuffer s)) q → room m (buf (pbuffer s)) o → 0 ≤ k → k + zlen d ≤ m →
  let s' := set_memory (splice (o + k) d (memory s)) s in
  sized m num (buf (pbuffer s')) q ∧ slice (o + k) (zlen d) (memory s') = d ∧
  room m (buf (pbuffer s')) o.
Proof.
  intros (Hwf & Hmt & Hsz) [Ho Hav] Hk Hd. cbn.
  destruct (write_within_wf _ _ o k d Hwf Ho Hk) as (Hwf' & Hsl & _); [lia|].
  split; [done|]. by split.
Qed.

Lemma write_packet_ok mtu num s q l d :
  flow_wf mtu num s q l → legal s (Write d) → flow_step_ok mtu num (Write d) s q l.
Proof.
  intros [H1 H2 Hm Hw Hs Hf Hse Hc] Hl. cbn in Hl. pose proof Hm as (Hmb & Hm0 & Hme & Hm1 & Hmi).
  rewrite Hme in Hl. pose proof (zlen_nonneg d).
  unfold flow_step_ok. cbn [step]. unfold write_packet, BufferWriter_StartPacket. m_step. rewrite Hw. cbn [negb].
  destruct (out_have (ainput s)) eqn:Hh; cbn [negb].
  - inversion Hc as [?? Hi ? Hx|?????? Hx|?????? Hx|o Hr Hb Hp Hb0 _ Ho|????????|???????]; try congruence. subst l.
    rewrite Ho. m_step. cbn [out_have d_mtu d_writing].
    unfold BufferWriter_EndPacket. cbn [out_have d_mtu d_writing out]. rewrite Hmb. repeat zcase. m_step.
    destruct (done_busy (ainput_recv s) (zlen d) Hb0) as (i0 & E0 & Hd0 & Hmi0); [lia|].
    destruct (set_memory_wf _ _ s q o HEADER d Hs Hr) as (Hs' & Hsl & Hr'); [done|unfold PACKETPROTO_ENCLEN; lia|].
    rewrite M_bind_run0 with (a := tt) (s1 := set_ainput (mkBW false (Some (o + HEADER)) mtu false) i0
      (set_memory (splice (o + HEADER) d (memory s)) s)).
    2:{ unfold on_ainput_recv. m_step. cbn. by rewrite E0. }
    eexists _, _, q, [d]. split; [reflexivity|]. split; [|done].
    flow_wf_tac Hm. apply (ch_written _ _ o d); try done. cbn. unfold PACKETPROTO_ENCLEN. lia.
  - eexists _, _, q, l. split; [reflexivity|]. split; [by split|]. cbn. by rewrite app_nil_r.
Qed.

Lemma chain_done m s l :
  chain m s l →
  (job_done (ainput_recv s) = true → ∃ o d, room m (buf (pbuffer s)) o ∧ busy (enc_output s) ∧
     enc_output_packet s = Some o ∧ done_with (ainput_recv s) (zlen d) ∧ out_have (ainput s) = false ∧
     PACKETPROTO_ENCLEN (zlen d) ≤ m ∧ slice (o + HEADER) (zlen d) (memory s) = d ∧ l = [d]) ∧
  (job_done (enc_output s) = true → ∃ o d, room m (buf (pbuffer s)) o ∧
     done_with (enc_output s) (zlen (encode d)) ∧ enc_output_packet s = None ∧ idle (ainput_recv s) ∧
     out_have (ainput s) = false ∧ PACKETPROTO_ENCLEN (zlen d) ≤ m ∧
     slice o (zlen (encode d)) (memory s) = encode d ∧ l = [d]).
Proof.
  intros H. unfold idle, asked, busy, done_with.
  split; intros Hj; destruct H; unfold idle, asked, busy, done_with in *; destruct_and?; try congruence;
    exists o, d; split_and!; done.
Qed.

Lemma exec_ainput_done_ok mtu num s q l :
  flow_wf mtu num s q l → legal s ExecAinputDone → flow_step_ok mtu num ExecAinputDone s q l.
Proof.
  intros [H1 H2 Hm Hw Hs Hf Hse Hc] Hl. destruct (chain_done _ _ _ Hc) as [Hj _].
  destruct (Hj Hl) as (o & d & Hr & Hb & Hp & Hd & Hh & Hlen & Hsl & ->).
  pose proof (zlen_nonneg d). unfold PACKETPROTO_MAXPAYLOAD, UINT16_MAX in *.
  destruct (job_done_with _ _ Hd) as (i1 & E1 & Hi1 & Hm1).
  destruct (done_busy (enc_output s) (zlen (encode d)) Hb) as (i0 & E0 & Hd0 & Hm0).
  { rewrite encode_len. destruct Hm as (_ & _ & _ & -> & _). unfold PACKETPROTO_ENCLEN, HEADER in *. lia. }
  rewrite encode_len in E0.
  unfold flow_step_ok. cbn [step]. unfold exec_ainput_done. m_step. rewrite E1. m_step.
  erewrite encoder_done_run; [|exact Hp|exact E0].
  eexists _, _, q, [d]. split; [reflexivity|]. split; [|done].
  assert (le_bytes 2 (htol16 (u16 (zlen d))) = le_bytes 2 (zlen d)) as ->.
  { unfold htol16, u16. rewrite Z.mod_small; [done|]. unfold PACKETPROTO_ENCLEN, HEADER in *. lia. }
  destruct (set_memory_wf _ _ s q o 0 (le_bytes 2 (zlen d)) Hs Hr) as (Hs' & Hsl' & Hr');
    [done|rewrite zlen_le_bytes; unfold PACKETPROTO_ENCLEN, HEADER in *; lia|]. rewrite Z.add_0_r in *.
  destruct Hs as (Hwf & _). destruct Hr as [Ho Hav]. pose proof (input_fits _ _ _ Hwf Ho) as [Ho0 Hfit].
  flow_wf_tac Hm. apply (ch_encoded _ _ o d); try done. cbn.
  unfold memory in *. cbn in Hsl' |- *. rewrite encode_len. unfold PACKETPROTO_ENCLEN, HEADER in *.
  rewrite slice_split by lia. rewrite (slice_splice_after (o + 2)) by (rewrite ?zlen_le_bytes; lia).
  rewrite Hsl. unfold encode. f_equal. by rewrite zlen_le_bytes in Hsl'.
Qed.

(** The buffer after a packet was put into it. *)
Lemma buffer_input_done_run num m c q o d s :
  sized m num c q → room m c o → 0 ≤ m → zlen d ≤ m → slice o (zlen d) (buffer c) = d →
  pbuffer s = mkPB c m → idle (enc_output s) → pri_mtu (enc_output s) = m →
  ∃ c' i' es, run_buffer (PacketBuffer_input_handler_done (zlen d)) s
    = Some (tt, set_pbuffer (mkPB c' m) (set_enc_output i'
        (match q with [] => set_sending (Some (output_dest c', zlen d)) s | _ => s end)), es) ∧
    written es = [] ∧ taken_packets es = [] ∧ pri_mtu i' = m ∧
    sized m num c' (q ++ [d]) ∧ (q ≠ [] → output_dest c' = output_dest c) ∧
    (input_avail c' < m ∧ idle i' ∨ ∃ o', room m c' o' ∧ asked i' (Some o')).
Proof.
  intros (Hwf & Hmt & Hsz) [Ho Hav] Hm0 Hd Hsl Hpb Hi Hpm. pose proof (zlen_nonneg d).
  destruct (input_fits _ _ _ Hwf Ho) as [Ho0 Hfit].
  destruct (wf_put c q d Hwf) as (c' & E & Hwf' & Hsz' & Hmt' & Hout); [congruence|lia|].
  assert (write_input c d = c) as Ew.
  { unfold write_input. rewrite Ho, splice_id by (done || lia). by destruct c. }
  rewrite Ew in E. pose proof (wf_read _ _ Hwf) as Hrd. pose proof (wf_read _ _ Hwf') as Hrd'.
  set (was_empty := output_avail c <? 0).
  assert (was_empty = match q with [] => true | _ => false end) as Hwas.
  { unfold was_empty. destruct q as [|p q]; destruct Hrd as (_ & -> & _); [done|].
    apply Z.ltb_ge, zlen_nonneg. }
  assert (sized m num c' (q ++ [d])) as Hs' by (split; [done|split; congruence]).
  assert (PacketBuffer_input_handler_done (zlen d) (mkPB c m) =
    Some (tt, mkPB c' m, (if input_avail c' >=? m then [Recv (input_dest c')] else []) ++
                         (if was_empty then [Send (output_dest c') (output_avail c')] else []))) as Eh.
  { unfold PacketBuffer_input_handler_done. m_step. cbn [input_mtu buf ps_submit ChunkBuffer2_store ps_out_avail].
    rewrite ASSERT_true by (rewrite Z.geb_leb; apply Z.leb_le; lia).
    rewrite ASSERT_true by (apply Z.leb_le; lia). rewrite E. m_step. cbn. fold was_empty.
    destruct (input_avail c' >=? m), was_empty; done. }
  assert (∃ i', (if input_avail c' >=? m then PacketRecvInterface_Receiver_Recv (input_dest c') (enc_output s)
            else Some (enc_output s)) = Some i' ∧ pri_mtu i' = m ∧
          (input_avail c' < m ∧ idle i' ∨ ∃ o', room m c' o' ∧ asked i' (Some o'))) as (i' & Ei & Him & Hor).
  { rewrite Z.geb_leb. destruct (Z.leb_spec m (input_avail c')) as [Hr|Hr].
    - destruct (input_dest c') as [o'|] eqn:Ho'; [|apply (wf_in_avail _ _ Hwf') in Ho'; lia].
      destruct (recv_idle _ (Some o') Hi) as (i' & -> & Ha & Hpi); [done|]. exists i'.
      split; [done|]. split; [congruence|]. right. exists o'. by split.
    - exists (enc_output s). split; [done|]. split; [done|]. by left. }
  exists c', i', (match q with [] => [Sent (zlen d)] | _ => [] end). split.
  - eapply zoom_run; [rewrite Hpb; exact Eh|].
    assert (∀ s0, enc_output s0 = enc_output s →
      calls buffer_call (if input_avail c' >=? m then [Recv (input_dest c')] else []) s0
        = Some (tt, set_enc_output i' s0, [])) as Hc1.
    { intros s0 Es. destruct (input_avail c' >=? m).
      - apply calls_one. cbn [buffer_call]. unfold on_enc_output. m_step. by rewrite Es, Ei.
      - cbn. injection Ei as <-. rewrite <-Es. by destruct s0. }
    rewrite calls_app, Hc1 by done. rewrite Hwas. destruct q as [|p q]; [|reflexivity].
    cbn [app] in Hrd'. destruct Hrd' as (_ & Hoa & _). rewrite Hoa.
    erewrite calls_one; [|reflexivity]. reflexivity.
  - split; [by destruct q|]. split; [by destruct q|]. split; [done|]. split; [done|]. split; [|done].
    intros Hq. by apply Hout.
Qed.

Lemma exec_enc_done_ok mtu num s q l :
  flow_wf mtu num s q l → legal s ExecEncDone → flow_step_ok mtu num ExecEncDone s q l.
Proof.
  intros [H1 H2 Hm Hw Hs Hf Hse Hc] Hl. destruct (chain_done _ _ _ Hc) as [_ Hj].
  destruct (Hj Hl) as (o & d & Hr & Hd & Hp & Hi & Hh & Hlen & Hsl & ->).
  destruct (job_done_with _ _ Hd) as (i1 & E1 & Hi1 & Hm1). pose proof Hm as (_ & _ & _ & Hme & Hmb).
  destruct (buffer_input_done_run num (PACKETPROTO_ENCLEN mtu) _ q o (encode d) (set_enc_output i1 s) Hs Hr)
    as (c' & i' & es & E & Hew & Het & Hpm & Hs' & Hout & Hroom); try done.
  { unfold PACKETPROTO_ENCLEN, HEADER. lia. }
  { by rewrite encode_len. }
  { cbn. rewrite <-Hmb. by destruct (pbuffer s). }
  { cbn. congruence. }
  unfold flow_step_ok. cbn [step]. unfold exec_enc_done. m_step. rewrite E1. m_step. rewrite E.
  eexists _, _, (q ++ [encode d]), []. split; [reflexivity|]. split; [|by rewrite Hew, Het, <-app_assoc].
  assert (output_dest c' = output_dest (buf (pbuffer s)) ∨ q = []) as Hor
    by (destruct q; [by right|left; by apply Hout]).
  flow_wf_tac Hm.
  - by destruct q; flow_cbn; destruct Hm as (?&?&?&?&?); split_and!.
  - by destruct q.
  - apply Forall_app. split; [done|]. constructor; [by rewrite encode_len|done].
  - destruct q as [|x q]; [done|]. cbn. rewrite Hse. destruct Hor as [->|]; done.
  - destruct Hroom as [[? ?]|(o' & ? & ?)].
    + apply ch_full; by destruct q.
    + apply (ch_asked _ _ o'); by destruct q.
Qed.

(** The buffer after the output took a packet. *)
Lemma buffer_output_done_run num m c q p s :
  sized m num c (p :: q) → 0 ≤ m → pbuffer s = mkPB c m → sending s = None →
  pri_mtu (enc_output s) = m → (input_avail c < m → idle (enc_output s)) →
  ∃ c' i' es, run_buffer PacketBuffer_output_handler_done s
    = Some (tt, set_pbuffer (mkPB c' m) (set_enc_output i'
        (match q with [] => s | x :: _ => set_sending (Some (output_dest c', zlen x)) s end)), es) ∧
    written es = [] ∧ taken_packets es = [] ∧ pri_mtu i' = m ∧ sized m num c' q ∧ buffer c' = buffer c ∧
    (∀ o, room m c o → room m c' o) ∧
    (m ≤ input_avail c → i' = enc_output s) ∧
    (input_avail c < m → input_avail c' < m ∧ idle i' ∨ ∃ o', room m c' o' ∧ asked i' (Some o')).
Proof.
  intros (Hwf & Hmt & Hsz) Hm0 Hpb Hse Hpm Hi.
  destruct (wf_get c q p Hwf) as (c' & E & Hwf' & Hsz' & Hmt' & Hin & Hav).
  pose proof (wf_read _ _ Hwf') as Hrd. pose proof (Consume_buffer _ _ E) as Hbuf.
  set (was_full := input_avail c <? m).
  assert (PacketBuffer_output_handler_done (mkPB c m) =
    Some (tt, mkPB c' m, (if was_full && (input_avail c' >=? m) then [Recv (input_dest c')] else []) ++
                         (match q with [] => [] | x :: _ => [Send (output_dest c') (zlen x)] end))) as Eh.
  { unfold PacketBuffer_output_handler_done. m_step. cbn [input_mtu buf ps_consume ChunkBuffer2_store ps_in_avail].
    rewrite E. m_step. cbn. fold was_full.
    destruct q as [|x q]; destruct Hrd as (_ & -> & _);
      [|rewrite (proj2 (Z.geb_le (zlen x) 0)) by apply zlen_nonneg];
      by destruct (was_full && (input_avail c' >=? m)). }
  assert (∃ i', (if was_full && (input_avail c' >=? m) then
              PacketRecvInterface_Receiver_Recv (input_dest c') (enc_output s)
            else Some (enc_output s)) = Some i' ∧ pri_mtu i' = m ∧
          (m ≤ input_avail c → i' = enc_output s) ∧
          (input_avail c < m → input_avail c' < m ∧ idle i' ∨ ∃ o', room m c' o' ∧ asked i' (Some o')))
    as (i' & Ei & Him & Hkeep & Hor).
  { unfold was_full. rewrite Z.geb_leb. destruct (Z.ltb_spec (input_avail c) m) as [Hlt|Hge]; cbn [andb].
    - destruct (Z.leb_spec m (input_avail c')) as [Hr|Hr].
      + destruct (input_dest c') as [o'|] eqn:Ho'; [|apply (wf_in_avail _ _ Hwf') in Ho'; lia].
        destruct (recv_idle _ (Some o') (Hi Hlt)) as (i' & -> & Ha & Hpi); [done|]. exists i'.
        split; [done|]. split; [congruence|]. split; [lia|]. right. exists o'. by split.
      + exists (enc_output s). split; [done|]. split; [done|]. split; [lia|]. left. auto.
    - exists (enc_output s). split; [done|]. split; [done|]. split; [done|lia]. }
  exists c', i', (match q with [] => [] | x :: _ => [Sent (zlen x)] end).
  split; [|split; [by destruct q|split; [by destruct q|split; [done|split; [by split; [done|split; congruence]|split; [done|split; [|by split]]]]]]].
  - eapply zoom_run; [rewrite Hpb; exact Eh|].
    assert (calls buffer_call (if was_full && (input_avail c' >=? m) then [Recv (input_dest c')] else [])
        (set_pbuffer (mkPB c' m) s) = Some (tt, set_enc_output i' (set_pbuffer (mkPB c' m) s), [])) as Hc1.
    { destruct (was_full && (input_avail c' >=? m)).
      - apply calls_one. cbn [buffer_call]. unfold on_enc_output. m_step. cbn. by rewrite Ei.
      - cbn. injection Ei as <-. by destruct s. }
    rewrite calls_app, Hc1. destruct q as [|x q]; [done|]. erewrite calls_one; [|reflexivity]. done.
  - intros o [Ho Hr]. split; [by apply Hin|lia].
Qed.

Lemma output_done_ok mtu num s q l :
  flow_wf mtu num s q l → legal s OutputDone → flow_step_ok mtu num OutputDone s q l.
Proof.
  intros [H1 H2 Hm Hw Hs Hf Hse Hc] Hl. cbn in Hl. rewrite Hse in Hl.
  destruct q as [|p q]; [done|]. pose proof Hm as (_ & _ & _ & Hme & Hmb). destruct Hs as (Hwf & Hs).
  pose proof (wf_read _ _ Hwf) as (Hod & _ & Hread). unfold read_output in Hread.
  destruct (wf_output _ _ Hwf) as (_ & _ & Hoa & _).
  destruct (output_dest (buf (pbuffer s))) as [o|] eqn:Ho; [|done]. injection Hread as Hread.
  rewrite Hoa in Hread.
  destruct (buffer_output_done_run num (PACKETPROTO_ENCLEN mtu) (buf (pbuffer s)) q p (set_sending None s))
    as (c' & i' & es & E & Hew & Het & Hpm & Hs' & Hbuf & Hroom & Hkeep & Hfull).
  - by split.
  - unfold PACKETPROTO_ENCLEN, HEADER. lia.
  - cbn. rewrite <-Hmb. by destruct (pbuffer s).
  - done.
  - done.
  - intros Hlt. inversion Hc; unfold room in *; destruct_and?; (done || lia).
  - unfold flow_step_ok. cbn [step]. unfold output_done. m_step. rewrite Hse.
    rewrite (M_bind_run _ _ _ _ _ [Taken (slice o (zlen p) (memory s))] eq_refl). m_step. rewrite E.
    eexists _, _, q, l. split; [reflexivity|]. split.
    + split; flow_cbn; try done.
      * by destruct q; flow_cbn; destruct Hm as (?&?&?&?&?); split_and!.
      * by destruct q.
      * by apply Forall_inv_tail in Hf.
      * by destruct q.
      * inversion Hc as [Hav Hi Hp Hia Hh|o' Hr|o' Hr|o' Hr|o' d Hr|o' d Hr]; subst.
        -- destruct (Hfull Hav) as [[? ?]|(o' & ? & ?)]; [apply ch_full; by destruct q|].
           apply (ch_asked _ _ o'); by destruct q.
        -- rewrite Hkeep by apply Hr. apply (ch_asked _ _ o'); destruct q; try done; by apply Hroom.
        -- rewrite Hkeep by apply Hr. apply (ch_encoder _ _ o'); destruct q; try done; by apply Hroom.
        -- rewrite Hkeep by apply Hr. apply (ch_writer _ _ o'); destruct q; try done; by apply Hroom.
        -- rewrite Hkeep by apply Hr. apply (ch_written _ _ o'); destruct q; try done; try (by apply Hroom);
             unfold memory in *; cbn; by rewrite Hbuf.
        -- rewrite Hkeep by apply Hr. apply (ch_encoded _ _ o'); destruct q; try done; try (by apply Hroom);
             unfold memory in *; cbn; by rewrite Hbuf.
    + cbn. fold (written es) (taken_packets es). rewrite Hew, Het. cbn. unfold memory. rewrite Hread.
      by rewrite app_nil_r.
Qed.

Lemma flow_step mtu num i s q l : flow_wf mtu num s q l → legal s i → flow_step_ok mtu num i s q l.
Proof.
  intros Hwf Hl. destruct i.
  - by apply write_packet_ok.
  - by apply exec_ainput_operation_ok.
  - by apply exec_ainput_done_ok.
  - by apply exec_enc_operation_ok.
  - by apply exec_enc_done_ok.
  - by apply output_done_ok.
Qed.

(** ** Runs *)

Inductive legal_run : PacketProtoFlow → list input → list event → PacketProtoFlow → Prop :=
| run_nil s : legal_run s [] [] s
| run_cons s i u s1 es1 ins es2 s2 :
    legal s i → step i s = Some (u, s1, es1) → legal_run s1 ins es2 s2 →
    legal_run s (i :: ins) (es1 ++ es2) s2.

Lemma written_app es1 es2 : written (es1 ++ es2) = written es1 ++ written es2.
Proof. apply omap_app. Qed.
Lemma taken_packets_app es1 es2 : taken_packets (es1 ++ es2) = taken_packets es1 ++ taken_packets es2.
Proof. apply omap_app. Qed.

Lemma legal_run_flow mtu num s ins es s' : ∀ q l,
  flow_wf mtu num s q l → legal_run s ins es s' →
  ∃ q' l', flow_wf mtu num s' q' l' ∧
    q ++ map encode l ++ map encode (written es) = taken_packets es ++ q' ++ map encode l'.
Proof.
  intros q l Hwf Hr. revert q l Hwf. induction Hr as [s|s i u s1 es1 ins es2 s2 Hl Hs Hr IH]; intros q l Hwf.
  - exists q, l. split; [done|]. cbn. by rewrite app_nil_r.
  - destruct (flow_step mtu num i s q l Hwf Hl) as (s1' & es' & q1 & l1 & E & Hwf1 & E1).
    rewrite E in Hs. simplify_eq. destruct (IH q1 l1 Hwf1) as (q2 & l2 & Hwf2 & E2).
    exists q2, l2. split; [done|]. rewrite written_app, taken_packets_app, map_app.
    rewrite (app_assoc (map encode l)), (app_assoc q), E1, <-!app_assoc. by rewrite E2.
Qed.

(** the allocator: as many blocks as were asked for *)
Definition alloc_ok (alloc : Z → option bytes) : Prop :=
  ∀ n mem, alloc n = Some mem → zlen mem = BLOCK * n ∧ BLOCK * n ≤ INT_MAX.

Lemma PacketProtoFlow_Init_wf mtu num out_mtu alloc s :
  alloc_ok alloc → num ≤ INT_MAX →
  PacketProtoFlow_Init mtu num out_mtu alloc = Some (Some s) → flow_wf mtu num s [] [].
Proof.
  intros Ha Hnum. unfold PacketProtoFlow_Init, BufferWriter_Init, PacketRecvInterface_Init, PacketBuffer_Init.
  destruct (mtu >=? 0) eqn:H0; [|done]. destruct (mtu <=? _) eqn:H1; [|done]. destruct (num >? 0) eqn:H2; [|done].
  destruct (out_mtu >=? _) eqn:H3; [|done]. zbool.
  destruct (PACKETPROTO_ENCLEN mtu >=? 0) eqn:H4; [|done].
  unfold PACKETPROTO_MAXPAYLOAD, UINT16_MAX in *.
  set (m := PACKETPROTO_ENCLEN mtu) in *. assert (0 ≤ m ≤ INT_MAX) as Hm
    by (unfold m, PACKETPROTO_ENCLEN, HEADER, INT_MAX; lia).
  rewrite calc_blocks_spec by (done || lia). set (b := (num + 1) * (1 + bdivide_up m BLOCK)).
  pose proof (bdivide_up_nonneg m BLOCK ltac:(lia) ltac:(done)).
  destruct (b <=? INT_MAX); [|done]. destruct (b <? 0) eqn:Hb; [done|].
  destruct (alloc b) as [mem|] eqn:Hal; [|done]. destruct (Ha _ _ Hal) as [Hmem Hmax].
  destruct (Init_wf mem b m Hmem Hmax) as (c & -> & Hwf & Hsz & Hmt); [lia|unfold b; nia|].
  assert (sized m num c []) as Hs by by split.
  pose proof (sized_room m num c [] ltac:(lia) ltac:(lia) Hs ltac:(by right) ltac:(done)) as Hav.
  destruct (input_dest c) as [o|] eqn:Ho; [|apply (wf_in_avail _ _ Hwf) in Ho; lia].
  destruct (recv_idle (mkPRI m false None false 0 PRI_STATE_NONE) (Some o)) as (i & Ei & Hi & Hmi); [done|done|].
  erewrite calls_one.
  2:{ cbn [buffer_call]. unfold on_enc_output. m_step. cbn [enc_output]. rewrite Ei. reflexivity. }
  intros [= <-]. split; cbn; try done.
  by apply (ch_asked _ _ o).
Qed.

(** No job is set. *)
Definition quiet (s : PacketProtoFlow) : Prop :=
  job_operation (ainput_recv s) = false ∧ job_done (ainput_recv s) = false ∧
  job_operation (enc_output s) = false ∧ job_done (enc_output s) = false.

Lemma quiet_writes mtu num s q l d :
  flow_wf mtu num s q l → quiet s →
  l = [] ∧ (zlen q < num → zlen d ≤ mtu → ∃ s', step (Write d) s = Some (tt, s', [Written d])).
Proof.
  intros Hwf (Hq1 & Hq2 & Hq3 & Hq4).
  assert (l = [] ∧ (out_have (ainput s) = true ∨ input_avail (buf (pbuffer s)) < PACKETPROTO_ENCLEN mtu)) as [-> Hor].
  { pose proof (f_chain _ _ _ _ _ Hwf) as Hc.
    destruct Hc; unfold idle, asked, busy, done_with in *; destruct_and?; try congruence; split; auto. }
  split; [done|]. intros Hn Hd.
  assert (out_have (ainput s) = true) as Hh.
  { destruct Hor as [|Hlt]; [done|]. pose proof (f_mtu _ _ _ _ _ Hwf). pose proof (f_num _ _ _ _ _ Hwf).
    pose proof (sized_room (PACKETPROTO_ENCLEN mtu) num _ q ltac:(unfold PACKETPROTO_ENCLEN, HEADER; lia) ltac:(lia)
      (f_store _ _ _ _ _ Hwf) ltac:(by left) (f_fit _ _ _ _ _ Hwf)). lia. }
  destruct (write_packet_ok mtu num s q [] d Hwf) as (s' & es & q' & l' & E & _ & _).
  { cbn. destruct (f_mtus _ _ _ _ _ Hwf) as (_ & _ & -> & _). done. }
  exists s'. rewrite E. do 2 f_equal. revert E. cbn [step]. unfold write_packet, BufferWriter_StartPacket.
  m_step. rewrite (f_writing _ _ _ _ _ Hwf), Hh. cbn [negb]. destruct (out (ainput s)); [|done].
  m_step. destruct (BufferWriter_EndPacket _ _); [|done]. m_step. unfold on_ainput_recv. rewrite M_bind_assoc. m_step.
  case_match; [|done]. m_step. by intros [= _ <-].
Qed.

(** ** Properties *)

(** C11: the flow from a writer to its output is a FIFO queue of encoded packets.
    However the jobs, the user and the output interleave: no assertion fails; the
    packets the output takes are the encodings of the packets that were written,
    in order and with nothing lost but what is still on its way; and once the jobs
    have run, a packet is accepted whenever fewer than [num_packets] packets are
    waiting, also one that is longer than all before. *)
Theorem PacketProtoFlow_fifo mtu num out_mtu alloc s0 ins es s :
  alloc_ok alloc → num ≤ INT_MAX →
  PacketProtoFlow_Init mtu num out_mtu alloc = Some (Some s0) → legal_run s0 ins es s →
  (∀ i, legal s i → is_Some (step i s)) ∧
  ∃ waiting, map encode (written es) = taken_packets es ++ waiting ∧
    (quiet s → zlen waiting < num → ∀ d, zlen d ≤ mtu →
       ∃ s', step (Write d) s = Some (tt, s', [Written d])).
Proof.
  intros Ha Hn Hinit Hr. pose proof (PacketProtoFlow_Init_wf _ _ _ _ _ Ha Hn Hinit) as Hwf0.
  destruct (legal_run_flow _ _ _ _ _ _ _ _ Hwf0 Hr) as (q & l & Hwf & E). split.
  - intros i Hl. destruct (flow_step _ _ i s q l Hwf Hl) as (? & ? & ? & ? & -> & _). done.
  - exists (q ++ map encode l). split; [exact E|]. intros Hq Hw d Hd.
    destruct (quiet_writes _ _ _ _ _ d Hwf Hq) as [-> H]. cbn in Hw. rewrite app_nil_r in Hw. by apply H.
Qed.


(** A flow of MTU 4 and room for two packets. *)
Definition alloc0 (n : Z) : option bytes :=
  if (0 <=? n) && (BLOCK * n <=? INT_MAX) then Some (replicate (Z.to_nat (BLOCK * n)) 0) else None.
Lemma alloc0_ok : alloc_ok alloc0.
Proof.
  intros n mem. unfold alloc0. destruct (_ && _) eqn:E; [|done]. intros [= <-]. zbool.
  unfold zlen. rewrite length_replicate. unfold BLOCK in *. lia.
Qed.
Definition flow0 : PacketProtoFlow :=
  match PacketProtoFlow_Init 4 2 6 alloc0 with
  | Some (Some s) => s
  | _ => mkFlow (mkBW false None 0 false) (mkPRI 0 false None false 0 PRI_STATE_NONE) 0 None
           (mkPRI 0 false None false 0 PRI_STATE_NONE) (mkPB (mkCB [] 0 0 0 0 0 None 0 None 0) 0) None
  end.
Definition after (ins : list input) (s : PacketProtoFlow) : PacketProtoFlow :=
  match runs step ins s with Some (_, s', _) => s' | None => s end.
Definition flow_inputs : list input :=
  [ExecEncOperation; ExecAinputOperation; Write [7; 8]; ExecAinputDone; ExecEncDone; ExecEncOperation;
   ExecAinputOperation; Write [9]; OutputDone; ExecAinputDone; ExecEncDone].
Lemma flow_run : ∃ es, legal_run flow0 flow_inputs es (after flow_inputs flow0) ∧
  written es = [[7; 8]; [9]] ∧ taken_packets es = [[2; 0; 7; 8]].
Proof.
  eexists. split.
  - unfold flow_inputs at 1.
    repeat (eapply run_cons; [by vm_compute|vm_compute; reflexivity|]). apply run_nil.
  - by vm_compute.
Qed.

Lemma PacketProtoFlow_fifo_witness :
  ∃ es waiting, written es = [[7; 8]; [9]] ∧
    map encode (written es) = taken_packets es ++ waiting ∧ waiting = [encode [9]].
Proof.
  destruct flow_run as (es & Hr & Hw & Ht).
  destruct (PacketProtoFlow_fifo 4 2 6 alloc0 flow0 flow_inputs es (after flow_inputs flow0) alloc0_ok) as (_ & waiting & E & _);
    [by vm_compute|vm_compute; reflexivity|exact Hr|].
  exists es, waiting. split; [done|]. split; [done|]. rewrite Hw, Ht in E. by injection E as <-.
Defined.
