(* ===== verification/Stream.v ===== *)
(** * Packets to a stream and across connections

    [flow/PacketStreamSender.c] writes packets to a stream that takes a part of
    what it is given at a time; [flow/PacketPassConnector.c] passes packets to an
    output that comes and goes with the connection to the server.  Together with
    the flow and the decoder they carry packets from one end of a connection to
    the other.

    A pointer to the data of a packet stands for the data, which the sender of a
    packet keeps until the packet is done. *)

From S2P Require Import Prelude CInt ChunkBuffer PacketProto Flow.

(** ** PacketStreamSender.c *)
Module Sender.

Record PacketStreamSender := mkSS {
  ss_mtu : Z;
  in_len : Z;
  in_data : bytes;
  in_used : Z;
  out_op : option bytes;        (** the operation the output is busy with *)
}.

(** bytes taken by the stream; the packet of the input is done *)
Inductive event := Streamed (d : bytes) | Done.

Definition StreamPassInterface_Sender_Send (d : bytes) : M PacketStreamSender event unit :=
  s ← get;
  ASSERT (zlen d >? 0);;
  ASSERT (negb (not_null (out_op s)));;
  put (mkSS (ss_mtu s) (in_len s) (in_data s) (in_used s) (Some d)).

Definition send_data : M PacketStreamSender event unit :=
  s ← get;
  ASSERT (in_len s >=? 0);;
  if in_used s <? in_len s then
    StreamPassInterface_Sender_Send (slice (in_used s) (in_len s - in_used s) (in_data s))
  else
    put (mkSS (ss_mtu s) (-1) (in_data s) (in_used s) (out_op s));;
    emit Done.

Definition input_handler_send (data : bytes) : M PacketStreamSender event unit :=
  s ← get;
  ASSERT (in_len s =? -1);;
  put (mkSS (ss_mtu s) (zlen data) data 0 (out_op s));;
  send_data.

Definition output_handler_done (data_len : Z) : M PacketStreamSender event unit :=
  s ← get;
  ASSERT (in_len s >=? 0);;
  ASSERT (data_len >? 0);;
  ASSERT (data_len <=? in_len s - in_used s);;
  put (mkSS (ss_mtu s) (in_len s) (in_data s) (in_used s + data_len) (out_op s));;
  send_data.

Definition PacketStreamSender_Init (mtu : Z) : option PacketStreamSender :=
  assert! (mtu >=? 0);
  Some (mkSS mtu (-1) [] 0 None).

(** A packet comes in; the stream has taken [n] bytes of what it was given. *)
Inductive input := Packet (d : bytes) | OutputDone (n : Z).
Definition step (i : input) : M PacketStreamSender event unit :=
  match i with
  | Packet d => input_handler_send d
  | OutputDone n =>
      s ← get;
      match out_op s with
      | None => unreachable
      | Some d =>
          put (mkSS (ss_mtu s) (in_len s) (in_data s) (in_used s) None);;
          emit (Streamed (ztake n d));;
          output_handler_done n
      end
  end.
Definition legal (s : PacketStreamSender) (i : input) : Prop :=
  match i with
  | Packet d => in_len s = -1 ∧ zlen d ≤ ss_mtu s
  | OutputDone n => ∃ d, out_op s = Some d ∧ 0 < n ≤ zlen d
  end.

(** [rest]: the bytes of the current packet the stream has not taken *)
Definition ss_wf (s : PacketStreamSender) (rest : bytes) : Prop :=
  (in_len s = -1 ∧ out_op s = None ∧ rest = []) ∨
  (0 ≤ in_used s < in_len s ∧ in_len s = zlen (in_data s) ∧ rest = zdrop (in_used s) (in_data s) ∧
   out_op s = Some rest).

Definition packets (ins : list input) : list bytes :=
  omap (λ i, match i with Packet d => Some d | _ => None end) ins.
Definition streamed (es : list event) : bytes :=
  concat (omap (λ e, match e with Streamed d => Some d | _ => None end) es).
Definition is_done (e : event) : bool := match e with Done => true | _ => false end.

Lemma send_data_spec s :
  0 ≤ in_used s ≤ in_len s → in_len s = zlen (in_data s) → out_op s = None →
  ∃ s' es, send_data s = Some (tt, s', es) ∧ ss_wf s' (zdrop (in_used s) (in_data s)) ∧
    ss_mtu s' = ss_mtu s ∧ streamed es = [] ∧
    (if in_used s <? in_len s then es = [] ∧ in_len s' ≠ -1 else es = [Done] ∧ in_len s' = -1).
Proof.
  intros Hu Hl Ho. unfold send_data. m_step. rewrite ASSERT_true by (apply Z.geb_le; lia).
  destruct (Z.ltb_spec (in_used s) (in_len s)) as [Hlt|Hge].
  - unfold StreamPassInterface_Sender_Send. m_step. rewrite ASSERT_true.
    2:{ apply Z.gtb_lt. rewrite zlen_slice by lia. lia. }
    rewrite Ho. m_assert. eexists _, []. split; [reflexivity|]. split; [|split_and!; cbn; (done || lia)].
    right. cbn. split; [lia|]. split; [done|]. split; [done|]. f_equal. unfold slice.
    apply ztake_all. rewrite zlen_zdrop by lia. lia.
  - eexists _, [Done]. split; [reflexivity|]. split; [|done].
    left. cbn. split; [done|]. split; [done|]. apply zdrop_all. lia.
Qed.

Lemma sender_step_spec s i rest :
  ss_wf s rest → legal s i →
  ∃ s' es rest', step i s = Some (tt, s', es) ∧ ss_wf s' rest' ∧ ss_mtu s' = ss_mtu s ∧
    rest ++ concat (packets [i]) = streamed es ++ rest' ∧
    zlen (List.filter is_done es) = Z.b2z (in_len s' =? -1).
Proof.
  intros Hwf Hl. destruct i as [d|n]; cbn [step].
  - destruct Hl as [Hn Hd]. destruct Hwf as [(_ & Ho & ->)|(? & _)]; [|lia].
    unfold input_handler_send. m_step. rewrite Hn. m_assert. m_step. pose proof (zlen_nonneg d).
    destruct (send_data_spec (mkSS (ss_mtu s) (zlen d) d 0 (out_op s))) as (s' & es & E & Hwf' & Hm & Hes & Hc);
      [cbn; lia|done|done|].
    exists s', es, d. rewrite E. cbn in Hwf', Hc |- *. rewrite zdrop_0 in Hwf'. rewrite app_nil_r, Hes.
    split_and!; try done. destruct (0 <? zlen d); destruct Hc as [-> Hi];
      [rewrite (proj2 (Z.eqb_neq (in_len s') (-1)) Hi)|rewrite Hi]; done.
  - destruct Hl as (d & Ho & Hn). destruct Hwf as [(_ & Ho' & _)|(Hu & Hlen & Hr & Ho')]; [congruence|].
    rewrite Ho in Ho'. simplify_eq. m_step. rewrite Ho. m_step.
    rewrite zlen_zdrop in Hn by lia.
    erewrite M_bind_run; [|reflexivity]. unfold output_handler_done. m_step. cbn [in_len in_used in_data ss_mtu out_op].
    rewrite ASSERT_true by (apply Z.geb_le; lia). rewrite ASSERT_true by (apply Z.gtb_lt; lia).
    rewrite ASSERT_true by (apply Z.leb_le; lia). m_step.
    destruct (send_data_spec (mkSS (ss_mtu s) (in_len s) (in_data s) (in_used s + n) None))
      as (s' & es & E & Hwf' & Hm & Hes & Hc); [cbn; lia|done|done|].
    eexists s', _, _. rewrite E. split; [reflexivity|]. split; [exact Hwf'|]. split; [done|].
    cbn [in_used in_data in_len] in Hc |- *. split.
    + unfold streamed. cbn. fold (streamed es). rewrite Hes, !app_nil_r.
      rewrite Z.add_comm, <-zdrop_zdrop by lia. by rewrite ztake_zdrop.
    + cbn. destruct (in_used s + n <? in_len s); destruct Hc as [-> Hi];
      [rewrite (proj2 (Z.eqb_neq (in_len s') (-1)) Hi)|rewrite Hi]; done.
Qed.

Inductive legal_run : PacketStreamSender → list input → list event → PacketStreamSender → Prop :=
| run_nil s : legal_run s [] [] s
| run_cons s i u s1 es1 ins es2 s2 :
    legal s i → step i s = Some (u, s1, es1) → legal_run s1 ins es2 s2 →
    legal_run s (i :: ins) (es1 ++ es2) s2.

Lemma streamed_app es1 es2 : streamed (es1 ++ es2) = streamed es1 ++ streamed es2.
Proof. unfold streamed. by rewrite omap_app, concat_app. Qed.

Lemma legal_run_stream s ins es s' : ∀ rest,
  ss_wf s rest → legal_run s ins es s' →
  ∃ rest', ss_wf s' rest' ∧ rest ++ concat (packets ins) = streamed es ++ rest'.
Proof.
  intros rest Hwf Hr. revert rest Hwf. induction Hr as [s|s i u s1 es1 ins es2 s2 Hl Hs Hr IH]; intros rest Hwf.
  - exists rest. split; [done|]. by rewrite app_nil_r.
  - destruct (sender_step_spec s i rest Hwf Hl) as (s1' & es & rest1 & E & Hwf1 & _ & E1 & _).
    rewrite E in Hs. simplify_eq. destruct (IH rest1 Hwf1) as (rest2 & Hwf2 & E2).
    exists rest2. split; [done|]. rewrite streamed_app, <-app_assoc, <-E2, app_assoc, <-E1, <-app_assoc. f_equal.
    change (packets (i :: ins)) with (packets ([i] ++ ins)). unfold packets. by rewrite omap_app, concat_app.
Qed.

Lemma sender_Init_wf mtu s : PacketStreamSender_Init mtu = Some s → ss_wf s [] ∧ ss_mtu s = mtu.
Proof. unfold PacketStreamSender_Init. destruct (mtu >=? 0); [|done]. intros [= <-]. split; [by left|done]. Qed.
End Sender.

(** ** PacketPassConnector.c *)
Module Connector.

Record PacketPassConnector := mkPC {
  input_mtu : Z;
  in_len : Z;
  in_data : bytes;
  output : option Z;            (** the MTU of the output that is connected *)
}.

(** a packet is given to the connected output; the packet of the input is done *)
Inductive event := Send (d : bytes) | Done.

Definition PacketPassConnector_Init (mtu : Z) : option PacketPassConnector :=
  assert! (mtu >=? 0);
  Some (mkPC mtu (-1) [] None).

Definition input_handler_send (data : bytes) : M PacketPassConnector event unit :=
  o ← get;
  ASSERT (zlen data <=? input_mtu o);;
  ASSERT (in_len o =? -1);;
  put (mkPC (input_mtu o) (zlen data) data (output o));;
  when (not_null (output o)) (emit (Send data)).

Definition output_handler_done : M PacketPassConnector event unit :=
  o ← get;
  ASSERT (in_len o >=? 0);;
  ASSERT (not_null (output o));;
  put (mkPC (input_mtu o) (-1) (in_data o) (output o));;
  emit Done.

Definition PacketPassConnector_ConnectOutput (mtu : Z) : M PacketPassConnector event unit :=
  o ← get;
  ASSERT (negb (not_null (output o)));;
  ASSERT (mtu >=? input_mtu o);;
  put (mkPC (input_mtu o) (in_len o) (in_data o) (Some mtu));;
  when (in_len o >=? 0) (emit (Send (in_data o))).

Definition PacketPassConnector_DisconnectOutput : M PacketPassConnector event unit :=
  o ← get;
  ASSERT (not_null (output o));;
  put (mkPC (input_mtu o) (in_len o) (in_data o) None).

Inductive input := Packet (d : bytes) | OutputDone | Connect (mtu : Z) | Disconnect.
Definition step (i : input) : M PacketPassConnector event unit :=
  match i with
  | Packet d => input_handler_send d
  | OutputDone => output_handler_done
  | Connect mtu => PacketPassConnector_ConnectOutput mtu
  | Disconnect => PacketPassConnector_DisconnectOutput
  end.

(** What the two sides know of the connector: the packet the input is busy with
    and, if an output is connected, the packet this output is busy with. *)
Record view := mkView { v_mtu : Z; v_in : option bytes; v_out : option (option bytes) }.
Definition v_legal (v : view) (i : input) : Prop :=
  match i with
  | Packet d => v_in v = None ∧ zlen d ≤ v_mtu v
  | OutputDone => ∃ d, v_out v = Some (Some d)
  | Connect mtu => v_out v = None ∧ v_mtu v ≤ mtu
  | Disconnect => v_out v ≠ None
  end.
(** An output that is connected is busy with the packet of the input: it gets it
    at once or when it is connected, and when it is done so is the input. *)
Definition v_step (v : view) (i : input) : view * list event :=
  match i with
  | Packet d =>
      (mkView (v_mtu v) (Some d) ((λ _, Some d) <$> v_out v), if v_out v then [Send d] else [])
  | OutputDone => (mkView (v_mtu v) None (Some None), [Done])
  | Connect mtu => (mkView (v_mtu v) (v_in v) (Some (v_in v)), if v_in v is Some d then [Send d] else [])
  | Disconnect => (mkView (v_mtu v) (v_in v) None, [])
  end.
Definition repr (o : PacketPassConnector) (v : view) : Prop :=
  v_mtu v = input_mtu o ∧
  v_in v = (if in_len o =? -1 then None else Some (in_data o)) ∧
  v_out v = (match output o with Some _ => Some (v_in v) | None => None end) ∧
  (in_len o = -1 ∨ in_len o = zlen (in_data o)).

Lemma connector_step_spec o v i :
  repr o v → v_legal v i →
  ∃ o', step i o = Some (tt, o', (v_step v i).2) ∧ repr o' (v_step v i).1.
Proof.
  intros (Hm & Hi & Ho & Hl) Hleg. destruct i as [d| |mtu|]; cbn in Hleg |- *.
  - destruct Hleg as [Hn Hd]. rewrite Hn in Hi. destruct (Z.eqb_spec (in_len o) (-1)) as [E|]; [|done].
    unfold input_handler_send. m_step. rewrite ASSERT_true by (apply Z.leb_le; lia). rewrite E. m_assert. m_step.
    pose proof (zlen_nonneg d).
    assert (zlen d =? -1 = false) as Ed by (apply Z.eqb_neq; lia).
    rewrite Ho. destruct (output o) eqn:Eo; cbn [not_null when]; eexists; (split; [reflexivity|]);
      split_and!; cbn; rewrite ?Ed; auto.
  - destruct Hleg as [d Hd]. rewrite Ho in Hd. destruct (output o) eqn:Eo; [|done].
    destruct (Z.eqb_spec (in_len o) (-1)) as [E|E]; [congruence|]. pose proof (zlen_nonneg (in_data o)).
    unfold output_handler_done. m_step. rewrite ASSERT_true by (apply Z.geb_le; lia). rewrite Eo. m_assert. m_step.
    eexists. split; [reflexivity|]. split_and!; cbn; auto.
  - destruct Hleg as [Hn Hmt]. rewrite Ho in Hn. destruct (output o) eqn:Eo; [done|].
    unfold PacketPassConnector_ConnectOutput. m_step. rewrite Eo. m_assert.
    rewrite ASSERT_true by (apply Z.geb_le; lia). m_step. rewrite Hi.
    destruct (Z.eqb_spec (in_len o) (-1)) as [E|E].
    + rewrite E. eexists. split; [reflexivity|]. split_and!; cbn; auto.
    + pose proof (zlen_nonneg (in_data o)). assert (in_len o >=? 0 = true) as -> by (apply Z.geb_le; lia).
      apply Z.eqb_neq in E.
      eexists. split; [reflexivity|]. split_and!; cbn; rewrite ?E; auto.
  - rewrite Ho in Hleg. destruct (output o) eqn:Eo; [|done].
    unfold PacketPassConnector_DisconnectOutput. m_step. rewrite Eo. m_assert.
    eexists. split; [reflexivity|]. split_and!; cbn; auto.
Qed.

(** Runs of the specification. *)
Inductive v_run : view → list input → list event → view → Prop :=
| v_nil v : v_run v [] [] v
| v_cons v i ins es v' :
    v_legal v i → v_run (v_step v i).1 ins es v' → v_run v (i :: ins) ((v_step v i).2 ++ es) v'.

Lemma v_run_eq v ins es es' v' : v_run v ins es v' → es = es' → v_run v ins es' v'.
Proof. by intros ? <-. Qed.

Lemma connector_run_spec v ins es v' : v_run v ins es v' → ∀ o,
  repr o v → ∃ o', runs step ins o = Some (tt, o', es) ∧ repr o' v'.
Proof.
  induction 1 as [v|v i ins es v' Hl Hr IH]; intros o Ho.
  - by exists o.
  - destruct (connector_step_spec o v i Ho Hl) as (o1 & E & Ho1). destruct (IH o1 Ho1) as (o2 & E2 & Ho2).
    exists o2. cbn [runs]. by rewrite (M_bind_run _ _ _ _ _ _ E), E2.
Qed.
End Connector.

(** ** Properties *)

(** The stream is the packets, one after the other.  For any sequence of
    packets and any sizes of the pieces the stream takes, no assertion fails, the
    bytes the stream has taken followed by what is left of the current packet are
    the packets in order, and the sender is idle exactly when nothing is left. *)
Theorem PacketStreamSender_streams mtu s0 ins es s :
  Sender.PacketStreamSender_Init mtu = Some s0 → Sender.legal_run s0 ins es s →
  (∀ i, Sender.legal s i → is_Some (Sender.step i s)) ∧
  ∃ rest, concat (Sender.packets ins) = Sender.streamed es ++ rest ∧
    (Sender.in_len s = -1 ↔ rest = []).
Proof.
  intros Hinit Hr. destruct (Sender.sender_Init_wf _ _ Hinit) as [Hwf0 _].
  destruct (Sender.legal_run_stream _ _ _ _ _ Hwf0 Hr) as (rest & Hwf & E). split.
  - intros i Hl. destruct (Sender.sender_step_spec s i rest Hwf Hl) as (? & ? & ? & -> & _). done.
  - exists rest. split; [exact E|]. destruct Hwf as [(? & _ & ->)|(? & ? & -> & _)]; [done|].
    split; [lia|]. intros Hz. apply (f_equal zlen) in Hz. rewrite zlen_zdrop in Hz by lia.
    change (zlen (@nil Z)) with 0 in Hz. lia.
Qed.

Definition sender_inputs : list Sender.input :=
  [Sender.Packet [1; 2; 3]; Sender.OutputDone 2; Sender.OutputDone 1; Sender.Packet []; Sender.Packet [4; 5];
   Sender.OutputDone 1].
Lemma sender_run : ∃ s, Sender.legal_run (Sender.mkSS 3 (-1) [] 0 None) sender_inputs
  [Sender.Streamed [1; 2]; Sender.Streamed [3]; Sender.Done; Sender.Done; Sender.Streamed [4]] s ∧
  Sender.in_len s = 2.
Proof.
  assert (∃ es s, Sender.legal_run (Sender.mkSS 3 (-1) [] 0 None) sender_inputs es s ∧
    es = [Sender.Streamed [1; 2]; Sender.Streamed [3]; Sender.Done; Sender.Done; Sender.Streamed [4]] ∧
    Sender.in_len s = 2) as (es & s & Hr & -> & Hl); [|by exists s].
  eexists _, _. split.
  - unfold sender_inputs.
    repeat (eapply Sender.run_cons; [first [by vm_compute|eexists; split; [reflexivity|by vm_compute]]
      |vm_compute; reflexivity|]). apply Sender.run_nil.
  - by vm_compute.
Qed.
Lemma PacketStreamSender_streams_witness :
  ∃ rest, concat (Sender.packets sender_inputs)
    = Sender.streamed [Sender.Streamed [1; 2]; Sender.Streamed [3]; Sender.Done; Sender.Done; Sender.Streamed [4]] ++ rest
    ∧ rest ≠ [].
Proof.
  destruct sender_run as (s & Hr & Hl).
  destruct (PacketStreamSender_streams 3 (Sender.mkSS 3 (-1) [] 0 None) sender_inputs _ s eq_refl Hr)
    as (_ & rest & E & Hrest).
  exists rest. split; [exact E|]. intros Hn. apply Hrest in Hn. congruence.
Defined.

(** C12: the connector keeps a packet across connections.  It implements the
    specification [Connector.v_step]: an output that is connected is always busy
    with the packet of the input; a packet the input gives while there is no output,
    or that an output did not finish before it was disconnected, is given whole to
    the next output; and the input is done when an output is. *)
Theorem PacketPassConnector_refines mtu o ins es v :
  Connector.PacketPassConnector_Init mtu = Some o →
  Connector.v_run (Connector.mkView mtu None None) ins es v →
  ∃ o', runs Connector.step ins o = Some (tt, o', es) ∧ Connector.repr o' v.
Proof.
  intros Hinit Hr. eapply Connector.connector_run_spec; [exact Hr|].
  unfold Connector.PacketPassConnector_Init in Hinit. destruct (mtu >=? 0); [|done]. injection Hinit as <-.
  by split_and!; auto.
Qed.

Lemma PacketPassConnector_refines_witness :
  ∃ o', runs Connector.step
    [Connector.Packet [1]; Connector.Connect 5; Connector.Disconnect; Connector.Connect 6; Connector.OutputDone]
    (Connector.mkPC 4 (-1) [] None)
    = Some (tt, o', [Connector.Send [1]; Connector.Send [1]; Connector.Done]) ∧
    Connector.repr o' (Connector.mkView 4 None (Some None)).
Proof.
  eapply (PacketPassConnector_refines 4 _ _ [Connector.Send [1]; Connector.Send [1]; Connector.Done]); [done|].
  eapply Connector.v_run_eq.
  - repeat (eapply Connector.v_cons; [first [by vm_compute|by eexists]|]). apply Connector.v_nil.
  - vm_compute. reflexivity.
Defined.

(** C13: from one end of a connection to the other.  The packets written into a
    flow go through its buffer and encoder, through a stream sender, and arrive in
    pieces at a decoder whose MTU is at least that of the flow: what the decoder
    hands out is a prefix of what was written, unchanged and in order; if nothing
    waits in the buffer, the sender or the stream, and the output of the decoder is
    not busy, everything that was written has come out. *)
Theorem packet_stream_end_to_end mtu num out_mtu alloc f0 ins1 es1 f
    ss0 ins2 es2 ss dmtu malloc mem ins3 u dec es3 future :
  alloc_ok alloc → num ≤ INT_MAX →
  PacketProtoFlow_Init mtu num out_mtu alloc = Some (Some f0) → legal_run f0 ins1 es1 f →
  Forall (λ d, bytes_ok d ∧ zlen d ≤ mtu) (written es1) →
  Sender.PacketStreamSender_Init out_mtu = Some ss0 → Sender.legal_run ss0 ins2 es2 ss →
  Sender.packets ins2 = taken_packets es1 →
  mtu ≤ dmtu → let sz := PACKETPROTO_ENCLEN (bmin dmtu PACKETPROTO_MAXPAYLOAD) in
  malloc sz = Some mem → zlen mem = sz → bytes_ok mem →
  Forall Decoder.input_bytes_ok ins3 → Forall Decoder.not_reset ins3 →
  Decoder.stream ins3 ++ future = Sender.streamed es2 →
  (dec0 ← Decoder.PacketProtoDecoder_Init dmtu malloc; runs Decoder.step ins3 dec0) = Some (u, dec, es3) →
  ∃ ps1 ps2, written es1 = ps1 ++ ps2 ∧ es3 = map Decoder.packet ps1 ∧
    (taken_packets es1 = map encode (written es1) → Sender.in_len ss = -1 → future = [] →
     Decoder.output_busy dec = false → ps2 = []).
Proof.
  intros Ha Hn Hinit Hr1 Hw Hs0 Hr2 Hp Hmtu sz Hm Hl Hb HF Hnr Hst Hrun.
  pose proof (PacketProtoFlow_Init_wf _ _ _ _ _ Ha Hn Hinit) as Hwf0.
  pose proof (f_mtu _ _ _ _ _ Hwf0) as Hmb.
  destruct (legal_run_flow _ _ _ _ _ _ _ _ Hwf0 Hr1) as (q & l & _ & E). cbn in E.
  destruct (Sender.sender_Init_wf _ _ Hs0) as [Hswf0 _].
  destruct (Sender.legal_run_stream _ _ _ _ _ Hswf0 Hr2) as (rest & Hswf & E2). cbn in E2. rewrite Hp in E2.
  destruct (decoder_decodes dmtu malloc mem (written es1) ins3
    (future ++ rest ++ concat (q ++ map encode l)) u dec es3) as (ps1 & ps2 & Hps & Hes & Hall); try done; [lia| | |].
  - revert Hw. apply Forall_impl. intros d [? ?]. unfold Decoder.sendable. split_and!; (done || lia).
  - rewrite E, (concat_app (taken_packets es1)), E2, <-Hst. by rewrite <-!app_assoc.
  - exists ps1, ps2. split; [done|]. split; [done|]. intros Ht Hi -> Hbusy. apply Hall; [|done].
    rewrite Ht in E. assert (q ++ map encode l = []) as Hql.
    { apply (f_equal length) in E. rewrite length_app in E. apply length_zero_iff_nil. lia. }
    rewrite Hql. destruct Hswf as [(_ & _ & ->)|(? & ? & _)]; [done|]. lia.
Qed.

Lemma pipe_run : ∃ s, Sender.legal_run (Sender.mkSS 6 (-1) [] 0 None)
  [Sender.Packet [2; 0; 7; 8]; Sender.OutputDone 3; Sender.OutputDone 1]
  [Sender.Streamed [2; 0; 7]; Sender.Streamed [8]; Sender.Done] s.
Proof.
  assert (∃ es s, Sender.legal_run (Sender.mkSS 6 (-1) [] 0 None)
    [Sender.Packet [2; 0; 7; 8]; Sender.OutputDone 3; Sender.OutputDone 1] es s ∧
    es = [Sender.Streamed [2; 0; 7]; Sender.Streamed [8]; Sender.Done]) as (es & s & Hr & ->); [|by exists s].
  eexists _, _. split.
  - repeat (eapply Sender.run_cons; [first [by vm_compute|eexists; split; [reflexivity|by vm_compute]]
      |vm_compute; reflexivity|]). apply Sender.run_nil.
  - by vm_compute.
Qed.
Definition decoder_memory (n : Z) : option bytes := Some (replicate (Z.to_nat n) 0).
Definition decoder_run : option (unit * Decoder.PacketProtoDecoder * list Decoder.event) :=
  dec0 ← Decoder.PacketProtoDecoder_Init 4 decoder_memory;
  runs Decoder.step [Decoder.Bytes [2; 0; 7]; Decoder.Bytes [8]] dec0.

Lemma packet_stream_end_to_end_witness :
  ∃ ps1 ps2, [[7; 8]; [9]] = ps1 ++ ps2 ∧ [Decoder.packet [7; 8]] = map Decoder.packet ps1.
Proof.
  destruct flow_run as (es1 & Hr1 & Hw & Ht). destruct pipe_run as [ss Hr2].
  destruct decoder_run as [[[u dec] es3]|] eqn:Hd; [|by vm_compute in Hd].
  destruct (packet_stream_end_to_end 4 2 6 alloc0 flow0 flow_inputs es1 (after flow_inputs flow0)
    (Sender.mkSS 6 (-1) [] 0 None)
    [Sender.Packet [2; 0; 7; 8]; Sender.OutputDone 3; Sender.OutputDone 1]
    [Sender.Streamed [2; 0; 7]; Sender.Streamed [8]; Sender.Done] ss 4 decoder_memory (replicate 6 0)
    [Decoder.Bytes [2; 0; 7]; Decoder.Bytes [8]] u dec es3 []) as (ps1 & ps2 & H1 & H2 & _);
    [exact alloc0_ok|by vm_compute|vm_compute; reflexivity|exact Hr1| |reflexivity|exact Hr2| |done|reflexivity|reflexivity|
    |by repeat constructor|by repeat constructor|reflexivity|exact Hd|].
  - rewrite Hw. repeat constructor; by vm_compute.
  - by rewrite Ht.
  - by apply bytes_okb_spec.
  - exists ps1, ps2. rewrite <-Hw, H1, <-H2. split; [done|]. vm_compute in Hd. by injection Hd as _ _ <-.
Defined.
