(* ===== verification/DnsName.v ===== *)
(** * Domain names of DNS messages

    [pdnsd/src/dns.c] ([decompress_name]) and [pdnsd/src/helpers.c],
    [pdnsd/src/helpers.h] ([rhnlen], [skipsegs], [rhnsegcnt], [isnormalencdomname],
    [rhnicmp], [str2rhn], [parsestr2rhn], [rhn2str]): a name is a sequence of labels,
    each after a byte with its length, and a zero byte; in a message the rest of a
    name may be a pointer to another place.

    A buffer is a list of bytes and a pointer an offset; a read outside of the
    buffer is an error ([None]), and so is a write outside of the target. *)

From S2P Require Import Prelude CInt.

Definition DNSNAMEBUFSIZE : Z := 256.

(** [*(p + i)] *)
Definition rd (l : bytes) (i : Z) : option Z := if 0 <=? i then l !! Z.to_nat i else None.
(** [tgt[tpos++] = b], [tpos] being the number of bytes written *)
Definition push (tgt : bytes) (b : Z) : option bytes :=
  if zlen tgt <? DNSNAMEBUFSIZE then Some (tgt ++ [b]) else None.
(** [do tgt[tpos++] = *lptr++; while (--lb);] *)
Fixpoint copy_label (n : nat) (msg : bytes) (lptr : Z) (tgt : bytes) : option bytes :=
  match n with
  | O => Some tgt
  | S n => b ← rd msg lptr; tgt ← push tgt b; copy_label n msg (lptr + 1) tgt
  end.

(** ** decompress_name *)

Inductive rc := RC_OK | RC_FORMAT | RC_TRUNC.
(** the return value, and for [RC_OK] the length of the name in place and the name *)
Inductive decompressed := Ok (used : Z) (name : bytes) | Err (r : rc).

Definition pointer_offset (lb b : Z) : Z := Z.lor (Z.shiftl (Z.land lb 63) 8) b.

(** the [while (lb > 0x3f)] loop: [lb] was read before [lptr]; the result is the
    length byte of a label, the place after it and [hops] *)
Fixpoint follow_pointers (fuel : nat) (msg : bytes) (lb lptr hops : Z) : option (Z * Z * Z + rc) :=
  match fuel with
  | O => None
  | S fuel =>
      if lb >? 63 then
        if lb <? 192 then Some (inr RC_FORMAT)
        else if lptr >=? zlen msg then Some (inr RC_FORMAT)
        else
          let hops := hops + 1 in
          if hops >? 255 then Some (inr RC_FORMAT)
          else
            b ← rd msg lptr;
            let offs := pointer_offset lb b in
            if offs >=? zlen msg then Some (inr RC_FORMAT)
            else
              lb ← rd msg offs;
              follow_pointers fuel msg lb (offs + 1) hops
      else Some (inl (lb, lptr, hops))
  end.

(** the second loop, after the first pointer *)
Fixpoint decompress_jumped (fuel : nat) (msg : bytes) (lptr hops : Z) (tgt : bytes) : option (bytes + rc) :=
  match fuel with
  | O => None
  | S fuel =>
      lb ← rd msg lptr;
      r ← follow_pointers 257 msg lb (lptr + 1) hops;
      match r with
      | inr e => Some (inr e)
      | inl (lb, lptr, hops) =>
          tgt ← push tgt lb;
          if lb =? 0 then Some (inl tgt)
          else if lptr + lb >=? zlen msg then Some (inr RC_FORMAT)
          else if zlen tgt + lb >? DNSNAMEBUFSIZE - 1 then Some (inr RC_FORMAT)
          else
            tgt ← copy_label (Z.to_nat lb) msg lptr tgt;
            decompress_jumped fuel msg (lptr + lb) hops tgt
      end
  end.

(** the first loop; [newsz] is what is left of the data *)
Fixpoint decompress_plain (fuel : nat) (msg : bytes) (lptr newsz : Z) (tgt : bytes) :
    option (Z * bytes + rc) :=
  match fuel with
  | O => None
  | S fuel =>
      let newsz := newsz - 1 in
      lb ← rd msg lptr;
      let lptr := lptr + 1 in
      if lb >? 63 then
        if lb <? 192 then Some (inr RC_FORMAT)
        else if newsz =? 0 then Some (inr RC_TRUNC)
        else if lptr >=? zlen msg then Some (inr RC_FORMAT)
        else
          let newsz := newsz - 1 in
          b ← rd msg lptr;
          let offs := pointer_offset lb b in
          if offs >=? zlen msg then Some (inr RC_FORMAT)
          else
            r ← decompress_jumped 257 msg offs 1 tgt;
            match r with
            | inl tgt => Some (inl (newsz, tgt))
            | inr e => Some (inr e)
            end
      else
        tgt ← push tgt lb;
        if lb =? 0 then Some (inl (newsz, tgt))
        else if newsz <=? lb then Some (inr RC_TRUNC)
        else if lptr + lb >=? zlen msg then Some (inr RC_FORMAT)
        else if zlen tgt + lb >? DNSNAMEBUFSIZE - 1 then Some (inr RC_FORMAT)
        else
          tgt ← copy_label (Z.to_nat lb) msg lptr tgt;
          decompress_plain fuel msg (lptr + lb) (newsz - lb) tgt
  end.

(** [src] and [sz]: where the name starts and how much data there is from there *)
Definition decompress_name (msg : bytes) (src sz : Z) : option decompressed :=
  if sz =? 0 then Some (Err RC_TRUNC)
  else if src >=? zlen msg then Some (Err RC_FORMAT)
  else
    r ← decompress_plain 257 msg src sz [];
    match r with
    | inl (newsz, tgt) => Some (Ok (sz - newsz) tgt)
    | inr e => Some (Err e)
    end.

(** ** Names *)

(** a label, and the representation of a name *)
Definition label_ok (l : bytes) : Prop := 1 ≤ zlen l ≤ 63 ∧ bytes_ok l.
Definition rhn_labels (ls : list bytes) : bytes := concat (map (λ l, zlen l :: l) ls).
Definition rhn (ls : list bytes) : bytes := rhn_labels ls ++ [0].

(** [name_at msg off ls h n]: at [off] there is a name with the labels [ls], [n]
    bytes long in place, that uses [h] pointers (RFC 1035, 4.1.4). *)
Inductive name_at (msg : bytes) : Z → list bytes → Z → Z → Prop :=
| name_root off : rd msg off = Some 0 → name_at msg off [] 0 1
| name_label off l ls h n :
    rd msg off = Some (zlen l) → 1 ≤ zlen l ≤ 63 → 0 ≤ off →
    off + 1 + zlen l ≤ zlen msg → slice (off + 1) (zlen l) msg = l →
    name_at msg (off + 1 + zlen l) ls h n → name_at msg off (l :: ls) h (1 + zlen l + n)
| name_pointer off lb b ls h n :
    rd msg off = Some lb → 192 ≤ lb → rd msg (off + 1) = Some b →
    name_at msg (pointer_offset lb b) ls h n → name_at msg off ls (1 + h) 2.

(** ** Reading and writing *)

Lemma rd_nat l n : rd l (Z.of_nat n) = l !! n.
Proof. unfold rd. rewrite Nat2Z.id. by replace (0 <=? Z.of_nat n) with true by (symmetry; apply Z.leb_le; lia). Qed.
Lemma rd_bound msg i b : rd msg i = Some b → 0 ≤ i < zlen msg.
Proof.
  unfold rd, zlen. zcase; [|done]. intros Hl%lookup_lt_Some. lia.
Qed.
Lemma rd_Some msg i : 0 ≤ i < zlen msg → ∃ b, rd msg i = Some b.
Proof.
  unfold rd, zlen. intros. zcase. apply lookup_lt_is_Some_2. lia.
Qed.
Lemma rd_byte msg i b : bytes_ok msg → rd msg i = Some b → 0 ≤ b < 256.
Proof.
  unfold rd. intros Hm. zcase; [|done]. intros Hl. exact (Forall_lookup_1 _ _ _ _ Hm Hl).
Qed.
Lemma slice_cons_rd o n msg b :
  rd msg o = Some b → 0 ≤ n → slice o (1 + n) msg = b :: slice (o + 1) n msg.
Proof.
  intros Hr Hn. pose proof (rd_bound _ _ _ Hr). rewrite slice_split by lia. f_equal.
  unfold rd in Hr. replace (0 <=? o) with true in Hr by (symmetry; apply Z.leb_le; lia).
  unfold slice, ztake, zdrop. rewrite (drop_S _ _ _ Hr). done.
Qed.
Lemma push_ok tgt b : zlen tgt ≤ 255 → push tgt b = Some (tgt ++ [b]).
Proof. unfold push, DNSNAMEBUFSIZE. intros. by zcase. Qed.
Lemma copy_label_ok n msg lptr tgt :
  0 ≤ lptr → lptr + Z.of_nat n ≤ zlen msg → zlen tgt + Z.of_nat n ≤ 256 →
  copy_label n msg lptr tgt = Some (tgt ++ slice lptr (Z.of_nat n) msg).
Proof.
  revert lptr tgt. induction n as [|n IH]; intros lptr tgt H0 Hm Ht; cbn [copy_label].
  - by rewrite slice_0_len, app_nil_r.
  - destruct (rd_Some msg lptr) as [b Hb]; [lia|]. rewrite Hb. cbn [mbind option_bind].
    rewrite push_ok by lia. cbn [mbind option_bind].
    rewrite IH by (zlens; lia). rewrite Nat2Z.inj_succ, <-Z.add_1_l, (slice_cons_rd _ _ _ _ Hb) by lia.
    by rewrite <-app_assoc.
Qed.

Lemma rhn_cons l ls : rhn (l :: ls) = (zlen l :: l) ++ rhn ls.
Proof. unfold rhn, rhn_labels. cbn [map concat]. by rewrite <-app_assoc. Qed.
Lemma zlen_rhn_pos ls : 1 ≤ zlen (rhn ls).
Proof. unfold rhn. zlens. pose proof (zlen_nonneg (rhn_labels ls)). lia. Qed.

Lemma rd_text (s rest : bytes) c j :
  s !! j = Some c → rd (s ++ rest) (Z.of_nat j) = Some c.
Proof. intros Hj. rewrite rd_nat. by apply lookup_app_l_Some. Qed.
Lemma rd_text_end (s rest : bytes) c : rd (s ++ c :: rest) (zlen s) = Some c.
Proof. unfold zlen. rewrite rd_nat. by rewrite lookup_app_r, Nat.sub_diag by lia. Qed.

(** the length byte a name starts with *)
Definition first_len (ls : list bytes) : Z := match ls with [] => 0 | l :: _ => zlen l end.
Lemma rhn_first ls : ∃ t, rhn ls = first_len ls :: t.
Proof. destruct ls as [|l ls]; [by exists []|]. rewrite rhn_cons. by eexists. Qed.
Lemma rd_first_len pre ls rest : rd (pre ++ rhn ls ++ rest) (zlen pre) = Some (first_len ls).
Proof. destruct (rhn_first ls) as [t ->]. apply rd_text_end. Qed.
(** the name after its first label *)
Lemma rhn_cons_app pre l ls rest :
  pre ++ rhn (l :: ls) ++ rest = (pre ++ zlen l :: l) ++ rhn ls ++ rest.
Proof. by rewrite rhn_cons, <-!app_assoc. Qed.
Lemma rd_next_len pre l ls rest :
  rd (pre ++ rhn (l :: ls) ++ rest) (zlen pre + 1 + zlen l) = Some (first_len ls).
Proof.
  rewrite rhn_cons_app. replace (zlen pre + 1 + zlen l) with (zlen (pre ++ zlen l :: l)) by (zlens; lia).
  apply rd_first_len.
Qed.
Lemma zlen_rhn_app pre l ls rest :
  zlen pre + 1 + zlen l < zlen (pre ++ rhn (l :: ls) ++ rest).
Proof. exact (proj2 (rd_bound _ _ _ (rd_next_len pre l ls rest))). Qed.

Lemma length_rhn ls : (length ls < length (rhn ls))%nat.
Proof.
  induction ls as [|l ls IH]; [cbn; lia|]. rewrite rhn_cons, length_app. cbn [length]. lia.
Qed.

(** ** The name at a place *)

Section name_at.
Context (msg : bytes) (Hmsg : bytes_ok msg).
Notation at_ := (name_at msg).

Lemma name_at_bound off ls h n : at_ off ls h n → 0 ≤ off < zlen msg ∧ 0 ≤ h ∧ 1 ≤ n.
Proof.
  induction 1 as [off H|off l ls h n H ???? _ IH|off lb b ls h n H ?? _ IH];
    apply rd_bound in H; lia.
Qed.
Lemma name_at_root off ls h n :
  rd msg off = Some 0 → at_ off ls h n ↔ ls = [] ∧ h = 0 ∧ n = 1.
Proof.
  intros H. split.
  - inversion 1; simplify_eq; [done|lia..].
  - intros (-> & -> & ->). by constructor.
Qed.
Lemma name_at_lbl off lb ls h n :
  rd msg off = Some lb → 1 ≤ lb ≤ 63 →
  at_ off ls h n ↔
    ∃ ls' n', ls = slice (off + 1) lb msg :: ls' ∧ off + 1 + lb ≤ zlen msg ∧
      at_ (off + 1 + lb) ls' h n' ∧ n = 1 + lb + n'.
Proof.
  intros H Hlb. pose proof (rd_bound _ _ _ H). split.
  - intros Hat. inversion Hat as [? H1|? l ls' h' n' H1 Hl Ho Hin Hs Hn|? lb' b ls' h' n' H1 Hl H2 Hn];
      rewrite H in H1; injection H1 as H1; try lia.
    subst. eexists _, _. by rewrite Hs.
  - intros (ls' & n' & -> & Hin & Hn & ->).
    assert (Hz : zlen (slice (off + 1) lb msg) = lb) by (apply zlen_slice; lia).
    rewrite <-Hz at 2. apply name_label; rewrite ?Hz; try done; lia.
Qed.
Lemma name_at_ptr off lb b ls h n :
  rd msg off = Some lb → 192 ≤ lb → rd msg (off + 1) = Some b →
  at_ off ls h n ↔ n = 2 ∧ ∃ n', at_ (pointer_offset lb b) ls (h - 1) n'.
Proof.
  intros H Hlb Hb. split.
  - intros Hat. inversion Hat as [? H1|? l ls' h' n' H1 Hl Ho Hin Hs Hn|? lb' b' ls' h' n' H1 Hl H2 Hn];
      rewrite H in H1; injection H1 as H1; try lia.
    rewrite Hb in H2. injection H2 as H2. subst. split; [done|].
    exists n'. by replace (1 + h' - 1) with h' by lia.
  - intros (-> & n' & Hn). replace h with (1 + (h - 1)) by lia. by eapply name_pointer.
Qed.
Lemma name_at_bad off lb ls h n : rd msg off = Some lb → 64 ≤ lb < 192 → ¬ at_ off ls h n.
Proof. intros H Hlb Hn. inversion Hn; simplify_eq; lia. Qed.
Lemma name_at_ptr_end off lb ls h n :
  rd msg off = Some lb → 192 ≤ lb → zlen msg ≤ off + 1 → ¬ at_ off ls h n.
Proof.
  intros H Hlb He Hat. inversion Hat as [? H1|? l ls' h' n' H1 ?|? lb' b ls' h' n' H1 ? H2];
    rewrite H in H1; injection H1 as H1; try lia.
  apply rd_bound in H2. lia.
Qed.
Lemma pointer_offset_nonneg lb b : 0 ≤ b → 0 ≤ pointer_offset lb b.
Proof.
  intros. unfold pointer_offset. apply Z.lor_nonneg. split; [|done].
  apply Z.shiftl_nonneg, Z.land_nonneg. by right.
Qed.

(** ** The loops *)

(** what the run from [hops] hops at a place must find *)
Definition finds (off hops : Z) (ls : list bytes) (h : Z) : Prop :=
  ∃ n, at_ off ls (h - hops) n.

Lemma follow_pointers_spec fuel lb off hops :
  rd msg off = Some lb → 0 ≤ hops ≤ 255 → 256 - hops < Z.of_nat fuel →
  ∃ r, follow_pointers fuel msg lb (off + 1) hops = Some r ∧
  match r with
  | inl (lb', lptr', hops') =>
      rd msg (lptr' - 1) = Some lb' ∧ 0 ≤ lb' ≤ 63 ∧ hops ≤ hops' ≤ 255 ∧
      ∀ ls h, finds off hops ls h ↔ finds (lptr' - 1) hops' ls h
  | inr _ => ∀ ls h, h ≤ 255 → ¬ finds off hops ls h
  end.
Proof.
  revert lb off hops. induction fuel as [|fuel IH]; intros lb off hops Hr Hh Hf; [lia|].
  pose proof (rd_byte _ _ _ Hmsg Hr). pose proof (rd_bound _ _ _ Hr).
  cbn [follow_pointers]. zif (lb >? 63).
  2:{ eexists; split; [done|]. cbn. replace (off + 1 - 1) with off by lia.
      split; [done|]. split; [lia|]. split; [lia|]. done. }
  zif (lb <? 192).
  { eexists; split; [done|]. intros ls h Hle [n Hn]. eapply name_at_bad; [..|done]; [done|lia]. }
  zif (off + 1 >=? zlen msg).
  { eexists; split; [done|]. intros ls h Hle [n Hn]. eapply name_at_ptr_end; [..|done]; [done|lia..]. }
  destruct (rd_Some msg (off + 1)) as [b Hb]; [lia|].
  pose proof (rd_byte _ _ _ Hmsg Hb). pose proof (pointer_offset_nonneg lb b ltac:(lia)).
  assert (Hptr : ∀ ls h, finds off hops ls h ↔ finds (pointer_offset lb b) (hops + 1) ls h).
  { intros ls h. unfold finds. setoid_rewrite (name_at_ptr _ _ _ _ _ _ Hr ltac:(lia) Hb).
    replace (h - hops - 1) with (h - (hops + 1)) by lia. naive_solver. }
  zif (hops + 1 >? 255).
  { eexists; split; [done|]. intros ls h Hle Hn. apply Hptr in Hn as [n Hn].
    apply name_at_bound in Hn. lia. }
  rewrite Hb. cbn [mbind option_bind]. zif (pointer_offset lb b >=? zlen msg).
  { eexists; split; [done|]. intros ls h Hle Hn. apply Hptr in Hn as [n Hn].
    apply name_at_bound in Hn. lia. }
  destruct (rd_Some msg (pointer_offset lb b)) as [lb' Hlb']; [lia|].
  rewrite Hlb'. cbn [mbind option_bind].
  destruct (IH lb' (pointer_offset lb b) (hops + 1) Hlb') as (r & -> & Hs); [lia..|].
  exists r. split; [done|]. destruct r as [[[lb2 lptr2] hops2]|e].
  - destruct Hs as (? & ? & ? & Hs). split; [done|]. split; [lia|]. split; [lia|].
    intros ls h. by rewrite Hptr.
  - intros ls h Hle. rewrite Hptr. by apply Hs.
Qed.

Definition jumped_result (tgt : bytes) (off hops : Z) (r : bytes + rc) : Prop :=
  ∀ tgt', r = inl tgt' ↔
    ∃ ls h, finds off hops ls h ∧ h ≤ 255 ∧ tgt' = tgt ++ rhn ls ∧ zlen tgt' ≤ 256.

(** No target is found when no name is. *)
Lemma jumped_none tgt off hops e :
  (∀ ls h, finds off hops ls h → h ≤ 255 → zlen (tgt ++ rhn ls) ≤ 256 → False) →
  jumped_result tgt off hops (inr e).
Proof. intros H tgt'. split; [done|]. intros (ls & h & ? & ? & -> & ?). exfalso. eauto. Qed.
Lemma decompress_jumped_spec fuel off hops tgt :
  0 ≤ off < zlen msg → 0 ≤ hops ≤ 255 → zlen tgt ≤ 255 → 256 - zlen tgt < Z.of_nat fuel →
  ∃ r, decompress_jumped fuel msg off hops tgt = Some r ∧ jumped_result tgt off hops r.
Proof.
  revert off hops tgt. induction fuel as [|fuel IH]; intros off hops tgt Ho Hh Ht Hf; [lia|].
  cbn [decompress_jumped].
  destruct (rd_Some msg off) as [lb Hlb]; [lia|]. rewrite Hlb. cbn [mbind option_bind].
  destruct (follow_pointers_spec 257 lb off hops Hlb) as (r & -> & Hr); [lia..|].
  cbn [mbind option_bind]. destruct r as [[[lb' lptr] hops']|e].
  2:{ eexists; split; [done|]. apply jumped_none. intros ls h Hn Hle _. by eapply Hr. }
  destruct Hr as (Hlb' & Hl & Hh' & Hfind). rewrite push_ok by done. cbn [mbind option_bind].
  pose proof (rd_bound _ _ _ Hlb').
  zif (lb' =? 0).
  { eexists; split; [done|]. intros tgt'. subst lb'. split.
    - intros [= <-]. exists [], hops'. split; [apply Hfind|].
      + exists 1. rewrite Z.sub_diag. by apply name_at_root.
      + split; [lia|]. split; [done|]. zlens. lia.
    - intros (ls & h & [n Hn]%Hfind & ? & -> & ?).
      apply name_at_root in Hn as (-> & _); done. }
  assert (Hin : ∀ ls h, finds off hops ls h → ∃ ls',
    ls = slice lptr lb' msg :: ls' ∧ lptr + lb' ≤ zlen msg ∧ finds (lptr + lb') hops' ls' h).
  { intros ls h [n Hn]%Hfind. apply (name_at_lbl _ _ _ _ _ Hlb') in Hn; [|lia].
    rewrite Z.sub_add in Hn. destruct Hn as (ls' & n' & ? & ? & ? & ?). eexists. unfold finds. eauto. }
  zif (lptr + lb' >=? zlen msg).
  { eexists; split; [done|]. apply jumped_none. intros ls h (ls' & ? & ? & [n' Hn])%Hin Hle _.
    apply name_at_bound in Hn. lia. }
  assert (Hsl : zlen (slice lptr lb' msg) = lb') by (apply zlen_slice; lia).
  zif (zlen (tgt ++ [lb']) + lb' >? DNSNAMEBUFSIZE - 1).
  { eexists; split; [done|]. apply jumped_none. intros ls h (ls' & -> & _)%Hin Hle.
    rewrite rhn_cons. pose proof (zlen_rhn_pos ls'). revert E1. unfold DNSNAMEBUFSIZE. zlens.
    rewrite Hsl. lia. }
  unfold DNSNAMEBUFSIZE in *.
  rewrite copy_label_ok by lia. rewrite Z2Nat.id by lia. cbn [mbind option_bind].
  revert E1. zlens. intros E1.
  destruct (IH (lptr + lb') hops' ((tgt ++ [lb']) ++ slice lptr lb' msg)) as (r & -> & Hr);
    [lia|lia|zlens; lia..|].
  exists r. split; [done|]. intros tgt'. rewrite (Hr tgt'). split.
  - intros (ls & h & [n Hn] & ? & -> & ?). exists (slice lptr lb' msg :: ls), h. split.
    + apply Hfind. exists (1 + lb' + n).
      apply (name_at_lbl _ _ _ _ _ Hlb'); [lia|]. rewrite Z.sub_add. eauto 10 with lia.
    + rewrite rhn_cons, Hsl, <-!app_assoc in *. done.
  - intros (ls & h & (ls' & -> & ? & Hn)%Hin & ? & -> & ?). exists ls', h.
    rewrite rhn_cons, Hsl, <-!app_assoc in *. done.
Qed.

Definition plain_result (tgt : bytes) (off newsz : Z) (r : Z * bytes + rc) : Prop :=
  ∀ rem tgt', r = inl (rem, tgt') ↔
    ∃ ls h n, at_ off ls h n ∧ h ≤ 255 ∧ tgt' = tgt ++ rhn ls ∧ zlen tgt' ≤ 256 ∧
      n ≤ newsz ∧ rem = newsz - n.

Lemma plain_none tgt off newsz e :
  (∀ ls h n, at_ off ls h n → h ≤ 255 → zlen (tgt ++ rhn ls) ≤ 256 → n ≤ newsz → False) →
  plain_result tgt off newsz (inr e).
Proof.
  intros H rem tgt'. split; [done|]. intros (ls & h & n & ? & ? & -> & ? & ? & _). exfalso. eauto.
Qed.

Lemma decompress_plain_pointer off newsz tgt lb b :
  rd msg off = Some lb → 192 ≤ lb → rd msg (off + 1) = Some b → 2 ≤ newsz → zlen tgt ≤ 255 →
  0 ≤ pointer_offset lb b < zlen msg →
  ∃ r, decompress_jumped 257 msg (pointer_offset lb b) 1 tgt = Some r ∧
    plain_result tgt off newsz
      match r with inl tgt => inl (newsz - 2, tgt) | inr e => inr e end.
Proof.
  intros Hlb Hge Hb Hn Ht Hp.
  pose proof (zlen_nonneg tgt).
  destruct (decompress_jumped_spec 257 (pointer_offset lb b) 1 tgt) as (r & -> & Hr); [lia..|].
  exists r. split; [done|]. intros rem tgt'. transitivity (r = inl tgt' ∧ rem = newsz - 2).
  { destruct r; naive_solver. }
  rewrite (Hr tgt'). split.
  - intros ((ls & h & [n Hat] & ? & ? & ?) & ->). exists ls, h, 2. split; [|eauto 10].
    eapply name_at_ptr; eauto.
  - intros (ls & h & n & Hat & ? & ? & ? & ? & ->).
    eapply name_at_ptr in Hat as (-> & n' & Hat); [|done..]. split; [|done].
    exists ls, h. split; [by exists n'|done].
Qed.

Lemma decompress_plain_spec fuel off newsz tgt :
  0 ≤ off < zlen msg → 1 ≤ newsz → zlen tgt ≤ 255 → 256 - zlen tgt < Z.of_nat fuel →
  ∃ r, decompress_plain fuel msg off newsz tgt = Some r ∧ plain_result tgt off newsz r.
Proof.
  revert off newsz tgt. induction fuel as [|fuel IH]; intros off newsz tgt Ho Hn Ht Hf; [lia|].
  cbn [decompress_plain].
  destruct (rd_Some msg off) as [lb Hlb]; [lia|]. rewrite Hlb. cbn [mbind option_bind].
  pose proof (rd_byte _ _ _ Hmsg Hlb). zif (lb >? 63).
  { zif (lb <? 192).
    { eexists; split; [done|]. apply plain_none. intros ls h n Hat _ _ _.
      eapply name_at_bad; [..|done]; [done|lia]. }
    assert (Hend : ∀ ls h n, at_ off ls h n → n = 2 ∧ off + 1 < zlen msg ∧
      ∃ b n', rd msg (off + 1) = Some b ∧ at_ (pointer_offset lb b) ls (h - 1) n').
    { intros ls h n Hat.
      destruct (decide (off + 1 < zlen msg)) as [Hlt|]; [|by edestruct name_at_ptr_end; eauto with lia].
      destruct (rd_Some msg (off + 1)) as [b Hb]; [lia|].
      eapply name_at_ptr in Hat as (-> & n' & Hat); eauto 10. }
    zif (newsz - 1 =? 0).
    { eexists; split; [done|]. apply plain_none. intros ls h n Hat%Hend _ _ ?. lia. }
    zif (off + 1 >=? zlen msg).
    { eexists; split; [done|]. apply plain_none. intros ls h n Hat%Hend _ _ ?. lia. }
    destruct (rd_Some msg (off + 1)) as [b Hb]; [lia|]. rewrite Hb. cbn [mbind option_bind].
    pose proof (rd_byte _ _ _ Hmsg Hb). pose proof (pointer_offset_nonneg lb b ltac:(lia)).
    zif (pointer_offset lb b >=? zlen msg).
    { eexists; split; [done|]. apply plain_none.
      intros ls h n (_ & _ & b' & n' & Hb' & Hat)%Hend _ _ _. simplify_eq.
      apply name_at_bound in Hat. lia. }
    destruct (decompress_plain_pointer off newsz tgt lb b) as (r & -> & Hr); [done|lia|done|lia..|].
    replace (newsz - 1 - 1) with (newsz - 2) by lia. cbn [mbind option_bind].
    destruct r; eauto. }
  rewrite push_ok by done. cbn [mbind option_bind]. zif (lb =? 0).
  { eexists; split; [done|]. intros rem tgt'. subst lb. split.
    - intros [= <- <-]. exists [], 0, 1. split; [by apply name_at_root|].
      split; [lia|]. split; [done|]. zlens. lia.
    - intros (ls & h & n & Hat & ? & -> & ? & ? & ->).
      apply name_at_root in Hat as (-> & _ & ->); done. }
  zif (newsz - 1 <=? lb).
  { eexists; split; [done|]. apply plain_none. intros ls h n Hat _ _ ?.
    apply (name_at_lbl _ _ _ _ _ Hlb) in Hat as (ls' & n' & ? & ? & Hat & ?); [|lia].
    apply name_at_bound in Hat. lia. }
  zif (off + 1 + lb >=? zlen msg).
  { eexists; split; [done|]. apply plain_none. intros ls h n Hat _ _ ?.
    apply (name_at_lbl _ _ _ _ _ Hlb) in Hat as (ls' & n' & ? & ? & Hat & ?); [|lia].
    apply name_at_bound in Hat. lia. }
  assert (Hsl : zlen (slice (off + 1) lb msg) = lb) by (apply zlen_slice; lia).
  zif (zlen (tgt ++ [lb]) + lb >? DNSNAMEBUFSIZE - 1).
  { eexists; split; [done|]. apply plain_none. intros ls h n Hat _ Hle _.
    apply (name_at_lbl _ _ _ _ _ Hlb) in Hat as (ls' & n' & -> & ? & Hat & ?); [|lia].
    revert Hle E3. rewrite rhn_cons. pose proof (zlen_rhn_pos ls'). unfold DNSNAMEBUFSIZE. zlens.
    rewrite Hsl. lia. }
  unfold DNSNAMEBUFSIZE in *.
  rewrite copy_label_ok by lia. rewrite Z2Nat.id by lia. cbn [mbind option_bind].
  revert E3. zlens. intros E3.
  destruct (IH (off + 1 + lb) (newsz - 1 - lb) ((tgt ++ [lb]) ++ slice (off + 1) lb msg))
    as (r & -> & Hr); [lia|lia|zlens; lia..|].
  exists r. split; [done|]. intros rem tgt'. rewrite (Hr rem tgt'). split.
  - intros (ls & h & n & Hat & ? & -> & ? & ? & ->). exists (slice (off + 1) lb msg :: ls), h, (1 + lb + n).
    split; [apply (name_at_lbl _ _ _ _ _ Hlb); [lia|]; eauto 10 with lia|].
    rewrite rhn_cons, Hsl, <-!app_assoc in *. split; [done|]. split; [done|]. split; [done|]. lia.
  - intros (ls & h & n & Hat & ? & -> & ? & ? & ->).
    apply (name_at_lbl _ _ _ _ _ Hlb) in Hat as (ls' & n' & -> & ? & Hat & ->); [|lia].
    exists ls', h, n'. rewrite rhn_cons, Hsl, <-!app_assoc in *. split; [done|].
    split; [done|]. split; [done|]. split; [done|]. lia.
Qed.
End name_at.

Lemma decompress_name_names msg src sz :
  bytes_ok msg → 0 ≤ src → 0 ≤ sz →
  ∃ r, decompress_name msg src sz = Some r ∧
    ∀ used name, r = Ok used name ↔
      ∃ ls h, name_at msg src ls h used ∧ h ≤ 255 ∧ used ≤ sz ∧
        name = rhn ls ∧ zlen name ≤ DNSNAMEBUFSIZE.
Proof.
  intros Hm Hs Hz. unfold decompress_name.
  assert (Hnone : ∀ e, (∀ ls h n, name_at msg src ls h n → n ≤ sz → False) →
    ∀ used name, Err e = Ok used name ↔
      ∃ ls h, name_at msg src ls h used ∧ h ≤ 255 ∧ used ≤ sz ∧
        name = rhn ls ∧ zlen name ≤ DNSNAMEBUFSIZE).
  { intros e H used name. split; [done|]. intros (ls & h & ? & _ & ? & _). exfalso. eauto. }
  zif (sz =? 0).
  { eexists. split; [done|]. apply Hnone. intros ls h n Hat%name_at_bound ?. lia. }
  zif (src >=? zlen msg).
  { eexists. split; [done|]. apply Hnone. intros ls h n Hat%name_at_bound ?. lia. }
  destruct (decompress_plain_spec msg Hm 257 src sz []) as (r & -> & Hr); [lia|lia|done|done|].
  cbn [mbind option_bind]. exists match r with inl (newsz, tgt) => Ok (sz - newsz) tgt | inr e => Err e end.
  split; [by destruct r as [[]|]|]. intros used name.
  transitivity (r = inl (sz - used, name)).
  { destruct r as [[rem tgt]|]; [|done]. split; [intros [= <- <-]; do 2 f_equal; lia|].
    intros [= -> ->]. f_equal. lia. }
  rewrite (Hr (sz - used) name). cbn [app]. unfold DNSNAMEBUFSIZE. split.
  - intros (ls & h & n & ? & ? & -> & ? & ? & ?). replace used with n by lia. eauto 10.
  - intros (ls & h & ? & ? & ? & -> & ?). eauto 12.
Qed.

(** C14: For every message and every place in it, whatever the bytes are,
    [decompress_name] returns without an access outside of the message and of the
    target buffer, and it succeeds exactly on the names of RFC 1035 that fit: at most
    255 pointers are followed, the name has at most 256 bytes with its end, and the
    part in place is within the data; the result is the name without pointers and the
    length of the part in place. *)
Theorem decompress_name_spec msg src sz :
  bytes_ok msg → 0 ≤ src → 0 ≤ sz →
  ∃ r, decompress_name msg src sz = Some r ∧
    ∀ used name, r = Ok used name ↔
      ∃ ls h, name_at msg src ls h used ∧ h ≤ 255 ∧ used ≤ sz ∧
        name = rhn ls ∧ zlen name ≤ DNSNAMEBUFSIZE.
Proof. apply decompress_name_names. Qed.

(** [3www3foo0] and, at 9, a pointer to [3foo0] after another label *)
Definition message_example : bytes :=
  [3; 119; 119; 119; 3; 102; 111; 111; 0; 2; 110; 115; 192; 4].
Lemma decompress_name_spec_witness :
  ∃ r, decompress_name message_example 9 5 = Some r ∧
    ∀ used name, r = Ok used name ↔
      ∃ ls h, name_at message_example 9 ls h used ∧ h ≤ 255 ∧ used ≤ 5 ∧
        name = rhn ls ∧ zlen name ≤ DNSNAMEBUFSIZE.
Proof. apply (decompress_name_spec message_example 9 5); [|lia..]. by apply bytes_okb_spec. Defined.
Example decompress_name_run :
  decompress_name message_example 9 5 = Some (Ok 5 [2; 110; 115; 3; 102; 111; 111; 0]).
Proof. reflexivity. Qed.
Example decompress_name_loop : decompress_name [192; 0] 0 2 = Some (Err RC_FORMAT).
Proof. vm_compute. reflexivity. Qed.
