(* ===== verification/DnsText.v ===== *)
(** * Domain names as text

    [pdnsd/src/helpers.c]: [str2rhn] and [parsestr2rhn] turn a name in dotted notation
    into labels with length bytes, [rhn2str] turns it back.  The target buffers are
    lists of bytes that are written in place; a write outside of one is an error. *)

From S2P Require Import Prelude CInt DnsName.

Definition DOT : Z := 46.
(** [l[i] = b] *)
Definition wr (l : bytes) (i b : Z) : option bytes :=
  if (0 <=? i) && (i <? zlen l) then Some (splice i [b] l) else None.

(** ** str2rhn *)

(** [for(j=i; str[j] && str[j]!='.'; ++j)]; [getc j] is [str[j]].  [Some None] is the
    failure of a label that is too long. *)
Fixpoint copy_element (fuel : nat) (getc : Z → option Z) (j jlim : Z) (rhn : bytes) :
    option (option (Z * bytes)) :=
  match fuel with
  | O => None
  | S fuel =>
      c ← getc j;
      if (c =? 0) || (c =? DOT) then Some (Some (j, rhn))
      else if j >=? jlim then Some None
      else rhn ← wr rhn (j + 1) c; copy_element fuel getc (j + 1) jlim rhn
  end.
Definition element_limit (i : Z) : Z :=
  let jlim := i + 63 in if jlim >? DNSNAMEBUFSIZE - 2 then DNSNAMEBUFSIZE - 2 else jlim.

Fixpoint str2rhn_loop (fuel : nat) (str : bytes) (i : Z) (rhn : bytes) : option (option bytes) :=
  match fuel with
  | O => None
  | S fuel =>
      r ← copy_element 257 (rd str) i (element_limit i) rhn;
      match r with
      | None => Some None
      | Some (j, rhn) =>
          c ← rd str j;
          if c =? 0 then
            rhn ← wr rhn i 0;
            if (j >? i) || (i =? 0) then Some None else Some (Some rhn)
          else if j <=? i then Some None
          else rhn ← wr rhn i (u8 (j - i)); str2rhn_loop fuel str (j + 1) rhn
      end
  end.
(** the result is [None] for the return value 0 *)
Definition str2rhn (str rhn : bytes) : option (option bytes) :=
  c ← rd str 0;
  root ← (if c =? DOT then c1 ← rd str 1; Some (c1 =? 0) else Some false);
  if (root : bool) then rhn ← wr rhn 0 0; Some (Some rhn)
  else str2rhn_loop 257 str 0 rhn.

(** ** parsestr2rhn *)

Inductive parse_error := ELEMENT_TOO_LONG | EMPTY_ELEMENT | EMPTY_NAME.

(** [str[j]], 0 from [len] on *)
Definition getc_len (str : bytes) (len j : Z) : option Z := if j <? len then rd str j else Some 0.

(** the [do] loop; the result is [i] and the buffer at its end *)
Fixpoint parsestr2rhn_loop (fuel : nat) (str : bytes) (len i : Z) (rhn : bytes) :
    option (Z * bytes + parse_error) :=
  match fuel with
  | O => None
  | S fuel =>
      r ← copy_element 257 (getc_len str len) i (element_limit i) rhn;
      match r with
      | None => Some (inr ELEMENT_TOO_LONG)
      | Some (j, rhn) =>
          c ← getc_len str len j;
          if j <=? i then
            if negb (c =? 0) then Some (inr EMPTY_ELEMENT) else Some (inl (i, rhn))
          else
            rhn ← wr rhn i (u8 (j - i));
            if negb (c =? 0) then parsestr2rhn_loop fuel str len (j + 1) rhn
            else Some (inl (j + 1, rhn))
      end
  end.
Definition parsestr2rhn (str : bytes) (len : Z) (rhn : bytes) : option (bytes + parse_error) :=
  root ← (if len >? 0 then
            c ← rd str 0;
            if c =? DOT then
              if len =? 1 then Some true else c1 ← rd str 1; Some (c1 =? 0)
            else Some false
          else Some false);
  if (root : bool) then rhn ← wr rhn 0 0; Some (inl rhn)
  else
    r ← parsestr2rhn_loop 257 str len 0 rhn;
    match r with
    | inr e => Some (inr e)
    | inl (i, rhn) =>
        rhn ← wr rhn i 0;
        if i =? 0 then Some (inr EMPTY_NAME) else Some (inl rhn)
    end.

(** ** Names in dotted notation *)

Definition plain_char (c : Z) : Prop := c ≠ 0 ∧ c ≠ DOT.
Definition plain_label (l : bytes) : Prop := 1 ≤ zlen l ≤ 63 ∧ Forall plain_char l.
Definition dots (ls : list bytes) : bytes := concat (map (λ l, l ++ [DOT]) ls).
Definition dotted (ls : list bytes) : bytes := match ls with [] => [DOT] | _ => dots ls end.

(** The text is split at its first dot in one way. *)
Lemma plain_split (w w' t t' : bytes) :
  Forall plain_char w → Forall plain_char w' → w ++ DOT :: t = w' ++ DOT :: t' → w = w' ∧ t = t'.
Proof.
  intros Hw. revert w'. induction Hw as [|c w Hc Hw IH]; intros w' Hw' H; destruct Hw' as [|c' w' Hc' Hw'];
    cbn in H; simplify_eq.
  - done.
  - by destruct Hc'.
  - by destruct Hc.
  - edestruct IH as [-> ->]; eauto.
Qed.
Lemma dots_cons l ls : dots (l :: ls) = l ++ DOT :: dots ls.
Proof. unfold dots. cbn. by rewrite <-app_assoc. Qed.
Lemma plain_dots_nil w ls : Forall plain_char w → w = dots ls → w = [].
Proof.
  intros Hw ->. destruct ls as [|l ls]; [done|]. rewrite dots_cons in Hw.
  apply Forall_app in Hw as [_ Hw]. apply Forall_cons_1 in Hw as [[_ ?] _]. done.
Qed.
Lemma dots_first w t ls :
  Forall plain_char w → Forall plain_label ls →
  w ++ DOT :: t = dots ls ↔ ∃ ls', ls = w :: ls' ∧ t = dots ls'.
Proof.
  intros Hw Hls. split.
  - destruct Hls as [|l ls Hl Hls].
    + intros H. by destruct w.
    + rewrite dots_cons. intros [-> ->]%plain_split; [|done|apply Hl]. eauto.
  - intros (ls' & -> & ->). by rewrite dots_cons.
Qed.
Lemma zlen_rhn_dots ls : zlen (rhn ls) = zlen (dots ls) + 1.
Proof.
  unfold rhn. rewrite zlen_app. f_equal. induction ls as [|l ls IH]; [done|].
  unfold rhn_labels, dots in *. cbn [map concat]. rewrite !zlen_app, IH, zlen_cons. zlens. lia.
Qed.

(** A text up to its first dot. *)
Lemma first_dot (s : bytes) :
  Forall (λ c, c ≠ 0) s → ∃ w, Forall plain_char w ∧ (s = w ∨ ∃ t, s = w ++ DOT :: t).
Proof.
  induction 1 as [|c s Hc Hs IH]; [exists []; auto|].
  destruct (decide (c = DOT)) as [->|Hd]; [exists []; eauto|].
  destruct IH as (w & Hw & [->|[t ->]]); exists (c :: w); (split; [by constructor|]); eauto.
Qed.

(** ** The loops *)

(** [s] is what is read from [i] on, up to the end of the string *)
Definition reads (getc : Z → option Z) (i : Z) (s : bytes) : Prop :=
  (∀ k c, s !! k = Some c → getc (i + Z.of_nat k) = Some c) ∧ getc (i + zlen s) = Some 0.
Lemma reads_cons getc i c s : reads getc i (c :: s) ↔ getc i = Some c ∧ reads getc (i + 1) s.
Proof.
  unfold reads. rewrite zlen_cons. split.
  - intros [H He]. split; [by rewrite <-(H 0%nat c), Z.add_0_r|]. split.
    + intros k x Hk. rewrite <-(H (S k) x Hk). f_equal. lia.
    + rewrite <-He. f_equal. lia.
  - intros (H0 & H & He). split.
    + intros [|k] x Hk; [rewrite Z.add_0_r; cbn in *; congruence|]. rewrite <-(H k x Hk). f_equal. lia.
    + rewrite <-He. f_equal. lia.
Qed.
Lemma reads_nil getc i : reads getc i [] ↔ getc i = Some 0.
Proof.
  unfold reads. change (zlen (@nil Z)) with 0; rewrite Z.add_0_r. naive_solver.
Qed.
Lemma reads_app getc i w t : reads getc i (w ++ t) → reads getc (i + zlen w) t.
Proof.
  revert i. induction w as [|c w IH]; intros i; cbn [app]; zlens.
  - by rewrite Z.add_0_r.
  - intros [_ H%IH]%reads_cons. replace (i + (1 + zlen w)) with (i + 1 + zlen w) by lia. done.
Qed.
Lemma wr_ok l i b : 0 ≤ i < zlen l → wr l i b = Some (splice i [b] l).
Proof. intros. unfold wr. replace ((0 <=? i) && (i <? zlen l)) with true; [done|]. symmetry. apply andb_true_iff. lia. Qed.

Lemma splice_nil {A} o (l : list A) : splice o [] l = l.
Proof. unfold splice. change (zlen (@nil A)) with 0. rewrite Z.add_0_r. apply ztake_zdrop. Qed.

Lemma copy_element_spec fuel getc w t j jlim (rhn : bytes) :
  Forall plain_char w → reads getc j (w ++ t) → (t = [] ∨ ∃ t', t = DOT :: t') →
  0 ≤ j → jlim < zlen rhn → Z.max 0 (jlim - j) < Z.of_nat fuel →
  copy_element fuel getc j jlim rhn =
    Some (if (zlen w =? 0) || (j + zlen w <=? jlim)
          then Some (j + zlen w, splice (j + 1) w rhn) else None).
Proof.
  intros Hw. revert fuel j rhn. induction Hw as [|x w [Hx Hd] Hw IH]; intros fuel j rhn Hr Ht Hj Hz Hf;
    (destruct fuel as [|fuel]; [lia|]); cbn [copy_element app] in *.
  - rewrite splice_nil. change (zlen (@nil Z)) with 0. rewrite Z.add_0_r. cbn [Z.eqb orb].
    destruct Ht as [->|[t' ->]]; [apply reads_nil in Hr|apply reads_cons in Hr as [Hr _]];
      rewrite Hr; done.
  - apply reads_cons in Hr as [Hr1 Hr2]. rewrite Hr1. cbn [mbind option_bind].
    rewrite (proj2 (Z.eqb_neq _ _) Hx), (proj2 (Z.eqb_neq _ _) Hd). cbn [orb].
    zlens. pose proof (zlen_nonneg w). replace (1 + zlen w =? 0) with false by (symmetry; lia).
    cbn [orb]. zif (j >=? jlim); [by zcase|].
    rewrite wr_ok by lia. cbn [mbind option_bind].
    rewrite IH by (try done; rewrite ?zlen_splice; zlens; lia). f_equal.
    replace ((zlen w =? 0) || (j + 1 + zlen w <=? jlim)) with (j + (1 + zlen w) <=? jlim).
    2:{ destruct (zlen w =? 0) eqn:Hw0; zbool; cbn [orb]; [|f_equal; lia]. apply Z.leb_le. lia. }
    zif (j + (1 + zlen w) <=? jlim); [|done]. do 2 f_equal; [lia|].
    exact (splice_splice_after (j + 1) [x] w rhn ltac:(lia) ltac:(zlens; lia)).
Qed.

Lemma element_limit_spec i : element_limit i = Z.min (i + 63) 254.
Proof. unfold element_limit, DNSNAMEBUFSIZE. zcase. Qed.

(** What an element does to the buffer: its characters, then its length. *)
Lemma wr_element i w (rhn : bytes) :
  0 ≤ i → 1 ≤ zlen w ≤ 63 → i + 1 + zlen w ≤ zlen rhn →
  wr (splice (i + 1) w rhn) i (u8 (zlen w)) = Some (splice i (zlen w :: w) rhn).
Proof.
  intros. rewrite wr_ok by (rewrite zlen_splice; lia). f_equal.
  unfold u8. rewrite Z.mod_small by lia.
  exact (splice_splice_before i [zlen w] w rhn ltac:(lia) ltac:(zlens; lia)).
Qed.
Lemma element_end i ls (w rhn : bytes) :
  0 ≤ i → i + 1 + zlen w + zlen (DnsName.rhn ls) ≤ zlen rhn →
  splice (i + zlen w + 1) (DnsName.rhn ls) (splice i (zlen w :: w) rhn) =
    splice i (DnsName.rhn (w :: ls)) rhn.
Proof.
  intros. rewrite rhn_cons.
  replace (i + zlen w + 1) with (i + zlen (zlen w :: w)) by (zlens; lia).
  rewrite splice_splice_after by (zlens; lia). done.
Qed.

(** The labels of a text, one element at a time. *)
Definition text_of (i : Z) (ls : list bytes) : Prop :=
  Forall plain_label ls ∧ i + zlen (dots ls) ≤ 255.
Lemma text_of_nil i : i ≤ 255 → text_of i [].
Proof. intros. split; [constructor|]. change (zlen (dots [])) with 0. lia. Qed.
Lemma text_of_cons i w ls :
  Forall plain_char w →
  text_of i (w :: ls) ↔ 1 ≤ zlen w ≤ 63 ∧ text_of (i + zlen w + 1) ls.
Proof.
  intros Hw. unfold text_of. rewrite list.Forall_cons, dots_cons. unfold plain_label. zlens.
  split; intros; destruct_and?; split_and?; try done; lia.
Qed.
Definition fits (i : Z) (w : bytes) : Prop := zlen w ≤ 63 ∧ i + zlen w + 1 ≤ 255.

(** One turn of a loop: the text is split at its first dot, and the element is copied
    exactly if it fits. *)
Lemma copy_element_text getc i s (rhn : bytes) :
  Forall (λ c, c ≠ 0) s → reads getc i s → 0 ≤ i ≤ 255 → 256 ≤ zlen rhn →
  ∃ w, Forall plain_char w ∧
    (s = w ∧ getc (i + zlen w) = Some 0 ∨
     ∃ t, s = w ++ DOT :: t ∧ getc (i + zlen w) = Some DOT ∧ reads getc (i + zlen w + 1) t ∧
       Forall (λ c, c ≠ 0) t) ∧
    copy_element 257 getc i (element_limit i) rhn =
      Some (if bool_decide (w = [] ∨ fits i w) then Some (i + zlen w, splice (i + 1) w rhn) else None).
Proof.
  intros Hs Hr Hi Hz. destruct (first_dot s Hs) as (w & Hw & Hc). exists w. split; [done|].
  assert (Hl : element_limit i = Z.min (i + 63) 254) by apply element_limit_spec.
  pose proof (zlen_nonneg w).
  assert (Hfit : (zlen w =? 0) || (i + zlen w <=? element_limit i) = bool_decide (w = [] ∨ fits i w)).
  { rewrite Hl. destruct w as [|x w]; [done|]. unfold fits. rewrite zlen_cons in *.
    pose proof (zlen_nonneg w). case_bool_decide as Hb; repeat zcase; naive_solver lia. }
  rewrite <-Hfit. destruct Hc as [->|[t ->]].
  - split; [left; split; [done|apply Hr]|].
    apply (copy_element_spec 257 getc w []); rewrite ?app_nil_r; auto; lia.
  - split.
    + right. exists t. apply reads_app, reads_cons in Hr as [??].
      apply Forall_app in Hs as [_ Hs]. by apply list.Forall_cons in Hs as [_ Hs].
    + apply (copy_element_spec 257 getc w (DOT :: t)); eauto; lia.
Qed.

(** A text that starts with [w] and a dot is the text of names that start with [w]. *)
Lemma text_of_first i w t ls :
  Forall plain_char w → text_of i ls → w ++ DOT :: t = dots ls →
  ∃ ls', ls = w :: ls' ∧ t = dots ls' ∧ 1 ≤ zlen w ≤ 63 ∧ i + zlen w + 1 ≤ 255 ∧
    text_of (i + zlen w + 1) ls'.
Proof.
  intros Hw Htx Hls. apply dots_first in Hls as (ls' & -> & ->); [|done|apply Htx].
  apply text_of_cons in Htx as [? Htx]; [|done]. exists ls'. repeat split; try done; try lia; try apply Htx.
  destruct Htx as [_ Htx]. pose proof (zlen_nonneg (dots ls')). lia.
Qed.
Lemma dots_nil_inv ls : [] = dots ls → ls = [].
Proof. destruct ls as [|l ls]; [done|]. rewrite dots_cons. by destruct l. Qed.
Lemma nonempty_fits i (w : bytes) : w ≠ [] → w = [] ∨ fits i w → 1 ≤ zlen w ≤ 63 ∧ i + zlen w + 1 ≤ 255.
Proof.
  intros Hw [?|[? ?]]; [done|]. destruct w; [done|]. rewrite zlen_cons in *. pose proof (zlen_nonneg w). lia.
Qed.

(** What is left after an element [w] is the rest of the names. *)
Lemma text_rest i w t (rhn rhn' : bytes) :
  Forall plain_char w → 1 ≤ zlen w ≤ 63 → 0 ≤ i → 256 ≤ zlen rhn →
  (∃ ls, text_of (i + zlen w + 1) ls ∧ t = dots ls ∧
     rhn' = splice (i + zlen w + 1) (DnsName.rhn ls) (splice i (zlen w :: w) rhn)) ↔
  (∃ ls, text_of i ls ∧ w ++ DOT :: t = dots ls ∧ rhn' = splice i (DnsName.rhn ls) rhn).
Proof.
  intros Hw Hwl Hi Hz.
  assert (He : ∀ ls, text_of (i + zlen w + 1) ls →
    splice (i + zlen w + 1) (DnsName.rhn ls) (splice i (zlen w :: w) rhn) =
    splice i (DnsName.rhn (w :: ls)) rhn).
  { intros ls [_ Hl]. apply element_end; [done|]. rewrite zlen_rhn_dots. lia. }
  split.
  - intros (ls & Htx & -> & ->). exists (w :: ls). rewrite He by done.
    split; [by apply text_of_cons|]. by rewrite dots_cons.
  - intros (ls & Htx & Hls & ->). destruct (text_of_first _ _ _ _ Hw Htx Hls) as (ls' & -> & -> & _ & _ & ?).
    exists ls'. rewrite He; done.
Qed.

Lemma dot_no_text i ls : [DOT] = dots ls → ¬ text_of i ls.
Proof.
  intros Hd Htx. destruct (text_of_first i [] [] ls) as (? & _ & _ & H & _); [constructor|done|done|].
  change (zlen (@nil Z)) with 0 in H. lia.
Qed.
Lemma rest_names i w t (rhn rhn' : bytes) :
  Forall plain_char w → 1 ≤ zlen w ≤ 63 → 0 ≤ i → 256 ≤ zlen rhn →
  (∃ ls s', text_of (i + zlen w + 1) ls ∧ (s' = t ∨ s' = t ++ [DOT] ∧ t ≠ []) ∧ s' = dots ls ∧
     rhn' = splice (i + zlen w + 1) (DnsName.rhn ls) (splice i (zlen w :: w) rhn)) ↔
  (∃ ls s', text_of i ls ∧
     (s' = w ++ DOT :: t ∨ s' = (w ++ DOT :: t) ++ [DOT] ∧ w ++ DOT :: t ≠ []) ∧ s' = dots ls ∧
     rhn' = splice i (DnsName.rhn ls) rhn).
Proof.
  intros Hw Hwl Hi Hz. split.
  - intros (ls & s' & Htx & Hs' & Hd & Heq).
    destruct (proj1 (text_rest i w s' rhn rhn' Hw Hwl Hi Hz)) as (ls1 & ? & ? & ?); [eauto|].
    exists ls1, (w ++ DOT :: s'). split; [done|]. split; [|done].
    destruct Hs' as [->|[-> ?]]; [by left|right]. rewrite <-app_assoc. split; [done|by destruct w].
  - intros (ls & s' & Htx & Hs' & Hd & Heq).
    assert (∃ t2, s' = w ++ DOT :: t2 ∧ (t2 = t ∨ t2 = t ++ [DOT])) as (t2 & -> & Ht2).
    { destruct Hs' as [->|[-> _]]; [by eauto|]. rewrite <-app_assoc. eauto. }
    destruct (proj2 (text_rest i w t2 rhn rhn' Hw Hwl Hi Hz)) as (ls1 & ? & -> & ?); [eauto|].
    exists ls1, (dots ls1). split; [done|]. split; [|done].
    destruct Ht2 as [|Ht2]; [by left|right]. split; [done|]. intros ->. by eapply dot_no_text.
Qed.

Lemma str2rhn_loop_spec fuel str i s (rhn : bytes) :
  Forall (λ c, c ≠ 0) s → reads (rd str) i s → 0 ≤ i ≤ 255 → 256 ≤ zlen rhn →
  255 - i < Z.of_nat fuel →
  ∃ r, str2rhn_loop fuel str i rhn = Some r ∧ ∀ rhn', r = Some rhn' ↔
    (s = [] → 0 < i) ∧
    ∃ ls, text_of i ls ∧ s = dots ls ∧ rhn' = splice i (DnsName.rhn ls) rhn.
Proof.
  revert i s rhn. induction fuel as [|fuel IH]; intros i s rhn Hs Hr Hi Hz Hf; [lia|].
  cbn [str2rhn_loop].
  destruct (copy_element_text _ _ _ _ Hs Hr Hi Hz) as (w & Hw & Hc & ->). cbn [mbind option_bind].
  pose proof (zlen_nonneg w). case_bool_decide as Hfit.
  2:{ eexists; split; [done|]. intros rhn'. split; [done|]. intros (_ & ls & Htx & Hls & _).
      destruct Hc as [[-> _]|(t & -> & _)]; [apply plain_dots_nil in Hls; tauto|].
      destruct (text_of_first _ _ _ _ Hw Htx Hls) as (ls' & ? & ? & ? & ? & _). destruct Hfit. right. split; lia. }
  destruct Hc as [[-> Hend]|(t & -> & Hend & Hr' & Ht)]; rewrite Hend; cbn [mbind option_bind Z.eqb DOT].
  - destruct (decide (w = [])) as [->|Hne].
    + rewrite splice_nil, wr_ok by lia. change (zlen (@nil Z)) with 0. rewrite Z.add_0_r.
      cbn [mbind option_bind]. replace (i >? i) with false by lia. cbn [orb].
      exists (if i =? 0 then None else Some (splice i [0] rhn)). split; [by zif (i =? 0)|].
      intros rhn'. split.
      * zif (i =? 0); [done|]. intros [= <-]. split; [lia|]. exists []. split; [by apply text_of_nil; lia|done].
      * intros (Hi0 & ls & _ & ->%dots_nil_inv & ->). specialize (Hi0 eq_refl). by zif (i =? 0); [lia|].
    + destruct (nonempty_fits _ _ Hne Hfit). rewrite wr_ok by (rewrite zlen_splice; lia).
      cbn [mbind option_bind]. replace (i + zlen w >? i) with true by lia. cbn [orb].
      eexists; split; [done|]. intros rhn'. split; [done|].
      intros (_ & ls & _ & Hls & _). by apply plain_dots_nil in Hls.
  - replace (i + zlen w - i) with (zlen w) by lia.
    destruct (decide (w = [])) as [->|Hne].
    + change (zlen (@nil Z)) with 0. rewrite Z.add_0_r, Z.leb_refl.
      eexists; split; [done|]. intros rhn'. split; [done|]. intros (_ & ls & Htx & Hls & _).
      destruct (text_of_first _ [] _ _ Hw Htx Hls) as (ls' & _ & _ & ? & _).
      change (zlen (@nil Z)) with 0 in *. lia.
    + destruct (nonempty_fits _ _ Hne Hfit). replace (i + zlen w <=? i) with false by lia.
      rewrite wr_element by lia. cbn [mbind option_bind].
      destruct (IH (i + zlen w + 1) t (splice i (zlen w :: w) rhn) Ht Hr') as (r & -> & Hres);
        [lia|rewrite zlen_splice by (zlens; lia); done|lia|].
      exists r. split; [done|]. intros rhn'. rewrite (Hres rhn').
      rewrite text_rest by (done || lia). split; (intros [_ ?]; split; [|done]).
      * intros Hnil. by destruct w.
      * lia.
Qed.

Lemma parsestr2rhn_loop_spec fuel str len i s (rhn : bytes) :
  Forall (λ c, c ≠ 0) s → reads (getc_len str len) i s → 0 ≤ i ≤ 255 → 256 ≤ zlen rhn →
  255 - i < Z.of_nat fuel →
  ∃ r, parsestr2rhn_loop fuel str len i rhn = Some r ∧
    (∀ j rhn1, r = inl (j, rhn1) → 0 ≤ j ≤ 255 ∧ zlen rhn1 = zlen rhn ∧ (j = 0 ↔ i = 0 ∧ s = [])) ∧
    ∀ rhn', (∃ j rhn1, r = inl (j, rhn1) ∧ rhn' = splice j [0] rhn1) ↔
      ∃ ls s', text_of i ls ∧ (s' = s ∨ s' = s ++ [DOT] ∧ s ≠ []) ∧ s' = dots ls ∧
        rhn' = splice i (DnsName.rhn ls) rhn.
Proof.
  revert i s rhn. induction fuel as [|fuel IH]; intros i s rhn Hs Hr Hi Hz Hf; [lia|].
  cbn [parsestr2rhn_loop].
  destruct (copy_element_text _ _ _ _ Hs Hr Hi Hz) as (w & Hw & Hc & ->). cbn [mbind option_bind].
  pose proof (zlen_nonneg w). case_bool_decide as Hfit.
  2:{ eexists; split; [done|]. split; [done|]. intros rhn'. split; [naive_solver|].
      intros (ls & s' & Htx & Hs' & -> & _).
      assert (∃ t, dots ls = w ++ DOT :: t) as [t Ht].
      { destruct Hc as [[-> _]|(t & -> & _)]; destruct Hs' as [Hs'|[Hs' _]]; eauto.
        - symmetry in Hs'. apply plain_dots_nil in Hs'; tauto.
        - exists (t ++ [DOT]). by rewrite <-app_assoc in Hs'. }
      destruct (text_of_first _ _ _ _ Hw Htx (eq_sym Ht)) as (ls' & ? & ? & ? & ? & _).
      destruct Hfit. right. split; lia. }
  destruct (decide (w = [])) as [->|Hne].
  - change (zlen (@nil Z)) with 0 in *. rewrite Z.add_0_r, Z.leb_refl, splice_nil in *.
    destruct Hc as [[-> Hend]|(t & -> & Hend & Hr' & Ht)]; rewrite Hend; cbn.
    + eexists; split; [done|]. split; [intros j rhn1 [= <- <-]; naive_solver lia|]. intros rhn'. split.
      * intros (? & ? & [= <- <-] & ->). exists [], []. split; [by apply text_of_nil; lia|]. auto.
      * intros (ls & s' & _ & [->|[_ ?]] & Hls & ->); [|done]. apply dots_nil_inv in Hls as ->. eauto.
    + eexists; split; [done|]. split; [done|]. intros rhn'. split; [naive_solver|].
      intros (ls & s' & Htx & Hs' & -> & _).
      assert (∃ t, [] ++ DOT :: t = dots ls) as [t' Ht'] by (destruct Hs' as [->|[-> _]]; cbn; eauto).
      destruct (text_of_first _ [] _ _ Hw Htx Ht') as (ls' & _ & _ & ? & _).
      change (zlen (@nil Z)) with 0 in *. lia.
  - destruct (nonempty_fits _ _ Hne Hfit). replace (i + zlen w - i) with (zlen w) by lia.
    replace (i + zlen w <=? i) with false by lia.
    destruct Hc as [[-> Hend]|(t & -> & Hend & Hr' & Ht)]; rewrite Hend; cbn [mbind option_bind];
      rewrite wr_element by lia; cbn [mbind option_bind Z.eqb DOT negb].
    + eexists; split; [done|]. split.
      { intros j rhn1 [= <- <-]. rewrite zlen_splice by (zlens; lia). naive_solver lia. }
      intros rhn'.
      transitivity (∃ ls, text_of i ls ∧ w ++ [DOT] = dots ls ∧ rhn' = splice i (DnsName.rhn ls) rhn).
      * rewrite <-text_rest by (done || lia). split.
        -- intros (? & ? & [= <- <-] & ->). exists []. split; [by apply text_of_nil; lia|done].
        -- intros (ls & _ & ->%dots_nil_inv & ->). eauto.
      * split; [naive_solver|]. intros (ls & s' & ? & [->|[-> _]] & Hls & ?); [|eauto].
        by apply plain_dots_nil in Hls.
    + destruct (IH (i + zlen w + 1) t (splice i (zlen w :: w) rhn) Ht Hr') as (r & -> & Hj & Hres);
        [lia|rewrite zlen_splice by (zlens; lia); done|lia|].
      exists r. split; [done|]. split.
      { intros j rhn1 Hr1. destruct (Hj _ _ Hr1) as (? & Hz1 & Hj0).
        rewrite zlen_splice in Hz1 by (zlens; lia). split; [done|]. split; [done|].
        rewrite Hj0. split; [lia|]. intros [_ ?]. by destruct w. }
      intros rhn'. rewrite (Hres rhn'). apply rest_names; done || lia.
Qed.

(** ** The functions *)

Lemma reads_text (s rest : bytes) : reads (rd (s ++ 0 :: rest)) 0 s.
Proof. split; [intros k c Hk; by apply rd_text|apply rd_text_end]. Qed.

(** the names a text stands for *)
Definition name_of_text (s : bytes) (ls : list bytes) : Prop :=
  Forall plain_label ls ∧ s = dotted ls ∧ zlen (rhn ls) ≤ DNSNAMEBUFSIZE.

(** A text is not the root and stands for no name without labels, or it is the root. *)
Lemma name_of_text_not_root s ls :
  s ≠ [DOT] → name_of_text s ls ↔ text_of 0 ls ∧ s = dots ls ∧ s ≠ [].
Proof.
  intros Hs. unfold name_of_text, text_of, DNSNAMEBUFSIZE. rewrite zlen_rhn_dots. split.
  - intros (? & -> & ?). destruct ls as [|l ls]; [done|]. cbn [dotted]. repeat split; try done; [lia|].
    rewrite dots_cons. by destruct l.
  - intros ((? & ?) & -> & Hn). destruct ls as [|l ls]; [done|]. repeat split; [done|lia].
Qed.
Lemma name_of_text_root ls : name_of_text [DOT] ls ↔ ls = [].
Proof.
  split; [|intros ->; repeat split; [constructor|by vm_compute]].
  intros (Hf & Hd & _). destruct ls as [|l ls]; [done|]. cbn [dotted] in Hd.
  destruct (proj1 (dots_first [] [] (l :: ls) ltac:(constructor) Hf) Hd) as (ls' & [= -> ->] & _).
  apply list.Forall_cons in Hf as [[H _] _]. change (zlen (@nil Z)) with 0 in H. lia.
Qed.

(** The root, as both functions recognise it. *)
Lemma str2rhn_not_root s rest (rhn : bytes) :
  s ≠ [DOT] → Forall (λ c, c ≠ 0) s →
  str2rhn (s ++ 0 :: rest) rhn = str2rhn_loop 257 (s ++ 0 :: rest) 0 rhn.
Proof.
  intros Hs Hn. unfold str2rhn. destruct Hn as [|c s Hc Hn]; [done|]. cbn [app].
  change (rd (c :: _) 0) with (Some c). cbn [mbind option_bind].
  destruct (Z.eqb_spec c DOT) as [->|]; [|done].
  destruct Hn as [|c' s Hc' Hn]; [done|]. cbn [app].
  change (rd (DOT :: c' :: s ++ 0 :: rest) 1) with (Some c'). cbn [mbind option_bind]. by rewrite (proj2 (Z.eqb_neq _ _) Hc').
Qed.

(** [str2rhn] succeeds exactly on the texts of names that fit. *)
Lemma str2rhn_names s rest (rhn : bytes) :
  Forall (λ c, c ≠ 0) s → DNSNAMEBUFSIZE ≤ zlen rhn →
  ∃ r, str2rhn (s ++ 0 :: rest) rhn = Some r ∧
    ∀ rhn', r = Some rhn' ↔ ∃ ls, name_of_text s ls ∧ rhn' = splice 0 (DnsName.rhn ls) rhn.
Proof.
  unfold DNSNAMEBUFSIZE. intros Hs Hz. destruct (decide (s = [DOT])) as [->|Hne].
  - unfold str2rhn. cbn [app]. change (rd (DOT :: _) 0) with (Some DOT).
    change (rd (DOT :: 0 :: _) 1) with (Some 0). cbn [mbind option_bind Z.eqb DOT].
    cbn. rewrite wr_ok by lia. eexists; split; [done|]. intros rhn'. setoid_rewrite name_of_text_root.
    split; [intros [= <-]; eauto|]. by intros (? & -> & ->).
  - rewrite str2rhn_not_root by done.
    destruct (str2rhn_loop_spec 257 (s ++ 0 :: rest) 0 s rhn Hs) as (r & -> & Hr); [apply reads_text|lia..|].
    exists r. split; [done|]. intros rhn'. rewrite (Hr rhn').
    setoid_rewrite (name_of_text_not_root s _ Hne). split.
    + intros (H0 & ls & ? & ? & ?). exists ls. repeat split; try done; try apply H; [..|].
      all: try (intros ->; specialize (H0 eq_refl); lia). all: by destruct_and!.
    + intros (ls & (? & ? & ?) & ?). split; [done|eauto].
Qed.

(** a string of at most [len] characters, that ends before that at a 0 byte *)
Definition string_in (s str : bytes) (len : Z) : Prop :=
  Forall (λ c, c ≠ 0) s ∧ ∃ rest, str = s ++ rest ∧
    (len = zlen s ∨ zlen s < len ∧ ∃ rest', rest = 0 :: rest').

Lemma string_in_reads s str len : string_in s str len → reads (getc_len str len) 0 s.
Proof.
  intros (_ & rest & -> & Hl). unfold getc_len. split.
  - intros k c Hk. assert (Z.of_nat k < zlen s) by (apply lookup_lt_Some in Hk; unfold zlen; lia).
    replace (0 + Z.of_nat k <? len) with true by (destruct Hl as [->|[? _]]; lia).
    by apply rd_text.
  - rewrite Z.add_0_l. destruct Hl as [->|(? & rest' & ->)]; [by rewrite Z.ltb_irrefl|].
    replace (zlen s <? len) with true by lia. apply rd_text_end.
Qed.

Lemma parsestr2rhn_root str len (rhn : bytes) :
  string_in [DOT] str len → 1 ≤ zlen rhn → parsestr2rhn str len rhn = Some (inl (splice 0 [0] rhn)).
Proof.
  intros (_ & rest & -> & Hl) Hz. unfold parsestr2rhn. cbn [app].
  change (zlen [DOT]) with 1 in Hl. replace (len >? 0) with true by lia.
  change (rd (DOT :: rest) 0) with (Some DOT). cbn [mbind option_bind]. cbn [Z.eqb DOT Pos.eqb].
  destruct (Z.eqb_spec len 1) as [->|].
  - cbn [mbind option_bind]. rewrite wr_ok by lia. done.
  - destruct Hl as [?|(_ & rest' & ->)]; [lia|]. change (rd (46 :: 0 :: rest') 1) with (Some 0).
    cbn [mbind option_bind Z.eqb]. rewrite wr_ok by lia. done.
Qed.
Lemma parsestr2rhn_not_root s str len (rhn : bytes) :
  s ≠ [DOT] → string_in s str len →
  parsestr2rhn str len rhn =
    (r ← parsestr2rhn_loop 257 str len 0 rhn;
     match r with
     | inr e => Some (inr e)
     | inl (i, rhn) =>
         rhn ← wr rhn i 0;
         if i =? 0 then Some (inr EMPTY_NAME) else Some (inl rhn)
     end).
Proof.
  intros Hs (Hn & rest & -> & Hl). unfold parsestr2rhn.
  assert (Hroot : (if len >? 0 then
            c ← rd (s ++ rest) 0;
            if c =? DOT then
              if len =? 1 then Some true else c1 ← rd (s ++ rest) 1; Some (c1 =? 0)
            else Some false
          else Some false) = Some false); [|by rewrite Hroot].
  destruct Hn as [|c s Hc Hn].
  - destruct Hl as [->|(? & rest' & ->)]; [done|]. change (zlen (@nil Z)) with 0 in *.
    by replace (len >? 0) with true by lia.
  - pose proof (zlen_nonneg s). rewrite zlen_cons in Hl. replace (len >? 0) with true by lia.
    change (rd ((c :: s) ++ rest) 0) with (Some c). cbn [mbind option_bind].
    destruct (Z.eqb_spec c DOT) as [->|]; [|done].
    destruct Hn as [|c' s Hc' Hn]; [done|]. rewrite zlen_cons in *. pose proof (zlen_nonneg s).
    replace (len =? 1) with false by lia.
    change (rd ((DOT :: c' :: s) ++ rest) 1) with (Some c'). cbn [mbind option_bind].
    by rewrite (proj2 (Z.eqb_neq _ _) Hc').
Qed.

(** C16: [parsestr2rhn] on a string of at most [len] characters, which need not end with a
    0 byte, returns without an access outside of the string and the buffer; it
    succeeds exactly if the string is not empty and [str2rhn] succeeds on it or on it
    with a dot at its end, and then with the same result. *)
Theorem parsestr2rhn_str2rhn s str len (rhn : bytes) :
  string_in s str len → DNSNAMEBUFSIZE ≤ zlen rhn →
  ∃ r, parsestr2rhn str len rhn = Some r ∧
    ∀ rhn', r = inl rhn' ↔ s ≠ [] ∧ ∃ s', (s' = s ∨ s' = s ++ [DOT]) ∧
      str2rhn (s' ++ [0]) rhn = Some (Some rhn').
Proof.
  intros Hin Hz. pose proof (string_in_reads _ _ _ Hin) as Hreads.
  assert (Hs : Forall (λ c, c ≠ 0) s) by apply Hin.
  assert (Hstr : ∀ s' rhn', (s' = s ∨ s' = s ++ [DOT]) → str2rhn (s' ++ [0]) rhn = Some (Some rhn') ↔
    ∃ ls, name_of_text s' ls ∧ rhn' = splice 0 (DnsName.rhn ls) rhn).
  { intros s' rhn' Hs'. destruct (str2rhn_names s' [] rhn) as (r & -> & Hr); [|done|].
    - destruct Hs' as [->| ->]; [done|]. apply Forall_app. split; [done|]. by repeat constructor.
    - rewrite <-(Hr rhn'). split; [by intros [= ->]|by intros ->]. }
  unfold DNSNAMEBUFSIZE in *. destruct (decide (s = [DOT])) as [->|Hne].
  - rewrite (parsestr2rhn_root str len) by (done || lia). eexists; split; [done|]. intros rhn'. split.
    + intros [= <-]. split; [done|]. exists [DOT]. split; [by left|]. apply Hstr; [by left|].
      exists []. split; [by apply name_of_text_root|done].
    + intros (_ & s' & Hs' & Hr). apply Hstr in Hr as (ls & Hls & ->); [|done].
      destruct Hs' as [->| ->]; [by apply name_of_text_root in Hls as ->|].
      apply name_of_text_not_root in Hls as (Htx & Hls & _); [|done].
      destruct (text_of_first 0 [] [DOT] ls) as (? & _ & _ & H & _); [constructor|done|done|].
      change (zlen (@nil Z)) with 0 in H. lia.
  - rewrite (parsestr2rhn_not_root s) by done.
    destruct (parsestr2rhn_loop_spec 257 str len 0 s rhn) as (r & -> & Hj & Hr); [done|done|lia..|].
    cbn [mbind option_bind].
    assert (Hnames : ∀ rhn', s ≠ [] → (∃ j rhn1, r = inl (j, rhn1) ∧ rhn' = splice j [0] rhn1) ↔
      ∃ s', (s' = s ∨ s' = s ++ [DOT]) ∧ str2rhn (s' ++ [0]) rhn = Some (Some rhn')).
    { intros rhn' Hnil. rewrite Hr. split.
      - intros (ls & s' & ? & Hs' & Hls & ?). exists s'. assert (s' = s ∨ s' = s ++ [DOT]) by tauto.
        split; [done|]. apply Hstr; [done|]. exists ls. split; [|done]. apply name_of_text_not_root.
        + destruct Hs' as [->|[-> _]]; [done|]. by destruct s as [|? []].
        + split; [done|]. split; [done|]. destruct Hs' as [->|[-> _]]; [done|]. by destruct s.
      - intros (s' & Hs' & Hr'). apply Hstr in Hr' as (ls & Hls & ->); [|done].
        apply name_of_text_not_root in Hls as (? & ? & _).
        + exists ls, s'. split; [done|]. split; [|done]. tauto.
        + destruct Hs' as [->| ->]; [done|]. by destruct s as [|? []]. }
    destruct r as [[j rhn1]|e].
    + destruct (Hj _ _ eq_refl) as (? & Hz1 & Hj0). rewrite wr_ok by lia. cbn [mbind option_bind].
      zif (j =? 0); (eexists; split; [done|]); intros rhn'.
      * split; [done|]. intros [Hnil _]. apply Hj0 in E as [_ ?]. done.
      * assert (s ≠ []) by (intros ->; apply E, Hj0; done).
        rewrite <-Hnames by done. split; [intros [= <-]; eauto 10|]. by intros (_ & ? & ? & [= <- <-] & ->).
    + eexists; split; [done|]. intros rhn'. split; [done|]. intros (Hnil & H). apply Hnames in H; [|done].
      by destruct H as (? & ? & ? & _).
Qed.
Lemma parsestr2rhn_str2rhn_witness :
  ∃ r, parsestr2rhn [97; 46; 98; 99; 32] 4 (repeat 0 256) = Some r ∧
    ∀ rhn', r = inl rhn' ↔ [97; 46; 98; 99] ≠ [] ∧
      ∃ s', (s' = [97; 46; 98; 99] ∨ s' = [97; 46; 98; 99] ++ [DOT]) ∧
      str2rhn (s' ++ [0]) (repeat 0 256) = Some (Some rhn').
Proof.
  apply (parsestr2rhn_str2rhn [97; 46; 98; 99]); [|by vm_compute].
  split; [by repeat constructor|]. exists [32]. split; [done|]. by left.
Defined.
Example parsestr2rhn_run :
  match parsestr2rhn [97; 46; 98; 99; 32] 4 (repeat 7 256) with
  | Some (inl r) => take 7 r = [1; 97; 2; 98; 99; 0; 7]
  | _ => False
  end.
Proof. vm_compute. reflexivity. Qed.

(** ** rhn2str *)

(** [isgraph] in the C locale *)
Definition isgraph (c : Z) : bool := (33 <=? c) && (c <=? 126).
(** [snprintf(&str[j], rem, "\\%03o", c)] of a byte: the characters of the result *)
Definition octal (c : Z) : bytes := [92; 48 + c / 64; 48 + (c / 8) mod 8; 48 + c mod 8].
Definition snprintf_octal (str : bytes) (j rem c : Z) : option bytes :=
  let d := ztake (rem - 1) (octal c) ++ [0] in
  if (0 <=? j) && (j + zlen d <=? zlen str) then Some (splice j d str) else None.

(** the [for] loop over a label; [inr] is the jump to [overflow] *)
Fixpoint rhn2str_label (lb : nat) (rhn : bytes) (size i j : Z) (str : bytes) :
    option (Z * Z * bytes + bytes) :=
  match lb with
  | O => Some (inl (i, j, str))
  | S lb =>
      if j + 2 >=? size then Some (inr str)
      else
        c ← rd rhn i;
        let i := i + 1 in
        if isgraph c then
          if (c =? DOT) || (c =? 92) || (c =? 34) then
            str ← wr str j 92;
            let j := j + 1 in
            if j + 2 >=? size then Some (inr str)
            else str ← wr str j c; rhn2str_label lb rhn size i (j + 1) str
          else str ← wr str j c; rhn2str_label lb rhn size i (j + 1) str
        else
          let rem := size - 1 - j in
          str ← snprintf_octal str j rem c;
          let n := zlen (octal c) in
          if n >=? rem then str ← wr str j DOT; Some (inr str)
          else rhn2str_label lb rhn size i (j + n) str
  end.
(** the [do] loop *)
Fixpoint rhn2str_labels (fuel : nat) (rhn : bytes) (lb size i j : Z) (str : bytes) :
    option (Z * bytes + bytes) :=
  match fuel with
  | O => None
  | S fuel =>
      r ← rhn2str_label (Z.to_nat lb) rhn size i j str;
      match r with
      | inr str => Some (inr str)
      | inl (i, j, str) =>
          str ← wr str j DOT;
          let j := j + 1 in
          lb ← rd rhn i;
          let i := i + 1 in
          if negb (lb =? 0) then rhn2str_labels fuel rhn lb size i j str else Some (inl (j, str))
      end
  end.
Definition overflow (str : bytes) (size : Z) : option bytes :=
  let j := size - 1 in
  str ← wr str j 0;
  if j >? 0 then
    let j := j - 1 in
    str ← wr str j DOT;
    if j >? 0 then
      let j := j - 1 in
      str ← wr str j DOT;
      if j >? 0 then wr str (j - 1) DOT else Some str
    else Some str
  else Some str.
(** [None] inside is the result [NULL] *)
Definition rhn2str (rhn str : bytes) (size : Z) : option (option bytes) :=
  if size =? 0 then Some None
  else
    lb ← rd rhn 0;
    r ← (if lb =? 0 then
           if size >=? 2 then str ← wr str 0 DOT; Some (inl (1, str)) else Some (inl (0, str))
         else rhn2str_labels (length rhn) rhn lb size 1 0 str);
    match r with
    | inl (j, str) => str ← wr str j 0; Some (Some str)
    | inr str => str ← overflow str size; Some (Some str)
    end.

(** [str'] is [str] written to before [size] only. *)
Definition within (size : Z) (str str' : bytes) : Prop :=
  zlen str' = zlen str ∧ zdrop size str' = zdrop size str.
#[export] Instance within_preorder size : PreOrder (within size).
Proof. split; [done|]. intros ??? [??] [??]. split; congruence. Qed.
Lemma zdrop_splice {A} n o (d l : list A) :
  0 ≤ o → o + zlen d ≤ n → n ≤ zlen l → zdrop n (splice o d l) = zdrop n l.
Proof.
  intros. pose proof (zlen_nonneg d). unfold splice.
  rewrite zdrop_app_r, zlen_ztake by (rewrite ?zlen_ztake; lia).
  rewrite zdrop_app_r, zdrop_zdrop by lia. f_equal. lia.
Qed.
Lemma within_splice size o d str :
  0 ≤ o → o + zlen d ≤ size → size ≤ zlen str → within size str (splice o d str).
Proof. intros. pose proof (zlen_nonneg d). split; [apply zlen_splice|apply zdrop_splice]; lia. Qed.

(** A write before the end of the buffer. *)
Lemma wr_within size j b str :
  0 ≤ j < size → size ≤ zlen str → ∃ str', wr str j b = Some str' ∧ within size str str'.
Proof.
  intros. exists (splice j [b] str). split; [by apply wr_ok; lia|]. apply within_splice; zlens; lia.
Qed.
Lemma zlen_octal c : zlen (octal c) = 4.
Proof. done. Qed.
Lemma snprintf_within size j c str :
  0 ≤ j → j + 2 < size → size ≤ zlen str →
  ∃ str', snprintf_octal str j (size - 1 - j) c = Some str' ∧ within size str str'.
Proof.
  intros. unfold snprintf_octal.
  assert (zlen (ztake (size - 1 - j - 1) (octal c) ++ [0]) ≤ size - 1 - j)
    by (rewrite zlen_app, zlen_ztake, zlen_octal by lia; zlens; lia).
  exists (splice j (ztake (size - 1 - j - 1) (octal c) ++ [0]) str).
  split; [|apply within_splice; lia].
  replace ((0 <=? j) && _) with true; [done|]. symmetry. apply andb_true_iff. split; apply Z.leb_le; lia.
Qed.
Ltac writes size :=
  match goal with
  | |- context [wr ?l ?i ?b] =>
      let s := fresh "str" in let E := fresh "Ew" in let H := fresh "Hw" in
      destruct (wr_within size i b l) as (s & E & H); [lia|unfold within in *; lia|];
      rewrite E; cbn [mbind option_bind]
  end.

Lemma rhn2str_label_within lb rhn size i j str :
  0 ≤ i → i + Z.of_nat lb ≤ zlen rhn → 0 ≤ j → (lb = 0%nat → j + 2 ≤ size) → size ≤ zlen str →
  ∃ r, rhn2str_label lb rhn size i j str = Some r ∧
  match r with
  | inl (i', j', str') => i' = i + Z.of_nat lb ∧ 0 ≤ j' ∧ j' + 2 ≤ size ∧ within size str str'
  | inr str' => within size str str'
  end.
Proof.
  revert i j str. induction lb as [|lb IH]; intros i j str Hi Hl Hj Hj2 Hs; cbn [rhn2str_label].
  - eexists; split; [done|]. cbn. split_and!; [lia..|done].
  - zif (j + 2 >=? size); [by eexists|].
    destruct (rd_Some rhn i) as [c Hc]; [lia|]. rewrite Hc. cbn [mbind option_bind].
    assert (Hrec : ∀ j' str', within size str str' → 0 ≤ j' → j' + 2 ≤ size →
      ∃ r, rhn2str_label lb rhn size (i + 1) j' str' = Some r ∧
      match r with
      | inl (i', j', str') => i' = i + Z.of_nat (S lb) ∧ 0 ≤ j' ∧ j' + 2 ≤ size ∧ within size str str'
      | inr str' => within size str str'
      end).
    { intros j' str' Hw ??. destruct (IH (i + 1) j' str') as (r & -> & Hr); try lia.
      - destruct Hw. lia.
      - exists r. split; [done|]. destruct r as [[[i1 j1] str1]|str1]; [|by etrans].
        destruct Hr as (-> & ? & ? & ?). split_and!; [lia..|by etrans]. }
    destruct (isgraph c); [destruct ((c =? DOT) || (c =? 92) || (c =? 34))|].
    + writes size. zif (j + 1 + 2 >=? size); [by eexists|]. writes size. apply Hrec; [by etrans|lia..].
    + writes size. apply Hrec; [done|lia..].
    + destruct (snprintf_within size j c str) as (str' & -> & Hw); [lia..|]. cbn [mbind option_bind].
      rewrite zlen_octal. zif (4 >=? size - 1 - j); [|apply Hrec; [done|lia..]].
      writes size. eexists; split; [done|]. cbn. by etrans.
Qed.

Lemma rhn2str_labels_within l ls pre rest size j str fuel :
  Forall label_ok (l :: ls) → 0 ≤ j → size ≤ zlen str → (length ls < fuel)%nat →
  ∃ r, rhn2str_labels fuel (pre ++ DnsName.rhn (l :: ls) ++ rest) (zlen l) size
         (zlen pre + 1) j str = Some r ∧
  match r with
  | inl (j', str') => 0 ≤ j' < size ∧ within size str str'
  | inr str' => within size str str'
  end.
Proof.
  revert l pre j str fuel. induction ls as [|l' ls IH]; intros l pre j str fuel Hls Hj Hs Hf;
    (destruct fuel as [|fuel]; [lia|]); cbn [rhn2str_labels];
    apply list.Forall_cons in Hls as [[Hl _] Hls]; pose proof (zlen_nonneg pre).
  - pose proof (zlen_rhn_app pre l [] rest).
    destruct (rhn2str_label_within (Z.to_nat (zlen l)) (pre ++ DnsName.rhn [l] ++ rest) size (zlen pre + 1) j str)
      as (r & -> & Hr); [lia..|]. cbn [mbind option_bind].
    destruct r as [[[i' j'] str']|str']; [destruct Hr as (-> & ? & ? & Hw)|by eexists].
    rewrite Z2Nat.id by lia. writes size. rewrite rd_next_len. cbn. eexists; split; [done|].
    cbn. split; [lia|]. by etrans.
  - pose proof (zlen_rhn_app pre l (l' :: ls) rest).
    destruct (rhn2str_label_within (Z.to_nat (zlen l)) (pre ++ DnsName.rhn (l :: l' :: ls) ++ rest) size
      (zlen pre + 1) j str) as (r & -> & Hr); [lia..|]. cbn [mbind option_bind].
    destruct r as [[[i' j'] str']|str']; [destruct Hr as (-> & ? & ? & Hw)|by eexists].
    rewrite Z2Nat.id by lia. writes size. rewrite rd_next_len. cbn [mbind option_bind first_len].
    assert (1 ≤ zlen l') by (apply list.Forall_cons in Hls as [[? _] _]; lia).
    replace (zlen l' =? 0) with false by lia. cbn [negb].
    assert (Hw2 : within size str str0) by (by etrans).
    destruct (IH l' (pre ++ zlen l :: l) (j' + 1) str0 fuel) as (r & Hrun & Hr);
      [done|lia|destruct Hw2; lia|cbn in Hf; lia|].
    rewrite <-rhn_cons_app in Hrun. replace (zlen (pre ++ zlen l :: l) + 1) with (zlen pre + 1 + zlen l + 1) in Hrun
      by (zlens; lia).
    rewrite Hrun. exists r. split; [done|]. destruct r as [[j2 str2]|str2]; [|by etrans].
    destruct Hr as [? Hr]. split; [done|]. by etrans.
Qed.

Lemma rd_wr i j b str str' :
  wr str i b = Some str' → 0 ≤ j → rd str' j = if j =? i then Some b else rd str j.
Proof.
  unfold wr, rd. destruct ((0 <=? i) && (i <? zlen str)) eqn:Hi; [|done]. intros [= <-] Hj.
  zbool. replace (0 <=? j) with true by lia. unfold splice, ztake, zdrop, zlen in *. cbn [length].
  zif (j =? i).
  - subst j. rewrite lookup_app_r by (rewrite length_take; lia). rewrite length_take.
    by replace (Z.to_nat i - _)%nat with 0%nat by lia.
  - destruct (decide (j < i)).
    + rewrite lookup_app_l by (rewrite length_take; lia). apply lookup_take_lt. lia.
    + rewrite lookup_app_r by (rewrite length_take; lia). rewrite length_take.
      rewrite lookup_app_r by (cbn; lia). rewrite lookup_drop. f_equal. cbn [length]. lia.
Qed.
(** the string of a buffer ends before [size] *)
Definition terminated (size : Z) (str : bytes) : Prop := ∃ k, 0 ≤ k < size ∧ rd str k = Some 0.
Lemma wr_terminated size j str str' :
  wr str j 0 = Some str' → 0 ≤ j < size → terminated size str'.
Proof. intros Hw Hj. exists j. split; [done|]. rewrite (rd_wr _ _ _ _ _ Hw), Z.eqb_refl by lia. done. Qed.

Lemma overflow_within size str :
  1 ≤ size ≤ zlen str →
  ∃ str', overflow str size = Some str' ∧ within size str str' ∧ terminated size str'.
Proof.
  intros Hs. unfold overflow. writes size.
  assert (Ht : rd str0 (size - 1) = Some 0) by (rewrite (rd_wr _ _ _ _ _ Ew), Z.eqb_refl by lia; done).
  assert (Hk : ∀ i str1 str2, wr str1 i DOT = Some str2 → i < size - 1 →
    rd str1 (size - 1) = Some 0 → rd str2 (size - 1) = Some 0).
  { intros i str1 str2 Hw' Hi Hr. rewrite (rd_wr _ _ _ _ _ Hw') by lia.
    by replace (size - 1 =? i) with false by lia. }
  assert (Hdone : ∀ str', within size str str' → rd str' (size - 1) = Some 0 →
    within size str str' ∧ terminated size str').
  { intros str' ??. split; [done|]. exists (size - 1). split; [lia|done]. }
  zif (size - 1 >? 0); [|by eauto].
  writes size. apply (Hk _ _ _ Ew0) in Ht; [|lia].
  zif (size - 1 - 1 >? 0); [|eexists; split; [done|]; apply Hdone; [by etrans|done]].
  writes size. apply (Hk _ _ _ Ew1) in Ht; [|lia].
  zif (size - 1 - 1 - 1 >? 0).
  - destruct (wr_within size (size - 1 - 1 - 1 - 1) DOT str2) as (str3 & Ew2 & ?);
      [lia|unfold within in *; lia|].
    apply (Hk _ _ _ Ew2) in Ht; [|lia]. rewrite Ew2. eexists; split; [done|].
    apply Hdone; [|done]. do 3 (etrans; [done|]). done.
  - eexists; split; [done|]. apply Hdone; [|done]. do 2 (etrans; [done|]). done.
Qed.

(** [rhn2str] on a name of any labels and a buffer of [size] bytes returns without an
    access outside of the name, writes nothing after the [size] bytes, and leaves a
    string in them that is ended by a 0 byte. *)
Theorem rhn2str_within ls rest str size :
  Forall label_ok ls → 1 ≤ size ≤ zlen str →
  ∃ str', rhn2str (DnsName.rhn ls ++ rest) str size = Some (Some str') ∧ within size str str' ∧
    terminated size str'.
Proof.
  intros Hls Hs. unfold rhn2str. replace (size =? 0) with false by lia.
  pose proof (rd_first_len [] ls rest) as Hrd. cbn [app] in Hrd.
  change (zlen (@nil Z)) with 0 in Hrd. rewrite Hrd. cbn [mbind option_bind].
  destruct ls as [|l ls]; cbn [first_len].
  - cbn [Z.eqb]. zif (size >=? 2).
    + writes size. assert (zlen str0 = zlen str) by apply Hw. writes size.
      eexists; split; [done|]. split; [by etrans|]. eapply wr_terminated; [done|lia].
    + cbn [mbind option_bind]. writes size. eexists. split; [done|]. split; [done|].
      eapply wr_terminated; [done|lia].
  - assert (1 ≤ zlen l) by (apply list.Forall_cons in Hls as [[? _] _]; lia).
    replace (zlen l =? 0) with false by lia.
    destruct (rhn2str_labels_within l ls [] rest size 0 str (length (DnsName.rhn (l :: ls) ++ rest)))
      as (r & Hr & Hres); [done|lia|lia| |].
    { pose proof (length_rhn (l :: ls)). rewrite length_app. cbn [length] in *. lia. }
    cbn [app] in Hr. change (zlen (@nil Z) + 1) with 1 in Hr. rewrite Hr. cbn [mbind option_bind].
    destruct r as [[j str']|str'].
    + destruct Hres as [? Hw]. writes size. eexists; split; [done|]. split; [by etrans|].
      eapply wr_terminated; [done|lia].
    + destruct (overflow_within size str') as (str2 & -> & ? & ?); [unfold within in *; lia|].
      eexists; split; [done|]. split; [by etrans|done].
Qed.
Lemma rhn2str_within_witness :
  ∃ str', rhn2str (DnsName.rhn [[119; 10; 46]; [120]] ++ []) (repeat 0 8) 6 = Some (Some str') ∧
    within 6 (repeat 0 8) str' ∧ terminated 6 str'.
Proof.
  apply (rhn2str_within [[119; 10; 46]; [120]] [] (repeat 0 8) 6).
  - repeat constructor; by vm_compute.
  - by vm_compute.
Defined.
Example rhn2str_run :
  rhn2str (DnsName.rhn [[119; 10; 46]; [120]]) (repeat 7 12) 12
    = Some (Some [119; 92; 48; 49; 50; 92; 46; 46; 120; 46; 0; 7]).
Proof. vm_compute. reflexivity. Qed.
Example rhn2str_run_overflow :
  rhn2str (DnsName.rhn [[119; 10; 46]; [120]]) (repeat 7 12) 9
    = Some (Some [119; 92; 48; 49; 50; 46; 46; 46; 0; 7; 7; 7]).
Proof. vm_compute. reflexivity. Qed.

(** ** Text and back *)

(** labels of characters that are written as they are *)
Definition printed_char (c : Z) : Prop := isgraph c = true ∧ c ≠ DOT ∧ c ≠ 92 ∧ c ≠ 34.
Definition printed_label (l : bytes) : Prop := 1 ≤ zlen l ≤ 63 ∧ Forall printed_char l.
Lemma printed_plain l : printed_label l → plain_label l.
Proof.
  intros [? H]. split; [done|]. eapply list.Forall_impl; [exact H|].
  intros c (Hg & Hd & _). split; [|done]. intros ->. done.
Qed.

Lemma rhn2str_label_printed l pre rest size j str :
  Forall printed_char l → 0 ≤ j → j + zlen l + 1 < size → size ≤ zlen str →
  rhn2str_label (length l) (pre ++ l ++ rest) size (zlen pre) j str =
    Some (inl (zlen pre + zlen l, j + zlen l, splice j l str)).
Proof.
  intros Hl. revert pre j str. induction Hl as [|c l (Hg & Hd & Hb & Hq) Hl IH]; intros pre j str Hj Hs Hz;
    cbn [length rhn2str_label].
  - rewrite splice_nil. change (zlen (@nil Z)) with 0. by rewrite !Z.add_0_r.
  - revert Hs. zlens. intros Hs. pose proof (zlen_nonneg l).
    replace (j + 2 >=? size) with false by lia. cbn [app]. rewrite rd_text_end. cbn [mbind option_bind].
    rewrite Hg. rewrite !(proj2 (Z.eqb_neq _ _)) by done. cbn [orb].
    rewrite wr_ok by lia. cbn [mbind option_bind].
    specialize (IH (pre ++ [c]) (j + 1) (splice j [c] str)).
    rewrite <-app_assoc in IH. cbn [app] in IH.
    replace (zlen (pre ++ [c])) with (zlen pre + 1) in IH by (zlens; lia).
    rewrite IH by (rewrite ?zlen_splice; zlens; lia). f_equal. f_equal. f_equal; [f_equal; lia|].
    exact (splice_splice_after j [c] l str ltac:(lia) ltac:(zlens; lia)).
Qed.

(** the label of a name and the dot after it *)
Lemma rhn2str_label_dot l ls pre rest size j str :
  Forall printed_char l → 0 ≤ j → j + zlen l + 1 < size → size ≤ zlen str →
  ∃ str', rhn2str_label (Z.to_nat (zlen l)) (pre ++ DnsName.rhn (l :: ls) ++ rest) size (zlen pre + 1) j str =
    Some (inl (zlen pre + 1 + zlen l, j + zlen l, str')) ∧
    wr str' (j + zlen l) DOT = Some (splice j (l ++ [DOT]) str).
Proof.
  intros Hc Hj Hd Hs. exists (splice j l str). split.
  - rewrite rhn_cons. unfold zlen at 1. rewrite Nat2Z.id.
    pose proof (rhn2str_label_printed l (pre ++ [zlen l]) (DnsName.rhn ls ++ rest) size j str Hc Hj Hd Hs) as H.
    rewrite <-!app_assoc in H. cbn [app] in H.
    replace (zlen (pre ++ [zlen l])) with (zlen pre + 1) in H by (zlens; lia).
    cbn [app]. rewrite <-!app_assoc. cbn [app]. exact H.
  - pose proof (zlen_nonneg l). rewrite wr_ok by (rewrite zlen_splice; lia).
    by rewrite splice_splice_after by (zlens; lia).
Qed.

Lemma rhn2str_labels_printed l ls pre rest size j str fuel :
  Forall printed_label (l :: ls) → 0 ≤ j → j + zlen (dots (l :: ls)) < size → size ≤ zlen str →
  (length ls < fuel)%nat →
  rhn2str_labels fuel (pre ++ DnsName.rhn (l :: ls) ++ rest) (zlen l) size (zlen pre + 1) j str =
    Some (inl (j + zlen (dots (l :: ls)), splice j (dots (l :: ls)) str)).
Proof.
  revert l pre j str fuel. induction ls as [|l' ls IH]; intros l pre j str fuel Hls Hj Hd Hs Hf;
    (destruct fuel as [|fuel]; [lia|]); cbn [rhn2str_labels];
    apply list.Forall_cons in Hls as [[Hl Hc] Hls]; revert Hd; rewrite (dots_cons l); zlens; intros Hd.
  - change (zlen (dots [])) with 0 in *.
    destruct (rhn2str_label_dot l [] pre rest size j str) as (str' & -> & Hw); [done|lia..|].
    cbn [mbind option_bind]. rewrite Hw. cbn [mbind option_bind]. rewrite rd_next_len. cbn.
    do 3 f_equal. lia.
  - pose proof (zlen_nonneg (dots (l' :: ls))).
    destruct (rhn2str_label_dot l (l' :: ls) pre rest size j str) as (str' & -> & Hw); [done|lia..|].
    cbn [mbind option_bind]. rewrite Hw. cbn [mbind option_bind]. rewrite rd_next_len.
    cbn [mbind option_bind first_len].
    assert (1 ≤ zlen l') by (apply list.Forall_cons in Hls as [[? _] _]; lia).
    replace (zlen l' =? 0) with false by lia. cbn [negb].
    pose proof (IH l' (pre ++ zlen l :: l) (j + zlen l + 1) (splice j (l ++ [DOT]) str) fuel Hls) as H'.
    rewrite <-rhn_cons_app in H'. revert H'. rewrite zlen_splice by (zlens; lia). zlens. intros H'.
    replace (zlen pre + 1 + zlen l + 1) with (zlen pre + (1 + zlen l) + 1) by lia.
    rewrite H' by (cbn in Hf; lia). do 3 f_equal; [lia|].
    replace (j + zlen l + 1) with (j + zlen (l ++ [DOT])) by (zlens; lia).
    rewrite splice_splice_after by (zlens; lia). by rewrite <-app_assoc.
Qed.

(** A name whose labels have only visible characters other than the dot, the backslash
    and the quote: [rhn2str] writes it in dotted notation into a buffer that has room for
    it, and [str2rhn] of that text is the name again. *)
Theorem rhn2str_str2rhn ls rest str size (buf : bytes) :
  Forall printed_label ls → zlen (DnsName.rhn ls) ≤ DNSNAMEBUFSIZE → DNSNAMEBUFSIZE ≤ zlen buf →
  zlen (dotted ls) < size ≤ zlen str →
  ∃ str', rhn2str (DnsName.rhn ls ++ rest) str size = Some (Some str') ∧
    ztake (zlen (dotted ls) + 1) str' = dotted ls ++ [0] ∧
    str2rhn str' buf = Some (Some (splice 0 (DnsName.rhn ls) buf)).
Proof.
  intros Hls Hlen Hbuf Hs.
  assert (Hplain : Forall plain_label ls)
    by (eapply list.Forall_impl; [exact Hls|apply printed_plain]).
  assert (Hrun : rhn2str (DnsName.rhn ls ++ rest) str size = Some (Some (splice 0 (dotted ls ++ [0]) str))).
  { unfold rhn2str. pose proof (zlen_nonneg (dotted ls)). replace (size =? 0) with false by lia.
    pose proof (rd_first_len [] ls rest) as Hrd. cbn [app] in Hrd.
    change (zlen (@nil Z)) with 0 in Hrd. rewrite Hrd. cbn [mbind option_bind].
    destruct ls as [|l ls]; cbn [first_len dotted] in *.
    - change (zlen [DOT]) with 1 in Hs. cbn [Z.eqb]. replace (size >=? 2) with true by lia.
      rewrite wr_ok by lia. cbn [mbind option_bind]. rewrite wr_ok by (rewrite zlen_splice; zlens; lia).
      cbn [mbind option_bind]. do 2 f_equal. exact (splice_splice_after 0 [DOT] [0] str ltac:(lia) ltac:(zlens; lia)).
    - assert (1 ≤ zlen l) by (apply list.Forall_cons in Hls as [[? _] _]; lia).
      replace (zlen l =? 0) with false by lia.
      pose proof (rhn2str_labels_printed l ls [] rest size 0 str (length (DnsName.rhn (l :: ls) ++ rest)) Hls) as H'.
      cbn [app] in H'. change (zlen (@nil Z) + 1) with 1 in H'. rewrite H'; [|lia..|].
      + cbn [mbind option_bind]. rewrite wr_ok by (rewrite zlen_splice; lia). cbn [mbind option_bind].
        by rewrite splice_splice_after by (zlens; lia).
      + pose proof (length_rhn (l :: ls)). rewrite length_app. cbn [length] in *. lia. }
  exists (splice 0 (dotted ls ++ [0]) str). split; [done|]. split.
  - unfold splice. change (ztake 0 str) with (@nil Z). cbn [app]. apply ztake_app_length'. by zlens.
  - unfold splice at 1. change (ztake 0 str) with (@nil Z). cbn [app]. rewrite <-app_assoc. cbn [app].
    assert (Hnz : Forall (λ c, c ≠ 0) (dotted ls)).
    { destruct ls as [|l ls]; [by repeat constructor|]. cbn [dotted]. clear -Hplain.
      induction Hplain as [|l' ls' [_ Hp] _ IH]; [constructor|]. rewrite dots_cons. apply Forall_app. split.
      - eapply list.Forall_impl; [exact Hp|]. by intros c [? _].
      - by constructor. }
    destruct (str2rhn_names (dotted ls) (zdrop (0 + zlen (dotted ls ++ [0])) str) buf Hnz Hbuf) as (r & -> & Hr).
    f_equal. apply Hr. exists ls. done.
Qed.
Lemma rhn2str_str2rhn_witness :
  ∃ str', rhn2str (DnsName.rhn [[119]; [120; 121]] ++ []) (repeat 9 20) 20 = Some (Some str') ∧
    ztake (zlen (dotted [[119]; [120; 121]]) + 1) str' = dotted [[119]; [120; 121]] ++ [0] ∧
    str2rhn str' (repeat 0 256) = Some (Some (splice 0 (DnsName.rhn [[119]; [120; 121]]) (repeat 0 256))).
Proof.
  apply (rhn2str_str2rhn [[119]; [120; 121]] [] (repeat 9 20) 20 (repeat 0 256)); [|by vm_compute..].
  repeat constructor; by vm_compute.
Defined.
