(* ===== verification/DnsCompress.v ===== *)
(** * Names in messages: comparison and compression

    [pdnsd/src/helpers.h] and [helpers.c] ([rhnlen], [skipsegs], [skiprhn], [rhnsegcnt],
    [rhncpy], [isnormalencdomname], [rhnicmp]) and [pdnsd/src/dns.c] ([domain_match],
    [compress_name]).  The list of the names that were written before is a list of
    entries in the order in which they were added. *)

From S2P Require Import Prelude CInt DnsName.

(** ** Helpers *)

(** [while((lb=rhn[i++])) i+=lb;] *)
Fixpoint rhn_end (fuel : nat) (rhn : bytes) (i : Z) : option Z :=
  match fuel with
  | O => None
  | S fuel =>
      lb ← rd rhn i;
      let i := i + 1 in
      if negb (lb =? 0) then rhn_end fuel rhn (i + lb) else Some i
  end.
Definition rhnlen (rhn : bytes) : option Z := rhn_end (length rhn) rhn 0.
(** the pointer after the name that starts at [rhn] *)
Definition skiprhn (l : bytes) (rhn : Z) : option Z := rhn_end (length l) l rhn.
(** [for(;k && (lb= *nm); --k) nm += lb+1;] *)
Fixpoint skipsegs (l : bytes) (nm : Z) (k : nat) : option Z :=
  match k with
  | O => Some nm
  | S k =>
      lb ← rd l nm;
      if negb (lb =? 0) then skipsegs l (nm + (lb + 1)) k else Some nm
  end.
Fixpoint rhnsegcnt_loop (fuel : nat) (rhn : bytes) (i res : Z) : option Z :=
  match fuel with
  | O => None
  | S fuel =>
      lb ← rd rhn i;
      if negb (lb =? 0) then rhnsegcnt_loop fuel rhn (i + (lb + 1)) (res + 1) else Some res
  end.
Definition rhnsegcnt (rhn : bytes) : option Z := rhnsegcnt_loop (length rhn) rhn 0 0.
Fixpoint isnormalencdomname_loop (fuel : nat) (rhn : bytes) (maxlen i : Z) : option bool :=
  match fuel with
  | O => None
  | S fuel =>
      if i >=? maxlen then Some false
      else
        lb ← rd rhn i;
        let i := i + 1 in
        if lb =? 0 then Some true
        else if lb >? 63 then Some false
        else isnormalencdomname_loop fuel rhn maxlen (i + lb)
  end.
Definition isnormalencdomname (rhn : bytes) (maxlen : Z) : option bool :=
  let maxlen := if maxlen >? DNSNAMEBUFSIZE then DNSNAMEBUFSIZE else maxlen in
  isnormalencdomname_loop 257 rhn maxlen 0.

(** the target and the result *)
Definition rhncpy (dst src : bytes) : option (bytes * Z) :=
  len ← rhnlen src;
  assert! len <=? DNSNAMEBUFSIZE;
  let n := if len >? DNSNAMEBUFSIZE then DNSNAMEBUFSIZE else len in
  assert! n <=? zlen dst;
  Some (slice 0 n src ++ zdrop n dst, len).

(** [tolower] in the C locale *)
Definition tolower (c : Z) : Z := if (65 <=? c) && (c <=? 90) then c + 32 else c.

(** [do ... while (--lb);] of [rhnicmp] *)
Fixpoint label_icmp (lb : nat) (a b : bytes) (i : Z) : option (option Z) :=
  match lb with
  | O => Some (Some i)
  | S lb =>
      x ← rd a i; y ← rd b i;
      if negb (tolower x =? tolower y) then Some None else label_icmp lb a b (i + 1)
  end.
Fixpoint rhnicmp_loop (fuel : nat) (a b : bytes) (i : Z) : option bool :=
  match fuel with
  | O => None
  | S fuel =>
      lb ← rd a i; lb' ← rd b i;
      if negb (lb =? lb') then Some false
      else if lb =? 0 then Some true
      else
        r ← label_icmp (Z.to_nat lb) a b (i + 1);
        match r with
        | None => Some false
        | Some i => rhnicmp_loop fuel a b i
        end
  end.
Definition rhnicmp (a b : bytes) : option bool := rhnicmp_loop (length a) a b 0.

(** ** domain_match *)

(** [while((lb=ms[i])) { ls[ns++]=lb; i += lb+1; }] *)
Fixpoint collect (fuel : nat) (ms : bytes) (i : Z) (ls : list Z) : option (Z * list Z) :=
  match fuel with
  | O => None
  | S fuel =>
      lb ← rd ms i;
      if negb (lb =? 0) then
        assert! zlen ls <? 128;
        collect fuel ms (i + (lb + 1)) (ls ++ [lb])
      else Some (i, ls)
  end.
(** [for(;lb;--lb) if(tolower(ms[--i]) != tolower(md[--j])) goto mismatch;] *)
Fixpoint label_match (lb : nat) (ms md : bytes) (i j : Z) : option (option (Z * Z)) :=
  match lb with
  | O => Some (Some (i, j))
  | S lb =>
      let i := i - 1 in let j := j - 1 in
      x ← rd ms i; y ← rd md j;
      if negb (tolower x =? tolower y) then Some None else label_match lb ms md i j
  end.
Fixpoint match_loop (fuel : nat) (ms md : bytes) (ls ld : list Z) (n k i j : Z) : option (Z * Z * Z) :=
  match fuel with
  | O => None
  | S fuel =>
      let offs := i in let offd := j in
      if k <=? n then
        lb ← rd ls (zlen ls - k); lb' ← rd ld (zlen ld - k);
        if negb (lb =? lb') then Some (k - 1, offs, offd)
        else
          r ← label_match (Z.to_nat lb) ms md i j;
          match r with
          | None => Some (k - 1, offs, offd)
          | Some (i, j) => match_loop fuel ms md ls ld n (k + 1) (i - 1) (j - 1)
          end
      else Some (k - 1, offs, offd)
  end.
(** the result with [*os] and [*od] *)
Definition domain_match (ms md : bytes) : option (Z * Z * Z) :=
  r ← collect (length ms) ms 0 [];
  let '(i, ls) := r in
  r ← collect (length md) md 0 [];
  let '(j, ld) := r in
  let n := if zlen ls >? zlen ld then zlen ld else zlen ls in
  match_loop 130 ms md ls ld n 1 i j.

(** ** compress_name *)

Record compel_t := { index : Z; s : bytes }.

(** part 1: [longest], [lrem] and [coffs] after the entries of the list *)
Fixpoint longest_match (name : bytes) (cb : list compel_t) (best : Z * Z * Z) : option (Z * Z * Z) :=
  match cb with
  | [] => Some best
  | ci :: cb =>
      let '(longest, lrem, coffs) := best in
      r ← domain_match name (s ci);
      let '(rv, rem, to) := r in
      if rv >? longest then
        let newoffs := u32 (index ci + to) in
        longest_match name cb (if newoffs <=? 0x3fff then (rv, rem, newoffs) else best)
      else longest_match name cb best
  end.
Definition pointer_bytes (coffs : Z) : bytes :=
  [Z.lor 0xc0 (Z.shiftr (Z.land coffs 0x3f00) 8); Z.land coffs 0xff].

(** The bytes put into [out] and the list; [grown] tells if [dlist_grow] gets memory,
    [None] inside is the result 0; the list is freed then. *)
Definition compress_name (name : bytes) (offs : Z) (cb : list compel_t) (grown : bool) :
    option (option bytes * list compel_t) :=
  ilen ← rhnlen name;
  assert! ilen <=? DNSNAMEBUFSIZE;
  best ← longest_match name cb (0, 0, 0);
  let '(longest, lrem, coffs) := best in
  r ← (if longest >? 0 then
         assert! lrem + 2 <=? ilen;
         Some (slice 0 lrem name ++ pointer_bytes coffs, negb (lrem =? 0))
       else Some (slice 0 ilen name, true));
  let '(out, add) := r in
  if (add : bool) then
    if grown then Some (Some out, cb ++ [{| index := offs; s := slice 0 ilen name |}])
    else Some (None, [])
  else Some (Some out, cb).

(** ** Names as lists of labels *)

Implicit Types (a b ls : list bytes) (l : bytes).

(** the place of the last [r] labels in a name *)
Definition lastn {A} (r : nat) (ls : list A) : list A := drop (length ls - r) ls.
Definition off ls (r : nat) : Z := zlen (rhn_labels (take (length ls - r) ls)).
(** labels that differ in the case of letters *)
Definition fold_label l : bytes := map tolower l.
Definition same_name a b : Prop := map fold_label a = map fold_label b.
#[export] Instance same_name_equiv : Equivalence same_name.
Proof. split; unfold same_name; congruence || by intros ??? -> . Qed.

Lemma rhn_labels_app a b : rhn_labels (a ++ b) = rhn_labels a ++ rhn_labels b.
Proof. unfold rhn_labels. by rewrite map_app, concat_app. Qed.
Lemma rhn_app a b : rhn (a ++ b) = rhn_labels a ++ rhn b.
Proof. unfold rhn. by rewrite rhn_labels_app, <-app_assoc. Qed.
Lemma zlen_rhn_labels_one l : zlen (rhn_labels [l]) = 1 + zlen l.
Proof. unfold rhn_labels. cbn. rewrite app_nil_r. zlens. done. Qed.
Lemma zlen_rhn ls : zlen (rhn ls) = zlen (rhn_labels ls) + 1.
Proof. unfold rhn. zlens. done. Qed.
Lemma label_len_pos ls l : Forall label_ok (l :: ls) → 1 ≤ zlen l ≤ 63.
Proof. by intros [[? _] _]%list.Forall_cons. Qed.

(** ** The walks over a name *)

Lemma rhn_end_spec fuel ls pre rest :
  Forall label_ok ls → (length ls < fuel)%nat →
  rhn_end fuel (pre ++ rhn ls ++ rest) (zlen pre) = Some (zlen pre + zlen (rhn ls)).
Proof.
  revert pre ls. induction fuel as [|fuel IH]; intros pre ls Hls Hf; [lia|]. cbn [rhn_end].
  rewrite rd_first_len. cbn [mbind option_bind]. destruct ls as [|l ls]; cbn [first_len]; [done|].
  pose proof (label_len_pos _ _ Hls). replace (zlen l =? 0) with false by lia. cbn [negb].
  rewrite rhn_cons_app. replace (zlen pre + 1 + zlen l) with (zlen (pre ++ zlen l :: l)) by (zlens; lia).
  apply list.Forall_cons in Hls as [_ Hls]. rewrite IH by (done || (cbn in Hf; lia)).
  rewrite rhn_cons. zlens. f_equal. lia.
Qed.
Lemma rhnlen_spec ls rest : Forall label_ok ls → rhnlen (rhn ls ++ rest) = Some (zlen (rhn ls)).
Proof.
  intros Hls. apply (rhn_end_spec _ ls [] rest Hls). rewrite length_app. pose proof (length_rhn ls). lia.
Qed.

Lemma collect_spec fuel ls done pre rest :
  Forall label_ok ls → (length ls < fuel)%nat → zlen done + zlen ls ≤ 128 →
  collect fuel (pre ++ rhn ls ++ rest) (zlen pre) done =
    Some (zlen pre + zlen (rhn_labels ls), done ++ map zlen ls).
Proof.
  revert done pre ls. induction fuel as [|fuel IH]; intros done pre ls Hls Hf Hd; [lia|]. cbn [collect].
  rewrite rd_first_len. cbn [mbind option_bind]. destruct ls as [|l ls]; cbn [first_len].
  - cbn. change (zlen (@nil Z)) with 0. rewrite app_nil_r. f_equal. f_equal. lia.
  - pose proof (label_len_pos _ _ Hls). replace (zlen l =? 0) with false by lia. cbn [negb].
    revert Hd. zlens. intros Hd. pose proof (zlen_nonneg ls). replace (zlen done <? 128) with true by lia.
    rewrite rhn_cons_app. replace (zlen pre + (zlen l + 1)) with (zlen (pre ++ zlen l :: l)) by (zlens; lia).
    apply list.Forall_cons in Hls as [_ Hls]. rewrite IH by (done || (cbn in Hf; lia) || (zlens; lia)).
    rewrite <-app_assoc. cbn [map app]. unfold rhn_labels. cbn [map concat]. zlens. do 2 f_equal. lia.
Qed.

(** ** domain_match finds the longest common end *)

Fixpoint common_prefix a b : nat :=
  match a, b with
  | l :: a, l' :: b => if bool_decide (fold_label l = fold_label l') then S (common_prefix a b) else 0
  | _, _ => 0
  end.
(** the number of labels that two names have in common at their ends *)
Definition common a b : nat := common_prefix (reverse a) (reverse b).

Lemma common_nil_l b : common [] b = 0%nat.
Proof. done. Qed.
Lemma common_nil_r a : common a [] = 0%nat.
Proof. unfold common. by destruct (reverse a). Qed.
Lemma common_snoc a b l l' :
  common (a ++ [l]) (b ++ [l']) =
    if bool_decide (fold_label l = fold_label l') then S (common a b) else 0%nat.
Proof. unfold common. by rewrite !reverse_snoc. Qed.
Lemma common_le a b : (common a b ≤ length a)%nat ∧ (common a b ≤ length b)%nat.
Proof.
  revert b. induction a as [|l a IH] using rev_ind; intros b; [cbn; lia|].
  destruct b as [|l' b _] using rev_ind; [rewrite common_nil_r; lia|].
  rewrite common_snoc, !length_app. cbn [length]. specialize (IH b). case_bool_decide; lia.
Qed.
Lemma fold_label_length l l' : fold_label l = fold_label l' → length l = length l'.
Proof. intros H. apply (f_equal length) in H. unfold fold_label in H. by rewrite !length_map in H. Qed.

Lemma label_match_spec l l' P Q S S' :
  length l = length l' →
  label_match (length l) (P ++ l ++ S) (Q ++ l' ++ S') (zlen P + zlen l) (zlen Q + zlen l') =
    Some (if bool_decide (fold_label l = fold_label l') then Some (zlen P, zlen Q) else None).
Proof.
  revert l' S S'. induction l as [|x l IH] using rev_ind; intros l' S S' Hl.
  - destruct l'; [|done]. cbn. change (zlen (@nil Z)) with 0. do 3 f_equal; lia.
  - destruct l' as [|y l' _] using rev_ind; [rewrite length_app in Hl; cbn in Hl; lia|].
    rewrite !length_app in Hl. cbn [length] in Hl. rewrite length_app, Nat.add_comm. cbn [length Nat.add label_match].
    rewrite <-!app_assoc. cbn [app]. zlens.
    replace (zlen P + (zlen l + (1 + 0)) - 1) with (zlen (P ++ l)) by (zlens; lia).
    replace (zlen Q + (zlen l' + (1 + 0)) - 1) with (zlen (Q ++ l')) by (zlens; lia).
    rewrite !app_assoc, !rd_text_end. cbn [mbind option_bind].
    rewrite <-!app_assoc. zlens. rewrite (IH l' (x :: S) (y :: S')) by lia.
    unfold fold_label. rewrite !map_app. cbn [map].
    destruct (Z.eqb_spec (tolower x) (tolower y)) as [He|He]; cbn [negb].
    + rewrite He. f_equal.
      repeat case_bool_decide; try done; exfalso.
      * by rewrite H in *.
      * apply app_inj_2 in H0 as [? _]; done.
    + case_bool_decide as H; [|done]. apply app_inj_2 in H as [_ H]; [|done]. by simplify_eq.
Qed.

(** the place of a label in a name *)
Lemma rhn_snoc_app a l b : rhn ((a ++ [l]) ++ b) = (rhn_labels a ++ [zlen l]) ++ l ++ rhn b.
Proof.
  rewrite rhn_app, rhn_labels_app. unfold rhn_labels at 2. cbn [map concat]. rewrite app_nil_r.
  by rewrite <-!app_assoc.
Qed.
Lemma rhn_cat a l b rest : (rhn_labels a ++ [zlen l]) ++ l ++ rhn b ++ rest = rhn (a ++ l :: b) ++ rest.
Proof.
  replace (a ++ l :: b) with ((a ++ [l]) ++ b) by (by rewrite <-app_assoc).
  by rewrite rhn_snoc_app, <-!app_assoc.
Qed.
Lemma zlen_rhn_labels_snoc a l : zlen (rhn_labels (a ++ [l])) = zlen (rhn_labels a ++ [zlen l]) + zlen l.
Proof. rewrite rhn_labels_app. zlens. rewrite zlen_rhn_labels_one. lia. Qed.
Lemma take_snoc_le {A} n (x : A) (l : list A) : (n ≤ length l)%nat → take n (l ++ [x]) = take n l.
Proof. intros. by rewrite take_app_le. Qed.
Lemma zlen_map {A B} (f : A → B) (k : list A) : zlen (map f k) = zlen k.
Proof. unfold zlen. by rewrite length_map. Qed.
Lemma rd_map_zlen a l b :
  rd (map zlen ((a ++ [l]) ++ b)) (zlen (map zlen ((a ++ [l]) ++ b)) - (zlen b + 1)) = Some (zlen l).
Proof.
  rewrite !map_app. cbn [map]. rewrite <-app_assoc. cbn [app]. rewrite zlen_app, zlen_cons, (zlen_map _ b).
  replace (zlen (map zlen a) + (1 + zlen b) - (zlen b + 1)) with (zlen (map zlen a)) by lia.
  apply rd_text_end.
Qed.

Lemma match_loop_spec fuel a b sa sb rest rest' :
  length sa = length sb → (length a < fuel)%nat →
  match_loop fuel (rhn (a ++ sa) ++ rest) (rhn (b ++ sb) ++ rest')
      (map zlen (a ++ sa)) (map zlen (b ++ sb)) (Z.min (zlen (a ++ sa)) (zlen (b ++ sb)))
      (zlen sa + 1) (zlen (rhn_labels a)) (zlen (rhn_labels b)) =
    Some (zlen sa + Z.of_nat (common a b), off a (common a b), off b (common a b)).
Proof.
  revert b sa sb fuel. induction a as [|l a IH] using rev_ind; intros b sa sb fuel Hs Hf;
    (destruct fuel as [|fuel]; [lia|]); cbn [match_loop].
  { rewrite common_nil_l. unfold off. rewrite !Nat.sub_0_r, !firstn_all. cbn [app length take Nat.sub].
    pose proof (zlen_nonneg b). replace (zlen sa + 1 <=? _) with false; [do 3 f_equal; lia|].
    zlens. unfold zlen. symmetry. apply Z.leb_gt. lia. }
  destruct b as [|l' b _] using rev_ind.
  { rewrite common_nil_r. unfold off. rewrite !Nat.sub_0_r, !firstn_all. cbn [app length take Nat.sub].
    pose proof (zlen_nonneg a). replace (zlen sa + 1 <=? _) with false; [do 3 f_equal; lia|].
    zlens. unfold zlen. symmetry. apply Z.leb_gt. lia. }
  assert (Hn : zlen sa = zlen sb) by (unfold zlen; lia).
  replace (zlen sa + 1 <=? _) with true.
  2:{ zlens. pose proof (zlen_nonneg a). pose proof (zlen_nonneg b). symmetry. apply Z.leb_le. lia. }
  rewrite rd_map_zlen. cbn [mbind option_bind]. rewrite Hn, rd_map_zlen. cbn [mbind option_bind].
  rewrite common_snoc. destruct (Z.eqb_spec (zlen l) (zlen l')) as [Hz|Hz]; cbn [negb].
  2:{ rewrite bool_decide_false by (intros H%fold_label_length; unfold zlen in Hz; lia).
      unfold off. rewrite !Nat.sub_0_r, !firstn_all. do 3 f_equal. lia. }
  rewrite !rhn_snoc_app, <-!app_assoc, !zlen_rhn_labels_snoc.
  replace (Z.to_nat (zlen l)) with (length l) by (unfold zlen; lia).
  rewrite !(app_assoc (rhn_labels _) [_]).
  rewrite label_match_spec by (unfold zlen in Hz; lia). cbn [mbind option_bind].
  case_bool_decide as Hfold.
  2:{ unfold off. rewrite !Nat.sub_0_r, !firstn_all, !zlen_rhn_labels_snoc. do 3 f_equal. lia. }
  replace (zlen (rhn_labels a ++ [zlen l]) - 1) with (zlen (rhn_labels a)) by (zlens; lia).
  replace (zlen (rhn_labels b ++ [zlen l']) - 1) with (zlen (rhn_labels b)) by (zlens; lia).
  specialize (IH b (l :: sa) (l' :: sb) fuel). cbn [length] in IH.
  rewrite length_app in Hf. cbn [length] in Hf.
  pose proof (common_le a b).
  assert (Hoff : ∀ (x : list bytes) (y : bytes), (common a b ≤ length x)%nat → off (x ++ [y]) (S (common a b)) = off x (common a b)).
  { intros x y Hx. unfold off. rewrite length_app. cbn [length].
    replace (length x + 1 - S (common a b))%nat with (length x - common a b)%nat by lia.
    rewrite take_snoc_le by lia. done. }
  rewrite !Hoff by lia.
  replace (zlen sb + 1 + 1) with (zlen (l :: sa) + 1) by (zlens; lia).
  rewrite !rhn_cat. cbn [app]. rewrite IH by lia. zlens. do 3 f_equal. lia.
Qed.

(** names that the functions are used with: they fit into a buffer *)
Definition wf_name ls : Prop := Forall label_ok ls ∧ zlen (rhn ls) ≤ DNSNAMEBUFSIZE.
Lemma zlen_rhn_labels_ge ls : Forall label_ok ls → 2 * zlen ls ≤ zlen (rhn_labels ls).
Proof.
  induction 1 as [|l ls [Hl _] _ IH]; [done|]. unfold rhn_labels in *. cbn [map concat]. zlens. lia.
Qed.
Lemma wf_name_length ls : wf_name ls → zlen ls ≤ 127.
Proof.
  intros [Hls Hl]. pose proof (zlen_rhn_labels_ge ls Hls). rewrite zlen_rhn in Hl.
  unfold DNSNAMEBUFSIZE in Hl. lia.
Qed.

Lemma domain_match_spec a b rest rest' :
  wf_name a → wf_name b →
  domain_match (rhn a ++ rest) (rhn b ++ rest') =
    Some (Z.of_nat (common a b), off a (common a b), off b (common a b)).
Proof.
  intros Ha Hb. pose proof (wf_name_length _ Ha). pose proof (wf_name_length _ Hb).
  destruct Ha as [Ha _], Hb as [Hb _]. unfold domain_match.
  pose proof (length_rhn a). pose proof (length_rhn b).
  rewrite (collect_spec _ a [] [] rest Ha) by (rewrite ?length_app; zlens; lia).
  cbn [mbind option_bind]. cbn [app]. change (zlen (@nil Z)) with 0. rewrite Z.add_0_l.
  rewrite (collect_spec _ b [] [] rest' Hb) by (rewrite ?length_app; zlens; lia).
  cbn [mbind option_bind app]. change (zlen (@nil Z)) with 0. rewrite Z.add_0_l, !zlen_map.
  pose proof (match_loop_spec 130 a b [] [] rest rest' eq_refl) as Hm.
  rewrite !app_nil_r in Hm. change (zlen (@nil bytes)) with 0 in Hm. rewrite !Z.add_0_l in Hm.
  replace (if zlen a >? zlen b then zlen b else zlen a) with (Z.min (zlen a) (zlen b)) by zcase.
  apply Hm. unfold zlen in *. lia.
Qed.

(** ** What the longest common end is *)

Lemma lastn_snoc {A} r (k : list A) x : lastn (S r) (k ++ [x]) = lastn r k ++ [x].
Proof.
  unfold lastn. rewrite length_app. cbn [length].
  replace (length k + 1 - S r)%nat with (length k - r)%nat by lia. apply drop_app_le. lia.
Qed.
Lemma lastn_0 {A} (k : list A) : lastn 0 k = [].
Proof. unfold lastn. apply drop_ge. lia. Qed.
Lemma lastn_all {A} (k : list A) : lastn (length k) k = k.
Proof. unfold lastn. by rewrite Nat.sub_diag. Qed.
Lemma same_name_snoc a b l l' :
  same_name (a ++ [l]) (b ++ [l']) ↔ same_name a b ∧ fold_label l = fold_label l'.
Proof.
  unfold same_name. rewrite !map_app. cbn [map]. split.
  - intros H. apply app_inj_2 in H as [? H]; [|done]. by simplify_eq.
  - by intros [-> ->].
Qed.
Lemma common_iff a b r :
  (r ≤ common a b)%nat ↔ (r ≤ length a)%nat ∧ (r ≤ length b)%nat ∧ same_name (lastn r a) (lastn r b).
Proof.
  destruct r as [|r]; [rewrite !lastn_0; split; [intros _; split; [lia|split; [lia|done]]|lia]|].
  revert b r. induction a as [|l a IH] using rev_ind; intros b r; [cbn; split; [lia|intros (? & _); lia]|].
  destruct b as [|l' b _] using rev_ind; [rewrite common_nil_r; cbn; split; [lia|intros (_ & ? & _); lia]|].
  rewrite common_snoc, !length_app, !lastn_snoc, same_name_snoc. cbn [length].
  case_bool_decide as Hl; [|split; [lia|tauto]]. destruct r as [|r].
  - rewrite !lastn_0. split; [intros _; split_and!; done || lia|lia].
  - specialize (IH b r). split.
    + intros H. destruct (proj1 IH) as (? & ? & ?); [lia|]. split_and!; done || lia.
    + intros (? & ? & ? & _). assert (S r ≤ common a b)%nat; [|lia]. apply IH. split_and!; done || lia.
Qed.
Lemma common_self a : common a a = length a.
Proof.
  pose proof (common_le a a). assert (length a ≤ common a a)%nat; [|lia]. by apply common_iff.
Qed.
Lemma lastn_lastn {A} r r' (k : list A) : (r ≤ r')%nat → (r' ≤ length k)%nat → lastn r (lastn r' k) = lastn r k.
Proof. intros. unfold lastn. rewrite length_drop, drop_drop. f_equal. lia. Qed.
Lemma length_lastn {A} r (k : list A) : (r ≤ length k)%nat → length (lastn r k) = r.
Proof. intros. unfold lastn. rewrite length_drop. lia. Qed.
Lemma common_trans a b c r : (r ≤ common a b)%nat → (r ≤ common b c)%nat → (r ≤ common a c)%nat.
Proof.
  rewrite !common_iff. intros (? & ? & H1) (? & ? & H2). split_and!; [done..|]. by etrans.
Qed.

(** A common end has the same length in both names. *)
Lemma same_name_zlen a b : same_name a b → zlen (rhn_labels a) = zlen (rhn_labels b).
Proof.
  unfold same_name. revert b. induction a as [|l a IH]; intros [|l' b] H; try done.
  injection H as Hl H. unfold rhn_labels in *. cbn [map concat]. zlens.
  rewrite (IH b H). apply fold_label_length in Hl. unfold zlen at 1 4. lia.
Qed.
Lemma zlen_rhn_labels_split a n :
  zlen (rhn_labels (take n a)) + zlen (rhn_labels (drop n a)) = zlen (rhn_labels a).
Proof. by rewrite <-zlen_app, <-rhn_labels_app, take_drop. Qed.
Lemma off_lastn a r : off a r = zlen (rhn_labels a) - zlen (rhn_labels (lastn r a)).
Proof.
  unfold off, lastn. rewrite <-(zlen_rhn_labels_split a (length a - r)). lia.
Qed.
Lemma off_diff a b r r' :
  (r ≤ r' ≤ common a b)%nat → off a r - off a r' = off b r - off b r'.
Proof.
  intros Hr. rewrite !off_lastn.
  destruct (proj1 (common_iff a b r)) as (_ & _ & H1%same_name_zlen); [lia|].
  destruct (proj1 (common_iff a b r')) as (_ & _ & H2%same_name_zlen); [lia|]. lia.
Qed.
Lemma off_anti a r r' : (r ≤ r')%nat → off a r' ≤ off a r.
Proof.
  intros. unfold off. replace (take (length a - r') a) with (take (length a - r') (take (length a - r) a))
    by (rewrite take_take; f_equal; lia).
  rewrite <-(zlen_rhn_labels_split (take (length a - r) a) (length a - r')).
  pose proof (zlen_nonneg (rhn_labels (drop (length a - r') (take (length a - r) a)))). lia.
Qed.
Lemma off_nonneg a r : 0 ≤ off a r.
Proof. apply zlen_nonneg. Qed.

(** ** Names in a growing message *)

Lemma rd_app_l msg x o v : rd msg o = Some v → rd (msg ++ x) o = Some v.
Proof.
  intros H. pose proof (rd_bound _ _ _ H). revert H. unfold rd. zcase. intros H'. by apply lookup_app_l_Some.
Qed.
Lemma name_at_app msg (x : bytes) o ls h n : name_at msg o ls h n → name_at (msg ++ x) o ls h n.
Proof.
  pose proof (zlen_nonneg x).
  induction 1 as [o H1|o l ls h n H1 H2 H3 H4 H5 H6 IH|o lb b ls h n H1 H2 H3 H4 IH].
  - by apply name_root, rd_app_l.
  - apply name_label; [by apply rd_app_l|done|done|zlens; lia| |done].
    rewrite slice_app_l by lia. done.
  - by eapply name_pointer; eauto using rd_app_l.
Qed.
Lemma name_at_labels p pre post ls h n :
  Forall label_ok p →
  name_at (pre ++ rhn_labels p ++ post) (zlen pre + zlen (rhn_labels p)) ls h n →
  name_at (pre ++ rhn_labels p ++ post) (zlen pre) (p ++ ls) h (zlen (rhn_labels p) + n).
Proof.
  intros Hp. revert pre. induction Hp as [|l p [Hl _] Hp IH]; intros pre.
  - unfold rhn_labels. cbn [map concat app]. change (zlen (@nil Z)) with 0. by rewrite Z.add_0_r.
  - replace (rhn_labels (l :: p)) with ((zlen l :: l) ++ rhn_labels p) by done.
    rewrite <-app_assoc. rewrite (app_assoc pre). zlens. intros Hn.
    specialize (IH (pre ++ zlen l :: l)). revert IH. zlens. intros IH. cbn [app].
    replace (1 + zlen l + zlen (rhn_labels p) + n) with (1 + zlen l + (zlen (rhn_labels p) + n)) by lia.
    pose proof (zlen_nonneg pre). apply name_label; [..|].
    + rewrite <-app_assoc. apply rd_text_end.
    + done.
    + done.
    + zlens. pose proof (zlen_nonneg (rhn_labels p)). pose proof (zlen_nonneg post). lia.
    + rewrite slice_app_l by (zlens; lia). rewrite slice_app_r by lia.
      replace (zlen pre + 1 - zlen pre) with (zlen [zlen l]) by (zlens; lia).
      change (zlen l :: l) with ([zlen l] ++ l). rewrite slice_app_r, Z.sub_diag by lia. by apply slice_all.
    + replace (zlen pre + 1 + zlen l) with (zlen pre + (1 + zlen l)) by lia. apply IH.
      by replace (zlen pre + (1 + zlen l) + zlen (rhn_labels p)) with (zlen pre + (1 + zlen l + zlen (rhn_labels p))) by lia.
Qed.
Lemma pointer_bytes_offset c :
  0 ≤ c ≤ 0x3fff →
  ∃ lb v, pointer_bytes c = [lb; v] ∧ 192 ≤ lb < 256 ∧ 0 ≤ v < 256 ∧ pointer_offset lb v = c.
Proof.
  intros Hc.
  assert (H : forallb (λ c, match pointer_bytes c with
    | [lb; v] => (192 <=? lb) && (lb <? 256) && (0 <=? v) && (v <? 256) && (pointer_offset lb v =? c)
    | _ => false end) (seqZ 0 16384) = true) by (vm_compute; reflexivity).
  rewrite forallb_forall in H.
  assert (Hin : In c (seqZ 0 16384)) by (apply list_elem_of_In, elem_of_seqZ; lia).
  specialize (H c Hin). unfold pointer_bytes in *. zbool. eexists _, _. split; [done|]. lia.
Qed.

(** ** The list of the names that are in the message

    An entry stands for a place and labels.  The entries are right when the last [r]
    labels of every name can be read at the place of the same or an earlier entry,
    which is not after the place that the entry itself gives for them: the part of a
    name that was compressed is not where its entry says it is. *)

Definition entry (e : Z * list bytes) : compel_t := {| index := e.1; s := rhn e.2 |}.
Definition readable (msg : bytes) (o : Z) ls (hops : Z) : Prop :=
  ∃ ls' h n, name_at msg o ls' h n ∧ same_name ls' ls ∧ h ≤ hops.
Definition reads_at (msg : bytes) (e : Z * list bytes) (r : nat) : Prop :=
  readable msg (e.1 + off e.2 r) (lastn r e.2) (Z.of_nat r).
Definition entry_ok (msg : bytes) (g : list (Z * list bytes)) (m : nat) (e : Z * list bytes) : Prop :=
  wf_name e.2 ∧ 0 ≤ e.1 < 2 ^ 31 ∧
  ∀ r, (1 ≤ r ≤ length e.2)%nat → ∃ m0 e0, (m0 ≤ m)%nat ∧ g !! m0 = Some e0 ∧
    (r ≤ common e.2 e0.2)%nat ∧ reads_at msg e0 r ∧ e0.1 + off e0.2 r ≤ e.1 + off e.2 r.
Definition entries_ok (msg : bytes) (g : list (Z * list bytes)) : Prop :=
  ∀ m e, g !! m = Some e → entry_ok msg g m e.

Lemma readable_app msg x o ls hops : readable msg o ls hops → readable (msg ++ x) o ls hops.
Proof. intros (ls' & h & n & ? & ?). exists ls', h, n. split; [by apply name_at_app|done]. Qed.
Lemma entries_ok_app msg x g : entries_ok msg g → entries_ok (msg ++ x) g.
Proof.
  intros H m e Hm. destruct (H m e Hm) as (? & ? & Hr). split; [done|]. split; [done|].
  intros r Hlt. destruct (Hr r Hlt) as (m0 & e0 & ? & ? & ? & ? & ?). exists m0, e0.
  split_and!; try done. by apply readable_app.
Qed.
Lemma entries_ok_snoc msg g e :
  entries_ok msg g → entry_ok msg (g ++ [e]) (length g) e → entries_ok msg (g ++ [e]).
Proof.
  intros H He m e' [Hm|(? & Hm)]%lookup_app_Some.
  - destruct (H m e' Hm) as (? & ? & Hr). split; [done|]. split; [done|].
    intros r Hlt. destruct (Hr r Hlt) as (m0 & e0 & ? & ? & ? & ? & ?). exists m0, e0.
    split_and!; try done. by apply lookup_app_l_Some.
  - assert (m = length g) as ->.
    { apply lookup_lt_Some in Hm. cbn in Hm. lia. }
    rewrite Nat.sub_diag in Hm. by injection Hm as <-.
Qed.

(** what is known of the best match of a name with the entries up to [m] *)
Definition best_ok (msg : bytes) (g : list (Z * list bytes)) (name : list bytes) (m : nat)
    (best : Z * Z * Z) : Prop :=
  let '(longest, lrem, coffs) := best in
  (longest = 0 ∨ ∃ m1 e, g !! m1 = Some e ∧ (1 ≤ common name e.2)%nat ∧
     best = (Z.of_nat (common name e.2), off name (common name e.2), e.1 + off e.2 (common name e.2)) ∧
     coffs ≤ 0x3fff ∧ reads_at msg e (common name e.2)) ∧
  ∀ m1 e, (m1 < m)%nat → g !! m1 = Some e → e.1 + off e.2 (common name e.2) ≤ 0x3fff →
    Z.of_nat (common name e.2) ≤ longest.

Lemma off_bound e r : wf_name e → 0 ≤ off e r ≤ 256.
Proof.
  intros [_ H]. split; [apply off_nonneg|]. pose proof (off_anti e 0 r ltac:(lia)).
  unfold off at 2 in H0. rewrite Nat.sub_0_r, firstn_all in H0. rewrite zlen_rhn in H.
  unfold DNSNAMEBUFSIZE in H. lia.
Qed.
(** The longest match of all that is not after the limit can be read. *)
Lemma longest_reads msg g name m e longest lrem coffs :
  entries_ok msg g → g !! m = Some e → best_ok msg g name m (longest, lrem, coffs) → 0 ≤ longest →
  longest < Z.of_nat (common name e.2) → e.1 + off e.2 (common name e.2) ≤ 0x3fff →
  reads_at msg e (common name e.2).
Proof.
  intros Hok Hm [_ Hbest] Hl Hlt Hoff. set (r := common name e.2) in *.
  destruct (Hok m e Hm) as (_ & _ & Hr). pose proof (common_le name e.2).
  destruct (Hr r) as (m0 & e0 & Hle & Hm0 & Hc & Hreads & Hoff0); [lia|].
  destruct (decide (m0 = m)) as [->|Hne]; [by rewrite Hm in Hm0; simplify_eq|].
  assert (Hr0 : (r ≤ common name e0.2)%nat) by (by apply common_trans with e.2).
  pose proof (off_anti e0.2 _ _ Hr0). specialize (Hbest m0 e0 ltac:(lia) Hm0 ltac:(lia)). lia.
Qed.

Lemma longest_match_spec msg g name rest m todo best :
  entries_ok msg g → wf_name name → g = take m g ++ todo → (m ≤ length g)%nat → 0 ≤ best.1.1 →
  best_ok msg g name m best →
  ∃ best', longest_match (rhn name ++ rest) (map entry todo) best = Some best' ∧
    0 ≤ best'.1.1 ∧ best_ok msg g name (length g) best'.
Proof.
  intros Hok Hname. revert m best. induction todo as [|e todo IH]; intros m [[longest lrem] coffs] Hg Hle H0 Hb.
  - exists (longest, lrem, coffs). split; [done|]. split; [done|]. replace (length g) with m; [done|].
    apply (f_equal length) in Hg. rewrite app_nil_r, length_take in Hg. lia.
  - assert (Hm : g !! m = Some e).
    { rewrite Hg. rewrite lookup_app_r by (rewrite length_take; lia). rewrite length_take.
      by replace (m - m `min` length g)%nat with 0%nat by lia. }
    assert (Hg' : g = take (S m) g ++ todo).
    { rewrite (take_S_r _ _ _ Hm), <-app_assoc. done. }
    destruct (Hok m e Hm) as (Hwf & Hi & _). pose proof (off_bound e.2 (common name e.2) Hwf).
    apply lookup_lt_Some in Hm as Hlt. cbn [map longest_match].
    assert (Hd : domain_match (rhn name ++ rest) (s (entry e)) =
      Some (Z.of_nat (common name e.2), off name (common name e.2), off e.2 (common name e.2))).
    { rewrite <-(app_nil_r (s (entry e))). by apply domain_match_spec. }
    rewrite Hd. cbn [mbind option_bind index entry].
    assert (Hnext : ∀ l' lrem' c' : Z, longest ≤ l' →
      (e.1 + off e.2 (common name e.2) ≤ 0x3fff → Z.of_nat (common name e.2) ≤ l') →
      (best_ok msg g name m (longest, lrem, coffs) →
       (l' = 0 ∨ ∃ m1 e, g !! m1 = Some e ∧ (1 ≤ common name e.2)%nat ∧
         (l', lrem', c') = (Z.of_nat (common name e.2), off name (common name e.2), e.1 + off e.2 (common name e.2)) ∧
         c' ≤ 0x3fff ∧ reads_at msg e (common name e.2))) →
      best_ok msg g name (S m) (l', lrem', c')).
    { intros l' lrem' c' Hl Hn Hsel. split; [by apply Hsel|]. intros m1 e1 Hm1 Hlook Ho.
      destruct (decide (m1 = m)) as [->|]; [rewrite Hm in Hlook; simplify_eq; by apply Hn|].
      destruct Hb as [_ Hb]. specialize (Hb m1 e1 ltac:(lia) Hlook Ho). lia. }
    cbn in H0.
    zif (Z.of_nat (common name e.2) >? longest).
    + unfold u32. rewrite Z.mod_small by lia. zif (e.1 + off e.2 (common name e.2) <=? 0x3fff).
      * apply (IH (S m)); [done|lia|cbn; lia|]. apply Hnext; [lia|lia|]. intros _. right. exists m, e.
        split; [done|]. split; [lia|]. split; [done|]. split; [lia|].
        by eapply longest_reads.
      * apply (IH (S m)); [done|lia|done|]. apply Hnext; [lia|lia|]. by intros [? _].
    + apply (IH (S m)); [done|lia|done|]. apply Hnext; [lia|lia|]. by intros [? _].
Qed.

(** ** The name that is written *)

(** [p] in place and then a pointer to the rest of the name, or nothing *)
Lemma readable_labels msg p post ls (hops : Z) :
  Forall label_ok p → readable (msg ++ rhn_labels p ++ post) (zlen msg + zlen (rhn_labels p)) ls hops →
  readable (msg ++ rhn_labels p ++ post) (zlen msg) (p ++ ls) hops.
Proof.
  intros Hp (ls' & h & n & Hn & Hs & Hh). exists (p ++ ls'), h, (zlen (rhn_labels p) + n).
  split; [by apply name_at_labels|]. split; [|done]. unfold same_name in *. by rewrite !map_app, Hs.
Qed.
(** The same for the end of [p]. *)
Lemma readable_labels_at msg p k post ls (hops : Z) :
  Forall label_ok p → readable (msg ++ rhn_labels p ++ post) (zlen msg + zlen (rhn_labels p)) ls hops →
  readable (msg ++ rhn_labels p ++ post) (zlen msg + zlen (rhn_labels (take k p))) (drop k p ++ ls) hops.
Proof.
  intros Hp. rewrite <-(take_drop k p) in Hp. apply Forall_app in Hp as [_ Hp].
  rewrite <-(take_drop k p) at 1 2. rewrite rhn_labels_app, zlen_app. intros H.
  pose proof (readable_labels (msg ++ rhn_labels (take k p)) (drop k p) post ls hops Hp) as Hr.
  revert Hr. rewrite <-!app_assoc in *. rewrite zlen_app, <-Z.add_assoc. intros Hr. specialize (Hr H).
  revert Hr. rewrite (app_assoc (rhn_labels (take k p))), <-rhn_labels_app, take_drop. done.
Qed.
Lemma readable_root msg post : readable (msg ++ 0 :: post) (zlen msg) [] 0.
Proof. exists [], 0, 1. split; [apply name_root, rd_text_end|]. split; [reflexivity|lia]. Qed.
Lemma name_at_pointer msg c ls h n :
  0 ≤ c ≤ 0x3fff → name_at msg c ls h n → name_at (msg ++ pointer_bytes c) (zlen msg) ls (1 + h) 2.
Proof.
  intros Hc Hn. destruct (pointer_bytes_offset c Hc) as (lb & v & Hp & ? & ? & Ho).
  rewrite Hp. apply (name_pointer _ _ lb v _ _ n); [apply rd_text_end|lia| |rewrite Ho; by apply name_at_app].
  replace (zlen msg + 1) with (zlen (msg ++ [lb])) by (zlens; lia).
  change [lb; v] with ([lb] ++ [v]). rewrite app_assoc. apply rd_text_end.
Qed.

Lemma off_0 ls : off ls 0 = zlen (rhn_labels ls).
Proof. unfold off. by rewrite Nat.sub_0_r, firstn_all. Qed.
Lemma off_all ls : off ls (length ls) = 0.
Proof. unfold off. by rewrite Nat.sub_diag. Qed.
Lemma off_take ls r k : (r ≤ k ≤ length ls)%nat → rhn_labels (take (length ls - k) (take (length ls - r) ls)) = rhn_labels (take (length ls - k) ls).
Proof. intros. rewrite take_take. by replace ((length ls - k) `min` (length ls - r))%nat with (length ls - k)%nat by lia. Qed.
Lemma drop_take_lastn ls r k :
  (r ≤ k ≤ length ls)%nat →
  drop (length ls - k) (take (length ls - r) ls) ++ lastn r ls = lastn k ls.
Proof.
  intros. unfold lastn. rewrite <-drop_app_le by (rewrite length_take; lia). by rewrite take_drop.
Qed.

(** A name of which the last [r] labels can be read after the first ones. *)
Lemma readable_ends msg ls r post hops :
  Forall label_ok ls → (r ≤ length ls)%nat →
  readable (msg ++ rhn_labels (take (length ls - r) ls) ++ post) (zlen msg + off ls r) (lastn r ls) hops →
  ∀ k, (r ≤ k ≤ length ls)%nat →
    readable (msg ++ rhn_labels (take (length ls - r) ls) ++ post) (zlen msg + off ls k) (lastn k ls) hops.
Proof.
  intros Hls Hr H k Hk.
  pose proof (readable_labels_at msg (take (length ls - r) ls) (length ls - k) post (lastn r ls) hops
    (Forall_take _ _ _ Hls) H) as H'.
  rewrite off_take, drop_take_lastn in H' by lia. done.
Qed.

Lemma rhn_labels_bytes_ok ls : Forall label_ok ls → bytes_ok (rhn_labels ls).
Proof.
  induction 1 as [|l ls [Hl Hb] _ IH]; [constructor|]. unfold rhn_labels. cbn [map concat].
  apply bytes_ok_app. split; [|done]. constructor; [lia|done].
Qed.
Lemma rhn_bytes_ok ls : Forall label_ok ls → bytes_ok (rhn ls).
Proof.
  intros H. apply bytes_ok_app. split; [by apply rhn_labels_bytes_ok|]. by repeat constructor.
Qed.
Lemma pointer_bytes_ok c : 0 ≤ c ≤ 0x3fff → bytes_ok (pointer_bytes c).
Proof.
  intros Hc. destruct (pointer_bytes_offset c Hc) as (? & ? & -> & ? & ? & _).
  repeat constructor; lia.
Qed.

(** the whole name is the end of a name that was written *)
Definition knows (g : list (Z * list bytes)) name : Prop := ∃ m e, g !! m = Some e ∧ (length name ≤ common name e.2)%nat.
(** A name that is known is found again, if a pointer can reach it. *)
Lemma knows_longest msg g name longest lrem coffs :
  entries_ok msg g → best_ok msg g name (length g) (longest, lrem, coffs) → knows g name →
  name = [] ∨ 0x3fff < zlen msg ∨ Z.of_nat (length name) ≤ longest.
Proof.
  intros Hg [_ Hbest] (m & e & Hm & Hc). destruct name as [|l ls]; [by left|right]. set (name := l :: ls) in *.
  pose proof (proj2 (common_le name e.2)). destruct (Hg m e Hm) as (_ & _ & Hr).
  destruct (Hr (length name)) as (m0 & e0 & _ & Hm0 & Hc0 & Hread & _); [cbn in *; lia|].
  assert (Hr0 : (length name ≤ common name e0.2)%nat) by (by apply common_trans with e.2).
  destruct (common_le name e0.2) as [Hle _]. assert (Heq : common name e0.2 = length name) by lia.
  destruct Hread as (ls' & h & n & Hn & _). apply name_at_bound in Hn.
  destruct (Z.le_gt_cases (e0.1 + off e0.2 (length name)) 0x3fff) as [Hlt|]; [right|left; lia].
  rewrite <-Heq. apply (Hbest m0 e0); [by apply lookup_lt_Some in Hm0|done|by rewrite Heq].
Qed.

(** what [compress_name] promises: the bytes after the message are the name *)
Definition compressed (msg : bytes) (g : list (Z * list bytes)) name (out : bytes) (g' : list (Z * list bytes)) : Prop :=
  entries_ok (msg ++ out) g' ∧ (1 ≤ zlen out ≤ zlen (rhn name) ∧ bytes_ok out) ∧
  ((g' = g ∧ knows g name) ∨ (g' = g ++ [(zlen msg, name)] ∧ (knows g name → name = [] ∨ 0x3fff < zlen msg))) ∧
  ∃ ls h, name_at (msg ++ out) (zlen msg) ls h (zlen out) ∧ same_name ls name ∧ h ≤ zlen name + 1.

Lemma slice_0_labels n name rest :
  (n ≤ length name)%nat →
  slice 0 (zlen (rhn_labels (take n name))) (rhn name ++ rest) = rhn_labels (take n name).
Proof.
  intros. rewrite <-(take_drop n name) at 2. rewrite rhn_app, <-app_assoc. by apply slice_0_app.
Qed.

Lemma compress_name_whole msg g name :
  entries_ok msg g → wf_name name → zlen msg < 2 ^ 31 → (knows g name → name = [] ∨ 0x3fff < zlen msg) →
  compressed msg g name (rhn name) (g ++ [(zlen msg, name)]).
Proof.
  intros Hg Hname Hmsg Hkn. destruct Hname as [Hls Hlen]. pose proof (zlen_nonneg msg).
  assert (Hr : ∀ k, (k ≤ length name)%nat →
    readable (msg ++ rhn name) (zlen msg + off name k) (lastn k name) 0).
  { intros k Hk. pose proof (readable_ends msg name 0 [0] 0 Hls ltac:(lia)) as H'.
    rewrite Nat.sub_0_r, firstn_all in H'. apply H'; [|lia]. rewrite off_0, lastn_0, app_assoc. replace (zlen msg + zlen (rhn_labels name)) with (zlen (msg ++ rhn_labels name)) by (zlens; lia).
    apply readable_root. }
  split; [|split; [split; [split; [apply zlen_rhn_pos|done]|by apply rhn_bytes_ok]|split; [right; by split|]]].
  - apply entries_ok_snoc; [by apply entries_ok_app|]. split; [done|]. split; [cbn; lia|].
    intros r Hr'. exists (length g), (zlen msg, name). cbn [fst snd] in *. split; [done|].
    split; [by rewrite lookup_app_r, Nat.sub_diag|]. rewrite common_self. split; [lia|]. split; [|lia].
    destruct (Hr r) as (ls' & h & n & ? & ? & ?); [lia|]. exists ls', h, n. split; [done|]. split; [done|lia].
  - exists name, 0. split; [|split; [reflexivity|pose proof (zlen_nonneg name); lia]].
    rewrite zlen_rhn. unfold rhn. rewrite <-(app_nil_r name) at 2.
    apply name_at_labels; [done|]. rewrite app_assoc.
    replace (zlen msg + zlen (rhn_labels name)) with (zlen (msg ++ rhn_labels name)) by (zlens; lia).
    apply name_root, rd_text_end.
Qed.

Lemma compress_name_pointer msg g name r e m lrem coffs :
  entries_ok msg g → wf_name name → zlen msg < 2 ^ 31 → g !! m = Some e →
  r = common name e.2 → (1 ≤ r)%nat → lrem = off name r → coffs = e.1 + off e.2 r →
  coffs ≤ 0x3fff → reads_at msg e r → (lrem ≠ 0 → knows g name → name = [] ∨ 0x3fff < zlen msg) →
  let out := rhn_labels (take (length name - r) name) ++ pointer_bytes coffs in
  compressed msg g name out (if negb (lrem =? 0) then g ++ [(zlen msg, name)] else g).
Proof.
  intros Hg Hname Hmsg Hm -> Hr1 -> Hc Hle Hread Hkn out. destruct Hname as [Hls Hlen] eqn:Heq. clear Heq.
  set (r := common name e.2) in *. pose proof (common_le name e.2). fold r in H.
  destruct (proj1 (common_iff name e.2 r)) as (_ & _ & Hsame); [lia|].
  assert (Hpos : 0 ≤ coffs < zlen msg).
  { destruct Hread as (? & ? & ? & Hn & _). apply name_at_bound in Hn. lia. }
  destruct Hread as (ls & h & n & Hn & Hls' & Hh). rewrite <-Hc in Hn.
  apply (name_at_app _ (rhn_labels (take (length name - r) name))) in Hn.
  apply name_at_pointer in Hn; [|lia]. rewrite <-app_assoc, zlen_app in Hn. fold out (off name r) in Hn.
  assert (Hs : same_name ls (lastn r name)) by (transitivity (lastn r e.2); [done|by symmetry]).
  assert (Hhere : ∀ k, (r ≤ k ≤ length name)%nat →
    readable (msg ++ out) (zlen msg + off name k) (lastn k name) (1 + Z.of_nat r)).
  { apply readable_ends; [done|lia|]. exists ls, (1 + h), 2. split; [done|]. split; [done|lia]. }
  pose proof (off_nonneg name r). pose proof (zlen_nonneg msg).
  assert (Hout : zlen out = off name r + 2) by (unfold out, off; zlens; done).
  split; [|split; [|split]].
  - pose proof (entries_ok_app _ out _ Hg) as Hg'. zif (off name r =? 0); cbn [negb]; [done|].
    apply entries_ok_snoc; [done|]. split; [done|]. split; [cbn; lia|]. cbn [fst snd].
    intros k Hk. destruct (decide (r < k)%nat).
    + exists (length g), (zlen msg, name). cbn [fst snd]. split; [done|].
      split; [by rewrite lookup_app_r, Nat.sub_diag|]. rewrite common_self. split; [lia|]. split; [|lia].
      destruct (Hhere k) as (ls' & h' & n' & ? & ? & ?); [lia|]. exists ls', h', n'. split_and!; done || lia.
    + destruct (Hg' m e Hm) as (_ & _ & He). destruct (He k) as (m0 & e0 & ? & Hm0 & Hk0 & Hr0 & Ho0); [lia|].
      exists m0, e0. apply lookup_lt_Some in Hm as ?. split; [lia|].
      split; [by apply lookup_app_l_Some|]. split; [apply common_trans with e.2; lia|]. split; [done|].
      pose proof (off_diff name e.2 k r ltac:(lia)). lia.
  - split; [rewrite Hout; split; [lia|]|].
    2:{ unfold out. apply bytes_ok_app. split; [by apply rhn_labels_bytes_ok, Forall_take|].
        apply pointer_bytes_ok; lia. }
    rewrite zlen_rhn. pose proof (zlen_rhn_labels_split name (length name - r)).
    pose proof (zlen_rhn_labels_ge (drop (length name - r) name) (Forall_drop _ _ _ Hls)).
    assert (1 ≤ zlen (drop (length name - r) name)) by (unfold zlen; rewrite length_drop; lia).
    unfold off. lia.
  - destruct (Z.eqb_spec (off name r) 0) as [Hz0|Hz0]; cbn [negb]; [left|right; split; [done|by apply Hkn]]. split; [done|].
    exists m, e. split; [done|]. fold r. pose proof (zlen_rhn_labels_ge (take (length name - r) name) (Forall_take _ _ _ Hls)) as Hge.
    unfold off in Hz0. rewrite Hz0 in Hge. unfold zlen in Hge. rewrite length_take in Hge. lia.
  - exists (take (length name - r) name ++ ls), (1 + h). rewrite Hout. split; [|split].
    + apply name_at_labels; [by apply Forall_take|done].
    + unfold same_name in *. rewrite map_app, Hs, <-map_app. unfold lastn. by rewrite take_drop.
    + unfold zlen. lia.
Qed.

Lemma compress_name_ok msg g name rest :
  entries_ok msg g → wf_name name → zlen msg < 2 ^ 31 →
  ∃ out g', compressed msg g name out g' ∧
    compress_name (rhn name ++ rest) (zlen msg) (map entry g) true = Some (Some out, map entry g').
Proof.
  intros Hg Hname Hmsg. pose proof (zlen_nonneg name).
  destruct (longest_match_spec msg g name rest 0 g (0, 0, 0)) as ([[longest lrem] coffs] & Hrun & H0 & Hbest);
    [done|done|done|lia|done|split; [by left|intros; lia]|].
  unfold compress_name. rewrite rhnlen_spec by apply Hname. cbn [mbind option_bind].
  replace (zlen (rhn name) <=? DNSNAMEBUFSIZE) with true by (symmetry; apply Z.leb_le, Hname).
  rewrite Hrun. cbn [mbind option_bind]. cbn in H0.
  assert (Hall : slice 0 (zlen (rhn name)) (rhn name ++ rest) = rhn name) by (by apply slice_0_app).
  pose proof (λ H, knows_longest msg g name longest lrem coffs Hg Hbest H) as Hkn.
  destruct Hbest as [[->|(m & e & Hm & Hr1 & [= -> -> ->] & Hc & Hread)] _].
  - cbn [Z.gtb Z.compare mbind option_bind]. rewrite Hall. exists (rhn name), (g ++ [(zlen msg, name)]).
    split; [|by rewrite map_app]. apply compress_name_whole; [done..|]. intros [?|[?|Hl]]%Hkn; [by left|by right|].
    left. destruct name; [done|cbn in Hl; lia].
  - replace (Z.of_nat (common name e.2) >? 0) with true by lia.
    pose proof (compress_name_pointer msg g name _ e m _ _ Hg Hname Hmsg Hm eq_refl Hr1 eq_refl eq_refl Hc Hread) as Hok.
    specialize (Hok ltac:(intros H0k [?|[?|Hl]]%Hkn; [by left|by right|exfalso; apply H0k; pose proof (common_le name e.2);
      replace (common name e.2) with (length name) by lia; apply off_all])).
    cbn zeta in Hok. destruct (Hok) as (_ & [Hlen _] & _).
    replace (off name (common name e.2) + 2 <=? zlen (rhn name)) with true.
    2:{ symmetry. apply Z.leb_le. revert Hlen. unfold off. zlens. unfold pointer_bytes. zlens. lia. }
    pose proof (common_le name e.2).
    replace (slice 0 (off name (common name e.2)) (rhn name ++ rest))
      with (rhn_labels (take (length name - common name e.2) name)) by (symmetry; apply slice_0_labels; lia).
    cbn [mbind option_bind]. eexists _, _. split; [exact Hok|].
    destruct (negb _); [|done]. rewrite map_app, Hall. done.
Qed.

(** ** The walks over names *)

Definition wf_nameb ls : bool :=
  forallb (λ l, (1 <=? zlen l) && (zlen l <=? 63) && bytes_okb l) ls && (zlen (rhn ls) <=? DNSNAMEBUFSIZE).
Lemma wf_nameb_spec ls : wf_nameb ls = true → wf_name ls.
Proof.
  unfold wf_nameb. intros [Hls Hl]%andb_true_iff. split; [|by apply Z.leb_le].
  apply List.Forall_forall. intros l Hin. rewrite forallb_forall in Hls. specialize (Hls l Hin).
  zbool. split; [lia|by apply bytes_okb_spec].
Qed.

Lemma skipsegs_spec k ls pre rest :
  Forall label_ok ls →
  skipsegs (pre ++ rhn ls ++ rest) (zlen pre) k = Some (zlen pre + zlen (rhn_labels (take k ls))).
Proof.
  revert ls pre. induction k as [|k IH]; intros ls pre Hls; cbn [skipsegs].
  { cbn [take]. change (zlen (rhn_labels [])) with 0. by rewrite Z.add_0_r. }
  rewrite rd_first_len. cbn [mbind option_bind]. destruct ls as [|l ls]; cbn [first_len take].
  { change (zlen (rhn_labels [])) with 0. by rewrite Z.add_0_r. }
  pose proof (label_len_pos _ _ Hls). replace (zlen l =? 0) with false by lia. cbn [negb].
  apply list.Forall_cons in Hls as [_ Hls]. rewrite rhn_cons_app.
  replace (zlen pre + (zlen l + 1)) with (zlen (pre ++ zlen l :: l)) by (zlens; lia).
  rewrite IH by done. unfold rhn_labels. cbn [map concat]. zlens. f_equal. lia.
Qed.
Lemma rhnsegcnt_loop_spec fuel ls pre rest res :
  Forall label_ok ls → (length ls < fuel)%nat →
  rhnsegcnt_loop fuel (pre ++ rhn ls ++ rest) (zlen pre) res = Some (res + zlen ls).
Proof.
  revert ls pre res. induction fuel as [|fuel IH]; intros ls pre res Hls Hf; [lia|].
  cbn [rhnsegcnt_loop]. rewrite rd_first_len. cbn [mbind option_bind].
  destruct ls as [|l ls]; cbn [first_len]; [cbn; zlens; f_equal; lia|].
  pose proof (label_len_pos _ _ Hls). replace (zlen l =? 0) with false by lia. cbn [negb].
  apply list.Forall_cons in Hls as [_ Hls]. rewrite rhn_cons_app.
  replace (zlen pre + (zlen l + 1)) with (zlen (pre ++ zlen l :: l)) by (zlens; lia).
  rewrite IH by (done || (cbn in Hf; lia)). zlens. f_equal. lia.
Qed.

(** On a name the walks of the library compute what their comments say: the length,
    the place after the name, the number of labels, the place after [k] labels, and a
    copy of the name and nothing else. *)
Theorem name_walks ls pre rest k (dst : bytes) :
  wf_name ls → DNSNAMEBUFSIZE ≤ zlen dst →
  rhnlen (rhn ls ++ rest) = Some (zlen (rhn ls)) ∧
  skiprhn (pre ++ rhn ls ++ rest) (zlen pre) = Some (zlen (pre ++ rhn ls)) ∧
  rhnsegcnt (rhn ls ++ rest) = Some (zlen ls) ∧
  skipsegs (pre ++ rhn ls ++ rest) (zlen pre) k = Some (zlen pre + zlen (rhn_labels (take k ls))) ∧
  rhncpy dst (rhn ls ++ rest) = Some (rhn ls ++ zdrop (zlen (rhn ls)) dst, zlen (rhn ls)).
Proof.
  intros [Hls Hlen] Hdst. pose proof (length_rhn ls). pose proof (zlen_nonneg (rhn ls)).
  split; [by apply rhnlen_spec|]. split.
  { unfold skiprhn. rewrite rhn_end_spec; [by zlens|done|rewrite !length_app; lia]. }
  split; [unfold rhnsegcnt; apply (rhnsegcnt_loop_spec _ ls [] rest 0); [done|rewrite length_app; lia]|].
  split; [by apply skipsegs_spec|]. unfold rhncpy. rewrite rhnlen_spec by done. cbn [mbind option_bind].
  replace (zlen (rhn ls) <=? DNSNAMEBUFSIZE) with true by (symmetry; by apply Z.leb_le).
  cbn zeta. replace (zlen (rhn ls) >? DNSNAMEBUFSIZE) with false by lia.
  replace (zlen (rhn ls) <=? zlen dst) with true by (symmetry; apply Z.leb_le; lia).
  by rewrite slice_0_app.
Qed.
Lemma name_walks_witness :
  rhnlen (rhn [[97]; [98; 99]] ++ [7]) = Some (zlen (rhn [[97]; [98; 99]])) ∧
  skiprhn ([9] ++ rhn [[97]; [98; 99]] ++ [7]) (zlen [9]) = Some (zlen ([9] ++ rhn [[97]; [98; 99]])) ∧
  rhnsegcnt (rhn [[97]; [98; 99]] ++ [7]) = Some (zlen [[97]; [98; 99]]) ∧
  skipsegs ([9] ++ rhn [[97]; [98; 99]] ++ [7]) (zlen [9]) 1 =
    Some (zlen [9] + zlen (rhn_labels (take 1 [[97]; [98; 99]]))) ∧
  rhncpy (repeat 0 256) (rhn [[97]; [98; 99]] ++ [7]) =
    Some (rhn [[97]; [98; 99]] ++ zdrop (zlen (rhn [[97]; [98; 99]])) (repeat 0 256), zlen (rhn [[97]; [98; 99]])).
Proof. apply (name_walks [[97]; [98; 99]] [9] [7] 1 (repeat 0 256)); [by apply wf_nameb_spec|by vm_compute]. Defined.

Lemma zdrop_rd i (k : bytes) lb : rd k i = Some lb → zdrop i k = lb :: zdrop (i + 1) k.
Proof.
  intros H. pose proof (rd_bound _ _ _ H). unfold rd in H. replace (0 <=? i) with true in H by lia.
  unfold zdrop. rewrite (drop_S _ _ _ H). do 2 f_equal. lia.
Qed.
Lemma isnormalencdomname_loop_spec fuel buf maxlen i :
  bytes_ok buf → 0 ≤ i → maxlen ≤ zlen buf → Z.max 0 (maxlen - i) < Z.of_nat fuel →
  ∃ r, isnormalencdomname_loop fuel buf maxlen i = Some r ∧
    (r = true ↔ ∃ ls rest, zdrop i buf = rhn ls ++ rest ∧ Forall label_ok ls ∧ i + zlen (rhn ls) ≤ maxlen).
Proof.
  intros Hbuf. revert i. induction fuel as [|fuel IH]; intros i Hi Hmax Hf; [lia|].
  cbn [isnormalencdomname_loop]. zif (i >=? maxlen).
  { eexists; split; [done|]. split; [done|]. intros (ls & rest & _ & _ & ?). pose proof (zlen_rhn_pos ls). lia. }
  destruct (rd_Some buf i) as [lb Hlb]; [lia|]. rewrite Hlb. cbn [mbind option_bind].
  pose proof (rd_byte _ _ _ Hbuf Hlb) as Hb. apply zdrop_rd in Hlb as Hd. rewrite Hd.
  zif (lb =? 0).
  { eexists; split; [done|]. split; [intros _|done]. subst lb. exists [], (zdrop (i + 1) buf).
    split; [done|]. split; [constructor|]. change (zlen (rhn [])) with 1. lia. }
  assert (Hfirst : ∀ ls rest, lb :: zdrop (i + 1) buf = rhn ls ++ rest →
    ∃ l ls', ls = l :: ls' ∧ zlen l = lb ∧ l = ztake lb (zdrop (i + 1) buf) ∧
      zdrop (i + 1 + lb) buf = rhn ls' ++ rest).
  { intros [|l ls] rest H; [by injection H|]. rewrite rhn_cons, <-app_assoc in H. cbn [app] in H.
    injection H as -> H. exists l, ls. split; [done|]. split; [done|]. rewrite H. split.
    - symmetry. apply ztake_app_length.
    - replace (i + 1 + zlen l) with (zlen l + (i + 1)) by lia.
      rewrite <-(zdrop_zdrop (zlen l) (i + 1)) by (pose proof (zlen_nonneg l); lia). rewrite H. apply zdrop_app_length. }
  zif (lb >? 63).
  { eexists; split; [done|]. split; [done|]. intros (ls & rest & H & Hls & _).
    apply Hfirst in H as (l & ls' & -> & <- & _). pose proof (label_len_pos _ _ Hls). lia. }
  destruct (IH (i + 1 + lb)) as (r & -> & Hr); [lia|done|lia|]. exists r. split; [done|]. rewrite Hr. split.
  - intros (ls & rest & H & Hls & Hle). exists (ztake lb (zdrop (i + 1) buf) :: ls), rest.
    pose proof (zlen_rhn_pos ls).
    assert (Hz : zlen (ztake lb (zdrop (i + 1) buf)) = lb) by (rewrite zlen_ztake, zlen_zdrop by lia; lia).
    rewrite rhn_cons, Hz. split; [|split].
    + rewrite <-app_assoc. cbn [app]. f_equal. rewrite <-H. replace (i + 1 + lb) with (lb + (i + 1)) by lia.
      rewrite <-(zdrop_zdrop lb (i + 1)) by lia. symmetry. apply ztake_zdrop.
    + constructor; [|done]. split; [lia|]. by apply Forall_take, Forall_drop.
    + zlens. rewrite Hz. lia.
  - intros (ls & rest & H & Hls & Hle). apply Hfirst in H as (l & ls' & -> & Hl & -> & H).
    apply list.Forall_cons in Hls as [_ Hls]. exists ls', rest. split; [done|]. split; [done|].
    revert Hle. rewrite rhn_cons. zlens. rewrite Hl. lia.
Qed.

(** [isnormalencdomname] decides if the first [maxlen] bytes of a buffer start with a
    whole name without compression that is not too long, whatever the bytes are, and
    reads nothing after them. *)
Theorem isnormalencdomname_spec buf maxlen :
  bytes_ok buf → maxlen ≤ zlen buf →
  ∃ r, isnormalencdomname buf maxlen = Some r ∧
    (r = true ↔ ∃ ls rest, buf = rhn ls ++ rest ∧ wf_name ls ∧ zlen (rhn ls) ≤ maxlen).
Proof.
  intros Hbuf Hmax. unfold isnormalencdomname.
  set (m := if maxlen >? DNSNAMEBUFSIZE then DNSNAMEBUFSIZE else maxlen).
  assert (Hm : m = Z.min maxlen 256) by (unfold m, DNSNAMEBUFSIZE; zcase).
  destruct (isnormalencdomname_loop_spec 257 buf m 0 Hbuf) as (r & -> & Hr); [lia..|].
  exists r. split; [done|]. rewrite Hr, zdrop_0. unfold wf_name, DNSNAMEBUFSIZE.
  split; intros (ls & rest & ? & H); exists ls, rest; destruct_and?; split_and!; done || lia.
Qed.
Lemma isnormalencdomname_spec_witness :
  ∃ r, isnormalencdomname [2; 97; 98; 0; 5] 4 = Some r ∧
    (r = true ↔ ∃ ls rest, [2; 97; 98; 0; 5] = rhn ls ++ rest ∧ wf_name ls ∧ zlen (rhn ls) ≤ 4).
Proof. apply (isnormalencdomname_spec [2; 97; 98; 0; 5] 4); [by apply bytes_okb_spec|by vm_compute]. Defined.

(** ** Comparison of names *)

#[export] Instance same_name_dec : RelDecision same_name.
Proof. unfold RelDecision, same_name. apply _. Defined.

Lemma label_icmp_spec l l' P P' S S' :
  length l = length l' → zlen P = zlen P' →
  label_icmp (length l) (P ++ l ++ S) (P' ++ l' ++ S') (zlen P) =
    Some (if bool_decide (fold_label l = fold_label l') then Some (zlen P + zlen l) else None).
Proof.
  revert l' P P'. induction l as [|x l IH]; intros [|y l'] P P' Hl HP; try done; cbn [length label_icmp].
  - change (zlen (@nil Z)) with 0. rewrite Z.add_0_r. done.
  - cbn [app]. rewrite rd_text_end, HP, rd_text_end. cbn [mbind option_bind].
    destruct (Z.eqb_spec (tolower x) (tolower y)) as [He|He]; cbn [negb].
    + specialize (IH l' (P ++ [x]) (P' ++ [y])). rewrite <-!app_assoc in IH. cbn [app] in IH.
      replace (zlen P' + 1) with (zlen (P ++ [x])) by (zlens; lia).
      rewrite IH by (cbn in Hl; zlens; lia). zlens.
      replace (zlen P + (1 + 0) + zlen l) with (zlen P' + (1 + zlen l)) by lia.
      cbn [fold_label map]. do 2 f_equal. repeat case_bool_decide; try done; unfold fold_label in *; cbn in *; congruence.
    + rewrite bool_decide_false; [done|]. cbn. congruence.
Qed.

Definition label_len l : Prop := 1 ≤ zlen l ≤ 63.
Lemma rhnicmp_loop_spec fuel a b P P' x y :
  Forall label_len a → Forall label_len b → zlen P = zlen P' → (length a < fuel)%nat →
  rhnicmp_loop fuel (P ++ rhn a ++ x) (P' ++ rhn b ++ y) (zlen P) = Some (bool_decide (same_name a b)).
Proof.
  revert a b P P'. induction fuel as [|fuel IH]; intros a b P P' Ha Hb HP Hf; [lia|].
  cbn [rhnicmp_loop]. rewrite rd_first_len, HP, rd_first_len. cbn [mbind option_bind].
  destruct Ha as [|l a Hl Ha], Hb as [|l' b Hl' Hb]; cbn [first_len].
  - done.
  - unfold label_len in Hl'. replace (0 =? zlen l') with false by lia. done.
  - unfold label_len in Hl. replace (zlen l =? 0) with false by lia. done.
  - unfold label_len in Hl. destruct (Z.eqb_spec (zlen l) (zlen l')) as [He|He]; cbn [negb].
    + replace (zlen l =? 0) with false by lia. rewrite !rhn_cons_app.
      replace (Z.to_nat (zlen l)) with (length l) by (unfold zlen; lia).
      replace (zlen P' + 1) with (zlen (P ++ [zlen l])) by (zlens; lia).
      replace ((P ++ zlen l :: l) ++ rhn a ++ x) with ((P ++ [zlen l]) ++ l ++ (rhn a ++ x))
        by (by rewrite <-!app_assoc).
      replace ((P' ++ zlen l' :: l') ++ rhn b ++ y) with ((P' ++ [zlen l']) ++ l' ++ (rhn b ++ y))
        by (by rewrite <-!app_assoc).
      rewrite label_icmp_spec by (unfold zlen in *; rewrite ?length_app; cbn; lia). cbn [mbind option_bind].
      rewrite <-!app_assoc. cbn [app].
      case_bool_decide as Hfold.
      * replace (zlen (P ++ [zlen l]) + zlen l) with (zlen (P ++ zlen l :: l)) by (zlens; lia).
        specialize (IH a b (P ++ zlen l :: l) (P' ++ zlen l' :: l') Ha Hb). rewrite <-!app_assoc in IH.
        cbn [app] in IH. rewrite IH by (zlens; cbn in Hf; lia). f_equal. unfold same_name. cbn [map].
        repeat case_bool_decide; try done; congruence.
      * rewrite bool_decide_false; [done|]. unfold same_name. cbn. congruence.
    + rewrite bool_decide_false; [done|]. unfold same_name. cbn [map]. intros [= H _].
      apply fold_label_length in H. unfold zlen in He. lia.
Qed.
(** [rhnicmp] decides if two names differ in the case of letters only. *)
Lemma rhnicmp_spec a b x y :
  Forall label_len a → Forall label_len b →
  rhnicmp (rhn a ++ x) (rhn b ++ y) = Some (bool_decide (same_name a b)).
Proof.
  intros Ha Hb. apply (rhnicmp_loop_spec _ a b [] []); [done..|].
  rewrite length_app. pose proof (length_rhn a). lia.
Qed.
Lemma same_name_len a b : same_name a b → Forall label_ok b → Forall label_len a.
Proof.
  unfold same_name. revert b. induction a as [|l a IH]; intros [|l' b] H Hb; try done.
  - injection H as Hl H. apply list.Forall_cons in Hb as [[Hb _] ?]. constructor; [|by eapply IH].
    apply fold_label_length in Hl. unfold label_len, zlen in *. lia.
Qed.

(** ** Messages *)

(** what is written into a message: names, and other data between them *)
Inductive item := Name (ls : list bytes) (rest : bytes) | Data (d : bytes).
Definition write_item (st : bytes * list compel_t) (it : item) : option (bytes * list compel_t) :=
  let '(msg, cb) := st in
  match it with
  | Data d => Some (msg ++ d, cb)
  | Name ls rest =>
      r ← compress_name (rhn ls ++ rest) (zlen msg) cb true;
      match r with
      | (Some out, cb) => Some (msg ++ out, cb)
      | (None, _) => None
      end
  end.
Fixpoint write_items (st : bytes * list compel_t) (its : list item) : option (bytes * list compel_t) :=
  match its with
  | [] => Some st
  | it :: its => st ← write_item st it; write_items st its
  end.
Definition item_ok (it : item) : Prop :=
  match it with Name ls _ => wf_name ls | Data d => bytes_ok d end.
(** the size of the items without compression *)
Definition item_size (it : item) : Z :=
  match it with Name ls _ => zlen (rhn ls) | Data d => zlen d end.
Definition items_size (its : list item) : Z := foldr (λ it n, item_size it + n) 0 its.

(** the invariant: the names that were written, with their places *)
Record message_ok (st : bytes * list compel_t) (g : list (Z * list bytes)) : Prop := {
  message_entries : st.2 = map entry g;
  message_reads : entries_ok st.1 g;
  message_bytes : bytes_ok st.1;
}.

Lemma message_ok_nil : message_ok ([], []) [].
Proof. split; [done|by intros m e|constructor]. Qed.
Lemma write_items_ok its st g :
  message_ok st g → Forall item_ok its → zlen st.1 + items_size its < 2 ^ 31 →
  ∃ st' g' ext, write_items st its = Some st' ∧ message_ok st' g' ∧ st'.1 = st.1 ++ ext ∧
    zlen ext ≤ items_size its.
Proof.
  revert st g. induction its as [|it its IH]; intros [msg cb] g Hst Hits Hsz.
  - exists (msg, cb), g, []. rewrite app_nil_r. done.
  - apply list.Forall_cons in Hits as [Hit Hits]. cbn [items_size foldr] in *. fold (items_size its) in *.
    assert (0 ≤ items_size its).
    { clear. induction its as [|it its IH]; [done|]. cbn. fold (items_size its).
      destruct it as [ls r|d]; cbn; [pose proof (zlen_nonneg (rhn ls))|pose proof (zlen_nonneg d)]; lia. }
    assert (Hstep : ∃ st1 g1 e1, write_item (msg, cb) it = Some st1 ∧ message_ok st1 g1 ∧
      st1.1 = msg ++ e1 ∧ zlen e1 ≤ item_size it).
    { destruct Hst as [He Hr Hb]. cbn [fst snd] in He, Hr, Hb, Hsz. subst cb. destruct it as [ls r|d]; cbn [item_size item_ok write_item] in *.
      - pose proof (zlen_rhn_pos ls).
        destruct (compress_name_ok msg g ls r Hr Hit) as (out & g1 & (? & [? ?] & _) & ->); [lia|].
        cbn [mbind option_bind]. exists (msg ++ out, map entry g1), g1, out. split; [done|].
        split; [|split; [done|lia]]. split; [done|done|by apply bytes_ok_app].
      - exists (msg ++ d, map entry g), g, d. split; [done|]. split; [|done].
        split; [done|by apply entries_ok_app|by apply bytes_ok_app]. }
    destruct Hstep as (st1 & g1 & e1 & Hrun & Hst1 & Hm1 & He1).
    destruct (IH st1 g1 Hst1 Hits) as (st2 & g2 & e2 & Hrun2 & Hst2 & Hm2 & He2).
    { rewrite Hm1. zlens. cbn [fst] in Hsz. lia. }
    exists st2, g2, (e1 ++ e2). cbn [write_items]. rewrite Hrun. cbn [mbind option_bind].
    split; [done|]. split; [done|]. cbn [fst]. rewrite Hm2, Hm1, <-app_assoc. split; [done|]. zlens. lia.
Qed.
Lemma write_items_app st its1 its2 :
  write_items st (its1 ++ its2) = st ← write_items st its1; write_items st its2.
Proof.
  revert st. induction its1 as [|it its1 IH]; intros st; [done|]. cbn [app write_items].
  destruct (write_item st it); [apply IH|done].
Qed.
Lemma items_size_app its1 its2 : items_size (its1 ++ its2) = items_size its1 + items_size its2.
Proof. unfold items_size. induction its1 as [|it its1 IH]; [done|]. cbn [app foldr]. lia. Qed.
Lemma items_size_nonneg its : 0 ≤ items_size its.
Proof.
  induction its as [|it its IH]; [done|]. cbn. fold (items_size its).
  destruct it as [ls r|d]; cbn; [pose proof (zlen_nonneg (rhn ls))|pose proof (zlen_nonneg d)]; lia.
Qed.

(** C15: Names and other data are written into a message, each name by [compress_name] with
    the list of the names before: every name succeeds, takes no more space than
    without compression, and [decompress_name] at its place in the message that results
    gives a name that [rhnicmp] finds equal to it, and the length that was written. *)
Theorem compress_decompress its1 ls rest its2 :
  Forall item_ok (its1 ++ Name ls rest :: its2) →
  items_size (its1 ++ Name ls rest :: its2) < 2 ^ 31 →
  ∃ m1 cb1 m2 cb2 msg cb name, write_items ([], []) its1 = Some (m1, cb1) ∧
    write_item (m1, cb1) (Name ls rest) = Some (m2, cb2) ∧
    write_items ([], []) (its1 ++ Name ls rest :: its2) = Some (msg, cb) ∧
    zlen msg ≤ items_size (its1 ++ Name ls rest :: its2) ∧
    decompress_name msg (zlen m1) (zlen msg - zlen m1) = Some (Ok (zlen m2 - zlen m1) name) ∧
    rhnicmp name (rhn ls) = Some true.
Proof.
  intros Hits Hsz. apply Forall_app in Hits as [Hits1 Hits2].
  apply list.Forall_cons in Hits2 as [Hls Hits2]. cbn [item_ok] in Hls.
  rewrite items_size_app in *. cbn [items_size foldr] in *. fold (items_size its2) in *.
  cbn [item_size] in *. pose proof (items_size_nonneg its1). pose proof (items_size_nonneg its2).
  pose proof (zlen_rhn_pos ls).
  destruct (write_items_ok its1 ([], []) []) as ([m1 cb1] & g1 & e1 & Hrun1 & [Hcb1 Hr1 Hb1] & Hm1 & He1);
    [apply message_ok_nil|done|cbn [fst]; change (zlen (@nil Z)) with 0; lia|]. cbn [fst snd app] in *. subst e1 cb1.
  destruct (compress_name_ok m1 g1 ls rest Hr1 Hls) as (out & g2 & (Hr2 & [Hlen Hbo] & _ & Hname) & Hrun2); [lia|].
  destruct (write_items_ok its2 (m1 ++ out, map entry g2) g2)
    as ([msg cb] & g3 & e3 & Hrun3 & [Hcb3 Hr3 Hb3] & Hm3 & He3);
    [split; [done|done|by apply bytes_ok_app]|done|cbn [fst]; zlens; lia|]. cbn [fst snd] in *. subst cb.
  destruct Hname as (ls' & h & Hn & Hs & Hh).
  exists m1, (map entry g1), (m1 ++ out), (map entry g2), msg, (map entry g3), (rhn ls').
  assert (Hw : write_item (m1, map entry g1) (Name ls rest) = Some (m1 ++ out, map entry g2))
    by (cbn [write_item]; by rewrite Hrun2).
  split; [done|]. split; [done|]. split.
  { rewrite write_items_app, Hrun1. cbn [mbind option_bind write_items]. by rewrite Hw. }
  assert (Hz : zlen msg = zlen m1 + zlen out + zlen e3) by (rewrite Hm3; zlens; lia).
  pose proof (zlen_nonneg e3). pose proof (zlen_nonneg m1). split; [lia|]. split.
  - destruct (decompress_name_names msg (zlen m1) (zlen msg - zlen m1) Hb3) as (r & -> & Hr); [lia..|].
    f_equal. apply Hr. exists ls', h. pose proof (wf_name_length _ Hls).
    split; [rewrite Hm3; replace (zlen (m1 ++ out) - zlen m1) with (zlen out) by (zlens; lia); by apply name_at_app|].
    split; [lia|]. split; [zlens; lia|]. split; [done|]. destruct Hls as [_ Hls].
    rewrite zlen_rhn, (same_name_zlen _ _ Hs), <-zlen_rhn. done.
  - rewrite <-(app_nil_r (rhn ls')), <-(app_nil_r (rhn ls)). rewrite rhnicmp_spec.
    + by rewrite bool_decide_true.
    + eapply same_name_len; [done|apply Hls].
    + eapply same_name_len; [reflexivity|apply Hls].
Qed.
Definition items_example : list item :=
  [Data (repeat 0 12); Name [[119; 119; 119]; [102; 111; 111]] []; Data [0; 1];
   Name [[110; 115]; [70; 79; 79]] []; Name [[102; 111; 111]] []].
Lemma compress_decompress_witness :
  ∃ m1 cb1 m2 cb2 msg cb name, write_items ([], []) (take 3 items_example) = Some (m1, cb1) ∧
    write_item (m1, cb1) (Name [[110; 115]; [70; 79; 79]] []) = Some (m2, cb2) ∧
    write_items ([], []) items_example = Some (msg, cb) ∧
    zlen msg ≤ items_size items_example ∧
    decompress_name msg (zlen m1) (zlen msg - zlen m1) = Some (Ok (zlen m2 - zlen m1) name) ∧
    rhnicmp name (rhn [[110; 115]; [70; 79; 79]]) = Some true.
Proof.
  apply (compress_decompress (take 3 items_example) [[110; 115]; [70; 79; 79]] [] (drop 4 items_example)).
  - unfold items_example. cbn [take drop app].
    repeat match goal with |- Forall item_ok _ => constructor end; cbn [item_ok];
      first [apply bytes_okb_spec; vm_compute; reflexivity | apply wf_nameb_spec; vm_compute; reflexivity].
  - by vm_compute.
Defined.
Example compress_run :
  (st ← write_items ([], []) items_example; Some (drop 12 st.1)) =
    Some [3; 119; 119; 119; 3; 102; 111; 111; 0; 0; 1; 2; 110; 115; 192; 16; 192; 16].
Proof. vm_compute. reflexivity. Qed.
