(* ===== verification/Contract.v ===== *)
(** * Handlers against the contract of the objects they call

    The other objects are a state [X] and a partial function [react] that takes a call;
    a call that breaks the contract of an object is not in its domain.  [wp m Q s x]:
    from the state [s] of the caller and [x] of the others, [m] fails no assertion,
    every call it makes is allowed, and [Q] holds of its result and the states after. *)

From S2P Require Import Prelude.

Section wp.
Context {S E X : Type} (react : E → X → option X).

Fixpoint reacts (es : list E) (x : X) : option X :=
  match es with
  | [] => Some x
  | e :: es => react e x ≫= reacts es
  end.
Lemma reacts_app es es' x : reacts (es ++ es') x = reacts es x ≫= reacts es'.
Proof.
  revert x. induction es as [|e es IH]; intros x; [done|]. cbn [app reacts].
  destruct (react e x); [apply IH|done].
Qed.

Definition wp {A} (m : M S E A) (Q : A → S → X → Prop) (s : S) (x : X) : Prop :=
  ∃ a s' es x', m s = Some (a, s', es) ∧ reacts es x = Some x' ∧ Q a s' x'.

Context {A B : Type}.
Implicit Types (Q : A → S → X → Prop) (s : S) (x : X).

Lemma wp_mono (m : M S E A) Q Q' s x :
  wp m Q s x → (∀ a s' x', Q a s' x' → Q' a s' x') → wp m Q' s x.
Proof. intros (a & s' & es & x' & ? & ? & ?) HQ. exists a, s', es, x'. eauto. Qed.
Lemma wp_ret a Q s x : Q a s x → wp (mret a) Q s x.
Proof. intros. by exists a, s, [], x. Qed.
Lemma wp_bind (m : M S E B) (f : B → M S E A) Q s x :
  wp m (λ b s' x', wp (f b) Q s' x') s x → wp (m ≫= f) Q s x.
Proof.
  intros (b & s1 & es1 & x1 & Hm & Hr & a & s2 & es2 & x2 & Hf & Hr2 & HQ).
  exists a, s2, (es1 ++ es2), x2. split; [|split; [|done]].
  - rewrite (M_bind_run _ _ _ _ _ _ Hm), Hf. done.
  - rewrite reacts_app, Hr. done.
Qed.
Lemma wp_get (Q : S → S → X → Prop) s x : Q s s x → wp get Q s x.
Proof. intros. by exists s, s, [], x. Qed.
Lemma wp_put s' (Q : unit → S → X → Prop) s x : Q tt s' x → wp (put s') Q s x.
Proof. intros. by exists tt, s', [], x. Qed.
Lemma wp_modify f (Q : unit → S → X → Prop) s x : Q tt (f s) x → wp (modify f) Q s x.
Proof. intros. by exists tt, (f s), [], x. Qed.
Lemma wp_assert b (Q : unit → S → X → Prop) s x : b = true → Q tt s x → wp (ASSERT b) Q s x.
Proof. intros -> ?. by exists tt, s, [], x. Qed.
Lemma wp_emit e x' (Q : unit → S → X → Prop) s x : react e x = Some x' → Q tt s x' → wp (emit e) Q s x.
Proof. intros Hr ?. exists tt, s, [e], x'. split; [done|]. cbn. by rewrite Hr. Qed.
End wp.

Section wp_unit.
Context {S E X : Type} (react : E → X → option X).
Lemma wp_when b (m : M S E unit) (Q : unit → S → X → Prop) s x :
  (b = true → wp react m Q s x) → (b = false → Q tt s x) → wp react (when b m) Q s x.
Proof. intros Ht Hf. destruct b; [by apply Ht|]. by apply wp_ret, Hf. Qed.
End wp_unit.

(** Symbolic execution of a handler: one operation at a time, as far as no choice is left. *)
Ltac wp_bind := apply wp_bind.
Ltac wp_call := eapply wp_emit; [cbn; reflexivity|].
Ltac wp_check := apply wp_assert; [first [reflexivity | assumption]|].

(** What a SOCKS client reports ([socksclient/BSocksClient.h]). *)
Inductive socks_event := BSOCKSCLIENT_EVENT_ERROR | BSOCKSCLIENT_EVENT_UP | BSOCKSCLIENT_EVENT_ERROR_CLOSED.
