(* ===== verification/TcpClient.v ===== *)
(** * TCP clients

    [tun2socks/tun2socks.c], [listener_accept_func] and the [client_] functions: a TCP
    connection that lwIP accepted from the device is relayed over a connection of a
    SOCKS client.  Bytes of the device wait in [buf] until the SOCKS connection takes
    them, bytes of the SOCKS connection wait in [socks_recv_buf] until lwIP takes them.

    A client is an object that frees itself; an access after that is an error.  lwIP and
    the SOCKS client are the other objects: their state and what they may be asked is
    the contract below.  [SYNC_COMMIT] runs jobs in the middle of a callback of lwIP;
    the rest of the callback is a step of its own. *)

From S2P Require Import Prelude CInt Addr Contract.

Definition TCP_WND : Z := 65535.
Definition CLIENT_SOCKS_RECV_BUF_SIZE : Z := 8192.

Inductive err_t := ERR_OK | ERR_MEM | ERR_ABRT | ERR_OTHER.
#[export] Instance err_t_eq_dec : EqDecision err_t.
Proof. solve_decision. Defined.

(** [struct tcp_client]; the links to lwIP and to the SOCKS client are the calls *)
Record tcp_client := mkClient {
  local_addr : BAddr;
  remote_addr : BAddr;
  client_closed : bool;
  buf : bytes;
  buf_used : Z;
  socks_up : bool;
  socks_closed : bool;
  socks_recv_buf : bytes;
  socks_recv_buf_used : Z;
  socks_recv_buf_sent : Z;
  socks_recv_waiting : bool;
  socks_recv_tcp_pending : Z;
}.
Definition set_client_closed b c : tcp_client :=
  mkClient (local_addr c) (remote_addr c) b (buf c) (buf_used c) (socks_up c) (socks_closed c)
    (socks_recv_buf c) (socks_recv_buf_used c) (socks_recv_buf_sent c) (socks_recv_waiting c)
    (socks_recv_tcp_pending c).
Definition set_socks_closed b c : tcp_client :=
  mkClient (local_addr c) (remote_addr c) (client_closed c) (buf c) (buf_used c) (socks_up c) b
    (socks_recv_buf c) (socks_recv_buf_used c) (socks_recv_buf_sent c) (socks_recv_waiting c)
    (socks_recv_tcp_pending c).
Definition set_buf d n c : tcp_client :=
  mkClient (local_addr c) (remote_addr c) (client_closed c) d n (socks_up c) (socks_closed c)
    (socks_recv_buf c) (socks_recv_buf_used c) (socks_recv_buf_sent c) (socks_recv_waiting c)
    (socks_recv_tcp_pending c).
Definition set_socks_up b c : tcp_client :=
  mkClient (local_addr c) (remote_addr c) (client_closed c) (buf c) (buf_used c) b (socks_closed c)
    (socks_recv_buf c) (socks_recv_buf_used c) (socks_recv_buf_sent c) (socks_recv_waiting c)
    (socks_recv_tcp_pending c).
(** [socks_recv_buf], [_used], [_sent], [socks_recv_waiting] and [socks_recv_tcp_pending] *)
Definition set_recv d used sent waiting pending c : tcp_client :=
  mkClient (local_addr c) (remote_addr c) (client_closed c) (buf c) (buf_used c) (socks_up c)
    (socks_closed c) d used sent waiting pending.

(** the callbacks of lwIP that run jobs before they return *)
Inductive callback := in_accept | in_recv | in_sent.
#[export] Instance callback_eq_dec : EqDecision callback.
Proof. solve_decision. Defined.

(** [dead_client] points to a variable of the callback that runs, with its value;
    [num_clients] counts the clients of the list. *)
Record state := mkState {
  client : option tcp_client;
  dead_client : option (callback * bool);
  num_clients : Z;
}.

(** the connection lwIP hands over *)
Record tcp_pcb := { is_ipv6 : bool; local_ip : bytes; local_port : Z; remote_ip : bytes; remote_port : Z }.

(** The calls: callbacks are set or removed, [tcp_recved], [tcp_write] with its result,
    [tcp_output], [tcp_close], [tcp_abort]; the SOCKS client is set up and freed, data is
    sent to it and received from it; a pbuf is freed; a callback returns. *)
Inductive call :=
| tcp_accepted | tcp_nagle_disable | tcp_arg
| tcp_err (set : bool) | tcp_recv (set : bool) | tcp_sent (set : bool)
| tcp_recved (len : Z) | tcp_write (d : bytes) (err : err_t) | tcp_output (err : err_t)
| tcp_close (err : err_t) | tcp_abort
| BSocksClient_Init (addr : BAddr) (ok : bool) | BSocksClient_Free
| StreamPassInterface_Sender_Send (d : bytes) | StreamRecvInterface_Receiver_Recv (len : Z)
| pbuf_free | return_err (err : err_t).

(** what lwIP answers while a handler runs: [tcp_sndbuf] and the result of [tcp_write]
    before the [k]-th write, the results of [tcp_output] and [tcp_close] *)
Record lwip := mkLwip { sndbuf : nat → Z; write_err : nat → err_t; output_err : err_t; close_err : err_t }.

Abbreviation H := (M state call).

(** [*client] *)
Definition cl : H tcp_client := s ← get; match client s with Some c => mret c | None => unreachable end.
Definition upd (f : tcp_client → tcp_client) : H unit :=
  c ← cl; modify (λ s, mkState (Some (f c)) (dead_client s) (num_clients s)).
(** [DEAD_KILL(client->dead_client)] *)
Definition kill_client : H unit :=
  modify (λ s, mkState (client s) ((λ k, (k.1, true)) <$> dead_client s) (num_clients s)).
(** [DEAD_ENTER(client->dead_client)] and [DEAD_LEAVE2(client->dead_client)]; the result
    is [DEAD_KILLED] *)
Definition enter (k : callback) : H unit :=
  modify (λ s, mkState (client s) (Some (k, false)) (num_clients s)).
Definition leave (k : callback) : H bool :=
  s ← get;
  match dead_client s with
  | Some (k', killed) =>
      ASSERT (bool_decide (k = k'));;
      put (mkState (client s) None (num_clients s));;
      mret killed
  | None => unreachable
  end.

Definition client_dealloc : H unit :=
  c ← cl;
  ASSERT (client_closed c);;
  ASSERT (socks_closed c);;
  s ← get;
  ASSERT (num_clients s >? 0);;
  modify (λ s, mkState None (dead_client s) (num_clients s - 1)).

(** The functions call each other; [fuel] bounds the depth. *)
Fixpoint client_handle_freed_client (fuel : nat) (lw : lwip) : H unit :=
  match fuel with
  | O => unreachable
  | S fuel =>
      c ← cl;
      ASSERT (negb (client_closed c));;
      kill_client;;
      upd (set_client_closed true);;
      if (buf_used c >? 0) && negb (socks_closed c) then mret tt
      else if negb (socks_closed c) then client_free_socks fuel lw
      else client_dealloc
  end
with client_free_client (fuel : nat) (lw : lwip) : H unit :=
  match fuel with
  | O => unreachable
  | S fuel =>
      c ← cl;
      ASSERT (negb (client_closed c));;
      emit (tcp_err false);; emit (tcp_recv false);; emit (tcp_sent false);;
      emit (tcp_close (close_err lw));;
      when (negb (bool_decide (close_err lw = ERR_OK))) (emit tcp_abort);;
      client_handle_freed_client fuel lw
  end
with client_free_socks (fuel : nat) (lw : lwip) : H unit :=
  match fuel with
  | O => unreachable
  | S fuel =>
      c ← cl;
      ASSERT (negb (socks_closed c));;
      when (socks_up c) (when (negb (client_closed c)) (emit (tcp_recv false)));;
      emit BSocksClient_Free;;
      upd (set_socks_closed true);;
      if socks_up c && ((socks_recv_buf_used c >=? 0) || (socks_recv_tcp_pending c >? 0))
           && negb (client_closed c)
      then mret tt
      else if negb (client_closed c) then client_free_client fuel lw
      else client_dealloc
  end.
(** enough for every path *)
Definition FUEL : nat := 5.

Definition client_abort_client (lw : lwip) : H unit :=
  c ← cl;
  ASSERT (negb (client_closed c));;
  emit (tcp_err false);; emit (tcp_recv false);; emit (tcp_sent false);;
  emit tcp_abort;;
  client_handle_freed_client FUEL lw.

Definition client_murder : H unit :=
  c ← cl;
  when (negb (client_closed c))
    (emit (tcp_err false);; emit (tcp_recv false);; emit (tcp_sent false);;
     emit tcp_abort;;
     kill_client;;
     upd (set_client_closed true));;
  when (negb (socks_closed c)) (emit BSocksClient_Free;; upd (set_socks_closed true));;
  client_dealloc.

Definition client_err_func (lw : lwip) : H unit :=
  c ← cl;
  ASSERT (negb (client_closed c));;
  client_handle_freed_client FUEL lw.

Definition client_send_to_socks : H unit :=
  c ← cl;
  ASSERT (negb (socks_closed c));;
  ASSERT (socks_up c);;
  ASSERT (buf_used c >? 0);;
  emit (StreamPassInterface_Sender_Send (slice 0 (buf_used c) (buf c))).

Definition client_socks_recv_initiate : H unit :=
  c ← cl;
  ASSERT (negb (client_closed c));;
  ASSERT (negb (socks_closed c));;
  ASSERT (socks_up c);;
  ASSERT (socks_recv_buf_used c =? -1);;
  emit (StreamRecvInterface_Receiver_Recv CLIENT_SOCKS_RECV_BUF_SIZE).

(** up to [SYNC_COMMIT], where it returns without [return_err]; [p] is the data of the
    pbuf, [None] the end of the connection *)
Definition client_recv_func (lw : lwip) (p : option bytes) : H unit :=
  c ← cl;
  ASSERT (negb (client_closed c));;
  match p with
  | None => client_free_client FUEL lw;; emit (return_err ERR_ABRT)
  | Some p =>
      ASSERT (zlen p >? 0);;
      if zlen p >? TCP_WND - buf_used c then emit (return_err ERR_MEM)
      else
        upd (set_buf (splice (buf_used c) p (buf c)) (buf_used c + zlen p));;
        if (buf_used c + zlen p =? zlen p) && socks_up c then
          ASSERT (negb (socks_closed c));;
          client_send_to_socks;;
          enter in_recv
        else emit pbuf_free;; emit (return_err ERR_OK)
  end.
Definition client_recv_func_resume : H unit :=
  killed ← leave in_recv;
  if (killed : bool) then emit (return_err ERR_ABRT)
  else emit pbuf_free;; emit (return_err ERR_OK).

(** the [do] loop; the result is false when [tcp_write] failed and the client was aborted *)
Fixpoint write_loop (fuel : nat) (lw : lwip) (k : nat) : H bool :=
  match fuel with
  | O => unreachable
  | S fuel =>
      c ← cl;
      let to_write := bmin (socks_recv_buf_used c - socks_recv_buf_sent c) (sndbuf lw k) in
      if to_write =? 0 then mret true
      else
        emit (tcp_write (slice (socks_recv_buf_sent c) to_write (socks_recv_buf c)) (write_err lw k));;
        match write_err lw k with
        | ERR_OK =>
            upd (set_recv (socks_recv_buf c) (socks_recv_buf_used c) (socks_recv_buf_sent c + to_write)
                   (socks_recv_waiting c) (socks_recv_tcp_pending c + to_write));;
            if socks_recv_buf_sent c + to_write <? socks_recv_buf_used c then write_loop fuel lw (S k)
            else mret true
        | ERR_MEM => mret true
        | _ => client_abort_client lw;; mret false
        end
  end.
Definition client_socks_recv_send_out (lw : lwip) : H Z :=
  c ← cl;
  ASSERT (negb (client_closed c));;
  ASSERT (socks_up c);;
  ASSERT (socks_recv_buf_used c >? 0);;
  ASSERT (socks_recv_buf_sent c <? socks_recv_buf_used c);;
  ASSERT (negb (socks_recv_waiting c));;
  ok ← write_loop (Z.to_nat CLIENT_SOCKS_RECV_BUF_SIZE) lw 0;
  if negb ok then mret (-1)
  else
    emit (tcp_output (output_err lw));;
    if negb (bool_decide (output_err lw = ERR_OK)) then client_abort_client lw;; mret (-1)
    else
      c ← cl;
      if socks_recv_buf_sent c <? socks_recv_buf_used c then
        if socks_recv_tcp_pending c =? 0 then client_abort_client lw;; mret (-1)
        else
          upd (set_recv (socks_recv_buf c) (socks_recv_buf_used c) (socks_recv_buf_sent c) true
                 (socks_recv_tcp_pending c));;
          mret 0
      else
        upd (set_recv (socks_recv_buf c) (-1) (socks_recv_buf_sent c) (socks_recv_waiting c)
               (socks_recv_tcp_pending c));;
        mret 0.

Definition client_socks_recv_handler_done (lw : lwip) (data : bytes) : H unit :=
  ASSERT (zlen data >? 0);;
  ASSERT (zlen data <=? CLIENT_SOCKS_RECV_BUF_SIZE);;
  c ← cl;
  ASSERT (negb (socks_closed c));;
  ASSERT (socks_up c);;
  ASSERT (socks_recv_buf_used c =? -1);;
  if client_closed c then mret tt
  else
    upd (set_recv (splice 0 data (socks_recv_buf c)) (zlen data) 0 false (socks_recv_tcp_pending c));;
    r ← client_socks_recv_send_out lw;
    if r <? 0 then mret tt
    else
      c ← cl;
      when (socks_recv_buf_used c =? -1) client_socks_recv_initiate.

(** up to [SYNC_COMMIT] *)
Definition client_sent_func (lw : lwip) (len : Z) : H unit :=
  c ← cl;
  ASSERT (negb (client_closed c));;
  ASSERT (socks_up c);;
  ASSERT (len >? 0);;
  ASSERT (len <=? socks_recv_tcp_pending c);;
  upd (set_recv (socks_recv_buf c) (socks_recv_buf_used c) (socks_recv_buf_sent c) (socks_recv_waiting c)
         (socks_recv_tcp_pending c - len));;
  if socks_recv_buf_used c >? 0 then
    ASSERT (socks_recv_waiting c);;
    ASSERT (socks_recv_buf_sent c <? socks_recv_buf_used c);;
    upd (set_recv (socks_recv_buf c) (socks_recv_buf_used c) (socks_recv_buf_sent c) false
           (socks_recv_tcp_pending c - len));;
    r ← client_socks_recv_send_out lw;
    if r <? 0 then emit (return_err ERR_ABRT)
    else
      c ← cl;
      ASSERT (socks_recv_tcp_pending c >? 0);;
      if (socks_recv_buf_used c =? -1) && negb (socks_closed c) then
        client_socks_recv_initiate;; enter in_sent
      else emit (return_err ERR_OK)
  else if socks_closed c && (socks_recv_tcp_pending c - len =? 0) then
    client_free_client FUEL lw;; emit (return_err ERR_ABRT)
  else emit (return_err ERR_OK).
Definition client_sent_func_resume : H unit :=
  killed ← leave in_sent;
  emit (return_err (if killed : bool then ERR_ABRT else ERR_OK)).

Definition client_socks_send_handler_done (lw : lwip) (data_len : Z) : H unit :=
  c ← cl;
  ASSERT (negb (socks_closed c));;
  ASSERT (socks_up c);;
  ASSERT (buf_used c >? 0);;
  ASSERT (data_len >? 0);;
  ASSERT (data_len <=? buf_used c);;
  let used := buf_used c - data_len in
  upd (set_buf (splice 0 (slice data_len used (buf c)) (buf c)) used);;
  when (negb (client_closed c)) (emit (tcp_recved data_len));;
  c ← cl;
  if buf_used c >? 0 then emit (StreamPassInterface_Sender_Send (slice 0 (buf_used c) (buf c)))
  else if client_closed c then client_free_socks FUEL lw
  else mret tt.

Definition client_socks_handler (lw : lwip) (event : socks_event) : H unit :=
  c ← cl;
  ASSERT (negb (socks_closed c));;
  match event with
  | BSOCKSCLIENT_EVENT_ERROR => client_free_socks FUEL lw
  | BSOCKSCLIENT_EVENT_UP =>
      ASSERT (negb (socks_up c));;
      upd (set_recv (socks_recv_buf c) (-1) (socks_recv_buf_sent c) (socks_recv_waiting c) 0);;
      when (negb (client_closed c)) (emit (tcp_sent true));;
      upd (set_socks_up true);;
      when (buf_used c >? 0) client_send_to_socks;;
      when (negb (client_closed c)) client_socks_recv_initiate
  | BSOCKSCLIENT_EVENT_ERROR_CLOSED =>
      ASSERT (socks_up c);;
      client_free_socks FUEL lw
  end.

Definition baddr_from_lwip (is_ipv6 : bool) (ipx_addr : bytes) (port_hostorder : Z) : BAddr :=
  if is_ipv6 then BAddr_MakeIPv6 ipx_addr (hton16 port_hostorder)
  else BAddr_MakeIPv4 (le_val ipx_addr) (hton16 port_hostorder).

(** up to [SYNC_COMMIT], for a program without [append_source_to_username]; [mem] and
    [init] tell if [malloc] and [BSocksClient_Init] succeed.  The arrays of a new client
    have any contents, [buf0] and [recv0], and so have the fields that are not set. *)
Definition listener_accept_func (newpcb : tcp_pcb) (mem init : bool) (buf0 recv0 : bytes)
    (used0 sent0 pending0 : Z) (waiting0 : bool) : H unit :=
  emit tcp_accepted;;
  if negb mem then emit (return_err ERR_MEM)
  else
    let local := baddr_from_lwip (is_ipv6 newpcb) (local_ip newpcb) (local_port newpcb) in
    let remote := baddr_from_lwip (is_ipv6 newpcb) (remote_ip newpcb) (remote_port newpcb) in
    emit (BSocksClient_Init local init);;
    if negb init then emit (return_err ERR_MEM)
    else
      s ← get;
      ASSERT (num_clients s >=? 0);;
      put (mkState (Some (mkClient local remote false buf0 0 false false recv0 used0 sent0 waiting0 pending0))
             (dead_client s) (num_clients s + 1));;
      emit tcp_nagle_disable;; emit tcp_arg;; emit (tcp_err true);; emit (tcp_recv true);;
      enter in_accept.
Definition listener_accept_func_resume : H unit :=
  killed ← leave in_accept;
  emit (return_err (if killed : bool then ERR_ABRT else ERR_OK)).

(** ** The contract of lwIP and of the SOCKS client

    The state of both sides as the client may rely on it: which callbacks are set,
    whether the connection is still the client's to use, the operations of the SOCKS
    client that are not completed, and the bytes that went each way.  [rx]: from lwIP to
    the client, [up]: taken by the SOCKS connection, [down]: from the SOCKS connection to
    the client, [tx]: taken by lwIP. *)
Record env := mkEnv {
  pcb_alive : bool; err_set : bool; recv_set : bool; sent_set : bool;
  running : option callback;   (** the callback of lwIP that has not returned *)
  pbuf : bool;                 (** the callback owns a pbuf *)
  aborted : bool;              (** [tcp_abort] was called since that callback was *)
  rx : bytes; recved : Z; tx : bytes; acked : Z;
  client_ended : bool;         (** the device closed or broke the connection, or it was aborted *)
  socks_alive : bool; is_up : bool; sending : option bytes; receiving : bool;
  up : bytes; down : bytes;
  socks_ended : bool;          (** the SOCKS client reported its end *)
}.
Definition set_pcb alive e1 r1 s1 ended (x : env) : env :=
  mkEnv alive e1 r1 s1 (running x) (pbuf x) (aborted x) (rx x) (recved x) (tx x) (acked x) ended
    (socks_alive x) (is_up x) (sending x) (receiving x) (up x) (down x) (socks_ended x).
Definition set_aborted b (x : env) : env :=
  mkEnv (pcb_alive x) (err_set x) (recv_set x) (sent_set x) (running x) (pbuf x) b (rx x) (recved x)
    (tx x) (acked x) (client_ended x) (socks_alive x) (is_up x) (sending x) (receiving x) (up x) (down x)
    (socks_ended x).
(** another callback runs, or none: it has not called [tcp_abort] *)
Definition set_running r p (x : env) : env :=
  mkEnv (pcb_alive x) (err_set x) (recv_set x) (sent_set x) r p (aborted x && bool_decide (r = running x))
    (rx x) (recved x) (tx x) (acked x)
    (client_ended x) (socks_alive x) (is_up x) (sending x) (receiving x) (up x) (down x) (socks_ended x).
Definition set_tcp r n t a (x : env) : env :=
  mkEnv (pcb_alive x) (err_set x) (recv_set x) (sent_set x) (running x) (pbuf x) (aborted x) r n t a
    (client_ended x) (socks_alive x) (is_up x) (sending x) (receiving x) (up x) (down x) (socks_ended x).
Definition set_socks alive u sd rc ended (x : env) : env :=
  mkEnv (pcb_alive x) (err_set x) (recv_set x) (sent_set x) (running x) (pbuf x) (aborted x) (rx x)
    (recved x) (tx x) (acked x) (client_ended x) alive u sd rc (up x) (down x) ended.
Definition set_streams sd u rc d (x : env) : env :=
  mkEnv (pcb_alive x) (err_set x) (recv_set x) (sent_set x) (running x) (pbuf x) (aborted x) (rx x)
    (recved x) (tx x) (acked x) (client_ended x) (socks_alive x) (is_up x) sd rc u d (socks_ended x).

(** What the calls do.  A connection is used only while it is alive, closed only
    without callbacks, data is acknowledged only once and only after it was received; the
    SOCKS client has one sending and one receiving operation at a time; a callback
    returns [ERR_ABRT] exactly if the connection is gone.  The last rule is weaker than
    the one of lwIP, [strict] below, which the code does not always follow. *)
Definition react (c : call) (x : env) : option env :=
  match c with
  | tcp_accepted => Some x
  | tcp_nagle_disable | tcp_arg => if pcb_alive x then Some x else None
  | tcp_err b => if pcb_alive x then Some (set_pcb true b (recv_set x) (sent_set x) (client_ended x) x) else None
  | tcp_recv b => if pcb_alive x then Some (set_pcb true (err_set x) b (sent_set x) (client_ended x) x) else None
  | tcp_sent b => if pcb_alive x then Some (set_pcb true (err_set x) (recv_set x) b (client_ended x) x) else None
  | tcp_recved n =>
      if pcb_alive x && (0 <? n) && (recved x + n <=? zlen (up x))
      then Some (set_tcp (rx x) (recved x + n) (tx x) (acked x) x) else None
  | tcp_write d err =>
      if pcb_alive x && (0 <? zlen d)
      then Some (match err with ERR_OK => set_tcp (rx x) (recved x) (tx x ++ d) (acked x) x | _ => x end)
      else None
  | tcp_output _ => if pcb_alive x then Some x else None
  | tcp_close err =>
      if pcb_alive x && negb (err_set x || recv_set x || sent_set x)
      then Some (match err with ERR_OK => set_pcb false false false false (client_ended x) x | _ => x end)
      else None
  | tcp_abort =>
      if pcb_alive x && negb (err_set x || recv_set x || sent_set x)
      then Some (set_pcb false false false false true (set_aborted true x)) else None
  | BSocksClient_Init _ ok =>
      if socks_alive x then None
      else Some (if ok then set_socks true false None false false x else x)
  | BSocksClient_Free =>
      if socks_alive x then Some (set_socks false (is_up x) None false (socks_ended x) x) else None
  | StreamPassInterface_Sender_Send d =>
      match sending x with
      | None => if socks_alive x && is_up x && (0 <? zlen d)
                then Some (set_streams (Some d) (up x) (receiving x) (down x) x) else None
      | Some _ => None
      end
  | StreamRecvInterface_Receiver_Recv n =>
      if socks_alive x && is_up x && negb (receiving x) && (0 <? n)
      then Some (set_streams (sending x) (up x) true (down x) x) else None
  | pbuf_free => if pbuf x then Some (set_running (running x) false x) else None
  | return_err err =>
      match running x with
      | None => None
      | Some k =>
          let x' := set_running None false x in
          match err with
          | ERR_OK => if pcb_alive x && negb (pbuf x) then Some x' else None
          | ERR_MEM =>
              if bool_decide (k = in_accept) && pcb_alive x && negb (err_set x || recv_set x || sent_set x)
              then Some (set_pcb false false false false true x') else None
          | ERR_ABRT => if pcb_alive x then None else Some x'
          | ERR_OTHER => None
          end
      end
  end.

(** [lwip/tcp.h] and [doc/rawapi.txt] ask more of the return value: a callback returns
    [ERR_ABRT] if [tcp_abort] was called, by it or by the jobs it ran, and never otherwise.
    With [ERR_ABRT] [tcp_input] drops the pbuf without freeing it; [rawapi.txt], which
    wants a pbuf freed only with [ERR_OK], leaves it to lwIP, but only other errors make
    lwIP store it: so nobody frees a pbuf that is left with [ERR_ABRT].  [react_strict] is
    the contract with the documented rule and with no pbuf left. *)
Definition strict (c : call) (x : env) : bool :=
  match c with
  | return_err ERR_ABRT => aborted x && negb (pbuf x)
  | return_err _ => negb (aborted x)
  | _ => true
  end.
Definition react_strict (c : call) (x : env) : option env := if strict c x then react c x else None.

(** ** Steps *)

Inductive input :=
| Accept (newpcb : tcp_pcb) (mem init : bool) (buf0 recv0 : bytes) (used0 sent0 pending0 : Z) (waiting0 : bool)
| Err | Recv (p : option bytes) | Sent (len : Z)
| Resume
| Socks (event : socks_event) | SendDone (n : Z) | RecvDone (d : bytes)
| Murder.

(** What lwIP and the SOCKS client may do, and their state when the handler is called.
    lwIP calls only callbacks that are set, and none while one is running; it delivers
    no more than the window, and confirms no more than was written. *)
Definition occurs (i : input) (x : env) : option env :=
  let idle := negb (not_null (running x)) in
  match i with
  | Accept _ _ _ buf0 recv0 _ _ _ _ =>
      if idle && negb (pcb_alive x) && negb (socks_alive x)
           && (zlen buf0 =? TCP_WND) && (zlen recv0 =? CLIENT_SOCKS_RECV_BUF_SIZE)
      then Some (mkEnv true false false false (Some in_accept) false false [] 0 [] 0 false
                   false false None false [] [] false)
      else None
  | Err =>
      if idle && pcb_alive x && err_set x then Some (set_pcb false false false false true x) else None
  | Recv p =>
      if idle && pcb_alive x && recv_set x then
        match p with
        | None => Some (set_running (Some in_recv) false
                          (set_pcb true (err_set x) (recv_set x) (sent_set x) true x))
        | Some d =>
            if (0 <? zlen d) && (zlen (rx x) + zlen d - recved x <=? TCP_WND)
            then Some (set_running (Some in_recv) true (set_tcp (rx x ++ d) (recved x) (tx x) (acked x) x))
            else None
        end
      else None
  | Sent len =>
      if idle && pcb_alive x && sent_set x && (0 <? len) && (acked x + len <=? zlen (tx x))
      then Some (set_running (Some in_sent) false (set_tcp (rx x) (recved x) (tx x) (acked x + len) x))
      else None
  | Resume => if idle then None else Some x
  | Socks ev =>
      if socks_alive x && (match ev with
                           | BSOCKSCLIENT_EVENT_UP => negb (is_up x)
                           | BSOCKSCLIENT_EVENT_ERROR => true
                           | BSOCKSCLIENT_EVENT_ERROR_CLOSED => is_up x
                           end)
      then Some (match ev with
                 | BSOCKSCLIENT_EVENT_UP => set_socks true true None false (socks_ended x) x
                 | _ => set_socks true (is_up x) (sending x) (receiving x) true x
                 end)
      else None
  | SendDone n =>
      match sending x with
      | Some d => if socks_alive x && (0 <? n) && (n <=? zlen d)
                  then Some (set_streams None (up x ++ slice 0 n d) (receiving x) (down x) x) else None
      | None => None
      end
  | RecvDone d =>
      if socks_alive x && receiving x && (0 <? zlen d) && (zlen d <=? CLIENT_SOCKS_RECV_BUF_SIZE)
      then Some (set_streams (sending x) (up x) false (down x ++ d) x) else None
  | Murder => if idle && (pcb_alive x || socks_alive x) then Some (set_socks (socks_alive x) (is_up x) (sending x) (receiving x) true
                                   (set_pcb (pcb_alive x) (err_set x) (recv_set x) (sent_set x) true x)) else None
  end.

Definition handle (i : input) (lw : lwip) : H unit :=
  match i with
  | Accept newpcb mem init buf0 recv0 used0 sent0 pending0 waiting0 =>
      listener_accept_func newpcb mem init buf0 recv0 used0 sent0 pending0 waiting0
  | Err => client_err_func lw
  | Recv p => client_recv_func lw p
  | Sent len => client_sent_func lw len
  | Resume =>
      s ← get;
      match dead_client s with
      | Some (in_accept, _) => listener_accept_func_resume
      | Some (in_recv, _) => client_recv_func_resume
      | Some (in_sent, _) => client_sent_func_resume
      | None => unreachable
      end
  | Socks ev => client_socks_handler lw ev
  | SendDone n => client_socks_send_handler_done lw n
  | RecvDone d => client_socks_recv_handler_done lw d
  | Murder => client_murder
  end.
Definition lwip_ok (lw : lwip) : Prop := ∀ k, 0 ≤ sndbuf lw k ≤ UINT16_MAX.

(** The initial state of the other objects, and the runs.  [others] is the number of the
    other clients. *)
Definition env0 : env :=
  mkEnv false false false false None false false [] 0 [] 0 false false false None false [] [] false.
Inductive reachable (others : Z) : state → env → Prop :=
| reachable_start : reachable others (mkState None None others) env0
| reachable_step s x i lw x1 s' es x' :
    reachable others s x → lwip_ok lw → occurs i x = Some x1 →
    handle i lw s = Some (tt, s', es) → reacts react es x1 = Some x' →
    reachable others s' x'.

(** ** The invariant *)

(** what holds of the SOCKS side while it is open, and of the buffers *)
Record base (c : tcp_client) (x : env) : Prop := {
  b_buf : zlen (buf c) = TCP_WND;
  b_used : 0 ≤ buf_used c ≤ TCP_WND;
  b_recv_buf : zlen (socks_recv_buf c) = CLIENT_SOCKS_RECV_BUF_SIZE;
  b_socks : socks_alive x = negb (socks_closed c);
  b_up : socks_closed c = false → is_up x = socks_up c;
  b_rx : socks_closed c = false → rx x = up x ++ slice 0 (buf_used c) (buf c);
  b_sending : socks_closed c = false →
    if socks_up c && (0 <? buf_used c)
    then ∃ k, 0 < k ≤ buf_used c ∧ sending x = Some (slice 0 k (buf c)) else sending x = None;
  b_receiving : socks_closed c = false → receiving x = true → socks_up c = true ∧ socks_recv_buf_used c = -1;
}.
(** the bytes that wait for lwIP *)
Definition waiting_bytes (c : tcp_client) : bytes :=
  if socks_recv_buf_used c =? -1 then []
  else slice (socks_recv_buf_sent c) (socks_recv_buf_used c - socks_recv_buf_sent c) (socks_recv_buf c).
(** the data towards lwIP, before and after the handlers that write *)
Record recv_side (c : tcp_client) (x : env) : Prop := {
  r_down : down x = tx x ++ waiting_bytes c;
  r_pending : socks_recv_tcp_pending c = zlen (tx x) - acked x;
  r_sent : socks_recv_buf_used c = -1 ∨
    0 ≤ socks_recv_buf_sent c < socks_recv_buf_used c ∧ socks_recv_buf_used c ≤ CLIENT_SOCKS_RECV_BUF_SIZE;
}.
(** what holds of the connection of the device while it is open *)
Record pcb_side (c : tcp_client) (x : env) : Prop := {
  p_err : err_set x = true;
  p_recv : recv_set x = negb (socks_closed c);
  p_sent : sent_set x = socks_up c;
  p_recved : recved x = zlen (up x);
  p_down : if socks_up c then
             recv_side c x ∧
             (socks_recv_buf_used c = -1 ∨ socks_recv_waiting c = true ∧ 0 < socks_recv_tcp_pending c)
           else tx x = [] ∧ down x = [] ∧ acked x = 0;
  p_receiving : socks_closed c = false → socks_up c = true →
    receiving x = bool_decide (socks_recv_buf_used c = -1);
}.
(** the data that was passed on, and how much of it when a side is gone *)
Record passed (x : env) : Prop := {
  d_up : ∃ r, rx x = up x ++ r;
  d_tx : ∃ r, down x = tx x ++ r;
  d_acked : 0 ≤ acked x ≤ zlen (tx x);
  d_recved : recved x ≤ zlen (up x);
  d_pcb : pcb_alive x = false → client_ended x = true ∨
    socks_alive x = false ∧ tx x = down x ∧ acked x = zlen (tx x);
  d_socks : socks_alive x = false → socks_ended x = true ∨ up x = rx x;
}.
(** a client that waits: not both sides are gone, and there is something to wait for *)
Record open (c : tcp_client) (x : env) : Prop := {
  o_base : base c x;
  o_alive : pcb_alive x = negb (client_closed c);
  o_pcb : client_closed c = false → pcb_side c x;
  o_client : client_closed c = true → socks_closed c = false ∧ 0 < buf_used c;
  o_socks : socks_closed c = true →
    socks_up c = true ∧ (0 ≤ socks_recv_buf_used c ∨ 0 < socks_recv_tcp_pending c);
}.
Definition core (others : Z) (s : state) (x : env) : Prop :=
  passed x ∧ 0 ≤ others ∧
  match client s with
  | None => num_clients s = others ∧ pcb_alive x = false ∧ socks_alive x = false
  | Some c => num_clients s = others + 1 ∧ open c x
  end ∧
  ∀ k killed, dead_client s = Some (k, killed) → killed = negb (pcb_alive x).
(** between two steps *)
Definition inv (others : Z) (s : state) (x : env) : Prop :=
  core others s x ∧ running x = fst <$> dead_client s ∧ pbuf x = bool_decide (running x = Some in_recv).

(** what a part of a handler leaves alone *)
Definition kept (d : option (callback * bool)) (x : env) (s' : state) (x' : env) : Prop :=
  fst <$> dead_client s' = fst <$> d ∧ running x' = running x ∧ pbuf x' = pbuf x.
Definition finishes (others : Z) d x : unit → state → env → Prop :=
  λ _ s' x', core others s' x' ∧ kept d x s' x'.
Definition closes (others : Z) d x : unit → state → env → Prop :=
  λ r s' x', finishes others d x r s' x' ∧ pcb_alive x' = false.

(** ** Symbolic execution *)

Lemma wp_cl c d n x (Q : tcp_client → state → env → Prop) :
  Q c (mkState (Some c) d n) x → wp react cl Q (mkState (Some c) d n) x.
Proof. intros. unfold cl. apply wp_bind, wp_get, wp_ret. done. Qed.
Lemma wp_upd f c d n x (Q : unit → state → env → Prop) :
  Q tt (mkState (Some (f c)) d n) x → wp react (upd f) Q (mkState (Some c) d n) x.
Proof. intros. unfold upd. apply wp_bind, wp_cl, wp_modify. done. Qed.
Ltac wp_c := apply wp_bind, wp_cl.
Ltac wp_a := apply wp_bind, wp_assert; [first [reflexivity | assumption | idtac]|].
Ltac wp_u := apply wp_bind, wp_upd.
Ltac wp_e := apply wp_bind; eapply wp_emit; [|].

Lemma wp_client_dealloc c d n x (Q : unit → state → env → Prop) :
  client_closed c = true → socks_closed c = true → 0 < n →
  Q tt (mkState None d (n - 1)) x → wp react client_dealloc Q (mkState (Some c) d n) x.
Proof.
  intros Hc Hs Hn HQ. unfold client_dealloc. wp_c. wp_a. wp_a. apply wp_bind, wp_get. wp_a.
  { cbn. lia. }
  by apply wp_modify.
Qed.

Lemma passed_set_pcb b e r t ended x :
  passed x →
  (b = false → ended = true ∨ socks_alive x = false ∧ tx x = down x ∧ acked x = zlen (tx x)) →
  passed (set_pcb b e r t ended x).
Proof. intros [] ?. by split. Qed.
Lemma passed_set_socks b u sd rc ended x :
  passed x → (b = true → socks_alive x = true) → (b = false → ended = true ∨ up x = rx x) →
  passed (set_socks b u sd rc ended x).
Proof.
  intros [? ? ? ? Hp ?] Hb ?. split; try done. cbn. intros [?|(? & ? & ?)]%Hp; [by left|right].
  destruct b; [|done]. specialize (Hb eq_refl). congruence.
Qed.
Lemma passed_set_aborted b x : passed x → passed (set_aborted b x).
Proof. intros []. by split. Qed.
Lemma base_set_aborted b c x : base c x → base c (set_aborted b x).
Proof. intros []. by split. Qed.
Lemma base_set_pcb b e r t ended c x : base c x → base c (set_pcb b e r t ended x).
Proof. intros []. by split. Qed.
Lemma base_set_client_closed b c x : base c x → base (set_client_closed b c) x.
Proof. intros []. by split. Qed.
Lemma base_set_socks_closed c sd rc ended x :
  base c x → base (set_socks_closed true c) (set_socks false (is_up x) sd rc ended x).
Proof. intros []. by split. Qed.
Lemma base_rx_all c x : base c x → socks_closed c = false → buf_used c ≤ 0 → up x = rx x.
Proof.
  intros [? Hu ? ? ? Hrx ? ?] Hs Hle. rewrite (Hrx Hs). replace (buf_used c) with 0 by lia.
  by rewrite slice_0_len, app_nil_r.
Qed.

(** The device side of the client is gone; the connection was taken care of. *)
Lemma wp_handle_freed others fuel lw c d x :
  client_closed c = false → pcb_alive x = false → base c x → passed x → 0 ≤ others →
  wp react (client_handle_freed_client (S (S fuel)) lw) (closes others d x)
    (mkState (Some c) d (others + 1)) x.
Proof.
  intros Hc Hx Hb Hp Ho. cbn [client_handle_freed_client]. wp_c. rewrite Hc. wp_a.
  apply wp_bind, wp_modify. cbn [client dead_client num_clients]. wp_u.
  assert (Hk : ∀ s' x', core others s' x' → dead_client s' = (λ k, (k.1, true)) <$> d →
    running x' = running x → pbuf x' = pbuf x → pcb_alive x' = false → closes others d x tt s' x').
  { intros s' x' ? Hd ? ? ?. split; [|done]. split; [done|]. split; [rewrite Hd; by destruct d|done]. }
  assert (Hd : ∀ k killed, (λ k, (k.1, true)) <$> d = Some (k, killed) → killed = negb false).
  { destruct d as [[k0 b0]|]; [|done]. by intros k killed [= <- <-]. }
  destruct ((buf_used c >? 0) && negb (socks_closed c)) eqn:Hw.
  { apply wp_ret, Hk; [|done..]. split; [done|]. split; [done|]. split; [|by cbn; rewrite Hx].
    cbn [client]. split; [done|]. split; [by apply base_set_client_closed|by rewrite Hx|done| |].
    - intros _. zbool. cbn. split; [done|lia].
    - cbn. intros Hs. rewrite Hs, andb_false_r in Hw. done. }
  destruct (socks_closed c) eqn:Hs; cbn [negb].
  { apply wp_client_dealloc; [done..|lia|]. apply Hk; [|done..]. split; [done|]. split; [done|].
    split; [|by cbn; rewrite Hx]. cbn. split; [lia|]. split; [done|]. by rewrite (b_socks _ _ Hb), Hs. }
  cbn [client_free_socks]. wp_c. cbn [socks_closed set_client_closed]. rewrite Hs. wp_a.
  apply wp_bind, wp_when; cbn [socks_up client_closed set_client_closed negb]; intros _;
    [apply wp_when; [done|]; intros _|];
  (wp_e; [cbn; by rewrite (b_socks _ _ Hb), Hs|]; wp_u;
   rewrite andb_false_r; cbn [negb]; apply wp_client_dealloc; [done..|lia|]; apply Hk; [|done..];
   split; [|split; [done|split; [cbn; split; [lia|done]|by cbn; rewrite Hx]]];
   apply passed_set_socks; [done..|]; intros _; right; apply (base_rx_all c); [done..|];
   rewrite andb_true_r in Hw; zbool; lia).
Qed.

(** The client closes or aborts the connection of the device. *)
Definition may_close (c : tcp_client) (x : env) : Prop :=
  client_ended x = true ∨ socks_closed c = true ∧ tx x = down x ∧ acked x = zlen (tx x).
Lemma wp_free_client others fuel lw c d x :
  client_closed c = false → pcb_alive x = true → base c x → passed x → 0 ≤ others → may_close c x →
  wp react (client_free_client (S (S (S fuel))) lw) (closes others d x)
    (mkState (Some c) d (others + 1)) x.
Proof.
  intros Hc Hx Hb Hp Ho Hm. cbn [client_free_client]. wp_c. rewrite Hc. wp_a.
  wp_e; [cbn; by rewrite Hx|]. wp_e; [done|]. wp_e; [done|]. wp_e; [done|].
  assert (Hm' : client_ended x = true ∨ socks_alive x = false ∧ tx x = down x ∧ acked x = zlen (tx x)).
  { destruct Hm as [?|(Hs & ?)]; [by left|right]. by rewrite (b_socks _ _ Hb), Hs. }
  destruct (decide (close_err lw = ERR_OK)) as [He|He].
  - rewrite bool_decide_true by done. cbn [negb when]. apply wp_bind, wp_ret. rewrite He.
    eapply wp_mono.
    + apply wp_handle_freed; [done..| | |done]; [by repeat first [apply base_set_pcb | apply base_set_aborted]|].
      apply passed_set_pcb; [|intros _; exact Hm']. by repeat first [apply passed_set_aborted | apply passed_set_pcb; [|done]].
    + intros ? s' x' [[? (? & ? & ?)] ?]. by split.
  - rewrite bool_decide_false by done. cbn [negb when]. apply wp_bind. eapply wp_emit.
    { destruct (close_err lw); done. }
    eapply wp_mono.
    + apply wp_handle_freed; [done..| | |done].
      * apply base_set_pcb. destruct (close_err lw); by repeat first [apply base_set_pcb | apply base_set_aborted].
      * apply passed_set_pcb; [|by left]. destruct (close_err lw); [done|..];
          repeat first [apply passed_set_aborted | apply passed_set_pcb; [|done]]; done.
    + intros ? s' x' [[? (? & ? & ?)] ?]. by split.
Qed.
Lemma wp_abort_client others lw c d x :
  client_closed c = false → pcb_alive x = true → base c x → passed x → 0 ≤ others →
  wp react (client_abort_client lw) (closes others d x) (mkState (Some c) d (others + 1)) x.
Proof.
  intros Hc Hx Hb Hp Ho. unfold client_abort_client. wp_c. rewrite Hc. wp_a.
  wp_e; [cbn; by rewrite Hx|]. wp_e; [done|]. wp_e; [done|]. wp_e; [done|].
  eapply wp_mono.
  - apply wp_handle_freed; [done..| | |done]; [by repeat first [apply base_set_pcb | apply base_set_aborted]|].
    apply passed_set_pcb; [|by left]. by repeat first [apply passed_set_aborted | apply passed_set_pcb; [|done]].
  - intros ? s' x' [[? (? & ? & ?)] ?]. by split.
Qed.

(** lwIP has confirmed everything when nothing waits. *)
Lemma pcb_side_drained c x :
  pcb_side c x → passed x →
  socks_up c && ((socks_recv_buf_used c >=? 0) || (socks_recv_tcp_pending c >? 0)) = false →
  tx x = down x ∧ acked x = zlen (tx x).
Proof.
  intros [? ? ? ? Hd ?] Hp Hw. pose proof (d_acked _ Hp). destruct (socks_up c); cbn [andb] in Hw.
  - destruct Hd as [[Hdown Hpend Hsent] _]. zbool. destruct Hsent as [Hu|?]; [|lia].
    unfold waiting_bytes in Hdown. rewrite Hu, app_nil_r in Hdown. split; [done|lia].
  - destruct Hd as (Ht & Hdn & Ha). by rewrite Ht, Hdn, Ha.
Qed.
Lemma wp_free_socks others fuel lw c d x :
  socks_closed c = false → base c x → pcb_alive x = negb (client_closed c) →
  (client_closed c = false → pcb_side c x) → passed x → 0 ≤ others →
  socks_ended x = true ∨ up x = rx x → (∀ k killed, d = Some (k, killed) → killed = negb (pcb_alive x)) →
  wp react (client_free_socks (S (S (S (S fuel)))) lw) (finishes others d x)
    (mkState (Some c) d (others + 1)) x.
Proof.
  intros Hs Hb Hx Hside Hp Ho Hend Hd. cbn [client_free_socks]. wp_c. rewrite Hs. wp_a.
  assert (Hfree : ∀ e r t, passed (set_socks false (is_up x) None false (socks_ended x)
    (set_pcb (pcb_alive x) e r t (client_ended x) x))).
  { intros e r t. apply passed_set_socks; [|done|by intros _].
    apply passed_set_pcb; [done|]. by destruct Hp. }
  destruct (client_closed c) eqn:Hc; cbn [negb] in *.
  - apply wp_bind, wp_when; [intros _; apply wp_when; [done|intros _]|intros _];
    (wp_e; [cbn; by rewrite (b_socks _ _ Hb), Hs|]; wp_u; rewrite andb_false_r;
     apply wp_client_dealloc; [done..|lia|]; split; [|done]; split; [|split; [done|]];
     [apply (Hfree (err_set x) (recv_set x) (sent_set x))|cbn; split; [|done]; split; [lia|done]]).
  - specialize (Hside eq_refl). rewrite andb_true_r.
    destruct (socks_up c) eqn:Hu; cbn [when].
    + wp_e; [cbn; by rewrite Hx|]. wp_e; [cbn; by rewrite (b_socks _ _ Hb), Hs|]. wp_u. cbn [andb].
      match goal with |- wp _ _ _ _ ?y => set (x1 := y) end.
      assert (Hb1 : base (set_socks_closed true c) x1) 
        by (apply (base_set_socks_closed c None false (socks_ended x) (set_pcb true (err_set x) false
              (sent_set x) (client_ended x) x)), base_set_pcb, Hb).
      assert (Hp1 : passed x1) by (rewrite Hx in Hfree; apply Hfree).
      destruct ((socks_recv_buf_used c >=? 0) || (socks_recv_tcp_pending c >? 0)) eqn:Hw.
      * apply wp_ret. split; [|done]. split; [done|]. split; [done|]. split; [|cbn; by rewrite Hx in Hd].
        cbn. split; [done|]. split; [done|by cbn; rewrite Hc|intros _|by cbn; rewrite Hc|].
        -- destruct Hside. split; try done. cbn. rewrite Hu in *. destruct p_down0 as [[] ?].
           split; [by split|done].
        -- intros _. cbn. split; [done|]. apply orb_true_iff in Hw as [?|?]; zbool; lia.
      * eapply wp_mono; [apply wp_free_client|intros ? s' x' [? _]]; try done.
        right. split; [done|]. apply (pcb_side_drained c x); [done..|]. by rewrite Hu.
    + apply wp_bind, wp_ret. wp_e; [cbn; by rewrite (b_socks _ _ Hb), Hs|]. wp_u. cbn [andb].
      eapply wp_mono; [apply wp_free_client|].
      * done.
      * done.
      * by apply base_set_socks_closed.
      * apply passed_set_socks; [done..|by intros _].
      * done.
      * right. split; [done|]. apply (pcb_side_drained c x); [done..|]. by rewrite Hu.
      * intros ? s' x' [[? (? & ? & ?)] ?]. by split.
Qed.

(** ** Writing to lwIP *)

(** while data is written: [socks_recv_buf_sent] bytes of the buffer were written *)
Record writes (c : tcp_client) (x : env) : Prop := {
  w_down : down x = tx x ++ slice (socks_recv_buf_sent c) (socks_recv_buf_used c - socks_recv_buf_sent c) (socks_recv_buf c);
  w_pending : socks_recv_tcp_pending c = zlen (tx x) - acked x;
  w_sent : 0 ≤ socks_recv_buf_sent c ≤ socks_recv_buf_used c;
  w_used : 0 < socks_recv_buf_used c ≤ CLIENT_SOCKS_RECV_BUF_SIZE;
}.
Lemma base_set_recv c x d used sent w p n t a :
  base c x → zlen d = CLIENT_SOCKS_RECV_BUF_SIZE →
  (socks_closed c = false → receiving x = true → used = -1) →
  base (set_recv d used sent w p c) (set_tcp (rx x) n t a x).
Proof. intros [? ? ? ? ? ? ? Hr] Hd Hu. split; try done. cbn. intros Hs Ht. destruct (Hr Hs Ht). auto. Qed.
Lemma passed_set_tcp x t a :
  passed x → pcb_alive x = true → (∃ r, down x = t ++ r) → 0 ≤ a ≤ zlen t →
  passed (set_tcp (rx x) (recved x) t a x).
Proof. intros [] Hx ? ?. split; try done. cbn. congruence. Qed.

Lemma set_recv_id c :
  set_recv (socks_recv_buf c) (socks_recv_buf_used c) (socks_recv_buf_sent c) (socks_recv_waiting c)
    (socks_recv_tcp_pending c) c = c.
Proof. by destruct c. Qed.
Lemma set_tcp_id x : set_tcp (rx x) (recved x) (tx x) (acked x) x = x.
Proof. by destruct x. Qed.

Lemma wp_write_loop others fuel lw k c d x (Q : bool → state → env → Prop) :
  lwip_ok lw → 0 ≤ others → client_closed c = false → pcb_alive x = true → base c x → passed x →
  writes c x → socks_recv_buf_sent c < socks_recv_buf_used c →
  socks_recv_buf_used c - socks_recv_buf_sent c ≤ Z.of_nat fuel →
  (∀ t sent p, let c' := set_recv (socks_recv_buf c) (socks_recv_buf_used c) sent (socks_recv_waiting c) p c in
     let x' := set_tcp (rx x) (recved x) t (acked x) x in
     writes c' x' → passed x' → base c' x' → zlen t = zlen (tx x) + (sent - socks_recv_buf_sent c) →
     socks_recv_buf_sent c ≤ sent → Q true (mkState (Some c') d (others + 1)) x') →
  (∀ s' x', closes others d x tt s' x' → Q false s' x') →
  wp react (write_loop fuel lw k) Q (mkState (Some c) d (others + 1)) x.
Proof.
  intros Hlw Ho Hc Hx. revert k c x Hc Hx.
  induction fuel as [|fuel IH]; intros k c x Hc Hx Hb Hp Hw Hlt Hf Htrue Hfalse; [lia|].
  cbn [write_loop]. wp_c. rewrite bmin_spec.
  assert (Hstop : Q true (mkState (Some c) d (others + 1)) x).
  { specialize (Htrue (tx x) (socks_recv_buf_sent c) (socks_recv_tcp_pending c)). cbn zeta in Htrue.
    rewrite set_recv_id, set_tcp_id in Htrue. apply Htrue; done || lia. }
  pose proof (Hlw k). destruct Hw as [Hd Hpe Hs Hu]. pose proof (b_recv_buf _ _ Hb) as Hz.
  zif (Z.min (socks_recv_buf_used c - socks_recv_buf_sent c) (sndbuf lw k) =? 0); [by apply wp_ret|].
  set (n := Z.min (socks_recv_buf_used c - socks_recv_buf_sent c) (sndbuf lw k)) in *.
  assert (Hn : 0 < n ≤ socks_recv_buf_used c - socks_recv_buf_sent c) by lia.
  assert (Hsl : zlen (slice (socks_recv_buf_sent c) n (socks_recv_buf c)) = n) by (apply zlen_slice; lia).
  wp_e; [cbn; rewrite Hx, Hsl; replace (0 <? n) with true by lia; reflexivity|].
  destruct (write_err lw k); [|by apply wp_ret|..].
  - wp_u.
    set (t := tx x ++ slice (socks_recv_buf_sent c) n (socks_recv_buf c)).
    set (c' := set_recv (socks_recv_buf c) (socks_recv_buf_used c) (socks_recv_buf_sent c + n)
      (socks_recv_waiting c) (socks_recv_tcp_pending c + n) c).
    assert (Hzt : zlen t = zlen (tx x) + n) by (unfold t; zlens; lia).
    pose proof (d_acked _ Hp).
    assert (Hw' : writes c' (set_tcp (rx x) (recved x) t (acked x) x)).
    { split; cbn; try lia. rewrite Hd. unfold t. rewrite <-app_assoc. f_equal.
      rewrite <-slice_split by lia. f_equal. lia. }
    assert (Hp' : passed (set_tcp (rx x) (recved x) t (acked x) x)).
    { apply passed_set_tcp; [done..| |lia]. eexists. exact (w_down _ _ Hw'). }
    assert (Hb' : base c' (set_tcp (rx x) (recved x) t (acked x) x)).
    { apply base_set_recv; [done..|]. intros Hso Hr. by apply (b_receiving _ _ Hb). }
    zif (socks_recv_buf_sent c + n <? socks_recv_buf_used c).
    + apply (IH (S k) c' (set_tcp (rx x) (recved x) t (acked x) x)); try done.
      * cbn. lia.
      * intros t2 sent2 p2 c2 x2 ? ? ? Hz2 ?. cbn in Hz2. apply Htrue; try done; cbn in *; lia.
    + apply wp_ret. apply Htrue; try done; lia.
  - apply wp_bind. eapply wp_mono; [by apply wp_abort_client|]. intros [] s' x' ?. by apply wp_ret, Hfalse.
  - apply wp_bind. eapply wp_mono; [by apply wp_abort_client|]. intros [] s' x' ?. by apply wp_ret, Hfalse.
Qed.

Lemma wp_send_out others lw c d x (Q : Z → state → env → Prop) :
  lwip_ok lw → 0 ≤ others → client_closed c = false → pcb_alive x = true → socks_up c = true →
  base c x → passed x → writes c x → socks_recv_buf_sent c < socks_recv_buf_used c →
  socks_recv_waiting c = false →
  (∀ t used sent w p, let c' := set_recv (socks_recv_buf c) used sent w p c in
     let x' := set_tcp (rx x) (recved x) t (acked x) x in
     recv_side c' x' → passed x' → base c' x' → 0 < p → used = -1 ∨ w = true ∧ 0 < used →
     Q 0 (mkState (Some c') d (others + 1)) x') →
  (∀ s' x', closes others d x tt s' x' → Q (-1) s' x') →
  wp react (client_socks_recv_send_out lw) Q (mkState (Some c) d (others + 1)) x.
Proof.
  intros Hlw Ho Hc Hx Hu Hb Hp Hw Hlt Hwt Hok Hfail. unfold client_socks_recv_send_out.
  pose proof (w_used _ _ Hw). pose proof (w_sent _ _ Hw).
  wp_c. rewrite Hc, Hu, Hwt. wp_a. wp_a. wp_a; [lia|]. wp_a; [lia|]. wp_a.
  apply wp_bind. apply (wp_write_loop others); try done; [unfold CLIENT_SOCKS_RECV_BUF_SIZE in *; lia| |].
  2:{ intros s' x' ?. by apply wp_ret, Hfail. }
  intros t sent p c' x' Hw' Hp' Hb' Hzt Hsent. cbn [negb].
  wp_e; [cbn; by rewrite Hx|].
  assert (Habort : wp react (client_abort_client lw;; mret (-1)) Q (mkState (Some c') d (others + 1)) x').
  { apply wp_bind. eapply wp_mono; [by apply wp_abort_client|]. intros [] s2 x2 ?. by apply wp_ret, Hfail. }
  destruct (decide (output_err lw = ERR_OK)) as [He|He].
  2:{ by rewrite bool_decide_false. }
  rewrite bool_decide_true by done. cbn [negb]. wp_c.
  destruct Hw' as [Hd' Hpe' Hs' Hu']. cbn in Hd', Hpe', Hs', Hu'. pose proof (d_acked _ Hp).
  cbn [socks_recv_buf_sent socks_recv_buf_used socks_recv_tcp_pending c' set_recv].
  zif (sent <? socks_recv_buf_used c).
  - zif (p =? 0); [done|]. wp_u. apply wp_ret.
    apply (Hok t (socks_recv_buf_used c) sent true p); [|done| |lia|right; split; [done|lia]].
    + split; cbn; [|done|right; lia]. rewrite Hd'. unfold waiting_bytes. cbn.
      by replace (socks_recv_buf_used c =? -1) with false by lia.
    + apply base_set_recv; [done|apply Hb|]. intros Hso Hr. destruct (b_receiving _ _ Hb Hso Hr). lia.
  - wp_u. apply wp_ret.
    apply (Hok t (-1) sent (socks_recv_waiting c) p); [|done| |lia|by left].
    + split; cbn; [|done|by left]. rewrite Hd'. unfold waiting_bytes. cbn. f_equal.
      replace (socks_recv_buf_used c - sent) with 0 by lia. apply slice_0_len.
    + by apply base_set_recv; [|apply Hb|].
Qed.

(** ** The handlers *)

Definition frame_ok (d : option (callback * bool)) (x : env) : Prop :=
  ∀ k killed, d = Some (k, killed) → killed = negb (pcb_alive x).
Definition rest (d : option (callback * bool)) (x : env) : Prop :=
  running x = fst <$> d ∧ pbuf x = bool_decide (running x = Some in_recv).

Lemma inv_open others s x :
  inv others s x → pcb_alive x = true ∨ socks_alive x = true →
  ∃ c d, s = mkState (Some c) d (others + 1) ∧ open c x ∧ passed x ∧ 0 ≤ others ∧ frame_ok d x ∧ rest d x.
Proof.
  destruct s as [[c|] d n]; intros [(Hp & Ho & Hs & Hf) Hr] Hor; cbn in *.
  - destruct Hs as [-> ?]. exists c, d. split; [done|]. split; [done|]. split; [done|]. by split.
  - destruct Hs as (_ & ? & ?). destruct Hor; congruence.
Qed.
Lemma inv_finish others d x s' x' :
  rest d x → finishes others d x tt s' x' → inv others s' x'.
Proof.
  intros [Hr Hp] [? (Hd & Hr' & Hp')]. split; [done|]. rewrite Hr', Hp', Hd. by rewrite Hr in *.
Qed.
Lemma inv_some others c d x :
  open c x → passed x → 0 ≤ others → frame_ok d x → rest d x → inv others (mkState (Some c) d (others + 1)) x.
Proof. intros. split; [|done]. split; [done|]. split; [done|]. by split. Qed.

(** What lwIP and the SOCKS client do leaves the buffers of the client alone. *)
Lemma base_set_running c x r p : base c x → base c (set_running r p x).
Proof. intros []. by split. Qed.
Lemma pcb_side_running c x r p : pcb_side c x → pcb_side c (set_running r p x).
Proof. intros [? ? ? ? Hd ?]. split; try done. cbn. by destruct (socks_up c); [destruct Hd as [[] ?]; split|]. Qed.
Lemma passed_running x r p : passed x → passed (set_running r p x).
Proof. intros []. by split. Qed.
Lemma open_running c x r p : open c x → open c (set_running r p x).
Proof.
  intros [? ? ? ? ?]. split; try done; [by apply base_set_running|].
  intros. by apply pcb_side_running, o_pcb0.
Qed.

Definition handles (i : input) : Prop :=
  ∀ others s x lw x1, inv others s x → lwip_ok lw → occurs i x = Some x1 →
    wp react (handle i lw) (λ _ s' x', inv others s' x') s x1.

Lemma idle_dead x d : rest d x → negb (not_null (running x)) = true → d = None ∧ running x = None ∧ pbuf x = false.
Proof.
  intros [Hr Hp] Hi. destruct (running x); [done|]. destruct d; [done|]. by rewrite Hp.
Qed.

Lemma handles_err : handles Err.
Proof.
  intros others s x lw x1 Hinv Hlw Hocc. cbn in Hocc.
  destruct (negb (not_null (running x)) && pcb_alive x && err_set x) eqn:Hc; [|done].
  injection Hocc as <-. apply andb_true_iff in Hc as [[Hi Ha]%andb_true_iff _].
  destruct (inv_open _ _ _ Hinv) as (c & d & -> & [Hb Hal Hpc _ _] & Hp & Ho & Hf & Hr); [by left|].
  rewrite Ha in Hal. assert (Hcl : client_closed c = false) by (by destruct (client_closed c)).
  cbn [handle]. unfold client_err_func. wp_c. rewrite Hcl. wp_a. eapply wp_mono.
  - apply wp_handle_freed; [done|done|by apply base_set_pcb| |done]. by apply passed_set_pcb; [|left].
  - intros [] s' x' [Hfin _]. eapply inv_finish; [|exact Hfin]. done.
Qed.

Lemma handles_murder : handles Murder.
Proof.
  intros others s x lw x1 Hinv Hlw Hocc. cbn in Hocc.
  destruct (negb (not_null (running x)) && (pcb_alive x || socks_alive x)) eqn:Hc; [|done].
  injection Hocc as <-. apply andb_true_iff in Hc as [Hi Ha%orb_true_iff].
  destruct (inv_open _ _ _ Hinv) as (c & d & -> & [Hb Hal Hpc _ _] & Hp & Ho & Hf & Hr); [done|].
  destruct (idle_dead _ _ Hr Hi) as (-> & Hrn & Hpb). cbn [handle]. unfold client_murder. wp_c.
  match goal with |- wp _ _ _ _ ?y => set (x2 := y) end.
  assert (Hp2 : passed x2) by (apply passed_set_socks; [by apply passed_set_pcb; [|left]|done|by left]).
  assert (Hend : ∀ y, passed y → pcb_alive y = false → socks_alive y = false →
    running y = running x2 → pbuf y = pbuf x2 → inv others (mkState None None (others + 1 - 1)) y).
  { intros y ? ? ? Hr' Hp'. change (running x2) with (running x) in Hr'. change (pbuf x2) with (pbuf x) in Hp'.
    split; [|by rewrite Hr', Hp', Hrn, Hpb]. split; [done|]. split; [done|]. split; [|done]. cbn. split; [lia|done]. }
  assert (Hs2 : socks_alive x2 = negb (socks_closed c)) by exact (b_socks _ _ Hb).
  assert (Hp3 : pcb_alive x2 = negb (client_closed c)) by done.
  assert (He1 : client_ended x2 = true) by done. assert (He2 : socks_ended x2 = true) by done.
  clearbody x2.
  assert (Hsocks : ∀ y sd rc, passed y → socks_ended y = true → passed (set_socks false (is_up y) sd rc (socks_ended y) y)).
  { intros y sd rc ? Hy. apply passed_set_socks; [done..|]. by left. }
  destruct (client_closed c) eqn:Hcl; cbn [negb when] in *.
  - apply wp_bind, wp_ret. destruct (socks_closed c) eqn:Hso; cbn [negb when] in *.
    + apply wp_bind, wp_ret. apply wp_client_dealloc; [done..|lia|]. by apply Hend.
    + apply wp_bind. wp_e; [cbn; by rewrite Hs2|]. apply wp_upd. apply wp_client_dealloc; [done..|lia|].
      apply Hend; try done. exact (Hsocks _ _ _ Hp2 He2).
  - apply wp_bind. wp_e; [cbn; by rewrite Hp3|]. wp_e; [done|]. wp_e; [done|]. wp_e; [done|].
    apply wp_bind, wp_modify. apply wp_upd. cbn [dead_client num_clients].
    match goal with |- wp _ _ _ _ ?y => assert (Hp4 : passed y)
      by (apply passed_set_pcb; [by repeat first [apply passed_set_aborted | apply passed_set_pcb; [|done]]|by left]) end.
    destruct (socks_closed c) eqn:Hso; cbn [negb when] in *.
    + apply wp_bind, wp_ret. apply wp_client_dealloc; [done..|lia|]. by apply Hend.
    + apply wp_bind. wp_e; [cbn; by rewrite Hs2|]. apply wp_upd. apply wp_client_dealloc; [done..|lia|].
      apply Hend; try done. exact (Hsocks _ _ _ Hp4 He2).
Qed.

Lemma base_socks_ended c x b : base c x → socks_alive x = true → base c (set_socks true (is_up x) (sending x) (receiving x) b x).
Proof. intros [? ? ? Hs ? ? ? ?] Ha. split; try done. cbn. by rewrite <-Hs. Qed.
Lemma pcb_side_socks_ended c x b :
  pcb_side c x → pcb_side c (set_socks true (is_up x) (sending x) (receiving x) b x).
Proof. intros [? ? ? ? Hd ?]. split; try done. cbn. by destruct (socks_up c); [destruct Hd as [[] ?]; split|]. Qed.

(** The SOCKS client reports an error, before or after it was up. *)
Lemma handles_socks_end others c d x lw :
  socks_alive x = true → open c x → passed x → 0 ≤ others → frame_ok d x → rest d x →
  wp react (client_free_socks FUEL lw) (λ _ s' x', inv others s' x')
    (mkState (Some c) d (others + 1)) (set_socks true (is_up x) (sending x) (receiving x) true x).
Proof.
  intros Ha [Hb Hal Hpc _ _] Hp Ho Hf Hr.
  assert (Hs : socks_closed c = false) by (rewrite (b_socks _ _ Hb) in Ha; by destruct (socks_closed c)).
  eapply wp_mono; [apply wp_free_socks|].
  - done.
  - by apply base_socks_ended.
  - done.
  - intros Hc. by apply pcb_side_socks_ended, Hpc.
  - by apply passed_set_socks; [done|done|].
  - done.
  - by left.
  - done.
  - intros [] s' x' Hfin. eapply inv_finish; [|exact Hfin]. done.
Qed.

Lemma send_to_socks_up c d n x (Q : unit → state → env → Prop) :
  socks_closed c = false → socks_up c = true → 0 < buf_used c ≤ zlen (buf c) →
  socks_alive x = true → is_up x = true → sending x = None →
  Q tt (mkState (Some c) d n)
    (set_streams (Some (slice 0 (buf_used c) (buf c))) (up x) (receiving x) (down x) x) →
  wp react client_send_to_socks Q (mkState (Some c) d n) x.
Proof.
  intros Hs Hu Hn Ha Hup Hsd HQ. unfold client_send_to_socks. wp_c. rewrite Hs, Hu.
  wp_a. wp_a. wp_a; [lia|].
  eapply wp_emit; [|exact HQ]. cbn. rewrite Hsd, Ha, Hup, zlen_slice by lia.
  by replace (0 <? buf_used c) with true by lia.
Qed.
Lemma recv_initiate c d n x (Q : unit → state → env → Prop) :
  client_closed c = false → socks_closed c = false → socks_up c = true → socks_recv_buf_used c = -1 →
  socks_alive x = true → is_up x = true → receiving x = false →
  Q tt (mkState (Some c) d n) (set_streams (sending x) (up x) true (down x) x) →
  wp react client_socks_recv_initiate Q (mkState (Some c) d n) x.
Proof.
  intros Hc Hs Hu Hused Ha Hup Hrc HQ. unfold client_socks_recv_initiate. wp_c. rewrite Hc, Hs, Hu.
  wp_a. wp_a. wp_a. wp_a; [by rewrite Hused|].
  eapply wp_emit; [|exact HQ]. cbn. by rewrite Hrc, Ha, Hup.
Qed.

(** A client with a new operation of the SOCKS client. *)
Lemma base_set_streams c x sd rc dn :
  base c x →
  (socks_closed c = false → if socks_up c && (0 <? buf_used c)
     then ∃ k, 0 < k ≤ buf_used c ∧ sd = Some (slice 0 k (buf c)) else sd = None) →
  (socks_closed c = false → rc = true → socks_up c = true ∧ socks_recv_buf_used c = -1) →
  base c (set_streams sd (up x) rc dn x).
Proof. intros [] ? ?. by split. Qed.
Lemma passed_set_streams x sd rc : passed x → passed (set_streams sd (up x) rc (down x) x).
Proof. intros []. by split. Qed.

Lemma handles_socks_up others c d x lw :
  socks_alive x = true → is_up x = false → open c x → passed x → 0 ≤ others → frame_ok d x → rest d x →
  wp react (client_socks_handler lw BSOCKSCLIENT_EVENT_UP) (λ _ s' x', inv others s' x')
    (mkState (Some c) d (others + 1)) (set_socks true true None false (socks_ended x) x).
Proof.
  intros Ha Hup [Hb Hal Hpc Hcl _] Hp Ho Hf Hr.
  assert (Hs : socks_closed c = false) by (rewrite (b_socks _ _ Hb) in Ha; by destruct (socks_closed c)).
  assert (Hu : socks_up c = false) by (rewrite <-(b_up _ _ Hb Hs); done).
  unfold client_socks_handler. wp_c. rewrite Hs. wp_a. rewrite Hu. wp_a. wp_u.
  set (c2 := set_socks_up true (set_recv (socks_recv_buf c) (-1) (socks_recv_buf_sent c) (socks_recv_waiting c) 0 c)).
  assert (Hp1 : passed (set_socks true true None false (socks_ended x) x)) by (by apply passed_set_socks).
  pose proof (b_used _ _ Hb). pose proof (b_buf _ _ Hb). pose proof (b_rx _ _ Hb Hs) as Hrx.
  assert (Hb2 : ∀ e r t sd rc, (if 0 <? buf_used c then sd = Some (slice 0 (buf_used c) (buf c)) else sd = None) →
    base c2 (set_streams sd (up x) rc (down x) (set_pcb (pcb_alive x) e r t (client_ended x)
      (set_socks true true None false (socks_ended x) x)))).
  { intros e r t sd rc Hsd. split; try done; [apply Hb|cbn; by rewrite Hs|].
    intros _. cbn. destruct (0 <? buf_used c) eqn:Hn; [|done]. exists (buf_used c). split; [zbool; lia|done]. }
  apply wp_bind, wp_when; intros Hc; zbool.
  - pose proof (Hpc Hc) as [? ? ? ? Hd _]. rewrite Hu in Hd. rewrite Hc in Hal.
    eapply wp_emit; [cbn; by rewrite Hal|]. wp_u.
    match goal with |- wp _ _ _ _ ?y => set (x2 := y) end.
    assert (Hp2 : passed x2) by (by apply passed_set_pcb).
    assert (Hlast : ∀ sd, (if 0 <? buf_used c then sd = Some (slice 0 (buf_used c) (buf c)) else sd = None) →
      inv others (mkState (Some c2) d (others + 1)) (set_streams sd (up x) true (down x) x2)).
    { intros sd Hsd. apply inv_some; [|by apply (passed_set_streams x2)|done|intros k b Hk; by rewrite (Hf k b Hk), Hal|done].
      split; [|by cbn; rewrite Hc|intros _|by cbn; rewrite Hc|by cbn; rewrite Hs].
      - specialize (Hb2 (err_set x) (recv_set x) true sd true Hsd). by rewrite Hal in Hb2.
      - destruct Hd as (Ht & Hdn & Hack). split; try done. cbn. split; [|by left].
        split; cbn; [by rewrite Ht, Hdn|by rewrite Ht, Hack|by left]. }
    apply wp_bind, wp_when; cbn [buf_used c2 set_socks_up set_recv]; intros Hn.
    + apply send_to_socks_up; try done; [cbn; zbool; lia|].
      apply wp_when; [intros _|cbn; by rewrite Hc].
      apply recv_initiate; try done. apply Hlast. zbool. by replace (0 <? buf_used c) with true by lia.
    + apply wp_when; [intros _|cbn; by rewrite Hc].
      apply recv_initiate; try done. apply Hlast. zbool. by replace (0 <? buf_used c) with false by lia.
  - destruct (Hcl Hc) as [_ Hn]. wp_u. apply wp_bind, wp_when; cbn [buf_used set_recv]; [intros _|intros ?; zbool; lia].
    apply send_to_socks_up; try done; [cbn; lia|].
    apply wp_when; [by cbn; rewrite Hc|intros _].
    apply inv_some; [|by apply passed_set_streams|done|done|done].
    split; [|done|by cbn; rewrite Hc|intros _; split; [done|exact Hn]|by cbn; rewrite Hs].
    specialize (Hb2 (err_set x) (recv_set x) (sent_set x) (Some (slice 0 (buf_used c) (buf c))) false).
    replace (0 <? buf_used c) with true in Hb2 by lia. specialize (Hb2 eq_refl).
    by destruct x.
Qed.

(** The SOCKS client took [n] bytes of the data that was sent to it. *)
Lemma memmove_buf (b : bytes) n used :
  0 ≤ n ≤ used → used ≤ zlen b →
  slice 0 (used - n) (splice 0 (slice n (used - n) b) b) = slice n (used - n) b ∧
  zlen (splice 0 (slice n (used - n) b) b) = zlen b ∧ slice 0 used b = slice 0 n b ++ slice n (used - n) b.
Proof.
  intros. assert (zlen (slice n (used - n) b) = used - n) by (apply zlen_slice; lia). split; [|split].
  - apply slice_splice_same; lia.
  - apply zlen_splice; lia.
  - rewrite <-slice_split by lia. f_equal. lia.
Qed.

Lemma handles_send_done n : handles (SendDone n).
Proof.
  intros others s x lw x1 Hinv Hlw Hocc. cbn in Hocc.
  destruct (sending x) as [d0|] eqn:Hsd; [|done].
  destruct (socks_alive x && (0 <? n) && (n <=? zlen d0)) eqn:Hc; [|done].
  injection Hocc as <-. apply andb_true_iff in Hc as [[Ha Hn]%andb_true_iff Hn'].
  destruct (inv_open _ _ _ Hinv) as (c & d & -> & [Hb Hal Hpc Hcl _] & Hp & Ho & Hf & Hr); [by right|].
  assert (Hs : socks_closed c = false) by (rewrite (b_socks _ _ Hb) in Ha; by destruct (socks_closed c)).
  pose proof (b_sending _ _ Hb Hs) as Hk. destruct (socks_up c && (0 <? buf_used c)) eqn:Hu; [|congruence].
  destruct Hk as (k & Hk & Hk'). rewrite Hsd in Hk'. injection Hk' as ->.
  apply andb_true_iff in Hu as [Hu Hpos].
  pose proof (b_used _ _ Hb). pose proof (b_buf _ _ Hb) as Hz.
  rewrite zlen_slice in Hn' by lia. zbool.
  replace (slice 0 n (slice 0 k (buf c))) with (slice 0 n (buf c))
    by (unfold slice; rewrite !zdrop_0, ztake_ztake by lia; done).
  cbn [handle]. unfold client_socks_send_handler_done. wp_c. rewrite Hs. wp_a. wp_a. wp_a; [lia|]. wp_a; [lia|].
  wp_a; [lia|]. wp_u.
  destruct (memmove_buf (buf c) n (buf_used c)) as (Hm1 & Hm2 & Hm3); [lia|lia|].
  set (used := buf_used c - n) in *.
  set (c1 := set_buf (splice 0 (slice n used (buf c)) (buf c)) used c).
  set (x1 := set_streams None (up x ++ slice 0 n (buf c)) (receiving x) (down x) x).
  pose proof (b_rx _ _ Hb Hs) as Hrx.
  assert (Hrx1 : rx x1 = up x1 ++ slice 0 used (buf c1)).
  { cbn. rewrite Hm1, <-app_assoc, <-Hm3. exact Hrx. }
  assert (Hzn : zlen (slice 0 n (buf c)) = n) by (apply zlen_slice; lia).
  assert (Hp1 : passed x1).
  { destruct Hp. split; try done; cbn; [by eexists|zlens; lia|congruence]. }
  assert (Hb1 : ∀ r sd, (if 0 <? used then sd = Some (slice 0 used (buf c1)) else sd = None) →
    base c1 (set_streams sd (up x1) (receiving x) (down x) (set_tcp (rx x) r (tx x) (acked x) x))).
  { intros r sd Hsd1. split; try apply Hb; try done; [cbn; lia|cbn; lia|].
    intros _. cbn. rewrite Hu. cbn [andb].
    destruct (0 <? used) eqn:Hn0; [|done]. exists used. split; [zbool; lia|done]. }
  assert (Hsend : ∀ y, sending y = None → socks_alive y = true → is_up y = true → 0 < used →
    react (StreamPassInterface_Sender_Send (slice 0 used (buf c1))) y =
      Some (set_streams (Some (slice 0 used (buf c1))) (up y) (receiving y) (down y) y)).
  { intros y Hy1 Hy2 Hy3 ?. cbn. rewrite Hy1, Hy2, Hy3. rewrite zlen_slice by lia.
    by replace (0 <? used) with true by lia. }
  assert (Hup : is_up x = true) by (rewrite (b_up _ _ Hb Hs); by destruct (socks_up c)).
  apply wp_bind, wp_when; intros Hc; zbool.
  - pose proof (Hpc Hc) as Hside. pose proof (p_recved _ _ Hside).
    eapply wp_emit.
    { cbn. rewrite Hal, Hc. cbn [negb]. replace (0 <? n) with true by lia.
      replace (recved x + n <=? zlen (up x ++ slice 0 n (buf c))) with true; [done|].
      symmetry. apply Z.leb_le. zlens. lia. }
    match goal with |- wp _ _ _ _ ?y => set (x2 := y) end. wp_c.
    assert (Hlast : ∀ sd, (if 0 <? used then sd = Some (slice 0 used (buf c1)) else sd = None) →
      inv others (mkState (Some c1) d (others + 1)) (set_streams sd (up x1) (receiving x) (down x) x2)).
    { intros sd Hsd1. apply inv_some; [|by destruct Hp1; split; try done; cbn in *; zlens; lia|done|done|done].
      split; [exact (Hb1 _ _ Hsd1)|done| |by cbn; rewrite Hc|by cbn; rewrite Hs].
      intros _. destruct Hside as [? ? ? ? Hd ?]. split; try done.
      - cbn. zlens. lia.
      - cbn. destruct (socks_up c); [destruct Hd as [[] ?]; split; [by split|done]|done]. }
    cbn [buf_used c1 set_buf]. zif (used >? 0).
    + eapply wp_emit; [by apply Hsend; [..|lia]|]. apply Hlast. by replace (0 <? used) with true by lia.
    + change (client_closed c1) with (client_closed c). rewrite Hc. apply wp_ret. apply (Hlast None). by replace (0 <? used) with false by lia.
  - wp_c. cbn [buf_used c1 set_buf client_closed]. zif (used >? 0).
    + eapply wp_emit; [by apply Hsend; [..|lia]|].
      apply inv_some; [|by apply (passed_set_streams x1)|done|done|done].
      split; [|done|by cbn; rewrite Hc|intros _; split; [done|cbn; lia]|by cbn; rewrite Hs].
      apply (Hb1 (recved x)). by replace (0 <? used) with true by lia.
    + change (client_closed c1) with (client_closed c). rewrite Hc. eapply wp_mono; [apply wp_free_socks|].
      * done.
      * apply (Hb1 (recved x) None). by replace (0 <? used) with false by lia.
      * done.
      * cbn. by rewrite Hc.
      * done.
      * done.
      * right. rewrite Hrx1. replace used with 0 by lia. by rewrite slice_0_len, app_nil_r.
      * done.
      * intros [] s' x' Hfin. eapply inv_finish; [|exact Hfin]. done.
Qed.

(** A client after it has written what it could. *)
Lemma open_after_write others c d x t used sent w p rb rc :
  let c' := set_recv rb used sent w p c in
  let x' := set_tcp (rx x) (recved x) t (acked x) x in
  let y := set_streams (sending x) (up x) rc (down x) x' in
  client_closed c = false → socks_up c = true → pcb_alive x = true →
  err_set x = true → recv_set x = negb (socks_closed c) → sent_set x = true → recved x = zlen (up x) →
  recv_side c' x' → base c' x' → passed x' → 0 < p → used = -1 ∨ w = true ∧ 0 < used →
  (socks_closed c = false → rc = bool_decide (used = -1)) → frame_ok d x → rest d x → 0 ≤ others →
  inv others (mkState (Some c') d (others + 1)) y.
Proof.
  intros c' x' y Hc Hu Ha H1 H2 H3 H4 [Hd Hpe Hse] Hb Hp Hpos Hused Hrc Hf Hr Ho.
  apply inv_some; [|by apply (passed_set_streams x')|done|done|done]. split.
  - apply (base_set_streams c' x'); [done|apply Hb|]. intros Hs Ht. cbn. split; [done|].
    specialize (Hrc Hs). rewrite Ht in Hrc. by case_bool_decide.
  - cbn. by rewrite Hc.
  - intros _. split; try done; cbn.
    + by rewrite Hu.
    + rewrite Hu. split; [by split|]. destruct Hused as [?|[? ?]]; [by left|by right].
    + intros Hs _. by apply Hrc.
  - cbn. by rewrite Hc.
  - cbn. intros _. split; [done|]. by right.
Qed.

Lemma handles_recv_done data : handles (RecvDone data).
Proof.
  intros others s x lw x1 Hinv Hlw Hocc. cbn in Hocc.
  destruct (socks_alive x && receiving x && (0 <? zlen data) && (zlen data <=? CLIENT_SOCKS_RECV_BUF_SIZE)) eqn:Hc; [|done].
  injection Hocc as <-. apply andb_true_iff in Hc as [[[Ha Hrc]%andb_true_iff Hn]%andb_true_iff Hn'].
  destruct (inv_open _ _ _ Hinv) as (c & d & -> & [Hb Hal Hpc Hcl _] & Hp & Ho & Hf & Hr); [by right|].
  assert (Hs : socks_closed c = false) by (rewrite (b_socks _ _ Hb) in Ha; by destruct (socks_closed c)).
  destruct (b_receiving _ _ Hb Hs Hrc) as [Hu Hused].
  set (x1 := set_streams (sending x) (up x) false (down x ++ data) x).
  assert (Hp1 : passed x1).
  { destruct Hp as [? [r Hr'] ? ? ? ?]. split; try done; cbn; [|intros [?|[? _]]%d_pcb0; [by left|congruence]].
    exists (r ++ data). by rewrite Hr', <-app_assoc. }
  cbn [handle]. unfold client_socks_recv_handler_done. wp_a; [zbool; lia|]. wp_a.
  wp_c. rewrite Hs, Hu, Hused. wp_a. wp_a. wp_a.
  destruct (client_closed c) eqn:Hc.
  { apply wp_ret, inv_some; [|done..]. split; [|by cbn; rewrite Hc|by rewrite Hc|intros _; by apply Hcl|by rewrite Hs].
    destruct Hb; split; try done. }
  pose proof (Hpc eq_refl) as [H1 H2 H3 H4 Hd _]. rewrite Hu in H3, Hd. destruct Hd as [[Hd Hpe _] _].
  cbn [negb] in Hal. pose proof (b_recv_buf _ _ Hb) as Hz. zbool.
  wp_u. set (c1 := set_recv (splice 0 data (socks_recv_buf c)) (zlen data) 0 false (socks_recv_tcp_pending c) c).
  assert (Hb1 : base c1 x1).
  { destruct Hb; split; try done. cbn. rewrite zlen_splice; [done|lia|]. unfold CLIENT_SOCKS_RECV_BUF_SIZE in *. lia. }
  assert (Hw1 : writes c1 x1).
  { split; cbn; [|done|lia|lia]. rewrite Hd. unfold waiting_bytes. rewrite Hused. cbn [Z.eqb].
    rewrite app_nil_r. f_equal. symmetry. apply slice_splice_same; lia. }
  apply wp_bind. apply (wp_send_out others); try done.
  - intros t used sent w p c' x' Hrs Hp' Hb' Hpos Hor. cbn [Z.ltb Z.compare]. wp_c.
    assert (Hdone : ∀ rc, rc = bool_decide (used = -1) →
      inv others (mkState (Some c') d (others + 1)) (set_streams (sending x1) (up x1) rc (down x1) x')).
    { intros rc Hrc1. by apply (open_after_write others c1 d x1). }
    apply wp_when; cbn [socks_recv_buf_used c' set_recv]; intros Hue; zbool.
    + apply recv_initiate; try done; [by cbn; rewrite (b_up _ _ Hb Hs)|]. apply Hdone. by rewrite bool_decide_true.
    + specialize (Hdone false). rewrite bool_decide_false in Hdone by done. by apply Hdone.
  - intros s' x' [Hfin _]. apply wp_ret. eapply inv_finish; [|exact Hfin]. done.
Qed.

(** A callback of lwIP that started while none was running. *)
Lemma core_running others s x r p : core others s x → core others s (set_running r p x).
Proof.
  intros (Hp & Ho & Hs & Hf). split; [by apply passed_running|]. split; [done|]. split; [|done].
  destruct (client s); [|done]. destruct Hs. split; [done|]. by apply open_running.
Qed.
Lemma wp_return_abort others x s' x' :
  closes others None x tt s' x' → not_null (running x) = true →
  wp react (emit (return_err ERR_ABRT)) (λ _ s x, inv others s x) s' x'.
Proof.
  intros [[Hcore (Hd & Hr & Hp)] Ha] Hk. rewrite <-Hr in Hk. destruct (running x') as [k|] eqn:Hk'; [|done].
  eapply wp_emit; [cbn; rewrite Hk', Ha; reflexivity|].
  split; [by apply core_running|]. cbn in *. by rewrite Hd.
Qed.
Lemma wp_return_ok others c x k p (Q : unit → state → env → Prop) :
  open c x → client_closed c = false → passed x → 0 ≤ others →
  (∀ y, inv others (mkState (Some c) None (others + 1)) y → Q tt (mkState (Some c) None (others + 1)) y) →
  running x = Some k → pbuf x = p → p = false →
  wp react (emit (return_err ERR_OK)) Q (mkState (Some c) None (others + 1)) x.
Proof.
  intros Hop Hc Hp Ho HQ Hk <- Hpb. eapply wp_emit.
  - cbn. rewrite Hk, (o_alive _ _ Hop), Hc, Hpb. reflexivity.
  - apply HQ, inv_some; [by apply open_running|by apply passed_running|done|done|done].
Qed.

Lemma base_set_client_ended c x b : base c x → base c (set_pcb (pcb_alive x) (err_set x) (recv_set x) (sent_set x) b x).
Proof. apply base_set_pcb. Qed.

Lemma handles_recv_end : handles (Recv None).
Proof.
  intros others s x lw x1 Hinv Hlw Hocc. cbn in Hocc.
  destruct (negb (not_null (running x)) && pcb_alive x && recv_set x) eqn:Hc; [|done].
  injection Hocc as <-. apply andb_true_iff in Hc as [[Hi Ha]%andb_true_iff _].
  destruct (inv_open _ _ _ Hinv) as (c & d & -> & [Hb Hal Hpc _ _] & Hp & Ho & Hf & Hr); [by left|].
  destruct (idle_dead _ _ Hr Hi) as (-> & Hrn & Hpb).
  rewrite Ha in Hal. assert (Hcl : client_closed c = false) by (by destruct (client_closed c)).
  cbn [handle]. unfold client_recv_func. wp_c. rewrite Hcl. wp_a. apply wp_bind. eapply wp_mono.
  - apply wp_free_client; [done|done|by apply base_set_running, base_set_pcb| |done|by left].
    by apply passed_running, passed_set_pcb.
  - intros [] s' x' Hfin. by eapply wp_return_abort.
Qed.

Lemma handles_recv p : handles (Recv (Some p)).
Proof.
  intros others s x lw x1 Hinv Hlw Hocc. cbn in Hocc.
  destruct (negb (not_null (running x)) && pcb_alive x && recv_set x) eqn:Hc; [|done].
  apply andb_true_iff in Hc as [[Hi Ha]%andb_true_iff Hset].
  destruct (inv_open _ _ _ Hinv) as (c & d & -> & [Hb Hal Hpc _ _] & Hp & Ho & Hf & Hr); [by left|].
  destruct (idle_dead _ _ Hr Hi) as (-> & Hrn & Hpb).
  rewrite Ha in Hal. assert (Hcl : client_closed c = false) by (by destruct (client_closed c)).
  pose proof (Hpc Hcl) as [H1 H2 H3 H4 Hd Hrc].
  assert (Hs : socks_closed c = false) by (rewrite Hset in H2; by destruct (socks_closed c)).
  pose proof (b_rx _ _ Hb Hs) as Hrx. pose proof (b_used _ _ Hb). pose proof (b_buf _ _ Hb) as Hz.
  pose proof (b_sending _ _ Hb Hs) as Hsd.
  destruct ((0 <? zlen p) && (zlen (rx x) + zlen p - recved x <=? TCP_WND)) eqn:Hw; [|done].
  injection Hocc as <-. apply andb_true_iff in Hw as [Hpos Hw]. zbool.
  assert (zlen (rx x) = zlen (up x) + buf_used c).
  { rewrite Hrx. zlens. rewrite zlen_slice by lia. lia. }
  cbn [handle]. unfold client_recv_func. wp_c. rewrite Hcl. wp_a. wp_a; [lia|].
  zif (zlen p >? TCP_WND - buf_used c); [lia|]. wp_u.
  set (c1 := set_buf (splice (buf_used c) p (buf c)) (buf_used c + zlen p) c).
  match goal with |- wp _ _ _ _ ?y => set (x2 := y) end.
  assert (Hbuf1 : zlen (buf c1) = TCP_WND) by (cbn; rewrite zlen_splice; lia).
  assert (Hslice : ∀ k, 0 ≤ k ≤ buf_used c → slice 0 k (buf c1) = slice 0 k (buf c)).
  { intros k Hk. cbn. apply slice_splice_before; lia. }
  assert (Hp2 : passed x2).
  { destruct Hp as [[r Hr'] ? ? ? ? ?]. split; try done; cbn; [|rewrite (b_socks _ _ Hb), Hs; done].
    exists (r ++ p). by rewrite Hr', <-app_assoc. }
  assert (Hrx2 : rx x2 = up x2 ++ slice 0 (buf_used c1) (buf c1)).
  { cbn. rewrite Hrx, <-app_assoc. f_equal. rewrite slice_split by lia.
    rewrite slice_splice_before, (slice_splice_same (0 + buf_used c)) by lia. done. }
  assert (Hop : ∀ sd, (if socks_up c && (0 <? buf_used c1)
      then ∃ k, 0 < k ≤ buf_used c1 ∧ sd = Some (slice 0 k (buf c1)) else sd = None) →
    open c1 (set_streams sd (up x) (receiving x) (down x) x2)).
  { intros sd Hsd1. split; [|by cbn; rewrite Ha, Hcl|intros _|by cbn; rewrite Hcl|by cbn; rewrite Hs].
    - destruct Hb; split; try done. cbn; lia.
    - split; try done. cbn. destruct (socks_up c); [destruct Hd as [[] ?]; split; [by split|done]|done]. }
  assert (Hx2 : x2 = set_streams (sending x) (up x) (receiving x) (down x) x2) by done.
  cbn [andb]. destruct ((buf_used c + zlen p =? zlen p) && socks_up c) eqn:Hsend.
  - apply andb_true_iff in Hsend as [Hz0 Hu]. zbool. wp_a; [by cbn; rewrite Hs|].
    assert (Hn0 : buf_used c = 0) by lia. rewrite Hn0, andb_false_r in Hsd.
    apply wp_bind, send_to_socks_up; try done; [rewrite Hbuf1; cbn [c1 buf_used set_buf]; lia|by cbn; rewrite (b_socks _ _ Hb), Hs|
      by cbn; rewrite (b_up _ _ Hb Hs)|].
    apply wp_modify. apply inv_some; [apply Hop|by apply passed_set_streams|done| |done].
    + rewrite Hu. cbn [andb]. replace (0 <? buf_used c1) with true by (cbn; lia).
      exists (buf_used c1). split; [cbn; lia|done].
    + intros k killed [= <- <-]. cbn. by rewrite Ha.
  - apply wp_bind. eapply wp_emit; [reflexivity|].
    assert (Hop' : open c1 x2).
    { rewrite Hx2. apply Hop. destruct (socks_up c); [|done]. cbn [andb] in *.
      rewrite andb_true_r in Hsend. zbool. cbn [buf_used c1 set_buf].
      replace (0 <? buf_used c + zlen p) with true by lia.
      replace (0 <? buf_used c) with true in Hsd by lia. destruct Hsd as (k & ? & Hk).
      exists k. split; [lia|]. by rewrite Hslice by lia. }
    eapply wp_return_ok; [by apply open_running|done|by apply passed_running|done|done|done|done|done].
Qed.

Lemma inv_is_open others c d n x : inv others (mkState (Some c) d n) x → open c x ∧ passed x.
Proof. intros [(? & _ & [_ ?] & _) _]. done. Qed.
Lemma set_streams_id x : set_streams (sending x) (up x) (receiving x) (down x) x = x.
Proof. by destruct x. Qed.

Lemma handles_sent len : handles (Sent len).
Proof.
  intros others s x lw x1 Hinv Hlw Hocc. cbn in Hocc.
  destruct (negb (not_null (running x)) && pcb_alive x && sent_set x && (0 <? len) && (acked x + len <=? zlen (tx x))) eqn:Hc; [|done].
  injection Hocc as <-. apply andb_true_iff in Hc as [[[[Hi Ha]%andb_true_iff Hset]%andb_true_iff Hpos]%andb_true_iff Hack].
  destruct (inv_open _ _ _ Hinv) as (c & d & -> & [Hb Hal Hpc _ Hos] & Hp & Ho & Hf & Hr); [by left|].
  destruct (idle_dead _ _ Hr Hi) as (-> & Hrn & Hpb).
  rewrite Ha in Hal. assert (Hcl : client_closed c = false) by (by destruct (client_closed c)).
  pose proof (Hpc Hcl) as [H1 H2 H3 H4 Hd Hrc]. rewrite Hset in H3. symmetry in H3. rewrite H3 in Hd.
  destruct Hd as [[Hdn Hpe Hse] Hwait]. pose proof (d_acked _ Hp). zbool.
  cbn [handle]. unfold client_sent_func. wp_c. rewrite Hcl, H3. wp_a. wp_a. wp_a; [lia|]. wp_a; [lia|]. wp_u.
  match goal with |- wp _ _ _ _ ?y => set (x2 := y) end.
  assert (Hp2 : passed x2).
  { apply passed_running, passed_set_tcp; [done|done|apply Hp|lia]. }
  assert (Hb2 : ∀ w p, base (set_recv (socks_recv_buf c) (socks_recv_buf_used c) (socks_recv_buf_sent c) w p c) x2).
  { intros w p. apply base_set_running, base_set_recv; [done|apply Hb|].
    intros Hs Hr'. by apply (b_receiving _ _ Hb). }
  assert (Habort : ∀ s' x', closes others None x2 tt s' x' →
    wp react (emit (return_err ERR_ABRT)) (λ _ s x, inv others s x) s' x').
  { intros s' x' Hfin. by eapply wp_return_abort. }
  cbn [socks_recv_buf_used set_recv]. zif (socks_recv_buf_used c >? 0).
  - destruct Hse as [?|[Hse Hsz]]; [lia|]. destruct Hwait as [?|[Hwait _]]; [lia|].
    cbn [socks_recv_buf_sent socks_recv_waiting set_recv]. wp_a. wp_a; [lia|]. wp_u.
    set (c2 := set_recv (socks_recv_buf c) (socks_recv_buf_used c) (socks_recv_buf_sent c) false
      (socks_recv_tcp_pending c - len) c).
    change (set_recv (socks_recv_buf c) (socks_recv_buf_used c) (socks_recv_buf_sent c) false
      (socks_recv_tcp_pending c - len) (set_recv _ _ _ _ _ c)) with c2.
    assert (Hw2 : writes c2 x2).
    { split; cbn; [|lia|lia|lia]. rewrite Hdn. unfold waiting_bytes.
      by replace (socks_recv_buf_used c =? -1) with false by lia. }
    assert (Hrc2 : socks_closed c = false → receiving x = false).
    { intros Hs. rewrite (Hrc Hs H3). apply bool_decide_false. lia. }
    apply wp_bind. apply (wp_send_out others); try done; [by apply Hb2|cbn; lia|].
    intros t used sent w p c' x' Hrs Hp' Hb' Hpos' Hor. cbn [Z.ltb Z.compare]. wp_c.
    wp_a; [cbn; lia|].
    assert (Hdone : ∀ rc, (socks_closed c = false → rc = bool_decide (used = -1)) →
      inv others (mkState (Some c') (Some (in_sent, false)) (others + 1))
        (set_streams (sending x2) (up x2) rc (down x2) x')).
    { intros rc Hrc1. apply (open_after_write others c2 _ x2); try done.
      intros k killed [= <- <-]. cbn. by rewrite Ha. }
    cbn [socks_recv_buf_used socks_closed c' c2 set_recv].
    destruct ((used =? -1) && negb (socks_closed c)) eqn:Hagain.
    + apply andb_true_iff in Hagain as [? Hs]. zbool. apply wp_bind.
      apply recv_initiate; try done; [by cbn; rewrite (b_socks _ _ Hb), Hs|
        by cbn; rewrite (b_up _ _ Hb Hs)|by apply Hrc2|].
      apply wp_modify. apply Hdone. intros _. by rewrite bool_decide_true.
    + destruct (inv_is_open others c' (Some (in_sent, false)) (others + 1) x') as [Hop Hpa].
      { change x' with (set_streams (sending x2) (up x2) (receiving x) (down x2) x'). apply Hdone.
        intros Hs. rewrite Hs, andb_true_r in Hagain. rewrite (Hrc2 Hs). zbool. by rewrite bool_decide_false. }
      by eapply wp_return_ok.
  - assert (Hu : socks_recv_buf_used c = -1) by (destruct Hse; lia).
    unfold waiting_bytes in Hdn. rewrite Hu in Hdn. cbn [Z.eqb] in Hdn. rewrite app_nil_r in Hdn.
    destruct (socks_closed c && (socks_recv_tcp_pending c - len =? 0)) eqn:Hend.
    + apply andb_true_iff in Hend as [Hs ?]. zbool. apply wp_bind. eapply wp_mono.
      * apply wp_free_client; [done|done|by apply Hb2|done|done|]. right. split; [done|]. cbn. split; [done|lia].
      * intros [] s' x' Hfin. by apply Habort.
    + eapply wp_return_ok; try done. split; [by apply Hb2|by cbn; rewrite Ha, Hcl|intros _|by cbn; rewrite Hcl|].
      * split; try done; cbn; rewrite H3; [done|]. split; [|by left].
        split; [|cbn; lia|by left]. unfold waiting_bytes. cbn. by rewrite Hu, app_nil_r.
      * cbn. intros Hs. rewrite Hs in Hend. cbn [andb] in Hend. zbool. split; [done|]. right. lia.
Qed.

(** A callback goes on after the jobs it started have run. *)
Lemma wp_leave k killed c n x (Q : bool → state → env → Prop) :
  Q killed (mkState c None n) x → wp react (leave k) Q (mkState c (Some (k, killed)) n) x.
Proof.
  intros HQ. unfold leave. apply wp_bind, wp_get. cbn. apply wp_bind, wp_assert.
  { by rewrite bool_decide_true. }
  by apply wp_bind, wp_put, wp_ret.
Qed.
Lemma returned others s k killed x :
  inv others s x → dead_client s = Some (k, killed) →
  killed = negb (pcb_alive x) ∧ running x = Some k ∧ pbuf x = bool_decide (k = in_recv) ∧
  inv others (mkState (client s) None (num_clients s)) (set_running None false x).
Proof.
  intros [(Hp & Ho & Hs & Hf) [Hr Hpb]] Hd. rewrite Hd in Hr. cbn in Hr. rewrite Hr in Hpb.
  split; [by apply (Hf k)|]. split; [done|]. split.
  { rewrite Hpb. apply bool_decide_ext. split; congruence. }
  split; [|done]. split; [by apply passed_running|]. split; [done|]. split; [|done]. cbn.
  destruct (client s); [|done]. destruct Hs. split; [done|]. by apply open_running.
Qed.

Lemma set_running_again r p q x : set_running r p (set_running (running x) q x) = set_running r p x.
Proof. unfold set_running. cbn. by rewrite (bool_decide_true (running x = _)), andb_true_r. Qed.

Lemma handles_resume : handles Resume.
Proof.
  intros others s x lw x1 Hinv Hlw Hocc. cbn in Hocc.
  assert (x1 = x) as -> by (destruct (negb _) in Hocc; congruence).
  destruct (dead_client s) as [[k killed]|] eqn:Hd.
  2:{ destruct Hinv as [_ [Hr _]]. rewrite Hd in Hr. by rewrite Hr in Hocc. }
  destruct (returned _ _ _ _ _ Hinv Hd) as (-> & Hr & Hp & Hinv'). destruct s as [c d n]. cbn in Hd. subst d.
  cbn [handle]. apply wp_bind, wp_get. cbn [dead_client client num_clients] in *.
  assert (Hret : ∀ y, running y = Some k → pbuf y = false → pcb_alive y = pcb_alive x →
    set_running None false y = set_running None false x →
    wp react (emit (return_err (if negb (pcb_alive x) then ERR_ABRT else ERR_OK)))
      (λ _ s' x', inv others s' x') (mkState c None n) y).
  { intros y H1 H2 H3 H4. eapply wp_emit.
    - cbn. rewrite H1, H2, H3, H4. destruct (pcb_alive x); reflexivity.
    - done. }
  destruct k; cbn in Hp.
  - apply wp_bind, wp_leave. by apply Hret.
  - apply wp_bind, wp_leave. destruct (pcb_alive x) eqn:Ha; cbn [negb] in *.
    + apply wp_bind. eapply wp_emit; [cbn; rewrite Hp; reflexivity|]. apply Hret; [done..|].
      apply set_running_again.
    + eapply wp_emit; [cbn; rewrite Hr, Ha; reflexivity|]. done.
  - apply wp_bind, wp_leave. by apply Hret.
Qed.

Lemma handles_accept newpcb mem init buf0 recv0 used0 sent0 pending0 waiting0 :
  handles (Accept newpcb mem init buf0 recv0 used0 sent0 pending0 waiting0).
Proof.
  intros others s x lw x1 Hinv Hlw Hocc. cbn in Hocc.
  destruct (negb (not_null (running x)) && negb (pcb_alive x) && negb (socks_alive x)
    && (zlen buf0 =? TCP_WND) && (zlen recv0 =? CLIENT_SOCKS_RECV_BUF_SIZE)) eqn:Hc; [|done].
  injection Hocc as <-.
  apply andb_true_iff in Hc as [[[[Hi Ha]%andb_true_iff Hs]%andb_true_iff Hb]%andb_true_iff Hr]. zbool.
  destruct Hinv as [(_ & Ho & Hcl & _) [Hrun _]]. destruct s as [c d n].
  assert (d = None) as ->. { destruct d; [|done]. cbn in Hrun. by rewrite Hrun in Hi. }
  assert (c = None ∧ n = others) as [-> ->].
  { destruct c as [c|]; cbn in Hcl; [|by destruct Hcl]. destruct Hcl as [_ [Hbase Hal _ Hc _]].
    rewrite Ha in Hal. destruct (client_closed c); [|done]. destruct (Hc eq_refl) as [Hsc _].
    rewrite (b_socks _ _ Hbase), Hsc in Hs. done. }
  cbn [handle]. unfold listener_accept_func.
  assert (Hfail : ∀ Q : unit → state → env → Prop,
    (∀ s' x', inv others s' x' → Q tt s' x') →
    wp react (emit (return_err ERR_MEM)) Q (mkState None None others)
      (mkEnv true false false false (Some in_accept) false false [] 0 [] 0 false false false None false [] [] false)).
  { intros Q HQ. eapply wp_emit; [reflexivity|]. apply HQ. split; [|done]. split; [|done].
    split; try done; cbn; [by exists []|by exists []|by left|by right]. }
  wp_e; [reflexivity|]. destruct mem; cbn [negb]; [|by apply Hfail].
  wp_e; [reflexivity|]. destruct init; cbn [negb]; [|by apply Hfail].
  apply wp_bind, wp_get. cbn [num_clients]. wp_a; [lia|]. apply wp_bind, wp_put.
  wp_e; [reflexivity|]. wp_e; [reflexivity|]. wp_e; [reflexivity|]. wp_e; [reflexivity|]. apply wp_modify.
  apply inv_some; [| |done|by intros k killed [= <- <-]|done].
  - split; [split|..]; try done.
  - split; try done; cbn; by exists [].
Qed.

Lemma handles_socks ev : handles (Socks ev).
Proof.
  intros others s x lw x1 Hinv Hlw Hocc. cbn in Hocc.
  destruct (socks_alive x) eqn:Ha; [|done].
  destruct (inv_open _ _ _ Hinv) as (c & d & -> & Hop & Hp & Ho & Hf & Hr); [by right|].
  pose proof (o_base _ _ Hop) as Hb.
  assert (Hs : socks_closed c = false) by (rewrite (b_socks _ _ Hb) in Ha; by destruct (socks_closed c)).
  pose proof (b_up _ _ Hb Hs) as Hup. cbn [andb handle] in *.
  destruct ev.
  - injection Hocc as <-. unfold client_socks_handler. wp_c. rewrite Hs. wp_a. by apply handles_socks_end.
  - destruct (is_up x) eqn:Hu; [done|]. injection Hocc as <-. by apply handles_socks_up.
  - destruct (is_up x) eqn:Hu; [|done]. injection Hocc as <-. unfold client_socks_handler. wp_c.
    rewrite Hs, <-Hup. wp_a. wp_a.
    pose proof (handles_socks_end others c d x lw) as Hend. rewrite Hu in Hend. by apply Hend.
Qed.

Lemma handles_all i : handles i.
Proof.
  destruct i as [|  |[p|]| | | | | |].
  - apply handles_accept.
  - apply handles_err.
  - apply handles_recv.
  - apply handles_recv_end.
  - apply handles_sent.
  - apply handles_resume.
  - apply handles_socks.
  - apply handles_send_done.
  - apply handles_recv_done.
  - apply handles_murder.
Qed.

Lemma reachable_inv others s x : 0 ≤ others → reachable others s x → inv others s x.
Proof.
  intros Ho. induction 1 as [|s x i lw x1 s' es x' _ IH Hlw Hocc Hh Hr].
  - split; [|done]. split; [|done]. split; try done; cbn; [by exists []|by exists []|by right|by right].
  - destruct (handles_all i others s x lw x1 IH Hlw Hocc) as (a & s2 & es2 & x2 & Hh2 & Hr2 & Hinv).
    rewrite Hh in Hh2. injection Hh2 as <- <- <-. rewrite Hr in Hr2. by injection Hr2 as <-.
Qed.

(** ** The stricter contract

    An aborted connection is gone, and only [client_recv_func] owns a pbuf: from that, a
    run under [react] is one under [react_strict], but for one return value at most. *)

Record tidy (x : env) : Prop := {
  t_aborted : aborted x = true → pcb_alive x = false;
  t_pbuf : pbuf x = true → running x = Some in_recv;
}.
(** a callback of a connection that was closed and not aborted, or that leaves its pbuf *)
Definition lax_abort (x : env) : Prop :=
  pcb_alive x = false ∧
  ((∃ k, running x = Some k) ∧ aborted x = false ∨ running x = Some in_recv ∧ pbuf x = true).

Ltac react_cases :=
  repeat match goal with
  | H : context [match ?b with _ => _ end] |- _ => destruct b eqn:?; try discriminate H
  end.
Lemma react_tidy c x x' : react c x = Some x' → tidy x → tidy x'.
Proof.
  intros Hr [Ha Hp]. unfold react in Hr. react_cases; injection Hr as <-;
    split; cbn; rewrite ?andb_true_iff; intuition congruence.
Qed.
Lemma occurs_tidy i x x1 : occurs i x = Some x1 → tidy x → tidy x1.
Proof.
  intros Hr [Ha Hp]. destruct i; unfold occurs in Hr; react_cases; injection Hr as <-;
    split; cbn; rewrite ?andb_true_iff, ?bool_decide_eq_true in *; try intuition congruence.
Qed.
Lemma reacts_tidy es x x' : reacts react es x = Some x' → tidy x → tidy x'.
Proof.
  revert x. induction es as [|c es IH]; intros x; cbn; [by intros [= <-]|].
  destruct (react c x) as [y|] eqn:Hy; [|done]. intros Hr Ht. apply (IH y); [done|]. by eapply react_tidy.
Qed.
Lemma reachable_tidy others s x : reachable others s x → tidy x.
Proof.
  induction 1 as [|s x i lw x1 s' es x' _ IH _ Hocc _ Hr]; [done|].
  eapply reacts_tidy, occurs_tidy; done.
Qed.

Lemma react_strict_idle c x x' :
  react c x = Some x' → running x = None → react_strict c x = Some x' ∧ running x' = None.
Proof.
  intros Hr Hn. unfold react_strict. split.
  - destruct c; try done. cbn in Hr. by rewrite Hn in Hr.
  - unfold react in Hr. react_cases; by injection Hr as <-.
Qed.
Lemma reacts_strict_idle es x x' :
  reacts react es x = Some x' → running x = None → reacts react_strict es x = Some x'.
Proof.
  revert x. induction es as [|c es IH]; intros x; cbn; [done|].
  destruct (react c x) as [y|] eqn:Hy; [|done]. intros Hr Hn.
  destruct (react_strict_idle _ _ _ Hy Hn) as [-> ?]. by apply IH.
Qed.
Lemma react_strict_or c x x' :
  react c x = Some x' → tidy x →
  react_strict c x = Some x' ∨ c = return_err ERR_ABRT ∧ lax_abort x ∧ running x' = None.
Proof.
  intros Hr [Ha Hp]. unfold react_strict. destruct (strict c x) eqn:Hs; [by left|].
  destruct c; try done. cbn in Hr. destruct (running x) as [k|] eqn:Hk; [|done].
  destruct err; cbn in Hs; react_cases; rewrite ?negb_false_iff, ?andb_true_iff in *; try intuition congruence.
  right. split; [done|]. injection Hr as <-. split; [|done]. split; [done|].
  apply andb_false_iff in Hs as [?|Hs%negb_false_iff]; [left; eauto|right].
  rewrite Hk. auto.
Qed.
Lemma reacts_strict es x x' :
  reacts react es x = Some x' → tidy x →
  reacts react_strict es x = Some x' ∨
  ∃ es0 y es1, es = es0 ++ return_err ERR_ABRT :: es1 ∧ reacts react_strict es0 x = Some y ∧ lax_abort y ∧
    reacts react_strict es1 (set_running None false y) = Some x'.
Proof.
  revert x. induction es as [|c es IH]; intros x; cbn [reacts]; [by left|].
  destruct (react c x) as [y|] eqn:Hy; [|done]. cbn [mbind option_bind]. intros Hr Ht.
  destruct (react_strict_or _ _ _ Hy Ht) as [Hs|(-> & Hl & Hn)].
  - rewrite Hs. cbn. destruct (IH y Hr) as [?|(es0 & z & es1 & -> & ? & ?)]; [by eapply react_tidy|by left|].
    right. exists (c :: es0), z, es1. split; [done|]. cbn. by rewrite Hs.
  - right. exists [], x, es. split; [done|]. split; [done|]. split; [done|].
    cbn in Hy. destruct (running x); [|done]. destruct (pcb_alive x); [done|].
    injection Hy as <-. by apply reacts_strict_idle.
Qed.

(** ** Runs *)

Fixpoint runs (lw : lwip) (ins : list input) (s : state) (x : env) : option (state * env) :=
  match ins with
  | [] => Some (s, x)
  | i :: ins =>
      match occurs i x with
      | None => None
      | Some x1 =>
          match handle i lw s with
          | None => None
          | Some (_, s', es) =>
              match reacts react es x1 with
              | None => None
              | Some x' => runs lw ins s' x'
              end
          end
      end
  end.
Lemma runs_reachable others lw ins s x s' x' :
  lwip_ok lw → reachable others s x → runs lw ins s x = Some (s', x') → reachable others s' x'.
Proof.
  intros Hlw. revert s x. induction ins as [|i ins IH]; intros s x Hr; cbn; [by intros [= <- <-]|].
  destruct (occurs i x) as [x1|] eqn:Ho; [|done].
  destruct (handle i lw s) as [[[[] s1] es]|] eqn:Hh; [|done].
  destruct (reacts react es x1) as [x2|] eqn:He; [|done]. apply IH. by eapply reachable_step.
Qed.

(** lwIP takes everything; the state at the end of a run *)
Definition lwip_easy : lwip := mkLwip (λ _, 1000) (λ _, ERR_OK) ERR_OK ERR_OK.
Definition final_state (ins : list input) : state :=
  from_option fst (mkState None None 0) (runs lwip_easy ins (mkState None None 0) env0).
Definition final_env (ins : list input) : env :=
  from_option snd env0 (runs lwip_easy ins (mkState None None 0) env0).
Lemma final_reachable ins :
  not_null (runs lwip_easy ins (mkState None None 0) env0) = true → reachable 0 (final_state ins) (final_env ins).
Proof.
  unfold final_state, final_env. destruct (runs _ ins _ env0) as [[s x]|] eqn:Hr; [intros _|done].
  eapply runs_reachable; [|apply reachable_start|exact Hr]. intros k. cbn. unfold UINT16_MAX. lia.
Qed.
Lemma occurs_some i x : not_null (occurs i x) = true → ∃ x1, occurs i x = Some x1.
Proof. destruct (occurs i x); [by eexists|done]. Qed.
Definition accept_example : input :=
  Accept {| is_ipv6 := false; local_ip := [10; 0; 0; 1]; local_port := 80; remote_ip := [10; 0; 0; 2];
            remote_port := 5000 |} true true (repeat 0 65535) (repeat 0 8192) 7 7 7 true.
(** The device sends 3 bytes before the connection is up, and closes the connection. *)
Definition example_up : list input := [accept_example; Resume; Recv (Some [1; 2; 3]); Socks BSOCKSCLIENT_EVENT_UP].

(** C17: In every state that a client can reach, for everything lwIP and the SOCKS
    connection may do next, with any answers of lwIP, the handler fails no assertion,
    touches no freed client, and asks lwIP and the SOCKS connection only what they allow:
    no use of a closed connection, no callback after it is closed, no send or receive
    while one is under way, no byte acknowledged early or twice.  There is one exception,
    which lwIP's documentation forbids: a callback may return [ERR_ABRT] after the
    connection was closed with [tcp_close] instead of [tcp_abort], and [client_recv_func]
    may return it without freeing its pbuf; even then the connection is gone, and the calls
    before and after keep the stricter rules. *)
Theorem tcp_client_safe others s x i lw x1 :
  0 ≤ others → reachable others s x → lwip_ok lw → occurs i x = Some x1 →
  ∃ s' es x', handle i lw s = Some (tt, s', es) ∧ reacts react es x1 = Some x' ∧ reachable others s' x' ∧
    (reacts react_strict es x1 = Some x' ∨
     ∃ es0 y es1, es = es0 ++ return_err ERR_ABRT :: es1 ∧ reacts react_strict es0 x1 = Some y ∧
       lax_abort y ∧ reacts react_strict es1 (set_running None false y) = Some x').
Proof.
  intros Ho Hr Hlw Hocc.
  destruct (handles_all i others s x lw x1 (reachable_inv _ _ _ Ho Hr) Hlw Hocc) as ([] & s' & es & x' & Hh & He & _).
  exists s', es, x'. split; [done|]. split; [done|]. split; [by eapply reachable_step|].
  apply reacts_strict; [done|]. by eapply occurs_tidy, reachable_tidy.
Qed.
Example tcp_client_safe_witness :
  ∃ s' es x', handle (Recv None) lwip_easy (final_state example_up) = Some (tt, s', es) ∧ reachable 0 s' x'.
Proof.
  destruct (occurs_some (Recv None) (final_env example_up)) as [x1 Hx1]; [vm_compute; reflexivity|].
  destruct (tcp_client_safe 0 (final_state example_up) (final_env example_up) (Recv None) lwip_easy x1)
    as (s' & es & x' & ? & _ & ? & _).
  - lia.
  - apply final_reachable. vm_compute. reflexivity.
  - intros k. cbn. unfold UINT16_MAX. lia.
  - exact Hx1.
  - exists s', es, x'. split; assumption.
Defined.

(** The exception: the device closes the connection while data is being sent, lwIP closes
    it without an error, and the callback returns [ERR_ABRT]. *)
Example closed_not_aborted :
  match occurs (Recv None) (final_env example_up), handle (Recv None) lwip_easy (final_state example_up) with
  | Some x1, Some (_, _, es) => not_null (reacts react es x1) = true ∧ not_null (reacts react_strict es x1) = false
  | _, _ => False
  end.
Proof. vm_compute. done. Qed.


(** C19: A client never waits for nothing.  Data of the device is being sent once the
    SOCKS connection is up; data from the SOCKS connection is being received, or there is
    data that lwIP has yet to confirm and will call the client for.  A client without the
    device still sends; a client without the SOCKS connection still waits for
    confirmation. *)
Theorem tcp_client_waits others s x c :
  0 ≤ others → reachable others s x → client s = Some c →
  pcb_alive x = negb (client_closed c) ∧ socks_alive x = negb (socks_closed c) ∧
  (client_closed c = true → socks_closed c = false ∧ 0 < buf_used c) ∧
  (socks_closed c = true → pcb_alive x = true ∧ sent_set x = true ∧ acked x < zlen (tx x)) ∧
  (socks_closed c = false → socks_up c = true →
    (0 < buf_used c → sending x ≠ None) ∧
    (client_closed c = false →
      receiving x = true ∨ waiting_bytes c ≠ [] ∧ sent_set x = true ∧ acked x < zlen (tx x))).
Proof.
  intros Ho Hr%reachable_inv Hc; [|done]. destruct Hr as [(Hp & _ & Hs & _) _]. rewrite Hc in Hs.
  destruct Hs as [_ [Hb Ha Hside Hcl Hso]]. split; [done|]. split; [apply Hb|]. split; [done|]. split.
  - intros Hs. destruct (Hso Hs) as [Hu Hw].
    assert (Hcc : client_closed c = false) by (destruct (client_closed c); [destruct Hcl; congruence|done]).
    destruct (Hside Hcc) as [? ? Ht ? Hd ?]. rewrite Hu in Hd. destruct Hd as [[? Hpe Hse] Hd].
    rewrite Ha, Hcc, Ht. split; [done|]. split; [done|]. destruct Hd as [?|[? ?]]; lia.
  - intros Hs Hu. split.
    + intros Hn. pose proof (b_sending _ _ Hb Hs) as Hsd. rewrite Hu in Hsd.
      replace (0 <? buf_used c) with true in Hsd by lia. destruct Hsd as (? & ? & ->). done.
    + intros Hcc. destruct (Hside Hcc) as [? ? Ht ? Hd Hrc]. rewrite Hu in Hd. destruct Hd as [[? Hpe Hse] Hd].
      rewrite Hrc, Ht by done. destruct (decide (socks_recv_buf_used c = -1)) as [He|He].
      * left. by rewrite bool_decide_true.
      * right. destruct Hse as [?|[? ?]]; [lia|]. destruct Hd as [?|[? ?]]; [lia|]. split; [|split; [done|lia]].
        intros Hnil. apply (f_equal zlen) in Hnil. unfold waiting_bytes in Hnil.
        replace (socks_recv_buf_used c =? -1) with false in Hnil by lia.
        pose proof (b_recv_buf _ _ Hb). rewrite zlen_slice in Hnil by lia. change (zlen (@nil Z)) with 0 in Hnil. lia.
Qed.
Example tcp_client_waits_witness : sending (final_env example_up) ≠ None.
Proof.
  destruct (client (final_state example_up)) as [c|] eqn:Hc.
  - assert (Hs : (λ c, (socks_closed c, socks_up c, buf_used c)) <$> client (final_state example_up) =
        Some (false, true, 3)) by (vm_compute; reflexivity).
    rewrite Hc in Hs. injection Hs as Hs1 Hs2 Hs3.
    destruct (tcp_client_waits 0 (final_state example_up) (final_env example_up) c)
      as (_ & _ & _ & _ & Hw).
    + lia.
    + apply final_reachable. vm_compute. reflexivity.
    + exact Hc.
    + destruct (Hw Hs1 Hs2) as [Hsend _]. apply Hsend. lia.
  - assert (Hs : not_null (client (final_state example_up)) = true) by (vm_compute; reflexivity).
    rewrite Hc in Hs. discriminate.
Defined.

(** A client that is killed while [client_recv_func] waits for the jobs it started:
    the callback returns [ERR_ABRT] and frees no pbuf, although the pbuf is its own. *)
Theorem recv_abort_keeps_pbuf others s x lw :
  0 ≤ others → reachable others s x → dead_client s = Some (in_recv, true) →
  pbuf x = true ∧ ∃ s', handle Resume lw s = Some (tt, s', [return_err ERR_ABRT]).
Proof.
  intros Ho Hr%reachable_inv Hd; [|done]. destruct (returned _ _ _ _ _ Hr Hd) as (_ & _ & Hp & _).
  rewrite bool_decide_true in Hp by done. split; [done|]. destruct s as [c d n]. cbn in Hd. subst d.
  by eexists.
Qed.
(** the SOCKS connection is closed while data is being sent *)
Definition example_killed : list input :=
  [accept_example; Resume; Socks BSOCKSCLIENT_EVENT_UP; Recv (Some [1; 2; 3]);
   Socks BSOCKSCLIENT_EVENT_ERROR_CLOSED].
Example recv_abort_keeps_pbuf_witness :
  dead_client (final_state example_killed) = Some (in_recv, true) ∧ pbuf (final_env example_killed) = true.
Proof.
  assert (Hd : dead_client (final_state example_killed) = Some (in_recv, true)) by (vm_compute; reflexivity).
  split; [exact Hd|].
  destruct (recv_abort_keeps_pbuf 0 (final_state example_killed) (final_env example_killed) lwip_easy)
    as [Hp _]; [lia| |exact Hd|exact Hp].
  apply final_reachable. vm_compute. reflexivity.
Defined.
