(* ===== verification/IpProto.v ===== *)
(** * IP and UDP packets

    [misc/ipv4_proto.h], [misc/ipv6_proto.h] and [misc/udp_proto.h]: the headers, the
    checksums and the checks of a received packet.

    A header is a record of the fields with the values they have in memory; [_bytes] is
    the packed structure.  A pointer with a length is the list of the bytes it may be
    used for; an access outside of it is [None], and so is an assertion that fails. *)

From S2P Require Import Prelude CInt.

Definition IPV4_PROTOCOL_UDP : Z := 17.
Definition IPV6_NEXT_UDP : Z := 17.

(** [n] bytes at offset [o] *)
Definition rd (o n : Z) (l : bytes) : option bytes :=
  if (0 <=? o) && (0 <=? n) && (o + n <=? zlen l) then Some (slice o n l) else None.
Definition byte_at (o : Z) (l : bytes) : Z := le_val (slice o 1 l).

Record ipv4_header := mkIpv4 {
  version4_ihl4 : Z; ds : Z; total_length : Z;
  identification : Z; flags3_fragmentoffset13 : Z;
  ttl : Z; protocol : Z; ip_checksum : Z;
  source_address : Z;
  destination_address : Z;
}.
Definition ipv4_bytes (h : ipv4_header) : bytes :=
  le_bytes 1 (version4_ihl4 h) ++ le_bytes 1 (ds h) ++ le_bytes 2 (total_length h) ++
  le_bytes 2 (identification h) ++ le_bytes 2 (flags3_fragmentoffset13 h) ++
  le_bytes 1 (ttl h) ++ le_bytes 1 (protocol h) ++ le_bytes 2 (ip_checksum h) ++
  le_bytes 4 (source_address h) ++ le_bytes 4 (destination_address h).
(** [memcpy(&header, l, sizeof(header))] *)
Definition ipv4_of (l : bytes) : ipv4_header :=
  mkIpv4 (byte_at 0 l) (byte_at 1 l) (read_le16 2 l) (read_le16 4 l) (read_le16 6 l)
    (byte_at 8 l) (byte_at 9 l) (read_le16 10 l) (le_val (slice 12 4 l)) (le_val (slice 16 4 l)).
Definition set_ip_checksum (c : Z) (h : ipv4_header) : ipv4_header :=
  mkIpv4 (version4_ihl4 h) (ds h) (total_length h) (identification h) (flags3_fragmentoffset13 h)
    (ttl h) (protocol h) c (source_address h) (destination_address h).
Definition set_ip_addresses (src dst : Z) (h : ipv4_header) : ipv4_header :=
  mkIpv4 (version4_ihl4 h) (ds h) (total_length h) (identification h) (flags3_fragmentoffset13 h)
    (ttl h) (protocol h) (ip_checksum h) src dst.

Definition IPV4_GET_VERSION (h : ipv4_header) : Z := Z.shiftr (Z.land (version4_ihl4 h) 0xF0) 4.
Definition IPV4_GET_IHL (h : ipv4_header) : Z := Z.shiftr (Z.land (version4_ihl4 h) 0x0F) 0.
Definition IPV4_MAKE_VERSION_IHL (size : Z) : Z := size / 4 + Z.shiftl 4 4.

Record ipv6_header := mkIpv6 {
  version4_tc4 : Z; tc4_fl4 : Z; fl : Z;
  payload_length : Z; next_header : Z; hop_limit : Z;
  source_address6 : bytes;
  destination_address6 : bytes;
}.
Definition ipv6_bytes (h : ipv6_header) : bytes :=
  le_bytes 1 (version4_tc4 h) ++ le_bytes 1 (tc4_fl4 h) ++ le_bytes 2 (fl h) ++
  le_bytes 2 (payload_length h) ++ le_bytes 1 (next_header h) ++ le_bytes 1 (hop_limit h) ++
  source_address6 h ++ destination_address6 h.
Definition ipv6_of (l : bytes) : ipv6_header :=
  mkIpv6 (byte_at 0 l) (byte_at 1 l) (read_le16 2 l) (read_le16 4 l) (byte_at 6 l) (byte_at 7 l)
    (slice 8 16 l) (slice 24 16 l).

Record udp_header := mkUdp { source_port : Z; dest_port : Z; udp_length : Z; udp_cksum : Z }.
Definition udp_bytes (h : udp_header) : bytes :=
  le_bytes 2 (source_port h) ++ le_bytes 2 (dest_port h) ++ le_bytes 2 (udp_length h) ++ le_bytes 2 (udp_cksum h).
Definition udp_of (l : bytes) : udp_header :=
  mkUdp (read_le16 0 l) (read_le16 2 l) (read_le16 4 l) (read_le16 6 l).
Definition set_udp_checksum (c : Z) (h : udp_header) : udp_header :=
  mkUdp (source_port h) (dest_port h) (udp_length h) c.

(** ** Checksums *)

(** [t] plus the next [n] 16-bit words of [data], from word [i] on *)
Fixpoint sum_words (n : nat) (i : Z) (data : bytes) (t : Z) : option Z :=
  match n with
  | O => Some t
  | S n =>
      assert! (2 * i + 2 <=? zlen data);
      sum_words n (i + 1) data (u32 (t + badvpn_read_be16 (2 * i) data))
  end.
(** [while (t >> 16)]; [fuel] bounds the number of rounds *)
Fixpoint fold_carries (fuel : nat) (t : Z) : option Z :=
  match fuel with
  | O => None
  | S fuel =>
      if Z.shiftr t 16 =? 0 then Some t
      else fold_carries fuel (u32 (Z.land t 0xFFFF + Z.shiftr t 16))
  end.

Definition ipv4_checksum (header : ipv4_header) (extra : bytes) (extra_len : Z) : option Z :=
  assert! (extra_len mod 2 =? 0);
  t ← sum_words 10 0 (ipv4_bytes header) 0;
  t ← sum_words (Z.to_nat (extra_len / 2)) 0 extra t;
  t ← fold_carries 3 t;
  Some (hton16 (u16 (Z.lnot t))).

Definition udp_checksum_summer (data : bytes) (len : Z) : option Z :=
  assert! (len mod 2 =? 0);
  sum_words (Z.to_nat (len / 2)) 0 data 0.
(** the parts of both checksums after the pseudo header, [t] being its sum *)
Definition udp_checksum_rest (t : Z) (header : udp_header) (payload : bytes) (payload_len : Z) : option Z :=
  h ← udp_checksum_summer (udp_bytes header) 8;
  let t := u32 (t + h) in
  t ← (if payload_len mod 2 =? 0 then
         p ← udp_checksum_summer payload payload_len; Some (u32 (t + p))
       else
         p ← udp_checksum_summer payload (payload_len - 1);
         last ← rd (payload_len - 1) 1 payload;
         x ← udp_checksum_summer (le_bytes 2 (hton16 (u16 (Z.shiftl (le_val last) 8)))) 2;
         Some (u32 (u32 (t + p) + x)));
  t ← fold_carries 3 t;
  let t := if t =? 0 then UINT16_MAX else t in
  Some (hton16 (u16 (Z.lnot t))).
(** [payload_len] is a [uint16_t] *)
Definition udp_checksum (header : udp_header) (payload : bytes) (payload_len source_addr dest_addr : Z) : option Z :=
  let payload_len := u16 payload_len in
  s ← udp_checksum_summer (le_bytes 4 source_addr) 4;
  d ← udp_checksum_summer (le_bytes 4 dest_addr) 4;
  x ← udp_checksum_summer (le_bytes 2 (hton16 IPV4_PROTOCOL_UDP)) 2;
  y ← udp_checksum_summer (le_bytes 2 (hton16 (u16 (8 + payload_len)))) 2;
  udp_checksum_rest (u32 (u32 (u32 (u32 (0 + s) + d) + x) + y)) header payload payload_len.
Definition udp_ip6_checksum (header : udp_header) (payload : bytes) (payload_len : Z) (source_addr dest_addr : bytes) : option Z :=
  let payload_len := u16 payload_len in
  s ← udp_checksum_summer source_addr 16;
  d ← udp_checksum_summer dest_addr 16;
  x ← udp_checksum_summer (le_bytes 4 (hton32 (8 + payload_len))) 4;
  y ← udp_checksum_summer (le_bytes 4 (hton32 IPV6_NEXT_UDP)) 4;
  udp_checksum_rest (u32 (u32 (u32 (u32 (0 + s) + d) + x) + y)) header payload payload_len.

(** ** The checks of a packet

    The result is the header and the payload, or nothing when the packet is refused. *)

Definition ipv4_check (data : bytes) : option (option (ipv4_header * bytes)) :=
  if zlen data <? 20 then Some None
  else
    d ← rd 0 20 data;
    let h := ipv4_of d in
    if negb (IPV4_GET_VERSION h =? 4) then Some None
    else
      let header_len := IPV4_GET_IHL h * 4 in
      if header_len <? 20 then Some None
      else if header_len >? zlen data then Some None
      else
        let total := ntoh16 (total_length h) in
        if total <? header_len then Some None
        else if total >? zlen data then Some None
        else
          extra ← rd 20 (header_len - 20) data;
          checksum_computed ← ipv4_checksum (set_ip_checksum (hton16 0) h) extra (header_len - 20);
          if negb (ip_checksum h =? checksum_computed) then Some None
          else
            payload ← rd header_len (total - header_len) data;
            Some (Some (h, payload)).

Definition ipv6_check (data : bytes) : option (option (ipv6_header * bytes)) :=
  if zlen data <? 40 then Some None
  else
    d ← rd 0 40 data;
    let h := ipv6_of d in
    if negb (Z.shiftr (version4_tc4 h) 4 =? 6) then Some None
    else
      let len := ntoh16 (payload_length h) in
      if len >? zlen data - 40 then Some None
      else
        payload ← rd 40 len data;
        Some (Some (h, payload)).

Definition udp_check (data : bytes) : option (option (udp_header * bytes)) :=
  if zlen data <? 8 then Some None
  else
    d ← rd 0 8 data;
    let h := udp_of d in
    data ← rd 8 (zlen data - 8) data;
    let len := ntoh16 (udp_length h) in
    if len <? 8 then Some None
    else if len >? 8 + zlen data then Some None
    else
      payload ← rd 0 (len - 8) data;
      Some (Some (h, payload)).

(** ** What a checksum is (RFC 1071)

    The 16-bit words are added with the carry added again; an odd last byte is the high
    byte of a word. *)
Fixpoint words (l : bytes) : list Z :=
  match l with
  | a :: b :: l => 256 * a + b :: words l
  | [a] => [256 * a]
  | [] => []
  end.
Definition oc_add (a b : Z) : Z := if a + b >? UINT16_MAX then a + b - UINT16_MAX else a + b.
Definition oc_sum (ws : list Z) : Z := fold_left oc_add ws 0.
Definition internet_checksum (l : bytes) : Z := UINT16_MAX - oc_sum (words l).

Definition wsum (ws : list Z) : Z := foldr Z.add 0 ws.
Definition even_len (l : bytes) : Prop := zlen l mod 2 = 0.

Lemma bytes2_ind (P : bytes → Prop) :
  P [] → (∀ a, P [a]) → (∀ a b l, P l → P (a :: b :: l)) → ∀ l, P l.
Proof.
  intros H0 H1 H2 l. assert (P l ∧ ∀ a, P (a :: l)) as [? _]; [|done].
  induction l as [|a l [IH IH']]; [by split|]. split; [done|]. intros b. by apply H2.
Qed.
Lemma words_app l k : even_len l → words (l ++ k) = words l ++ words k.
Proof.
  unfold even_len. induction l as [|a|a b l IH] using bytes2_ind; intros Hl.
  - done.
  - done.
  - cbn. rewrite IH; [done|]. rewrite !zlen_cons in Hl. pose proof (zlen_nonneg l).
    replace (1 + (1 + zlen l)) with (zlen l + 1 * 2) in Hl by lia. by rewrite Z.mod_add in Hl by lia.
Qed.
Lemma words_range l : bytes_ok l → Forall (λ w, 0 ≤ w ≤ UINT16_MAX) (words l).
Proof.
  unfold UINT16_MAX. induction l as [|a|a b l IH] using bytes2_ind; intros Hl.
  - constructor.
  - apply bytes_ok_cons in Hl as [? _]. constructor; [lia|constructor].
  - apply bytes_ok_cons in Hl as [? Hl]. apply bytes_ok_cons in Hl as [? Hl]. cbn. constructor; [lia|auto].
Qed.
Lemma wsum_cons w ws : wsum (w :: ws) = w + wsum ws.
Proof. done. Qed.
Lemma wsum_app l k : wsum (l ++ k) = wsum l + wsum k.
Proof. unfold wsum. induction l as [|x l IH]; cbn; [done|]. rewrite IH. lia. Qed.
Lemma wsum_bound ws : Forall (λ w, 0 ≤ w ≤ UINT16_MAX) ws → 0 ≤ wsum ws ≤ zlen ws * UINT16_MAX.
Proof.
  unfold wsum. induction 1 as [|w ws ? _ IH]; cbn; [done|]. rewrite zlen_cons. lia.
Qed.
Lemma zlen_words l : 2 * zlen (words l) ≤ zlen l + 1.
Proof.
  induction l as [|a|a b l IH] using bytes2_ind; [done|done|]. cbn. rewrite !zlen_cons. lia.
Qed.

(** the sum with the carries added: zero only for zero *)
Definition norm (t : Z) : Z := if t =? 0 then 0 else (t - 1) mod UINT16_MAX + 1.
Lemma norm_range t : 0 ≤ t → 0 ≤ norm t ≤ UINT16_MAX.
Proof.
  unfold norm, UINT16_MAX. intros. zif (t =? 0); [lia|]. pose proof (Z.mod_pos_bound (t - 1) 65535). lia.
Qed.
Lemma norm_small t : 0 ≤ t ≤ UINT16_MAX → norm t = t.
Proof. unfold norm, UINT16_MAX. intros. zif (t =? 0); [done|]. rewrite Z.mod_small; lia. Qed.
Lemma norm_step t k : 0 < t → 0 ≤ k → norm (t + k * UINT16_MAX) = norm t.
Proof.
  unfold norm, UINT16_MAX. intros. zif (t =? 0); [lia|]. zif (t + k * 65535 =? 0); [lia|].
  replace (t + k * 65535 - 1) with (t - 1 + k * 65535) by lia. by rewrite Z.mod_add by lia.
Qed.
Lemma oc_add_norm a b : 0 ≤ a ≤ UINT16_MAX → 0 ≤ b ≤ UINT16_MAX → oc_add a b = norm (a + b).
Proof.
  intros Ha Hb. unfold oc_add. zif (a + b >? UINT16_MAX).
  - replace (a + b) with (a + b - UINT16_MAX + 1 * UINT16_MAX) at 2 by lia.
    unfold UINT16_MAX in *. rewrite norm_step, norm_small; unfold UINT16_MAX; lia.
  - by rewrite norm_small by lia.
Qed.
Lemma norm_norm a b : 0 ≤ a → 0 ≤ b → norm (norm a + b) = norm (a + b).
Proof.
  intros Ha Hb. unfold norm at 2. zif (a =? 0); [by subst|].
  pose proof (Z.div_mod (a - 1) UINT16_MAX ltac:(done)). pose proof (Z.mod_pos_bound (a - 1) UINT16_MAX ltac:(done)).
  replace (a + b) with ((a - 1) mod UINT16_MAX + 1 + b + (a - 1) / UINT16_MAX * UINT16_MAX) by lia.
  rewrite norm_step; [done|lia|]. apply Z.div_pos; [lia|done].
Qed.
Lemma oc_sum_norm ws : Forall (λ w, 0 ≤ w ≤ UINT16_MAX) ws → oc_sum ws = norm (wsum ws).
Proof.
  unfold oc_sum. intros Hws. assert (∀ a, 0 ≤ a → fold_left oc_add ws (norm a) = norm (a + wsum ws)) as Hfold.
  2:{ change 0 with (norm 0). by rewrite Hfold. }
  induction Hws as [|w ws Hw _ IH]; intros a Ha; cbn [fold_left wsum foldr]; [f_equal; cbn; lia|].
  pose proof (norm_range a Ha). rewrite oc_add_norm, norm_norm, IH by lia. unfold wsum. f_equal. cbn. lia.
Qed.

(** ** The functions compute it *)

Lemma fold_carries_norm t : 0 ≤ t < 2 ^ 32 → fold_carries 3 t = Some (norm t).
Proof.
  assert (Hstop : ∀ n t, 0 ≤ t ≤ UINT16_MAX → fold_carries (S n) t = Some (norm t)).
  { intros n y Hy. cbn [fold_carries]. rewrite Z.shiftr_div_pow2 by lia.
    rewrite Z.div_small by (unfold UINT16_MAX in Hy; lia). by rewrite norm_small by lia. }
  assert (Hstep : ∀ n t, 0 ≤ t < 2 ^ 32 → UINT16_MAX < t →
    fold_carries (S n) t = fold_carries n (t mod 65536 + t / 65536) ∧
    norm (t mod 65536 + t / 65536) = norm t).
  { intros n y Hy Hlt. unfold UINT16_MAX in Hlt. cbn [fold_carries].
    change 0xFFFF with (Z.ones 16). rewrite Z.land_ones, Z.shiftr_div_pow2 by lia.
    change (2 ^ 16) with 65536. pose proof (Z.div_mod y 65536 ltac:(done)).
    pose proof (Z.mod_pos_bound y 65536 ltac:(done)).
    assert (0 < y / 65536 < 65536) by (split; [apply Z.div_str_pos; lia|apply Z.div_lt_upper_bound; lia]).
    zif (y / 65536 =? 0); [lia|]. split; [f_equal; apply Z.mod_small; lia|].
    replace y with (y mod 65536 + y / 65536 + y / 65536 * UINT16_MAX) at 3 by (unfold UINT16_MAX; lia).
    by rewrite norm_step by lia. }
  assert (Hsmall : ∀ y, 0 ≤ y < 2 ^ 32 → y mod 65536 + y / 65536 ≤ 65535 + y / 65536 ∧ y / 65536 < 65536).
  { intros y Hy. pose proof (Z.mod_pos_bound y 65536 ltac:(done)).
    split; [lia|apply Z.div_lt_upper_bound; lia]. }
  intros Ht. destruct (Z_lt_le_dec UINT16_MAX t) as [H1|H1]; [|apply Hstop; lia].
  destruct (Hstep 2%nat t Ht H1) as [-> <-]. set (t1 := t mod 65536 + t / 65536).
  assert (Ht1 : 0 ≤ t1 ≤ 131070).
  { destruct (Hsmall t Ht). unfold t1. pose proof (Z.mod_pos_bound t 65536 ltac:(done)).
    pose proof (Z.div_pos t 65536). lia. }
  destruct (Z_lt_le_dec UINT16_MAX t1) as [H2|H2]; [|apply Hstop; lia].
  destruct (Hstep 1%nat t1 ltac:(lia) H2) as [-> <-]. apply Hstop.
  unfold UINT16_MAX in H2. assert (t1 / 65536 = 1) by (symmetry; apply (Z.div_unique _ _ _ (t1 - 65536)); lia).
  assert (t1 mod 65536 = t1 - 65536) by (symmetry; apply (Z.mod_unique _ _ 1); lia).
  unfold UINT16_MAX. lia.
Qed.

Lemma be_word l o : bytes_ok l → 0 ≤ o → o + 2 ≤ zlen l →
  ∃ a b, slice o 2 l = [a; b] ∧ 0 ≤ a < 256 ∧ 0 ≤ b < 256 ∧ badvpn_read_be16 o l = 256 * a + b.
Proof.
  intros Hl Ho Hlen. pose proof (zlen_slice o 2 l ltac:(lia) ltac:(lia) Hlen) as Hz.
  pose proof (bytes_ok_slice o 2 l Hl) as Hok. unfold badvpn_read_be16.
  destruct (slice o 2 l) as [|a [|b [|? k]]]; rewrite ?zlen_cons in Hz; change (zlen (@nil Z)) with 0 in Hz;
    try (pose proof (zlen_nonneg k)); try lia.
  apply bytes_ok_cons in Hok as [? Hok]. apply bytes_ok_cons in Hok as [? _].
  exists a, b. split; [done|]. split; [done|]. split; [done|]. rewrite !be_val_cons. rewrite zlen_cons. change (zlen (@nil Z)) with 0. change (256 ^ (1 + 0)) with 256. change (256 ^ 0) with 1. change (be_val []) with 0. lia.
Qed.
Lemma sum_words_spec n i data t :
  bytes_ok data → 0 ≤ i → 2 * (i + Z.of_nat n) ≤ zlen data → 0 ≤ t → t + Z.of_nat n * UINT16_MAX < 2 ^ 32 →
  sum_words n i data t = Some (t + wsum (words (slice (2 * i) (2 * Z.of_nat n) data))).
Proof.
  intros Hok. revert i t. induction n as [|n IH]; intros i t Hi Hlen Ht Hb.
  - cbn. f_equal. change (2 * Z.of_nat 0) with 0. rewrite slice_0_len. cbn. lia.
  - rewrite Nat2Z.inj_succ in *. cbn [sum_words]. zif (2 * i + 2 <=? zlen data); [|lia].
    destruct (be_word data (2 * i)) as (a & b & Hs & Ha & Hbb & ->); [done|lia|lia|]. unfold UINT16_MAX in *.
    unfold u32. rewrite Z.mod_small by lia. rewrite IH by lia. f_equal.
    replace (2 * Z.succ (Z.of_nat n)) with (2 + 2 * Z.of_nat n) by lia. rewrite slice_split, Hs by lia.
    replace (2 * i + 2) with (2 * (i + 1)) by lia. cbn [app words]. rewrite wsum_cons. lia.
Qed.

Lemma not16 t : 0 ≤ t ≤ UINT16_MAX → u16 (Z.lnot t) = UINT16_MAX - t.
Proof.
  unfold u16, UINT16_MAX. intros. unfold Z.lnot. symmetry. apply (Z.mod_unique _ _ (-1)); lia.
Qed.
Lemma zlen_ipv4_bytes h : zlen (ipv4_bytes h) = 20.
Proof. unfold ipv4_bytes. rewrite !zlen_app, !zlen_le_bytes. done. Qed.
Lemma ipv4_bytes_ok h : bytes_ok (ipv4_bytes h).
Proof. unfold ipv4_bytes. rewrite !bytes_ok_app. auto 12 using le_bytes_ok. Qed.
Lemma zlen_udp_bytes h : zlen (udp_bytes h) = 8.
Proof. unfold udp_bytes. rewrite !zlen_app, !zlen_le_bytes. done. Qed.
Lemma udp_bytes_ok h : bytes_ok (udp_bytes h).
Proof. unfold udp_bytes. rewrite !bytes_ok_app. auto using le_bytes_ok. Qed.

Lemma wsum_words_bound l : bytes_ok l → 0 ≤ 2 * wsum (words l) ≤ (zlen l + 1) * UINT16_MAX.
Proof.
  intros Hl. pose proof (wsum_bound (words l) (words_range l Hl)). pose proof (zlen_words l).
  unfold UINT16_MAX in *. lia.
Qed.
Lemma internet_checksum_norm l : bytes_ok l → internet_checksum l = UINT16_MAX - norm (wsum (words l)).
Proof. intros. unfold internet_checksum. by rewrite oc_sum_norm by (by apply words_range). Qed.
Lemma internet_checksum_range l : bytes_ok l → 0 ≤ internet_checksum l ≤ UINT16_MAX.
Proof.
  intros Hl. rewrite internet_checksum_norm by done. pose proof (wsum_words_bound l Hl).
  pose proof (norm_range (wsum (words l))). lia.
Qed.

Lemma half_even n : 0 ≤ n → n mod 2 = 0 → 2 * Z.of_nat (Z.to_nat (n / 2)) = n.
Proof.
  intros Hn Hm. pose proof (Z.div_mod n 2 ltac:(done)). pose proof (Z.div_pos n 2). lia.
Qed.
Lemma sum_words_even n data t :
  bytes_ok data → 0 ≤ n ≤ zlen data → n mod 2 = 0 → n ≤ 65536 → 0 ≤ t ≤ 65536 * UINT16_MAX / 2 →
  sum_words (Z.to_nat (n / 2)) 0 data t = Some (t + wsum (words (slice 0 n data))).
Proof.
  intros Hok Hn Hm Hmax Ht. pose proof (half_even n ltac:(lia) Hm) as He.
  change (65536 * UINT16_MAX / 2) with 2147450880 in Ht. rewrite sum_words_spec, He by (unfold UINT16_MAX in *; done || lia).
  done.
Qed.
Lemma summer_spec n data :
  bytes_ok data → 0 ≤ n ≤ zlen data → n mod 2 = 0 → n ≤ 65536 →
  udp_checksum_summer data n = Some (wsum (words (slice 0 n data))).
Proof.
  intros Hok Hn Hm Hmax. unfold udp_checksum_summer. rewrite Hm. cbn. by rewrite sum_words_even by done.
Qed.
Lemma summer_all n data :
  bytes_ok data → zlen data = n → n mod 2 = 0 → n ≤ 65536 →
  udp_checksum_summer data n = Some (wsum (words data)).
Proof.
  intros Hok <- Hm Hmax. pose proof (zlen_nonneg data). rewrite summer_spec by (done || lia). by rewrite slice_all.
Qed.

Lemma ipv4_checksum_spec h extra n :
  bytes_ok extra → zlen extra = n → n mod 2 = 0 → n ≤ 65536 →
  ipv4_checksum h extra n = Some (hton16 (internet_checksum (ipv4_bytes h ++ extra))).
Proof.
  intros Hok Hn Hm Hmax. pose proof (zlen_nonneg extra). unfold ipv4_checksum. rewrite Hm. cbn [Z.eqb].
  pose proof (ipv4_bytes_ok h) as Hh. pose proof (zlen_ipv4_bytes h) as Hz.
  change 10%nat with (Z.to_nat (20 / 2)). rewrite (sum_words_even 20) by first [done|reflexivity|lia]. cbn [mbind option_bind].
  rewrite (slice_all _ 20) by done.
  pose proof (wsum_words_bound _ Hh) as Hb1. pose proof (wsum_words_bound _ Hok) as Hb2. unfold UINT16_MAX in *.
  rewrite sum_words_even by (try done; try lia; change (65536 * UINT16_MAX / 2) with 2147450880; lia).
  cbn [mbind option_bind]. rewrite slice_all by done. rewrite fold_carries_norm by lia. cbn [mbind option_bind].
  rewrite not16 by (apply norm_range; lia). do 2 f_equal.
  rewrite internet_checksum_norm by (by apply bytes_ok_app).
  rewrite words_app, wsum_app by (unfold even_len; by rewrite Hz). by rewrite Z.add_0_l.
Qed.

(** A payload of odd length counts its last byte as the high byte of a word. *)
Lemma payload_sum payload n :
  bytes_ok payload → zlen payload = n → 0 ≤ n → n mod 2 ≠ 0 →
  ∃ last, rd (n - 1) 1 payload = Some [last] ∧ 0 ≤ last < 256 ∧
    wsum (words payload) = wsum (words (slice 0 (n - 1) payload)) + 256 * last ∧ (n - 1) mod 2 = 0.
Proof.
  intros Hok Hz Hn Hm. pose proof (Z.div_mod n 2 ltac:(done)). pose proof (Z.mod_pos_bound n 2 ltac:(done)).
  assert (Hev : (n - 1) mod 2 = 0) by (symmetry; apply (Z.mod_unique _ _ (n / 2)); lia).
  unfold rd. rewrite Hz. replace ((0 <=? n - 1) && (0 <=? 1) && (n - 1 + 1 <=? n)) with true by lia.
  pose proof (zlen_slice (n - 1) 1 payload ltac:(lia) ltac:(lia) ltac:(lia)) as Hl.
  pose proof (bytes_ok_slice (n - 1) 1 payload Hok) as Hlok.
  destruct (slice (n - 1) 1 payload) as [|last [|? k]] eqn:Hs; rewrite ?zlen_cons in Hl;
    [done| |pose proof (zlen_nonneg k); lia].
  apply bytes_ok_cons in Hlok as [Hlast _]. exists last. split; [done|]. split; [done|]. split; [|done].
  assert (Hp : payload = slice 0 (n - 1) payload ++ [last]).
  { rewrite <-Hs. replace (n - 1) with (0 + (n - 1)) at 2 by lia. rewrite <-slice_split by lia. rewrite slice_all; [done|lia]. }
  rewrite Hp at 1. rewrite words_app by (unfold even_len; by rewrite zlen_slice by lia).
  rewrite wsum_app. f_equal. cbn. lia.
Qed.

Lemma udp_checksum_rest_spec pre h payload n :
  bytes_ok pre → even_len pre → zlen pre ≤ 64 → 0 < wsum (words pre) →
  bytes_ok payload → zlen payload = n → n ≤ UINT16_MAX →
  udp_checksum_rest (wsum (words pre)) h payload n =
    Some (hton16 (internet_checksum (pre ++ udp_bytes h ++ payload))).
Proof.
  intros Hpre He Hpl Hpos Hok Hn Hmax. pose proof (zlen_nonneg payload). unfold udp_checksum_rest.
  pose proof (udp_bytes_ok h) as Hh. pose proof (zlen_udp_bytes h) as Hz.
  rewrite (summer_all 8 (udp_bytes h)) by first [done|reflexivity|lia]. cbn [mbind option_bind].
  pose proof (wsum_words_bound _ Hpre). pose proof (wsum_words_bound _ Hh). pose proof (wsum_words_bound _ Hok).
  unfold UINT16_MAX in *.
  assert (Hu : ∀ y, 0 ≤ y < 2 ^ 32 → u32 y = y) by (intros; by apply Z.mod_small).
  rewrite (Hu (_ + wsum (words (udp_bytes h)))) by lia.
  assert (Hfin : fold_carries 3 (wsum (words pre) + wsum (words (udp_bytes h)) + wsum (words payload)) ≫=
      (λ t, Some (hton16 (u16 (Z.lnot (if t =? 0 then UINT16_MAX else t))))) =
    Some (hton16 (internet_checksum (pre ++ udp_bytes h ++ payload)))).
  { rewrite fold_carries_norm by lia. cbn [mbind option_bind].
    set (t := wsum (words pre) + wsum (words (udp_bytes h)) + wsum (words payload)).
    assert (Ht : 0 < t) by (unfold t; lia). pose proof (norm_range t ltac:(lia)).
    assert (norm t ≠ 0).
    { unfold norm. zif (t =? 0); [lia|]. pose proof (Z.mod_pos_bound (t - 1) UINT16_MAX ltac:(done)). lia. }
    zif (norm t =? 0); [lia|]. rewrite not16 by lia. do 2 f_equal.
    rewrite internet_checksum_norm by (rewrite !bytes_ok_app; done).
    rewrite words_app, wsum_app by done. rewrite words_app, wsum_app by (unfold even_len; by rewrite Hz).
    unfold t. by rewrite Z.add_assoc. }
  zif (n mod 2 =? 0).
  - rewrite summer_all by first [done|reflexivity|lia]. cbn [mbind option_bind]. rewrite Hu by lia. exact Hfin.
  - destruct (payload_sum payload n) as (last & Hrd & Hl & Hsum & Hev); [done|done|lia|done|]. rewrite Hrd.
    pose proof (zlen_slice 0 (n - 1) payload). pose proof (Z.mod_pos_bound n 2 ltac:(done)).
    assert (n ≠ 0) by (by intros ->).
    rewrite summer_spec by (done || lia). cbn [mbind option_bind].
    assert (Hsh : u16 (Z.shiftl (le_val [last]) 8) = 256 * last).
    { rewrite Z.shiftl_mul_pow2 by lia. change (le_val [last]) with (last + 256 * 0). unfold u16. rewrite Z.mod_small; lia. }
    rewrite Hsh, le_bytes_hton16. rewrite summer_all by first [apply be_bytes_ok|apply zlen_be_bytes|reflexivity|lia].
    assert (Hw : wsum (words (be_bytes 2 (256 * last))) = 256 * last).
    { unfold be_bytes. change (le_bytes 2 (256 * last)) with [(256 * last) mod 256; (256 * last / 256) mod 256].
      cbn [rev app words]. rewrite wsum_cons. rewrite (Z.mul_comm 256 last), Z.mod_mul, Z.div_mul by lia.
      rewrite Z.mod_small by lia. cbn. lia. }
    rewrite Hw. cbn [mbind option_bind].
    pose proof (wsum_words_bound (slice 0 (n - 1) payload) ltac:(auto with cint)).
    rewrite (Hu (_ + wsum (words (slice 0 (n - 1) payload)))), Hu by lia.
    rewrite <-Z.add_assoc, <-Hsum. exact Hfin.
Qed.

(** the pseudo headers of UDP *)
Definition pseudo_header (src dst len : Z) : bytes :=
  le_bytes 4 src ++ le_bytes 4 dst ++ [0; IPV4_PROTOCOL_UDP] ++ be_bytes 2 len.
Definition pseudo_header6 (src dst : bytes) (len : Z) : bytes :=
  src ++ dst ++ be_bytes 4 len ++ [0; 0; 0; IPV6_NEXT_UDP].

Lemma u32_sum4 a b c d :
  0 ≤ a → 0 ≤ b → 0 ≤ c → 0 ≤ d → a + b + c + d < 2 ^ 32 →
  u32 (u32 (u32 (u32 (0 + a) + b) + c) + d) = a + b + c + d.
Proof.
  intros. unfold u32. rewrite Z.add_0_l, (Z.mod_small a), (Z.mod_small (a + b)), (Z.mod_small (a + b + c)) by lia.
  apply Z.mod_small. lia.
Qed.
Ltac even_side := unfold even_len; rewrite ?zlen_app, ?zlen_le_bytes, ?zlen_be_bytes; reflexivity.
Lemma udp_checksum_spec h payload n src dst :
  bytes_ok payload → zlen payload = n → n ≤ UINT16_MAX - 8 →
  udp_checksum h payload n src dst =
    Some (hton16 (internet_checksum (pseudo_header src dst (8 + n) ++ udp_bytes h ++ payload))).
Proof.
  intros Hok Hn Hmax. pose proof (zlen_nonneg payload). unfold udp_checksum, UINT16_MAX in *.
  replace (u16 n) with n by (symmetry; apply Z.mod_small; lia).
  replace (u16 (8 + n)) with (8 + n) by (symmetry; apply Z.mod_small; lia).
  rewrite !le_bytes_hton16.
  rewrite (summer_all 4 (le_bytes 4 src)), (summer_all 4 (le_bytes 4 dst)),
    (summer_all 2 (be_bytes 2 IPV4_PROTOCOL_UDP)), (summer_all 2 (be_bytes 2 (8 + n)))
    by first [apply le_bytes_ok|apply be_bytes_ok|apply zlen_le_bytes|apply zlen_be_bytes|reflexivity|lia].
  cbn [mbind option_bind].
  set (pre := pseudo_header src dst (8 + n)).
  assert (Hpre : bytes_ok pre).
  { unfold pre, pseudo_header. rewrite !bytes_ok_app. split; [apply le_bytes_ok|]. split; [apply le_bytes_ok|].
    split; [by apply bytes_okb_spec|apply be_bytes_ok]. }
  assert (Hz : zlen pre = 12) by (unfold pre, pseudo_header; rewrite !zlen_app, !zlen_le_bytes, zlen_be_bytes; done).
  pose proof (wsum_words_bound _ (le_bytes_ok 4 src)) as B1. pose proof (wsum_words_bound _ (le_bytes_ok 4 dst)) as B2.
  pose proof (wsum_words_bound _ (be_bytes_ok 2 (8 + n))) as B3. rewrite !zlen_le_bytes, ?zlen_be_bytes in *.
  change (wsum (words (be_bytes 2 IPV4_PROTOCOL_UDP))) with 17.
  assert (Hs : wsum (words pre) = wsum (words (le_bytes 4 src)) + wsum (words (le_bytes 4 dst)) + 17
    + wsum (words (be_bytes 2 (8 + n)))).
  { unfold pre, pseudo_header. rewrite !words_app by even_side. rewrite !wsum_app.
    change (wsum (words [0; IPV4_PROTOCOL_UDP])) with 17. lia. }
  unfold UINT16_MAX in *.
  rewrite u32_sum4, <-Hs by lia.
  apply udp_checksum_rest_spec; first [done|lia|unfold even_len; by rewrite Hz|unfold UINT16_MAX; lia].
Qed.
Lemma udp_ip6_checksum_spec h payload n src dst :
  bytes_ok payload → zlen payload = n → n ≤ UINT16_MAX - 8 →
  bytes_ok src → zlen src = 16 → bytes_ok dst → zlen dst = 16 →
  udp_ip6_checksum h payload n src dst =
    Some (hton16 (internet_checksum (pseudo_header6 src dst (8 + n) ++ udp_bytes h ++ payload))).
Proof.
  intros Hok Hn Hmax Hs1 Hs2 Hd1 Hd2. pose proof (zlen_nonneg payload). unfold udp_ip6_checksum, UINT16_MAX in *.
  replace (u16 n) with n by (symmetry; apply Z.mod_small; lia).
  rewrite !le_bytes_hton32.
  rewrite (summer_all 16 src), (summer_all 16 dst),
    (summer_all 4 (be_bytes 4 IPV6_NEXT_UDP)), (summer_all 4 (be_bytes 4 (8 + n)))
    by first [done|apply be_bytes_ok|apply zlen_be_bytes|reflexivity|lia].
  cbn [mbind option_bind].
  set (pre := pseudo_header6 src dst (8 + n)).
  assert (Hpre : bytes_ok pre).
  { unfold pre, pseudo_header6. rewrite !bytes_ok_app. split; [done|]. split; [done|].
    split; [apply be_bytes_ok|by apply bytes_okb_spec]. }
  assert (Hz : zlen pre = 40) by (unfold pre, pseudo_header6; rewrite !zlen_app, zlen_be_bytes, Hs2, Hd2; done).
  pose proof (wsum_words_bound _ Hs1) as B1. pose proof (wsum_words_bound _ Hd1) as B2.
  pose proof (wsum_words_bound _ (be_bytes_ok 4 (8 + n))) as B3. rewrite Hs2, Hd2, ?zlen_be_bytes in *.
  change (wsum (words (be_bytes 4 IPV6_NEXT_UDP))) with 17.
  assert (Hs : wsum (words pre) = wsum (words src) + wsum (words dst) + wsum (words (be_bytes 4 (8 + n))) + 17).
  { unfold pre, pseudo_header6. rewrite !words_app by (unfold even_len; rewrite ?Hs2, ?Hd2, ?zlen_be_bytes; reflexivity).
    rewrite !wsum_app. change (wsum (words [0; 0; 0; IPV6_NEXT_UDP])) with 17. lia. }
  unfold UINT16_MAX in *.
  rewrite u32_sum4, <-Hs by lia.
  apply udp_checksum_rest_spec; first [done|lia|unfold even_len; by rewrite Hz|unfold UINT16_MAX; lia].
Qed.

(** ** Headers *)

(** every field has the width of its type *)
Definition ipv4_ok (h : ipv4_header) : Prop := ipv4_of (ipv4_bytes h) = h.
Definition ipv6_ok (h : ipv6_header) : Prop :=
  ipv6_of (ipv6_bytes h) = h ∧ zlen (source_address6 h) = 16 ∧ zlen (destination_address6 h) = 16.
Definition udp_ok (h : udp_header) : Prop := udp_of (udp_bytes h) = h.

Lemma le_bytes_slice o n l :
  bytes_ok l → 0 ≤ o → o + Z.of_nat n ≤ zlen l → le_bytes n (le_val (slice o (Z.of_nat n) l)) = slice o (Z.of_nat n) l.
Proof.
  intros Hl Ho Hn. pose proof (zlen_slice o (Z.of_nat n) l ltac:(lia) ltac:(lia) Hn) as Hz.
  assert (Hlen : length (slice o (Z.of_nat n) l) = n) by (unfold zlen in Hz; lia).
  rewrite <-Hlen at 1. apply le_bytes_le_val. auto with cint.
Qed.
Lemma slice_join o n o' m (l : bytes) :
  0 ≤ o → 0 ≤ n → 0 ≤ m → o' = o + n → slice o n l ++ slice o' m l = slice o (n + m) l.
Proof. intros ? ? ? ->. by rewrite <-slice_split. Qed.
Ltac join_slices := repeat rewrite slice_join by lia; apply slice_all.
Lemma ipv4_bytes_of d : bytes_ok d → zlen d = 20 → ipv4_bytes (ipv4_of d) = d.
Proof.
  intros Hd Hz. unfold ipv4_bytes, ipv4_of, byte_at, read_le16. cbn [version4_ihl4 ds total_length identification
    flags3_fragmentoffset13 ttl protocol ip_checksum source_address destination_address].
  rewrite (le_bytes_slice 0 1), (le_bytes_slice 1 1), (le_bytes_slice 2 2), (le_bytes_slice 4 2), (le_bytes_slice 6 2),
    (le_bytes_slice 8 1), (le_bytes_slice 9 1), (le_bytes_slice 10 2), (le_bytes_slice 12 4), (le_bytes_slice 16 4)
    by (done || lia).
  join_slices. lia.
Qed.
Lemma ipv6_bytes_of d : bytes_ok d → zlen d = 40 → ipv6_bytes (ipv6_of d) = d.
Proof.
  intros Hd Hz. unfold ipv6_bytes, ipv6_of, byte_at, read_le16. cbn [version4_tc4 tc4_fl4 fl payload_length
    next_header hop_limit source_address6 destination_address6].
  rewrite (le_bytes_slice 0 1), (le_bytes_slice 1 1), (le_bytes_slice 2 2), (le_bytes_slice 4 2),
    (le_bytes_slice 6 1), (le_bytes_slice 7 1) by (done || lia).
  join_slices. lia.
Qed.
Lemma udp_bytes_of d : bytes_ok d → zlen d = 8 → udp_bytes (udp_of d) = d.
Proof.
  intros Hd Hz. unfold udp_bytes, udp_of, read_le16. cbn [source_port dest_port udp_length udp_cksum].
  rewrite (le_bytes_slice 0 2), (le_bytes_slice 2 2), (le_bytes_slice 4 2), (le_bytes_slice 6 2) by (done || lia).
  join_slices. lia.
Qed.
Lemma ipv4_of_ok d : bytes_ok d → zlen d = 20 → ipv4_ok (ipv4_of d).
Proof. intros. unfold ipv4_ok. by rewrite ipv4_bytes_of. Qed.
Lemma ipv6_of_ok d : bytes_ok d → zlen d = 40 → ipv6_ok (ipv6_of d).
Proof.
  intros. unfold ipv6_ok. rewrite ipv6_bytes_of by done. split; [done|]. cbn. split; apply zlen_slice; lia.
Qed.
Lemma udp_of_ok d : bytes_ok d → zlen d = 8 → udp_ok (udp_of d).
Proof. intros. unfold udp_ok. by rewrite udp_bytes_of. Qed.

(** The ranges of the fields. *)
Lemma field_range n o l : bytes_ok l → 0 ≤ le_val (slice o n l) < 256 ^ zlen (slice o n l).
Proof. intros. apply le_val_bound. auto with cint. Qed.
Lemma ipv4_ok_ranges h :
  ipv4_ok h → 0 ≤ version4_ihl4 h < 256 ∧ 0 ≤ total_length h < 2 ^ 16 ∧ 0 ≤ protocol h < 256 ∧
    0 ≤ ip_checksum h < 2 ^ 16 ∧ 0 ≤ source_address h < 2 ^ 32 ∧ 0 ≤ destination_address h < 2 ^ 32.
Proof.
  unfold ipv4_ok. intros <-. pose proof (ipv4_bytes_ok h) as Hd. pose proof (zlen_ipv4_bytes h) as Hz.
  revert Hd Hz. generalize (ipv4_bytes h). intros d Hd Hz.
  assert (Hf : ∀ o n, 0 ≤ o → 0 ≤ n → o + n ≤ 20 → 0 ≤ le_val (slice o n d) < 256 ^ n).
  { intros o n ? ? ?. pose proof (field_range n o d Hd) as Hr. by rewrite zlen_slice in Hr by lia. }
  cbn. unfold byte_at, read_le16. split_and!; apply Hf; lia.
Qed.
Lemma udp_ok_ranges h :
  udp_ok h → 0 ≤ source_port h < 2 ^ 16 ∧ 0 ≤ dest_port h < 2 ^ 16 ∧ 0 ≤ udp_length h < 2 ^ 16 ∧ 0 ≤ udp_cksum h < 2 ^ 16.
Proof.
  unfold udp_ok. intros <-. pose proof (udp_bytes_ok h) as Hd. pose proof (zlen_udp_bytes h) as Hz.
  revert Hd Hz. generalize (udp_bytes h). intros d Hd Hz.
  assert (Hf : ∀ o n, 0 ≤ o → 0 ≤ n → o + n ≤ 8 → 0 ≤ le_val (slice o n d) < 256 ^ n).
  { intros o n ? ? ?. pose proof (field_range n o d Hd) as Hr. by rewrite zlen_slice in Hr by lia. }
  cbn. unfold read_le16. split_and!; apply Hf; lia.
Qed.
Lemma le_val_small n x : 0 ≤ x < 256 ^ Z.of_nat n → le_val (le_bytes n x) = x.
Proof. intros. by rewrite le_val_le_bytes, Z.mod_small. Qed.
Lemma ipv4_ok_intro h :
  0 ≤ version4_ihl4 h < 256 → 0 ≤ ds h < 256 → 0 ≤ total_length h < 65536 → 0 ≤ identification h < 65536 →
  0 ≤ flags3_fragmentoffset13 h < 65536 → 0 ≤ ttl h < 256 → 0 ≤ protocol h < 256 → 0 ≤ ip_checksum h < 65536 →
  0 ≤ source_address h < 2 ^ 32 → 0 ≤ destination_address h < 2 ^ 32 → ipv4_ok h.
Proof.
  intros. unfold ipv4_ok. transitivity (mkIpv4 (le_val (le_bytes 1 (version4_ihl4 h))) (le_val (le_bytes 1 (ds h)))
    (le_val (le_bytes 2 (total_length h))) (le_val (le_bytes 2 (identification h)))
    (le_val (le_bytes 2 (flags3_fragmentoffset13 h))) (le_val (le_bytes 1 (ttl h)))
    (le_val (le_bytes 1 (protocol h))) (le_val (le_bytes 2 (ip_checksum h)))
    (le_val (le_bytes 4 (source_address h))) (le_val (le_bytes 4 (destination_address h)))); [reflexivity|].
  rewrite !le_val_small by (done || lia). by destruct h.
Qed.
(** A header with another checksum and other addresses. *)
Lemma ipv4_ok_set h c src dst :
  ipv4_ok h → 0 ≤ c < 65536 → 0 ≤ src < 2 ^ 32 → 0 ≤ dst < 2 ^ 32 →
  ipv4_ok (set_ip_checksum c (set_ip_addresses src dst h)).
Proof.
  unfold ipv4_ok at 1. intros <- Hc Hs Hd. pose proof (ipv4_bytes_ok h) as Hok. pose proof (zlen_ipv4_bytes h) as Hz.
  revert Hok Hz. generalize (ipv4_bytes h). intros d Hok Hz.
  assert (Hf : ∀ o n, 0 ≤ o → 0 ≤ n → o + n ≤ 20 → 0 ≤ le_val (slice o n d) < 256 ^ n).
  { intros o n ? ? ?. pose proof (field_range n o d Hok) as Hr. by rewrite zlen_slice in Hr by lia. }
  apply ipv4_ok_intro; cbn; unfold byte_at, read_le16; try done; apply Hf; lia.
Qed.
Lemma udp_ok_intro h :
  0 ≤ source_port h < 65536 → 0 ≤ dest_port h < 65536 → 0 ≤ udp_length h < 65536 → 0 ≤ udp_cksum h < 65536 → udp_ok h.
Proof.
  intros. unfold udp_ok. transitivity (mkUdp (le_val (le_bytes 2 (source_port h))) (le_val (le_bytes 2 (dest_port h)))
    (le_val (le_bytes 2 (udp_length h))) (le_val (le_bytes 2 (udp_cksum h)))); [reflexivity|].
  rewrite !le_val_small by (done || lia). by destruct h.
Qed.
Lemma ipv6_ok_intro h :
  0 ≤ version4_tc4 h < 256 → 0 ≤ tc4_fl4 h < 256 → 0 ≤ fl h < 65536 → 0 ≤ payload_length h < 65536 →
  0 ≤ next_header h < 256 → 0 ≤ hop_limit h < 256 →
  zlen (source_address6 h) = 16 → zlen (destination_address6 h) = 16 → ipv6_ok h.
Proof.
  intros ? ? ? ? ? ? Hs Hd. split; [|done]. unfold ipv6_of.
  assert (Hs1 : slice 8 16 (ipv6_bytes h) = source_address6 h).
  { change (slice 8 16 (ipv6_bytes h)) with (slice 0 16 (source_address6 h ++ destination_address6 h)).
    by apply slice_0_app. }
  assert (Hs2 : slice 24 16 (ipv6_bytes h) = destination_address6 h).
  { change (slice 24 16 (ipv6_bytes h)) with (slice 16 16 (source_address6 h ++ destination_address6 h)).
    rewrite slice_app_r by lia. rewrite Hs. by apply slice_all. }
  rewrite Hs1, Hs2.
  transitivity (mkIpv6 (le_val (le_bytes 1 (version4_tc4 h))) (le_val (le_bytes 1 (tc4_fl4 h)))
    (le_val (le_bytes 2 (fl h))) (le_val (le_bytes 2 (payload_length h)))
    (le_val (le_bytes 1 (next_header h))) (le_val (le_bytes 1 (hop_limit h))) (source_address6 h) (destination_address6 h));
    [reflexivity|].
  rewrite !le_val_small by (done || lia). by destruct h.
Qed.

(** ** Packets

    What the checks accept: [stray] is what follows the packet. *)
Definition ipv4_packet (h : ipv4_header) (opts payload data : bytes) : Prop :=
  ipv4_ok h ∧ ∃ ihl stray,
    data = ipv4_bytes h ++ opts ++ payload ++ stray ∧
    version4_ihl4 h = 4 * 16 + ihl ∧ ihl ≤ 15 ∧ 20 + zlen opts = 4 * ihl ∧
    ntoh16 (total_length h) = 20 + zlen opts + zlen payload ∧
    ip_checksum h = hton16 (internet_checksum (ipv4_bytes (set_ip_checksum 0 h) ++ opts)).
Definition ipv6_packet (h : ipv6_header) (payload data : bytes) : Prop :=
  ipv6_ok h ∧ ∃ stray,
    data = ipv6_bytes h ++ payload ++ stray ∧ version4_tc4 h / 16 = 6 ∧ ntoh16 (payload_length h) = zlen payload.
Definition udp_datagram (h : udp_header) (payload data : bytes) : Prop :=
  udp_ok h ∧ ∃ stray, data = udp_bytes h ++ payload ++ stray ∧ ntoh16 (udp_length h) = 8 + zlen payload.

Lemma rd_ok o n l : 0 ≤ o → 0 ≤ n → o + n ≤ zlen l → rd o n l = Some (slice o n l).
Proof. intros. unfold rd. by replace ((0 <=? o) && (0 <=? n) && (o + n <=? zlen l)) with true by lia. Qed.
Lemma version_ihl v : 0 ≤ v < 256 → ∀ h, version4_ihl4 h = v → IPV4_GET_VERSION h = v / 16 ∧ IPV4_GET_IHL h = v mod 16.
Proof.
  intros Hv h <-. unfold IPV4_GET_VERSION, IPV4_GET_IHL. set (v := version4_ihl4 h) in *. split.
  - rewrite Z.shiftr_land. change (Z.shiftr 0xF0 4) with (Z.ones 4).
    rewrite Z.land_ones, Z.shiftr_div_pow2 by lia. apply Z.mod_small.
    split; [apply Z.div_pos; lia|apply Z.div_lt_upper_bound; lia].
  - rewrite Z.shiftr_0_r. change 0x0F with (Z.ones 4). by rewrite Z.land_ones by lia.
Qed.
Lemma hton16_0 : hton16 0 = 0.
Proof. done. Qed.
Lemma skipped o (l : bytes) : 0 ≤ o → slice 0 o l ++ zdrop o l = l.
Proof. intros. unfold slice. by rewrite zdrop_0, ztake_zdrop. Qed.

Lemma split_3 (l a b c : bytes) :
  l = a ++ b ++ c → slice 0 (zlen a) l = a ∧ slice (zlen a) (zlen b) l = b ∧ zlen l = zlen a + zlen b + zlen c.
Proof.
  intros ->. rewrite !zlen_app. split; [by apply slice_0_app|]. split; [|lia].
  rewrite slice_app_r, Z.sub_diag by lia. by apply slice_0_app.
Qed.
Lemma slices_join_3 (l : bytes) n m :
  0 ≤ n → 0 ≤ m → n + m ≤ zlen l → l = slice 0 n l ++ slice n m l ++ zdrop (n + m) l.
Proof.
  intros. rewrite <-(skipped (n + m) l) at 1 by lia. rewrite slice_split by lia. by rewrite <-app_assoc.
Qed.

(** The parts of a packet are slices of it. *)
Definition ipv4_accepted (data : bytes) : bool :=
  let h := ipv4_of (slice 0 20 data) in
  let header_len := version4_ihl4 h mod 16 * 4 in
  let total := ntoh16 (total_length h) in
  (version4_ihl4 h / 16 =? 4) && (20 <=? header_len) && (header_len <=? total) && (total <=? zlen data) &&
  (ip_checksum h =? hton16 (internet_checksum (ipv4_bytes (set_ip_checksum 0 h) ++ slice 20 (header_len - 20) data))).
Lemma ipv4_packet_slices h opts payload data :
  bytes_ok data →
  ipv4_packet h opts payload data ↔
  20 ≤ zlen data ∧ ipv4_accepted data = true ∧ h = ipv4_of (slice 0 20 data) ∧
  let header_len := version4_ihl4 h mod 16 * 4 in
  opts = slice 20 (header_len - 20) data ∧
  payload = slice header_len (ntoh16 (total_length h) - header_len) data.
Proof.
  intros Hok. pose proof (zlen_nonneg opts). pose proof (zlen_nonneg payload). split.
  - intros (Hh & ihl & stray & Hdata & Hv & Hi & Ho & Ht & Hc). pose proof (zlen_nonneg stray).
    destruct (ipv4_ok_ranges h Hh) as (Hr & _).
    destruct (split_3 data (ipv4_bytes h) opts (payload ++ stray) Hdata) as (Hs1 & Hs2 & Hs3).
    destruct (split_3 data (ipv4_bytes h ++ opts) payload stray) as (_ & Hs4 & Hs5); [by rewrite <-app_assoc|].
    rewrite !zlen_app, zlen_ipv4_bytes in *. rewrite Hs1, Hh.
    assert (version4_ihl4 h / 16 = 4) by (symmetry; apply (Z.div_unique _ _ _ ihl); lia).
    assert (Hm : version4_ihl4 h mod 16 = ihl) by (symmetry; apply (Z.mod_unique _ _ 4); lia).
    assert (Ho' : slice 20 (ihl * 4 - 20) data = opts) by (rewrite <-Hs2; f_equal; lia).
    split; [lia|]. split; [|cbn; rewrite Hm, Ht, Ho'; split_and!; [done|done|]].
    2:{ replace (ihl * 4) with (20 + zlen opts) by lia.
        by replace (20 + zlen opts + zlen payload - (20 + zlen opts)) with (zlen payload) by lia. }
    unfold ipv4_accepted. rewrite Hs1, Hh, Hm, Ho', Ht, <-Hc, Z.eqb_refl.
    replace (version4_ihl4 h / 16 =? 4) with true by lia. rewrite andb_true_r. cbn. lia.
  - intros (Hz & Hacc & -> & -> & ->). unfold ipv4_accepted in Hacc.
    assert (Hd : bytes_ok (slice 0 20 data)) by auto with cint.
    assert (Hzd : zlen (slice 0 20 data) = 20) by (apply zlen_slice; lia).
    set (h := ipv4_of (slice 0 20 data)) in *. assert (Hh : ipv4_ok h) by (by apply ipv4_of_ok).
    destruct (ipv4_ok_ranges h Hh) as (Hr & _).
    pose proof (Z.div_mod (version4_ihl4 h) 16 ltac:(done)). pose proof (Z.mod_pos_bound (version4_ihl4 h) 16 ltac:(done)).
    set (ihl := version4_ihl4 h mod 16) in *. set (total := ntoh16 (total_length h)) in *.
    apply andb_true_iff in Hacc as [Hacc Hsum]. zbool. split; [done|]. exists ihl, (zdrop total data).
    rewrite !zlen_slice by lia. split_and!; [|lia|lia|lia|lia|done].
    unfold h. rewrite ipv4_bytes_of by done. rewrite app_assoc, <-slice_split by lia.
    replace (20 + (ihl * 4 - 20)) with (ihl * 4) by lia.
    rewrite (slices_join_3 data (ihl * 4) (total - ihl * 4)) at 1 by lia. do 3 f_equal. lia.
Qed.
Lemma ipv4_check_run data :
  bytes_ok data →
  ipv4_check data = Some (if (20 <=? zlen data) && ipv4_accepted data then
    let h := ipv4_of (slice 0 20 data) in
    let header_len := version4_ihl4 h mod 16 * 4 in
    Some (h, slice header_len (ntoh16 (total_length h) - header_len) data) else None).
Proof.
  intros Hok. unfold ipv4_check, ipv4_accepted. zif (zlen data <? 20); [by replace (20 <=? zlen data) with false by lia|].
  replace (20 <=? zlen data) with true by lia. cbn [andb].
  rewrite (rd_ok 0 20) by lia. cbn [mbind option_bind]. set (d := slice 0 20 data).
  assert (Hd : bytes_ok d) by (unfold d; auto with cint). assert (Hzd : zlen d = 20) by (apply zlen_slice; lia).
  set (h := ipv4_of d) in *. assert (Hh : ipv4_ok h) by (by apply ipv4_of_ok).
  destruct (ipv4_ok_ranges h Hh) as (Hv & Ht & _).
  destruct (version_ihl (version4_ihl4 h) Hv h eq_refl) as [-> ->].
  pose proof (Z.mod_pos_bound (version4_ihl4 h) 16 ltac:(done)). set (ihl := version4_ihl4 h mod 16) in *.
  set (total := ntoh16 (total_length h)).
  zif (version4_ihl4 h / 16 =? 4); cbn [negb andb]; [|done].
  zif (ihl * 4 <? 20); [by replace (20 <=? ihl * 4) with false by lia|].
  replace (20 <=? ihl * 4) with true by lia. cbn [andb].
  zif (ihl * 4 >? zlen data).
  { zif (ihl * 4 <=? total); [|done]. by replace (total <=? zlen data) with false by lia. }
  zif (total <? ihl * 4); [by replace (ihl * 4 <=? total) with false by lia|].
  replace (ihl * 4 <=? total) with true by lia. cbn [andb].
  zif (total >? zlen data); [by replace (total <=? zlen data) with false by lia|].
  replace (total <=? zlen data) with true by lia. cbn [andb].
  rewrite (rd_ok 20) by lia. cbn [mbind option_bind]. rewrite hton16_0.
  rewrite (ipv4_checksum_spec _ (slice 20 (ihl * 4 - 20) data) (ihl * 4 - 20)).
  - cbn [mbind option_bind]. destruct (ip_checksum h =? _); cbn [negb]; [|done].
    by rewrite rd_ok by lia.
  - auto with cint.
  - by apply zlen_slice; lia.
  - replace (ihl * 4 - 20) with ((ihl * 2 - 10) * 2) by lia. by apply Z.mod_mul.
  - lia.
Qed.
Lemma ipv4_check_spec data h payload :
  bytes_ok data → ipv4_check data = Some (Some (h, payload)) ↔ ∃ opts, ipv4_packet h opts payload data.
Proof.
  intros Hok. rewrite ipv4_check_run by done. split.
  - destruct ((20 <=? zlen data) && ipv4_accepted data) eqn:E; [|done]. apply andb_true_iff in E as [? ?]. zbool.
    intros [= <- <-]. eexists. apply ipv4_packet_slices; [done|]. do 3 (split; [done|]). by split.
  - intros (opts & Hp). apply ipv4_packet_slices in Hp as (? & -> & -> & _ & ->); [|done].
    by replace (20 <=? zlen data) with true by lia.
Qed.

Lemma udp_check_spec data h payload :
  bytes_ok data → udp_check data = Some (Some (h, payload)) ↔ udp_datagram h payload data.
Proof.
  intros Hok. split.
  - unfold udp_check. zif (zlen data <? 8); [done|]. rewrite (rd_ok 0 8), (rd_ok 8) by lia. cbn [mbind option_bind].
    assert (Hzd : zlen (slice 0 8 data) = 8) by (apply zlen_slice; lia).
    assert (Hd : bytes_ok (slice 0 8 data)) by auto with cint.
    assert (Hk : zlen (slice 8 (zlen data - 8) data) = zlen data - 8) by (apply zlen_slice; lia).
    pose proof (udp_of_ok _ Hd Hzd) as Hh0. pose proof (udp_bytes_of _ Hd Hzd) as Hb0.
    revert Hh0 Hb0. rewrite Hk. generalize (udp_of (slice 0 8 data)). intros h0 Hh0 Hb0.
    zif (ntoh16 (udp_length h0) <? 8); [done|]. zif (ntoh16 (udp_length h0) >? 8 + (zlen data - 8)); [done|].
    rewrite rd_ok by lia. cbn [mbind option_bind]. intros [= <- <-].
    split; [done|]. exists (zdrop (ntoh16 (udp_length h0)) data).
    rewrite zlen_slice by lia. split; [|lia].
    rewrite Hb0. unfold slice at 2. rewrite zdrop_0. unfold slice at 2.
    rewrite ztake_ztake by lia. fold (slice 8 (ntoh16 (udp_length h0) - 8) data).
    rewrite (slices_join_3 data 8 (ntoh16 (udp_length h0) - 8)) at 1 by lia. do 3 f_equal. lia.
  - intros (Hh & stray & Hdata & Hl). destruct (split_3 _ _ _ _ Hdata) as (Hs1 & Hs2 & Hs3).
    pose proof (zlen_nonneg payload). pose proof (zlen_nonneg stray). rewrite zlen_udp_bytes in *.
    unfold udp_check. zif (zlen data <? 8); [lia|]. rewrite (rd_ok 0 8), (rd_ok 8) by lia. cbn [mbind option_bind].
    assert (Hk : zlen (slice 8 (zlen data - 8) data) = zlen data - 8) by (apply zlen_slice; lia).
    rewrite Hs1, Hh, Hl, Hk. zif (8 + zlen payload <? 8); [lia|].
    zif (8 + zlen payload >? 8 + (zlen data - 8)); [lia|].
    rewrite rd_ok by lia. cbn [mbind option_bind]. do 3 f_equal.
    rewrite <-Hs2 at 2. unfold slice. rewrite zdrop_0. rewrite ztake_ztake by lia. f_equal. lia.
Qed.
Lemma udp_check_total data : ∃ r, udp_check data = Some r.
Proof.
  unfold udp_check. zif (zlen data <? 8); [by eexists|]. rewrite (rd_ok 0 8), (rd_ok 8) by lia. cbn [mbind option_bind].
  zif (ntoh16 (udp_length (udp_of (slice 0 8 data))) <? 8); [by eexists|].
  zif (ntoh16 (udp_length (udp_of (slice 0 8 data))) >? 8 + zlen (slice 8 (zlen data - 8) data)); [by eexists|].
  rewrite rd_ok by lia. by eexists.
Qed.
Lemma ipv4_check_total data : bytes_ok data → ∃ r, ipv4_check data = Some r.
Proof. intros. rewrite ipv4_check_run by done. by eexists. Qed.
Lemma ipv6_check_total data : ∃ r, ipv6_check data = Some r.
Proof.
  unfold ipv6_check. zif (zlen data <? 40); [by eexists|]. rewrite (rd_ok 0 40) by lia. cbn [mbind option_bind].
  case_match; [by eexists|]. pose proof (hton16_range (payload_length (ipv6_of (slice 0 40 data)))).
  zif (ntoh16 (payload_length (ipv6_of (slice 0 40 data))) >? zlen data - 40); [by eexists|].
  unfold ntoh16 in *. rewrite rd_ok by lia. by eexists.
Qed.
Lemma zlen_ipv6_bytes h : ipv6_ok h → zlen (ipv6_bytes h) = 40.
Proof. intros (_ & Hs & Hd). unfold ipv6_bytes. rewrite !zlen_app, !zlen_le_bytes, Hs, Hd. done. Qed.
Lemma ipv6_check_spec data h payload :
  bytes_ok data → ipv6_check data = Some (Some (h, payload)) ↔ ipv6_packet h payload data.
Proof.
  intros Hok. split.
  - unfold ipv6_check. zif (zlen data <? 40); [done|]. rewrite (rd_ok 0 40) by lia. cbn [mbind option_bind].
    assert (Hzd : zlen (slice 0 40 data) = 40) by (apply zlen_slice; lia).
    assert (Hd : bytes_ok (slice 0 40 data)) by auto with cint.
    pose proof (ipv6_of_ok _ Hd Hzd) as Hh0. pose proof (ipv6_bytes_of _ Hd Hzd) as Hb0.
    revert Hh0 Hb0. generalize (ipv6_of (slice 0 40 data)). intros h0 Hh0 Hb0. rewrite Z.shiftr_div_pow2 by lia. change (2 ^ 4) with 16.
    zif (version4_tc4 h0 / 16 =? 6); cbn [negb]; [|done].
    pose proof (hton16_range (payload_length h0)). fold (ntoh16 (payload_length h0)) in *.
    zif (ntoh16 (payload_length h0) >? zlen data - 40); [done|].
    rewrite rd_ok by lia. cbn [mbind option_bind]. intros [= <- <-].
    split; [done|]. exists (zdrop (40 + ntoh16 (payload_length h0)) data).
    rewrite zlen_slice by lia. split; [|done]. rewrite Hb0.
    apply slices_join_3; lia.
  - intros (Hh & stray & Hdata & Hv & Hl). destruct (split_3 _ _ _ _ Hdata) as (Hs1 & Hs2 & Hs3).
    pose proof (zlen_nonneg payload). pose proof (zlen_nonneg stray). rewrite zlen_ipv6_bytes in * by done.
    unfold ipv6_check. zif (zlen data <? 40); [lia|]. rewrite (rd_ok 0 40) by lia. cbn [mbind option_bind].
    rewrite Hs1. destruct Hh as [-> _]. rewrite Z.shiftr_div_pow2 by lia. change (2 ^ 4) with 16. rewrite Hv, Hl. cbn [Z.eqb Pos.eqb negb].
    zif (zlen payload >? zlen data - 40); [lia|]. rewrite rd_ok by lia. cbn [mbind option_bind]. by rewrite Hs2.
Qed.
