(* ===== verification/DeviceUdp.v ===== *)
(** * UDP packets of the device

    [tun2socks/tun2socks.c]: a packet from the device is sent to the DNS gateway, to the
    UDP gateway or to lwIP; a datagram from the UDP gateway and a packet of lwIP are
    written to the device.

    The state is the buffer for writing and the table of the DNS gateway, a tree keyed by
    the port of the client.  The device, lwIP and the client of the UDP gateway are the
    calls.  Fragmented pbufs are lists of their parts. *)

From S2P Require Import Prelude CInt Addr IpProto.

(** the options the functions use, after [process_arguments] and the set-up in [main] *)
Record options := {
  udpgw : bool;              (** [udpgw_remote_server_addr] is set *)
  transparent_dns : bool;
  have_ip6 : bool;           (** [netif_ip6addr] is set *)
  dnsgw : option (Z * Z);    (** address and port *)
  netif_ip : Z;
  udp_mtu : Z;
  device_mtu : Z;
}.

(** [struct Connection]; the key [port] is the port in network byte order *)
Record Connection := mkConnection { local_addr : BAddr; remote_addr : BAddr; count : Z }.

Record state := mkState {
  device_write_buf : bytes;
  dns_init : bool;
  connections_tree : gmap Z Connection;
}.

Inductive call :=
| PacketPassInterface_Done
| SubmitPacket (local remote : BAddr) (is_dns : bool) (data : bytes)
| BTap_Send (data : bytes)
| ip_input (p : bytes) | ip6_input (p : bytes).

Abbreviation H := (M state call).
Definition opt {A} (o : option A) : H A := λ s, match o with Some a => Some (a, s, []) | None => None end.
(** [memcpy(device_write_buf + o, d, ...)] *)
Definition write (o : Z) (d : bytes) : H unit :=
  s ← get;
  ASSERT ((0 <=? o) && (o + zlen d <=? zlen (device_write_buf s)));;
  put (mkState (splice o d (device_write_buf s)) (dns_init s) (connections_tree s)).
(** [BTap_Send(&device, device_write_buf, len)], with its assertions *)
Definition send (o : options) (len : Z) : H unit :=
  s ← get;
  ASSERT ((0 <=? len) && (len <=? device_mtu o));;
  d ← opt (rd 0 len (device_write_buf s));
  emit (BTap_Send d).

(** ** The table of the DNS gateway *)

Definition find_connection (port : Z) (s : state) : option Connection := connections_tree s !! port.
Definition set_tree (f : gmap Z Connection → gmap Z Connection) (s : state) : state :=
  mkState (device_write_buf s) (dns_init s) (f (connections_tree s)).
Definition remove_connection (port : Z) (con : Connection) : H unit :=
  let con := mkConnection (local_addr con) (remote_addr con) (to_int (count con - 1)) in
  modify (set_tree (if count con <=? 0 then delete port else <[port := con]>)).
(** [mem]: [malloc] succeeds; the result is used without a check *)
Definition insert_connection (mem : bool) (local remote : BAddr) (port : Z) : H unit :=
  s ← get;
  match find_connection port s with
  | Some con =>
      modify (set_tree <[port := mkConnection (local_addr con) (remote_addr con) (to_int (count con + 1))]>)
  | None =>
      ASSERT mem;;
      modify (set_tree <[port := mkConnection local remote 1]>)
  end.

(** ** Packets from the device *)

(** the version of IP *)
Definition ip_version (data : bytes) : Z :=
  if zlen data >? 0 then Z.shiftr (byte_at 0 data) 4 else 0.

(** what [process_device_dns_packet] and [process_device_udp_packet] do with a packet
    before they use it: the headers, with the checksum of UDP set to 0, and the payload;
    the part for UDP is the same for both versions of IP *)
Definition parse_payload (checksum : udp_header → bytes → option Z) (data : bytes)
    : option (option (udp_header * bytes)) :=
  r ← udp_check data;
  match r with
  | None => Some None
  | Some (udph, data) =>
      let checksum_in_packet := udp_cksum udph in
      let udph := set_udp_checksum 0 udph in
      checksum_computed ← checksum udph data;
      if negb (checksum_in_packet =? checksum_computed) then Some None else Some (Some (udph, data))
  end.
Definition parse_udp (data : bytes) : option (option (ipv4_header * udp_header * bytes)) :=
  if zlen data <? 20 then Some None
  else
    p ← rd 9 1 data;
    if negb (le_val p =? IPV4_PROTOCOL_UDP) then Some None
    else
      r ← ipv4_check data;
      match r with
      | None => Some None
      | Some (iph, data) =>
          r ← parse_payload (λ udph data,
                udp_checksum udph data (zlen data) (source_address iph) (destination_address iph)) data;
          match r with None => Some None | Some (udph, data) => Some (Some (iph, udph, data)) end
      end.
Definition parse_udp6 (data : bytes) : option (option (ipv6_header * udp_header * bytes)) :=
  if zlen data <? 40 then Some None
  else
    p ← rd 6 1 data;
    if negb (le_val p =? IPV6_NEXT_UDP) then Some None
    else
      r ← ipv6_check data;
      match r with
      | None => Some None
      | Some (iph, data) =>
          r ← parse_payload (λ udph data,
                udp_ip6_checksum udph data (zlen data) (source_address6 iph) (destination_address6 iph)) data;
          match r with None => Some None | Some (udph, data) => Some (Some (iph, udph, data)) end
      end.

(** the packet with new addresses and ports, and its checksums *)
Definition dns_write_packet (o : options) (iph : ipv4_header) (udph : udp_header) (data : bytes) : H bool :=
  c ← opt (ipv4_checksum (set_ip_checksum (hton16 0) iph) [] 0);
  let iph := set_ip_checksum c iph in
  let udph := set_udp_checksum (hton16 0) udph in
  c ← opt (udp_checksum udph data (zlen data) (source_address iph) (destination_address iph));
  let udph := set_udp_checksum c udph in
  write 0 (ipv4_bytes iph);;
  write 20 (udp_bytes udph);;
  write (20 + 8) data;;
  send o (20 + 8 + zlen data);;
  mret true.
Definition process_device_dns_packet (o : options) (mem : bool) (data : bytes) : H bool :=
  match dnsgw o with
  | None => mret false
  | Some (gw_ip, gw_port) =>
      if ip_version data =? 4 then
        r ← opt (parse_udp data);
        match r with
        | None => mret false
        | Some (iph, udph, data) =>
            let to_dns := dest_port udph =? hton16 53 in
            let from_dns := source_port udph =? gw_port in
            if to_dns then
              modify (λ s, if dns_init s then s else mkState (device_write_buf s) true ∅);;
              insert_connection mem (BAddr_MakeIPv4 (source_address iph) (source_port udph))
                (BAddr_MakeIPv4 (destination_address iph) (dest_port udph)) (source_port udph);;
              dns_write_packet o (set_ip_addresses (netif_ip o) gw_ip iph)
                (mkUdp (source_port udph) gw_port (udp_length udph) (udp_cksum udph)) data
            else if from_dns then
              s ← get;
              if negb (dns_init s) then mret false
              else
                match find_connection (dest_port udph) s with
                | None => mret false
                | Some con =>
                    match remote_addr con, local_addr con with
                    | BAddr_v4 remote_ip remote_port, BAddr_v4 local_ip _ =>
                        remove_connection (dest_port udph) con;;
                        dns_write_packet o (set_ip_addresses remote_ip local_ip iph)
                          (mkUdp remote_port (dest_port udph) (udp_length udph) (udp_cksum udph)) data
                    | _, _ => unreachable
                    end
                end
            else mret false
        end
      else mret false
  end.

Definition submit (o : options) (local remote : BAddr) (is_dns : bool) (data : bytes) : H bool :=
  if zlen data >? udp_mtu o then mret false
  else emit (SubmitPacket local remote is_dns data);; mret true.
Definition process_device_udp_packet (o : options) (data : bytes) : H bool :=
  if negb (udpgw o) then mret false
  else if ip_version data =? 4 then
    r ← opt (parse_udp data);
    match r with
    | None => mret false
    | Some (iph, udph, data) =>
        submit o (BAddr_MakeIPv4 (source_address iph) (source_port udph))
          (BAddr_MakeIPv4 (destination_address iph) (dest_port udph))
          (transparent_dns o && (destination_address iph =? netif_ip o) && (dest_port udph =? hton16 53)) data
    end
  else if ip_version data =? 6 then
    if negb (have_ip6 o) then mret false
    else
      r ← opt (parse_udp6 data);
      match r with
      | None => mret false
      | Some (iph, udph, data) =>
          submit o (BAddr_MakeIPv6 (source_address6 iph) (source_port udph))
            (BAddr_MakeIPv6 (destination_address6 iph) (dest_port udph)) false data
      end
  else mret false.

(** a pbuf of one part *)
Definition netif_input_func (o : options) (p : bytes) : H unit :=
  if ip_version p =? 4 then emit (ip_input p)
  else if ip_version p =? 6 then when (have_ip6 o) (emit (ip6_input p))
  else mret tt.
(** [mem] and [pbuf]: [malloc] and [pbuf_alloc] succeed *)
Definition device_read_handler_send (o : options) (mem pbuf : bool) (data : bytes) : H unit :=
  emit PacketPassInterface_Done;;
  done ← process_device_dns_packet o mem data;
  if done : bool then mret tt
  else
    done ← process_device_udp_packet o data;
    if done : bool then mret tt
    else if zlen data >? UINT16_MAX then mret tt
    else if negb pbuf then mret tt
    else netif_input_func o data.

(** ** Packets to the device *)

Definition udpgw_client_handler_received (o : options) (local remote : BAddr) (data : bytes) : H unit :=
  ASSERT (udpgw o);;
  match local, remote with
  | BAddr_v4 local_ip local_port, BAddr_v4 remote_ip remote_port =>
      if (zlen data >? UINT16_MAX - (20 + 8)) || (zlen data >? device_mtu o - (20 + 8)) then mret tt
      else
        let iph := mkIpv4 (IPV4_MAKE_VERSION_IHL 20) 0 (hton16 (u16 (20 + 8 + zlen data))) (hton16 0) (hton16 0)
          64 IPV4_PROTOCOL_UDP (hton16 0) remote_ip local_ip in
        c ← opt (ipv4_checksum iph [] 0);
        let iph := set_ip_checksum c iph in
        let udph := mkUdp remote_port local_port (hton16 (u16 (8 + zlen data))) (hton16 0) in
        c ← opt (udp_checksum udph data (zlen data) (source_address iph) (destination_address iph));
        let udph := set_udp_checksum c udph in
        write 0 (ipv4_bytes iph);;
        write 20 (udp_bytes udph);;
        write (20 + 8) data;;
        send o (20 + 8 + zlen data)
  | BAddr_v6 local_ip local_port, BAddr_v6 remote_ip remote_port =>
      if negb (have_ip6 o) then mret tt
      else if (zlen data >? UINT16_MAX - 8) || (zlen data >? device_mtu o - (40 + 8)) then mret tt
      else
        let iph := mkIpv6 (Z.shiftl 6 4) 0 (hton16 0) (hton16 (u16 (8 + zlen data))) IPV6_NEXT_UDP 64
          (ztake 16 remote_ip) (ztake 16 local_ip) in
        let udph := mkUdp remote_port local_port (hton16 (u16 (8 + zlen data))) (hton16 0) in
        c ← opt (udp_ip6_checksum udph data (zlen data) (source_address6 iph) (destination_address6 iph));
        let udph := set_udp_checksum c udph in
        write 0 (ipv6_bytes iph);;
        write 40 (udp_bytes udph);;
        write (40 + 8) data;;
        send o (40 + 8 + zlen data)
  | _, _ => unreachable
  end.

(** the loop over the parts of a pbuf; the result is the length, nothing when there is no room *)
Fixpoint copy_parts (o : options) (p : list bytes) (len : Z) : H (option Z) :=
  match p with
  | [] => mret (Some len)
  | d :: p =>
      if zlen d >? device_mtu o - len then mret None
      else write len d;; copy_parts o p (len + zlen d)
  end.
Definition common_netif_output (o : options) (quitting : bool) (p : list bytes) : H unit :=
  if quitting then mret tt
  else
    match p with
    | [d] => if zlen d >? device_mtu o then mret tt else emit (BTap_Send d)
    | _ =>
        len ← copy_parts o p 0;
        match len with
        | None => mret tt
        | Some len => send o len
        end
    end.

(** ** What the packets are *)

Definition udp_packet (iph : ipv4_header) (opts : bytes) (udph : udp_header) (payload data : bytes) : Prop :=
  ∃ ip_payload, ipv4_packet iph opts ip_payload data ∧ protocol iph = IPV4_PROTOCOL_UDP ∧
    udp_datagram udph payload ip_payload ∧
    udp_cksum udph = hton16 (internet_checksum
      (pseudo_header (source_address iph) (destination_address iph) (8 + zlen payload) ++
       udp_bytes (set_udp_checksum 0 udph) ++ payload)).
Definition udp6_packet (iph : ipv6_header) (udph : udp_header) (payload data : bytes) : Prop :=
  ∃ ip_payload, ipv6_packet iph ip_payload data ∧ next_header iph = IPV6_NEXT_UDP ∧
    udp_datagram udph payload ip_payload ∧
    udp_cksum udph = hton16 (internet_checksum
      (pseudo_header6 (source_address6 iph) (destination_address6 iph) (8 + zlen payload) ++
       udp_bytes (set_udp_checksum 0 udph) ++ payload)).

(** The addresses, the flag and the payload the UDP gateway is given for a packet. *)
Inductive datagram (o : options) (data : bytes) : BAddr → BAddr → bool → bytes → Prop :=
| datagram_v4 iph opts udph payload :
    udp_packet iph opts udph payload data →
    datagram o data (BAddr_v4 (source_address iph) (source_port udph))
      (BAddr_v4 (destination_address iph) (dest_port udph))
      (transparent_dns o && (destination_address iph =? netif_ip o) && (dest_port udph =? hton16 53)) payload
| datagram_v6 iph udph payload :
    have_ip6 o = true → udp6_packet iph udph payload data →
    datagram o data (BAddr_v6 (source_address6 iph) (source_port udph))
      (BAddr_v6 (destination_address6 iph) (dest_port udph)) false payload.

(** ** The fields of a packet are read where they are *)

Lemma ipv4_packet_front h opts p data :
  ipv4_packet h opts p data →
  20 ≤ zlen data ∧ slice 9 1 data = le_bytes 1 (protocol h) ∧ le_val (slice 9 1 data) = protocol h ∧
  ip_version data = 4.
Proof.
  intros (Hh & ihl & stray & -> & Hv & Hi & Ho & _). pose proof (zlen_nonneg opts).
  pose proof (zlen_ipv4_bytes h) as Hz. pose proof (zlen_nonneg (opts ++ p ++ stray)). rewrite zlen_app.
  split; [lia|].
  assert (Hp : slice 9 1 (ipv4_bytes h ++ opts ++ p ++ stray) = le_bytes 1 (protocol h))
    by (by rewrite slice_app_l by lia).
  rewrite Hp. split; [done|]. destruct (ipv4_ok_ranges h Hh) as (Hvr & _ & Hpr & _).
  split; [by apply le_val_small|]. unfold ip_version, byte_at. rewrite zlen_app.
  zif (zlen (ipv4_bytes h) + zlen (opts ++ p ++ stray) >? 0); [|lia].
  rewrite slice_app_l by lia. change (slice 0 1 (ipv4_bytes h)) with (le_bytes 1 (version4_ihl4 h)).
  rewrite le_val_small by done. rewrite Z.shiftr_div_pow2 by lia. symmetry. apply (Z.div_unique _ _ _ ihl); lia.
Qed.
Lemma ipv6_packet_front h p data :
  ipv6_packet h p data →
  40 ≤ zlen data ∧ slice 6 1 data = le_bytes 1 (next_header h) ∧ le_val (slice 6 1 data) = next_header h ∧
  ip_version data = 6.
Proof.
  intros (Hh & stray & -> & Hv & _). pose proof (zlen_ipv6_bytes h Hh) as Hz. pose proof (zlen_nonneg (p ++ stray)).
  rewrite zlen_app. split; [lia|].
  assert (Hp : slice 6 1 (ipv6_bytes h ++ p ++ stray) = le_bytes 1 (next_header h)) by (by rewrite slice_app_l by lia).
  rewrite Hp. split; [done|]. destruct Hh as [Hh _].
  assert (Hr : 0 ≤ version4_tc4 h < 256 ∧ 0 ≤ next_header h < 256).
  { rewrite <-Hh. cbn. unfold byte_at.
    change (slice 0 1 (ipv6_bytes h)) with (le_bytes 1 (version4_tc4 h)).
    change (slice 6 1 (ipv6_bytes h)) with (le_bytes 1 (next_header h)).
    rewrite !le_val_le_bytes. split; by apply Z.mod_pos_bound. }
  split; [by apply le_val_small; lia|]. unfold ip_version, byte_at. rewrite zlen_app.
  zif (zlen (ipv6_bytes h) + zlen (p ++ stray) >? 0); [|lia].
  rewrite slice_app_l by lia. change (slice 0 1 (ipv6_bytes h)) with (le_bytes 1 (version4_tc4 h)).
  rewrite le_val_small by (cbn; lia). by rewrite Z.shiftr_div_pow2 by lia.
Qed.
Lemma ipv4_packet_payload h opts p data : bytes_ok data → ipv4_packet h opts p data → bytes_ok p.
Proof. intros Hok (_ & ? & ? & -> & _). rewrite !bytes_ok_app in Hok. by destruct Hok as (_ & _ & ? & _). Qed.
Lemma ipv6_packet_payload h p data : bytes_ok data → ipv6_packet h p data →
  bytes_ok p ∧ bytes_ok (source_address6 h) ∧ zlen (source_address6 h) = 16 ∧
  bytes_ok (destination_address6 h) ∧ zlen (destination_address6 h) = 16.
Proof.
  intros Hok ([? [? ?]] & ? & -> & _). unfold ipv6_bytes in Hok. rewrite !bytes_ok_app in Hok.
  destruct Hok as ((_ & _ & _ & _ & _ & _ & ? & ?) & ? & _). done.
Qed.
Lemma udp_datagram_payload h p data : bytes_ok data → udp_datagram h p data → bytes_ok p ∧ zlen p ≤ UINT16_MAX - 8.
Proof.
  intros Hok (Hh & ? & -> & Hl). rewrite !bytes_ok_app in Hok. split; [by destruct Hok as (_ & ? & _)|].
  pose proof (hton16_range (udp_length h)). unfold ntoh16, UINT16_MAX in *. lia.
Qed.

(** A check that is total and decides a relation. *)
Definition decides {A} (r : option (option A)) (P : A → Prop) : Prop :=
  ∃ r', r = Some r' ∧ ∀ x, r' = Some x ↔ P x.
Lemma decides_no {A} (P : A → Prop) : (∀ x, ¬ P x) → decides (Some None) P.
Proof. intros HP. exists None. split; [done|]. intros x. split; [done|]. by intros ?%HP. Qed.
Lemma decides_yes {A} x (P : A → Prop) : (∀ y, P y ↔ y = x) → decides (Some (Some x)) P.
Proof. intros HP. exists (Some x). split; [done|]. intros y. rewrite HP. split; congruence. Qed.

Lemma parse_payload_spec checksum pseudo data :
  bytes_ok data →
  (∀ u q, bytes_ok q → zlen q ≤ UINT16_MAX - 8 →
    checksum u q = Some (hton16 (internet_checksum (pseudo q ++ udp_bytes u ++ q)))) →
  decides (parse_payload checksum data) (λ '(u0, q), ∃ u, u0 = set_udp_checksum 0 u ∧ udp_datagram u q data ∧
    udp_cksum u = hton16 (internet_checksum (pseudo q ++ udp_bytes (set_udp_checksum 0 u) ++ q))).
Proof.
  intros Hok Hsum. unfold parse_payload. destruct (udp_check_total data) as [r Hr].
  pose proof (λ h p, udp_check_spec data h p Hok) as Hspec. rewrite Hr in *. cbn [mbind option_bind].
  destruct r as [[udph q]|].
  2:{ apply decides_no. intros [u0 q] (u & _ & Hd & _). by apply Hspec in Hd. }
  pose proof (proj1 (Hspec udph q) eq_refl) as Hd. destruct (udp_datagram_payload _ _ _ Hok Hd) as [Hqok Hql].
  assert (Huniq : ∀ u p, udp_datagram u p data → u = udph ∧ p = q).
  { intros u p Hup. apply Hspec in Hup. by injection Hup as -> ->. }
  rewrite Hsum by done. cbn [mbind option_bind]. destruct (udp_cksum udph =? _) eqn:Hc; cbn [negb]; zbool.
  - apply decides_yes. intros [u0 p]. split; [by intros (u & -> & [-> ->]%Huniq & _)|].
    intros [= -> ->]. by exists udph.
  - apply decides_no. intros [u0 p] (u & _ & [-> ->]%Huniq & ?). done.
Qed.
Lemma parse_udp_spec data :
  bytes_ok data →
  decides (parse_udp data) (λ '(iph, u0, payload), ∃ opts udph, u0 = set_udp_checksum 0 udph ∧
    udp_packet iph opts udph payload data).
Proof.
  intros Hok. unfold parse_udp. zif (zlen data <? 20).
  { apply decides_no. intros [[iph u0] q] (opts & udph & _ & p & Hp & _). apply ipv4_packet_front in Hp. lia. }
  rewrite rd_ok by lia. cbn [mbind option_bind]. zif (le_val (slice 9 1 data) =? IPV4_PROTOCOL_UDP); cbn [negb].
  2:{ apply decides_no. intros [[iph u0] q] (opts & udph & _ & p & Hp & Hpr & _).
      apply ipv4_packet_front in Hp as (_ & _ & Hp & _). congruence. }
  destruct (ipv4_check_total data Hok) as [r Hr]. pose proof (λ h p, ipv4_check_spec data h p Hok) as Hspec.
  rewrite Hr in *. cbn [mbind option_bind]. destruct r as [[iph p]|].
  2:{ apply decides_no. intros [[iph u0] q] (opts & udph & _ & p & Hp & _).
      assert (Some (@None (ipv4_header * bytes)) = Some (Some (iph, p))) by (apply Hspec; by exists opts). done. }
  destruct (proj1 (Hspec iph p) eq_refl) as [opts Hpacket].
  assert (Huniq : ∀ iph' opts' p', ipv4_packet iph' opts' p' data → iph' = iph ∧ p' = p).
  { intros iph' opts' p' Hp'. assert (He : Some (Some (iph, p)) = Some (Some (iph', p')))
      by (apply Hspec; by exists opts'). by injection He as -> ->. }
  destruct (parse_payload_spec (λ udph data, udp_checksum udph data (zlen data) (source_address iph) (destination_address iph))
    (λ q, pseudo_header (source_address iph) (destination_address iph) (8 + zlen q)) p) as (r & -> & Hpp).
  { by eapply ipv4_packet_payload. }
  { intros u q Hq Hql. by apply udp_checksum_spec. }
  cbn [mbind option_bind]. destruct r as [[u0 q]|].
  - destruct (proj1 (Hpp (u0, q)) eq_refl) as (udph & Hu0 & Hd & Hc). apply decides_yes. intros [[iph' u0'] q']. split.
    + intros (opts' & udph' & -> & p' & Hp' & _ & Hd' & Hc'). destruct (Huniq _ _ _ Hp') as [-> ->].
      assert (He : Some (u0, q) = Some (set_udp_checksum 0 udph', q')) by (apply Hpp; by exists udph').
      by injection He as -> ->.
    + intros [= -> -> ->]. exists opts, udph. split; [done|]. exists p. split; [done|]. split; [|done].
      apply ipv4_packet_front in Hpacket as (_ & _ & Hpr & _). congruence.
  - apply decides_no. intros [[iph' u0'] q'] (opts' & udph' & -> & p' & Hp' & _ & Hd' & Hc').
    destruct (Huniq _ _ _ Hp') as [-> ->].
    assert (He : None = Some (set_udp_checksum 0 udph', q')) by (apply Hpp; by exists udph'). done.
Qed.
Lemma parse_udp6_spec data :
  bytes_ok data →
  decides (parse_udp6 data) (λ '(iph, u0, payload), ∃ udph, u0 = set_udp_checksum 0 udph ∧
    udp6_packet iph udph payload data).
Proof.
  intros Hok. unfold parse_udp6. zif (zlen data <? 40).
  { apply decides_no. intros [[iph u0] q] (udph & _ & p & Hp & _). apply ipv6_packet_front in Hp. lia. }
  rewrite rd_ok by lia. cbn [mbind option_bind]. zif (le_val (slice 6 1 data) =? IPV6_NEXT_UDP); cbn [negb].
  2:{ apply decides_no. intros [[iph u0] q] (udph & _ & p & Hp & Hpr & _).
      apply ipv6_packet_front in Hp as (_ & _ & Hp & _). congruence. }
  destruct (ipv6_check_total data) as [r Hr]. pose proof (λ h p, ipv6_check_spec data h p Hok) as Hspec.
  rewrite Hr in *. cbn [mbind option_bind]. destruct r as [[iph p]|].
  2:{ apply decides_no. intros [[iph u0] q] (udph & _ & p & Hp & _).
      assert (Some (@None (ipv6_header * bytes)) = Some (Some (iph, p))) by (by apply Hspec). done. }
  pose proof (proj1 (Hspec iph p) eq_refl) as Hpacket.
  destruct (ipv6_packet_payload _ _ _ Hok Hpacket) as (? & ? & ? & ? & ?).
  assert (Huniq : ∀ iph' p', ipv6_packet iph' p' data → iph' = iph ∧ p' = p).
  { intros iph' p' Hp'. assert (He : Some (Some (iph, p)) = Some (Some (iph', p')))
      by (by apply Hspec). by injection He as -> ->. }
  destruct (parse_payload_spec (λ udph data, udp_ip6_checksum udph data (zlen data) (source_address6 iph) (destination_address6 iph))
    (λ q, pseudo_header6 (source_address6 iph) (destination_address6 iph) (8 + zlen q)) p) as (r & -> & Hpp).
  { done. }
  { intros u q Hq Hql. by apply udp_ip6_checksum_spec. }
  cbn [mbind option_bind]. destruct r as [[u0 q]|].
  - destruct (proj1 (Hpp (u0, q)) eq_refl) as (udph & Hu0 & Hd & Hc). apply decides_yes. intros [[iph' u0'] q']. split.
    + intros (udph' & -> & p' & Hp' & _ & Hd' & Hc'). destruct (Huniq _ _ Hp') as [-> ->].
      assert (He : Some (u0, q) = Some (set_udp_checksum 0 udph', q')) by (apply Hpp; by exists udph').
      by injection He as -> ->.
    + intros [= -> -> ->]. exists udph. split; [done|]. exists p. split; [done|]. split; [|done].
      apply ipv6_packet_front in Hpacket as (_ & _ & Hpr & _). congruence.
  - apply decides_no. intros [[iph' u0'] q'] (udph' & -> & p' & Hp' & _ & Hd' & Hc').
    destruct (Huniq _ _ Hp') as [-> ->].
    assert (He : None = Some (set_udp_checksum 0 udph', q')) by (apply Hpp; by exists udph'). done.
Qed.

(** ** Packets for the UDP gateway *)

Lemma opt_run {A B} (x : A) (f : A → H B) s : (opt (Some x) ≫= f) s = f x s.
Proof. unfold opt. erewrite M_bind_run0; reflexivity. Qed.
Definition udp_outcome (r : option (BAddr * BAddr * bool * bytes)) (s : state) : option (bool * state * list call) :=
  match r with
  | Some (local, remote, dns, payload) => Some (true, s, [SubmitPacket local remote dns payload])
  | None => Some (false, s, [])
  end.
Lemma submit_run o local remote dns payload s :
  submit o local remote dns payload s =
    udp_outcome (if zlen payload <=? udp_mtu o then Some (local, remote, dns, payload) else None) s.
Proof.
  unfold submit. zif (zlen payload >? udp_mtu o).
  - by replace (zlen payload <=? udp_mtu o) with false by lia.
  - by replace (zlen payload <=? udp_mtu o) with true by lia.
Qed.
(** A packet that is parsed is one datagram. *)
Lemma submit_decides o data (local remote : BAddr) dns payload s :
  udpgw o = true → datagram o data local remote dns payload →
  (∀ l r d p, datagram o data l r d p → l = local ∧ r = remote ∧ d = dns ∧ p = payload) →
  ∃ r, submit o local remote dns payload s = udp_outcome r s ∧
    ∀ l m d p, r = Some (l, m, d, p) ↔ udpgw o = true ∧ zlen p ≤ udp_mtu o ∧ datagram o data l m d p.
Proof.
  intros Hg Hd Huniq. rewrite submit_run. eexists. split; [done|]. intros l m d p.
  zif (zlen payload <=? udp_mtu o).
  - split; [by intros [= <- <- <- <-]|]. by intros (_ & _ & (-> & -> & -> & ->)%Huniq).
  - split; [done|]. intros (_ & ? & (-> & -> & -> & ->)%Huniq). lia.
Qed.
Lemma udp_packet_unique data iph opts udph payload iph' opts' udph' payload' :
  bytes_ok data → udp_packet iph opts udph payload data → udp_packet iph' opts' udph' payload' data →
  iph' = iph ∧ set_udp_checksum 0 udph' = set_udp_checksum 0 udph ∧ payload' = payload.
Proof.
  intros Hok H1 H2. destruct (parse_udp_spec data Hok) as (r & _ & Hr).
  assert (E1 : r = Some (iph, set_udp_checksum 0 udph, payload)) by (apply Hr; by exists opts, udph).
  assert (E2 : r = Some (iph', set_udp_checksum 0 udph', payload')) by (apply Hr; by exists opts', udph').
  split_and!; congruence.
Qed.
Lemma udp6_packet_unique data iph udph payload iph' udph' payload' :
  bytes_ok data → udp6_packet iph udph payload data → udp6_packet iph' udph' payload' data →
  iph' = iph ∧ set_udp_checksum 0 udph' = set_udp_checksum 0 udph ∧ payload' = payload.
Proof.
  intros Hok H1 H2. destruct (parse_udp6_spec data Hok) as (r & _ & Hr).
  assert (E1 : r = Some (iph, set_udp_checksum 0 udph, payload)) by (apply Hr; by exists udph).
  assert (E2 : r = Some (iph', set_udp_checksum 0 udph', payload')) by (apply Hr; by exists udph').
  split_and!; congruence.
Qed.
Lemma datagram_unique o data l r d p l' r' d' p' :
  bytes_ok data → datagram o data l r d p → datagram o data l' r' d' p' →
  l' = l ∧ r' = r ∧ d' = d ∧ p' = p.
Proof.
  intros Hok H1 H2. destruct H1 as [iph opts udph payload H1|iph udph payload _ H1];
    destruct H2 as [iph' opts' udph' payload' H2|iph' udph' payload' _ H2].
  - destruct (udp_packet_unique _ _ _ _ _ _ _ _ _ Hok H1 H2) as (-> & Hu & ->).
    unfold set_udp_checksum in Hu. split_and!; congruence.
  - destruct H1 as (? & H1 & _), H2 as (? & H2 & _). apply ipv4_packet_front in H1 as (_ & _ & _ & H1).
    apply ipv6_packet_front in H2 as (_ & _ & _ & H2). congruence.
  - destruct H1 as (? & H1 & _), H2 as (? & H2 & _). apply ipv6_packet_front in H1 as (_ & _ & _ & H1).
    apply ipv4_packet_front in H2 as (_ & _ & _ & H2). congruence.
  - destruct (udp6_packet_unique _ _ _ _ _ _ _ Hok H1 H2) as (-> & Hu & ->).
    unfold set_udp_checksum in Hu. split_and!; congruence.
Qed.
Lemma datagram_version o data l r d p : datagram o data l r d p →
  ip_version data = 4 ∨ ip_version data = 6 ∧ have_ip6 o = true.
Proof.
  intros [? ? ? ? (? & Hp & _)|? ? ? ? (? & Hp & _)].
  - left. by apply ipv4_packet_front in Hp as (_ & _ & _ & ?).
  - right. by apply ipv6_packet_front in Hp as (_ & _ & _ & ?).
Qed.

Lemma device_udp_decides o data s :
  bytes_ok data →
  ∃ r, process_device_udp_packet o data s = udp_outcome r s ∧
    ∀ l m d p, r = Some (l, m, d, p) ↔ udpgw o = true ∧ zlen p ≤ udp_mtu o ∧ datagram o data l m d p.
Proof.
  intros Hok. unfold process_device_udp_packet.
  destruct (udpgw o) eqn:Hg; cbn [negb].
  2:{ exists None. split; [done|]. intros. by split; [|intros [? _]]. }
  assert (Hno : (∀ l m d p, ¬ datagram o data l m d p) →
    ∃ r, Some (false, s, []) = udp_outcome r s ∧
      ∀ l m d p, r = Some (l, m, d, p) ↔ true = true ∧ zlen p ≤ udp_mtu o ∧ datagram o data l m d p).
  { intros Hn. exists None. split; [done|]. intros. split; [done|]. intros (_ & _ & Hd). by apply Hn in Hd. }
  assert (Hver : ∀ l m d p, datagram o data l m d p →
    ip_version data = 4 ∨ ip_version data = 6 ∧ have_ip6 o = true) by (intros; by eapply datagram_version).
  assert (Hsub : ∀ l m d p, datagram o data l m d p →
    ∃ r, submit o l m d p s = udp_outcome r s ∧
      ∀ l m d p, r = Some (l, m, d, p) ↔ true = true ∧ zlen p ≤ udp_mtu o ∧ datagram o data l m d p).
  { intros l m d p Hd. pose proof (submit_decides o data l m d p s Hg Hd) as Hs. rewrite Hg in Hs.
    apply Hs. intros. by eapply datagram_unique. }
  zif (ip_version data =? 4); [|zif (ip_version data =? 6)].
  - destruct (parse_udp_spec data Hok) as (r & -> & Hr). rewrite opt_run.
    destruct r as [[[iph u0] payload]|].
    + destruct (proj1 (Hr _) eq_refl) as (opts & udph & -> & Hp). apply Hsub.
      exact (datagram_v4 o data iph opts udph payload Hp).
    + apply Hno. intros l m d p Hd. destruct Hd as [iph opts udph payload Hp|? ? ? ? (? & Hp & _)].
      * assert (None = Some (iph, set_udp_checksum 0 udph, payload)) by (apply Hr; by exists opts, udph). done.
      * apply ipv6_packet_front in Hp as (_ & _ & _ & ?). congruence.
  - destruct (have_ip6 o) eqn:H6; cbn [negb].
    2:{ apply Hno. intros l m d p Hd. destruct (Hver _ _ _ _ Hd) as [?|[_ ?]]; congruence. }
    destruct (parse_udp6_spec data Hok) as (r & -> & Hr). rewrite opt_run.
    destruct r as [[[iph u0] payload]|].
    + destruct (proj1 (Hr _) eq_refl) as (udph & -> & Hp). unfold BAddr_MakeIPv6.
      assert (Hpk := Hp). destruct Hpk as (p & Hpk & _). destruct (ipv6_packet_payload _ _ _ Hok Hpk) as (_ & _ & Hz1 & _ & Hz2).
      rewrite !ztake_all by lia. apply Hsub.
      exact (datagram_v6 o data iph udph payload H6 Hp).
    + apply Hno. intros l m d p Hd. destruct Hd as [? ? ? ? (? & Hp & _)|iph udph payload _ Hp].
      * apply ipv4_packet_front in Hp as (_ & _ & _ & ?). congruence.
      * assert (None = Some (iph, set_udp_checksum 0 udph, payload)) by (apply Hr; by exists udph). done.
  - apply Hno. intros l m d p Hd. by destruct (Hver _ _ _ _ Hd) as [?|[? _]].
Qed.

(** ** Packets that are written *)

Lemma write_run o d s A (k : H A) :
  0 ≤ o → o + zlen d ≤ zlen (device_write_buf s) →
  (write o d;; k) s = k (mkState (splice o d (device_write_buf s)) (dns_init s) (connections_tree s)).
Proof.
  intros Ho Hd. unfold write. rewrite M_bind_assoc. m_step. rewrite M_bind_assoc.
  replace ((0 <=? o) && (o + zlen d <=? zlen (device_write_buf s))) with true by lia. by do 2 m_step.
Qed.
Lemma send_end o s d n :
  slice 0 n (device_write_buf s) = d → 0 ≤ n ≤ device_mtu o → n ≤ zlen (device_write_buf s) →
  send o n s = Some (tt, s, [BTap_Send d]).
Proof.
  intros <- Hn Hb. unfold send. m_step.
  replace ((0 <=? n) && (n <=? device_mtu o)) with true by lia. m_step.
  rewrite rd_ok by lia. by rewrite opt_run.
Qed.
(** the state after a packet was written *)
Definition written (out : bytes) (s : state) : state :=
  mkState (splice 0 out (device_write_buf s)) (dns_init s) (connections_tree s).
Lemma writes_run o s h u d nu nd A (k : H A) :
  zlen (device_write_buf s) = device_mtu o → zlen h + zlen u + zlen d ≤ device_mtu o →
  nu = zlen h → nd = zlen h + zlen u →
  (write 0 h;; write nu u;; write nd d;; k) s = k (written (h ++ u ++ d) s) ∧
  zlen (device_write_buf (written (h ++ u ++ d) s)) = device_mtu o ∧
  slice 0 (zlen h + zlen u + zlen d) (device_write_buf (written (h ++ u ++ d) s)) = h ++ u ++ d.
Proof.
  intros Hb Hn -> ->. pose proof (zlen_nonneg h). pose proof (zlen_nonneg u). pose proof (zlen_nonneg d).
  assert (Hz3 : zlen (h ++ u ++ d) = zlen h + zlen u + zlen d) by (rewrite !zlen_app; lia).
  split; [|split; [cbn; rewrite zlen_splice; lia|cbn; apply slice_splice_same; lia]].
  rewrite write_run by lia. rewrite write_run by (cbn; rewrite ?zlen_splice; lia). cbn [device_write_buf dns_init connections_tree].
  replace (splice (zlen h) u (splice 0 h (device_write_buf s))) with (splice 0 (h ++ u) (device_write_buf s))
    by (rewrite <-splice_splice_after by lia; done).
  assert (Hz : zlen (h ++ u) = zlen h + zlen u) by apply zlen_app.
  rewrite write_run by (cbn; rewrite ?zlen_splice; lia). cbn [device_write_buf dns_init connections_tree].
  unfold written. rewrite (app_assoc h u d), <-(splice_splice_after 0 (h ++ u) d) by lia. by rewrite Hz.
Qed.
Lemma write_packet_run o s h u d nu nd n A (k : H A) :
  zlen (device_write_buf s) = device_mtu o → zlen h + zlen u + zlen d ≤ device_mtu o →
  nu = zlen h → nd = zlen h + zlen u → n = zlen h + zlen u + zlen d →
  (write 0 h;; write nu u;; write nd d;; send o n;; k) s =
    match k (written (h ++ u ++ d) s) with
    | Some (a, s', es) => Some (a, s', BTap_Send (h ++ u ++ d) :: es)
    | None => None
    end.
Proof.
  intros Hb Hn Hnu Hnd ->. pose proof (zlen_nonneg h). pose proof (zlen_nonneg u). pose proof (zlen_nonneg d).
  destruct (writes_run o s h u d nu nd A (send o (zlen h + zlen u + zlen d);; k)) as (-> & Hz & Hs); [done..|].
  by rewrite (M_bind_run _ _ _ _ _ _ (send_end o _ _ _ Hs ltac:(lia) ltac:(lia))).
Qed.
Lemma write_packet_end o s h u d nu nd n :
  zlen (device_write_buf s) = device_mtu o → zlen h + zlen u + zlen d ≤ device_mtu o →
  nu = zlen h → nd = zlen h + zlen u → n = zlen h + zlen u + zlen d →
  (write 0 h;; write nu u;; write nd d;; send o n) s =
    Some (tt, written (h ++ u ++ d) s, [BTap_Send (h ++ u ++ d)]).
Proof.
  intros Hb Hn Hnu Hnd ->. pose proof (zlen_nonneg h). pose proof (zlen_nonneg u). pose proof (zlen_nonneg d).
  destruct (writes_run o s h u d nu nd unit (send o (zlen h + zlen u + zlen d))) as (-> & Hz & Hs); [done..|].
  apply send_end; [done|lia|lia].
Qed.

(** A header with its checksum in front of a datagram with its checksum is a packet. *)
Definition with_ip_checksum (h : ipv4_header) : ipv4_header :=
  set_ip_checksum (hton16 (internet_checksum (ipv4_bytes (set_ip_checksum 0 h)))) h.
Definition with_udp_checksum (pseudo : bytes) (h : udp_header) (payload : bytes) : udp_header :=
  set_udp_checksum (hton16 (internet_checksum (pseudo ++ udp_bytes (set_udp_checksum 0 h) ++ payload))) h.
Definition pseudo_of (h : ipv4_header) (payload : bytes) : bytes :=
  pseudo_header (source_address h) (destination_address h) (8 + zlen payload).
Lemma udp_packet_intro h u payload :
  ipv4_ok (with_ip_checksum h) → udp_ok (with_udp_checksum (pseudo_of h payload) u payload) →
  version4_ihl4 h = 69 → ntoh16 (total_length h) = 28 + zlen payload → protocol h = IPV4_PROTOCOL_UDP →
  ntoh16 (udp_length u) = 8 + zlen payload →
  udp_packet (with_ip_checksum h) [] (with_udp_checksum (pseudo_of h payload) u payload) payload
    (ipv4_bytes (with_ip_checksum h) ++ udp_bytes (with_udp_checksum (pseudo_of h payload) u payload) ++ payload).
Proof.
  intros Hh Hu Hv Ht Hp Hl. set (u' := with_udp_checksum _ _ _). exists (udp_bytes u' ++ payload).
  split; [|split; [done|]]; [|split; [|done]].
  - split; [done|]. exists 5, []. rewrite app_nil_r. split; [done|]. split; [done|]. split; [done|]. split; [done|].
    split; [|cbn; by rewrite app_nil_r].
    change (total_length (with_ip_checksum h)) with (total_length h). rewrite Ht, zlen_app, zlen_udp_bytes.
    change (zlen (@nil Z)) with 0. lia.
  - split; [done|]. exists []. by rewrite app_nil_r.
Qed.
Lemma udp6_packet_intro h u payload :
  let u' := with_udp_checksum (pseudo_header6 (source_address6 h) (destination_address6 h) (8 + zlen payload)) u payload in
  ipv6_ok h → udp_ok u' → version4_tc4 h / 16 = 6 → ntoh16 (payload_length h) = 8 + zlen payload →
  next_header h = IPV6_NEXT_UDP → ntoh16 (udp_length u) = 8 + zlen payload →
  udp6_packet h u' payload (ipv6_bytes h ++ udp_bytes u' ++ payload).
Proof.
  intros u' Hh Hu Hv Ht Hp Hl. exists (udp_bytes u' ++ payload).
  split; [|split; [done|]]; [|split; [|done]].
  - split; [done|]. exists []. rewrite app_nil_r. split; [done|]. split; [done|]. by rewrite Ht, zlen_app, zlen_udp_bytes.
  - split; [done|]. exists []. by rewrite app_nil_r.
Qed.

(** a datagram of the UDP gateway that is written to the device *)
Definition fits (o : options) (local : BAddr) (data : bytes) : bool :=
  match local with
  | BAddr_v4 _ _ => (zlen data <=? UINT16_MAX - 28) && (zlen data <=? device_mtu o - 28)
  | BAddr_v6 _ _ => have_ip6 o && ((zlen data <=? UINT16_MAX - 8) && (zlen data <=? device_mtu o - 48))
  | BAddr_None => false
  end.
Lemma u16_max_small x : 0 ≤ x ≤ UINT16_MAX → u16 x = x.
Proof. unfold UINT16_MAX, u16. intros. apply Z.mod_small. lia. Qed.
Lemma ntoh16_u16 x : 0 ≤ x ≤ UINT16_MAX → ntoh16 (hton16 (u16 x)) = x.
Proof. intros. rewrite u16_max_small by done. rewrite ntoh16_hton16. unfold UINT16_MAX in *. apply Z.mod_small. lia. Qed.

Lemma received_v4 o lip lport rip rport data s :
  udpgw o = true → zlen (device_write_buf s) = device_mtu o → bytes_ok data →
  BAddr_ok (BAddr_v4 lip lport) → BAddr_ok (BAddr_v4 rip rport) → fits o (BAddr_v4 lip lport) data = true →
  ∃ h u out, udpgw_client_handler_received o (BAddr_v4 lip lport) (BAddr_v4 rip rport) data s =
      Some (tt, written out s, [BTap_Send out]) ∧
    udp_packet h [] u data out ∧ bytes_ok out ∧ zlen out = 28 + zlen data ∧
    source_address h = rip ∧ destination_address h = lip ∧ source_port u = rport ∧ dest_port u = lport.
Proof.
  intros Hg Hb Hok [Hl1 Hl2] [Hr1 Hr2] Hfit. cbn in Hfit. pose proof (zlen_nonneg data). zbool.
  unfold udpgw_client_handler_received. rewrite Hg. rewrite ASSERT_true by done. change (20 + 8) with 28.
  zif (zlen data >? UINT16_MAX - 28); [lia|]. zif (zlen data >? device_mtu o - 28); [lia|]. cbn [orb].
  set (h := mkIpv4 (IPV4_MAKE_VERSION_IHL 20) 0 (hton16 (u16 (28 + zlen data))) (hton16 0) (hton16 0)
    64 IPV4_PROTOCOL_UDP (hton16 0) rip lip).
  set (u := mkUdp rport lport (hton16 (u16 (8 + zlen data))) (hton16 0)). unfold UINT16_MAX in *.
  rewrite (ipv4_checksum_spec h [] 0) by first [apply bytes_ok_nil|done|lia]. rewrite opt_run. rewrite app_nil_r.
  rewrite (udp_checksum_spec _ data (zlen data)) by (unfold UINT16_MAX; done || lia). rewrite opt_run.
  change (set_ip_checksum (hton16 (internet_checksum (ipv4_bytes h))) h) with (with_ip_checksum h).
  change (set_udp_checksum (hton16 (internet_checksum (pseudo_header (source_address (with_ip_checksum h))
    (destination_address (with_ip_checksum h)) (8 + zlen data) ++ udp_bytes u ++ data))) u)
    with (with_udp_checksum (pseudo_of h data) u data).
  set (h' := with_ip_checksum h). set (u' := with_udp_checksum (pseudo_of h data) u data).
  pose proof (hton16_range (u16 (28 + zlen data))). pose proof (hton16_range (u16 (8 + zlen data))).
  pose proof (hton16_range (internet_checksum (ipv4_bytes (set_ip_checksum 0 h)))).
  pose proof (hton16_range (internet_checksum (pseudo_of h data ++ udp_bytes (set_udp_checksum 0 u) ++ data))).
  assert (Hp : udp_packet h' [] u' data (ipv4_bytes h' ++ udp_bytes u' ++ data)).
  { apply udp_packet_intro.
    - apply ipv4_ok_intro; cbn; done || lia.
    - apply udp_ok_intro; cbn; done || lia.
    - done.
    - apply ntoh16_u16. unfold UINT16_MAX. lia.
    - done.
    - apply ntoh16_u16. unfold UINT16_MAX. lia. }
  exists h', u', (ipv4_bytes h' ++ udp_bytes u' ++ data). split_and!; try done.
  - apply write_packet_end; rewrite ?zlen_ipv4_bytes, ?zlen_udp_bytes; done || lia.
  - rewrite !bytes_ok_app. split; [apply ipv4_bytes_ok|]. split; [apply udp_bytes_ok|done].
  - rewrite !zlen_app, zlen_ipv4_bytes, zlen_udp_bytes. lia.
Qed.
Lemma received_v6 o lip lport rip rport data s :
  udpgw o = true → zlen (device_write_buf s) = device_mtu o → bytes_ok data →
  BAddr_ok (BAddr_v6 lip lport) → BAddr_ok (BAddr_v6 rip rport) → fits o (BAddr_v6 lip lport) data = true →
  ∃ h u out, udpgw_client_handler_received o (BAddr_v6 lip lport) (BAddr_v6 rip rport) data s =
      Some (tt, written out s, [BTap_Send out]) ∧
    udp6_packet h u data out ∧ bytes_ok out ∧ zlen out = 48 + zlen data ∧
    source_address6 h = rip ∧ destination_address6 h = lip ∧ source_port u = rport ∧ dest_port u = lport.
Proof.
  intros Hg Hb Hok [[Hl1 Hl2] Hl3] [[Hr1 Hr2] Hr3] Hfit. cbn [fits] in Hfit. pose proof (zlen_nonneg data).
  apply andb_true_iff in Hfit as [H6 Hfit]. zbool.
  unfold udpgw_client_handler_received. rewrite Hg. rewrite ASSERT_true by done. rewrite H6. cbn [negb].
  change (40 + 8) with 48. zif (zlen data >? UINT16_MAX - 8); [lia|]. zif (zlen data >? device_mtu o - 48); [lia|]. cbn [orb].
  rewrite !ztake_all by lia.
  set (h := mkIpv6 (Z.shiftl 6 4) 0 (hton16 0) (hton16 (u16 (8 + zlen data))) IPV6_NEXT_UDP 64 rip lip).
  set (u := mkUdp rport lport (hton16 (u16 (8 + zlen data))) (hton16 0)).
  rewrite (udp_ip6_checksum_spec _ data (zlen data)) by (done || lia). rewrite opt_run.
  set (u' := set_udp_checksum (hton16 (internet_checksum (pseudo_header6 (source_address6 h) (destination_address6 h)
    (8 + zlen data) ++ udp_bytes u ++ data))) u). unfold UINT16_MAX in *.
  pose proof (hton16_range (u16 (8 + zlen data))).
  pose proof (hton16_range (internet_checksum (pseudo_header6 (source_address6 h) (destination_address6 h)
    (8 + zlen data) ++ udp_bytes u ++ data))).
  assert (Hh : ipv6_ok h) by (apply ipv6_ok_intro; cbn; done || lia).
  assert (Hp : udp6_packet h u' data (ipv6_bytes h ++ udp_bytes u' ++ data)).
  { apply (udp6_packet_intro h u data Hh).
    - apply udp_ok_intro; cbn; done || lia.
    - done.
    - apply ntoh16_u16. unfold UINT16_MAX. lia.
    - done.
    - apply ntoh16_u16. unfold UINT16_MAX. lia. }
  assert (Hz : zlen (ipv6_bytes h) = 40) by (by apply zlen_ipv6_bytes).
  exists h, u', (ipv6_bytes h ++ udp_bytes u' ++ data). split_and!; try done.
  - apply write_packet_end; rewrite ?Hz, ?zlen_udp_bytes; done || lia.
  - rewrite !bytes_ok_app. split; [|split; [apply udp_bytes_ok|done]].
    unfold ipv6_bytes. rewrite !bytes_ok_app. split_and!; try apply le_bytes_ok; done.
  - rewrite !zlen_app, Hz, zlen_udp_bytes. lia.
Qed.

(** ** The DNS gateway *)

Lemma udp_packet_payload iph opts udph payload data :
  bytes_ok data → udp_packet iph opts udph payload data →
  bytes_ok payload ∧ zlen payload ≤ UINT16_MAX - 8 ∧ 28 + zlen payload ≤ zlen data ∧ ip_version data = 4.
Proof.
  intros Hok (p & Hip & _ & Hd & _). pose proof (ipv4_packet_payload _ _ _ _ Hok Hip) as Hp.
  destruct (udp_datagram_payload _ _ _ Hp Hd). split; [done|]. split; [done|].
  split; [|by apply ipv4_packet_front in Hip as (_ & _ & _ & ?)].
  destruct Hip as (_ & ? & stray & -> & _), Hd as (_ & stray2 & -> & _).
  rewrite !zlen_app, zlen_ipv4_bytes, zlen_udp_bytes.
  pose proof (zlen_nonneg opts). pose proof (zlen_nonneg stray). pose proof (zlen_nonneg stray2). lia.
Qed.

(** what is written for a packet with new addresses [src], [dst] and ports [sp], [dp] *)
Definition dns_packet (iph : ipv4_header) (src dst : Z) (udph : udp_header) (sp dp : Z) (payload : bytes) : bytes :=
  let h := set_ip_addresses src dst iph in
  ipv4_bytes (with_ip_checksum h) ++
  udp_bytes (with_udp_checksum (pseudo_of h payload) (mkUdp sp dp (udp_length udph) 0) payload) ++ payload.
Lemma zlen_dns_packet iph src dst udph sp dp payload :
  zlen (dns_packet iph src dst udph sp dp payload) = 28 + zlen payload.
Proof. unfold dns_packet. rewrite !zlen_app, zlen_ipv4_bytes, zlen_udp_bytes. lia. Qed.
Lemma dns_write_packet_run o iph src dst udph sp dp payload s c :
  zlen (device_write_buf s) = device_mtu o → bytes_ok payload → zlen payload ≤ UINT16_MAX - 8 →
  28 + zlen payload ≤ device_mtu o →
  dns_write_packet o (set_ip_addresses src dst iph) (mkUdp sp dp (udp_length udph) c) payload s =
    Some (true, written (dns_packet iph src dst udph sp dp payload) s,
      [BTap_Send (dns_packet iph src dst udph sp dp payload)]).
Proof.
  intros Hb Hok Hl Hm. unfold dns_write_packet. set (h := set_ip_addresses src dst iph).
  rewrite (ipv4_checksum_spec _ [] 0) by first [apply bytes_ok_nil|done|lia]. rewrite opt_run, app_nil_r.
  change (hton16 0) with 0.
  rewrite (udp_checksum_spec _ payload (zlen payload)) by done. rewrite opt_run.
  rewrite (write_packet_run o s _ _ _ 20 (20 + 8) (20 + 8 + zlen payload))
    by (rewrite ?zlen_ipv4_bytes, ?zlen_udp_bytes; done || lia).
  reflexivity.
Qed.

(** a packet without options and without anything after the datagram *)
Definition plain_packet (src sp dst dp : Z) (payload data : bytes) : Prop :=
  bytes_ok data ∧ ∃ iph udph, udp_packet iph [] udph payload data ∧
    ntoh16 (total_length iph) = 28 + zlen payload ∧
    source_address iph = src ∧ source_port udph = sp ∧ destination_address iph = dst ∧ dest_port udph = dp.

(** between two handlers: the buffer holds a packet, the table holds IPv4 addresses *)
Definition entry_ok (con : Connection) : Prop :=
  ∃ lip lport rip rport, local_addr con = BAddr_v4 lip lport ∧ remote_addr con = BAddr_v4 rip rport.
Record state_ok (o : options) (s : state) : Prop := {
  so_buf : zlen (device_write_buf s) = device_mtu o;
  so_tree : ∀ p con, connections_tree s !! p = Some con → entry_ok con;
}.
(** the table when the first query arrives *)
Definition init_tree (s : state) : state := if dns_init s then s else mkState (device_write_buf s) true ∅.
Lemma init_tree_ok o s : state_ok o s → state_ok o (init_tree s) ∧ dns_init (init_tree s) = true.
Proof.
  intros [? ?]. unfold init_tree. destruct (dns_init s) eqn:E; [done|]. split; [|done]. split; [done|].
  intros p con. cbn. by rewrite lookup_empty.
Qed.
Lemma written_ok o out s : state_ok o s → zlen out ≤ device_mtu o → state_ok o (written out s).
Proof. intros [? ?] ?. split; [|done]. cbn. rewrite zlen_splice; lia. Qed.
Lemma set_tree_ok o f s :
  state_ok o s → (∀ p con, f (connections_tree s) !! p = Some con → entry_ok con) → state_ok o (set_tree f s).
Proof. intros [? ?] ?. by split. Qed.

Lemma insert_connection_run o lip lport rip rport port s :
  state_ok o s →
  ∃ con, insert_connection true (BAddr_v4 lip lport) (BAddr_v4 rip rport) port s = Some (tt, set_tree <[port := con]> s, []) ∧
    entry_ok con ∧ (connections_tree s !! port = None → con = mkConnection (BAddr_v4 lip lport) (BAddr_v4 rip rport) 1).
Proof.
  intros [Hb Ht]. unfold insert_connection. m_step. unfold find_connection.
  destruct (connections_tree s !! port) as [con|] eqn:E.
  - eexists. split; [done|]. split; [|done]. destruct (Ht _ _ E) as (l & lp & r & rp & H1 & H2).
    by exists l, lp, r, rp.
  - m_step. eexists. split; [done|]. split; [|done]. by exists lip, lport, rip, rport.
Qed.
(** without memory: only a query of a new port writes through the null pointer *)
Lemma insert_connection_no_memory local remote port s :
  insert_connection false local remote port s =
  if decide (find_connection port s = None) then None else insert_connection true local remote port s.
Proof. unfold insert_connection. rewrite !(M_bind_run0 get _ s s s) by done. by destruct (find_connection port s). Qed.
Lemma remove_connection_run o port con s :
  state_ok o s → entry_ok con →
  ∃ f, remove_connection port con s = Some (tt, set_tree f s, []) ∧ state_ok o (set_tree f s) ∧
    (∀ p, p ≠ port → f (connections_tree s) !! p = connections_tree s !! p) ∧
    (count con = 1 → f (connections_tree s) !! port = None).
Proof.
  intros Hok Hcon. unfold remove_connection. cbn [count]. eexists. split; [done|].
  destruct Hcon as (l & lp & r & rp & Hl & Hr). zif (to_int (count con - 1) <=? 0).
  - split; [|split; [|intros _; by rewrite lookup_delete_eq]].
    + apply set_tree_ok; [done|]. intros p c' Hp. apply lookup_delete_Some in Hp as [_ Hp]. by eapply so_tree.
    + intros p Hp. by rewrite lookup_delete_ne.
  - split; [|split].
    + apply set_tree_ok; [done|]. intros p c' Hp. rewrite lookup_insert_Some in Hp.
      destruct Hp as [[_ <-]|[_ Hp]]; [by exists l, lp, r, rp|by eapply so_tree].
    + intros p Hp. by rewrite lookup_insert_ne.
    + intros Hc. rewrite Hc in E. by vm_compute in E.
Qed.

Lemma process_dns_cases o data s :
  state_ok o s → bytes_ok data → zlen data ≤ device_mtu o →
  process_device_dns_packet o true data s = Some (false, s, []) ∨
  ∃ out s' iph opts udph payload, process_device_dns_packet o true data s = Some (true, s', [BTap_Send out]) ∧
    zlen out ≤ device_mtu o ∧ state_ok o s' ∧ dns_init s' = true ∧ udp_packet iph opts udph payload data ∧
    ∀ p, dns_init s = true → (dest_port udph = hton16 53 → source_port udph ≠ p) →
      (∀ gw_ip gw_port, dnsgw o = Some (gw_ip, gw_port) → source_port udph = gw_port → dest_port udph ≠ p) →
      connections_tree s' !! p = connections_tree s !! p.
Proof.
  intros Hok Hd Hm. unfold process_device_dns_packet. destruct (dnsgw o) as [[gw_ip gw_port]|] eqn:Hgw; [|by left].
  zif (ip_version data =? 4); [|by left].
  destruct (parse_udp_spec data Hd) as (r & -> & Hr). rewrite opt_run.
  destruct r as [[[iph u0] payload]|]; [|by left].
  destruct (proj1 (Hr _) eq_refl) as (opts & udph & -> & Hp).
  destruct (udp_packet_payload _ _ _ _ _ Hd Hp) as (Hpok & Hpl & Hpz & _).
  cbn [dest_port source_port udp_length udp_cksum set_udp_checksum].
  set (out := λ src dst sp dp, dns_packet iph src dst udph sp dp payload).
  assert (Hz : ∀ src dst sp dp, zlen (out src dst sp dp) ≤ device_mtu o) by (intros; unfold out; rewrite zlen_dns_packet; lia).
  destruct (dest_port udph =? hton16 53) eqn:Hto.
  - right. zbool. erewrite (M_bind_run0 (modify _)) by reflexivity. fold (init_tree s).
    destruct (init_tree_ok o s Hok) as [Hok1 Hi1].
    destruct (insert_connection_run o (source_address iph) (source_port udph) (destination_address iph) (dest_port udph)
      (source_port udph) (init_tree s) Hok1) as (con & Hrun & Hcon & _).
    rewrite (M_bind_run0 _ _ _ _ _ Hrun).
    assert (Hok2 : state_ok o (set_tree <[source_port udph := con]> (init_tree s))).
    { apply set_tree_ok; [done|]. intros p c' Hp'. rewrite lookup_insert_Some in Hp'.
      destruct Hp' as [[_ <-]|[_ Hp']]; [done|by eapply so_tree]. }
    rewrite dns_write_packet_run by (try apply Hok2; done || lia).
    do 6 eexists. split; [done|]. split; [apply Hz|]. split; [apply written_ok; [done|apply Hz]|]. split; [done|]. split; [done|].
    intros p Hi Hs _. cbn. rewrite lookup_insert_ne by auto. unfold init_tree. by rewrite Hi.
  - destruct (source_port udph =? gw_port) eqn:Hfrom; [|by left]. zbool. erewrite (M_bind_run0 get) by reflexivity.
    destruct (dns_init s) eqn:Hi; cbn [negb]; [|by left]. unfold find_connection.
    destruct (connections_tree s !! dest_port udph) as [con|] eqn:Hcon; [|by left].
    destruct (so_tree _ _ Hok _ _ Hcon) as (l & lp & r & rp & Hl & Hrm).
    rewrite Hl, Hrm. right.
    destruct (remove_connection_run o (dest_port udph) con s Hok) as (f & Hrun & Hok2 & Hf & _).
    { by exists l, lp, r, rp. }
    rewrite (M_bind_run0 _ _ _ _ _ Hrun).
    rewrite dns_write_packet_run by (try apply Hok2; done || lia).
    do 6 eexists. split; [done|]. split; [apply Hz|]. split; [apply written_ok; [done|apply Hz]|]. split; [done|]. split; [done|].
    intros p _ _ Hp'. apply Hf. by apply not_eq_sym, (Hp' gw_ip gw_port).
Qed.

(** ** The device *)

(** what may be done with one packet [data] *)
Definition one_call (o : options) (data : bytes) (es : list call) : Prop :=
  match es with
  | [] => True
  | [BTap_Send out] => zlen out ≤ device_mtu o
  | [SubmitPacket local remote _ payload] =>
      zlen payload ≤ udp_mtu o ∧ BAddr_type local = BAddr_type remote ∧ local ≠ BAddr_None
  | [ip_input p] => p = data ∧ ip_version p = 4
  | [ip6_input p] => p = data ∧ ip_version p = 6 ∧ have_ip6 o = true
  | _ => False
  end.
(** not a query from the port [p] to any server, nor an answer of the gateway to it *)
Definition no_dns_of (o : options) (p : Z) (data : bytes) : Prop :=
  ∀ iph opts udph payload, udp_packet iph opts udph payload data →
    (dest_port udph = hton16 53 → source_port udph ≠ p) ∧
    (∀ gw_ip gw_port, dnsgw o = Some (gw_ip, gw_port) → source_port udph = gw_port → dest_port udph ≠ p).

Lemma device_read_run o pbuf data s :
  state_ok o s → bytes_ok data → zlen data ≤ device_mtu o →
  ∃ s' es, device_read_handler_send o true pbuf data s = Some (tt, s', PacketPassInterface_Done :: es) ∧
    state_ok o s' ∧ one_call o data es ∧
    ∀ p, dns_init s = true → no_dns_of o p data → dns_init s' = true ∧ connections_tree s' !! p = connections_tree s !! p.
Proof.
  intros Hok Hd Hm. unfold device_read_handler_send.
  rewrite (M_bind_run _ _ s tt s [PacketPassInterface_Done] eq_refl).
  destruct (process_dns_cases o data s Hok Hd Hm) as
    [Hdns|(out & s' & iph & opts & udph & payload & Hdns & Hz & Hok' & Hi & Hp & Hkeep)].
  2:{ rewrite (M_bind_run _ _ _ _ _ _ Hdns). exists s', [BTap_Send out]. split; [done|]. split; [done|]. split; [done|].
      intros p Hi0 Hother. split; [done|]. destruct (Hother _ _ _ _ Hp). by apply Hkeep. }
  rewrite (M_bind_run0 _ _ _ _ _ Hdns).
  destruct (device_udp_decides o data s Hd) as (r & Hudp & Hr).
  destruct r as [[[[local remote] dns] payload]|]; cbn in Hudp.
  { rewrite (M_bind_run _ _ _ _ _ _ Hudp). exists s, [SubmitPacket local remote dns payload]. split; [done|].
    split; [done|]. split; [|done]. destruct (proj1 (Hr _ _ _ _) eq_refl) as (_ & Hl & Hdg). split; [done|]. by destruct Hdg. }
  rewrite (M_bind_run0 _ _ _ _ _ Hudp). clear Hr.
  zif (zlen data >? UINT16_MAX); [by exists s, []|]. destruct pbuf; cbn [negb]; [|by exists s, []].
  unfold netif_input_func. zif (ip_version data =? 4); [by exists s, [ip_input data]|].
  zif (ip_version data =? 6); [|by exists s, []]. destruct (have_ip6 o) eqn:H6; [by exists s, [ip6_input data]|by exists s, []].
Qed.



(** ** Examples *)

Definition example_options : options :=
  {| udpgw := true; transparent_dns := false; have_ip6 := false;
     dnsgw := Some (le_val [10; 0; 0; 9], hton16 8091); netif_ip := le_val [10; 0; 0; 1];
     udp_mtu := 72; device_mtu := 100 |}.
Definition example_state : state := mkState (repeat 0 100) false ∅.
(** a query of 10.0.0.2, port 4000, to 8.8.8.8, and an answer of the gateway *)
Definition example_query : bytes :=
  [69; 0; 0; 31; 0; 0; 0; 0; 64; 17; 96; 189; 10; 0; 0; 2; 8; 8; 8; 8;
   15; 160; 0; 53; 0; 11; 209; 239; 1; 2; 3].
Definition example_client : Z := le_val [10; 0; 0; 2].
Definition example_server : Z := le_val [8; 8; 8; 8].
Lemma example_packet data payload :
  bytes_okb data = true → slice 28 (zlen data - 28) data = payload →
  (let h := ipv4_of (slice 0 20 data) in let u := udp_of (slice 20 8 data) in
   bool_decide (data = ipv4_bytes h ++ [] ++ (udp_bytes u ++ payload ++ []) ++ []) && (version4_ihl4 h =? 69) &&
   (ntoh16 (total_length h) =? 28 + zlen payload) && (protocol h =? 17) && (ntoh16 (udp_length u) =? 8 + zlen payload) &&
   (20 <=? zlen data) && (28 <=? zlen data) &&
   (ip_checksum h =? hton16 (internet_checksum (ipv4_bytes (set_ip_checksum 0 h) ++ []))) &&
   (udp_cksum u =? hton16 (internet_checksum (pseudo_of h payload ++ udp_bytes (set_udp_checksum 0 u) ++ payload)))) = true →
  let h := ipv4_of (slice 0 20 data) in let u := udp_of (slice 20 8 data) in
  plain_packet (source_address h) (source_port u) (destination_address h) (dest_port u) payload data.
Proof.
  intros Hok%bytes_okb_spec Hp Hc h u. cbv zeta in Hc. fold h in Hc. fold u in Hc.
  apply andb_true_iff in Hc as [[[[[[[[Hd Hv]%andb_true_iff Ht]%andb_true_iff Hpr]%andb_true_iff Hl]%andb_true_iff
    Hz1]%andb_true_iff Hz2]%andb_true_iff Hs1]%andb_true_iff Hs2].
  apply bool_decide_eq_true in Hd. zbool. split; [done|]. exists h, u. split; [|done].
  exists (udp_bytes u ++ payload ++ []). split; [|split; [done|split; [|done]]].
  - split; [apply ipv4_of_ok; [auto with cint|apply zlen_slice; lia]|]. exists 5, [].
    split; [done|]. split; [lia|]. split; [done|]. split; [done|]. split; [|done].
    rewrite !zlen_app, zlen_udp_bytes. change (zlen (@nil Z)) with 0. lia.
  - split; [apply udp_of_ok; [auto with cint|apply zlen_slice; lia]|]. by exists [].
Qed.
Lemma example_query_packet :
  plain_packet example_client (hton16 4000) example_server (hton16 53) [1; 2; 3] example_query.
Proof. by apply (example_packet example_query [1; 2; 3]). Qed.
Lemma example_state_ok : state_ok example_options example_state.
Proof. split; [done|]. intros p con. cbn. by rewrite lookup_empty. Qed.

(** C20: [process_device_udp_packet], for every packet: it reads nothing outside of the
    packet, and the UDP gateway is given a datagram exactly if the packet is a
    well-formed IPv4 or IPv6 packet with a well-formed UDP datagram, with the checksums
    that RFC 1071 defines, and the payload fits; the addresses, ports and payload are those
    of the packet.  Every other packet is left for lwIP. *)
Theorem process_device_udp_packet_spec o data s :
  bytes_ok data →
  (process_device_udp_packet o data s = Some (false, s, []) ∨
   ∃ local remote dns payload,
     process_device_udp_packet o data s = Some (true, s, [SubmitPacket local remote dns payload])) ∧
  ∀ local remote dns payload,
    process_device_udp_packet o data s = Some (true, s, [SubmitPacket local remote dns payload]) ↔
    udpgw o = true ∧ zlen payload ≤ udp_mtu o ∧ datagram o data local remote dns payload.
Proof.
  intros Hok. destruct (device_udp_decides o data s Hok) as (r & -> & Hr). split.
  - destruct r as [[[[l m] d] p]|]; [right; by exists l, m, d, p|by left].
  - intros l m d p. rewrite <-Hr. destruct r as [[[[l' m'] d'] p']|]; cbn; [|done].
    split; intros [= -> -> -> ->]; done.
Qed.
Example process_device_udp_packet_spec_witness :
  process_device_udp_packet example_options example_query example_state =
    Some (true, example_state, [SubmitPacket (BAddr_v4 example_client (hton16 4000))
      (BAddr_v4 example_server (hton16 53)) false [1; 2; 3]]).
Proof.
  destruct example_query_packet as (Hok & h & u & Hp & _ & <- & <- & <- & <-).
  apply process_device_udp_packet_spec.
  - exact Hok.
  - split; [reflexivity|]. split; [vm_compute; discriminate|].
    exact (datagram_v4 example_options example_query h [] u [1; 2; 3] Hp).
Defined.

(** What the UDP gateway sends back reaches the device: the packet that
    [udpgw_client_handler_received] writes is no longer than the device takes and is read,
    by the function above, as a datagram with the addresses and the data it was given.
    Nothing is written for data that does not fit. *)
Theorem udpgw_client_handler_received_roundtrip o local remote data s :
  udpgw o = true → zlen (device_write_buf s) = device_mtu o → bytes_ok data →
  BAddr_ok local → BAddr_ok remote → local ≠ BAddr_None → BAddr_type local = BAddr_type remote →
  (fits o local data = false → udpgw_client_handler_received o local remote data s = Some (tt, s, [])) ∧
  (fits o local data = true → ∃ out s',
    udpgw_client_handler_received o local remote data s = Some (tt, s', [BTap_Send out]) ∧
    zlen (device_write_buf s') = device_mtu o ∧ connections_tree s' = connections_tree s ∧
    zlen out ≤ device_mtu o ∧
    ∀ o2 s2, udpgw o2 = true → have_ip6 o2 = have_ip6 o → zlen data ≤ udp_mtu o2 →
      ∃ dns, process_device_udp_packet o2 out s2 = Some (true, s2, [SubmitPacket remote local dns data])).
Proof.
  intros Hg Hb Hok Hl Hr Hn Ht. pose proof (zlen_nonneg data). split.
  - intros Hfit. unfold udpgw_client_handler_received. rewrite Hg. rewrite ASSERT_true by done.
    destruct local as [|lip lport|lip lport], remote as [|rip rport|rip rport]; try done; cbn [fits] in Hfit.
    + change (20 + 8) with 28. zif (zlen data >? UINT16_MAX - 28); [done|]. zif (zlen data >? device_mtu o - 28); [done|]. lia.
    + destruct (have_ip6 o); [|done]. cbn [negb andb] in *. change (40 + 8) with 48.
      zif (zlen data >? UINT16_MAX - 8); [done|]. zif (zlen data >? device_mtu o - 48); [done|]. lia.
  - intros Hfit. assert (Hwr : ∀ out, zlen out ≤ device_mtu o → zlen (device_write_buf (written out s)) = device_mtu o).
    { intros out Ho. cbn. rewrite zlen_splice; lia. }
    assert (Hback : ∀ out, bytes_ok out → (∀ o2, have_ip6 o2 = have_ip6 o → ∃ dns, datagram o2 out remote local dns data) →
      ∀ o2 s2, udpgw o2 = true → have_ip6 o2 = have_ip6 o → zlen data ≤ udp_mtu o2 →
      ∃ dns, process_device_udp_packet o2 out s2 = Some (true, s2, [SubmitPacket remote local dns data])).
    { intros out Hout Hd o2 s2 Hg2 H62 Hm2. destruct (Hd o2 H62) as [dns Hdg]. exists dns.
      destruct (device_udp_decides o2 out s2 Hout) as (r & -> & Hrr).
      by rewrite (proj2 (Hrr remote local dns data) (conj Hg2 (conj Hm2 Hdg))). }
    destruct local as [|lip lport|lip lport], remote as [|rip rport|rip rport]; try done.
    + destruct (received_v4 o lip lport rip rport data s) as (h & u & out & Hrun & Hp & Hout & Hz & <- & <- & <- & <-); [done..|].
      cbn in Hfit. zbool. exists out, (written out s). split_and!; [done|apply Hwr; lia|done|lia|].
      apply Hback; [done|]. intros o2 _. eexists. by eapply datagram_v4.
    + destruct (received_v6 o lip lport rip rport data s) as (h & u & out & Hrun & Hp & Hout & Hz & <- & <- & <- & <-); [done..|].
      cbn [fits] in Hfit. apply andb_true_iff in Hfit as [H6 Hfit]. zbool.
      exists out, (written out s). split_and!; [done|apply Hwr; lia|done|lia|].
      apply Hback; [done|]. intros o2 H62. eexists. eapply datagram_v6; [congruence|done].
Qed.
Example udpgw_client_handler_received_roundtrip_witness :
  ∃ out s', udpgw_client_handler_received example_options (BAddr_v4 example_client (hton16 4000))
      (BAddr_v4 example_server (hton16 53)) [1; 2; 3] example_state = Some (tt, s', [BTap_Send out]) ∧
    ∃ dns, process_device_udp_packet example_options out example_state =
      Some (true, example_state, [SubmitPacket (BAddr_v4 example_server (hton16 53))
        (BAddr_v4 example_client (hton16 4000)) dns [1; 2; 3]]).
Proof.
  destruct (udpgw_client_handler_received_roundtrip example_options (BAddr_v4 example_client (hton16 4000))
    (BAddr_v4 example_server (hton16 53)) [1; 2; 3] example_state) as [_ Hfit].
  - reflexivity.
  - reflexivity.
  - apply bytes_okb_spec. reflexivity.
  - split; split; vm_compute; first [reflexivity | discriminate].
  - split; split; vm_compute; first [reflexivity | discriminate].
  - discriminate.
  - reflexivity.
  - destruct (Hfit eq_refl) as (out & s' & Hrun & _ & _ & _ & Hback). exists out, s'. split; [exact Hrun|].
    apply Hback; [reflexivity|reflexivity|vm_compute; discriminate].
Defined.

(** C22: A packet from the device, whatever its bytes: [device_read_handler_send] accepts it
    from the interface, never reads or writes outside of a buffer, and makes at most one
    further call, which the device, the UDP gateway or lwIP allows: a packet no longer
    than the MTU is written to the device, or a datagram that fits is submitted with two
    addresses of one family, or lwIP gets the packet as it is.  The buffer and the table of
    the DNS gateway stay well-formed. *)
Theorem device_read_handler_send_safe o pbuf data s :
  state_ok o s → bytes_ok data → zlen data ≤ device_mtu o →
  ∃ s' es, device_read_handler_send o true pbuf data s = Some (tt, s', PacketPassInterface_Done :: es) ∧
    state_ok o s' ∧ one_call o data es.
Proof.
  intros Hok Hd Hm. destruct (device_read_run o pbuf data s Hok Hd Hm) as (s' & es & ? & ? & ? & _). by exists s', es.
Qed.
Example device_read_handler_send_safe_witness :
  ∃ s' es, device_read_handler_send example_options true true example_query example_state =
    Some (tt, s', PacketPassInterface_Done :: es) ∧ one_call example_options example_query es.
Proof.
  destruct (device_read_handler_send_safe example_options true example_query example_state)
    as (s' & es & Hrun & _ & Hcall).
  - exact example_state_ok.
  - apply example_query_packet.
  - vm_compute. discriminate.
  - exists s', es. split; [exact Hrun|exact Hcall].
Defined.

