(* ===== verification/SocksUdpGw.v ===== *)
(** * The client of the UDP gateway over SOCKS

    [tun2socks/SocksUdpGwClient.c] (the part that is built, without [ANDROID_UDP]): a UDP
    gateway client is connected over a SOCKS client, and connected again after a pause
    when the connection fails.

    The UDP gateway client (file UdpGw), the SOCKS client (file Socks) and the timer are
    the other objects; what they may be asked is the contract below.  The addresses, the
    authentication and the sizes that are passed on are left out. *)

From S2P Require Import Prelude CInt Addr Contract.


(** [socks_up] has any value before [try_connect] sets it *)
Record SocksUdpGwClient := mkClient { have_socks : bool; socks_up : bool }.

Inductive call :=
| UdpGwClient_Init (ok : bool) | UdpGwClient_Free
| UdpGwClient_ConnectServer (ok : bool) | UdpGwClient_DisconnectServer
| UdpGwClient_SubmitPacket (local remote : BAddr) (is_dns : bool) (data : bytes)
| BSocksClient_Init (ok : bool) | BSocksClient_Free
| BReactor_SetTimer | BReactor_RemoveTimer | BTimer_IsRunning (running : bool)
| handler_received (local remote : BAddr) (data : bytes).

Abbreviation H := (M SocksUdpGwClient call).

Definition free_socks : H unit :=
  o ← get;
  ASSERT (have_socks o);;
  when (socks_up o) (emit UdpGwClient_DisconnectServer);;
  emit BSocksClient_Free;;
  modify (λ o, mkClient false (socks_up o)).

(** [ok]: the initialisation of the SOCKS client succeeds.  The assertion that the timer
    does not run is a call with the result it must have. *)
Definition try_connect (ok : bool) : H unit :=
  o ← get;
  ASSERT (negb (have_socks o));;
  emit (BTimer_IsRunning false);;
  emit (BSocksClient_Init ok);;
  if ok then put (mkClient true false) else emit BReactor_SetTimer.

Definition reconnect_timer_handler (ok : bool) : H unit :=
  o ← get;
  ASSERT (negb (have_socks o));;
  try_connect ok.

(** [ok]: the UDP gateway client takes the connection *)
Definition socks_client_handler (ok : bool) (event : socks_event) : H unit :=
  o ← get;
  ASSERT (have_socks o);;
  match event with
  | BSOCKSCLIENT_EVENT_UP =>
      ASSERT (negb (socks_up o));;
      emit (UdpGwClient_ConnectServer ok);;
      if ok then modify (λ o, mkClient (have_socks o) true)
      else free_socks;; emit BReactor_SetTimer
  | BSOCKSCLIENT_EVENT_ERROR | BSOCKSCLIENT_EVENT_ERROR_CLOSED =>
      free_socks;; emit BReactor_SetTimer
  end.

Definition udpgw_handler_servererror : H unit :=
  o ← get;
  ASSERT (have_socks o);;
  ASSERT (socks_up o);;
  free_socks;;
  emit BReactor_SetTimer.

Definition udpgw_handler_received (local remote : BAddr) (data : bytes) : H unit :=
  emit (handler_received local remote data).

(** the result tells if the client exists afterwards *)
Definition SocksUdpGwClient_Init (udpgw_ok ok : bool) : H bool :=
  emit (UdpGwClient_Init udpgw_ok);;
  if negb udpgw_ok then mret false
  else
    modify (λ o, mkClient false (socks_up o));;
    try_connect ok;;
    mret true.

Definition SocksUdpGwClient_Free : H unit :=
  o ← get;
  when (have_socks o) free_socks;;
  emit BReactor_RemoveTimer;;
  emit UdpGwClient_Free.

Definition SocksUdpGwClient_SubmitPacket (local remote : BAddr) (is_dns : bool) (data : bytes) : H unit :=
  emit (UdpGwClient_SubmitPacket local remote is_dns data).

(** ** The contract of the other objects

    The SOCKS client, if there is one, and whether it is up; whether the UDP gateway client
    exists and is connected; whether the timer runs. *)
Record env := mkEnv { socks : option bool; udpgw : bool; connected : bool; timer : bool }.

(** The interfaces of a SOCKS client are used only while it is up, and it is not freed
    while the UDP gateway client uses them. *)
Definition react (c : call) (x : env) : option env :=
  match c with
  | UdpGwClient_Init ok => if udpgw x then None else Some (mkEnv (socks x) ok false (timer x))
  | UdpGwClient_Free => if udpgw x && negb (connected x) then Some (mkEnv (socks x) false false (timer x)) else None
  | UdpGwClient_ConnectServer ok =>
      match socks x with
      | Some true => if udpgw x && negb (connected x) then Some (mkEnv (socks x) true ok (timer x)) else None
      | _ => None
      end
  | UdpGwClient_DisconnectServer =>
      if udpgw x && connected x then Some (mkEnv (socks x) true false (timer x)) else None
  | UdpGwClient_SubmitPacket local remote _ _ => if udpgw x then Some x else None
  | BSocksClient_Init ok =>
      match socks x with
      | None => Some (mkEnv (if ok then Some false else None) (udpgw x) (connected x) (timer x))
      | Some _ => None
      end
  | BSocksClient_Free =>
      match socks x with
      | Some _ => if connected x then None else Some (mkEnv None (udpgw x) false (timer x))
      | None => None
      end
  | BReactor_SetTimer => Some (mkEnv (socks x) (udpgw x) (connected x) true)
  | BReactor_RemoveTimer => Some (mkEnv (socks x) (udpgw x) (connected x) false)
  | BTimer_IsRunning running => if Bool.eqb running (timer x) then Some x else None
  | handler_received _ _ _ => Some x
  end.

Inductive input :=
| Init (udpgw_ok ok : bool) | Timer (ok : bool) | Socks (event : socks_event) (ok : bool)
| ServerError | Received (local remote : BAddr) (data : bytes)
| Submit (local remote : BAddr) (is_dns : bool) (data : bytes)
| Free.
(** What the other objects may do: the timer expires while it runs, the SOCKS client reports
    up once and an error at any time, the UDP gateway client reports while it is
    connected; the user uses the client after [Init] and until [Free]. *)
Definition occurs (i : input) (x : env) : option env :=
  match i with
  | Init _ _ => if udpgw x then None else Some x
  | Timer _ => if timer x then Some (mkEnv (socks x) (udpgw x) (connected x) false) else None
  | Socks BSOCKSCLIENT_EVENT_UP _ =>
      match socks x with Some false => Some (mkEnv (Some true) (udpgw x) (connected x) (timer x)) | _ => None end
  | Socks BSOCKSCLIENT_EVENT_ERROR _ => match socks x with Some _ => Some x | None => None end
  | Socks BSOCKSCLIENT_EVENT_ERROR_CLOSED _ => match socks x with Some true => Some x | _ => None end
  | ServerError | Received _ _ _ => if connected x then Some x else None
  | Submit _ _ _ _ | Free => if udpgw x then Some x else None
  end.
Definition handle (i : input) : H unit :=
  match i with
  | Init udpgw_ok ok => SocksUdpGwClient_Init udpgw_ok ok;; mret tt
  | Timer ok => reconnect_timer_handler ok
  | Socks event ok => socks_client_handler ok event
  | ServerError => udpgw_handler_servererror
  | Received local remote data => udpgw_handler_received local remote data
  | Submit local remote is_dns data => SocksUdpGwClient_SubmitPacket local remote is_dns data
  | Free => SocksUdpGwClient_Free
  end.

Inductive reachable : SocksUdpGwClient → env → Prop :=
| reachable_start b b' : reachable (mkClient b b') (mkEnv None false false false)
| reachable_step o x i x1 o' es x' :
    reachable o x → occurs i x = Some x1 → handle i o = Some (tt, o', es) → reacts react es x1 = Some x' →
    reachable o' x'.

(** A client that exists has a SOCKS client, up exactly if the UDP gateway client is
    connected, or waits for the timer. *)
Definition inv (o : SocksUdpGwClient) (x : env) : Prop :=
  if udpgw x then
    if have_socks o then socks x = Some (socks_up o) ∧ connected x = socks_up o ∧ timer x = false
    else socks x = None ∧ connected x = false ∧ timer x = true
  else socks x = None ∧ connected x = false ∧ timer x = false.

(** The handlers are straight-line code on booleans: every case is computed. *)
Lemma handles i o x x1 :
  inv o x → occurs i x = Some x1 →
  wp react (handle i) (λ _ o' x', inv o' x') o x1.
Proof.
  destruct o as [hs up], x as [s g c t]. unfold inv. cbn [udpgw have_socks socks socks_up connected timer].
  intros Hinv Hocc.
  destruct g; [destruct hs|]; destruct Hinv as (-> & -> & ->);
    destruct i as [gok ok|ok|ev ok| |l r d|l r q d|]; try discriminate Hocc;
    try destruct ev; try destruct up; try discriminate Hocc; injection Hocc as <-;
    try destruct ok; try destruct gok; do 4 eexists; (split; [reflexivity|]; split; [reflexivity|]); cbn; done.
Qed.
Lemma reachable_inv_holds o x : reachable o x → inv o x.
Proof.
  induction 1 as [b b'|o x i x1 o' es x' _ IH Hocc Hh Hr]; [done|].
  destruct (handles i o x x1 IH Hocc) as ([] & o2 & es2 & x2 & Hh2 & Hr2 & Hinv).
  rewrite Hh in Hh2. injection Hh2 as <- <-. rewrite Hr in Hr2. by injection Hr2 as <-.
Qed.

(** C23: The client of the UDP gateway never gives up and never breaks a contract: from every
    reachable state, for every event of the SOCKS client, the UDP gateway client, the
    timer and the user, and whatever initialisation fails, no assertion fails, the
    interfaces of a SOCKS client are used only between its being up and its being freed,
    and afterwards a client that exists is connected, or connecting, or has its reconnect
    timer running. *)
Theorem SocksUdpGwClient_reconnects o x i x1 :
  reachable o x → occurs i x = Some x1 →
  ∃ o' es x', handle i o = Some (tt, o', es) ∧ reacts react es x1 = Some x' ∧ reachable o' x' ∧
    (udpgw x' = true → (∃ up, socks x' = Some up ∧ connected x' = up ∧ timer x' = false) ∨
                       socks x' = None ∧ connected x' = false ∧ timer x' = true) ∧
    (udpgw x' = false → socks x' = None ∧ connected x' = false ∧ timer x' = false).
Proof.
  intros Hr Hocc. destruct (handles i o x x1 (reachable_inv_holds o x Hr) Hocc) as ([] & o' & es & x' & Hh & He & Hinv).
  exists o', es, x'. split; [done|]. split; [done|]. split; [by eapply reachable_step|].
  unfold inv in Hinv. destruct (udpgw x'); split; try done; intros _.
  destruct (have_socks o'); [left; by exists (socks_up o')|by right].
Qed.
Example SocksUdpGwClient_reconnects_witness :
  ∃ o' es x', handle (Init true true) (mkClient true true) = Some (tt, o', es) ∧
    reachable o' x' ∧ (udpgw x' = true → socks x' = None → timer x' = true).
Proof.
  destruct (SocksUdpGwClient_reconnects (mkClient true true) (mkEnv None false false false) (Init true true)
    (mkEnv None false false false)) as (o' & es & x' & Hh & _ & Hr & Hup & _).
  - apply reachable_start.
  - reflexivity.
  - exists o', es, x'. split; [exact Hh|]. split; [exact Hr|]. intros Hg Hs.
    destruct (Hup Hg) as [(up & Hup' & _)|(_ & _ & Ht)]; [congruence|exact Ht].
Defined.
