(* ===== verification/DnsHash.v ===== *)
(** * The hash table of the DNS cache

    [pdnsd/src/hash.c] and [hash.h]: a cache entry is found by its name, whatever the case
    of its letters.  The table is an array of chains; a chain is sorted by a second, wider
    hash.

    A cache entry is its name and contents the table does not look at.  A pointer into the
    table is the number of the bucket and the place in its chain, and its use is checked: a
    walk through the table is modelled while nothing is deleted, which would move the
    places but not the pointers.  An access outside of a name is [None]. *)

From Stdlib Require Import Sorting.Sorted.
From S2P Require Import Prelude CInt DnsName DnsCompress.

Definition HASH_SZ : Z := 10.
Definition HASH_NUM_BUCKETS : Z := Z.shiftl 1 HASH_SZ.
Definition HASH_BITMASK : Z := HASH_NUM_BUCKETS - 1.

(** [toupper] in the C locale *)
Definition toupper (c : Z) : Z := if (97 <=? c) && (c <=? 122) then c - 32 else c.

(** one byte is added to both hashes; [unsigned long] has 64 bits *)
Definition hash_add (c i s r : Z) : Z * Z :=
  (u32 (s + u32 (Z.shiftl c (i mod (HASH_SZ - 5)))), u64 (r + u64 (Z.shiftl c (i mod (8 * 8 - 7))))).
(** [do ... while (--lb)] *)
Fixpoint hash_label (lb : nat) (str : bytes) (i s r : Z) : option (Z * Z * Z) :=
  match lb with
  | O => Some (i, s, r)
  | S lb =>
      c ← rd str i;
      let '(s, r) := hash_add (toupper c) i s r in
      hash_label lb str (i + 1) s r
  end.
Fixpoint hash_loop (fuel : nat) (str : bytes) (i s r : Z) : option (Z * Z) :=
  match fuel with
  | O => None
  | S fuel =>
      lb ← rd str i;
      if lb =? 0 then Some (s, r)
      else
        let '(s, r) := hash_add lb i s r in
        t ← hash_label (Z.to_nat lb) str (i + 1) s r;
        let '(i, s, r) := t in
        hash_loop fuel str i s r
  end.
Definition hash_fold (s : Z) : Z :=
  u32 (Z.land s HASH_BITMASK + Z.shiftr (Z.land s (u32 (Z.lnot HASH_BITMASK))) HASH_SZ).
(** the bucket and the second hash *)
Definition dns_hash (str : bytes) : option (Z * Z) :=
  t ← hash_loop (length str) str 0 0 0;
  let '(s, r) := t in
  Some (Z.land (hash_fold (hash_fold s)) HASH_BITMASK, r).

(** [struct slist_t] *)
Record slist_t := { domain : bytes; exact : bool; included : bool }.

Section hash.
Context {A : Type}.

Record dns_cent_t := mkCent { qname : bytes; contents : A }.
Record dns_hash_ent_t := mkEnt { rhash : Z; data : dns_cent_t }.
Abbreviation chain := (list dns_hash_ent_t).
Abbreviation table := (list chain).
Record dns_hash_loc_t := mkLoc { pos_bucket : nat; pos : nat; loc_rhash : Z }.
Record dns_hash_pos_t := mkPos { bucket : nat; ent : nat }.

Definition mk_dns_hash : table := replicate (Z.to_nat HASH_NUM_BUCKETS) [].

(** the [while] loop of [dns_lookup] and [del_dns_hash]: where it stops *)
Fixpoint search (key : bytes) (rh : Z) (c : chain) (k : nat) : option (nat * option dns_cent_t) :=
  match c with
  | [] => Some (k, None)
  | he :: c =>
      if rhash he <=? rh then
        if rhash he =? rh then
          found ← rhnicmp key (qname (data he));
          if found : bool then Some (k, Some (data he)) else search key rh c (S k)
        else search key rh c (S k)
      else Some (k, None)
  end.
Definition dns_lookup (key : bytes) (t : table) : option (option dns_cent_t * dns_hash_loc_t) :=
  h ← dns_hash key;
  let '(idx, rh) := h in
  c ← t !! Z.to_nat idx;
  r ← search key rh c 0;
  let '(k, retval) := r in
  Some (retval, mkLoc (Z.to_nat idx) k rh).

(** [mem]: [malloc] succeeds *)
Definition add_dns_hash (mem : bool) (d : dns_cent_t) (loc : dns_hash_loc_t) (t : table) : option (bool * table) :=
  if negb mem then Some (false, t)
  else
    c ← t !! pos_bucket loc;
    assert! (pos loc <=? length c)%nat;
    Some (true, <[pos_bucket loc := take (pos loc) c ++ mkEnt (loc_rhash loc) d :: drop (pos loc) c]> t).

Definition del_dns_hash_ent (loc : dns_hash_loc_t) (t : table) : option (dns_cent_t * table) :=
  c ← t !! pos_bucket loc;
  he ← c !! pos loc;
  Some (data he, <[pos_bucket loc := delete (pos loc) c]> t).

Definition del_dns_hash (key : bytes) (t : table) : option (option dns_cent_t * table) :=
  h ← dns_hash key;
  let '(idx, rh) := h in
  c ← t !! Z.to_nat idx;
  r ← search key rh c 0;
  match r with
  | (k, Some d) => Some (Some d, <[Z.to_nat idx := delete k c]> t)
  | (_, None) => Some (None, t)
  end.

(** the entries that [del_cent] is called for, in order *)
Definition free_dns_hash_bucket (i : nat) (t : table) : option (list dns_cent_t * table) :=
  c ← t !! i;
  Some (map data c, <[i := []]> t).
Definition free_dns_hash (t : table) : list dns_cent_t * table :=
  (map data (concat t), map (λ _, []) t).

(** the [for] loop over the list: whether the entry is to be deleted *)
Fixpoint selected (name : bytes) (sla : list slist_t) : option bool :=
  match sla with
  | [] => Some false
  | sl :: sla =>
      m ← domain_match name (domain sl);
      let '(_, nrem, lrem) := m in
      if (lrem =? 0) && (negb (exact sl) || (nrem =? 0)) then Some (included sl)
      else selected name sla
  end.
Fixpoint free_selected (sla : list slist_t) (c : chain) : option (list dns_cent_t * chain) :=
  match c with
  | [] => Some ([], [])
  | he :: c =>
      del ← selected (qname (data he)) sla;
      r ← free_selected sla c;
      let '(freed, c) := r in
      Some (if del : bool then (data he :: freed, c) else (freed, he :: c))
  end.
Definition free_dns_hash_selected (i : nat) (sla : list slist_t) (t : table) : option (list dns_cent_t * table) :=
  c ← t !! i;
  r ← free_selected sla c;
  let '(freed, c) := r in
  Some (freed, <[i := c]> t).

(** the loop over the buckets from [i] on *)
Fixpoint fetch_from (t : table) (i : nat) : option (dns_cent_t * dns_hash_pos_t) :=
  match t with
  | [] => None
  | (he :: _) :: _ => Some (data he, mkPos i 1)
  | [] :: t => fetch_from t (S i)
  end.
Definition fetch_first (t : table) : option (dns_cent_t * dns_hash_pos_t) := fetch_from t 0.
Definition fetch_next (t : table) (p : dns_hash_pos_t) : option (dns_cent_t * dns_hash_pos_t) :=
  match t !! bucket p ≫= (λ c, c !! ent p) with
  | Some he => Some (data he, mkPos (bucket p) (S (ent p)))
  | None => fetch_from (drop (S (bucket p)) t) (S (bucket p))
  end.
(** the loop of a user: [fetch_first], then [fetch_next] until it fails *)
Fixpoint fetch_rest (fuel : nat) (t : table) (r : option (dns_cent_t * dns_hash_pos_t)) : option (list dns_cent_t) :=
  match r with
  | None => Some []
  | Some (d, p) =>
      match fuel with
      | O => None
      | S fuel => l ← fetch_rest fuel t (fetch_next t p); Some (d :: l)
      end
  end.
End hash.
#[global] Arguments dns_cent_t : clear implicits.
#[global] Arguments dns_hash_ent_t : clear implicits.

(** ** The hash of a name *)

Fixpoint hash_chars (l : bytes) (i s r : Z) : Z * Z * Z :=
  match l with
  | [] => (i, s, r)
  | c :: l => let '(s, r) := hash_add (toupper c) i s r in hash_chars l (i + 1) s r
  end.
Fixpoint hash_labels (ls : list bytes) (i s r : Z) : Z * Z :=
  match ls with
  | [] => (s, r)
  | l :: ls =>
      let '(s, r) := hash_add (zlen l) i s r in
      let '(i, s, r) := hash_chars l (i + 1) s r in
      hash_labels ls i s r
  end.
Definition name_hash (ls : list bytes) : Z * Z :=
  let '(s, r) := hash_labels ls 0 0 0 in (Z.land (hash_fold (hash_fold s)) HASH_BITMASK, r).

Lemma hash_label_spec l P S i s r :
  i = zlen P → hash_label (length l) (P ++ l ++ S) i s r = Some (hash_chars l i s r).
Proof.
  intros ->. revert P s r. induction l as [|c l IH]; intros P s r; [done|]. cbn [length hash_label hash_chars].
  change (P ++ (c :: l) ++ S) with (P ++ c :: (l ++ S)). rewrite rd_text_end. cbn [mbind option_bind].
  destruct (hash_add (toupper c) (zlen P) s r) as [s' r'].
  replace (P ++ c :: l ++ S) with ((P ++ [c]) ++ l ++ S) by (by rewrite <-app_assoc).
  replace (zlen P + 1) with (zlen (P ++ [c])) by (zlens; lia). apply IH.
Qed.
Lemma hash_chars_next l i s r : (hash_chars l i s r).1.1 = i + zlen l.
Proof.
  revert i s r. induction l as [|c l IH]; intros i s r; cbn [hash_chars]; [cbn; change (zlen (@nil Z)) with 0; lia|].
  destruct (hash_add (toupper c) i s r). rewrite IH. zlens. lia.
Qed.
Lemma hash_loop_spec fuel ls P S i s r :
  Forall label_len ls → (length ls < fuel)%nat → i = zlen P →
  hash_loop fuel (P ++ rhn ls ++ S) i s r = Some (hash_labels ls i s r).
Proof.
  intros Hls Hf ->. revert ls P s r Hls Hf. induction fuel as [|fuel IH]; intros ls P s r Hls Hf; [lia|].
  cbn [hash_loop]. rewrite rd_first_len. cbn [mbind option_bind].
  destruct Hls as [|l ls Hl Hls]; cbn [first_len]; [done|].
  unfold label_len in Hl. replace (zlen l =? 0) with false by lia. cbn [hash_labels].
  destruct (hash_add (zlen l) (zlen P) s r) as [s1 r1].
  replace (Z.to_nat (zlen l)) with (length l) by (unfold zlen; lia).
  rewrite rhn_cons, <-app_assoc. change ((zlen l :: l) ++ rhn ls ++ S) with (zlen l :: (l ++ rhn ls ++ S)).
  replace (P ++ zlen l :: l ++ rhn ls ++ S) with ((P ++ [zlen l]) ++ l ++ (rhn ls ++ S)) by (by rewrite <-!app_assoc).
  rewrite hash_label_spec by (zlens; lia). cbn [mbind option_bind].
  pose proof (hash_chars_next l (zlen P + 1) s1 r1) as Hn.
  destruct (hash_chars l (zlen P + 1) s1 r1) as [[i2 s2] r2]. cbn in Hn. subst i2.
  rewrite (app_assoc _ l). replace (zlen P + 1 + zlen l) with (zlen ((P ++ [zlen l]) ++ l)) by (zlens; lia).
  apply IH; [done|]. cbn in Hf. lia.
Qed.
Lemma dns_hash_spec ls S : Forall label_len ls → dns_hash (rhn ls ++ S) = Some (name_hash ls).
Proof.
  intros Hls. unfold dns_hash, name_hash. pose proof (hash_loop_spec (length (rhn ls ++ S)) ls [] S 0 0 0 Hls) as Hh.
  cbn [app] in Hh. rewrite Hh.
  - cbn [mbind option_bind]. by destruct (hash_labels ls 0 0 0).
  - rewrite length_app. pose proof (length_rhn ls). lia.
  - done.
Qed.

(** Names that differ in the case of letters have the same hash. *)
Lemma toupper_tolower x y : tolower x = tolower y → toupper x = toupper y.
Proof.
  unfold tolower, toupper. intros H.
  destruct (Z.leb_spec 65 x), (Z.leb_spec x 90), (Z.leb_spec 65 y), (Z.leb_spec y 90),
    (Z.leb_spec 97 x), (Z.leb_spec x 122), (Z.leb_spec 97 y), (Z.leb_spec y 122); cbn [andb] in *; lia.
Qed.
Lemma hash_chars_case l l' i s r : fold_label l = fold_label l' → hash_chars l i s r = hash_chars l' i s r.
Proof.
  unfold fold_label. revert l' i s r. induction l as [|c l IH]; intros [|c' l'] i s r H; try done.
  injection H as Hc H. cbn [hash_chars]. rewrite (toupper_tolower _ _ Hc).
  destruct (hash_add (toupper c') i s r). by apply IH.
Qed.
Lemma name_hash_case a b : same_name a b → name_hash a = name_hash b.
Proof.
  unfold name_hash, same_name. intros H. assert (∀ i s r, hash_labels a i s r = hash_labels b i s r) as ->; [|done].
  revert b H. induction a as [|l a IH]; intros [|l' b] H i s r; try done. injection H as Hl H. cbn [hash_labels].
  assert (zlen l = zlen l') as -> by (unfold zlen; by rewrite (fold_label_length _ _ Hl)).
  destruct (hash_add (zlen l') i s r). rewrite (hash_chars_case l l') by done.
  destruct (hash_chars l' (i + 1) z z0) as [[? ?] ?]. by apply IH.
Qed.
Lemma name_hash_range ls : 0 ≤ (name_hash ls).1 < HASH_NUM_BUCKETS.
Proof.
  unfold name_hash. destruct (hash_labels ls 0 0 0) as [s r]. cbn.
  change HASH_BITMASK with (Z.ones 10). rewrite Z.land_ones by lia. by apply Z.mod_pos_bound.
Qed.

(** ** The table as a map

    The labels of an encoded name, and the key of an entry: its labels without case. *)
Fixpoint labels_of (fuel : nat) (l : bytes) : list bytes :=
  match fuel, l with
  | S fuel, n :: l => if n =? 0 then [] else ztake n l :: labels_of fuel (zdrop n l)
  | _, _ => []
  end.
Lemma labels_of_rhn fuel ls S : Forall label_len ls → (length ls < fuel)%nat → labels_of fuel (rhn ls ++ S) = ls.
Proof.
  intros Hls. revert fuel. induction Hls as [|l ls Hl Hls IH]; intros fuel Hf; (destruct fuel as [|fuel]; [lia|]).
  - done.
  - rewrite rhn_cons. cbn [app labels_of]. unfold label_len in Hl. replace (zlen l =? 0) with false by lia.
    rewrite <-app_assoc. rewrite ztake_app_length, zdrop_app_length. f_equal. apply IH. cbn in Hf. lia.
Qed.
Definition fold_name (ls : list bytes) : list bytes := map fold_label ls.

Section map.
Context {A : Type}.
Implicit Types (t : list (list (dns_hash_ent_t A))) (c : list (dns_hash_ent_t A)) (he : dns_hash_ent_t A).

Definition key he : list bytes := fold_name (labels_of (length (qname (data he))) (qname (data he))).
(** an entry is in the bucket of its name *)
Definition ent_ok (i : nat) he : Prop :=
  ∃ nm, wf_name nm ∧ qname (data he) = rhn nm ∧ name_hash nm = (Z.of_nat i, rhash he).
Definition chain_ok (i : nat) c : Prop :=
  StronglySorted (λ a b, rhash a ≤ rhash b) c ∧ Forall (ent_ok i) c.
Record wf t : Prop := {
  wf_size : length t = Z.to_nat HASH_NUM_BUCKETS;
  wf_chain i c : t !! i = Some c → chain_ok i c;
  wf_keys : NoDup (map key (concat t));
}.
Definition items c : list (list bytes * dns_cent_t A) := map (λ he, (key he, data he)) c.
Definition contents_of t : gmap (list bytes) (dns_cent_t A) := list_to_map (items (concat t)).

Lemma wf_name_len nm : wf_name nm → Forall label_len nm.
Proof. intros [H _]. eapply list.Forall_impl; [exact H|]. by intros l [? _]. Qed.
Lemma key_name he nm : wf_name nm → qname (data he) = rhn nm → key he = fold_name nm.
Proof.
  intros Hnm Hq. unfold key. rewrite Hq. pose proof (labels_of_rhn (length (rhn nm)) nm [] (wf_name_len _ Hnm)) as Hl.
  rewrite app_nil_r in Hl. by rewrite Hl by apply length_rhn.
Qed.
Lemma dns_hash_name nm : wf_name nm → dns_hash (rhn nm) = Some (name_hash nm).
Proof. intros Hnm. rewrite <-(app_nil_r (rhn nm)). by apply dns_hash_spec, wf_name_len. Qed.
(** An entry with the key of a name has its hash. *)
Lemma ent_ok_key i he nm : ent_ok i he → key he = fold_name nm → name_hash nm = (Z.of_nat i, rhash he).
Proof.
  intros (nm' & Hnm' & Hq & Hh) Hk. rewrite (key_name he nm') in Hk by done. rewrite <-Hh.
  by apply name_hash_case.
Qed.

Lemma search_spec nm i rh c k :
  wf_name nm → name_hash nm = (Z.of_nat i, rh) → chain_ok i c →
  ∃ pre post r, c = pre ++ post ∧ search (rhn nm) rh c k = Some ((k + length pre)%nat, r) ∧
    Forall (λ he, rhash he ≤ rh ∧ key he ≠ fold_name nm) pre ∧
    match r with
    | Some d => ∃ he post', post = he :: post' ∧ data he = d ∧ key he = fold_name nm
    | None => Forall (λ he, rh < rhash he) post
    end.
Proof.
  intros Hnm Hh [Hs Hf]. revert k. induction Hs as [|he c Hs IH Hle]; intros k.
  - exists [], [], None. split; [done|]. cbn. rewrite Nat.add_0_r. done.
  - apply list.Forall_cons in Hf as [Hhe Hf]. cbn [search].
    zif (rhash he <=? rh).
    2:{ exists [], (he :: c), None. rewrite Nat.add_0_r. split; [done|]. split; [done|]. split; [constructor|].
        constructor; [done|]. eapply list.Forall_impl; [exact Hle|]. cbn. intros. lia. }
    assert (Hnext : key he ≠ fold_name nm → search (rhn nm) rh c (S k) = search (rhn nm) rh c (S k) →
      ∃ pre post r, he :: c = pre ++ post ∧ search (rhn nm) rh c (S k) = Some ((k + length pre)%nat, r) ∧
        Forall (λ he, rhash he ≤ rh ∧ key he ≠ fold_name nm) pre ∧
        match r with
        | Some d => ∃ he post', post = he :: post' ∧ data he = d ∧ key he = fold_name nm
        | None => Forall (λ he, rh < rhash he) post
        end).
    { intros Hne _. destruct (IH Hf (S k)) as (pre & post & r & -> & Hr & Hp & Hrr). exists (he :: pre), post, r.
      split; [done|]. split; [rewrite Hr; cbn; do 2 f_equal; lia|]. split; [by constructor|done]. }
    destruct Hhe as (nm' & Hnm' & Hq & Hh').
    zif (rhash he =? rh).
    + rewrite Hq, <-(app_nil_r (rhn nm)), <-(app_nil_r (rhn nm')), rhnicmp_spec by (by apply wf_name_len).
      rewrite app_nil_r. cbn [mbind option_bind]. case_bool_decide as Hsame.
      * exists [], (he :: c), (Some (data he)). rewrite Nat.add_0_r. split; [done|]. split; [done|].
        split; [constructor|]. exists he, c. split; [done|]. split; [done|]. by rewrite (key_name he nm').
      * apply Hnext; [|done]. rewrite (key_name he nm') by done. intros Hk. by apply Hsame.
    + apply Hnext; [|done]. intros Hk. rewrite (key_name he nm') in Hk by done.
      assert (name_hash nm = name_hash nm') as Heq by (by apply name_hash_case). congruence.
Qed.

(** What one bucket holds of the table. *)
Lemma concat_insert t i c c' :
  t !! i = Some c → concat t ≡ₚ c ++ (concat (take i t) ++ concat (drop (S i) t)) ∧
    concat (<[i := c']> t) ≡ₚ c' ++ (concat (take i t) ++ concat (drop (S i) t)).
Proof.
  intros Hi. pose proof (lookup_lt_Some _ _ _ Hi). split.
  - rewrite <-(take_drop_middle t i c Hi) at 1. rewrite concat_app. cbn. by rewrite !app_assoc, (Permutation_app_comm c).
  - rewrite insert_take_drop by done. rewrite concat_app. cbn. by rewrite !app_assoc, (Permutation_app_comm c').
Qed.
Lemma items_keys c : (items c).*1 = map key c.
Proof. unfold items. induction c as [|he c IH]; cbn; [done|]. by rewrite IH. Qed.
Lemma contents_lookup t k d :
  wf t → contents_of t !! k = Some d ↔ ∃ he, he ∈ concat t ∧ key he = k ∧ data he = d.
Proof.
  intros Ht. unfold contents_of. rewrite <-elem_of_list_to_map by (rewrite items_keys; apply Ht).
  unfold items. rewrite list_elem_of_fmap. split.
  - intros (he & [= -> ->] & Hin). by exists he.
  - intros (he & Hin & <- & <-). by exists he.
Qed.
Lemma contents_permutation t l :
  wf t → concat t ≡ₚ l → contents_of t = list_to_map (items l).
Proof.
  intros Ht Hp. apply list_to_map_proper; [rewrite items_keys; apply Ht|]. unfold items. by apply fmap_Permutation.
Qed.
Lemma elem_of_concat t he : he ∈ concat t ↔ ∃ i c, t !! i = Some c ∧ he ∈ c.
Proof.
  rewrite list_elem_of_In, in_concat. split.
  - intros (c & Hc & Hhe). apply list_elem_of_In, list_elem_of_lookup in Hc as [i Hi]. exists i, c.
    by rewrite list_elem_of_In.
  - intros (i & c & Hi & Hhe). exists c. rewrite <-!list_elem_of_In. split; [by eapply list_elem_of_lookup_2|done].
Qed.

(** A bucket with another chain. *)
Lemma wf_insert t i c c' :
  wf t → t !! i = Some c → chain_ok i c' →
  NoDup (map key (c' ++ (concat (take i t) ++ concat (drop (S i) t)))) →
  wf (<[i := c']> t).
Proof.
  intros [Hsz Hch Hk] Hi Hc' Hn. split.
  - by rewrite length_insert.
  - intros j cj Hj. destruct (decide (j = i)) as [->|Hne].
    + rewrite list_lookup_insert_eq in Hj by (by eapply lookup_lt_Some). by injection Hj as <-.
    + rewrite list_lookup_insert_ne in Hj by done. by apply Hch.
  - destruct (concat_insert t i c c' Hi) as [_ Hp]. eapply list.NoDup_Permutation_proper; [|exact Hn].
    by apply fmap_Permutation.
Qed.

(** Where a name is, or may be added. *)
Lemma lookup_spec t nm :
  wf t → wf_name nm →
  ∃ i rh c pre post, name_hash nm = (Z.of_nat i, rh) ∧ t !! i = Some c ∧ c = pre ++ post ∧
    chain_ok i c ∧ search (rhn nm) rh c 0 = Some (length pre, contents_of t !! fold_name nm) ∧
    Forall (λ he, rhash he ≤ rh) pre ∧
    match contents_of t !! fold_name nm with
    | Some d => ∃ he post', post = he :: post' ∧ data he = d ∧ key he = fold_name nm
    | None => Forall (λ he, rh < rhash he) post
    end.
Proof.
  intros Ht Hnm. pose proof (name_hash_range nm) as Hrange. destruct (name_hash nm) as [idx rh] eqn:Hh. cbn in Hrange.
  destruct (Z_of_nat_complete idx) as [i ->]; [lia|].
  destruct (lookup_lt_is_Some_2 t i) as [c Hc]; [rewrite (wf_size _ Ht); lia|].
  pose proof (wf_chain _ Ht _ _ Hc) as Hok.
  destruct (search_spec nm i rh c 0 Hnm Hh Hok) as (pre & post & r & Hcat & Hs & Hpre & Hr).
  assert (contents_of t !! fold_name nm = r) as ->.
  { destruct r as [d|].
    - destruct Hr as (he & post' & -> & <- & Hk). apply contents_lookup; [done|]. exists he. split; [|done].
      apply elem_of_concat. exists i, c. split; [done|]. rewrite Hcat. set_solver.
    - destruct (contents_of t !! fold_name nm) as [d|] eqn:E; [|done]. exfalso.
      apply contents_lookup in E as (he & Hin & Hk & _); [|done].
      apply elem_of_concat in Hin as (j & cj & Hj & Hin).
      destruct (wf_chain _ Ht _ _ Hj) as [_ Hents].
      pose proof (proj1 (list.Forall_forall _ _) Hents he Hin) as Hent.
      pose proof (ent_ok_key _ _ _ Hent Hk) as Hh'. rewrite Hh in Hh'. injection Hh' as Hij Hrh.
      assert (j = i) as -> by lia. rewrite Hc in Hj. injection Hj as <-. rewrite Hcat in Hin.
      apply elem_of_app in Hin as [Hin|Hin].
      + by destruct (proj1 (list.Forall_forall _ _) Hpre he Hin).
      + pose proof (proj1 (list.Forall_forall _ _) Hr he Hin). cbn in *. lia. }
  exists i, rh, c, pre, post. split; [done|]. split; [done|]. split; [done|]. split; [done|]. split; [done|].
  split; [|done]. eapply list.Forall_impl; [exact Hpre|]. by intros he [? _].
Qed.

Lemma sorted_app (pre post : list (dns_hash_ent_t A)) :
  StronglySorted (λ a b, rhash a ≤ rhash b) (pre ++ post) ↔
  StronglySorted (λ a b, rhash a ≤ rhash b) pre ∧ StronglySorted (λ a b, rhash a ≤ rhash b) post ∧
  Forall (λ a, Forall (λ b, rhash a ≤ rhash b) post) pre.
Proof.
  induction pre as [|a pre IH]; cbn [app].
  - split; [intros; split; [constructor|split; [done|constructor]]|by intros (_ & ? & _)].
  - split.
    + intros H. apply StronglySorted_inv in H as [H Ha]. apply IH in H as (H1 & H2 & H3).
      apply Forall_app in Ha as [Ha1 Ha2]. split; [by constructor|]. split; [done|by constructor].
    + intros (H1 & H2 & H3). apply StronglySorted_inv in H1 as [H1 Ha]. apply list.Forall_cons in H3 as [H3 H4].
      constructor; [by apply IH|]. by apply Forall_app.
Qed.

(** An entry added where the name was not found. *)
Lemma add_spec t nm i rh pre post d nm' :
  wf t → wf_name nm → wf_name nm' → qname d = rhn nm' → same_name nm nm' →
  name_hash nm = (Z.of_nat i, rh) → t !! i = Some (pre ++ post) → chain_ok i (pre ++ post) →
  Forall (λ he, rhash he ≤ rh) pre → Forall (λ he, rh < rhash he) post →
  contents_of t !! fold_name nm = None →
  let t' := <[i := pre ++ mkEnt rh d :: post]> t in
  wf t' ∧ contents_of t' = <[fold_name nm := d]> (contents_of t).
Proof.
  intros Ht Hnm Hnm' Hq Hsame Hh Hi [Hs Hents] Hpre Hpost Hnone t'. set (he := mkEnt rh d).
  assert (Hk : key he = fold_name nm) by (by rewrite (key_name he nm')).
  destruct (concat_insert t i (pre ++ post) (pre ++ he :: post) Hi) as [Hp1 Hp2].
  set (rest := concat (take i t) ++ concat (drop (S i) t)) in *.
  assert (Hp : concat t' ≡ₚ he :: concat t).
  { change t' with (<[i := pre ++ he :: post]> t). rewrite Hp2, Hp1. rewrite <-!app_assoc. cbn. apply Permutation_sym, Permutation_middle. }
  assert (Hnodup : NoDup (map key (concat t'))).
  { apply (list.NoDup_Permutation_proper _ (map key (he :: concat t))); [by apply fmap_Permutation|].
    cbn. constructor; [|apply Ht]. intros Hin. apply list_elem_of_fmap in Hin as (he' & Hk' & Hin).
    assert (contents_of t !! fold_name nm = Some (data he')); [|congruence].
    apply contents_lookup; [done|]. exists he'. split; [done|]. split; [congruence|done]. }
  assert (Hwf : wf t').
  { apply (wf_insert t i (pre ++ post)); [done|done| |].
    - apply sorted_app in Hs as (Hs1 & Hs2 & Hs3). apply Forall_app in Hents as [He1 He2]. split.
      + apply sorted_app. split; [done|]. split.
        * constructor; [done|]. eapply list.Forall_impl; [exact Hpost|]. cbn. intros; lia.
        * apply list.Forall_forall. intros a Ha. constructor; [by apply (proj1 (list.Forall_forall _ _) Hpre)|].
          by apply (proj1 (list.Forall_forall _ _) Hs3).
      + apply Forall_app. split; [done|]. constructor; [|done]. exists nm'. split; [done|]. split; [done|].
        by rewrite <-(name_hash_case nm nm').
    - eapply list.NoDup_Permutation_proper; [|exact Hnodup]. apply fmap_Permutation.
      exact (Permutation_sym Hp2). }
  split; [done|]. rewrite (contents_permutation t' (he :: concat t)) by done. cbn. by rewrite Hk.
Qed.
(** An entry that is deleted. *)
Lemma del_spec t nm i pre he post :
  wf t → t !! i = Some (pre ++ he :: post) → chain_ok i (pre ++ he :: post) → key he = fold_name nm →
  let t' := <[i := pre ++ post]> t in
  wf t' ∧ contents_of t' = delete (fold_name nm) (contents_of t).
Proof.
  intros Ht Hi [Hs Hents] Hk t'.
  destruct (concat_insert t i (pre ++ he :: post) (pre ++ post) Hi) as [Hp1 Hp2].
  set (rest := concat (take i t) ++ concat (drop (S i) t)) in *.
  assert (Hp : concat t ≡ₚ he :: concat t').
  { unfold t'. rewrite Hp2, Hp1. rewrite <-!app_assoc. cbn. apply Permutation_sym, Permutation_middle. }
  assert (Hnodup : NoDup (map key (he :: concat t'))).
  { eapply list.NoDup_Permutation_proper; [|apply Ht]. apply fmap_Permutation. by rewrite <-Hp. }
  cbn in Hnodup. apply list.NoDup_cons in Hnodup as [Hnot Hnodup].
  assert (Hwf : wf t').
  { apply (wf_insert t i (pre ++ he :: post)); [done|done| |].
    - apply sorted_app in Hs as (Hs1 & Hs2 & Hs3). apply StronglySorted_inv in Hs2 as [Hs2 _].
      apply Forall_app in Hents as [He1 He2]. apply list.Forall_cons in He2 as [_ He2]. split.
      + apply sorted_app. split; [done|]. split; [done|]. eapply list.Forall_impl; [exact Hs3|].
        by intros a [_ ?]%list.Forall_cons.
      + by apply Forall_app.
    - eapply list.NoDup_Permutation_proper; [|exact Hnodup]. apply fmap_Permutation.
      exact (Permutation_sym Hp2). }
  split; [done|]. rewrite (contents_permutation t (he :: concat t')) by done. cbn. rewrite Hk.
  change (list_to_map (items (concat t'))) with (contents_of t'). rewrite delete_insert_id; [done|].
  apply not_elem_of_list_to_map_1. rewrite items_keys. by rewrite <-Hk.
Qed.

(** The entries are fetched one after the other. *)
Definition remaining t (p : dns_hash_pos_t) : list (dns_hash_ent_t A) :=
  drop (ent p) (default [] (t !! bucket p)) ++ concat (drop (S (bucket p)) t).
Lemma fetch_from_spec t n :
  fetch_from (drop n t) n = None ∧ concat (drop n t) = [] ∨
  ∃ he p, fetch_from (drop n t) n = Some (data he, p) ∧ concat (drop n t) = he :: remaining t p.
Proof.
  remember (drop n t) as k eqn:Hk. revert n Hk. induction k as [|c k IH]; intros n Hk; [by left|].
  assert (Hn : t !! n = Some c ∧ drop (S n) t = k).
  { split.
    - rewrite <-(Nat.add_0_r n), <-lookup_drop, <-Hk. done.
    - replace (S n) with (n + 1)%nat by lia. by rewrite <-drop_drop, <-Hk. }
  destruct Hn as [Hc Hd]. destruct c as [|he c]; cbn [fetch_from concat app].
  - by apply IH.
  - right. exists he, (mkPos n 1). split; [done|]. unfold remaining. cbn. by rewrite Hc, Hd.
Qed.
Lemma fetch_next_spec t p :
  fetch_next t p = None ∧ remaining t p = [] ∨
  ∃ he q, fetch_next t p = Some (data he, q) ∧ remaining t p = he :: remaining t q.
Proof.
  unfold fetch_next.
  assert (Hrem : remaining t p = drop (ent p) (default [] (t !! bucket p)) ++ concat (drop (S (bucket p)) t)) by done.
  rewrite !Hrem. destruct (t !! bucket p) as [c|] eqn:Hc; cbn [mbind option_bind from_option id].
  - destruct (c !! ent p) as [he|] eqn:He.
    + right. exists he, (mkPos (bucket p) (S (ent p))). split; [done|]. unfold remaining. cbn [bucket ent]. rewrite Hc.
      cbn [from_option id]. by rewrite (drop_S _ _ _ He).
    + rewrite (drop_ge c) by (by apply lookup_ge_None). apply fetch_from_spec.
  - rewrite drop_nil. apply fetch_from_spec.
Qed.
Lemma fetch_rest_spec fuel t p :
  (length (remaining t p) ≤ fuel)%nat → fetch_rest fuel t (fetch_next t p) = Some (map data (remaining t p)).
Proof.
  revert p. induction fuel as [|fuel IH]; intros p Hf; destruct (fetch_next_spec t p) as [[-> Hr]|(he & q & -> & Hr)];
    rewrite Hr in *; cbn in Hf; try done; try lia. cbn [fetch_rest]. by rewrite IH by lia.
Qed.
Lemma fetch_all t : fetch_rest (length (concat t)) t (fetch_first t) = Some (map data (concat t)).
Proof.
  unfold fetch_first. destruct (fetch_from_spec t 0) as [[Hf Hc]|(he & p & Hf & Hc)]; rewrite drop_0 in *; rewrite Hf, Hc; [done|].
  cbn [length fetch_rest]. by rewrite fetch_rest_spec.
Qed.

(** What the operations of the table do to the map. *)
Lemma table_ops t name :
  wf t → wf_name name →
  let m := contents_of t in
  ∃ loc, dns_lookup (rhn name) t = Some (m !! fold_name name, loc) ∧
    (∀ mem d name', m !! fold_name name = None → wf_name name' → qname d = rhn name' → same_name name name' →
      ∃ t', add_dns_hash mem d loc t = Some (mem, t') ∧ wf t' ∧
        contents_of t' = if mem then <[fold_name name := d]> m else m) ∧
    (∀ d, m !! fold_name name = Some d →
      ∃ t', del_dns_hash_ent loc t = Some (d, t') ∧ wf t' ∧ contents_of t' = delete (fold_name name) m) ∧
    (∃ t', del_dns_hash (rhn name) t = Some (m !! fold_name name, t') ∧ wf t' ∧
      contents_of t' = delete (fold_name name) m).
Proof.
  intros Ht Hnm m. destruct (lookup_spec t name Ht Hnm) as (i & rh & c & pre & post & Hh & Hi & -> & Hok & Hs & Hpre & Hr).
  fold m in Hs, Hr. exists (mkLoc i (length pre) rh). split_and!.
  - unfold dns_lookup. rewrite dns_hash_name, Hh by done. cbn [mbind option_bind]. rewrite Nat2Z.id, Hi.
    cbn [mbind option_bind]. rewrite Hs. done.
  - intros mem d name' Hnone Hnm' Hq Hsame. unfold add_dns_hash. destruct mem; cbn [negb]; [|by exists t].
    cbn [pos_bucket pos loc_rhash]. rewrite Hi. cbn [mbind option_bind]. rewrite length_app.
    replace (length pre <=? length pre + length post)%nat with true by (symmetry; apply Nat.leb_le; lia).
    rewrite take_app_length, drop_app_length. eexists. split; [done|]. rewrite Hnone in Hr.
    by apply (add_spec t name i rh pre post d name').
  - intros d Hd. rewrite Hd in Hr. destruct Hr as (he & post' & -> & <- & Hk). unfold del_dns_hash_ent.
    cbn [pos_bucket pos]. rewrite Hi. cbn [mbind option_bind]. rewrite list_lookup_middle by done. cbn [mbind option_bind].
    eexists. split; [done|]. rewrite delete_middle. by apply (del_spec t name i pre he post').
  - unfold del_dns_hash. rewrite dns_hash_name, Hh by done. cbn [mbind option_bind]. rewrite Nat2Z.id, Hi.
    cbn [mbind option_bind]. rewrite Hs. cbn [mbind option_bind]. destruct (m !! fold_name name) as [d|] eqn:Hm.
    + destruct Hr as (he & post' & -> & <- & Hk). eexists. split; [done|]. rewrite delete_middle.
      by apply (del_spec t name i pre he post').
    + exists t. split; [done|]. split; [done|]. by rewrite delete_id.
Qed.
(** Every entry is fetched, and freed, once. *)
Lemma table_free t :
  wf t →
  ∃ l, fetch_rest (length (concat t)) t (fetch_first t) = Some l ∧ l ≡ₚ (map_to_list (contents_of t)).*2 ∧
    (free_dns_hash t).1 = l ∧ wf (free_dns_hash t).2 ∧ contents_of (free_dns_hash t).2 = ∅.
Proof.
  intros Ht.
    exists (map data (concat t)). split; [apply fetch_all|].
    assert (Hempty : concat (free_dns_hash t).2 = []).
    { cbn. clear. induction t as [|c t IH]; [done|]. cbn. exact IH. }
    split; [|split; [done|split; [split|]]].
    + unfold contents_of. rewrite map_to_list_to_map by (rewrite items_keys; apply Ht). unfold items.
      by rewrite <-list_fmap_compose.
    + cbn. rewrite length_map. apply Ht.
    + intros j cj Hj. cbn in Hj. apply list_lookup_fmap_Some in Hj as (? & -> & _). split; constructor.
    + rewrite Hempty. constructor.
    + unfold contents_of. by rewrite Hempty.
Qed.

(** C24: The hash table is a map from names, whatever their case, to cache entries:
    [dns_lookup] finds what the map holds, and a place; [add_dns_hash] at that place adds
    the entry to the map, or changes nothing when memory is out; [del_dns_hash_ent] at that
    place, and [del_dns_hash], remove it.  Every chain stays sorted and every entry stays in
    the bucket of its name.  [fetch_first] and [fetch_next] give every entry of the map once,
    and [free_dns_hash] frees the same entries and leaves an empty table. *)
Theorem dns_hash_refines_map t name :
  wf t → wf_name name →
  let m := contents_of t in
  ∃ loc, dns_lookup (rhn name) t = Some (m !! fold_name name, loc) ∧
    (∀ mem d name', m !! fold_name name = None → wf_name name' → qname d = rhn name' → same_name name name' →
      ∃ t', add_dns_hash mem d loc t = Some (mem, t') ∧ wf t' ∧
        contents_of t' = if mem then <[fold_name name := d]> m else m) ∧
    (∀ d, m !! fold_name name = Some d →
      ∃ t', del_dns_hash_ent loc t = Some (d, t') ∧ wf t' ∧ contents_of t' = delete (fold_name name) m) ∧
    (∃ t', del_dns_hash (rhn name) t = Some (m !! fold_name name, t') ∧ wf t' ∧
      contents_of t' = delete (fold_name name) m) ∧
    (∃ l, fetch_rest (length (concat t)) t (fetch_first t) = Some l ∧ l ≡ₚ (map_to_list m).*2 ∧
      (free_dns_hash t).1 = l ∧ wf (free_dns_hash t).2 ∧ contents_of (free_dns_hash t).2 = ∅).
Proof.
  intros Ht Hnm m. destruct (table_ops t name Ht Hnm) as (loc & ? & ? & ? & ?). exists loc.
  do 4 (split; [done|]). by apply table_free.
Qed.

Lemma wf_mk_dns_hash : wf (@mk_dns_hash A) ∧ contents_of (@mk_dns_hash A) = ∅.
Proof.
  assert (Hc : concat (@mk_dns_hash A) = []) by (by vm_compute). split; [split|].
  - unfold mk_dns_hash. apply length_replicate.
  - intros i c Hi. apply lookup_replicate in Hi as [-> _]. split; constructor.
  - rewrite Hc. constructor.
  - unfold contents_of. by rewrite Hc.
Qed.
End map.

(** "ns.FOO" is added to an empty table. *)
Definition example_name : list bytes := [[110; 115]; [70; 79; 79]].
Definition example_cent : dns_cent_t unit := mkCent (rhn example_name) tt.
Example dns_hash_refines_map_witness :
  ∃ loc t', dns_lookup (rhn example_name) (@mk_dns_hash unit) = Some (None, loc) ∧
    add_dns_hash true example_cent loc mk_dns_hash = Some (true, t') ∧
    contents_of t' = {[fold_name example_name := example_cent]}.
Proof.
  destruct (@wf_mk_dns_hash unit) as [Hwf Hempty].
  assert (Hname : wf_name example_name).
  { split; [|vm_compute; discriminate]. repeat constructor; vm_compute; first [reflexivity | discriminate]. }
  destruct (dns_hash_refines_map mk_dns_hash example_name Hwf Hname) as (loc & Hl & Hadd & _).
  rewrite Hempty, lookup_empty in *.
  destruct (Hadd true example_cent example_name eq_refl Hname eq_refl eq_refl) as (t' & Ha & _ & Hc).
  exists loc, t'. split; [exact Hl|]. split; [exact Ha|]. rewrite Hc. reflexivity.
Defined.
