(* ===== verification/RrTypes.v ===== *)
(** * Types of resource records

    [pdnsd/src/rr_types.h]: the types that the DNS cache knows, the places of the record sets
    of a cache entry, and which types exclude each other. *)

From S2P Require Import Prelude.

Definition T_MIN : Z := 1.
Definition T_A : Z := 1.
Definition T_NS : Z := 2.
Definition T_CNAME : Z := 5.
Definition T_SOA : Z := 6.
Definition T_PTR : Z := 12.
Definition T_MX : Z := 15.
Definition T_TXT : Z := 16.
Definition T_AAAA : Z := 28.
Definition T_MAX : Z := 51.
Definition T_NUM : Z := 51.
Definition NRRMU : Z := 8.
Definition NRREXT : Z := 39.
Definition NRRTOT : Z := 47.

(** the place of the record set of a type; types from [NRRTOT] on are not cached *)
Definition rrlkuptab : list Z :=
  [0; 1; 8; 9; 2; 3; 10; 11; 12; 13; 14; 4; 15; 16; 5; 6; 17; 18; 19; 20; 21; 22; 23; 24; 25; 26; 27; 7;
   28; 29; 30; 31; 32; 33; 34; 35; 36; 47; 48; 49; 50; 37; 38; 39; 40; 41; 42; 43; 44; 45; 46].
(** the types in ascending order, for the loops over the sets of an entry *)
Definition rrmuiterlist : list Z := [T_A; T_NS; T_CNAME; T_SOA; T_PTR; T_MX; T_TXT; T_AAAA].
Definition rrcachiterlist : list Z :=
  [1; 2; 3; 4; 5; 6; 7; 8; 9; 10; 11; 12; 13; 14; 15; 16; 17; 18; 19; 20; 21; 22; 23; 24; 25; 26; 27; 28;
   29; 30; 31; 32; 33; 34; 35; 36; 37; 42; 43; 44; 45; 46; 47; 48; 49; 50; 51].

(** [struct rr_infos] *)
Record rr_infos := mkInfo { class : Z; excludes : Z }.
Definition RRCL_ALIAS : Z := 1.
Definition RRCL_RECORD : Z := 2.
Definition RRCL_IDEM : Z := 4.
Definition RRCL_PTR : Z := 8.
Definition RRX_ALIAS : Z := Z.lor RRCL_RECORD RRCL_PTR.
Definition RRX_RECORD : Z := Z.lor RRCL_ALIAS RRCL_PTR.
Definition RRX_IDEM : Z := 0.
Definition RRX_PTR : Z := Z.lor RRCL_ALIAS RRCL_RECORD.
Definition rr_info : list rr_infos :=
  let alias := mkInfo RRCL_ALIAS RRX_ALIAS in
  let record := mkInfo RRCL_RECORD RRX_RECORD in
  let idem := mkInfo RRCL_IDEM RRX_IDEM in
  let ptr := mkInfo RRCL_PTR RRX_PTR in
  [record; idem; alias; idem; ptr; idem; idem; record;
   idem; idem; idem; idem; idem; idem; record; record; idem; record; record; record; record; record; record;
   ptr; idem; idem; idem; record; record; idem; record; record; record; record; record; record; record;
   idem; idem; idem; idem; idem; idem; idem; idem; idem; idem].

(** The tables fit together: every type that is cached has a place of its own, and the
    lists of types name exactly these places, in ascending order of the types. *)
Definition place (tp : Z) : option Z := rrlkuptab !! Z.to_nat (tp - T_MIN).
Lemma rr_tables :
  zlen rrlkuptab = T_NUM ∧ zlen rr_info = NRRTOT ∧ zlen rrmuiterlist = NRRMU ∧ zlen rrcachiterlist = NRRTOT ∧
  omap place rrcachiterlist ≡ₚ map Z.of_nat (seq 0 (Z.to_nat NRRTOT)) ∧
  omap place rrmuiterlist = map Z.of_nat (seq 0 (Z.to_nat NRRMU)).
Proof.
  split_and!; try reflexivity.
  apply list.NoDup_Permutation.
  - apply (bool_decide_unpack _). by vm_compute.
  - apply (bool_decide_unpack _). by vm_compute.
  - intros x. split; revert x; apply list.Forall_forall; apply (bool_decide_unpack _); by vm_compute.
Qed.
(** Exclusion of classes is symmetric, as [rr_types.h] asks. *)
Definition conflict (a b : rr_infos) : bool :=
  negb (Z.land (class a) (excludes b) =? 0) || negb (Z.land (excludes a) (class b) =? 0).
Lemma excludes_symmetric a b : a ∈ rr_info → b ∈ rr_info →
  negb (Z.land (class a) (excludes b) =? 0) = negb (Z.land (excludes a) (class b) =? 0).
Proof.
  intros Ha Hb. revert b Hb. apply list.Forall_forall. revert a Ha. apply list.Forall_forall.
  repeat (constructor; [by (repeat constructor)|]). constructor.
Qed.
