(* ===== verification/RrList.v ===== *)
(** * The list of the record sets in the DNS cache

    [pdnsd/src/cache.c]: [rr_lent_t], [insert_rrl], [remove_rrl], [listmerge], [sort_rrl].
    The cached record sets, and the domains cached as not existing, are in a doubly-linked
    list, the oldest first.

    The nodes are objects of a heap and have both links; an access to a node that is not
    allocated is [None].  The time stamp of a node is in the record set or the domain it
    points to, in another part of the cache: it is the parameter [ts_of]. *)

From stdpp Require Import sorting.
From S2P Require Import Prelude.

Record rr_lent_t := mkLent { next : option Z; prev : option Z; rrset : option Z; cent : Z; idx : Z }.
Abbreviation heap := (gmap Z rr_lent_t).
(** [rrset_l], [rrset_l_tail] and the nodes *)
Record rrl := mkRrl { lents : heap; rrset_l : option Z; rrset_l_tail : option Z }.

(** [p->next = n] and [p->prev = n] *)
Definition set_next (p : Z) (n : option Z) (m : heap) : option heap :=
  e ← m !! p; Some (<[p := mkLent n (prev e) (rrset e) (cent e) (idx e)]> m).
Definition set_prev (p : Z) (n : option Z) (m : heap) : option heap :=
  e ← m !! p; Some (<[p := mkLent (next e) n (rrset e) (cent e) (idx e)]> m).

Definition remove_rrl (le : Z) (r : rrl) : option rrl :=
  e ← lents r !! le;
  x ← match next e with
      | Some n => m ← set_prev n (prev e) (lents r); Some (m, rrset_l_tail r)
      | None => Some (lents r, prev e)
      end;
  let '(m, tail) := x in
  y ← match prev e with
      | Some p => m ← set_next p (next e) m; Some (m, rrset_l r)
      | None => Some (m, next e)
      end;
  let '(m, head) := y in
  Some (mkRrl (delete le m) head tail).

Section ops.
Context (ts_of : option Z → Z → Z → option Z).

Definition get_ts (e : rr_lent_t) : option Z := ts_of (rrset e) (cent e) (idx e).

(** the search from the end: the last node that is not newer *)
Fixpoint find_back (fuel : nat) (m : heap) (ts : Z) (le : option Z) : option (option Z) :=
  match le with
  | None => Some None
  | Some p =>
      match fuel with
      | O => None
      | S fuel =>
          e ← m !! p;
          t ← get_ts e;
          if ts >=? t then Some (Some p) else find_back fuel m ts (prev e)
      end
  end.

(** [insert_rrl] after the allocation of the node [ne] *)
Definition insert_found (ne le : Z) (e : rr_lent_t) (r : rrl) : option rrl :=
  l ← lents r !! le;
  x ← match next l with
      | Some n => m ← set_prev n (Some ne) (lents r); Some (m, rrset_l_tail r)
      | None => Some (lents r, Some ne)
      end;
  let '(m, tail) := x in
  m ← set_next le (Some ne) m;
  Some (mkRrl (<[ne := mkLent (next l) (Some le) (rrset e) (cent e) (idx e)]> m) (rrset_l r) tail).
Definition insert_front (ne : Z) (e : rr_lent_t) (r : rrl) : option rrl :=
  x ← match rrset_l r with
      | Some h => m ← set_prev h (Some ne) (lents r); Some (m, rrset_l_tail r)
      | None => Some (lents r, Some ne)
      end;
  let '(m, tail) := x in
  Some (mkRrl (<[ne := mkLent (rrset_l r) None (rrset e) (cent e) (idx e)]> m) (Some ne) tail).
Definition insert_append (ne : Z) (e : rr_lent_t) (r : rrl) : option rrl :=
  x ← match rrset_l_tail r with
      | Some t => m ← set_next t (Some ne) (lents r); Some (m, rrset_l r)
      | None => Some (lents r, Some ne)
      end;
  let '(m, head) := x in
  Some (mkRrl (<[ne := mkLent None (rrset_l_tail r) (rrset e) (cent e) (idx e)]> m) head (Some ne)).
Definition insert_node (insert_sort : bool) (ne : Z) (rrs : option Z) (c : Z) (i : Z) (r : rrl) : option rrl :=
  let e := mkLent None None rrs c i in
  if insert_sort then
    ts ← get_ts e;
    le ← find_back (S (size (lents r))) (lents r) ts (rrset_l_tail r);
    match le with
    | Some le => insert_found ne le e r
    | None => insert_front ne e r
    end
  else insert_append ne e r.

(** [*s = p]; the cursor [s] is the address of [l], or of the field [next] of a node *)
Definition set_cursor (s : option Z) (p : option Z) (l : option Z) (m : heap) : option (heap * option Z) :=
  match s with
  | None => Some (m, p)
  | Some a => m ← set_next a p m; Some (m, l)
  end.
Fixpoint merge_loop (fuel : nat) (m : heap) (l s : option Z) (p q : Z) : option (heap * option Z) :=
  match fuel with
  | O => None
  | S fuel =>
      ep ← m !! p; eq ← m !! q;
      tp ← get_ts ep; tq ← get_ts eq;
      if tp <=? tq then
        x ← set_cursor s (Some p) l m;
        let '(m, l) := x in
        ep ← m !! p;
        match next ep with
        | Some p' => merge_loop fuel m l (Some p) p' q
        | None => set_cursor (Some p) (Some q) l m
        end
      else
        x ← set_cursor s (Some q) l m;
        let '(m, l) := x in
        eq ← m !! q;
        match next eq with
        | Some q' => merge_loop fuel m l (Some q) p q'
        | None => set_cursor (Some q) (Some p) l m
        end
  end.
Definition listmerge (m : heap) (p q : option Z) : option (heap * option Z) :=
  match p, q with
  | None, _ => Some (m, q)
  | _, None => Some (m, p)
  | Some p, Some q => merge_loop (S (size m)) m None None p q
  end.

Definition NTMPSORT : nat := 32.
(** the [for] loop over [tmp] up to [fill] and what follows it; [tmp] is the part of the
    array below [fill] *)
Fixpoint sort_carry (m : heap) (tmp : list (option Z)) (carry : option Z) : option (heap * list (option Z)) :=
  match tmp with
  | Some c :: tmp =>
      x ← listmerge m (Some c) carry;
      let '(m, carry) := x in
      y ← sort_carry m tmp carry;
      let '(m, tmp) := y in
      Some (m, None :: tmp)
  | None :: tmp => Some (m, carry :: tmp)
  | [] => Some (m, [carry])
  end.
(** the [do] loop; the assertion is that the array has room *)
Fixpoint sort_split (fuel : nat) (m : heap) (tmp : list (option Z)) (rem : Z) : option (heap * list (option Z)) :=
  match fuel with
  | O => None
  | S fuel =>
      e ← m !! rem;
      m ← set_next rem None m;
      x ← sort_carry m tmp (Some rem);
      let '(m, tmp) := x in
      assert! (length tmp <=? NTMPSORT)%nat;
      match next e with
      | Some rem => sort_split fuel m tmp rem
      | None => Some (m, tmp)
      end
  end.
(** what is left in the array is merged *)
Fixpoint sort_join (m : heap) (carry : option Z) (tmp : list (option Z)) : option (heap * option Z) :=
  match tmp with
  | [] => Some (m, carry)
  | c :: tmp =>
      x ← listmerge m c carry;
      let '(m, carry) := x in
      sort_join m carry tmp
  end.
(** [for(p=rrset_l; p; p=p->next) {p->prev=q; q=p;}] *)
Fixpoint fix_back (fuel : nat) (m : heap) (p q : option Z) : option (heap * option Z) :=
  match p with
  | None => Some (m, q)
  | Some a =>
      match fuel with
      | O => None
      | S fuel => m ← set_prev a q m; e ← m !! a; fix_back fuel m (next e) p
      end
  end.
Definition sort_rrl (r : rrl) : option rrl :=
  match rrset_l r with
  | None => Some r
  | Some h =>
      e ← lents r !! h;
      match next e with
      | None => Some r
      | Some _ =>
          x ← sort_split (S (size (lents r))) (lents r) [] h;
          let '(m, tmp) := x in
          match tmp with
          | [] => None
          | carry :: tmp =>
              y ← sort_join m carry tmp;
              let '(m, l) := y in
              z ← fix_back (S (size m)) m l None;
              let '(m, tail) := z in
              Some (mkRrl m l tail)
          end
      end
  end.
End ops.

(** ** Segments of the list *)

Definition hd (l : list Z) (qn : option Z) : option Z := match l with [] => qn | p :: _ => Some p end.
Fixpoint lst (l : list Z) (pp : option Z) : option Z := match l with [] => pp | p :: l => lst l (Some p) end.

(** The nodes [l] after [pp] and before [qn]. *)
Fixpoint seg (m : heap) (pp : option Z) (l : list Z) (qn : option Z) : Prop :=
  match l with
  | [] => True
  | p :: l => (∃ e, m !! p = Some e ∧ prev e = pp ∧ next e = hd l qn) ∧ seg m (Some p) l qn
  end.
(** The same without the links back. *)
Fixpoint sseg (m : heap) (l : list Z) (qn : option Z) : Prop :=
  match l with
  | [] => True
  | p :: l => (∃ e, m !! p = Some e ∧ next e = hd l qn) ∧ sseg m l qn
  end.
(** What a node points to. *)
Definition target (e : rr_lent_t) : option Z * Z * Z := (rrset e, cent e, idx e).
Definition targets (m : heap) : gmap Z (option Z * Z * Z) := target <$> m.

(** [r] is the list of the nodes [l]. *)
Record dll (r : rrl) (l : list Z) : Prop := {
  dll_nodup : NoDup l;
  dll_head : rrset_l r = hd l None;
  dll_tail : rrset_l_tail r = lst l None;
  dll_seg : seg (lents r) None l None;
  dll_dom p : p ∈ l ↔ is_Some (lents r !! p);
}.

Lemma hd_app l1 l2 qn : hd (l1 ++ l2) qn = hd l1 (hd l2 qn).
Proof. by destruct l1. Qed.
Lemma lst_app l1 l2 pp : lst (l1 ++ l2) pp = lst l2 (lst l1 pp).
Proof. revert pp. induction l1 as [|p l1 IH]; intros pp; [done|]. cbn. apply IH. Qed.
Lemma lst_elem l pp p : lst l pp = Some p → p ∈ l ∨ l = [] ∧ pp = Some p.
Proof.
  destruct l as [|a l]; [by right|]. left. cbn in H. revert a H.
  induction l as [|b l IH]; intros a H; cbn in H; [injection H as ->; by left|]. right. by apply IH.
Qed.
Lemma seg_app m pp l1 l2 qn : seg m pp (l1 ++ l2) qn ↔ seg m pp l1 (hd l2 qn) ∧ seg m (lst l1 pp) l2 qn.
Proof.
  revert pp. induction l1 as [|p l1 IH]; intros pp; cbn; [tauto|]. rewrite IH, hd_app. tauto.
Qed.
Lemma seg_same m m' pp l qn : (∀ p, p ∈ l → m !! p = m' !! p) → seg m pp l qn → seg m' pp l qn.
Proof.
  revert pp. induction l as [|p l IH]; intros pp H; [done|]. cbn. intros [(e & He & ?) Hs].
  split; [exists e; by rewrite <-H by (by left)|]. apply IH; [|done]. intros. apply H. by right.
Qed.
Lemma seg_sseg m pp l qn : seg m pp l qn → sseg m l qn.
Proof.
  revert pp. induction l as [|p l IH]; intros pp; [done|]. cbn. intros [(e & He & ? & ?) Hs]. split; eauto.
Qed.
Lemma sseg_frame m m' l qn :
  (∀ p e, p ∈ l → m !! p = Some e → ∃ e', m' !! p = Some e' ∧ next e' = next e) → sseg m l qn → sseg m' l qn.
Proof.
  induction l as [|p l IH]; intros H; [done|]. cbn. intros [(e & He & Hn) Hs]. split.
  - destruct (H p e) as (e' & He' & Hn'); [by left|done|]. exists e'. split; [done|]. congruence.
  - apply IH; [|done]. intros q eq Hq. apply H. by right.
Qed.

(** The links at the ends of a segment. *)
Lemma set_prev_seg m pp pp' p l qn :
  p ∉ l → seg m pp (p :: l) qn →
  ∃ m', set_prev p pp' m = Some m' ∧ seg m' pp' (p :: l) qn ∧ targets m' = targets m ∧
    (∀ q, q ≠ p → m' !! q = m !! q) ∧ dom m' = dom m.
Proof.
  intros Hp [(e & He & Hpp & Hn) Hs]. unfold set_prev. rewrite He. cbn [mbind option_bind]. eexists. split; [done|].
  split; [|split; [|split]].
  - split; [eexists; split; [apply lookup_insert_eq|done]|]. eapply seg_same; [|exact Hs].
    intros q Hq. rewrite lookup_insert_ne; [done|]. by intros ->.
  - unfold targets. rewrite fmap_insert. apply insert_id. rewrite lookup_fmap, He. done.
  - intros q Hq. by rewrite lookup_insert_ne.
  - apply dom_insert_lookup_L. by exists e.
Qed.
Lemma set_next_seg m pp l p qn qn' :
  p ∉ l → seg m pp (l ++ [p]) qn →
  ∃ m', set_next p qn' m = Some m' ∧ seg m' pp (l ++ [p]) qn' ∧ targets m' = targets m ∧
    (∀ q, q ≠ p → m' !! q = m !! q) ∧ dom m' = dom m.
Proof.
  intros Hp Hs. apply seg_app in Hs as [Hs [(e & He & Hpp & Hn) _]]. unfold set_next. rewrite He.
  cbn [mbind option_bind]. eexists. split; [done|]. split; [|split; [|split]].
  - apply seg_app. split; [|split; [|done]].
    + eapply seg_same; [|exact Hs]. intros q Hq. rewrite lookup_insert_ne; [done|]. by intros ->.
    + eexists. split; [apply lookup_insert_eq|]. done.
  - unfold targets. rewrite fmap_insert. apply insert_id. rewrite lookup_fmap, He. done.
  - intros q Hq. by rewrite lookup_insert_ne.
  - apply dom_insert_lookup_L. by exists e.
Qed.

(** One side of a node that is taken out or put in. *)
Definition linked (m m' : heap) (l : list Z) : Prop :=
  targets m' = targets m ∧ (∀ q, q ∉ l → m' !! q = m !! q) ∧ dom m' = dom m.

Lemma prev_side {T} m l pp pp' (t t' : T) :
  NoDup l → seg m pp l None →
  ∃ m', match hd l None with
        | Some n => m ← set_prev n pp' m; Some (m, t)
        | None => Some (m, t')
        end = Some (m', match l with [] => t' | _ => t end) ∧
    seg m' pp' l None ∧ linked m m' l.
Proof.
  intros Hnd Hs. destruct l as [|p l]; cbn [hd].
  - exists m. done.
  - apply list.NoDup_cons in Hnd as [Hp Hnd].
    destruct (set_prev_seg m pp pp' p l None Hp Hs) as (m' & -> & Hs' & Ht & Hf & Hd).
    exists m'. split; [done|]. split; [done|]. split; [done|]. split; [|done]. intros q Hq. apply Hf. set_solver.
Qed.
Lemma next_side {T} m l qn qn' (t t' : T) :
  NoDup l → seg m None l qn →
  ∃ m', match lst l None with
        | Some p => m ← set_next p qn' m; Some (m, t)
        | None => Some (m, t')
        end = Some (m', match l with [] => t' | _ => t end) ∧
    seg m' None l qn' ∧ linked m m' l.
Proof.
  intros Hnd Hs. destruct l as [|p l _] using rev_ind; cbn [lst].
  - exists m. done.
  - rewrite lst_app. cbn [lst]. apply list.NoDup_app in Hnd as (Hnd & Hp & _).
    destruct (set_next_seg m None l p qn qn') as (m' & -> & Hs' & Ht & Hf & Hd); [set_solver|done|].
    exists m'. split; [by destruct l|]. split; [done|]. split; [done|]. split; [|done]. intros q Hq. apply Hf. set_solver.
Qed.
Lemma hd_next m pp p l : seg m pp (p :: l) None → ∃ e, m !! p = Some e ∧ prev e = pp ∧ next e = hd l None.
Proof. by intros [? _]. Qed.
Lemma seg_linked m m' pp l qn l' : linked m m' l' → (∀ p, p ∈ l → p ∉ l') → seg m pp l qn → seg m' pp l qn.
Proof. intros (_ & Hf & _) Hd. apply seg_same. intros p Hp. by rewrite Hf by (by apply Hd). Qed.

Lemma targets_insert p e m : targets (<[p := e]> m) = <[p := target e]> (targets m).
Proof. apply fmap_insert. Qed.
Lemma targets_delete p m : targets (delete p m) = delete p (targets m).
Proof. apply fmap_delete. Qed.
Lemma targets_lookup m p e : m !! p = Some e → targets m !! p = Some (target e).
Proof. unfold targets. rewrite lookup_fmap. by intros ->. Qed.

Lemma remove_rrl_spec r l1 le l2 :
  dll r (l1 ++ le :: l2) →
  ∃ r', remove_rrl le r = Some r' ∧ dll r' (l1 ++ l2) ∧ targets (lents r') = delete le (targets (lents r)).
Proof.
  intros [Hnd Hh Ht Hs Hd]. apply list.NoDup_app in Hnd as (Hn1 & Hdisj & Hn2).
  apply list.NoDup_cons in Hn2 as [Hle Hn2]. apply seg_app in Hs as [Hs1 Hs2].
  destruct (hd_next _ _ _ _ Hs2) as (e & He & Hep & Hen). destruct Hs2 as [_ Hs2].
  unfold remove_rrl. rewrite He. cbn [mbind option_bind]. rewrite Hen, Hep.
  destruct (prev_side (lents r) l2 _ (lst l1 None) (rrset_l_tail r) (lst l1 None) Hn2 Hs2) as (m1 & -> & Hs2' & Hl2).
  cbn [mbind option_bind].
  assert (Hs1' : seg m1 None l1 (Some le)) by (apply (seg_linked _ _ _ _ _ _ Hl2); set_solver).
  destruct (next_side m1 l1 _ (hd l2 None) (rrset_l r) (hd l2 None) Hn1 Hs1') as (m2 & -> & Hs1'' & Hl1).
  cbn [mbind option_bind]. eexists. split; [done|]. destruct Hl1 as (Htg1 & Hf1 & Hd1), Hl2 as (Htg2 & Hf2 & Hd2).
  assert (Hdel : ∀ p, p ∈ l1 ++ l2 → m2 !! p = delete le m2 !! p).
  { intros p Hp. rewrite lookup_delete_ne; [done|]. intros <-. apply elem_of_app in Hp as [Hp|Hp]; set_solver. }
  split; [split|].
  - apply list.NoDup_app. split; [done|]. split; [|done]. set_solver.
  - cbn. rewrite Hh, !hd_app. cbn. destruct l1; done.
  - cbn. rewrite Ht, !lst_app. cbn. destruct l2; done.
  - cbn [lents]. apply seg_app. split; (eapply seg_same; [intros p Hp; apply Hdel; set_solver|]); [done|].
    apply (seg_same m1); [|done]. intros p Hp. symmetry. apply Hf1. set_solver.
  - cbn [lents]. intros p.
    rewrite <-elem_of_dom, dom_delete_L, Hd1, Hd2. rewrite elem_of_difference, elem_of_dom, <-Hd. set_solver.
  - cbn [lents]. by rewrite targets_delete, Htg1, Htg2.
Qed.

(** A node between [l1] and [l2]. *)
Lemma dll_insert r l1 l2 ne e m1 m2 h t :
  dll r (l1 ++ l2) → lents r !! ne = None →
  linked (lents r) m1 l2 → seg m1 (Some ne) l2 None → linked m1 m2 l1 → seg m2 None l1 (Some ne) →
  prev e = lst l1 None → next e = hd l2 None → h = hd (l1 ++ ne :: l2) None → t = lst (l1 ++ ne :: l2) None →
  dll (mkRrl (<[ne := e]> m2) h t) (l1 ++ ne :: l2) ∧
    targets (<[ne := e]> m2) = <[ne := target e]> (targets (lents r)).
Proof.
  intros [Hnd _ _ _ Hd] Hne (Htg1 & Hf1 & Hd1) Hs2 (Htg2 & Hf2 & Hd2) Hs1 Hp Hn -> ->.
  assert (Hfresh : ne ∉ l1 ++ l2) by (rewrite Hd, Hne; by intros [? ?]).
  apply list.NoDup_app in Hnd as (Hn1 & Hdisj & Hn2).
  split; [split|].
  - apply list.NoDup_app. split; [done|]. split; [set_solver|]. apply list.NoDup_cons. split; [set_solver|done].
  - done.
  - done.
  - cbn [lents]. apply seg_app. cbn [hd]. split; [|split].
    + eapply seg_same; [|exact Hs1]. intros p Hin. rewrite lookup_insert_ne; [done|]. set_solver.
    + exists e. split; [apply lookup_insert_eq|done].
    + eapply seg_same; [|exact Hs2]. intros p Hin. rewrite lookup_insert_ne by set_solver. symmetry. apply Hf2. set_solver.
  - cbn [lents]. intros p. rewrite <-elem_of_dom, dom_insert_L, Hd2, Hd1, elem_of_union, elem_of_dom, <-Hd. set_solver.
  - by rewrite targets_insert, Htg2, Htg1.
Qed.

(** ** Insertion

    The time stamps of the nodes of the list: [k]. *)
Section insert.
Context (ts_of : option Z → Z → Z → option Z) (k : Z → Z).
Implicit Types (l : list Z) (r : rrl).

(** [k] gives the time stamp of every node in [l] *)
Definition stamped (m : heap) l : Prop :=
  ∀ p, p ∈ l → ∃ ro c i, targets m !! p = Some (ro, c, i) ∧ ts_of ro c i = Some (k p).
Lemma stamped_get m l p e : stamped m l → p ∈ l → m !! p = Some e → get_ts ts_of e = Some (k p).
Proof.
  intros Hk Hp He. destruct (Hk p Hp) as (ro & c & i & Ht & Hts). rewrite (targets_lookup _ _ _ He) in Ht.
  by injection Ht as <- <- <-.
Qed.
Lemma stamped_mono m m' l l' : targets m' = targets m → (∀ p, p ∈ l' → p ∈ l) → stamped m l → stamped m' l'.
Proof. unfold stamped. intros -> Hl Hk p Hp. by apply Hk, Hl. Qed.

Lemma find_back_spec fuel m ts l qn :
  (length l ≤ fuel)%nat → seg m None l qn → stamped m l →
  ∃ l1 l2, l = l1 ++ l2 ∧ find_back ts_of fuel m ts (lst l None) = Some (lst l1 None) ∧
    (∀ p, p ∈ l2 → ts < k p) ∧ (∀ p, lst l1 None = Some p → k p ≤ ts).
Proof.
  revert fuel qn. induction l as [|p l IH] using rev_ind; intros fuel qn Hf Hs Hk.
  - exists [], []. destruct fuel; (split; [done|]; split; [done|]; split; [set_solver|done]).
  - rewrite lst_app. cbn [lst]. rewrite length_app in Hf. cbn [length] in Hf. destruct fuel as [|fuel]; [lia|].
    apply seg_app in Hs as [Hs [(e & He & Hp & Hn) _]]. cbn [find_back]. rewrite He. cbn [mbind option_bind].
    rewrite (stamped_get m (l ++ [p]) p e Hk) by (done || set_solver). cbn [mbind option_bind].
    zif (ts >=? k p).
    + exists (l ++ [p]), []. rewrite app_nil_r, lst_app. split; [done|]. split; [done|]. split; [set_solver|].
      by intros ? [= <-].
    + rewrite Hp. destruct (IH fuel (hd [p] qn)) as (l1 & l2 & -> & Hfb & H2 & H1); [lia|done| |].
      { apply (stamped_mono m m (l ++ [p])); [done|set_solver|done]. }
      exists l1, (l2 ++ [p]). rewrite app_assoc. split; [done|]. split; [done|]. split; [|done].
      intros q Hq. apply elem_of_app in Hq as [Hq|Hq]; [by apply H2|]. apply list_elem_of_singleton in Hq as ->. lia.
Qed.
Lemma dll_length r l : dll r l → length l = size (lents r).
Proof.
  intros [Hnd _ _ _ Hd]. rewrite <-size_dom. rewrite <-(size_list_to_set (C := gset Z)) by done. f_equal.
  apply set_eq. intros p. rewrite elem_of_list_to_set, elem_of_dom. apply Hd.
Qed.

Lemma insert_found_spec r l1 le l2 ne e :
  dll r ((l1 ++ [le]) ++ l2) → lents r !! ne = None →
  ∃ r', insert_found ne le e r = Some r' ∧ dll r' ((l1 ++ [le]) ++ ne :: l2) ∧
    targets (lents r') = <[ne := target e]> (targets (lents r)).
Proof.
  intros Hr Hne. pose proof Hr as [Hnd Hh Ht Hs Hd]. apply list.NoDup_app in Hnd as (Hn1 & Hdisj & Hn2).
  apply seg_app in Hs as [Hs1 Hs2]. unfold insert_found.
  pose proof Hs1 as Hle. apply seg_app in Hle as [_ [(el & Hel & _ & Hnl) _]]. rewrite Hel. cbn [mbind option_bind].
  rewrite Hnl. cbn [hd].
  destruct (prev_side (lents r) l2 _ (Some ne) (rrset_l_tail r) (Some ne) Hn2 Hs2) as (m1 & -> & Hs2' & Hl2).
  cbn [mbind option_bind].
  assert (Hs1' : seg m1 None (l1 ++ [le]) (hd l2 None)) by (apply (seg_linked _ _ _ _ _ _ Hl2); [set_solver|done]).
  destruct (next_side m1 (l1 ++ [le]) _ (Some ne) tt tt Hn1 Hs1') as (m2 & Hm2 & Hs1'' & Hl1).
  rewrite lst_app in Hm2. cbn [lst] in Hm2. destruct (set_next le (Some ne) m1) as [m2'|]; [|done].
  cbn in Hm2. injection Hm2 as ->. cbn [mbind option_bind]. eexists. split; [done|].
  apply (dll_insert r (l1 ++ [le]) l2 ne (mkLent (hd l2 None) (Some le) (rrset e) (cent e) (idx e)) m1 m2); try done.
  - cbn. by rewrite lst_app.
  - rewrite Hh. by destruct l1.
  - rewrite Ht, !lst_app. by destruct l2.
Qed.
Lemma insert_front_spec r l ne e :
  dll r l → lents r !! ne = None →
  ∃ r', insert_front ne e r = Some r' ∧ dll r' (ne :: l) ∧
    targets (lents r') = <[ne := target e]> (targets (lents r)).
Proof.
  intros Hr Hne. pose proof Hr as [Hnd Hh Ht Hs Hd]. unfold insert_front. rewrite Hh.
  destruct (prev_side (lents r) l _ (Some ne) (rrset_l_tail r) (Some ne) Hnd Hs) as (m1 & -> & Hs' & Hl).
  cbn [mbind option_bind]. eexists. split; [done|].
  apply (dll_insert r [] l ne (mkLent (hd l None) None (rrset e) (cent e) (idx e)) m1 m1); try done. cbn. rewrite Ht. by destruct l.
Qed.
Lemma insert_append_spec r l ne e :
  dll r l → lents r !! ne = None →
  ∃ r', insert_append ne e r = Some r' ∧ dll r' (l ++ [ne]) ∧
    targets (lents r') = <[ne := target e]> (targets (lents r)).
Proof.
  intros Hr Hne. pose proof Hr as [Hnd Hh Ht Hs Hd]. unfold insert_append. rewrite Ht.
  destruct (next_side (lents r) l _ (Some ne) (rrset_l r) (Some ne) Hnd Hs) as (m1 & -> & Hs' & Hl).
  cbn [mbind option_bind]. eexists. split; [done|].
  apply (dll_insert r l [] ne (mkLent None (lst l None) (rrset e) (cent e) (idx e)) (lents r) m1); try done.
  - by rewrite app_nil_r.
  - rewrite Hh. by destruct l.
  - by rewrite lst_app.
Qed.

(** The node goes behind the last one that is not newer, or to the end while the list is
    not sorted. *)
Lemma insert_node_spec b r l ne rrs c i t :
  dll r l → lents r !! ne = None → stamped (lents r) l → ts_of rrs c i = Some t →
  ∃ r' l1 l2, insert_node ts_of b ne rrs c i r = Some r' ∧ l = l1 ++ l2 ∧ dll r' (l1 ++ ne :: l2) ∧
    targets (lents r') = <[ne := (rrs, c, i)]> (targets (lents r)) ∧
    if b then (∀ p, p ∈ l2 → t < k p) ∧ (∀ p, lst l1 None = Some p → k p ≤ t) else l2 = [].
Proof.
  intros Hr Hne Hk Ht. unfold insert_node. destruct b.
  - unfold get_ts. cbn [rrset cent idx]. rewrite Ht. cbn [mbind option_bind].
    destruct (find_back_spec (S (size (lents r))) (lents r) t l None) as (l1 & l2 & -> & Hfb & H2 & H1);
      [rewrite (dll_length r l Hr); lia|apply Hr|done|].
    rewrite (dll_tail _ _ Hr), Hfb. cbn [mbind option_bind].
    destruct l1 as [|le l1 _] using rev_ind; cbn [lst].
    + destruct (insert_front_spec r l2 ne (mkLent None None rrs c i) Hr Hne) as (r' & Hr' & ? & ?).
      exists r', [], l2. done.
    + rewrite lst_app in *. cbn [lst] in *.
      destruct (insert_found_spec r l1 le l2 ne (mkLent None None rrs c i) Hr Hne) as (r' & Hr' & ? & ?).
      exists r', (l1 ++ [le]), l2. rewrite lst_app. done.
  - destruct (insert_append_spec r l ne (mkLent None None rrs c i) Hr Hne) as (r' & Hr' & ? & ?).
    exists r', l, []. rewrite app_nil_r. done.
Qed.

(** ** Sorting *)

Definition older (p q : Z) : Prop := k p ≤ k q.
#[local] Instance older_dec p q : Decision (older p q) := decide (k p ≤ k q).

Lemma sseg_app m l1 l2 qn : sseg m (l1 ++ l2) qn ↔ sseg m l1 (hd l2 qn) ∧ sseg m l2 qn.
Proof. induction l1 as [|p l1 IH]; cbn; [tauto|]. rewrite IH, hd_app. tauto. Qed.
Lemma sseg_linked m m' l l' qn : linked m m' l' → (∀ p, p ∈ l → p ∉ l') → sseg m l qn → sseg m' l qn.
Proof.
  intros (_ & Hf & _) Hd. apply sseg_frame. intros p e Hp He. exists e. by rewrite Hf by (by apply Hd).
Qed.
Lemma linked_trans m m1 m2 l : linked m m1 l → linked m1 m2 l → linked m m2 l.
Proof. intros (? & Hf & ?) (? & Hf' & ?). split; [congruence|]. split; [|congruence]. intros q Hq. by rewrite Hf', Hf. Qed.
Lemma linked_mono m m' l l' : linked m m' l → (∀ p, p ∈ l → p ∈ l') → linked m m' l'.
Proof. intros (? & Hf & ?) Hl. split; [done|]. split; [|done]. intros q Hq. apply Hf. auto. Qed.
Lemma linked_refl m l : linked m m l.
Proof. done. Qed.

Lemma set_next_sseg m d p qn qn' :
  p ∉ d → sseg m (d ++ [p]) qn →
  ∃ m', set_next p qn' m = Some m' ∧ sseg m' (d ++ [p]) qn' ∧ linked m m' [p].
Proof.
  intros Hp Hs. apply sseg_app in Hs as [Hs [(e & He & Hn) _]]. unfold set_next. rewrite He.
  cbn [mbind option_bind]. eexists. split; [done|].
  set (e' := mkLent qn' (prev e) (rrset e) (cent e) (idx e)). assert (Hl : linked m (<[p := e']> m) [p]).
  { split; [|split].
    - rewrite targets_insert. apply insert_id. by rewrite (targets_lookup _ _ _ He).
    - intros q Hq. rewrite lookup_insert_ne; [done|]. set_solver.
    - apply dom_insert_lookup_L. by exists e. }
  split; [|done]. apply sseg_app. split.
  - apply (sseg_linked _ _ _ _ _ Hl); [set_solver|done].
  - split; [|done]. exists e'. split; [apply lookup_insert_eq|done].
Qed.
(** The cursor is behind the nodes [d]. *)
Lemma set_cursor_spec m d p qn :
  NoDup d → sseg m d qn →
  ∃ m', set_cursor (lst d None) (Some p) (hd d None) m = Some (m', hd (d ++ [p]) None) ∧
    sseg m' d (Some p) ∧ linked m m' d.
Proof.
  intros Hnd Hs. destruct d as [|a d _] using rev_ind; [by exists m|].
  rewrite lst_app. cbn [lst set_cursor]. apply list.NoDup_app in Hnd as (Hnd & Ha & _).
  destruct (set_next_sseg m d a qn (Some p)) as (m' & -> & Hs' & Hl); [set_solver|done|]. cbn [mbind option_bind].
  exists m'. split; [by destruct d|]. split; [done|]. apply (linked_mono _ _ _ _ Hl). set_solver.
Qed.

(** The node [p] is taken from the list [p :: lp]; the other list is [o]. *)
Lemma merge_take m d p lp o qn :
  NoDup (d ++ (p :: lp) ++ o) → sseg m d qn → sseg m (p :: lp) None → sseg m o None →
  ∃ m' e, set_cursor (lst d None) (Some p) (hd d None) m = Some (m', hd (d ++ [p]) None) ∧
    m' !! p = Some e ∧ next e = hd lp None ∧
    sseg m' (d ++ [p]) (hd lp None) ∧ sseg m' lp None ∧ sseg m' o None ∧ linked m m' d.
Proof.
  intros Hnd Hd Hp Ho. apply list.NoDup_app in Hnd as (Hndd & Hdis & _).
  destruct (set_cursor_spec m d p qn Hndd Hd) as (m1 & Hm1 & Hd1 & Hl1).
  assert (Hp1 : sseg m1 (p :: lp) None) by (apply (sseg_linked _ _ _ _ _ Hl1); [set_solver|done]).
  destruct Hp1 as [(e & He & Hn) Hlp]. exists m1, e. split; [done|]. split; [done|]. split; [done|]. split.
  - apply sseg_app. split; [done|]. split; [by exists e|done].
  - split; [done|]. split; [|done]. apply (sseg_linked _ _ _ _ _ Hl1); [set_solver|done].
Qed.
(** [p] was the last one of its list: the rest is what is left of the other list. *)
Lemma merge_end m d p q o qn :
  NoDup (d ++ p :: q :: o) → sseg m (d ++ [p]) qn → sseg m (q :: o) None →
  ∃ m', set_cursor (Some p) (Some q) (hd (d ++ [p]) None) m = Some (m', hd (d ++ p :: q :: o) None) ∧
    sseg m' (d ++ p :: q :: o) None ∧ linked m m' (d ++ p :: q :: o).
Proof.
  intros Hnd Hd Ho. change (p :: q :: o) with ([p] ++ q :: o) in *. rewrite app_assoc in *.
  apply list.NoDup_app in Hnd as (Hndd & Hdis & _).
  destruct (set_cursor_spec m (d ++ [p]) q qn Hndd Hd) as (m1 & Hm1 & Hd1 & Hl1).
  rewrite lst_app in Hm1. cbn [lst] in Hm1. exists m1. split; [rewrite Hm1; by destruct d|]. split.
  - apply sseg_app. split; [done|]. apply (sseg_linked _ _ _ _ _ Hl1); [set_solver|done].
  - apply (linked_mono _ _ _ _ Hl1). set_solver.
Qed.

Lemma merge_loop_spec fuel m d p lp q lq qn :
  (length lp + length lq < fuel)%nat → NoDup (d ++ (p :: lp) ++ q :: lq) →
  sseg m d qn → sseg m (p :: lp) None → sseg m (q :: lq) None → stamped m ((p :: lp) ++ q :: lq) →
  let l := d ++ list_merge older (p :: lp) (q :: lq) in
  ∃ m', merge_loop ts_of fuel m (hd d None) (lst d None) p q = Some (m', hd l None) ∧
    sseg m' l None ∧ linked m m' (d ++ (p :: lp) ++ q :: lq).
Proof.
  revert m d p lp q lq qn. induction fuel as [|fuel IH]; intros m d p lp q lq qn Hf Hnd Hd Hp Hq Hk; [lia|].
  cbn [merge_loop]. pose proof Hp as [(ep & Hep & _) _]. pose proof Hq as [(eq & Heq & _) _].
  rewrite Hep, Heq. cbn [mbind option_bind].
  rewrite (stamped_get _ _ p _ Hk ltac:(set_solver) Hep), (stamped_get _ _ q _ Hk ltac:(set_solver) Heq). cbn [mbind option_bind].
  assert (Hnd' : NoDup (d ++ (q :: lq) ++ p :: lp)).
  { eapply list.NoDup_Permutation_proper; [|exact Hnd]. apply Permutation_app_head, Permutation_app_comm. }
  zif (k p <=? k q).
  - destruct (merge_take m d p lp (q :: lq) qn Hnd Hd Hp Hq) as (m1 & e & -> & He & Hn & Hd1 & Hlp & Hlq & Hl1).
    cbn [mbind option_bind]. rewrite He. cbn [mbind option_bind]. rewrite Hn.
    cbn [list_merge]. rewrite decide_True by done. destruct lp as [|p' lp]; cbn [hd].
    + destruct (merge_end m1 d p q lq None Hnd Hd1 Hlq) as (m2 & -> & Hs & Hl2). exists m2. split; [done|]. split; [done|].
      refine (linked_trans _ _ _ _ (linked_mono _ _ _ _ Hl1 _) Hl2). set_solver.
    + destruct (IH m1 (d ++ [p]) p' lp q lq (Some p')) as (m2 & Hm2 & Hs2 & Hl2); try done.
      { cbn in Hf. lia. } { by rewrite <-app_assoc. } { apply (stamped_mono m m1 _ _ (proj1 Hl1)) with (2 := Hk); set_solver. }
      rewrite lst_app in Hm2. rewrite <-!app_assoc in *. exists m2. split; [exact Hm2|]. split; [exact Hs2|].
      refine (linked_trans _ _ _ _ (linked_mono _ _ _ _ Hl1 _) Hl2). set_solver.
  - destruct (merge_take m d q lq (p :: lp) qn Hnd' Hd Hq Hp) as (m1 & e & -> & He & Hn & Hd1 & Hlq & Hlp & Hl1).
    cbn [mbind option_bind]. rewrite He. cbn [mbind option_bind]. rewrite Hn.
    cbn [list_merge]. rewrite decide_False by (unfold older; lia). destruct lq as [|q' lq]; cbn [hd].
    + destruct (merge_end m1 d q p lp None Hnd' Hd1 Hlp) as (m2 & -> & Hs & Hl2). exists m2. split; [done|]. split; [done|].
      refine (linked_trans _ _ _ _ (linked_mono _ _ _ _ Hl1 _) (linked_mono _ _ _ _ Hl2 _)); set_solver.
    + destruct (IH m1 (d ++ [q]) p lp q' lq (Some q')) as (m2 & Hm2 & Hs2 & Hl2); try done.
      { cbn in Hf. lia. }
      { rewrite <-app_assoc. eapply list.NoDup_Permutation_proper; [|exact Hnd']. cbn.
        apply Permutation_app_head, Permutation_cons, (Permutation_app_comm (p :: lp)); done. }
      { apply (stamped_mono m m1 _ _ (proj1 Hl1)) with (2 := Hk); set_solver. }
      rewrite lst_app in Hm2. rewrite <-!app_assoc in *. exists m2. split; [exact Hm2|]. split; [exact Hs2|].
      refine (linked_trans _ _ _ _ (linked_mono _ _ _ _ Hl1 _) (linked_mono _ _ _ _ Hl2 _)); set_solver.
Qed.

Lemma sseg_dom (m : heap) l qn p : sseg m l qn → p ∈ l → p ∈ (dom m : gset Z).
Proof.
  induction l as [|a l IH]; [set_solver|]. intros [(e & He & _) Hs] [->|Hp]%elem_of_cons; [|by apply IH].
  apply elem_of_dom. by exists e.
Qed.
Lemma sseg_size (m : heap) l : NoDup l → (∀ p, p ∈ l → p ∈ (dom m : gset Z)) → (length l ≤ size m)%nat.
Proof.
  intros Hnd Hd. rewrite <-size_dom, <-(size_list_to_set (C := gset Z)) by done. apply subseteq_size.
  intros p Hp. apply Hd. by rewrite elem_of_list_to_set in Hp.
Qed.
Lemma listmerge_spec m lp lq :
  NoDup (lp ++ lq) → sseg m lp None → sseg m lq None → stamped m (lp ++ lq) →
  ∃ m', listmerge ts_of m (hd lp None) (hd lq None) = Some (m', hd (list_merge older lp lq) None) ∧
    sseg m' (list_merge older lp lq) None ∧ linked m m' (lp ++ lq).
Proof.
  intros Hnd Hp Hq Hk. destruct lp as [|p lp]; [exists m; by destruct lq|]. destruct lq as [|q lq]; [by exists m|].
  unfold listmerge. cbn [hd]. apply (merge_loop_spec _ m [] p lp q lq None); try done.
  pose proof (sseg_size m ((p :: lp) ++ q :: lq) Hnd) as Hsz. rewrite length_app in Hsz. cbn in Hsz.
  assert (S (length lp) + S (length lq) ≤ size m)%nat; [|lia]. apply Hsz.
  intros x [->|[Hx|[->|Hx]%elem_of_cons]%elem_of_app]%elem_of_cons; eauto using sseg_dom, list_elem_of_here, list_elem_of_further.
Qed.

(** The array [tmp] of sorted lists. *)
Abbreviation stack := (list (option (list Z))).
Definition ptrs (st : stack) : list (option Z) := map (λ o, hd (default [] o) None) st.
Definition elems (st : stack) : list Z := concat (map (default []) st).
Definition rep (m : heap) (st : stack) : Prop :=
  Forall (λ o, match o with Some l => l ≠ [] ∧ sseg m l None | None => True end) st.
(** The list at place [i] has [2 ^ i] nodes, and the last place is in use. *)
Fixpoint counter (i : nat) (st : stack) : Prop :=
  match st with
  | [] => True
  | o :: st => match o with Some l => length l = (2 ^ i)%nat | None => st ≠ [] end ∧ counter (S i) st
  end.

Lemma rep_linked m m' st l : linked m m' l → (∀ p, p ∈ elems st → p ∉ l) → rep m st → rep m' st.
Proof.
  intros Hl Hd Hr. induction Hr as [|o st Ho Hr IH]; [constructor|]. unfold elems in Hd. cbn in Hd. constructor.
  - destruct o as [lo|]; [|done]. destruct Ho as [? Ho]. split; [done|].
    apply (sseg_linked _ _ _ _ _ Hl); [|done]. cbn in Hd. set_solver.
  - apply IH. unfold elems. set_solver.
Qed.
Lemma list_merge_nil l l' : list_merge older l l' = [] → l = [].
Proof. destruct l as [|a l]; [done|]. destruct l' as [|b l']; [done|]. cbn. by destruct (decide (older a b)). Qed.
Lemma length_list_merge l l' : length (list_merge older l l') = (length l + length l')%nat.
Proof. by rewrite (merge_Permutation older), length_app. Qed.

Lemma sort_carry_spec m st l :
  NoDup (elems st ++ l) → rep m st → l ≠ [] → sseg m l None → stamped m (elems st ++ l) →
  let st' := merge_list_to_stack older st l in
  ∃ m', sort_carry ts_of m (ptrs st) (hd l None) = Some (m', ptrs st') ∧ rep m' st' ∧ linked m m' (elems st ++ l).
Proof.
  revert m l. induction st as [|o st IH]; intros m l Hnd Hr Hl Hs Hk.
  - exists m. split; [done|]. split; [|done]. constructor; [done|constructor].
  - apply list.Forall_cons in Hr as [Ho Hr]. destruct o as [lo|].
    + destruct Ho as [Hlo Ho]. destruct lo as [|a lo]; [done|]. set (la := a :: lo) in *.
      change (elems (Some la :: st)) with (la ++ elems st) in *.
      assert (Hp : la ++ elems st ++ l ≡ₚ elems st ++ la ++ l) by (by rewrite !app_assoc, (Permutation_app_comm la)).
      rewrite <-app_assoc in *.
      destruct (listmerge_spec m la l) as (m1 & Hm1 & Hs1 & Hl1); [|done|done| |].
      { rewrite Hp in Hnd. by apply list.NoDup_app in Hnd as (_ & _ & ?). }
      { apply (stamped_mono m m _ _ eq_refl) with (2 := Hk). set_solver. }
      destruct (IH m1 (list_merge older la l)) as (m2 & Hm2 & Hr2 & Hl2).
      { rewrite (merge_Permutation older). by rewrite <-Hp. }
      { apply (rep_linked _ _ _ _ Hl1); [|done]. rewrite Hp in Hnd. apply list.NoDup_app in Hnd as (_ & ? & _). done. }
      { intros Hn. by apply list_merge_nil in Hn. }
      { done. }
      { apply (stamped_mono m m1 _ _ (proj1 Hl1)) with (2 := Hk). intros p. rewrite (merge_Permutation older). set_solver. }
      exists m2. split; [|split].
      * change (sort_carry ts_of m (ptrs (Some la :: st)) (hd l None)) with
          (x ← listmerge ts_of m (hd la None) (hd l None); let '(m, carry) := x in
           y ← sort_carry ts_of m (ptrs st) carry; let '(m, tmp) := y in Some (m, None :: tmp)).
        rewrite Hm1. cbn [mbind option_bind]. by rewrite Hm2.
      * cbn [merge_list_to_stack]. by constructor.
      * apply (linked_trans _ m1).
        -- apply (linked_mono _ _ _ _ Hl1). set_solver.
        -- apply (linked_mono _ _ _ _ Hl2). intros p. rewrite (merge_Permutation older). set_solver.
    + exists m. split; [done|]. split; [|done]. by constructor.
Qed.
Lemma elems_push st l : elems (merge_list_to_stack older st l) ≡ₚ elems st ++ l.
Proof.
  revert l. induction st as [|[lo|] st IH]; intros l; unfold elems in *; cbn.
  - by rewrite app_nil_r.
  - rewrite IH, (merge_Permutation older). rewrite <-app_assoc, !(Permutation_app_comm lo), <-!app_assoc.
    by rewrite (Permutation_app_comm l).
  - by rewrite Permutation_app_comm.
Qed.
Lemma counter_push i st l : counter i st → length l = (2 ^ i)%nat → counter i (merge_list_to_stack older st l) ∧ merge_list_to_stack older st l ≠ [].
Proof.
  revert i l. induction st as [|[lo|] st IH]; intros i l Hc Hl; cbn.
  - done.
  - destruct Hc as [Hlo Hc]. destruct (IH (S i) (list_merge older lo l) Hc) as [Hc' Hne]; [|done].
    rewrite length_list_merge, Hlo, Hl, Nat.pow_succ_r'. lia.
  - destruct Hc. done.
Qed.
(** An array with [n] places in use holds at least [2 ^ (n - 1)] nodes. *)
Lemma counter_size i st : counter i st → st = [] ∨ (2 ^ (i + length st) ≤ 2 * length (elems st))%nat.
Proof.
  revert i. induction st as [|o st IH]; intros i; [by left|]. intros [Ho Hc]. right.
  unfold elems in *. cbn. rewrite length_app. destruct (IH (S i) Hc) as [->|Hle].
  - destruct o as [l|]; [|done]. cbn. rewrite Ho. replace (i + 1)%nat with (S i) by lia. rewrite Nat.pow_succ_r'. lia.
  - replace (i + S (length st))%nat with (S i + length st)%nat by lia. lia.
Qed.

Fixpoint push_all (st : stack) l : stack :=
  match l with [] => st | p :: l => push_all (merge_list_to_stack older st [p]) l end.
Definition stack_ok (m : heap) (st : stack) : Prop :=
  rep m st ∧ counter 0 st ∧ Forall (λ o, Sorted older (default [] o)) st.
#[local] Instance older_total : Total older.
Proof. intros p q. unfold older. lia. Qed.

Lemma sorted_push st l :
  Forall (λ o, Sorted older (default [] o)) st → Sorted older l →
  Forall (λ o, Sorted older (default [] o)) (merge_list_to_stack older st l).
Proof.
  intros Hst. revert l. induction Hst as [|o st Ho Hst IH]; intros l Hl; [by repeat constructor|].
  destruct o as [lo|]; cbn; (constructor; [first [done | constructor]|]); [|done]. by apply IH, (Sorted_list_merge older).
Qed.
Lemma sort_split_spec fuel m st p l :
  (length l < fuel)%nat → Z.of_nat (length (elems st ++ p :: l)) < 2 ^ 32 →
  NoDup (elems st ++ p :: l) → stack_ok m st → sseg m (p :: l) None → stamped m (elems st ++ p :: l) →
  let st' := push_all st (p :: l) in
  ∃ m', sort_split ts_of fuel m (ptrs st) p = Some (m', ptrs st') ∧ stack_ok m' st' ∧
    linked m m' (elems st ++ p :: l).
Proof.
  revert m st p l. induction fuel as [|fuel IH]; intros m st p l Hf Hlen Hnd (Hr & Hc & Hst) Hs Hk; [lia|].
  cbn [sort_split]. pose proof Hs as [(e & He & Hn) Hsl]. rewrite He. cbn [mbind option_bind].
  assert (Hp : elems st ++ p :: l ≡ₚ (elems st ++ [p]) ++ l) by (by rewrite <-app_assoc).
  destruct (set_next_sseg m [] p (hd l None) None) as (m1 & -> & Hs1 & Hl1); [set_solver|split; [by exists e|done]|].
  cbn [mbind option_bind app] in *.
  assert (Hdis : (∀ q, q ∈ elems st → q ∉ [p]) ∧ (∀ q, q ∈ l → q ∉ [p])).
  { apply list.NoDup_app in Hnd as (_ & ? & [? _]%list.NoDup_cons). set_solver. }
  destruct Hdis as [Hd1 Hd2]. apply (rep_linked _ _ _ _ Hl1) in Hr; [|done]. apply (sseg_linked _ _ _ _ _ Hl1) in Hsl; [|done].
  destruct (sort_carry_spec m1 st [p]) as (m2 & Hm2 & Hr2 & Hl2); try done.
  { rewrite Hp in Hnd. by apply list.NoDup_app in Hnd as [? _]. }
  { apply (stamped_mono m m1 _ _ (proj1 Hl1)) with (2 := Hk). set_solver. }
  cbn [hd] in Hm2. rewrite Hm2. cbn [mbind option_bind].
  set (st1 := merge_list_to_stack older st [p]) in *. assert (Hel : elems st1 ≡ₚ elems st ++ [p]) by apply elems_push.
  destruct (counter_push 0 st [p] Hc eq_refl) as [Hc1 Hne]. fold st1 in Hc1, Hne.
  assert (Hp1 : elems st1 ++ l ≡ₚ elems st ++ p :: l) by (by rewrite Hel, <-app_assoc).
  assert (Hroom : (length (ptrs st1) ≤ 32)%nat).
  { unfold ptrs. rewrite length_map. destruct (counter_size 0 st1 Hc1) as [?|Hsz]; [done|].
    assert (length (elems st1) ≤ length (elems st ++ p :: l))%nat by (rewrite <-Hp1, length_app; lia).
    destruct (Nat.le_gt_cases (length st1) 32) as [|Hgt]; [done|exfalso].
    apply (Nat.pow_le_mono_r 2 33) in Hgt; [|done]. apply Nat2Z.inj_le in Hgt. rewrite !Nat2Z.inj_pow in Hgt.
    apply Nat2Z.inj_le in Hsz. rewrite Nat2Z.inj_pow in Hsz. cbn in *. lia. }
  unfold NTMPSORT. replace (length (ptrs st1) <=? 32)%nat with true by (symmetry; by apply Nat.leb_le). rewrite Hn.
  assert (Hok1 : stack_ok m2 st1).
  { split; [done|]. split; [done|]. apply sorted_push; [done|]. by repeat constructor. }
  assert (Hl12 : linked m m2 (elems st ++ p :: l)).
  { refine (linked_trans _ _ _ _ (linked_mono _ _ _ _ Hl1 _) (linked_mono _ _ _ _ Hl2 _)); set_solver. }
  destruct l as [|q l]; [by exists m2|]. cbn [hd].
  assert (Hsq : sseg m2 (q :: l) None).
  { apply (sseg_linked _ _ _ _ _ Hl2); [|done]. rewrite Hp in Hnd. apply list.NoDup_app in Hnd as (_ & Hdis & _).
    intros x Hx Hx'. by apply (Hdis x). }
  destruct (IH m2 st1 q l) as (m3 & Hm3 & Hok3 & Hl3); try done.
  { cbn in Hf. lia. } { by rewrite Hp1. } { by rewrite Hp1. }
  { apply (stamped_mono m m2 _ _ (proj1 Hl12)) with (2 := Hk). intros x. by rewrite Hp1. }
  exists m3. split; [exact Hm3|]. split; [exact Hok3|]. apply (linked_trans _ m2); [exact Hl12|].
  apply (linked_mono _ _ _ _ Hl3). intros x. by rewrite Hp1.
Qed.
Lemma elems_push_all st l : elems (push_all st l) ≡ₚ elems st ++ l.
Proof.
  revert st. induction l as [|p l IH]; intros st; cbn [push_all]; [by rewrite app_nil_r|].
  by rewrite IH, elems_push, <-app_assoc.
Qed.

Fixpoint join (carry : list Z) (st : stack) : list Z :=
  match st with [] => carry | o :: st => join (list_merge older (default [] o) carry) st end.
Lemma sort_join_spec m lc st :
  NoDup (lc ++ elems st) → sseg m lc None → rep m st → stamped m (lc ++ elems st) →
  ∃ m', sort_join ts_of m (hd lc None) (ptrs st) = Some (m', hd (join lc st) None) ∧ sseg m' (join lc st) None ∧
    linked m m' (lc ++ elems st).
Proof.
  revert m lc. induction st as [|o st IH]; intros m lc Hnd Hs Hr Hk; [by exists m|].
  apply list.Forall_cons in Hr as [Ho Hr]. set (lo := default [] o) in *. change (elems (o :: st)) with (lo ++ elems st) in *.
  assert (Hp : lc ++ lo ++ elems st ≡ₚ (lo ++ lc) ++ elems st).
  { by rewrite app_assoc, (Permutation_app_comm lc). }
  assert (Hso : sseg m lo None) by (destruct o; [apply Ho|done]).
  destruct (listmerge_spec m lo lc) as (m1 & Hm1 & Hs1 & Hl1); [|done|done| |].
  { rewrite Hp in Hnd. by apply list.NoDup_app in Hnd as [? _]. }
  { apply (stamped_mono m m _ _ eq_refl) with (2 := Hk). set_solver. }
  assert (Hp1 : list_merge older lo lc ++ elems st ≡ₚ lc ++ lo ++ elems st) by (by rewrite (merge_Permutation older), Hp).
  destruct (IH m1 (list_merge older lo lc)) as (m2 & Hm2 & Hs2 & Hl2).
  { by rewrite Hp1. } { done. }
  { apply (rep_linked _ _ _ _ Hl1); [|done]. rewrite Hp in Hnd. apply list.NoDup_app in Hnd as (_ & Hdis & _).
    intros x Hx Hx'. by apply (Hdis x). }
  { apply (stamped_mono m m1 _ _ (proj1 Hl1)) with (2 := Hk). intros x. by rewrite Hp1. }
  exists m2. cbn [ptrs map sort_join join]. fold lo (ptrs st). rewrite Hm1. cbn [mbind option_bind]. split; [done|].
  split; [done|]. refine (linked_trans _ _ _ _ (linked_mono _ _ _ _ Hl1 _) (linked_mono _ _ _ _ Hl2 _)).
  - set_solver.
  - intros x. by rewrite Hp1.
Qed.
Lemma join_perm lc st : join lc st ≡ₚ lc ++ elems st.
Proof.
  revert lc. induction st as [|o st IH]; intros lc; cbn; [by rewrite app_nil_r|].
  unfold elems in *. cbn. rewrite IH, (merge_Permutation older), app_assoc. by rewrite (Permutation_app_comm lc).
Qed.
Lemma join_sorted lc st : Sorted older lc → Forall (λ o, Sorted older (default [] o)) st → Sorted older (join lc st).
Proof.
  intros Hlc Hst. revert lc Hlc. induction Hst as [|o st Ho Hst IH]; intros lc Hlc; [done|]. cbn. apply IH.
  by apply (Sorted_list_merge older).
Qed.

Lemma fix_back_spec fuel m l q :
  (length l ≤ fuel)%nat → NoDup l → sseg m l None →
  ∃ m', fix_back fuel m (hd l None) q = Some (m', lst l q) ∧ seg m' q l None ∧ linked m m' l.
Proof.
  revert fuel m q. induction l as [|p l IH]; intros fuel m q Hf Hnd Hs; [exists m; by destruct fuel|].
  destruct fuel as [|fuel]; [cbn in Hf; lia|]. apply list.NoDup_cons in Hnd as [Hp Hnd].
  destruct Hs as [(e & He & Hn) Hs]. cbn [hd fix_back lst]. unfold set_prev. rewrite He. cbn [mbind option_bind].
  set (e' := mkLent (next e) q (rrset e) (cent e) (idx e)). rewrite lookup_insert_eq. cbn [mbind option_bind].
  assert (Hl : linked m (<[p := e']> m) [p]).
  { split; [|split].
    - rewrite targets_insert. apply insert_id. by rewrite (targets_lookup _ _ _ He).
    - intros x Hx. rewrite lookup_insert_ne; [done|]. set_solver.
    - apply dom_insert_lookup_L. by exists e. }
  destruct (IH fuel (<[p := e']> m) (Some p)) as (m' & Hm' & Hs' & Hl'); [cbn in Hf; lia|done| |].
  { apply (sseg_linked _ _ _ _ _ Hl); [set_solver|done]. }
  exists m'. cbn [next e']. rewrite Hn. split; [exact Hm'|]. split; [split; [|exact Hs']|].
  - exists e'. destruct Hl' as (_ & Hf' & _). rewrite Hf', lookup_insert_eq by done. done.
  - refine (linked_trans _ _ _ _ (linked_mono _ _ _ _ Hl _) (linked_mono _ _ _ _ Hl' _)); set_solver.
Qed.

(** The list is sorted; its nodes are the same, and so is what they point to. *)
Lemma sort_rrl_spec r l :
  dll r l → stamped (lents r) l → Z.of_nat (length l) < 2 ^ 32 →
  ∃ r' l', sort_rrl ts_of r = Some r' ∧ dll r' l' ∧ l' ≡ₚ l ∧ Sorted older l' ∧ targets (lents r') = targets (lents r).
Proof.
  intros Hr Hk Hlen. pose proof Hr as [Hnd Hh Ht Hs Hd]. unfold sort_rrl. rewrite Hh.
  destruct l as [|p l]; cbn [hd]; [exists r, []; split; [done|]; split; [done|]; split; [done|]; split; [constructor|done]|].
  pose proof Hs as [(e & He & _ & Hn) _]. rewrite He. cbn [mbind option_bind]. rewrite Hn.
  destruct l as [|q l]; cbn [hd]; [exists r, [p]; split; [done|]; split; [done|]; split; [done|]; split; [by repeat constructor|done]|].
  set (l0 := p :: q :: l) in *.
  destruct (sort_split_spec (S (size (lents r))) (lents r) [] p (q :: l)) as (m1 & Hm1 & (Hr1 & Hc1 & Hst1) & Hl1); try done.
  { pose proof (dll_length r l0 Hr). cbn in *. lia. }
  { split; [constructor|]. split; [done|constructor]. } { by apply seg_sseg in Hs. }
  cbn [ptrs map] in Hm1. fold l0 in Hm1, Hr1, Hc1, Hst1, Hl1. rewrite Hm1. cbn [mbind option_bind].
  pose proof (elems_push_all [] l0) as Hel. cbn [app elems concat map] in Hel. set (st := push_all [] l0) in *.
  destruct st as [|o st]; [by apply Permutation_nil_l in Hel|]. set (lc := default [] o) in *.
  change (elems (o :: st)) with (lc ++ elems st) in Hel. apply list.Forall_cons in Hr1 as [Ho Hr1].
  apply list.Forall_cons in Hst1 as [Hso Hst1].
  destruct (sort_join_spec m1 lc st) as (m2 & Hm2 & Hs2 & Hl2).
  { by rewrite Hel. } { destruct o; [apply Ho|done]. } { done. }
  { apply (stamped_mono (lents r) m1 _ _ (proj1 Hl1)) with (2 := Hk). intros x. by rewrite Hel. }
  change (ptrs (o :: st)) with (hd lc None :: ptrs st). cbv iota. rewrite Hm2. cbn [mbind option_bind].
  assert (Hp : join lc st ≡ₚ l0) by (by rewrite join_perm).
  assert (Hnd2 : NoDup (join lc st)) by (by rewrite Hp).
  assert (Hdom : ∀ x, x ∈ (dom m2 : gset Z) ↔ x ∈ l0).
  { intros x. destruct Hl1 as (_ & _ & Hd1), Hl2 as (_ & _ & Hd2). rewrite Hd2, Hd1, elem_of_dom. symmetry. apply Hd. }
  destruct (fix_back_spec (S (size m2)) m2 (join lc st) None) as (m3 & -> & Hs3 & Hl3); [|done|done|].
  { pose proof (sseg_size m2 (join lc st) Hnd2) as Hsz. apply le_S, Hsz. intros x. by rewrite Hp, Hdom. }
  cbn [mbind option_bind]. exists (mkRrl m3 (hd (join lc st) None) (lst (join lc st) None)), (join lc st).
  split; [done|]. split; [|split; [done|split]].
  - split; try done. intros x. cbn [lents]. rewrite <-elem_of_dom. destruct Hl3 as (_ & _ & ->). by rewrite Hdom, Hp.
  - by apply join_sorted.
  - cbn [lents]. destruct Hl1 as [H1 _], Hl2 as [H2 _], Hl3 as [H3 _]. congruence.
Qed.
Lemma sorted_insert l1 l2 ne :
  Sorted older (l1 ++ l2) → (∀ p, p ∈ l2 → older ne p) → (∀ p, lst l1 None = Some p → older p ne) →
  Sorted older (l1 ++ ne :: l2).
Proof.
  intros Hs H2. induction l1 as [|a l1 IH]; cbn [app] in *; intros H1.
  - constructor; [done|]. destruct l2 as [|b l2]; constructor. apply H2, list_elem_of_here.
  - apply Sorted_inv in Hs as [Hs Hh]. constructor.
    + apply IH; [done|]. intros p Hp. apply H1. destruct l1; [done|]. exact Hp.
    + destruct l1 as [|b l1]; cbn [app] in *; constructor; [by apply H1|by inversion Hh].
Qed.

(** C25: [sort_rrl] sorts the list by age (a permutation of the same nodes, each with what it
    pointed to, well-linked in both directions), and a node that [insert_rrl] puts into the
    sorted list comes to its place by age: the list stays sorted.  The nodes are fewer than
    [2^32], the bound of the stack of runs in [sort_rrl]. *)
Theorem sort_rrl_insert_sorted r l ne rrs c i :
  dll r l → stamped (lents r) l → Z.of_nat (length l) < 2 ^ 32 →
  lents r !! ne = None → ts_of rrs c i = Some (k ne) →
  ∃ r1 l1 r2 l2,
    sort_rrl ts_of r = Some r1 ∧ dll r1 l1 ∧ l1 ≡ₚ l ∧ Sorted older l1 ∧ targets (lents r1) = targets (lents r) ∧
    insert_node ts_of true ne rrs c i r1 = Some r2 ∧ dll r2 l2 ∧ l2 ≡ₚ ne :: l ∧ Sorted older l2 ∧
    targets (lents r2) = <[ne := (rrs, c, i)]> (targets (lents r)).
Proof.
  intros Hr Hk Hlen Hne Ht.
  destruct (sort_rrl_spec r l Hr Hk Hlen) as (r1 & l1 & H1 & Hd1 & Hp1 & Hs1 & Ht1).
  assert (Hne1 : lents r1 !! ne = None).
  { apply eq_None_not_Some. intros Hx. apply (dll_dom _ _ Hd1) in Hx. rewrite Hp1 in Hx.
    apply (dll_dom _ _ Hr) in Hx as [? Hx]. congruence. }
  assert (Hk1 : stamped (lents r1) l1) by (apply (stamped_mono (lents r) _ l); [done| |done]; intros p; by rewrite Hp1).
  destruct (insert_node_spec true r1 l1 ne rrs c i (k ne) Hd1 Hne1 Hk1 Ht) as (r2 & a & b & H2 & -> & Hd2 & Ht2 & Hb & Ha).
  exists r1, (a ++ b), r2, (a ++ ne :: b). rewrite Ht1 in Ht2.
  split_and!; try done.
  - by rewrite <- Permutation_middle, Hp1.
  - apply sorted_insert; [done| |done]. intros p Hp. apply Hb in Hp. unfold older. lia.
Qed.
End insert.

(** Three nodes in the order of their insertion, for the time stamps 30, 10 and 20. *)
Definition ex_ts_of (rrs : option Z) (c i : Z) : option Z := Some c.
Definition ex_key (p : Z) : Z := if p =? 0 then 30 else if p =? 1 then 10 else if p =? 2 then 20 else 15.
Definition ex_rrl : rrl :=
  mkRrl (list_to_map [(0, mkLent (Some 1) None (Some 0) 30 0); (1, mkLent (Some 2) (Some 0) (Some 0) 10 0);
                      (2, mkLent None (Some 1) (Some 0) 20 0)]) (Some 0) (Some 2).
Lemma ex_rrl_dll : dll ex_rrl [0; 1; 2].
Proof.
  split; [by apply (bool_decide_unpack _)|done|done|by cbn; split_and!; try (eexists; split_and!; done)|].
  intros p. unfold ex_rrl. cbn [lents]. rewrite <- elem_of_dom, dom_list_to_map_L. cbn. set_solver.
Qed.
Example sort_rrl_insert_sorted_witness : ∃ r1 l1 r2 l2,
  sort_rrl ex_ts_of ex_rrl = Some r1 ∧ dll r1 l1 ∧ l1 ≡ₚ [0; 1; 2] ∧ Sorted (older ex_key) l1 ∧
  targets (lents r1) = targets (lents ex_rrl) ∧
  insert_node ex_ts_of true 3 (Some 0) 15 0 r1 = Some r2 ∧ dll r2 l2 ∧ l2 ≡ₚ [3; 0; 1; 2] ∧ Sorted (older ex_key) l2 ∧
  targets (lents r2) = <[3 := (Some 0, 15, 0)]> (targets (lents ex_rrl)).
Proof.
  apply (sort_rrl_insert_sorted ex_ts_of ex_key).
  - apply ex_rrl_dll.
  - intros p Hp. assert (Hc : p = 0 ∨ p = 1 ∨ p = 2) by set_solver.
    destruct Hc as [-> | [-> | ->]]; do 3 eexists; split; reflexivity.
  - done.
  - reflexivity.
  - reflexivity.
Defined.
