(* ===== verification/DnsCent.v ===== *)
(** * Entries of the DNS cache

    [pdnsd/src/cache.h] and [cache.c]: an entry is a domain with its record sets, or a domain
    that is known not to exist.  The operations here build, copy and change one entry; they
    run inside and outside of the cache.

    The union of the entry is tagged, and an access to the other member is an error.  A
    record set has the address it was allocated at, by which the nodes of the list (file
    RrList) point to it.  The memory is the list with its nodes, the outcomes of the next
    calls of [malloc] (success when none are given), and the next address.  Time stamps and
    sizes are integers without a bound; debug messages are left out. *)

From S2P Require Import Prelude CInt DnsName DnsCompress RrTypes RrList.

(** ** Flags *)

Definition CF_NEGATIVE : Z := 1.
Definition CF_LOCAL : Z := 2.
Definition CF_AUTH : Z := 4.
Definition CF_NOCACHE : Z := 8.
Definition CF_ADDITIONAL : Z := 16.
Definition CF_NOPURGE : Z := 32.
Definition CF_ROOTSERV : Z := 64.
Definition DF_NEGATIVE : Z := 1.
Definition DF_LOCAL : Z := 2.
Definition DF_AUTH : Z := 4.
Definition DF_NOCACHE : Z := 8.
Definition DF_WILD : Z := 16.
Definition cundef : Z := 0xff.

(** [flags & f], [flags &= ~f] *)
Definition has (flags f : Z) : bool := negb (Z.land flags f =? 0).
Definition clear (flags f : Z) : Z := Z.ldiff flags f.

(** ** Memory *)

Record memory := mkMem { rl : rrl; mallocs : list bool; brk : Z }.
Inductive log_event := OUT_OF_CACHE_MEMORY | CACHE_ENTRY_NOT_FOUND | CACHE_ENTRY_MISMATCH.
Abbreviation Mem := (M memory log_event).

Definition malloc : Mem (option Z) := λ s,
  match mallocs s with
  | false :: ms => Some (None, mkMem (rl s) ms (brk s), [])
  | ms => Some (Some (brk s), mkMem (rl s) (tail ms) (brk s + 1), [])
  end.
Definition mem_remove_rrl (le : option Z) : Mem unit := λ s,
  match le with
  | None => Some (tt, s, [])
  | Some le => r ← remove_rrl le (rl s); Some (tt, mkMem r (mallocs s) (brk s), [])
  end.
(** a value that is there, or an access outside of the object *)
Definition the {A} (o : option A) : Mem A :=
  match o with Some a => mret a | None => unreachable end.

Definition sizeof_ptr : Z := 8.
Definition sizeof_rr_bucket_t : Z := 16.
Definition sizeof_rr_set_t : Z := 40.
Definition sizeof_dns_cent_t : Z := 104.

(** ** Data

    A [rr_bucket_t] list is the list of the data of its buckets. *)
Record rr_set_t := mkSet { addr : Z; lent : option Z; ttl : Z; ts : Z; flags : Z; rrs : list bytes }.
Abbreviation slots := (list (option rr_set_t)).
Inductive cent_data :=
  | neg (lent : option Z) (ttl ts : Z)
  | rr (rrmu : slots) (rrext : option slots).
Record dns_cent_t := mkCent {
  qname : bytes; cs : Z; num_rrs : Z; c_flags : Z; u : cent_data; c_ns : Z; c_soa : Z }.

Definition negative (c : dns_cent_t) : bool := has (c_flags c) DF_NEGATIVE.
Definition rr_of (c : dns_cent_t) : option (slots * option slots) :=
  match u c with rr mu ext => Some (mu, ext) | neg _ _ _ => None end.
Definition neg_of (c : dns_cent_t) : option (option Z * Z * Z) :=
  match u c with neg l t s => Some (l, t, s) | rr _ _ => None end.
Definition with_u (c : dns_cent_t) (v : cent_data) : dns_cent_t :=
  mkCent (qname c) (cs c) (num_rrs c) (c_flags c) v (c_ns c) (c_soa c).
Definition with_flags (c : dns_cent_t) (f : Z) : dns_cent_t :=
  mkCent (qname c) (cs c) (num_rrs c) f (u c) (c_ns c) (c_soa c).
Definition add_cs (c : dns_cent_t) (n : Z) : dns_cent_t :=
  mkCent (qname c) (cs c + n) (num_rrs c) (c_flags c) (u c) (c_ns c) (c_soa c).
Definition add_num (c : dns_cent_t) (n : Z) : dns_cent_t :=
  mkCent (qname c) (cs c) (u16 (num_rrs c + n)) (c_flags c) (u c) (c_ns c) (c_soa c).
Definition with_lent (s : rr_set_t) (l : option Z) : rr_set_t := mkSet (addr s) l (ttl s) (ts s) (flags s) (rrs s).
Definition with_ttl (s : rr_set_t) (t : Z) : rr_set_t := mkSet (addr s) (lent s) t (ts s) (flags s) (rrs s).
Definition with_rrs (s : rr_set_t) (l : list bytes) : rr_set_t := mkSet (addr s) (lent s) (ttl s) (ts s) (flags s) l.

(** ** Access to the record sets *)

Definition NULLS (n : Z) : slots := replicate (Z.to_nat n) None.
Definition RRARR_LEN (c : dns_cent_t) : option Z :=
  if negative c then Some 0
  else r ← rr_of c; Some (match r.2 with Some _ => NRRTOT | None => NRRMU end).
Definition RRARR_INDEX (c : dns_cent_t) (i : Z) : option (option rr_set_t) :=
  r ← rr_of c;
  let '(mu, ext) := r in
  if i <? NRRMU then mu !! Z.to_nat i else ext ← ext; ext !! Z.to_nat (i - NRRMU).
Definition RRARR_INDEX_TESTEXT (c : dns_cent_t) (i : Z) : option (option rr_set_t) :=
  if negative c then Some None
  else
    r ← rr_of c;
    let '(mu, ext) := r in
    if i <? NRRMU then mu !! Z.to_nat i
    else match ext with Some ext => ext !! Z.to_nat (i - NRRMU) | None => Some None end.
(** [*RRARR_INDEX_PA(cent,i) = v] *)
Definition set_slot (c : dns_cent_t) (i : Z) (v : option rr_set_t) : option dns_cent_t :=
  r ← rr_of c;
  let '(mu, ext) := r in
  if i <? NRRMU then
    assert! (Z.to_nat i <? length mu)%nat; Some (with_u c (rr (<[Z.to_nat i := v]> mu) ext))
  else
    ext ← ext;
    assert! (Z.to_nat (i - NRRMU) <? length ext)%nat;
    Some (with_u c (rr mu (Some (<[Z.to_nat (i - NRRMU) := v]> ext)))).

Definition getrrset (c : dns_cent_t) (type : Z) : option (option rr_set_t) :=
  if negative c then Some None
  else
    let tpi := type - T_MIN in
    if (0 <=? tpi) && (tpi <? T_NUM) then
      idx ← rrlkuptab !! Z.to_nat tpi;
      r ← rr_of c;
      let '(mu, ext) := r in
      if idx <? NRRMU then mu !! Z.to_nat idx
      else if idx - NRRMU <? NRREXT then
        match ext with Some ext => ext !! Z.to_nat (idx - NRRMU) | None => Some None end
      else Some None
    else Some None.
(** [GET_RRSMU] *)
Definition GET_RRSMU (c : dns_cent_t) (i : Z) : option (option rr_set_t) :=
  if negative c then Some None else r ← rr_of c; r.1 !! Z.to_nat i.
Definition getrrset_NS (c : dns_cent_t) : option (option rr_set_t) := GET_RRSMU c 1.
Definition getrrset_SOA (c : dns_cent_t) : option (option rr_set_t) := GET_RRSMU c 3.
Definition have_rr (c : dns_cent_t) (type : Z) : option bool :=
  if negative c then Some false
  else
    s ← getrrset c type;
    Some (match s with Some s => match rrs s with [] => false | _ => true end | None => false end).

(** ** Building an entry *)

Definition init_cent (name : bytes) (t s f : Z) : Mem (option dns_cent_t) :=
  namesz ← the (rhnlen name);
  p ← malloc;
  match p with
  | None => mret None
  | Some _ =>
      mret (Some (mkCent (ztake namesz name) (sizeof_dns_cent_t + namesz) 0 f
        (if has f DF_NEGATIVE then neg None t s else rr (NULLS NRRMU) None) cundef cundef))
  end.

Definition create_rr (data : bytes) : Mem (option bytes) :=
  p ← malloc; mret (match p with Some _ => Some data | None => None end).

Definition del_rrset (s : rr_set_t) : Mem Z :=
  mem_remove_rrl (lent s);;
  mret (foldl (λ rv b, rv + (sizeof_rr_bucket_t + zlen b)) sizeof_rr_set_t (rrs s)).

(** the domain is not negative any more *)
Definition positive (c : dns_cent_t) : Mem dns_cent_t :=
  if negative c then
    n ← the (neg_of c);
    mem_remove_rrl n.1.1;;
    mret (with_u (with_flags c (clear (c_flags c) DF_NEGATIVE)) (rr (NULLS NRRMU) None))
  else mret c.
(** [rrsetpa], for which an array may be allocated *)
Definition need_slot (c : dns_cent_t) (i : Z) : Mem (bool * dns_cent_t) :=
  r ← the (rr_of c);
  let '(mu, ext) := r in
  if i <? NRRMU then mret (true, c)
  else
    ASSERT (i - NRRMU <? NRREXT);;
    match ext with
    | Some _ => mret (true, c)
    | None =>
        p ← malloc;
        mret (match p with
              | Some _ => (true, add_cs (with_u c (rr mu (Some (NULLS NRREXT)))) (sizeof_ptr * NRREXT))
              | None => (false, c)
              end)
    end.
Definition add_cent_rrset_by_index (c : dns_cent_t) (i t s f : Z) : Mem (bool * dns_cent_t) :=
  c ← positive c;
  x ← need_slot c i;
  let '(ok, c) := x in
  if ok : bool then
    p ← malloc;
    match p with
    | None => c ← the (set_slot c i None); mret (false, c)
    | Some a =>
        c ← the (set_slot c i (Some (mkSet a None t s f [])));
        mret (true, add_num (add_cs c sizeof_rr_set_t) 1)
    end
  else mret (false, c).
Definition add_cent_rrset_by_type (c : dns_cent_t) (type t s f : Z) : Mem (bool * dns_cent_t) :=
  let tpi := type - T_MIN in
  ASSERT ((0 <=? tpi) && (tpi <? T_NUM));;
  i ← the (rrlkuptab !! Z.to_nat tpi);
  add_cent_rrset_by_index c i t s f.

(** [rtail] is the place of the last bucket in the list of the set, if there is one *)
Definition link_rr (c : dns_cent_t) (i : Z) (data : bytes) (rtail : option nat) : Mem (option nat * dns_cent_t) :=
  v ← the (RRARR_INDEX c i);
  s ← the v;
  match rtail with
  | None => c ← the (set_slot c i (Some (with_rrs s (data :: rrs s)))); mret (Some O, c)
  | Some k =>
      ASSERT (k <? length (rrs s))%nat;;
      c ← the (set_slot c i (Some (with_rrs s (take (S k) (rrs s) ++ data :: drop (S k) (rrs s)))));
      mret (Some (S k), c)
  end.
Definition add_cent_rr_int (c : dns_cent_t) (i t s f : Z) (data : bytes) (rtail : option nat) :
    Mem (bool * option nat * dns_cent_t) :=
  b ← create_rr data;
  match b with
  | None => mret (false, rtail, c)
  | Some data =>
      x ← match rtail with
          | Some _ => mret (true, c)
          | None =>
              v ← the (RRARR_INDEX_TESTEXT c i);
              match v with
              | Some _ => mret (true, c)
              | None => add_cent_rrset_by_index c i t s f
              end
          end;
      let '(ok, c) := x in
      if ok : bool then
        y ← link_rr c i data rtail;
        let '(rtail, c) := y in
        mret (true, rtail, add_cs c (sizeof_rr_bucket_t + zlen data))
      else mret (false, rtail, c)
  end.
Definition add_cent_rr (c : dns_cent_t) (type t s f : Z) (data : bytes) : Mem (bool * dns_cent_t) :=
  if has (c_flags c) DF_LOCAL && negb (has f CF_LOCAL) then mret (true, c)
  else
    let tpi := type - T_MIN in
    ASSERT ((0 <=? tpi) && (tpi <? T_NUM));;
    i ← the (rrlkuptab !! Z.to_nat tpi);
    ASSERT (i <? NRRTOT);;
    v ← the (RRARR_INDEX_TESTEXT c i);
    match v with
    | None => x ← add_cent_rr_int c i t s f data None; mret (x.1.1, x.2)
    | Some set =>
        c ← (if t <? ttl set then the (set_slot c i (Some (with_ttl set t))) else mret c);
        if bool_decide (data ∈ rrs set) then mret (true, c)
        else
          x ← add_cent_rr_int c i t s f data (match rrs set with [] => None | _ => Some (pred (length (rrs set))) end);
          mret (x.1.1, x.2)
    end.

Definition del_cent_rrset_by_index (c : dns_cent_t) (i : Z) : Mem (Z * dns_cent_t) :=
  v ← the (RRARR_INDEX_TESTEXT c i);
  match v with
  | None => mret (0, c)
  | Some s =>
      rv ← del_rrset s;
      c ← the (set_slot c i None);
      let c := add_cs (add_num c (-1)) (- rv) in
      mret (rv, with_flags c (clear (c_flags c) DF_AUTH))
  end.

(** [del_rrset] for every set of an array; the sum of what it returns *)
Fixpoint del_slots (l : slots) : Mem Z :=
  match l with
  | [] => mret 0
  | None :: l => del_slots l
  | Some s :: l => n ← del_rrset s; m ← del_slots l; mret (n + m)
  end.
Definition del_rrs (mu : slots) (ext : option slots) : Mem Z :=
  n ← del_slots mu;
  match ext with
  | None => mret n
  | Some ext => m ← del_slots ext; mret (n + m + sizeof_ptr * NRREXT)
  end.
Definition free_cent (c : dns_cent_t) : Mem unit :=
  if negative c then n ← the (neg_of c); mem_remove_rrl n.1.1
  else r ← the (rr_of c); del_rrs r.1 r.2;; mret tt.
Definition negate_cent (c : dns_cent_t) (t s : Z) : Mem dns_cent_t :=
  if negative c then
    n ← the (neg_of c); mret (with_u c (neg n.1.1 t s))
  else
    r ← the (rr_of c);
    n ← del_rrs r.1 r.2;
    let c := add_cs c (- n) in
    mret (mkCent (qname c) (cs c) 0 (Z.lor (c_flags c) DF_NEGATIVE) (neg None t s) (c_ns c) (c_soa c)).

(** ** Copies *)

Definition copy_rr (data : bytes) : Mem (option bytes) :=
  p ← malloc; mret (match p with Some _ => Some data | None => None end).
Fixpoint copy_rrs (l : list bytes) : Mem (list bytes * bool) :=
  match l with
  | [] => mret ([], true)
  | b :: l =>
      c ← copy_rr b;
      match c with
      | None => mret ([], false)
      | Some b => x ← copy_rrs l; mret (b :: x.1, x.2)
      end
  end.
Definition copy_set (s : rr_set_t) : Mem (option rr_set_t * bool) :=
  p ← malloc;
  match p with
  | None => mret (None, false)
  | Some a =>
      x ← copy_rrs (rrs s);
      mret (Some (mkSet a None (ttl s) (ts s) (flags s) x.1), x.2)
  end.
Definition copy_rrset (s : rr_set_t) : Mem (option rr_set_t) :=
  x ← copy_set s;
  match x with
  | (Some c, false) => del_rrset c;; mret None
  | (c, _) => mret c
  end.
(** the sets that could be copied, and whether all were *)
Fixpoint copy_slots (l : slots) : Mem (slots * bool) :=
  match l with
  | [] => mret ([], true)
  | None :: l => x ← copy_slots l; mret (None :: x.1, x.2)
  | Some s :: l =>
      c ← copy_set s;
      let '(c, ok) := c in
      if ok : bool then x ← copy_slots l; mret (c :: x.1, x.2)
      else mret (c :: replicate (length l) None, false)
  end.
(** the sets of an entry; [rrext] is allocated first *)
Definition copy_arrays (mu : slots) (ext : option slots) : Mem (slots * option slots * bool) :=
  p ← match ext with None => mret true | Some _ => p ← malloc; mret (not_null p) end;
  if negb p then mret (NULLS NRRMU, None, false)
  else
    x ← copy_slots mu;
    let '(mu, ok) := x in
    match ext with
    | None => mret (mu, None, ok)
    | Some ext =>
        if ok : bool then y ← copy_slots ext; mret (mu, Some y.1, y.2)
        else mret (mu, Some (NULLS NRREXT), false)
    end.
(** the address and the contents of the copy *)
Definition copy_cent (c : dns_cent_t) : Mem (option (Z * dns_cent_t)) :=
  p ← malloc;
  match p with
  | None => mret None
  | Some a =>
      namesz ← the (rhnlen (qname c));
      p ← malloc;
      match p with
      | None => mret None
      | Some _ =>
          let copy v := mkCent (ztake namesz (qname c)) (cs c) (num_rrs c) (c_flags c) v (c_ns c) (c_soa c) in
          if negative c then n ← the (neg_of c); mret (Some (a, copy (neg None n.1.2 n.2)))
          else
            r ← the (rr_of c);
            x ← copy_arrays r.1 r.2;
            let '(mu, ext, ok) := x in
            if ok : bool then mret (Some (a, copy (rr mu ext)))
            else free_cent (copy (rr mu ext));; mret None
      end
  end.

(** ** Well-formed entries *)

Definition set_size (s : rr_set_t) : Z := sizeof_rr_set_t + zsum (λ b, sizeof_rr_bucket_t + zlen b) (rrs s).
Definition slot_size (v : option rr_set_t) : Z := match v with Some s => set_size s | None => 0 end.
Definition slot_num (v : option rr_set_t) : Z := Z.b2z (not_null v).
(** all places of the record sets in one array *)
Definition all_slots (c : dns_cent_t) : slots :=
  match u c with neg _ _ _ => [] | rr mu ext => mu ++ default [] ext end.
Definition slot (c : dns_cent_t) (i : Z) : option rr_set_t := mjoin (all_slots c !! Z.to_nat i).
Definition ext_size (c : dns_cent_t) : Z :=
  match u c with rr _ (Some _) => sizeof_ptr * NRREXT | _ => 0 end.
Definition cent_size (c : dns_cent_t) : Z :=
  sizeof_dns_cent_t + zlen (qname c) + (zsum slot_size (all_slots c) + ext_size c).
Definition cent_tag (c : dns_cent_t) : Prop :=
  match u c with
  | neg _ _ _ => negative c = true
  | rr mu ext => negative c = false ∧ zlen mu = NRRMU ∧ match ext with Some e => zlen e = NRREXT | None => True end
  end.
(** [cs] is the size of the entry and [num_rrs] the number of its sets. *)
Record cent_ok (c : dns_cent_t) : Prop := {
  ok_tag : cent_tag c;
  ok_cs : cs c = cent_size c;
  ok_num : num_rrs c = zsum slot_num (all_slots c);
}.

(** What an operation leaves alone. *)
Record same_cent (c c' : dns_cent_t) : Prop := {
  same_qname : qname c' = qname c;
  same_ns : c_ns c' = c_ns c;
  same_soa : c_soa c' = c_soa c;
  same_local : has (c_flags c') DF_LOCAL = has (c_flags c) DF_LOCAL;
}.
#[export] Instance same_cent_refl : Reflexive same_cent.
Proof. done. Qed.
#[export] Instance same_cent_trans : Transitive same_cent.
Proof. intros a b c [? ? ? ?] [? ? ? ?]. split; congruence. Qed.

Lemma has_clear f b : has (clear f b) b = false.
Proof.
  unfold has, clear. apply negb_false_iff, Z.eqb_eq. apply Z.bits_inj'. intros n _.
  rewrite Z.land_spec, Z.ldiff_spec, Z.bits_0. by destruct (Z.testbit f n), (Z.testbit b n).
Qed.
Lemma has_lor f b : b ≠ 0 → has (Z.lor f b) b = true.
Proof.
  intros Hb. unfold has. apply negb_true_iff, Z.eqb_neq. rewrite Z.land_comm, Z.land_lor_distr_r, Z.land_diag.
  intros H. by apply Z.lor_eq_0_iff in H as [_ ?].
Qed.
(** Bits that are not touched. *)
Lemma has_clear_ne f b b' : Z.land b b' = 0 → has (clear f b') b = has f b.
Proof.
  intros H. unfold has, clear. f_equal. f_equal. apply Z.bits_inj'. intros n _.
  rewrite !Z.land_spec, Z.ldiff_spec. pose proof (f_equal (λ x, Z.testbit x n) H) as Hn. cbn in Hn.
  rewrite Z.land_spec, Z.bits_0 in Hn. by destruct (Z.testbit f n), (Z.testbit b n), (Z.testbit b' n).
Qed.
Lemma has_lor_ne f b b' : Z.land b b' = 0 → has (Z.lor f b') b = has f b.
Proof.
  intros H. unfold has. f_equal. f_equal. by rewrite Z.land_comm, Z.land_lor_distr_r, H, Z.lor_0_r, Z.land_comm.
Qed.

Lemma slot_ge c i : zlen (all_slots c) ≤ i → slot c i = None.
Proof. intros H. unfold slot. rewrite lookup_ge_None_2; [done|]. unfold zlen in H. lia. Qed.
Lemma slot_negative c i : cent_tag c → negative c = true → slot c i = None.
Proof. intros Ht Hn. unfold slot, all_slots. unfold cent_tag in Ht. destruct (u c); [done|]. destruct Ht. congruence. Qed.

(** What the array accesses give, in terms of [slot]. *)
Lemma lookup_mu mu ext i : zlen mu = NRRMU → 0 ≤ i < NRRMU → mu !! Z.to_nat i = Some (mjoin ((mu ++ ext) !! Z.to_nat i) : option rr_set_t).
Proof.
  unfold zlen. intros Hl Hi. destruct (lookup_lt_is_Some_2 mu (Z.to_nat i)) as [x Hx]; [lia|].
  rewrite lookup_app_l by lia. by rewrite Hx.
Qed.
Lemma lookup_ext mu ext i : zlen mu = NRRMU → zlen ext = NRREXT → NRRMU ≤ i < NRRTOT →
  ext !! Z.to_nat (i - NRRMU) = Some (mjoin ((mu ++ ext) !! Z.to_nat i) : option rr_set_t).
Proof.
  unfold zlen, NRRMU, NRRTOT, NRREXT. intros Hl He Hi. destruct (lookup_lt_is_Some_2 ext (Z.to_nat (i - 8))) as [x Hx]; [lia|].
  rewrite lookup_app_r by lia. replace (Z.to_nat i - length mu)%nat with (Z.to_nat (i - 8)) by lia. by rewrite Hx.
Qed.
Lemma testext_slot c i : cent_tag c → 0 ≤ i < NRRTOT → RRARR_INDEX_TESTEXT c i = Some (slot c i).
Proof.
  intros Ht Hi. destruct (negative c) eqn:Hn; [by unfold RRARR_INDEX_TESTEXT; rewrite Hn, slot_negative|].
  unfold RRARR_INDEX_TESTEXT, rr_of, slot, all_slots. rewrite Hn. unfold cent_tag in Ht. destruct (u c) as [|mu ext]; [congruence|].
  destruct Ht as (_ & Hmu & Hext). cbn [mbind option_bind]. zif (i <? NRRMU).
  - apply lookup_mu; [done|lia].
  - destruct ext as [ext|]; cbn [from_option id]; [apply lookup_ext; [done|done|lia]|]. rewrite app_nil_r.
    rewrite lookup_ge_None_2; [done|]. unfold zlen in Hmu. lia.
Qed.
Definition num_slots (c : dns_cent_t) : Z := zlen (all_slots c).
Lemma RRARR_LEN_slots c : cent_tag c → RRARR_LEN c = Some (num_slots c).
Proof.
  intros Ht. unfold RRARR_LEN, rr_of, num_slots, all_slots. unfold cent_tag in Ht. destruct (u c) as [|mu ext].
  - by rewrite Ht.
  - destruct Ht as (-> & Hmu & Hext). cbn. rewrite zlen_app, Hmu. destruct ext; cbn [from_option id]; [by rewrite Hext|by rewrite zlen_nil].
Qed.
Lemma num_slots_le c : cent_tag c → num_slots c ≤ NRRTOT.
Proof.
  intros Ht. unfold num_slots, all_slots, cent_tag in *. destruct (u c) as [|mu ext]; [done|].
  destruct Ht as (_ & Hmu & Hext). rewrite zlen_app, Hmu. destruct ext; cbn [from_option id]; [by rewrite Hext|done].
Qed.
Lemma index_slot c i : cent_tag c → 0 ≤ i < num_slots c → RRARR_INDEX c i = Some (slot c i).
Proof.
  intros Ht Hi. pose proof (num_slots_le c Ht). unfold RRARR_INDEX, rr_of, slot, num_slots, all_slots in *. unfold cent_tag in Ht.
  destruct (u c) as [|mu ext]; [cbn in Hi; unfold zlen in Hi; cbn in Hi; lia|]. destruct Ht as (_ & Hmu & Hext). cbn [mbind option_bind].
  zif (i <? NRRMU); [apply lookup_mu; [done|lia]|]. rewrite zlen_app, Hmu in Hi, H.
  destruct ext as [ext|]; cbn [from_option id mbind option_bind] in *; [apply lookup_ext; [done|done|lia]|]. change (zlen (@nil (option rr_set_t))) with 0 in Hi. lia.
Qed.
Lemma slot_lt c i s : slot c i = Some s → 0 ≤ i → 0 ≤ i < num_slots c.
Proof.
  intros Hs Hi. split; [done|]. destruct (Z.lt_ge_cases i (num_slots c)); [done|]. by rewrite slot_ge in Hs.
Qed.

Definition neg_lent (c : dns_cent_t) : option Z := match u c with neg l _ _ => l | rr _ _ => None end.
Lemma set_slot_ok c i v :
  cent_tag c → 0 ≤ i < num_slots c →
  ∃ c', set_slot c i v = Some c' ∧ all_slots c' = <[Z.to_nat i := v]> (all_slots c) ∧ cent_tag c' ∧ ext_size c' = ext_size c ∧
    cs c' = cs c ∧ num_rrs c' = num_rrs c ∧ c_flags c' = c_flags c ∧ same_cent c c' ∧ neg_lent c' = neg_lent c ∧
    num_slots c' = num_slots c.
Proof.
  intros Ht Hi. pose proof (num_slots_le c Ht). unfold set_slot, rr_of, num_slots, all_slots, cent_tag, ext_size, neg_lent in *.
  destruct (u c) as [|mu ext] eqn:Hu; [cbn in Hi; unfold zlen in Hi; cbn in Hi; lia|]. destruct Ht as (Hn & Hmu & Hext). cbn [mbind option_bind].
  rewrite zlen_app, Hmu in Hi. zif (i <? NRRMU).
  - replace (Z.to_nat i <? length mu)%nat with true by (symmetry; apply Nat.ltb_lt; unfold zlen in Hmu; lia).
    eexists. split; [done|]. cbn. rewrite insert_app_l by (unfold zlen in Hmu; lia). split; [done|].
    split; [split; [done|]; split; [|done]; unfold zlen in *; by rewrite length_insert|].
    do 6 (split; [done|]). by unfold zlen; rewrite !length_app, length_insert.
  - destruct ext as [ext|]; cbn [from_option id mbind option_bind] in *; [|change (zlen (@nil (option rr_set_t))) with 0 in Hi; lia].
    replace (Z.to_nat (i - NRRMU) <? length ext)%nat with true by (symmetry; apply Nat.ltb_lt; unfold zlen in *; lia).
    eexists. split; [done|]. cbn. rewrite insert_app_r_alt by (unfold zlen in Hmu; lia).
    replace (Z.to_nat i - length mu)%nat with (Z.to_nat (i - NRRMU)) by (unfold zlen in Hmu; lia). split; [done|].
    split; [split; [done|]; split; [done|]; unfold zlen in *; by rewrite length_insert|].
    do 6 (split; [done|]). by unfold zlen; rewrite !length_app, length_insert.
Qed.
Lemma slot_insert c c' i v j :
  all_slots c' = <[Z.to_nat i := v]> (all_slots c) → 0 ≤ i < num_slots c → 0 ≤ j →
  slot c' j = if j =? i then v else slot c j.
Proof.
  unfold slot, num_slots, zlen. intros -> Hi Hj. zif (j =? i).
  - subst j. rewrite list_lookup_insert_eq by lia. done.
  - rewrite list_lookup_insert_ne by lia. done.
Qed.
Lemma all_slots_lookup c i : 0 ≤ i < num_slots c → all_slots c !! Z.to_nat i = Some (slot c i).
Proof.
  unfold slot, num_slots, zlen. intros Hi. destruct (lookup_lt_is_Some_2 (all_slots c) (Z.to_nat i)) as [x ->]; [lia|]. done.
Qed.

(** ** Memory and the list *)

Definition mem_ok (m : memory) : Prop := Forall (λ b, b = true) (mallocs m).
(** The nodes [D] were taken out of the list; enough memory stays enough. *)
Record dropped (m m' : memory) (D : gset Z) : Prop := {
  drop_brk : brk m ≤ brk m';
  drop_dll L : dll (rl m) L → dll (rl m') (filter (λ p, p ∉ D) L);
  drop_targets p : targets (lents (rl m')) !! p = if decide (p ∈ D) then None else targets (lents (rl m)) !! p;
  drop_ok : mem_ok m → mem_ok m';
}.
Lemma filter_all (D : gset Z) (L : list Z) : (∀ p, p ∈ L → p ∉ D) → filter (λ p, p ∉ D) L = L.
Proof.
  induction L as [|p L IH]; intros H; [done|]. rewrite filter_cons_True by (apply H; by left). f_equal.
  apply IH. intros q Hq. apply H. by right.
Qed.
Lemma dropped_trans m m1 m2 D D' : dropped m m1 D → dropped m1 m2 D' → dropped m m2 (D ∪ D').
Proof.
  intros [H1 H2 H3 H4] [G1 G2 G3 G4]. split; [lia| | |auto].
  - intros L HL. apply H2, G2 in HL. rewrite list_filter_filter in HL.
    erewrite (list_filter_iff (λ p, p ∉ D ∪ D')); [exact HL|]. intros p. set_solver.
  - intros p. rewrite G3, H3. repeat case_decide; set_solver.
Qed.
Lemma dropped_empty m m1 m2 D : dropped m m1 ∅ → dropped m1 m2 D → dropped m m2 D.
Proof. intros H1 H2. rewrite <-(left_id_L ∅ (∪) D). by eapply dropped_trans. Qed.
Lemma dropped_same m m' : rl m' = rl m → brk m ≤ brk m' → (mem_ok m → mem_ok m') → dropped m m' ∅.
Proof.
  intros Hr Hb Hok. split; [done| | |done]; rewrite Hr.
  - intros L. by rewrite filter_all by set_solver.
  - intros p. by rewrite decide_False by set_solver.
Qed.
Lemma dropped_refl m : dropped m m ∅.
Proof. by apply dropped_same. Qed.

(** An allocation fails only when memory is short. *)
Lemma malloc_spec m :
  ∃ p m', malloc m = Some (p, m', []) ∧ rl m' = rl m ∧ dropped m m' ∅ ∧ (mem_ok m → not_null p = true) ∧
    match p with Some a => a = brk m ∧ brk m' = brk m + 1 | None => True end.
Proof.
  unfold malloc. destruct (mallocs m) as [|[] l] eqn:E; eexists _, _; (split; [reflexivity|]); cbn; (split; [done|]);
    (split; [apply dropped_same; cbn; [done|lia|unfold mem_ok; rewrite E; cbn]|]); try done.
  - by intros [_ H]%list.Forall_cons.
  - by intros [_ H]%list.Forall_cons.
  - split; [|done]. unfold mem_ok. rewrite E. by intros [? _]%list.Forall_cons.
Qed.
Ltac m_malloc p m' Hrl Hdrop Hok Hp :=
  match goal with |- context [mbind _ malloc ?m] =>
    let H := fresh in destruct (malloc_spec m) as (p & m' & H & Hrl & Hdrop & Hok & Hp); m_run H; clear H end.

Definition node_set (le : option Z) : gset Z := match le with Some p => {[p]} | None => ∅ end.
Lemma mem_remove_spec m le L :
  dll (rl m) L → (∀ p, le = Some p → p ∈ L) →
  ∃ m', mem_remove_rrl le m = Some (tt, m', []) ∧ mallocs m' = mallocs m ∧ dropped m m' (node_set le).
Proof.
  intros HL Hle. destruct le as [p|]; cbn; [|exists m; split; [done|]; split; [done|apply dropped_refl]].
  assert (Hsp : ∀ L', dll (rl m) L' → p ∈ L' → ∃ r', remove_rrl p (rl m) = Some r' ∧ dll r' (filter (λ q, q ∉ ({[p]} : gset Z)) L') ∧
    targets (lents r') = delete p (targets (lents (rl m)))).
  { intros L' HL' Hp. apply list_elem_of_split in Hp as (l1 & l2 & ->).
    destruct (remove_rrl_spec _ _ _ _ HL') as (r' & Hr & Hd & Ht). exists r'. split; [done|]. split; [|done].
    destruct HL' as [Hnd _ _ _ _]. apply list.NoDup_app in Hnd as (_ & H1 & [H2 _]%list.NoDup_cons).
    rewrite list.filter_app, filter_cons_False by set_solver. rewrite !filter_all; [done| |]; set_solver. }
  destruct (Hsp L HL (Hle p eq_refl)) as (r' & Hr & _ & Ht). rewrite Hr. cbn [mbind option_bind]. eexists. split; [done|]. split; [done|].
  split; cbn [rl brk]; [lia| | |done].
  - intros L' HL'. destruct (Hsp L' HL') as (r2 & Hr2 & Hd & _); [|].
    { apply (dll_dom _ _ HL'), (dll_dom _ _ HL). by apply Hle. }
    by assert (r2 = r') as -> by congruence.
  - intros q. rewrite Ht. case_decide as Hq.
    + apply elem_of_singleton in Hq as ->. apply lookup_delete_eq.
    + rewrite lookup_delete_ne by set_solver. done.
Qed.

(** ** The operations on an entry *)

Lemma the_Some {A} (o : option A) a m : o = Some a → the o m = Some (a, m, []).
Proof. by intros ->. Qed.
(** Continue with the value of an access that succeeds. *)
Ltac m_the H := rewrite (M_bind_run0 _ _ _ _ _ (the_Some _ _ _ H)); cbn beta iota.
Ltac m_drop m1 m2 := apply (dropped_empty m1 m2).

Definition set_nodes (s : rr_set_t) : gset Z := node_set (lent s).
Definition slot_nodes (v : option rr_set_t) : gset Z := match v with Some s => set_nodes s | None => ∅ end.

Lemma set_slot_size c c' i v :
  all_slots c' = <[Z.to_nat i := v]> (all_slots c) → ext_size c' = ext_size c → qname c' = qname c → 0 ≤ i < num_slots c →
  cent_size c' = cent_size c - slot_size (slot c i) + slot_size v ∧
  zsum slot_num (all_slots c') = zsum slot_num (all_slots c) - slot_num (slot c i) + slot_num v.
Proof.
  intros Ha He Hq Hi. unfold cent_size. rewrite Ha, He, Hq. rewrite !(zsum_insert _ _ _ _ _ (all_slots_lookup c i Hi)). lia.
Qed.
Lemma num_range c : cent_tag c → 0 ≤ zsum slot_num (all_slots c) ≤ num_slots c.
Proof.
  intros _. unfold num_slots. induction (all_slots c) as [|v l IH]; [done|]. rewrite zsum_cons, zlen_cons.
  unfold slot_num at 1 3. destruct v; cbn; lia.
Qed.
(** Another set at a place that holds [old]. *)
Lemma cent_ok_set c c' i v dcs dnum :
  cent_ok c → all_slots c' = <[Z.to_nat i := v]> (all_slots c) → cent_tag c' → ext_size c' = ext_size c → same_cent c c' →
  0 ≤ i < num_slots c → cs c' = cs c + dcs → num_rrs c' = u16 (num_rrs c + dnum) →
  dcs = slot_size v - slot_size (slot c i) → dnum = slot_num v - slot_num (slot c i) → cent_ok c'.
Proof.
  intros [Ht Hc Hn] Ha Ht' He [Hq _ _ _] Hi Hc' Hn' -> ->.
  destruct (set_slot_size c c' i v Ha He Hq Hi) as [Hs1 Hs2].
  pose proof (num_range c' Ht'). pose proof (num_slots_le c' Ht'). unfold NRRTOT in *.
  split; [done|lia|]. rewrite Hn', Hn. unfold u16. rewrite Z.mod_small; lia.
Qed.

Lemma del_rrset_spec m s L :
  dll (rl m) L → (∀ p, lent s = Some p → p ∈ L) →
  ∃ m', del_rrset s m = Some (set_size s, m', []) ∧ mallocs m' = mallocs m ∧ dropped m m' (set_nodes s).
Proof.
  intros HL Hs. unfold del_rrset. destruct (mem_remove_spec m (lent s) L HL Hs) as (m' & Hm & Hma & Hd). m_run Hm.
  exists m'. split; [|done]. unfold set_size. by rewrite foldl_add.
Qed.

Lemma del_cent_rrset_spec m c i L :
  cent_ok c → 0 ≤ i < NRRTOT → dll (rl m) L → (∀ s p, slot c i = Some s → lent s = Some p → p ∈ L) →
  ∃ c' m', del_cent_rrset_by_index c i m = Some ((slot_size (slot c i), c'), m', []) ∧ mallocs m' = mallocs m ∧
    dropped m m' (slot_nodes (slot c i)) ∧ cent_ok c' ∧ same_cent c c' ∧ cs c' = cs c - slot_size (slot c i) ∧
    (∀ j, 0 ≤ j → slot c' j = if j =? i then None else slot c j) ∧ negative c' = negative c ∧
    c_flags c' = (if slot c i then clear (c_flags c) DF_AUTH else c_flags c) ∧ neg_lent c' = neg_lent c ∧
    num_slots c' = num_slots c.
Proof.
  intros Hok Hi HL Hin. pose proof (ok_tag _ Hok) as Ht. unfold del_cent_rrset_by_index. m_the (testext_slot c i Ht Hi).
  destruct (slot c i) as [s|] eqn:Hs.
  2:{ exists c, m. split; [done|]. split; [done|]. split; [apply dropped_refl|]. split; [done|]. split; [done|]. cbn. split; [lia|].
      split; [|done]. intros j _. zif (j =? i); congruence. }
  destruct (del_rrset_spec m s L HL (λ p, Hin s p eq_refl)) as (m' & Hm & Hma & Hd). m_run Hm.
  destruct (slot_lt c i s Hs) as [_ Hlt]; [lia|].
  destruct (set_slot_ok c i None Ht) as (c1 & Hc1 & Ha & Ht1 & He & Hcs & Hnum & Hfl & Hsame & Hnl & Hns); [lia|]. m_the Hc1.
  set (c' := with_flags (add_cs (add_num c1 (-1)) (- set_size s)) (clear (c_flags (add_cs (add_num c1 (-1)) (- set_size s))) DF_AUTH)).
  assert (Hneg : negative c' = negative c1).
  { unfold negative, c'. cbn. by rewrite has_clear_ne. }
  assert (Ht' : cent_tag c').
  { unfold cent_tag in *. rewrite Hneg. exact Ht1. }
  exists c', m'. split; [done|]. split; [done|]. split; [done|].
  assert (Hsame' : same_cent c c').
  { destruct Hsame as [? ? ? Hl]. split; [done|done|done|]. rewrite <-Hl. unfold c'. cbn. by rewrite has_clear_ne. }
  split.
  { apply (cent_ok_set c c' i None (- set_size s) (-1)); try done; [lia| | | |].
    - cbn. lia.
    - cbn. by rewrite Hnum.
    - rewrite Hs. cbn. lia.
    - rewrite Hs. done. }
  split; [done|]. split; [cbn; lia|]. split; [|split].
  - intros j Hj. apply (slot_insert c c'); [done|lia|done].
  - rewrite Hneg. unfold negative. by rewrite Hfl.
  - split; [cbn; by rewrite Hfl|]. split; [exact Hnl|exact Hns].
Qed.

Lemma lookup_nulls n k : mjoin (NULLS n !! k) = None.
Proof. destruct (NULLS n !! k) eqn:E; [|done]. by apply lookup_replicate in E as [-> _]. Qed.
Lemma positive_spec m c L :
  cent_ok c → dll (rl m) L → (∀ p, neg_lent c = Some p → p ∈ L) →
  ∃ c' m', positive c m = Some (c', m', []) ∧ mallocs m' = mallocs m ∧ dropped m m' (node_set (neg_lent c)) ∧
    cent_ok c' ∧ same_cent c c' ∧ cs c' = cs c ∧ negative c' = false ∧ neg_lent c' = None ∧
    (∀ j, 0 ≤ j → slot c' j = slot c j).
Proof.
  intros [Ht Hcs Hnum] HL Hin. unfold positive. destruct (negative c) eqn:Hn.
  - unfold neg_of. unfold cent_tag in Ht. destruct (u c) as [l t s|mu ext] eqn:Hu; [|destruct Ht; congruence].
    m_step. cbn [fst]. assert (Hl : neg_lent c = l) by (unfold neg_lent; by rewrite Hu). rewrite Hl in *.
    destruct (mem_remove_spec m l L HL Hin) as (m' & Hm & Hma & Hd). m_run Hm.
    assert (Hneg : negative (with_u (with_flags c (clear (c_flags c) DF_NEGATIVE)) (rr (NULLS NRRMU) None)) = false)
      by apply has_clear.
    eexists _, m'. split; [done|]. split; [done|]. split; [done|]. split; [split|].
    + split; [exact Hneg|done].
    + cbn. rewrite Hcs. unfold cent_size, all_slots, ext_size. rewrite Hu. done.
    + cbn. rewrite Hnum. unfold all_slots. rewrite Hu. done.
    + split; [split; [done|done|done|]; cbn; by rewrite has_clear_ne|]. do 3 (split; [done|]).
      intros j Hj. unfold slot, all_slots. rewrite Hu. cbn [u with_u from_option id]. by rewrite app_nil_r, lookup_nulls.
  - exists c, m. unfold cent_tag in Ht. destruct (u c) as [l t s|mu ext] eqn:Hu; [congruence|].
    assert (Hl : neg_lent c = None) by (unfold neg_lent; by rewrite Hu). rewrite Hl.
    split; [done|]. split; [done|]. split; [apply dropped_refl|]. split; [|done]. split; [|done|done].
    unfold cent_tag. by rewrite Hu.
Qed.
Lemma need_slot_spec m c i :
  cent_ok c → negative c = false → 0 ≤ i < NRRTOT →
  ∃ ok c' m', need_slot c i m = Some ((ok, c'), m', []) ∧ dropped m m' ∅ ∧ (mem_ok m → ok = true) ∧
    cent_ok c' ∧ same_cent c c' ∧ negative c' = false ∧ neg_lent c' = None ∧
    (∀ j, 0 ≤ j → slot c' j = slot c j) ∧ (ok = true → i < num_slots c').
Proof.
  intros Hok Hn Hi. pose proof Hok as [Ht Hcs Hnum]. unfold need_slot, rr_of, cent_tag in *.
  destruct (u c) as [|mu ext] eqn:Hu; [congruence|]. destruct Ht as (_ & Hmu & Hext). m_step.
  assert (Hnl : neg_lent c = None) by (unfold neg_lent; by rewrite Hu).
  assert (Hns : num_slots c = NRRMU + zlen (default [] ext)).
  { unfold num_slots, all_slots. by rewrite Hu, zlen_app, Hmu. }
  assert (Hsame : ∀ ok : bool, (ok = true → i < num_slots c) → (mem_ok m → ok = true) →
    ∃ ok' c' m', @mret Mem _ _ (ok, c) m = Some ((ok', c'), m', []) ∧ dropped m m' ∅ ∧ (mem_ok m → ok' = true) ∧
    cent_ok c' ∧ same_cent c c' ∧ negative c' = false ∧ neg_lent c' = None ∧
    (∀ j, 0 ≤ j → slot c' j = slot c j) ∧ (ok' = true → i < num_slots c')).
  { intros ok Ho Hm. exists ok, c, m. split; [done|]. split; [apply dropped_refl|]. done. }
  zif (i <? NRRMU); [apply Hsame; [|done]; intros _; rewrite Hns; pose proof (zlen_nonneg (default [] ext)); lia|].
  rewrite ASSERT_true by (unfold NRRTOT, NRRMU, NRREXT in *; lia).
  destruct ext as [ext|]; [apply Hsame; [|done]; intros _; rewrite Hns; cbn [from_option id]; rewrite Hext; unfold NRRTOT, NRRMU, NRREXT in *; lia|].
  m_malloc p m' Hrl Hdrop Hmok Hp. destruct p as [a|].
  - eexists true, _, m'. split; [done|]. split; [done|]. split; [done|]. split; [split|].
    + split; [exact Hn|]. done.
    + cbn. rewrite Hcs. unfold cent_size, all_slots, ext_size. rewrite Hu. cbn [u with_u add_cs qname from_option id].
      rewrite app_nil_r, zsum_app. unfold NULLS at 1. rewrite zsum_replicate by done. lia.
    + cbn. rewrite Hnum. unfold all_slots. rewrite Hu. cbn [u with_u add_cs from_option id].
      rewrite app_nil_r, zsum_app. unfold NULLS at 1. rewrite zsum_replicate by done. lia.
    + split; [done|]. split; [exact Hn|]. split; [done|]. split.
      * intros j Hj. unfold slot, all_slots. rewrite Hu. cbn [u with_u add_cs from_option id]. rewrite app_nil_r.
        destruct (decide (Z.to_nat j < length mu)%nat); [by rewrite lookup_app_l|].
        rewrite lookup_app_r by lia. rewrite (lookup_ge_None_2 mu) by lia. apply lookup_nulls.
      * intros _. unfold num_slots, all_slots. cbn [u with_u add_cs from_option id]. rewrite zlen_app, Hmu. exact (proj2 Hi).
  - exists false, c, m'. split; [done|]. split; [done|]. split; [done|]. done.
Qed.
Lemma add_cent_rrset_spec m c i t s f L :
  cent_ok c → 0 ≤ i < NRRTOT → slot c i = None → dll (rl m) L → (∀ p, neg_lent c = Some p → p ∈ L) →
  ∃ ok c' m', add_cent_rrset_by_index c i t s f m = Some ((ok, c'), m', []) ∧ dropped m m' (node_set (neg_lent c)) ∧
    (mem_ok m → ok = true) ∧ cent_ok c' ∧ same_cent c c' ∧ negative c' = false ∧ neg_lent c' = None ∧
    (ok = true → i < num_slots c') ∧
    (∀ j, 0 ≤ j → j ≠ i → slot c' j = slot c j) ∧
    match slot c' i with Some rs => ok = true ∧ ∃ a, rs = mkSet a None t s f [] | None => ok = false end.
Proof.
  intros Hok Hi Hs HL Hin. unfold add_cent_rrset_by_index.
  destruct (positive_spec m c L Hok HL Hin) as (c1 & m1 & H1 & Hma & Hd1 & Hok1 & Hsame1 & _ & Hn1 & Hl1 & Hsl1). m_run H1.
  destruct (need_slot_spec m1 c1 i Hok1 Hn1 Hi) as (ok & c2 & m2 & H2 & Hd2 & Hmo2 & Hok2 & Hsame2 & Hn2 & Hl2 & Hsl2 & Hns). m_run H2.
  assert (Hslot : ∀ j, 0 ≤ j → slot c2 j = slot c j) by (intros; by rewrite Hsl2, Hsl1).
  assert (Hsame : same_cent c c2) by (by transitivity c1).
  assert (Hd12 : dropped m m2 (node_set (neg_lent c))).
  { rewrite <-(right_id_L ∅ (∪) (node_set _)). by eapply dropped_trans. }
  assert (Hmok1 : mem_ok m → mem_ok m1) by apply Hd1.
  destruct ok; cbn beta iota.
  2:{ exists false, c2, m2. split; [done|]. split; [done|]. split; [auto|]. do 4 (split; [done|]). split; [done|].
      split; [auto|]. by rewrite Hslot, Hs by lia. }
  specialize (Hns eq_refl). m_malloc p m3 Hrl Hd3 Hmo3 Hp.
  assert (Hd13 : dropped m m3 (node_set (neg_lent c))).
  { rewrite <-(right_id_L ∅ (∪) (node_set _)). by eapply dropped_trans. }
  assert (Hmo : mem_ok m → not_null p = true) by (intros; apply Hmo3; by apply Hd12).
  destruct p as [a|].
  - destruct (set_slot_ok c2 i (Some (mkSet a None t s f [])) (ok_tag _ Hok2)) as (c3 & Hc3 & Ha & Ht3 & He & Hcs & Hnum & Hfl & Hsame3 & Hnl & Hnn); [lia|].
    m_the Hc3. exists true, (add_num (add_cs c3 sizeof_rr_set_t) 1), m3. split; [done|]. split; [done|]. split; [done|].
    assert (Hsl3 : ∀ j, 0 ≤ j → slot (add_num (add_cs c3 sizeof_rr_set_t) 1) j = if j =? i then Some (mkSet a None t s f []) else slot c2 j).
    { intros j Hj. apply slot_insert; [done|lia|done]. }
    split; [|split; [|split; [|split; [|split; [|split]]]]].
    + apply (cent_ok_set c2 _ i (Some (mkSet a None t s f [])) sizeof_rr_set_t 1);
        [done|done|exact Ht3|exact He|split; apply Hsame3|lia|cbn; lia|cbn; by rewrite Hnum| |];
        rewrite Hslot, Hs by lia; done.
    + transitivity c2; [done|]. split; apply Hsame3.
    + unfold negative in *. cbn. by rewrite Hfl.
    + change (neg_lent c3 = None). by rewrite Hnl.
    + intros _. change (i < num_slots c3). lia.
    + intros j Hj Hji. rewrite Hsl3 by done. zif (j =? i); [done|]. by apply Hslot.
    + rewrite Hsl3 by lia. rewrite Z.eqb_refl. split; [done|]. by exists a.
  - destruct (set_slot_ok c2 i None (ok_tag _ Hok2)) as (c3 & Hc3 & Ha & Ht3 & He & Hcs & Hnum & Hfl & Hsame3 & Hnl & Hnn); [lia|].
    m_the Hc3. exists false, c3, m3. split; [done|]. split; [done|]. split; [done|].
    assert (Hsl3 : ∀ j, 0 ≤ j → slot c3 j = if j =? i then None else slot c2 j).
    { intros j Hj. apply slot_insert; [done|lia|done]. }
    split; [|split; [|split; [|split; [|split; [|split]]]]].
    + apply (cent_ok_set c2 _ i None 0 0); [done|done|done|done|done|lia|lia| | |]; try by (rewrite Hslot, Hs by lia).
      rewrite Hnum. unfold u16. rewrite Z.mod_small; [lia|]. destruct Hok2 as [Ht2 _ ->].
      pose proof (num_range c2 Ht2). pose proof (num_slots_le c2 Ht2). unfold NRRTOT in *. lia.
    + by transitivity c2.
    + unfold negative in *. by rewrite Hfl.
    + by rewrite Hnl.
    + done.
    + intros j Hj Hji. rewrite Hsl3 by done. zif (j =? i); [done|]. by apply Hslot.
    + rewrite Hsl3 by lia. by rewrite Z.eqb_refl.
Qed.

(** where [add_cent_rr_int] puts the record *)
Definition put_rr (rtail : option nat) (data : bytes) (l : list bytes) : list bytes :=
  match rtail with None => data :: l | Some k => take (S k) l ++ data :: drop (S k) l end.
Lemma rrs_size_put rtail data l :
  zsum (λ b, sizeof_rr_bucket_t + zlen b) (put_rr rtail data l) =
  zsum (λ b, sizeof_rr_bucket_t + zlen b) l + (sizeof_rr_bucket_t + zlen data).
Proof.
  destruct rtail as [k|]; cbn [put_rr]; [|rewrite zsum_cons; lia].
  rewrite zsum_app, zsum_cons. rewrite <-(take_drop (S k) l) at 3. rewrite zsum_app. lia.
Qed.
Lemma link_rr_spec m c i data rtail s :
  cent_ok c → 0 ≤ i → slot c i = Some s → match rtail with Some k => (k < length (rrs s))%nat | None => True end →
  ∃ k c', link_rr c i data rtail m = Some ((Some k, c'), m, []) ∧
    k = match rtail with Some k => S k | None => O end ∧
    let c'' := add_cs c' (sizeof_rr_bucket_t + zlen data) in
    cent_ok c'' ∧ same_cent c c'' ∧ negative c'' = negative c ∧ neg_lent c'' = neg_lent c ∧ num_slots c'' = num_slots c ∧
    (∀ j, 0 ≤ j → slot c'' j = if j =? i then Some (with_rrs s (put_rr rtail data (rrs s))) else slot c j).
Proof.
  intros Hok Hi Hs Hk. pose proof (slot_lt c i s Hs Hi) as Hlt. unfold link_rr.
  assert (Hidx : RRARR_INDEX c i = Some (Some s)) by (rewrite index_slot by (apply Hok || done); by rewrite Hs).
  m_the Hidx. m_step.
  destruct (set_slot_ok c i (Some (with_rrs s (put_rr rtail data (rrs s)))) (ok_tag _ Hok) Hlt)
    as (c' & Hc' & Ha & Ht & He & Hcs & Hnum & Hfl & Hsame & Hnl & Hnn).
  exists (match rtail with Some k => S k | None => O end), c'.
  split.
  { destruct rtail as [k|]; cbn [put_rr] in Hc'.
    - rewrite ASSERT_true by (by apply Nat.ltb_lt). by m_the Hc'.
    - by m_the Hc'. }
  split; [done|]. set (c'' := add_cs c' (sizeof_rr_bucket_t + zlen data)). split; [|split; [|split; [|split; [|split]]]].
  - apply (cent_ok_set c _ i (Some (with_rrs s (put_rr rtail data (rrs s)))) (sizeof_rr_bucket_t + zlen data) 0);
      [done|done|exact Ht|exact He|split; apply Hsame|lia|cbn; lia| | |]; rewrite ?Hs; try done.
    + cbn. rewrite Hnum. unfold u16. rewrite Z.mod_small; [lia|]. destruct Hok as [Ht2 _ ->].
      pose proof (num_range c Ht2). pose proof (num_slots_le c Ht2). unfold NRRTOT in *. lia.
    + cbn. unfold set_size. cbn. rewrite rrs_size_put. lia.
  - split; apply Hsame.
  - unfold negative. cbn. by rewrite Hfl.
  - exact Hnl.
  - exact Hnn.
  - intros j Hj. by apply (slot_insert c c'').
Qed.
Lemma add_cent_rr_int_spec m c i t s f data rtail L :
  cent_ok c → 0 ≤ i < NRRTOT → dll (rl m) L → neg_lent c = None →
  match rtail with Some k => ∃ rs, slot c i = Some rs ∧ (k < length (rrs rs))%nat | None => True end →
  ∃ ok rtail' c' m', add_cent_rr_int c i t s f data rtail m = Some ((ok, rtail', c'), m', []) ∧ dropped m m' ∅ ∧
    (mem_ok m → ok = true) ∧ cent_ok c' ∧ same_cent c c' ∧ neg_lent c' = None ∧ (negative c = false → negative c' = false) ∧
    (∀ j, 0 ≤ j → j ≠ i → slot c' j = slot c j) ∧
    if ok : bool then
      negative c' = false ∧ rtail' = Some (match rtail with Some k => S k | None => O end) ∧
      ∃ rs, slot c' i = Some (with_rrs rs (put_rr rtail data (rrs rs))) ∧
        match slot c i with Some rs' => rs = rs' | None => ∃ a, rs = mkSet a None t s f [] end
    else slot c' i = slot c i.
Proof.
  intros Hok Hi HL Hnl Hrt. unfold add_cent_rr_int, create_rr. rewrite M_bind_assoc. m_malloc p m1 Hrl1 Hd1 Hmo1 Hp.
  destruct p as [a|]; m_step.
  2:{ exists false, rtail, c, m1. split; [done|]. split; [done|]. split; [done|]. done. }
  assert (HL1 : dll (rl m1) L) by (by rewrite Hrl1).
  assert (Hx : ∃ ok c1 m2, (match rtail with
      | Some _ => mret (true, c)
      | None => v ← the (RRARR_INDEX_TESTEXT c i);
          match v with Some _ => mret (true, c) | None => add_cent_rrset_by_index c i t s f end
      end) m1 = Some ((ok, c1), m2, []) ∧ dropped m1 m2 ∅ ∧ (mem_ok m1 → ok = true) ∧ cent_ok c1 ∧ same_cent c c1 ∧
      neg_lent c1 = None ∧ (negative c = false → negative c1 = false) ∧ (∀ j, 0 ≤ j → j ≠ i → slot c1 j = slot c j) ∧
      if ok : bool then ∃ rs, slot c1 i = Some rs ∧ match slot c i with Some rs' => rs = rs' | None => ∃ a, rs = mkSet a None t s f [] end
      else slot c1 i = slot c i).
  { assert (Hthere : ∀ rs, slot c i = Some rs → ∃ ok c1 m2, @mret Mem _ _ (true, c) m1 = Some ((ok, c1), m2, []) ∧ dropped m1 m2 ∅ ∧ (mem_ok m1 → ok = true) ∧ cent_ok c1 ∧ same_cent c c1 ∧
      neg_lent c1 = None ∧ (negative c = false → negative c1 = false) ∧ (∀ j, 0 ≤ j → j ≠ i → slot c1 j = slot c j) ∧
      if ok : bool then ∃ rs, slot c1 i = Some rs ∧ match slot c i with Some rs' => rs = rs' | None => ∃ a, rs = mkSet a None t s f [] end
      else slot c1 i = slot c i).
    { intros rs Hrs. exists true, c, m1. split; [done|]. split; [apply dropped_refl|]. do 6 (split; [done|]).
      exists rs. by rewrite Hrs. }
    destruct rtail as [k|]; [destruct Hrt as (rs & Hrs & _); by apply (Hthere rs)|].
    m_the (testext_slot c i (ok_tag _ Hok) Hi). destruct (slot c i) as [rs|] eqn:Hrs; [by apply (Hthere rs)|].
    destruct (add_cent_rrset_spec m1 c i t s f L Hok Hi Hrs HL1) as (ok & c1 & m2 & H1 & Hd & Hmo & Hok1 & Hsame1 & Hn1 & Hl1 & Hns & Hsl & Hsi).
    { by rewrite Hnl. }
    rewrite Hnl in Hd. exists ok, c1, m2. split; [done|]. do 6 (split; [done|]). split; [done|].
    destruct (slot c1 i) as [rs|]; [|by rewrite Hsi]. destruct Hsi as [-> ?]. by exists rs. }
  destruct Hx as (ok & c1 & m2 & H1 & Hd2 & Hmo2 & Hok1 & Hsame1 & Hl1 & Hn1 & Hsl1 & Hsi). m_run H1.
  assert (Hd12 : dropped m m2 ∅) by (by eapply dropped_empty).
  assert (Hmo : mem_ok m → ok = true) by (intros; by apply Hmo2, Hd1).
  destruct ok; [|by exists false, rtail, c1, m2]. destruct Hsi as (rs & Hrs & Hold).
  destruct (link_rr_spec m2 c1 i data rtail rs Hok1 ltac:(lia) Hrs) as (k & c2 & H2 & -> & Hok2 & Hsame2 & Hneg2 & Hnl2 & _ & Hsl2).
  { destruct rtail as [k|]; [|done]. destruct Hrt as (rs' & Hrs' & Hk). rewrite Hrs' in Hold. by subst. }
  m_run H2. eexists true, _, _, m2. split; [done|]. split; [done|]. split; [done|]. split; [done|].
  split; [by transitivity c1|]. split; [by rewrite Hnl2|]. split; [rewrite Hneg2; auto|]. split.
  - intros j Hj Hji. rewrite Hsl2 by done. zif (j =? i); [done|]. by apply Hsl1.
  - split; [|split; [done|exists rs; split; [by rewrite Hsl2, Z.eqb_refl by lia|done]]].
    rewrite Hneg2. pose proof (ok_tag _ Hok1) as Ht. destruct (negative c1) eqn:E; [|done].
    by rewrite (slot_negative c1 i Ht E) in Hrs.
Qed.

(** The nodes of the list that point to sets of an array. *)
Definition nodes_of (l : slots) : list Z := omap (λ v, v ≫= lent) l.
Lemma nodes_cons s l : nodes_of (Some s :: l) = match lent s with Some p => p :: nodes_of l | None => nodes_of l end.
Proof. done. Qed.
Lemma del_slots_spec m l L :
  dll (rl m) L → NoDup (nodes_of l) → (∀ p, p ∈ nodes_of l → p ∈ L) →
  ∃ m', del_slots l m = Some (zsum slot_size l, m', []) ∧ mallocs m' = mallocs m ∧ dropped m m' (list_to_set (nodes_of l)).
Proof.
  revert m L. induction l as [|[s|] l IH]; intros m L HL Hnd Hin.
  - exists m. split; [done|]. split; [done|]. apply dropped_refl.
  - cbn [del_slots]. destruct (del_rrset_spec m s L HL) as (m1 & H1 & Hma1 & Hd1).
    { intros p Hp. apply Hin. rewrite nodes_cons, Hp. by left. }
    m_run H1. rewrite nodes_cons in Hnd, Hin.
    assert (Hnd' : NoDup (nodes_of l) ∧ (∀ p, p ∈ nodes_of l → p ∉ set_nodes s ∧ p ∈ L)).
    { unfold set_nodes. destruct (lent s) as [q|]; cbn [node_set].
      - apply list.NoDup_cons in Hnd as [Hq Hnd]. split; [done|]. intros p Hp. split; [|apply Hin; by right].
        intros ->%elem_of_singleton. done.
      - split; [done|]. set_solver. }
    destruct Hnd' as [Hnd' Hin'].
    destruct (IH m1 (filter (λ p, p ∉ set_nodes s) L)) as (m2 & H2 & Hma2 & Hd2).
    { by apply Hd1. } { done. } { intros p Hp. apply list_elem_of_filter. by apply Hin'. }
    m_run H2. exists m2. split; [done|]. split; [congruence|].
    assert (list_to_set (nodes_of (Some s :: l)) = set_nodes s ∪ list_to_set (nodes_of l)) as ->.
    { rewrite nodes_cons. unfold set_nodes. destruct (lent s); cbn [node_set]; [done|]. set_solver. }
    by eapply dropped_trans.
  - cbn [del_slots]. destruct (IH m L HL) as (m1 & H1 & Hma1 & Hd1); [done|done|]. exists m1. done.
Qed.
(** Everything in the list that points to the entry. *)
Definition cent_nodes (c : dns_cent_t) : list Z :=
  match u c with neg (Some p) _ _ => [p] | neg None _ _ => [] | rr _ _ => nodes_of (all_slots c) end.
Lemma nodes_of_app l l' : nodes_of (l ++ l') = nodes_of l ++ nodes_of l'.
Proof. unfold nodes_of. by rewrite omap_app. Qed.
Lemma del_rrs_spec m c mu ext L :
  u c = rr mu ext → dll (rl m) L → NoDup (cent_nodes c) → (∀ p, p ∈ cent_nodes c → p ∈ L) →
  ∃ m', del_rrs mu ext m = Some (zsum slot_size (all_slots c) + ext_size c, m', []) ∧ mallocs m' = mallocs m ∧
    dropped m m' (list_to_set (cent_nodes c)).
Proof.
  intros Hu HL Hnd Hin. unfold cent_nodes, all_slots, ext_size in *. rewrite Hu in *. rewrite nodes_of_app in *.
  apply list.NoDup_app in Hnd as (Hn1 & Hdis & Hn2). unfold del_rrs.
  destruct (del_slots_spec m mu L HL Hn1) as (m1 & H1 & Hma1 & Hd1); [set_solver|]. m_run H1.
  destruct ext as [ext|]; cbn [from_option id] in *.
  - destruct (del_slots_spec m1 ext (filter (λ p, p ∉ (list_to_set (nodes_of mu) : gset Z)) L)) as (m2 & H2 & Hma2 & Hd2).
    { by apply Hd1. } { done. } { intros p Hp. apply list_elem_of_filter. split; [|set_solver]. set_solver. }
    m_run H2. exists m2. split; [|split; [congruence|]].
    + unfold mret, M_ret. do 3 f_equal. rewrite zsum_app. lia.
    + rewrite list_to_set_app_L. by eapply dropped_trans.
  - exists m1. split; [|split; [done|]].
    + unfold mret, M_ret. do 3 f_equal. rewrite app_nil_r. lia.
    + by rewrite app_nil_r.
Qed.
Lemma free_cent_spec m c L :
  cent_tag c → dll (rl m) L → NoDup (cent_nodes c) → (∀ p, p ∈ cent_nodes c → p ∈ L) →
  ∃ m', free_cent c m = Some (tt, m', []) ∧ mallocs m' = mallocs m ∧ dropped m m' (list_to_set (cent_nodes c)).
Proof.
  intros Ht HL Hnd Hin. unfold free_cent, neg_of, rr_of. unfold cent_tag in Ht.
  destruct (u c) as [l t s|mu ext] eqn:Hu.
  - rewrite Ht. m_step. destruct (mem_remove_spec m l L HL) as (m' & H & Hma & Hd).
    { intros p ->. apply Hin. unfold cent_nodes. rewrite Hu. by left. }
    exists m'. split; [done|]. split; [done|]. unfold cent_nodes. rewrite Hu. destruct l as [p|]; [|done].
    by assert (list_to_set [p] = ({[p]} : gset Z)) as -> by set_solver.
  - destruct Ht as (-> & _). m_step. destruct (del_rrs_spec m c mu ext L Hu HL Hnd Hin) as (m' & H & Hma & Hd).
    m_run H. exists m'. done.
Qed.

(** ** Copies *)

Definition same_set (s s' : rr_set_t) : Prop :=
  ttl s' = ttl s ∧ ts s' = ts s ∧ flags s' = flags s ∧ rrs s' = rrs s ∧ lent s' = None.
Definition copied : option rr_set_t → option rr_set_t → Prop := option_Forall2 same_set.
(** [c'] has the contents of [c], in memory of its own, and is not in the list. *)
Record copy_of (c c' : dns_cent_t) : Prop := {
  copy_same : same_cent c c';
  copy_cs : cs c' = cs c;
  copy_num : num_rrs c' = num_rrs c;
  copy_flags : c_flags c' = c_flags c;
  copy_data :
    match u c, u c' with
    | neg _ t s, neg l t' s' => l = None ∧ t' = t ∧ s' = s
    | rr mu ext, rr mu' ext' => Forall2 copied mu mu' ∧ option_Forall2 (Forall2 copied) ext ext'
    | _, _ => False
    end;
}.

Lemma copy_rrs_spec m l :
  ∃ r ok m', copy_rrs l m = Some ((r, ok), m', []) ∧ rl m' = rl m ∧ dropped m m' ∅ ∧ (mem_ok m → ok = true) ∧ (ok = true → r = l).
Proof.
  revert m. induction l as [|b l IH]; intros m; cbn [copy_rrs].
  - exists [], true, m. split; [done|]. split; [done|]. split; [apply dropped_refl|]. done.
  - unfold copy_rr. rewrite M_bind_assoc. m_malloc p m1 Hrl Hd Hmo Hp. destruct p as [a|]; m_step.
    + destruct (IH m1) as (r & ok & m2 & H2 & Hrl2 & Hd2 & Hmo2 & Hr). m_run H2. exists (b :: r), ok, m2.
      split; [done|]. split; [congruence|]. split; [by eapply dropped_empty|]. split; [intros; by apply Hmo2, Hd|].
      intros Ho. cbn. by rewrite Hr.
    + exists [], false, m1. done.
Qed.
Lemma copy_set_spec m s :
  ∃ v ok m', copy_set s m = Some ((v, ok), m', []) ∧ rl m' = rl m ∧ dropped m m' ∅ ∧ (mem_ok m → ok = true) ∧
    (ok = true → copied (Some s) v) ∧ (v ≫= lent) = None.
Proof.
  unfold copy_set. m_malloc p m1 Hrl Hd Hmo Hp. destruct p as [a|].
  - destruct (copy_rrs_spec m1 (rrs s)) as (r & ok & m2 & H2 & Hrl2 & Hd2 & Hmo2 & Hr). m_run H2. eexists _, ok, m2.
    split; [done|]. split; [congruence|]. split; [by eapply dropped_empty|]. split; [intros; by apply Hmo2, Hd|].
    split; [|done]. intros Ho. constructor. cbn. by rewrite Hr.
  - exists None, false, m1. split; [done|]. split; [done|]. split; [done|]. split; [done|]. done.
Qed.
Lemma nodes_nulls n : nodes_of (replicate n None) = [].
Proof. induction n as [|n IH]; [done|]. exact IH. Qed.
Lemma copy_slots_spec m l :
  ∃ r ok m', copy_slots l m = Some ((r, ok), m', []) ∧ rl m' = rl m ∧ dropped m m' ∅ ∧ (mem_ok m → ok = true) ∧
    (ok = true → Forall2 copied l r) ∧ nodes_of r = [] ∧ length r = length l.
Proof.
  revert m. induction l as [|[s|] l IH]; intros m; cbn [copy_slots].
  - exists [], true, m. split; [done|]. split; [done|]. split; [apply dropped_refl|]. done.
  - destruct (copy_set_spec m s) as (v & ok & m1 & H1 & Hrl1 & Hd1 & Hmo1 & Hv & Hl). m_run H1. destruct ok.
    + destruct (IH m1) as (r & ok & m2 & H2 & Hrl2 & Hd2 & Hmo2 & Hr & Hn & Hlen). m_run H2. exists (v :: r), ok, m2.
      split; [done|]. split; [congruence|]. split; [by eapply dropped_empty|]. split; [intros; by apply Hmo2, Hd1|].
      split; [intros; constructor; auto|]. split; [|cbn; by rewrite Hlen]. unfold nodes_of. by rewrite omap_cons, Hl.
    + eexists _, false, m1. split; [done|]. split; [done|]. split; [done|]. split; [done|]. split; [done|].
      split; [|cbn; by rewrite length_replicate]. unfold nodes_of. rewrite omap_cons, Hl. apply nodes_nulls.
  - destruct (IH m) as (r & ok & m2 & H2 & Hrl2 & Hd2 & Hmo2 & Hr & Hn & Hlen). m_run H2. exists (None :: r), ok, m2.
    split; [done|]. split; [done|]. split; [done|]. split; [done|]. split; [intros; constructor; [constructor|auto]|].
    split; [done|]. cbn. by rewrite Hlen.
Qed.
(** The copy is freed again when memory runs out. *)
Lemma free_detached_spec m c L :
  cent_tag c → dll (rl m) L → cent_nodes c = [] → ∃ m', free_cent c m = Some (tt, m', []) ∧ dropped m m' ∅.
Proof.
  intros Ht HL Hn. destruct (free_cent_spec m c L Ht HL) as (m' & H & _ & Hd); rewrite ?Hn in *; [constructor|set_solver|].
  by exists m'.
Qed.
Lemma copy_arrays_spec m mu ext :
  zlen mu = NRRMU → match ext with Some e => zlen e = NRREXT | None => True end →
  ∃ mu' ext' ok m', copy_arrays mu ext m = Some ((mu', ext', ok), m', []) ∧ rl m' = rl m ∧ dropped m m' ∅ ∧ (mem_ok m → ok = true) ∧
    nodes_of (mu' ++ default [] ext') = [] ∧ zlen mu' = NRRMU ∧ match ext' with Some e => zlen e = NRREXT | None => True end ∧
    (ok = true → Forall2 copied mu mu' ∧ option_Forall2 (Forall2 copied) ext ext').
Proof.
  intros Hmu Hext. unfold copy_arrays.
  assert (Hp : ∃ p m1, (match ext with None => mret true | Some _ => p ← malloc; mret (not_null p) end) m = Some (p, m1, []) ∧
    rl m1 = rl m ∧ dropped m m1 ∅ ∧ (mem_ok m → p = true)).
  { destruct ext; [|exists true, m; split; [done|]; split; [done|]; split; [apply dropped_refl|done]].
    m_malloc p m1 Hrl Hd Hmo Hp. by exists (not_null p), m1. }
  destruct Hp as (p & m1 & H1 & Hrl1 & Hd1 & Hmo1). m_run H1. clear H1. destruct p; cbn [negb].
  2:{ exists (NULLS NRRMU), None, false, m1. split; [done|]. done. }
  destruct (copy_slots_spec m1 mu) as (mu' & ok & m2 & H2 & Hrl2 & Hd2 & Hmo2 & Hmu' & Hnmu & Hlmu). m_run H2.
  assert (Hlen : zlen mu' = NRRMU) by (unfold zlen in *; by rewrite Hlmu).
  assert (Hd12 : dropped m m2 ∅) by (by eapply dropped_empty).
  assert (Hmo12 : mem_ok m → ok = true) by (intros; by apply Hmo2, Hd1).
  destruct ext as [ext|]; [destruct ok|].
  - destruct (copy_slots_spec m2 ext) as (e' & ok & m3 & H3 & Hrl3 & Hd3 & Hmo3 & He' & Hne & Hle). m_run H3.
    exists mu', (Some e'), ok, m3. split; [done|]. split; [congruence|]. split; [by eapply dropped_empty|].
    split; [intros; by apply Hmo3, Hd12|]. split; [cbn; by rewrite nodes_of_app, Hnmu, Hne|]. split; [done|].
    split; [unfold zlen in *; by rewrite Hle|]. intros Ho. split; [by apply Hmu'|]. constructor. by apply He'.
  - exists mu', (Some (NULLS NRREXT)), false, m2. split; [done|]. split; [congruence|]. split; [done|]. split; [done|].
    split; [cbn; rewrite nodes_of_app, Hnmu; apply nodes_nulls|]. done.
  - exists mu', None, ok, m2. split; [done|]. split; [congruence|]. split; [done|]. split; [done|].
    split; [cbn; by rewrite app_nil_r|]. split; [done|]. split; [done|]. intros Ho. split; [by apply Hmu'|constructor].
Qed.
Lemma copy_cent_spec m c L :
  cent_tag c → dll (rl m) L → rhnlen (qname c) = Some (zlen (qname c)) →
  ∃ r m', copy_cent c m = Some (r, m', []) ∧ dropped m m' ∅ ∧ (mem_ok m → not_null r = true) ∧
    match r with Some (a, c') => a = brk m ∧ brk m < brk m' ∧ copy_of c c' | None => True end.
Proof.
  intros Ht HL Hq. unfold copy_cent. m_malloc p m1 Hrl1 Hd1 Hmo1 Hp1.
  destruct p as [a|]; [|by exists None, m1]. destruct Hp1 as [-> Hb1]. m_the Hq. m_malloc p m2 Hrl2 Hd2 Hmo2 Hp2.
  assert (Hd12 : dropped m m2 ∅) by (by eapply dropped_empty). pose proof (drop_brk _ _ _ Hd2) as Hb2.
  assert (Hmo12 : mem_ok m → not_null p = true) by (intros; by apply Hmo2, Hd1).
  destruct p as [x|]; [|by exists None, m2]. rewrite ztake_all by done.
  unfold neg_of, rr_of. unfold cent_tag in Ht. destruct (u c) as [l t s|mu ext] eqn:Hu.
  { rewrite Ht. m_step. eexists (Some (_, _)), m2. split; [done|]. split; [done|]. split; [done|].
    split; [done|]. split; [lia|]. split; try done. by rewrite Hu. }
  destruct Ht as (Hn & Hmu & Hext). rewrite Hn. m_step. cbn [fst snd].
  destruct (copy_arrays_spec m2 mu ext Hmu Hext) as (mu' & ext' & ok & m3 & H3 & Hrl3 & Hd3 & Hmo3 & Hnn & Hmu' & Hext' & Hc). m_run H3.
  assert (Hd13 : dropped m m3 ∅) by (by eapply dropped_empty). pose proof (drop_brk _ _ _ Hd3) as Hb3.
  assert (Hmo13 : mem_ok m → ok = true) by (intros; by apply Hmo3, Hd12).
  destruct ok.
  - eexists (Some (_, _)), m3. split; [done|]. split; [done|]. split; [done|]. split; [done|]. split; [lia|].
    split; try done. cbn [u]. rewrite Hu. by apply Hc.
  - destruct (free_detached_spec m3 (mkCent (qname c) (cs c) (num_rrs c) (c_flags c) (rr mu' ext') (c_ns c) (c_soa c)) L)
      as (m4 & H4 & Hd4); [done|by rewrite Hrl3, Hrl2, Hrl1|exact Hnn|].
    m_run H4. exists None, m4. split; [done|]. split; [by eapply dropped_empty|]. split; [|done].
    intros Hm. by specialize (Hmo13 Hm).
Qed.
(** A copy of a well-formed entry is well-formed, and has the same records. *)
Lemma copied_size l l' : Forall2 copied l l' → zsum slot_size l' = zsum slot_size l ∧ zsum slot_num l' = zsum slot_num l.
Proof.
  induction 1 as [|v v' l l' Hv _ [IH1 IH2]]; [done|]. rewrite !zsum_cons, IH1, IH2.
  destruct Hv as [s s' (_ & _ & _ & Hr & _)|]; [|done]. cbn [slot_size slot_num]. unfold set_size. by rewrite Hr.
Qed.
Lemma copied_nodes l l' : Forall2 copied l l' → nodes_of l' = [].
Proof.
  induction 1 as [|v v' l l' Hv _ IH]; [done|]. destruct Hv as [s s' (_ & _ & _ & _ & Hl)|]; [|done]. by rewrite nodes_cons, Hl.
Qed.
Lemma copy_of_slots c c' : copy_of c c' → Forall2 copied (all_slots c) (all_slots c') ∧ ext_size c' = ext_size c.
Proof.
  intros [_ _ _ _ Hd]. unfold all_slots, ext_size. destruct (u c) as [|mu ext], (u c') as [|mu' ext']; try done.
  destruct Hd as [Hm He]. destruct He; cbn [from_option id]; (split; [by apply Forall2_app|done]).
Qed.
Lemma copy_of_ok c c' : cent_ok c → copy_of c c' → cent_ok c' ∧ cent_nodes c' = [] ∧ negative c' = negative c.
Proof.
  intros [Ht Hcs Hnum] Hc. destruct (copy_of_slots c c' Hc) as [Hs He]. destruct (copied_size _ _ Hs) as [Hz Hz'].
  pose proof Hc as [[Hq _ _ _] Hcc Hcn Hcf Hd].
  assert (Hn : negative c' = negative c) by (unfold negative; by rewrite Hcf). split; [split|split; [|done]].
  - unfold cent_tag in *. rewrite Hn. destruct (u c) as [|mu ext], (u c') as [|mu' ext']; try done.
    destruct Ht as (? & Hmu & Hext), Hd as [Hdm Hde]. apply Forall2_length in Hdm.
    split; [done|]. split; [unfold zlen in *; by rewrite <-Hdm|]. destruct Hde as [? ? Hde|]; [|done].
    apply Forall2_length in Hde. unfold zlen in *. by rewrite <-Hde.
  - rewrite Hcc, Hcs. unfold cent_size. by rewrite Hz, He, Hq.
  - by rewrite Hcn, Hnum, Hz'.
  - unfold cent_nodes. destruct (u c) as [|mu ext], (u c') as [l t s|mu' ext'] eqn:E; try done.
    + by destruct Hd as (-> & _).
    + by apply (copied_nodes _ _ Hs).
Qed.
Lemma copy_of_slot c c' i : copy_of c c' → copied (slot c i) (slot c' i).
Proof.
  intros Hc. destruct (copy_of_slots c c' Hc) as [Hs _]. unfold slot. pose proof (Forall2_lookup_lr copied (all_slots c) (all_slots c') (Z.to_nat i)) as Hl.
  destruct (all_slots c !! Z.to_nat i) as [v|] eqn:E1, (all_slots c' !! Z.to_nat i) as [v'|] eqn:E2; cbn.
  - by apply (Hl v v').
  - apply Forall2_length in Hs. apply lookup_lt_Some in E1. apply lookup_ge_None in E2. lia.
  - apply Forall2_length in Hs. apply lookup_lt_Some in E2. apply lookup_ge_None in E1. lia.
  - constructor.
Qed.

(** ** Entries that a query builds *)

Lemma init_cent_spec m ls t s f :
  Forall label_ok ls →
  ∃ r m', init_cent (rhn ls) t s f m = Some (r, m', []) ∧ rl m' = rl m ∧ dropped m m' ∅ ∧ (mem_ok m → not_null r = true) ∧
    match r with
    | Some c => cent_ok c ∧ cent_nodes c = [] ∧ qname c = rhn ls ∧ c_flags c = f ∧ c_ns c = cundef ∧ c_soa c = cundef ∧
        (∀ i, slot c i = None)
    | None => True
    end.
Proof.
  intros Hls. unfold init_cent. pose proof (rhnlen_spec ls [] Hls) as Hr. rewrite app_nil_r in Hr. m_the Hr.
  m_malloc p m1 Hrl Hd Hmo Hp. destruct p as [a|]; [|by exists None, m1]. eexists (Some _), m1.
  split; [done|]. split; [done|]. split; [done|]. split; [done|]. rewrite ztake_all by done.
  destruct (has f DF_NEGATIVE) eqn:Hf.
  - split; [|done]. split; [exact Hf| |done]. symmetry. apply Z.add_0_r.
  - split; [|split; [done|]; do 4 (split; [done|]); intros i; unfold slot, all_slots; cbn [u from_option id]; by rewrite app_nil_r, lookup_nulls].
    split; [split; [exact Hf|done]| |done]. symmetry. apply Z.add_0_r.
Qed.

(** A record is added to the set of its type, unless it is in it; the set keeps the smaller
    time to live.  A record for a local domain that is not local is ignored. *)
Lemma add_cent_rr_spec m c type t s f data L :
  cent_ok c → neg_lent c = None → dll (rl m) L → 0 ≤ type - T_MIN < T_NUM →
  (∀ i, place type = Some i → i < NRRTOT) →
  ∃ i ok c' m', place type = Some i ∧ add_cent_rr c type t s f data m = Some ((ok, c'), m', []) ∧ dropped m m' ∅ ∧
    (mem_ok m → ok = true) ∧ cent_ok c' ∧ same_cent c c' ∧ neg_lent c' = None ∧
    (∀ j, 0 ≤ j → j ≠ i → slot c' j = slot c j) ∧ slot c' i ≫= lent = slot c i ≫= lent ∧
    (has (c_flags c) DF_LOCAL && negb (has f CF_LOCAL) = true → ok = true ∧ c' = c) ∧
    (ok = true → has (c_flags c) DF_LOCAL && negb (has f CF_LOCAL) = false →
      ∃ rs, slot c' i = Some rs ∧ lent rs = match slot c i with Some old => lent old | None => None end ∧
        match slot c i with
        | Some old => ttl rs = Z.min t (ttl old) ∧ ts rs = ts old ∧ flags rs = flags old ∧
            rrs rs = if bool_decide (data ∈ rrs old) then rrs old else rrs old ++ [data]
        | None => ttl rs = t ∧ ts rs = s ∧ flags rs = f ∧ rrs rs = [data]
        end).
Proof.
  intros Hok Hnl HL Htp Hpl. pose proof (ok_tag _ Hok) as Ht.
  assert (∃ i, place type = Some i ∧ 0 ≤ i) as (i & Hi & Hi0).
  { unfold place. destruct (lookup_lt_is_Some_2 rrlkuptab (Z.to_nat (type - T_MIN))) as [i Hi].
    { change (Z.to_nat (type - T_MIN) < 51)%nat. unfold T_NUM in Htp. lia. }
    exists i. split; [done|]. apply list_elem_of_lookup_2 in Hi. revert i Hi. apply list.Forall_forall.
    apply (bool_decide_unpack _). by vm_compute. }
  pose proof (Hpl i Hi) as Hi1. exists i. unfold add_cent_rr.
  destruct (has (c_flags c) DF_LOCAL && negb (has f CF_LOCAL)) eqn:Hloc.
  { exists true, c, m. split; [done|]. split; [done|]. split; [apply dropped_refl|]. do 7 (split; [done|]). done. }
  rewrite ASSERT_true by lia. m_the Hi. rewrite ASSERT_true by lia.
  m_the (testext_slot c i Ht (conj Hi0 Hi1)). destruct (slot c i) as [old|] eqn:Hs.
  - assert (Hc1 : ∃ c1, (if t <? ttl old then the (set_slot c i (Some (with_ttl old t))) else mret c) m = Some (c1, m, []) ∧
      cent_ok c1 ∧ same_cent c c1 ∧ neg_lent c1 = None ∧ (∀ j, 0 ≤ j → slot c1 j = if j =? i then Some (with_ttl old (Z.min t (ttl old))) else slot c j)).
    { pose proof (slot_lt c i old Hs Hi0) as Hlt. zif (t <? ttl old).
      - destruct (set_slot_ok c i (Some (with_ttl old t)) Ht Hlt) as (c1 & H1 & Ha & Ht1 & He & Hcs & Hnum & Hfl & Hsame & Hnl1 & Hnn).
        exists c1. split; [by rewrite H1|]. split; [|split; [done|split; [congruence|]]].
        + apply (cent_ok_set c c1 i (Some (with_ttl old t)) 0 0); [done|done|done|done|done|lia|lia| | |]; rewrite ?Hs; cbn; try (unfold set_size; cbn; lia).
          rewrite Hnum. unfold u16. rewrite Z.mod_small; [lia|]. destruct Hok as [_ _ ->].
          pose proof (num_range c Ht). pose proof (num_slots_le c Ht). unfold NRRTOT in *. lia.
        + intros j Hj. replace (Z.min t (ttl old)) with t by lia. by apply (slot_insert c c1).
      - exists c. split; [done|]. do 3 (split; [done|]). intros j Hj. replace (Z.min t (ttl old)) with (ttl old) by lia.
        zif (j =? i); [subst j; rewrite Hs; by destruct old|done]. }
    destruct Hc1 as (c1 & H1 & Hok1 & Hsame1 & Hnl1 & Hsl1). m_run H1.
    case_bool_decide as Hin.
    + exists true, c1, m. split; [done|]. split; [done|]. split; [apply dropped_refl|]. do 4 (split; [done|]).
      split; [intros j Hj Hji; rewrite Hsl1 by done; by zif (j =? i)|]. split; [by rewrite Hsl1, Z.eqb_refl by done|]. split; [done|]. intros _ _.
      eexists. rewrite Hsl1, Z.eqb_refl by done. split; [done|]. done.
    + set (rtail := match rrs old with [] => None | _ => Some (pred (length (rrs old))) end).
      assert (Hsi : slot c1 i = Some (with_ttl old (Z.min t (ttl old)))) by (by rewrite Hsl1, Z.eqb_refl by done).
      destruct (add_cent_rr_int_spec m c1 i t s f data rtail L Hok1 (conj Hi0 Hi1) HL Hnl1) as
        (ok & rtail' & c2 & m2 & H2 & Hd2 & Hmo2 & Hok2 & Hsame2 & Hnl2 & _ & Hsl2 & Hr).
      { unfold rtail. destruct (rrs old) as [|b l] eqn:Hrr; [done|]. eexists. split; [exact Hsi|]. cbn. rewrite Hrr. cbn. lia. }
      m_run H2. exists ok, c2, m2. split; [done|]. split; [done|]. split; [done|]. split; [done|]. split; [done|].
      split; [by transitivity c1|]. split; [done|]. split.
      { intros j Hj Hji. rewrite Hsl2, Hsl1 by done. by zif (j =? i). }
      split.
      { destruct ok; [|by rewrite Hr, Hsi]. destruct Hr as (_ & _ & rs & -> & Hold). rewrite Hsi in Hold. by subst rs. }
      split; [done|]. intros -> _. destruct Hr as (_ & _ & rs & Hrs & Hold). rewrite Hsi in Hold. subst rs.
      eexists. split; [exact Hrs|]. cbn. do 4 (split; [done|]). unfold rtail. destruct (rrs old) as [|b l] eqn:Hrr; [done|].
      cbn [put_rr length pred]. by rewrite take_ge, drop_ge by (cbn; lia).
  - destruct (add_cent_rr_int_spec m c i t s f data None L Hok (conj Hi0 Hi1) HL Hnl) as
      (ok & rtail' & c2 & m2 & H2 & Hd2 & Hmo2 & Hok2 & Hsame2 & Hnl2 & _ & Hsl2 & Hr); [done|].
    m_run H2. exists ok, c2, m2. split; [done|]. split; [done|]. do 6 (split; [done|]). split.
    { destruct ok; [|by rewrite Hr, Hs]. destruct Hr as (_ & _ & rs & -> & Hold). rewrite Hs in Hold. by destruct Hold as [a ->]. }
    split; [done|]. intros -> _. destruct Hr as (_ & _ & rs & Hrs & Hold). rewrite Hs in Hold. destruct Hold as [a ->].
    eexists. split; [exact Hrs|]. done.
Qed.
