(* ===== verification/DnsCache.v ===== *)
(** * The DNS cache

    [pdnsd/src/cache.c]: entries are found through the hash table (file DnsHash); their record
    sets are in a list by age (file RrList), from which the cache is purged when it is full.

    The entries of the cache are objects of a heap, [cents]; the hash table holds their
    addresses.  An operation here is what a thread does while it holds the lock (file
    CacheLock); [time(NULL)] is the parameter [now] during that time.  An entry that a caller
    owns, the argument of [add_cache] or the result of [lookup_cache], is a value. *)

From S2P Require Import Prelude CInt DnsName DnsCompress RrTypes RrList DnsHash DnsCent.

(** [global] *)
Record globparm_t := mkGlob { perm_cache : Z; min_ttl : Z; max_ttl : Z; neg_ttl : Z }.
Definition MCSZ : Z := 10240.
Definition CACHE_LAT : Z := 120.
Definition CLAT_ADJ (t : Z) : Z := if t <? CACHE_LAT then CACHE_LAT else t.

Abbreviation ctable := (list (list (dns_hash_ent_t Z))).
Record cache := mkCache {
  mem : memory; cents : gmap Z dns_cent_t; hash : ctable; cache_size : Z; ent_num : Z; insert_sort : bool }.
Abbreviation C := (M cache log_event).

(** ** The parts of the state *)

Definition on_mem {A} (m : Mem A) : C A := λ s,
  match m (mem s) with
  | Some (a, m', es) => Some (a, mkCache m' (cents s) (hash s) (cache_size s) (ent_num s) (insert_sort s), es)
  | None => None
  end.
Definition load (a : Z) : C dns_cent_t := λ s, c ← cents s !! a; Some (c, s, []).
Definition set_cents (f : gmap Z dns_cent_t → gmap Z dns_cent_t) : C unit :=
  modify (λ s, mkCache (mem s) (f (cents s)) (hash s) (cache_size s) (ent_num s) (insert_sort s)).
Definition store (a : Z) (c : dns_cent_t) : C unit := set_cents <[a := c]>.
Definition set_hash (t : ctable) : C unit :=
  modify (λ s, mkCache (mem s) (cents s) t (cache_size s) (ent_num s) (insert_sort s)).
Definition add_size (n : Z) : C unit :=
  modify (λ s, mkCache (mem s) (cents s) (hash s) (cache_size s + n) (ent_num s) (insert_sort s)).
Definition add_ent (n : Z) : C unit :=
  modify (λ s, mkCache (mem s) (cents s) (hash s) (cache_size s) (ent_num s + n) (insert_sort s)).
Definition set_sort (b : bool) : C unit :=
  modify (λ s, mkCache (mem s) (cents s) (hash s) (cache_size s) (ent_num s) b).
Definition need {A} (o : option A) : C A := match o with Some a => mret a | None => unreachable end.
(** an operation on the entry at an address *)
Definition on_cent {A} (a : Z) (f : dns_cent_t → Mem (A * dns_cent_t)) : C A :=
  c ← load a; x ← on_mem (f c); store a x.2;; mret x.1.

(** [get_rrlent_ts]: [le->rrset->ts] or [le->cent->neg.ts] *)
Definition get_rrlent_ts (cs : gmap Z dns_cent_t) (rrs : option Z) (c i : Z) : option Z :=
  ce ← cs !! c;
  match rrs with
  | Some a =>
      v ← RRARR_INDEX ce i;
      s ← v;
      assert! addr s =? a;
      Some (ts s)
  | None => n ← neg_of ce; Some n.2
  end.

(** [insert_rrl]: [rrs] is the set at place [idx] of the entry, or [NULL] *)
Definition insert_rrl (rrs : option rr_set_t) (a idx : Z) : C bool :=
  c ← load a;
  if match rrs with Some s => has (flags s) CF_LOCAL | None => false end || has (c_flags c) DF_LOCAL then mret true
  else
    p ← on_mem malloc;
    match p with
    | None => mret false
    | Some ne =>
        s ← get;
        r ← need (insert_node (get_rrlent_ts (cents s)) (insert_sort s) ne (addr <$> rrs) a idx (rl (mem s)));
        on_mem (modify (λ m, mkMem r (mallocs m) (brk m)));;
        c ← match rrs with
            | Some rs => need (set_slot c idx (Some (with_lent rs (Some ne))))
            | None => n ← need (neg_of c); mret (with_u c (neg (Some ne) n.1.2 n.2))
            end;
        store a c;;
        mret true
    end.
Definition sort_list : C unit :=
  s ← get;
  r ← need (sort_rrl (get_rrlent_ts (cents s)) (rl (mem s)));
  on_mem (modify (λ m, mkMem r (mallocs m) (brk m))).

(** ** The hash table *)

Definition lookup_ent (name : bytes) : C (option Z * dns_hash_loc_t) :=
  s ← get;
  r ← need (dns_lookup name (hash s));
  mret (contents <$> r.1, r.2).

Definition del_cent (a : Z) : C unit :=
  c ← load a;
  add_size (- cs c);;
  on_mem (free_cent c);;
  set_cents (delete a);;
  add_ent (-1).
Definition del_cache_ent (a : Z) (loc : option dns_hash_loc_t) : C unit :=
  s ← get;
  c ← load a;
  r ← match loc with
      | Some loc => x ← need (del_dns_hash_ent loc (hash s)); mret (Some x.1, x.2)
      | None => need (del_dns_hash (qname c) (hash s))
      end;
  set_hash r.2;;
  match r.1 with
  | None => emit CACHE_ENTRY_NOT_FOUND
  | Some d => when (negb (contents d =? a)) (emit CACHE_ENTRY_MISMATCH)
  end;;
  del_cent a.

Section ops.
Context (global : globparm_t) (now : Z).

(** ** Purging *)

Definition timedout (s : rr_set_t) : bool := ts s + CLAT_ADJ (ttl s) <? now.
Definition timedout_nxdom (c : dns_cent_t) : option bool :=
  n ← neg_of c; Some (n.2 + CLAT_ADJ n.1.2 <? now).
Definition must_go (s : rr_set_t) : bool :=
  negb (has (flags s) CF_NOPURGE || has (flags s) CF_LOCAL) && timedout s.

Definition purge_rrset (a idx : Z) (test : bool) : C bool :=
  c ← load a;
  v ← need (RRARR_INDEX_TESTEXT c idx);
  match v with
  | Some s =>
      if must_go s then
        when (negb test) (n ← on_cent a (λ c, del_cent_rrset_by_index c idx); add_size (- n));;
        mret true
      else mret false
  | None => mret false
  end.

(** the loop over the sets: [rv], [numrrs] and [numrrext] *)
Fixpoint purge_sets (n : nat) (a i : Z) (test : bool) (rv numrrs numrrext : Z) : C (Z * Z * Z) :=
  match n with
  | O => mret (rv, numrrs, numrrext)
  | S n =>
      c ← load a;
      v ← need (RRARR_INDEX c i);
      match v with
      | None => purge_sets n a (i + 1) test rv numrrs numrrext
      | Some s =>
          if must_go s then
            when (negb test) (n ← on_cent a (λ c, del_cent_rrset_by_index c i); add_size (- n));;
            purge_sets n a (i + 1) test (rv + 1) numrrs numrrext
          else
            purge_sets n a (i + 1) test rv (numrrs + 1) (if i >=? NRRMU then numrrext + 1 else numrrext)
      end
  end.
(** [rv] and [*numrrsrem] *)
Definition purge_all_rrsets (a : Z) (test : bool) : C (Z * Z) :=
  c ← load a;
  if negative c then mret (0, 0)
  else
    ilim ← need (RRARR_LEN c);
    x ← purge_sets (Z.to_nat ilim) a 0 test 0 0 0;
    let '(rv, numrrs, numrrext) := x in
    c ← load a;
    r ← need (rr_of c);
    match r.2 with
    | Some _ =>
        if numrrext =? 0 then
          when (negb test) (
            store a (add_cs (with_u c (rr r.1 None)) (- (sizeof_ptr * NRREXT)));;
            add_size (- (sizeof_ptr * NRREXT)));;
          mret (rv + 1, numrrs)
        else mret (rv, numrrs)
    | None => mret (rv, numrrs)
    end.

(** a reference to a NS or SOA record that is not there, or timed out *)
Definition stale_ref (c : dns_cent_t) (get_set : dns_cent_t → option (option rr_set_t)) (ref : Z) : C bool :=
  if ref =? cundef then mret false
  else
    scnt ← need (rhnsegcnt (qname c));
    v ← (if ref =? scnt then need (get_set c)
         else if ref <? scnt then
           o ← need (skipsegs (qname c) 0 (Z.to_nat (scnt - ref)));
           r ← lookup_ent (zdrop o (qname c));
           match r.1 with
           | Some ce => ce ← load ce; need (get_set ce)
           | None => mret None
           end
         else mret None);
    mret (match v with
          | None => true
          | Some s => match rrs s with [] => true | _ => negb (has (flags s) CF_LOCAL) && timedout s end
          end).

(** -1 when the entry was (or would be) removed *)
Definition purge_cent (a : Z) (del test : bool) : C Z :=
  x ← purge_all_rrsets a test;
  let '(npurge, numrrs) := x in
  c ← load a;
  gone ← (if del && (numrrs =? 0) then
            if negative c then
              if has (c_flags c) DF_LOCAL then mret false else need (timedout_nxdom c)
            else mret true
          else mret false);
  if gone : bool then
    when (negb test) (del_cache_ent a None);;
    mret (-1)
  else if has (c_flags c) DF_LOCAL then mret npurge
  else
    ns ← stale_ref c getrrset_NS (c_ns c);
    when (ns && negb test)
      (store a (mkCent (qname c) (cs c) (num_rrs c) (c_flags c) (u c) cundef (c_soa c)));;
    c ← load a;
    soa ← stale_ref c getrrset_SOA (c_soa c);
    when (soa && negb test)
      (store a (mkCent (qname c) (cs c) (num_rrs c) (c_flags c) (u c) (c_ns c) cundef));;
    mret (npurge + Z.b2z ns + Z.b2z soa).

(** a node of the list, and whether what it points to is local *)
Definition load_lent (le : Z) : C rr_lent_t := s ← get; need (lents (rl (mem s)) !! le).
Definition lent_local (e : rr_lent_t) : C bool :=
  c ← load (cent e);
  match rrset e with
  | Some p =>
      v ← need (RRARR_INDEX c (idx e));
      s ← need v;
      ASSERT (addr s =? p);;
      mret (has (flags s) CF_LOCAL || has (c_flags c) DF_LOCAL)
  | None => mret (has (c_flags c) DF_LOCAL)
  end.
(** the two loops: timed-out sets go, then the oldest ones *)
Fixpoint purge_timedout (fuel : nat) (sz : Z) (lazy : bool) (le : option Z) : C unit :=
  match le with
  | None => mret tt
  | Some p =>
      match fuel with
      | O => unreachable
      | S fuel =>
          s ← get;
          if negb lazy || (cache_size s >? sz) then
            e ← load_lent p;
            local ← lent_local e;
            when (negb local) (
              when (not_null (rrset e)) (purge_rrset (cent e) (idx e) false;; mret tt);;
              c ← load (cent e);
              gone ← (if num_rrs c =? 0 then
                        if negative c then
                          if has (c_flags c) DF_LOCAL then mret false else need (timedout_nxdom c)
                        else mret true
                      else mret false);
              when gone (del_cache_ent (cent e) None));;
            purge_timedout fuel sz lazy (next e)
          else mret tt
      end
  end.
Fixpoint purge_oldest (fuel : nat) (sz : Z) (le : option Z) : C unit :=
  match le with
  | None => mret tt
  | Some p =>
      match fuel with
      | O => unreachable
      | S fuel =>
          s ← get;
          if cache_size s >? sz then
            e ← load_lent p;
            local ← lent_local e;
            when (negb local) (
              when (not_null (rrset e)) (
                n ← on_cent (cent e) (λ c, del_cent_rrset_by_index c (idx e)); add_size (- n));;
              c ← load (cent e);
              when (num_rrs c =? 0) (del_cache_ent (cent e) None));;
            purge_oldest fuel sz (next e)
          else mret tt
      end
  end.
Definition purge_cache (sz : Z) (lazy : bool) : C unit :=
  s ← get;
  purge_timedout (size (lents (rl (mem s)))) sz lazy (rrset_l (rl (mem s)));;
  s ← get;
  if cache_size s <=? sz then mret tt
  else
    when (negb (insert_sort s)) (sort_list;; set_sort true);;
    s ← get;
    purge_oldest (size (lents (rl (mem s)))) sz (rrset_l (rl (mem s))).

(** ** Adding an entry *)

Definition adjust_ttl (s : rr_set_t) : rr_set_t :=
  if has (flags s) CF_NOCACHE then mkSet (addr s) (lent s) 0 (ts s) (clear (flags s) CF_NOCACHE) (rrs s)
  else
    let lo := if has (flags s) CF_NEGATIVE && (neg_ttl global <? min_ttl global) then neg_ttl global else min_ttl global in
    if ttl s <? lo then with_ttl s lo
    else if ttl s >? max_ttl global then with_ttl s (max_ttl global)
    else s.
Definition adjust_dom_ttl (c : dns_cent_t) : option dns_cent_t :=
  n ← neg_of c;
  let '(l, t, s) := n in
  Some (if has (c_flags c) DF_NOCACHE then with_u (with_flags c (clear (c_flags c) DF_NOCACHE)) (neg l 0 s)
        else
          let lo := if neg_ttl global <? min_ttl global then neg_ttl global else min_ttl global in
          if t <? lo then with_u c (neg l lo s)
          else if t >? max_ttl global then with_u c (neg l (max_ttl global) s)
          else c).

(** the sets of the entry that conflict with the set at place [idx] *)
Definition conflicting (rri : rr_infos) (i : Z) (v : option rr_set_t) : bool :=
  match v with
  | None => false
  | Some s =>
      negb (has (flags s) CF_NEGATIVE) &&
      match rr_info !! Z.to_nat i with Some inf => conflict rri inf | None => false end
  end.
(** the first loop: the number of conflicts and the sum of their remaining times, or
    [None] when one is local *)
Fixpoint cr_count (n : nat) (a : Z) (rri : rr_infos) (i ncf nttl : Z) : C (option (Z * Z)) :=
  match n with
  | O => mret (Some (ncf, nttl))
  | S n =>
      c ← load a;
      v ← need (RRARR_INDEX c i);
      match v with
      | Some s =>
          if conflicting rri i v then
            if has (flags s) CF_LOCAL then mret None
            else
              let rttl := ttl s + ts s - now in
              cr_count n a rri (i + 1) (ncf + 1) (if rttl >? 0 then nttl + rttl else nttl)
          else cr_count n a rri (i + 1) ncf nttl
      | None => cr_count n a rri (i + 1) ncf nttl
      end
  end.
Fixpoint cr_remove (n : nat) (a : Z) (rri : rr_infos) (i : Z) : C unit :=
  match n with
  | O => mret tt
  | S n =>
      c ← load a;
      v ← need (RRARR_INDEX c i);
      when (conflicting rri i v) (on_cent a (λ c, del_cent_rrset_by_index c i);; mret tt);;
      cr_remove n a rri (i + 1)
  end.
Definition cr_check_add (a idx t s f : Z) : C bool :=
  if has f CF_NEGATIVE then mret true
  else
    rri ← need (rr_info !! Z.to_nat idx);
    c ← load a;
    ilim ← need (RRARR_LEN c);
    let remove := cr_remove (Z.to_nat ilim) a rri 0;; mret true in
    if has f CF_LOCAL then remove
    else if has (c_flags c) DF_LOCAL then mret false
    else
      x ← cr_count (Z.to_nat ilim) a rri 0 0 0;
      match x with
      | None => mret false
      | Some (ncf, nttl) =>
          if ncf =? 0 then mret true
          else if t >? Z.quot nttl ncf then remove
          else mret false
      end.

(** the loop that puts the sets of a new entry into the list *)
Fixpoint list_sets (n : nat) (a i : Z) : C bool :=
  match n with
  | O => mret true
  | S n =>
      c ← load a;
      v ← need (RRARR_INDEX c i);
      match v with
      | None => list_sets n a (i + 1)
      | Some s =>
          let s := adjust_ttl s in
          c ← need (set_slot c i (Some s));
          store a c;;
          ok ← insert_rrl (Some s) a i;
          if ok : bool then list_sets n a (i + 1) else mret false
      end
  end.
Definition purge_limit : Z := perm_cache global * 1024 + MCSZ.
Definition warn : C unit := emit OUT_OF_CACHE_MEMORY.
(** the name is not in the cache *)
Definition add_new (c : dns_cent_t) (loc : dns_hash_loc_t) : C unit :=
  if (num_rrs c =? 0) && negb (negative c) then purge_cache purge_limit true
  else
    x ← on_mem (copy_cent c);
    match x with
    | None => warn
    | Some (a, ce) =>
        store a ce;;
        ok ← (if negative ce then
                ce ← need (adjust_dom_ttl ce);
                store a ce;;
                insert_rrl None a (-1)
              else ilim ← need (RRARR_LEN ce); list_sets (Z.to_nat ilim) a 0);
        added ← (if ok : bool then
                   p ← on_mem malloc;
                   s ← get;
                   r ← need (add_dns_hash (not_null p) (DnsHash.mkCent (qname ce) a) loc (hash s));
                   set_hash r.2;;
                   mret r.1
                 else mret false);
        ce ← load a;
        if added : bool then
          add_ent 1;;
          add_size (cs ce);;
          purge_cache purge_limit true
        else
          on_mem (free_cent ce);;
          set_cents (delete a);;
          warn
    end.

(** whether the old set stays *)
Definition old_precedes (new old : rr_set_t) : bool :=
  (negb (has (flags new) CF_LOCAL) && has (flags old) CF_LOCAL) ||
  (has (flags new) CF_ADDITIONAL &&
     (negb (has (flags old) CF_ADDITIONAL) || (negb (has (flags new) CF_ROOTSERV) && has (flags old) CF_ROOTSERV)) &&
     negb (timedout old)).
Fixpoint add_rrs (l : list bytes) (a i t s f : Z) (rtail : option nat) : C bool :=
  match l with
  | [] => mret true
  | b :: l =>
      x ← on_cent a (λ c, x ← add_cent_rr_int c i t s f b rtail; mret (x.1.1, x.1.2, x.2));
      let '(ok, rtail) := x in
      if ok : bool then add_rrs l a i t s f rtail else mret false
  end.
(** a new set in the place of the old one; [false] when memory is out *)
Definition replace_set (a i : Z) (new : rr_set_t) : C bool :=
  on_cent a (λ c, del_cent_rrset_by_index c i);;
  add ← cr_check_add a i (ttl new) (ts new) (flags new);
  if negb add then mret true
  else
    ok ← on_cent a (λ c, add_cent_rrset_by_index c i (ttl new) (ts new) (flags new));
    if negb ok then mret false
    else
      ok ← add_rrs (rrs new) a i (ttl new) (ts new) (flags new) None;
      ok ← (if ok : bool then
              c ← load a;
              v ← need (RRARR_INDEX c i);
              s ← need v;
              let s := adjust_ttl s in
              c ← need (set_slot c i (Some s));
              store a c;;
              insert_rrl (Some s) a i
            else mret false);
      when (negb ok) (on_cent a (λ c, del_cent_rrset_by_index c i);; mret tt);;
      mret ok.
Fixpoint replace_sets (n : nat) (a i : Z) (new : dns_cent_t) : C bool :=
  match n with
  | O => mret true
  | S n =>
      v ← need (RRARR_INDEX new i);
      ok ← match v with
           | None => mret true
           | Some rs =>
               c ← load a;
               old ← need (RRARR_INDEX_TESTEXT c i);
               if match old with Some o => old_precedes rs o | None => false end then mret true
               else replace_set a i rs
           end;
      if ok : bool then replace_sets n a (i + 1) new else mret false
  end.
Definition newer_ref (old new : Z) : Z :=
  if negb (new =? cundef) && ((old =? cundef) || (old <? new)) then new else old.
(** the name is in the cache, and the new entry is not negative *)
Definition add_old (a : Z) (new : dns_cent_t) : C unit :=
  purge_cent a false false;;
  c ← load a;
  add_size (- cs c);;
  ilim ← need (RRARR_LEN new);
  ok ← replace_sets (Z.to_nat ilim) a 0 new;
  c ← load a;
  if ok : bool then
    store a (mkCent (qname c) (cs c) (num_rrs c)
      (Z.lor (c_flags c) (Z.land (c_flags new) (Z.lor DF_AUTH DF_WILD))) (u c)
      (newer_ref (c_ns c) (c_ns new)) (newer_ref (c_soa c) (c_soa new)));;
    add_size (cs c);;
    purge_cache purge_limit true
  else add_size (cs c);; warn.

Fixpoint any_local (n : nat) (c : dns_cent_t) (i : Z) : C bool :=
  match n with
  | O => mret false
  | S n =>
      v ← need (RRARR_INDEX c i);
      match v with
      | Some s => if has (flags s) CF_LOCAL then mret true else any_local n c (i + 1)
      | None => any_local n c (i + 1)
      end
  end.
(** [goto retry] is the recursion *)
Fixpoint add_retry (fuel : nat) (new : dns_cent_t) : C unit :=
  match fuel with
  | O => unreachable
  | S fuel =>
      r ← lookup_ent (qname new);
      let '(ret, loc) := r in
      match ret with
      | None => add_new new loc
      | Some a =>
          if negative new then
            c ← load a;
            ilim ← need (RRARR_LEN c);
            keep ← any_local (Z.to_nat ilim) c 0;
            if keep : bool then mret tt
            else del_cache_ent a (Some loc);; add_retry fuel new
          else add_old a new
      end
  end.
Definition add_cache (new : dns_cent_t) : C unit := add_retry 2 new.

(** ** Looking up, and changing entries *)

(** the search up the name hierarchy; [nm] is where the rest of the name begins *)
Definition w_wild : Z := 1.
Definition w_neg : Z := 2.
Definition w_locnerr : Z := 3.
Fixpoint find_up (fuel : nat) (name : bytes) (nm : Z) : C (option Z * Z) :=
  match fuel with
  | O => unreachable
  | S fuel =>
      lb ← need (rd name nm);
      let nm := nm + (lb + 1) in
      lb ← need (rd name nm);
      if lb =? 0 then mret (None, 0)
      else
        r ← lookup_ent (zdrop nm name);
        match r.1 with
        | None => find_up fuel name nm
        | Some a =>
            c ← load a;
            if negative c then mret (Some a, w_neg)
            else if has (c_flags c) DF_WILD then
              len ← need (rhnlen (zdrop nm name));
              ASSERT (2 + len <=? DNSNAMEBUFSIZE);;
              r ← lookup_ent ([1; 42] ++ ztake len (zdrop nm name));
              mret (r.1, if not_null r.1 then w_wild else 0)
            else if has (c_flags c) DF_LOCAL then mret (Some a, w_locnerr)
            else mret (None, 0)
        end
  end.
Definition find_ent (name : bytes) (wild : bool) : C (option Z * Z) :=
  r ← lookup_ent name;
  match r.1 with
  | Some a => mret (Some a, 0)
  | None =>
      if wild then
        lb ← need (rd name 0);
        if lb =? 0 then mret (None, 0) else find_up (length name) name 0
      else mret (None, 0)
  end.
Definition copy_ent (a : Z) : C (option dns_cent_t) :=
  c ← load a; x ← on_mem (copy_cent c); mret (snd <$> x).
(** with the lock for reading: the result, or that something has to be purged first *)
Definition lookup_cache_r (name : bytes) (wild : bool) : C (option dns_cent_t * Z * bool) :=
  r ← find_ent name wild;
  let '(ret, w) := r in
  match ret with
  | None => mret (None, w, false)
  | Some a =>
      purge ← purge_cent a true true;
      if negb (purge =? 0) then mret (None, w, true)
      else c ← copy_ent a; mret (c, w, false)
  end.
(** with the lock for reading and writing *)
Definition lookup_cache_rw (name : bytes) (wild : bool) : C (option dns_cent_t * Z) :=
  r ← find_ent name wild;
  let '(ret, w) := r in
  match ret with
  | None => mret (None, w)
  | Some a =>
      purge ← purge_cent a true false;
      if purge <? 0 then mret (None, w)
      else c ← copy_ent a; mret (c, w)
  end.
(** both; another thread may get the lock in between *)
Definition lookup_cache (name : bytes) (wild : bool) : C (option dns_cent_t * Z) :=
  x ← lookup_cache_r name wild;
  let '(c, w, purge) := x in
  if purge : bool then lookup_cache_rw name wild else mret (c, w).
Definition lookup_cache_local_rrset (name : bytes) (type : Z) : C (option rr_set_t) :=
  r ← lookup_ent name;
  match r.1 with
  | None => mret None
  | Some a =>
      c ← load a;
      v ← need (getrrset c type);
      match v with
      | Some s => if has (flags s) CF_LOCAL then on_mem (copy_rrset s) else mret None
      | None => mret None
      end
  end.
Fixpoint local_owner (fuel : nat) (name : bytes) (nm tp : Z) : C (option Z) :=
  match fuel with
  | O => unreachable
  | S fuel =>
      lb ← need (rd name nm);
      let nm := nm + (lb + 1) in
      lb ← need (rd name nm);
      if lb =? 0 then mret None
      else
        r ← lookup_ent (zdrop nm name);
        match r.1 with
        | None => local_owner fuel name nm tp
        | Some a =>
            c ← load a;
            if negb (has (c_flags c) DF_LOCAL) then mret None
            else
              h ← need (have_rr c tp);
              if h : bool then mret (Some nm) else local_owner fuel name nm tp
        end
  end.
(** where the owner begins in [name] *)
Definition getlocalowner (name : bytes) (tp : Z) : C (option Z) :=
  lb ← need (rd name 0);
  if lb =? 0 then mret None else local_owner (length name) name 0 tp.

Definition del_cache (name : bytes) : C unit :=
  s ← get;
  r ← need (del_dns_hash name (hash s));
  set_hash r.2;;
  match r.1 with
  | Some d => del_cent (contents d)
  | None => mret tt
  end.

(** the time stamp of the set is reset *)
Definition invalidate_set (s : rr_set_t) : rr_set_t :=
  mkSet (addr s) (lent s) (ttl s) 0 (clear (flags s) CF_AUTH) (rrs s).
Definition invalidate_slots (l : slots) : slots := map (option_map invalidate_set) l.
Definition invalidate_cent (c : dns_cent_t) : option dns_cent_t :=
  let c' := with_flags c (clear (c_flags c) DF_AUTH) in
  match negative c, u c with
  | true, neg l t _ => Some (with_u c' (neg l t 0))
  | false, rr mu ext => Some (with_u c' (rr (invalidate_slots mu) (option_map invalidate_slots ext)))
  | _, _ => None
  end.
Definition invalidate_record (name : bytes) : C unit :=
  r ← lookup_ent name;
  match r.1 with
  | None => mret tt
  | Some a => c ← load a; c ← need (invalidate_cent c); store a c
  end.
Definition set_cent_flags (name : bytes) (f : Z) : C bool :=
  r ← lookup_ent name;
  match r.1 with
  | None => mret false
  | Some a => c ← load a; store a (with_flags c (Z.lor (c_flags c) f));; mret true
  end.

(** one bucket of [empty_cache]; all of them in [destroy_cache] *)
Fixpoint del_cents (l : list (DnsHash.dns_cent_t Z)) : C unit :=
  match l with
  | [] => mret tt
  | d :: l => del_cent (contents d);; del_cents l
  end.
Definition empty_bucket (i : nat) (sla : option (list slist_t)) : C unit :=
  s ← get;
  r ← need (match sla with
            | Some sla => free_dns_hash_selected i sla (hash s)
            | None => free_dns_hash_bucket i (hash s)
            end);
  set_hash r.2;;
  del_cents r.1.
Fixpoint empty_cache (n i : nat) (sla : option (list slist_t)) : C unit :=
  match n with
  | O => mret tt
  | S n => empty_bucket i sla;; empty_cache n (S i) sla
  end.
Definition destroy_cache : C unit :=
  s ← get;
  let x := free_dns_hash (hash s) in
  set_hash x.2;;
  del_cents x.1.
End ops.

(** the state at the start; [ms] are the outcomes of the calls of [malloc] *)
Definition no_cache (ms : list bool) : cache :=
  mkCache (mkMem (mkRrl ∅ None None) ms 0) ∅ mk_dns_hash 0 0 true.
