(* ===== verification/DnsCacheInv.v ===== *)
(** * The DNS cache keeps its data consistent

    The invariant of [pdnsd/src/cache.c]: the list holds exactly the record sets and negative
    entries that have a node, every entry counts its size and its sets right, the hash table
    finds every entry under its name, and [cache_size] and [ent_num] are the sums.  Every
    operation keeps it, reads nothing that was freed, and warns only about memory. *)

From stdpp Require Import sorting.
From S2P Require Import Prelude CInt DnsName DnsCompress RrTypes RrList DnsHash DnsCent DnsCache Contract.

(** ** Runs without an error

    The only message a run may log is that memory is out. *)
Definition quiet (e : log_event) (x : unit) : option unit :=
  match e with OUT_OF_CACHE_MEMORY => Some tt | _ => None end.
Definition safe {A} (m : C A) (Q : A → cache → Prop) (s : cache) : Prop := wp quiet m (λ a s' _, Q a s') s tt.

Section safe.
Context {A : Type}.
Implicit Types (Q : A → cache → Prop) (s : cache).
Lemma safe_mono (m : C A) Q Q' s : safe m Q s → (∀ a s', Q a s' → Q' a s') → safe m Q' s.
Proof. intros H HQ. eapply wp_mono; [exact H|]. intros. by apply HQ. Qed.
Lemma safe_ret (a : A) Q s : Q a s → safe (mret a) Q s.
Proof. intros. by exists a, s, [], tt. Qed.
Lemma safe_bind {B} (m : C B) (f : B → C A) Q s : safe m (λ b s', safe (f b) Q s') s → safe (m ≫= f) Q s.
Proof. intros H. apply wp_bind. eapply wp_mono; [exact H|]. by intros b s' []. Qed.
Lemma safe_need (o : option A) a Q s : o = Some a → Q a s → safe (need o) Q s.
Proof. intros -> ?. by apply safe_ret. Qed.
Lemma safe_on_mem (m : Mem A) a m' Q s :
  m (mem s) = Some (a, m', []) →
  Q a (mkCache m' (cents s) (hash s) (cache_size s) (ent_num s) (insert_sort s)) → safe (on_mem m) Q s.
Proof. intros Hm ?. eexists a, _, [], tt. split; [|done]. unfold on_mem. by rewrite Hm. Qed.
End safe.
Lemma safe_get (Q : cache → cache → Prop) s : Q s s → safe get Q s.
Proof. intros. by exists s, s, [], tt. Qed.
Lemma safe_modify f (Q : unit → cache → Prop) s : Q tt (f s) → safe (modify f) Q s.
Proof. intros. by exists tt, (f s), [], tt. Qed.
Lemma safe_load a c (Q : dns_cent_t → cache → Prop) s : cents s !! a = Some c → Q c s → safe (load a) Q s.
Proof. intros Hc ?. exists c, s, [], tt. split; [|done]. unfold load. by rewrite Hc. Qed.
Lemma safe_assert b (Q : unit → cache → Prop) s : b = true → Q tt s → safe (ASSERT b) Q s.
Proof. intros -> ?. by exists tt, s, [], tt. Qed.
Lemma safe_when b (m : C unit) (Q : unit → cache → Prop) s :
  (b = true → safe m Q s) → (b = false → Q tt s) → safe (when b m) Q s.
Proof. intros Ht Hf. destruct b; [by apply Ht|]. by apply safe_ret, Hf. Qed.
Lemma safe_warn (Q : unit → cache → Prop) s : Q tt s → safe warn Q s.
Proof. intros. by exists tt, s, [OUT_OF_CACHE_MEMORY], tt. Qed.

Ltac s_bind := apply safe_bind.
Ltac s_load H := apply safe_bind, (safe_load _ _ _ _ H).
Ltac s_need H := apply safe_bind, (safe_need _ _ _ _ H).
Ltac s_get := apply safe_bind, safe_get.
Ltac s_mod := apply safe_bind, safe_modify.

(** ** The invariant *)

(** What a node of the list points to: a set of the entry, or the entry itself. *)
Definition owner (c : dns_cent_t) (ro : option Z) (i le : Z) : Prop :=
  match ro with
  | Some a => 0 ≤ i ∧ ∃ s, slot c i = Some s ∧ addr s = a ∧ lent s = Some le
  | None => i = -1 ∧ neg_lent c = Some le
  end.

Record core (s : cache) (L : list Z) : Prop := {
  core_dll : dll (rl (mem s)) L;
  core_cent a c : cents s !! a = Some c → cent_ok c;
  core_lents le ro a i :
    targets (lents (rl (mem s))) !! le = Some (ro, a, i) ↔ ∃ c, cents s !! a = Some c ∧ owner c ro i le;
  core_brk le : le ∈ L → le < brk (mem s);
  core_addr a : is_Some (cents s !! a) → a < brk (mem s);
}.
(** The hash table holds every entry, except for the entries [X]. *)
Record table (X : gset Z) (s : cache) : Prop := {
  table_wf : wf (hash s);
  table_addr k d : contents_of (hash s) !! k = Some d →
    contents d ∉ X ∧ ∃ c, cents s !! contents d = Some c ∧ qname c = DnsHash.qname d;
  table_uniq k k' d d' : contents_of (hash s) !! k = Some d → contents_of (hash s) !! k' = Some d' →
    contents d = contents d' → k = k';
  table_all a c : cents s !! a = Some c → a ∉ X → ∃ k d, contents_of (hash s) !! k = Some d ∧ contents d = a;
  table_name a c : cents s !! a = Some c → ∃ nm, wf_name nm ∧ qname c = rhn nm;
}.
(** The sum of the sizes of the entries. *)
Definition total (m : gmap Z dns_cent_t) : Z := msum cs m.
Definition without (x : option Z) (m : gmap Z dns_cent_t) : gmap Z dns_cent_t :=
  match x with Some a => delete a m | None => m end.
(** The counters, when the entries [x] and [y] are not counted. *)
Record counts (x y : option Z) (s : cache) : Prop := {
  counts_size : cache_size s = total (without x (cents s));
  counts_num : ent_num s = Z.of_nat (size (without y (cents s)));
}.
(** The state of the cache with its list [L], when the sizes leave out the entry [x], the
    number of entries [y], and the hash table [X]. *)
Record invx (x y : option Z) (X : gset Z) (s : cache) (L : list Z) : Prop := {
  inv_core : core s L;
  inv_table : table X s;
  inv_counts : counts x y s;
}.
#[global] Arguments inv_core {x y X} s L _.
#[global] Arguments inv_table {x y X} s L _.
#[global] Arguments inv_counts {x y X} s L _.
Abbreviation inv := (invx None None ∅).

Lemma total_insert m a c : m !! a = None → total (<[a := c]> m) = cs c + total m.
Proof. apply msum_insert. Qed.
Lemma total_delete m a c : m !! a = Some c → total (delete a m) = total m - cs c.
Proof. apply msum_delete. Qed.
Lemma total_update m a c c' : m !! a = Some c → total (<[a := c']> m) = total m - cs c + cs c'.
Proof. apply msum_update. Qed.

(** ** Changing one entry *)

(** What stays when only memory and entries change. *)
Record frame (s s' : cache) : Prop := {
  frame_hash : hash s' = hash s;
  frame_size : cache_size s' = cache_size s;
  frame_num : ent_num s' = ent_num s;
  frame_sort : insert_sort s' = insert_sort s;
  frame_ok : mem_ok (mem s) → mem_ok (mem s');
}.
#[export] Instance frame_refl : Reflexive frame.
Proof. done. Qed.
#[export] Instance frame_trans : Transitive frame.
Proof. intros a b c [? ? ? ? ?] [? ? ? ? ?]. split; try congruence. auto. Qed.

(** An entry changes and loses the nodes [D]. *)
Lemma core_changed s s' L a c c' D :
  core s L → cents s !! a = Some c → dropped (mem s) (mem s') D → cents s' = <[a := c']> (cents s) → cent_ok c' →
  (∀ ro i le, owner c' ro i le ↔ owner c ro i le ∧ le ∉ D) → (∀ le, le ∈ D → ∃ ro i, owner c ro i le) →
  core s' (filter (λ p, p ∉ D) L).
Proof.
  intros [Hd Hc Hl Hb Ha] Hac Hdrop Hcents Hok Hown HD. destruct Hdrop as [Hbrk Hdll Htg _]. split.
  - by apply Hdll.
  - intros b cb. rewrite Hcents. intros [[<- <-]|[_ ?]]%lookup_insert_Some; eauto.
  - intros le ro b i. rewrite Htg, Hcents. split.
    + case_decide as Hle; [done|]. intros (cb & Hcb & Ho)%Hl. destruct (decide (b = a)) as [->|Hne].
      * exists c'. rewrite lookup_insert_eq. split; [done|]. apply Hown. rewrite Hac in Hcb. by injection Hcb as <-.
      * exists cb. by rewrite lookup_insert_ne.
    + intros (cb & [[<- <-]|[Hne Hcb]]%lookup_insert_Some & Ho).
      * apply Hown in Ho as [Ho Hle]. rewrite decide_False by done. apply Hl. by exists c.
      * assert (Ht : targets (lents (rl (mem s))) !! le = Some (ro, b, i)) by (apply Hl; by exists cb).
        rewrite decide_False; [done|]. intros (ro' & i' & Ho')%HD.
        assert (targets (lents (rl (mem s))) !! le = Some (ro', a, i')) by (apply Hl; by exists c). congruence.
  - intros le [_ Hle]%list_elem_of_filter. specialize (Hb _ Hle). lia.
  - intros b. rewrite Hcents. intros [cb [[<- <-]|[_ ?]]%lookup_insert_Some]; [specialize (Ha a ltac:(by eexists)); lia|].
    specialize (Ha b ltac:(by eexists)). lia.
Qed.
Lemma core_same s s' L a c c' :
  core s L → cents s !! a = Some c → dropped (mem s) (mem s') ∅ → cents s' = <[a := c']> (cents s) → cent_ok c' →
  (∀ ro i le, owner c' ro i le ↔ owner c ro i le) → core s' L.
Proof.
  intros Hcore Hac Hdrop Hcents Hok Hown. rewrite <-(filter_all ∅ L) by set_solver.
  eapply core_changed; try done. intros ro i le. rewrite Hown. set_solver.
Qed.
(** Memory alone changes. *)
Lemma core_mem s s' L : core s L → dropped (mem s) (mem s') ∅ → cents s' = cents s → core s' L.
Proof.
  intros [Hd Hc Hl Hb Ha] [Hbrk Hdll Htg _] Hcents. split; rewrite ?Hcents; try done.
  - specialize (Hdll L Hd). by rewrite filter_all in Hdll by set_solver.
  - intros le ro b i. rewrite Htg, decide_False by set_solver. apply Hl.
  - intros le Hle. specialize (Hb _ Hle). lia.
  - intros b Hb'. specialize (Ha b Hb'). lia.
Qed.
Lemma table_update X s s' a c c' :
  table X s → cents s !! a = Some c → cents s' = <[a := c']> (cents s) → qname c' = qname c → hash s' = hash s → table X s'.
Proof.
  intros [Hw Ha Hu Hall Hn] Hac Hcents Hq Hh. split; rewrite ?Hh, ?Hcents; try done.
  - intros k d Hd. destruct (Ha k d Hd) as (? & cd & Hcd & Hqd). split; [done|].
    destruct (decide (contents d = a)) as [He|Hne]; [|exists cd; by rewrite lookup_insert_ne].
    rewrite He in *. exists c'. rewrite lookup_insert_eq. split; [done|]. congruence.
  - intros b cb [[<- <-]|[_ Hb]]%lookup_insert_Some Hx; eauto.
  - intros b cb [[<- <-]|[_ Hb]]%lookup_insert_Some; [|eauto]. destruct (Hn _ _ Hac) as (nm & ? & ?).
    exists nm. split; [done|congruence].
Qed.

(** The nodes of an entry, as a list. *)
Lemma elem_of_nodes l le : le ∈ nodes_of l ↔ ∃ i s, l !! i = Some (Some s) ∧ lent s = Some le.
Proof.
  unfold nodes_of. rewrite list_elem_of_omap. split.
  - intros (v & Hv & Hl). destruct v as [s|]; [|done]. apply list_elem_of_lookup in Hv as [i Hi]. by exists i, s.
  - intros (i & s & Hi & Hl). exists (Some s). split; [by apply (list_elem_of_lookup_2 l i)|done].
Qed.
Lemma slot_all c i s : slot c i = Some s → all_slots c !! Z.to_nat i = Some (Some s).
Proof. unfold slot. destruct (all_slots c !! Z.to_nat i) as [[]|]; cbn; congruence. Qed.
Lemma elem_of_cent_nodes c le : cent_tag c → le ∈ cent_nodes c ↔ ∃ ro i, owner c ro i le.
Proof.
  intros Ht. unfold cent_nodes, owner, neg_lent, slot. unfold cent_tag in Ht. destruct (u c) as [l t s|mu ext] eqn:Hu.
  - assert (Hs : all_slots c = []) by (unfold all_slots; by rewrite Hu). split.
    + destruct l as [p|]; [|set_solver]. intros ->%list_elem_of_singleton. by exists None, (-1).
    + intros ([a|] & i & Ho).
      * destruct Ho as (_ & s' & Hs' & _). by rewrite Hs in Hs'.
      * destruct Ho as [_ ->]. by left.
  - rewrite elem_of_nodes. split.
    + intros (i & s & Hi & Hl). exists (Some (addr s)), (Z.of_nat i). split; [lia|]. exists s. by rewrite Nat2Z.id, Hi.
    + intros ([a|] & i & Ho); [|by destruct Ho]. destruct Ho as (_ & s & Hs & _ & Hl). exists (Z.to_nat i), s.
      split; [by apply slot_all|done].
Qed.
Lemma nodes_nodup l :
  (∀ i j s s' p, l !! i = Some (Some s) → l !! j = Some (Some s') → lent s = Some p → lent s' = Some p → i = j) → NoDup (nodes_of l).
Proof.
  induction l as [|v l IH]; intros H; [constructor|].
  assert (IH' : NoDup (nodes_of l)).
  { apply IH. intros i j s s' p Hi Hj Hp Hp'. assert (S i = S j); [|lia]. by eapply (H (S i) (S j)). }
  destruct v as [s|]; [|exact IH']. rewrite nodes_cons. destruct (lent s) as [p|] eqn:Hp; [|done]. constructor; [|done].
  intros (j & s' & Hj & Hl)%elem_of_nodes. by assert (0%nat = S j) by (by eapply (H 0%nat (S j))).
Qed.

Lemma core_target s L a c ro i le : core s L → cents s !! a = Some c → owner c ro i le →
  targets (lents (rl (mem s))) !! le = Some (ro, a, i).
Proof. intros Hcore Hc Ho. apply (core_lents _ _ Hcore). by exists c. Qed.
Lemma core_owner_in s L a c ro i le : core s L → cents s !! a = Some c → owner c ro i le → le ∈ L.
Proof.
  intros Hcore Hc Ho. pose proof (core_target _ _ _ _ _ _ _ Hcore Hc Ho) as Ht.
  apply (dll_dom _ _ (core_dll _ _ Hcore)). unfold targets in Ht. rewrite lookup_fmap in Ht.
  by destruct (lents (rl (mem s)) !! le).
Qed.
Lemma core_nodes s L a c : core s L → cents s !! a = Some c → NoDup (cent_nodes c) ∧ (∀ p, p ∈ cent_nodes c → p ∈ L).
Proof.
  intros Hcore Hc. pose proof (core_cent _ _ Hcore _ _ Hc) as Hok. pose proof (ok_tag _ Hok) as Ht. split.
  - unfold cent_nodes. destruct (u c) as [[p|] t0 s0|mu ext] eqn:Hu; [apply NoDup_singleton|constructor|].
    apply nodes_nodup. intros i j x x' p Hi Hj Hx Hx'.
    assert (Ho : ∀ k y, all_slots c !! k = Some (Some y) → lent y = Some p → owner c (Some (addr y)) (Z.of_nat k) p).
    { intros k y Hk Hy. split; [lia|]. exists y. unfold slot. by rewrite Nat2Z.id, Hk. }
    pose proof (core_target _ _ _ _ _ _ _ Hcore Hc (Ho _ _ Hi Hx)) as H1.
    pose proof (core_target _ _ _ _ _ _ _ Hcore Hc (Ho _ _ Hj Hx')) as H2. rewrite H1 in H2. injection H2 as _ H2. lia.
  - intros p (ro & i & Ho)%elem_of_cent_nodes; [|done]. by eapply core_owner_in.
Qed.

Lemma safe_on_cent {A} a c (f : dns_cent_t → Mem (A * dns_cent_t)) x c' m' (Q : A → cache → Prop) s :
  cents s !! a = Some c → f c (mem s) = Some ((x, c'), m', []) →
  Q x (mkCache m' (<[a := c']> (cents s)) (hash s) (cache_size s) (ent_num s) (insert_sort s)) → safe (on_cent a f) Q s.
Proof.
  intros Hc Hf HQ. unfold on_cent. s_load Hc. s_bind. apply (safe_on_mem _ _ _ _ _ Hf). s_bind.
  apply safe_modify. by apply safe_ret.
Qed.

(** The set at a place is gone. *)
Record gone (c c' : dns_cent_t) (i : Z) : Prop := {
  gone_ok : cent_ok c';
  gone_same : same_cent c c';
  gone_cs : cs c' = cs c - slot_size (slot c i);
  gone_slot j : 0 ≤ j → slot c' j = if j =? i then None else slot c j;
  gone_negative : negative c' = negative c;
  gone_neg_lent : neg_lent c' = neg_lent c;
  gone_num : num_slots c' = num_slots c;
}.
Lemma elem_of_slot_nodes v p : p ∈ slot_nodes v ↔ ∃ s, v = Some s ∧ lent s = Some p.
Proof.
  unfold slot_nodes, set_nodes, node_set. destruct v as [s|]; [|set_solver]. destruct (lent s) as [q|] eqn:E.
  - rewrite elem_of_singleton. split; [intros ->; by exists s|]. intros (s' & [= <-] & Hl). congruence.
  - split; [set_solver|]. intros (s' & [= <-] & Hl). congruence.
Qed.
Lemma gone_owner s L a c c' i ro j le :
  core s L → cents s !! a = Some c → gone c c' i → 0 ≤ i →
  owner c' ro j le ↔ owner c ro j le ∧ le ∉ slot_nodes (slot c i).
Proof.
  intros Hcore Hc [_ _ _ Hsl _ Hnl _] Hi.
  assert (Hi' : ∀ p, p ∈ slot_nodes (slot c i) → ∃ s', slot c i = Some s' ∧ lent s' = Some p ∧ owner c (Some (addr s')) i p).
  { intros p (s' & Hs' & Hl)%elem_of_slot_nodes. exists s'. split; [done|]. split; [done|]. split; [done|]. by exists s'. }
  assert (Hne : ∀ ro' j' p, owner c ro' j' p → j' ≠ i → p ∉ slot_nodes (slot c i)).
  { intros ro' j' p Ho Hj (s' & _ & _ & Ho')%Hi'. pose proof (core_target _ _ _ _ _ _ _ Hcore Hc Ho).
    pose proof (core_target _ _ _ _ _ _ _ Hcore Hc Ho'). congruence. }
  destruct ro as [x|]; cbn [owner].
  - split.
    + intros (Hj & s' & Hs' & Hx & Hl). rewrite Hsl in Hs' by done. zif (j =? i); [done|].
      assert (Ho : owner c (Some x) j le) by (split; [done|]; by exists s'). split; [exact Ho|]. by eapply Hne.
    + intros [(Hj & s' & Hs' & Hx & Hl) Hn]. split; [done|]. exists s'. rewrite Hsl by done.
      zif (j =? i); [|done]. subst j. exfalso. apply Hn, elem_of_slot_nodes. by exists s'.
  - rewrite Hnl. split; [|tauto]. intros [-> Hl]. split; [done|]. apply (Hne None (-1)); [done|lia].
Qed.
Lemma del_at_spec s L a c i :
  core s L → cents s !! a = Some c → 0 ≤ i < NRRTOT →
  safe (on_cent a (λ c, del_cent_rrset_by_index c i)) (λ n s', n = slot_size (slot c i) ∧ frame s s' ∧
    core s' (filter (λ p, p ∉ slot_nodes (slot c i)) L) ∧ ∃ c', cents s' = <[a := c']> (cents s) ∧ gone c c' i) s.
Proof.
  intros Hcore Hc Hi. pose proof (core_cent _ _ Hcore _ _ Hc) as Hok.
  destruct (del_cent_rrset_spec (mem s) c i L Hok Hi (core_dll _ _ Hcore)) as
    (c' & m' & Hm & Hma & Hd & Hok' & Hsame & Hcs & Hsl & Hn & _ & Hnl & Hns).
  { intros s' p Hs' Hp. apply (core_owner_in s L a c (Some (addr s')) i p Hcore Hc). split; [lia|]. by exists s'. }
  assert (Hg : gone c c' i) by done.
  eapply safe_on_cent; [exact Hc|exact Hm|]. split; [done|]. split; [split; try done; apply Hd|]. split; [|by exists c'].
  eapply core_changed; [exact Hcore|exact Hc|exact Hd|done|done| |].
  - intros ro j le. by eapply gone_owner; [| | |lia].
  - intros le (s' & Hs' & Hl)%elem_of_slot_nodes. exists (Some (addr s')), i. split; [lia|]. by exists s'.
Qed.

(** ** Steps that keep the invariant *)

Lemma core_eq s s' L : core s L → mem s' = mem s → cents s' = cents s → core s' L.
Proof. intros [? ? ? ? ?] Hm Hc. split; rewrite ?Hm, ?Hc; done. Qed.
Lemma counts_update x y s s' a c c' :
  counts x y s → cents s !! a = Some c → cents s' = <[a := c']> (cents s) → ent_num s' = ent_num s →
  cache_size s' = cache_size s + (if decide (x = Some a) then 0 else cs c' - cs c) → counts x y s'.
Proof.
  intros [Hs Hn] Hc Hcents He Hsz. split.
  - rewrite Hsz, Hs, Hcents. destruct x as [b|]; cbn [without].
    + destruct (decide (Some b = Some a)) as [[= ->]|Hne]; [rewrite delete_insert_eq; lia|].
      rewrite delete_insert_ne, (total_update _ _ c) by (rewrite ?lookup_delete_ne; congruence). lia.
    + rewrite decide_False by done. rewrite (total_update _ _ c c' Hc). lia.
  - rewrite He, Hn, Hcents. f_equal. destruct y as [b|]; cbn [without].
    + destruct (decide (b = a)) as [->|Hne]; [by rewrite delete_insert_eq|].
      rewrite delete_insert_ne by done. rewrite map_size_insert_Some; [done|]. by rewrite lookup_delete_ne.
    + rewrite map_size_insert_Some; done.
Qed.
Lemma inv_update s s' L L' a c c' :
  inv s L → cents s !! a = Some c → core s' L' → cents s' = <[a := c']> (cents s) → qname c' = qname c →
  hash s' = hash s → ent_num s' = ent_num s → cache_size s' = cache_size s + (cs c' - cs c) → inv s' L'.
Proof.
  intros [_ Ht Hn] Hc Hcore Hcents Hq Hh He Hsz. split; [done|by eapply table_update|]. by eapply counts_update.
Qed.

Lemma list_size s L : core s L → size (lents (rl (mem s))) = length L.
Proof. intros H. symmetry. apply dll_length, H. Qed.
Definition list_len (s : cache) : nat := size (lents (rl (mem s))).

(** A set is taken out of an entry, and counted. *)
Record set_gone (s s' : cache) (L L' : list Z) (a : Z) (c : dns_cent_t) (i : Z) : Prop := {
  sg_inv : inv s' L';
  sg_list : L' = filter (λ p, p ∉ slot_nodes (slot c i)) L;
  sg_cent : ∃ c', cents s' = <[a := c']> (cents s) ∧ gone c c' i;
  sg_hash : hash s' = hash s;
  sg_num : ent_num s' = ent_num s;
  sg_sort : insert_sort s' = insert_sort s;
  sg_len : (list_len s' ≤ list_len s)%nat;
  sg_ok : mem_ok (mem s) → mem_ok (mem s');
}.
Lemma del_counted_spec s L a c i :
  inv s L → cents s !! a = Some c → 0 ≤ i < NRRTOT →
  safe (n ← on_cent a (λ c, del_cent_rrset_by_index c i); add_size (- n))
    (λ _ s', set_gone s s' L (filter (λ p, p ∉ slot_nodes (slot c i)) L) a c i) s.
Proof.
  intros Hinv Hc Hi. s_bind. eapply safe_mono; [by apply (del_at_spec s L a c i (inv_core _ _ Hinv) Hc Hi)|].
  cbn beta. intros n s' (-> & [Hh Hs He Hso Hmo] & Hcore & c' & Hcents & Hg). apply safe_modify.
  assert (Hinv' : inv (mkCache (mem s') (cents s') (hash s') (cache_size s' + - slot_size (slot c i)) (ent_num s') (insert_sort s'))
    (filter (λ p, p ∉ slot_nodes (slot c i)) L)); [|split; try done; [by exists c'|]].
  2: { unfold list_len. rewrite (list_size _ _ (inv_core _ _ Hinv')), (list_size _ _ (inv_core _ _ Hinv)). apply length_filter. }
  eapply inv_update; [exact Hinv|exact Hc|by apply (core_eq s')|exact Hcents|apply Hg|done|done|].
  cbn [cache_size]. destruct Hg as [_ _ -> _ _ _ _]. lia.
Qed.

Section ops.
Context (global : globparm_t) (now : Z).

Lemma purge_rrset_spec s L a c i test :
  inv s L → cents s !! a = Some c → 0 ≤ i < NRRTOT →
  safe (purge_rrset now a i test) (λ r s',
    r = match slot c i with Some x => must_go now x | None => false end ∧
    if r && negb test then set_gone s s' L (filter (λ p, p ∉ slot_nodes (slot c i)) L) a c i else s' = s) s.
Proof.
  intros Hinv Hc Hi. unfold purge_rrset. s_load Hc.
  s_need (testext_slot c i (ok_tag _ (core_cent _ _ (inv_core _ _ Hinv) _ _ Hc)) Hi).
  destruct (slot c i) as [x|] eqn:Hx; [|by apply safe_ret].
  destruct (must_go now x) eqn:Hgo; [|by apply safe_ret]. s_bind. apply safe_when; intros Ht.
  - rewrite <-Hx. eapply safe_mono; [by apply (del_counted_spec s L a c i)|]. cbn beta. intros _ s' Hg. apply safe_ret.
    split; [done|]. by rewrite Ht.
  - apply safe_ret. by rewrite Ht.
Qed.

(** The sets that are not timed out. *)
Definition kept (v : option rr_set_t) : option rr_set_t :=
  match v with Some x => if must_go now x then None else Some x | None => None end.
Definition count_kept (c : dns_cent_t) (j : Z) : Z := slot_num (kept (slot c j)).
Definition count_gone (c : dns_cent_t) (j : Z) : Z := slot_num (slot c j) - slot_num (kept (slot c j)).
Definition count_ext (c : dns_cent_t) (j : Z) : Z := if j >=? NRRMU then count_kept c j else 0.
(** [rv], [numrrs] and [numrrext] after the places from [i] on *)
Definition purge_counts (c : dns_cent_t) (i : Z) (n : nat) (rv nr nx : Z) : Z * Z * Z :=
  (rv + zsum (count_gone c) (seqZ i (Z.of_nat n)), nr + zsum (count_kept c) (seqZ i (Z.of_nat n)),
   nx + zsum (count_ext c) (seqZ i (Z.of_nat n))).
Lemma purge_counts_next c i n rv nr nx :
  purge_counts c i (S n) rv nr nx =
  purge_counts c (i + 1) n (rv + count_gone c i) (nr + count_kept c i) (nx + count_ext c i).
Proof.
  unfold purge_counts. rewrite seqZ_cons by lia. replace (Z.succ i) with (i + 1) by lia.
  replace (Z.pred (Z.of_nat (S n))) with (Z.of_nat n) by lia. by rewrite !zsum_cons, !Z.add_assoc.
Qed.
Lemma purge_counts_ext c c' i n rv nr nx :
  (∀ j, i ≤ j → slot c' j = slot c j) → purge_counts c' i n rv nr nx = purge_counts c i n rv nr nx.
Proof.
  intros H. unfold purge_counts, count_gone, count_ext, count_kept.
  f_equal; [f_equal|]; f_equal; apply zsum_ext; intros j [Hj _]%elem_of_seqZ; by rewrite H.
Qed.

(** The sets that are timed out are taken out of an entry, from the place [i] on. *)
Record purged (s s' : cache) (L' : list Z) (a : Z) (c c' : dns_cent_t) (i : Z) : Prop := {
  pu_inv : inv s' L';
  pu_cents : cents s' = <[a := c']> (cents s);
  pu_same : same_cent c c';
  pu_negative : negative c' = negative c;
  pu_slot j : 0 ≤ j → slot c' j = if j <? i then slot c j else kept (slot c j);
  pu_hash : hash s' = hash s;
  pu_num : ent_num s' = ent_num s;
  pu_sort : insert_sort s' = insert_sort s;
  pu_len : (list_len s' ≤ list_len s)%nat;
  pu_ok : mem_ok (mem s) → mem_ok (mem s');
}.
Lemma purged_refl s L a c i :
  inv s L → cents s !! a = Some c → (∀ j, i ≤ j → kept (slot c j) = slot c j) → purged s s L a c c i.
Proof.
  intros ? ? Hk. split; try done; [by rewrite insert_id|]. intros j Hj. zif (j <? i); [done|]. by rewrite Hk.
Qed.
Lemma purged_next s s' L' a c c' i :
  purged s s' L' a c c' (i + 1) → kept (slot c i) = slot c i → purged s s' L' a c c' i.
Proof.
  intros [] Hk. split; try done. intros j Hj. rewrite pu_slot0 by done.
  zif (j <? i + 1); zif (j <? i); try lia; try done. by replace j with i by lia.
Qed.
Lemma set_gone_purged s s1 s' L L1 L' a c i c' :
  set_gone s s1 L L1 a c i → kept (slot c i) = None →
  (∀ c1, cents s1 = <[a := c1]> (cents s) → gone c c1 i → purged s1 s' L' a c1 c' (i + 1)) → purged s s' L' a c c' i.
Proof.
  intros [Hinv1 HL (c1 & Hc1 & Hg) Hh Hnm Hso Hle Hmo] Hk Hp. destruct (Hp c1 Hc1 Hg). split; try done; try congruence; try lia; auto.
  - rewrite pu_cents0, Hc1. by rewrite insert_insert_eq.
  - etrans; [apply Hg|done].
  - rewrite pu_negative0. apply Hg.
  - intros j Hj. rewrite pu_slot0 by done. rewrite (gone_slot _ _ _ Hg) by done.
    zif (j <? i + 1); zif (j <? i); zif (j =? i); try lia; try done. by subst j.
Qed.

Lemma purge_sets_spec n s L a c i test rv nr nx :
  inv s L → cents s !! a = Some c → 0 ≤ i → i + Z.of_nat n = num_slots c →
  safe (purge_sets now n a i test rv nr nx) (λ r s', r = purge_counts c i n rv nr nx ∧
    if test then s' = s else ∃ c' L', purged s s' L' a c c' i ∧ num_slots c' = num_slots c) s.
Proof.
  revert s L c i rv nr nx.
  induction n as [|n IH]; intros s L c i rv nr nx Hinv Hc Hi Hn; pose proof (core_cent _ _ (inv_core _ _ Hinv) _ _ Hc) as Hok.
  { apply safe_ret. split; [by unfold purge_counts; rewrite !Z.add_0_r|]. destruct test; [done|]. exists c, L.
    split; [|done]. apply purged_refl; try done. intros j Hj. by rewrite (slot_ge c j) by (unfold num_slots in Hn; lia). }
  pose proof (num_slots_le c (ok_tag _ Hok)) as Hle. rewrite purge_counts_next. unfold count_gone, count_ext, count_kept.
  assert (Hkeep : ∀ rv' nr' nx', kept (slot c i) = slot c i →
    safe (purge_sets now n a (i + 1) test rv' nr' nx') (λ r s', r = purge_counts c (i + 1) n rv' nr' nx' ∧
      if test then s' = s else ∃ c' L', purged s s' L' a c c' i ∧ num_slots c' = num_slots c) s).
  { intros rv' nr' nx' Hk. eapply safe_mono; [apply (IH s L c (i + 1)); try done; lia|]. cbn beta. intros r s' [-> Hr].
    split; [done|]. destruct test; [done|]. destruct Hr as (c' & L' & Hp & ?). exists c', L'. split; [by apply purged_next|done]. }
  cbn [purge_sets]. s_load Hc. s_need (index_slot c i (ok_tag _ Hok) ltac:(lia)).
  destruct (slot c i) as [x|] eqn:Hx.
  2: { cbn. replace (if i >=? NRRMU then 0 else 0) with 0 by (by destruct (i >=? NRRMU)). rewrite !Z.add_0_r. by apply Hkeep. }
  unfold kept in Hkeep |- *. destruct (must_go now x) eqn:Hgo.
  2: { cbn. replace (rv + _) with rv by lia. replace (nx + (if i >=? NRRMU then 1 else 0)) with (if i >=? NRRMU then nx + 1 else nx); [by apply Hkeep|].
       destruct (i >=? NRRMU); lia. }
  change (slot_num (Some x)) with 1. change (slot_num None) with 0.
  replace (if i >=? NRRMU then 0 else 0) with 0 by (by destruct (i >=? NRRMU)). rewrite !Z.add_0_r, Z.sub_0_r.
  s_bind. destruct test; cbn [negb when].
  - apply safe_ret. eapply safe_mono; [apply (IH s L c (i + 1)); try done; lia|]. cbn beta. by intros r s' [-> Hr].
  - eapply safe_mono; [apply (del_counted_spec s L a c i); [done|done|lia]|]. cbn beta. intros _ s1 Hsg.
    destruct (sg_cent _ _ _ _ _ _ _ Hsg) as (c1 & Hc1 & Hg).
    assert (Hc1' : cents s1 !! a = Some c1) by (rewrite Hc1; apply lookup_insert_eq).
    eapply safe_mono; [apply (IH s1 _ c1 (i + 1) _ _ _ (sg_inv _ _ _ _ _ _ _ Hsg) Hc1'); [lia|]; rewrite (gone_num _ _ _ Hg); lia|].
    cbn beta. intros r s' [-> (c' & L' & Hp & Hns)]. split.
    + apply purge_counts_ext. intros j Hj. rewrite (gone_slot _ _ _ Hg) by lia. zif (j =? i); [lia|done].
    + exists c', L'. split; [|rewrite Hns; apply Hg]. eapply set_gone_purged; [exact Hsg|unfold kept; by rewrite Hx, Hgo|]. intros c2 Hc2 Hg2.
      assert (c2 = c1) as ->; [|done]. apply (f_equal (λ m, m !! a)) in Hc2. rewrite lookup_insert_eq in Hc2. congruence.
Qed.

Lemma slots_list c : all_slots c = map (slot c) (seqZ 0 (num_slots c)).
Proof.
  apply list_eq. intros k. rewrite list_lookup_fmap. destruct (decide (Z.of_nat k < num_slots c)) as [Hk|Hk].
  - rewrite lookup_seqZ_lt by lia. cbn [fmap option_fmap option_map]. pose proof (all_slots_lookup c (Z.of_nat k) ltac:(lia)) as H.
    rewrite Nat2Z.id in H. by rewrite Z.add_0_l.
  - rewrite lookup_seqZ_ge by lia. apply lookup_ge_None. unfold num_slots, zlen in Hk. lia.
Qed.
Lemma num_rrs_seq c : cent_ok c → num_rrs c = zsum (λ j, slot_num (slot c j)) (seqZ 0 (num_slots c)).
Proof.
  intros Hok. rewrite (ok_num _ Hok). rewrite slots_list at 1. induction (seqZ 0 (num_slots c)) as [|j l IH]; [done|].
  cbn [map]. by rewrite !zsum_cons, IH.
Qed.
Lemma num_rrs_zero c : cent_ok c → num_rrs c = 0 ↔ ∀ i, 0 ≤ i → slot c i = None.
Proof.
  intros Hok. rewrite (num_rrs_seq _ Hok), zsum_zero. 2: { intros j _. by destruct (slot c j). } split.
  - intros H i Hi. destruct (decide (i < num_slots c)); [|apply slot_ge; unfold num_slots in *; lia].
    specialize (H i ltac:(apply elem_of_seqZ; lia)). by destruct (slot c i).
  - intros H j [Hj _]%elem_of_seqZ. by rewrite H.
Qed.
Lemma kept_num v : 0 ≤ slot_num (kept v) ≤ slot_num v.
Proof. destruct v as [x|]; cbn; [|lia]. destruct (must_go now x); cbn; lia. Qed.
Lemma kept_same v : slot_num v - slot_num (kept v) = 0 → kept v = v.
Proof. destruct v as [x|]; [|done]. cbn. by destruct (must_go now x). Qed.

(** The array of the rare types is freed. *)
Lemma drop_ext c mu ext :
  cent_ok c → u c = rr mu (Some ext) → (∀ j, NRRMU ≤ j → slot c j = None) →
  let c' := add_cs (with_u c (rr mu None)) (- (sizeof_ptr * NRREXT)) in
  cent_ok c' ∧ ∀ j, 0 ≤ j → slot c' j = slot c j.
Proof.
  intros [Htag Hcs Hnum] Hu Hnone c'. unfold cent_tag in Htag. rewrite Hu in Htag. destruct Htag as (Hneg & Hmu & Hext).
  assert (He : ∀ v, v ∈ ext → v = None).
  { intros v [k Hk]%list_elem_of_lookup. pose proof (lookup_lt_Some _ _ _ Hk) as Hlt.
    specialize (Hnone (NRRMU + Z.of_nat k) ltac:(unfold NRRMU; lia)). unfold slot, all_slots in Hnone. rewrite Hu in Hnone.
    cbn [default from_option id] in Hnone. rewrite lookup_app_r in Hnone by (unfold zlen in Hmu; lia).
    replace (Z.to_nat (NRRMU + Z.of_nat k) - length mu)%nat with k in Hnone by (unfold zlen in Hmu; lia).
    rewrite Hk in Hnone. exact Hnone. }
  assert (Hz : ∀ f : option rr_set_t → Z, f None = 0 → zsum f ext = 0).
  { intros f Hf. rewrite (zsum_ext f (λ _, 0)); [|intros v ->%He; done]. clear. induction ext; [done|]. by rewrite zsum_cons, IHext. }
  unfold cent_size, ext_size, all_slots in Hcs, Hnum. rewrite Hu in Hcs, Hnum. cbn [from_option id] in Hcs, Hnum.
  rewrite zsum_app, Hz in Hcs, Hnum by done. split.
  - split; [done| |].
    + unfold cent_size, ext_size, all_slots. subst c'. cbn [from_option id add_cs with_u u cs qname]. rewrite app_nil_r. lia.
    + unfold all_slots. subst c'. cbn [from_option id add_cs with_u u num_rrs]. rewrite app_nil_r. lia.
  - intros j Hj. unfold slot, all_slots. subst c'. rewrite Hu. cbn [from_option id add_cs with_u u]. rewrite app_nil_r.
    destruct (decide (j < NRRMU)) as [Hlt|Hge]; [by rewrite lookup_app_l by (unfold zlen in Hmu; lia)|].
    specialize (Hnone j ltac:(lia)). unfold slot, all_slots in Hnone. rewrite Hu in Hnone. cbn [from_option id] in Hnone.
    rewrite Hnone, lookup_ge_None_2; [done|]. unfold zlen in Hmu. lia.
Qed.

Definition purged_none (c : dns_cent_t) : Prop := ∀ j, 0 ≤ j → kept (slot c j) = slot c j.
Lemma purge_all_rrsets_spec s L a c test :
  inv s L → cents s !! a = Some c →
  safe (purge_all_rrsets now a test) (λ r s',
    (r.2 = 0 → ∀ j, 0 ≤ j → kept (slot c j) = None) ∧ (r.1 = 0 → purged_none c) ∧ (negative c = true → r = (0, 0)) ∧ 0 ≤ r.1 ∧
    if test then s' = s else ∃ c' L', purged s s' L' a c c' 0 ∧ (negative c = true → c' = c)) s.
Proof.
  intros Hinv Hc. pose proof (core_cent _ _ (inv_core _ _ Hinv) _ _ Hc) as Hok. pose proof (ok_tag _ Hok) as Htag.
  unfold purge_all_rrsets. s_load Hc. destruct (negative c) eqn:Hneg.
  { assert (Hk : ∀ j, slot c j = None) by (intros; by apply slot_negative). apply safe_ret. split; [intros; by rewrite Hk|].
    split; [intros _ j _; by rewrite Hk|]. split; [done|]. split; [done|]. destruct test; [done|]. exists c, L.
    split; [|done]. apply purged_refl; try done. intros j _. by rewrite Hk. }
  s_need (RRARR_LEN_slots c Htag). s_bind.
  assert (Hn : Z.of_nat (Z.to_nat (num_slots c)) = num_slots c) by (unfold num_slots, zlen; lia).
  eapply safe_mono; [apply (purge_sets_spec _ s L a c 0 test 0 0 0 Hinv Hc); [done|rewrite Hn; done]|]. cbn beta. intros r s1 [-> Hs1].
  unfold purge_counts. rewrite !Z.add_0_l, Hn. cbn beta iota.
  set (rv := zsum (count_gone c) _). set (nr := zsum (count_kept c) _). set (nx := zsum (count_ext c) _).
  assert (Hrv : 0 ≤ rv). { apply zsum_nonneg. intros j _. unfold count_gone. pose proof (kept_num (slot c j)). lia. }
  assert (Hnr : nr = 0 → ∀ j, 0 ≤ j → kept (slot c j) = None).
  { intros Hz j Hj. destruct (decide (j < num_slots c)); [|rewrite (slot_ge c j); [done|unfold num_slots in *; lia]].
    apply (zsum_zero (count_kept c)) with (x := j) in Hz; [|intros; apply kept_num|apply elem_of_seqZ; lia].
    unfold count_kept in Hz. by destruct (kept (slot c j)). }
  assert (Hrz : rv = 0 → purged_none c).
  { intros Hz j Hj. destruct (decide (j < num_slots c)); [|rewrite (slot_ge c j); [done|unfold num_slots in *; lia]].
    apply (zsum_zero (count_gone c)) with (x := j) in Hz; [by apply kept_same| |apply elem_of_seqZ; lia].
    intros i _. unfold count_gone. pose proof (kept_num (slot c i)). lia. }
  assert (Hnx : nx = 0 → ∀ j, NRRMU ≤ j → kept (slot c j) = None).
  { intros Hz j Hj. destruct (decide (j < num_slots c)); [|rewrite (slot_ge c j); [done|unfold num_slots in *; lia]].
    apply (zsum_zero (count_ext c)) with (x := j) in Hz; [| |apply elem_of_seqZ; unfold NRRMU in *; lia].
    - unfold count_ext, count_kept in Hz. replace (j >=? NRRMU) with true in Hz by (unfold NRRMU in *; lia). by destruct (kept (slot c j)).
    - intros i _. unfold count_ext, count_kept. pose proof (kept_num (slot c i)). destruct (i >=? NRRMU); lia. }
  assert (H1 : ∃ c1, cents s1 !! a = Some c1 ∧ cent_ok c1 ∧ negative c1 = false ∧
    if test then s1 = s ∧ c1 = c else ∃ L1, purged s s1 L1 a c c1 0).
  { destruct test; [subst s1; by exists c|]. destruct Hs1 as (c1 & L1 & Hp & _). exists c1. pose proof (pu_cents _ _ _ _ _ _ _ Hp) as Hcc.
    assert (Hc1 : cents s1 !! a = Some c1) by (rewrite Hcc; apply lookup_insert_eq). split; [done|].
    split; [apply (core_cent _ _ (inv_core _ _ (pu_inv _ _ _ _ _ _ _ Hp)) _ _ Hc1)|]. split; [|by exists L1].
    rewrite (pu_negative _ _ _ _ _ _ _ Hp). done. }
  clear Hs1. destruct H1 as (c1 & Hc1 & Hok1 & Hneg1 & Hcase). s_load Hc1.
  pose proof (ok_tag _ Hok1) as Htag1. unfold cent_tag in Htag1. destruct (u c1) as [|mu ext] eqn:Hu1; [congruence|].
  assert (Hr1 : rr_of c1 = Some (mu, ext)) by (unfold rr_of; by rewrite Hu1). s_need Hr1. cbn [fst snd].
  assert (Hsame : if test then s1 = s else ∃ c' L', purged s s1 L' a c c' 0 ∧ (false = true → c' = c)).
  { destruct test; [apply Hcase|]. destruct Hcase as [L1 ?]. by exists c1, L1. }
  destruct ext as [ext|]; [|by apply safe_ret]. zif (nx =? 0); [|by apply safe_ret]. s_bind. apply safe_when; intros Ht.
  2: { apply safe_ret. split; [done|]. split; [cbn; lia|]. split; [done|]. split; [cbn; lia|]. by destruct test. }
  destruct test; [done|]. destruct Hcase as (L1 & Hp). destruct (drop_ext c1 mu ext Hok1 Hu1) as [Hok2 Hsl2].
  { intros j Hj. rewrite (pu_slot _ _ _ _ _ _ _ Hp) by (unfold NRRMU in *; lia). zif (j <? 0); [unfold NRRMU in *; lia|]. by apply Hnx. }
  set (c2 := add_cs _ _) in *. s_bind. apply safe_modify, safe_modify, safe_ret. split; [done|]. split; [cbn; lia|]. split; [done|]. split; [cbn; lia|].
  assert (Hown : ∀ ro i le, owner c2 ro i le ↔ owner c1 ro i le).
  { intros [x|] i le; cbn [owner].
    - split; intros [Hi Hx]; (split; [done|]); [rewrite Hsl2 in Hx by done|rewrite Hsl2 by done]; done.
    - unfold neg_lent, c2. cbn [add_cs with_u u]. by rewrite Hu1. }
  exists c2, L1. split; [|done]. destruct Hp. split; cbn [hash cents ent_num insert_sort]; try done.
  - eapply inv_update; [exact pu_inv0|exact Hc1| |done|done|done|done|cbn [cache_size cs c2 add_cs with_u]; lia].
    eapply core_same; [apply pu_inv0|exact Hc1|apply dropped_refl|done|done|done].
  - rewrite pu_cents0. by rewrite insert_insert_eq.
  - by destruct pu_same0.
  - intros j Hj. rewrite Hsl2 by done. by apply pu_slot0.
Qed.
End ops.

(** ** The hash table *)

(** What the place that [dns_lookup] gives is good for. *)
Record place_of (t : ctable) (nm : list bytes) (loc : dns_hash_loc_t) : Prop := {
  place_add mem (d : DnsHash.dns_cent_t Z) nm' : contents_of t !! fold_name nm = None → wf_name nm' → DnsHash.qname d = rhn nm' → same_name nm nm' →
    ∃ t', add_dns_hash mem d loc t = Some (mem, t') ∧ wf t' ∧
      contents_of t' = if mem then <[fold_name nm := d]> (contents_of t) else contents_of t;
  place_del d : contents_of t !! fold_name nm = Some d →
    ∃ t', del_dns_hash_ent loc t = Some (d, t') ∧ wf t' ∧ contents_of t' = delete (fold_name nm) (contents_of t);
}.
Definition find (s : cache) (nm : list bytes) : option Z := contents <$> contents_of (hash s) !! fold_name nm.
Lemma lookup_ent_spec s nm :
  wf (hash s) → wf_name nm → safe (lookup_ent (rhn nm)) (λ r s', s' = s ∧ r.1 = find s nm ∧ place_of (hash s) nm r.2) s.
Proof.
  intros Hwf Hnm. destruct (table_ops (hash s) nm Hwf Hnm) as (loc & Hlk & Hadd & Hdel & _). unfold lookup_ent. s_get. s_need Hlk.
  apply safe_ret. split; [done|]. split; [done|]. by split.
Qed.
Lemma wf_key (t : ctable) k d nm : wf t → contents_of t !! k = Some d → wf_name nm → DnsHash.qname d = rhn nm → k = fold_name nm.
Proof. intros Hwf (he & _ & <- & <-)%contents_lookup Hnm Hq; [|done]. by apply key_name. Qed.
Lemma table_find X s a c nm :
  table X s → cents s !! a = Some c → a ∉ X → wf_name nm → qname c = rhn nm →
  ∃ d, contents_of (hash s) !! fold_name nm = Some d ∧ contents d = a.
Proof.
  intros Ht Hc Hx Hnm Hq. destruct (table_all _ _ Ht _ _ Hc Hx) as (k & d & Hd & <-). exists d. split; [|done].
  destruct (table_addr _ _ Ht _ _ Hd) as (_ & c' & Hc' & Hqd). rewrite Hc in Hc'. injection Hc' as <-.
  assert (k = fold_name nm) as <-; [|done]. apply (wf_key (hash s) k d); [apply Ht|done|done|congruence].
Qed.
Lemma find_cent X s nm a : table X s → find s nm = Some a → ∃ c, cents s !! a = Some c ∧ a ∉ X.
Proof.
  intros Ht. unfold find. destruct (contents_of (hash s) !! fold_name nm) as [d|] eqn:Hd; intros [= <-].
  destruct (table_addr _ _ Ht _ _ Hd) as (? & c & ? & _). by exists c.
Qed.
Lemma table_remove X s s' k d :
  table X s → contents_of (hash s) !! k = Some d → wf (hash s') → contents_of (hash s') = delete k (contents_of (hash s)) →
  cents s' = cents s → table ({[contents d]} ∪ X) s'.
Proof.
  intros [_ Ha Hu Hall Hn] Hd Hwf Hcon Hc. split; rewrite ?Hcon, ?Hc; try done.
  - intros k' d' [Hne Hd']%lookup_delete_Some. destruct (Ha _ _ Hd') as [Hx ?]. split; [|done].
    intros [Hin%elem_of_singleton|?]%elem_of_union; [|done]. by apply Hne, (Hu _ _ _ _ Hd Hd').
  - intros k1 k2 d1 d2 [_ H1]%lookup_delete_Some [_ H2]%lookup_delete_Some. by apply (Hu _ _ _ _ H1 H2).
  - intros a c Hac Hx. destruct (Hall a c Hac ltac:(set_solver)) as (k' & d' & Hd' & <-). exists k', d'. split; [|done].
    apply lookup_delete_Some. split; [|done]. intros <-. rewrite Hd in Hd'. injection Hd' as <-. set_solver.
Qed.
Lemma table_delete X s s' a :
  table X s → a ∈ X → cents s' = delete a (cents s) → hash s' = hash s → table (X ∖ {[a]}) s'.
Proof.
  intros [Hw Ha Hu Hall Hn] Hx Hc Hh. split; rewrite ?Hh, ?Hc; try done.
  - intros k d Hd. destruct (Ha k d Hd) as (Hni & c & Hcd & Hq). split; [set_solver|]. exists c.
    split; [|done]. apply lookup_delete_Some. split; [|done]. intros ->. done.
  - intros b c [Hne Hb]%lookup_delete_Some Hnx. apply (Hall b c Hb). set_solver.
  - intros b c [Hne Hb]%lookup_delete_Some. by apply (Hn b c).
Qed.
Lemma core_delete s s' L a c :
  core s L → cents s !! a = Some c → dropped (mem s) (mem s') (list_to_set (cent_nodes c)) → cents s' = delete a (cents s) →
  core s' (filter (λ p, p ∉ (list_to_set (cent_nodes c) : gset Z)) L).
Proof.
  intros Hcore Hc Hd Hcents. pose proof (core_cent _ _ Hcore _ _ Hc) as Hok.
  assert (Hnode : ∀ le, le ∈ (list_to_set (cent_nodes c) : gset Z) ↔ ∃ ro i, owner c ro i le).
  { intros le. rewrite elem_of_list_to_set. apply elem_of_cent_nodes, Hok. }
  destruct Hcore as [Hdl Hcok Hl Hb Ha]. destruct Hd as [Hbrk Hdll Htg _]. split.
  - by apply Hdll.
  - intros b cb. rewrite Hcents. intros [_ ?]%lookup_delete_Some. eauto.
  - intros le ro b i. rewrite Htg, Hcents. destruct (decide (le ∈ (list_to_set (cent_nodes c) : gset Z))) as [Hin|Hni].
    + split; [done|]. apply Hnode in Hin as (ro' & i' & Ho'). intros (cb & [Hne Hcb]%lookup_delete_Some & Ho).
      pose proof (proj2 (Hl le ro b i) ltac:(eauto)). pose proof (proj2 (Hl le ro' a i') ltac:(eauto)). congruence.
    + rewrite Hl. split; intros (cb & Hcb & Ho); exists cb; (split; [|done]).
      * apply lookup_delete_Some. split; [|done]. intros <-. rewrite Hc in Hcb. injection Hcb as <-. apply Hni, Hnode. eauto.
      * by apply lookup_delete_Some in Hcb as [_ ?].
  - intros le [_ Hle]%list_elem_of_filter. specialize (Hb _ Hle). lia.
  - intros b. rewrite Hcents. intros [cb [_ Hcb]%lookup_delete_Some]. specialize (Ha b ltac:(by eexists)). lia.
Qed.

(** [free_cent] frees what points to an entry. *)
Lemma free_spec s L a c (Q : unit → cache → Prop) :
  core s L → cents s !! a = Some c →
  (∀ m', dropped (mem s) m' (list_to_set (cent_nodes c)) → mallocs m' = mallocs (mem s) →
    Q tt (mkCache m' (cents s) (hash s) (cache_size s) (ent_num s) (insert_sort s))) →
  safe (on_mem (free_cent c)) Q s.
Proof.
  intros Hcore Hc HQ. destruct (core_nodes _ _ _ _ Hcore Hc) as [Hnd Hin].
  destruct (free_cent_spec (mem s) c L) as (m' & Hm & Hml & Hd); [apply (core_cent _ _ Hcore _ _ Hc)|apply Hcore|done|done|].
  apply (safe_on_mem _ _ _ _ _ Hm). by apply HQ.
Qed.

(** An entry is deleted. *)
Record deleted (s s' : cache) (L : list Z) (a : Z) (c : dns_cent_t) (X : gset Z) : Prop := {
  de_inv : invx None None X s' (filter (λ p, p ∉ (list_to_set (cent_nodes c) : gset Z)) L);
  de_cents : cents s' = delete a (cents s);
  de_size : cache_size s' = cache_size s - cs c;
  de_sort : insert_sort s' = insert_sort s;
  de_mem : mallocs (mem s') = mallocs (mem s);
}.
Lemma del_cent_spec s L a c X :
  invx None None X s L → a ∈ X → cents s !! a = Some c →
  safe (del_cent a) (λ _ s', deleted s s' L a c (X ∖ {[a]}) ∧ hash s' = hash s) s.
Proof.
  intros [Hcore Ht [Hsz Hnum]] Hx Hc. unfold del_cent. s_load Hc. s_bind. apply safe_modify. s_bind.
  apply (free_spec _ L a c); [by apply (core_eq s)|done|]. cbn [mem cents hash cache_size ent_num insert_sort]. intros m' Hd Hml.
  s_bind. apply safe_modify, safe_modify. cbn [mem cents hash cache_size ent_num insert_sort].
  split; [|done]. split; [split| | | |]; cbn [mem cents hash cache_size ent_num insert_sort]; try done.
  - by eapply core_delete.
  - by eapply table_delete.
  - split; cbn [mem cents hash cache_size ent_num insert_sort without] in *.
    + rewrite (total_delete _ _ _ Hc). lia.
    + rewrite Hnum, map_size_delete_Some by (by eexists). assert (size (cents s) ≠ 0%nat); [|lia].
      by apply (map_size_ne_0_lookup_2 _ a); rewrite Hc.
Qed.
Lemma del_cache_ent_spec s L a c loc :
  inv s L → cents s !! a = Some c →
  (∀ l, loc = Some l → ∃ nm, find s nm = Some a ∧ place_of (hash s) nm l) →
  safe (del_cache_ent a loc) (λ _ s', deleted s s' L a c ∅ ∧
    ∃ k d, contents_of (hash s) !! k = Some d ∧ contents d = a ∧ contents_of (hash s') = delete k (contents_of (hash s))) s.
Proof.
  intros [Hcore Ht Hn] Hc Hloc.
  assert (Hrun : ∃ nm d t', contents_of (hash s) !! fold_name nm = Some d ∧ contents d = a ∧ wf t' ∧
    contents_of t' = delete (fold_name nm) (contents_of (hash s)) ∧
    match loc with
    | Some l => del_dns_hash_ent l (hash s) = Some (d, t')
    | None => del_dns_hash (qname c) (hash s) = Some (Some d, t')
    end).
  { destruct loc as [l|].
    - destruct (Hloc l eq_refl) as (nm & Hf & Hp). unfold find in Hf.
      destruct (contents_of (hash s) !! fold_name nm) as [d|] eqn:Hd; [|done]. injection Hf as Hf.
      destruct (place_del _ _ _ Hp d Hd) as (t' & ? & ? & ?). by exists nm, d, t'.
    - destruct (table_name _ _ Ht _ _ Hc) as (nm & Hnm & Hq). destruct (table_find _ _ _ _ _ Ht Hc ltac:(set_solver) Hnm Hq) as (d & Hd & Hda).
      destruct (table_ops (hash s) nm (table_wf _ _ Ht) Hnm) as (_ & _ & _ & _ & t' & Hdel & ? & ?). rewrite Hd in Hdel.
      exists nm, d, t'. by rewrite Hq. }
  destruct Hrun as (nm & d & t' & Hd & Hda & Hwf & Hcon & Hdel). unfold del_cache_ent. s_get. s_load Hc. s_bind.
  assert (Hr : safe (match loc with
    | Some loc => x ← need (del_dns_hash_ent loc (hash s)); mret (Some x.1, x.2)
    | None => need (del_dns_hash (qname c) (hash s))
    end) (λ r s', r = (Some d, t') ∧ s' = s) s).
  { destruct loc as [l|]; [s_need Hdel; by apply safe_ret|]. by apply (safe_need _ _ _ _ Hdel). }
  eapply safe_mono; [exact Hr|]. cbn beta. intros r s1 [-> ->]. clear Hr Hdel Hloc. s_bind. apply safe_modify. cbn [fst snd].
  rewrite (proj2 (Z.eqb_eq (contents d) a) Hda). cbn [negb when]. s_bind. apply safe_ret.
  eapply safe_mono; [apply (del_cent_spec _ L a c {[a]})|]; cbn [mem cents hash cache_size ent_num insert_sort].
  - split; [by apply (core_eq s)|rewrite <-(union_empty_r_L {[a]}), <-Hda; by eapply table_remove|].
    destruct Hn. by split.
  - set_solver.
  - done.
  - cbn beta. intros _ s' [Hde Hh]. split; [|exists (fold_name nm), d; rewrite Hh; by cbn].
    rewrite difference_diag_L in Hde. by destruct Hde.
Qed.

(** ** Names *)

Lemma wf_name_drop nm k : wf_name nm → wf_name (drop k nm).
Proof.
  intros [Hl Hlen]. split; [by apply Forall_drop|]. rewrite <-(take_drop k nm) in Hlen. unfold rhn in *.
  rewrite rhn_labels_app, !zlen_app in Hlen. rewrite zlen_app. pose proof (zlen_nonneg (rhn_labels (take k nm))). lia.
Qed.
Lemma rhn_suffix nm k : rhn nm = rhn_labels (take k nm) ++ rhn (drop k nm).
Proof. unfold rhn. rewrite <-(take_drop k nm) at 1. by rewrite rhn_labels_app, app_assoc. Qed.
Lemma skip_labels nm k :
  wf_name nm → ∃ o, skipsegs (rhn nm) 0 k = Some o ∧ zdrop o (rhn nm) = rhn (drop k nm).
Proof.
  intros [Hnm _]. pose proof (skipsegs_spec k nm [] []) as H. rewrite app_nil_r in H.
  cbn [app] in H. rewrite zlen_nil, !Z.add_0_l in H. exists (zlen (rhn_labels (take k nm))). split.
  - by apply H.
  - rewrite (rhn_suffix nm k). apply zdrop_app_length.
Qed.
Lemma count_labels nm : wf_name nm → rhnsegcnt (rhn nm) = Some (zlen nm).
Proof.
  intros [Hnm _]. unfold rhnsegcnt. pose proof (rhnsegcnt_loop_spec (length (rhn nm)) nm [] [] 0) as H.
  rewrite app_nil_r in H. cbn [app] in H. change (zlen (@nil Z)) with 0 in H. rewrite H; [by rewrite Z.add_0_l|done|]. pose proof (length_rhn nm). lia.
Qed.

Lemma get_mu_ok c i : cent_ok c → 0 ≤ i < NRRMU → ∃ v, GET_RRSMU c i = Some v.
Proof.
  intros [Ht _ _] Hi. unfold GET_RRSMU, rr_of. destruct (negative c) eqn:Hn; [by eexists|]. unfold cent_tag in Ht.
  destruct (u c) as [|mu ext]; [congruence|]. destruct Ht as (_ & Hmu & _). cbn [mbind option_bind fst].
  destruct (mu !! Z.to_nat i) as [v|] eqn:Hv; [by eexists|]. apply lookup_ge_None in Hv. unfold zlen in Hmu. lia.
Qed.

Lemma invx_cent_name {x y X} s L a c : invx x y X s L → cents s !! a = Some c → cent_ok c ∧ ∃ nm, wf_name nm ∧ qname c = rhn nm.
Proof. intros H Hc. split; [by apply (core_cent _ _ (inv_core _ _ H) a)|by apply (table_name _ _ (inv_table _ _ H) a)]. Qed.

Section purge.
Context (now : Z).

Lemma stale_ref_spec s L a c get_set ref :
  inv s L → cents s !! a = Some c → (∀ c, cent_ok c → ∃ v, get_set c = Some v) →
  safe (stale_ref now c get_set ref) (λ r s', s' = s ∧ (ref = cundef → r = false)) s.
Proof.
  intros Hinv Hc Hget. destruct (invx_cent_name _ _ _ _ Hinv Hc) as (Hok & nm & Hnm & Hq).
  unfold stale_ref. zif (ref =? cundef); [by apply safe_ret|]. rewrite Hq. s_need (count_labels nm Hnm). s_bind.
  assert (Hfin : ∀ b, safe (mret b) (λ r s', s' = s ∧ (ref = cundef → r = false)) s) by (intros; by apply safe_ret).
  zif (ref =? zlen nm); [destruct (Hget c Hok) as [v Hv]; apply (safe_need _ _ _ _ Hv), Hfin|].
  zif (ref <? zlen nm); [|apply safe_ret, Hfin].
  destruct (skip_labels nm (Z.to_nat (zlen nm - ref)) Hnm) as (o & Ho & Hd). s_need Ho. rewrite Hd. s_bind.
  eapply safe_mono; [apply lookup_ent_spec; [apply Hinv|by apply wf_name_drop]|]. cbn beta. intros r s1 (-> & -> & _).
  destruct (find s (drop (Z.to_nat (zlen nm - ref)) nm)) as [b|] eqn:Hb; [|apply safe_ret, Hfin].
  destruct (find_cent _ _ _ _ (inv_table _ _ Hinv) Hb) as (cb & Hcb & _). s_load Hcb.
  destruct (Hget cb (core_cent _ _ (inv_core _ _ Hinv) _ _ Hcb)) as [v Hv]. apply (safe_need _ _ _ _ Hv), Hfin.
Qed.

(** Only the references to other entries change. *)
Lemma set_refs s L a c ns soa :
  inv s L → cents s !! a = Some c →
  let c' := mkCent (qname c) (cs c) (num_rrs c) (c_flags c) (u c) ns soa in
  inv (mkCache (mem s) (<[a := c']> (cents s)) (hash s) (cache_size s) (ent_num s) (insert_sort s)) L.
Proof.
  intros Hinv Hc c'. pose proof (core_cent _ _ (inv_core _ _ Hinv) _ _ Hc) as Hok.
  eapply inv_update; [exact Hinv|exact Hc| |done|done|done|done|cbn; lia].
  eapply core_same; [apply Hinv|exact Hc|apply dropped_refl|done|by destruct Hok|done].
Qed.

(** What is left of an entry. *)
Record remains (s s' : cache) (L' : list Z) (a : Z) (c c' : dns_cent_t) : Prop := {
  re_inv : inv s' L';
  re_cents : cents s' = <[a := c']> (cents s);
  re_qname : qname c' = qname c;
  re_local : has (c_flags c') DF_LOCAL = has (c_flags c) DF_LOCAL;
  re_negative : negative c' = negative c;
  re_slot j : 0 ≤ j → slot c' j = kept now (slot c j);
  re_hash : hash s' = hash s;
  re_sort : insert_sort s' = insert_sort s;
  re_len : (list_len s' ≤ list_len s)%nat;
  re_ok : mem_ok (mem s) → mem_ok (mem s');
  re_neg : negative c = true → u c' = u c;
}.
Lemma remains_refs s s' L' a c c' ns soa :
  remains s s' L' a c c' →
  remains s (mkCache (mem s') (<[a := mkCent (qname c') (cs c') (num_rrs c') (c_flags c') (u c') ns soa]> (cents s'))
    (hash s') (cache_size s') (ent_num s') (insert_sort s')) L' a c (mkCent (qname c') (cs c') (num_rrs c') (c_flags c') (u c') ns soa).
Proof.
  intros []. split; try done; cbn [cents].
  - apply set_refs; [done|]. rewrite re_cents0. apply lookup_insert_eq.
  - by rewrite re_cents0, insert_insert_eq.
Qed.
Lemma remains_lookup s s' L' a c c' : remains s s' L' a c c' → cents s' !! a = Some c'.
Proof. intros []. rewrite re_cents0. apply lookup_insert_eq. Qed.

Lemma neg_of_ok c : cent_ok c → negative c = true → ∃ l t n, u c = neg l t n.
Proof.
  intros [Ht _ _] Hn. unfold cent_tag in Ht. destruct (u c) as [l t n|]; [by eauto|]. destruct Ht as [? _]. congruence.
Qed.
Lemma timedout_nxdom_ok c : cent_ok c → negative c = true → ∃ b, timedout_nxdom now c = Some b.
Proof. intros Hok Hn. destruct (neg_of_ok c Hok Hn) as (l & t & n & Hu). unfold timedout_nxdom, neg_of. rewrite Hu. by eexists. Qed.
(** A negative entry that is not local, and is timed out. *)
Definition expired (c : dns_cent_t) : bool :=
  negative c && negb (has (c_flags c) DF_LOCAL) && default false (timedout_nxdom now c).

Lemma gone_test c (Q : bool → cache → Prop) s (cond : bool) :
  cent_ok c → Q (if cond then negb (negative c) || expired c else false) s →
  safe (if cond then
          if negative c then if has (c_flags c) DF_LOCAL then mret false else need (timedout_nxdom now c) else mret true
        else mret false) Q s.
Proof.
  intros Hok HQ. unfold expired in HQ. destruct cond; [|by apply safe_ret]. destruct (negative c) eqn:Hn; [|by apply safe_ret].
  destruct (has (c_flags c) DF_LOCAL); [by apply safe_ret|]. destruct (timedout_nxdom_ok c Hok Hn) as [b Hb].
  apply (safe_need _ b); [done|]. by rewrite Hb in HQ.
Qed.

Lemma purge_cent_spec s L a c del :
  inv s L → cents s !! a = Some c →
  safe (purge_cent now a del false) (λ r s',
    if r <? 0 then del = true ∧ ∃ s1 L1 c1, remains s s1 L1 a c c1 ∧ deleted s1 s' L1 a c1 ∅ ∧ (∀ j, 0 ≤ j → slot c1 j = None) ∧ (negative c = true → expired c = true)
    else ∃ c' L', remains s s' L' a c c') s.
Proof.
  intros Hinv Hc. unfold purge_cent. s_bind. eapply safe_mono; [by apply (purge_all_rrsets_spec now s L a c false)|]. cbn beta.
  intros [np nr] s1 (Hnr & _ & _ & Hnp & c1 & L1 & Hp & Hneg). cbn [fst snd] in *.
  assert (Hre : remains s s1 L1 a c c1).
  { destruct Hp, pu_same0. split; try done; [|by intros ->%Hneg]. intros j Hj. rewrite pu_slot0 by done. zif (j <? 0); [lia|done]. }
  pose proof (remains_lookup _ _ _ _ _ _ Hre) as Hc1. pose proof (core_cent _ _ (inv_core _ _ (re_inv _ _ _ _ _ _ Hre)) _ _ Hc1) as Hok1.
  s_load Hc1. s_bind. apply gone_test; [done|]. set (g := if del && (nr =? 0) then _ else _). destruct g eqn:Hg.
  - s_bind. apply (safe_mono _ (λ _ s', deleted s1 s' L1 a c1 ∅)).
    + eapply safe_mono; [by apply (del_cache_ent_spec s1 L1 a c1 None (re_inv _ _ _ _ _ _ Hre) Hc1)|]. by intros _ s' [? _].
    + intros _ s' Hde. apply safe_ret. cbn. subst g. destruct del; [|done]. split; [done|]. exists s1, L1, c1. split; [done|]. split; [done|].
      destruct (Z.eqb_spec nr 0) as [Hz|]; [|done]. split.
      { intros j Hj. rewrite (re_slot _ _ _ _ _ _ Hre) by done. by apply Hnr. }
      intros Hn. specialize (Hneg Hn). subst c1. cbn [andb] in Hg. by rewrite Hn in Hg.
  - clear Hg g. assert (Hdone : ∀ r s' L' c', 0 ≤ r → remains s s' L' a c c' →
      if r <? 0 then del = true ∧ ∃ s1 L1 c1, remains s s1 L1 a c c1 ∧ deleted s1 s' L1 a c1 ∅ ∧ (∀ j, 0 ≤ j → slot c1 j = None) ∧ (negative c = true → expired c = true) else ∃ c' L', remains s s' L' a c c').
    { intros r s' L' c' Hr H. zif (r <? 0); [lia|]. by exists c', L'. }
    destruct (has (c_flags c1) DF_LOCAL); [apply safe_ret; by eapply Hdone|].
    assert (Hup : ∀ (b : bool) ns soa s2 c2 (Q : unit → cache → Prop), remains s s2 L1 a c c2 →
      (∀ s3 c3, remains s s3 L1 a c c3 → Q tt s3) →
      safe (when (b && negb false) (store a (mkCent (qname c2) (cs c2) (num_rrs c2) (c_flags c2) (u c2) ns soa))) Q s2).
    { intros b ns soa s2 c2 Q Hr HQ. apply safe_when; intros _; [|by eapply HQ]. apply safe_modify. eapply HQ. by apply remains_refs. }
    s_bind. eapply safe_mono; [eapply (stale_ref_spec s1 L1 a c1); [apply Hre|done|intros; by apply get_mu_ok]|].
    cbn beta. intros ns s2 [-> _]. s_bind. apply Hup; [done|]. intros s3 c3 Hre3. pose proof (remains_lookup _ _ _ _ _ _ Hre3) as Hc3. s_load Hc3.
    s_bind. eapply safe_mono; [eapply (stale_ref_spec s3 L1 a c3); [apply Hre3|done|intros; by apply get_mu_ok]|].
    cbn beta. intros soa s4 [-> _]. s_bind. apply Hup; [done|]. intros s5 c5 Hre5. apply safe_ret. eapply Hdone; [|done].
    destruct ns, soa; cbn; lia.
Qed.
(** In a test run nothing changes; what is found to be all right is all right. *)
Lemma purge_cent_test s L a c del :
  inv s L → cents s !! a = Some c →
  safe (purge_cent now a del true) (λ r s', s' = s ∧
    (r = 0 → purged_none now c ∧ (del = true → expired c = false))) s.
Proof.
  intros Hinv Hc. pose proof (core_cent _ _ (inv_core _ _ Hinv) _ _ Hc) as Hok.
  unfold purge_cent. s_bind. eapply safe_mono; [by apply (purge_all_rrsets_spec now s L a c true)|]. cbn beta.
  intros [np nr] s1 (Hnr & Hnone & Hneg & Hnp & ->). cbn [fst snd] in *. s_load Hc. s_bind. apply gone_test; [done|].
  set (g := if del && (nr =? 0) then _ else _). destruct g eqn:Hg; [s_bind; apply safe_ret, safe_ret; by split|].
  assert (Hdone : np = 0 → purged_none now c ∧ (del = true → expired c = false)).
  { intros Hz. split; [by apply Hnone|]. intros ->. subst g. cbn [andb] in Hg. unfold expired. destruct (negative c) eqn:Hn; [|done].
    specialize (Hneg eq_refl). injection Hneg as -> ->. cbn in Hg. unfold expired in Hg. by rewrite Hn in Hg. }
  destruct (has (c_flags c) DF_LOCAL); [by apply safe_ret|].
  s_bind. eapply safe_mono; [eapply (stale_ref_spec s L a c); [done|done|intros; by apply get_mu_ok]|].
  cbn beta. intros ns s2 [-> _]. s_bind. rewrite andb_false_r. apply safe_ret. s_load Hc.
  s_bind. eapply safe_mono; [eapply (stale_ref_spec s L a c); [done|done|intros; by apply get_mu_ok]|].
  cbn beta. intros soa s4 [-> _]. s_bind. rewrite andb_false_r. apply safe_ret. apply safe_ret. split; [done|].
  intros Hz. apply Hdone. destruct ns, soa; cbn in Hz; lia.
Qed.
End purge.

(** ** Nodes of the list *)

Lemma node_spec s L p :
  core s L → p ∈ L →
  ∃ e c, lents (rl (mem s)) !! p = Some e ∧ cents s !! cent e = Some c ∧ owner c (rrset e) (idx e) p ∧ cent_ok c.
Proof.
  intros Hcore Hp. apply (dll_dom _ _ (core_dll _ _ Hcore)) in Hp as [e He]. pose proof (targets_lookup _ _ _ He) as Ht.
  apply (core_lents _ _ Hcore) in Ht as (c & Hc & Ho). exists e, c. repeat split; try done. all: apply (core_cent _ _ Hcore _ _ Hc).
Qed.
Definition set_local (c : dns_cent_t) (ro : option Z) (i : Z) : bool :=
  match ro with Some _ => match slot c i with Some x => has (flags x) CF_LOCAL | None => false end | None => false end.
(** What the node points to is local. *)
Definition node_local (s : cache) (p : Z) : Prop :=
  ∃ ro a i c, targets (lents (rl (mem s))) !! p = Some (ro, a, i) ∧ cents s !! a = Some c ∧
    set_local c ro i || has (c_flags c) DF_LOCAL = true.
Lemma lent_local_spec s L p e c :
  core s L → lents (rl (mem s)) !! p = Some e → cents s !! cent e = Some c → owner c (rrset e) (idx e) p →
  safe (lent_local e) (λ r s', s' = s ∧ r = set_local c (rrset e) (idx e) || has (c_flags c) DF_LOCAL) s.
Proof.
  intros Hcore He Hc Ho. pose proof (ok_tag _ (core_cent _ _ Hcore _ _ Hc)) as Ht. unfold lent_local. s_load Hc.
  unfold set_local. destruct (rrset e) as [x|]; [|by apply safe_ret]. destruct Ho as (Hi & x' & Hx & Ha & _).
  s_need (index_slot c (idx e) Ht (slot_lt _ _ _ Hx Hi)). rewrite Hx. s_need (eq_refl (Some x')). s_bind.
  apply safe_assert; [by apply Z.eqb_eq|]. by apply safe_ret.
Qed.

Lemma drop_node done p rest :
  NoDup (done ++ p :: rest) → filter (λ x, x ∉ ({[p]} : gset Z)) (done ++ p :: rest) = done ++ rest.
Proof.
  intros Hnd. apply list.NoDup_app in Hnd as (_ & Hd & [Hp _]%list.NoDup_cons). rewrite list.filter_app, filter_cons_False by set_solver.
  f_equal; apply filter_all; intros x Hx; [|set_solver]. intros ->%elem_of_singleton. apply (Hd _ Hx). by left.
Qed.
Lemma cent_nodes_none c : cent_ok c → negative c = false → (∀ i, 0 ≤ i → slot c i = None) → cent_nodes c = [].
Proof.
  intros Hok Hn Hs. destruct (cent_nodes c) as [|p l] eqn:E; [done|]. assert (Hp : p ∈ cent_nodes c) by (rewrite E; by left).
  apply elem_of_cent_nodes in Hp as ([x|] & i & Ho); [| |apply Hok].
  - destruct Ho as (Hi & x' & Hx & _). by rewrite Hs in Hx.
  - destruct Ho as [_ Ho]. pose proof (ok_tag _ Hok) as Ht. unfold neg_lent in Ho. unfold cent_tag in Ht. destruct (u c); [congruence|done].
Qed.

(** The other nodes stay as they are. *)
Definition keeps (s s' : cache) (L' : list Z) : Prop := ∀ p, p ∈ L' → node_local s p → node_local s' p.
Lemma keeps_trans s s1 s2 L1 L2 : (∀ p, p ∈ L2 → p ∈ L1) → keeps s s1 L1 → keeps s1 s2 L2 → keeps s s2 L2.
Proof. intros HL H1 H2 p Hp Hl. apply H2; [done|]. apply H1; auto. Qed.
Lemma set_gone_keeps s s' L L' a c i :
  core s L → cents s !! a = Some c → 0 ≤ i → set_gone s s' L L' a c i → keeps s s' L'.
Proof.
  intros Hcore Hc Hi [Hinv HL (c' & Hcents & Hg) _ _ _ _ _] p Hp (ro & b & j & cb & Ht & Hcb & Hl).
  destruct (node_spec s' L' p (inv_core _ _ Hinv) Hp) as (e' & cb' & He' & Hcb' & Ho' & Hok').
  exists (rrset e'), (cent e'), (idx e'), cb'. split; [by apply targets_lookup|]. split; [done|].
  rewrite Hcents in Hcb'. apply lookup_insert_Some in Hcb' as [[Hae <-]|[Hne Hcb']].
  - apply (gone_owner s L a c c' i _ _ _ Hcore Hc Hg Hi) in Ho' as [Ho Hni].
    pose proof (core_target _ _ _ _ _ _ _ Hcore Hc Ho) as Ht'. rewrite Ht in Ht'. injection Ht' as -> -> ->.
    rewrite Hc in Hcb. injection Hcb as <-. rewrite (same_local _ _ (gone_same _ _ _ Hg)). unfold set_local in *.
    destruct (rrset e') as [x|]; [|done]. destruct Ho as (Hj & _). rewrite (gone_slot _ _ _ Hg) by done.
    destruct (Z.eqb_spec (idx e') i) as [<-|_]; [|done]. exfalso. apply Hni. apply elem_of_slot_nodes. destruct (proj1 (core_lents _ _ Hcore _ _ _ _) Ht) as (c2 & Hc2 & Ho2).
    rewrite Hc in Hc2. injection Hc2 as <-. destruct Ho2 as (_ & x' & Hx' & _ & Hl'). by exists x'.
  - pose proof (core_target _ _ _ _ _ _ _ Hcore Hcb' Ho') as Ht'. rewrite Ht in Ht'. injection Ht' as -> -> ->. congruence.
Qed.
Lemma deleted_keeps s s' L a c :
  core s L → deleted s s' L a c ∅ →
  keeps s s' (filter (λ p, p ∉ (list_to_set (cent_nodes c) : gset Z)) L).
Proof.
  intros Hcore [Hinv Hcents _ _ _] p Hp (ro & b & j & cb & Ht & Hcb & Hl).
  destruct (node_spec s' _ p (inv_core _ _ Hinv) Hp) as (e' & cb' & He' & Hcb' & Ho' & Hok').
  exists (rrset e'), (cent e'), (idx e'), cb'. split; [by apply targets_lookup|]. split; [done|].
  rewrite Hcents in Hcb'. apply lookup_delete_Some in Hcb' as [Hne Hcb'].
  pose proof (core_target _ _ _ _ _ _ _ Hcore Hcb' Ho') as Ht'. rewrite Ht in Ht'. injection Ht' as -> -> ->. congruence.
Qed.

(** ** Local records

    The contents of a set, wherever it is in memory. *)
Definition view (v : option rr_set_t) : option rr_set_t := (λ s, mkSet 0 None (ttl s) (ts s) (flags s) (rrs s)) <$> v.
Definition is_local (v : option rr_set_t) : bool := match v with Some st => has (flags st) CF_LOCAL | None => false end.
Lemma view_local v v' : view v' = view v → is_local v' = is_local v.
Proof. destruct v, v'; try done. by intros [= _ _ Hf _]; cbn; rewrite Hf. Qed.
(** The local sets stay in their entries. *)
Definition locals_kept (s s' : cache) : Prop :=
  ∀ a c j, cents s !! a = Some c → 0 ≤ j → is_local (slot c j) = true →
    ∃ c', cents s' !! a = Some c' ∧ qname c' = qname c ∧ view (slot c' j) = view (slot c j).
#[export] Instance locals_kept_refl : Reflexive locals_kept.
Proof. intros s a c j ? ? ?. by exists c. Qed.
#[export] Instance locals_kept_trans : Transitive locals_kept.
Proof.
  intros s1 s2 s3 H1 H2 a c j Hc Hj Hl. destruct (H1 a c j Hc Hj Hl) as (c2 & Hc2 & Hq2 & Hv2).
  destruct (H2 a c2 j Hc2 Hj) as (c3 & Hc3 & Hq3 & Hv3); [by rewrite (view_local _ _ Hv2)|]. exists c3. split; [done|]. split; congruence.
Qed.
Lemma locals_same s s' : cents s' = cents s → locals_kept s s'.
Proof. intros H a c j Hc ? ?. exists c. by rewrite H. Qed.
Lemma locals_update s s' a c c' :
  cents s !! a = Some c → cents s' = <[a := c']> (cents s) → qname c' = qname c →
  (∀ j, 0 ≤ j → is_local (slot c j) = true → view (slot c' j) = view (slot c j)) → locals_kept s s'.
Proof.
  intros Hc Hcents Hq Hv b cb j Hcb Hj Hl. rewrite Hcents. destruct (decide (b = a)) as [->|Hne].
  - rewrite lookup_insert_eq. exists c'. rewrite Hc in Hcb. injection Hcb as <-. split; [done|]. split; [done|by apply Hv].
  - exists cb. by rewrite lookup_insert_ne.
Qed.
Lemma locals_delete s s' a c :
  cents s !! a = Some c → cents s' = delete a (cents s) → (∀ j, 0 ≤ j → is_local (slot c j) = false) → locals_kept s s'.
Proof.
  intros Hc Hcents Hno b cb j Hcb Hj Hl. exists cb. rewrite Hcents, lookup_delete_ne; [done|]. intros <-.
  rewrite Hc in Hcb. injection Hcb as <-. by rewrite Hno in Hl.
Qed.
Lemma gone_locals s s' L L' a c i :
  cents s !! a = Some c → 0 ≤ i → is_local (slot c i) = false → set_gone s s' L L' a c i → locals_kept s s'.
Proof.
  intros Hc Hi Hno Hsg. destruct (sg_cent _ _ _ _ _ _ _ Hsg) as (c' & Hcents & Hg).
  eapply locals_update; [exact Hc|exact Hcents|apply Hg|]. intros j Hj Hl. rewrite (gone_slot _ _ _ Hg) by done.
  zif (j =? i); [|done]. subst j. congruence.
Qed.

(** What one round of a purge loop leaves: the node [p] may be gone. *)
Record round (s s' : cache) (done rest : list Z) (p : Z) (left : bool) : Prop := {
  ro_inv : inv s' (done ++ (if left then [p] else []) ++ rest);
  ro_keeps : keeps s s' (done ++ (if left then [p] else []) ++ rest);
  ro_sort : insert_sort s' = insert_sort s;
  ro_locals : locals_kept s s';
}.
Lemma round_refl s done rest p : inv s (done ++ p :: rest) → round s s done rest p true.
Proof. intros. split; try done. by intros q _. Qed.
Lemma inv_nodup {x y X} s L : invx x y X s L → NoDup L.
Proof. intros H. apply H. Qed.
Lemma round_set_gone s s' done rest p L' a c i :
  inv s (done ++ p :: rest) → cents s !! a = Some c → 0 ≤ i → (∃ x, slot c i = Some x ∧ lent x = Some p) →
  is_local (slot c i) = false → set_gone s s' (done ++ p :: rest) L' a c i → round s s' done rest p false.
Proof.
  intros Hinv Hc Hi (x & Hx & Hp) Hno Hg. pose proof (sg_list _ _ _ _ _ _ _ Hg) as HL.
  assert (Hn : slot_nodes (slot c i) = {[p]}). { rewrite Hx. cbn. unfold set_nodes. by rewrite Hp. }
  rewrite Hn, drop_node in HL by (exact (inv_nodup _ _ Hinv)). subst L'. split; [apply Hg| |apply Hg|by eapply gone_locals].
  eapply set_gone_keeps; [apply Hinv|done|done|done].
Qed.
Lemma round_deleted_set s s' done rest p left a c :
  inv s (done ++ (if left : bool then [p] else []) ++ rest) → cent_ok c → negative c = false → num_rrs c = 0 → cents s !! a = Some c →
  deleted s s' (done ++ (if left then [p] else []) ++ rest) a c ∅ → round s s' done rest p left.
Proof.
  intros Hinv Hok Hneg Hnum Hc Hde. pose proof (deleted_keeps _ _ _ _ _ (inv_core _ _ Hinv) Hde) as Hk.
  pose proof (de_inv _ _ _ _ _ _ Hde) as Hi. rewrite (cent_nodes_none c Hok Hneg) in Hk, Hi by (by apply num_rrs_zero).
  rewrite filter_all in Hk, Hi by set_solver. split; [done|done|apply Hde|].
  eapply locals_delete; [exact Hc|apply Hde|]. intros j Hj. by rewrite (proj1 (num_rrs_zero c Hok) Hnum j Hj).
Qed.
Lemma round_deleted_neg s s' done rest p a c :
  inv s (done ++ p :: rest) → cent_ok c → neg_lent c = Some p → cents s !! a = Some c →
  deleted s s' (done ++ p :: rest) a c ∅ → round s s' done rest p false.
Proof.
  intros Hinv Hok Hp Hc Hde. pose proof (deleted_keeps _ _ _ _ _ (inv_core _ _ Hinv) Hde) as Hk.
  pose proof (de_inv _ _ _ _ _ _ Hde) as Hi.
  assert (Hn : cent_nodes c = [p]). { unfold cent_nodes, neg_lent in *. destruct (u c); [by rewrite Hp|done]. }
  assert (HnS : (list_to_set (cent_nodes c) : gset Z) = {[p]}) by (rewrite Hn; set_solver). rewrite HnS, drop_node in Hk, Hi by (exact (inv_nodup _ _ Hinv)). split; [done|done|apply Hde|].
  eapply locals_delete; [exact Hc|apply Hde|]. intros j Hj. unfold neg_lent in Hp. unfold slot, all_slots. by destruct (u c).
Qed.
Lemma round_trans s s1 s2 done rest p left :
  round s s1 done rest p left → round s1 s2 done rest p left → round s s2 done rest p left.
Proof.
  intros [H1 K1 S1 O1] [H2 K2 S2 O2]. split; [done| |congruence|by etrans]. by eapply keeps_trans; [|exact K1|].
Qed.

(** Deleting the entry when it has no sets left. *)
Lemma delete_empty_spec s done rest p left a c (b : bool) :
  inv s (done ++ (if left : bool then [p] else []) ++ rest) → cents s !! a = Some c → negative c = false →
  (b = true → num_rrs c = 0) →
  safe (when b (del_cache_ent a None)) (λ _ s', round s s' done rest p left) s.
Proof.
  intros Hinv Hc Hneg Hb. apply safe_when; intros Hb'.
  - eapply safe_mono; [by apply (del_cache_ent_spec s _ a c None Hinv Hc)|]. intros _ s' [Hde _].
    eapply round_deleted_set; [done|by apply (core_cent _ _ (inv_core _ _ Hinv) _ _ Hc)|done|by apply Hb|done|done].
  - split; try done. by intros q _.
Qed.
Lemma delete_neg_spec s done rest p a c (b : bool) :
  inv s (done ++ p :: rest) → cents s !! a = Some c → neg_lent c = Some p →
  safe (when b (del_cache_ent a None)) (λ _ s', round s s' done rest p (negb b)) s.
Proof.
  intros Hinv Hc Hp. apply safe_when; intros ->.
  - eapply safe_mono; [by apply (del_cache_ent_spec s _ a c None Hinv Hc)|]. intros _ s' [Hde _].
    eapply round_deleted_neg; [done|by apply (core_cent _ _ (inv_core _ _ Hinv) _ _ Hc)|done|done|done].
  - by apply round_refl.
Qed.

Lemma load_lent_spec s p e (Q : rr_lent_t → cache → Prop) :
  lents (rl (mem s)) !! p = Some e → Q e s → safe (load_lent p) Q s.
Proof. intros He HQ. unfold load_lent. s_get. by apply (safe_need _ e). Qed.
Lemma node_next s done p rest e :
  core s (done ++ p :: rest) → lents (rl (mem s)) !! p = Some e → next e = hd rest None.
Proof.
  intros Hcore He. pose proof (dll_seg _ _ (core_dll _ _ Hcore)) as Hs. apply seg_app in Hs as [_ Hs].
  cbn [seg] in Hs. destruct Hs as [(e' & He' & _ & Hn) _]. congruence.
Qed.

Section loops.
Context (now : Z).

Lemma safe_bind_unit {A} (m : C A) (f : C unit) (Q : unit → cache → Prop) s :
  safe m (λ _ s', safe f Q s') s → safe (m;; f) Q s.
Proof. intros H. by s_bind. Qed.

(** One round of the first loop. *)
Definition round_timedout (e : rr_lent_t) : C unit :=
  when (not_null (rrset e)) (purge_rrset now (cent e) (idx e) false;; mret tt);;
  c ← load (cent e);
  gone ← (if num_rrs c =? 0 then
            if negative c then if has (c_flags c) DF_LOCAL then mret false else need (timedout_nxdom now c) else mret true
          else mret false);
  when gone (del_cache_ent (cent e) None).
Lemma round_timedout_spec s done rest p e c :
  inv s (done ++ p :: rest) → cents s !! cent e = Some c → owner c (rrset e) (idx e) p →
  safe (round_timedout e) (λ _ s', ∃ left, round s s' done rest p left) s.
Proof.
  intros Hinv Hc Ho. destruct (invx_cent_name _ _ _ _ Hinv Hc) as [Hok _]. unfold round_timedout.
  destruct (rrset e) as [x|]; cbn [not_null when].
  - destruct Ho as (Hi & x' & Hx & _ & Hp). pose proof (slot_lt _ _ _ Hx Hi). pose proof (num_slots_le c (ok_tag _ Hok)).
    assert (Hneg : negative c = false). { destruct (negative c) eqn:Hn; [|done]. rewrite slot_negative in Hx; [done|apply Hok|done]. }
    s_bind. s_bind. eapply safe_mono; [apply (purge_rrset_spec now s _ (cent e) c (idx e) false Hinv Hc); lia|].
    cbn beta. rewrite Hx. intros r s1 [-> Hs1]. apply safe_ret. destruct (must_go now x') eqn:Hgo; cbn [andb negb] in Hs1.
    + pose proof (round_set_gone _ _ _ _ _ _ _ _ _ Hinv Hc Hi (ex_intro _ x' (conj Hx Hp)) ltac:(by rewrite Hx; unfold must_go in Hgo; cbn; destruct (has (flags x') CF_LOCAL), (has (flags x') CF_NOPURGE)) ltac:(rewrite <-Hx in Hs1; exact Hs1)) as Hr.
      destruct (sg_cent _ _ _ _ _ _ _ Hs1) as (c1 & Hc1 & Hg). assert (Hc1' : cents s1 !! cent e = Some c1) by (rewrite Hc1; apply lookup_insert_eq).
      s_load Hc1'. s_bind. apply gone_test; [apply Hg|]. rewrite (gone_negative _ _ _ Hg), Hneg. cbn [negb orb].
      eapply safe_mono; [eapply (delete_empty_spec s1 done rest p false); [apply Hr|done|by rewrite (gone_negative _ _ _ Hg)|]|].
      * destruct (num_rrs c1 =? 0) eqn:E; [zbool; lia|done].
      * cbn beta. intros _ s2 Hr2. exists false. exact (round_trans _ _ _ _ _ _ _ Hr Hr2).
    + subst s1. s_load Hc. s_bind. apply gone_test; [done|]. replace (num_rrs c =? 0) with false.
      * apply safe_ret. exists true. by apply round_refl.
      * symmetry. apply Z.eqb_neq. intros Hz. rewrite num_rrs_zero in Hz by done. by rewrite Hz in Hx.
  - destruct Ho as [_ Hp]. s_bind. apply safe_ret. s_load Hc. s_bind. apply gone_test; [done|].
    eapply safe_mono; [by eapply delete_neg_spec|]. cbn beta. intros _ s' Hr. by eexists.
Qed.
(** One round of the second loop. *)
Definition round_oldest (e : rr_lent_t) : C unit :=
  when (not_null (rrset e)) (n ← on_cent (cent e) (λ c, del_cent_rrset_by_index c (idx e)); add_size (- n));;
  c ← load (cent e);
  when (num_rrs c =? 0) (del_cache_ent (cent e) None).
Lemma round_oldest_spec s done rest p e c :
  inv s (done ++ p :: rest) → cents s !! cent e = Some c → owner c (rrset e) (idx e) p → set_local c (rrset e) (idx e) = false →
  safe (round_oldest e) (λ _ s', round s s' done rest p false) s.
Proof.
  intros Hinv Hc Ho Hno. destruct (invx_cent_name _ _ _ _ Hinv Hc) as [Hok _]. unfold round_oldest.
  destruct (rrset e) as [x|]; cbn [not_null when].
  - destruct Ho as (Hi & x' & Hx & _ & Hp). pose proof (slot_lt _ _ _ Hx Hi). pose proof (num_slots_le c (ok_tag _ Hok)).
    assert (Hneg : negative c = false). { destruct (negative c) eqn:Hn; [|done]. rewrite slot_negative in Hx; [done|apply Hok|done]. }
    s_bind. eapply safe_mono; [apply (del_counted_spec s _ (cent e) c (idx e) Hinv Hc); lia|].
    cbn beta. intros _ s1 Hs1.
    pose proof (round_set_gone _ _ _ _ _ _ _ _ _ Hinv Hc Hi (ex_intro _ x' (conj Hx Hp)) Hno Hs1) as Hr.
    destruct (sg_cent _ _ _ _ _ _ _ Hs1) as (c1 & Hc1 & Hg). assert (Hc1' : cents s1 !! cent e = Some c1) by (rewrite Hc1; apply lookup_insert_eq).
    s_load Hc1'.
    eapply safe_mono; [eapply (delete_empty_spec s1 done rest p false); [apply Hr|done|by rewrite (gone_negative _ _ _ Hg)|]|].
    + by intros ?%Z.eqb_eq.
    + cbn beta. intros _ s2 Hr2. exact (round_trans _ _ _ _ _ _ _ Hr Hr2).
  - destruct Ho as [_ Hp]. s_bind. apply safe_ret. s_load Hc.
    assert (Hz : num_rrs c = 0). { apply num_rrs_zero; [done|]. intros i _. unfold slot, all_slots. unfold neg_lent in Hp. by destruct (u c). }
    rewrite Hz. change (0 =? 0) with true. eapply safe_mono; [by eapply delete_neg_spec|]. cbn beta. by intros _ s' Hr.
Qed.

(** What the loops leave. *)
Record swept (s s' : cache) (L' : list Z) : Prop := {
  sw_inv : inv s' L';
  sw_sort : insert_sort s' = insert_sort s;
  sw_locals : locals_kept s s';
}.
Lemma purge_timedout_spec sz lazy fuel rest : ∀ s done,
  inv s (done ++ rest) → (length rest ≤ fuel)%nat →
  safe (purge_timedout now fuel sz lazy (hd rest None)) (λ _ s', ∃ L', swept s s' L' ∧ (length L' ≤ length (done ++ rest))%nat) s.
Proof.
  revert fuel. induction rest as [|p rest IH]; intros fuel s done Hinv Hf.
  { destruct fuel; apply safe_ret; by exists (done ++ []). }
  destruct fuel as [|fuel]; [cbn in Hf; lia|]. cbn [hd purge_timedout]. s_get.
  destruct (negb lazy || (cache_size s >? sz)); [|apply safe_ret; by exists (done ++ p :: rest)].
  destruct (node_spec s _ p (inv_core _ _ Hinv) ltac:(set_solver)) as (e & c & He & Hc & Ho & Hok).
  s_bind. apply (load_lent_spec _ _ _ _ He). s_bind. eapply safe_mono; [by eapply lent_local_spec; [apply Hinv| | |]|]. cbn beta.
  intros local s1 [-> _]. rewrite (node_next s done p rest e (inv_core _ _ Hinv) He). s_bind.
  apply (safe_mono _ (λ _ s', ∃ left, round s s' done rest p left)).
  { apply safe_when; intros Hl; [|exists true; by apply round_refl].
    apply (round_timedout_spec s done rest p e c Hinv Hc Ho). }
  cbn beta. intros _ s2 (left & Hr). eapply safe_mono; [apply (IH fuel s2 (done ++ if left then [p] else []))|].
  - rewrite <-app_assoc. apply Hr. - cbn in Hf; lia.
  - cbn beta. intros _ s3 (L' & [Hsw Hso Hlo] & Hlen). exists L'. split; [split; [done|rewrite Hso; apply Hr|etrans; [apply Hr|exact Hlo]]|].
    rewrite !length_app in *. cbn. destruct left; cbn in Hlen; lia.
Qed.
Lemma purge_oldest_spec sz fuel rest : ∀ s done,
  inv s (done ++ rest) → (length rest ≤ fuel)%nat → (∀ p, p ∈ done → node_local s p) →
  safe (purge_oldest fuel sz (hd rest None)) (λ _ s', ∃ L', swept s s' L' ∧
    (cache_size s' ≤ sz ∨ ∀ p, p ∈ L' → node_local s' p)) s.
Proof.
  revert fuel. induction rest as [|p rest IH]; intros fuel s done Hinv Hf Hdone.
  { destruct fuel; apply safe_ret; exists (done ++ []); (split; [done|]); right; by rewrite app_nil_r. }
  destruct fuel as [|fuel]; [cbn in Hf; lia|]. cbn [hd purge_oldest]. s_get.
  zif (cache_size s >? sz); [|apply safe_ret; exists (done ++ p :: rest); split; [done|left; lia]].
  destruct (node_spec s _ p (inv_core _ _ Hinv) ltac:(set_solver)) as (e & c & He & Hc & Ho & Hok).
  s_bind. apply (load_lent_spec _ _ _ _ He). s_bind. eapply safe_mono; [by eapply lent_local_spec; [apply Hinv| | |]|]. cbn beta.
  intros local s1 [-> Hlocal]. rewrite (node_next s done p rest e (inv_core _ _ Hinv) He). s_bind.
  apply (safe_mono _ (λ _ s', round s s' done rest p local)).
  { destruct local; cbn [negb when]; [by apply safe_ret, round_refl|].
    apply (round_oldest_spec s done rest p e c Hinv Hc Ho). by destruct (set_local c (rrset e) (idx e)). }
  cbn beta. intros _ s2 Hr. eapply safe_mono; [apply (IH fuel s2 (done ++ if local then [p] else []))|].
  - rewrite <-app_assoc. apply Hr. - cbn in Hf; lia.
  - intros q [Hq|Hq]%elem_of_app; [apply (ro_keeps _ _ _ _ _ _ Hr); [set_solver|by apply Hdone]|].
    destruct local; [|by apply not_elem_of_nil in Hq]. apply list_elem_of_singleton in Hq as ->.
    apply (ro_keeps _ _ _ _ _ _ Hr); [set_solver|]. exists (rrset e), (cent e), (idx e), c.
    split; [by apply targets_lookup|]. split; [done|]. by rewrite <-Hlocal.
  - cbn beta. intros _ s3 (L' & [Hsw Hso Hlo] & Hl). exists L'. split; [split; [done|rewrite Hso; apply Hr|etrans; [apply Hr|exact Hlo]]|done].
Qed.

(** ** Sorting the list *)

Lemma owner_ts s a c ro i le :
  cents s !! a = Some c → cent_ok c → owner c ro i le → ∃ t, get_rrlent_ts (cents s) ro a i = Some t.
Proof.
  intros Hc Hok Ho. unfold get_rrlent_ts. rewrite Hc. cbn [mbind option_bind]. destruct ro as [x|].
  - destruct Ho as (Hi & x' & Hx & Ha & _). rewrite (index_slot c i (ok_tag _ Hok) (slot_lt _ _ _ Hx Hi)), Hx.
    cbn [mbind option_bind]. rewrite (proj2 (Z.eqb_eq _ _) Ha). by eexists.
  - destruct Ho as [_ Ho]. unfold neg_of. unfold neg_lent in Ho. destruct (u c); [by eexists|done].
Qed.
Definition stamp (s : cache) (p : Z) : Z :=
  default 0 (e ← lents (rl (mem s)) !! p; get_rrlent_ts (cents s) (rrset e) (cent e) (idx e)).
Lemma core_stamped s L : core s L → stamped (get_rrlent_ts (cents s)) (stamp s) (lents (rl (mem s))) L.
Proof.
  intros Hcore p Hp. destruct (node_spec s L p Hcore Hp) as (e & c & He & Hc & Ho & Hok).
  destruct (owner_ts _ _ _ _ _ _ Hc Hok Ho) as [t Ht]. exists (rrset e), (cent e), (idx e).
  split; [by apply targets_lookup|]. unfold stamp. rewrite He. cbn [mbind option_bind]. by rewrite Ht.
Qed.
(** The nodes in another order. *)
Lemma core_reorder s L L' r :
  core s L → dll r L' → L' ≡ₚ L → targets (lents r) = targets (lents (rl (mem s))) →
  core (mkCache (mkMem r (mallocs (mem s)) (brk (mem s))) (cents s) (hash s) (cache_size s) (ent_num s) (insert_sort s)) L'.
Proof.
  intros [Hd Hc Hl Hb Ha] Hd' Hp Ht. split; cbn [mem cents rl brk]; try done.
  - intros. by rewrite Ht.
  - intros le. rewrite Hp. apply Hb.
Qed.
Lemma sort_list_spec s L :
  inv s L → Z.of_nat (length L) < 2 ^ 32 →
  safe sort_list (λ _ s', ∃ L', inv s' L' ∧ L' ≡ₚ L ∧ Sorted (older (stamp s)) L' ∧ keeps s s' L' ∧ cents s' = cents s ∧
    insert_sort s' = insert_sort s ∧ cache_size s' = cache_size s ∧ hash s' = hash s) s.
Proof.
  intros [Hcore Ht Hn] Hlen. unfold sort_list. s_get.
  destruct (sort_rrl_spec (get_rrlent_ts (cents s)) (stamp s) (rl (mem s)) L) as (r & L' & Hr & Hd & Hp & Hs & Htg);
    [apply Hcore|by apply core_stamped|done|].
  s_need Hr. apply (safe_on_mem _ tt (mkMem r (mallocs (mem s)) (brk (mem s)))); [done|].
  exists L'. split; [|repeat split; try done].
  - split; [by apply (core_reorder s L)|by destruct Ht|by destruct Hn].
  - intros p _ (ro & a & i & c & Htp & Hc & Hl). exists ro, a, i, c. cbn [mem rl cents]. by rewrite Htg.
Qed.

(** Until the list is sorted, it grows by not more than [n] nodes. *)
Definition grown (n : Z) (s' : cache) (L L' : list Z) : Prop :=
  insert_sort s' = true ∨ Z.of_nat (length L') ≤ Z.of_nat (length L) + n.
(** [purge_cache] brings the cache down to the size, or leaves what is local. *)
Definition sortable (s : cache) (L : list Z) : Prop := insert_sort s = true ∨ Z.of_nat (length L) < 2 ^ 32.
Lemma keeps_all s s' L L' : keeps s s' L' → L' ≡ₚ L → (∀ p, p ∈ L → node_local s p) → ∀ p, p ∈ L' → node_local s' p.
Proof. intros Hk Hp Hl p Hin. apply Hk; [done|]. apply Hl. by rewrite <-Hp. Qed.
Lemma purge_cache_spec s L sz lazy :
  inv s L → sortable s L →
  safe (purge_cache now sz lazy) (λ _ s', ∃ L', inv s' L' ∧ grown 0 s' L L' ∧ (insert_sort s = true → insert_sort s' = true) ∧ locals_kept s s' ∧
    (cache_size s' ≤ sz ∨ ∀ p, p ∈ L' → node_local s' p)) s.
Proof.
  intros Hinv Hsort. unfold purge_cache. s_get. s_bind. rewrite (list_size _ _ (inv_core _ _ Hinv)).
  rewrite (dll_head _ _ (core_dll _ _ (inv_core _ _ Hinv))).
  eapply safe_mono; [apply (purge_timedout_spec sz lazy (length L) L s []); [exact Hinv|done]|]. cbn beta.
  intros _ s1 (L1 & [Hinv1 Hso1 Hlo1] & Hlen1). cbn [app] in Hlen1. s_get.
  zif (cache_size s1 <=? sz); [apply safe_ret; exists L1; split; [done|]; split; [right; lia|]; split; [congruence|split; [done|by left]]|]. s_bind.
  apply (safe_mono _ (λ _ s', ∃ L', inv s' L' ∧ insert_sort s' = true ∧ locals_kept s1 s')).
  { rewrite Hso1. destruct (insert_sort s) eqn:Es; cbn [negb when]; [apply safe_ret; exists L1; split; [done|by rewrite Hso1]|]. s_bind.
    destruct Hsort as [?|Hsort]; [congruence|]. eapply safe_mono; [apply (sort_list_spec s1 L1 Hinv1); lia|]. cbn beta.
    intros _ s2 (L2 & Hinv2 & _ & _ & _ & Hc2 & _). apply safe_modify. exists L2. split; [|split; [done|by apply locals_same]].
    destruct Hinv2 as [Hcore Ht Hn]. split; [by apply (core_eq s2)|by destruct Ht|by destruct Hn]. }
  intros _ s2 (L2 & Hinv2 & Hso2 & Hlo2). s_get. rewrite (list_size s2 L2 (inv_core _ _ Hinv2)).
  rewrite (dll_head _ _ (core_dll _ _ (inv_core _ _ Hinv2))).
  eapply safe_mono; [apply (purge_oldest_spec sz (length L2) L2 s2 []); [done|done|set_solver]|]. cbn beta.
  intros _ s3 (L3 & [Hinv3 Hso3 Hlo3] & Hend). exists L3. split; [done|]. split; [left; congruence|]. split; [congruence|]. split; [|done].
  etrans; [exact Hlo1|]. by etrans.
Qed.
End loops.
