(* ===== verification/DnsCacheAdd.v ===== *)
(** * Adding entries to the DNS cache

    [add_cache] and what it calls keep the invariant of the cache; the new entry is found
    again. *)

From stdpp Require Import sorting.
From S2P Require Import Prelude CInt DnsName DnsCompress RrTypes RrList DnsHash DnsCent DnsCache Contract DnsCacheInv.

(** ** What an entry says

    The contents of an entry, wherever its sets and its nodes are in memory. *)
Definition view_neg (c : dns_cent_t) : option (Z * Z) := match u c with neg _ t s => Some (t, s) | rr _ _ => None end.
Record cent_view := mkView {
  v_name : bytes; v_flags : Z; v_ns : Z; v_soa : Z; v_neg : option (Z * Z); v_slots : slots }.
Definition view_cent (c : dns_cent_t) : cent_view :=
  mkView (qname c) (c_flags c) (c_ns c) (c_soa c) (view_neg c) (map view (all_slots c)).
Definition set_view (w : cent_view) (i : Z) (v : option rr_set_t) : cent_view :=
  mkView (v_name w) (v_flags w) (v_ns w) (v_soa w) (v_neg w) (<[Z.to_nat i := v]> (v_slots w)).

Lemma view_slot c i : view (slot c i) = mjoin (v_slots (view_cent c) !! Z.to_nat i).
Proof. cbn [v_slots view_cent]. unfold slot. rewrite list_lookup_fmap. by destruct (all_slots c !! Z.to_nat i). Qed.
Lemma view_num_slots c c' : view_cent c' = view_cent c → num_slots c' = num_slots c.
Proof.
  intros H. apply (f_equal (λ w, length (v_slots w))) in H. cbn in H. rewrite !length_map in H. unfold num_slots, zlen. by rewrite H.
Qed.
Lemma view_negative c c' : view_cent c' = view_cent c → negative c' = negative c.
Proof. intros H. apply (f_equal v_flags) in H. cbn in H. unfold negative. by rewrite H. Qed.
Lemma view_neg_none c : cent_tag c → negative c = false → view_neg c = None.
Proof. unfold cent_tag, view_neg. destruct (u c); [congruence|done]. Qed.
Lemma view_copied l l' : Forall2 copied l l' → map view l' = map view l.
Proof.
  induction 1 as [|v v' l l' Hv _ IH]; [done|]. cbn [map]. rewrite IH. f_equal.
  destruct Hv as [s s' (Ht & Hs & Hf & Hr & _)|]; [|done]. cbn. by rewrite Ht, Hs, Hf, Hr.
Qed.
Lemma view_copy c c' : copy_of c c' → view_cent c' = view_cent c.
Proof.
  intros Hc. destruct (copy_of_slots _ _ Hc) as [Hs _]. destruct Hc as [[Hq Hn Hso _] _ _ Hf Hd]. unfold view_cent.
  rewrite Hq, Hn, Hso, Hf, (view_copied _ _ Hs). f_equal. unfold view_neg. destruct (u c), (u c'); try done. by destruct Hd as (_ & -> & ->).
Qed.
(** A set is put in the place of another one. *)
Lemma set_slot_spec c i v :
  cent_ok c → 0 ≤ i < num_slots c → slot_size v = slot_size (slot c i) → slot_num v = slot_num (slot c i) →
  ∃ c', set_slot c i v = Some c' ∧ cent_ok c' ∧ same_cent c c' ∧ cs c' = cs c ∧ negative c' = negative c ∧
    neg_lent c' = neg_lent c ∧ num_slots c' = num_slots c ∧ (∀ j, 0 ≤ j → slot c' j = if j =? i then v else slot c j) ∧
    view_cent c' = set_view (view_cent c) i (view v).
Proof.
  intros Hok Hi Hsz Hnum. destruct (set_slot_ok c i v (ok_tag _ Hok) Hi) as (c' & Hset & Hall & Htag & Hext & Hcs & Hn & Hf & Hsame & Hnl & Hns).
  assert (Hneg : negative c' = negative c) by (unfold negative; by rewrite Hf).
  assert (Hrr : negative c = false). { destruct (negative c) eqn:E; [|done]. destruct (neg_of_ok c Hok E) as (l & t & n & Hu). exfalso.
    unfold num_slots, all_slots in Hi. rewrite Hu in Hi. change (zlen (@nil (option rr_set_t))) with 0 in Hi. lia. }
  destruct (set_slot_size c c' i v Hall Hext (same_qname _ _ Hsame) Hi) as [Hcsz Hcn].
  exists c'. split; [done|]. split.
  { split; [done| |]; destruct Hok as [_ Hc1 Hc2]; lia. }
  split; [done|]. split; [done|]. split; [done|]. split; [done|]. split; [done|]. split.
  { intros j Hj. by apply (slot_insert c c' i v j). }
  unfold view_cent, set_view. cbn [v_name v_flags v_ns v_soa v_neg v_slots].
  rewrite Hall, (same_qname _ _ Hsame), (same_ns _ _ Hsame), (same_soa _ _ Hsame), Hf.
  rewrite !view_neg_none by (done || apply Hok || congruence). f_equal. apply list_fmap_insert.
Qed.

(** ** insert_rrl *)

Lemma core_insert s L L' r ms a c c' rs idx ne :
  core s L → cents s !! a = Some c → dll r L' → L' ≡ₚ ne :: L → brk (mem s) = ne →
  targets (lents r) = <[ne := (rs, a, idx)]> (targets (lents (rl (mem s)))) → cent_ok c' →
  (∀ ro i le, owner c' ro i le ↔ owner c ro i le ∨ ro = rs ∧ i = idx ∧ le = ne) →
  core (mkCache (mkMem r ms (ne + 1)) (<[a := c']> (cents s)) (hash s) (cache_size s) (ent_num s) (insert_sort s)) L'.
Proof.
  intros Hcore Hac Hd Hp Hne Htg Hok Hown. assert (Hfresh : ∀ ro b i cb, cents s !! b = Some cb → owner cb ro i ne → False).
  { intros ro b i cb Hcb Ho. pose proof (core_owner_in _ _ _ _ _ _ _ Hcore Hcb Ho) as Hin. apply (core_brk _ _ Hcore) in Hin. lia. }
  destruct Hcore as [Hd0 Hc Hl Hb Ha]. split; cbn [mem cents rl brk].
  - done.
  - intros b cb [[<- <-]|[_ ?]]%lookup_insert_Some; eauto.
  - intros le ro b i. rewrite Htg, lookup_insert_Some, Hl. split.
    + intros [[<- [= <- <- <-]]|[Hlne (cb & Hcb & Ho)]]; [exists c'; rewrite lookup_insert_eq; split; [done|]; apply Hown; by right|].
      destruct (decide (b = a)) as [->|Hba]; [|exists cb; by rewrite lookup_insert_ne].
      exists c'. rewrite lookup_insert_eq. split; [done|]. apply Hown. left. rewrite Hac in Hcb. by injection Hcb as <-.
    + intros (cb & [[<- <-]|[Hba Hcb]]%lookup_insert_Some & Ho).
      * apply Hown in Ho as [Ho|(-> & -> & ->)]; [|by left]. right. split; [|by exists c]. intros <-. by apply (Hfresh _ _ _ _ Hac Ho).
      * right. split; [|by exists cb]. intros <-. by apply (Hfresh _ _ _ _ Hcb Ho).
  - intros le. rewrite Hp. intros [->|Hle]%elem_of_cons; [lia|]. specialize (Hb _ Hle). lia.
  - intros b [cb [[<- <-]|[_ Hcb]]%lookup_insert_Some]; [specialize (Ha a ltac:(by eexists)); lia|].
    specialize (Ha b ltac:(by eexists)). lia.
Qed.
Lemma invx_ext {x y X} s s' L :
  invx x y X s L → mem s' = mem s → cents s' = cents s → hash s' = hash s → cache_size s' = cache_size s → ent_num s' = ent_num s →
  invx x y X s' L.
Proof.
  intros [Hcore [] []] Hm Hc Hh Hs He.
  split; [by apply (core_eq s)|split; rewrite ?Hh, ?Hc; done|split; rewrite ?Hs, ?He, ?Hc; done].
Qed.
Lemma invx_mem {x y X} s L m' :
  invx x y X s L → dropped (mem s) m' ∅ →
  invx x y X (mkCache m' (cents s) (hash s) (cache_size s) (ent_num s) (insert_sort s)) L.
Proof. intros [Hcore [] []] Hd. split; [by apply (core_mem s)|by split|by split]. Qed.
(** An entry is changed that is not counted. *)
Lemma invx_update {y X} s s' L L' a c c' :
  invx (Some a) y X s L → cents s !! a = Some c → core s' L' → cents s' = <[a := c']> (cents s) → qname c' = qname c →
  hash s' = hash s → ent_num s' = ent_num s → cache_size s' = cache_size s → invx (Some a) y X s' L'.
Proof.
  intros [_ Ht Hn] Hc Hcore Hcents Hq Hh He Hsz. split; [done|by eapply table_update|].
  eapply counts_update; [done|done|done|done|]. rewrite decide_True by done. lia.
Qed.

(** Where the set, or the negative entry, is to be put into the list. *)
Definition unlisted (c : dns_cent_t) (rs : option rr_set_t) (idx : Z) : Prop :=
  match rs with
  | Some st => slot c idx = Some st ∧ 0 ≤ idx ∧ lent st = None
  | None => idx = -1 ∧ negative c = true ∧ neg_lent c = None
  end.
(** The entry with its new node. *)
Definition listed (rs : option rr_set_t) (c : dns_cent_t) (idx ne : Z) : option dns_cent_t :=
  match rs with
  | Some rs => set_slot c idx (Some (with_lent rs (Some ne)))
  | None => n ← neg_of c; Some (with_u c (neg (Some ne) n.1.2 n.2))
  end.
Lemma listed_spec c rs idx ne :
  cent_ok c → unlisted c rs idx →
  ∃ c', listed rs c idx ne = Some c' ∧ cent_ok c' ∧ same_cent c c' ∧ cs c' = cs c ∧ view_cent c' = view_cent c ∧
    (∀ ro i le, owner c' ro i le ↔ owner c ro i le ∨ ro = addr <$> rs ∧ i = idx ∧ le = ne) ∧
    (∀ j, 0 ≤ j → j ≠ idx → slot c' j = slot c j).
Proof.
  intros Hok. destruct rs as [st|]; cbn [unlisted listed].
  - intros (Hsl & Hi & Hl). destruct (set_slot_spec c idx (Some (with_lent st (Some ne))) Hok (slot_lt _ _ _ Hsl Hi))
      as (c' & Hset & Hok' & Hsame & Hcs & Hneg & Hnl & Hns & Hslot & Hview); [by rewrite Hsl|by rewrite Hsl|].
    exists c'. split; [done|]. split; [done|]. split; [done|]. split; [done|]. split; [|split].
    + rewrite Hview. unfold set_view. cbn [v_name v_flags v_ns v_soa v_neg v_slots view_cent]. unfold view_cent. f_equal.
      apply list_insert_id. rewrite list_lookup_fmap. unfold slot in Hsl. destruct (all_slots c !! Z.to_nat idx) as [v|]; [|done].
      cbn in Hsl. subst v. done.
    + intros ro i le. destruct ro as [x|]; cbn [owner fmap option_fmap option_map].
      * split.
        -- intros (Hj & s' & Hs' & Hx & Hl'). rewrite Hslot in Hs' by done. zif (i =? idx).
           ++ subst i. injection Hs' as <-. cbn in Hx, Hl'. right. split; [congruence|]. split; [done|congruence].
           ++ left. split; [done|]. by exists s'.
        -- intros [(Hj & s' & Hs' & Hx & Hl')|([= ->] & -> & ->)].
           ++ split; [done|]. exists s'. rewrite Hslot by done. zif (i =? idx); [|done]. subst i. rewrite Hsl in Hs'. injection Hs' as <-. congruence.
           ++ split; [done|]. eexists. rewrite Hslot by done. by rewrite Z.eqb_refl.
      * rewrite Hnl. split; [tauto|]. by intros [?|[? _]].
    + intros j Hj Hne. rewrite Hslot by done. zif (j =? idx); done.
  - intros (-> & Hneg & Hl). destruct (neg_of_ok c Hok Hneg) as (l & t & n & Hu). unfold neg_lent in Hl. rewrite Hu in Hl. subst l.
    unfold neg_of. rewrite Hu. cbn [mbind option_bind fst snd]. eexists. split; [done|]. split.
    { destruct Hok as [Ht Hc1 Hc2]. unfold cent_tag, cent_size, ext_size, all_slots in *. rewrite Hu in *. by split. }
    split; [done|]. split; [done|]. split.
    { unfold view_cent, view_neg, all_slots. by rewrite Hu. } split.
    + intros [x|] i le; cbn [owner fmap option_fmap option_map].
      * split; [|by intros [(? & s' & Hs' & _)|[? _]]; [unfold slot, all_slots in Hs'; rewrite Hu in Hs'|]].
        intros (_ & s' & Hs' & _). done.
      * unfold neg_lent. rewrite Hu. cbn. split; [intros [-> [= <-]]; by right|]. intros [[_ ?]|(_ & -> & ->)]; done.
    + intros j _ _. unfold slot, all_slots. by rewrite Hu.
Qed.

Lemma insert_rrl_spec y X s L a c rs idx :
  invx (Some a) y X s L → cents s !! a = Some c → unlisted c rs idx →
  safe (insert_rrl rs a idx) (λ ok s', (mem_ok (mem s) → ok = true) ∧ frame s s' ∧ ∃ L' c',
    invx (Some a) y X s' L' ∧ (length L' ≤ S (length L))%nat ∧ cents s' = <[a := c']> (cents s) ∧
    same_cent c c' ∧ cs c' = cs c ∧ view_cent c' = view_cent c ∧ cent_ok c' ∧ (∀ j, 0 ≤ j → j ≠ idx → slot c' j = slot c j)) s.
Proof.
  intros Hinv Hc Hun. pose proof (core_cent _ _ (inv_core _ _ Hinv) _ _ Hc) as Hok. unfold insert_rrl. s_load Hc.
  assert (Hsame : ∀ s', invx (Some a) y X s' L → cents s' = cents s → ∃ L' c',
    invx (Some a) y X s' L' ∧ (length L' ≤ S (length L))%nat ∧ cents s' = <[a := c']> (cents s) ∧
    same_cent c c' ∧ cs c' = cs c ∧ view_cent c' = view_cent c ∧ cent_ok c' ∧ (∀ j, 0 ≤ j → j ≠ idx → slot c' j = slot c j)).
  { intros s' Hi Hcc. exists L, c. rewrite Hcc, insert_id by done. split; [done|]. split; [lia|]. done. }
  destruct (_ || _); [apply safe_ret; split; [done|]; split; [done|by apply Hsame]|].
  destruct (malloc_spec (mem s)) as (p & m1 & Hm & Hrl & Hdrop & Hokm & Hp). s_bind. apply (safe_on_mem _ _ _ _ _ Hm).
  pose proof (invx_mem s L m1 Hinv Hdrop) as Hinv1.
  destruct p as [ne|]; [|apply safe_ret; split; [by intros ?%Hokm|]; split; [split; try done; apply Hdrop|by apply Hsame]].
  destruct Hp as [-> Hbrk]. set (s1 := mkCache m1 _ _ _ _ _) in *. set (ne := brk (mem s)) in *. s_get.
  destruct (listed_spec c rs idx ne Hok Hun) as (c' & Hlist & Hok' & Hsm & Hcs & Hview & Hown & Hsl).
  assert (Hts : ∃ t, get_rrlent_ts (cents s) (addr <$> rs) a idx = Some t).
  { unfold get_rrlent_ts. rewrite Hc. cbn [mbind option_bind]. destruct rs as [st|]; cbn [fmap option_fmap option_map].
    - destruct Hun as (Hst & Hi & _). rewrite (index_slot c idx (ok_tag _ Hok) (slot_lt _ _ _ Hst Hi)), Hst. cbn [mbind option_bind].
      rewrite Z.eqb_refl. by eexists.
    - destruct Hun as (_ & Hneg & _). destruct (neg_of_ok c Hok Hneg) as (l & t & n & Hu). unfold neg_of. rewrite Hu. by eexists. }
  destruct Hts as [t Ht].
  destruct (insert_node_spec (get_rrlent_ts (cents s)) (stamp s1) (insert_sort s) (rl (mem s1)) L ne (addr <$> rs) a idx t)
    as (r & l1 & l2 & Hr & HL & Hd & Htg & _).
  { apply (inv_core _ _ Hinv1). }
  { destruct (lents (rl (mem s1)) !! ne) eqn:E; [|done]. exfalso. assert (Hin : ne ∈ L) by (apply (dll_dom _ _ (core_dll _ _ (inv_core _ _ Hinv1))); by eexists).
    apply (core_brk _ _ (inv_core _ _ Hinv)) in Hin. subst ne. lia. }
  { apply (core_stamped s1 L (inv_core _ _ Hinv1)). } { done. }
  s_need Hr. s_bind. apply (safe_on_mem _ tt (mkMem r (mallocs m1) (ne + 1))); [unfold modify; cbn [mem s1]; by rewrite Hbrk|].
  s_bind. apply (safe_mono _ (λ c2 s', c2 = c' ∧ s' = mkCache (mkMem r (mallocs m1) (ne + 1)) (cents s) (hash s) (cache_size s) (ent_num s) (insert_sort s))).
  { destruct rs as [st|]; cbn [listed] in Hlist; [by apply (safe_need _ _ _ _ Hlist)|].
    destruct (neg_of c) as [n|] eqn:Hn; [|done]. cbn [mbind option_bind] in Hlist. injection Hlist as <-.
    apply safe_bind, (safe_need _ n); [done|]. by apply safe_ret. }
  cbn beta. intros c2 s2 [-> ->]. s_bind. apply safe_modify. apply safe_ret. split; [done|].
  split; [split; try done; cbn; intros Hmo; apply Hdrop in Hmo; exact Hmo|]. exists (l1 ++ ne :: l2), c'. split; [|split; [|done]].
  - eapply (invx_update s1); [exact Hinv1|exact Hc| |done|apply Hsm|done|done|done]. cbn [mem cents hash cache_size ent_num insert_sort].
    pose proof (core_insert s L (l1 ++ ne :: l2) r (mallocs m1) a c c' (addr <$> rs) idx ne (inv_core _ _ Hinv) Hc Hd) as H.
    eapply core_eq; [apply H|..]; try done.
    + rewrite HL. by rewrite Permutation_middle.
    + rewrite Htg. cbn [mem s1]. by rewrite Hrl.
  - rewrite HL, !length_app. cbn. lia.
Qed.

(** ** Sets that exclude each other *)

(** An entry that is not counted lost the sets [gone_at]. *)
Record shrunk (y : option Z) (X : gset Z) (a : Z) (s s' : cache) (L : list Z) (c : dns_cent_t) (gone_at : Z → Prop) : Prop := {
  sh_frame : frame s s';
  sh_ex : ∃ L' c', invx (Some a) y X s' L' ∧ (length L' ≤ length L)%nat ∧ cents s' = <[a := c']> (cents s) ∧ cent_ok c' ∧
    same_cent c c' ∧ negative c' = negative c ∧ num_slots c' = num_slots c ∧
    (∀ j, 0 ≤ j → slot c' j = slot c j ∧ ¬ gone_at j ∨ slot c' j = None ∧ (slot c j = None ∨ gone_at j));
}.
Lemma shrunk_refl y X a s L c (P : Z → Prop) :
  invx (Some a) y X s L → cents s !! a = Some c → (∀ j, 0 ≤ j → ¬ P j) → shrunk y X a s s L c P.
Proof.
  intros Hinv Hc HP. split; [done|]. exists L, c. rewrite insert_id by done. pose proof (core_cent _ _ (inv_core _ _ Hinv) _ _ Hc).
  repeat (split; [done|]). intros j Hj. left. split; [done|by apply HP].
Qed.
Lemma del_uncounted_spec y X s L a c i :
  invx (Some a) y X s L → cents s !! a = Some c → 0 ≤ i < NRRTOT →
  safe (on_cent a (λ c, del_cent_rrset_by_index c i)) (λ _ s', frame s s' ∧ ∃ L' c',
    invx (Some a) y X s' L' ∧ (length L' ≤ length L)%nat ∧ cents s' = <[a := c']> (cents s) ∧ gone c c' i) s.
Proof.
  intros Hinv Hc Hi. eapply safe_mono; [by apply (del_at_spec s L a c i (inv_core _ _ Hinv) Hc Hi)|].
  cbn beta. intros n s' (-> & Hf & Hcore & c' & Hcents & Hg). split; [done|].
  exists (filter (λ p, p ∉ slot_nodes (slot c i)) L), c'. split; [|split; [by apply length_filter|done]].
  eapply invx_update; [exact Hinv|exact Hc|exact Hcore|done|apply Hg|apply Hf..].
Qed.

Section ops.
Context (global : globparm_t) (now : Z).

Lemma cr_remove_spec n y X s L a c rri i :
  invx (Some a) y X s L → cents s !! a = Some c → 0 ≤ i → i + Z.of_nat n = num_slots c →
  safe (cr_remove n a rri i) (λ _ s', shrunk y X a s s' L c (λ j, i ≤ j ∧ conflicting rri j (slot c j) = true)) s.
Proof.
  revert s L c i. induction n as [|n IH]; intros s L c i Hinv Hc Hi Hn; pose proof (core_cent _ _ (inv_core _ _ Hinv) _ _ Hc) as Hok.
  { apply safe_ret. apply shrunk_refl; [done|done|]. intros j Hj [Hij Hcf].
    rewrite (slot_ge c j) in Hcf by (unfold num_slots in Hn; lia). done. }
  pose proof (num_slots_le c (ok_tag _ Hok)). cbn [cr_remove]. s_load Hc. s_need (index_slot c i (ok_tag _ Hok) ltac:(lia)). s_bind.
  apply safe_when; intros Hcf.
  - s_bind. eapply safe_mono; [apply (del_uncounted_spec y X s L a c i Hinv Hc); lia|]. cbn beta.
    intros _ s1 (Hf1 & L1 & c1 & Hinv1 & HL1 & Hc1 & Hg). apply safe_ret.
    assert (Hc1' : cents s1 !! a = Some c1) by (rewrite Hc1; apply lookup_insert_eq).
    eapply safe_mono; [apply (IH s1 L1 c1 (i + 1) Hinv1 Hc1'); [lia|rewrite (gone_num _ _ _ Hg); lia]|]. cbn beta.
    intros _ s2 [Hf2 (L2 & c2 & Hinv2 & HL2 & Hc2 & Hok2 & Hsm & Hneg & Hns & Hsl)]. split; [by etrans|].
    exists L2, c2. split; [done|]. split; [lia|]. split; [by rewrite Hc2, Hc1, insert_insert_eq|]. split; [done|].
    split; [etrans; [apply Hg|done]|]. split; [rewrite Hneg; apply Hg|]. split; [rewrite Hns; apply Hg|].
    intros j Hj. specialize (Hsl j Hj). rewrite (gone_slot _ _ _ Hg) in Hsl by done. zif (j =? i).
    + subst j. right. split; [destruct Hsl as [[? _]|[? _]]; done|]. right. split; [lia|done].
    + destruct Hsl as [[He Hng]|[He Hg']]; [left; split; [done|]; intros [? ?]; apply Hng; split; [lia|done]|].
      right. split; [done|]. destruct Hg' as [?|[? ?]]; [by left|right; split; [lia|done]].
  - eapply safe_mono; [apply (IH s L c (i + 1) Hinv Hc); lia|]. cbn beta. intros _ s2 [Hf2 (L2 & c2 & Hinv2 & HL2 & Hc2 & Hok2 & Hsm & Hneg & Hns & Hsl)].
    split; [done|]. exists L2, c2. do 7 (split; [done|]). intros j Hj. destruct (Hsl j Hj) as [[He Hng]|[He Hg']].
    + left. split; [done|]. intros [? Hcf']. destruct (decide (j = i)) as [->|]; [congruence|]. apply Hng. split; [lia|done].
    + right. split; [done|]. destruct Hg' as [?|[? ?]]; [by left|right; split; [lia|done]].
Qed.
Lemma cr_count_spec n y X s L a c rri i ncf nttl :
  invx (Some a) y X s L → cents s !! a = Some c → 0 ≤ i → i + Z.of_nat n = num_slots c → 0 ≤ ncf →
  safe (cr_count now n a rri i ncf nttl) (λ r s', s' = s ∧
    ∀ k t, r = Some (k, t) → ncf ≤ k ∧
      ∀ j st, i ≤ j → slot c j = Some st → conflicting rri j (slot c j) = true → has (flags st) CF_LOCAL = false ∧ k ≠ ncf) s.
Proof.
  revert i ncf nttl. induction n as [|n IH]; intros i ncf nttl Hinv Hc Hi Hn Hk; pose proof (core_cent _ _ (inv_core _ _ Hinv) _ _ Hc) as Hok.
  { apply safe_ret. split; [done|]. intros k t [= <- <-]. split; [lia|]. intros j st Hj Hs.
    rewrite (slot_ge c j) in Hs by (unfold num_slots in Hn; lia). done. }
  pose proof (num_slots_le c (ok_tag _ Hok)). cbn [cr_count]. s_load Hc. s_need (index_slot c i (ok_tag _ Hok) ltac:(lia)).
  assert (Hskip : conflicting rri i (slot c i) = false →
    safe (cr_count now n a rri (i + 1) ncf nttl) (λ r s', s' = s ∧ ∀ k t, r = Some (k, t) → ncf ≤ k ∧
      ∀ j st, i ≤ j → slot c j = Some st → conflicting rri j (slot c j) = true → has (flags st) CF_LOCAL = false ∧ k ≠ ncf) s).
  { intros Hcf. eapply safe_mono; [apply (IH (i + 1)); try done; lia|]. cbn beta. intros r s' [-> Hr]. split; [done|]. intros k t ->.
    destruct (Hr k t eq_refl) as [Hle Hj]. split; [done|]. intros j st Hij Hs Hcf'. apply (Hj j st); [|done|done].
    destruct (decide (j = i)) as [->|]; [congruence|lia]. }
  destruct (slot c i) as [st|] eqn:Hst; [|by apply Hskip]. destruct (conflicting rri i (Some st)) eqn:Hcf; [|by apply Hskip].
  destruct (has (flags st) CF_LOCAL) eqn:Hl; [by apply safe_ret|]. eapply safe_mono; [apply (IH (i + 1)); try done; lia|]. cbn beta.
  intros r s' [-> Hr]. split; [done|]. intros k t ->. destruct (Hr k t eq_refl) as [Hle Hj]. split; [lia|]. intros j st' Hij Hs Hcf'.
  destruct (decide (j = i)) as [->|]; [rewrite Hst in Hs; injection Hs as <-; split; [done|lia]|].
  destruct (Hj j st' ltac:(lia) Hs Hcf') as [? ?]. split; [done|lia].
Qed.
(** The sets that exclude the new one are gone when it may be added; a local set is never
    removed for one that is not. *)
Lemma cr_check_add_spec y X s L a c idx t ts f rri :
  invx (Some a) y X s L → cents s !! a = Some c → rr_info !! Z.to_nat idx = Some rri →
  safe (cr_check_add now a idx t ts f) (λ ok s', ∃ P, shrunk y X a s s' L c P ∧
    (∀ j, P j → ∃ st, slot c j = Some st ∧ conflicting rri j (slot c j) = true ∧ (has f CF_LOCAL = true ∨ has (flags st) CF_LOCAL = false)) ∧
    (ok = true → has f CF_NEGATIVE = false → ∀ j, 0 ≤ j → conflicting rri j (slot c j) = true → P j)) s.
Proof.
  intros Hinv Hc Hrri. pose proof (core_cent _ _ (inv_core _ _ Hinv) _ _ Hc) as Hok. unfold cr_check_add.
  assert (Hnone : ∀ ok : bool, (ok = true → has f CF_NEGATIVE = false → ∀ j, 0 ≤ j → conflicting rri j (slot c j) = false) →
    safe (mret ok) (λ ok s', ∃ P, shrunk y X a s s' L c P ∧
    (∀ j, P j → ∃ st, slot c j = Some st ∧ conflicting rri j (slot c j) = true ∧ (has f CF_LOCAL = true ∨ has (flags st) CF_LOCAL = false)) ∧
    (ok = true → has f CF_NEGATIVE = false → ∀ j, 0 ≤ j → conflicting rri j (slot c j) = true → P j)) s).
  { intros ok Hno. apply safe_ret. exists (λ _, False). split; [apply shrunk_refl; [done|done|by intros j _ []]|]. split; [done|]. intros Ho Hf j Hj Hcf.
    rewrite Hno in Hcf by done. done. }
  revert Hnone. destruct (has f CF_NEGATIVE) eqn:Hfn; intros Hnone; [by apply Hnone|]. s_need Hrri. s_load Hc. s_need (RRARR_LEN_slots c (ok_tag _ Hok)).
  assert (Hz : 0 + Z.of_nat (Z.to_nat (num_slots c)) = num_slots c) by (unfold num_slots, zlen; lia).
  assert (Hrem : (∀ j st, 0 ≤ j → slot c j = Some st → conflicting rri j (slot c j) = true → has f CF_LOCAL = true ∨ has (flags st) CF_LOCAL = false) →
    safe (cr_remove (Z.to_nat (num_slots c)) a rri 0;; mret true) (λ ok s', ∃ P, shrunk y X a s s' L c P ∧
    (∀ j, P j → ∃ st, slot c j = Some st ∧ conflicting rri j (slot c j) = true ∧ (has f CF_LOCAL = true ∨ has (flags st) CF_LOCAL = false)) ∧
    (ok = true → false = false → ∀ j, 0 ≤ j → conflicting rri j (slot c j) = true → P j)) s).
  { intros Hl. s_bind. eapply safe_mono; [by apply (cr_remove_spec _ y X s L a c rri 0)|]. cbn beta. intros _ s' Hsh. apply safe_ret.
    eexists. split; [exact Hsh|]. cbn beta. split; [|by intros _ _ j]. intros j [Hj Hcf]. destruct (slot c j) as [st|] eqn:Hst; [|done].
    exists st. split; [done|]. split; [done|]. apply (Hl j st); [done|done|by rewrite Hst]. }
  revert Hnone Hrem. destruct (has f CF_LOCAL) eqn:Hfl; intros Hnone Hrem; [apply Hrem; by left|]. destruct (has (c_flags c) DF_LOCAL); [by apply Hnone|]. s_bind.
  eapply safe_mono; [by apply (cr_count_spec _ y X s L a c rri 0 0 0)|]. cbn beta. intros r s' [-> Hr].
  destruct r as [[k nt]|]; [|by apply Hnone]. destruct (Hr k nt eq_refl) as [Hk Hj]. zif (k =? 0).
  { apply Hnone. intros _ _ j Hj0. destruct (conflicting rri j (slot c j)) eqn:Hcf; [|done]. exfalso. destruct (slot c j) as [st|] eqn:Hst; [|done].
    destruct (Hj j st Hj0 Hst) as [_ ?]; [by rewrite Hst|]. done. }
  destruct (t >? Z.quot nt k); [|by apply Hnone]. apply Hrem. intros j st Hj0 Hst Hcf. right. by apply (Hj j st).
Qed.

(** ** The sets of a new entry *)

Lemma adjust_same s : slot_size (Some (adjust_ttl global s)) = slot_size (Some s) ∧ addr (adjust_ttl global s) = addr s ∧
  lent (adjust_ttl global s) = lent s.
Proof. unfold adjust_ttl. repeat case_match; done. Qed.
Lemma adjust_view v v' : view v = view v' → view (adjust_ttl global <$> v) = view (adjust_ttl global <$> v').
Proof.
  destruct v as [s|], v' as [s'|]; try done. cbn. intros [= Ht Hs Hf Hr]. f_equal. unfold adjust_ttl. rewrite Ht, Hs, Hf, Hr.
  repeat case_match; cbn; congruence.
Qed.
Lemma owner_slot_same c c' i st st' ro j le :
  slot c i = Some st → addr st' = addr st → lent st' = lent st → neg_lent c' = neg_lent c →
  (∀ j, 0 ≤ j → slot c' j = if j =? i then Some st' else slot c j) → owner c' ro j le ↔ owner c ro j le.
Proof.
  intros Hst Ha Hl Hnl Hsl. destruct ro as [x|]; cbn [owner]; [|by rewrite Hnl]. split; intros (Hj & s' & Hs' & Hx & Hle); (split; [done|]).
  - rewrite Hsl in Hs' by done. zif (j =? i); [|by exists s']. subst j. injection Hs' as <-. exists st. split; [done|]. split; congruence.
  - rewrite Hsl by done. zif (j =? i); [|by exists s']. subst j. rewrite Hst in Hs'. injection Hs' as <-. exists st'. split; [done|]. split; congruence.
Qed.
Definition list_set (a i : Z) (c : dns_cent_t) (st : rr_set_t) : C bool :=
  c ← need (set_slot c i (Some (adjust_ttl global st)));
  store a c;;
  insert_rrl (Some (adjust_ttl global st)) a i.
Lemma safe_eq {A} (m m' : C A) (Q : A → cache → Prop) s : m s = m' s → safe m' Q s → safe m Q s.
Proof. unfold safe, wp. by intros ->. Qed.
Lemma list_set_bind {A} a i c st (k : bool → C A) (Q : A → cache → Prop) s :
  safe (list_set a i c st) (λ ok s', safe (k ok) Q s') s →
  safe (c ← need (set_slot c i (Some (adjust_ttl global st)));
    store a c;;
    ok ← insert_rrl (Some (adjust_ttl global st)) a i;
    k ok) Q s.
Proof.
  intros H. apply (safe_eq _ (list_set a i c st ≫= k)); [|by apply safe_bind]. unfold list_set.
  rewrite M_bind_assoc. apply M_bind_ext. intros c' s'. by rewrite M_bind_assoc.
Qed.
Lemma list_set_spec y X s L a c i st :
  invx (Some a) y X s L → cents s !! a = Some c → slot c i = Some st → lent st = None → 0 ≤ i →
  safe (list_set a i c st) (λ ok s', (mem_ok (mem s) → ok = true) ∧ frame s s' ∧ ∃ L' c',
    invx (Some a) y X s' L' ∧ (length L' ≤ S (length L))%nat ∧ cents s' = <[a := c']> (cents s) ∧
    same_cent c c' ∧ cs c' = cs c ∧ cent_ok c' ∧ view_cent c' = set_view (view_cent c) i (view (Some (adjust_ttl global st))) ∧
    (∀ j, 0 ≤ j → j ≠ i → slot c' j = slot c j)) s.
Proof.
  intros Hinv Hc Hst Hl Hi. pose proof (core_cent _ _ (inv_core _ _ Hinv) _ _ Hc) as Hok. unfold list_set.
  destruct (adjust_same st) as (Hsz & Had & Hle). set (st' := adjust_ttl global st) in *.
  destruct (set_slot_spec c i (Some st') Hok (slot_lt _ _ _ Hst Hi)) as (c1 & Hset & Hok1 & Hsm & Hcs & Hneg & Hnl & Hns & Hsl & Hv);
    [by rewrite Hst|by rewrite Hst|].
  s_need Hset. s_bind. apply safe_modify. set (s1 := mkCache _ _ _ _ _ _).
  assert (Hinv1 : invx (Some a) y X s1 L).
  { eapply (invx_update s); [exact Hinv|exact Hc| |done|apply Hsm|done..].
    eapply core_same; [apply Hinv|exact Hc|apply dropped_refl|done|done|]. intros ro j le. by eapply owner_slot_same. }
  assert (Hc1 : cents s1 !! a = Some c1) by apply lookup_insert_eq.
  eapply safe_mono; [eapply (insert_rrl_spec y X s1 L a c1 (Some st') i Hinv1 Hc1); split; [|split; [done|congruence]]; rewrite Hsl by done; by rewrite Z.eqb_refl|].
  cbn beta. intros ok s2 (Hmo & Hf & L2 & c2 & Hinv2 & HL2 & Hc2 & Hsm2 & Hcs2 & Hv2 & Hok2 & Hsl2). split; [done|].
  split; [by destruct Hf|]. exists L2, c2. split; [done|]. split; [done|].
  split; [rewrite Hc2; cbn [cents s1]; by rewrite insert_insert_eq|]. split; [by etrans|]. split; [congruence|]. split; [done|].
  split; [by rewrite Hv2|]. intros j Hj Hne. rewrite Hsl2, Hsl by done. zif (j =? i); done.
Qed.
Lemma list_sets_spec n y X s L a c i :
  invx (Some a) y X s L → cents s !! a = Some c → 0 ≤ i → i + Z.of_nat n = num_slots c →
  (∀ j st, i ≤ j → slot c j = Some st → lent st = None) →
  safe (list_sets global n a i) (λ ok s', (mem_ok (mem s) → ok = true) ∧ frame s s' ∧ ∃ L' c',
    invx (Some a) y X s' L' ∧ (length L' ≤ n + length L)%nat ∧ cents s' = <[a := c']> (cents s) ∧
    same_cent c c' ∧ cs c' = cs c ∧ cent_ok c' ∧ c_flags c' = c_flags c ∧ view_neg c' = view_neg c ∧ num_slots c' = num_slots c ∧
    (ok = true → ∀ j, 0 ≤ j → view (slot c' j) = if j <? i then view (slot c j) else view (adjust_ttl global <$> slot c j))) s.
Proof.
  revert s L c i. induction n as [|n IH]; intros s L c i Hinv Hc Hi Hn Hlent; pose proof (core_cent _ _ (inv_core _ _ Hinv) _ _ Hc) as Hok.
  { apply safe_ret. split; [done|]. split; [done|]. exists L, c. rewrite insert_id by done. split; [done|]. split; [lia|].
    do 7 (split; [done|]). intros _ j Hj. zif (j <? i); [done|]. by rewrite (slot_ge c j) by (unfold num_slots in Hn; lia). }
  pose proof (num_slots_le c (ok_tag _ Hok)). cbn [list_sets]. s_load Hc. s_need (index_slot c i (ok_tag _ Hok) ltac:(lia)).
  destruct (slot c i) as [st|] eqn:Hst.
  - cbn zeta. apply list_set_bind.
    eapply safe_mono; [by apply (list_set_spec y X s L a c i st Hinv Hc Hst (Hlent i st ltac:(lia) Hst))|]. cbn beta.
    intros ok s1 (Hmo & Hf & L1 & c1 & Hinv1 & HL1 & Hc1 & Hsm1 & Hcs1 & Hok1 & Hv1 & Hsl1).
    assert (Hc1' : cents s1 !! a = Some c1) by (rewrite Hc1; apply lookup_insert_eq).
    assert (Hfl : c_flags c1 = c_flags c) by (by apply (f_equal v_flags) in Hv1).
    assert (Hvn : view_neg c1 = view_neg c) by (by apply (f_equal v_neg) in Hv1).
    assert (Hns : num_slots c1 = num_slots c).
    { apply (f_equal (λ w, length (v_slots w))) in Hv1. cbn in Hv1. rewrite length_insert, !length_map in Hv1. unfold num_slots, zlen. by rewrite Hv1. }
    assert (Hvi : view (slot c1 i) = view (Some (adjust_ttl global st))).
    { rewrite view_slot, Hv1. cbn [v_slots set_view]. rewrite list_lookup_insert_eq; [done|]. cbn. rewrite length_map. unfold num_slots, zlen in Hn. lia. }
    destruct ok; [|apply safe_ret; split; [done|]; split; [done|]; exists L1, c1; split; [done|]; split; [lia|]; do 7 (split; [done|]); done].
    eapply safe_mono; [apply (IH s1 L1 c1 (i + 1) Hinv1 Hc1'); [lia|lia|intros j st' Hj; rewrite Hsl1 by lia; apply Hlent; lia]|]. cbn beta.
    intros ok s2 (Hmo2 & Hf2 & L2 & c2 & Hinv2 & HL2 & Hc2 & Hsm2 & Hcs2 & Hok2 & Hfl2 & Hvn2 & Hns2 & Hsl2).
    split; [intros Hm; apply Hmo2, Hf, Hm|]. split; [by etrans|]. exists L2, c2. split; [done|]. split; [lia|].
    split; [by rewrite Hc2, Hc1, insert_insert_eq|]. split; [by etrans|]. do 5 (split; [congruence || done|]). intros Hok' j Hj. rewrite Hsl2 by done.
    zif (j <? i + 1); zif (j <? i); try lia; [by rewrite Hsl1 by lia|replace j with i by lia; by rewrite Hst|by rewrite Hsl1 by lia].
  - eapply safe_mono; [apply (IH s L c (i + 1) Hinv Hc); [lia|lia|intros j st Hj; apply Hlent; lia]|]. cbn beta.
    intros ok s2 (Hmo2 & Hf2 & L2 & c2 & Hinv2 & HL2 & Hc2 & Hsm2 & Hcs2 & Hok2 & Hfl2 & Hvn2 & Hns2 & Hsl2).
    split; [done|]. split; [done|]. exists L2, c2. split; [done|]. split; [lia|]. do 7 (split; [done|]). intros Hok' j Hj. rewrite Hsl2 by done.
    zif (j <? i + 1); zif (j <? i); try lia; try done. replace j with i by lia. by rewrite Hst.
Qed.

(** ** A name that is not in the cache *)

(** What the cache keeps of a new entry. *)
Definition adjusted_neg (c : dns_cent_t) (n : Z * Z) : cent_view :=
  let lo := if neg_ttl global <? min_ttl global then neg_ttl global else min_ttl global in
  let no := has (c_flags c) DF_NOCACHE in
  let t := if no then 0 else if n.1 <? lo then lo else if n.1 >? max_ttl global then max_ttl global else n.1 in
  mkView (qname c) (if no then clear (c_flags c) DF_NOCACHE else c_flags c) (c_ns c) (c_soa c) (Some (t, n.2)) [].
Definition adjusted (c : dns_cent_t) : cent_view :=
  match view_neg c with
  | Some n => adjusted_neg c n
  | None => mkView (qname c) (c_flags c) (c_ns c) (c_soa c) None (map (λ v, view (adjust_ttl global <$> v)) (all_slots c))
  end.
Definition stored (s : cache) (nm : list bytes) (w : cent_view) : Prop :=
  ∃ a c, find s nm = Some a ∧ cents s !! a = Some c ∧ view_cent c = w.

Lemma core_new s L a c :
  core s L → cents s !! a = None → a < brk (mem s) → cent_ok c → cent_nodes c = [] →
  core (mkCache (mem s) (<[a := c]> (cents s)) (hash s) (cache_size s) (ent_num s) (insert_sort s)) L.
Proof.
  intros [Hd Hc Hl Hb Ha] Hnone Hlt Hok Hno.
  assert (Hown : ∀ ro i le, ¬ owner c ro i le).
  { intros ro i le Ho. assert (le ∈ cent_nodes c) as Hin; [|by rewrite Hno in Hin; apply not_elem_of_nil in Hin].
    apply elem_of_cent_nodes; [apply Hok|eauto]. }
  split; cbn [mem cents]; try done.
  - intros b cb [[<- <-]|[_ ?]]%lookup_insert_Some; eauto.
  - intros le ro b i. rewrite Hl. split; intros (cb & Hcb & Ho).
    + exists cb. rewrite lookup_insert_ne; [done|]. intros <-. congruence.
    + apply lookup_insert_Some in Hcb as [[<- <-]|[_ Hcb]]; [by apply Hown in Ho|by exists cb].
  - intros b [cb [[<- <-]|[_ Hcb]]%lookup_insert_Some]; [done|]. apply Ha. by eexists.
Qed.
Lemma invx_new s L a c nm :
  inv s L → cents s !! a = None → a < brk (mem s) → cent_ok c → cent_nodes c = [] → wf_name nm → qname c = rhn nm →
  invx (Some a) (Some a) {[a]} (mkCache (mem s) (<[a := c]> (cents s)) (hash s) (cache_size s) (ent_num s) (insert_sort s)) L.
Proof.
  intros [Hcore Ht Hn] Hnone Hlt Hok Hno Hnm Hq. split; [by apply core_new| |].
  - destruct Ht as [Hw Ha Hu Hall Hname]. split; cbn [hash cents]; try done.
    + intros k d Hd. destruct (Ha k d Hd) as (_ & cd & Hcd & Hqd). assert (contents d ≠ a) by congruence.
      split; [set_solver|]. exists cd. by rewrite lookup_insert_ne.
    + intros b cb [[<- <-]|[_ Hb]]%lookup_insert_Some Hx; [set_solver|]. apply (Hall b cb Hb). set_solver.
    + intros b cb [[<- <-]|[_ Hb]]%lookup_insert_Some; [by exists nm|]. by apply (Hname b cb).
  - destruct Hn as [Hs He]. split; cbn [cache_size ent_num cents without] in *; by rewrite delete_insert_id.
Qed.
(** The entry is not kept. *)
Lemma discard_spec s L a c (Q : unit → cache → Prop) :
  invx (Some a) (Some a) {[a]} s L → cents s !! a = Some c →
  (∀ s' L', inv s' L' → (length L' ≤ length L)%nat → insert_sort s' = insert_sort s → cents s' = delete a (cents s) → Q tt s') →
  safe (on_mem (free_cent c);; set_cents (delete a);; warn) Q s.
Proof.
  intros Hinv Hc HQ. s_bind. apply (free_spec _ L a c); [apply Hinv|done|]. intros m' Hd _. s_bind. apply safe_modify. apply safe_warn.
  apply (HQ _ (filter (λ p, p ∉ (list_to_set (cent_nodes c) : gset Z)) L)); [|apply length_filter|done|done].
  destruct Hinv as [Hcore Ht [Hs Hn]]. split; [by eapply core_delete| |].
  - rewrite <-(difference_diag_L {[a]}). eapply table_delete; [exact Ht|set_solver|done|done].
  - by split; cbn [cache_size ent_num cents without] in *.
Qed.
(** The entry is put into the hash table, and counted. *)
Lemma invx_added s L a c nm t' :
  invx (Some a) (Some a) {[a]} s L → cents s !! a = Some c → wf t' → wf_name nm → qname c = rhn nm → find s nm = None →
  contents_of t' = <[fold_name nm := DnsHash.mkCent (qname c) a]> (contents_of (hash s)) →
  inv (mkCache (mem s) (cents s) t' (cache_size s + cs c) (ent_num s + 1) (insert_sort s)) L.
Proof.
  intros [Hcore Ht [Hs Hn]] Hc Hwf Hnm Hq Hf Hcon. unfold find in Hf.
  assert (Hnone : contents_of (hash s) !! fold_name nm = None) by (by destruct (contents_of (hash s) !! fold_name nm)).
  split; [by apply (core_eq s)| |].
  - destruct Ht as [Hw Ha Hu Hall Hname]. split; cbn [hash cents]; rewrite ?Hcon; try done.
    + intros k d [[<- <-]|[_ Hd]]%lookup_insert_Some; [split; [set_solver|by exists c]|].
      destruct (Ha k d Hd) as [_ ?]. split; [set_solver|done].
    + intros k k' d d' [[<- <-]|[Hk Hd]]%lookup_insert_Some [[<- <-]|[Hk' Hd']]%lookup_insert_Some He; try done.
      * cbn in He. destruct (Ha k' d' Hd') as [Hni _]. set_solver.
      * cbn in He. destruct (Ha k d Hd) as [Hni _]. set_solver.
      * by apply (Hu k k' d d').
    + intros b cb Hb _. destruct (decide (b = a)) as [->|Hba].
      * exists (fold_name nm), (DnsHash.mkCent (qname c) a). by rewrite lookup_insert_eq.
      * destruct (Hall b cb Hb ltac:(set_solver)) as (k & d & Hd & <-). exists k, d. split; [|done].
        apply lookup_insert_Some. right. split; [|done]. intros <-. congruence.
  - split; cbn [cache_size ent_num cents without] in *.
    + rewrite Hs, (total_delete _ _ _ Hc). lia.
    + rewrite Hn, map_size_delete_Some by (by eexists). assert (size (cents s) ≠ 0%nat); [|lia].
      by apply (map_size_ne_0_lookup_2 _ a); rewrite Hc.
Qed.

Lemma adjusted_view c c' : view_cent c' = view_cent c → adjusted c' = adjusted c.
Proof.
  unfold view_cent, adjusted, adjusted_neg. intros [= -> -> -> -> -> Hs]. destruct (view_neg c); [done|]. f_equal.
  revert Hs. generalize (all_slots c). induction (all_slots c') as [|v l IH]; intros [|v' l']; cbn; try done.
  intros [= Hv Hl]. f_equal; [by apply adjust_view|by apply IH].
Qed.
Lemma adjusted_slots c c' :
  same_cent c c' → c_flags c' = c_flags c → view_neg c' = None → view_neg c = None → num_slots c' = num_slots c →
  (∀ j, 0 ≤ j → view (slot c' j) = view (adjust_ttl global <$> slot c j)) → view_cent c' = adjusted c.
Proof.
  intros [Hq Hn Hso _] Hf Hv' Hv Hns Hsl. unfold view_cent, adjusted. rewrite Hv, Hv', Hq, Hn, Hso, Hf. f_equal.
  rewrite (slots_list c), (slots_list c'), Hns, !map_map. apply map_ext_in. intros j Hj.
  apply Hsl. apply list_elem_of_In, elem_of_seqZ in Hj. lia.
Qed.
Lemma adjust_dom_ttl_spec c :
  cent_ok c → negative c = true →
  ∃ c', adjust_dom_ttl global c = Some c' ∧ cent_ok c' ∧ same_cent c c' ∧ cs c' = cs c ∧ neg_lent c' = neg_lent c ∧
    negative c' = true ∧ view_cent c' = adjusted c.
Proof.
  intros Hok Hneg. destruct (neg_of_ok c Hok Hneg) as (l & t & n & Hu). unfold adjust_dom_ttl, neg_of, adjusted, adjusted_neg, view_neg.
  rewrite Hu. cbn [mbind option_bind fst snd]. destruct Hok as [Ht Hcs Hnum].
  assert (H : ∀ f t', has f DF_NEGATIVE = true → has f DF_LOCAL = has (c_flags c) DF_LOCAL → let c' := with_u (with_flags c f) (neg l t' n) in
    cent_ok c' ∧ same_cent c c' ∧ cs c' = cs c ∧ neg_lent c' = neg_lent c ∧ negative c' = true ∧
    view_cent c' = mkView (qname c) f (c_ns c) (c_soa c) (Some (t', n)) []).
  { intros f t' Hf Hl c'. unfold cent_tag, cent_size, ext_size, all_slots, neg_lent, view_cent, view_neg, negative in *. rewrite Hu in *.
    split; [by split|]. by repeat split. }
  set (no := has (c_flags c) DF_NOCACHE). set (lo := if neg_ttl global <? min_ttl global then neg_ttl global else min_ttl global).
  set (t' := if no then 0 else if t <? lo then lo else if t >? max_ttl global then max_ttl global else t).
  set (f := if no then clear (c_flags c) DF_NOCACHE else c_flags c). exists (with_u (with_flags c f) (neg l t' n)). split.
  { subst t' f. destruct no; [done|]. destruct c. cbn in Hu. subst. destruct (t <? lo); [done|]. by destruct (t >? max_ttl global). }
  apply H; subst f; destruct no; try done; by rewrite has_clear_ne.
Qed.

Lemma purge_cache_noop s L sz :
  inv s L → cache_size s ≤ sz → safe (purge_cache now sz true) (λ _ s', s' = s) s.
Proof.
  intros Hinv Hsz. unfold purge_cache. s_get. s_bind. rewrite (list_size s L (inv_core _ _ Hinv)).
  rewrite (dll_head _ _ (core_dll _ _ (inv_core _ _ Hinv))). apply (safe_mono _ (λ _ s', s' = s)).
  - destruct L as [|p L]; cbn [hd purge_timedout length]; [by apply safe_ret|]. s_get.
    replace (cache_size s >? sz) with false by lia. by apply safe_ret.
  - intros _ s' ->. s_get. replace (cache_size s <=? sz) with true by lia. by apply safe_ret.
Qed.

(** What [add_cache] promises, besides the invariant: when there is memory and room, the
    entry is there, and the others are as before. *)
Definition roomy (s : cache) (c : dns_cent_t) : Prop := mem_ok (mem s) ∧ cache_size s + cs c ≤ purge_limit global.
Definition useful (c : dns_cent_t) : Prop := negative c = true ∨ ∃ j, 0 ≤ j ∧ slot c j ≠ None.
Definition room (s : cache) (L : list Z) : Prop := insert_sort s = true ∨ Z.of_nat (length L) + NRRTOT < 2 ^ 32.
Record added (s s' : cache) (nm : list bytes) (c : dns_cent_t) : Prop := {
  added_cent : ∃ a e, find s' nm = Some a ∧ cents s !! a = None ∧ cents s' = <[a := e]> (cents s) ∧ view_cent e = adjusted c;
  added_find nm' : ¬ same_name nm' nm → find s' nm' = find s nm';
  added_size : cache_size s' = cache_size s + cs c;
  added_sort : insert_sort s' = insert_sort s;
  added_ok : mem_ok (mem s');
}.
Lemma grown_le n n' s' L L' : n ≤ n' → grown n s' L L' → grown n' s' L L'.
Proof. intros Hn [?|?]; [by left|right; lia]. Qed.
Lemma grown_refl s' L : grown NRRTOT s' L L.
Proof. right. unfold NRRTOT. lia. Qed.
Lemma added_stored s s' nm c : added s s' nm c → stored s' nm (adjusted c).
Proof. intros [(a & e & Hf & _ & Hc & Hv) _ _ _ _]. exists a, e. split; [done|]. by rewrite Hc, lookup_insert_eq. Qed.
Lemma locals_fresh s s' a c : cents s !! a = None → cents s' = <[a := c]> (cents s) → locals_kept s s'.
Proof. intros Hn Hc b cb j Hb Hj Hl. exists cb. rewrite Hc, lookup_insert_ne; [done|]. congruence. Qed.
Lemma add_new_spec s L nm c loc :
  inv s L → room s L → wf_name nm → qname c = rhn nm → cent_ok c → find s nm = None → place_of (hash s) nm loc →
  safe (add_new global now c loc) (λ _ s', (∃ L', inv s' L' ∧ grown NRRTOT s' L L') ∧ (insert_sort s = true → insert_sort s' = true) ∧ locals_kept s s' ∧
    (roomy s c → useful c → added s s' nm c)) s.
Proof.
  intros Hinv Hroom Hnm Hq Hok Hfind Hplace. unfold add_new.
  assert (Hsort : ∀ s' L', (length L' ≤ Z.to_nat NRRTOT + length L)%nat → insert_sort s' = insert_sort s → sortable s' L').
  { intros s' L' HL Hso. unfold sortable. rewrite Hso. destruct Hroom as [?|Hr]; [by left|right]. unfold NRRTOT, NRRMU, NRREXT in *; lia. }
  destruct (_ && _) eqn:Hempty.
  { eapply safe_mono; [apply (purge_cache_spec now s L (purge_limit global) true Hinv); apply Hsort; [lia|done]|]. cbn beta.
    intros _ s' (L' & Hinv' & HL' & Hso & Hlo & _). split; [exists L'; split; [done|by apply (grown_le 0)]|]. split; [done|]. split; [done|]. intros _ [Hn|(j & Hj & Hn)]; zbool; [congruence|]. exfalso. apply Hn. by apply num_rrs_zero. }
  clear Hempty. destruct (copy_cent_spec (mem s) c L (ok_tag _ Hok) (core_dll _ _ (inv_core _ _ Hinv))) as (r & m1 & Hcp & Hd1 & Hmo1 & Hr).
  { rewrite Hq. pose proof (rhnlen_spec nm [] (proj1 Hnm)) as Hl. by rewrite app_nil_r in Hl. }
  s_bind. apply (safe_on_mem _ _ _ _ _ Hcp). pose proof (invx_mem s L m1 Hinv Hd1) as Hinv1. set (s1 := mkCache m1 _ _ _ _ _) in *.
  destruct r as [[a ce]|].
  2: { apply safe_warn. split; [exists L; split; [done|apply grown_refl]|]. split; [done|]. split; [by apply locals_same|]. intros [Hm _]. by apply Hmo1 in Hm. }
  destruct Hr as (Ha & Hbrk & Hcopy). destruct (copy_of_ok c ce Hok Hcopy) as (Hoke & Hnodes & Hnege).
  assert (Hqe : qname ce = rhn nm) by (rewrite (same_qname _ _ (copy_same _ _ Hcopy)); done).
  assert (Hfresh : cents s !! a = None).
  { destruct (cents s !! a) eqn:E; [|done]. pose proof (core_addr _ _ (inv_core _ _ Hinv) a ltac:(by eexists)). lia. }
  s_bind. apply safe_modify. pose proof (invx_new s1 L a ce nm Hinv1 Hfresh ltac:(cbn; lia) Hoke Hnodes Hnm Hqe) as Hinv2.
  set (s2 := mkCache _ _ _ _ _ _) in Hinv2. change (mkCache (mem s1) _ _ _ _ _) with s2.
  assert (Hc2 : cents s2 !! a = Some ce) by apply lookup_insert_eq. s_bind.
  apply (safe_mono _ (λ ok s3, (mem_ok (mem s) → ok = true) ∧ frame s1 s3 ∧ ∃ L3 c3,
    invx (Some a) (Some a) {[a]} s3 L3 ∧ (length L3 ≤ Z.to_nat NRRTOT + length L)%nat ∧ cents s3 = <[a := c3]> (cents s) ∧
    qname c3 = rhn nm ∧ cs c3 = cs c ∧ (ok = true → view_cent c3 = adjusted c))).
  { assert (Hcse : cs ce = cs c) by apply Hcopy. assert (Hadj : adjusted ce = adjusted c) by (by apply adjusted_view, view_copy).
    destruct (negative ce) eqn:Hneg.
    - assert (Hnl : neg_lent ce = None). { unfold cent_nodes in Hnodes. unfold neg_lent. destruct (u ce) as [[p|]|]; done. }
      destruct (adjust_dom_ttl_spec ce Hoke Hneg) as (ce' & Hadjd & Hoke' & Hsm & Hcs & Hnl' & Hneg' & Hv).
      s_need Hadjd. s_bind. apply safe_modify. set (s3 := mkCache _ _ _ _ _ _).
      assert (Hc3 : cents s3 !! a = Some ce') by apply lookup_insert_eq.
      assert (Hslots : ∀ k, slot ce' k = None ∧ slot ce k = None) by (intros k; split; apply slot_negative; done || apply Hoke || apply Hoke').
      assert (Hinv3 : invx (Some a) (Some a) {[a]} s3 L).
      { eapply (invx_update s2); [exact Hinv2|exact Hc2| |done|apply Hsm|done..].
        eapply core_same; [apply Hinv2|exact Hc2|apply dropped_refl|done|done|]. intros [x|] j le; cbn [owner]; [|by rewrite Hnl'].
        destruct (Hslots j) as [-> ->]. done. }
      eapply safe_mono; [apply (insert_rrl_spec _ _ s3 L a ce' None (-1) Hinv3 Hc3); split; [done|]; split; [done|congruence]|]. cbn beta.
      intros ok s4 (Hmo & Hf & L4 & c4 & Hinv4 & HL4 & Hc4 & Hsm4 & Hcs4 & Hv4 & _). split; [intros Hm; apply Hmo; by apply Hd1|].
      split; [by destruct Hf|]. exists L4, c4. split; [done|]. split; [unfold NRRTOT, NRRMU, NRREXT; lia|]. rewrite Hc4. cbn [cents s3 s2 s1]. rewrite !insert_insert_eq.
      split; [done|]. split; [rewrite (same_qname _ _ Hsm4), (same_qname _ _ Hsm); done|]. split; [congruence|]. intros _. congruence.
    - s_need (RRARR_LEN_slots ce (ok_tag _ Hoke)).
      eapply safe_mono; [apply (list_sets_spec (Z.to_nat (num_slots ce)) (Some a) {[a]} s2 L a ce 0 Hinv2 Hc2)|].
      + done.
      + unfold num_slots, zlen; lia.
      + intros j st Hj Hst. destruct (lent st) as [p|] eqn:Hl; [|done]. exfalso.
        assert (p ∈ cent_nodes ce) as Hin; [|by rewrite Hnodes in Hin; apply not_elem_of_nil in Hin].
        apply elem_of_cent_nodes; [apply Hoke|]. exists (Some (addr st)), j. split; [done|]. by exists st.
      + cbn beta. intros ok s3 (Hmo & Hf & L3 & c3 & Hinv3 & HL3 & Hc3 & Hsm & Hcs & Hok3 & Hfl & Hvn & Hns & Hv).
        split; [intros Hm; apply Hmo; by apply Hd1|]. split; [by destruct Hf|]. exists L3, c3. split; [done|].
        split; [pose proof (num_slots_le ce (ok_tag _ Hoke)); lia|]. rewrite Hc3. cbn [cents s2 s1]. rewrite insert_insert_eq. split; [done|].
        split; [rewrite (same_qname _ _ Hsm); done|]. split; [congruence|]. intros ->. rewrite <-Hadj.
        pose proof (view_neg_none ce (ok_tag _ Hoke) Hneg) as Hvn0. apply adjusted_slots; try done; [congruence|].
        intros j Hj. rewrite Hv by done. zif (j <? 0); [lia|done]. }
  intros ok s3 (Hmo & Hf & L3 & c3 & Hinv3 & HL3 & Hcc3 & Hq3 & Hcs3 & Hv3).
  assert (Hc3 : cents s3 !! a = Some c3) by (rewrite Hcc3; apply lookup_insert_eq).
  assert (Hdel : delete a (cents s3) = cents s) by (rewrite Hcc3, delete_insert_id; done). s_bind.
  destruct ok; cbn [negb].
  2: { apply safe_ret. s_load Hc3. apply (discard_spec s3 L3 a c3 _ Hinv3 Hc3). intros s' L' Hinv' HL' Hso Hcc. split; [exists L'; split; [done|right; unfold NRRTOT, NRRMU, NRREXT in *; lia]|].
       split; [intros Hs; rewrite Hso; rewrite (frame_sort _ _ Hf); done|]. split; [apply locals_same; congruence|]. intros [Hm _]. by apply Hmo in Hm. }
  destruct (malloc_spec (mem s3)) as (p & m4 & Hm & Hrl & Hd4 & Hokm & Hp). s_bind. apply (safe_on_mem _ _ _ _ _ Hm).
  s_get.
  cbn [hash].
  assert (Hh3 : hash s3 = hash s) by apply (frame_hash _ _ Hf). rewrite Hh3.
  assert (Hnone : contents_of (hash s) !! fold_name nm = None) by (unfold find in Hfind; by destruct (contents_of (hash s) !! fold_name nm)).
  destruct (place_add _ _ _ Hplace (not_null p) (DnsHash.mkCent (qname ce) a) nm Hnone Hnm Hqe ltac:(done)) as (t' & Hadd & Hwf & Hcon).
  s_need Hadd. s_bind. apply safe_modify. cbn [fst snd]. apply safe_ret.
  pose proof (invx_mem s3 L3 m4 Hinv3 Hd4) as Hinv4. set (s4 := mkCache m4 _ _ _ _ _) in Hinv4.
  s_bind. apply (safe_load a c3); [exact Hc3|]. destruct p as [p|]; cbn [not_null] in *.
  2: { eapply (discard_spec _ L3 a c3); [|exact Hc3|].
    - assert (Ht : t' = hash s3); [|rewrite Ht; exact Hinv4]. unfold add_dns_hash in Hadd. cbn in Hadd. rewrite Hh3. congruence.
    - intros s' L' Hinv' HL' Hso Hcc. split; [exists L'; split; [done|right; unfold NRRTOT, NRRMU, NRREXT in *; lia]|]. split; [intros Hs; rewrite Hso; cbn; rewrite (frame_sort _ _ Hf); done|].
      split; [apply locals_same; rewrite Hcc; exact Hdel|].
      intros [Hmm _]. exfalso. assert (mem_ok (mem s3)) as Hm3 by (apply Hf; by apply Hd1). by apply Hokm in Hm3. }
  s_bind. apply safe_modify. s_bind. apply safe_modify. cbn [mem cents hash cache_size ent_num insert_sort].
  assert (Hinv5 : inv (mkCache m4 (cents s3) t' (cache_size s3 + cs c3) (ent_num s3 + 1) (insert_sort s3)) L3).
  { apply (invx_added s4 L3 a c3 nm t' Hinv4 Hc3 Hwf Hnm Hq3).
    - unfold find. cbn [hash s4]. rewrite Hh3. exact Hfind.
    - cbn [hash s4]. rewrite Hh3, Hcon, Hq3, Hqe. done. }
  set (s5 := mkCache m4 (cents s3) t' (cache_size s3 + cs c3) (ent_num s3 + 1) (insert_sort s3)) in *.
  assert (Hsz5 : cache_size s5 = cache_size s + cs c) by (cbn [cache_size s5]; rewrite (frame_size _ _ Hf), Hcs3; cbn; lia).
  assert (HL5 : Z.of_nat (length L3) ≤ Z.of_nat (length L) + NRRTOT) by (unfold NRRTOT, NRRMU, NRREXT in *; lia).
  destruct (decide (cache_size s5 ≤ purge_limit global)) as [Hle|Hgt].
  - eapply safe_mono; [by apply (purge_cache_noop s5 L3)|]. cbn beta. intros _ s' ->. split; [exists L3; split; [done|by right]|].
    split; [intros Hs; cbn; rewrite (frame_sort _ _ Hf); done|]. split; [by eapply locals_fresh|]. intros [Hm0 _] _. split.
    + exists a, c3. split; [change (find s5 nm) with (contents <$> contents_of t' !! fold_name nm); by rewrite Hcon, lookup_insert_eq|].
      split; [done|]. split; [exact Hcc3|by apply Hv3].
    + intros nm' Hne. unfold find. cbn [hash s5]. by rewrite Hcon, lookup_insert_ne.
    + done.
    + exact (frame_sort _ _ Hf).
    + cbn. apply Hd4, Hf. by apply Hd1.
  - eapply safe_mono; [apply (purge_cache_spec now s5 L3 _ true Hinv5); apply Hsort; [done|cbn; by rewrite (frame_sort _ _ Hf)]|]. cbn beta.
    intros _ s' (L' & Hinv' & HL' & Hso & Hlo & _). split; [exists L'; split; [done|destruct HL'; [by left|right; lia]]|].
    split; [intros Hs; apply Hso; cbn; rewrite (frame_sort _ _ Hf); done|].
    split; [etrans; [by eapply (locals_fresh s s5)|exact Hlo]|].
    intros [_ Hsz]. exfalso. apply Hgt. by rewrite Hsz5.
Qed.

(** ** A name that is in the cache *)

Lemma on_cent_spec {A} y X s L a c (f : dns_cent_t → Mem (A * dns_cent_t)) x c' m' D :
  invx (Some a) y X s L → cents s !! a = Some c → f c (mem s) = Some ((x, c'), m', []) → dropped (mem s) m' D →
  cent_ok c' → same_cent c c' → (∀ ro i le, owner c' ro i le ↔ owner c ro i le ∧ le ∉ D) →
  (∀ le, le ∈ D → ∃ ro i, owner c ro i le) →
  safe (on_cent a f) (λ r s', r = x ∧ frame s s' ∧ cents s' = <[a := c']> (cents s) ∧
    invx (Some a) y X s' (filter (λ p, p ∉ D) L)) s.
Proof.
  intros Hinv Hc Hf Hd Hok Hsm Hown HD. eapply safe_on_cent; [exact Hc|exact Hf|]. split; [done|].
  split; [split; try done; apply Hd|]. split; [done|]. eapply (invx_update s); [exact Hinv|exact Hc| |done|apply Hsm|done..].
  eapply core_changed; [apply Hinv|exact Hc|exact Hd|done|done|done|done].
Qed.
Lemma rr_info_lookup i : 0 ≤ i < NRRTOT → ∃ rri, rr_info !! Z.to_nat i = Some rri.
Proof.
  intros Hi. destruct (rr_info !! Z.to_nat i) as [r|] eqn:E; [by exists r|]. apply lookup_ge_None in E.
  change (length rr_info) with (Z.to_nat NRRTOT) in E. lia.
Qed.

(** A set without records, and without a node. *)
Lemma add_set_spec y X s L a c i t ts f :
  invx (Some a) y X s L → cents s !! a = Some c → 0 ≤ i < NRRTOT → slot c i = None →
  safe (on_cent a (λ c, add_cent_rrset_by_index c i t ts f)) (λ ok s', (mem_ok (mem s) → ok = true) ∧ frame s s' ∧ ∃ L' c',
    invx (Some a) y X s' L' ∧ (length L' ≤ length L)%nat ∧ cents s' = <[a := c']> (cents s) ∧ cent_ok c' ∧ same_cent c c' ∧
    neg_lent c' = None ∧ negative c' = false ∧ (∀ j, 0 ≤ j → j ≠ i → slot c' j = slot c j) ∧
    if ok : bool then ∃ b, slot c' i = Some (mkSet b None t ts f []) else slot c' i = None) s.
Proof.
  intros Hinv Hc Hi Hnone. pose proof (core_cent _ _ (inv_core _ _ Hinv) _ _ Hc) as Hok.
  destruct (add_cent_rrset_spec (mem s) c i t ts f L Hok Hi Hnone (core_dll _ _ (inv_core _ _ Hinv))) as
    (ok & c' & m' & Hrun & Hd & Hmo & Hok' & Hsm & Hneg & Hnl & _ & Hsl & Hsi).
  { intros p Hp. by apply (core_owner_in s L a c None (-1) p (inv_core _ _ Hinv) Hc). }
  eapply safe_mono; [eapply (on_cent_spec y X s L a c _ ok c' m' _ Hinv Hc Hrun Hd Hok' Hsm)|].
  - assert (Hni : ∀ x j le, owner c (Some x) j le → le ∉ node_set (neg_lent c)).
    { intros x j le Ho. destruct (neg_lent c) as [p|] eqn:Ep; cbn [node_set]; [|set_solver]. intros ->%elem_of_singleton.
      pose proof (core_target _ _ _ _ _ _ _ (inv_core _ _ Hinv) Hc Ho).
      pose proof (core_target s L a c None (-1) p (inv_core _ _ Hinv) Hc (conj eq_refl Ep)). congruence. }
    intros [x|] j le; cbn [owner]; [|rewrite Hnl; split; [by intros [_ ?]|intros [[_ Hp] Hn]; exfalso; apply Hn; rewrite Hp; set_solver]].
    assert (Hcase : ∀ s', slot c' j = Some s' → lent s' = Some le → slot c j = Some s' ∨ 0 > j).
    { intros s' Hs' Hle. destruct (decide (0 ≤ j)); [|right; lia]. left. destruct (decide (j = i)) as [->|]; [|by rewrite <-Hsl].
      rewrite Hs' in Hsi. destruct Hsi as (_ & b & ->). done. }
    split.
    + intros (Hj & s' & Hs' & Hx & Hle). destruct (Hcase s' Hs' Hle) as [Hs|?]; [|lia].
      assert (Ho : owner c (Some x) j le) by (split; [done|]; by exists s'). split; [exact Ho|by eapply Hni].
    + intros [(Hj & s' & Hs' & Hx & Hle) _]. split; [done|]. exists s'. rewrite Hsl; [done|done|]. intros ->. congruence.
  - intros le. destruct (neg_lent c) as [p|] eqn:Ep; cbn [node_set]; [|set_solver]. intros Hle. apply elem_of_singleton in Hle as ->. by exists None, (-1).
  - cbn beta. intros r s' (-> & Hf & Hcents & Hinv'). split; [done|]. split; [done|]. eexists _, c'. split; [exact Hinv'|].
    split; [apply length_filter|]. do 6 (split; [done|]). destruct (slot c' i); [by destruct Hsi as (-> & b & ->); exists b|by subst ok].
Qed.
Lemma owner_rrs c c' i rs rs' ro j le :
  slot c i = Some rs → slot c' i = Some rs' → addr rs' = addr rs → lent rs' = lent rs → neg_lent c' = neg_lent c →
  (∀ j, 0 ≤ j → j ≠ i → slot c' j = slot c j) → owner c' ro j le ↔ owner c ro j le.
Proof.
  intros Hs Hs' Ha Hl Hnl Hsl. eapply owner_slot_same; [exact Hs|exact Ha|exact Hl|exact Hnl|].
  intros k Hk. destruct (Z.eqb_spec k i) as [->|]; [done|by apply Hsl].
Qed.
(** The records are added one after the other. *)
Lemma add_rrs_spec l y X s L a c i t ts f rtail rs :
  invx (Some a) y X s L → cents s !! a = Some c → 0 ≤ i < NRRTOT → slot c i = Some rs → neg_lent c = None →
  rtail = match rrs rs with [] => None | _ => Some (pred (length (rrs rs))) end →
  safe (add_rrs l a i t ts f rtail) (λ ok s', (mem_ok (mem s) → ok = true) ∧ frame s s' ∧ ∃ L' c' l',
    invx (Some a) y X s' L' ∧ (length L' ≤ length L)%nat ∧ cents s' = <[a := c']> (cents s) ∧ cent_ok c' ∧ same_cent c c' ∧
    (∀ j, 0 ≤ j → j ≠ i → slot c' j = slot c j) ∧ slot c' i = Some (with_rrs rs (rrs rs ++ l')) ∧ (ok = true → l' = l)) s.
Proof.
  revert s L c rtail rs. induction l as [|b l IH]; intros s L c rtail rs Hinv Hc Hi Hrs Hnl ->; pose proof (core_cent _ _ (inv_core _ _ Hinv) _ _ Hc) as Hok.
  { apply safe_ret. split; [done|]. split; [done|]. exists L, c, []. rewrite insert_id by done. rewrite app_nil_r. repeat (split; [done|]).
    split; [by destruct rs|done]. }
  cbn [add_rrs]. set (rtail := match rrs rs with [] => None | _ => _ end).
  destruct (add_cent_rr_int_spec (mem s) c i t ts f b rtail L Hok Hi (core_dll _ _ (inv_core _ _ Hinv)) Hnl) as
    (ok & rtail' & c' & m' & Hrun & Hd & Hmo & Hok' & Hsm & Hnl' & _ & Hsl & Hcase).
  { subst rtail. destruct (rrs rs) eqn:E; [done|]. exists rs. split; [done|]. rewrite E. cbn. lia. }
  assert (Hsi : ∃ rs', slot c' i = Some rs' ∧ addr rs' = addr rs ∧ lent rs' = lent rs ∧
    if ok then rs' = with_rrs rs (rrs rs ++ [b]) ∧ rtail' = Some (length (rrs rs)) else rs' = rs).
  { destruct ok; [|exists rs; by rewrite Hcase]. destruct Hcase as (_ & Hrt & r & Hr & Hr'). rewrite Hrs in Hr'. subst r.
    eexists. split; [exact Hr|]. split; [done|]. split; [done|]. rewrite Hrt. subst rtail.
    destruct (rrs rs) as [|b0 l0] eqn:E; cbn [put_rr]; [done|]. cbn [pred length]. split; [|done].
    rewrite take_ge, drop_ge by (cbn; lia). done. }
  destruct Hsi as (rs' & Hrs' & Hra & Hrl & Hrcase). s_bind.
  eapply safe_mono; [eapply (on_cent_spec y X s L a c _ (ok, rtail') c' m' ∅ Hinv Hc)|].
  - rewrite (M_bind_run0 _ _ _ _ _ Hrun). done.
  - done. - done. - done.
  - intros ro j le. rewrite (owner_rrs c c' i rs rs') by (done || congruence). set_solver.
  - set_solver.
  - cbn beta. rewrite filter_all by set_solver. intros r s1 (-> & Hf & Hc1 & Hinv1).
    assert (Hc1' : cents s1 !! a = Some c') by (rewrite Hc1; apply lookup_insert_eq). destruct ok.
    + destruct Hrcase as [-> ->]. eapply safe_mono; [apply (IH s1 L c' _ _ Hinv1 Hc1' Hi Hrs' Hnl')|].
      { cbn [rrs with_rrs]. destruct (rrs rs) as [|b0 l0]; [done|]. cbn. rewrite length_app. cbn. f_equal. lia. }
      cbn beta. intros ok s2 (Hmo2 & Hf2 & L2 & c2 & l' & Hinv2 & HL2 & Hc2 & Hok2 & Hsm2 & Hsl2 & Hs2 & Hl').
      split; [intros Hm; by apply Hmo2, Hf|]. split; [by etrans|]. exists L2, c2, (b :: l'). split; [done|]. split; [done|].
      split; [by rewrite Hc2, Hc1, insert_insert_eq|]. split; [done|]. split; [by etrans|].
      split; [intros j Hj Hne; rewrite Hsl2, Hsl; done|]. split; [|by intros ->%Hl']. rewrite Hs2. cbn. by rewrite <-app_assoc.
    + subst rs'. apply safe_ret. split; [intros Hm; by apply Hmo in Hm|]. split; [done|]. exists L, c', []. split; [done|].
      split; [done|]. split; [done|]. split; [done|]. split; [done|]. split; [done|]. split; [rewrite app_nil_r; rewrite Hrs'; by destruct rs|done].
Qed.

(** A set of the entry was replaced: the place holds the new set with its time to live
    adjusted, or nothing; a set of another type may have had to go, but no local one for
    one that is not. *)
Definition may_go (f : Z) (v : option rr_set_t) : Prop := ∀ st, v = Some st → has f CF_LOCAL = true ∨ has (flags st) CF_LOCAL = false.
Record replaced (a : Z) (s s' : cache) (n : nat) (L : list Z) (c : dns_cent_t) (ok_slot : Z → option rr_set_t → Prop) : Prop := {
  rp_frame : frame s s';
  rp_ex : ∃ L' c', invx (Some a) None ∅ s' L' ∧ (length L' ≤ n + length L)%nat ∧ cents s' = <[a := c']> (cents s) ∧ cent_ok c' ∧
    same_cent c c' ∧ ∀ j, 0 ≤ j → ok_slot j (slot c' j);
}.
Definition replaced_slot (c : dns_cent_t) (i : Z) (new : rr_set_t) (j : Z) (v : option rr_set_t) : Prop :=
  if j =? i then v = None ∨ view v = view (Some (adjust_ttl global new))
  else view v = view (slot c j) ∨ v = None ∧ may_go (flags new) (slot c j).
Lemma replace_set_spec s L a c i new :
  invx (Some a) None ∅ s L → cents s !! a = Some c → 0 ≤ i < NRRTOT →
  safe (replace_set global now a i new) (λ ok s', (mem_ok (mem s) → ok = true) ∧
    replaced a s s' 1 L c (replaced_slot c i new)) s.
Proof.
  intros Hinv Hc Hi. unfold replace_set. s_bind. eapply safe_mono; [by apply (del_uncounted_spec None ∅ s L a c i)|].
  cbn beta. intros _ s1 (Hf1 & L1 & c1 & Hinv1 & HL1 & Hc1 & Hg). assert (Hc1' : cents s1 !! a = Some c1) by (rewrite Hc1; apply lookup_insert_eq).
  destruct (rr_info_lookup i Hi) as [rri Hrri]. s_bind.
  eapply safe_mono; [by apply (cr_check_add_spec None ∅ s1 L1 a c1 i (ttl new) (ts new) (flags new) rri)|].
  cbn beta. intros ok s2 (P & [Hf2 (L2 & c2 & Hinv2 & HL2 & Hc2 & Hok2 & Hsm2 & _ & _ & Hsl2)] & HP & _).
  assert (Hc2' : cents s2 !! a = Some c2) by (rewrite Hc2; apply lookup_insert_eq).
  assert (Hi2 : slot c2 i = None).
  { destruct (Hsl2 i ltac:(lia)) as [[-> _]|[? _]]; [|done]. rewrite (gone_slot _ _ _ Hg) by lia. by rewrite Z.eqb_refl. }
  assert (Hfin : ∀ s' L' c', invx (Some a) None ∅ s' L' → (length L' ≤ S (length L2))%nat → frame s2 s' → cents s' = <[a := c']> (cents s2) →
    cent_ok c' → same_cent c2 c' → (∀ j, 0 ≤ j → j ≠ i → slot c' j = slot c2 j) →
    (slot c' i = None ∨ view (slot c' i) = view (Some (adjust_ttl global new))) → replaced a s s' 1 L c (replaced_slot c i new)).
  { intros s' L' c' Hinv' HL' Hf' Hc' Hok' Hsm' Hsl' Hv. split; [by etrans; [exact Hf1|etrans]|]. exists L', c'.
    split; [done|]. split; [lia|]. split; [by rewrite Hc', Hc2, Hc1, !insert_insert_eq|]. split; [done|].
    split; [etrans; [apply Hg|]; by etrans|]. intros j Hj. unfold replaced_slot. zif (j =? i); [by subst j|].
    rewrite Hsl' by done. destruct (Hsl2 j Hj) as [[-> _]|[-> Hgone]]; rewrite (gone_slot _ _ _ Hg) in * by done.
    - zif (j =? i); [done|]. by left.
    - zif (j =? i); [done|]. right. split; [done|]. intros st Hst. destruct Hgone as [?|Hp]; [congruence|].
      destruct (HP j Hp) as (st' & Hst' & _ & Hl). rewrite (gone_slot _ _ _ Hg) in Hst' by done. zif (j =? i); [done|]. congruence. }
  destruct ok; cbn [negb].
  2: { apply safe_ret. split; [done|]. apply (Hfin s2 L2 c2); try done; [lia|by rewrite insert_id|by left]. }
  s_bind. eapply safe_mono; [by apply (add_set_spec None ∅ s2 L2 a c2 i (ttl new) (ts new) (flags new))|]. cbn beta.
  intros ok s3 (Hmo3 & Hf3 & L3 & c3 & Hinv3 & HL3 & Hc3 & Hok3 & Hsm3 & Hnl3 & Hneg3 & Hsl3 & Hs3).
  assert (Hc3' : cents s3 !! a = Some c3) by (rewrite Hc3; apply lookup_insert_eq).
  destruct ok; cbn [negb].
  2: { apply safe_ret. split; [intros Hm; by apply Hmo3, Hf2, Hf1|]. apply (Hfin s3 L3 c3); try done; [lia|by left]. }
  destruct Hs3 as [b Hs3]. s_bind.
  eapply safe_mono; [by apply (add_rrs_spec (rrs new) None ∅ s3 L3 a c3 i (ttl new) (ts new) (flags new) None _ Hinv3 Hc3' Hi Hs3 Hnl3)|].
  cbn beta. intros ok s4 (Hmo4 & Hf4 & L4 & c4 & l' & Hinv4 & HL4 & Hc4 & Hok4 & Hsm4 & Hsl4 & Hs4 & Hl'). cbn [rrs with_rrs app] in Hs4.
  assert (Hc4' : cents s4 !! a = Some c4) by (rewrite Hc4; apply lookup_insert_eq). s_bind.
  apply (safe_mono _ (λ ok s5, (mem_ok (mem s) → ok = true) ∧ frame s4 s5 ∧ ∃ L5 c5, invx (Some a) None ∅ s5 L5 ∧ (length L5 ≤ S (length L4))%nat ∧
    cents s5 = <[a := c5]> (cents s4) ∧ same_cent c4 c5 ∧ cent_ok c5 ∧ (∀ j, 0 ≤ j → j ≠ i → slot c5 j = slot c4 j) ∧
    (ok = true → view (slot c5 i) = view (Some (adjust_ttl global new))))).
  { destruct ok.
    - specialize (Hl' eq_refl). subst l'. s_load Hc4'. s_need (index_slot c4 i (ok_tag _ Hok4) (slot_lt _ _ _ Hs4 (proj1 Hi))). rewrite Hs4. s_need (eq_refl (Some (mkSet b None (ttl new) (ts new) (flags new) (rrs new)))).
      cbn zeta. eapply safe_mono; [by apply (list_set_spec None ∅ s4 L4 a c4 i (mkSet b None (ttl new) (ts new) (flags new) (rrs new)) Hinv4 Hc4' Hs4 eq_refl (proj1 Hi))|]. cbn beta.
      intros ok s5 (Hmo5 & Hf5 & L5 & c5 & Hinv5 & HL5 & Hc5 & Hsm5 & _ & Hok5 & Hv5 & Hsl5). split; [intros Hm; by apply Hmo5, Hf4, Hf3, Hf2, Hf1|].
      split; [done|]. exists L5, c5. do 6 (split; [done|]). intros _. rewrite view_slot, Hv5. cbn [v_slots set_view].
      rewrite list_lookup_insert_eq; [exact (adjust_view (Some (mkSet b None (ttl new) (ts new) (flags new) (rrs new))) (Some new) eq_refl)|].
      cbn. rewrite length_map. pose proof (slot_lt _ _ _ Hs4 (proj1 Hi)). unfold num_slots, zlen in *. lia.
    - apply safe_ret. split; [intros Hm; by apply Hmo4, Hf3, Hf2, Hf1|]. split; [done|]. exists L4, c4. rewrite insert_id by done.
      repeat (split; [done || lia|]). done. }
  intros ok' s5 (Hmo5 & Hf5 & L5 & c5 & Hinv5 & HL5 & Hc5 & Hsm5 & Hok5 & Hsl5 & Hs5). cbn beta.
  assert (Hc5' : cents s5 !! a = Some c5) by (rewrite Hc5; apply lookup_insert_eq). s_bind. destruct ok'; cbn [negb when].
  - apply safe_ret, safe_ret. split; [done|]. apply (Hfin s5 L5 c5); [done|lia|etrans; [|exact Hf5]; by etrans|by rewrite Hc5, Hc4, Hc3, !insert_insert_eq|done| | |right; by apply Hs5].
    + etrans; [|exact Hsm5]. by etrans.
    + intros j Hj Hne. by rewrite Hsl5, Hsl4, Hsl3.
  - s_bind. eapply safe_mono; [by apply (del_uncounted_spec None ∅ s5 L5 a c5 i)|]. cbn beta.
    intros _ s6 (Hf6 & L6 & c6 & Hinv6 & HL6 & Hc6 & Hg6). apply safe_ret, safe_ret. split; [done|].
    apply (Hfin s6 L6 c6); [done|lia|etrans; [|exact Hf6]; etrans; [|exact Hf5]; by etrans|by rewrite Hc6, Hc5, Hc4, Hc3, !insert_insert_eq|apply Hg6| | |].
    + etrans; [|apply Hg6]. etrans; [|exact Hsm5]. by etrans.
    + intros j Hj Hne. rewrite (gone_slot _ _ _ Hg6) by done. zif (j =? i); [done|]. by rewrite Hsl5, Hsl4, Hsl3.
    + left. rewrite (gone_slot _ _ _ Hg6) by lia. by rewrite Z.eqb_refl.
Qed.

(** What the sets of a new entry may do to the set at a place. *)
Definition some_local (new : dns_cent_t) : Prop := ∃ i, 0 ≤ i ∧ is_local (slot new i) = true.
Definition changed (new : dns_cent_t) (j : Z) (v v' : option rr_set_t) : Prop :=
  view v' = view v ∨
  (some_local new ∨ is_local v = false) ∧
  (v' = None ∨ ∃ st, slot new j = Some st ∧ view v' = view (Some (adjust_ttl global st))).
Lemma changed_trans new j v v' v'' : changed new j v v' → changed new j v' v'' → changed new j v v''.
Proof.
  intros [H1|[L1 H1]] [H2|[L2 H2]]; [left; congruence| | |right; by split]; right.
  - split; [|done]. destruct L2 as [?|L2]; [by left|right]. by rewrite <-L2, (view_local _ _ H1).
  - split; [done|]. destruct H1 as [->|(st & Hst & Hv)]; [left; by destruct v''|right]. exists st. split; [done|congruence].
Qed.
Lemma may_go_local new k st v : slot new k = Some st → 0 ≤ k → may_go (flags st) v → some_local new ∨ is_local v = false.
Proof.
  intros Hst Hk Hm. destruct v as [o|]; [|by right]. destruct (Hm o eq_refl) as [Hl|Hl]; [left|by right].
  exists k. split; [done|]. by rewrite Hst.
Qed.
Lemma replaced_changed c new i st v j :
  slot new i = Some st → 0 ≤ i → replaced_slot c i st j v → (j = i → may_go (flags st) (slot c i)) → changed new j (slot c j) v.
Proof.
  intros Hst Hi Hr Hm. unfold replaced_slot in Hr. destruct (Z.eqb_spec j i) as [->|Hne].
  - right. split; [by eapply may_go_local; [| |apply Hm]|]. destruct Hr as [?|?]; [by left|right; by exists st].
  - destruct Hr as [?|[-> Hg]]; [by left|right]. split; [by eapply may_go_local|by left].
Qed.

Lemma replace_sets_spec n s L a c i new :
  invx (Some a) None ∅ s L → cents s !! a = Some c → cent_ok new → 0 ≤ i → i + Z.of_nat n = num_slots new →
  safe (replace_sets global now n a i new) (λ ok s', (mem_ok (mem s) → ok = true) ∧
    replaced a s s' n L c (λ j v, changed new j (slot c j) v)) s.
Proof.
  revert s L c i. induction n as [|n IH]; intros s L c i Hinv Hc Hnew Hi Hn.
  { apply safe_ret. split; [done|]. split; [done|]. exists L, c. rewrite insert_id by done.
    split; [done|]. split; [done|]. split; [done|]. split; [by apply (core_cent _ _ (inv_core _ _ Hinv) a)|]. split; [done|]. by left. }
  pose proof (num_slots_le new (ok_tag _ Hnew)) as Hle. cbn [replace_sets]. s_need (index_slot new i (ok_tag _ Hnew) ltac:(lia)). s_bind.
  apply (safe_mono _ (λ ok s', (mem_ok (mem s) → ok = true) ∧ replaced a s s' 1 L c (λ j v, changed new j (slot c j) v))).
  { assert (Hid : safe (mret true) (λ (ok : bool) s', (mem_ok (mem s) → ok = true) ∧ replaced a s s' 1 L c (λ j v, changed new j (slot c j) v)) s).
    { apply safe_ret. split; [done|]. split; [done|]. exists L, c. rewrite insert_id by done.
      split; [done|]. split; [lia|]. split; [done|]. split; [by apply (core_cent _ _ (inv_core _ _ Hinv) a)|]. split; [done|]. by left. }
    destruct (slot new i) as [st|] eqn:Hst; [|exact Hid]. s_load Hc.
    s_need (testext_slot c i (ok_tag _ (core_cent _ _ (inv_core _ _ Hinv) _ _ Hc)) ltac:(lia)).
    destruct (match slot c i with Some o => old_precedes now st o | None => false end) eqn:Hold; [exact Hid|].
    eapply safe_mono; [apply (replace_set_spec s L a c i st Hinv Hc); lia|]. cbn beta. intros ok s' [Hmo [Hf (L' & c' & Hinv' & HL' & Hc' & Hok' & Hsm & Hsl)]].
    split; [done|]. split; [done|]. exists L', c'. do 5 (split; [done|]). intros j Hj. eapply replaced_changed; [exact Hst|done|by apply Hsl|].
    intros _ o Ho. rewrite Ho in Hold. unfold old_precedes in Hold. destruct (has (flags st) CF_LOCAL); [by left|right].
    apply orb_false_iff in Hold as [Hold _]. by destruct (has (flags o) CF_LOCAL). }
  intros ok s1 [Hmo [Hf (L1 & c1 & Hinv1 & HL1 & Hc1 & Hok1 & Hsm1 & Hsl1)]].
  assert (Hc1' : cents s1 !! a = Some c1) by (rewrite Hc1; apply lookup_insert_eq). cbn beta. destruct ok.
  - eapply safe_mono; [apply (IH s1 L1 c1 (i + 1) Hinv1 Hc1' Hnew); lia|]. cbn beta.
    intros ok s2 [Hmo2 [Hf2 (L2 & c2 & Hinv2 & HL2 & Hc2 & Hok2 & Hsm2 & Hsl2)]]. split; [intros Hm; by apply Hmo2, Hf|].
    split; [by etrans|]. exists L2, c2. split; [done|]. split; [lia|]. split; [by rewrite Hc2, Hc1, insert_insert_eq|]. split; [done|].
    split; [by etrans|]. intros j Hj. eapply changed_trans; [by apply Hsl1|by apply Hsl2].
  - apply safe_ret. split; [done|]. split; [done|]. exists L1, c1. split; [done|]. split; [lia|]. done.
Qed.

(** The size of an entry is left out, and added again. *)
Lemma uncount s L a c :
  inv s L → cents s !! a = Some c →
  invx (Some a) None ∅ (mkCache (mem s) (cents s) (hash s) (cache_size s + - cs c) (ent_num s) (insert_sort s)) L.
Proof.
  intros [Hcore Ht [Hs Hn]] Hc. split; [by apply (core_eq s)|by destruct Ht|].
  split; cbn [cache_size ent_num cents without] in *; [rewrite (total_delete _ _ _ Hc); lia|done].
Qed.
Lemma recount s L a c :
  invx (Some a) None ∅ s L → cents s !! a = Some c →
  inv (mkCache (mem s) (cents s) (hash s) (cache_size s + cs c) (ent_num s) (insert_sort s)) L.
Proof.
  intros [Hcore Ht [Hs Hn]] Hc. split; [by apply (core_eq s)|by destruct Ht|].
  split; cbn [cache_size ent_num cents without] in *; [rewrite Hs, (total_delete _ _ _ Hc); lia|done].
Qed.
Lemma set_meta y X s L a c f ns soa :
  invx (Some a) y X s L → cents s !! a = Some c → has f DF_NEGATIVE = has (c_flags c) DF_NEGATIVE →
  let c' := mkCent (qname c) (cs c) (num_rrs c) f (u c) ns soa in
  invx (Some a) y X (mkCache (mem s) (<[a := c']> (cents s)) (hash s) (cache_size s) (ent_num s) (insert_sort s)) L.
Proof.
  intros Hinv Hc Hf c'. pose proof (core_cent _ _ (inv_core _ _ Hinv) _ _ Hc) as Hok.
  eapply (invx_update s); [exact Hinv|exact Hc| |done|done|done|done|done].
  eapply core_same; [apply Hinv|exact Hc|apply dropped_refl|done| |done].
  destruct Hok as [Ht Hcs Hn]. split; [|done|done]. unfold cent_tag, negative in *. cbn [c_flags u c']. by rewrite Hf.
Qed.
Lemma has_lor_land f g b : Z.land b (Z.lor DF_AUTH DF_WILD) = 0 → has (Z.lor f (Z.land g (Z.lor DF_AUTH DF_WILD))) b = has f b.
Proof.
  intros Hb. apply has_lor_ne. rewrite (Z.land_comm g), Z.land_assoc, Hb. apply Z.land_0_l.
Qed.
Lemma some_local_dec new : cent_ok new → some_local new ∨ ∀ i, 0 ≤ i → is_local (slot new i) = false.
Proof.
  intros Hok. destruct (existsb is_local (map (slot new) (seqZ 0 (num_slots new)))) eqn:E.
  - left. apply existsb_exists in E as (v & Hv & Hl). apply in_map_iff in Hv as (i & <- & Hi).
    apply list_elem_of_In, elem_of_seqZ in Hi. exists i. split; [lia|done].
  - right. intros i Hi. destruct (is_local (slot new i)) eqn:El; [|done]. destruct (decide (i < num_slots new)) as [Hlt|Hge].
    + rewrite <-E. symmetry. apply existsb_exists. exists (slot new i). split; [|done]. apply in_map_iff. exists i. split; [done|].
      apply list_elem_of_In, elem_of_seqZ. lia.
    + by rewrite (slot_ge new i) in El by (unfold num_slots in Hge; lia).
Qed.
Lemma add_old_spec s L a c new :
  inv s L → room s L → cents s !! a = Some c → cent_ok new →
  safe (add_old global now a new) (λ _ s', (∃ L', inv s' L' ∧ grown NRRTOT s' L L') ∧ (insert_sort s = true → insert_sort s' = true) ∧
    (¬ some_local new → locals_kept s s')) s.
Proof.
  intros Hinv Hroom Hc Hnew. unfold add_old. s_bind. eapply safe_mono; [by apply (purge_cent_spec now s L a c false)|].
  cbn beta. intros r s1 Hr. zif (r <? 0); [by destruct Hr|]. destruct Hr as (c1 & L1 & Hre).
  pose proof (remains_lookup _ _ _ _ _ _ _ Hre) as Hc1. pose proof (re_inv _ _ _ _ _ _ _ Hre) as Hinv1. s_load Hc1.
  s_bind. apply safe_modify. pose proof (uncount s1 L1 a c1 Hinv1 Hc1) as Hinv2. set (s2 := mkCache _ _ _ _ _ _) in Hinv2.
  change (mkCache (mem s1) _ _ _ _ _) with s2. s_need (RRARR_LEN_slots new (ok_tag _ Hnew)). s_bind.
  assert (Hz : 0 + Z.of_nat (Z.to_nat (num_slots new)) = num_slots new) by (unfold num_slots, zlen; lia).
  eapply safe_mono; [by apply (replace_sets_spec (Z.to_nat (num_slots new)) s2 L1 a c1 0 new Hinv2 Hc1 Hnew)|]. cbn beta.
  intros ok s3 [_ [Hf (L3 & c3 & Hinv3 & HL3 & Hcc3 & Hok3 & Hsm3 & Hsl3)]].
  assert (Hc3 : cents s3 !! a = Some c3) by (rewrite Hcc3; apply lookup_insert_eq).
  assert (Hso : insert_sort s3 = insert_sort s) by (rewrite (frame_sort _ _ Hf); apply Hre).
  assert (Hlo : ¬ some_local new → ∀ s' c', cents s' = <[a := c']> (cents s3) → qname c' = qname c3 →
    (∀ j, slot c' j = slot c3 j) → locals_kept s s').
  { intros Hno s' c' Hcc Hq Hsl. trans s1.
    - eapply (locals_update s s1 a c c1); [exact Hc|apply Hre|apply Hre|]. intros j Hj Hl. rewrite (re_slot _ _ _ _ _ _ _ Hre) by done.
      destruct (slot c j) as [st|]; [|done]. cbn in Hl |- *. unfold must_go. rewrite Hl. by destruct (has (flags st) CF_NOPURGE).
    - eapply (locals_update s1 s' a c1 c'); [exact Hc1|rewrite Hcc, Hcc3; cbn [cents s2]; by rewrite insert_insert_eq|rewrite Hq; apply Hsm3|].
      intros j Hj Hl. rewrite Hsl. destruct (Hsl3 j Hj) as [?|[[?|Hn] _]]; [done|done|congruence]. }
  assert (HL : Z.of_nat (length L3) ≤ Z.of_nat (length L) + NRRTOT).
  { pose proof (num_slots_le new (ok_tag _ Hnew)). pose proof (re_len _ _ _ _ _ _ _ Hre) as Hlen. unfold list_len in Hlen.
    rewrite (list_size _ _ (inv_core _ _ Hinv)), (list_size _ _ (inv_core _ _ Hinv1)) in Hlen. lia. }
  s_load Hc3. destruct ok.
  - s_bind. apply safe_modify. set (c4 := mkCent _ _ _ _ _ _ _).
    pose proof (set_meta None ∅ s3 L3 a c3 _ (newer_ref (c_ns c3) (c_ns new)) (newer_ref (c_soa c3) (c_soa new)) Hinv3 Hc3
      (has_lor_land (c_flags c3) (c_flags new) DF_NEGATIVE eq_refl)) as Hinv4. cbn zeta in Hinv4.
    s_bind. apply safe_modify.
    pose proof (recount _ L3 a c4 Hinv4 ltac:(apply lookup_insert_eq)) as Hinv5.
    eapply safe_mono; [apply (purge_cache_spec now _ L3 _ true Hinv5)|].
    + unfold sortable. cbn [insert_sort]. rewrite Hso. destruct Hroom as [?|Hr]; [by left|right; lia].
    + cbn beta. intros _ s' (L' & Hinv' & HL' & Hso' & Hlo' & _). split; [exists L'; split; [done|destruct HL'; [by left|right; lia]]|]. split; [intros Hs; apply Hso'; cbn; congruence|].
      intros Hno. etrans; [|exact Hlo']. by eapply (Hlo Hno _ c4).
  - s_bind. apply safe_modify. apply safe_warn. pose proof (recount s3 L3 a c3 Hinv3 Hc3) as Hinv5. split; [exists L3; split; [done|by right]|]. split; [cbn; congruence|].
    intros Hno. apply (Hlo Hno _ c3); [cbn [cents]; by rewrite insert_id|done|done].
Qed.

Lemma any_local_spec n c i (Q : bool → cache → Prop) s :
  cent_ok c → 0 ≤ i → i + Z.of_nat n = num_slots c →
  (∀ r, (r = false → ∀ j, i ≤ j → is_local (slot c j) = false) → Q r s) → safe (any_local n c i) Q s.
Proof.
  intros Hok. revert i. induction n as [|n IH]; intros i Hi Hn HQ.
  { apply safe_ret, HQ. intros _ j Hj. by rewrite (slot_ge c j) by (unfold num_slots in Hn; lia). }
  cbn [any_local]. s_need (index_slot c i (ok_tag _ Hok) ltac:(lia)).
  assert (Hnext : is_local (slot c i) = false → safe (any_local n c (i + 1)) Q s).
  { intros Hl. apply IH; [lia|lia|]. intros r Hr. apply HQ. intros Hf j Hj. destruct (decide (j = i)) as [->|]; [done|apply Hr; [done|lia]]. }
  destruct (slot c i) as [st|] eqn:Hst; [|by apply Hnext]. destruct (has (flags st) CF_LOCAL) eqn:Hl; [|by apply Hnext].
  apply safe_ret, HQ. done.
Qed.
(** [add_cache] keeps the invariant whatever it is given; local records stay unless the new
    entry has local ones; a new name is stored when there is memory and room. *)
Lemma add_retry_new s L nm c fuel :
  inv s L → room s L → wf_name nm → qname c = rhn nm → cent_ok c → find s nm = None →
  safe (add_retry global now (S fuel) c) (λ _ s', (∃ L', inv s' L' ∧ grown NRRTOT s' L L') ∧ (insert_sort s = true → insert_sort s' = true) ∧ locals_kept s s' ∧
    (roomy s c → useful c → added s s' nm c)) s.
Proof.
  intros Hinv Hroom Hnm Hq Hok Hf. cbn [add_retry]. rewrite Hq. s_bind.
  eapply safe_mono; [by apply (lookup_ent_spec s nm); [apply Hinv|]|]. cbn beta. intros [ret loc] s1 (-> & Hret & Hpl). cbn [fst snd] in *.
  rewrite Hf in Hret. subst ret. by apply (add_new_spec s L nm c loc).
Qed.
Lemma add_cache_spec s L nm c :
  inv s L → room s L → wf_name nm → qname c = rhn nm → cent_ok c →
  safe (add_cache global now c) (λ _ s', (∃ L', inv s' L' ∧ grown NRRTOT s' L L') ∧ (insert_sort s = true → insert_sort s' = true) ∧
    (¬ some_local c → locals_kept s s') ∧
    (find s nm = None → roomy s c → useful c → added s s' nm c)) s.
Proof.
  intros Hinv Hroom Hnm Hq Hok. unfold add_cache. destruct (find s nm) as [a|] eqn:Hf.
  2: { eapply safe_mono; [by apply (add_retry_new s L nm c)|]. cbn beta. intros _ s' (? & ? & ? & ?). done. }
  change 2%nat with (S 1). remember 1%nat as one eqn:Hone. cbn [add_retry]. subst one. rewrite Hq. s_bind.
  eapply safe_mono; [by apply (lookup_ent_spec s nm); [apply Hinv|]|]. cbn beta.
  intros [ret loc] s1 (-> & Hret & Hpl). cbn [fst snd] in *. rewrite Hf in Hret. subst ret.
  destruct (find_cent _ _ _ _ (inv_table _ _ Hinv) Hf) as (ca & Hca & _). pose proof (core_cent _ _ (inv_core _ _ Hinv) _ _ Hca) as Hoka.
  destruct (negative c) eqn:Hneg.
  2: { eapply safe_mono; [by apply (add_old_spec s L a ca c)|]. cbn beta. intros _ s' (? & ? & ?). done. }
  s_load Hca. s_need (RRARR_LEN_slots ca (ok_tag _ Hoka)). s_bind.
  assert (Hz : 0 + Z.of_nat (Z.to_nat (num_slots ca)) = num_slots ca) by (unfold num_slots, zlen; lia).
  apply any_local_spec; [done|done|done|]. intros keep Hkeep. destruct keep; [apply safe_ret; by split; [exists L; split; [done|apply grown_refl]|]|].
  s_bind. eapply safe_mono; [apply (del_cache_ent_spec s L a ca (Some loc) Hinv Hca); intros l [= <-]; by exists nm|]. cbn beta.
  intros _ s2 (Hde & k & d & Hd & Hda & Hcon). pose proof (de_inv _ _ _ _ _ _ Hde) as Hinv2.
  assert (Hk : k = fold_name nm).
  { unfold find in Hf. destruct (contents_of (hash s) !! fold_name nm) as [d'|] eqn:Hd'; [|done]. injection Hf as Hf.
    apply (table_uniq _ _ (inv_table _ _ Hinv) _ _ _ _ Hd Hd'). congruence. }
  assert (Hf2 : find s2 nm = None) by (unfold find; by rewrite Hcon, Hk, lookup_delete_eq).
  eapply safe_mono; [apply (add_retry_new s2 _ nm c 0 Hinv2); try done|].
  - unfold room. rewrite (de_sort _ _ _ _ _ _ Hde). destruct Hroom as [?|Hr]; [by left|right].
    pose proof (length_filter (λ p, p ∉ (list_to_set (cent_nodes ca) : gset Z)) L). lia.
  - cbn beta. intros _ s3 ((L3 & Hi3 & HL3) & Hso3 & Hlo3 & _).
    split; [exists L3; split; [done|]; destruct HL3 as [?|HL3]; [by left|right];
      pose proof (length_filter (λ p, p ∉ (list_to_set (cent_nodes ca) : gset Z)) L); lia|]. split; [rewrite <-(de_sort _ _ _ _ _ _ Hde); done|]. split; [|congruence].
    intros _. etrans; [|exact Hlo3]. eapply locals_delete; [exact Hca|apply Hde|]. intros j Hj. by apply Hkeep.
Qed.
End ops.
