(* ===== verification/DnsCacheOps.v ===== *)
(** * The operations of the DNS cache

    Lookups, changes of entries and deletions keep the invariant; what [lookup_cache] and
    [getlocalowner] find; every sequence of operations on the cache runs without an error. *)

From stdpp Require Import sorting.
From S2P Require Import Prelude CInt DnsName DnsCompress RrTypes RrList DnsHash DnsCent DnsCache Contract DnsCacheInv DnsCacheAdd.

(** ** The search up the hierarchy of names *)

(** The nearest enclosing name in the cache, and what it makes of the query. *)
Fixpoint enclosing (s : cache) (nm : list bytes) : option Z * Z :=
  match nm with
  | _ :: ((_ :: _) as t) =>
      match find s t with
      | None => enclosing s t
      | Some a =>
          match cents s !! a with
          | Some c =>
              if negative c then (Some a, w_neg)
              else if has (c_flags c) DF_WILD then
                let r := find s ([42] :: t) in (r, if not_null r then w_wild else 0)
              else if has (c_flags c) DF_LOCAL then (Some a, w_locnerr)
              else (None, 0)
          | None => (None, 0)
          end
      end
  | _ => (None, 0)
  end.
Definition found (s : cache) (nm : list bytes) (wild : bool) : option Z * Z :=
  match find s nm with
  | Some a => (Some a, 0)
  | None => if wild then enclosing s nm else (None, 0)
  end.
(** The nearest enclosing local name with records of the type, when all names below it
    that are in the cache are local. *)
Fixpoint owner_of (s : cache) (tp : Z) (nm : list bytes) : option (list bytes) :=
  match nm with
  | _ :: ((_ :: _) as t) =>
      match find s t ≫= λ a, cents s !! a with
      | None => owner_of s tp t
      | Some c =>
          if negb (has (c_flags c) DF_LOCAL) then None
          else if default false (have_rr c tp) then Some t else owner_of s tp t
      end
  | _ => None
  end.

Lemma rd_label nm k l t :
  nm = k ++ l :: t → wf_name nm →
  rd (rhn nm) (zlen (rhn_labels k)) = Some (zlen l) ∧ 0 < zlen l ∧
  rd (rhn nm) (zlen (rhn_labels k) + (zlen l + 1)) = Some (first_len t) ∧
  zlen (rhn_labels k) + (zlen l + 1) = zlen (rhn_labels (k ++ [l])) ∧
  zdrop (zlen (rhn_labels k) + (zlen l + 1)) (rhn nm) = rhn t ∧ wf_name (l :: t) ∧ wf_name t.
Proof.
  intros -> Hwf. assert (Hwf' := wf_name_drop _ (length k) Hwf). rewrite drop_app_length in Hwf'.
  assert (Hwt := wf_name_drop _ 1 Hwf'). cbn [drop] in Hwt.
  assert (Hl : 1 ≤ zlen l) by (destruct Hwf' as [H _]; apply list.Forall_cons in H as [[? _] _]; lia).
  assert (Hr : ∀ k' t', rhn (k' ++ t') = rhn_labels k' ++ rhn t') by (intros; unfold rhn; by rewrite rhn_labels_app, app_assoc).
  assert (Hk : zlen (rhn_labels k) + (zlen l + 1) = zlen (rhn_labels (k ++ [l]))).
  { rewrite rhn_labels_app, zlen_app. change (rhn_labels [l]) with ((zlen l :: l) ++ []). rewrite app_nil_r, zlen_cons. lia. }
  split; [rewrite Hr; pose proof (rd_first_len (rhn_labels k) (l :: t) []) as H; by rewrite app_nil_r in H|]. split; [lia|].
  assert (Hsplit : rhn (k ++ l :: t) = rhn_labels (k ++ [l]) ++ rhn t) by (rewrite <-Hr; by rewrite <-app_assoc).
  split; [rewrite Hk, Hsplit; pose proof (rd_first_len (rhn_labels (k ++ [l])) t []) as H; by rewrite app_nil_r in H|].
  split; [done|]. split; [rewrite Hk, Hsplit; apply zdrop_app_length|done].
Qed.
Lemma wf_name_star l t : wf_name (l :: t) → wf_name ([42] :: t) ∧ 2 + zlen (rhn t) ≤ DNSNAMEBUFSIZE.
Proof.
  intros [Hl Hlen]. apply list.Forall_cons in Hl as [[Hl _] Ht].
  assert (Hz : ∀ x, zlen (rhn (x :: t)) = 1 + zlen x + zlen (rhn t)) by (intros; rewrite rhn_cons, zlen_app, zlen_cons; lia).
  rewrite Hz in Hlen. split; [|lia]. split; [constructor; [split; [done|]|done]|rewrite Hz; change (zlen [42]) with 1; lia].
  constructor; [done|constructor].
Qed.
Lemma find_up_spec s L nm k t fuel :
  inv s L → wf_name nm → nm = k ++ t → t ≠ [] → (length t ≤ fuel)%nat →
  safe (find_up fuel (rhn nm) (zlen (rhn_labels k))) (λ r s', s' = s ∧ r = enclosing s t) s.
Proof.
  intros Hinv Hwf. revert k t. induction fuel as [|fuel IH]; intros k t Hnm Ht Hf; [destruct t; [done|cbn in Hf; lia]|].
  destruct t as [|l t]; [done|]. destruct (rd_label nm k l t Hnm Hwf) as (Hr1 & Hl & Hr2 & Hk & Hd & Hwl & Hwt).
  cbn [find_up]. s_need Hr1. s_need Hr2. destruct t as [|l2 t]; [by apply safe_ret|].
  assert (H2 : 0 < first_len (l2 :: t)) by (destruct Hwt as [H _]; apply list.Forall_cons in H as [[? _] _]; cbn; lia).
  zif (first_len (l2 :: t) =? 0); [lia|]. rewrite Hd. set (u := l2 :: t) in *. s_bind.
  eapply safe_mono; [by apply lookup_ent_spec; [apply Hinv|]|]. cbn beta. intros r s1 (-> & Hr & _).
  assert (He : enclosing s (l :: u) = match find s u with
      | None => enclosing s u
      | Some a => match cents s !! a with
          | Some c => if negative c then (Some a, w_neg)
              else if has (c_flags c) DF_WILD then let r := find s ([42] :: u) in (r, if not_null r then w_wild else 0)
              else if has (c_flags c) DF_LOCAL then (Some a, w_locnerr) else (None, 0)
          | None => (None, 0) end end) by done.
  rewrite He. clear He. rewrite Hr. destruct (find s u) as [a|] eqn:Hfu.
  - destruct (find_cent _ _ _ _ (inv_table _ _ Hinv) Hfu) as (c & Hc & _). rewrite Hc. s_load Hc.
    destruct (negative c); [by apply safe_ret|]. destruct (has (c_flags c) DF_WILD).
    + destruct (wf_name_star l u Hwl) as [Hws Hle]. pose proof (rhnlen_spec u [] (proj1 Hwt)) as Hlen. rewrite app_nil_r in Hlen.
      s_need Hlen. s_bind. apply safe_assert; [by apply Z.leb_le|]. rewrite ztake_all by done.
      replace ([1; 42] ++ rhn u) with (rhn ([42] :: u)) by (rewrite rhn_cons; done). s_bind.
      eapply safe_mono; [by apply lookup_ent_spec; [apply Hinv|]|]. cbn beta. intros r' s1 (-> & Hr' & _). apply safe_ret. by rewrite Hr'.
    + destruct (has (c_flags c) DF_LOCAL); by apply safe_ret.
  - rewrite Hk. apply IH; [by rewrite Hnm, <-app_assoc|done|subst u; cbn [length] in *; lia].
Qed.
Lemma find_ent_spec s L nm wild :
  inv s L → wf_name nm → safe (find_ent (rhn nm) wild) (λ r s', s' = s ∧ r = found s nm wild) s.
Proof.
  intros Hinv Hwf. unfold find_ent, found. s_bind. eapply safe_mono; [by apply lookup_ent_spec; [apply Hinv|]|]. cbn beta.
  intros r s1 (-> & -> & _). destruct (find s nm) as [a|]; [by apply safe_ret|]. destruct wild; [|by apply safe_ret].
  pose proof (rd_first_len [] nm []) as H0. cbn [app] in H0. rewrite app_nil_r, zlen_nil in H0. s_need H0.
  destruct nm as [|l t]; [by apply safe_ret|]. assert (0 < first_len (l :: t)) by (destruct Hwf as [H _]; apply list.Forall_cons in H as [[? _] _]; cbn; lia).
  zif (first_len (l :: t) =? 0); [lia|]. eapply (find_up_spec s L (l :: t) [] (l :: t)); try done. pose proof (length_rhn (l :: t)). lia.
Qed.
(** The set of a type. *)
Definition set_of (c : dns_cent_t) (tp : Z) : option rr_set_t :=
  if (0 <=? tp - T_MIN) && (tp - T_MIN <? T_NUM) then
    match place tp with Some i => if i <? NRRTOT then slot c i else None | None => None end
  else None.
Lemma place_nonneg tp i : place tp = Some i → 0 ≤ i.
Proof.
  intros H. assert (Hall : Forall (λ i, 0 ≤ i) rrlkuptab) by (apply (bool_decide_unpack _); by vm_compute).
  unfold place in H. by apply (Forall_lookup_1 _ _ _ _ Hall H).
Qed.
Lemma getrrset_spec c tp : cent_ok c → getrrset c tp = Some (set_of c tp).
Proof.
  intros Hok. pose proof (ok_tag _ Hok) as Ht. unfold getrrset, set_of. destruct (negative c) eqn:Hn.
  { destruct (_ && _); [|done]. destruct (place tp) as [i|]; [|done]. destruct (i <? NRRTOT); [|done]. by rewrite slot_negative. }
  destruct ((0 <=? tp - T_MIN) && (tp - T_MIN <? T_NUM)) eqn:Hb; [|done]. zbool.
  destruct (place tp) as [i|] eqn:Hp.
  2: { exfalso. unfold place in Hp. apply lookup_ge_None in Hp. change (length rrlkuptab) with (Z.to_nat T_NUM) in Hp. lia. }
  pose proof (place_nonneg _ _ Hp) as Hi. unfold place in Hp. rewrite Hp. cbn [mbind option_bind].
  assert (Hx : i < NRRTOT → RRARR_INDEX_TESTEXT c i = Some (slot c i)) by (intros; apply testext_slot; [done|lia]).
  unfold RRARR_INDEX_TESTEXT in Hx. rewrite Hn in Hx. unfold cent_tag in Ht. unfold rr_of in *. destruct (u c) as [|mu ext]; [congruence|].
  cbn [mbind option_bind] in *. zif (i <? NRRTOT).
  - rewrite <-Hx by done. zif (i <? NRRMU); [done|]. zif (i - NRRMU <? NRREXT); [done|]. unfold NRRTOT, NRRMU, NRREXT in *. lia.
  - zif (i <? NRRMU); [unfold NRRTOT, NRRMU, NRREXT in *; lia|]. zif (i - NRRMU <? NRREXT); [unfold NRRTOT, NRRMU, NRREXT in *; lia|done].
Qed.
Definition has_records (c : dns_cent_t) (tp : Z) : bool :=
  match set_of c tp with Some st => match rrs st with [] => false | _ => true end | None => false end.
Lemma have_rr_spec c tp : cent_ok c → have_rr c tp = Some (has_records c tp).
Proof.
  intros Hok. unfold have_rr, has_records. rewrite getrrset_spec by done. destruct (negative c) eqn:Hn; [|done].
  assert (Hs : set_of c tp = None).
  { unfold set_of. destruct (_ && _); [|done]. destruct (place tp) as [i|]; [|done]. destruct (i <? NRRTOT); [|done]. apply slot_negative; [apply Hok|done]. }
  by rewrite Hs.
Qed.

Lemma local_owner_spec s L nm k t fuel tp :
  inv s L → wf_name nm → nm = k ++ t → t ≠ [] → (length t ≤ fuel)%nat →
  safe (local_owner fuel (rhn nm) (zlen (rhn_labels k)) tp) (λ r s', s' = s ∧
    (λ o, zdrop o (rhn nm)) <$> r = rhn <$> owner_of s tp t) s.
Proof.
  intros Hinv Hwf. revert k t. induction fuel as [|fuel IH]; intros k t Hnm Ht Hf; [destruct t; [done|cbn in Hf; lia]|].
  destruct t as [|l t]; [done|]. destruct (rd_label nm k l t Hnm Hwf) as (Hr1 & Hl & Hr2 & Hk & Hd & Hwl & Hwt).
  cbn [local_owner]. s_need Hr1. s_need Hr2. destruct t as [|l2 t]; [by apply safe_ret|].
  assert (H2 : 0 < first_len (l2 :: t)) by (destruct Hwt as [H _]; apply list.Forall_cons in H as [[? _] _]; cbn; lia).
  zif (first_len (l2 :: t) =? 0); [lia|]. rewrite Hd. set (u := l2 :: t) in *. s_bind.
  eapply safe_mono; [by apply lookup_ent_spec; [apply Hinv|]|]. cbn beta. intros r s1 (-> & Hr & _).
  assert (He : owner_of s tp (l :: u) = match find s u ≫= λ a, cents s !! a with
      | None => owner_of s tp u
      | Some c => if negb (has (c_flags c) DF_LOCAL) then None else if default false (have_rr c tp) then Some u else owner_of s tp u end) by done.
  rewrite He, Hr. clear He. assert (Hnext : safe (local_owner fuel (rhn nm) (zlen (rhn_labels k) + (zlen l + 1)) tp)
    (λ r s', s' = s ∧ (λ o, zdrop o (rhn nm)) <$> r = rhn <$> owner_of s tp u) s).
  { rewrite Hk. apply IH; [by rewrite Hnm, <-app_assoc|done|subst u; cbn [length] in *; lia]. }
  destruct (find s u) as [a|] eqn:Hfu; [|exact Hnext].
  destruct (find_cent _ _ _ _ (inv_table _ _ Hinv) Hfu) as (c & Hc & _). cbn [mbind option_bind]. rewrite Hc. s_load Hc.
  destruct (has (c_flags c) DF_LOCAL); cbn [negb]; [|by apply safe_ret].
  pose proof (have_rr_spec c tp (core_cent _ _ (inv_core _ _ Hinv) _ _ Hc)) as Hh. rewrite Hh. cbn [default from_option id].
  s_need (eq_refl (Some (has_records c tp))). destruct (has_records c tp); [|exact Hnext]. apply safe_ret. split; [done|]. cbn. by rewrite Hd.
Qed.
Lemma getlocalowner_spec s L nm tp :
  inv s L → wf_name nm →
  safe (getlocalowner (rhn nm) tp) (λ r s', s' = s ∧ (λ o, zdrop o (rhn nm)) <$> r = rhn <$> owner_of s tp nm) s.
Proof.
  intros Hinv Hwf. unfold getlocalowner. pose proof (rd_first_len [] nm []) as H0. cbn [app] in H0. rewrite app_nil_r, zlen_nil in H0. s_need H0.
  destruct nm as [|l t]; [by apply safe_ret|]. assert (0 < first_len (l :: t)) by (destruct Hwf as [H _]; apply list.Forall_cons in H as [[? _] _]; cbn; lia).
  zif (first_len (l :: t) =? 0); [lia|]. eapply (local_owner_spec s L (l :: t) [] (l :: t)); try done. pose proof (length_rhn (l :: t)). lia.
Qed.

(** ** Lookups *)

(** A copy, or nothing when memory is short. *)
Lemma copy_ent_spec s L a c :
  inv s L → cents s !! a = Some c →
  safe (copy_ent a) (λ r s', (mem_ok (mem s) → not_null r = true) ∧ frame s s' ∧ cents s' = cents s ∧ inv s' L ∧
    ∀ c', r = Some c' → view_cent c' = view_cent c ∧ cent_ok c' ∧ cent_nodes c' = []) s.
Proof.
  intros Hinv Hc. destruct (invx_cent_name _ _ _ _ Hinv Hc) as (Hok & nm & Hnm & Hq). unfold copy_ent. s_load Hc.
  destruct (copy_cent_spec (mem s) c L (ok_tag _ Hok) (core_dll _ _ (inv_core _ _ Hinv))) as (r & m1 & Hcp & Hd & Hmo & Hr).
  { rewrite Hq. pose proof (rhnlen_spec nm [] (proj1 Hnm)) as Hl. by rewrite app_nil_r in Hl. }
  s_bind. apply (safe_on_mem _ _ _ _ _ Hcp). apply safe_ret. split; [intros Hm; apply Hmo in Hm; by destruct r|].
  split; [split; try done; apply Hd|]. split; [done|]. split; [by apply invx_mem|]. intros c' Hr'. destruct r as [[b ce]|]; [|done].
  injection Hr' as <-. destruct Hr as (_ & _ & Hcopy). destruct (copy_of_ok c ce Hok Hcopy) as (? & ? & _).
  split; [by apply view_copy|done].
Qed.

Section ops.
Context (now : Z).

(** With the lock for reading nothing changes; what is returned is current. *)
Definition answer (s : cache) (nm : list bytes) (wild : bool) (r : option dns_cent_t * Z * bool) : Prop :=
  let '(c, w, purge) := r in
  w = (found s nm wild).2 ∧
  match (found s nm wild).1 ≫= λ a, cents s !! a with
  | None => c = None ∧ purge = false
  | Some e =>
      match c with
      | Some c => view_cent c = view_cent e ∧ cent_ok c ∧ cent_nodes c = [] ∧ purge = false ∧ purged_none now e ∧ expired now e = false
      | None => purge = true ∨ ¬ mem_ok (mem s)
      end
  end.
Lemma found_cent s L nm wild a : inv s L → (found s nm wild).1 = Some a → ∃ c, cents s !! a = Some c.
Proof.
  intros Hinv Hf. assert (H : ∃ nm', find s nm' = Some a).
  { unfold found in Hf. destruct (find s nm) as [b|] eqn:E; [exists nm; cbn in Hf; congruence|]. destruct wild; [|done].
    clear E. induction nm as [|l [|l2 t] IH]; [done|done|].
    assert (He : enclosing s (l :: l2 :: t) = match find s (l2 :: t) with
      | None => enclosing s (l2 :: t)
      | Some a => match cents s !! a with
          | Some c => if negative c then (Some a, w_neg)
              else if has (c_flags c) DF_WILD then let r := find s ([42] :: l2 :: t) in (r, if not_null r then w_wild else 0)
              else if has (c_flags c) DF_LOCAL then (Some a, w_locnerr) else (None, 0)
          | None => (None, 0) end end) by done.
    rewrite He in Hf. clear He. destruct (find s (l2 :: t)) as [b|] eqn:E; [|by apply IH]. destruct (cents s !! b) as [cb|]; [|done].
    destruct (negative cb); [exists (l2 :: t); cbn in Hf; congruence|]. destruct (has (c_flags cb) DF_WILD); [by exists ([42] :: l2 :: t)|].
    destruct (has (c_flags cb) DF_LOCAL); [exists (l2 :: t); cbn in Hf; congruence|done]. }
  destruct H as [nm' H]. destruct (find_cent _ _ _ _ (inv_table _ _ Hinv) H) as (c & Hc & _). by exists c.
Qed.
Lemma lookup_cache_r_spec s L nm wild :
  inv s L → wf_name nm →
  safe (lookup_cache_r now (rhn nm) wild) (λ r s', answer s nm wild r ∧ inv s' L ∧ frame s s' ∧ cents s' = cents s) s.
Proof.
  intros Hinv Hnm. unfold lookup_cache_r. s_bind. eapply safe_mono; [by apply (find_ent_spec s L)|]. cbn beta.
  intros r s1 [-> ->]. unfold answer. destruct (found s nm wild) as [[a|] w] eqn:Hf; [|by apply safe_ret].
  destruct (found_cent s L nm wild a Hinv) as [c Hc]; [by rewrite Hf|]. cbn [fst snd mbind option_bind]. rewrite Hc. s_bind.
  eapply safe_mono; [by apply (purge_cent_test now s L a c true)|]. cbn beta. intros p s1 [-> Hp].
  zif (p =? 0); cbn [negb]; [|apply safe_ret; split; [split; [done|by left]|done]].
  s_bind. eapply safe_mono; [by apply (copy_ent_spec s L a c)|]. cbn beta. intros r s2 (Hmo & Hf2 & Hc2 & Hinv2 & Hr). apply safe_ret.
  split; [|done]. split; [done|]. destruct r as [c'|]; [|right; intros Hm; by apply Hmo in Hm].
  destruct (Hr c' eq_refl) as (? & ? & ?). destruct (Hp E) as [? Hexp]. repeat (split; [done|]). by apply Hexp.
Qed.
(** With the lock for writing: what is timed out is removed first. *)
Lemma remains_locals s s' L' a c c' : cents s !! a = Some c → remains now s s' L' a c c' → locals_kept s s'.
Proof.
  intros Hc Hre. eapply (locals_update s s' a c c'); [exact Hc|apply Hre|apply Hre|]. intros j Hj Hl. rewrite (re_slot _ _ _ _ _ _ _ Hre) by done.
  destruct (slot c j) as [st|]; [|done]. cbn in Hl |- *. unfold must_go. rewrite Hl. by destruct (has (flags st) CF_NOPURGE).
Qed.
(** something of the entry is not timed out *)
Definition current (c : dns_cent_t) : Prop :=
  (∃ j, 0 ≤ j ∧ kept now (slot c j) ≠ None) ∨ negative c = true ∧ expired now c = false.
Lemma lookup_cache_rw_spec s L nm wild :
  inv s L → wf_name nm →
  safe (lookup_cache_rw now (rhn nm) wild) (λ r s', (∃ L', inv s' L') ∧ insert_sort s' = insert_sort s ∧ locals_kept s s' ∧
    r.2 = (found s nm wild).2 ∧
    (mem_ok (mem s) → ∀ a c, (found s nm wild).1 = Some a → cents s !! a = Some c → current c → r.1 ≠ None) ∧
    ∀ c', r.1 = Some c' → cent_ok c' ∧ cent_nodes c' = [] ∧ ∃ a c, (found s nm wild).1 = Some a ∧ cents s !! a = Some c ∧
      qname c' = qname c ∧ negative c' = negative c ∧ (negative c = true → view_neg c' = view_neg c) ∧ ∀ j, 0 ≤ j → view (slot c' j) = view (kept now (slot c j))) s.
Proof.
  intros Hinv Hnm. unfold lookup_cache_rw. s_bind. eapply safe_mono; [by apply (find_ent_spec s L)|]. cbn beta.
  intros r s1 [-> ->]. destruct (found s nm wild) as [[a|] w] eqn:Hf; [|apply safe_ret; split; [by exists L|]; done].
  destruct (found_cent s L nm wild a Hinv) as [c Hc]; [by rewrite Hf|]. s_bind.
  eapply safe_mono; [by apply (purge_cent_spec now s L a c true)|]. cbn beta. intros p s1 Hp. destruct (p <? 0).
  - destruct Hp as (_ & s2 & L2 & c2 & Hre & Hde & Hnone & Hexp). apply safe_ret. split; [eexists; apply Hde|].
    split; [rewrite (de_sort _ _ _ _ _ _ Hde); apply Hre|]. split.
    + etrans; [by eapply remains_locals|]. eapply locals_delete; [by eapply remains_lookup|apply Hde|]. intros j Hj. by rewrite Hnone.
    + split; [done|]. split; [|done]. intros _ a' c' [= <-] Hc' Hcur. rewrite Hc in Hc'. injection Hc' as <-. exfalso.
      destruct Hcur as [(j & Hj & Hk)|[Hn He]]; [|rewrite Hexp in He; done]. apply Hk. rewrite <-(re_slot _ _ _ _ _ _ _ Hre) by done. by apply Hnone.
  - destruct Hp as (c1 & L1 & Hre). pose proof (remains_lookup _ _ _ _ _ _ _ Hre) as Hc1. s_bind.
    eapply safe_mono; [apply (copy_ent_spec s1 L1 a c1); [apply Hre|done]|]. cbn beta. intros r s2 (Hmo & Hf2 & Hc2 & Hinv2 & Hr). apply safe_ret.
    split; [by exists L1|]. split; [rewrite (frame_sort _ _ Hf2); apply Hre|].
    split; [etrans; [by eapply remains_locals|by apply locals_same]|]. split; [done|]. cbn [fst snd].
    split; [intros Hm _ _ _ _ _ ->; by specialize (Hmo (re_ok _ _ _ _ _ _ _ Hre Hm))|]. intros c' ->. destruct (Hr c' eq_refl) as (Hv & ? & ?).
    split; [done|]. split; [done|]. exists a, c. split; [done|]. split; [done|].
    split; [apply (f_equal v_name) in Hv; cbn in Hv; rewrite Hv; apply Hre|]. split; [rewrite (view_negative _ _ Hv); apply Hre|].
    split; [intros Hn; apply (f_equal v_neg) in Hv; cbn in Hv; rewrite Hv; unfold view_neg; by rewrite (re_neg _ _ _ _ _ _ _ Hre Hn)|].
    intros j Hj. rewrite !view_slot, Hv, <-view_slot, (re_slot _ _ _ _ _ _ _ Hre) by done. done.
Qed.
End ops.

Lemma copy_rrset_ok m s L : dll (rl m) L → ∃ r m', copy_rrset s m = Some (r, m', []) ∧ dropped m m' ∅ ∧ (mem_ok m → not_null r = true) ∧
  ∀ c, r = Some c → view (Some c) = view (Some s) ∧ lent c = None.
Proof.
  intros Hd. unfold copy_rrset. destruct (copy_set_spec m s) as (v & ok & m1 & Hc & Hrl & Hdr & Hmo & Hcp & Hl). m_run Hc.
  destruct v as [c|].
  - destruct ok.
    + eexists (Some c), m1. split; [done|]. split; [done|]. split; [done|]. intros c' [= <-]. split; [|by cbn in Hl].
      specialize (Hcp eq_refl). inversion Hcp as [? ? (H1 & H2 & H3 & H4 & _)|]. subst. cbn. by rewrite H1, H2, H3, H4.
    + destruct (del_rrset_spec m1 c L) as (m2 & Hdel & Hml & Hd2); [by rewrite Hrl|intros p Hp; cbn in Hl; congruence|]. m_run Hdel.
      exists None, m2. split; [done|]. split; [|split; [intros Hm; by apply Hmo in Hm|done]].
      apply (dropped_empty m m1 m2); [done|]. replace (∅ : gset Z) with (set_nodes c); [done|]. unfold set_nodes. cbn in Hl. by rewrite Hl.
  - exists None, m1. destruct ok; [by specialize (Hcp eq_refl); inversion Hcp|]. split; [done|]. split; [done|]. split; [|done].
    intros Hm. by apply Hmo in Hm.
Qed.
Lemma lookup_cache_local_rrset_spec s L nm tp :
  inv s L → wf_name nm →
  safe (lookup_cache_local_rrset (rhn nm) tp) (λ r s', inv s' L ∧ frame s s' ∧ cents s' = cents s ∧
    match r with
    | Some st => ∃ a c, find s nm = Some a ∧ cents s !! a = Some c ∧ is_local (set_of c tp) = true ∧ view (Some st) = view (set_of c tp)
    | None => mem_ok (mem s) → ∀ a c, find s nm = Some a → cents s !! a = Some c → is_local (set_of c tp) = false
    end) s.
Proof.
  intros Hinv Hnm. unfold lookup_cache_local_rrset. s_bind. eapply safe_mono; [by apply lookup_ent_spec; [apply Hinv|]|]. cbn beta.
  intros r s1 (-> & -> & _). destruct (find s nm) as [a|] eqn:Hf; [|by apply safe_ret].
  destruct (find_cent _ _ _ _ (inv_table _ _ Hinv) Hf) as (c & Hc & _). s_load Hc.
  s_need (getrrset_spec c tp (core_cent _ _ (inv_core _ _ Hinv) _ _ Hc)).
  assert (Hno : is_local (set_of c tp) = false → safe (mret None) (λ (r : option rr_set_t) s', inv s' L ∧ frame s s' ∧ cents s' = cents s ∧
    match r with
    | Some st => ∃ a' c, Some a = Some a' ∧ cents s !! a' = Some c ∧ is_local (set_of c tp) = true ∧ view (Some st) = view (set_of c tp)
    | None => mem_ok (mem s) → ∀ a' c, Some a = Some a' → cents s !! a' = Some c → is_local (set_of c tp) = false
    end) s).
  { intros Hl. apply safe_ret. do 3 (split; [done|]). intros _ a' c' [= <-] Hc'. congruence. }
  destruct (set_of c tp) as [st|] eqn:Hst; [|by apply Hno]. destruct (has (flags st) CF_LOCAL) eqn:Hl; [|by apply Hno]. clear Hno.
  destruct (copy_rrset_ok (mem s) st L (core_dll _ _ (inv_core _ _ Hinv))) as (r' & m1 & Hcp & Hd & Hmo & Hr).
  apply (safe_on_mem _ _ _ _ _ Hcp). split; [by apply invx_mem|]. split; [split; try done; apply Hd|]. split; [done|].
  destruct r' as [c'|]; [|intros Hm; by apply Hmo in Hm]. exists a, c. rewrite Hst. destruct (Hr c' eq_refl) as [Hv _]. done.
Qed.

(** ** Changes *)

Lemma del_cache_spec s L nm :
  inv s L → wf_name nm →
  safe (del_cache (rhn nm)) (λ _ s', (∃ L', inv s' L') ∧ insert_sort s' = insert_sort s ∧ find s' nm = None ∧
    ∀ nm', ¬ same_name nm' nm → find s' nm' = find s nm') s.
Proof.
  intros Hinv Hnm. unfold del_cache. s_get. destruct (table_ops (hash s) nm (table_wf _ _ (inv_table _ _ Hinv)) Hnm) as (_ & _ & _ & _ & t' & Hdel & Hwf & Hcon).
  s_need Hdel. s_bind. apply safe_modify. cbn [fst snd].
  assert (Hfind : ∀ s', hash s' = t' → find s' nm = None ∧ ∀ nm', ¬ same_name nm' nm → find s' nm' = find s nm').
  { intros s' Hh. unfold find. rewrite Hh, Hcon. split; [by rewrite lookup_delete_eq|]. intros nm' Hne. rewrite lookup_delete_ne; [done|].
    intros He. apply Hne. by unfold same_name, fold_name in *. }
  destruct (contents_of (hash s) !! fold_name nm) as [d|] eqn:Hd.
  - destruct (table_addr _ _ (inv_table _ _ Hinv) _ _ Hd) as (_ & c & Hc & _).
    eapply safe_mono; [apply (del_cent_spec _ L (contents d) c {[contents d]})|].
    + split; [apply (core_eq s); [apply Hinv|done|done]|rewrite <-(union_empty_r_L {[contents d]}); eapply table_remove; [apply Hinv|exact Hd|done|done|done]|by destruct Hinv as [_ _ []]].
    + set_solver.
    + done.
    + cbn beta. intros _ s' [Hde Hh]. split; [eexists; rewrite difference_diag_L in Hde; apply Hde|]. split; [by rewrite (de_sort _ _ _ _ _ _ Hde)|]. by apply Hfind.
  - apply safe_ret. split; [|split; [done|by apply Hfind]]. exists L. destruct Hinv as [Hcore Ht Hn]. rewrite delete_id in Hcon by done.
    split; [by apply (core_eq s)| |by destruct Hn]. destruct Ht. split; cbn [hash cents]; rewrite ?Hcon; done.
Qed.

Lemma invalidate_slot_size v : slot_size (option_map invalidate_set v) = slot_size v ∧ slot_num (option_map invalidate_set v) = slot_num v.
Proof. by destruct v. Qed.
Lemma invalidate_cent_spec c :
  cent_ok c → ∃ c', invalidate_cent c = Some c' ∧ cent_ok c' ∧ same_cent c c' ∧ cs c' = cs c ∧ negative c' = negative c ∧
    neg_lent c' = neg_lent c ∧ ∀ j, slot c' j = option_map invalidate_set (slot c j).
Proof.
  intros [Ht Hcs Hn]. unfold invalidate_cent. assert (Hneg : has (clear (c_flags c) DF_AUTH) DF_NEGATIVE = negative c) by (by apply has_clear_ne).
  assert (Hloc : has (clear (c_flags c) DF_AUTH) DF_LOCAL = has (c_flags c) DF_LOCAL) by (by apply has_clear_ne).
  assert (Hz : ∀ (f : option rr_set_t → Z) l, (∀ v, f (option_map invalidate_set v) = f v) → zsum f (map (option_map invalidate_set) l) = zsum f l).
  { intros f l Hf. induction l as [|v l IH]; [done|]. cbn [map]. by rewrite !zsum_cons, Hf, IH. }
  unfold cent_tag in Ht. destruct (u c) as [l t n|mu ext] eqn:Hu.
  - rewrite Ht. eexists. split; [done|]. split.
    { unfold cent_size, ext_size, all_slots in *. rewrite Hu in *. split; [unfold cent_tag, negative; cbn; by rewrite Hneg|done|done]. }
    split; [done|]. split; [done|]. split; [unfold negative; cbn; congruence|]. split; [unfold neg_lent; by rewrite Hu|]. intros j. unfold slot, all_slots. by rewrite Hu.
  - destruct Ht as (Hnn & Hmu & Hext). rewrite Hnn. eexists. split; [done|].
    assert (Hall : ∀ c', u c' = rr (invalidate_slots mu) (option_map invalidate_slots ext) → all_slots c' = map (option_map invalidate_set) (all_slots c)).
    { intros c' Hu'. unfold all_slots. rewrite Hu, Hu', map_app. by destruct ext. }
    set (c' := with_u _ _). specialize (Hall c' eq_refl). split; [split|].
    + unfold cent_tag. cbn [u with_u c']. split; [unfold negative; cbn; congruence|]. unfold zlen, invalidate_slots in *. rewrite length_map.
      split; [done|]. destruct ext; cbn; [by rewrite length_map|done].
    + change (cs c') with (cs c). rewrite Hcs. unfold cent_size. rewrite Hall, Hz by (intros; apply invalidate_slot_size). unfold ext_size. cbn [u c' with_u qname]. rewrite Hu. by destruct ext.
    + change (num_rrs c') with (num_rrs c). rewrite Hn, Hall, Hz by (intros; apply invalidate_slot_size). done.
    + split; [done|]. split; [done|]. split; [unfold negative; cbn; congruence|]. split; [unfold neg_lent; by rewrite Hu|].
      intros j. unfold slot. rewrite Hall, list_lookup_fmap. by destruct (all_slots c !! Z.to_nat j).
Qed.
Lemma owner_mapped c c' (f : rr_set_t → rr_set_t) ro j le :
  (∀ st, addr (f st) = addr st ∧ lent (f st) = lent st) → neg_lent c' = neg_lent c → (∀ j, slot c' j = option_map f (slot c j)) →
  owner c' ro j le ↔ owner c ro j le.
Proof.
  intros Hf Hnl Hsl. destruct ro as [x|]; cbn [owner]; [|by rewrite Hnl]. split; intros (Hj & s' & Hs' & Hx & Hle); (split; [done|]).
  - rewrite Hsl in Hs'. destruct (slot c j) as [st|]; [|done]. injection Hs' as <-. destruct (Hf st). exists st. split; [done|]. split; congruence.
  - exists (f s'). rewrite Hsl, Hs'. destruct (Hf s') as [-> ->]. done.
Qed.
Lemma store_ent_spec s L a c c' :
  inv s L → cents s !! a = Some c → cent_ok c' → qname c' = qname c → cs c' = cs c →
  (∀ ro j le, owner c' ro j le ↔ owner c ro j le) →
  inv (mkCache (mem s) (<[a := c']> (cents s)) (hash s) (cache_size s) (ent_num s) (insert_sort s)) L.
Proof.
  intros Hinv Hc Hok Hq Hcs Hown. eapply inv_update; [exact Hinv|exact Hc| |done|done|done|done|cbn; lia].
  eapply core_same; [apply Hinv|exact Hc|apply dropped_refl|done|done|done].
Qed.
Lemma invalidate_record_spec s L nm :
  inv s L → wf_name nm →
  safe (invalidate_record (rhn nm)) (λ _ s', inv s' L ∧ insert_sort s' = insert_sort s ∧ hash s' = hash s ∧
    ∀ a c, find s nm = Some a → cents s !! a = Some c → ∃ c', cents s' = <[a := c']> (cents s) ∧ invalidate_cent c = Some c') s.
Proof.
  intros Hinv Hnm. unfold invalidate_record. s_bind. eapply safe_mono; [by apply lookup_ent_spec; [apply Hinv|]|]. cbn beta.
  intros r s1 (-> & -> & _). destruct (find s nm) as [a|] eqn:Hf; [|by apply safe_ret].
  destruct (find_cent _ _ _ _ (inv_table _ _ Hinv) Hf) as (c & Hc & _). s_load Hc.
  destruct (invalidate_cent_spec c (core_cent _ _ (inv_core _ _ Hinv) _ _ Hc)) as (c' & Hi & Hok & Hsm & Hcs & _ & Hnl & Hsl). s_need Hi.
  apply safe_modify. split; [eapply store_ent_spec; [done|done|done|apply Hsm|done|]|].
  - intros ro j le. by apply (owner_mapped c c' invalidate_set).
  - split; [done|]. split; [done|]. intros a' c2 [= <-] Hc2. exists c'. rewrite Hc in Hc2. by injection Hc2 as <-.
Qed.
Lemma set_cent_flags_spec s L nm f :
  inv s L → wf_name nm → Z.land DF_NEGATIVE f = 0 →
  safe (set_cent_flags (rhn nm) f) (λ r s', inv s' L ∧ insert_sort s' = insert_sort s ∧ hash s' = hash s ∧ locals_kept s s' ∧ r = not_null (find s nm)) s.
Proof.
  intros Hinv Hnm Hflag. unfold set_cent_flags. s_bind. eapply safe_mono; [by apply lookup_ent_spec; [apply Hinv|]|]. cbn beta.
  intros r s1 (-> & -> & _). destruct (find s nm) as [a|] eqn:Hf; [|by apply safe_ret].
  destruct (find_cent _ _ _ _ (inv_table _ _ Hinv) Hf) as (c & Hc & _). s_load Hc. s_bind. apply safe_modify. apply safe_ret.
  split; [|split; [done|]; split; [done|]; split; [|done]; by eapply (locals_update s _ a c)]. eapply store_ent_spec; [done|done| |done|done|done]. destruct (core_cent _ _ (inv_core _ _ Hinv) _ _ Hc) as [Ht Hcs Hn].
  split; [|done|done]. unfold cent_tag, negative in *. cbn [c_flags u with_flags]. rewrite has_lor_ne by done. done.
Qed.

(** ** Emptying the cache *)

Lemma forall_sublist {A} (P : A → Prop) l l' : l' `sublist_of` l → Forall P l → Forall P l'.
Proof. induction 1; intros H'; [done| |]; apply list.Forall_cons in H' as [? ?]; [constructor; [done|]|]; auto. Qed.
Lemma sorted_sublist {A} (R : A → A → Prop) l l' : l' `sublist_of` l → StronglySorted R l → StronglySorted R l'.
Proof.
  induction 1 as [|x l' l Hs IH|x l' l Hs IH]; intros H; [done| |]; apply StronglySorted_inv in H as [H Hx].
  - constructor; [by apply IH|]. by eapply forall_sublist.
  - by apply IH.
Qed.
Lemma chain_sub (t : ctable) i c c' freed :
  wf t → t !! i = Some c → c' `sublist_of` c → freed ++ c' ≡ₚ c → wf (<[i := c']> t) ∧ concat t ≡ₚ freed ++ concat (<[i := c']> t).
Proof.
  intros Hwf Hi Hsub Hp. destruct (concat_insert t i c c' Hi) as [H1 H2]. pose proof (wf_keys _ Hwf) as Hk. rewrite H1, <-Hp in Hk.
  rewrite !map_app in Hk. split.
  - apply (wf_insert t i c c' Hwf Hi).
    + destruct (wf_chain _ Hwf i c Hi) as [Hs Hf]. split; [by eapply sorted_sublist|by eapply forall_sublist].
    + rewrite !map_app. rewrite <-app_assoc in Hk. by apply list.NoDup_app in Hk as (_ & _ & ?).
  - rewrite H2, app_assoc, Hp. exact H1.
Qed.
(** The entries [freed] are taken out of the table. *)
Lemma table_free_some s t' freed :
  table ∅ s → wf t' → concat (hash s) ≡ₚ freed ++ concat t' →
  let l := map (λ he, contents (data he)) freed in
  table (list_to_set l) (mkCache (mem s) (cents s) t' (cache_size s) (ent_num s) (insert_sort s)) ∧ NoDup l ∧
  ∀ a, a ∈ l → is_Some (cents s !! a).
Proof.
  intros [Hw Ha Hu Hall Hn] Hw' Hp l.
  assert (Hin : ∀ he, he ∈ freed ∨ he ∈ concat t' ↔ he ∈ concat (hash s)) by (intros; rewrite Hp, elem_of_app; tauto).
  assert (Hlk : ∀ he, he ∈ concat (hash s) → contents_of (hash s) !! key he = Some (data he)) by (intros he ?; apply contents_lookup; [done|by exists he]).
  assert (Hkeys : NoDup (map key (freed ++ concat t'))) by (rewrite <-Hp; apply Hw).
  assert (Hdis : ∀ he he', he ∈ freed → he' ∈ concat t' → key he ≠ key he').
  { intros he he' H1 H2 He. rewrite map_app in Hkeys. apply list.NoDup_app in Hkeys as (_ & Hd & _). apply (Hd (key he)); [by apply list_elem_of_fmap_2|].
    rewrite He. by apply list_elem_of_fmap_2. }
  assert (Hal : ∀ a, a ∈ l ↔ ∃ he, he ∈ freed ∧ contents (data he) = a).
  { intros a. unfold l. rewrite list_elem_of_fmap. split; intros (he & H1 & H2); exists he; done. }
  split; [split; cbn [hash cents]|split].
  - done.
  - intros k d (he & Hhe & <- & <-)%contents_lookup; [|done]. assert (Hhe' : he ∈ concat (hash s)) by (apply Hin; by right).
    destruct (Ha _ _ (Hlk _ Hhe')) as (_ & c & Hc & Hq). split; [|by exists c]. rewrite elem_of_list_to_set, Hal. intros (he2 & H2 & He2).
    assert (Hhe2 : he2 ∈ concat (hash s)) by (apply Hin; by left). apply (Hdis he2 he H2 Hhe). by apply (Hu _ _ _ _ (Hlk _ Hhe2) (Hlk _ Hhe')).
  - intros k k' d d' (he & Hhe & <- & <-)%contents_lookup (he' & Hhe' & <- & <-)%contents_lookup; [|done..].
    apply Hu; apply Hlk, Hin; by right.
  - intros a c Hc Hx. destruct (Hall a c Hc ltac:(set_solver)) as (k & d & Hd & <-). exists k, d. split; [|done].
    apply contents_lookup in Hd as (he & Hhe & <- & <-); [|done]. apply contents_lookup; [done|]. exists he. split; [|done].
    apply Hin in Hhe as [Hf|?]; [|done]. exfalso. apply Hx. rewrite elem_of_list_to_set, Hal. by exists he.
  - done.
  - unfold l. clear Hal. revert Hkeys. assert (Hs : ∀ he, he ∈ freed → he ∈ concat (hash s)) by (intros; apply Hin; by left). revert Hs. clear Hin Hdis Hp l.
    induction freed as [|he freed IH]; intros Hs Hkeys; [constructor|]. cbn [app map] in *. apply list.NoDup_cons in Hkeys as [Hni Hkeys]. constructor.
    + intros (he2 & He2 & H2)%list_elem_of_fmap. apply Hni. assert (key he = key he2) as ->; [|apply list_elem_of_fmap_2, elem_of_app; by left].
      eapply Hu; [apply Hlk, Hs; by left|apply Hlk, Hs; by right|done].
    + apply IH; [|done]. intros. apply Hs. by right.
  - intros a (he & Hhe & <-)%Hal. destruct (Ha _ _ (Hlk he ltac:(apply Hin; by left))) as (_ & c & Hc & _). by eexists.
Qed.
Lemma del_cents_spec (l : list (DnsHash.dns_cent_t Z)) s L :
  invx None None (list_to_set (map contents l)) s L → NoDup (map contents l) → (∀ a, a ∈ map contents l → is_Some (cents s !! a)) →
  safe (del_cents l) (λ _ s', (∃ L', inv s' L') ∧ insert_sort s' = insert_sort s ∧ hash s' = hash s) s.
Proof.
  revert s L. induction l as [|d l IH]; intros s L Hinv Hnd Hin; [apply safe_ret; split; [by exists L|done]|]. cbn [del_cents map] in *.
  apply list.NoDup_cons in Hnd as [Hni Hnd]. destruct (Hin (contents d)) as [c Hc]; [by left|]. s_bind.
  eapply safe_mono; [by apply (del_cent_spec s L (contents d) c _ Hinv); [set_solver|]|]. cbn beta. intros _ s1 [Hde Hh1].
  eapply safe_mono; [eapply (IH s1)|].
  - assert (Hx : list_to_set (contents d :: map contents l) ∖ {[contents d]} =@{gset Z} list_to_set (map contents l)) by set_solver.
    rewrite Hx in Hde. apply Hde.
  - done.
  - intros a Ha. rewrite (de_cents _ _ _ _ _ _ Hde). rewrite lookup_delete_ne by (intros <-; done). apply Hin. by right.
  - cbn beta. intros _ s2 (Hi & Hso & Hh). split; [done|]. split; [rewrite Hso; apply Hde|congruence].
Qed.

Definition list_wf (sla : list slist_t) : Prop := ∀ sl, sl ∈ sla → ∃ nm, wf_name nm ∧ domain sl = rhn nm.
Lemma selected_ok nm sla : wf_name nm → list_wf sla → ∃ b, selected (rhn nm) sla = Some b.
Proof.
  intros Hnm. induction sla as [|sl sla IH]; intros Hs; [by eexists|]. cbn [selected].
  destruct (Hs sl ltac:(by left)) as (nm' & Hnm' & ->). pose proof (domain_match_spec nm nm' [] [] Hnm Hnm') as Hd. rewrite !app_nil_r in Hd.
  rewrite Hd. cbn [mbind option_bind]. case_match; [by eexists|]. apply IH. intros sl' ?. apply Hs. by right.
Qed.
Lemma free_selected_spec sla (c : list (dns_hash_ent_t Z)) :
  list_wf sla → (∀ he, he ∈ c → ∃ nm, wf_name nm ∧ DnsHash.qname (data he) = rhn nm) →
  ∃ freed c', free_selected sla c = Some (map data freed, c') ∧ c' `sublist_of` c ∧ freed ++ c' ≡ₚ c.
Proof.
  intros Hs. induction c as [|he c IH]; intros Hc; [by exists [], []|]. cbn [free_selected].
  destruct (Hc he ltac:(by left)) as (nm & Hnm & ->). destruct (selected_ok nm sla Hnm Hs) as [b ->]. cbn [mbind option_bind].
  destruct IH as (freed & c' & -> & Hsub & Hp); [intros; apply Hc; by right|]. cbn [mbind option_bind]. destruct b.
  - exists (he :: freed), c'. split; [done|]. split; [by apply sublist_cons|]. cbn. by rewrite Hp.
  - exists freed, (he :: c'). split; [done|]. split; [by apply sublist_skip|]. by rewrite <-Permutation_middle, Hp.
Qed.
Lemma empty_bucket_spec s L i sla :
  inv s L → (i < Z.to_nat HASH_NUM_BUCKETS)%nat → (∀ l, sla = Some l → list_wf l) →
  safe (empty_bucket i sla) (λ _ s', (∃ L', inv s' L') ∧ insert_sort s' = insert_sort s) s.
Proof.
  intros Hinv Hi Hsla. pose proof (table_wf _ _ (inv_table _ _ Hinv)) as Hwf.
  destruct (hash s !! i) as [c|] eqn:Hc; [|apply lookup_ge_None in Hc; rewrite (wf_size _ Hwf) in Hc; lia].
  assert (Hrun : ∃ freed c', match sla with Some sla => free_dns_hash_selected i sla (hash s) | None => free_dns_hash_bucket i (hash s) end =
    Some (map data freed, <[i := c']> (hash s)) ∧ c' `sublist_of` c ∧ freed ++ c' ≡ₚ c).
  { destruct sla as [sla|].
    - destruct (free_selected_spec sla c) as (freed & c' & Hf & ? & ?); [by apply Hsla| |].
      + intros he Hhe. destruct (wf_chain _ Hwf i c Hc) as [_ Hok]. rewrite list.Forall_forall in Hok. destruct (Hok he Hhe) as (nm & ? & ? & _). by exists nm.
      + exists freed, c'. unfold free_dns_hash_selected. rewrite Hc. cbn [mbind option_bind]. by rewrite Hf.
    - exists c, []. unfold free_dns_hash_bucket. rewrite Hc. split; [done|]. split; [apply sublist_nil_l|by rewrite app_nil_r]. }
  destruct Hrun as (freed & c' & Hrun & Hsub & Hp). destruct (chain_sub (hash s) i c c' freed Hwf Hc Hsub Hp) as [Hwf' Hcat].
  destruct (table_free_some s _ freed (inv_table _ _ Hinv) Hwf' Hcat) as (Ht & Hnd & Hin). unfold empty_bucket. s_get. s_need Hrun. s_bind.
  apply safe_modify. cbn [fst snd]. eapply safe_mono; [eapply (del_cents_spec (map data freed) _ L)|].
  - rewrite map_map. split; [apply (core_eq s); [apply Hinv|done|done]|exact Ht|by destruct Hinv as [_ _ []]].
  - by rewrite map_map.
  - rewrite map_map. exact Hin.
  - cbn beta. by intros _ s' (? & ? & _).
Qed.
Lemma empty_cache_spec n s L i sla :
  inv s L → (i + n ≤ Z.to_nat HASH_NUM_BUCKETS)%nat → (∀ l, sla = Some l → list_wf l) →
  safe (empty_cache n i sla) (λ _ s', (∃ L', inv s' L') ∧ insert_sort s' = insert_sort s) s.
Proof.
  intros Hinv Hi Hsla. revert s L i Hinv Hi. induction n as [|n IH]; intros s L i Hinv Hi; [apply safe_ret; split; [by exists L|done]|].
  cbn [empty_cache]. s_bind. eapply safe_mono; [apply (empty_bucket_spec s L i sla Hinv); [lia|done]|]. cbn beta.
  intros _ s1 [[L1 Hinv1] Hso]. eapply safe_mono; [apply (IH s1 L1 (S i) Hinv1); lia|]. cbn beta. intros _ s2 [? ?]. split; [done|congruence].
Qed.
(** Everything is freed, and the counters are back at zero. *)
Lemma inv_empty s L : inv s L → contents_of (hash s) = ∅ → L = [] ∧ cents s = ∅ ∧ cache_size s = 0 ∧ ent_num s = 0.
Proof.
  intros [Hcore Ht [Hs Hn]] He.
  assert (Hc : cents s = ∅).
  { apply map_empty. intros a. destruct (cents s !! a) as [c|] eqn:Hac; [|done]. destruct (table_all _ _ Ht a c Hac ltac:(set_solver)) as (k & d & Hd & _).
    rewrite He in Hd. by rewrite lookup_empty in Hd. }
  cbn [without] in *. rewrite Hc in *. split; [|split; [done|split; [exact Hs|exact Hn]]].
  destruct L as [|p L]; [done|]. destruct (node_spec s _ p Hcore ltac:(by left)) as (e & c & _ & Hc' & _). rewrite Hc in Hc'. by rewrite lookup_empty in Hc'.
Qed.
Lemma destroy_cache_spec s L :
  inv s L → safe destroy_cache (λ _ s', cents s' = ∅ ∧ cache_size s' = 0 ∧ ent_num s' = 0 ∧ inv s' [] ∧ insert_sort s' = insert_sort s) s.
Proof.
  intros Hinv. pose proof (table_wf _ _ (inv_table _ _ Hinv)) as Hwf. destruct (table_free (hash s) Hwf) as (_ & _ & _ & _ & Hwf' & Hcon).
  destruct (table_free_some s (free_dns_hash (hash s)).2 (concat (hash s)) (inv_table _ _ Hinv) Hwf') as (Ht & Hnd & Hin).
  { cbn. assert (H : concat (map (λ _ : list (dns_hash_ent_t Z), []) (hash s)) = ([] : list (dns_hash_ent_t Z))) by (clear; induction (hash s) as [|? ? IH]; [done|exact IH]).
    by rewrite H, app_nil_r. }
  unfold destroy_cache. s_get. s_bind. apply safe_modify. change ((free_dns_hash (hash s)).1) with (map data (concat (hash s))).
  eapply safe_mono; [eapply (del_cents_spec _ _ L)|].
  - rewrite map_map. split; [apply (core_eq s); [apply Hinv|done|done]|exact Ht|by destruct Hinv as [_ _ []]].
  - by rewrite map_map.
  - rewrite map_map. exact Hin.
  - cbn beta. intros _ s' ([L' Hinv'] & Hso & Hh). destruct (inv_empty s' L' Hinv') as (-> & ? & ? & ?); [by rewrite Hh|]. done.
Qed.
Lemma inv_no_cache ms : inv (no_cache ms) [].
Proof.
  destruct (wf_mk_dns_hash (A := Z)) as [Hwf Hcon]. split.
  - split; cbn; [|done| |by intros ? ?%not_elem_of_nil|by intros a [? ?]].
    + split; cbn; [constructor|done|done|done|]. intros p. split; [by intros ?%not_elem_of_nil|by intros [? ?]].
    + intros le ro a i. unfold targets. rewrite fmap_empty, lookup_empty. split; [done|]. by intros (c & Hc & _).
  - split; change (hash (no_cache ms)) with (@mk_dns_hash Z); change (cents (no_cache ms)) with (∅ : gmap Z dns_cent_t); rewrite ?Hcon; try done; intros; by simplify_map_eq.
  - by split.
Qed.
