(* ===== verification/DnsCacheSafe.v ===== *)
(** * What the DNS cache guarantees

    The theorems about the cache as a whole: every sequence of operations runs without an
    error and keeps the data consistent; the size is bounded; local records stay; what was
    added is found. *)

From S2P Require Import Prelude CInt DnsName DnsCompress RrTypes RrList DnsHash DnsCent DnsCache Contract DnsCacheInv DnsCacheAdd DnsCacheOps.

(** A run that is safe returns, and logs nothing but warnings that memory is out. *)
Definition only_warns (es : list log_event) : Prop := Forall (λ e, e = OUT_OF_CACHE_MEMORY) es.
Lemma safe_run {A} (m : C A) (Q : A → cache → Prop) s :
  safe m Q s → ∃ a s' es, m s = Some (a, s', es) ∧ only_warns es ∧ Q a s'.
Proof.
  intros (a & s' & es & x & Hm & Hr & HQ). exists a, s', es. split; [done|]. split; [|done]. clear Hm HQ.
  induction es as [|e es IH]; [constructor|]. cbn in Hr. destruct e; try done. constructor; [done|]. by apply IH.
Qed.
Lemma safe_runs {I} (step : I → C unit) (P : cache → Prop) (ok : I → Prop) ins s :
  (∀ i s, ok i → P s → safe (step i) (λ _ s', P s') s) → Forall ok ins → P s → safe (runs step ins) (λ _ s', P s') s.
Proof.
  intros Hstep. revert s. induction ins as [|i ins IH]; intros s Hok HP; [by apply safe_ret|]. apply list.Forall_cons in Hok as [Hi Hok].
  cbn [runs]. s_bind. eapply safe_mono; [by apply Hstep|]. cbn beta. intros _ s' HP'. by apply IH.
Qed.

(** ** The operations *)

Inductive cache_op :=
  | ADD_CACHE (c : dns_cent_t)
  | LOOKUP_CACHE_R (name : bytes) (wild : bool)
  | LOOKUP_CACHE_RW (name : bytes) (wild : bool)
  | LOOKUP_CACHE_LOCAL_RRSET (name : bytes) (type : Z)
  | GETLOCALOWNER (name : bytes) (type : Z)
  | PURGE_CACHE (sz : Z) (lazy : bool)
  | SET_CENT_FLAGS (name : bytes) (f : Z)
  | INVALIDATE_RECORD (name : bytes)
  | DEL_CACHE (name : bytes)
  | EMPTY_BUCKET (i : nat) (sla : option (list slist_t))
  | DESTROY_CACHE.
(** an operation at a time *)
Definition cache_step (global : globparm_t) (x : Z * cache_op) : C unit :=
  let '(now, o) := x in
  match o with
  | ADD_CACHE c => add_cache global now c
  | LOOKUP_CACHE_R name wild => lookup_cache_r now name wild;; mret tt
  | LOOKUP_CACHE_RW name wild => lookup_cache_rw now name wild;; mret tt
  | LOOKUP_CACHE_LOCAL_RRSET name type => lookup_cache_local_rrset name type;; mret tt
  | GETLOCALOWNER name type => getlocalowner name type;; mret tt
  | PURGE_CACHE sz lazy => purge_cache now sz lazy
  | SET_CENT_FLAGS name f => set_cent_flags name f;; mret tt
  | INVALIDATE_RECORD name => invalidate_record name
  | DEL_CACHE name => del_cache name
  | EMPTY_BUCKET i sla => empty_bucket i sla
  | DESTROY_CACHE => destroy_cache
  end.
Definition is_name (name : bytes) : Prop := ∃ nm, wf_name nm ∧ name = rhn nm.
(** What the callers give: names, and entries that are well-formed. *)
Definition op_ok (x : Z * cache_op) : Prop :=
  match x.2 with
  | ADD_CACHE c => is_name (qname c) ∧ cent_ok c
  | LOOKUP_CACHE_R name _ | LOOKUP_CACHE_RW name _ | LOOKUP_CACHE_LOCAL_RRSET name _ | GETLOCALOWNER name _
  | INVALIDATE_RECORD name | DEL_CACHE name => is_name name
  | SET_CENT_FLAGS name f => is_name name ∧ has f DF_NEGATIVE = false
  | EMPTY_BUCKET i sla => (i < Z.to_nat HASH_NUM_BUCKETS)%nat ∧ ∀ l, sla = Some l → list_wf l
  | PURGE_CACHE _ _ | DESTROY_CACHE => True
  end.
(** Operations that leave local records alone. *)
Definition op_remote (x : Z * cache_op) : Prop :=
  match x.2 with
  | ADD_CACHE c => ¬ some_local c
  | INVALIDATE_RECORD _ | DEL_CACHE _ | EMPTY_BUCKET _ _ | DESTROY_CACHE => False
  | _ => True
  end.

(** The invariant between operations; the list is sorted by insertion. *)
Definition good (s : cache) : Prop := (∃ L, inv s L) ∧ insert_sort s = true.
Lemma flag_zero f b : has f b = false → Z.land b f = 0.
Proof. unfold has. intros H. apply negb_false_iff, Z.eqb_eq in H. by rewrite Z.land_comm. Qed.

Section steps.
Context (global : globparm_t).

Lemma cache_step_good x s :
  op_ok x → good s → safe (cache_step global x) (λ _ s', good s' ∧ (op_remote x → locals_kept s s')) s.
Proof.
  intros Hok [[L Hinv] Hs]. destruct x as [now o]. unfold op_ok, op_remote, cache_step in *. cbn [snd] in *.
  assert (Hroom : room s L) by (by left).
  destruct o as [c|name wild|name wild|name tp|name tp|sz lazy|name f|name|name|i sla|].
  - destruct Hok as [(nm & Hnm & Hq) Hok]. eapply safe_mono; [by apply (add_cache_spec global now s L nm c)|]. cbn beta.
    intros _ s' ((L' & Hi & _) & Hso & Hl & _). split; [split; [by exists L'|by apply Hso]|done].
  - destruct Hok as (nm & Hnm & ->). s_bind. eapply safe_mono; [by apply (lookup_cache_r_spec now s L nm wild)|]. cbn beta.
    intros r s' (_ & Hi & Hf & Hc). apply safe_ret. split; [split; [by exists L|by rewrite (frame_sort _ _ Hf)]|by intros; apply locals_same].
  - destruct Hok as (nm & Hnm & ->). s_bind. eapply safe_mono; [by apply (lookup_cache_rw_spec now s L nm wild)|]. cbn beta.
    intros r s' (Hi & Hso & Hl & _). apply safe_ret. split; [split; [done|congruence]|done].
  - destruct Hok as (nm & Hnm & ->). s_bind. eapply safe_mono; [by apply (lookup_cache_local_rrset_spec s L nm tp)|]. cbn beta.
    intros r s' (Hi & Hf & Hc & _). apply safe_ret. split; [split; [by exists L|by rewrite (frame_sort _ _ Hf)]|by intros; apply locals_same].
  - destruct Hok as (nm & Hnm & ->). s_bind. eapply safe_mono; [by apply (getlocalowner_spec s L nm tp)|]. cbn beta.
    intros r s' [-> _]. apply safe_ret. split; [split; [by exists L|done]|done].
  - eapply safe_mono; [apply (purge_cache_spec now s L sz lazy Hinv); by left|]. cbn beta.
    intros _ s' (L' & Hi & _ & Hso & Hl & _). split; [split; [by exists L'|by apply Hso]|done].
  - destruct Hok as [(nm & Hnm & ->) Hf]. s_bind. eapply safe_mono; [by apply (set_cent_flags_spec s L nm f), flag_zero|]. cbn beta.
    intros r s' (Hi & Hso & _ & Hl & _). apply safe_ret. split; [split; [by exists L|congruence]|done].
  - destruct Hok as (nm & Hnm & ->). eapply safe_mono; [by apply (invalidate_record_spec s L nm)|]. cbn beta.
    intros _ s' (Hi & Hso & _). split; [split; [by exists L|congruence]|done].
  - destruct Hok as (nm & Hnm & ->). eapply safe_mono; [by apply (del_cache_spec s L nm)|]. cbn beta.
    intros _ s' (Hi & Hso & _). split; [split; [done|congruence]|done].
  - destruct Hok as [Hi Hl]. eapply safe_mono; [by apply (empty_bucket_spec s L i sla)|]. cbn beta.
    intros _ s' (Hi' & Hso). split; [split; [done|congruence]|done].
  - eapply safe_mono; [by apply (destroy_cache_spec s L)|]. cbn beta. intros _ s' (_ & _ & _ & Hi & Hso).
    split; [split; [by exists []|congruence]|done].
Qed.
Lemma good_no_cache ms : good (no_cache ms).
Proof. split; [exists []; apply inv_no_cache|done]. Qed.
(** The states between operations. *)
Definition reachable (s : cache) : Prop :=
  ∃ ms ops es, Forall op_ok ops ∧ runs (cache_step global) ops (no_cache ms) = Some (tt, s, es).
Lemma runs_keep_good ops s :
  Forall op_ok ops → good s → safe (runs (cache_step global) ops) (λ _ s', good s') s.
Proof.
  intros Hok Hg. eapply safe_runs; [|exact Hok|exact Hg]. intros x s' Hx Hg'. eapply safe_mono; [by apply cache_step_good|]. by intros _ ? [? _].
Qed.
Lemma reachable_good s : reachable s → good s.
Proof.
  intros (ms & ops & es & Hok & Hrun). destruct (safe_run _ _ _ (runs_keep_good ops (no_cache ms) Hok (good_no_cache ms))) as ([] & s' & es' & Hrun' & _ & Hg).
  congruence.
Qed.

(** C26: Every sequence of operations on the cache, with names and entries that are
    well-formed and whatever calls of [malloc] fail, runs to its end without an access to
    freed memory and without a failed assertion; nothing is logged but that memory is out.
    Afterwards the list holds exactly the record sets and negative entries that point to a
    node of it, every entry counts its size and its sets right, the hash table finds every
    entry under its name, and [cache_size] and [ent_num] are the totals. *)
Theorem cache_safe ms ops :
  Forall op_ok ops →
  ∃ s es L, runs (cache_step global) ops (no_cache ms) = Some (tt, s, es) ∧ only_warns es ∧ inv s L.
Proof.
  intros Hok. destruct (safe_run _ _ _ (runs_keep_good ops (no_cache ms) Hok (good_no_cache ms))) as ([] & s & es & Hrun & Hes & [[L Hinv] _]).
  by exists s, es, L.
Qed.

(** C30: [purge_cache] ends with a cache that is not larger than asked for, or in which
    everything that the list holds is local.  It never removes a local record set. *)
Theorem purge_cache_bounds now sz lazy s :
  reachable s →
  ∃ s' es L, purge_cache now sz lazy s = Some (tt, s', es) ∧ only_warns es ∧ inv s' L ∧
    (cache_size s' ≤ sz ∨ ∀ p, p ∈ L → node_local s' p) ∧ locals_kept s s'.
Proof.
  intros [[L Hinv] Hs]%reachable_good.
  destruct (safe_run _ _ _ (purge_cache_spec now s L sz lazy Hinv (or_introl Hs))) as ([] & s' & es & Hrun & Hes & L' & Hi & _ & _ & Hl & Hsz).
  by exists s', es, L'.
Qed.

(** The set of a name and a type. *)
Definition rrset_of (s : cache) (nm : list bytes) (tp : Z) : option rr_set_t :=
  match find s nm ≫= λ a, cents s !! a with Some c => set_of c tp | None => None end.
Lemma rrset_kept s s' L L' nm tp :
  inv s L → inv s' L' → locals_kept s s' → is_local (rrset_of s nm tp) = true → view (rrset_of s' nm tp) = view (rrset_of s nm tp).
Proof.
  intros Hinv Hinv' Hk. unfold rrset_of. destruct (find s nm) as [a|] eqn:Hf; [|done]. cbn [mbind option_bind].
  destruct (find_cent _ _ _ _ (inv_table _ _ Hinv) Hf) as (c & Hc & _). rewrite Hc. unfold set_of.
  destruct (_ && _); [|done]. destruct (place tp) as [i|] eqn:Hp; [|done]. destruct (i <? NRRTOT) eqn:Hi; [|done]. intros Hl.
  destruct (Hk a c i Hc (place_nonneg _ _ Hp) Hl) as (c' & Hc' & Hq & Hv).
  destruct (table_name _ _ (inv_table _ _ Hinv) a c Hc) as (nm0 & Hnm0 & Hq0).
  destruct (table_find _ s' a c' nm0 (inv_table _ _ Hinv') Hc' ltac:(set_solver) Hnm0 ltac:(congruence)) as (d & Hd & Hda).
  assert (Hfold : fold_name nm = fold_name nm0).
  { unfold find in Hf. destruct (contents_of (hash s) !! fold_name nm) as [d0|] eqn:Hd0; [|done]. injection Hf as Hf.
    destruct (table_find _ s a c nm0 (inv_table _ _ Hinv) Hc ltac:(set_solver) Hnm0 Hq0) as (d1 & Hd1 & Hda1).
    apply (table_uniq _ _ (inv_table _ _ Hinv) _ _ _ _ Hd0 Hd1). congruence. }
  assert (Hf' : find s' nm = Some a) by (unfold find; rewrite Hfold, Hd; cbn; congruence). rewrite Hf'. cbn [mbind option_bind]. by rewrite Hc'.
Qed.

(** C29: Local records are not displaced: whatever is looked up and whatever is added that
    is not local, and however often the cache is purged, a local record set that is in the
    cache stays there with its records, its time stamp and its time to live. *)
Theorem local_records_stay s ops nm tp :
  reachable s → Forall (λ x, op_ok x ∧ op_remote x) ops → is_local (rrset_of s nm tp) = true →
  ∃ s' es, runs (cache_step global) ops s = Some (tt, s', es) ∧ view (rrset_of s' nm tp) = view (rrset_of s nm tp).
Proof.
  intros Hr Hops Hl. pose proof (reachable_good s Hr) as Hg.
  destruct (safe_run (runs (cache_step global) ops) (λ _ s', good s' ∧ locals_kept s s') s) as ([] & s' & es & Hrun & _ & Hg' & Hk).
  { eapply (safe_runs _ (λ s', good s' ∧ locals_kept s s')); [|exact Hops|done]. intros x s1 [Hok Hrem] [Hg1 Hk1].
    eapply safe_mono; [by apply cache_step_good|]. cbn beta. intros _ s2 [Hg2 Hk2]. split; [done|]. etrans; [exact Hk1|]. by apply Hk2. }
  exists s', es. split; [done|]. destruct Hg as [[L Hinv] _], Hg' as [[L' Hinv'] _]. by eapply rrset_kept.
Qed.

(** C28: [lookup_cache] under the lock for reading changes no entry and gives a copy of the
    right one: the entry of the name, whatever its case; else, when wildcards are asked
    for, what the nearest enclosing name in the cache says, a negative entry, the wildcard
    record below it, or that the name does not exist in a local domain.  A copy is only
    given when nothing in the entry is timed out; else the caller is told to purge.  The
    copy can fail only for lack of memory. *)
Theorem lookup_cache_answers now s nm wild :
  reachable s → wf_name nm →
  ∃ r s' es, lookup_cache_r now (rhn nm) wild s = Some (r, s', es) ∧ answer now s nm wild r ∧ cents s' = cents s ∧ hash s' = hash s.
Proof.
  intros [[L Hinv] Hs]%reachable_good Hnm.
  destruct (safe_run _ _ _ (lookup_cache_r_spec now s L nm wild Hinv Hnm)) as (r & s' & es & Hrun & _ & Ha & _ & Hf & Hc).
  exists r, s', es. split; [done|]. split; [done|]. split; [done|apply Hf].
Qed.

(** [del_cache] removes the entry of the name, whatever its case, and no other. *)
Theorem del_cache_deletes s nm :
  reachable s → wf_name nm →
  ∃ s' es, del_cache (rhn nm) s = Some (tt, s', es) ∧ find s' nm = None ∧ ∀ nm', ¬ same_name nm' nm → find s' nm' = find s nm'.
Proof.
  intros [[L Hinv] Hs]%reachable_good Hnm.
  destruct (safe_run _ _ _ (del_cache_spec s L nm Hinv Hnm)) as ([] & s' & es & Hrun & _ & _ & _ & Hn & Ho). by exists s', es.
Qed.
End steps.

(** ** What was added is found *)

(** The contents that a lookup at the time [now] gives for the entry [e]. *)
Definition gives (now : Z) (e c : dns_cent_t) : Prop :=
  qname c = qname e ∧ negative c = negative e ∧ (negative e = true → view_neg c = view_neg e) ∧
  ∀ j, 0 ≤ j → view (slot c j) = view (kept now (slot e j)).
Lemma lookup_current_spec now s L nm a e wild :
  inv s L → wf_name nm → find s nm = Some a → cents s !! a = Some e → current now e → mem_ok (mem s) →
  safe (lookup_cache now (rhn nm) wild) (λ r _, ∃ c, r = (Some c, 0) ∧ gives now e c) s.
Proof.
  intros Hinv Hnm Hf He Hcur Hm. assert (Hfd : ∀ s', hash s' = hash s → found s' nm wild = (Some a, 0)).
  { intros s' Hh. unfold found, find. rewrite Hh. fold (find s nm). by rewrite Hf. }
  unfold lookup_cache. s_bind. eapply safe_mono; [by apply (lookup_cache_r_spec now s L nm wild)|]. cbn beta.
  intros [[c w] purge] s1 (Ha & Hinv1 & Hf1 & Hc1). unfold answer in Ha. rewrite (Hfd s eq_refl) in Ha. cbn [fst snd mbind option_bind] in Ha.
  rewrite He in Ha. destruct Ha as [-> Ha]. destruct c as [c|].
  - destruct Ha as (Hv & _ & _ & -> & Hnone & _). apply safe_ret. exists c. split; [done|].
    split; [by apply (f_equal v_name) in Hv|]. split; [by apply view_negative|]. split; [intros _; by apply (f_equal v_neg) in Hv|].
    intros j Hj. rewrite (Hnone j Hj), !view_slot. by rewrite Hv.
  - assert (purge = true) as -> by (by destruct Ha). eapply safe_mono; [by apply (lookup_cache_rw_spec now s1 L nm wild)|]. cbn beta.
    intros [r w] s2 (_ & _ & _ & Hw & Hsome & Hr). rewrite (Hfd s1 (frame_hash _ _ Hf1)) in *. cbn [fst snd] in *. subst w.
    rewrite <-Hc1 in He. specialize (Hsome (frame_ok _ _ Hf1 Hm) a e eq_refl He Hcur). destruct r as [c|]; [|done]. exists c. split; [done|].
    destruct (Hr c eq_refl) as (_ & _ & a' & e' & [= <-] & He' & Hq & Hn & Hvn & Hv). rewrite He in He'. by injection He' as <-.
Qed.
Lemma kept_view now v v' : view v' = view v → view (kept now v') = view (kept now v).
Proof.
  destruct v as [s|], v' as [s'|]; try done. cbn. intros [= Ht Hs Hf Hr]. unfold must_go, timedout. rewrite Ht, Hs, Hf.
  destruct (_ && _); [done|]. cbn. by rewrite Ht, Hs, Hf, Hr.
Qed.
(** The time to live of a negative entry has passed. *)
Definition expired_at (now : Z) (w : cent_view) : bool :=
  match v_neg w with
  | Some n => negb (has (v_flags w) DF_LOCAL) && (n.2 + CLAT_ADJ n.1 <? now)
  | None => false
  end.
Lemma expired_view now e : cent_ok e → expired now e = expired_at now (view_cent e).
Proof.
  intros Hok. unfold expired, expired_at, timedout_nxdom, neg_of. cbn [v_neg v_flags view_cent]. unfold view_neg.
  pose proof (ok_tag _ Hok) as Ht. unfold cent_tag in Ht. destruct (u e) as [l t n|mu ext]; [by rewrite Ht|]. by destruct Ht as [-> _].
Qed.

Section roundtrip.
Context (global : globparm_t).

(** A time to live that the configuration allows; 0 is for what is not to be cached. *)
Definition ttl_allowed (st : rr_set_t) : Prop :=
  has (flags st) CF_NOCACHE = false ∧
  (ttl st = 0 ∨ Z.min (neg_ttl global) (min_ttl global) ≤ ttl st ≤ max_ttl global).
Lemma adjust_ttl_allowed st : min_ttl global ≤ max_ttl global → ttl_allowed (adjust_ttl global st).
Proof.
  intros Hm. unfold ttl_allowed, adjust_ttl. destruct (has (flags st) CF_NOCACHE) eqn:Hn.
  { cbn [flags ttl]. split; [apply has_clear|by left]. }
  set (lo := if _ && _ then neg_ttl global else min_ttl global).
  assert (Hlo : Z.min (neg_ttl global) (min_ttl global) ≤ lo ≤ max_ttl global).
  { subst lo. destruct (has _ CF_NEGATIVE); cbn [andb]; [|lia]. destruct (Z.ltb_spec (neg_ttl global) (min_ttl global)); lia. }
  destruct (Z.ltb_spec (ttl st) lo); [split; [done|right; cbn [ttl with_ttl]; lia]|].
  destruct (Z.gtb_spec (ttl st) (max_ttl global)); (split; [done|right; cbn [ttl with_ttl]; lia]).
Qed.
Lemma views_allowed now r c :
  (∀ tp, view (set_of r tp) = view (kept now (adjust_ttl global <$> set_of c tp))) →
  (∀ tp, view (set_of r tp) = view (kept now (adjust_ttl global <$> set_of c tp))) ∧
  (min_ttl global ≤ max_ttl global → ∀ tp st, set_of r tp = Some st → ttl_allowed st).
Proof.
  intros Hv. split; [done|]. intros Hm tp st Hst. specialize (Hv tp). rewrite Hst in Hv. destruct (set_of c tp) as [st'|]; [|done].
  pose proof (adjust_ttl_allowed st' Hm) as [Hn Ht]. cbn in Hv. destruct (must_go _ _); [done|]. cbn in Hv. injection Hv as Htt _ Hfl _.
  split; congruence || by rewrite Htt.
Qed.

(** C27: What is added for a new name is found again, whatever the case of the letters
    that are asked for, as long as it is not timed out: when there is memory and room,
    [lookup_cache] after [add_cache] gives the same records with the same time stamps and
    flags, and the times to live brought within the limits of the configuration (0 for what
    is not to be cached).  Sets that are timed out at the time of the lookup are left out. *)
Theorem add_cache_lookup s nm nm' c now now' wild :
  reachable global s → wf_name nm → wf_name nm' → same_name nm' nm → qname c = rhn nm → cent_ok c → find s nm = None →
  roomy global s c →
  (negative c = true ∧ expired_at now' (adjusted global c) = false ∨
   ∃ j, 0 ≤ j ∧ kept now' (adjust_ttl global <$> slot c j) ≠ None) →
  ∃ s1 es1 r s2 es2, add_cache global now c s = Some (tt, s1, es1) ∧
    lookup_cache now' (rhn nm') wild s1 = Some ((Some r, 0), s2, es2) ∧
    qname r = rhn nm ∧ negative r = negative c ∧ (negative c = true → view_neg r = v_neg (adjusted global c)) ∧
    (∀ tp, view (set_of r tp) = view (kept now' (adjust_ttl global <$> set_of c tp))) ∧
    (min_ttl global ≤ max_ttl global → ∀ tp st, set_of r tp = Some st → ttl_allowed st).
Proof.
  intros [[L Hinv] Hs]%reachable_good Hnm Hnm' Hsame Hq Hok Hnone Hroom Hcur.
  assert (Huse : useful c).
  { destruct Hcur as [[? _]|(j & Hj & Hk)]; [by left|right]. exists j. split; [done|]. by destruct (slot c j). }
  destruct (safe_run _ _ _ (add_cache_spec global now s L nm c Hinv (or_introl Hs) Hnm Hq Hok)) as
    ([] & s1 & es1 & Hadd & _ & (L1 & Hinv1 & _) & _ & _ & Hst). pose proof (Hst Hnone Hroom Huse) as Had. pose proof (added_ok _ _ _ _ _ Had) as Hm1.
  destruct (added_stored _ _ _ _ _ Had) as (a & e & Hf & He & Hv).
  pose proof (core_cent _ _ (inv_core _ _ Hinv1) _ _ He) as Hoke.
  assert (Hqe : qname e = rhn nm).
  { apply (f_equal v_name) in Hv. cbn [v_name view_cent] in Hv. rewrite Hv. unfold adjusted, adjusted_neg. by destruct (view_neg c). }
  assert (Hfold : fold_name nm' = fold_name nm) by done.
  assert (Hf' : find s1 nm' = Some a) by (unfold find; rewrite Hfold; exact Hf).
  assert (Hsl : view_neg c = None → ∀ j, view (slot e j) = view (adjust_ttl global <$> slot c j)).
  { intros Hvn j. rewrite view_slot, Hv. unfold adjusted. rewrite Hvn. cbn [v_slots]. rewrite list_lookup_fmap. unfold slot.
    by destruct (all_slots c !! Z.to_nat j). }
  assert (Hcase : negative c = true ∧ negative e = true ∧ view_neg e = v_neg (adjusted global c) ∨
    negative c = false ∧ negative e = false ∧ view_neg c = None).
  { destruct (negative c) eqn:Hn.
    - left. destruct (neg_of_ok c Hok Hn) as (l & t & n & Hu). split; [done|].
      assert (Hvn : view_neg e = v_neg (adjusted global c)) by (rewrite <-Hv; done). split; [|done].
      unfold adjusted, view_neg in Hvn. rewrite Hu in Hvn. cbn [v_neg adjusted_neg] in Hvn. pose proof (ok_tag _ Hoke) as Ht. unfold cent_tag in Ht.
      by destruct (u e).
    - right. pose proof (view_neg_none c (ok_tag _ Hok) Hn) as Hvn. split; [done|]. split; [|done].
      apply (f_equal v_flags) in Hv. unfold adjusted in Hv. rewrite Hvn in Hv. cbn in Hv. unfold negative. by rewrite Hv. }
  assert (Hcure : current now' e).
  { destruct Hcase as [(Hn & Hne & Hvn)|(Hn & Hne & Hvn)].
    - right. split; [done|]. rewrite expired_view, Hv by done. destruct Hcur as [[_ ?]|(j & Hj & Hk)]; [done|].
      by rewrite (slot_negative c j (ok_tag _ Hok) Hn) in Hk.
    - left. destruct Hcur as [[? _]|(j & Hj & Hk)]; [congruence|]. exists j. split; [done|]. intros Hke. apply Hk.
      pose proof (kept_view now' _ _ (Hsl Hvn j)) as Hkv. rewrite Hke in Hkv. by destruct (kept now' (adjust_ttl global <$> slot c j)). }
  destruct (safe_run _ _ _ (lookup_current_spec now' s1 L1 nm' a e wild Hinv1 Hnm' Hf' He Hcure Hm1)) as
    (r0 & s2 & es2 & Hlk & _ & r & -> & Hrq & Hrn & Hrv & Hrs).
  exists s1, es1, r, s2, es2. split; [done|]. split; [done|]. split; [congruence|]. split; [|split].
  - destruct Hcase as [(? & ? & _)|(? & ? & _)]; congruence.
  - intros Hn. destruct Hcase as [(_ & Hne & Hvn)|(? & _)]; [|congruence]. rewrite Hrv; done.
  - apply views_allowed. intros tp. unfold set_of. destruct (_ && _); [|done]. destruct (place tp) as [i|] eqn:Hp; [|done]. destruct (i <? NRRTOT); [|done].
    rewrite (Hrs i (place_nonneg _ _ Hp)). destruct Hcase as [(Hn & Hne & _)|(_ & _ & Hvn)].
    + rewrite (slot_negative c i (ok_tag _ Hok) Hn), (slot_negative e i (ok_tag _ Hoke) Hne). done.
    + by apply kept_view, Hsl.
Qed.
End roundtrip.

(** ** Examples *)

Definition ex_global : globparm_t := mkGlob 2048 120 604800 900.
Definition ex_name : list bytes := [[119; 119; 119]; [102; 111; 111]].
Definition ex_upper : list bytes := [[87; 87; 87]; [102; 79; 79]].
(** "www.foo" with one A record, and the flags [f] of the set *)
Definition ex_cent (f : Z) : dns_cent_t :=
  mkCent (rhn ex_name) (sizeof_dns_cent_t + 9 + (sizeof_rr_set_t + (sizeof_rr_bucket_t + 4))) 1 0
    (rr (<[0%nat := Some (mkSet 0 None 3600 1000 f [[10; 0; 0; 1]])]> (NULLS NRRMU)) None) cundef cundef.
(** "bar" does not exist *)
Definition ex_negative : dns_cent_t :=
  mkCent (rhn [[98; 97; 114]]) (sizeof_dns_cent_t + 5) 0 DF_NEGATIVE (neg None 60 1000) cundef cundef.
Lemma ex_name_wf : wf_name ex_name ∧ wf_name ex_upper.
Proof. split; by apply wf_nameb_spec. Qed.
Lemma ex_cent_ok f : is_name (qname (ex_cent f)) ∧ cent_ok (ex_cent f).
Proof. split; [exists ex_name; split; [apply ex_name_wf|done]|]. by split; [split; [|split]| |]. Qed.
Lemma ex_negative_ok : is_name (qname ex_negative) ∧ cent_ok ex_negative.
Proof. split; [exists [[98; 97; 114]]; split; [by apply wf_nameb_spec|done]|]. by split. Qed.
Definition ex_ops (f : Z) : list (Z * cache_op) :=
  [(1000, ADD_CACHE (ex_cent f)); (1001, ADD_CACHE ex_negative); (1002, LOOKUP_CACHE_R (rhn ex_upper) true);
   (9000, LOOKUP_CACHE_RW (rhn ex_name) false); (9001, PURGE_CACHE 0 false)].
Lemma ex_ops_ok f : Forall op_ok (ex_ops f).
Proof.
  repeat constructor; try apply ex_cent_ok; try apply ex_negative_ok; cbn; [exists ex_upper|exists ex_name]; split; try done; apply ex_name_wf.
Qed.
Definition ex_state (f : Z) : cache :=
  match runs (cache_step ex_global) (take 2 (ex_ops f)) (no_cache []) with Some (_, s, _) => s | None => no_cache [] end.
Lemma ex_state_reachable : reachable ex_global (ex_state 0) ∧ reachable ex_global (ex_state CF_LOCAL).
Proof.
  split; [exists [], (take 2 (ex_ops 0)), []|exists [], (take 2 (ex_ops CF_LOCAL)), []].
  all: split; [apply Forall_take, ex_ops_ok|vm_compute; reflexivity].
Qed.

Example cache_safe_witness :
  ∃ s es L, runs (cache_step ex_global) (ex_ops 0) (no_cache [true; true; true; true; false]) = Some (tt, s, es) ∧
    only_warns es ∧ inv s L.
Proof. apply cache_safe, ex_ops_ok. Defined.
Example purge_cache_bounds_witness :
  ∃ s' es L, purge_cache 2000 0 false (ex_state 0) = Some (tt, s', es) ∧ only_warns es ∧ inv s' L ∧
    (cache_size s' ≤ 0 ∨ ∀ p, p ∈ L → node_local s' p) ∧ locals_kept (ex_state 0) s'.
Proof. apply (purge_cache_bounds ex_global), ex_state_reachable. Defined.
Example local_records_stay_witness :
  ∃ s' es, runs (cache_step ex_global) [(1000000, PURGE_CACHE 0 false); (1000001, ADD_CACHE (ex_cent 0))] (ex_state CF_LOCAL) = Some (tt, s', es) ∧
    view (rrset_of s' ex_upper T_A) = view (rrset_of (ex_state CF_LOCAL) ex_upper T_A).
Proof.
  apply local_records_stay; [apply ex_state_reachable| |vm_compute; reflexivity].
  repeat constructor; try apply ex_cent_ok.
  cbn. intros (i & Hi & Hl). assert (Hs : slot (ex_cent 0) i = None ∨ is_local (slot (ex_cent 0) i) = false); [|by destruct Hs as [Hs|Hs]; rewrite Hs in Hl].
  unfold slot. destruct (all_slots (ex_cent 0) !! Z.to_nat i) as [v|] eqn:E; [right|by left].
  assert (Hall : Forall (λ v, is_local v = false) (all_slots (ex_cent 0))) by (repeat constructor).
  apply (Forall_lookup_1 _ _ _ _ Hall E).
Defined.
Example lookup_cache_answers_witness :
  ∃ r s' es, lookup_cache_r 2000 (rhn ex_upper) true (ex_state 0) = Some (r, s', es) ∧
    answer 2000 (ex_state 0) ex_upper true r ∧ cents s' = cents (ex_state 0) ∧ hash s' = hash (ex_state 0).
Proof. apply (lookup_cache_answers ex_global); [apply ex_state_reachable|apply ex_name_wf]. Defined.
Example del_cache_deletes_witness :
  ∃ s' es, del_cache (rhn ex_upper) (ex_state 0) = Some (tt, s', es) ∧ find s' ex_upper = None ∧
    ∀ nm', ¬ same_name nm' ex_upper → find s' nm' = find (ex_state 0) nm'.
Proof. apply (del_cache_deletes ex_global); [apply ex_state_reachable|apply ex_name_wf]. Defined.
Example add_cache_lookup_witness :
  ∃ s1 es1 r s2 es2, add_cache ex_global 1000 (ex_cent 0) (no_cache []) = Some (tt, s1, es1) ∧
    lookup_cache 2000 (rhn ex_upper) false s1 = Some ((Some r, 0), s2, es2) ∧
    qname r = rhn ex_name ∧ negative r = negative (ex_cent 0) ∧
    (negative (ex_cent 0) = true → view_neg r = v_neg (adjusted ex_global (ex_cent 0))) ∧
    (∀ tp, view (set_of r tp) = view (kept 2000 (adjust_ttl ex_global <$> set_of (ex_cent 0) tp))) ∧
    (min_ttl ex_global ≤ max_ttl ex_global → ∀ tp st, set_of r tp = Some st → ttl_allowed ex_global st).
Proof.
  apply add_cache_lookup.
  - exists [], [], []. by split.
  - apply ex_name_wf.
  - apply ex_name_wf.
  - done.
  - done.
  - apply (ex_cent_ok 0).
  - vm_compute; reflexivity.
  - split; [constructor|done].
  - right. exists 0. split; [done|]. by vm_compute.
Defined.
