(* ===== verification/CacheLock.v ===== *)
(** * The lock of the DNS cache

    [pdnsd/src/cache.c]: the lock for many readers or one writer, made of a mutex, two
    condition variables and counters, with the suspension of readers while many writers
    wait.

    What runs between locking and unlocking (or waiting with) the mutex is one step on the
    variables; the wake-ups are its outputs.  A function that waits on a condition variable
    is split there: [lock_cache_r_loop] is one test of the [while] condition and what
    follows it.  The threads are a step relation, [exec]: a step names the thread that
    runs, and the one that a signal wakes.  Threads may wake without a signal, as POSIX
    allows.  [use_cache_lock] is set before the threads start. *)

From Stdlib Require Import ZifyBool.
From S2P Require Import Prelude.

Record lock_vars := mkVars {
  use_cache_lock : bool; cache_w_lock : bool; cache_r_lock : Z; r_pend : Z; rw_pend : Z; r_susp : bool }.
Inductive sync_event := SIGNAL_RW_COND | BROADCAST_R_COND.
(** whether the thread has to wait, or what the function returns *)
Inductive outcome := WAIT | DONE (retval : Z).
Abbreviation L := (M lock_vars sync_event).

Definition SUSP_THRESH (n : Z) : Z := Z.quot n 2 + 2.
Definition SOFTLOCK_MAXTRIES : Z := 1000.

(** ** Assignments *)
Definition set_w (b : bool) : L unit :=
  modify (λ s, mkVars (use_cache_lock s) b (cache_r_lock s) (r_pend s) (rw_pend s) (r_susp s)).
Definition set_r (n : Z) : L unit :=
  modify (λ s, mkVars (use_cache_lock s) (cache_w_lock s) n (r_pend s) (rw_pend s) (r_susp s)).
Definition add_r_pend (n : Z) : L unit :=
  modify (λ s, mkVars (use_cache_lock s) (cache_w_lock s) (cache_r_lock s) (r_pend s + n) (rw_pend s) (r_susp s)).
Definition add_rw_pend (n : Z) : L unit :=
  modify (λ s, mkVars (use_cache_lock s) (cache_w_lock s) (cache_r_lock s) (r_pend s) (rw_pend s + n) (r_susp s)).
Definition set_susp (b : bool) : L unit :=
  modify (λ s, mkVars (use_cache_lock s) (cache_w_lock s) (cache_r_lock s) (r_pend s) (rw_pend s) b).

(** ** The functions *)

(** [(rw_pend>SUSP_THRESH(r_pend))?(r_susp=1):r_susp] *)
Definition suspended : L bool :=
  s ← get;
  if rw_pend s >? SUSP_THRESH (r_pend s) then set_susp true;; mret true else mret (r_susp s).
Definition lock_cache_r_loop : L outcome :=
  susp ← suspended;
  s ← get;
  if susp || cache_w_lock s then mret WAIT
  else set_r (cache_r_lock s + 1);; add_r_pend (-1);; mret (DONE 0).
Definition lock_cache_r : L outcome :=
  s ← get;
  if negb (use_cache_lock s) then mret (DONE 0)
  else add_r_pend 1;; lock_cache_r_loop.
Definition unlock_cache_r : L unit :=
  s ← get;
  when (use_cache_lock s) (
    when (cache_r_lock s >? 0) (set_r (cache_r_lock s - 1));;
    s ← get;
    when (cache_r_lock s =? 0) (emit SIGNAL_RW_COND)).

Definition write_locked (s : lock_vars) : bool := cache_w_lock s || negb (cache_r_lock s =? 0).
(** one test of the loop; [retval] is what the function returns with the lock *)
Definition lock_cache_rw_loop (retval : Z) : L outcome :=
  s ← get;
  if write_locked s then mret WAIT
  else set_w true;; add_rw_pend (-1);; mret (DONE retval).
Definition lock_cache_rw_wait (retval : Z) : L outcome := add_rw_pend 1;; lock_cache_rw_loop retval.
Definition lock_cache_rw : L outcome :=
  s ← get;
  if negb (use_cache_lock s) then mret (DONE 0) else lock_cache_rw_wait 0.
Definition timedlock_cache_rw : L outcome :=
  s ← get;
  if negb (use_cache_lock s) then mret (DONE 0) else lock_cache_rw_wait 1.
(** [cleanup_return] after [ETIMEDOUT] *)
Definition timedlock_timeout : L outcome := add_rw_pend (-1);; mret (DONE 0).

Definition release_rw : L unit :=
  set_w false;;
  set_susp false;;
  s ← get;
  if (r_pend s =? 0) || (rw_pend s >? SUSP_THRESH (r_pend s)) then emit SIGNAL_RW_COND
  else emit BROADCAST_R_COND.
Definition unlock_cache_rw : L unit := s ← get; when (use_cache_lock s) release_rw.
(** whether the lock was given up; then [lock_cache_rw_wait] follows, after a sleep *)
Definition yield_lock_cache_rw : L bool :=
  s ← get;
  if negb (use_cache_lock s) || (r_pend s =? 0) && (rw_pend s =? 0) then mret false
  else release_rw;; mret true.

(** The soft locks: whether the loop is entered, and one round of it.  [mutex] is the result of [softlock_mutex]; the
    result is [Some] when the function returns. *)
Definition softlock_begin : L bool := s ← get; mret (use_cache_lock s).
Definition softlock_round (blocked : lock_vars → bool) (take : lock_vars → L unit) (mutex : bool) (tr : Z) : L (option Z) :=
  if negb mutex then mret (Some 0)
  else
    s ← get;
    if negb (blocked s) then take s;; mret (Some 1)
    else if tr + 1 >=? SOFTLOCK_MAXTRIES then mret (Some 0) else mret None.
Definition softlock_cache_r : bool → Z → L (option Z) := softlock_round cache_w_lock (λ s, set_r (cache_r_lock s + 1)).
Definition softlock_cache_rw : bool → Z → L (option Z) := softlock_round write_locked (λ _, set_w true).
Definition softunlock_cache_r (mutex : bool) : L Z :=
  s ← get;
  if negb (use_cache_lock s) || negb mutex then mret 0
  else when (cache_r_lock s >? 0) (set_r (cache_r_lock s - 1));; mret 1.
Definition softunlock_cache_rw (mutex : bool) : L Z :=
  s ← get;
  if negb (use_cache_lock s) || negb mutex then mret 0 else set_w false;; mret 1.

(** ** Threads *)

Inductive waiter := FOR_R | FOR_RW (retval : Z).
Inductive status :=
  | IDLE
  | ASLEEP (w : waiter)
  | AWAKE (w : waiter)
  | READING
  | WRITING
  | YIELDED
  | SOFT_R (tr : Z)
  | SOFT_RW (tr : Z).
Record system := mkSys { vars : lock_vars; threads : gmap Z status }.
Definition status_of (s : system) (t : Z) : status := default IDLE (threads s !! t).

(** the thread [t] sleeps on [rw_cond] *)
Definition on_rw_cond (x : status) : bool := match x with ASLEEP (FOR_RW _) => true | _ => false end.
Definition awaken (x : status) : status := match x with ASLEEP w => AWAKE w | _ => x end.
Definition awaken_reader (x : status) : status := match x with ASLEEP FOR_R => AWAKE FOR_R | _ => x end.
(** A signal wakes [t], or nobody when nobody waits. *)
Definition deliver (e : sync_event) (t : option Z) (m : gmap Z status) : option (gmap Z status) :=
  match e, t with
  | BROADCAST_R_COND, _ => Some (awaken_reader <$> m)
  | SIGNAL_RW_COND, Some t => x ← m !! t; if on_rw_cond x then Some (<[t := awaken x]> m) else None
  | SIGNAL_RW_COND, None => if bool_decide (map_Forall (λ _ x, on_rw_cond x = false) m) then Some m else None
  end.
Fixpoint deliver_all (es : list sync_event) (t : option Z) (m : gmap Z status) : option (gmap Z status) :=
  match es with
  | [] => Some m
  | e :: es => m ← deliver e t m; deliver_all es t m
  end.
(** The thread [t] runs [code]; [k] is its status then. *)
Definition run {A} (t : Z) (code : L A) (k : A → status) (wakes : option Z) (s : system) : option system :=
  x ← code (vars s);
  let '(a, v, es) := x in
  m ← deliver_all es wakes (threads s);
  Some (mkSys v (<[t := k a]> m)).

Inductive action :=
  | LOCK_R | LOCK_RW | TIMEDLOCK_RW       (* a call of the function *)
  | RESUME                                (* the thread wakes and tests again *)
  | SPURIOUS                              (* it wakes without a signal *)
  | TIMEOUT
  | UNLOCK_R | UNLOCK_RW | YIELD
  | RELOCK                                (* the second part of the yield *)
  | SOFTLOCK_R | SOFTLOCK_RW
  | SOFT_ROUND (mutex : bool)
  | SOFTUNLOCK (mutex : bool).

Definition waits_r (o : outcome) : status := match o with WAIT => ASLEEP FOR_R | DONE _ => READING end.
Definition waits_rw (ret : Z) (o : outcome) : status := match o with WAIT => ASLEEP (FOR_RW ret) | DONE _ => WRITING end.
Definition soft (again : status) (got : status) (r : option Z) : status :=
  match r with None => again | Some r => if r =? 0 then IDLE else got end.
(** a step of the thread [t]; a signal in it wakes [wakes] *)
Definition exec (t : Z) (a : action) (wakes : option Z) (s : system) : option system :=
  match a, status_of s t with
  | LOCK_R, IDLE => run t lock_cache_r waits_r wakes s
  | LOCK_RW, IDLE => run t lock_cache_rw (waits_rw 0) wakes s
  | TIMEDLOCK_RW, IDLE => run t timedlock_cache_rw (waits_rw 1) wakes s
  | RESUME, AWAKE FOR_R => run t lock_cache_r_loop waits_r wakes s
  | RESUME, AWAKE (FOR_RW ret) => run t (lock_cache_rw_loop ret) (waits_rw ret) wakes s
  | SPURIOUS, ASLEEP w => run t (mret tt) (λ _, AWAKE w) wakes s
  | TIMEOUT, ASLEEP (FOR_RW ret) =>
      if ret =? 1 then run t timedlock_timeout (λ _, IDLE) wakes s else None
  | UNLOCK_R, READING => run t unlock_cache_r (λ _, IDLE) wakes s
  | UNLOCK_RW, WRITING => run t unlock_cache_rw (λ _, IDLE) wakes s
  | YIELD, WRITING => run t yield_lock_cache_rw (λ gave_up, if gave_up : bool then YIELDED else WRITING) wakes s
  | RELOCK, YIELDED => run t (lock_cache_rw_wait 0) (waits_rw 0) wakes s
  | SOFTLOCK_R, IDLE => run t softlock_begin (λ use, if use : bool then SOFT_R 0 else IDLE) wakes s
  | SOFTLOCK_RW, IDLE => run t softlock_begin (λ use, if use : bool then SOFT_RW 0 else IDLE) wakes s
  | SOFT_ROUND mutex, SOFT_R tr => run t (softlock_cache_r mutex tr) (soft (SOFT_R (tr + 1)) READING) wakes s
  | SOFT_ROUND mutex, SOFT_RW tr => run t (softlock_cache_rw mutex tr) (soft (SOFT_RW (tr + 1)) WRITING) wakes s
  | SOFTUNLOCK mutex, READING => run t (softunlock_cache_r mutex) (λ r, if r =? 0 then READING else IDLE) wakes s
  | SOFTUNLOCK mutex, WRITING => run t (softunlock_cache_rw mutex) (λ r, if r =? 0 then WRITING else IDLE) wakes s
  | _, _ => None
  end.
(** the lock is in use, and no thread has called anything *)
Definition start : system := mkSys (mkVars true false 0 0 0 false) ∅.
Inductive reach (ok : action → Prop) : system → Prop :=
  | reach_start : reach ok start
  | reach_step s t a w s' : reach ok s → ok a → exec t a w s = Some s' → reach ok s'.

(** ** Counting threads *)

Definition is_reading (x : status) : Z := match x with READING => 1 | _ => 0 end.
Definition is_writing (x : status) : Z := match x with WRITING => 1 | _ => 0 end.
Definition asleep_r (x : status) : Z := match x with ASLEEP FOR_R => 1 | _ => 0 end.
Definition awake_r (x : status) : Z := match x with AWAKE FOR_R => 1 | _ => 0 end.
Definition asleep_rw (x : status) : Z := match x with ASLEEP (FOR_RW _) => 1 | _ => 0 end.
Definition awake_rw (x : status) : Z := match x with AWAKE (FOR_RW _) => 1 | _ => 0 end.
Definition number (f : status → Z) (s : system) : Z := msum f (threads s).

(** what a wake-up leaves alone *)
Definition stable (f : status → Z) : Prop := ∀ x, f (awaken x) = f x.
Definition pending_r (x : status) : Z := match x with ASLEEP FOR_R | AWAKE FOR_R => 1 | _ => 0 end.
Definition pending_rw (x : status) : Z := match x with ASLEEP (FOR_RW _) | AWAKE (FOR_RW _) => 1 | _ => 0 end.
Lemma pending_number s :
  number pending_r s = number asleep_r s + number awake_r s ∧ number pending_rw s = number asleep_rw s + number awake_rw s.
Proof. unfold number. rewrite <-!msum_add. split; apply msum_ext; by intros [|[]|[]| | | | |]. Qed.
Lemma stable_counts : stable is_reading ∧ stable is_writing ∧ stable pending_r ∧ stable pending_rw.
Proof. split_and!; by intros [|[]|[]| | | | |]. Qed.

Lemma msum_set (f : status → Z) (m : gmap Z status) t x :
  f IDLE = 0 → msum f (<[t := x]> m) = msum f m - f (default IDLE (m !! t)) + f x.
Proof.
  intros H0. destruct (m !! t) as [y|] eqn:E; cbn [default from_option id]; [by apply msum_update|]. rewrite msum_insert by done. lia.
Qed.
Lemma deliver_stable f e w (m m' : gmap Z status) :
  stable f → deliver e w m = Some m' → msum f m' = msum f m ∧ ∀ t, f (default IDLE (m' !! t)) = f (default IDLE (m !! t)).
Proof.
  intros Hf. assert (Hr : ∀ x, f (awaken_reader x) = f x) by (intros [|[]|[]| | | | |]; try done; apply (Hf (ASLEEP FOR_R))).
  destruct e, w as [u|]; cbn [deliver].
  - destruct (m !! u) as [x|] eqn:E; [|done]. cbn [mbind option_bind]. destruct (on_rw_cond x); [|done]. intros [= <-]. split.
    + rewrite (msum_update f m u x _ E), Hf. lia.
    + intros t. destruct (decide (t = u)) as [->|]; [by rewrite lookup_insert_eq, E; apply Hf|by rewrite lookup_insert_ne].
  - destruct (bool_decide _); [|done]. by intros [= <-].
  - intros [= <-]. rewrite msum_fmap. split; [by apply msum_ext|]. intros t. rewrite lookup_fmap. by destruct (m !! t); cbn.
  - intros [= <-]. rewrite msum_fmap. split; [by apply msum_ext|]. intros t. rewrite lookup_fmap. by destruct (m !! t); cbn.
Qed.
Lemma deliver_all_stable f es w (m m' : gmap Z status) :
  stable f → deliver_all es w m = Some m' → msum f m' = msum f m ∧ ∀ t, f (default IDLE (m' !! t)) = f (default IDLE (m !! t)).
Proof.
  intros Hf. revert m. induction es as [|e es IH]; intros m; cbn [deliver_all]; [by intros [= <-]|].
  destruct (deliver e w m) as [m1|] eqn:E; [|done]. cbn [mbind option_bind]. intros [H1 H2]%IH.
  destruct (deliver_stable f e w m m1 Hf E) as [H3 H4]. split; [congruence|]. intros t. by rewrite H2.
Qed.
(** What a step does to the variables and to the numbers of threads. *)
Lemma run_step {A} t (code : L A) k w s s' :
  run t code k w s = Some s' →
  ∃ a es m, code (vars s) = Some (a, vars s', es) ∧ deliver_all es w (threads s) = Some m ∧ threads s' = <[t := k a]> m ∧
    ∀ f, stable f → f IDLE = 0 → number f s' = number f s - f (status_of s t) + f (k a).
Proof.
  unfold run. destruct (code (vars s)) as [[[a v] es]|] eqn:Hc; [|done]. cbn [mbind option_bind].
  destruct (deliver_all es w (threads s)) as [m|] eqn:Hd; [|done]. intros [= <-]. exists a, es, m. split_and!; try done.
  intros f Hf H0. unfold number, status_of. cbn [threads]. rewrite msum_set by done.
  destruct (deliver_all_stable f es w _ _ Hf Hd) as [-> ->]. done.
Qed.

(** ** Mutual exclusion *)

Record lock_ok (s : system) : Prop := {
  lock_use : use_cache_lock (vars s) = true;
  lock_r : cache_r_lock (vars s) = number is_reading s;
  lock_w : Z.b2z (cache_w_lock (vars s)) = number is_writing s;
  lock_excl : cache_w_lock (vars s) = true → cache_r_lock (vars s) = 0;
  lock_r_pend : r_pend (vars s) = number pending_r s;
  lock_rw_pend : rw_pend (vars s) = number pending_rw s;
}.
Lemma number_nonneg f s : (∀ x, 0 ≤ f x) → 0 ≤ number f s.
Proof. apply msum_nonneg. Qed.
Lemma counts_nonneg s : 0 ≤ number is_reading s ∧ 0 ≤ number is_writing s ∧ 0 ≤ number pending_r s ∧ 0 ≤ number pending_rw s.
Proof. split_and!; apply number_nonneg; by intros [|[]|[]| | | | |]. Qed.
Lemma number_ge f s t : (∀ x, 0 ≤ f x) → f IDLE = 0 → f (status_of s t) ≤ number f s.
Proof.
  intros Hf H0. unfold status_of. destruct (threads s !! t) as [x|] eqn:E; cbn [default from_option id]; [by apply (msum_pos f _ t)|].
  rewrite H0. by apply number_nonneg.
Qed.
Lemma counts_ge s t :
  is_reading (status_of s t) ≤ number is_reading s ∧ is_writing (status_of s t) ≤ number is_writing s ∧
  pending_r (status_of s t) ≤ number pending_r s ∧ pending_rw (status_of s t) ≤ number pending_rw s.
Proof. split_and!; apply number_ge; try done; by intros [|[]|[]| | | | |]. Qed.
(** The four counts after a step. *)
Lemma step_counts x y s s' :
  (∀ f, stable f → f IDLE = 0 → number f s' = number f s - f x + f y) →
  number is_reading s' = number is_reading s - is_reading x + is_reading y ∧
  number is_writing s' = number is_writing s - is_writing x + is_writing y ∧
  number pending_r s' = number pending_r s - pending_r x + pending_r y ∧
  number pending_rw s' = number pending_rw s - pending_rw x + pending_rw y.
Proof. intros H. pose proof stable_counts as (? & ? & ? & ?). split_and!; by apply H. Qed.

Ltac run_code H :=
  cbv [lock_cache_r lock_cache_r_loop unlock_cache_r lock_cache_rw lock_cache_rw_wait lock_cache_rw_loop timedlock_cache_rw
    timedlock_timeout unlock_cache_rw release_rw yield_lock_cache_rw softlock_begin softlock_cache_r softlock_cache_rw
    softlock_round softunlock_cache_r softunlock_cache_rw suspended write_locked set_w set_r add_r_pend add_rw_pend set_susp
    mbind M_bind mret M_ret get modify emit when app negb orb andb
    use_cache_lock cache_w_lock cache_r_lock r_pend rw_pend r_susp] in H;
  repeat match type of H with context [if ?b then _ else _] => destruct b eqn:?; cbv beta iota in H end;
  repeat match goal with E : (if ?b then _ else _) = _ |- _ => destruct b eqn:?; try discriminate E end.
Lemma exec_ok t a w s s' : lock_ok s → exec t a w s = Some s' → lock_ok s'.
Proof.
  intros [Hu Hr Hw Hex Hrp Hrwp] He. pose proof (counts_nonneg s) as (Hn1 & Hn2 & Hn3 & Hn4).
  pose proof (counts_ge s t) as (Hg1 & Hg2 & Hg3 & Hg4).
  unfold exec in He. destruct a, (status_of s t) as [|[|ret]|[|ret]| | | |tr|tr] eqn:Hst; try done.
  all: try (destruct (ret =? 1); [|done]).
  all: apply run_step in He as (x & es & m & Hc & _ & _ & Hn); apply step_counts in Hn as (C1 & C2 & C3 & C4); rewrite Hst in *.
  all: destruct (vars s) as [use wl rl rp rwp su] eqn:Hv; cbn [use_cache_lock cache_w_lock cache_r_lock r_pend rw_pend r_susp] in *; subst use; destruct wl, su.
  all: run_code Hc; try discriminate Hc; injection Hc; intros; subst; cbn [is_reading is_writing pending_r pending_rw asleep_r asleep_rw
    awake_r awake_rw waits_r waits_rw soft] in *.
  all: match goal with H : _ = vars ?x |- lock_ok ?x => split; rewrite <-H; cbn; zbool; first [done | lia | intros; simplify_eq/=; zbool; lia] end.
Qed.
Lemma reach_ok ok s : reach ok s → lock_ok s.
Proof.
  induction 1 as [|s t a w s' _ IH _ He]; [|by eapply exec_ok]. by split.
Qed.
Lemma number_two f s t t' : (∀ x, 0 ≤ f x) → f IDLE = 0 → t ≠ t' → f (status_of s t) + f (status_of s t') ≤ number f s.
Proof.
  intros Hf H0 Hne. pose proof (number_ge f (mkSys (vars s) (delete t (threads s))) t' Hf H0) as H. unfold status_of, number in *.
  cbn [threads] in H. rewrite lookup_delete_ne in H by done. destruct (threads s !! t) as [x|] eqn:E; cbn [default from_option id].
  - rewrite (msum_delete f _ t x E) in H. lia.
  - rewrite delete_id in H by done. lia.
Qed.

(** C33: The lock counts and excludes, however the calls, the wake-ups, the timeouts and the
    soft locks of the threads are interleaved: in every state that can be reached,
    [cache_r_lock] is the number of threads that have the lock for reading,
    [cache_w_lock] that of the threads that have it for writing, at most one, and
    [r_pend] and [rw_pend] are those that wait for either; and while a thread has the lock
    for writing no other thread has it for writing or for reading. *)
Theorem cache_lock_excludes s :
  reach (λ _, True) s →
  (cache_r_lock (vars s) = number is_reading s ∧ Z.b2z (cache_w_lock (vars s)) = number is_writing s ∧
   r_pend (vars s) = number pending_r s ∧ rw_pend (vars s) = number pending_rw s) ∧
  ∀ t, status_of s t = WRITING →
    cache_w_lock (vars s) = true ∧ cache_r_lock (vars s) = 0 ∧
    ∀ t', t' ≠ t → status_of s t' ≠ WRITING ∧ status_of s t' ≠ READING.
Proof.
  intros Hr. destruct (reach_ok _ _ Hr) as [Hu Hrd Hw Hex Hrp Hrwp]. split; [done|]. intros t Ht.
  assert (Hp : ∀ x, 0 ≤ is_writing x ∧ 0 ≤ is_reading x) by (intros [|[]|[]| | | | |]; done).
  pose proof (number_ge is_writing s t (λ x, proj1 (Hp x)) eq_refl) as H1. rewrite Ht in H1. cbn in H1.
  destruct (cache_w_lock (vars s)); cbn in Hw; [|lia]. specialize (Hex eq_refl).
  split; [done|]. split; [done|]. intros t' Hne.
  pose proof (number_two is_writing s t t' (λ x, proj1 (Hp x)) eq_refl ltac:(congruence)) as H2. rewrite Ht in H2. cbn in H2.
  pose proof (number_ge is_reading s t' (λ x, proj2 (Hp x)) eq_refl) as H3.
  pose proof (proj1 (Hp (status_of s t'))). pose proof (proj2 (Hp (status_of s t'))).
  split; intros He; rewrite He in *; cbn in *; lia.
Qed.

(** ** No wake-up is lost *)

(** Without timeouts and without the soft locks, which are for the exit. *)
Definition blocking (a : action) : Prop :=
  match a with
  | TIMEOUT | SOFTLOCK_R | SOFTLOCK_RW | SOFT_ROUND _ | SOFTUNLOCK _ => False
  | _ => True
  end.
(** Readers that sleep, or are suspended, are there only with a writer; and when the lock
    is free and writers wait, one of them is awake, or a reader that will get the lock. *)
Record wake_ok (s : system) : Prop := {
  wake_susp : cache_w_lock (vars s) = false → 0 < number asleep_r s ∨ r_susp (vars s) = true → 0 < rw_pend (vars s);
  wake_free : write_locked (vars s) = false → 0 < rw_pend (vars s) →
    0 < number awake_rw s ∨
    0 < number awake_r s ∧ r_susp (vars s) = false ∧ rw_pend (vars s) ≤ SUSP_THRESH (r_pend (vars s));
}.
Lemma thresh_mono n : 0 ≤ n → SUSP_THRESH n ≤ SUSP_THRESH (n + 1) ∧ 2 ≤ SUSP_THRESH n.
Proof. unfold SUSP_THRESH. intros. Z.to_euclidean_division_equations; lia. Qed.
Lemma awaken_counts x :
  asleep_r (awaken_reader x) = 0 ∧ awake_r (awaken_reader x) = pending_r x ∧ awake_rw (awaken_reader x) = awake_rw x.
Proof. by destruct x as [|[]|[]| | | | |]. Qed.
Lemma deliver_signal w (m m' : gmap Z status) :
  deliver SIGNAL_RW_COND w m = Some m' →
  msum asleep_r m' = msum asleep_r m ∧ msum awake_r m' = msum awake_r m ∧
  (0 < msum pending_rw m → 0 < msum awake_rw m') ∧ msum awake_rw m ≤ msum awake_rw m'.
Proof.
  cbn [deliver]. destruct w as [u|].
  - destruct (m !! u) as [x|] eqn:E; [|done]. cbn [mbind option_bind]. destruct (on_rw_cond x) eqn:Hx; [|done]. intros [= <-].
    rewrite !(msum_update _ m u x) by done. destruct x as [|[|ret]|[]| | | | |]; try done. cbn [awaken asleep_r awake_r awake_rw].
    assert (0 ≤ msum awake_rw m) by (apply msum_nonneg; by intros [|[]|[]| | | | |]). lia.
  - case_bool_decide as Hall; [|done]. intros [= <-]. split_and!; try done.
    intros Hp. destruct (msum_elem pending_rw m ltac:(by intros [|[]|[]| | | | |]) Hp) as (k & x & Hk & Hx).
    specialize (Hall k x Hk). assert (awake_rw x ≤ msum awake_rw m) by (apply (msum_pos awake_rw m k); [by intros [|[]|[]| | | | |]|done]).
    destruct x as [|[]|[]| | | | |]; try done; cbn in *; lia.
Qed.
Lemma deliver_broadcast w (m m' : gmap Z status) :
  deliver BROADCAST_R_COND w m = Some m' →
  msum asleep_r m' = 0 ∧ msum awake_r m' = msum pending_r m ∧ msum awake_rw m' = msum awake_rw m.
Proof.
  cbn [deliver]. intros [= <-]. rewrite !msum_fmap. split_and!; [|apply msum_ext; intros x; apply awaken_counts..].
  rewrite (msum_ext _ (λ _, 0)) by (intros x; apply awaken_counts).
  induction m as [|k x m Hk IH] using map_ind; [done|]. rewrite msum_insert by done. lia.
Qed.
Lemma deliver_self e w (m m' : gmap Z status) t :
  deliver e w m = Some m' → awaken (default IDLE (m !! t)) = default IDLE (m !! t) → default IDLE (m' !! t) = default IDLE (m !! t).
Proof.
  intros Hd Hx. destruct e, w as [u|]; cbn [deliver] in Hd.
  - destruct (m !! u) as [y|] eqn:E; [|done]. cbn [mbind option_bind] in Hd. destruct (on_rw_cond y); [|done]. injection Hd as <-.
    destruct (decide (t = u)) as [->|]; [|by rewrite lookup_insert_ne]. rewrite lookup_insert_eq, E in *. done.
  - destruct (bool_decide _); [|done]. by injection Hd as <-.
  - injection Hd as <-. rewrite lookup_fmap. destruct (m !! t) as [[|[]|[]| | | | |]|]; done.
  - injection Hd as <-. rewrite lookup_fmap. destruct (m !! t) as [[|[]|[]| | | | |]|]; done.
Qed.
(** The numbers of waiting threads after a step with the wake-ups [es]. *)
Definition woken (es : list sync_event) (w : option Z) (s s' : system) (x y : status) : Prop :=
  ∃ m, match es with
       | [] => m = threads s
       | [e] => deliver e w (threads s) = Some m
       | _ => True
       end ∧ ∀ f, f IDLE = 0 → number f s' = msum f m - f x + f y.
Lemma run_woken es w s s' t y (m : gmap Z status) :
  deliver_all es w (threads s) = Some m → threads s' = <[t := y]> m → (length es ≤ 1)%nat →
  es = [] ∨ awaken (status_of s t) = status_of s t → woken es w s s' (status_of s t) y.
Proof.
  intros Hd Ht Hlen Hx. exists m. destruct es as [|e [|? ?]]; cbn in Hlen; [| |lia].
  - injection Hd as <-. split; [done|]. intros f H0. unfold number. by rewrite Ht, msum_set.
  - cbn [deliver_all] in Hd. destruct (deliver e w (threads s)) as [m1|] eqn:E; [|done]. injection Hd as ->. split; [done|].
    intros f H0. unfold number. rewrite Ht, msum_set by done. destruct Hx as [Hx|Hx]; [done|]. by rewrite (deliver_self e w _ m t E Hx).
Qed.
Lemma woken_none w s s' x y : woken [] w s s' x y →
  ∀ f, f IDLE = 0 → number f s' = number f s - f x + f y.
Proof. by intros (m & -> & H). Qed.
Lemma woken_signal w s s' x y : woken [SIGNAL_RW_COND] w s s' x y →
  asleep_r x = 0 → awake_r x = 0 → awake_rw x = 0 → asleep_r y = 0 → awake_r y = 0 → awake_rw y = 0 →
  number asleep_r s' = number asleep_r s ∧ number awake_r s' = number awake_r s ∧
  (0 < number pending_rw s → 0 < number awake_rw s') ∧ number awake_rw s ≤ number awake_rw s'.
Proof. intros (m & Hd & H) ? ? ? ? ? ?. rewrite !H by done. apply deliver_signal in Hd. unfold number. lia. Qed.
Lemma woken_broadcast w s s' x y : woken [BROADCAST_R_COND] w s s' x y →
  asleep_r x = 0 → awake_r x = 0 → awake_rw x = 0 → asleep_r y = 0 → awake_r y = 0 → awake_rw y = 0 →
  number asleep_r s' = 0 ∧ number awake_r s' = number pending_r s ∧ number awake_rw s' = number awake_rw s.
Proof. intros (m & Hd & H) ? ? ? ? ? ?. rewrite !H by done. apply deliver_broadcast in Hd. unfold number. lia. Qed.
Lemma exec_wake t a w s s' : lock_ok s → wake_ok s → blocking a → exec t a w s = Some s' → wake_ok s'.
Proof.
  intros Hok [HJ HK] Hb He. pose proof (exec_ok _ _ _ _ _ Hok He) as Hok'. destruct Hok as [Hu Hr Hw Hex Hrp Hrwp].
  pose proof (counts_nonneg s) as (Hn1 & Hn2 & Hn3 & Hn4). pose proof (counts_ge s t) as (Hg1 & Hg2 & Hg3 & Hg4).
  pose proof (thresh_mono (number pending_r s) Hn3) as [Hm1 Hm2]. pose proof (pending_number s) as [Hp1 Hp2].
  assert (Hnn : 0 ≤ number asleep_r s ∧ 0 ≤ number awake_r s ∧ 0 ≤ number awake_rw s ∧ 0 ≤ number asleep_rw s).
  { split_and!; apply number_nonneg; by intros [|[]|[]| | | | |]. }
  unfold exec in He. destruct a, (status_of s t) as [|[|ret]|[|ret]| | | |tr|tr] eqn:Hst; try done.
  all: apply run_step in He as (x & es & m & Hc & Hd & Ht & Hn); apply step_counts in Hn as (C1 & C2 & C3 & C4).
  all: destruct (vars s) as [use wl rl rp rwp su] eqn:Hv; cbn [use_cache_lock cache_w_lock cache_r_lock r_pend rw_pend r_susp] in *; subst use; destruct wl, su.
  all: run_code Hc; try discriminate Hc; injection Hc; intros; subst.
  all: pose proof (run_woken _ _ _ _ _ _ _ Hd Ht ltac:(cbn; lia) ltac:(rewrite Hst; auto)) as Hwk; rewrite Hst in Hwk.
  all: first [pose proof (woken_none _ _ _ _ _ Hwk asleep_r eq_refl); pose proof (woken_none _ _ _ _ _ Hwk awake_r eq_refl);
                pose proof (woken_none _ _ _ _ _ Hwk awake_rw eq_refl)
             | pose proof (woken_signal _ _ _ _ _ Hwk eq_refl eq_refl eq_refl eq_refl eq_refl eq_refl)
             | pose proof (woken_broadcast _ _ _ _ _ Hwk eq_refl eq_refl eq_refl eq_refl eq_refl eq_refl)].
  all: rewrite ?Hst in *; clear Hwk Hok' Hc Hd Hb Hv; unfold write_locked in *.
  all: cbn [waits_r waits_rw is_reading is_writing pending_r pending_rw asleep_r asleep_rw awake_r awake_rw
    use_cache_lock cache_w_lock cache_r_lock r_pend rw_pend r_susp] in *.
  all: match goal with H : _ = vars ?x |- wake_ok ?x => split; unfold write_locked; rewrite <-H; clear H;
    cbn [use_cache_lock cache_w_lock cache_r_lock r_pend rw_pend r_susp] end.
  all: lia.
Qed.
Lemma reach_wake s : reach blocking s → wake_ok s.
Proof.
  induction 1 as [|s t a w s' Hr IH Ha He].
  - split; cbn; [|done]. intros _ [H|H]; [|done]. exfalso. revert H. vm_compute. done.
  - eapply exec_wake; [by eapply reach_ok|done..].
Qed.
Lemma number_zero f s : (∀ x, 0 ≤ f x) → (∀ t x, threads s !! t = Some x → f x ≤ 0) → number f s = 0.
Proof.
  intros Hf H. pose proof (number_nonneg f s Hf). destruct (decide (0 < number f s)) as [Hp|]; [|lia].
  destruct (msum_elem f (threads s) Hf Hp) as (t & x & Ht & Hx). specialize (H t x Ht). lia.
Qed.
Lemma number_some f s : (∀ x, 0 ≤ f x) → 0 < number f s → ∃ t, 0 < f (status_of s t).
Proof.
  intros Hf (t & x & Ht & Hx)%msum_elem; [|done]. exists t. unfold status_of. by rewrite Ht.
Qed.

Lemma rw_loop_gets ret v : write_locked v = false → ∃ v', lock_cache_rw_loop ret v = Some (DONE ret, v', []).
Proof. intros H. unfold lock_cache_rw_loop, mbind, M_bind, get. rewrite H. by eexists. Qed.
Lemma r_loop_gets v :
  cache_w_lock v = false → r_susp v = false → rw_pend v ≤ SUSP_THRESH (r_pend v) →
  ∃ v', lock_cache_r_loop v = Some (DONE 0, v', []).
Proof.
  intros Hw Hs Hp. unfold lock_cache_r_loop, suspended, mbind, M_bind, get.
  replace (rw_pend v >? SUSP_THRESH (r_pend v)) with false by lia. cbn. rewrite Hs, Hw. by eexists.
Qed.
Lemma run_gets {A} t (code : L A) (k : A → status) s a v' :
  code (vars s) = Some (a, v', []) → run t code k None s = Some (mkSys v' (<[t := k a]> (threads s))).
Proof. unfold run. by intros ->. Qed.

(** C34: No wake-up is lost: as long as no timed lock gives up, whenever a thread sleeps on
    the lock, another has it, or one is awake that gets it when it runs; so it is never the
    case that all wait for a lock that is free. *)
Theorem cache_lock_no_lost_wakeup s t w :
  reach blocking s → status_of s t = ASLEEP w →
  (∃ t', status_of s t' = READING ∨ status_of s t' = WRITING) ∨
  ∃ t' s', exec t' RESUME None s = Some s' ∧ (status_of s' t' = READING ∨ status_of s' t' = WRITING).
Proof.
  intros Hr Ht. destruct (reach_ok _ _ Hr) as [Hu Hrd Hw Hex Hrp Hrwp]. destruct (reach_wake _ Hr) as [HJ HK].
  assert (Hp : (∀ x, 0 ≤ is_reading x) ∧ (∀ x, 0 ≤ is_writing x) ∧ (∀ x, 0 ≤ asleep_r x) ∧ (∀ x, 0 ≤ awake_r x) ∧
    (∀ x, 0 ≤ awake_rw x) ∧ ∀ x, 0 ≤ pending_rw x) by (split_and!; by intros [|[]|[]| | | | |]).
  destruct Hp as (Hp1 & Hp2 & Hp3 & Hp4 & Hp5 & Hp6).
  destruct (decide (0 < number is_reading s)) as [H|].
  { left. destruct (number_some _ _ Hp1 H) as [t' Ht']. exists t'. destruct (status_of s t'); auto; done. }
  destruct (decide (0 < number is_writing s)) as [H|].
  { left. destruct (number_some _ _ Hp2 H) as [t' Ht']. exists t'. destruct (status_of s t'); auto; done. }
  right. pose proof (number_nonneg is_reading s Hp1). pose proof (number_nonneg is_writing s Hp2).
  assert (Hwl : cache_w_lock (vars s) = false) by lia. assert (Hfree : write_locked (vars s) = false) by (unfold write_locked; lia).
  assert (Hpend : 0 < rw_pend (vars s)).
  { destruct w as [|ret]; [apply HJ; [done|left]|rewrite Hrwp].
    - pose proof (number_ge asleep_r s t Hp3 eq_refl) as H'. rewrite Ht in H'. cbn in H'. lia.
    - pose proof (number_ge pending_rw s t Hp6 eq_refl) as H'. rewrite Ht in H'. cbn in H'. lia. }
  destruct (HK Hfree Hpend) as [H'|(H' & Hs & Hth)].
  - destruct (number_some _ _ Hp5 H') as [t' Ht']. exists t'. unfold exec. destruct (status_of s t') as [|[|]|[|ret]| | | |tr|tr]; try done.
    destruct (rw_loop_gets ret _ Hfree) as [v' Hc]. rewrite (run_gets _ _ _ _ _ _ Hc). eexists. split; [reflexivity|].
    right. unfold status_of. cbn. by rewrite lookup_insert_eq.
  - destruct (number_some _ _ Hp4 H') as [t' Ht']. exists t'. unfold exec. destruct (status_of s t') as [|[|]|[|ret]| | | |tr|tr]; try done.
    destruct (r_loop_gets _ Hwl Hs Hth) as [v' Hc]. rewrite (run_gets _ _ _ _ _ _ Hc). eexists. split; [reflexivity|].
    left. unfold status_of. cbn. by rewrite lookup_insert_eq.
Qed.

(** ** Examples *)

Fixpoint execs (l : list (Z * action * option Z)) (s : system) : option system :=
  match l with
  | [] => Some s
  | (t, a, w) :: l => s ← exec t a w s; execs l s
  end.
Lemma execs_reach (ok : action → Prop) l s s' : Forall (λ x, ok x.1.2) l → reach ok s → execs l s = Some s' → reach ok s'.
Proof.
  revert s. induction l as [|[[t a] w] l IH]; intros s Hok Hr; cbn [execs]; [by intros [= <-]|].
  apply list.Forall_cons in Hok as [Ha Hok]. destruct (exec t a w s) as [s1|] eqn:E; [|done]. cbn [mbind option_bind].
  apply IH; [done|]. by eapply reach_step.
Qed.
Definition state_after (l : list (Z * action * option Z)) : system := default start (execs l start).

Definition timeouts : list (Z * action * option Z) :=
  [(1, LOCK_R, None); (2, TIMEDLOCK_RW, None); (3, TIMEDLOCK_RW, None); (4, TIMEDLOCK_RW, None); (5, LOCK_R, None);
   (2, TIMEOUT, None); (3, TIMEOUT, None); (4, TIMEOUT, None); (1, UNLOCK_R, None)].

(** When timed locks give up, a wake-up can be lost: three of them suspend the readers
    and time out while a reader has the lock, which then wakes nobody when it is released.
    The lock is free, no thread is awake or has it, and yet a reader sleeps, and so does
    every reader that comes. *)
Theorem timedlock_strands_readers : ∃ s,
  reach (λ _, True) s ∧ cache_w_lock (vars s) = false ∧ cache_r_lock (vars s) = 0 ∧
  status_of s 5 = ASLEEP FOR_R ∧ (∀ t, t ≠ 5 → status_of s t = IDLE) ∧
  ∀ t w s', t ≠ 5 → exec t LOCK_R w s = Some s' → status_of s' t = ASLEEP FOR_R.
Proof.
  exists (state_after timeouts). split; [|split; [by vm_compute|split; [by vm_compute|split; [by vm_compute|]]]].
  { apply (execs_reach _ timeouts start); [by repeat constructor|constructor|by vm_compute]. }
  assert (Hi : ∀ t, t ≠ 5 → status_of (state_after timeouts) t = IDLE).
  { intros t Ht. unfold status_of. destruct (threads (state_after timeouts) !! t) as [x|] eqn:E; [|done]. cbn [default from_option id].
    assert (Hall : map_Forall (λ k x, k = 5 ∨ x = IDLE) (threads (state_after timeouts))).
    { apply map_Forall_to_list. vm_compute. repeat (constructor; [first [by left | by right]|]). constructor. }
    by destruct (Hall t x E). }
  split; [done|]. intros t w s' Ht. unfold exec. rewrite (Hi t Ht). unfold run.
  assert (Hv : vars (state_after timeouts) = mkVars true false 0 1 0 true) by (by vm_compute). rewrite Hv. cbn.
  intros [= <-]. unfold status_of. cbn. by rewrite lookup_insert_eq.
Qed.

Definition ex_contended : list (Z * action * option Z) :=
  [(1, LOCK_RW, None); (2, LOCK_R, None); (3, LOCK_RW, None); (1, YIELD, None); (1, RELOCK, None)].
Lemma ex_contended_reach (ok : action → Prop) l : Forall (λ x, ok x.1.2) l → is_Some (execs l start) → reach ok (state_after l).
Proof. intros Hl [s Hs]. unfold state_after. rewrite Hs. eapply execs_reach; [exact Hl|constructor|done]. Qed.
Example cache_lock_excludes_witness :
  let s := state_after ex_contended in
  rw_pend (vars s) = number pending_rw s ∧ status_of s 2 ≠ WRITING ∧ status_of s 2 ≠ READING.
Proof.
  destruct (cache_lock_excludes (state_after ex_contended)) as [(_ & _ & _ & Hn) Hex].
  - apply (ex_contended_reach _ ex_contended).
    + repeat constructor.
    + vm_compute. by eexists.
  - split; [exact Hn|]. destruct (Hex 1) as (_ & _ & Hother).
    + by vm_compute.
    + apply (Hother 2). done.
Defined.
Example cache_lock_no_lost_wakeup_witness :
  let s := state_after (take 4 ex_contended) in
  (∃ t', status_of s t' = READING ∨ status_of s t' = WRITING) ∨
  ∃ t' s', exec t' RESUME None s = Some s' ∧ (status_of s' t' = READING ∨ status_of s' t' = WRITING).
Proof.
  apply (cache_lock_no_lost_wakeup _ 3 (FOR_RW 0)).
  - apply (ex_contended_reach _ (take 4 ex_contended)).
    + repeat constructor.
    + vm_compute. by eexists.
  - by vm_compute.
Defined.
