(* ===== verification/DnsCacheFile.v ===== *)
(** * The DNS cache on the disk

    [pdnsd/src/cache.c]: [write_disk_cache] and [read_disk_cache], with the format of the
    file, whose structures are packed and have the byte order of the machine.

    A file that is read is its bytes; an error while reading is like its end.  A file that
    is written has the outcomes of the next calls of [fwrite]; a call that fails writes
    nothing.  [read_disk_cache] runs before the threads are started; the cache is written
    with the lock (file CacheLock). *)

From S2P Require Import Prelude CInt DnsName DnsCompress RrTypes RrList DnsHash DnsCent DnsCache.

(** ** The format *)

(** [time_t] *)
Definition to_time (x : Z) : Z := let y := u64 x in if y >=? 2 ^ 63 then y - 2 ^ 64 else y.
Definition cachverid : bytes := [112; 100; 49; 51].
Record dns_file_t := mkFile { qlen : Z; f_num_rrs : Z; f_flags : Z; f_ns : Z; f_soa : Z }.
Record rr_fset_t := mkFset { tp : Z; num_rr : Z; fs_flags : Z; fs_ttl : Z; fs_ts : Z }.
Definition sizeof_dns_file_t : Z := 6.
Definition sizeof_rr_fset_t : Z := 20.
Definition sizeof_rr_fbucket_t : Z := 2.
Definition sizeof_dom_fttlts_t : Z := 16.
Definition field (o : Z) (n : Z) (b : bytes) : Z := le_val (slice o n b).
Definition pack_dns_file (d : dns_file_t) : bytes :=
  le_bytes 1 (qlen d) ++ le_bytes 1 (f_num_rrs d) ++ le_bytes 2 (f_flags d) ++ le_bytes 1 (f_ns d) ++ le_bytes 1 (f_soa d).
Definition unpack_dns_file (b : bytes) : dns_file_t :=
  mkFile (field 0 1 b) (field 1 1 b) (field 2 2 b) (field 4 1 b) (field 5 1 b).
Definition pack_fttlts (x : Z * Z) : bytes := le_bytes 8 x.1 ++ le_bytes 8 x.2.
Definition unpack_fttlts (b : bytes) : Z * Z := (to_time (field 0 8 b), to_time (field 8 8 b)).
Definition pack_fset (s : rr_fset_t) : bytes :=
  le_bytes 1 (tp s) ++ le_bytes 1 (num_rr s) ++ le_bytes 2 (fs_flags s) ++ le_bytes 8 (fs_ttl s) ++ le_bytes 8 (fs_ts s).
Definition unpack_fset (b : bytes) : rr_fset_t :=
  mkFset (field 0 1 b) (field 1 1 b) (field 2 2 b) (to_time (field 4 8 b)) (to_time (field 12 8 b)).

(** ** Reading *)

(** how [read_disk_cache] ends: the labels it goes to, and the messages *)
Inductive load_end :=
  | LOADED | NO_FILE | READ_ERROR | BAD_VERSION
  | INVALID_NAME | INVALID_TYPE | TYPE_ORDER
  | NO_MEMORY.                            (* [pdnsd_exit] *)
(** what is left of the file, and the size of the buffer [data] *)
Record reader := mkReader { rest : bytes; dtsz : Z }.
Definition fread (n : Z) (f : bytes) : option (bytes * bytes) :=
  if n <=? zlen f then Some (ztake n f, zdrop n f) else None.
(** [realloc] of [data] *)
Definition grow (rdlen sz : Z) : Mem (option Z) :=
  if rdlen >? sz then p ← malloc; mret (match p with Some _ => Some rdlen | None => None end) else mret (Some sz).

Fixpoint read_records (n : nat) (c : dns_cent_t) (sh : rr_fset_t) (r : reader) : Mem (dns_cent_t * (load_end + reader)) :=
  match n with
  | O => mret (c, inr r)
  | S n =>
      match fread sizeof_rr_fbucket_t (rest r) with
      | None => mret (c, inl READ_ERROR)
      | Some (b, f) =>
          let rdlen := field 0 2 b in
          sz ← grow rdlen (dtsz r);
          match sz with
          | None => mret (c, inl NO_MEMORY)
          | Some sz =>
              match (if rdlen =? 0 then Some ([], f) else fread rdlen f) with
              | None => mret (c, inl READ_ERROR)
              | Some (data, f) =>
                  x ← add_cent_rr c (tp sh) (fs_ttl sh) (fs_ts sh) (fs_flags sh) data;
                  if x.1 : bool then read_records n x.2 sh (mkReader f sz) else mret (x.2, inl NO_MEMORY)
              end
          end
      end
  end.
Definition PDNSD_NOT_CACHED_TYPE (type : Z) : option bool :=
  if (type <? T_MIN) || (type >? T_MAX) then Some true
  else i ← rrlkuptab !! Z.to_nat (type - T_MIN); Some (i >=? NRRTOT).
Fixpoint read_sets (n : nat) (c : dns_cent_t) (prevtp : Z) (r : reader) : Mem (dns_cent_t * (load_end + reader)) :=
  match n with
  | O => mret (c, inr r)
  | S n =>
      match fread sizeof_rr_fset_t (rest r) with
      | None => mret (c, inl READ_ERROR)
      | Some (b, f) =>
          let sh := unpack_fset b in
          bad ← the (PDNSD_NOT_CACHED_TYPE (tp sh));
          if bad : bool then mret (c, inl INVALID_TYPE)
          else if tp sh <=? prevtp then mret (c, inl TYPE_ORDER)
          else
            x ← add_cent_rrset_by_type c (tp sh) (fs_ttl sh) (fs_ts sh) (fs_flags sh);
            if x.1 : bool then
              y ← read_records (Z.to_nat (num_rr sh)) x.2 sh (mkReader f (dtsz r));
              match y.2 with
              | inl e => mret (y.1, inl e)
              | inr r => read_sets n y.1 (tp sh) r
              end
            else mret (x.2, inl NO_MEMORY)
      end
  end.
(** the check of the labels of the name *)
Fixpoint name_ok (fuel : nat) (nb : bytes) (i len : Z) : option bool :=
  if i <? len then
    match fuel with
    | O => None
    | S fuel =>
        lb ← rd nb i;
        if (lb =? 0) || (lb >? 63) then Some false
        else let i := i + (lb + 1) in if i >? len then Some false else name_ok fuel nb i len
    end
  else Some true.
Definition read_name (len : Z) (f : bytes) : option (load_end + bytes * bytes) :=
  if len =? 0 then Some (inr ([0], f))
  else
    match fread len f with
    | None => Some (inl READ_ERROR)
    | Some (b, f) =>
        ok ← name_ok (S (length b)) b 0 len;
        Some (if ok : bool then inr (b ++ [0], f) else inl INVALID_NAME)
    end.
(** one entry; [free_cent] is called for an error in the file, but not for a bad type *)
Definition read_entry (r : reader) : Mem (load_end + dns_cent_t * reader) :=
  match fread sizeof_dns_file_t (rest r) with
  | None => mret (inl READ_ERROR)
  | Some (b, f) =>
      let fe := unpack_dns_file b in
      match (if has (f_flags fe) DF_NEGATIVE then
               x ← fread sizeof_dom_fttlts_t f; Some (unpack_fttlts x.1, x.2)
             else Some ((0, 0), f)) with
      | None => mret (inl READ_ERROR)
      | Some ((t, s), f) =>
          x ← the (read_name (qlen fe) f);
          match x with
          | inl e => mret (inl e)
          | inr (nb, f) =>
              c ← init_cent nb t s (f_flags fe);
              match c with
              | None => mret (inl NO_MEMORY)
              | Some c =>
                  let c := mkCent (qname c) (cs c) (num_rrs c) (c_flags c) (u c) (f_ns fe) (f_soa fe) in
                  y ← read_sets (Z.to_nat (f_num_rrs fe)) c 0 (mkReader f (dtsz r));
                  match y.2 with
                  | inr r => mret (inr (y.1, r))
                  | inl e =>
                      match e with READ_ERROR | NO_MEMORY => free_cent y.1 | _ => mret tt end;;
                      mret (inl e)
                  end
              end
          end
      end
  end.

Section file.
Context (global : globparm_t).

(** [now] is the time when so many entries are left *)
Fixpoint read_entries (now : Z → Z) (fuel : nat) (cnt : Z) (r : reader) : C load_end :=
  if cnt >? 0 then
    match fuel with
    | O => unreachable
    | S fuel =>
        x ← on_mem (read_entry r);
        match x with
        | inl e => mret e
        | inr (c, r) =>
            add_cache global (now cnt) c;;
            on_mem (free_cent c);;
            read_entries now fuel (cnt - 1) r
        end
    end
  else mret LOADED.
Definition read_file (now : Z → Z) (f : bytes) : C load_end :=
  match fread (zlen cachverid) f with
  | None => mret READ_ERROR
  | Some (b, f) =>
      if negb (bool_decide (b = cachverid)) then mret BAD_VERSION
      else
        match fread 8 f with
        | None => mret READ_ERROR
        | Some (b, f) => read_entries now (S (length f)) (field 0 8 b) (mkReader f 512)
        end
  end.
(** the file, if it can be opened *)
Definition read_disk_cache (now : Z → Z) (file : option bytes) : C load_end :=
  match file with
  | None => mret NO_FILE
  | Some f =>
      p ← on_mem malloc;
      match p with
      | None => mret NO_MEMORY
      | Some _ =>
          set_sort false;;
          e ← read_file now f;
          match e with
          | NO_MEMORY => mret e
          | _ =>
              s ← get;
              when (negb (insert_sort s)) (sort_list;; set_sort true);;
              mret e
          end
      end
  end.

End file.

(** ** Writing *)

Record disk := mkDisk { out : bytes; fwrites : list bool; num_rrs_errs : Z }.
Inductive write_event := COUNTED_MISMATCH (name : bytes).
Abbreviation W := (M disk write_event).
Definition fwrite (b : bytes) : W bool := λ d,
  match fwrites d with
  | false :: l => Some (false, mkDisk (out d) l (num_rrs_errs d), [])
  | l => Some (true, mkDisk (out d ++ b) (tail l) (num_rrs_errs d), [])
  end.
(** [if (fwrite(...)!=1) goto fclose_unlock] *)
Definition and_then (m : W bool) (k : W bool) : W bool := ok ← m; if ok : bool then k else mret false.

(** [num_rr] *)
Fixpoint count_rrs (l : list bytes) (n : nat) : nat :=
  match l with
  | [] => n
  | _ :: l => if (n <? 255)%nat then count_rrs l (S n) else n
  end.
Fixpoint write_records (l : list bytes) (n : nat) : W bool :=
  match n with
  | O => mret true
  | S n =>
      match l with
      | [] => unreachable
      | b :: l =>
          let rdlen := u16 (zlen b) in
          and_then (fwrite (le_bytes 2 rdlen))
            (and_then (if rdlen =? 0 then mret true else fwrite (ztake rdlen b)) (write_records l n))
      end
  end.
Definition write_rrset (type : Z) (s : rr_set_t) : W bool :=
  let n := count_rrs (rrs s) 0 in
  and_then (fwrite (pack_fset (mkFset (u8 type) (Z.of_nat n) (flags s) (ttl s) (ts s)))) (write_records (rrs s) n).

(** the sets that are written *)
Definition kept_set (v : option rr_set_t) : bool :=
  match v with Some s => negb (has (flags s) CF_LOCAL) | None => false end.
Fixpoint any_kept (n : nat) (c : dns_cent_t) (i : Z) : option bool :=
  match n with
  | O => Some false
  | S n => v ← RRARR_INDEX c i; if kept_set v then Some true else any_kept n c (i + 1)
  end.
(** whether the entry is written *)
Definition to_write (c : dns_cent_t) : option bool :=
  if negative c then Some (negb (has (c_flags c) DF_LOCAL))
  else ilim ← RRARR_LEN c; any_kept (Z.to_nat ilim) c 0.
(** [num_rrs] and [df.num_rrs] *)
Fixpoint count_sets (n : nat) (c : dns_cent_t) (i num kept : Z) : option (Z * Z) :=
  match n with
  | O => Some (num, kept)
  | S n =>
      v ← RRARR_INDEX c i;
      match v with
      | None => count_sets n c (i + 1) num kept
      | Some _ => count_sets n c (i + 1) (num + 1) (if kept_set v then u8 (kept + 1) else kept)
      end
  end.
Definition RRITERLIST (c : dns_cent_t) : option (list Z) :=
  if negative c then Some []
  else r ← rr_of c; Some (match r.2 with Some _ => rrcachiterlist | None => rrmuiterlist end).
(** [getrrset_eff] *)
Definition getrrset_eff (c : dns_cent_t) (type : Z) : option (option rr_set_t) :=
  idx ← rrlkuptab !! Z.to_nat (type - T_MIN);
  r ← rr_of c;
  if idx <? NRRMU then r.1 !! Z.to_nat idx
  else if idx - NRRMU <? NRREXT then
    match r.2 with Some ext => ext !! Z.to_nat (idx - NRRMU) | None => Some None end
  else Some None.
Definition needed {A} (o : option A) : W A := match o with Some a => mret a | None => unreachable end.
Fixpoint write_sets (l : list Z) (c : dns_cent_t) : W bool :=
  match l with
  | [] => mret true
  | type :: l =>
      v ← needed (getrrset_eff c type);
      match v with
      | Some s => if has (flags s) CF_LOCAL then write_sets l c else and_then (write_rrset type s) (write_sets l c)
      | None => write_sets l c
      end
  end.
Definition MAX_NUM_RRS_ERRS : Z := 10.
Definition write_entry (c : dns_cent_t) : W bool :=
  len ← needed (rhnlen (qname c));
  let ql := u8 (len - 1) in
  ilim ← needed (RRARR_LEN c);
  x ← needed (count_sets (Z.to_nat ilim) c 0 0 0);
  d ← get;
  when (negb (x.1 =? num_rrs c)) (
    put (mkDisk (out d) (fwrites d) (num_rrs_errs d + 1));;
    when (num_rrs_errs d + 1 <=? MAX_NUM_RRS_ERRS) (emit (COUNTED_MISMATCH (qname c))));;
  and_then (fwrite (pack_dns_file (mkFile ql x.2 (c_flags c) (c_ns c) (c_soa c))))
    (and_then (if negative c then n ← needed (neg_of c); fwrite (pack_fttlts (n.1.2, n.2)) else mret true)
      (and_then (if ql =? 0 then mret true else fwrite (ztake ql (qname c)))
        (types ← needed (RRITERLIST c); write_sets types c))).

(** the two loops over the entries *)
Fixpoint count_entries (l : list dns_cent_t) (en : Z) : option Z :=
  match l with
  | [] => Some en
  | c :: l => w ← to_write c; count_entries l (if w : bool then u64 (en + 1) else en)
  end.
Fixpoint write_entries (l : list dns_cent_t) : W bool :=
  match l with
  | [] => mret true
  | c :: l => w ← needed (to_write c); if w : bool then and_then (write_entry c) (write_entries l) else write_entries l
  end.
Definition write_file (l : list dns_cent_t) : W bool :=
  and_then (fwrite cachverid)
    (en ← needed (count_entries l 0); and_then (fwrite (le_bytes 8 en)) (write_entries l)).
(** the entries, in the order of [fetch_first] and [fetch_next] *)
Definition all_entries (s : cache) : option (list dns_cent_t) :=
  l ← fetch_rest (length (concat (hash s))) (hash s) (fetch_first (hash s));
  mapM (λ d, cents s !! contents d) l.
(** The file, if it can be opened, is written after a purge; the result is what is in it, and
    whether everything was written. *)
Definition write_disk_cache (global : globparm_t) (now : Z) (file : option (list bool)) : C (option (bytes * bool)) :=
  purge_cache now (perm_cache global * 1024) false;;
  match file with
  | None => mret None
  | Some fw =>
      s ← get;
      l ← need (all_entries s);
      x ← need (write_file l (mkDisk [] fw 0));
      mret (Some (out x.1.2, x.1.1))
  end.
