(* ===== verification/DnsCacheRead.v ===== *)
(** * Reading the DNS cache from the disk is safe

    [read_disk_cache] (file DnsCacheFile) on any file: whatever bytes it has, and whatever
    allocations fail, the cache stays consistent. *)

From S2P Require Import Prelude CInt DnsName DnsCompress RrTypes RrList DnsHash DnsCent DnsCache Contract DnsCacheInv DnsCacheAdd DnsCacheOps DnsCacheSafe DnsCacheFile.

(** ** Runs on the memory *)

(** [x] runs without a message and takes no node out of the list. *)
Definition quietly {A} (x : Mem A) (m : memory) (Q : A → memory → Prop) : Prop :=
  ∃ a m', x m = Some (a, m', []) ∧ dropped m m' ∅ ∧ Q a m'.
Section quietly.
Context {A : Type}.
Implicit Types (Q : A → memory → Prop).
Lemma quietly_ret a m Q : Q a m → quietly (mret a) m Q.
Proof. intros. exists a, m. split; [done|]. split; [apply dropped_refl|done]. Qed.
Lemma quietly_mono (x : Mem A) m Q Q' : quietly x m Q → (∀ a m', dropped m m' ∅ → Q a m' → Q' a m') → quietly x m Q'.
Proof. intros (a & m' & Hx & Hd & HQ) Hm. exists a, m'. auto. Qed.
Lemma quietly_bind {B} (x : Mem B) (f : B → Mem A) m Q :
  quietly x m (λ b m', dropped m m' ∅ → quietly (f b) m' Q) → quietly (x ≫= f) m Q.
Proof.
  intros (b & m1 & Hx & Hd & a & m2 & Hf & Hd2 & HQ); [done|]. exists a, m2. split; [|split; [by eapply dropped_empty|done]].
  by rewrite (M_bind_run0 _ _ _ _ _ Hx).
Qed.
Lemma quietly_the (o : option A) a m Q : o = Some a → Q a m → quietly (the o) m Q.
Proof. intros -> ?. by apply quietly_ret. Qed.
End quietly.
Lemma quietly_assert b m (Q : unit → memory → Prop) : b = true → Q tt m → quietly (ASSERT b) m Q.
Proof. intros -> ?. by apply (quietly_ret tt). Qed.
Lemma quietly_malloc m (Q : option Z → memory → Prop) :
  (∀ p m', rl m' = rl m → (mem_ok m → not_null p = true) → Q p m') → quietly malloc m Q.
Proof. intros H. destruct (malloc_spec m) as (p & m' & Hm & Hrl & Hd & Hok & _). exists p, m'. auto. Qed.
Ltac q_bind := apply quietly_bind.
Lemma dropped_list m m' L : dropped m m' ∅ → dll (rl m) L → dll (rl m') L.
Proof. intros Hd HL. apply (drop_dll _ _ _ Hd) in HL. by rewrite filter_all in HL by set_solver. Qed.

(** ** Entries outside of the cache *)

(** Nothing of the entry is in the list. *)
Record detached (c : dns_cent_t) : Prop := {
  det_ok : cent_ok c;
  det_neg : neg_lent c = None;
  det_slots j : 0 ≤ j → slot c j ≫= lent = None;
}.
Lemma detached_nodes c : detached c → cent_nodes c = [].
Proof.
  intros [Hok Hn Hs]. destruct (cent_nodes c) as [|p l] eqn:E; [done|]. assert (Hp : p ∈ cent_nodes c) by (rewrite E; by left).
  apply elem_of_cent_nodes in Hp as (ro & i & Ho); [|apply Hok]. destruct ro as [a|]; cbn [owner] in Ho.
  - destruct Ho as (Hi & s & Hsl & _ & Hl). specialize (Hs i Hi). rewrite Hsl in Hs. cbn in Hs. congruence.
  - destruct Ho. congruence.
Qed.
Lemma nodes_detached c : cent_ok c → cent_nodes c = [] → detached c.
Proof.
  intros Hok Hn. assert (Ho : ∀ ro i le, ¬ owner c ro i le).
  { intros ro i le Ho. assert (le ∈ cent_nodes c) as Hin; [|rewrite Hn in Hin; by apply not_elem_of_nil in Hin].
    apply elem_of_cent_nodes; [apply Hok|eauto]. }
  split; [done| |].
  - destruct (neg_lent c) as [p|] eqn:E; [|done]. by destruct (Ho None (-1) p).
  - intros j Hj. destruct (slot c j) as [s|] eqn:E; [|done]. cbn. destruct (lent s) as [p|] eqn:El; [|done].
    destruct (Ho (Some (addr s)) j p). split; [done|]. by exists s.
Qed.
Lemma free_detached m c L : detached c → dll (rl m) L → quietly (free_cent c) m (λ _ _, True).
Proof.
  intros Hc HL. destruct (free_detached_spec m c L (ok_tag _ (det_ok _ Hc)) HL (detached_nodes c Hc)) as (m' & H & Hd). by exists tt, m'.
Qed.

(** A type that is cached, and its place. *)
Definition cached (type i : Z) : Prop := 0 ≤ type - T_MIN < T_NUM ∧ place type = Some i ∧ 0 ≤ i < NRRTOT.
Lemma PDNSD_NOT_CACHED_TYPE_spec type :
  ∃ b, PDNSD_NOT_CACHED_TYPE type = Some b ∧ (b = false → ∃ i, cached type i).
Proof.
  unfold PDNSD_NOT_CACHED_TYPE. destruct (_ || _) eqn:Hr; [by exists true|]. apply orb_false_iff in Hr as [H1 H2].
  assert (Htp : 0 ≤ type - T_MIN < T_NUM) by (unfold T_MIN, T_MAX, T_NUM in *; lia).
  destruct (lookup_lt_is_Some_2 rrlkuptab (Z.to_nat (type - T_MIN))) as [i Hi].
  { change (Z.to_nat (type - T_MIN) < 51)%nat. unfold T_NUM in Htp. lia. }
  rewrite Hi. cbn [mbind option_bind]. eexists. split; [done|]. intros Hb. exists i. split; [done|]. split; [exact Hi|].
  split; [|lia]. by apply (place_nonneg type).
Qed.
(** Places of different types are different. *)
Lemma cached_inj type type' i : cached type i → cached type' i → type = type'.
Proof.
  intros (Ht & Hi & _) (Ht' & Hi' & _). unfold place in *.
  assert (Hnd : NoDup rrlkuptab) by (apply (bool_decide_unpack _); by vm_compute).
  pose proof (NoDup_lookup _ _ _ _ Hnd Hi Hi') as H. unfold T_NUM, T_MIN in *. lia.
Qed.

Lemma add_set_detached m c type i t s f L :
  detached c → dll (rl m) L → cached type i → slot c i = None →
  quietly (add_cent_rrset_by_type c type t s f) m (λ x _,
    detached x.2 ∧ same_cent c x.2 ∧ (mem_ok m → x.1 = true) ∧ (∀ j, 0 ≤ j → j ≠ i → slot x.2 j = slot c j) ∧
    (x.1 = true → negative x.2 = false ∧ ∃ a, slot x.2 i = Some (mkSet a None t s f []))).
Proof.
  intros [Hok Hn Hls] HL (Ht & Hi & Hr) Hs. unfold add_cent_rrset_by_type. q_bind. apply quietly_assert; [lia|].
  intros _. q_bind. apply (quietly_the _ i); [exact Hi|]. intros _.
  destruct (add_cent_rrset_spec m c i t s f L Hok Hr Hs HL) as (ok & c' & m' & H & Hd & Hmo & Hok' & Hsm & Hneg & Hnl & _ & Hsl & Hsi).
  { by rewrite Hn. }
  rewrite Hn in Hd. exists (ok, c'), m'. split; [done|]. split; [done|]. cbn [fst snd]. split; [|split; [done|split; [done|split; [done|]]]].
  - split; [done|done|]. intros j Hj. destruct (decide (j = i)) as [->|Hne]; [|rewrite Hsl by done; by apply Hls].
    destruct (slot c' i) as [rs|]; [|done]. by destruct Hsi as (_ & a & ->).
  - intros ->. split; [done|]. destruct (slot c' i) as [rs|]; [|done]. destruct Hsi as (_ & a & ->). by exists a.
Qed.
Lemma add_rr_detached m c type i t s f data L :
  detached c → dll (rl m) L → cached type i →
  quietly (add_cent_rr c type t s f data) m (λ x _,
    detached x.2 ∧ same_cent c x.2 ∧ (mem_ok m → x.1 = true) ∧ (∀ j, 0 ≤ j → j ≠ i → slot x.2 j = slot c j) ∧
    (x.1 = true → has (c_flags c) DF_LOCAL && negb (has f CF_LOCAL) = false → ∀ old, slot c i = Some old → data ∉ rrs old →
      ttl old = t → view (slot x.2 i) = view (Some (with_rrs old (rrs old ++ [data]))))).
Proof.
  intros [Hok Hn Hls] HL (Ht & Hi & Hr).
  destruct (add_cent_rr_spec m c type t s f data L Hok Hn HL Ht) as (i' & ok & c' & m' & Hi' & H & Hd & Hmo & Hok' & Hsm & Hnl & Hsl & Hlen & _ & Hset).
  { intros i' Hi'. rewrite Hi in Hi'. injection Hi' as <-. lia. }
  rewrite Hi in Hi'. injection Hi' as <-. exists (ok, c'), m'. split; [done|]. split; [done|]. cbn [fst snd].
  split; [|split; [done|split; [done|split; [done|]]]].
  - split; [done|done|]. intros j Hj. destruct (decide (j = i)) as [->|Hne]; [rewrite Hlen; by apply Hls|rewrite Hsl by done; by apply Hls].
  - intros -> Hloc old Hold Hin Ht'. destruct (Hset eq_refl Hloc) as (rs & Hrs & _ & Hold'). rewrite Hold in Hold'.
    destruct Hold' as (H1 & H2 & H3 & H4). rewrite bool_decide_false in H4 by done. rewrite Hrs. cbn. rewrite H1, H2, H3, H4. do 3 f_equal. lia.
Qed.

(** ** One entry *)

(** A part of the file was read. *)
Definition shorter (f f' : bytes) : Prop := zlen f' ≤ zlen f ∧ (bytes_ok f → bytes_ok f').
#[export] Instance shorter_refl : Reflexive shorter.
Proof. by intros f; split. Qed.
#[export] Instance shorter_trans : Transitive shorter.
Proof. intros a b c [? ?] [? ?]. split; [lia|auto]. Qed.
Lemma fread_shorter n f b f' : fread n f = Some (b, f') → shorter f f' ∧ (0 ≤ n → zlen f' + n ≤ zlen f ∧ zlen b = n) ∧ (bytes_ok f → bytes_ok b).
Proof.
  unfold fread. destruct (Z.leb_spec n (zlen f)) as [Hn|]; [|done]. intros [= <- <-]. split; [|split].
  - split; [unfold zdrop, zlen; rewrite length_drop; lia|by apply bytes_ok_drop].
  - intros Hn0. unfold zdrop, ztake, zlen in *. rewrite length_drop, length_take. lia.
  - by apply bytes_ok_take.
Qed.
Definition fails (e : load_end) : Prop := e ≠ LOADED ∧ e ≠ NO_FILE.
Lemma grow_spec n sz m (Q : option Z → memory → Prop) :
  (∀ x m', rl m' = rl m → (mem_ok m → not_null x = true) → Q x m') → quietly (grow n sz) m Q.
Proof.
  intros H. unfold grow. destruct (n >? sz); [|by apply quietly_ret, H]. q_bind. apply quietly_malloc. intros p m1 Hrl Hok _.
  apply quietly_ret, H; [done|]. intros Hm. apply Hok in Hm. by destruct p.
Qed.
Lemma read_records_spec n m c sh i r L :
  detached c → dll (rl m) L → cached (tp sh) i →
  quietly (read_records n c sh r) m (λ x _,
    detached x.1 ∧ same_cent c x.1 ∧ (∀ j, 0 ≤ j → j ≠ i → slot x.1 j = slot c j) ∧
    match x.2 with inr r' => shorter (rest r) (rest r') | inl e => fails e end).
Proof.
  revert m c r. induction n as [|n IH]; intros m c r Hc HL Hi; cbn [read_records]; [by apply quietly_ret|].
  destruct (fread sizeof_rr_fbucket_t (rest r)) as [[b f]|] eqn:Hf; [|by apply quietly_ret].
  apply fread_shorter in Hf as (Hf & _). q_bind. apply grow_spec. intros sz m1 Hrl1 _ _.
  destruct sz as [sz|]; [|by apply quietly_ret].
  assert (Hdata : match (if field 0 2 b =? 0 then Some ([], f) else fread (field 0 2 b) f) with Some (_, f') => shorter f f' | None => True end).
  { destruct (_ =? 0); [done|]. destruct (fread _ f) as [[d f']|] eqn:E; [|done]. by apply fread_shorter in E as [? _]. }
  destruct (if field 0 2 b =? 0 then _ else _) as [[data f']|]; [|by apply quietly_ret]. q_bind.
  eapply quietly_mono; [eapply add_rr_detached; [done|by rewrite Hrl1|done]|]. cbn beta.
  intros [ok c1] m2 Hd2 (Hc1 & Hsm & _ & Hsl & _) Hd. cbn [fst snd] in *. destruct ok; [|by apply quietly_ret].
  eapply quietly_mono; [apply IH; [done| |done]|]. { apply (dropped_list m1 m2); [done|by rewrite Hrl1]. }
  cbn beta. intros [c2 x] m3 _ (Hc2 & Hsm2 & Hsl2 & Hx). cbn [fst snd rest] in *.
  split; [done|]. split; [by etrans|]. split; [intros j Hj Hne; by rewrite Hsl2, Hsl|].
  destruct x as [e|r']; [done|]. etrans; [exact Hf|]. by etrans.
Qed.
Lemma read_sets_spec n m c prev r L :
  detached c → dll (rl m) L → (∀ type i, cached type i → prev < type → slot c i = None) →
  quietly (read_sets n c prev r) m (λ x _,
    detached x.1 ∧ same_cent c x.1 ∧ match x.2 with inr r' => shorter (rest r) (rest r') | inl e => fails e end).
Proof.
  revert m c prev r. induction n as [|n IH]; intros m c prev r Hc HL Hnone; cbn [read_sets]; [by apply quietly_ret|].
  destruct (fread sizeof_rr_fset_t (rest r)) as [[b f]|] eqn:Hf; [|by apply quietly_ret].
  apply fread_shorter in Hf as (Hf & _). set (sh := unpack_fset b).
  destruct (PDNSD_NOT_CACHED_TYPE_spec (tp sh)) as (bad & Hbad & Hi). q_bind. apply (quietly_the _ bad); [done|]. intros _.
  destruct bad; [by apply quietly_ret|]. destruct (Hi eq_refl) as [i Hci]. destruct (Z.leb_spec (tp sh) prev); [by apply quietly_ret|].
  q_bind. eapply quietly_mono; [eapply add_set_detached; [done|done|done|by apply (Hnone (tp sh))]|]. cbn beta.
  intros [ok c1] m1 Hd1 (Hc1 & Hsm1 & _ & Hsl1 & _) _. cbn [fst snd] in *. destruct ok; [|by apply quietly_ret].
  pose proof (dropped_list _ _ _ Hd1 HL) as HL1. q_bind. eapply quietly_mono; [by eapply read_records_spec|]. cbn beta.
  intros [c2 x] m2 Hd2 (Hc2 & Hsm2 & Hsl2 & Hx) _. cbn [fst snd rest] in *.
  assert (Hsm : same_cent c c2) by (by etrans). destruct x as [e|r']; [by apply quietly_ret|].
  pose proof (dropped_list _ _ _ Hd2 HL1) as HL2. eapply quietly_mono; [eapply (IH m2 c2 (tp sh) r' Hc2 HL2)|].
  - intros type j Hj Hlt. assert (j ≠ i) as Hne by (intros ->; pose proof (cached_inj _ _ _ Hj Hci); lia).
    assert (0 ≤ j) by apply Hj. rewrite Hsl2, Hsl1 by done. apply (Hnone type); [done|lia].
  - cbn beta. intros [c3 y] m3 _ (Hc3 & Hsm3 & Hy). cbn [fst snd] in *. split; [done|]. split; [by etrans|].
    destruct y as [e|r'']; [done|]. etrans; [exact Hf|]. by etrans.
Qed.

(** The name that is read is well-formed. *)
Lemma name_ok_spec fuel b i :
  0 ≤ i ≤ zlen b → (zlen b - i < Z.of_nat fuel) → bytes_ok b →
  ∃ ok, name_ok fuel b i (zlen b) = Some ok ∧ (ok = true → ∃ ls, Forall label_ok ls ∧ zdrop i b = rhn_labels ls).
Proof.
  revert i. induction fuel as [|fuel IH]; intros i Hi Hf Hb; [lia|]. cbn [name_ok].
  destruct (Z.ltb_spec i (zlen b)) as [Hlt|].
  2: { exists true. split; [done|]. intros _. exists []. split; [constructor|]. unfold zdrop, zlen in *. by rewrite drop_ge by lia. }
  unfold rd. replace (0 <=? i) with true by lia. destruct (lookup_lt_is_Some_2 b (Z.to_nat i)) as [lb Hlb]; [unfold zlen in *; lia|].
  rewrite Hlb. cbn [mbind option_bind]. destruct (_ || _) eqn:Hr; [by exists false|]. apply orb_false_iff in Hr as [H0 H63].
  assert (Hrange : 0 ≤ lb < 256) by (apply (Forall_lookup_1 _ _ _ _ Hb Hlb)).
  destruct (Z.gtb_spec (i + (lb + 1)) (zlen b)) as [|Hle]; [by exists false|].
  destruct (IH (i + (lb + 1))) as (ok & Hok & Hls); [lia|lia|done|]. exists ok. split; [done|]. intros Ht.
  destruct (Hls Ht) as (ls & Hl & He). exists (slice (i + 1) lb b :: ls).
  assert (Hz : zlen (slice (i + 1) lb b) = lb) by (unfold slice, ztake, zdrop, zlen in *; rewrite length_take, length_drop; lia).
  split; [constructor; [|done]|].
  - split; [lia|]. by apply bytes_ok_slice.
  - unfold rhn_labels. cbn [map concat]. rewrite Hz. fold (rhn_labels ls). rewrite <-He. unfold zdrop.
    rewrite (drop_S _ _ _ Hlb). cbn [app]. f_equal. unfold slice, ztake, zdrop.
    replace (Z.to_nat (i + 1)) with (S (Z.to_nat i)) by lia.
    replace (Z.to_nat (i + (lb + 1))) with (Z.to_nat lb + S (Z.to_nat i))%nat by lia.
    rewrite Nat.add_comm, <-drop_drop. by rewrite take_drop.
Qed.
Lemma read_name_spec len f :
  0 ≤ len < 256 → bytes_ok f →
  ∃ x, read_name len f = Some x ∧
    match x with
    | inr (nb, f') => shorter f f' ∧ ∃ ls, wf_name ls ∧ nb = rhn ls
    | inl e => fails e
    end.
Proof.
  intros Hlen Hb. unfold read_name. destruct (Z.eqb_spec len 0) as [|H0].
  { eexists. split; [done|]. split; [done|]. exists []. by split. }
  destruct (fread len f) as [[b f']|] eqn:Hf; [|by eexists]. apply fread_shorter in Hf as (Hf & Hl & Hbb).
  destruct (Hl ltac:(lia)) as [_ Hzl]. destruct (name_ok_spec (S (length b)) b 0) as (ok & Hok & Hls); [lia|unfold zlen; lia|auto|].
  rewrite Hzl in Hok. rewrite Hok. cbn [mbind option_bind]. eexists. split; [done|]. destruct ok; [|done]. split; [done|].
  destruct (Hls eq_refl) as (ls & Hls' & He). unfold zdrop in He. cbn in He. rewrite drop_0 in He. exists ls. rewrite He. split; [|done].
  split; [done|]. rewrite zlen_rhn, <-He, Hzl. unfold DNSNAMEBUFSIZE. lia.
Qed.
Lemma file_field_range o n b : 0 ≤ n → bytes_ok b → 0 ≤ field o n b < 256 ^ n.
Proof.
  intros Hn Hb. unfold field. pose proof (le_val_bound (slice o n b) (bytes_ok_slice _ _ _ Hb)) as H.
  assert (zlen (slice o n b) ≤ n). { unfold slice, ztake, zlen. rewrite length_take. lia. }
  assert (256 ^ zlen (slice o n b) ≤ 256 ^ n) by (apply Z.pow_le_mono_r; lia). unfold zlen in *. lia.
Qed.
Lemma detached_refs c ns soa :
  detached c → detached (mkCent (qname c) (cs c) (num_rrs c) (c_flags c) (u c) ns soa).
Proof. intros [[Ht Hcs Hn] Hnl Hs]. by split. Qed.
Lemma read_entry_spec m r L :
  dll (rl m) L → bytes_ok (rest r) →
  quietly (read_entry r) m (λ x _,
    match x with
    | inr (c, r') => detached c ∧ is_name (qname c) ∧ shorter (rest r) (rest r') ∧ zlen (rest r') + sizeof_dns_file_t ≤ zlen (rest r)
    | inl e => fails e
    end).
Proof.
  intros HL Hb. unfold read_entry. destruct (fread sizeof_dns_file_t (rest r)) as [[b f]|] eqn:Hf; [|by apply quietly_ret].
  apply fread_shorter in Hf as (Hf & Hl & Hbb). specialize (Hl ltac:(done)). set (fe := unpack_dns_file b).
  pose proof (file_field_range 0 1 b ltac:(lia) (Hbb Hb)) as Hql. assert (Hbf : bytes_ok f) by (by apply Hf).
  assert (Hneg : match (if has (f_flags fe) DF_NEGATIVE then x ← fread sizeof_dom_fttlts_t f; Some (unpack_fttlts x.1, x.2) else Some ((0, 0), f)) with
    Some (_, f') => shorter f f' | None => True end).
  { destruct (has _ _); [|done]. destruct (fread _ f) as [[d f']|] eqn:E; [|done]. cbn. by apply fread_shorter in E as [? _]. }
  destruct (if has (f_flags fe) DF_NEGATIVE then _ else _) as [[[t s] f1]|]; [|by apply quietly_ret].
  assert (Hbf1 : bytes_ok f1) by (by apply Hneg).
  destruct (read_name_spec (qlen fe) f1) as (x & Hx & Hsp); [cbn [fe unpack_dns_file qlen]; lia|done|].
  q_bind. apply (quietly_the _ x); [done|]. intros _. destruct x as [e|[nb f2]]; [by apply quietly_ret|].
  destruct Hsp as (Hf2 & ls & Hls & ->). q_bind.
  destruct (init_cent_spec m ls t s (f_flags fe) (proj1 Hls)) as (c0 & m1 & Hi & Hrl & Hd1 & _ & Hc0).
  exists c0, m1. split; [done|]. split; [done|]. intros _. destruct c0 as [c0|]; [|by apply quietly_ret].
  destruct Hc0 as (Hok & Hno & Hq & _ & _ & _ & Hsl).
  pose proof (detached_refs c0 (f_ns fe) (f_soa fe) (nodes_detached c0 Hok Hno)) as Hdet. set (c1 := mkCent _ _ _ _ _ _ _) in *.
  cbv zeta. q_bind. assert (HL1 : dll (rl m1) L) by (by rewrite Hrl).
  eapply quietly_mono; [eapply (read_sets_spec _ m1 c1 0 _ L Hdet HL1); intros type i _ _; apply Hsl|]. cbn beta.
  intros [c2 y] m2 Hd2 (Hc2 & Hsm & Hy) _. cbn [fst snd rest] in *. destruct y as [e|r'].
  - q_bind. assert (Hfree : quietly (match e with READ_ERROR | NO_MEMORY => free_cent c2 | _ => mret tt end) m2 (λ _ _, True)).
    { assert (Hfc : quietly (free_cent c2) m2 (λ _ _, True)) by (eapply free_detached; [done|by apply (dropped_list m1 m2)]).
      destruct e; first [exact Hfc | by apply quietly_ret]. }
    eapply quietly_mono; [exact Hfree|]. intros [] m3 _ _ _. by apply quietly_ret.
  - apply quietly_ret. split; [done|]. split; [exists ls; split; [done|by rewrite (same_qname _ _ Hsm)]|].
    assert (Hs : shorter f (rest r')) by (etrans; [exact Hneg|]; by etrans).
    split; [by etrans|]. destruct Hs as [Hs _]. unfold sizeof_dns_file_t in *. lia.
Qed.

(** ** The file *)

Lemma safe_quietly {A} (x : Mem A) (Q : A → cache → Prop) s :
  quietly x (mem s) (λ a m', dropped (mem s) m' ∅ → Q a (mkCache m' (cents s) (hash s) (cache_size s) (ent_num s) (insert_sort s))) →
  safe (on_mem x) Q s.
Proof. intros (a & m' & Hx & Hd & HQ). eapply safe_on_mem; [exact Hx|]. by apply HQ. Qed.
(** The list can still be sorted after [n] more bytes. *)
Definition can_grow (s : cache) (L : list Z) (n : Z) : Prop :=
  insert_sort s = true ∨ Z.of_nat (length L) + 8 * n + NRRTOT < 2 ^ 32.

Section read.
Context (global : globparm_t) (now : Z → Z).

Lemma read_entries_spec fuel s L cnt r :
  inv s L → can_grow s L (zlen (rest r)) → bytes_ok (rest r) → zlen (rest r) < Z.of_nat fuel →
  safe (read_entries global now fuel cnt r) (λ _ s', ∃ L', inv s' L' ∧ can_grow s' L' 0) s.
Proof.
  revert s L cnt r. induction fuel as [|fuel IH]; intros s L cnt r Hinv Hg Hb Hf; [pose proof (zlen_nonneg (rest r)); lia|].
  assert (Hend : ∀ s', mem s' = mem s → insert_sort s' = insert_sort s → can_grow s' L 0).
  { intros s' _ Hs. destruct Hg as [?|Hg]; [left; congruence|right]. pose proof (zlen_nonneg (rest r)). lia. }
  cbn [read_entries]. destruct (cnt >? 0); [|apply safe_ret; exists L; split; [done|by apply Hend]]. s_bind. apply safe_quietly.
  eapply quietly_mono; [apply (read_entry_spec (mem s) r L); [apply Hinv|done]|]. cbn beta. intros x m1 _ Hx Hd1.
  pose proof (invx_mem s L m1 Hinv Hd1) as Hinv1. set (s1 := mkCache m1 _ _ _ _ _) in *.
  destruct x as [e|[c r']].
  { apply safe_ret. exists L. split; [done|]. destruct Hg as [?|Hg]; [by left|right]. pose proof (zlen_nonneg (rest r)). lia. }
  destruct Hx as (Hc & (nm & Hnm & Hq) & Hsh & Hlen). s_bind. unfold sizeof_dns_file_t in Hlen.
  eapply safe_mono; [apply (add_cache_spec global (now cnt) s1 L nm c Hinv1); [|done|done|apply Hc]|].
  { destruct Hg as [?|Hg]; [by left|right]. pose proof (zlen_nonneg (rest r)). lia. }
  cbn beta. intros _ s2 ((L2 & Hinv2 & HL2) & Hso2 & _). s_bind. apply safe_quietly.
  eapply quietly_mono; [eapply (free_detached (mem s2) c L2 Hc); apply Hinv2|]. cbn beta. intros [] m3 _ _ Hd3.
  pose proof (invx_mem s2 L2 m3 Hinv2 Hd3) as Hinv3. apply (IH _ L2); [done| |by apply Hsh|lia].
  destruct Hg as [Hg|Hg]; [left; cbn; by apply Hso2|]. destruct HL2 as [HL2|HL2]; [by left|right].
  unfold NRRTOT, NRRMU, NRREXT in *. lia.
Qed.
Lemma read_file_spec s L f :
  inv s L → can_grow s L (zlen f) → bytes_ok f →
  safe (read_file global now f) (λ _ s', ∃ L', inv s' L' ∧ can_grow s' L' 0) s.
Proof.
  intros Hinv Hg Hb. assert (Hend : ∃ L', inv s L' ∧ can_grow s L' 0).
  { exists L. split; [done|]. destruct Hg as [?|Hg]; [by left|right]. pose proof (zlen_nonneg f). lia. }
  unfold read_file. destruct (fread (zlen cachverid) f) as [[b f1]|] eqn:Hf1; [|by apply safe_ret].
  destruct (negb _); [by apply safe_ret|]. destruct (fread 8 f1) as [[b2 f2]|] eqn:Hf2; [|by apply safe_ret].
  apply fread_shorter in Hf1 as (Hf1 & _), Hf2 as (Hf2 & _). assert (Hf : shorter f f2) by (by etrans).
  apply (read_entries_spec _ s L); cbn [rest]; [done| |by apply Hf|unfold zlen; lia].
  destruct Hf as [Hf _]. destruct Hg as [?|Hg]; [by left|right]. lia.
Qed.
(** The list is sorted at the end, if it is not yet. *)
Lemma finish_spec s L (e : load_end) :
  inv s L → can_grow s L 0 →
  safe (s ← get; when (negb (insert_sort s)) (sort_list;; set_sort true);; mret e)
    (λ e' s', e' = e ∧ (∃ L', inv s' L') ∧ insert_sort s' = true ∧ cents s' = cents s ∧ hash s' = hash s) s.
Proof.
  intros Hinv Hg. s_get. s_bind. destruct (insert_sort s) eqn:Hs; cbn [negb when].
  { apply safe_ret. apply safe_ret. split; [done|]. split; [by exists L|done]. }
  destruct Hg as [?|Hg]; [congruence|]. s_bind. eapply safe_mono; [apply (sort_list_spec s L Hinv); unfold NRRTOT in Hg; lia|]. cbn beta.
  intros _ s1 (L1 & [Hcore Ht Hn] & _ & _ & _ & Hc & _ & _ & Hh). apply safe_modify. apply safe_ret.
  split; [done|]. split; [exists L1|done]. split; [by apply (core_eq s1)|by destruct Ht|by destruct Hn].
Qed.
Lemma read_disk_cache_spec s L f :
  inv s L → can_grow s L (zlen f) → bytes_ok f → Z.of_nat (length L) + 8 * zlen f + NRRTOT < 2 ^ 32 →
  safe (read_disk_cache global now (Some f)) (λ e s', (∃ L', inv s' L') ∧ (e ≠ NO_MEMORY → insert_sort s' = true)) s.
Proof.
  intros Hinv Hg Hb Hroom. unfold read_disk_cache. s_bind. apply safe_quietly, quietly_malloc. intros p m1 _ _ Hd1.
  pose proof (invx_mem s L m1 Hinv Hd1) as Hinv1. destruct p as [p|]; [|by apply safe_ret; split; [exists L|]].
  s_bind. apply safe_modify. set (s1 := mkCache _ _ _ _ _ _).
  assert (Hinv2 : inv s1 L). { destruct Hinv1 as [Hcore Ht Hn]. split; [by apply (core_eq _ s1) in Hcore|by destruct Ht|by destruct Hn]. }
  s_bind. eapply safe_mono; [apply (read_file_spec s1 L f Hinv2); [by right|done]|]. cbn beta. intros e s2 (L2 & Hinv3 & Hg2).
  assert (Hfin : safe (s ← get; when (negb (insert_sort s)) (sort_list;; set_sort true);; mret e)
    (λ e s', (∃ L', inv s' L') ∧ (e ≠ NO_MEMORY → insert_sort s' = true)) s2).
  { eapply safe_mono; [by apply (finish_spec s2 L2 e)|]. cbn beta. intros e' s3 (-> & Hi & Hs & _). done. }
  destruct e; try exact Hfin. apply safe_ret. split; [by exists L2|done].
Qed.

(** C32: [read_disk_cache] is safe whatever is in the file: for every sequence of bytes, cut
    off anywhere or made up, and whatever allocations fail, it returns, reads nothing outside
    of a buffer and fails no assertion, and the cache is consistent afterwards; unless
    memory is out and the program ends, its list is ready for insertion by age. *)
Theorem read_disk_cache_safe s file :
  reachable global s →
  (∀ f, file = Some f → bytes_ok f ∧ Z.of_nat (list_len s) + 8 * zlen f + NRRTOT < 2 ^ 32) →
  ∃ e s' es, read_disk_cache global now file s = Some (e, s', es) ∧ only_warns es ∧ (∃ L, inv s' L) ∧
    (e ≠ NO_MEMORY → insert_sort s' = true).
Proof.
  intros [[L Hinv] Hs]%reachable_good Hf. destruct file as [f|].
  2: { exists NO_FILE, s, []. split; [done|]. split; [constructor|]. split; [by exists L|done]. }
  destruct (Hf f eq_refl) as [Hb Hroom]. unfold list_len in Hroom. rewrite (list_size s L (inv_core _ _ Hinv)) in Hroom.
  destruct (safe_run _ _ _ (read_disk_cache_spec s L f Hinv (or_introl Hs) Hb Hroom)) as (e & s' & es & Hrun & Hes & Hi & Hso).
  by exists e, s', es.
Qed.
End read.

(** A file that announces three entries and ends in the second of them. *)
Definition ex_cut_file : bytes :=
  cachverid ++ le_bytes 8 3 ++ [4; 1; 0; 0; 255; 255; 3; 98; 97; 114] ++ [1; 1; 0; 0] ++ le_bytes 8 60 ++ le_bytes 8 1000 ++ [4; 0; 10; 0; 0; 1] ++ [4; 0; 0; 0].
Example read_disk_cache_safe_witness :
  ∃ e s' es, read_disk_cache ex_global (λ _, 1000) (Some ex_cut_file) (ex_state 0) = Some (e, s', es) ∧ only_warns es ∧
    (∃ L, inv s' L) ∧ (e ≠ NO_MEMORY → insert_sort s' = true).
Proof.
  apply read_disk_cache_safe; [apply ex_state_reachable|]. intros f [= <-]. split; [|vm_compute; reflexivity].
  unfold bytes_ok. repeat constructor; by vm_compute.
Defined.
Example ex_cut_file_end :
  match read_disk_cache ex_global (λ _, 1000) (Some ex_cut_file) (ex_state 0) with Some (e, s', _) => Some (e, ent_num s') | None => None end = Some (READ_ERROR, 2).
Proof. by vm_compute. Qed.
