(* ===== verification/DnsCacheDisk.v ===== *)
(** * What the cache writes to the disk is read back

    [write_disk_cache] and [read_disk_cache] (file DnsCacheFile): the format of an entry, its
    writing and reading, and what the entry is after it was read again.  File DnsCacheReload
    has the whole file. *)

From stdpp Require Import sorting.
From S2P Require Import Prelude CInt DnsName DnsCompress RrTypes RrList DnsHash DnsCent DnsCache Contract DnsCacheInv DnsCacheAdd DnsCacheOps DnsCacheSafe DnsCacheFile DnsCacheRead.

(** ** The format of an entry *)

Definition is_time (x : Z) : Prop := - 2 ^ 63 ≤ x < 2 ^ 63.
Definition disk_set (v : option rr_set_t) : option rr_set_t := if kept_set v then v else None.
Definition set_at (c : dns_cent_t) (type : Z) : option rr_set_t :=
  match place type with Some i => if i <? NRRTOT then disk_set (slot c i) else None | None => None end.
Definition ser_record (b : bytes) : bytes := le_bytes 2 (zlen b) ++ b.
Definition fset_of (type : Z) (s : rr_set_t) : rr_fset_t := mkFset type (zlen (rrs s)) (flags s) (ttl s) (ts s).
Definition ser_set (type : Z) (s : rr_set_t) : bytes := pack_fset (fset_of type s) ++ concat (map ser_record (rrs s)).
Definition ser_sets (types : list Z) (c : dns_cent_t) : bytes :=
  concat (map (λ type, match set_at c type with Some s => ser_set type s | None => [] end) types).
Definition types_of (c : dns_cent_t) : list Z := default [] (RRITERLIST c).
Definition num_kept (types : list Z) (c : dns_cent_t) : nat := length (omap (set_at c) types).
Definition header_of (c : dns_cent_t) : dns_file_t :=
  mkFile (zlen (qname c) - 1) (Z.of_nat (num_kept (types_of c) c)) (c_flags c) (c_ns c) (c_soa c).
Definition ser_entry (c : dns_cent_t) : bytes :=
  pack_dns_file (header_of c) ++ match view_neg c with Some n => pack_fttlts n | None => [] end ++
  ztake (zlen (qname c) - 1) (qname c) ++ ser_sets (types_of c) c.
Definition written (c : dns_cent_t) : bool := default false (to_write c).
Definition ser_file (l : list dns_cent_t) : bytes :=
  cachverid ++ le_bytes 8 (Z.of_nat (length (filter (λ c, written c = true) l))) ++ concat (map ser_entry (filter (λ c, written c = true) l)).

(** What the format can hold: a set has at most 255 records, without repetition, each
    shorter than 2^16; the numbers are in the ranges of their types.  An entry marked as
    local has local sets only. *)
Record storable_set (s : rr_set_t) : Prop := {
  st_flags : 0 ≤ flags s < 2 ^ 16;
  st_ttl : is_time (ttl s);
  st_ts : is_time (ts s);
  st_num : (length (rrs s) ≤ 255)%nat;
  st_nodup : NoDup (rrs s);
  st_data : Forall (λ b, zlen b < 2 ^ 16) (rrs s);
}.
Record storable (c : dns_cent_t) : Prop := {
  sc_flags : 0 ≤ c_flags c < 2 ^ 16;
  sc_ns : 0 ≤ c_ns c < 2 ^ 8;
  sc_soa : 0 ≤ c_soa c < 2 ^ 8;
  sc_neg n : view_neg c = Some n → is_time n.1 ∧ is_time n.2;
  sc_sets j s : 0 ≤ j → disk_set (slot c j) = Some s → storable_set s ∧ has (c_flags c) DF_LOCAL = false;
}.

Lemma to_time_u64 x : is_time x → to_time (x mod 256 ^ 8) = x.
Proof.
  unfold is_time, to_time, u64. intros H. change (256 ^ 8) with (2 ^ 64). rewrite Z.mod_mod by lia.
  destruct (decide (0 ≤ x)).
  - rewrite Z.mod_small by lia. destruct (Z.geb_spec x (2 ^ 63)); lia.
  - rewrite <-(Z.mod_add x 1), Z.mod_small by lia. destruct (Z.geb_spec (x + 1 * 2 ^ 64) (2 ^ 63)); lia.
Qed.
Lemma le_val_fits n x : 0 ≤ x < 256 ^ Z.of_nat n → le_val (le_bytes n x) = x.
Proof. intros H. by rewrite le_val_le_bytes, Z.mod_small. Qed.
Lemma to_time_le x : is_time x → to_time (le_val (le_bytes 8 x)) = x.
Proof. intros H. rewrite le_val_le_bytes. by apply to_time_u64. Qed.
Lemma unpack_pack_file d :
  0 ≤ qlen d < 2 ^ 8 → 0 ≤ f_num_rrs d < 2 ^ 8 → 0 ≤ f_flags d < 2 ^ 16 → 0 ≤ f_ns d < 2 ^ 8 → 0 ≤ f_soa d < 2 ^ 8 →
  unpack_dns_file (pack_dns_file d) = d.
Proof.
  destruct d as [a b c d e]. cbn [qlen f_num_rrs f_flags f_ns f_soa]. intros.
  change (unpack_dns_file (pack_dns_file (mkFile a b c d e))) with
    (mkFile (le_val (le_bytes 1 a)) (le_val (le_bytes 1 b)) (le_val (le_bytes 2 c)) (le_val (le_bytes 1 d)) (le_val (le_bytes 1 e))).
  by rewrite !le_val_fits by (cbn; lia).
Qed.
Lemma unpack_pack_fttlts x : is_time x.1 → is_time x.2 → unpack_fttlts (pack_fttlts x) = x.
Proof.
  destruct x as [a b]. cbn [fst snd]. intros.
  change (unpack_fttlts (pack_fttlts (a, b))) with (to_time (le_val (le_bytes 8 a)), to_time (le_val (le_bytes 8 b))).
  by rewrite !to_time_le.
Qed.
Lemma unpack_pack_fset d :
  0 ≤ tp d < 2 ^ 8 → 0 ≤ num_rr d < 2 ^ 8 → 0 ≤ fs_flags d < 2 ^ 16 → is_time (fs_ttl d) → is_time (fs_ts d) →
  unpack_fset (pack_fset d) = d.
Proof.
  destruct d as [a b c d e]. cbn [tp num_rr fs_flags fs_ttl fs_ts]. intros.
  change (unpack_fset (pack_fset (mkFset a b c d e))) with
    (mkFset (le_val (le_bytes 1 a)) (le_val (le_bytes 1 b)) (le_val (le_bytes 2 c)) (to_time (le_val (le_bytes 8 d))) (to_time (le_val (le_bytes 8 e)))).
  by rewrite !le_val_fits, !to_time_le by (done || cbn; lia).
Qed.
Lemma fread_app n b f : n = zlen b → fread n (b ++ f) = Some (b, f).
Proof.
  intros ->. unfold fread. rewrite zlen_app. pose proof (zlen_nonneg f). replace (zlen b <=? zlen b + zlen f) with true by lia.
  by rewrite ztake_app_length, zdrop_app_length.
Qed.

(** ** Writing *)

(** When the disk has room, [m] appends [b]. *)
Definition disk_ok (d : disk) : Prop := Forall (λ x, x = true) (fwrites d).
Definition writes (m : W bool) (b : bytes) : Prop :=
  ∀ d, disk_ok d → ∃ d', m d = Some (true, d', []) ∧ out d' = out d ++ b ∧ disk_ok d'.
Lemma writes_fwrite b : writes (fwrite b) b.
Proof.
  intros d Hd. unfold fwrite. destruct (fwrites d) as [|[] l] eqn:E.
  - eexists. split; [done|]. split; [done|]. by unfold disk_ok.
  - eexists. split; [done|]. split; [done|]. unfold disk_ok in *. rewrite E in Hd. by apply list.Forall_cons in Hd as [_ ?].
  - unfold disk_ok in Hd. rewrite E in Hd. by apply list.Forall_cons in Hd as [? _].
Qed.
Lemma writes_true : writes (mret true) [].
Proof. intros d Hd. exists d. split; [done|]. by rewrite app_nil_r. Qed.
Lemma writes_then m k b b' : writes m b → writes k b' → writes (and_then m k) (b ++ b').
Proof.
  intros Hm Hk d Hd. destruct (Hm d Hd) as (d1 & H1 & Ho1 & Hd1). destruct (Hk d1 Hd1) as (d2 & H2 & Ho2 & Hd2).
  exists d2. split; [unfold and_then; by rewrite (M_bind_run0 _ _ _ _ _ H1)|]. split; [by rewrite Ho2, Ho1, app_assoc|done].
Qed.
Lemma writes_if (z : bool) m b : (z = true → b = []) → writes m b → writes (if z then mret true else m) b.
Proof. intros Hz Hm. destruct z; [rewrite Hz by done; apply writes_true|done]. Qed.
Lemma writes_needed {A} (o : option A) a k b : o = Some a → writes (k a) b → writes (needed o ≫= k) b.
Proof. intros -> Hk d Hd. destruct (Hk d Hd) as (d' & H & ?). exists d'. split; [|done]. unfold needed. by rewrite (M_bind_run0 _ _ _ a d). Qed.

Lemma count_rrs_spec l n : (n + length l ≤ 255)%nat → count_rrs l n = (n + length l)%nat.
Proof.
  revert n. induction l as [|b l IH]; intros n Hn; cbn [count_rrs length] in *; [lia|].
  destruct (Nat.ltb_spec n 255); [rewrite IH by lia; lia|lia].
Qed.
Lemma write_records_writes l : Forall (λ b, zlen b < 2 ^ 16) l → writes (write_records l (length l)) (concat (map ser_record l)).
Proof.
  induction 1 as [|b l Hb _ IH]; [apply writes_true|]. cbn [length write_records map concat]. cbv zeta.
  pose proof (zlen_nonneg b). unfold u16. rewrite Z.mod_small by lia. unfold ser_record. rewrite <-app_assoc.
  apply writes_then; [apply writes_fwrite|]. apply writes_then; [|done].
  apply writes_if; [|rewrite ztake_all by done; apply writes_fwrite].
  intros Hz. apply Z.eqb_eq in Hz. by apply length_zero_iff_nil; unfold zlen in Hz; lia.
Qed.
Lemma write_rrset_writes type s : storable_set s → 0 ≤ type < 2 ^ 8 → writes (write_rrset type s) (ser_set type s).
Proof.
  intros [Hf Ht Hs Hn Hd Hl] Htp. unfold write_rrset, ser_set, fset_of. rewrite count_rrs_spec by lia. cbn [Nat.add].
  unfold u8. rewrite Z.mod_small by lia. apply writes_then; [apply writes_fwrite|by apply write_records_writes].
Qed.

(** The types of the iteration lists are cached types, in ascending order. *)
Lemma iterlists : Forall (λ type, ∃ i, cached type i) rrcachiterlist ∧ Forall (λ type, ∃ i, cached type i ∧ i < NRRMU) rrmuiterlist ∧
  Sorted Z.lt rrcachiterlist ∧ Sorted Z.lt rrmuiterlist.
Proof.
  split_and!.
  - unfold cached. repeat (apply list.Forall_cons; split; [eexists; split; [split; [|]; by vm_compute|split; [by vm_compute|by split; vm_compute]]|]).
    by apply list.Forall_nil.
  - unfold cached. repeat (apply list.Forall_cons; split; [eexists; split; [split; [split; by vm_compute|split; [by vm_compute|by split; vm_compute]]|by vm_compute]|]).
    by apply list.Forall_nil.
  - repeat constructor.
  - repeat constructor.
Qed.
Lemma types_cached c : cent_tag c → negative c = false →
  RRITERLIST c = Some (types_of c) ∧ Forall (λ type, ∃ i, cached type i) (types_of c) ∧ Sorted Z.lt (types_of c) ∧
  omap place (types_of c) ≡ₚ map Z.of_nat (seq 0 (Z.to_nat (num_slots c))).
Proof.
  intros Ht Hn. pose proof iterlists as (Hc & Hm & Hsc & Hsm). pose proof rr_tables as (_ & _ & _ & _ & Hpc & Hpm).
  unfold types_of, RRITERLIST, rr_of, num_slots, all_slots. unfold cent_tag in Ht. rewrite Hn.
  destruct (u c) as [l t s|mu [ext|]]; cbn [mbind option_bind snd default from_option id]; [congruence| |].
  - destruct Ht as (_ & Hmu & Hext). rewrite zlen_app, Hmu, Hext. split; [done|]. split; [done|]. by split.
  - destruct Ht as (_ & Hmu & _). rewrite app_nil_r, Hmu. split; [done|]. split; [|split; [done|by rewrite Hpm]].
    eapply list.Forall_impl; [exact Hm|]. intros type (i & ? & _). by exists i.
Qed.
Lemma getrrset_eff_spec c type i : cent_tag c → negative c = false → cached type i → getrrset_eff c type = Some (slot c i).
Proof.
  intros Ht Hn (_ & Hp & Hi). unfold getrrset_eff. unfold place in Hp. rewrite Hp. cbn [mbind option_bind].
  unfold rr_of, slot, all_slots. unfold cent_tag in Ht. destruct (u c) as [l t s|mu ext] eqn:Hu; [congruence|]. cbn [fst snd].
  destruct Ht as (_ & Hmu & Hext). destruct (Z.ltb_spec i NRRMU).
  - apply lookup_mu; [done|lia].
  - replace (i - NRRMU <? NRREXT) with true by (unfold NRRTOT, NRREXT, NRRMU in *; lia). destruct ext as [ext|].
    + apply lookup_ext; [done|done|lia].
    + cbn. rewrite app_nil_r, lookup_ge_None_2; [done|]. unfold zlen in Hmu. unfold NRRMU in *. lia.
Qed.
Lemma set_at_slot c type i : cached type i → set_at c type = disk_set (slot c i).
Proof. intros (_ & Hp & Hi). unfold set_at. rewrite Hp. by replace (i <? NRRTOT) with true by lia. Qed.
Lemma write_sets_writes l c :
  cent_tag c → negative c = false → storable c → Forall (λ type, ∃ i, cached type i) l → writes (write_sets l c) (ser_sets l c).
Proof.
  intros Ht Hn Hst. induction 1 as [|type l (i & Hi) _ IH]; [apply writes_true|]. cbn [write_sets].
  unfold ser_sets. cbn [map concat]. fold (ser_sets l c). eapply writes_needed; [by apply getrrset_eff_spec|].
  rewrite (set_at_slot c type i Hi). pose proof (sc_sets c Hst i) as Hsl. unfold disk_set in *.
  destruct (slot c i) as [s|]; cbn [kept_set] in *; [|done]. destruct (has (flags s) CF_LOCAL); cbn [negb] in *; [done|].
  destruct Hi as (Htp & _ & Hi). destruct (Hsl s ltac:(lia) eq_refl) as [Hss _].
  apply writes_then; [|done]. apply write_rrset_writes; [done|]. unfold T_MIN, T_NUM in *. lia.
Qed.

(** The counts of the sets. *)
Lemma count_sets_spec n c i num kept :
  cent_tag c → negative c = false → 0 ≤ i → i + Z.of_nat n = num_slots c → 0 ≤ kept → kept + Z.of_nat n < 256 →
  count_sets n c i num kept =
    Some (num + zsum slot_num (drop (Z.to_nat i) (all_slots c)), kept + Z.of_nat (length (omap disk_set (drop (Z.to_nat i) (all_slots c))))).
Proof.
  intros Ht Hn. revert i num kept. induction n as [|n IH]; intros i num kept Hi Hin Hk Hb; cbn [count_sets].
  - rewrite drop_ge by (unfold num_slots, zlen in Hin; lia). unfold zsum. cbn. do 2 f_equal; lia.
  - rewrite (index_slot c i Ht) by lia. cbn [mbind option_bind].
    rewrite (drop_S _ _ _ (all_slots_lookup c i ltac:(lia))), zsum_cons. cbn [omap list_omap].
    replace (S (Z.to_nat i)) with (Z.to_nat (i + 1)) by lia.
    assert (Hu : u8 (kept + 1) = kept + 1) by (unfold u8; apply Z.mod_small; lia). rewrite Hu.
    destruct (slot c i) as [s|] eqn:Hs; cbn [slot_num not_null Z.b2z disk_set].
    + unfold disk_set at 1. destruct (kept_set (Some s)); rewrite IH by lia; cbn [length]; do 2 f_equal; lia.
    + rewrite IH by lia. cbn. do 2 f_equal; lia.
Qed.
Lemma omap_slots (f : option rr_set_t → option rr_set_t) (l : slots) :
  f None = None →
  omap f l = omap (λ i, f (mjoin (l !! Z.to_nat i))) (map Z.of_nat (seq 0 (length l))).
Proof.
  intros H0. induction l as [|v l IH]; [done|]. cbn [length seq map omap list_omap]. change (Z.to_nat (Z.of_nat 0)) with 0%nat. cbn [lookup list_lookup mjoin option_join].
  assert (Hr : omap f l = omap (λ i, f (mjoin ((v :: l) !! Z.to_nat i))) (map Z.of_nat (seq 1 (length l)))).
  { rewrite IH, <-seq_shift, map_map. clear. induction (seq 0 (length l)) as [|k ks IH]; [done|]. cbn [map omap list_omap].
    rewrite IH. by rewrite !Nat2Z.id. }
  rewrite Hr. by destruct v; cbn [mjoin option_join].
Qed.
Lemma num_kept_slots c : cent_tag c → negative c = false → num_kept (types_of c) c = length (omap disk_set (all_slots c)).
Proof.
  intros Ht Hn. destruct (types_cached c Ht Hn) as (_ & Hty & _ & Hp). unfold num_kept.
  assert (He : omap (set_at c) (types_of c) = omap (λ i, disk_set (slot c i)) (omap place (types_of c))).
  { clear Hp. induction Hty as [|type l (i & Hi) _ IH]; [done|]. cbn [omap list_omap]. rewrite (set_at_slot c type i Hi), IH.
    destruct Hi as (_ & -> & _). done. }
  rewrite He, (omap_slots disk_set) by done. unfold num_slots, zlen in Hp. rewrite Nat2Z.id in Hp. by rewrite Hp.
Qed.
Lemma any_kept_spec n c i :
  cent_tag c → negative c = false → 0 ≤ i → i + Z.of_nat n = num_slots c →
  any_kept n c i = Some (existsb kept_set (drop (Z.to_nat i) (all_slots c))).
Proof.
  intros Ht Hn. revert i. induction n as [|n IH]; intros i Hi Hin; cbn [any_kept].
  - by rewrite drop_ge by (unfold num_slots, zlen in Hin; lia).
  - rewrite (index_slot c i Ht) by lia. cbn [mbind option_bind]. rewrite (drop_S _ _ _ (all_slots_lookup c i ltac:(lia))). cbn [existsb].
    destruct (kept_set (slot c i)); [done|]. rewrite IH by lia. by replace (S (Z.to_nat i)) with (Z.to_nat (i + 1)) by lia.
Qed.
Lemma written_spec c :
  cent_tag c → to_write c = Some (written c) ∧
  written c = if negative c then negb (has (c_flags c) DF_LOCAL) else existsb kept_set (all_slots c).
Proof.
  intros Ht. unfold written, to_write. destruct (negative c) eqn:Hn; [done|]. rewrite (RRARR_LEN_slots c Ht). cbn [mbind option_bind].
  rewrite any_kept_spec; [done|done|done|lia|]. unfold num_slots, zlen. lia.
Qed.

Lemma writes_get (k : disk → W bool) b : (∀ d, writes (k d) b) → writes (get ≫= k) b.
Proof. intros H d Hd. destruct (H d d Hd) as (d' & Hk & ?). exists d'. split; [|done]. by rewrite (M_bind_run0 get k d d d). Qed.
Lemma writes_skip (m : W unit) k b : m = mret tt → writes k b → writes (m;; k) b.
Proof. intros -> H d Hd. destruct (H d Hd) as (d' & Hk & ?). exists d'. split; [|done]. by rewrite (M_bind_run0 (mret tt) _ d tt d). Qed.
Lemma view_neg_of c : cent_tag c →
  negative c = true ∧ types_of c = [] ∧ all_slots c = [] ∧ (∃ l n, neg_of c = Some (l, n.1, n.2) ∧ view_neg c = Some n) ∨
  negative c = false ∧ view_neg c = None.
Proof.
  unfold cent_tag, view_neg, types_of, RRITERLIST, all_slots, neg_of. intros Ht. destruct (u c) as [l t s|mu ext].
  - left. rewrite Ht. split; [done|]. split; [done|]. split; [done|]. by exists l, (t, s).
  - right. by destruct Ht.
Qed.
Lemma header_range c nm :
  cent_tag c → storable c → wf_name nm → qname c = rhn nm →
  0 ≤ qlen (header_of c) < 2 ^ 8 ∧ 0 ≤ f_num_rrs (header_of c) < 2 ^ 8.
Proof.
  intros Ht Hst Hnm Hq. unfold header_of. cbn [qlen f_num_rrs]. rewrite Hq. destruct Hnm as [_ Hnm]. pose proof (zlen_rhn_pos nm).
  unfold DNSNAMEBUFSIZE in Hnm. split; [lia|]. destruct (view_neg_of c Ht) as [(_ & -> & _)|[Hn _]]; [cbn; lia|].
  rewrite num_kept_slots by done. pose proof (num_slots_le c Ht) as Hle. unfold num_slots, zlen, NRRTOT in Hle. split; [lia|].
  assert (length (omap disk_set (all_slots c)) ≤ length (all_slots c))%nat; [|lia].
  clear. induction (all_slots c) as [|v l IH]; [done|]. cbn [omap list_omap length]. destruct (disk_set v); cbn [length]; lia.
Qed.
Lemma write_entry_writes c nm :
  cent_ok c → storable c → wf_name nm → qname c = rhn nm → writes (write_entry c) (ser_entry c).
Proof.
  intros Hok Hst Hnm Hq. pose proof (ok_tag _ Hok) as Ht. destruct (header_range c nm Ht Hst Hnm Hq) as [Hql Hnk].
  unfold write_entry. pose proof (rhnlen_spec nm [] (proj1 Hnm)) as Hlen. rewrite app_nil_r, <-Hq in Hlen.
  eapply writes_needed; [exact Hlen|]. cbv zeta. unfold header_of in Hql. cbn [qlen] in Hql. unfold u8 at 1 2 3. rewrite Z.mod_small by lia.
  eapply writes_needed; [by apply RRARR_LEN_slots|].
  assert (Hcs : count_sets (Z.to_nat (num_slots c)) c 0 0 0 = Some (num_rrs c, Z.of_nat (num_kept (types_of c) c))).
  { rewrite (ok_num _ Hok). destruct (view_neg_of c Ht) as [(Hn & Hty & Hsl & _)|[Hn _]].
    - unfold num_slots. by rewrite Hsl, Hty.
    - rewrite count_sets_spec, num_kept_slots; [done|done|done|done|done|lia| |lia|].
      + unfold num_slots, zlen. lia.
      + pose proof (num_slots_le c Ht). unfold NRRTOT in *. lia. }
  eapply writes_needed; [exact Hcs|]. cbn [fst snd]. apply writes_get. intros d. apply writes_skip; [by rewrite Z.eqb_refl|].
  unfold ser_entry. apply writes_then; [apply writes_fwrite|]. apply writes_then; [|apply writes_then].
  - destruct (view_neg_of c Ht) as [(Hn & _ & _ & l & n & Hu & Hv)|[Hn Hv]]; rewrite Hn, Hv.
    + eapply writes_needed; [exact Hu|]. destruct n as [t s]. apply writes_fwrite.
    + apply writes_true.
  - apply writes_if; [|apply writes_fwrite]. intros Hz. apply Z.eqb_eq in Hz. by rewrite Hz, ztake_0.
  - destruct (view_neg_of c Ht) as [(Hn & Hty & _)|[Hn _]].
    + assert (Hit : RRITERLIST c = Some []) by (unfold RRITERLIST; by rewrite Hn). eapply writes_needed; [exact Hit|]. rewrite Hty. apply writes_true.
    + destruct (types_cached c Ht Hn) as (Hit & Hty & _). eapply writes_needed; [exact Hit|]. by apply write_sets_writes.
Qed.

(** The entries of a cache that can be written. *)
Definition writable (c : dns_cent_t) : Prop := cent_ok c ∧ storable c ∧ is_name (qname c).
Lemma write_entries_writes l :
  Forall writable l → writes (write_entries l) (concat (map ser_entry (filter (λ c, written c = true) l))).
Proof.
  induction 1 as [|c l (Hok & Hst & nm & Hnm & Hq) _ IH]; [apply writes_true|]. cbn [write_entries].
  destruct (written_spec c (ok_tag _ Hok)) as [Hw _]. eapply writes_needed; [exact Hw|]. destruct (written c) eqn:Hwc.
  - rewrite list.filter_cons, decide_True by (by rewrite Hwc). cbn [map concat]. apply writes_then; [by eapply write_entry_writes|done].
  - rewrite list.filter_cons, decide_False by (by rewrite Hwc). done.
Qed.
Lemma count_entries_spec l n :
  Forall writable l → 0 ≤ n → n + Z.of_nat (length l) < 2 ^ 64 →
  count_entries l n = Some (n + Z.of_nat (length (filter (λ c, written c = true) l))).
Proof.
  intros Hl. revert n. induction Hl as [|c l (Hok & _) _ IH]; intros n Hn Hb; cbn [count_entries length] in *; [cbn; f_equal; lia|].
  destruct (written_spec c (ok_tag _ Hok)) as [-> _]. cbn [mbind option_bind]. destruct (written c) eqn:Hwc.
  - rewrite list.filter_cons, decide_True by (by rewrite Hwc). unfold u64. rewrite Z.mod_small by lia. rewrite IH by lia. cbn [length]. f_equal. lia.
  - rewrite list.filter_cons, decide_False by (by rewrite Hwc). apply IH; lia.
Qed.
Lemma write_file_writes l : Forall writable l → Z.of_nat (length l) < 2 ^ 64 → writes (write_file l) (ser_file l).
Proof.
  intros Hl Hlen. unfold write_file, ser_file. apply writes_then; [apply writes_fwrite|].
  eapply writes_needed; [apply count_entries_spec; [done|lia|lia]|]. rewrite Z.add_0_l.
  apply writes_then; [apply writes_fwrite|by apply write_entries_writes].
Qed.

(** ** Reading what was written *)

(** The flags and the arrays of an entry that is not negative stay as they are. *)
Definition same_meta (c c' : dns_cent_t) : Prop := c_flags c' = c_flags c ∧ num_slots c' = num_slots c.
Lemma set_slot_meta c i v c' : set_slot c i v = Some c' → same_meta c c'.
Proof.
  unfold set_slot, rr_of, same_meta, num_slots, all_slots. destruct (u c) as [|mu ext] eqn:Hu; [done|]. cbn [mbind option_bind].
  destruct (i <? NRRMU).
  - destruct (_ <? _)%nat; [|done]. intros [= <-]. cbn [c_flags u with_u]. rewrite !zlen_app. unfold zlen. by rewrite length_insert.
  - destruct ext as [ext|]; [|done]. cbn [mbind option_bind]. destruct (_ <? _)%nat; [|done]. intros [= <-].
    cbn [c_flags u with_u default from_option id]. rewrite !zlen_app. unfold zlen. by rewrite length_insert.
Qed.
Lemma the_inv {A} (o : option A) m a m' es : the o m = Some (a, m', es) → o = Some a.
Proof. destruct o; [|done]. unfold the. intros H. run_inv. congruence. Qed.
Lemma need_slot_meta c i m ok c1 m' es :
  need_slot c i m = Some ((ok, c1), m', es) → c_flags c1 = c_flags c ∧ (i < NRRMU → num_slots c1 = num_slots c).
Proof.
  unfold need_slot. intros ([mu ext] & m1 & e1 & e2 & Hr & H & _)%M_bind_Some. apply the_inv in Hr.
  destruct (Z.ltb_spec i NRRMU); [injection H as <- <- <- <-; done|]. apply M_bind_Some in H as ([] & m2 & e3 & e4 & _ & H & _).
  destruct ext; [injection H as <- <- <- <-; done|]. apply M_bind_Some in H as ([p|] & m3 & e5 & e6 & _ & H & _);
    injection H as <- <- <- <-; split; done || lia.
Qed.
Lemma add_set_meta c i t s f m x m' es :
  negative c = false → add_cent_rrset_by_index c i t s f m = Some (x, m', es) →
  c_flags x.2 = c_flags c ∧ (i < NRRMU → num_slots x.2 = num_slots c).
Proof.
  intros Hn. unfold add_cent_rrset_by_index.
  assert (Hp : positive c m = Some (c, m, [])) by (unfold positive; by rewrite Hn). rewrite (M_bind_run0 _ _ _ _ _ Hp).
  intros ([ok c1] & m1 & e1 & e2 & Hs%need_slot_meta & H & _)%M_bind_Some. destruct ok; [|by injection H as <- _ _].
  apply M_bind_Some in H as ([p|] & m2 & e3 & e4 & _ & H & _).
  all: apply M_bind_Some in H as (c2 & m3 & e5 & e6 & [Hf Hns]%the_inv%set_slot_meta & H & _); injection H as <- _ _;
    cbn [snd]; destruct Hs as [Hf1 Hns1]; split; [by rewrite <-Hf1, <-Hf|intros Hi; rewrite <-(Hns1 Hi), <-Hns; done].
Qed.
Lemma link_rr_meta c i data rtail m x m' es : link_rr c i data rtail m = Some (x, m', es) → same_meta c x.2.
Proof.
  unfold link_rr. intros (v & m1 & e1 & e2 & _ & H & _)%M_bind_Some. apply M_bind_Some in H as (s & m2 & e3 & e4 & _ & H & _).
  destruct rtail as [k|]; [apply M_bind_Some in H as ([] & m4 & e7 & e8 & _ & H & _)|].
  all: apply M_bind_Some in H as (c2 & m3 & e5 & e6 & Hm%the_inv%set_slot_meta & H & _); by injection H as <- _ _.
Qed.
Lemma add_rr_int_meta c i t s f data rtail old m x m' es :
  cent_tag c → 0 ≤ i < NRRTOT → slot c i = Some old → add_cent_rr_int c i t s f data rtail m = Some (x, m', es) → same_meta c x.2.
Proof.
  intros Ht Hi Hs. unfold add_cent_rr_int. intros ([b|] & m1 & e1 & e2 & _ & H & _)%M_bind_Some; [|by injection H as <- _ _].
  apply M_bind_Some in H as ([ok c1] & m2 & e3 & e4 & Hc & H & _). assert (c1 = c) as ->.
  { destruct rtail; [by injection Hc|]. apply M_bind_Some in Hc as (v & m3 & e5 & e6 & Hv%the_inv & Hc & _).
    rewrite (testext_slot c i Ht Hi), Hs in Hv. injection Hv as <-. by injection Hc. }
  destruct ok; [|by injection H as <- _ _].
  apply M_bind_Some in H as ([k c2] & m4 & e7 & e8 & Hm%link_rr_meta & H & _). by injection H as <- _ _.
Qed.
Lemma add_rr_meta c type t s f data i old m x m' es :
  cent_tag c → cached type i → slot c i = Some old → add_cent_rr c type t s f data m = Some (x, m', es) → same_meta c x.2.
Proof.
  intros Ht (Htp & Hp & Hi) Hs. unfold add_cent_rr. destruct (_ && _); [intros H; by injection H as <- _ _|].
  intros ([] & m1 & e1 & e2 & _ & H & _)%M_bind_Some. apply M_bind_Some in H as (k & m2 & e3 & e4 & Hk%the_inv & H & _).
  unfold place in Hp. rewrite Hp in Hk. injection Hk as <-. apply M_bind_Some in H as ([] & m3 & e5 & e6 & _ & H & _).
  apply M_bind_Some in H as (v & m4 & e7 & e8 & Hv%the_inv & H & _). rewrite (testext_slot c i Ht Hi), Hs in Hv. injection Hv as <-.
  apply M_bind_Some in H as (c1 & m5 & e9 & e10 & Hc1 & H & _).
  assert (Hm : same_meta c c1 ∧ cent_tag c1 ∧ ∃ old', slot c1 i = Some old').
  { destruct (t <? ttl old); [|injection Hc1 as <- _ _; split; [done|]; split; [done|by exists old]]. apply the_inv in Hc1.
    pose proof (slot_lt c i old Hs ltac:(lia)) as Hlt.
    destruct (set_slot_ok c i (Some (with_ttl old t)) Ht Hlt) as (c1' & H1 & Ha & Ht1 & _). rewrite Hc1 in H1. injection H1 as <-.
    split; [by eapply set_slot_meta|]. split; [done|]. eexists. rewrite (slot_insert c c1 i _ i Ha Hlt) by lia. by rewrite Z.eqb_refl. }
  destruct Hm as ([Hf Hns] & Ht1 & old' & Hs1). case_bool_decide; [injection H as <- _ _; done|].
  apply M_bind_Some in H as (y & m6 & e11 & e12 & Hy & H & _). injection H as <- _ _.
  destruct (add_rr_int_meta _ _ _ _ _ _ _ _ _ _ _ _ Ht1 Hi Hs1 Hy) as [Hf' Hns']. cbn [snd]. split; congruence.
Qed.
Lemma quietly_also {A} (x : Mem A) m (P : A → Prop) (Q : A → memory → Prop) :
  quietly x m Q → (∀ a m', x m = Some (a, m', []) → P a) → quietly x m (λ a m', P a ∧ Q a m').
Proof. intros (a & m' & Hx & Hd & HQ) HP. exists a, m'. split; [done|]. split; [done|]. split; [by eapply HP|done]. Qed.

Lemma view_with_rrs v old l : view v = view (Some old) → ∃ old', v = Some old' ∧ ttl old' = ttl old ∧ rrs old' = rrs old ∧
  view (Some (with_rrs old' l)) = view (Some (with_rrs old l)).
Proof. destruct v as [s|]; [|done]. cbn. intros [= Ht Hs Hf Hr]. exists s. split; [done|]. split; [done|]. split; [done|]. congruence. Qed.
(** The records of a set. *)
Lemma read_records_exact l m c sh i old sz f L :
  detached c → dll (rl m) L → mem_ok m → cached (tp sh) i → has (c_flags c) DF_LOCAL = false →
  slot c i = Some old → ttl old = fs_ttl sh → NoDup (rrs old ++ l) → Forall (λ b, zlen b < 2 ^ 16) l →
  quietly (read_records (length l) c sh (mkReader (concat (map ser_record l) ++ f) sz)) m (λ x _,
    detached x.1 ∧ same_cent c x.1 ∧ same_meta c x.1 ∧ (∀ j, 0 ≤ j → j ≠ i → slot x.1 j = slot c j) ∧
    view (slot x.1 i) = view (Some (with_rrs old (rrs old ++ l))) ∧ ∃ sz', x.2 = inr (mkReader f sz')).
Proof.
  intros Hc HL Hm Hi Hloc Hold Htt Hnd Hl. revert m c old sz Hc HL Hm Hloc Hold Htt Hnd.
  induction Hl as [|b l Hb _ IH]; intros m c old sz Hc HL Hm Hloc Hold Htt Hnd.
  { apply quietly_ret. split; [done|]. split; [done|]. split; [done|]. split; [done|]. cbn [fst snd]. rewrite Hold, app_nil_r. split; [by destruct old|by eexists]. }
  cbn [length read_records map concat rest]. pose proof (zlen_nonneg b) as Hb0. unfold ser_record at 1. rewrite <-!app_assoc.
  rewrite fread_app by (by rewrite zlen_le_bytes).
  assert (Hrd : field 0 2 (le_bytes 2 (zlen b)) = zlen b) by (change (le_val (le_bytes 2 (zlen b)) = zlen b); apply le_val_fits; cbn; lia).
  rewrite Hrd. q_bind. apply grow_spec. cbn [dtsz]. intros sz' m1 Hrl1 Hok1 Hd1. specialize (Hok1 Hm). destruct sz' as [sz'|]; [|done].
  assert (Hdata : (if zlen b =? 0 then Some ([], b ++ concat (map ser_record l) ++ f) else fread (zlen b) (b ++ concat (map ser_record l) ++ f)) =
    Some (b, concat (map ser_record l) ++ f)).
  { destruct (Z.eqb_spec (zlen b) 0) as [Hz|]; [|by apply fread_app]. destruct b; [done|]. rewrite zlen_cons in Hz. pose proof (zlen_nonneg b). lia. }
  rewrite Hdata. assert (Hm1 : mem_ok m1) by (by apply (drop_ok _ _ _ Hd1)). assert (HL1 : dll (rl m1) L) by (by rewrite Hrl1).
  q_bind. eapply quietly_mono; [apply quietly_also; [by eapply add_rr_detached|intros a m' Ha; exact (add_rr_meta _ _ _ _ _ _ _ _ _ _ _ _ (ok_tag _ (det_ok _ Hc)) Hi Hold Ha)]|].
  cbn beta. intros [ok c1] m2 Hd2 ([Hfl Hns] & Hc1 & Hsm & Hok & Hsl & Hset) _. cbn [fst snd] in *. specialize (Hok Hm1). subst ok.
  assert (Hin : b ∉ rrs old). { intros Hin. apply list.NoDup_app in Hnd as (_ & Hdis & _). apply (Hdis b Hin). by left. }
  assert (Hv : view (slot c1 i) = view (Some (with_rrs old (rrs old ++ [b])))).
  { apply Hset; [done| |done|done|done]. by rewrite Hloc. }
  apply (view_with_rrs _ _ (rrs old ++ b :: l)) in Hv as (old' & Hold' & Htt' & Hrr' & Hv). cbn [ttl rrs with_rrs] in *.
  eapply quietly_mono; [apply (IH m2 c1 old' sz'); [done| |by apply (drop_ok _ _ _ Hd2)| |done|congruence|rewrite Hrr', <-app_assoc; done]|].
  { apply (dropped_list m1 m2); [done|done]. } { by rewrite Hfl. }
  cbn beta. intros [c2 x] m3 _ (Hc2 & Hsm2 & [Hfl2 Hns2] & Hsl2 & Hv2 & Hx). cbn [fst snd] in *. split; [done|]. split; [by etrans|].
  split; [split; congruence|]. split; [intros j Hj Hne; by rewrite Hsl2, Hsl|]. split; [|done].
  rewrite Hv2, Hrr', <-app_assoc. cbn [app]. exact Hv.
Qed.
Lemma cached_spec type i : cached type i → PDNSD_NOT_CACHED_TYPE type = Some false.
Proof.
  intros (Ht & Hp & Hi). unfold PDNSD_NOT_CACHED_TYPE. unfold place in Hp. rewrite Hp. unfold T_MIN, T_MAX, T_NUM in *.
  replace ((type <? 1) || (type >? 51)) with false by lia. cbn [mbind option_bind]. f_equal. lia.
Qed.
Lemma disk_set_kept v s : disk_set v = Some s → v = Some s ∧ has (flags s) CF_LOCAL = false.
Proof. unfold disk_set. destruct v as [s'|]; cbn [kept_set]; [|done]. destruct (has (flags s') CF_LOCAL) eqn:E; cbn; [done|]. by intros [= <-]. Qed.
Lemma fset_unpack type i s :
  cached type i → storable_set s → unpack_fset (pack_fset (fset_of type s)) = fset_of type s.
Proof.
  intros (Ht & _) [Hf Htt Hts Hn _ _]. unfold T_MIN, T_NUM in *. apply unpack_pack_fset; unfold fset_of, zlen; cbn [tp num_rr fs_flags fs_ttl fs_ts]; done || lia.
Qed.
(** The sets of the entry [c0], for the types [types]. *)
Lemma read_sets_exact types c0 c prev sz m f L :
  storable c0 → Forall (λ type, ∃ i, cached type i) types → Sorted Z.lt types → HdRel Z.lt prev types →
  detached c → dll (rl m) L → mem_ok m → negative c = false → c_flags c = c_flags c0 →
  (∀ type i, cached type i → prev < type → slot c i = None) →
  quietly (read_sets (num_kept types c0) c prev (mkReader (ser_sets types c0 ++ f) sz)) m (λ x _,
    detached x.1 ∧ same_cent c x.1 ∧ c_flags x.1 = c_flags c0 ∧
    ((∀ i, NRRMU ≤ i → disk_set (slot c0 i) = None) → num_slots x.1 = num_slots c) ∧
    (∀ type i, type ∈ types → cached type i → view (slot x.1 i) = view (disk_set (slot c0 i))) ∧
    (∀ i, 0 ≤ i → (∀ type, type ∈ types → ¬ cached type i) → slot x.1 i = slot c i) ∧ ∃ sz', x.2 = inr (mkReader f sz')).
Proof.
  intros Hst Hty Hsort. revert c prev sz m. induction Hty as [|type types (i & Hi) Hty IH]; intros c prev sz m Hhd Hc HL Hm Hneg Hfl Hnone.
  { apply quietly_ret. do 4 (split; [done|]). split; [intros ? ? Hin; by apply not_elem_of_nil in Hin|]. split; [done|]. by eexists. }
  assert (Hall : Forall (Z.lt type) types).
  { assert (Hss : StronglySorted Z.lt (type :: types)) by (apply Sorted_StronglySorted; [intros ???; lia|done]).
    by apply StronglySorted_inv in Hss as [_ ?]. }
  apply Sorted_inv in Hsort as [Hsort Hhd2]. specialize (IH Hsort). apply HdRel_inv in Hhd.
  assert (Hother : ∀ type', type' ∈ types → ¬ cached type' i).
  { intros type' Hin Hci. pose proof (cached_inj _ _ _ Hi Hci) as <-. rewrite list.Forall_forall in Hall. specialize (Hall _ Hin). lia. }
  assert (Hsame : ∀ j, cached type j → j = i) by (intros j (_ & Hj & _); destruct Hi as (_ & Hi & _); congruence).
  assert (Hi0 : 0 ≤ i) by apply Hi. assert (Hsi : slot c i = None) by (by apply (Hnone type)).
  pose proof (set_at_slot c0 type i Hi) as Hat. unfold num_kept, ser_sets. cbn [omap list_omap map concat].
  fold (ser_sets types c0). destruct (set_at c0 type) as [s|] eqn:Hs.
  2: { fold (num_kept types c0). cbn [app].
       eapply quietly_mono; [apply (IH c prev sz m)|]; try done.
       { destruct Hhd2; constructor; lia. }
       cbn beta. intros [c2 x] m2 _ (H1 & H2 & H3 & Hns & H4 & H5 & H6). cbn [fst snd] in *. do 4 (split; [done|]). split; [|split; [|done]].
       - intros type' j [->|Hin]%elem_of_cons Hj; [|by apply (H4 type')]. rewrite (Hsame j Hj), <-Hat, H5, Hsi; done.
       - intros j Hj Hno. apply H5; [done|]. intros type' Hin. apply Hno. by right. }
  symmetry in Hat. destruct (disk_set_kept _ _ Hat) as [Hsl0 Hnl]. destruct (sc_sets c0 Hst i s Hi0 Hat) as [Hss Hloc].
  cbn [length read_sets rest]. unfold ser_set. rewrite <-!app_assoc. rewrite fread_app by done. rewrite (fset_unpack type i s Hi Hss). cbv zeta.
  q_bind. apply (quietly_the _ false); [by eapply cached_spec|]. intros _. replace (tp (fset_of type s) <=? prev) with false by (cbn; lia).
  q_bind. eapply quietly_mono; [apply quietly_also; [by eapply add_set_detached|]|].
  { unfold add_cent_rrset_by_type. intros a m' ([] & ? & ? & ? & _ & Ha & _)%M_bind_Some.
    apply M_bind_Some in Ha as (k & ? & ? & ? & Hk%the_inv & Ha & _). destruct Hi as (_ & Hp & _). unfold place in Hp.
    change (tp (fset_of type s)) with type in Hk. rewrite Hp in Hk. injection Hk as <-. by eapply add_set_meta. }
  cbn beta. intros [ok c1] m1 Hd1 ([Hf1 Hns1] & Hc1 & Hsm1 & Hok & Hsl1 & Hset) _. cbn [fst snd] in *. rewrite (Hok Hm).
  destruct (Hset (Hok Hm)) as (Hneg1 & a & Hset1). pose proof (dropped_list _ _ _ Hd1 HL) as HL1. pose proof (drop_ok _ _ _ Hd1 Hm) as Hm1.
  destruct Hss as [Hf Htt Hts Hn Hnd Hdata].
  q_bind. change (num_rr (fset_of type s)) with (zlen (rrs s)). unfold zlen. rewrite Nat2Z.id. cbn [dtsz].
  eapply quietly_mono; [eapply (read_records_exact (rrs s) m1 c1 _ i); [done|done|done|done|congruence|exact Hset1|done|done|done]|].
  cbn beta. intros [c2 x] m2 Hd2 (Hc2 & Hsm2 & [Hf2 Hns2] & Hsl2 & Hv2 & sz' & Hx) _. cbn [fst snd] in *. subst x.
  eapply quietly_mono; [apply (IH c2 (tp (fset_of type s)) sz' m2)|].
  - done.
  - done.
  - by apply (dropped_list m1 m2).
  - by apply (drop_ok _ _ _ Hd2).
  - unfold negative in *. congruence.
  - congruence.
  - intros type' j Hj Hlt. cbn [tp fset_of] in Hlt. assert (j ≠ i) as Hne by (intros ->; pose proof (cached_inj _ _ _ Hj Hi); lia).
    assert (0 ≤ j) by apply Hj. rewrite Hsl2, Hsl1 by done. apply (Hnone type'); [done|lia].
  - cbn beta. intros [c3 y] m3 _ (H1 & H2 & H3 & Hns & H4 & H5 & H6). cbn [fst snd] in *. split; [done|]. split; [etrans; [|exact H2]; by etrans|].
    split; [done|]. split; [|split; [|split; [|done]]].
    + intros Hno. rewrite Hns by done. rewrite Hns2. apply Hns1. destruct (Z.lt_ge_cases i NRRMU) as [|Hge]; [done|]. rewrite (Hno i Hge) in Hat. done.
    + intros type' j [->|Hin]%elem_of_cons Hj; [|by apply (H4 type')]. rewrite (Hsame j Hj), H5, Hat, Hv2; [|done|done]. by destruct s.
    + intros j Hj Hno. assert (j ≠ i) as Hne by (intros ->; by apply (Hno type); [left|]).
      rewrite H5, Hsl2, Hsl1; [done|done|done|done|done|done|]. intros type' Hin. apply Hno. by right.
Qed.

(** What is left of an entry after a reload. *)
Record reloaded (c c' : dns_cent_t) : Prop := {
  rel_qname : qname c' = qname c;
  rel_flags : c_flags c' = c_flags c;
  rel_ns : c_ns c' = c_ns c;
  rel_soa : c_soa c' = c_soa c;
  rel_neg : view_neg c' = view_neg c;
  rel_slot i : 0 ≤ i → view (slot c' i) = view (disk_set (slot c i));
}.
Lemma slot_size_nonneg v : 0 ≤ slot_size v.
Proof.
  destruct v as [s|]; cbn; [|done]. unfold set_size, sizeof_rr_set_t. pose proof (zsum_nonneg (λ b, sizeof_rr_bucket_t + zlen b) (rrs s)) as H.
  specialize (H ltac:(intros b _; pose proof (zlen_nonneg b); unfold sizeof_rr_bucket_t; lia)). lia.
Qed.
Lemma slots_size_le (l l' : slots) :
  (∀ i, slot_size (mjoin (l !! i)) ≤ slot_size (mjoin (l' !! i))) → zsum slot_size l ≤ zsum slot_size l'.
Proof.
  pose proof slot_size_nonneg as Hpos.
  revert l'. induction l as [|v l IH]; intros l' H; [apply zsum_nonneg; auto|]. destruct l' as [|v' l'].
  - assert (zsum slot_size (v :: l) ≤ zsum slot_size []); [|done]. rewrite zsum_cons. pose proof (H 0%nat) as H0. cbn in H0.
    assert (zsum slot_size l ≤ zsum slot_size []); [|change (zsum slot_size []) with 0 in *; lia]. apply IH. intros i. specialize (H (S i)). cbn in H. by rewrite lookup_nil.
  - rewrite !zsum_cons. pose proof (H 0%nat) as H0. cbn in H0. specialize (IH l'). assert (zsum slot_size l ≤ zsum slot_size l'); [|lia].
    apply IH. intros i. apply (H (S i)).
Qed.
Lemma slot_size_view v v' : view v = view v' → slot_size v = slot_size v'.
Proof. destruct v, v'; try done. cbn. unfold set_size. by intros [= _ _ _ ->]. Qed.
Lemma disk_set_size v : slot_size (disk_set v) ≤ slot_size v.
Proof.
  unfold disk_set. destruct (kept_set v); [lia|apply slot_size_nonneg].
Qed.
Lemma ext_num c : cent_tag c → ext_size c = 0 ∨ NRRMU < num_slots c ∧ ext_size c = sizeof_ptr * NRREXT.
Proof.
  unfold cent_tag, ext_size, num_slots, all_slots. destruct (u c) as [|mu [ext|]]; [by left| |by left].
  intros (_ & Hm & He). right. cbn [default from_option id]. rewrite zlen_app, Hm, He. by split.
Qed.
Lemma reloaded_size c c' :
  cent_ok c → cent_ok c' → reloaded c c' →
  ((∀ i, NRRMU ≤ i → disk_set (slot c i) = None) → num_slots c' ≤ NRRMU) → cs c' ≤ cs c.
Proof.
  intros Hok Hok' [Hq _ _ _ _ Hs] Hns. rewrite (ok_cs _ Hok), (ok_cs _ Hok'). unfold cent_size. rewrite Hq.
  assert (zsum slot_size (all_slots c') ≤ zsum slot_size (all_slots c)).
  { apply slots_size_le. intros i. pose proof (Hs (Z.of_nat i) ltac:(lia)) as Hv. unfold slot in Hv. rewrite Nat2Z.id in Hv.
    rewrite (slot_size_view _ _ Hv). apply disk_set_size. }
  assert (ext_size c' ≤ ext_size c); [|lia].
  destruct (ext_num c' (ok_tag _ Hok')) as [->|[Hn' ->]]; [destruct (ext_num c (ok_tag _ Hok)) as [->|[_ ->]]; done|].
  destruct (ext_num c (ok_tag _ Hok)) as [He|[_ ->]]; [|done]. exfalso.
  assert (num_slots c' ≤ NRRMU); [|lia]. apply Hns. intros i Hi. unfold disk_set.
  destruct (slot c i) as [s|] eqn:E; [|done]. exfalso. assert (num_slots c ≤ NRRMU) as Hle.
  { unfold ext_size, num_slots, all_slots in *. pose proof (ok_tag _ Hok) as Ht. unfold cent_tag in Ht. destruct (u c) as [|mu [ext|]]; [done|done|].
    destruct Ht as (_ & Hm & _). cbn. rewrite app_nil_r, Hm. done. }
  rewrite slot_ge in E; [done|]. unfold num_slots in Hle. lia.
Qed.
Lemma init_cent_inv ls t s f m c m' es :
  init_cent (rhn ls) t s f m = Some (Some c, m', es) → u c = if has f DF_NEGATIVE then neg None t s else rr (NULLS NRRMU) None.
Proof.
  unfold init_cent. intros (n & ? & ? & ? & _ & H & _)%M_bind_Some. apply M_bind_Some in H as ([p|] & ? & ? & ? & _ & H & _); [|done].
  by injection H as <- _ _.
Qed.
Lemma name_ok_labels fuel b i ls :
  Forall label_ok ls → zdrop i b = rhn_labels ls → 0 ≤ i ≤ zlen b → zlen b - i < Z.of_nat fuel → name_ok fuel b i (zlen b) = Some true.
Proof.
  intros Hls. revert fuel i. induction Hls as [|l ls [Hl _] _ IH]; intros fuel i Hd Hi Hf.
  - assert (i = zlen b) as ->.
    { apply (f_equal zlen) in Hd. unfold zdrop, zlen in *. rewrite length_drop in Hd. cbn in Hd. lia. }
    destruct fuel; cbn [name_ok]; by rewrite Z.ltb_irrefl.
  - unfold rhn_labels in Hd. cbn [map concat] in Hd. fold (rhn_labels ls) in Hd.
    assert (Hlt : i < zlen b).
    { apply (f_equal zlen) in Hd. unfold zdrop, zlen in *. rewrite length_drop in Hd. cbn in Hd. lia. }
    destruct fuel as [|fuel]; [lia|]. cbn [name_ok]. replace (i <? zlen b) with true by lia. unfold rd. replace (0 <=? i) with true by lia.
    assert (Hlb : b !! Z.to_nat i = Some (zlen l)).
    { rewrite <-(Nat.add_0_r (Z.to_nat i)), <-lookup_drop. unfold zdrop in Hd. by rewrite Hd. }
    rewrite Hlb. cbn [mbind option_bind]. replace ((zlen l =? 0) || (zlen l >? 63)) with false by lia.
    assert (Hrest : zdrop (i + (zlen l + 1)) b = rhn_labels ls).
    { unfold zdrop in *. replace (Z.to_nat (i + (zlen l + 1))) with (Z.to_nat i + S (length l))%nat by (unfold zlen; lia).
      rewrite <-drop_drop, Hd. cbn [app drop]. by rewrite drop_app_length. }
    assert (Hle : i + (zlen l + 1) ≤ zlen b).
    { apply (f_equal zlen) in Hd. unfold zdrop in Hd. cbn [app] in Hd. rewrite zlen_cons, zlen_app in Hd. unfold zlen in *. rewrite length_drop in Hd. lia. }
    replace (i + (zlen l + 1) >? zlen b) with false by lia. apply IH; [done|lia|lia].
Qed.
Lemma read_name_exact nm f : wf_name nm → read_name (zlen (rhn nm) - 1) (ztake (zlen (rhn nm) - 1) (rhn nm) ++ f) = Some (inr (rhn nm, f)).
Proof.
  intros [Hl _]. rewrite zlen_rhn. replace (zlen (rhn_labels nm) + 1 - 1) with (zlen (rhn_labels nm)) by lia.
  unfold rhn at 1. rewrite ztake_app_length. unfold read_name. destruct (Z.eqb_spec (zlen (rhn_labels nm)) 0) as [Hz|].
  - destruct nm as [|l nm]; [done|]. exfalso. apply list.Forall_cons in Hl as [[? _] _]. unfold rhn_labels in Hz. cbn [map concat app] in Hz.
    rewrite zlen_cons, zlen_app in Hz. pose proof (zlen_nonneg (concat (map (λ l, zlen l :: l) nm))). lia.
  - rewrite fread_app by done. rewrite (name_ok_labels _ _ 0 nm); [done|done|by unfold zdrop|pose proof (zlen_nonneg (rhn_labels nm)); lia|unfold zlen; lia].
Qed.
Lemma slot_types c i : cent_tag c → negative c = false → 0 ≤ i < num_slots c → ∃ type, type ∈ types_of c ∧ cached type i.
Proof.
  intros Ht Hn Hi. destruct (types_cached c Ht Hn) as (_ & Hty & _ & Hp).
  assert (Hin : i ∈ omap place (types_of c)).
  { rewrite Hp. apply list_elem_of_fmap. exists (Z.to_nat i). split; [lia|]. apply elem_of_seq. lia. }
  apply list_elem_of_omap in Hin as (type & Htype & Hpl). exists type. split; [done|].
  rewrite list.Forall_forall in Hty. destruct (Hty type Htype) as [j Hj]. pose proof Hj as (_ & Hpj & _). rewrite Hpl in Hpj. by injection Hpj as <-.
Qed.
Lemma read_entry_exact c nm sz m f L :
  cent_ok c → storable c → wf_name nm → qname c = rhn nm → dll (rl m) L → mem_ok m →
  quietly (read_entry (mkReader (ser_entry c ++ f) sz)) m (λ x _, ∃ c' sz', x = inr (c', mkReader f sz') ∧
    detached c' ∧ reloaded c c' ∧ cs c' ≤ cs c).
Proof.
  intros Hok Hst Hnm Hq HL Hm. pose proof (ok_tag _ Hok) as Ht. destruct (header_range c nm Ht Hst Hnm Hq) as [Hql Hnk].
  unfold read_entry. cbn [rest]. unfold ser_entry. rewrite <-!app_assoc. rewrite fread_app by done.
  rewrite unpack_pack_file by (done || apply Hst). cbv zeta. cbn [f_flags header_of qlen f_num_rrs f_ns f_soa dtsz]. cbn [qlen header_of] in Hql.
  fold (negative c).
  assert (Hneg : (if negative c then x ← fread sizeof_dom_fttlts_t (match view_neg c with Some n => pack_fttlts n | None => [] end ++
      ztake (zlen (qname c) - 1) (qname c) ++ ser_sets (types_of c) c ++ f); Some (unpack_fttlts x.1, x.2)
    else Some ((0, 0), match view_neg c with Some n => pack_fttlts n | None => [] end ++ ztake (zlen (qname c) - 1) (qname c) ++ ser_sets (types_of c) c ++ f)) =
    Some (default (0, 0) (view_neg c), ztake (zlen (qname c) - 1) (qname c) ++ ser_sets (types_of c) c ++ f)).
  { destruct (view_neg_of c Ht) as [(Hn & _ & _ & l & n & _ & Hv)|[Hn Hv]]; rewrite Hn, Hv; [|done].
    rewrite fread_app by done. cbn [mbind option_bind fst snd]. by rewrite unpack_pack_fttlts by apply (sc_neg c Hst n Hv). }
  rewrite Hneg. clear Hneg. destruct (default (0, 0) (view_neg c)) as [t s] eqn:Hts. rewrite Hq, (read_name_exact nm _ Hnm).
  q_bind. apply (quietly_the _ _ _ _ eq_refl). intros _. q_bind.
  destruct (init_cent_spec m nm t s (c_flags c) (proj1 Hnm)) as (c0 & m1 & Hi & Hrl & Hd1 & Hno & Hc0).
  specialize (Hno Hm). destruct c0 as [c0|]; [|done]. destruct Hc0 as (Hok0 & Hnd0 & Hq0 & Hfl0 & _ & _ & Hsl0).
  pose proof (init_cent_inv _ _ _ _ _ _ _ _ Hi) as Hu0. exists (Some c0), m1. split; [done|]. split; [done|]. intros _.
  pose proof (detached_refs c0 (c_ns c) (c_soa c) (nodes_detached c0 Hok0 Hnd0)) as Hdet. set (c1 := mkCent _ _ _ _ _ _ _) in *.
  assert (HL1 : dll (rl m1) L) by (by rewrite Hrl). pose proof (drop_ok _ _ _ Hd1 Hm) as Hm1. rewrite Nat2Z.id. fold (negative c) in Hu0.
  assert (Hend : quietly (read_sets (num_kept (types_of c) c) c1 0 (mkReader (ser_sets (types_of c) c ++ f) sz)) m1 (λ y _,
    ∃ sz', y.2 = inr (mkReader f sz') ∧ detached y.1 ∧ reloaded c y.1 ∧
      ((∀ i, NRRMU ≤ i → disk_set (slot c i) = None) → num_slots y.1 ≤ NRRMU))).
  { destruct (view_neg_of c Ht) as [(Hn & Hty & Hsl & l & n & _ & Hv)|[Hn Hv]]; rewrite Hn in Hu0.
    - rewrite Hty. apply quietly_ret. exists sz. split; [done|]. split; [done|]. split.
      + rewrite Hv in Hts. cbn in Hts. split; try done; [cbn; congruence|unfold view_neg at 1; cbn [fst u c1]; rewrite Hu0, Hv; congruence|].
        intros i _. cbn [fst]. change (slot c1 i) with (slot c0 i). rewrite Hsl0, (slot_negative c i Ht Hn). done.
      + intros _. unfold num_slots, all_slots. cbn [fst u c1]. by rewrite Hu0.
    - destruct (types_cached c Ht Hn) as (_ & Hty & Hsort & _).
      eapply quietly_mono; [apply (read_sets_exact (types_of c) c c1 0 sz m1 f L Hst Hty Hsort)|]; try done.
      + destruct Hty as [|type l (i & Hi' & _) _]; constructor. unfold T_MIN, T_NUM in Hi'. lia.
      + unfold negative. cbn [c_flags c1]. rewrite Hfl0. exact Hn.
      + intros type i _ _. apply Hsl0.
      + cbn beta. intros [c2 x] m2 _ (H1 & H2 & H3 & Hns & H4 & H5 & sz' & H6). cbn [fst snd] in *. exists sz'. split; [done|]. split; [done|].
        assert (Hmu : num_slots c1 = NRRMU) by (unfold num_slots, all_slots; cbn [u c1]; by rewrite Hu0). split; [|intros Hno2; rewrite Hns by done; lia].
        split; [rewrite (same_qname _ _ H2); cbn; congruence|done|by rewrite (same_ns _ _ H2)|by rewrite (same_soa _ _ H2)| |].
        * rewrite Hv. destruct (view_neg_of c2 (ok_tag _ (det_ok _ H1))) as [(Hn2 & _)|[_ ?]]; [|done]. unfold negative in *. congruence.
        * intros i Hi0. destruct (Z.lt_ge_cases i (num_slots c)) as [Hlt|Hge].
          -- destruct (slot_types c i Ht Hn (conj Hi0 Hlt)) as (type & Hin & Hci). by apply (H4 type).
          -- rewrite H5; [|done|].
             ++ change (slot c1 i) with (slot c0 i). by rewrite Hsl0, (slot_ge c i).
             ++ intros type Hin Hci. destruct (types_cached c Ht Hn) as (_ & _ & _ & Hp).
                assert (Hi' : i ∈ omap place (types_of c)) by (apply list_elem_of_omap; exists type; split; [done|apply Hci]).
                rewrite Hp in Hi'. apply list_elem_of_fmap in Hi' as (k & -> & Hk). apply elem_of_seq in Hk. lia. }
  q_bind. eapply quietly_mono; [exact Hend|]. cbn beta. intros [c2 x] m2 _ (sz' & Hx & Hdet2 & Hrel & Hns) _. cbn [fst snd] in *. subst x.
  apply quietly_ret. exists c2, sz'. split; [done|]. split; [done|]. split; [done|]. by apply (reloaded_size c c2); [|apply Hdet2| |].
Qed.
