(* ===== verification/DnsCacheReload.v ===== *)
(** * The cache survives the disk

    The whole file: the entries that [write_disk_cache] writes are in the cache again after
    [read_disk_cache]. *)

From S2P Require Import Prelude CInt DnsName DnsCompress RrTypes RrList DnsHash DnsCent DnsCache Contract DnsCacheInv DnsCacheAdd DnsCacheOps DnsCacheSafe DnsCacheFile DnsCacheRead DnsCacheDisk.

(** ** The entries of the cache *)

Definition named (nm : list bytes) (c : dns_cent_t) : Prop := wf_name nm ∧ qname c = rhn nm.
Definition at_name (s : cache) (nm : list bytes) (c : dns_cent_t) : Prop := ∃ a, find s nm = Some a ∧ cents s !! a = Some c.

Lemma zsum_perm {A} (f : A → Z) l l' : l ≡ₚ l' → zsum f l = zsum f l'.
Proof. induction 1; rewrite ?zsum_cons; lia. Qed.

(** The hash table gives every entry once. *)
Lemma all_entries_spec s L :
  inv s L → ∃ nms l, all_entries s = Some l ∧ Forall2 (λ nm c, named nm c ∧ at_name s nm c) nms l ∧ NoDup (map fold_name nms) ∧
    (∀ nm, is_Some (find s nm) → fold_name nm ∈ map fold_name nms) ∧ zsum cs l = cache_size s ∧ Z.of_nat (length l) = ent_num s.
Proof.
  intros Hinv. pose proof (inv_table _ _ Hinv) as Ht. pose proof (table_wf _ _ Ht) as Hwf. unfold all_entries. rewrite fetch_all.
  cbn [mbind option_bind]. destruct (inv_counts _ _ Hinv) as [Hsz Hnum]. cbn [without] in Hsz, Hnum.
  assert (Hkeys : NoDup (items (concat (hash s))).*1) by (rewrite items_keys; apply Hwf).
  assert (Hin : ∀ k d, (k, d) ∈ items (concat (hash s)) ↔ contents_of (hash s) !! k = Some d).
  { intros k d. unfold contents_of. by apply elem_of_list_to_map. }
  assert (Hds : map data (concat (hash s)) = (items (concat (hash s))).*2) by (unfold items; by rewrite <-list_fmap_compose). rewrite Hds.
  assert (Hl : ∀ kds, (∀ k d, (k, d) ∈ kds → contents_of (hash s) !! k = Some d) → ∃ nms l,
    mapM (λ d, cents s !! contents d) kds.*2 = Some l ∧ Forall2 (λ nm c, named nm c ∧ at_name s nm c) nms l ∧ map fold_name nms = kds.*1 ∧
    Forall2 (λ a c, cents s !! a = Some c) (map (λ kd, contents kd.2) kds) l).
  { clear Hin Hkeys Hds. induction kds as [|[k d] kds IH]; intros Hk; [by exists [], []|].
    destruct IH as (nms & l & Hm & Hn & Hf & Ha); [intros k' d' ?; apply Hk; by right|].
    assert (Hd : contents_of (hash s) !! k = Some d) by (apply Hk; by left). destruct (table_addr _ _ Ht _ _ Hd) as (_ & c & Hc & Hq).
    destruct (table_name _ _ Ht _ _ Hc) as (nm & Hnm & Hqn). assert (k = fold_name nm) as -> by (apply (wf_key (hash s) k d); [done|done|done|congruence]).
    exists (nm :: nms), (c :: l). cbn [fmap list_fmap mapM snd map fst]. rewrite Hc. cbn [mbind option_bind]. rewrite Hm. split; [done|].
    split; [constructor; [|done]|split; [by rewrite Hf|by constructor]]. split; [done|]. exists (contents d). split; [|done]. unfold find. by rewrite Hd. }
  destruct (Hl (items (concat (hash s)))) as (nms & l & Hm & Hn & Hf & Ha); [intros; by apply Hin|]. exists nms, l.
  split; [done|]. split; [done|]. split; [by rewrite Hf|]. split.
  { intros nm [a Hfnd]. rewrite Hf. unfold find in Hfnd. destruct (contents_of (hash s) !! fold_name nm) as [d|] eqn:Hd; [|done].
    apply Hin in Hd. apply list_elem_of_fmap. by exists (fold_name nm, d). }
  set (as_ := map (λ kd, contents kd.2) (items (concat (hash s)))) in *.
  assert (Hz : zsum cs l = zsum (λ p, cs p.2) (zip as_ l)).
  { clear -Ha. induction Ha as [|a c as_ l _ _ IH]; [done|]. cbn [zip zip_with]. by rewrite !zsum_cons, IH. }
  assert (Hperm : zip as_ l ≡ₚ map_to_list (cents s)).
  2: { split; [rewrite Hz, Hsz; by apply zsum_perm|]. rewrite Hnum, <-length_map_to_list, <-Hperm, length_zip_with_r_eq; [done|].
       symmetry. by apply (list.Forall2_length _ _ _ Ha). }
  apply NoDup_Permutation.
  - apply (NoDup_fmap_1 fst). rewrite fst_zip by (by rewrite (list.Forall2_length _ _ _ Ha)). subst as_. clear -Hkeys Hin Ht.
    assert (Hsub : ∀ k d, (k, d) ∈ items (concat (hash s)) → contents_of (hash s) !! k = Some d) by (intros; by apply Hin). clear Hin.
    induction (items (concat (hash s))) as [|[k d] kds IH]; [constructor|]. cbn [map fmap list_fmap fst snd] in *.
    apply list.NoDup_cons in Hkeys as [Hk Hkeys]. constructor; [|apply IH; [done|intros; apply Hsub; by right]].
    intros ([k' d'] & He & Hkd)%list_elem_of_fmap. apply Hk, list_elem_of_fmap. exists (k', d'). split; [|done]. cbn in *.
    apply (table_uniq _ _ Ht k k' d d'); [apply Hsub; by left|apply Hsub; by right|done].
  - apply NoDup_map_to_list.
  - intros [a c]. rewrite elem_of_map_to_list, elem_of_lookup_zip_with. split.
    + intros (i & a' & c' & [= <- <-] & H1 & H2). by apply (list.Forall2_lookup_lr _ _ _ _ _ _ Ha H1 H2).
    + intros Hc. destruct (table_all _ _ Ht a c Hc ltac:(set_solver)) as (k & d & Hd & <-). apply Hin in Hd.
      apply list_elem_of_lookup in Hd as [i Hi]. assert (Hai : as_ !! i = Some (contents d)) by (unfold as_; by rewrite list_lookup_fmap, Hi).
      destruct (list.Forall2_lookup_l _ _ _ _ _ Ha Hai) as (c' & Hc' & He). exists i, (contents d), c'. split; [congruence|done].
Qed.

(** ** Reading the entries *)

(** What is in the cache for the entry [c] that was written. *)
Record restored (global : globparm_t) (c e : dns_cent_t) : Prop := {
  res_qname : qname e = qname c;
  res_ns : c_ns e = c_ns c;
  res_soa : c_soa e = c_soa c;
  res_flags : c_flags e = v_flags (adjusted global c);
  res_neg : view_neg e = v_neg (adjusted global c);
  res_slot i : 0 ≤ i → view (slot e i) = view (adjust_ttl global <$> disk_set (slot c i));
}.
Definition has_restored (global : globparm_t) (s : cache) (nm : list bytes) (c : dns_cent_t) : Prop :=
  ∃ e, at_name s nm e ∧ restored global c e.
Lemma restored_reload global c c' e :
  cent_ok c → cent_ok e → reloaded c c' → view_cent e = adjusted global c' → restored global c e.
Proof.
  intros Hok Hoke [Hq Hf Hn Hs Hv Hsl] He.
  assert (Ha : v_name (adjusted global c') = qname c ∧ v_ns (adjusted global c') = c_ns c ∧ v_soa (adjusted global c') = c_soa c ∧
    v_flags (adjusted global c') = v_flags (adjusted global c) ∧ v_neg (adjusted global c') = v_neg (adjusted global c)).
  { unfold adjusted, adjusted_neg. rewrite Hv, Hq, Hf, Hn, Hs. by destruct (view_neg c). }
  destruct Ha as (H1 & H2 & H3 & H4 & H5). rewrite <-He in H1, H2, H3, H4, H5. cbn in H1, H2, H3, H4, H5.
  split; try done. intros i Hi. rewrite view_slot, He. rewrite <-(adjust_view global _ _ (Hsl i Hi)). unfold adjusted. rewrite Hv.
  destruct (view_neg_of c (ok_tag _ Hok)) as [(Hneg & _ & _ & l & n & _ & Hvn)|[Hneg Hvn]]; rewrite Hvn; cbn [v_slots adjusted_neg].
  - rewrite (adjust_view global _ _ (Hsl i Hi)), (slot_negative c i (ok_tag _ Hok) Hneg). done.
  - rewrite list_lookup_fmap. unfold slot. by destruct (all_slots c' !! Z.to_nat i).
Qed.
Lemma written_useful c c' : cent_ok c → cent_ok c' → written c = true → reloaded c c' → useful c'.
Proof.
  intros Hok Hok' Hw Hrel. destruct (written_spec c (ok_tag _ Hok)) as [_ Hws]. rewrite Hw in Hws. unfold useful.
  assert (Hn' : negative c' = negative c) by (unfold negative; by rewrite (rel_flags _ _ Hrel)). rewrite Hn'.
  destruct (negative c); [by left|right]. symmetry in Hws. apply existsb_exists in Hws as (v & Hin & Hk).
  apply list_elem_of_In, list_elem_of_lookup in Hin as [i Hi]. exists (Z.of_nat i). split; [lia|].
  pose proof (rel_slot _ _ Hrel (Z.of_nat i) ltac:(lia)) as Hv. unfold slot at 2 in Hv. rewrite Nat2Z.id, Hi in Hv. cbn in Hv.
  unfold disk_set in Hv. rewrite Hk in Hv. intros Hnone. rewrite Hnone in Hv. destruct v; [done|]. done.
Qed.

Lemma cs_nonneg c : cent_ok c → 0 ≤ cs c.
Proof.
  intros Hok. rewrite (ok_cs _ Hok). unfold cent_size, sizeof_dns_cent_t. pose proof (zlen_nonneg (qname c)).
  assert (0 ≤ ext_size c) by (destruct (ext_num c (ok_tag _ Hok)) as [->|[_ ->]]; done).
  assert (0 ≤ zsum slot_size (all_slots c)); [|lia]. apply zsum_nonneg. intros v _. apply slot_size_nonneg.
Qed.

Section read.
Context (global : globparm_t) (now : Z → Z).

Lemma zlen_ser_entry c f : zlen f + 6 ≤ zlen (ser_entry c ++ f).
Proof.
  unfold ser_entry. rewrite !zlen_app. assert (Hh : zlen (pack_dns_file (header_of c)) = 6) by done. rewrite Hh.
  repeat match goal with |- context [zlen ?x] => lazymatch x with f => fail | _ => let n := fresh in pose proof (zlen_nonneg x); generalize dependent (zlen x); intros n ? end end. lia.
Qed.
Lemma read_entries_exact nms l fuel s L sz :
  Forall2 (λ nm c, named nm c ∧ writable c ∧ written c = true) nms l → NoDup (map fold_name nms) →
  (∀ nm, fold_name nm ∈ map fold_name nms → find s nm = None) →
  inv s L → mem_ok (mem s) → can_grow s L (zlen (concat (map ser_entry l))) →
  cache_size s + zsum cs l ≤ purge_limit global → (length l < fuel)%nat →
  safe (read_entries global now fuel (Z.of_nat (length l)) (mkReader (concat (map ser_entry l)) sz)) (λ e s',
    e = LOADED ∧ (∃ L', inv s' L' ∧ can_grow s' L' 0) ∧ cents s ⊆ cents s' ∧
    (∀ nm, fold_name nm ∉ map fold_name nms → find s' nm = find s nm) ∧ Forall2 (has_restored global s') nms l) s.
Proof.
  intros Hl. revert fuel s L sz. induction Hl as [|nm c nms l ([Hnm Hq] & (Hok & Hst & _) & Hw) Hl IH];
    intros fuel s L sz Hnd Hnew Hinv Hm Hg Hsz Hf; (destruct fuel as [|fuel]; [cbn in Hf; lia|]); cbn [read_entries].
  { apply safe_ret. split; [done|]. split; [by exists L|]. split; [done|]. split; [done|constructor]. }
  cbn [length map concat fmap list_fmap] in *. rewrite zsum_cons in Hsz. assert (Hgt : (Z.of_nat (S (length l)) >? 0) = true) by (apply Z.gtb_lt; lia). rewrite Hgt.
  set (f := concat (map ser_entry l)) in *. pose proof (zlen_ser_entry c f) as Hlen. pose proof (zlen_nonneg f) as Hf0. apply list.NoDup_cons in Hnd as [Hnn Hnd].
  s_bind. apply safe_quietly. eapply quietly_mono; [apply (read_entry_exact c nm sz (mem s) f L); [done..|apply Hinv|done]|]. cbn beta.
  intros x m1 _ (c' & sz' & -> & Hdet & Hrel & Hcs) Hd1. pose proof (invx_mem s L m1 Hinv Hd1) as Hinv1.
  pose proof (drop_ok _ _ _ Hd1 Hm) as Hm1. set (s1 := mkCache m1 _ _ _ _ _) in *. s_bind.
  assert (Hsum : 0 ≤ zsum cs l).
  { apply zsum_nonneg. intros c0 Hin. apply list_elem_of_lookup in Hin as [i Hi].
    destruct (list.Forall2_lookup_r _ _ _ _ _ Hl Hi) as (? & _ & _ & (Hok0 & _) & _). by apply cs_nonneg. }
  eapply safe_mono; [apply (add_cache_spec global _ s1 L nm c' Hinv1); [|done|by rewrite (rel_qname _ _ Hrel)|apply Hdet]|].
  { destruct Hg as [?|Hg]; [by left|right]. lia. }
  cbn beta. intros _ s2 ((L2 & Hinv2 & HL2) & Hso2 & _ & Hadd).
  destruct Hadd as [(a & e & Hfa & Hna & Hce & Hve) Hfo Hsz2 Hsort2 Hm2].
  { apply (Hnew nm). by left. } { split; [done|]. cbn [cache_size s1]. lia. } { apply (written_useful c); [done|apply Hdet|done|done]. }
  s_bind. apply safe_quietly. eapply quietly_mono; [eapply (free_detached (mem s2) c' L2 Hdet); apply Hinv2|]. cbn beta. intros [] m3 _ _ Hd3.
  pose proof (invx_mem s2 L2 m3 Hinv2 Hd3) as Hinv3. replace (Z.of_nat (S (length l)) - 1) with (Z.of_nat (length l)) by lia.
  set (s3 := mkCache m3 _ _ _ _ _) in *.
  assert (Hoke : cent_ok e) by (apply (core_cent _ _ (inv_core _ _ Hinv2) a); by rewrite Hce, lookup_insert_eq).
  eapply safe_mono; [apply (IH fuel s3 L2 sz' Hnd)|].
  - intros nm' Hin. change (find s3 nm') with (find s2 nm'). rewrite Hfo; [apply (Hnew nm'); by right|]. intros Hs. apply Hnn.
    unfold same_name in Hs. unfold fold_name at 1. by rewrite <-Hs.
  - done.
  - by apply (drop_ok _ _ _ Hd3).
  - destruct Hg as [Hg|Hg]; [left; cbn; by rewrite Hsort2|]. destruct HL2 as [HL2|HL2]; [by left|right]. unfold NRRTOT, NRRMU, NRREXT in *. lia.
  - cbn [cache_size s3]. rewrite Hsz2. cbn [cache_size s1]. lia.
  - lia.
  - cbn beta. intros e' s4 (-> & Hi4 & Hsub & Hfo4 & Hall). split; [done|]. split; [done|]. cbn [cents s3] in Hsub. split; [|split].
    + etrans; [|exact Hsub]. rewrite Hce. by apply insert_subseteq.
    + intros nm' Hnin. apply not_elem_of_cons in Hnin as [Hne Hnin]. rewrite Hfo4 by done. apply (Hfo nm').
      intros Hs. by apply Hne.
    + constructor; [|done]. exists e. split.
      * exists a. rewrite Hfo4 by done. split; [done|]. apply (lookup_weaken (cents s2)); [|done]. by rewrite Hce, lookup_insert_eq.
      * by apply (restored_reload global c c' e).
Qed.
End read.

(** ** The whole file *)

Lemma filter_entries (R : list bytes → dns_cent_t → Prop) nms l :
  Forall2 R nms l → ∃ nms', Forall2 (λ nm c, R nm c ∧ written c = true) nms' (filter (λ c, written c = true) l) ∧
    sublist nms' nms ∧ ∀ i nm c, nms !! i = Some nm → l !! i = Some c → written c = true →
      ∃ j, nms' !! j = Some nm ∧ filter (λ c, written c = true) l !! j = Some c.
Proof.
  induction 1 as [|nm c nms l Hr _ (nms' & Hf & Hsub & Hi)]; [exists []; split; [constructor|]; by split|].
  rewrite list.filter_cons. destruct (decide (written c = true)) as [Hw|Hw].
  - exists (nm :: nms'). split; [by constructor|]. split; [by constructor|]. intros [|i] n d; cbn.
    + intros [= <-] [= <-] _. by exists 0%nat.
    + intros H1 H2 H3. destruct (Hi i n d H1 H2 H3) as (j & ? & ?). by exists (S j).
  - exists nms'. split; [done|]. split; [by constructor|]. intros [|i] n d; cbn; [intros _ [= <-] ?; done|]. apply Hi.
Qed.
Lemma filter_size l : Forall cent_ok l → zsum cs (filter (λ c, written c = true) l) ≤ zsum cs l.
Proof.
  induction 1 as [|c l Hok _ IH]; [done|]. pose proof (cs_nonneg c Hok). rewrite list.filter_cons, zsum_cons.
  destruct (decide _); rewrite ?zsum_cons; lia.
Qed.
Lemma length_ser l : Z.of_nat (length l) ≤ zlen (concat (map ser_entry l)).
Proof.
  induction l as [|c l IH]; [done|]. cbn [map concat]. pose proof (zlen_ser_entry c (concat (map ser_entry l))). cbn [length]. lia.
Qed.

Section trip.
Context (global : globparm_t).

(** What is in the cache after [l], with the names [nms], was read into [s]. *)
Record reread (s s' : cache) (nms : list (list bytes)) (l : list dns_cent_t) : Prop := {
  rr_inv : ∃ L, inv s' L;
  rr_cents : cents s ⊆ cents s';
  rr_find nm : fold_name nm ∉ map fold_name nms → find s' nm = find s nm;
  rr_restored : Forall2 (has_restored global s') nms l;
}.
Lemma read_file_exact now nms l0 l s L :
  filter (λ c, written c = true) l0 = l → Forall2 (λ nm c, named nm c ∧ writable c ∧ written c = true) nms l → NoDup (map fold_name nms) →
  (∀ nm, fold_name nm ∈ map fold_name nms → find s nm = None) →
  inv s L → mem_ok (mem s) → Z.of_nat (length L) + 8 * zlen (ser_file l0) + NRRTOT < 2 ^ 32 →
  cache_size s + zsum cs l ≤ purge_limit global → Z.of_nat (length l) < 2 ^ 64 →
  safe (read_disk_cache global now (Some (ser_file l0))) (λ e s', e = LOADED ∧ insert_sort s' = true ∧ reread s s' nms l) s.
Proof.
  intros Hfl Hl Hnd Hnew Hinv Hm Hroom Hsz Hlen. unfold read_disk_cache. s_bind. apply safe_quietly, quietly_malloc. intros p m1 _ Hp Hd1.
  specialize (Hp Hm). destruct p as [p|]; [|done]. pose proof (invx_mem s L m1 Hinv Hd1) as Hinv1. s_bind. apply safe_modify. set (s1 := mkCache _ _ _ _ _ _).
  assert (Hinv2 : inv s1 L). { destruct Hinv1 as [Hcore Ht Hn]. split; [by apply (core_eq _ s1) in Hcore|by destruct Ht|by destruct Hn]. }
  unfold ser_file in *. rewrite Hfl in *. unfold read_file. rewrite !zlen_app in Hroom. change (zlen (le_bytes 8 _)) with 8 in Hroom.
  pose proof (zlen_nonneg cachverid). pose proof (length_ser l). set (f := concat (map ser_entry l)) in *.
  rewrite fread_app by done. rewrite bool_decide_true by done. cbn [negb]. rewrite fread_app by done.
  assert (Hn : field 0 8 (le_bytes 8 (Z.of_nat (length l))) = Z.of_nat (length l)).
  { change (le_val (le_bytes 8 (Z.of_nat (length l))) = Z.of_nat (length l)). apply le_val_fits. cbn. lia. }
  rewrite Hn. s_bind. eapply safe_mono; [apply (read_entries_exact global now nms l _ s1 L 512 Hl Hnd Hnew Hinv2)|].
  - by apply (drop_ok _ _ _ Hd1).
  - right. fold f. lia.
  - cbn [cache_size s1]. lia.
  - unfold zlen in *. lia.
  - cbn beta. intros e s2 (-> & (L2 & Hinv3 & Hg2) & Hsub & Hfo & Hall). eapply safe_mono; [by apply (finish_spec s2 L2 LOADED)|]. cbn beta.
    intros e s3 (-> & Hi & Hs & Hc & Hh). split; [done|]. split; [done|]. assert (Hf : ∀ nm, find s3 nm = find s2 nm) by (intros; unfold find; by rewrite Hh).
    split; [done|by rewrite Hc| |].
    + intros nm Hnin. rewrite Hf. by apply Hfo.
    + eapply list.Forall2_impl; [exact Hall|]. intros nm c (e & (a & Ha & He) & Hr). exists e. split; [exists a|done]. by rewrite Hf, Hc.
Qed.

(** C31: What [write_disk_cache] writes, [read_disk_cache] reads.  A cache whose entries fit
    the format (sets of at most 255 records that are shorter than 2^16 and differ, no
    remote sets in an entry that is marked as local) is purged and written; when the file is
    read into another cache that has memory and room and none of the names, every entry
    that was written is there again under its name, with its flags, its references, its
    negative answer and those of its sets that are not local, whose times to live are
    adjusted as for a new entry.  Nothing that was in the cache changes and nothing else is
    added. *)
Theorem disk_cache_roundtrip now now' s s1 es1 :
  reachable global s → purge_cache now (perm_cache global * 1024) false s = Some (tt, s1, es1) →
  (∀ a c, cents s1 !! a = Some c → storable c) → ent_num s1 < 2 ^ 64 →
  ∃ f, write_disk_cache global now (Some []) s = Some (Some (f, true), s1, es1) ∧
    ∀ s0, reachable global s0 → mem_ok (mem s0) → (∀ nm, is_Some (find s1 nm) → find s0 nm = None) →
      cache_size s0 + cache_size s1 ≤ purge_limit global → Z.of_nat (list_len s0) + 8 * zlen f + NRRTOT < 2 ^ 32 →
      ∃ s2 es2, read_disk_cache global now' (Some f) s0 = Some (LOADED, s2, es2) ∧ only_warns es2 ∧ (∃ L, inv s2 L) ∧
        insert_sort s2 = true ∧ cents s0 ⊆ cents s2 ∧
        (∀ nm c, at_name s1 nm c → written c = true → has_restored global s2 nm c) ∧
        (∀ nm, (∀ c, at_name s1 nm c → written c = false) → find s2 nm = find s0 nm).
Proof.
  intros Hr Hp Hst Hnum. apply reachable_good in Hr as [[L Hinv] Hs].
  destruct (safe_run _ _ _ (purge_cache_spec now s L (perm_cache global * 1024) false Hinv (or_introl Hs))) as ([] & s1' & es1' & Hp' & _ & L1 & Hinv1 & _).
  rewrite Hp in Hp'. injection Hp' as <- <-. destruct (all_entries_spec s1 L1 Hinv1) as (nms & l & Hl & Hall & Hnd & Hfind & Hsum & Hlen).
  assert (Hwl : Forall2 (λ nm c, (named nm c ∧ writable c) ∧ at_name s1 nm c) nms l).
  { eapply list.Forall2_impl; [exact Hall|]. intros nm c [[Hnm Hq] (a & Ha & Hc)]. split; [|by exists a]. split; [done|].
    split; [by apply (core_cent _ _ (inv_core _ _ Hinv1) a)|]. split; [by apply (Hst a)|]. by exists nm. }
  assert (Hw : Forall writable l) by (eapply list.Forall2_Forall_r; [exact Hwl|]; apply list.Forall_forall; by intros nm _ c [[_ ?] _]).
  destruct (write_file_writes l Hw ltac:(lia) (mkDisk [] [] 0)) as (d & Hd & Ho & _); [constructor|]. cbn [out app] in Ho.
  exists (ser_file l). split.
  { unfold write_disk_cache. rewrite (M_bind_run _ _ _ _ _ _ Hp). unfold need. rewrite (M_bind_run0 get _ s1 s1 s1) by done. rewrite Hl.
    rewrite (M_bind_run0 _ _ _ l s1) by done. rewrite Hd. rewrite (M_bind_run0 _ _ _ (true, d, []) s1) by done. cbn. by rewrite Ho, app_nil_r. }
  intros s0 Hr0 Hm0 Hnew Hsz Hroom. apply reachable_good in Hr0 as [[L0 Hinv0] Hs0].
  destruct (filter_entries _ _ _ Hwl) as (nms' & Hf & Hsub & Hidx).
  unfold list_len in Hroom. rewrite (list_size s0 L0 (inv_core _ _ Hinv0)) in Hroom.
  assert (Hin : ∀ nm i, nms !! i = Some nm → is_Some (find s1 nm)).
  { intros nm i Hi. destruct (list.Forall2_lookup_l _ _ _ _ _ Hall Hi) as (c & _ & _ & a & Ha & _). by exists a. }
  assert (Hsame : ∀ s nm nm', fold_name nm = fold_name nm' → find s nm = find s nm') by (intros ? ? ? He; unfold find; by rewrite He).
  assert (Hsafe : safe (read_disk_cache global now' (Some (ser_file l))) (λ e s', e = LOADED ∧ insert_sort s' = true ∧ reread s0 s' nms' (filter (λ c, written c = true) l)) s0).
  { apply (read_file_exact now' nms' l _ s0 L0 eq_refl); try done.
    - eapply list.Forall2_impl; [exact Hf|]. by intros nm c [[[? ?] ?] ?].
    - eapply sublist_NoDup; [exact Hnd|]. by apply fmap_sublist.
    - intros nm (nm' & He & Hnm')%list_elem_of_fmap. rewrite (Hsame _ _ _ He). apply (elem_of_sublist _ _ _ Hnm') in Hsub.
      apply list_elem_of_lookup in Hsub as [i Hi]. by apply Hnew, (Hin _ i).
    - assert (Hok : Forall cent_ok l) by (eapply list.Forall_impl; [exact Hw|]; by intros c [? _]).
      pose proof (filter_size l Hok). lia.
    - pose proof (length_filter (λ c, written c = true) l). lia. }
  destruct (safe_run _ _ _ Hsafe) as (e & s2 & es2 & Hrun & Hes & -> & Hso & [Hi Hc Hfo Hres]).
  exists s2, es2. do 5 (split; [done|]). split.
  - intros nm c (a & Ha & Hac) Hw'. pose proof (Hfind nm ltac:(by eexists)) as (nm' & He & Hnm')%list_elem_of_fmap.
    apply list_elem_of_lookup in Hnm' as [i Hi']. destruct (list.Forall2_lookup_l _ _ _ _ _ Hall Hi') as (c' & Hc' & _ & a' & Ha' & Hac').
    assert (c' = c) as -> by (rewrite <-(Hsame s1 _ _ He) in Ha'; congruence). destruct (Hidx i nm' c Hi' Hc' Hw') as (j & Hj & Hjc).
    destruct (list.Forall2_lookup_lr _ _ _ _ _ _ Hres Hj Hjc) as (e & (b & Hb & Hbe) & Hre). exists e. split; [|done]. exists b. by rewrite (Hsame s2 _ _ He).
  - intros nm Hno. apply Hfo. intros (nm' & He & Hnm')%list_elem_of_fmap. apply list_elem_of_lookup in Hnm' as [i Hi'].
    destruct (list.Forall2_lookup_l _ _ _ _ _ Hf Hi') as (c & _ & (_ & a & Ha & Hac) & Hw'). assert (written c = false); [|congruence].
    apply Hno. exists a. by rewrite (Hsame s1 _ _ He).
Qed.
End trip.

(** ** An example *)

Definition ex_written : cache :=
  match purge_cache 1002 (perm_cache ex_global * 1024) false (ex_state 0) with Some (_, s, _) => s | None => no_cache [] end.
Definition ex_file : bytes :=
  match write_disk_cache ex_global 1002 (Some []) (ex_state 0) with Some (Some (f, _), _, _) => f | _ => [] end.
Definition is_timeb (x : Z) : bool := (- 2 ^ 63 <=? x) && (x <? 2 ^ 63).
Definition storable_setb (s : rr_set_t) : bool :=
  (0 <=? flags s) && (flags s <? 2 ^ 16) && is_timeb (ttl s) && is_timeb (ts s) && (length (rrs s) <=? 255)%nat &&
  bool_decide (NoDup (rrs s)) && forallb (λ b, zlen b <? 2 ^ 16) (rrs s).
Definition storableb (c : dns_cent_t) : bool :=
  (0 <=? c_flags c) && (c_flags c <? 2 ^ 16) && (0 <=? c_ns c) && (c_ns c <? 2 ^ 8) && (0 <=? c_soa c) && (c_soa c <? 2 ^ 8) &&
  match view_neg c with Some n => is_timeb n.1 && is_timeb n.2 | None => true end &&
  forallb (λ v, match disk_set v with Some s => storable_setb s && negb (has (c_flags c) DF_LOCAL) | None => true end) (all_slots c).
Lemma storable_setb_spec s : storable_setb s = true → storable_set s.
Proof.
  unfold storable_setb, is_timeb. intros H. rewrite !andb_true_iff in H. destruct H as [[[[[[H1 H2] H3] H4] H5] H6] H7].
  split; [lia|unfold is_time; lia|unfold is_time; lia|by apply Nat.leb_le|by apply bool_decide_eq_true in H6|].
  apply list.Forall_forall. intros b Hb%list_elem_of_In. rewrite forallb_forall in H7. specialize (H7 b Hb). lia.
Qed.
Lemma storableb_spec c : storableb c = true → storable c.
Proof.
  unfold storableb. intros H. rewrite !andb_true_iff in H. destruct H as [[[[[[[H1 H2] H3] H4] H5] H6] H7] H8]. split; [lia..| |].
  - intros n Hn. rewrite Hn in H7. unfold is_timeb in H7. unfold is_time. lia.
  - intros j s Hj Hd. rewrite forallb_forall in H8. pose proof (proj1 (disk_set_kept _ _ Hd)) as Hs.
    specialize (H8 (slot c j)). rewrite Hd in H8. assert (Hin : In (slot c j) (all_slots c)).
    { rewrite Hs. apply list_elem_of_In, list_elem_of_lookup. exists (Z.to_nat j). by apply slot_all. }
    specialize (H8 Hin). apply andb_true_iff in H8 as [H8 H9]. split; [by apply storable_setb_spec|by apply negb_true_iff].
Qed.
Lemma forallb_elem {A} (f : A → bool) l x : forallb f l = true → x ∈ l → f x = true.
Proof. rewrite forallb_forall. intros H Hx. by apply H, list_elem_of_In. Qed.
Lemma ex_storable a c : cents ex_written !! a = Some c → storable c.
Proof.
  intros Hc. assert (Hin : c ∈ (map_to_list (cents ex_written)).*2).
  { apply list_elem_of_fmap. exists (a, c). split; [done|]. by apply elem_of_map_to_list. }
  revert Hin. assert (Hall : Forall storable (map_to_list (cents ex_written)).*2); [|by apply list.Forall_forall].
  assert (Hs : forallb storableb (map_to_list (cents ex_written)).*2 = true) by (vm_compute; reflexivity).
  apply list.Forall_forall. intros c' Hc'. apply storableb_spec. exact (forallb_elem _ _ _ Hs Hc').
Qed.
Example disk_cache_roundtrip_witness :
  ∃ f, write_disk_cache ex_global 1002 (Some []) (ex_state 0) = Some (Some (f, true), ex_written, []) ∧
    ∃ s2 es2, read_disk_cache ex_global (λ _, 5000) (Some f) (no_cache []) = Some (LOADED, s2, es2) ∧ only_warns es2 ∧ (∃ L, inv s2 L) ∧
      insert_sort s2 = true ∧ cents (no_cache []) ⊆ cents s2 ∧
      (∀ nm c, at_name ex_written nm c → written c = true → has_restored ex_global s2 nm c) ∧
      (∀ nm, (∀ c, at_name ex_written nm c → written c = false) → find s2 nm = find (no_cache []) nm).
Proof.
  destruct (disk_cache_roundtrip ex_global 1002 (λ _, 5000) (ex_state 0) ex_written []) as (f & Hw & Hr).
  - apply ex_state_reachable.
  - vm_compute; reflexivity.
  - apply ex_storable.
  - vm_compute; reflexivity.
  - exists f. split; [exact Hw|]. assert (Hf : f = ex_file) by (unfold ex_file; by rewrite Hw).
    apply Hr.
    + exists [], [], []. by split.
    + constructor.
    + intros nm _. unfold find. cbn [hash no_cache]. by rewrite (proj2 wf_mk_dns_hash).
    + vm_compute. discriminate.
    + rewrite Hf. vm_compute. reflexivity.
Defined.
