(* ===== verification/DnsResponse.v ===== *)
(** * The records of a DNS response

    [pdnsd/src/dns_query.c]: [rr_to_cache] and [rrs2cent] decode the records of a section of
    a response, which an untrusted server sent, into an array of cache entries; the array
    grows with [da_grow1] and [da_resize] of [list.c].

    A pointer into the message is an offset, and a read outside of the message is an error,
    as is a write outside of a buffer on the stack.  The array is [None] for the null
    pointer.  [RFC2181_ME_HARDER] is not defined; debug messages are left out. *)

From S2P Require Import Prelude CInt DnsName DnsCompress RrTypes RrList DnsCent DnsCacheFile.

(** ** Numbers in the message *)

Definition GETINT16 (msg : bytes) (cp : Z) : option Z :=
  a ← rd msg cp; b ← rd msg (cp + 1);
  Some (Z.lor (u16 (Z.shiftl a 8)) b).
Definition GETINT32 (msg : bytes) (cp : Z) : option Z :=
  a ← rd msg cp; b ← rd msg (cp + 1); c ← rd msg (cp + 2); d ← rd msg (cp + 3);
  Some (Z.lor (Z.lor (Z.lor (u32 (Z.shiftl a 24)) (Z.shiftl b 16)) (Z.shiftl c 8)) d).
(** [memcpy] from the message *)
Definition copy (msg : bytes) (p n : Z) : option bytes :=
  assert! (0 <=? p) && (0 <=? n) && (p + n <=? zlen msg); Some (slice p n msg).
Definition rcode (msg : bytes) : option Z := b ← rd msg 3; Some (Z.land b 15).

Definition C_IN : Z := 1.
Definition sizeof_rr_hdr_t : Z := 10.
Definition T_MD : Z := 3.
Definition T_MF : Z := 4.
Definition T_MB : Z := 7.
Definition T_MG : Z := 8.
Definition T_MR : Z := 9.
Definition T_MINFO : Z := 14.
Definition T_RP : Z := 17.
Definition T_AFSDB : Z := 18.
Definition T_RT : Z := 21.
Definition T_PX : Z := 26.
Definition T_NXT : Z := 30.
Definition T_SRV : Z := 33.
Definition T_NAPTR : Z := 35.
Definition T_KX : Z := 36.
Definition T_OPT : Z := 41.
Definition T_IPSECKEY : Z := 45.
Definition T_RRSIG : Z := 46.
Definition T_NSEC : Z := 47.

(** ** The data of a record *)

(** a step that can end the decoding with a return code *)
Definition tbind {A B} (m : option (A + rc)) (k : A → option (B + rc)) : option (B + rc) :=
  x ← m; match x with inl a => k a | inr e => Some (inr e) end.
Notation "'try' x ⇐ m ; k" := (tbind m (λ x, k)) (at level 200, x name, m at level 100, k at level 200).
Definition ok {A} (a : A) : option (A + rc) := Some (inl a).
Definition format_error {A} : option (A + rc) := Some (inr RC_FORMAT).
(** [if(cond) goto ...] for the labels that return [RC_FORMAT] *)
Definition unless {A} (cond : bool) (k : option (A + rc)) : option (A + rc) := if cond then format_error else k.

(** what is left of the data: [bptr], [blcnt] and the buffer, whose length is [slen] *)
Record decoder := mkDec { bptr : Z; blcnt : Z; db : bytes }.
(** the data as it will be cached, in a buffer on the stack or, after [malloc], on the heap *)
Inductive rdata := STACK (data : bytes) | HEAP (data : bytes).

Section rdata.
Context (msg : bytes).

(** [decompress_name] to the end of a buffer of [size] bytes *)
Definition get_name (size : Z) (d : decoder) : option (decoder + rc) :=
  assert! zlen (db d) + DNSNAMEBUFSIZE <=? size;
  r ← decompress_name msg (bptr d) (blcnt d);
  match r with
  | Ok used name => ok (mkDec (bptr d + used) (blcnt d - used) (db d ++ name))
  | Err RC_TRUNC => format_error
  | Err e => Some (inr e)
  end.
(** [n] bytes are copied as they are *)
Definition get_bytes (size n : Z) (d : decoder) : option (decoder + rc) :=
  assert! zlen (db d) + n <=? size;
  b ← copy msg (bptr d) n;
  ok (mkDec (bptr d + n) (blcnt d - n) (db d ++ b)).
(** nothing may be left *)
Definition finish (d : decoder) : option (rdata + rc) := unless (negb (blcnt d =? 0)) (ok (STACK (db d))).

Definition rdata_name (d : decoder) : option (rdata + rc) :=
  try d ⇐ get_name DNSNAMEBUFSIZE d; finish d.
Definition rdata_minfo (d : decoder) : option (rdata + rc) :=
  let size := DNSNAMEBUFSIZE + DNSNAMEBUFSIZE in
  try d ⇐ get_name size d; try d ⇐ get_name size d; finish d.
Definition rdata_mx (d : decoder) : option (rdata + rc) :=
  let size := 2 + DNSNAMEBUFSIZE in
  unless (blcnt d <? 2) (try d ⇐ get_bytes size 2 d; try d ⇐ get_name size d; finish d).
Definition rdata_soa (d : decoder) : option (rdata + rc) :=
  let size := DNSNAMEBUFSIZE + DNSNAMEBUFSIZE + 20 in
  try d ⇐ get_name size d; try d ⇐ get_name size d;
  unless (blcnt d <? 20) (try d ⇐ get_bytes size 20 d; finish d).
Definition rdata_px (d : decoder) : option (rdata + rc) :=
  let size := 2 + DNSNAMEBUFSIZE + DNSNAMEBUFSIZE in
  unless (blcnt d <? 2) (try d ⇐ get_bytes size 2 d; try d ⇐ get_name size d; try d ⇐ get_name size d; finish d).
Definition rdata_srv (d : decoder) : option (rdata + rc) :=
  let size := 6 + DNSNAMEBUFSIZE in
  unless (blcnt d <? 6) (try d ⇐ get_bytes size 6 d; try d ⇐ get_name size d; finish d).
Definition rdata_nxt (d : decoder) : option (rdata + rc) :=
  let size := 1040 in
  try d ⇐ get_name size d;
  unless (zlen (db d) + blcnt d >? size) (try d ⇐ get_bytes size (blcnt d) d; ok (STACK (db d))).
(** [for (j=0;j<3;j++)] of the strings of a NAPTR record *)
Fixpoint naptr_len (j : nat) (d : decoder) (len : Z) : option (Z + rc) :=
  match j with
  | O => ok len
  | S j =>
      unless (len >=? blcnt d) (b ← rd msg (bptr d + len); naptr_len j d (len + (b + 1)))
  end.
Definition rdata_naptr (d : decoder) : option (rdata + rc) :=
  let size := 4 + 3 * 256 + DNSNAMEBUFSIZE in
  try len ⇐ naptr_len 3 d 4;
  unless (len >? blcnt d) (try d ⇐ get_bytes size len d; try d ⇐ get_name size d; finish d).
(** a name that should not be compressed but is, after [pre] bytes; the rest follows *)
Definition rdata_compressed (ptr pre : Z) (d : decoder) : option (rdata + rc) :=
  b ← copy msg ptr pre;
  try n ⇐ get_name DNSNAMEBUFSIZE (mkDec (bptr d) (blcnt d) []);
  r ← copy msg (bptr n) (blcnt n);
  ok (HEAP (b ++ db n ++ r)).
Definition default_case (ptr rdlength : Z) : option (rdata + rc) :=
  b ← copy msg ptr rdlength; ok (STACK b).
(** [isnormalencdomname(bptr,blcnt)] *)
Definition is_normal (d : decoder) : option bool := isnormalencdomname (zdrop (bptr d) msg) (blcnt d).
Definition rdata_ipseckey (ptr rdlength : Z) : option (rdata + rc) :=
  unless (rdlength <? 3) (
    gwtp ← rd msg (ptr + 1);
    let d := mkDec (ptr + 3) (rdlength - 3) [] in
    if gwtp =? 0 then default_case ptr rdlength
    else if gwtp =? 1 then unless (blcnt d <? 4) (default_case ptr rdlength)
    else if gwtp =? 2 then unless (blcnt d <? 16) (default_case ptr rdlength)
    else if gwtp =? 3 then
      n ← is_normal d;
      if n : bool then default_case ptr rdlength else rdata_compressed ptr 3 d
    else format_error).
Definition rdata_rrsig (ptr rdlength : Z) : option (rdata + rc) :=
  unless (rdlength <? 18) (
    let d := mkDec (ptr + 18) (rdlength - 18) [] in
    n ← is_normal d;
    if n : bool then default_case ptr rdlength else rdata_compressed ptr 18 d).
Definition rdata_nsec (ptr rdlength : Z) : option (rdata + rc) :=
  let d := mkDec ptr rdlength [] in
  n ← is_normal d;
  if n : bool then default_case ptr rdlength else rdata_compressed ptr 0 d.

Definition one_of (type : Z) (l : list Z) : bool := existsb (Z.eqb type) l.
(** [switch (type)] *)
Definition decode_rdata (type ptr rdlength : Z) : option (rdata + rc) :=
  let d := mkDec ptr rdlength [] in
  if type =? T_A then unless (negb (rdlength =? 4)) (default_case ptr rdlength)
  else if one_of type [T_CNAME; T_MB; T_MD; T_MF; T_MG; T_MR; T_NS; T_PTR] then rdata_name d
  else if one_of type [T_MINFO; T_RP] then rdata_minfo d
  else if one_of type [T_MX; T_AFSDB; T_RT; T_KX] then rdata_mx d
  else if type =? T_SOA then rdata_soa d
  else if type =? T_AAAA then unless (negb (rdlength =? 16)) (default_case ptr rdlength)
  else if type =? T_PX then rdata_px d
  else if type =? T_SRV then rdata_srv d
  else if type =? T_NXT then rdata_nxt d
  else if type =? T_NAPTR then rdata_naptr d
  else if type =? T_IPSECKEY then rdata_ipseckey ptr rdlength
  else if type =? T_RRSIG then rdata_rrsig ptr rdlength
  else if type =? T_NSEC then rdata_nsec ptr rdlength
  else default_case ptr rdlength.
End rdata.

(** ** The array of entries *)

Inductive retval := RET (r : rc) | RC_FATALERR.
Definition is_ok (r : retval) : bool := match r with RET RC_OK => true | _ => false end.
Definition is_fatal (r : retval) : bool := match r with RC_FATALERR => true | _ => false end.
Abbreviation cent_array := (option (list dns_cent_t)).
Definition DA_NEL (a : cent_array) : Z := match a with Some l => zlen l | None => 0 end.
Fixpoint free_all (l : list dns_cent_t) : Mem unit :=
  match l with [] => mret tt | c :: l => free_cent c;; free_all l end.
(** [realloc]: whether there is memory *)
Definition realloc : Mem bool := p ← malloc; mret (not_null p).
(** [da_grow1] with the clean-up routine [free_cent0]: whether there is room for one more *)
Definition da_grow1 (a : cent_array) : Mem (bool * cent_array) :=
  let k := DA_NEL a in
  let l := default [] a in
  if negb (not_null a) || (negb (k =? 0) && (Z.land k 7 =? 0)) then
    r ← realloc;
    if r : bool then mret (true, Some l)
    else free_all l;; mret (false, None)
  else mret (true, Some l).
Definition alloc_nel (n : Z) : Z := if n =? 0 then 8 else Z.land (n + 7) (Z.lnot 7).
(** [da_resize] from [nel] to [n] elements, which are [l], without a clean-up routine *)
Definition da_resize (nel n : Z) (l : list dns_cent_t) : Mem cent_array :=
  if negb (alloc_nel n =? alloc_nel nel) then
    r ← realloc; mret (if r : bool then Some l else None)
  else mret (Some l).

(** the place of the entry that has the name *)
Fixpoint find_oname (l : list dns_cent_t) (oname : bytes) (i : nat) : option (option (nat * dns_cent_t)) :=
  match l with
  | [] => Some None
  | c :: l => e ← rhnicmp (qname c) oname; if e : bool then Some (Some (i, c)) else find_oname l oname (S i)
  end.
Definition rr_to_cache (centa : cent_array) (oname : bytes) (tp t : Z) (data : bytes) (f queryts : Z) :
    Mem (retval * cent_array) :=
  let l := default [] centa in
  r ← the (find_oname l oname 0);
  match r with
  | Some (i, cent) =>
      y ← add_cent_rr cent tp t queryts f data;
      mret (if y.1 : bool then RET RC_OK else RC_FATALERR, Some (<[i := y.2]> l))
  | None =>
      g ← da_grow1 centa;
      if negb g.1 then mret (RC_FATALERR, g.2)
      else
        cent ← init_cent oname 0 0 0;
        match cent with
        | None =>
            a ← da_resize (DA_NEL centa + 1) (DA_NEL centa) l;
            mret (RC_FATALERR, a)
        | Some cent =>
            y ← add_cent_rr cent tp t queryts f data;
            mret (if y.1 : bool then RET RC_OK else RC_FATALERR, Some (l ++ [y.2]))
        end
  end.

(** ** A section of the message *)

Record edns_info_t := mkEdns { udpsize : Z; e_rcode : Z; e_version : Z; do_flg : Z }.
(** [*ptr], [*lcnt], the array and what is known of the OPT record *)
Record section := mkSection { ptr : Z; lcnt : Z; centa : cent_array; numopt : Z; ep : edns_info_t }.
(** what stands before the data: [type], [class], [ttl], [rdlength] and where the TTL is *)
Record rr_hdr := mkHdr { type : Z; class : Z; h_ttl : Z; rdlength : Z; ttlp : Z }.

Section response.
Context (msg : bytes).

(** the name and the header of a record, or a return code, with [*ptr] and [*lcnt] then *)
Definition read_hdr (p cnt : Z) : option (Z * Z * (bytes * rr_hdr + rc)) :=
  r ← decompress_name msg p cnt;
  match r with
  | Err e => Some (p, cnt, inr e)
  | Ok used oname =>
      let p := p + used in
      let cnt := cnt - used in
      if cnt <? sizeof_rr_hdr_t then Some (p, cnt, inr RC_TRUNC)
      else
        let cnt := cnt - sizeof_rr_hdr_t in
        tp ← GETINT16 msg p;
        cl ← GETINT16 msg (p + 2);
        t ← GETINT32 msg (p + 4);
        rl ← GETINT16 msg (p + 8);
        Some (p + 10, cnt, if cnt <? rl then inr RC_TRUNC else inl (oname, mkHdr tp cl t rl (p + 4)))
  end.
Definition read_opt (h : rr_hdr) : option edns_info_t :=
  a ← rd msg (ttlp h); b ← rd msg (ttlp h + 1); c ← rd msg (ttlp h + 2);
  r ← rcode msg;
  Some (mkEdns (class h) (Z.lor (Z.shiftl a 4) r) b (Z.land (Z.shiftr c 7) 1)).
(** a record that is cached: the return code, and the array *)
Definition cache_record (oname : bytes) (h : rr_hdr) (p f queryts : Z) (a : cent_array) : Mem (retval * cent_array) :=
  x ← the (decode_rdata msg (type h) p (rdlength h));
  match x with
  | inr e => mret (RET e, a)
  | inl (STACK data) => rr_to_cache a oname (type h) (h_ttl h) data f queryts
  | inl (HEAP data) =>
      m ← malloc;
      match m with
      | None => mret (RC_FATALERR, a)
      | Some _ => rr_to_cache a oname (type h) (h_ttl h) data f queryts
      end
  end.
(** one record; the loop ends unless the result is [RC_OK] *)
Definition read_record (f queryts : Z) (s : section) : Mem (retval * section) :=
  x ← the (read_hdr (ptr s) (lcnt s));
  let '(p, cnt, y) := x in
  match y with
  | inr e => mret (RET e, mkSection p cnt (centa s) (numopt s) (ep s))
  | inl (oname, h) =>
      let next (a : cent_array) (n : Z) (e : edns_info_t) := mkSection (p + rdlength h) (cnt - rdlength h) a n e in
      if type h =? T_OPT then
        e ← (if numopt s =? 0 then the (read_opt h) else mret (ep s));
        mret (RET RC_OK, next (centa s) (numopt s + 1) e)
      else
        bad ← the (PDNSD_NOT_CACHED_TYPE (type h));
        if negb (bad || negb (class h =? C_IN)) then
          y ← cache_record oname h p f queryts (centa s);
          if is_ok y.1 then mret (RET RC_OK, next y.2 (numopt s) (ep s))
          else mret (y.1, mkSection p cnt y.2 (numopt s) (ep s))
        else mret (RET RC_OK, next (centa s) (numopt s) (ep s))
  end.
Fixpoint rrs2cent (recnum : nat) (f queryts : Z) (s : section) : Mem (retval * section) :=
  match recnum with
  | O => mret (RET RC_OK, s)
  | S n =>
      x ← read_record f queryts s;
      if is_ok x.1 then rrs2cent n f queryts x.2 else mret x
  end.
End response.
