(* ===== verification/DnsResponseSpec.v ===== *)
(** * The records of a response are decoded right

    What [rrs2cent] (file DnsResponse) has to put into the array of cache entries, as
    relations on the message that do not follow the code: the format of a record (RFC 1035,
    3.2.1 and 4.1.3) and the layouts of the data of the types that hold names.  [rrs2cent]
    succeeds exactly on sections in this format, and the array then holds every record. *)

From S2P Require Import Prelude CInt DnsName DnsCompress RrTypes RrList DnsHash DnsCent DnsCache Contract DnsCacheInv DnsCacheAdd DnsCacheOps DnsCacheSafe DnsCacheFile DnsCacheRead DnsResponse.

(** ** The format of the data *)

(** The parts of the data of a record: a name, a number of bytes, a string after its
    length, and what is left. *)
Inductive field := NAME | BYTES (n : Z) | STRING | REST.
(** From [off] to [fin] the message holds the parts [fs]; [d] is the data with the names
    written out. *)
Inductive parsed (msg : bytes) : list field → Z → Z → bytes → Prop :=
  | parsed_end off : parsed msg [] off off []
  | parsed_name off fin ls h n fs d :
      name_at msg off ls h n → h ≤ 255 → zlen (rhn ls) ≤ DNSNAMEBUFSIZE → off + n ≤ fin →
      parsed msg fs (off + n) fin d → parsed msg (NAME :: fs) off fin (rhn ls ++ d)
  | parsed_bytes off fin n fs d :
      off + n ≤ fin → parsed msg fs (off + n) fin d → parsed msg (BYTES n :: fs) off fin (slice off n msg ++ d)
  | parsed_string off fin n fs d :
      rd msg off = Some n → off + (1 + n) ≤ fin → parsed msg fs (off + (1 + n)) fin d → 0 ≤ n →
      parsed msg (STRING :: fs) off fin (slice off (1 + n) msg ++ d)
  | parsed_rest off fin : off ≤ fin → parsed msg [REST] off fin (slice off (fin - off) msg).

(** the layout of the data of a type at [off]; a key of IPSEC has a gateway of the type
    that its second byte says *)
Definition layout (msg : bytes) (type off : Z) : option (list field) :=
  if type =? T_A then Some [BYTES 4]
  else if one_of type [T_CNAME; T_MB; T_MD; T_MF; T_MG; T_MR; T_NS; T_PTR] then Some [NAME]
  else if one_of type [T_MINFO; T_RP] then Some [NAME; NAME]
  else if one_of type [T_MX; T_AFSDB; T_RT; T_KX] then Some [BYTES 2; NAME]
  else if type =? T_SOA then Some [NAME; NAME; BYTES 20]
  else if type =? T_AAAA then Some [BYTES 16]
  else if type =? T_PX then Some [BYTES 2; NAME; NAME]
  else if type =? T_SRV then Some [BYTES 6; NAME]
  else if type =? T_NXT then Some [NAME; REST]
  else if type =? T_NAPTR then Some [BYTES 4; STRING; STRING; STRING; NAME]
  else if type =? T_IPSECKEY then
    g ← rd msg (off + 1);
    if g =? 0 then Some [BYTES 3; REST] else if g =? 1 then Some [BYTES 3; BYTES 4; REST]
    else if g =? 2 then Some [BYTES 3; BYTES 16; REST] else if g =? 3 then Some [BYTES 3; NAME; REST] else None
  else if type =? T_RRSIG then Some [BYTES 18; NAME; REST]
  else if type =? T_NSEC then Some [NAME; REST]
  else Some [REST].
(** The data of a record of [type], from [off] to [fin], is [d]. *)
Definition canonical (msg : bytes) (type off fin : Z) (d : bytes) : Prop :=
  ∃ fs, layout msg type off = Some fs ∧ parsed msg fs off fin d ∧ (type = T_NXT → zlen d ≤ 1040).

(** ** The decoder *)

Definition data_of (r : rdata + rc) : option bytes := match r with inl (STACK d) | inl (HEAP d) => Some d | inr _ => None end.
(** [m] decodes what is described by [P]. *)
Definition decodes (m : option (rdata + rc)) (P : bytes → Prop) : Prop :=
  ∃ r, m = Some r ∧ r ≠ inr RC_OK ∧ ∀ d, data_of r = Some d ↔ P d.
Lemma decodes_iff m P P' : decodes m P → (∀ d, P d ↔ P' d) → decodes m P'.
Proof. intros (r & Hm & He & Hd) HP. exists r. split; [done|]. split; [done|]. intros d. by rewrite Hd. Qed.
Lemma decodes_error P : (∀ d, ¬ P d) → decodes format_error P.
Proof. intros H. exists (inr RC_FORMAT). split; [done|]. split; [done|]. intros d. split; [done|]. intros HP. by destruct (H d). Qed.
Lemma decodes_unless (c : bool) m P : (c = true → ∀ d, ¬ P d) → (c = false → decodes m P) → decodes (unless c m) P.
Proof. intros H1 H2. destruct c; [by apply decodes_error, H1|by apply H2]. Qed.

Lemma decompress_err msg src sz e : decompress_name msg src sz = Some (Err e) → e ≠ RC_OK.
Proof.
  assert (Hf : ∀ fuel lb lptr hops, follow_pointers fuel msg lb lptr hops ≠ Some (inr RC_OK)).
  { induction fuel as [|fuel IH]; intros lb lptr hops; cbn [follow_pointers]; [done|].
    repeat case_match; try done. destruct (rd msg lptr); cbn [mbind option_bind]; [|done]. case_match; [done|].
    destruct (rd msg _); cbn [mbind option_bind]; [apply IH|done]. }
  assert (Hj : ∀ fuel lptr hops tgt, decompress_jumped fuel msg lptr hops tgt ≠ Some (inr RC_OK)).
  { induction fuel as [|fuel IH]; intros lptr hops tgt; cbn [decompress_jumped]; [done|].
    destruct (rd msg lptr) as [lb|]; cbn [mbind option_bind]; [|done].
    destruct (follow_pointers 257 msg lb (lptr + 1) hops) as [[[[lb' lptr'] hops']|e']|] eqn:E; cbn [mbind option_bind]; [| |done].
    - destruct (push tgt lb'); cbn [mbind option_bind]; [|done]. repeat case_match; try done. destruct (copy_label _ _ _ _); cbn [mbind option_bind]; [apply IH|done].
    - intros [= ->]. by apply (Hf 257%nat lb (lptr + 1) hops). }
  assert (Hp : ∀ fuel lptr newsz tgt, decompress_plain fuel msg lptr newsz tgt ≠ Some (inr RC_OK)).
  { induction fuel as [|fuel IH]; intros lptr newsz tgt; cbn [decompress_plain]; [done|].
    destruct (rd msg lptr) as [lb|]; cbn [mbind option_bind]; [|done]. destruct (lb >? 63).
    - do 3 (case_match; [done|]). destruct (rd msg _) as [b|]; cbn [mbind option_bind]; [|done]. case_match; [done|].
      destruct (decompress_jumped _ _ _ _ _) as [[|e']|] eqn:E; cbn [mbind option_bind]; [done| |done]. intros [= ->]. by apply Hj in E.
    - destruct (push tgt lb); cbn [mbind option_bind]; [|done]. do 4 (case_match; [done|]).
      destruct (copy_label _ _ _ _); cbn [mbind option_bind]; [apply IH|done]. }
  unfold decompress_name. destruct (sz =? 0); [by intros [= <-]|]. destruct (src >=? zlen msg); [by intros [= <-]|].
  specialize (Hp 257%nat src sz []). destruct (decompress_plain _ _ _ _ _) as [[[]|e']|]; cbn [mbind option_bind]; [done| |done].
  by intros [= ->] ->.
Qed.

Section decode.
Context (msg : bytes) (Hmsg : bytes_ok msg).

(** The decoder is inside of the data, which ends at [fin]. *)
Record valid (d : decoder) (fin : Z) : Prop := {
  valid_ptr : 0 ≤ bptr d;
  valid_cnt : 0 ≤ blcnt d;
  valid_fin : bptr d + blcnt d = fin;
  valid_msg : fin ≤ zlen msg;
}.
(** After [pre] come the parts [fs]. *)
Definition after (pre : bytes) (fs : list field) (off fin : Z) (D : bytes) : Prop := ∃ d, parsed msg fs off fin d ∧ D = pre ++ d.

Lemma copy_ok p n : 0 ≤ p → 0 ≤ n → p + n ≤ zlen msg → copy msg p n = Some (slice p n msg).
Proof. intros. unfold copy. by replace ((0 <=? p) && (0 <=? n) && (p + n <=? zlen msg)) with true by lia. Qed.
Lemma name_at_bytes off ls h n : name_at msg off ls h n → Forall label_ok ls.
Proof.
  induction 1 as [|off l ls h n _ Hl _ _ Hs _ IH|]; [constructor| |done]. constructor; [|done]. split; [done|]. rewrite <-Hs. by apply bytes_ok_slice.
Qed.
Lemma name_step c size d fin fs k :
  valid d fin → zlen (db d) + DNSNAMEBUFSIZE ≤ size →
  (∀ d', valid d' fin → zlen (db d) ≤ zlen (db d') ≤ zlen (db d) + DNSNAMEBUFSIZE → decodes (k d') (after (c ++ db d') fs (bptr d') fin)) →
  decodes (try d' ⇐ get_name msg size d; k d') (after (c ++ db d) (NAME :: fs) (bptr d) fin).
Proof.
  intros [Hp Hc Hf Hl] Hsz Hk. unfold get_name, tbind. replace (zlen (db d) + DNSNAMEBUFSIZE <=? size) with true by lia.
  destruct (decompress_name_names msg (bptr d) (blcnt d) Hmsg Hp Hc) as (r & Hr & Hiff). rewrite Hr. cbn [mbind option_bind].
  destruct r as [used name|e].
  - destruct (proj1 (Hiff used name) eq_refl) as (ls & h & Hat & Hh & Hu & -> & Hn). pose proof (name_at_bound _ _ _ _ _ Hat) as (_ & _ & Hn1).
    cbn [ok mbind option_bind]. eapply decodes_iff; [apply Hk|].
    + split; cbn [bptr blcnt]; lia.
    + cbn [db]. rewrite zlen_app. pose proof (zlen_nonneg (rhn ls)). lia.
    + cbn [db bptr]. intros D. unfold after. split.
      * intros (x & Hx & ->). exists (rhn ls ++ x). split; [|by rewrite <-!app_assoc]. eapply parsed_name; [exact Hat|done|done|lia|done].
      * intros (x & Hx & ->). inversion Hx as [|? ? ls' h' n' ? x' Hat' Hh' Hz' Hn' Hx'| | |]; subst.
        assert (He : Ok used (rhn ls) = Ok n' (rhn ls')) by (apply Hiff; exists ls', h'; split_and!; done || lia).
        injection He as -> ->. exists x'. by rewrite <-!app_assoc.
  - assert (Hne : ∀ D, ¬ after (c ++ db d) (NAME :: fs) (bptr d) fin D).
    { intros D (x & Hx & _). inversion Hx as [|? ? ls' h' n' ? x' Hat' Hh' Hz' Hn' Hx'| | |]; subst.
      assert (He : Err e = Ok n' (rhn ls')) by (apply Hiff; exists ls', h'; split_and!; done || lia). done. }
    pose proof (decompress_err _ _ _ _ Hr) as Hok. destruct e; [done|by apply decodes_error|by apply decodes_error].
Qed.
Lemma bytes_step size n d fin fs k :
  valid d fin → 0 ≤ n → zlen (db d) + n ≤ size →
  (∀ d', n ≤ blcnt d → valid d' fin → zlen (db d') = zlen (db d) + n → blcnt d' = blcnt d - n → decodes (k d') (after (db d') fs (bptr d') fin)) →
  decodes (unless (blcnt d <? n) (try d' ⇐ get_bytes msg size n d; k d')) (after (db d) (BYTES n :: fs) (bptr d) fin).
Proof.
  intros [Hp Hc Hf Hl] Hn Hsz Hk. apply decodes_unless.
  - intros Hlt D (x & Hx & _). inversion Hx; subst. lia.
  - intros Hge. unfold get_bytes, tbind. replace (zlen (db d) + n <=? size) with true by lia. rewrite copy_ok by lia. cbn [mbind option_bind ok].
    eapply decodes_iff; [apply Hk|].
    + lia.
    + split; cbn [bptr blcnt]; lia.
    + cbn [db]. rewrite zlen_app, zlen_slice by lia. done.
    + done.
    + cbn [db bptr]. intros D. unfold after. split.
      * intros (x & Hx & ->). exists (slice (bptr d) n msg ++ x). split; [|by rewrite app_assoc]. apply parsed_bytes; [lia|done].
      * intros (x & Hx & ->). inversion Hx; subst. eexists. split; [done|]. by rewrite app_assoc.
Qed.
Lemma finish_step d fin : valid d fin → decodes (finish d) (after (db d) [] (bptr d) fin).
Proof.
  intros [Hp Hc Hf Hl]. apply decodes_unless.
  - intros Hne D (x & Hx & _). inversion Hx; subst. lia.
  - intros Heq. exists (inl (STACK (db d))). split; [done|]. split; [done|]. intros D. cbn. unfold after. split.
    + intros [= <-]. exists []. split; [|by rewrite app_nil_r]. replace fin with (bptr d) by lia. constructor.
    + intros (x & Hx & ->). inversion Hx; subst. by rewrite app_nil_r.
Qed.
Lemma default_step off len : 0 ≤ off → 0 ≤ len → off + len ≤ zlen msg → decodes (default_case msg off len) (λ D, D = slice off len msg).
Proof.
  intros Ho Hl Hm. unfold default_case. rewrite copy_ok by lia. cbn [mbind option_bind]. eexists. split; [done|]. split; [done|].
  cbn. intros D. split; [by intros [= <-]|by intros ->].
Qed.
Lemma parsed_all off fin d : off ≤ fin → parsed msg [REST] off fin d ↔ d = slice off (fin - off) msg.
Proof. intros Ho. split; [intros Hx; by inversion Hx|intros ->; by constructor]. Qed.

(** The strings of a NAPTR record. *)
Lemma strings_start j off fin x : parsed msg (replicate j STRING ++ [NAME]) off fin x → off ≤ fin.
Proof.
  destruct j; cbn [replicate app]; intros Hx.
  - inversion Hx as [|? ? ls' h' n' ? x' Hat'| | |]; subst. apply name_at_bound in Hat'. lia.
  - inversion Hx as [| | |? ? n ? x' Hr Hn|]; subst. pose proof (rd_byte _ _ _ Hmsg Hr). lia.
Qed.
Lemma naptr_step j d fin len (K : Z → option (rdata + rc)) :
  valid d fin → 0 ≤ len →
  (∀ n, 0 ≤ n ≤ blcnt d → n ≤ len + 256 * Z.of_nat j → decodes (K n) (after (slice (bptr d) n msg) [NAME] (bptr d + n) fin)) →
  decodes (try n ⇐ naptr_len msg j d len; unless (n >? blcnt d) (K n))
    (after (slice (bptr d) len msg) (replicate j STRING ++ [NAME]) (bptr d + len) fin).
Proof.
  intros Hv Hlen HK. revert len Hlen HK. pose proof Hv as [Hp Hc Hf Hl]. induction j as [|j IH]; intros len Hlen HK; cbn [naptr_len replicate app].
  - unfold tbind. cbn [ok mbind option_bind]. apply decodes_unless; [|intros; apply HK; lia].
    intros Hgt D (x & Hx & _). inversion Hx as [|? ? ls' h' n' ? x' Hat'| | |]; subst. apply name_at_bound in Hat'. lia.
  - assert (Hno : len >=? blcnt d = true → ∀ D, ¬ after (slice (bptr d) len msg) (STRING :: replicate j STRING ++ [NAME]) (bptr d + len) fin D).
    { intros Hge D (x & Hx & _). inversion Hx as [| | |? ? n ? x' Hr Hn|]; subst. pose proof (rd_byte _ _ _ Hmsg Hr). lia. }
    destruct (len >=? blcnt d) eqn:Hge; cbn [unless]; [apply decodes_error; by apply Hno|].
    destruct (rd_Some msg (bptr d + len)) as [b Hb]; [lia|]. rewrite Hb. cbn [mbind option_bind]. pose proof (rd_byte _ _ _ Hmsg Hb) as Hbr.
    eapply decodes_iff; [apply (IH (len + (b + 1))); [lia|intros n ? ?; apply HK; lia]|]. intros D. unfold after.
    assert (Hs : slice (bptr d) (len + (b + 1)) msg = slice (bptr d) len msg ++ slice (bptr d + len) (1 + b) msg).
    { rewrite slice_split by lia. by rewrite (Z.add_comm b 1). }
    split.
    + intros (x & Hx & ->). exists (slice (bptr d + len) (1 + b) msg ++ x). split; [|by rewrite Hs, app_assoc].
      apply parsed_string; [done| |by replace (bptr d + len + (1 + b)) with (bptr d + (len + (b + 1))) by lia|lia].
      apply strings_start in Hx. lia.
    + intros (x & Hx & ->). inversion Hx as [| | |? ? n ? x' Hr Hn Hx'|]; subst. rewrite Hb in Hr. injection Hr as <-.
      exists x'. split; [by replace (bptr d + (len + (b + 1))) with (bptr d + len + (1 + b)) by lia|]. by rewrite Hs, app_assoc.
Qed.
(** A name that may not be compressed. *)
Lemma normal_step ptr pre rdlength :
  0 ≤ ptr → 0 ≤ pre ≤ rdlength → ptr + rdlength ≤ zlen msg →
  let d := mkDec (ptr + pre) (rdlength - pre) [] in
  decodes (n ← is_normal msg d; if n : bool then default_case msg ptr rdlength else rdata_compressed msg ptr pre d)
    (after (slice ptr pre msg) [NAME; REST] (ptr + pre) (ptr + rdlength)).
Proof.
  intros Hp Hpre Hl d. unfold is_normal. cbn [bptr blcnt d].
  destruct (isnormalencdomname_spec (zdrop (ptr + pre) msg) (rdlength - pre)) as (r & -> & Hr).
  { by apply bytes_ok_drop. } { rewrite zlen_zdrop; lia. }
  cbn [mbind option_bind]. destruct r.
  - destruct (proj1 Hr eq_refl) as (ls & rest & Hd & [Hls Hn] & Hle). eapply decodes_iff; [apply default_step; lia|]. intros D.
    assert (Hat : name_at msg (ptr + pre) ls 0 (zlen (rhn ls))).
    { pose proof (name_at_labels ls (ztake (ptr + pre) msg) (0 :: rest) [] 0 1 Hls) as H. rewrite app_nil_r in H.
      assert (Hm : ztake (ptr + pre) msg ++ rhn_labels ls ++ 0 :: rest = msg).
      { rewrite <-(ztake_zdrop (ptr + pre) msg) at 2. rewrite Hd. unfold rhn. by rewrite <-app_assoc. }
      rewrite Hm, zlen_ztake in H by lia. replace (Z.min (ptr + pre) (zlen msg)) with (ptr + pre) in H by lia. rewrite zlen_rhn. apply H.
      apply name_root. rewrite <-Hm. replace (ptr + pre) with (zlen (ztake (ptr + pre) msg)) at 2 by (rewrite zlen_ztake; lia).
      rewrite app_assoc, <-zlen_app. apply rd_text_end. }
    assert (Hsl : slice (ptr + pre) (rdlength - pre) msg = rhn ls ++ slice (ptr + pre + zlen (rhn ls)) (rdlength - pre - zlen (rhn ls)) msg).
    { pose proof (zlen_nonneg (rhn ls)). replace (rdlength - pre) with (zlen (rhn ls) + (rdlength - pre - zlen (rhn ls))) at 1 by lia.
      rewrite slice_split by lia. f_equal. unfold slice. rewrite Hd. apply ztake_app_length. }
    assert (Hall : slice ptr rdlength msg = slice ptr pre msg ++ rhn ls ++ slice (ptr + pre + zlen (rhn ls)) (rdlength - pre - zlen (rhn ls)) msg).
    { rewrite <-Hsl, <-slice_split by lia. f_equal. lia. }
    rewrite Hall. split.
    + intros ->. eexists. split; [|done]. eapply parsed_name; [exact Hat|done|done|lia|]. apply parsed_all; [lia|]. f_equal. lia.
    + intros (x & Hx & ->). inversion Hx as [|? ? ls' h' n' ? x' Hat' Hh' Hz' Hn' Hx'| | |]; subst.
      destruct (decompress_name_names msg (ptr + pre) (rdlength - pre) Hmsg ltac:(lia) ltac:(lia)) as (q & _ & Hq).
      assert (H1 : q = Ok (zlen (rhn ls)) (rhn ls)) by (apply Hq; exists ls, 0; split_and!; done || lia).
      assert (H2 : q = Ok n' (rhn ls')) by (apply Hq; exists ls', h'; split_and!; done || lia). rewrite H1 in H2. injection H2 as <- <-.
      apply parsed_all in Hx'; [|lia]. subst x'. do 3 f_equal. lia.
  - unfold rdata_compressed. rewrite copy_ok by lia. cbn [mbind option_bind].
    assert (Hv : valid d (ptr + rdlength)) by (split; cbn [bptr blcnt d]; lia).
    eapply decodes_iff; [apply (name_step (slice ptr pre msg) DNSNAMEBUFSIZE d (ptr + rdlength) [REST]); [done|done|]|
      intros D; cbn [db d bptr]; by rewrite app_nil_r].
    intros d' [Hp' Hc' Hf' Hl'] _. rewrite copy_ok by lia. cbn [mbind option_bind]. eexists. split; [done|]. split; [done|]. cbn. intros D. split.
    + intros [= <-]. eexists. split; [apply parsed_all; [lia|done]|]. rewrite <-app_assoc. do 3 f_equal. lia.
    + intros (x & Hx & ->). apply parsed_all in Hx; [|lia]. subst x. rewrite <-app_assoc. do 4 f_equal. lia.
Qed.

Ltac dec_step :=
  first
    [ apply (name_step []); [done|unfold DNSNAMEBUFSIZE in *; lia|intros ? ? ?]
    | apply bytes_step; [done|lia|unfold DNSNAMEBUFSIZE in *; lia|intros ? ? ? ? ?]
    | by apply finish_step ].
Lemma rest_step pre off len :
  0 ≤ off → 0 ≤ pre ≤ len → off + len ≤ zlen msg →
  decodes (default_case msg off len) (after (slice off pre msg) [REST] (off + pre) (off + len)).
Proof.
  intros Ho Hp Hl. eapply decodes_iff; [apply default_step; lia|]. intros D. unfold after.
  assert (Hs : slice off len msg = slice off pre msg ++ slice (off + pre) (len - pre) msg).
  { rewrite <-slice_split by lia. f_equal. lia. }
  rewrite Hs. split.
  - intros ->. eexists. split; [apply parsed_all; [lia|done]|]. do 2 f_equal. lia.
  - intros (x & Hx & ->). apply parsed_all in Hx; [|lia]. subst x. do 2 f_equal. lia.
Qed.
(** A number of bytes in front, which the code skips. *)
Lemma after_bytes pre n fs off fin D :
  0 ≤ off → 0 ≤ n → 0 ≤ pre → off + pre + n ≤ fin →
  after (slice off pre msg) (BYTES n :: fs) (off + pre) fin D ↔ after (slice off (pre + n) msg) fs (off + (pre + n)) fin D.
Proof.
  intros Ho Hn Hp Hf. unfold after. rewrite slice_split, !Z.add_assoc by lia. split.
  - intros (x & Hx & ->). inversion Hx; subst. eexists. split; [done|]. by rewrite <-app_assoc.
  - intros (x & Hx & ->). exists (slice (off + pre) n msg ++ x). split; [by constructor|]. by rewrite <-app_assoc.
Qed.
Lemma after_short pre n fs off fin D : fin < off + pre + n → ¬ after (slice off pre msg) (BYTES n :: fs) (off + pre) fin D.
Proof. intros H (x & Hx & _). inversion Hx; subst. lia. Qed.
Lemma skip_step n fs off len m :
  0 ≤ off → 0 ≤ n → 0 ≤ len → (off + len < off + n → ∀ x, ¬ parsed msg fs (off + n) (off + len) x) →
  decodes m (after (slice off n msg) fs (off + n) (off + len)) → decodes m (after [] (BYTES n :: fs) off (off + len)).
Proof.
  intros Ho Hn Hl Hshort Hm. eapply decodes_iff; [exact Hm|]. intros D. destruct (Z.lt_ge_cases len n) as [Hlt|Hge].
  - split; [intros (x & Hx & _); by apply Hshort in Hx; [|lia]|intros (x & Hx & _); inversion Hx; subst; lia].
  - pose proof (after_bytes 0 n fs off (off + len) D Ho Hn ltac:(lia) ltac:(lia)) as H. rewrite Z.add_0_r in H. cbn [Z.add] in H. by rewrite H.
Qed.
Lemma ipseckey_step off len :
  0 ≤ off → 0 ≤ len → off + len ≤ zlen msg → decodes (rdata_ipseckey msg off len) (λ D, ∃ fs, layout msg T_IPSECKEY off = Some fs ∧ parsed msg fs off (off + len) D).
Proof.
  intros Ho Hl Hm. unfold rdata_ipseckey. cbn [layout]. unfold layout. cbn [Z.eqb Pos.eqb one_of existsb orb T_A T_CNAME T_MB T_MD T_MF T_MG T_MR T_NS T_PTR
    T_MINFO T_RP T_MX T_AFSDB T_RT T_KX T_SOA T_AAAA T_PX T_SRV T_NXT T_NAPTR T_IPSECKEY].
  apply decodes_unless.
  { intros Hlt D (fs & Hfs & Hx). destruct (rd msg (off + 1)) as [g|]; [|done]. cbn [mbind option_bind] in Hfs.
    repeat case_match; simplify_eq; inversion Hx; subst; lia. }
  intros Hge. destruct (rd_Some msg (off + 1)) as [g Hg]; [lia|]. rewrite Hg. cbn [mbind option_bind].
  assert (Hlift : ∀ fs (m : option (rdata + rc)), decodes m (after (slice off 3 msg) fs (off + 3) (off + len)) →
    decodes m (λ D, ∃ fs', Some (BYTES 3 :: fs) = Some fs' ∧ parsed msg fs' off (off + len) D)).
  { intros fs m Hdec. eapply decodes_iff; [exact Hdec|]. intros D. pose proof (after_bytes 0 3 fs off (off + len) D Ho ltac:(lia) ltac:(lia) ltac:(lia)) as H.
    rewrite Z.add_0_r in H. change (slice off 0 msg) with (@nil Z) in H. change (0 + 3) with 3 in H. rewrite <-H. unfold after. split.
    - intros (x & Hx & ->). by exists (BYTES 3 :: fs).
    - intros (fs' & [= <-] & Hx). by exists D. }
  assert (Hfix : ∀ n, 0 ≤ n → decodes (unless (blcnt (mkDec (off + 3) (len - 3) []) <? n) (default_case msg off len))
    (after (slice off 3 msg) [BYTES n; REST] (off + 3) (off + len))).
  { intros n Hn. apply decodes_unless; cbn [blcnt]; [intros Hlt D; apply after_short; lia|]. intros Hn'.
    eapply decodes_iff; [apply (rest_step (3 + n)); lia|]. intros D. rewrite after_bytes by lia. done. }
  destruct (g =? 0); [apply Hlift, rest_step; lia|]. destruct (g =? 1); [by apply Hlift, Hfix|]. destruct (g =? 2); [by apply Hlift, Hfix|].
  destruct (g =? 3); [|apply decodes_error; by intros D (? & ? & _)]. apply Hlift. apply normal_step; lia.
Qed.

Lemma canonical_after type off fin fs m :
  layout msg type off = Some fs → type ≠ T_NXT → decodes m (after [] fs off fin) → decodes m (canonical msg type off fin).
Proof.
  intros Hfs Hn Hm. eapply decodes_iff; [exact Hm|]. intros D. unfold after, canonical. split.
  - intros (x & Hx & ->). exists fs. by split.
  - intros (fs' & Hfs' & Hx & _). rewrite Hfs in Hfs'. injection Hfs' as <-. by exists D.
Qed.
Lemma whole_step n off len :
  0 ≤ off → 0 ≤ n → 0 ≤ len → off + len ≤ zlen msg →
  decodes (unless (negb (len =? n)) (default_case msg off len)) (after [] [BYTES n] off (off + len)).
Proof.
  intros Ho Hn0 Hl Hm. apply decodes_unless.
  - intros Hne D (x & Hx & _). inversion Hx as [| |? ? ? ? d Hle Hd| |]; subst. inversion Hd; subst. lia.
  - intros He. assert (len = n) as -> by lia. eapply decodes_iff; [apply default_step; lia|]. intros D. unfold after. split.
    + intros ->. exists (slice off n msg ++ []). split; [constructor; [lia|constructor]|by rewrite app_nil_r].
    + intros (x & Hx & ->). inversion Hx as [| |? ? ? ? d Hle Hd| |]; subst. inversion Hd; subst. cbn [app]. apply app_nil_r.
Qed.
Lemma nxt_step off len :
  0 ≤ off → 0 ≤ len → off + len ≤ zlen msg → decodes (rdata_nxt msg (mkDec off len [])) (canonical msg T_NXT off (off + len)).
Proof.
  intros Ho Hl Hm. set (d := mkDec off len []). assert (Hv : valid d (off + len)) by (by split).
  assert (He : ∀ D, canonical msg T_NXT off (off + len) D ↔ after [] [NAME; REST] off (off + len) D ∧ zlen D ≤ 1040).
  { intros D. unfold after, canonical. split.
    - intros (fs & [= <-] & Hx & Hz). split; [by exists D|by apply Hz].
    - intros [(x & Hx & ->) Hz]. exists [NAME; REST]. by split. }
  (* the limit is checked before the rest is copied *)
  assert (Hd : ∃ r, rdata_nxt msg d = Some r ∧ r ≠ inr RC_OK ∧ ∀ D, data_of r = Some D ↔ after [] [NAME; REST] off (off + len) D ∧ zlen D ≤ 1040).
  2: { destruct Hd as (r & Hr & Hok & Hiff). exists r. split; [done|]. split; [done|]. intros D. by rewrite Hiff, He. }
  unfold rdata_nxt, get_name, tbind. cbn [db d bptr blcnt]. change (zlen (@nil Z) + DNSNAMEBUFSIZE <=? 1040) with true. cbn iota.
  destruct (decompress_name_names msg off len Hmsg Ho Hl) as (r & Hr & Hiff). rewrite Hr. cbn [mbind option_bind].
  assert (Hname : ∀ D, after [] [NAME; REST] off (off + len) D ↔ ∃ ls n, r = Ok n (rhn ls) ∧ 0 ≤ n ≤ len ∧ D = rhn ls ++ slice (off + n) (len - n) msg).
  { intros D. unfold after. split.
    - intros (x & Hx & ->). inversion Hx as [|? ? ls' h' n' ? x' Hat' Hh' Hz' Hn' Hx'| | |]; subst. pose proof (name_at_bound _ _ _ _ _ Hat') as (_ & _ & Hn1).
      apply parsed_all in Hx'; [|lia]. subst x'. exists ls', n'. split; [apply Hiff; exists ls', h'; split_and!; done || lia|]. split; [lia|].
      cbn [app]. do 2 f_equal. lia.
    - intros (ls & n & Hok & Hn & ->). destruct (proj1 (Hiff n (rhn ls)) Hok) as (ls0 & h & Hat & Hh & Hu & He0 & Hz). rewrite He0 in *. eexists. split; [|done].
      eapply parsed_name; [exact Hat|done|done|lia|]. apply parsed_all; [lia|]. f_equal. lia. }
  destruct r as [used name|e].
  - destruct (proj1 (Hiff used name) eq_refl) as (ls & h & Hat & Hh & Hu & -> & Hz). pose proof (name_at_bound _ _ _ _ _ Hat) as (_ & _ & Hn1).
    cbn [ok mbind option_bind db blcnt bptr app]. assert (Huniq : ∀ D, after [] [NAME; REST] off (off + len) D ↔ D = rhn ls ++ slice (off + used) (len - used) msg).
    { intros D. rewrite Hname. split; [intros (ls' & n' & [= <- He2] & _ & ->); by rewrite He2|intros ->; exists ls, used; split_and!; done || lia]. }
    assert (Hlen : zlen (rhn ls ++ slice (off + used) (len - used) msg) = zlen (rhn ls) + (len - used)) by (rewrite zlen_app, zlen_slice by lia; done).
    destruct (zlen (rhn ls) + (len - used) >? 1040) eqn:Hbig; cbn [unless].
    + exists (inr RC_FORMAT). split; [done|]. split; [done|]. intros D. rewrite Huniq. split; [done|]. intros [-> Hz2]. rewrite Hlen in Hz2. lia.
    + unfold get_bytes. cbn [db bptr blcnt]. replace (zlen (rhn ls) + (len - used) <=? 1040) with true by lia. rewrite copy_ok by lia.
      cbn [mbind option_bind ok db]. eexists. split; [done|]. split; [done|]. intros D. rewrite Huniq. cbn. split; [intros [= <-]; split; [done|lia]|by intros [-> _]].
  - assert (Hno : ∀ D, ¬ after [] [NAME; REST] off (off + len) D) by (intros D (? & ? & ? & _)%Hname; done).
    pose proof (decompress_err _ _ _ _ Hr) as Hok. destruct e; [done| |].
    all: eexists; split; [done|]; split; [done|]; intros D; split; [done|intros [Ha _]; by destruct (Hno D)].
Qed.
Lemma decode_rdata_spec type off len :
  0 ≤ off → 0 ≤ len → off + len ≤ zlen msg → decodes (decode_rdata msg type off len) (canonical msg type off (off + len)).
Proof.
  intros Ho Hl Hm. set (d := mkDec off len []). assert (Hv : valid d (off + len)) by (by split).
  assert (Hnxt : ∀ l, one_of type l = true → one_of T_NXT l = false → type ≠ T_NXT).
  { intros l H1 H2 ->. congruence. }
  assert (Hlay : ∀ fs, layout msg type off = Some fs → layout msg type off = Some fs) by done. unfold layout at 1 in Hlay.
  assert (Hd0 : zlen (db d) = 0) by done. unfold decode_rdata. fold d. destruct (Z.eqb_spec type T_A) as [->|]; [apply (canonical_after _ _ _ [BYTES 4]); [done|done|by apply whole_step]|].
  destruct (one_of type [T_CNAME; _; _; _; _; _; _; _]) eqn:E1.
  { apply (canonical_after _ _ _ _ _ (Hlay _ eq_refl)); [by eapply Hnxt|]. unfold rdata_name. repeat dec_step. }
  destruct (one_of type [T_MINFO; _]) eqn:E2.
  { apply (canonical_after _ _ _ _ _ (Hlay _ eq_refl)); [by eapply Hnxt|]. unfold rdata_minfo. cbv zeta. repeat dec_step. }
  destruct (one_of type [T_MX; _; _; _]) eqn:E3.
  { apply (canonical_after _ _ _ _ _ (Hlay _ eq_refl)); [by eapply Hnxt|]. unfold rdata_mx. cbv zeta. repeat dec_step. }
  destruct (Z.eqb_spec type T_SOA) as [->|]; [apply (canonical_after _ _ _ [NAME; NAME; BYTES 20]); [done|done|unfold rdata_soa; cbv zeta; repeat dec_step]|].
  destruct (Z.eqb_spec type T_AAAA) as [->|]; [apply (canonical_after _ _ _ [BYTES 16]); [done|done|by apply whole_step]|].
  destruct (Z.eqb_spec type T_PX) as [->|]; [apply (canonical_after _ _ _ [BYTES 2; NAME; NAME]); [done|done|unfold rdata_px; cbv zeta; repeat dec_step]|].
  destruct (Z.eqb_spec type T_SRV) as [->|]; [apply (canonical_after _ _ _ [BYTES 6; NAME]); [done|done|unfold rdata_srv; cbv zeta; repeat dec_step]|].
  destruct (Z.eqb_spec type T_NXT) as [->|Hn]; [by apply nxt_step|].
  destruct (Z.eqb_spec type T_NAPTR) as [->|].
  { apply (canonical_after _ _ _ [BYTES 4; STRING; STRING; STRING; NAME]); [done|done|].
    apply skip_step; [done|done|lia| |].
    - intros Hlt x Hx. apply (strings_start 3) in Hx. lia.
    - apply (naptr_step 3 d (off + len) 4); [done|done|]. intros k Hk Hle. cbn [bptr d]. unfold tbind at 1. unfold get_bytes.
      change (zlen (db d)) with 0. replace (0 + k <=? 4 + 3 * 256 + DNSNAMEBUFSIZE) with true by (unfold DNSNAMEBUFSIZE; lia).
      cbn [bptr blcnt d]. cbn [blcnt d] in Hk. rewrite copy_ok by lia. cbn [mbind option_bind ok db app].
      pose proof (zlen_slice off k msg Ho ltac:(lia) ltac:(lia)) as Hz. set (d' := mkDec (off + k) (len - k) (slice off k msg)).
      apply (name_step [] _ d' (off + len) []); [split; cbn [bptr blcnt d']; lia|cbn [db d']; unfold DNSNAMEBUFSIZE; lia|]. intros. by apply finish_step. }
  destruct (Z.eqb_spec type T_IPSECKEY) as [->|].
  { eapply decodes_iff; [by apply ipseckey_step|]. intros D. unfold canonical. split; intros (fs & Hfs & Hx); exists fs; [done|]. by destruct Hx. }
  destruct (Z.eqb_spec type T_RRSIG) as [->|].
  { apply (canonical_after _ _ _ [BYTES 18; NAME; REST]); [done|done|]. unfold rdata_rrsig. apply decodes_unless.
    { intros Hlt D (x & Hx & _). inversion Hx; subst. lia. }
    intros Hge. apply skip_step; [done|done|lia|lia|]. apply (normal_step off 18 len); lia. }
  destruct (Z.eqb_spec type T_NSEC) as [->|].
  { apply (canonical_after _ _ _ [NAME; REST]); [done|done|]. unfold rdata_nsec, d.
    pose proof (normal_step off 0 len Ho ltac:(lia) Hm) as H. cbv zeta in H. rewrite Z.add_0_r, Z.sub_0_r in H. exact H. }
  apply (canonical_after _ _ _ _ _ (Hlay _ eq_refl)); [done|]. pose proof (rest_step 0 off len Ho ltac:(lia) Hm) as H. rewrite Z.add_0_r in H. exact H.
Qed.
End decode.
