(* ===== verification/DnsResponseCache.v ===== *)
(** * A response becomes cache entries

    [rr_to_cache] and [rrs2cent] (file DnsResponse): whatever a server sends, the array
    holds well-formed entries with different names; when the section is in the format of
    file DnsResponseSpec, the array holds what its records say. *)

From S2P Require Import Prelude CInt DnsName DnsCompress RrTypes RrList DnsHash DnsCent DnsCache Contract DnsCacheInv DnsCacheAdd DnsCacheOps DnsCacheSafe DnsCacheFile DnsCacheRead DnsCacheDisk DnsCacheReload DnsResponse DnsResponseSpec.

(** ** What the records say *)

Record crec := mkRec { r_name : list bytes; r_type : Z; r_ttl : Z; r_data : bytes; r_flags : Z; r_ts : Z }.
(** The set of a name and a type holds the data of the records in their order, each once;
    its time to live is the smallest of theirs. *)
Definition add_record (v : option rr_set_t) (r : crec) : option rr_set_t :=
  Some match v with
  | None => mkSet 0 None (r_ttl r) (r_ts r) (r_flags r) [r_data r]
  | Some s => mkSet 0 None (Z.min (r_ttl r) (ttl s)) (ts s) (flags s) (if bool_decide (r_data r ∈ rrs s) then rrs s else rrs s ++ [r_data r])
  end.
Definition of_set (nm : list bytes) (tp : Z) (r : crec) : Prop := same_name (r_name r) nm ∧ r_type r = tp.
#[export] Instance of_set_dec nm tp r : Decision (of_set nm tp r).
Proof. unfold of_set. apply _. Defined.
Definition expected (recs : list crec) (nm : list bytes) (tp : Z) : option rr_set_t := foldl add_record None (filter (of_set nm tp) recs).

Lemma expected_snoc recs r nm tp :
  expected (recs ++ [r]) nm tp = if decide (of_set nm tp r) then add_record (expected recs nm tp) r else expected recs nm tp.
Proof.
  unfold expected. rewrite list.filter_app, foldl_app, (list.filter_cons _ r []). by destruct (decide (of_set nm tp r)).
Qed.
Lemma expected_same recs nm nm' tp : same_name nm nm' → expected recs nm tp = expected recs nm' tp.
Proof.
  intros Hs. unfold expected. f_equal. apply list_filter_iff. intros r. unfold of_set. by rewrite Hs.
Qed.
Lemma expected_none recs nm tp : fold_name nm ∉ map (λ r, fold_name (r_name r)) recs → expected recs nm tp = None.
Proof.
  intros Hn. unfold expected. destruct (filter (of_set nm tp) recs) as [|r l] eqn:E; [done|]. exfalso. apply Hn.
  assert (Hr : r ∈ filter (of_set nm tp) recs) by (rewrite E; by left). apply list_elem_of_filter in Hr as [[Hs _] Hr].
  apply list_elem_of_fmap. by exists r.
Qed.

(** ** The array *)

Record good_entry (nm : list bytes) (c : dns_cent_t) : Prop := {
  ge_named : named nm c;
  ge_det : detached c;
  ge_flags : c_flags c = 0;
}.
Record entries (nms : list (list bytes)) (l : list dns_cent_t) : Prop := {
  en_good : Forall2 good_entry nms l;
  en_names : NoDup (map fold_name nms);
}.
(** The entries [l] hold what the records [recs] say. *)
Record collected (nms : list (list bytes)) (l : list dns_cent_t) (recs : list crec) : Prop := {
  co_entries : entries nms l;
  co_sets i nm c tp k : nms !! i = Some nm → l !! i = Some c → cached tp k → view (slot c k) = expected recs nm tp;
  co_from nm : nm ∈ nms → ∃ r, r ∈ recs ∧ same_name (r_name r) nm;
  co_all r : r ∈ recs → fold_name (r_name r) ∈ map fold_name nms;
}.
Lemma collected_nil : collected [] [] [].
Proof.
  split; [split; constructor|done| |]; intros ? Hin; by apply not_elem_of_nil in Hin.
Qed.

(** Adding a record to an entry leaves its flags. *)
Lemma link_rr_flags c i data rtail m x m' es : link_rr c i data rtail m = Some (x, m', es) → c_flags x.2 = c_flags c.
Proof. intros H. by apply link_rr_meta in H as [? _]. Qed.
Lemma add_rr_int_flags c i t s f data rtail m x m' es :
  negative c = false → add_cent_rr_int c i t s f data rtail m = Some (x, m', es) → c_flags x.2 = c_flags c.
Proof.
  intros Hn. unfold add_cent_rr_int. intros ([b|] & m1 & e1 & e2 & _ & H & _)%M_bind_Some; [|by injection H as <- _ _].
  apply M_bind_Some in H as ([ok c1] & m2 & e3 & e4 & Hc & H & _). assert (Hf : c_flags c1 = c_flags c).
  { destruct rtail; [by injection Hc as _ <- _ _|]. apply M_bind_Some in Hc as (v & m3 & e5 & e6 & _ & Hc & _).
    destruct v; [by injection Hc as _ <- _ _|]. apply (add_set_meta _ _ _ _ _ _ _ _ _ Hn) in Hc as [? _]. done. }
  destruct ok; [|by injection H as <- _ _].
  apply M_bind_Some in H as ([k c2] & m4 & e7 & e8 & Hm%link_rr_flags & H & _). injection H as <- _ _. cbn [snd add_cs c_flags] in *. congruence.
Qed.
Lemma add_rr_flags c type t s f data m x m' es :
  negative c = false → add_cent_rr c type t s f data m = Some (x, m', es) → c_flags x.2 = c_flags c.
Proof.
  intros Hn. unfold add_cent_rr. destruct (_ && _); [intros H; by injection H as <- _ _|].
  intros ([] & m1 & e1 & e2 & _ & H & _)%M_bind_Some. apply M_bind_Some in H as (k & m2 & e3 & e4 & _ & H & _).
  apply M_bind_Some in H as ([] & m3 & e5 & e6 & _ & H & _). apply M_bind_Some in H as (v & m4 & e7 & e8 & _ & H & _).
  destruct v as [set|].
  - apply M_bind_Some in H as (c1 & m5 & e9 & e10 & Hc1 & H & _).
    assert (Hf : c_flags c1 = c_flags c).
    { destruct (t <? ttl set); [|by injection Hc1 as <- _ _]. apply the_inv, set_slot_meta in Hc1. by destruct Hc1. }
    case_bool_decide; [injection H as <- _ _; done|]. apply M_bind_Some in H as (y & m6 & e11 & e12 & Hy & H & _). injection H as <- _ _. cbn [snd].
    rewrite <-Hf. eapply add_rr_int_flags; [|exact Hy]. unfold negative in *. by rewrite Hf.
  - apply M_bind_Some in H as (y & m6 & e11 & e12 & Hy & H & _). injection H as <- _ _. cbn [snd]. by eapply add_rr_int_flags.
Qed.
(** A record goes into its set. *)
Lemma add_record_spec nm c tp k t s f data m L :
  good_entry nm c → dll (rl m) L → cached tp k →
  quietly (add_cent_rr c tp t s f data) m (λ x _,
    good_entry nm x.2 ∧ (mem_ok m → x.1 = true) ∧ (∀ j, 0 ≤ j → j ≠ k → slot x.2 j = slot c j) ∧
    (x.1 = true → view (slot x.2 k) = add_record (view (slot c k)) (mkRec nm tp t data f s))).
Proof.
  intros [[Hnm Hq] [Hok Hn0 Hls] Hfl] HL (Htp & Hpl & Hk). assert (Hn : negative c = false) by (unfold negative; by rewrite Hfl).
  destruct (add_cent_rr_spec m c tp t s f data L Hok Hn0 HL Htp) as (i & ok & c' & m' & Hi & Hrun & Hd & Hmo & Hok' & Hsm & Hnl & Hsl & Hlen & _ & Hset).
  { intros i Hi. rewrite Hpl in Hi. injection Hi as <-. lia. }
  rewrite Hpl in Hi. injection Hi as <-. pose proof (add_rr_flags _ _ _ _ _ _ _ _ _ _ Hn Hrun) as Hf. cbn [snd] in Hf.
  exists (ok, c'), m'. split; [done|]. split; [done|]. cbn [fst snd]. split; [|split; [done|split; [done|]]].
  - split; [split; [done|by rewrite (same_qname _ _ Hsm)]| |congruence]. split; [done|done|]. intros j Hj.
    destruct (decide (j = k)) as [->|Hne]; [rewrite Hlen|rewrite Hsl by done]; by apply Hls.
  - intros ->. destruct Hset as (rs & Hrs & _ & Hold); [done|by rewrite Hfl|]. rewrite Hrs. destruct (slot c k) as [old|].
    + destruct Hold as (H1 & H2 & H3 & H4). cbn. by rewrite H1, H2, H3, H4.
    + destruct Hold as (H1 & H2 & H3 & H4). cbn. by rewrite H1, H2, H3, H4.
Qed.

Lemma names_inj nms i j nm nm' : NoDup (map fold_name nms) → nms !! i = Some nm → nms !! j = Some nm' → same_name nm nm' → i = j.
Proof.
  intros Hnd Hi Hj Hs. apply (NoDup_lookup (map fold_name nms) i j (fold_name nm) Hnd); rewrite list_lookup_fmap.
  - by rewrite Hi.
  - rewrite Hj. cbn. f_equal. symmetry. exact Hs.
Qed.
Lemma find_oname_spec nms l nm k :
  Forall2 good_entry nms l → wf_name nm →
  ∃ r, find_oname l (rhn nm) k = Some r ∧
    match r with
    | Some (i, c) => ∃ i0 nm', i = (k + i0)%nat ∧ l !! i0 = Some c ∧ nms !! i0 = Some nm' ∧ same_name nm' nm
    | None => fold_name nm ∉ map fold_name nms
    end.
Proof.
  intros Hl Hnm. revert k. induction Hl as [|nm' c nms l [[Hnm' Hq] _ _] _ IH]; intros k; cbn [find_oname].
  { exists None. split; [done|]. by apply not_elem_of_nil. }
  rewrite Hq. pose proof (rhnicmp_spec nm' nm [] []) as Hcmp. rewrite !app_nil_r in Hcmp. rewrite Hcmp by (by apply wf_name_len).
  cbn [mbind option_bind]. case_bool_decide as Hs.
  - exists (Some (k, c)). split; [done|]. exists 0%nat, nm'. split; [lia|]. done.
  - destruct (IH (S k)) as (r & -> & Hr). exists r. split; [done|]. destruct r as [[i c']|].
    + destruct Hr as (i0 & nm0 & -> & ? & ? & ?). exists (S i0), nm0. split; [lia|]. done.
    + cbn [map]. intros [He|Hin]%elem_of_cons; [|done]. apply Hs. symmetry. exact He.
Qed.
(** A new entry. *)
Lemma new_entry m nm :
  wf_name nm → quietly (init_cent (rhn nm) 0 0 0) m (λ x m', rl m' = rl m ∧ (mem_ok m → not_null x = true) ∧
    ∀ c, x = Some c → good_entry nm c ∧ ∀ j, slot c j = None).
Proof.
  intros Hnm. destruct (init_cent_spec m nm 0 0 0 (proj1 Hnm)) as (x & m' & Hrun & Hrl & Hd & Hno & Hc). exists x, m'.
  split; [done|]. split; [done|]. split; [done|]. split; [done|]. intros c ->. destruct Hc as (Hok & Hnd & Hq & Hf & _ & _ & Hsl).
  split; [|done]. split; [done| |done]. by apply nodes_detached.
Qed.
Lemma free_all_spec nms l m L : Forall2 good_entry nms l → dll (rl m) L → quietly (free_all l) m (λ _ _, True).
Proof.
  intros Hl. revert m. induction Hl as [|nm c nms l [_ Hdet _] _ IH]; intros m HL; cbn [free_all]; [by apply quietly_ret|].
  q_bind. eapply quietly_mono; [by eapply free_detached|]. cbn beta. intros _ m1 Hd1 _ _. apply IH. by apply (dropped_list m m1).
Qed.
Lemma da_grow1_spec nms a m L :
  Forall2 good_entry nms (default [] a) → dll (rl m) L →
  quietly (da_grow1 a) m (λ x _, (mem_ok m → x.1 = true) ∧ x.2 = if x.1 then Some (default [] a) else None).
Proof.
  intros Hl HL. unfold da_grow1. destruct (_ || _); [|by apply quietly_ret]. q_bind. unfold realloc. q_bind. apply quietly_malloc.
  intros p m1 Hrl Hok _. apply quietly_ret. intros _. destruct p as [p|]; cbn [not_null] in *; [by apply quietly_ret|].
  q_bind. eapply quietly_mono; [eapply free_all_spec; [exact Hl|by rewrite Hrl]|]. cbn beta. intros _ m2 _ _ _. apply quietly_ret.
  split; [|done]. intros Hm. by apply Hok in Hm.
Qed.

(** A record of a known name. *)
Lemma collected_insert nms l recs i nm' c c' r k :
  collected nms l recs → nms !! i = Some nm' → l !! i = Some c → same_name nm' (r_name r) → cached (r_type r) k → good_entry nm' c' →
  (∀ j, 0 ≤ j → j ≠ k → slot c' j = slot c j) → view (slot c' k) = add_record (view (slot c k)) r →
  collected nms (<[i := c']> l) (recs ++ [r]).
Proof.
  intros [[Hg Hnd] Hs Hfrom Hall] Hi Hc Hsame Hk Hgood Hother Hset. split.
  - split; [|done]. rewrite <-(list_insert_id nms i nm') by done. by apply list.Forall2_insert.
  - intros j nmj cj tp kj Hnj Hcj Hkj. rewrite expected_snoc. destruct (decide (j = i)) as [->|Hji].
    + rewrite Hi in Hnj. injection Hnj as <-. rewrite list_lookup_insert_eq in Hcj by (by eapply lookup_lt_Some). injection Hcj as <-.
      destruct (decide (tp = r_type r)) as [->|Hne].
      * assert (kj = k) as ->. { destruct Hkj as (_ & H1 & _), Hk as (_ & H2 & _). congruence. }
        rewrite decide_True by done. rewrite Hset. f_equal. by apply (Hs i).
      * rewrite decide_False by (by intros [_ ?]). rewrite Hother; [by apply (Hs i)|apply Hkj|]. intros ->. by apply Hne, (cached_inj _ _ k).
    + rewrite list_lookup_insert_ne in Hcj by done. rewrite decide_False; [by apply (Hs j)|]. intros [Hsj _]. apply Hji.
      apply (names_inj nms j i nmj nm' Hnd Hnj Hi). by rewrite Hsame.
  - intros nm Hin. destruct (Hfrom nm Hin) as (r' & Hr' & ?). exists r'. split; [apply elem_of_app; by left|done].
  - intros r' [Hr'| ->%list_elem_of_singleton]%elem_of_app; [by apply Hall|]. apply list_elem_of_fmap. exists nm'. split; [|by eapply list_elem_of_lookup_2].
    symmetry. exact Hsame.
Qed.
(** A record of a new name. *)
Lemma collected_snoc nms l recs c r k :
  collected nms l recs → fold_name (r_name r) ∉ map fold_name nms → cached (r_type r) k → good_entry (r_name r) c →
  (∀ j, 0 ≤ j → j ≠ k → slot c j = None) → view (slot c k) = add_record None r →
  collected (nms ++ [r_name r]) (l ++ [c]) (recs ++ [r]).
Proof.
  intros [[Hg Hnd] Hs Hfrom Hall] Hnew Hk Hgood Hother Hset. pose proof (list.Forall2_length _ _ _ Hg) as Hlen. split.
  - split; [apply Forall2_app; [done|by constructor]|]. rewrite list.fmap_app. apply list.NoDup_app. split; [done|]. split; [|apply NoDup_singleton].
    intros x Hx ->%list_elem_of_singleton. done.
  - intros j nmj cj tp kj Hnj Hcj Hkj. rewrite expected_snoc. destruct (decide (j < length nms)%nat) as [Hlt|Hge].
    + rewrite lookup_app_l in Hnj by done. rewrite lookup_app_l in Hcj by lia. rewrite decide_False; [by apply (Hs j)|]. intros [Hsj _].
      apply Hnew, list_elem_of_fmap. exists nmj. split; [exact Hsj|by eapply list_elem_of_lookup_2].
    + rewrite lookup_app_r in Hnj by lia. rewrite lookup_app_r in Hcj by lia. apply list_lookup_singleton_Some in Hnj as [_ <-], Hcj as [_ <-].
      rewrite expected_none.
      2: { intros (r' & He & Hr')%list_elem_of_fmap. apply Hnew. rewrite He. by apply Hall. }
      destruct (decide (tp = r_type r)) as [->|Hne].
      * assert (kj = k) as ->. { destruct Hkj as (_ & H1 & _), Hk as (_ & H2 & _). congruence. } by rewrite decide_True.
      * rewrite decide_False by (intros [_ ?]; congruence). rewrite Hother; [done|apply Hkj|]. intros ->. by apply Hne, (cached_inj _ _ k).
  - intros nm [Hin| ->%list_elem_of_singleton]%elem_of_app.
    + destruct (Hfrom nm Hin) as (r' & Hr' & ?). exists r'. split; [apply elem_of_app; by left|done].
    + exists r. split; [apply elem_of_app; right; by left|done].
  - intros r' [Hr'| ->%list_elem_of_singleton]%elem_of_app; rewrite list.fmap_app; apply elem_of_app; [left; by apply Hall|right; by left].
Qed.

(** What one record does to the array. *)
Definition step_ok (m : memory) (a : cent_array) (nms : list (list bytes)) (more : list crec) (x : retval * cent_array) : Prop :=
  (mem_ok m → x.1 ≠ RC_FATALERR) ∧ ∃ nms', entries nms' (default [] x.2) ∧
    (x.1 = RET RC_OK → ∀ recs, collected nms (default [] a) recs → collected nms' (default [] x.2) (recs ++ more)).
Lemma rr_to_cache_spec nms a nm tp k t s f data m L :
  entries nms (default [] a) → wf_name nm → dll (rl m) L → cached tp k →
  quietly (rr_to_cache a (rhn nm) tp t data f s) m (λ x _,
    (x.1 = RET RC_OK ∨ x.1 = RC_FATALERR) ∧ step_ok m a nms [mkRec nm tp t data f s] x).
Proof.
  intros [Hg Hnd] Hnm HL Hk. unfold rr_to_cache. destruct (find_oname_spec nms _ nm 0 Hg Hnm) as (r & Hr & Hcase).
  q_bind. apply (quietly_the _ r); [done|]. intros _. set (rec := mkRec nm tp t data f s).
  assert (Hret : ∀ b : bool, (if b then RET RC_OK else RC_FATALERR) = RET RC_OK ∨ (if b then RET RC_OK else RC_FATALERR) = RC_FATALERR) by (intros []; auto).
  destruct r as [[i c]|].
  - destruct Hcase as (i0 & nm' & -> & Hc & Hn' & Hsame). cbn [Nat.add]. pose proof (list.Forall2_lookup_lr _ _ _ _ _ _ Hg Hn' Hc) as Hgc.
    q_bind. eapply quietly_mono; [by eapply add_record_spec|]. cbn beta. intros [ok c'] m' _ (Hgc' & Hok & Hsl & Hset) _. cbn [fst snd] in *.
    apply quietly_ret. cbn [fst snd]. split; [apply Hret|]. split; [intros Hm; by rewrite Hok|]. cbn [default from_option id fst snd]. exists nms. split.
    + split; [|done]. rewrite <-(list_insert_id nms i0 nm') by done. by apply list.Forall2_insert.
    + intros Hx recs Hco. destruct ok; [|done]. eapply (collected_insert nms _ recs i0 nm' c c' rec k); try done. by apply Hset.
  - q_bind. eapply quietly_mono; [by eapply da_grow1_spec|]. cbn beta. intros [g a'] m1 Hd1 [Hgok Ha'] _. cbn [fst snd] in *. destruct g; cbn [negb]; subst a'.
    2: { apply quietly_ret. split; [by right|]. split; [intros Hm; by apply Hgok in Hm|]. exists []. split; [split; constructor|done]. }
    q_bind. eapply quietly_mono; [by apply new_entry|]. cbn beta. intros x m2 Hd2 (Hrl2 & Hx & Hnew) Hd12. destruct x as [c|].
    + destruct (Hnew c eq_refl) as [Hgc Hnone]. assert (HL2 : dll (rl m2) L) by (rewrite Hrl2; by apply (dropped_list m m1)).
      q_bind. eapply quietly_mono; [by eapply add_record_spec|]. cbn beta. intros [ok c'] m' _ (Hgc' & Hok & Hsl & Hset) _. cbn [fst snd] in *.
      apply quietly_ret. cbn [fst snd]. split; [apply Hret|]. split.
      { intros Hm. by rewrite Hok by (apply (drop_ok _ _ _ Hd2), (drop_ok _ _ _ Hd1), Hm). }
      cbn [default from_option id fst snd]. exists (nms ++ [nm]). split.
      * split; [apply Forall2_app; [done|by constructor]|]. rewrite list.fmap_app. apply list.NoDup_app. split; [done|]. split; [|apply NoDup_singleton].
        intros y Hy ->%list_elem_of_singleton. done.
      * intros Hx' recs Hco. destruct ok; [|done]. apply (collected_snoc nms _ recs c' rec k); try done.
        -- intros j Hj Hne. by rewrite Hsl.
        -- rewrite (Hset eq_refl), Hnone. done.
    + q_bind. assert (Hres : quietly (da_resize (DA_NEL a + 1) (DA_NEL a) (default [] a)) m2 (λ x _, x = Some (default [] a) ∨ x = None)).
      { unfold da_resize. destruct (negb _); [|by apply quietly_ret; left]. q_bind. unfold realloc. q_bind. apply quietly_malloc. intros p m3 _ _ _.
        apply quietly_ret. intros _. apply quietly_ret. destruct p; cbn; auto. }
      eapply quietly_mono; [exact Hres|]. cbn beta. intros a2 m3 _ Ha2 _. apply quietly_ret. split; [by right|]. split.
      { intros Hm. assert (mem_ok m1) as Hm1 by (by apply (drop_ok _ _ _ Hd1)). by apply Hx in Hm1. }
      destruct Ha2 as [-> | ->]; cbn [default from_option id fst snd]; [exists nms; by split|exists []; split; [split; constructor|done]].
Qed.

(** ** A section *)

Lemma rhn_inj a b : Forall label_ok a → Forall label_ok b → rhn a = rhn b → a = b.
Proof.
  intros Ha. revert b. induction Ha as [|x a [Hx _] _ IH]; intros b Hb; destruct Hb as [|y b [Hy _] Hb]; rewrite ?rhn_cons; cbn [app]; [done| | |].
  - change (rhn []) with [0]. intros [= H _]. lia.
  - change (rhn []) with [0]. intros [= H _]. lia.
  - intros [= Hz He]. apply app_inj_1 in He as [-> He]; [|unfold zlen in Hz; lia]. f_equal. by apply IH.
Qed.
(** The number that [n] bytes at [off] hold. *)
Definition be_at (msg : bytes) (off n : Z) : Z := be_val (slice off n msg).
(** A record at [off] (RFC 1035, 4.1.3): its name, type, class and time to live, and the
    place and the length of its data; all of it is before [fin]. *)
Inductive rr_at (msg : bytes) (off fin : Z) : list bytes → Z → Z → Z → Z → Z → Prop :=
  rr_at_intro ls h n :
    name_at msg off ls h n → h ≤ 255 → zlen (rhn ls) ≤ DNSNAMEBUFSIZE → off + n + 10 + be_at msg (off + n + 8) 2 ≤ fin →
    rr_at msg off fin ls (be_at msg (off + n) 2) (be_at msg (off + n + 2) 2) (be_at msg (off + n + 4) 4) (off + n + 10) (be_at msg (off + n + 8) 2).

Lemma lor_shiftl a b k : 0 ≤ k → 0 ≤ b < 2 ^ k → Z.lor (Z.shiftl a k) b = a * 2 ^ k + b.
Proof.
  intros Hk Hb. rewrite <-Z.shiftl_mul_pow2 by done. rewrite <-Z.add_lor_land. assert (Z.land (Z.shiftl a k) b = 0) as ->; [|lia].
  apply Z.bits_inj'. intros n Hn. rewrite Z.land_spec, Z.bits_0. destruct (Z.lt_ge_cases n k) as [Hlt|Hge].
  - by rewrite Z.shiftl_spec_low.
  - rewrite <-(Z.mod_small b (2 ^ k)) by done. by rewrite Z.mod_pow2_bits_high, andb_false_r by lia.
Qed.

Section message.
Context (msg : bytes) (Hmsg : bytes_ok msg).

Lemma rd_slice p n : 0 ≤ p → 0 < n → p + n ≤ zlen msg → ∃ b, rd msg p = Some b ∧ 0 ≤ b < 256 ∧ slice p n msg = b :: slice (p + 1) (n - 1) msg.
Proof.
  intros Hp Hn Hl. destruct (rd_Some msg p ltac:(lia)) as [b Hb]. exists b. split; [done|]. split; [by apply (rd_byte _ _ _ Hmsg Hb)|].
  replace n with (1 + (n - 1)) at 1 by lia. rewrite slice_split by lia. assert (Hs : slice p 1 msg = [b]); [|by rewrite Hs].
  unfold slice, ztake, zdrop, rd in *. destruct (0 <=? p); [|done]. by rewrite (drop_S _ _ _ Hb).
Qed.
Lemma GETINT16_spec p : 0 ≤ p → p + 2 ≤ zlen msg → GETINT16 msg p = Some (be_at msg p 2) ∧ 0 ≤ be_at msg p 2 < 2 ^ 16.
Proof.
  intros Hp Hl. destruct (rd_slice p 2 Hp) as (a & Ha & Hra & Hsa); [lia..|]. destruct (rd_slice (p + 1) 1) as (b & Hb & Hrb & Hsb); [lia..|].
  unfold GETINT16, be_at. rewrite Ha, Hsa. cbn [Z.sub Z.add Z.opp Z.pos_sub Pos.pred_double]. change (2 - 1) with 1. rewrite Hb, Hsb. cbn [mbind option_bind].
  change (slice (p + 1 + 1) (1 - 1) msg) with (@nil Z). rewrite !be_val_cons. change (be_val []) with 0. change (zlen [b]) with 1. change (zlen (@nil Z)) with 0.
  assert (Hu : u16 (Z.shiftl a 8) = Z.shiftl a 8). { unfold u16. rewrite Z.shiftl_mul_pow2 by done. apply Z.mod_small. lia. }
  rewrite Hu, lor_shiftl by lia. split; [f_equal; lia|lia].
Qed.
Lemma GETINT32_spec p : 0 ≤ p → p + 4 ≤ zlen msg → GETINT32 msg p = Some (be_at msg p 4).
Proof.
  intros Hp Hl. destruct (rd_slice p 4 Hp) as (a & Ha & Hra & Hsa); [lia..|]. destruct (rd_slice (p + 1) 3) as (b & Hb & Hrb & Hsb); [lia..|].
  destruct (rd_slice (p + 1 + 1) 2) as (c & Hc & Hrc & Hsc); [lia..|]. destruct (rd_slice (p + 1 + 1 + 1) 1) as (d & Hd & Hrd & Hsd); [lia..|].
  unfold GETINT32, be_at. rewrite Hsa. change (4 - 1) with 3. rewrite Hsb. change (3 - 1) with 2. rewrite Hsc. change (2 - 1) with 1. rewrite Hsd.
  replace (p + 2) with (p + 1 + 1) by lia. replace (p + 3) with (p + 1 + 1 + 1) by lia. rewrite Ha, Hb, Hc, Hd. cbn [mbind option_bind].
  change (slice (p + 1 + 1 + 1 + 1) (1 - 1) msg) with (@nil Z). rewrite !be_val_cons. change (be_val []) with 0. change (zlen (@nil Z)) with 0.
  change (zlen [d]) with 1. change (zlen [c; d]) with 2. change (zlen [b; c; d]) with 3.
  assert (Hu : u32 (Z.shiftl a 24) = Z.shiftl a 24). { unfold u32. rewrite Z.shiftl_mul_pow2 by done. apply Z.mod_small. lia. }
  rewrite Hu, <-!Z.lor_assoc. rewrite (lor_shiftl c) by lia. rewrite (lor_shiftl b) by lia. rewrite (lor_shiftl a) by lia. f_equal. lia.
Qed.

Definition inside (p cnt fin : Z) : Prop := 0 ≤ p ∧ 0 ≤ cnt ∧ p + cnt = fin ∧ fin ≤ zlen msg.
Lemma read_hdr_spec p cnt fin :
  inside p cnt fin → ∃ p' cnt' y, read_hdr msg p cnt = Some (p', cnt', y) ∧ inside p' cnt' fin ∧
    match y with
    | inr e => e ≠ RC_OK ∧ ∀ ls tp cl t q n, ¬ rr_at msg p fin ls tp cl t q n
    | inl (oname, h) => 0 ≤ rdlength h ≤ cnt' ∧ 0 ≤ ttlp h ∧ ttlp h + 4 ≤ zlen msg ∧ ∃ ls, wf_name ls ∧ oname = rhn ls ∧
        ∀ ls' tp cl t q n, rr_at msg p fin ls' tp cl t q n ↔
          ls' = ls ∧ tp = type h ∧ cl = class h ∧ t = h_ttl h ∧ q = p' ∧ n = rdlength h
    end.
Proof.
  intros (Hp & Hc & Hf & Hl). unfold read_hdr. destruct (decompress_name_names msg p cnt Hmsg Hp Hc) as (r & Hr & Hiff). rewrite Hr. cbn [mbind option_bind].
  assert (Hone : ∀ ls' tp cl t q n, rr_at msg p fin ls' tp cl t q n → ∃ u, r = Ok u (rhn ls') ∧ u + 10 + n ≤ cnt ∧ tp = be_at msg (p + u) 2 ∧
    cl = be_at msg (p + u + 2) 2 ∧ t = be_at msg (p + u + 4) 4 ∧ q = p + u + 10 ∧ n = be_at msg (p + u + 8) 2).
  { intros ls' tp cl t q n [ls h u Hat Hh Hz Hle]. exists u. pose proof (be_val_bound (slice (p + u + 8) 2 msg) (bytes_ok_slice _ _ _ Hmsg)) as Hb.
    unfold be_at in Hle. split; [|split; [unfold be_at; lia|done]]. apply Hiff. exists ls, h. split_and!; try done. lia. }
  destruct r as [used name|e].
  2: { exists p, cnt, (inr e). split; [done|]. split; [done|]. split; [by eapply decompress_err|]. intros ls tp cl t q n (u & ? & _)%Hone. done. }
  destruct (proj1 (Hiff used name) eq_refl) as (ls & h & Hat & Hh & Hu & -> & Hz). pose proof (name_at_bound _ _ _ _ _ Hat) as (_ & _ & Hn1).
  assert (Hone2 : ∀ ls' tp cl t q n, rr_at msg p fin ls' tp cl t q n → rhn ls' = rhn ls ∧ used + 10 + n ≤ cnt ∧ tp = be_at msg (p + used) 2 ∧
    cl = be_at msg (p + used + 2) 2 ∧ t = be_at msg (p + used + 4) 4 ∧ q = p + used + 10 ∧ n = be_at msg (p + used + 8) 2).
  { intros ls' tp cl t q n (u & [= <- He] & ?)%Hone. by split. }
  unfold sizeof_rr_hdr_t. destruct (Z.ltb_spec (cnt - used) 10) as [Hlt|Hge].
  { eexists _, _, _. split; [done|]. split; [unfold inside; lia|]. split; [done|]. intros ls' tp cl t q n Hrr.
    pose proof (Hone2 _ _ _ _ _ _ Hrr) as (_ & Hle & _ & _ & _ & _ & Hn). pose proof (be_val_bound (slice (p + used + 8) 2 msg) (bytes_ok_slice _ _ _ Hmsg)).
    unfold be_at in Hn. lia. }
  destruct (GETINT16_spec (p + used)) as [-> Hr1]; [lia..|]. destruct (GETINT16_spec (p + used + 2)) as [-> Hr2]; [lia..|]. rewrite GETINT32_spec by lia.
  destruct (GETINT16_spec (p + used + 8)) as [-> Hr3]; [lia..|]. cbn [mbind option_bind]. eexists _, _, _. split; [done|]. split; [unfold inside; lia|].
  destruct (Z.ltb_spec (cnt - used - 10) (be_at msg (p + used + 8) 2)) as [Hlt|Hge2].
  { split; [done|]. intros ls' tp cl t q n Hrr. pose proof (Hone2 _ _ _ _ _ _ Hrr) as (_ & Hle & _ & _ & _ & _ & Hn). lia. }
  cbn [rdlength ttlp type class h_ttl]. split; [lia|]. split; [lia|]. split; [lia|]. exists ls. split; [split; [by eapply name_at_bytes|done]|]. split; [done|].
  intros ls' tp cl t q n. split.
  - intros Hrr. pose proof (Hone2 _ _ _ _ _ _ Hrr) as (He & _ & -> & -> & -> & -> & ->). split; [|done].
    destruct Hrr as [ls0 h0 n0 Hat0 _ _ _]. apply (rhn_inj ls0 ls); [by eapply name_at_bytes|by eapply name_at_bytes|done].
  - intros (-> & -> & -> & -> & -> & ->). eapply rr_at_intro; [exact Hat|done|done|lia].
Qed.

(** One record from [off], which adds [more] to what the section says; the next one is at
    [off'].  Records of other classes and of types that are not cached say nothing. *)
Inductive record_at (f ts off fin : Z) : list crec → Z → Prop :=
  | record_cached ls tp t p n d k :
      rr_at msg off fin ls tp C_IN t p n → tp ≠ T_OPT → cached tp k → canonical msg tp p (p + n) d →
      record_at f ts off fin [mkRec ls tp t d f ts] (p + n)
  | record_other ls tp cl t p n :
      rr_at msg off fin ls tp cl t p n → tp = T_OPT ∨ cl ≠ C_IN ∨ (∀ k, ¬ cached tp k) → record_at f ts off fin [] (p + n).
Inductive section_at (f ts fin : Z) : nat → Z → list crec → Z → Prop :=
  | section_nil off : section_at f ts fin 0 off [] off
  | section_cons n off more mid recs off' :
      record_at f ts off fin more mid → section_at f ts fin n mid recs off' → section_at f ts fin (S n) off (more ++ recs) off'.

Definition within (s : section) (fin : Z) : Prop := inside (ptr s) (lcnt s) fin.
(** What is known after some records that add [more]: [says] relates [more] to the place
    after the records. *)
Definition read_ok (m : memory) (fin : Z) (s : section) (nms : list (list bytes)) (says : list crec → Z → Prop) (x : retval * section) : Prop :=
  within x.2 fin ∧ (mem_ok m → x.1 ≠ RC_FATALERR) ∧ (x.1 ≠ RET RC_OK → mem_ok m → ∀ more off', ¬ says more off') ∧
  ∃ nms', entries nms' (default [] (centa x.2)) ∧
    (x.1 = RET RC_OK → ∃ more, says more (ptr x.2) ∧ (∀ more' off', says more' off' → off' = ptr x.2) ∧
      ∀ recs, collected nms (default [] (centa s)) recs → collected nms' (default [] (centa x.2)) (recs ++ more)).

Lemma cache_record_spec nms a ls h p f ts k m L :
  entries nms (default [] a) → wf_name ls → dll (rl m) L → cached (type h) k → 0 ≤ p → 0 ≤ rdlength h → p + rdlength h ≤ zlen msg →
  quietly (cache_record msg (rhn ls) h p f ts a) m (λ x _,
    (x.1 ≠ RET RC_OK → mem_ok m → ∀ d, ¬ canonical msg (type h) p (p + rdlength h) d) ∧ (mem_ok m → x.1 ≠ RC_FATALERR) ∧
    ∃ nms', entries nms' (default [] x.2) ∧ (x.1 = RET RC_OK → ∃ d, canonical msg (type h) p (p + rdlength h) d ∧
      ∀ recs, collected nms (default [] a) recs → collected nms' (default [] x.2) (recs ++ [mkRec ls (type h) (h_ttl h) d f ts]))).
Proof.
  intros He Hls HL Hk Hp Hn Hl. unfold cache_record. destruct (decode_rdata_spec msg Hmsg (type h) p (rdlength h) Hp Hn Hl) as (r & Hr & Hrok & Hiff).
  q_bind. apply (quietly_the _ r); [done|]. intros _.
  assert (Hstore : ∀ d m1, data_of r = Some d → (mem_ok m → mem_ok m1) → dll (rl m1) L → quietly (rr_to_cache a (rhn ls) (type h) (h_ttl h) d f ts) m1 (λ x _,
    (x.1 ≠ RET RC_OK → mem_ok m → ∀ d, ¬ canonical msg (type h) p (p + rdlength h) d) ∧ (mem_ok m → x.1 ≠ RC_FATALERR) ∧
    ∃ nms', entries nms' (default [] x.2) ∧ (x.1 = RET RC_OK → ∃ d, canonical msg (type h) p (p + rdlength h) d ∧
      ∀ recs, collected nms (default [] a) recs → collected nms' (default [] x.2) (recs ++ [mkRec ls (type h) (h_ttl h) d f ts])))).
  { intros d m1 Hd Hm1 HL1. eapply quietly_mono; [by eapply rr_to_cache_spec|]. cbn beta. intros [ret a'] m2 _ (Hret & Hfat & nms' & He' & Hco). cbn [fst snd] in *.
    split; [intros Hne Hm; exfalso; destruct Hret as [|Hf]; [done|]; by apply (Hfat (Hm1 Hm))|]. split; [auto|]. exists nms'. split; [done|].
    intros Hok. exists d. split; [by apply Hiff|by apply Hco]. }
  destruct r as [[d|d]|e].
  - by apply (Hstore d m).
  - q_bind. apply quietly_malloc. intros q m1 Hrl Hok Hd1. destruct q as [q|].
    + apply (Hstore d m1); [done|apply (drop_ok _ _ _ Hd1)|by rewrite Hrl].
    + apply quietly_ret. cbn [fst snd]. split; [intros _ Hm; by apply Hok in Hm|]. split; [intros Hm; by apply Hok in Hm|]. exists nms. by split.
  - apply quietly_ret. cbn [fst snd]. split; [intros _ _ d Hd; by apply Hiff in Hd|]. split; [done|]. exists nms. split; [done|]. intros [= ->]. done.
Qed.
Lemma read_opt_spec h : 0 ≤ ttlp h → ttlp h + 4 ≤ zlen msg → 4 ≤ zlen msg → ∃ e, read_opt msg h = Some e.
Proof.
  intros H0 H1 H2. unfold read_opt, rcode. destruct (rd_Some msg (ttlp h)) as [a ->]; [lia|]. destruct (rd_Some msg (ttlp h + 1)) as [b ->]; [lia|].
  destruct (rd_Some msg (ttlp h + 2)) as [c ->]; [lia|]. destruct (rd_Some msg 3) as [d ->]; [lia|]. by eexists.
Qed.
Lemma read_record_spec f ts s fin nms m L :
  within s fin → entries nms (default [] (centa s)) → dll (rl m) L →
  quietly (read_record msg f ts s) m (λ x _, read_ok m fin s nms (record_at f ts (ptr s) fin) x).
Proof.
  intros Hs He HL. unfold read_record. destruct (read_hdr_spec _ _ _ Hs) as (p & cnt & y & Hy & Hin & Hspec).
  q_bind. apply (quietly_the _ _ _ _ Hy). intros _. destruct y as [[oname h]|e].
  2: { destruct Hspec as [Hok Hno]. apply quietly_ret. split; [done|]. split; [done|]. split.
       - intros _ _ more off' [ls tp t q n d k Hrr|ls tp cl t q n Hrr]; by apply Hno in Hrr.
       - exists nms. split; [done|]. intros [= ->]. done. }
  destruct Hspec as (Hlen & Ht0 & Ht1 & ls & Hls & -> & Hrr). destruct Hin as (Hp & Hc & Hf & Hl). cbv zeta.
  assert (Hnext : ∀ a n e, within (mkSection (p + rdlength h) (cnt - rdlength h) a n e) fin) by (intros; unfold within, inside; cbn; lia).
  assert (Hmid : ∀ more off', record_at f ts (ptr s) fin more off' → off' = p + rdlength h).
  { intros more off' [ls' tp t q n d k H1|ls' tp cl t q n H1]; apply Hrr in H1 as (_ & _ & _ & _ & -> & ->); done. }
  assert (Hskip : ∀ n e, (type h = T_OPT ∨ class h ≠ C_IN ∨ ∀ k, ¬ cached (type h) k) →
    read_ok m fin s nms (record_at f ts (ptr s) fin) (RET RC_OK, mkSection (p + rdlength h) (cnt - rdlength h) (centa s) n e)).
  { intros n e Hother. split; [apply Hnext|]. split; [done|]. split; [done|]. exists nms. split; [done|]. intros _. exists []. cbn [snd ptr centa].
    split; [|split; [exact Hmid|intros recs; by rewrite app_nil_r]]. apply (record_other _ _ _ _ ls (type h) (class h) (h_ttl h)); [|done]. by apply Hrr. }
  destruct (Z.eqb_spec (type h) T_OPT) as [Hopt|Hopt].
  { q_bind. destruct (read_opt_spec h Ht0 Ht1 ltac:(lia)) as [e Hread]. destruct (numopt s =? 0).
    - apply (quietly_the _ _ _ _ Hread). intros _. apply quietly_ret, Hskip. by left.
    - apply quietly_ret. intros _. apply quietly_ret, Hskip. by left. }
  destruct (PDNSD_NOT_CACHED_TYPE_spec (type h)) as (bad & Hbad & Hcached). q_bind. apply (quietly_the _ _ _ _ Hbad). intros _.
  destruct (bad || negb (class h =? C_IN)) eqn:Hb; cbn [negb].
  { apply quietly_ret, Hskip. right. apply orb_true_iff in Hb as [->|Hcl]; [right|left; lia]. intros k Hk%cached_spec. congruence. }
  apply orb_false_iff in Hb as [-> Hcl]. assert (class h = C_IN) as Hin by lia. destruct (Hcached eq_refl) as [k Hk].
  q_bind. eapply quietly_mono; [eapply (cache_record_spec nms (centa s) ls h p f ts k); [done|done|done|done|lia|lia|lia]|]. cbn beta.
  intros [ret a'] m' _ (Hbad' & Hfat & nms' & He' & Hco) _. cbn [fst snd] in *. destruct (is_ok ret) eqn:Hret; apply quietly_ret.
  - assert (ret = RET RC_OK) as -> by (by destruct ret as [[]|]). split; [apply Hnext|]. split; [done|]. split; [done|]. exists nms'. split; [done|].
    intros _. destruct (Hco eq_refl) as (d & Hd & Hcol). eexists. split; [|split; [exact Hmid|exact Hcol]]. cbn [snd ptr].
    apply (record_cached _ _ _ _ ls (type h) (h_ttl h) p (rdlength h) d k); [|done|done|done]. rewrite <-Hin. by apply Hrr.
  - split; [done|]. split; [done|]. split.
    + cbn [fst]. intros Hne Hm more off' [ls' tp t q n d k' H1 H2 H3 H4|ls' tp cl t q n H1 H2]; apply Hrr in H1 as (_ & -> & Hcl' & _ & -> & ->).
      * by apply (Hbad' Hne Hm d).
      * destruct H2 as [?|[?|Hno]]; [done|congruence|by apply (Hno k)].
    + exists nms'. split; [done|]. cbn [fst]. intros ->. done.
Qed.
Lemma rrs2cent_read n f ts s fin nms m L :
  within s fin → entries nms (default [] (centa s)) → dll (rl m) L →
  quietly (rrs2cent msg n f ts s) m (λ x _, read_ok m fin s nms (section_at f ts fin n (ptr s)) x).
Proof.
  revert s nms m. induction n as [|n IH]; intros s nms m Hs He HL; cbn [rrs2cent].
  { apply quietly_ret. split; [done|]. split; [done|]. split; [done|]. exists nms. split; [done|]. intros _. exists []. split; [constructor|].
    split; [intros more' off' Hx; by inversion Hx|]. intros recs. by rewrite app_nil_r. }
  q_bind. eapply quietly_mono; [by eapply read_record_spec|]. cbn beta. intros [ret s1] m1 Hd1 (Hs1 & Hfat & Hno & nms1 & He1 & Hok) _. cbn [fst snd] in *.
  destruct (is_ok ret) eqn:Hret.
  - assert (ret = RET RC_OK) as -> by (by destruct ret as [[]|]). destruct (Hok eq_refl) as (more & Hmore & Huniq & Hcol).
    eapply quietly_mono; [apply (IH s1 nms1 m1 Hs1 He1); by apply (dropped_list m m1)|]. cbn beta. intros [ret2 s2] m2 _ (Hs2 & Hfat2 & Hno2 & nms2 & He2 & Hok2). cbn [fst snd] in *.
    pose proof (drop_ok _ _ _ Hd1) as Hmm. split; [done|]. split; [auto|]. split.
    + intros Hne Hm more' off' Hsec. inversion Hsec as [|? ? more1 mid recs ? H1 H2]; subst. apply Huniq in H1 as ->. by eapply (Hno2 Hne (Hmm Hm)).
    + exists nms2. split; [done|]. intros Hr. destruct (Hok2 Hr) as (more2 & Hmore2 & Huniq2 & Hcol2). exists (more ++ more2). split; [by econstructor|]. split.
      * intros more' off' Hsec. inversion Hsec as [|? ? more1 mid recs ? H1 H2]; subst. apply Huniq in H1 as ->. by apply Huniq2 in H2.
      * intros recs Hrecs. rewrite app_assoc. by apply Hcol2, Hcol.
  - apply quietly_ret. split; [done|]. split; [done|]. split.
    + intros Hne Hm more' off' Hsec. inversion Hsec as [|? ? more1 mid recs ? H1 H2]; subst. by eapply (Hno Hne Hm).
    + exists nms1. split; [done|]. cbn [fst]. intros ->. done.
Qed.
End message.

(** C35: [rrs2cent] is safe on whatever a server sends and decodes exactly what is well
    formed.  For every message, every place in it and every outcome of [malloc] it returns
    without an access outside of the message or of a buffer, stays inside of the data, and
    leaves in the array entries that [add_cache] accepts, with names that differ not only
    in case.  While there is memory it returns [RC_OK] just when the section has [n] records
    in the format of RFC 1035 and their data has the layout of their type.  The array then
    holds, for every name and type, the data of the records of this section and of those
    before, in their order, without compression and each once, with the smallest time to
    live; the place that is left is the one after the section. *)
Theorem rrs2cent_decodes msg n f ts s fin nms recs m L :
  bytes_ok msg → within msg s fin → collected nms (default [] (centa s)) recs → dll (rl m) L →
  ∃ ret s' m' nms', rrs2cent msg n f ts s m = Some ((ret, s'), m', []) ∧ within msg s' fin ∧ dll (rl m') L ∧
    entries nms' (default [] (centa s')) ∧ (∀ now c, c ∈ default [] (centa s') → op_ok (now, ADD_CACHE c)) ∧
    (ret = RET RC_OK → ∃ more, section_at msg f ts fin n (ptr s) more (ptr s') ∧ collected nms' (default [] (centa s')) (recs ++ more)) ∧
    (mem_ok m → ret = RET RC_OK ↔ ∃ more off', section_at msg f ts fin n (ptr s) more off').
Proof.
  intros Hmsg Hs Hco HL. destruct (rrs2cent_read msg Hmsg n f ts s fin nms m L Hs (co_entries _ _ _ Hco) HL) as
    ([ret s'] & m' & Hrun & Hd & Hs' & Hfat & Hno & nms' & He & Hok). cbn [fst snd] in *. exists ret, s', m', nms'. split; [done|]. split; [done|].
  split; [by apply (dropped_list m m')|]. split; [done|]. split; [|split].
  - intros now c Hc. apply list_elem_of_lookup in Hc as [i Hi]. destruct (list.Forall2_lookup_r _ _ _ _ _ (en_good _ _ He) Hi) as (nm & _ & [[Hnm Hq] [Hcok _ _] _]).
    split; [by exists nm|done].
  - intros Hr. destruct (Hok Hr) as (more & Hmore & _ & Hcol). exists more. split; [done|by apply Hcol].
  - intros Hm. split.
    + intros Hr. destruct (Hok Hr) as (more & Hmore & _). by exists more, (ptr s').
    + intros (more & off' & Hsec). destruct (is_ok ret) eqn:Hr; [by destruct ret as [[]|]|].
      exfalso. apply (Hno ltac:(intros ->; done) Hm more off' Hsec).
Qed.

(** A response about "www.foo": the question, and an answer section with an alias whose
    target is compressed, its address twice, and a mail server. *)
Definition ex_response : bytes :=
  [18; 52; 129; 128; 0; 1; 0; 4; 0; 0; 0; 0] ++ [3; 119; 119; 119; 3; 102; 111; 111; 0; 0; 1; 0; 1] ++
  [192; 12; 0; 5; 0; 1; 0; 0; 0; 60; 0; 4; 1; 97; 192; 16] ++
  [1; 97; 192; 16; 0; 1; 0; 1; 0; 0; 1; 0; 0; 4; 10; 0; 0; 1] ++
  [1; 65; 192; 16; 0; 1; 0; 1; 0; 0; 0; 50; 0; 4; 10; 0; 0; 1] ++
  [192; 16; 0; 15; 0; 1; 0; 0; 0; 60; 0; 6; 0; 10; 1; 109; 192; 16].
Definition ex_section : section := mkSection 25 (zlen ex_response - 25) None 0 (mkEdns 0 0 0 0).
Definition ex_memory : memory := mem (no_cache []).
Example rrs2cent_decodes_witness :
  ∃ ret s' m' nms', rrs2cent ex_response 4 0 1000 ex_section ex_memory = Some ((ret, s'), m', []) ∧
    within ex_response s' (zlen ex_response) ∧ dll (rl m') [] ∧
    entries nms' (default [] (centa s')) ∧ (∀ now c, c ∈ default [] (centa s') → op_ok (now, ADD_CACHE c)) ∧
    (ret = RET RC_OK → ∃ more, section_at ex_response 0 1000 (zlen ex_response) 4 25 more (ptr s') ∧
      collected nms' (default [] (centa s')) ([] ++ more)) ∧
    (mem_ok ex_memory → ret = RET RC_OK ↔ ∃ more off', section_at ex_response 0 1000 (zlen ex_response) 4 25 more off').
Proof.
  apply (rrs2cent_decodes ex_response 4 0 1000 ex_section (zlen ex_response) [] [] ex_memory []).
  - by apply bytes_okb_spec.
  - split_and!; by vm_compute.
  - apply collected_nil.
  - apply (inv_no_cache []).
Defined.
(** The name "a.foo" has one address, with the smaller time to live. *)
Example ex_response_run :
  match rrs2cent ex_response 4 0 1000 ex_section ex_memory with
  | Some ((RET RC_OK, s), _, _) =>
      (map qname (default [] (centa s)), map (λ c, view (slot c 0)) (default [] (centa s)), lcnt s) =
      ([rhn ex_name; rhn [[97]; [102; 111; 111]]; rhn [[102; 111; 111]]],
       [None; Some (mkSet 0 None 50 1000 0 [[10; 0; 0; 1]]); None], 0)
  | _ => False
  end.
Proof. vm_compute. reflexivity. Qed.
