(* ===== verification/DnsAnswer.v ===== *)
(** * Answers to DNS queries

    [pdnsd/src/dns_answer.c], from [sva_add] to [process_query]: a query is decoded, and an
    answer is composed from cache entries: the question, the records that were asked for,
    the name servers, and addresses of the names in them.

    The message is its header and the bytes after it; [*sz] is the length of both.  A write
    is checked against [*allocsz], and a read of a name or of the data of a record against
    its length.  A dlist or llist is the list of its items.  The allocator, the random
    numbers, the cache and the resolver are the class [AnswerEnv]; other threads may change
    the cache between two calls.  [free_cent] of a copy only gives memory back and is left
    out, as are debug messages. *)

From S2P Require Import Prelude CInt DnsName DnsCompress RrTypes RrList DnsCent DnsCacheFile DnsResponse.

(** ** The header of a message *)

Record dns_hdr_t := mkDnsHdr {
  id : Z; rd_flag : Z; tc : Z; aa : Z; opcode : Z; qr : Z;
  h_rcode : Z; cd : Z; ad : Z; z : Z; ra : Z;
  qdcount : Z; ancount : Z; nscount : Z; arcount : Z }.
Definition sizeof_dns_hdr_t : Z := 12.
Definition be16 (v : Z) : bytes := [u8 (Z.shiftr v 8); u8 v].
Definition be32 (v : Z) : bytes := [u8 (Z.shiftr v 24); u8 (Z.shiftr v 16); u8 (Z.shiftr v 8); u8 v].
(** the bit fields of the two bytes after the identifier *)
Definition pack_hdr (h : dns_hdr_t) : bytes :=
  be16 (id h) ++
  [rd_flag h + 2 * tc h + 4 * aa h + 8 * opcode h + 128 * qr h;
   h_rcode h + 16 * cd h + 32 * ad h + 64 * z h + 128 * ra h] ++
  be16 (qdcount h) ++ be16 (ancount h) ++ be16 (nscount h) ++ be16 (arcount h).
Definition bits (v sh n : Z) : Z := Z.land (Z.shiftr v sh) (2 ^ n - 1).
Definition unpack_hdr (msg : bytes) : option dns_hdr_t :=
  i ← GETINT16 msg 0; b ← rd msg 2; c ← rd msg 3;
  qd ← GETINT16 msg 4; an ← GETINT16 msg 6; ns ← GETINT16 msg 8; ar ← GETINT16 msg 10;
  Some (mkDnsHdr i (bits b 0 1) (bits b 1 1) (bits b 2 1) (bits b 3 4) (bits b 7 1)
    (bits c 0 4) (bits c 4 1) (bits c 5 1) (bits c 6 1) (bits c 7 1) qd an ns ar).

Definition set_rcode (v : Z) (h : dns_hdr_t) : dns_hdr_t :=
  mkDnsHdr (id h) (rd_flag h) (tc h) (aa h) (opcode h) (qr h) (Z.land v 15) (cd h) (ad h) (z h) (ra h)
    (qdcount h) (ancount h) (nscount h) (arcount h).
Definition set_aa (v : Z) (h : dns_hdr_t) : dns_hdr_t :=
  mkDnsHdr (id h) (rd_flag h) (tc h) v (opcode h) (qr h) (h_rcode h) (cd h) (ad h) (z h) (ra h)
    (qdcount h) (ancount h) (nscount h) (arcount h).
Definition set_counts (qd an ns ar : Z) (h : dns_hdr_t) : dns_hdr_t :=
  mkDnsHdr (id h) (rd_flag h) (tc h) (aa h) (opcode h) (qr h) (h_rcode h) (cd h) (ad h) (z h) (ra h)
    (u16 qd) (u16 an) (u16 ns) (u16 ar).

(** return codes and other numbers *)
Definition RC_SERVFAIL : Z := 2.
Definition RC_NAMEERR : Z := 3.
Definition RC_NOTSUPP : Z := 4.
Definition RC_BADVERS : Z := 16.
Definition rc_number (e : rc) : Z := match e with RC_OK => 0 | RC_FORMAT => 1 | RC_TRUNC => 0xfffe end.
Definition QR_QUERY : Z := 0.
Definition QR_RESP : Z := 1.
Definition OP_QUERY : Z := 0.
Definition QC_ALL : Z := 255.
Definition QT_IXFR : Z := 251.
Definition QT_AXFR : Z := 252.
Definition QT_MAILB : Z := 253.
Definition QT_MAILA : Z := 254.
Definition QT_ALL : Z := 255.
Definition MAX_HOPS : nat := 20.
Definition UDP_BUFSIZE : Z := 512.
Definition ALLOCINITIALSIZE : Z := 256.
Definition ALLOCCHUNKSIZEMASK : Z := 0x7f.
Definition dnsmsghdroffset : Z := 2.
Definition sizeof_opt_pseudo_rr : Z := 1 + sizeof_rr_hdr_t.

(** ** What the answer is made from *)

Record dns_queryel_t := mkQuery { qtype : Z; qclass : Z; query : bytes }.
Inductive sect := S_ANSWER | S_AUTHORITY | S_ADDITIONAL.
Definition is_additional (s : sect) : bool := match s with S_ADDITIONAL => true | _ => false end.
(** a record that was added: its type, name and data; the lengths in [sva_t] and [rr_ext_t]
    have 16 bits *)
Record sva_t := mkSva { sv_tp : Z; sv_nm : bytes; sv_data : bytes }.
(** a name server, a SOA record, or ([RRETP_ADD]) a name to add the addresses of *)
Record rr_ext_t := mkExt { re_tp : Z; re_ttl : Z; re_tnm : bytes; re_nm : bytes }.
Definition RRETP_ADD : Z := 0.

Class AnswerEnv (X : Type) := {
  grow_list : M X Empty_set bool;
  realloc_msg : Z → M X Empty_set bool;
  random : M X Empty_set Z;
  (** [lookup_cache(name,NULL)] *)
  lookup : bytes → M X Empty_set (option dns_cent_t);
  local_owner : bytes → Z → M X Empty_set (option Z);
  (** [dns_cached_resolve]: the return code, [*cached] and [*c_soa] *)
  resolve : bytes → Z → M X Empty_set (Z * option dns_cent_t * Z);
}.

(** [ans], [*sz], [*allocsz], [cb], [sva], [ar] *)
Record reply X := mkReply {
  env : X; hdr : dns_hdr_t; body : bytes; allocsz : Z;
  cb : list compel_t; sva : list sva_t; ar : list rr_ext_t }.
Arguments mkReply {X}. Arguments env {X}. Arguments hdr {X}. Arguments body {X}. Arguments allocsz {X}.
Arguments cb {X}. Arguments sva {X}. Arguments ar {X}.
Definition sz {X} (s : reply X) : Z := sizeof_dns_hdr_t + zlen (body s).

Notation "'ok!' m ; k" := (mbind (λ b : bool, if b then k else mret false) m)
  (at level 10, m at level 99, k at level 200) : kilo_scope.

Section answer.
Context {X : Type} `{AnswerEnv X}.
Abbreviation A := (M (reply X) Empty_set).

Definition on_env {T} (m : M X Empty_set T) : A T := λ s,
  match m (env s) with
  | Some (a, x, es) => Some (a, mkReply x (hdr s) (body s) (allocsz s) (cb s) (sva s) (ar s), es)
  | None => None
  end.
Definition must {T} (o : option T) : A T := match o with Some a => mret a | None => unreachable end.
Definition upd_hdr (f : dns_hdr_t → dns_hdr_t) : A unit :=
  modify (λ s, mkReply (env s) (f (hdr s)) (body s) (allocsz s) (cb s) (sva s) (ar s)).
Definition set_body (b : bytes) : A unit :=
  modify (λ s, mkReply (env s) (hdr s) b (allocsz s) (cb s) (sva s) (ar s)).
Definition set_allocsz (n : Z) : A unit :=
  modify (λ s, mkReply (env s) (hdr s) (body s) n (cb s) (sva s) (ar s)).
Definition set_cb (l : list compel_t) : A unit :=
  modify (λ s, mkReply (env s) (hdr s) (body s) (allocsz s) l (sva s) (ar s)).
Definition set_sva (l : list sva_t) : A unit :=
  modify (λ s, mkReply (env s) (hdr s) (body s) (allocsz s) (cb s) l (ar s)).
Definition set_ar (l : list rr_ext_t) : A unit :=
  modify (λ s, mkReply (env s) (hdr s) (body s) (allocsz s) (cb s) (sva s) l).

(** room for [n] bytes at the end of the message *)
Definition need_room (n : Z) : A bool :=
  s ← get;
  let newsz := dnsmsghdroffset + sz s + n in
  if newsz >? allocsz s then
    let newallocsz := Z.land (newsz + ALLOCCHUNKSIZEMASK) (Z.lnot ALLOCCHUNKSIZEMASK) in
    ok! on_env (realloc_msg newallocsz);
    set_allocsz newallocsz;; mret true
  else mret true.
(** bytes are written at the end, and [*sz] grows *)
Definition append (b : bytes) : A unit :=
  s ← get;
  ASSERT (dnsmsghdroffset + sz s + zlen b <=? allocsz s);;
  set_body (body s ++ b).
(** bytes are written at [off] *)
Definition write_at (off : Z) (b : bytes) : A unit :=
  s ← get;
  ASSERT ((sizeof_dns_hdr_t <=? off) && (off + zlen b <=? sz s));;
  set_body (splice (off - sizeof_dns_hdr_t) b (body s)).
(** [compress_name] at the end of the message; it may need memory for the list *)
Definition compress (name : bytes) : A (option bytes) :=
  s ← get;
  g ← on_env grow_list;
  r ← must (compress_name name (sz s) (cb s) g);
  set_cb r.2;; mret r.1.
Definition put_name (name : bytes) (k : Z → A bool) : A bool :=
  r ← compress name;
  match r with None => mret false | Some out => append out;; k (zlen out) end.
(** [n] bytes of the data from [off] *)
Definition put_data (data : bytes) (off n : Z) : A unit :=
  ASSERT ((0 <=? off) && (0 <=? n) && (off + n <=? zlen data));;
  append (slice off n data).

Definition sva_add (rhn : bytes) (tp : Z) (data : bytes) : A bool :=
  rlen ← must (rhnlen rhn);
  ok! on_env grow_list;
  s ← get; set_sva (sva s ++ [mkSva tp (ztake rlen rhn) (ztake (u16 (zlen data)) data)]);; mret true.

(** ** One record *)

Section add_rr.
Context (data : bytes) (k : Z → A bool).
Let dlen : Z := zlen data.

(** the cases of [switch (type)], which end with [rdlen] *)
Definition put_one_name : A bool :=
  put_name data (λ rdlen, ASSERT (rdlen <=? dlen);; k rdlen).
Definition put_minfo : A bool :=
  put_name data (λ rdlen,
    ilen ← must (rhnlen data);
    ASSERT (rdlen <=? ilen);;
    put_name (zdrop ilen data) (λ blen,
      let rdlen := rdlen + blen in
      ASSERT (rdlen <=? dlen);; k rdlen)).
(** a name after [n] bytes *)
Definition put_after (n : Z) : A bool :=
  ASSERT (dlen >? n);;
  put_data data 0 n;;
  put_name (zdrop n data) (λ blen,
    let rdlen := n + blen in
    ASSERT (rdlen <=? dlen);; k rdlen).
Definition put_soa : A bool :=
  put_name data (λ rdlen,
    ilen ← must (rhnlen data);
    ASSERT (rdlen <=? ilen);;
    put_name (zdrop ilen data) (λ blen,
      let rdlen := rdlen + blen in
      n ← must (rhnlen (zdrop ilen data));
      let ilen := ilen + n in
      ASSERT (rdlen <=? ilen);;
      put_data data ilen 20;;
      let rdlen := rdlen + 20 in
      ASSERT (rdlen <=? dlen);; k rdlen)).
Definition put_px : A bool :=
  ASSERT (dlen >? 2);;
  put_data data 0 2;;
  let ilen := 2 in
  put_name (zdrop ilen data) (λ blen,
    let rdlen := 2 + blen in
    n ← must (rhnlen (zdrop ilen data));
    let ilen := ilen + n in
    ASSERT (rdlen <=? ilen);;
    put_name (zdrop ilen data) (λ blen,
      let rdlen := rdlen + blen in
      ASSERT (rdlen <=? dlen);; k rdlen)).
Definition put_nxt : A bool :=
  put_name data (λ blen,
    let rdlen := blen in
    ilen ← must (rhnlen data);
    ASSERT (rdlen <=? ilen);;
    ASSERT (dlen >=? ilen);;
    if dlen >? ilen then
      let wlen := dlen - ilen in
      put_data data ilen wlen;; k (rdlen + wlen)
    else k rdlen).
(** [for (j=0;j<3;j++)] *)
Fixpoint naptr_ilen (j : nat) (ilen : Z) : A Z :=
  match j with
  | O => mret ilen
  | S j =>
      b ← must (rd data ilen);
      let ilen := ilen + (b + 1) in
      ASSERT (dlen >? ilen);;
      naptr_ilen j ilen
  end.
Definition put_naptr : A bool :=
  ASSERT (dlen >? 4);;
  ilen ← naptr_ilen 3 4;
  put_data data 0 ilen;;
  put_name (zdrop ilen data) (λ blen,
    let rdlen := ilen + blen in
    ASSERT (rdlen <=? dlen);; k rdlen).
Definition put_rdata (type : Z) : A bool :=
  if one_of type [T_CNAME; T_MB; T_MD; T_MF; T_MG; T_MR; T_NS; T_PTR] then put_one_name
  else if one_of type [T_MINFO; T_RP] then put_minfo
  else if one_of type [T_MX; T_AFSDB; T_RT; T_KX] then put_after 2
  else if type =? T_SOA then put_soa
  else if type =? T_PX then put_px
  else if type =? T_SRV then put_after 6
  else if type =? T_NXT then put_nxt
  else if type =? T_NAPTR then put_naptr
  else put_data data 0 dlen;; k dlen.
End add_rr.

Definition count (section : sect) (h : dns_hdr_t) : dns_hdr_t :=
  match section with
  | S_ANSWER => set_counts (qdcount h) (ancount h + 1) (nscount h) (arcount h) h
  | S_AUTHORITY => set_counts (qdcount h) (ancount h) (nscount h + 1) (arcount h) h
  | S_ADDITIONAL => set_counts (qdcount h) (ancount h) (nscount h) (arcount h + 1) h
  end.
Definition over_limit (udp : option Z) (n : Z) : bool := match udp with Some u => n >? u | None => false end.
(** [section] [S_ADDITIONAL]: the record is taken back if the answer gets too long *)
Definition finish_rr (type ttl : Z) (section : sect) (udp : option Z) (osz rrht rdlen : Z) : A bool :=
  s ← get;
  if over_limit udp (sz s) && is_additional section then
    set_body (ztake (osz - sizeof_dns_hdr_t) (body s));; mret true
  else
    write_at rrht (be16 type ++ be16 C_IN ++ be32 ttl ++ be16 rdlen);;
    upd_hdr (count section);;
    mret true.
Definition add_rr (rrn : bytes) (type ttl : Z) (data : bytes) (section : sect) (udp : option Z) : A bool :=
  s ← get;
  let osz := sz s in
  nbuf ← compress rrn;
  match nbuf with
  | None => mret false
  | Some nbuf =>
      ok! need_room (zlen nbuf + sizeof_rr_hdr_t + zlen data);
      append nbuf;;
      s ← get;
      let rrht := sz s in
      append (replicate (Z.to_nat sizeof_rr_hdr_t) 0);;
      put_rdata data (finish_rr type ttl section udp osz rrht) type
  end.

(** ** The OPT record *)

Definition add_opt_pseudo_rr (udpsize rcode ednsver Zflags : Z) : A bool :=
  ok! need_room sizeof_opt_pseudo_rr;
  append ([0] ++ be16 T_OPT ++ be16 udpsize ++ [u8 (Z.shiftr rcode 4); u8 ednsver] ++ be16 Zflags ++ be16 0);;
  upd_hdr (count S_ADDITIONAL);;
  mret true.

(** ** Sets of records *)

Context (queryts udpbufsize : Z) (rnd_recs : bool).

Definition ans_ttl (s : rr_set_t) : Z :=
  if has (flags s) CF_LOCAL then ttl s
  else Z.max 0 (ttl s - Z.max 0 (queryts - ts s)).
Definition follow_cname_chain (c : dns_cent_t) : option (option bytes) :=
  v ← GET_RRSMU c 2;
  match v with
  | Some s =>
      match rrs s with
      | b :: _ => assert! zlen b <=? DNSNAMEBUFSIZE; Some (Some b)
      | [] => Some None
      end
  | None => Some None
  end.
Definition add_ar (tp : Z) (tnm nm : bytes) (ttl : Z) : A bool :=
  nmsz ← (if (tp =? T_NS) || (tp =? T_SOA) then must (rhnlen nm) else mret 0);
  ok! on_env grow_list;
  s ← get; set_ar (ar s ++ [mkExt tp ttl (ztake (u16 (zlen tnm)) tnm) (ztake nmsz nm)]);; mret true.

(** the records from the one [randrr] selects, those before it at the end *)
Definition randrr {T} (l : list T) : A nat :=
  r ← on_env random; mret (Z.to_nat (r mod zlen l)).
Definition in_order {T} (l : list T) : A (list T) :=
  match l with
  | [] => mret []
  | _ => if rnd_recs then k ← randrr l; mret (drop k l ++ take k l) else mret l
  end.
(** [ar_recs] and [ar_offs] *)
Definition ar_offs : list (Z * Z) := [(T_NS, 0); (T_MD, 0); (T_MF, 0); (T_MB, 0); (T_MX, 2); (T_SRV, 6)].
Definition ar_off (tp : Z) : option Z := snd <$> head (filter (λ p, p.1 = tp) ar_offs).
Definition mark_ar (tp : Z) (b : bytes) : A bool :=
  match ar_off tp with
  | Some off => ASSERT (off <=? zlen b);; add_ar RRETP_ADD (zdrop off b) [0] 0
  | None => mret true
  end.
Fixpoint add_records (l : list bytes) (rrn : bytes) (tp : Z) (s : rr_set_t) (udp : option Z) : A bool :=
  match l with
  | [] => mret true
  | b :: l =>
      ok! add_rr rrn tp (u32 (ans_ttl s)) b S_ANSWER udp;
      ok! (if one_of tp [T_NS; T_A; T_AAAA] then sva_add rrn tp b else mret true);
      ok! mark_ar tp b;
      add_records l rrn tp s udp
  end.
Definition add_rrset (rrn : bytes) (tp : Z) (cached : dns_cent_t) (udp : option Z) : A bool :=
  v ← must (getrrset cached tp);
  match v with
  | Some s => l ← in_order (rrs s); add_records l rrn tp s udp
  | None => mret true
  end.
Fixpoint add_rrsets (types : list Z) (rrn : bytes) (cached : dns_cent_t) (udp : option Z) : A bool :=
  match types with
  | [] => mret true
  | tp :: types => ok! add_rrset rrn tp cached udp; add_rrsets types rrn cached udp
  end.
Definition is_type (tp : Z) : bool := (T_MIN <=? tp) && (tp <=? T_MAX).
(** whether the entry has records of a type that can be stored *)
Definition has_type (c : dns_cent_t) (tp : Z) : option bool := if is_type tp then have_rr c tp else Some false.
Definition add_to_response (rrn : bytes) (qtype : Z) (cached : dns_cent_t) (udp : option Z) : A bool :=
  h ← (if negb (qtype =? T_CNAME) && negb (qtype =? QT_ALL) then must (has_type cached qtype) else mret true);
  ok! (if h : bool then mret true else add_rrset rrn T_CNAME cached udp);
  if (qtype =? QT_AXFR) || (qtype =? QT_IXFR) then mret false
  else if qtype =? QT_MAILB then add_rrsets [T_MB; T_MG; T_MR] rrn cached udp
  else if qtype =? QT_MAILA then add_rrsets [T_MD; T_MF] rrn cached udp
  else if qtype =? QT_ALL then types ← must (RRITERLIST cached); add_rrsets types rrn cached udp
  else if is_type qtype then add_rrset rrn qtype cached udp
  else mret false.

(** ** Addresses and name servers *)

Fixpoint already_added (l : list sva_t) (rhn : bytes) (tp : Z) (data : bytes) : option bool :=
  match l with
  | [] => Some false
  | st :: l =>
      if sv_tp st =? tp then
        e ← rhnicmp (sv_nm st) rhn;
        if (e : bool) && bool_decide (sv_data st = data) then Some true else already_added l rhn tp data
      else already_added l rhn tp data
  end.
Definition add_additional_rr (rhn : bytes) (tp ttl : Z) (data : bytes) (section : sect) (udp : option Z) : A bool :=
  s ← get;
  d ← must (already_added (sva s) rhn tp data);
  if d : bool then mret true
  else
    ok! add_rr rhn tp (u32 ttl) data section udp;
    sva_add rhn tp data.
Fixpoint add_each (l : list bytes) (rhn : bytes) (tp ttl : Z) (udp : option Z) : A bool :=
  match l with
  | [] => mret true
  | b :: l => ok! add_additional_rr rhn tp ttl b S_ADDITIONAL udp; add_each l rhn tp ttl udp
  end.
Definition add_additional_rrs (rhn : bytes) (tp ttl : Z) (l : list bytes) (udp : option Z) : A bool :=
  l ← in_order l; add_each l rhn tp ttl udp.
Definition add_addresses (rhn : bytes) (tp : Z) (v : option rr_set_t) (udp : option Z) : A bool :=
  match v with
  | Some s => add_additional_rrs rhn tp (ans_ttl s) (rrs s) udp
  | None => mret true
  end.
Definition add_additional_a (rhn : bytes) (udp : option Z) : A bool :=
  ae ← on_env (lookup rhn);
  match ae with
  | None => mret true
  | Some ae =>
      v ← must (GET_RRSMU ae 0);
      ok! add_addresses rhn T_A v udp;
      v ← must (GET_RRSMU ae 7);
      add_addresses rhn T_AAAA v udp
  end.

(** ** The answer *)

(** [goto cleanup_return], [goto error_ans] or [error_cached] *)
Inductive flow := GO_ON | RETURN (rcode : Z) | ERROR (rcode : Z).
Definition or_error (m : A bool) : A flow := b ← m; mret (if b : bool then GO_ON else ERROR 0).

Fixpoint add_questions (ql : list dns_queryel_t) : A bool :=
  match ql with
  | [] => mret true
  | qe :: ql =>
      len ← must (rhnlen (query qe));
      ok! need_room (len + 4);
      r ← compress (query qe);
      match r with
      | None => mret false
      | Some out =>
          append (out ++ be16 (qtype qe) ++ be16 (qclass qe));;
          upd_hdr (λ h, set_counts (qdcount h + 1) (ancount h) (nscount h) (arcount h) h);;
          add_questions ql
      end
  end.
Definition unsupported (qe : dns_queryel_t) : option bool :=
  bad ← PDNSD_NOT_CACHED_TYPE (qtype qe);
  Some (bad && negb (one_of (qtype qe) [QT_MAILB; QT_MAILA; QT_ALL]) || negb (one_of (qclass qe) [C_IN; QC_ALL])).
Fixpoint any_unsupported (ql : list dns_queryel_t) : option bool :=
  match ql with
  | [] => Some false
  | qe :: ql => b ← unsupported qe; if b : bool then Some true else any_unsupported ql
  end.

(** [rrset->flags&CF_NEGATIVE] *)
Definition not_negative (v : option rr_set_t) : option rr_set_t :=
  match v with Some s => if has (flags s) CF_NEGATIVE then None else Some s | None => None end.
Fixpoint add_soas (l : list bytes) (owner : bytes) (s : rr_set_t) (udp : option Z) : A bool :=
  match l with
  | [] => mret true
  | b :: l => ok! add_rr owner T_SOA (u32 (ans_ttl s)) b S_AUTHORITY udp; add_soas l owner s udp
  end.
(** the SOA record of a name that does not exist *)
Definition add_soa_of (qname : bytes) (c_soa : Z) (udp : option Z) : A bool :=
  if c_soa =? cundef then mret true
  else
    scnt ← must (rhnsegcnt qname);
    if c_soa <? scnt then
      o ← must (skipsegs qname 0 (Z.to_nat (scnt - c_soa)));
      cached ← on_env (lookup (zdrop o qname));
      match cached with
      | None => mret true
      | Some c =>
          v ← must (GET_RRSMU c 3);
          match not_negative v with
          | Some s => add_soas (rrs s) (DnsCent.qname c) s udp
          | None => mret true
          end
      end
    else mret true.
Definition add_opt (edns : bool) (rcode : Z) : A bool :=
  if edns then add_opt_pseudo_rr udpbufsize rcode 0 0 else mret true.
(** [rretp] *)
Definition wanted_authority (qtype : Z) (c : dns_cent_t) : option Z :=
  h ← has_type c qtype;
  b ← have_rr c T_MB; g ← have_rr c T_MG; r ← have_rr c T_MR; d ← have_rr c T_MD; f ← have_rr c T_MF;
  Some (if (is_type qtype && negb h) || ((qtype =? QT_MAILB) && negb b && negb g && negb r)
             || ((qtype =? QT_MAILA) && negb d && negb f)
        then T_SOA else T_NS).
(** the entry and its set of name servers or SOA records, perhaps of a parent *)
Definition find_authority (rretp : Z) (c : dns_cent_t) : A (option (dns_cent_t * rr_set_t)) :=
  v ← must (getrrset c rretp);
  match not_negative v with
  | Some s => mret (Some (c, s))
  | None =>
      scnt ← must (rhnsegcnt (DnsCent.qname c));
      let tcnt := if rretp =? T_NS then c_ns c else c_soa c in
      o ← (if negb (tcnt =? cundef) && (tcnt <? scnt) then must (skipsegs (DnsCent.qname c) 0 (Z.to_nat (scnt - tcnt))) else mret 0);
      cached ← on_env (lookup (zdrop o (DnsCent.qname c)));
      x ← match cached with
          | Some c' => v ← must (getrrset c' rretp); mret (match not_negative v with Some s => Some (c', s) | None => None end)
          | None => mret None
          end;
      match x with
      | Some x => mret (Some x)
      | None =>
          if has (c_flags c) DF_LOCAL then
            nm ← on_env (local_owner (DnsCent.qname c) rretp);
            match nm with
            | None => mret None
            | Some o =>
                cached ← on_env (lookup (zdrop o (DnsCent.qname c)));
                match cached with
                | Some c' => v ← must (getrrset c' rretp); mret (match v with Some s => Some (c', s) | None => None end)
                | None => mret None
                end
            end
          else mret None
      end
  end.
Fixpoint add_authorities (l : list bytes) (rretp : Z) (c : dns_cent_t) (s : rr_set_t) : A bool :=
  match l with
  | [] => mret true
  | b :: l => ok! add_ar rretp b (DnsCent.qname c) (u32 (ans_ttl s)); add_authorities l rretp c s
  end.
Definition list_authority (qtype : Z) (c : dns_cent_t) : A bool :=
  rretp ← must (wanted_authority qtype c);
  x ← find_authority rretp c;
  match x with
  | Some (c, s) => add_authorities (rrs s) rretp c s
  | None => mret true
  end.

(** [dns_cached_resolve] did not find the name *)
Definition not_found (qname : bytes) (rc c_soa : Z) (edns : bool) (udp : option Z) : A flow :=
  let rcode := u16 rc in
  upd_hdr (set_rcode rcode);;
  if rc =? RC_NAMEERR then
    b ← (ok! add_soa_of qname c_soa udp; add_opt edns rcode);
    mret (if b : bool then RETURN rcode else ERROR rcode)
  else mret (RETURN rcode).
(** the next name of a chain of aliases, if it is to be followed *)
Definition next_name (recurse : bool) (qtype : Z) (c : dns_cent_t) : option (option bytes) :=
  if recurse && negb (qtype =? T_CNAME) && negb (qtype =? QT_ALL) then
    h ← has_type c qtype;
    if h : bool then Some None else follow_cname_chain c
  else Some None.
(** the loop over a chain of aliases: what it adds, and whether all entries were local *)
Fixpoint answer_chain (hops : nat) (qname : bytes) (qtype : Z) (recurse edns : bool) (udp : option Z) (local : bool) : A (flow * bool) :=
  match hops with
  | O => mret (GO_ON, local)
  | S hops =>
      x ← on_env (resolve qname qtype);
      let '(rc, cached, c_soa) := x in
      if negb (rc =? 0) then f ← not_found qname rc c_soa edns udp; mret (f, local)
      else
        c ← must cached;
        let local := local && has (c_flags c) DF_LOCAL in
        b ← add_to_response qname qtype c udp;
        if negb b then mret (ERROR 0, local)
        else
          n ← must (next_name recurse qtype c);
          match n with
          | Some qname => answer_chain hops qname qtype recurse edns udp local
          | None => f ← or_error (list_authority qtype c); mret (f, local)
          end
  end.
Fixpoint answer_queries (ql : list dns_queryel_t) (recurse edns : bool) (udp : option Z) (local : bool) : A (flow * bool) :=
  match ql with
  | [] => mret (GO_ON, local)
  | qe :: ql =>
      x ← answer_chain (S MAX_HOPS) (query qe) (qtype qe) recurse edns udp local;
      match x.1 with
      | GO_ON => answer_queries ql recurse edns udp x.2
      | _ => mret x
      end
  end.
Fixpoint add_authority_section (l : list rr_ext_t) (udp : option Z) : A bool :=
  match l with
  | [] => mret true
  | e :: l =>
      ok! (if one_of (re_tp e) [T_NS; T_SOA] then
             add_additional_rr (re_nm e) (re_tp e) (re_ttl e) (re_tnm e) S_AUTHORITY udp
           else mret true);
      add_authority_section l udp
  end.
Fixpoint add_additional_section (l : list rr_ext_t) (udp : option Z) : A bool :=
  match l with
  | [] => mret true
  | e :: l =>
      ok! (if one_of (re_tp e) [T_NS; RRETP_ADD] then add_additional_a (re_tnm e) udp else mret true);
      add_additional_section l udp
  end.
Definition other_sections (edns : bool) (rcode : Z) (udp : option Z) : A bool :=
  s ← get;
  ok! add_authority_section (ar s) udp;
  s ← get;
  if over_limit udp (sz s + sizeof_opt_pseudo_rr) then mret true
  else
    ok! add_opt edns rcode;
    add_additional_section (ar s) udp.

Definition answer_hdr (h : dns_hdr_t) : dns_hdr_t :=
  mkDnsHdr (id h) (rd_flag h) 0 0 OP_QUERY QR_RESP 0 0 0 0 1 0 0 0 0.
(** the answer, if there is memory, and the return code *)
Definition compose_answer (ql : list dns_queryel_t) (h : dns_hdr_t) (edns : bool) (udp : option Z) :
    A (option (dns_hdr_t * bytes) * Z) :=
  let no_answer rcode : A (option (dns_hdr_t * bytes) * Z) := mret (None, rcode) in
  let return_ans rcode : A (option (dns_hdr_t * bytes) * Z) := s ← get; mret (Some (hdr s, body s), rcode) in
  p ← on_env (realloc_msg ALLOCINITIALSIZE);
  if negb p then no_answer 0
  else
    modify (λ s, mkReply (env s) (answer_hdr h) [] ALLOCINITIALSIZE [] [] []);;
    b ← add_questions ql;
    if negb b then no_answer 0
    else
      bad ← must (any_unsupported ql);
      if bad : bool then upd_hdr (set_rcode RC_NOTSUPP);; return_ans RC_NOTSUPP
      else
        x ← answer_queries ql (negb (rd_flag h =? 0)) edns udp true;
        match x.1 with
        | RETURN rcode => return_ans rcode
        | ERROR rcode => no_answer rcode
        | GO_ON =>
            b ← other_sections edns 0 udp;
            if negb b then no_answer 0
            else
              when (x.2 : bool) (upd_hdr (set_aa 1));;
              return_ans 0
        end.

(** ** Queries *)

Section query.
Context (data : bytes).

(** one question: the return code with the place after, and the question *)
Inductive question := BREAK (res : rc) | QUESTION (p cnt : Z) (qe : dns_queryel_t).
Definition decode_question (p cnt : Z) : option question :=
  r ← decompress_name data p cnt;
  match r with
  | Err e => Some (BREAK e)
  | Ok used qbuf =>
      let p := p + used in
      let cnt := cnt - used in
      if cnt <? 4 then Some (BREAK RC_TRUNC)
      else
        tp ← GETINT16 data p; cl ← GETINT16 data (p + 2);
        Some (QUESTION (p + 4) (cnt - 4) (mkQuery tp cl qbuf))
  end.
(** [res], the questions, [*ptrrem] and [*lenrem] *)
Fixpoint decode_questions (n : nat) (p cnt : Z) (ql : list dns_queryel_t) : A (Z * list dns_queryel_t * Z * Z) :=
  match n with
  | O => mret (0, ql, p, cnt)
  | S n =>
      x ← must (decode_question p cnt);
      match x with
      | BREAK RC_TRUNC => mret (rc_number RC_TRUNC, ql, p, cnt)
      | BREAK e => mret (rc_number e, [], p, cnt)
      | QUESTION p' cnt' qe =>
          g ← on_env grow_list;
          if g : bool then decode_questions n p' cnt' (ql ++ [qe])
          else mret (RC_SERVFAIL, [], p, cnt)
      end
  end.
Definition decode_query : A (Z * list dns_queryel_t * Z * Z) :=
  n ← must (GETINT16 data 4);
  decode_questions (Z.to_nat n) sizeof_dns_hdr_t (zlen data - sizeof_dns_hdr_t) [].

(** the records after the questions: [numopt] and what the first OPT record says *)
Fixpoint decode_query_additional (numrr : nat) (p cnt numopt : Z) (ep : edns_info_t) : option (rc * Z * edns_info_t) :=
  match numrr with
  | O => Some (RC_OK, numopt, ep)
  | S numrr =>
      r ← decompress_name data p cnt;
      match r with
      | Err e => Some (e, numopt, ep)
      | Ok used _ =>
          let p := p + used in
          let cnt := cnt - used in
          if cnt <? sizeof_rr_hdr_t then Some (RC_TRUNC, numopt, ep)
          else
            let cnt := cnt - sizeof_rr_hdr_t in
            tp ← GETINT16 data p;
            cl ← GETINT16 data (p + 2);
            rdlen ← GETINT16 data (p + 8);
            if cnt <? rdlen then Some (RC_TRUNC, numopt, ep)
            else if tp =? T_OPT then
              e ← (if numopt =? 0 then read_opt data (mkHdr tp cl 0 rdlen (p + 4)) else Some ep);
              decode_query_additional numrr (p + 10 + rdlen) (cnt - rdlen) (numopt + 1) e
            else decode_query_additional numrr (p + 10 + rdlen) (cnt - rdlen) numopt ep
      end
  end.

Definition mk_error_reply (i op res : Z) : dns_hdr_t :=
  mkDnsHdr i 0 0 0 op QR_RESP (Z.land res 15) 0 0 0 1 0 0 0 0.
(** [sizeof(dns_msg_t)] *)
Definition sizeof_dns_msg_t : Z := dnsmsghdroffset + sizeof_dns_hdr_t.
Definition error_reply (res : Z) : A (option (dns_hdr_t * bytes)) :=
  let extended := negb (Z.land res (Z.lnot 15) =? 0) in
  let size := sizeof_dns_msg_t + (if extended then sizeof_opt_pseudo_rr else 0) in
  p ← on_env (realloc_msg size);
  if negb p then mret None
  else
    i ← must (GETINT16 data 0);
    op ← (if zlen data >=? 3 then b ← must (rd data 2); mret (bits b 3 4) else mret OP_QUERY);
    modify (λ s, mkReply (env s) (mk_error_reply i op res) [] size [] [] []);;
    (if extended then add_opt_pseudo_rr udpbufsize res 0 0;; mret tt else mret tt);;
    s ← get; mret (Some (hdr s, body s)).

(** what the additional section says: an error, or whether there is EDNS, and the limit *)
Definition query_edns (h : dns_hdr_t) (res p cnt : Z) (udp : option Z) : option (Z + bool * option Z) :=
  if arcount h =? 0 then Some (inr (false, udp))
  else if negb (res =? 0) then Some (inl (rc_number RC_FORMAT))
  else
    x ← decode_query_additional (Z.to_nat (arcount h)) p cnt 0 (mkEdns 0 0 0 0);
    let '(res, numopt, ep) := x in
    if negb (match res with RC_OK => true | RC_TRUNC => negb (tc h =? 0) | RC_FORMAT => false end)
    then Some (inl (rc_number RC_FORMAT))
    else if numopt =? 0 then Some (inr (false, udp))
    else if negb (e_version ep =? 0) then Some (inl RC_BADVERS)
    else if negb (e_rcode ep =? 0) then Some (inl (rc_number RC_FORMAT))
    else
      Some (inr (true, match udp with
                       | Some u => if udpsize ep >? UDP_BUFSIZE then Some (Z.min udpbufsize (udpsize ep)) else Some u
                       | None => None
                       end)).
(** the answer, the return code, and [*udp] *)
Definition process_query (udp : option Z) : A (option (dns_hdr_t * bytes) * Z * option Z) :=
  let fail res : A (option (dns_hdr_t * bytes) * Z * option Z) := a ← error_reply res; mret (a, res, udp) in
  let ignore : A (option (dns_hdr_t * bytes) * Z * option Z) := mret (None, 0, udp) in
  if zlen data <? 2 then ignore
  else if zlen data <? sizeof_dns_hdr_t then fail (rc_number RC_FORMAT)
  else
    h ← must (unpack_hdr data);
    if negb (qr h =? QR_QUERY) then ignore
    else if negb (opcode h =? OP_QUERY) then fail RC_NOTSUPP
    else if negb (z h =? 0) then fail (rc_number RC_FORMAT)
    else if negb (h_rcode h =? 0) then ignore
    else if negb (ancount h =? 0) then fail (rc_number RC_FORMAT)
    else if negb (nscount h =? 0) then fail (rc_number RC_FORMAT)
    else
      x ← decode_query;
      let '(res, ql, p, cnt) := x in
      if (res =? rc_number RC_TRUNC) && ((tc h =? 0) || match ql with [] => true | _ => false end)
      then fail (rc_number RC_FORMAT)
      else if negb (res =? 0) && negb (res =? rc_number RC_TRUNC) then fail res
      else
        y ← must (query_edns h res p cnt udp);
        match y with
        | inl res => fail res
        | inr (edns, udp) =>
            match ql with
            | [] => a ← error_reply (rc_number RC_FORMAT); mret (a, rc_number RC_FORMAT, udp)
            | _ =>
                r ← compose_answer ql h edns udp;
                match r.1 with
                | Some ans => mret (Some ans, r.2, udp)
                | None => a ← error_reply RC_SERVFAIL; mret (a, RC_SERVFAIL, udp)
                end
            end
        end.
End query.
End answer.

(** [remove_opt_pseudo_rr]: the message without its last record, or 0 *)
Definition remove_opt_pseudo_rr (h : dns_hdr_t) (b : bytes) : option (option (dns_hdr_t * bytes)) :=
  let acnt := arcount h in
  if negb ((acnt >? 0) && (zlen b >=? sizeof_opt_pseudo_rr)) then Some None
  else
    let n := zlen b - sizeof_opt_pseudo_rr in
    nm ← rd b n;
    if negb (nm =? 0) then Some None
    else
      tp ← GETINT16 b (n + 1);
      if negb (tp =? T_OPT) then Some None
      else Some (Some (set_counts (qdcount h) (ancount h) (nscount h) (acnt - 1) h, ztake n b)).
