(* ===== verification/DnsAnswerSpec.v ===== *)
(** * The format of an answer

    What [add_rr] (file DnsAnswer) has to write, as relations on the message that do not
    follow the code: a record is read back with its name and the names in its data, whatever
    places they were compressed to.

    While a record is written there are parts of the message that do not have their contents
    yet.  They are holes, the number -1, which no name can use; what is known of a message
    with holes is true whatever is put into them. *)

From S2P Require Import Prelude CInt DnsName DnsCompress RrTypes RrList DnsHash DnsCent DnsCache Contract DnsCacheInv DnsCacheAdd DnsCacheOps DnsCacheSafe DnsCacheFile DnsCacheRead DnsCacheDisk DnsCacheReload DnsResponse DnsResponseSpec DnsResponseCache DnsAnswer.

(** ** Messages with holes *)

Definition hole : Z := -1.
Definition covers (m m' : bytes) : Prop := zlen m ≤ zlen m' ∧ ∀ i v, rd m i = Some v → v ≠ hole → rd m' i = Some v.
#[export] Instance covers_refl : Reflexive covers.
Proof. intros m. by split. Qed.
#[export] Instance covers_trans : Transitive covers.
Proof. intros a b c [Hl1 H1] [Hl2 H2]. split; [lia|]. intros i v Hi Hv. auto. Qed.
Lemma covers_app m x : covers m (m ++ x).
Proof. split; [rewrite zlen_app; pose proof (zlen_nonneg x); lia|]. intros i v Hi _. by apply rd_app_l. Qed.
Lemma rd_app_r m x i : zlen m ≤ i → rd (m ++ x) i = rd x (i - zlen m).
Proof.
  intros Hi. pose proof (zlen_nonneg m). unfold rd. replace (0 <=? i) with true by lia. replace (0 <=? i - zlen m) with true by lia.
  unfold zlen in *. rewrite lookup_app_r by lia. f_equal. lia.
Qed.
Lemma rd_app_inv m x i v : rd (m ++ x) i = Some v → rd m i = Some v ∨ zlen m ≤ i ∧ rd x (i - zlen m) = Some v.
Proof.
  intros Hi. destruct (Z.lt_ge_cases i (zlen m)) as [Hlt|Hge]; [left|right; split; [done|by rewrite <-rd_app_r]].
  pose proof (rd_bound _ _ _ Hi). destruct (rd_Some m i) as [w Hw]; [lia|]. by rewrite (rd_app_l _ x _ _ Hw) in Hi; simplify_eq.
Qed.
Lemma covers_app2 a a' x x' : covers a a' → zlen a = zlen a' → covers x x' → covers (a ++ x) (a' ++ x').
Proof.
  intros [_ Ha] Hz [Hl Hx]. split; [rewrite !zlen_app; lia|]. intros i v [Hi|[Hge Hi]]%rd_app_inv Hv.
  - apply rd_app_l. by apply Ha.
  - rewrite rd_app_r by lia. rewrite <-Hz. by apply Hx.
Qed.
Definition holes (n : Z) : bytes := replicate (Z.to_nat n) hole.
Lemma zlen_holes n : 0 ≤ n → zlen (holes n) = n.
Proof. intros. unfold zlen, holes. rewrite length_replicate. lia. Qed.
Lemma covers_holes n x : n ≤ zlen x → covers (holes n) x.
Proof.
  intros Hn. split; [pose proof (zlen_nonneg x); unfold zlen, holes in *; rewrite length_replicate; lia|]. intros i v Hi Hv. unfold rd, holes in Hi. destruct (0 <=? i); [|done].
  apply lookup_replicate in Hi as [-> _]. done.
Qed.
Lemma bytes_no_hole b : bytes_ok b → Forall (λ v, v ≠ hole) b.
Proof. intros H. eapply list.Forall_impl; [exact H|]. unfold hole. cbn. lia. Qed.
Lemma slice_covers m m' o n :
  covers m m' → 0 ≤ o → 0 ≤ n → o + n ≤ zlen m → bytes_ok (slice o n m) → slice o n m' = slice o n m.
Proof.
  intros Hc Ho Hn. rewrite <-(Z2Nat.id n Hn). revert o Ho. induction (Z.to_nat n) as [|k IH]; intros o Ho Hl Hb; [by rewrite !slice_0_len|].
  rewrite Nat2Z.inj_succ, <-Z.add_1_l in *. destruct (rd_Some m o) as [b Hr]; [lia|]. rewrite (slice_cons_rd _ _ _ _ Hr) in * by lia.
  apply list.Forall_cons in Hb as [Hb1 Hb]. destruct Hc as [Hz Hc]. rewrite (slice_cons_rd o _ m' b); [|apply Hc; [done|unfold hole; lia]|lia].
  f_equal. apply IH; [lia|lia|done].
Qed.

Lemma name_at_covers m m' off ls h n : covers m m' → name_at m off ls h n → Forall bytes_ok ls → name_at m' off ls h n.
Proof.
  intros Hc. pose proof Hc as [Hz Hrd]. induction 1 as [off Hr|off l ls h n Hr Hl Ho Hle Hs _ IH|off lb b ls h n Hr Hlb Hb Hn IH]; intros Hok.
  - apply name_root, Hrd; [done|unfold hole; lia].
  - apply list.Forall_cons in Hok as [Hlok Hok]. apply name_label; [apply Hrd; [done|unfold hole; lia]|done|done|lia| |by apply IH].
    rewrite <-Hs at 2. apply slice_covers; [done|lia|lia|lia|by rewrite Hs].
  - assert (b ≠ hole). { intros ->. apply name_at_bound in Hn. unfold pointer_offset, hole in Hn. rewrite Z.lor_m1_r in Hn. lia. }
    eapply name_pointer; [apply Hrd; [done|unfold hole; lia]|done|by apply Hrd|by apply IH].
Qed.
Lemma same_name_bytes a b : same_name a b → Forall bytes_ok b → Forall bytes_ok a.
Proof.
  unfold same_name. revert b. induction a as [|l a IH]; intros [|l' b] H Hb; try done. injection H as Hl H.
  apply list.Forall_cons in Hb as [Hb1 Hb]. constructor; [|by eapply IH]. clear -Hl Hb1. unfold fold_label in Hl.
  revert l' Hl Hb1. induction l as [|c l IH]; intros [|c' l'] Hl Hb; try done. injection Hl as Hc Hl. apply list.Forall_cons in Hb as [Hb1 Hb].
  constructor; [|by eapply IH]. unfold tolower in Hc. destruct ((65 <=? c) && (c <=? 90)) eqn:?, ((65 <=? c') && (c' <=? 90)) eqn:?; lia.
Qed.
Lemma label_bytes ls : Forall label_ok ls → Forall bytes_ok ls.
Proof. intros H. eapply list.Forall_impl; [exact H|]. by intros l []. Qed.
Lemma rhn_bytes ls : bytes_ok (rhn ls) → Forall bytes_ok ls.
Proof.
  induction ls as [|l ls IH]; [constructor|]. rewrite rhn_cons. intros [H1 H2]%bytes_ok_app. apply list.Forall_cons in H1 as [_ H1]. constructor; [done|by apply IH].
Qed.
Lemma readable_covers m m' o ls hops : covers m m' → Forall label_ok ls → readable m o ls hops → readable m' o ls hops.
Proof.
  intros Hc Hl (ls' & h & n & Hn & Hs & Hh). exists ls', h, n. split; [|done].
  eapply name_at_covers; [done|done|]. eapply same_name_bytes; [done|by apply label_bytes].
Qed.
Lemma entries_ok_covers m m' g : covers m m' → entries_ok m g → entries_ok m' g.
Proof.
  intros Hc H i e Hi. destruct (H i e Hi) as (Hw & Hb & Hr). split; [done|]. split; [done|]. intros r Hlt.
  destruct (Hr r Hlt) as (m0 & e0 & Hm & He0 & Hco & Hread & Ho). exists m0, e0. split_and!; try done.
  eapply readable_covers; [done| |done]. destruct (H m0 e0 He0) as ((Hl & _) & _). unfold lastn. by apply Forall_drop.
Qed.

Definition field_ok (f : field) : Prop := match f with BYTES n => 0 ≤ n | _ => True end.
Lemma parsed_le m fs off fin d : bytes_ok d → Forall field_ok fs → 0 ≤ off → parsed m fs off fin d → off ≤ fin.
Proof.
  intros Hd Hf Ho Hp. revert Hd Hf Ho. induction Hp as [off|off fin ls h n fs d Hn Hh Hz Hle _ IH|off fin n fs d Hle Hp IH|off fin n fs d Hr Hle Hp IH Hn|off fin Hle];
    intros Hd Hf Ho; try apply list.Forall_cons in Hf as [Hf1 Hf]; [lia|..|lia].
  - apply bytes_ok_app in Hd as [_ Hd]. pose proof (name_at_bound _ _ _ _ _ Hn). specialize (IH Hd Hf ltac:(lia)). lia.
  - apply bytes_ok_app in Hd as [_ Hd]. cbn in Hf1. specialize (IH Hd Hf ltac:(lia)). lia.
  - lia.
Qed.
Lemma parsed_covers m m' fs off fin d :
  covers m m' → Forall field_ok fs → bytes_ok d → 0 ≤ off → fin ≤ zlen m → parsed m fs off fin d → parsed m' fs off fin d.
Proof.
  intros Hc Hf Hd Ho Hz Hp. revert Hf Hd Ho Hz. induction Hp as [off|off fin ls h n fs d Hn Hh Hz Hle _ IH|off fin n fs d Hle Hp IH|off fin n fs d Hr Hle Hp IH Hn|off fin Hle];
    intros Hf Hd Ho Hzm; try apply list.Forall_cons in Hf as [Hf1 Hf].
  - constructor.
  - apply bytes_ok_app in Hd as [H1 H2]. pose proof (name_at_bound _ _ _ _ _ Hn). eapply parsed_name; [|done|done|done|apply IH; [done|done|lia|done]].
    eapply name_at_covers; [done|done|by apply rhn_bytes].
  - apply bytes_ok_app in Hd as [H1 H2]. cbn in Hf1. rewrite <-(slice_covers m m' off n Hc Ho); [|lia|lia|done]. apply parsed_bytes; [done|]. apply IH; [done|done|lia|done].
  - apply bytes_ok_app in Hd as [H1 H2]. rewrite <-(slice_covers m m' off (1 + n) Hc Ho); [|lia|lia|done].
    apply parsed_string; [|done|apply IH; [done|done|lia|done]|done]. apply Hc; [done|unfold hole; lia].
  - rewrite <-(slice_covers m m' off (fin - off) Hc Ho); [by apply parsed_rest|lia|lia|done].
Qed.

(** ** The data of a record *)

(** [d] consists of the parts [fs], with its names written out. *)
Inductive fields : list field → bytes → Prop :=
  | fields_nil : fields [] []
  | fields_name ls fs d : wf_name ls → fields fs d → fields (NAME :: fs) (rhn ls ++ d)
  | fields_bytes b fs d : bytes_ok b → fields fs d → fields (BYTES (zlen b) :: fs) (b ++ d)
  | fields_string b fs d : bytes_ok b → zlen b < 256 → fields fs d → fields (STRING :: fs) ((zlen b :: b) ++ d)
  | fields_rest d : bytes_ok d → fields [REST] d.
Definition wf_rdata (tp : Z) (d : bytes) : Prop :=
  zlen d < 2 ^ 16 ∧ (tp = T_NXT → zlen d ≤ 1040) ∧ ∃ fs, layout d tp 0 = Some fs ∧ fields fs d.
(** The same data, but letters in names may have another case. *)
Inductive recoded : list field → bytes → bytes → Prop :=
  | recoded_nil : recoded [] [] []
  | recoded_name ls ls' fs d d' : same_name ls' ls → recoded fs d d' → recoded (NAME :: fs) (rhn ls ++ d) (rhn ls' ++ d')
  | recoded_bytes b fs d d' : recoded fs d d' → recoded (BYTES (zlen b) :: fs) (b ++ d) (b ++ d')
  | recoded_string b fs d d' : recoded fs d d' → recoded (STRING :: fs) ((zlen b :: b) ++ d) ((zlen b :: b) ++ d')
  | recoded_rest d : recoded [REST] d d.

Lemma fields_ok fs d : fields fs d → bytes_ok d.
Proof.
  induction 1 as [|ls fs d [Hl _] _ IH|b fs d Hb _ IH|b fs d Hb Hz _ IH|d Hd]; [constructor|..]; try done; apply bytes_ok_app; (split; [|done]).
  - by apply rhn_bytes_ok.
  - done.
  - constructor; [pose proof (zlen_nonneg b); lia|done].
Qed.
Lemma fields_recoded fs d : fields fs d → recoded fs d d.
Proof. induction 1; constructor; done. Qed.
Lemma recoded_zlen fs d d' : recoded fs d d' → zlen d' = zlen d.
Proof. induction 1 as [|ls ls' fs d d' Hs _ IH| | |]; rewrite ?zlen_app; [done| |lia..]. by rewrite IH, !zlen_rhn, (same_name_zlen _ _ Hs). Qed.
Lemma rhn_at pre ls post : Forall label_ok ls → name_at (pre ++ rhn ls ++ post) (zlen pre) ls 0 (zlen (rhn ls)).
Proof.
  intros Hl. rewrite zlen_rhn. unfold rhn. rewrite <-app_assoc. rewrite <-(app_nil_r ls) at 2. apply name_at_labels; [done|].
  rewrite app_assoc. rewrite <-zlen_app. apply name_root. apply rd_text_end.
Qed.
Lemma slice_mid (pre d post : bytes) n : n = zlen d → slice (zlen pre) n (pre ++ d ++ post) = d.
Proof. intros ->. rewrite slice_app_r by lia. rewrite Z.sub_diag. by apply slice_0_app. Qed.
Lemma put_bytes m fs off fin b d :
  slice off (zlen b) m = b → off + zlen b ≤ fin → parsed m fs (off + zlen b) fin d → parsed m (BYTES (zlen b) :: fs) off fin (b ++ d).
Proof. intros Hs ??. assert (Hb : b ++ d = slice off (zlen b) m ++ d) by (by rewrite Hs). rewrite Hb. by apply parsed_bytes. Qed.
Lemma put_string m fs off fin b d :
  slice off (1 + zlen b) m = zlen b :: b → off + (1 + zlen b) ≤ fin → off + (1 + zlen b) ≤ zlen m → 0 ≤ off →
  parsed m fs (off + (1 + zlen b)) fin d → parsed m (STRING :: fs) off fin ((zlen b :: b) ++ d).
Proof.
  intros Hs Hf Hm Ho. pose proof (zlen_nonneg b). rewrite <-Hs. intros Hp. apply parsed_string; [|done|done|done].
  destruct (rd_Some m off) as [v Hv]; [lia|]. rewrite (slice_cons_rd _ _ _ _ Hv) in Hs by done. by injection Hs as -> _.
Qed.
Lemma put_rest m off fin d : slice off (zlen d) m = d → off + zlen d = fin → parsed m [REST] off fin d.
Proof.
  intros Hs <-. pose proof (zlen_nonneg d). assert (Hd : d = slice off (off + zlen d - off) m) by (by replace (off + zlen d - off) with (zlen d) by lia).
  rewrite Hd at 2. apply parsed_rest. lia.
Qed.
Lemma fields_parsed fs d pre post : fields fs d → parsed (pre ++ d ++ post) fs (zlen pre) (zlen pre + zlen d) d.
Proof.
  intros Hf. revert pre. induction Hf as [|ls fs d [Hl Hz] Hf IH|b fs d Hb Hf IH|b fs d Hb Hz Hf IH|d Hd]; intros pre.
  - rewrite Z.add_0_r. constructor.
  - specialize (IH (pre ++ rhn ls)). rewrite <-!app_assoc, !zlen_app in *. pose proof (zlen_nonneg d).
    eapply parsed_name; [by apply rhn_at|lia|done|lia|]. by rewrite Z.add_assoc.
  - specialize (IH (pre ++ b)). rewrite <-!app_assoc, !zlen_app in *. pose proof (zlen_nonneg d).
    apply put_bytes; [by apply slice_mid|lia|]. by rewrite Z.add_assoc.
  - specialize (IH (pre ++ zlen b :: b)). rewrite <-!app_assoc, !zlen_app, !zlen_cons in *. pose proof (zlen_nonneg d). pose proof (zlen_nonneg b).
    pose proof (zlen_nonneg pre). pose proof (zlen_nonneg post).
    apply put_string; [apply slice_mid; by rewrite zlen_cons|lia|zlens; lia|done|]. by replace (zlen pre + (1 + zlen b + zlen d)) with (zlen pre + (1 + zlen b) + zlen d) by lia.
  - by apply put_rest; [apply slice_mid|].
Qed.
Lemma parsed_fields m fs off fin d : bytes_ok m → Forall field_ok fs → parsed m fs off fin d → 0 ≤ off → fin ≤ zlen m → fields fs d.
Proof.
  intros Hm Hf Hp. revert Hf. induction Hp as [off|off fin ls h n fs d Hn Hh Hz Hle _ IH|off fin n fs d Hle Hp IH|off fin n fs d Hr Hle Hp IH Hn|off fin Hle];
    intros Hf Ho Hzm; try apply list.Forall_cons in Hf as [Hf1 Hf].
  - constructor.
  - pose proof (name_at_bound _ _ _ _ _ Hn). constructor; [|apply IH; [done|lia|done]]. split; [by eapply name_at_bytes|done].
  - cbn in Hf1. assert (Hz : zlen (slice off n m) = n) by (apply zlen_slice; lia). rewrite <-Hz at 1. constructor; [by apply bytes_ok_slice|].
    apply IH; [done|lia|done].
  - pose proof (rd_byte _ _ _ Hm Hr). rewrite (slice_cons_rd _ _ _ _ Hr) by lia. assert (Hz : zlen (slice (off + 1) n m) = n) by (apply zlen_slice; lia).
    rewrite <-Hz at 1. constructor; [by apply bytes_ok_slice|lia|]. apply IH; [done|lia|done].
  - constructor. by apply bytes_ok_slice.
Qed.
Lemma layout_ok m tp off fs : layout m tp off = Some fs → Forall field_ok fs.
Proof.
  unfold layout. repeat case_match; try (intros [= <-]; repeat constructor; cbn; lia).
  destruct (rd m (off + 1)); cbn [mbind option_bind]; [|done]. repeat case_match; try done; intros [= <-]; repeat constructor; cbn; lia.
Qed.
Lemma layout_covers m m' tp off fs : covers m m' → layout m tp off = Some fs → layout m' tp off = Some fs.
Proof.
  intros [_ Hc]. unfold layout. repeat case_match; try done. destruct (rd m (off + 1)) as [v|] eqn:Hr; cbn [mbind option_bind]; [|done].
  intros Hl. rewrite (Hc _ _ Hr); [done|]. intros ->. cbn in Hl. done.
Qed.
(** the layout of data that is written as it is, at another place *)
Lemma layout_data d tp pre post fs : layout d tp 0 = Some fs → layout (pre ++ d ++ post) tp (zlen pre) = Some fs.
Proof.
  unfold layout. repeat case_match; try done. destruct (rd d (0 + 1)) as [v|] eqn:Hr; cbn [mbind option_bind]; [|done].
  intros Hl. rewrite rd_app_r by lia. replace (zlen pre + 1 - zlen pre) with (0 + 1) by lia. by rewrite (rd_app_l _ post _ _ Hr).
Qed.
(** What [rrs2cent] puts into the cache is what [add_rr] expects, if its length fits. *)
Lemma canonical_wf m tp off fin d :
  bytes_ok m → 0 ≤ off → fin ≤ zlen m → zlen d < 2 ^ 16 → canonical m tp off fin d → wf_rdata tp d.
Proof.
  intros Hm Ho Hf Hz (fs & Hl & Hp & Hn). pose proof (parsed_fields _ _ _ _ _ Hm (layout_ok _ _ _ _ Hl) Hp Ho Hf) as Hfs.
  split; [done|]. split; [done|]. exists fs. split; [|done]. revert Hl. unfold layout. repeat case_match; try done.
  destruct (rd m (off + 1)) as [v|] eqn:Hr; cbn [mbind option_bind]; [|done]. intros Hl.
  assert (rd d (0 + 1) = Some v) as ->; [|done].
  assert (∃ fs', fs = BYTES 3 :: fs') as [fs' ->] by (repeat case_match; simplify_eq; by eexists).
  inversion Hp as [| |? ? n ? d' Hle Hd| |]; subst. destruct (rd_Some m off) as [a Ha]; [apply rd_bound in Hr; lia|].
  assert (Hle3 : off + 3 ≤ zlen m) by lia. clear Hd. replace 3 with (1 + (1 + 1)) by lia. rewrite (slice_cons_rd _ _ _ _ Ha), (slice_cons_rd _ _ _ _ Hr) by lia. done.
Qed.

(** ** Records *)

Record arec := mkArec { a_name : list bytes; a_type : Z; a_class : Z; a_ttl : Z; a_data : bytes }.
Definition wf_arec (r : arec) : Prop := wf_name (a_name r) ∧ wf_rdata (a_type r) (a_data r).
(** The record stands from [off] to [mid]. *)
Definition written (m : bytes) (r : arec) (off mid : Z) : Prop :=
  ∃ ls h n d fs, let p := off + n + sizeof_rr_hdr_t in
    name_at m off ls h n ∧ same_name ls (a_name r) ∧ h ≤ 128 ∧
    slice (off + n) sizeof_rr_hdr_t m = be16 (a_type r) ++ be16 (a_class r) ++ be32 (a_ttl r) ++ be16 (mid - p) ∧
    p ≤ mid < p + 2 ^ 16 ∧ mid ≤ zlen m ∧ 
    layout m (a_type r) p = Some fs ∧ parsed m fs p mid d ∧ recoded fs (a_data r) d ∧ bytes_ok d.
Inductive all_written (m : bytes) : list arec → Z → Z → Prop :=
  | all_nil off : all_written m [] off off
  | all_cons r rs off mid fin : written m r off mid → all_written m rs mid fin → all_written m (r :: rs) off fin.

Lemma be16_bytes v : be16 v = be_bytes 2 v.
Proof. unfold be16, be_bytes, u8. cbn. by rewrite Z.shiftr_div_pow2. Qed.
Lemma be32_bytes v : be32 v = be_bytes 4 v.
Proof.
  unfold be32, be_bytes, u8. rewrite !Z.shiftr_div_pow2 by done.
  change (le_bytes 4 v) with [v mod 256; v / 256 mod 256; v / 256 / 256 mod 256; v / 256 / 256 / 256 mod 256]. by rewrite !Z.div_div by lia.
Qed.
Lemma be_hdr tp cl t n :
  bytes_ok (be16 tp ++ be16 cl ++ be32 t ++ be16 n) ∧ zlen (be16 tp ++ be16 cl ++ be32 t ++ be16 n) = sizeof_rr_hdr_t.
Proof. rewrite !be16_bytes, be32_bytes. split; [|by rewrite !zlen_app, !zlen_be_bytes]. rewrite !bytes_ok_app. split_and!; apply be_bytes_ok. Qed.
Lemma slice_sub o n p k (m : bytes) : 0 ≤ o → 0 ≤ p → 0 ≤ k → p + k ≤ n → slice (o + p) k m = slice p k (slice o n m).
Proof.
  intros. unfold slice. rewrite zdrop_ztake, ztake_ztake by lia. rewrite zdrop_zdrop by lia. by replace (p + o) with (o + p) by lia.
Qed.

Lemma written_covers m m' r off mid : covers m m' → wf_name (a_name r) → 0 ≤ off → written m r off mid → written m' r off mid.
Proof.
  intros Hc [Hnm _] Ho (ls & h & n & d & fs & Hn & Hs & Hh & Hsl & Hm & Hz & Hl & Hp & Hr & Hd). pose proof (name_at_bound _ _ _ _ _ Hn).
  unfold sizeof_rr_hdr_t in *. pose proof Hc as [Hzc _]. exists ls, h, n, d, fs. unfold sizeof_rr_hdr_t. split_and!; try done; try lia.
  - eapply name_at_covers; [done|done|]. eapply same_name_bytes; [done|by apply label_bytes].
  - rewrite (slice_covers m m'); [done|done|lia|lia|lia|]. rewrite Hsl. apply be_hdr.
  - by eapply layout_covers.
  - eapply parsed_covers; [done|by eapply layout_ok|done|lia|done|done].
Qed.
Lemma all_written_covers m m' rs off fin :
  covers m m' → Forall (λ r, wf_name (a_name r)) rs → 0 ≤ off → all_written m rs off fin → all_written m' rs off fin.
Proof.
  intros Hc Hf Ho Hw. revert Hf Ho. induction Hw as [off|r rs off mid fin Hw _ IH]; intros Hf Ho; [constructor|].
  apply list.Forall_cons in Hf as [Hf1 Hf]. econstructor; [by eapply written_covers|]. apply IH; [done|].
  destruct Hw as (ls & h & n & d & fs & Hn & _ & _ & _ & Hm & _). pose proof (name_at_bound _ _ _ _ _ Hn). unfold sizeof_rr_hdr_t in Hm. lia.
Qed.
Lemma all_written_app m rs rs' off mid fin : all_written m rs off mid → all_written m rs' mid fin → all_written m (rs ++ rs') off fin.
Proof. induction 1 as [|r rs off mid' fin' Hw _ IH]; [done|]. intros H. econstructor; [done|by apply IH]. Qed.

(** A record that was written is one in the format of RFC 1035. *)
Definition in_range (r : arec) : Prop := 0 ≤ a_type r < 2 ^ 16 ∧ 0 ≤ a_class r < 2 ^ 16 ∧ 0 ≤ a_ttl r < 2 ^ 32.
Lemma written_rr m r off mid :
  written m r off mid → wf_name (a_name r) → (a_type r = T_NXT → zlen (a_data r) ≤ 1040) → in_range r → 0 ≤ off →
  ∃ ls p fs d, rr_at m off mid ls (a_type r) (a_class r) (a_ttl r) p (mid - p) ∧ same_name ls (a_name r) ∧
    canonical m (a_type r) p mid d ∧ layout m (a_type r) p = Some fs ∧ recoded fs (a_data r) d.
Proof.
  intros (ls & h & n & d & fs & Hn & Hs & Hh & Hsl & Hm & Hz & Hl & Hp & Hr & Hd) [_ Hwz] Hx (H1 & H2 & H3) Ho.
  pose proof (name_at_bound _ _ _ _ _ Hn). unfold sizeof_rr_hdr_t in *. set (p := off + n + 10) in *.
  exists ls, p, fs, d. split; [|split; [done|split; [|done]]].
  2: { exists fs. split; [done|]. split; [done|]. intros ?. rewrite (recoded_zlen _ _ _ Hr). by apply Hx. }
  assert (Hb : ∀ q k x, 0 ≤ q → q + Z.of_nat k ≤ 10 → slice q (Z.of_nat k) (be16 (a_type r) ++ be16 (a_class r) ++ be32 (a_ttl r) ++ be16 (mid - p)) = be_bytes k x →
    0 ≤ x < 256 ^ Z.of_nat k → be_at m (off + n + q) (Z.of_nat k) = x).
  { intros q k x Hq Hk Hbx Hrx. unfold be_at. rewrite (slice_sub (off + n) 10) by lia. rewrite Hsl, Hbx, be_val_be_bytes. by apply Z.mod_small. }
  rewrite !be16_bytes, be32_bytes in Hb.
  assert (Ht : be_at m (off + n) 2 = a_type r) by (rewrite <-(Z.add_0_r (off + n)); by apply (Hb 0 2%nat); [lia|lia| |lia]).
  assert (Hcl : be_at m (off + n + 2) 2 = a_class r) by (by apply (Hb 2 2%nat); [lia|lia| |lia]).
  assert (Htt : be_at m (off + n + 4) 4 = a_ttl r) by (by apply (Hb 4 4%nat); [lia|lia| |lia]).
  assert (Hrl : be_at m (off + n + 8) 2 = mid - p) by (by apply (Hb 8 2%nat); [lia|lia| |lia]).
  rewrite <-Ht, <-Hcl, <-Htt, <-Hrl. eapply rr_at_intro; [done|lia| |rewrite Hrl; unfold p; lia].
  rewrite zlen_rhn, (same_name_zlen _ _ Hs), <-zlen_rhn. done.
Qed.
