(* ===== verification/DnsAnswerRr.v ===== *)
(** * A record of an answer is written right

    [add_rr] and [add_opt_pseudo_rr] (file DnsAnswer): the record that is added can be read
    back, all names that were written before are still there, and a record that is taken
    back because the answer got too long leaves nothing behind. *)

From S2P Require Import Prelude CInt DnsName DnsCompress RrTypes RrList DnsHash DnsCent DnsCache Contract DnsCacheInv DnsCacheAdd DnsCacheOps DnsCacheSafe DnsCacheFile DnsCacheRead DnsCacheDisk DnsCacheReload DnsResponse DnsResponseSpec DnsResponseCache DnsAnswer DnsAnswerSpec.

(** ** Entries of the compression list that are never used

    The name of a record that was taken back stays in the list.  Such an entry is harmless
    when no pointer can reach its place, or when it is the root. *)

Definition unused (c : compel_t) : Prop := ∃ e, c = entry e ∧ wf_name e.2 ∧ 0 ≤ e.1 < 2 ^ 31 ∧ (e.2 = [] ∨ 0x3fff < e.1).
Inductive clean : list compel_t → list compel_t → Prop :=
  | clean_nil : clean [] []
  | clean_keep c l l' : clean l l' → clean (c :: l) (c :: l')
  | clean_skip c l l' : unused c → clean l l' → clean (c :: l) l'.
Lemma clean_refl l : clean l l.
Proof. induction l; by constructor. Qed.
Lemma clean_app l1 l1' l2 l2' : clean l1 l1' → clean l2 l2' → clean (l1 ++ l2) (l1' ++ l2').
Proof. induction 1; intros ?; [done|cbn [app]; constructor; auto..]. Qed.

Lemma longest_match_clean name rest l l' best :
  wf_name name → clean l l' → 0 ≤ best.1.1 → longest_match (rhn name ++ rest) l' best ≠ None →
  longest_match (rhn name ++ rest) l best = longest_match (rhn name ++ rest) l' best.
Proof.
  intros Hn Hc. revert best. induction Hc as [|c l l' _ IH|c l l' (e & -> & Hw & He & Hun) _ IH]; intros [[longest lrem] coffs] H0 Hsome; [done|..]; cbn [longest_match] in *.
  - destruct (domain_match (rhn name ++ rest) (s c)) as [[[rv rem] to]|]; cbn [mbind option_bind] in *; [|done].
    destruct (rv >? longest) eqn:Hgt; [|by apply IH]. apply IH; [|done]. cbn in *. destruct (_ <=? _); cbn; lia.
  - assert (Hd : domain_match (rhn name ++ rest) (s (entry e)) =
      Some (Z.of_nat (common name e.2), off name (common name e.2), off e.2 (common name e.2))).
    { rewrite <-(app_nil_r (s (entry e))). by apply domain_match_spec. }
    rewrite Hd. cbn [mbind option_bind index entry fst] in *. pose proof (off_bound e.2 (common name e.2) Hw).
    destruct (Z.of_nat (common name e.2) >? longest) eqn:Hgt; [|by apply IH]. unfold u32. rewrite Z.mod_small by lia.
    destruct Hun as [Hnil|Hbig].
    + rewrite Hnil, common_nil_r in Hgt. apply Z.gtb_lt in Hgt. cbn in H0. lia.
    + replace (e.1 + off e.2 (common name e.2) <=? 0x3fff) with false by lia. by apply IH.
Qed.
Lemma compress_name_clean name rest n cb cb' g out cb1' :
  wf_name name → clean cb cb' → compress_name (rhn name ++ rest) n cb' true = Some (Some out, cb1') →
  ∃ cb1, clean cb1 cb1' ∧ (compress_name (rhn name ++ rest) n cb g = Some (Some out, cb1) ∨ compress_name (rhn name ++ rest) n cb g = Some (None, [])).
Proof.
  intros Hn Hc. unfold compress_name. destruct (rhnlen (rhn name ++ rest)) as [ilen|]; cbn [mbind option_bind]; [|done].
  destruct (ilen <=? DNSNAMEBUFSIZE); [|done].
  destruct (longest_match (rhn name ++ rest) cb' (0, 0, 0)) as [[[longest lrem] coffs]|] eqn:Hl; cbn [mbind option_bind]; [|done].
  rewrite (longest_match_clean name rest cb cb' (0, 0, 0) Hn Hc); [|cbn; lia|by rewrite Hl]. rewrite Hl. cbn [mbind option_bind].
  destruct (if longest >? 0 then _ else _) as [[o add]|] eqn:Hr; cbn [mbind option_bind]; [|done].
  destruct add; intros [= -> <-].
  - exists (cb ++ [{| index := n; s := slice 0 ilen (rhn name ++ rest) |}]). split; [by apply clean_app; [|apply clean_refl]|]. destruct g; auto.
  - exists cb. auto.
Qed.

(** ** Runs *)

Section run.
Context {S : Type}.
Definition run {A} (m : M S Empty_set A) (Q : A → S → Prop) (s : S) : Prop := ∃ a s', m s = Some (a, s', []) ∧ Q a s'.
Context {A B : Type}.
Implicit Types (Q : A → S → Prop) (s : S).
Lemma run_mono (m : M S Empty_set A) Q Q' s : run m Q s → (∀ a s', Q a s' → Q' a s') → run m Q' s.
Proof. intros (a & s' & ? & ?) HQ. exists a, s'. auto. Qed.
Lemma run_ret a Q s : Q a s → run (mret a) Q s.
Proof. intros. by exists a, s. Qed.
Lemma run_bind (m : M S Empty_set B) (f : B → M S Empty_set A) Q s : run m (λ b s', run (f b) Q s') s → run (m ≫= f) Q s.
Proof. intros (b & s1 & Hm & a & s2 & Hf & HQ). exists a, s2. split; [|done]. by rewrite (M_bind_run0 _ _ _ _ _ Hm). Qed.
Lemma run_get (Q : S → S → Prop) s : Q s s → run get Q s.
Proof. intros. by exists s, s. Qed.
Lemma run_modify f (Q : unit → S → Prop) s : Q tt (f s) → run (modify f) Q s.
Proof. intros. by exists tt, (f s). Qed.
Lemma run_assert b (Q : unit → S → Prop) s : b = true → Q tt s → run (ASSERT b) Q s.
Proof. intros -> ?. by exists tt, s. Qed.
End run.
Ltac r_bind := apply run_bind.
Ltac r_get := r_bind; apply run_get.
Ltac r_assert := r_bind; apply run_assert; [|].

(** ** What the environment promises *)

(** an entry that [add_rr] can write the records of *)
Record good_cent (c : dns_cent_t) : Prop := {
  gc_name : ∃ nm, wf_name nm ∧ qname c = rhn nm;
  gc_ok : cent_ok c;
  gc_sets tp st : set_of c tp = Some st → Forall (wf_rdata tp) (rrs st);
}.
(** [Inv] holds of the environment; [found nm c]: the resolver found [c] for [nm]. *)
Class AnswerEnvLaws (X : Type) (E : AnswerEnv X) (Inv : X → Prop) (found : list bytes → dns_cent_t → Prop) : Prop := {
  grow_list_law x : Inv x → run grow_list (λ _, Inv) x;
  (** a block of memory has at most 2 GiB *)
  realloc_law n x : Inv x → run (realloc_msg n) (λ b x', Inv x' ∧ (b = true → n ≤ 2 ^ 31)) x;
  random_law x : Inv x → run random (λ _, Inv) x;
  lookup_law nm x : Inv x → wf_name nm → run (lookup (rhn nm)) (λ c x', Inv x' ∧ ∀ c', c = Some c' → good_cent c') x;
  owner_law nm tp x : Inv x → wf_name nm →
    run (local_owner (rhn nm) tp) (λ o x', Inv x' ∧ ∀ o', o = Some o' → ∃ k, zdrop o' (rhn nm) = rhn (drop k nm)) x;
  resolve_law nm tp x : Inv x → wf_name nm →
    run (resolve (rhn nm) tp) (λ r x', Inv x' ∧ 0 ≤ r.1.1 < 2 ^ 16 ∧ (r.1.1 = 0 → ∃ c, r.1.2 = Some c ∧ good_cent c ∧ found nm c)) x;
}.

Lemma parsed_snoc m fs fs2 off mid fin d d2 :
  parsed m fs off mid d → Forall (λ f, f ≠ REST) fs → parsed m fs2 mid fin d2 → mid ≤ fin → parsed m (fs ++ fs2) off fin (d ++ d2).
Proof.
  induction 1 as [off|off fin' ls h n fs d Hn Hh Hz Hle _ IH|off fin' n fs d Hle Hp IH|off fin' n fs d Hr Hle Hp IH Hn|off fin' Hle];
    intros Hf H2 Hm; try apply list.Forall_cons in Hf as [Hf1 Hf]; rewrite <-?app_assoc; cbn [app]; [done|..|done].
  - eapply parsed_name; [done|done|done|lia|auto].
  - apply parsed_bytes; [lia|auto].
  - apply parsed_string; [done|lia|auto|done].
Qed.
Lemma recoded_app fs fs2 d d' d2 d2' :
  recoded fs d d' → Forall (λ f, f ≠ REST) fs → recoded fs2 d2 d2' → recoded (fs ++ fs2) (d ++ d2) (d' ++ d2').
Proof.
  induction 1; intros Hf H2; try apply list.Forall_cons in Hf as [Hf1 Hf]; rewrite <-?app_assoc; cbn [app]; [done|by constructor; auto..|done].
Qed.

Lemma fields_one b : bytes_ok b → fields [BYTES (zlen b)] b.
Proof. intros Hb. rewrite <-(app_nil_r b) at 2. by constructor; [|constructor]. Qed.

Lemma fields_nil_inv d : fields [] d → d = [].
Proof. by inversion 1. Qed.
Lemma fields_name_inv fs d : fields (NAME :: fs) d → ∃ nm d', d = rhn nm ++ d' ∧ wf_name nm ∧ fields fs d'.
Proof. inversion 1; subst. eauto. Qed.
Lemma fields_bytes_inv n fs d : fields (BYTES n :: fs) d → ∃ b d', d = b ++ d' ∧ zlen b = n ∧ bytes_ok b ∧ fields fs d'.
Proof. inversion 1; subst. eauto 10. Qed.
Lemma fields_string_inv fs d : fields (STRING :: fs) d → ∃ b d', d = (zlen b :: b) ++ d' ∧ zlen b < 256 ∧ fields fs d'.
Proof. inversion 1; subst. eauto 10. Qed.

(** the types of addresses *)
Definition plain (type : Z) : bool := one_of type [T_A; T_AAAA].
Ltac one_lia := cbv [plain one_of existsb T_A T_AAAA T_CNAME T_MB T_MD T_MF T_MG T_MR T_NS T_PTR T_MINFO T_RP T_MX T_AFSDB T_RT T_KX T_SOA T_PX T_SRV T_NXT T_NAPTR T_IPSECKEY T_RRSIG T_NSEC T_OPT] in *; lia.
Ltac one_no := intros; exfalso; one_lia.

Section answer.
Context {X : Type} {E : AnswerEnv X} {Inv : X → Prop} {found : list bytes → dns_cent_t → Prop} {L : AnswerEnvLaws X E Inv found}.
Implicit Types (s : reply X) (g : list (Z * list bytes)) (G : bytes).

(** ** The message while it is written

    [G] is the message after the header, with holes for what is not known yet; the names in
    [g] were written. *)
Record ready s g G : Prop := {
  rd_env : Inv (env s);
  rd_len : zlen G = zlen (body s);
  rd_covers : covers (holes 12 ++ G) (holes 12 ++ body s);
  rd_entries : entries_ok (holes 12 ++ G) g;
  rd_cb : clean (cb s) (map entry g);
  rd_bytes : bytes_ok (body s);
  rd_room : dnsmsghdroffset + sz s ≤ allocsz s ≤ 2 ^ 31;
}.
Definition keeps s s' : Prop := hdr s' = hdr s ∧ allocsz s' = allocsz s ∧ sva s' = sva s ∧ ar s' = ar s.
Lemma kept_trans s1 s2 s3 : keeps s1 s2 → keeps s2 s3 → keeps s1 s3.
Proof. unfold keeps. intuition congruence. Qed.
Lemma zlen_holes12 G : zlen (holes 12 ++ G) = 12 + zlen G.
Proof. rewrite zlen_app, zlen_holes; lia. Qed.
Lemma ready_sz s g G : ready s g G → zlen (holes 12 ++ G) = sz s.
Proof. intros H. rewrite zlen_holes12, (rd_len _ _ _ H). done. Qed.

Lemma run_env {T} (m : M X Empty_set T) (P : T → X → Prop) (Q : T → reply X → Prop) s :
  run m P (env s) → (∀ a x, P a x → Q a (mkReply x (hdr s) (body s) (allocsz s) (cb s) (sva s) (ar s))) → run (on_env m) Q s.
Proof. intros (a & x & Hm & HP) HQ. eexists a, _. unfold on_env. rewrite Hm. split; [done|by apply HQ]. Qed.
Lemma run_must {T} (o : option T) a (Q : T → reply X → Prop) s : o = Some a → Q a s → run (must o) Q s.
Proof. intros -> ?. by apply run_ret. Qed.

Lemma compress_spec ls rest s g G :
  ready s g G → wf_name ls →
  run (compress (rhn ls ++ rest)) (λ r s', Inv (env s') ∧ body s' = body s ∧ keeps s s' ∧
    ∀ out, r = Some out → ∃ g', compressed (holes 12 ++ G) g ls out g' ∧ clean (cb s') (map entry g')) s.
Proof.
  intros Hr Hn. unfold compress. r_get. r_bind. apply (run_env _ _ _ _ (grow_list_law _ (rd_env _ _ _ Hr))). intros b x Hx.
  pose proof (ready_sz _ _ _ Hr) as Hsz. pose proof (rd_room _ _ _ Hr) as Hroom. unfold dnsmsghdroffset in Hroom.
  destruct (compress_name_ok (holes 12 ++ G) g ls rest (rd_entries _ _ _ Hr) Hn) as (out & g' & Hc & Hrun); [lia|].
  rewrite Hsz in Hrun. destruct (compress_name_clean _ _ _ _ _ b _ _ Hn (rd_cb _ _ _ Hr) Hrun) as (cb1 & Hcl & Hres).
  r_bind. destruct Hres as [Hres|Hres]; (eapply run_must; [exact Hres|]); r_bind; apply run_modify, run_ret; cbn [fst snd env body cb]; (split; [done|]); (split; [done|]); (split; [done|]).
  - intros out' [= <-]. by exists g'.
  - done.
Qed.
Lemma run_append b (Q : unit → reply X → Prop) s :
  dnsmsghdroffset + sz s + zlen b ≤ allocsz s →
  Q tt (mkReply (env s) (hdr s) (body s ++ b) (allocsz s) (cb s) (sva s) (ar s)) → run (append b) Q s.
Proof. intros Hle HQ. unfold append. r_get. r_assert; [lia|]. by apply run_modify. Qed.
(** bytes that are written; [G'] may have holes for them *)
Lemma append_ready b G' s g G :
  ready s g G → bytes_ok b → covers G' b → zlen G' = zlen b → dnsmsghdroffset + sz s + zlen b ≤ allocsz s →
  run (append b) (λ _ s', ready s' g (G ++ G') ∧ keeps s s' ∧ body s' = body s ++ b) s.
Proof.
  intros Hr Hb Hc Hz Hroom. apply run_append; [done|]. split; [|done]. split; cbn [env body cb allocsz]; try apply Hr.
  - rewrite !zlen_app, (rd_len _ _ _ Hr). lia.
  - rewrite !app_assoc. apply covers_app2; [apply Hr|rewrite !zlen_holes12, (rd_len _ _ _ Hr); done|done].
  - rewrite app_assoc. apply entries_ok_app, Hr.
  - apply bytes_ok_app. split; [apply Hr|done].
  - split; [|apply Hr]. revert Hroom. unfold sz. cbn [body]. rewrite zlen_app. lia.
Qed.

(** [d] was written from [off] on, as [d']. *)
Record emitted s g G off fs d d' : Prop := {
  em_ready : ready s g G;
  em_off : 12 ≤ off ≤ sz s;
  em_parsed : parsed (holes 12 ++ G) fs off (sz s) d';
  em_recoded : recoded fs d d';
  em_bytes : bytes_ok d';
  em_size : sz s ≤ off + zlen d;
  em_fields : Forall field_ok fs;
}.
Lemma emitted_start s g G : ready s g G → emitted s g G (sz s) [] [] [].
Proof.
  intros Hr. pose proof (zlen_nonneg (body s)). split; [done|unfold sz, sizeof_dns_hdr_t; lia| | | |rewrite zlen_nil; lia|constructor]; constructor.
Qed.
(** how the state grows; [ls] are the names that are known then *)
Record grows s g G s' g' G' out (ls : list (list bytes)) : Prop := {
  gr_keeps : keeps s s';
  gr_body : body s' = body s ++ out;
  gr_ghost : G' = G ++ out;
  gr_prefix : g `prefix_of` g';
  gr_knows : Forall (knows g') ls;
  gr_none : ls = [] → g' = g;
}.
Lemma knows_prefix g g' nm : g `prefix_of` g' → knows g nm → knows g' nm.
Proof. intros [k ->] (m & e & Hm & Hc). exists m, e. split; [by apply lookup_app_l_Some|done]. Qed.
Lemma grows_trans s1 g1 G1 s2 g2 G2 s3 g3 G3 o1 o2 l1 l2 :
  grows s1 g1 G1 s2 g2 G2 o1 l1 → grows s2 g2 G2 s3 g3 G3 o2 l2 → grows s1 g1 G1 s3 g3 G3 (o1 ++ o2) (l1 ++ l2).
Proof.
  intros [K1 B1 E1 P1 N1 Z1] [K2 B2 E2 P2 N2 Z2]. split; [by eapply kept_trans|by rewrite B2, B1, app_assoc|by rewrite E2, E1, app_assoc|by etrans| |].
  - apply Forall_app. split; [|done]. eapply list.Forall_impl; [exact N1|]. intros nm. by apply knows_prefix.
  - intros [-> ->]%app_nil. by rewrite Z2, Z1.
Qed.
Lemma grows_sz s1 g1 G1 s2 g2 G2 o l : grows s1 g1 G1 s2 g2 G2 o l → sz s2 = sz s1 + zlen o ∧ allocsz s2 = allocsz s1.
Proof. intros [(_ & Ha & _) B _ _ _ _]. unfold sz. rewrite B, zlen_app. split; [lia|done]. Qed.

Lemma name_written ls rest s g G off fs d d' k (Q : bool → reply X → Prop) :
  emitted s g G off fs d d' → wf_name ls → Forall (λ f, f ≠ REST) fs →
  dnsmsghdroffset + off + zlen (d ++ rhn ls) ≤ allocsz s →
  (∀ s', Inv (env s') → Q false s') →
  (∀ s' g' G' out ls', emitted s' g' G' off (fs ++ [NAME]) (d ++ rhn ls) (d' ++ rhn ls') → grows s g G s' g' G' out [ls] →
     zlen out ≤ zlen (rhn ls) → run (k (zlen out)) Q s') →
  run (put_name (rhn ls ++ rest) k) Q s.
Proof.
  intros [Hr Hoff Hp Hrec Hb Hs Hfo] Hn Hnr Hroom Hfail Hk. rewrite zlen_app in Hroom. unfold put_name. r_bind.
  eapply run_mono; [by eapply compress_spec|]. cbn beta.
  intros r s1 (Hi & Hbody & Hkeep & Hc). destruct r as [out|]; [|by apply run_ret, Hfail]. destruct (Hc out eq_refl) as (g' & (Hent & [Hlen Hbo] & Hg & ls' & h & Hat & Hsn & Hh) & Hcl).
  pose proof Hkeep as (Hh1 & Ha1 & _). assert (Hsz1 : sz s1 = sz s) by (unfold sz; by rewrite Hbody).
  assert (Hpre : g `prefix_of` g') by (destruct Hg as [[-> _]|[-> _]]; [done|by eexists]).
  assert (Hkn : knows g' ls).
  { destruct Hg as [[-> Hg]|[-> _]]; [done|]. exists (length g), (zlen (holes 12 ++ G), ls). split; [by rewrite lookup_app_r, Nat.sub_diag|]. cbn [snd]. by rewrite common_self. }
  r_bind. apply run_append; [rewrite Hsz1, Ha1; lia|]. rewrite Hbody. set (s2 := mkReply _ _ _ _ _ _ _).
  assert (Hgr : grows s g G s2 g' (G ++ out) out [ls]).
  { split; [exact Hkeep|done|done|done|by repeat constructor|done]. }
  destruct (grows_sz _ _ _ _ _ _ _ _ Hgr) as [Hsz2 Ha2]. rewrite (ready_sz _ _ _ Hr) in Hat. rewrite <-app_assoc in Hat, Hent.
  apply (Hk s2 g' (G ++ out) out ls'); [|done|lia]. pose proof Hn as [Hl Hz].
  assert (Hlb : Forall bytes_ok ls') by (eapply same_name_bytes; [done|by apply label_bytes]).
  assert (Hzz : zlen (rhn ls') = zlen (rhn ls)) by (rewrite !zlen_rhn; by rewrite (same_name_zlen _ _ Hsn)).
  split.
  - assert (Hb2 : body s2 = body s ++ out) by done. split; [done|by rewrite Hb2, !zlen_app, (rd_len _ _ _ Hr)|rewrite Hb2|exact Hent|exact Hcl|apply bytes_ok_app; split; [apply Hr|done]|].
    + rewrite !app_assoc. apply covers_app2; [apply Hr|rewrite !zlen_holes12, (rd_len _ _ _ Hr); done|done].
    + rewrite Ha2, Hsz2. pose proof (rd_room _ _ _ Hr). lia.
  - lia.
  - rewrite Hsz2. eapply (parsed_snoc _ _ _ _ (sz s)); [|done| |lia].
    + eapply parsed_covers; [|done|done|lia| |exact Hp]; [rewrite app_assoc; apply covers_app|]. rewrite (ready_sz _ _ _ Hr). lia.
    + rewrite <-(app_nil_r (rhn ls')). eapply parsed_name; [exact Hat|pose proof (wf_name_length _ Hn); lia|lia|lia|]. constructor.
  - apply recoded_app; [done|done|]. rewrite <-(app_nil_r (rhn ls)), <-(app_nil_r (rhn ls')). constructor; [done|constructor].
  - apply bytes_ok_app. split; [done|]. unfold rhn. apply bytes_ok_app. split; [|by repeat constructor].
    clear -Hlb Hsn Hl. unfold same_name in Hsn. revert ls Hsn Hl. induction Hlb as [|l ls' Hb _ IH]; intros [|l0 ls] Hsn Hl; try done; [constructor|].
    injection Hsn as H1 H2. apply list.Forall_cons in Hl as [[Hl0 _] Hl]. unfold rhn_labels. cbn [map concat]. apply bytes_ok_app. split; [|by eapply IH].
    constructor; [|done]. apply fold_label_length in H1. unfold zlen in *. lia.
  - rewrite zlen_app. lia.
  - apply Forall_app. split; [done|]. by repeat constructor.
Qed.
Lemma data_written data p n fs2 s g G off fs d d' :
  emitted s g G off fs d d' → Forall (λ f, f ≠ REST) fs → bytes_ok data → 0 ≤ p → 0 ≤ n → p + n ≤ zlen data → fields fs2 (slice p n data) →
  dnsmsghdroffset + off + zlen d + n ≤ allocsz s →
  run (put_data data p n) (λ _ s', ∃ G', emitted s' g G' off (fs ++ fs2) (d ++ slice p n data) (d' ++ slice p n data) ∧
    grows s g G s' g G' (slice p n data) []) s.
Proof.
  intros [Hr Hoff Hp Hrec Hb Hs Hfo] Hnr Hd Hp0 Hn Hpn Hf Hroom. assert (Hz : zlen (slice p n data) = n) by (apply zlen_slice; lia).
  unfold put_data. r_assert; [lia|]. eapply run_mono; [apply (append_ready _ (slice p n data) s g G Hr (bytes_ok_slice _ _ _ Hd)); [done|done|lia]|]. cbn beta.
  intros _ s' (Hr' & Hk & Hbody). exists (G ++ slice p n data).
  assert (Hgr : grows s g G s' g (G ++ slice p n data) (slice p n data) []) by (split; [done|done|done|done|constructor|done]).
  destruct (grows_sz _ _ _ _ _ _ _ _ Hgr) as [Hsz2 Ha2]. split; [|done].
  assert (Hpar : parsed (holes 12 ++ G ++ slice p n data) fs2 (sz s) (sz s + n) (slice p n data)).
  { pose proof (fields_parsed _ _ (holes 12 ++ G) [] Hf) as Hfp. rewrite app_nil_r, <-app_assoc, (ready_sz _ _ _ Hr), Hz in Hfp. exact Hfp. }
  split; [done|lia| | |apply bytes_ok_app; split; [done|by apply bytes_ok_slice]|rewrite zlen_app; lia|].
  - rewrite Hsz2, Hz. eapply (parsed_snoc _ _ _ _ (sz s)); [|done|exact Hpar|lia].
    eapply parsed_covers; [|done|done|lia| |exact Hp]; [rewrite app_assoc; apply covers_app|]. rewrite (ready_sz _ _ _ Hr). lia.
  - apply recoded_app; [done|done|]. by apply fields_recoded.
  - apply Forall_app. split; [done|]. clear -Hf. induction Hf; constructor; try done; cbn; apply zlen_nonneg.
Qed.

(** ** The data of each type *)


Section rdata.
Context (data : bytes) (k : Z → M (reply X) Empty_set bool) (Q : bool → reply X → Prop) (s : reply X) (g : list (Z * list bytes)) (G : bytes).
Context (Hready : ready s g G) (Hroom : dnsmsghdroffset + sz s + zlen data ≤ allocsz s) (Hdata : bytes_ok data).
Context (Hfail : ∀ s', Inv (env s') → Q false s').
(** what follows is right when the data was written as the parts [fs], with these names *)
Definition kont (fs : list field) (ls : list (list bytes)) : Prop :=
  ∀ s' g' G' out d', emitted s' g' G' (sz s) fs data d' → grows s g G s' g' G' out ls → run (k (sz s' - sz s)) Q s'.

Lemma put_one_name_spec nm : data = rhn nm → wf_name nm → kont [NAME] [nm] → run (put_one_name data k) Q s.
Proof.
  intros Hd Hn Hk. unfold put_one_name. rewrite Hd at 1. rewrite <-(app_nil_r (rhn nm)).
  eapply name_written; [by apply emitted_start|done|constructor|rewrite app_nil_l, <-Hd; done|done|]. cbn [app].
  intros s1 g1 G1 out ls' He Hgr Hz. destruct (grows_sz _ _ _ _ _ _ _ _ Hgr) as [Hsz _]. r_assert; [rewrite Hd; lia|].
  replace (zlen out) with (sz s1 - sz s) by lia. eapply Hk; [by rewrite Hd|done].
Qed.
Lemma put_minfo_spec n1 n2 : data = rhn n1 ++ rhn n2 → wf_name n1 → wf_name n2 → kont [NAME; NAME] [n1; n2] → run (put_minfo data k) Q s.
Proof.
  intros Hd Hn1 Hn2 Hk. assert (Hzd : zlen data = zlen (rhn n1) + zlen (rhn n2)) by (rewrite Hd; apply zlen_app). pose proof (zlen_rhn_pos n2).
  unfold put_minfo. rewrite Hd at 1. eapply name_written; [by apply emitted_start|done|constructor|cbn [app]; lia|done|]. cbn [app].
  intros s1 g1 G1 o1 l1 He1 Hgr1 Hz1. destruct (grows_sz _ _ _ _ _ _ _ _ Hgr1) as [Hsz1 Ha1]. r_bind. eapply run_must; [rewrite Hd; apply rhnlen_spec, Hn1|].
  r_assert; [lia|]. rewrite Hd, zdrop_app_length, <-(app_nil_r (rhn n2)).
  eapply name_written; [exact He1|done|by repeat constructor|rewrite zlen_app; lia|done|].
  intros s2 g2 G2 o2 l2 He2 Hgr2 Hz2. destruct (grows_sz _ _ _ _ _ _ _ _ Hgr2) as [Hsz2 _]. r_assert; [rewrite app_nil_r, <-Hd; lia|].
  replace (zlen o1 + zlen o2) with (sz s2 - sz s) by lia. eapply Hk; [by rewrite Hd|]. exact (grows_trans _ _ _ _ _ _ _ _ _ _ _ _ _ Hgr1 Hgr2).
Qed.
Lemma put_after_spec b nm : data = b ++ rhn nm → bytes_ok b → wf_name nm → kont [BYTES (zlen b); NAME] [nm] → run (put_after data k (zlen b)) Q s.
Proof.
  intros Hd Hb Hn Hk. assert (Hzd : zlen data = zlen b + zlen (rhn nm)) by (rewrite Hd; apply zlen_app). pose proof (zlen_rhn_pos nm). pose proof (zlen_nonneg b).
  assert (Hsl : slice 0 (zlen b) data = b) by (rewrite Hd; by apply slice_0_app).
  unfold put_after. r_assert; [lia|]. r_bind. eapply run_mono.
  { apply (data_written data 0 (zlen b) [BYTES (zlen b)]); [by apply emitted_start|constructor|done|lia|lia|lia| |rewrite zlen_nil; lia].
    rewrite Hsl. by apply fields_one. }
  cbn beta. intros _ s1 (G1 & He1 & Hgr1). rewrite Hsl in *. cbn [app] in He1. destruct (grows_sz _ _ _ _ _ _ _ _ Hgr1) as [Hsz1 Ha1].
  rewrite Hd, zdrop_app_length, <-(app_nil_r (rhn nm)).
  eapply name_written; [exact He1|done|by repeat constructor|rewrite zlen_app; lia|done|].
  intros s2 g2 G2 o2 l2 He2 Hgr2 Hz2. destruct (grows_sz _ _ _ _ _ _ _ _ Hgr2) as [Hsz2 _]. r_assert; [rewrite app_nil_r, <-Hd; lia|].
  replace (zlen b + zlen o2) with (sz s2 - sz s) by lia. eapply Hk; [by rewrite Hd|]. exact (grows_trans _ _ _ _ _ _ _ _ _ _ _ _ _ Hgr1 Hgr2).
Qed.
Lemma put_soa_spec n1 n2 b :
  data = rhn n1 ++ rhn n2 ++ b → wf_name n1 → wf_name n2 → zlen b = 20 → kont [NAME; NAME; BYTES (zlen b)] [n1; n2] → run (put_soa data k) Q s.
Proof.
  intros Hd Hn1 Hn2 Hb Hk. assert (Hzd : zlen data = zlen (rhn n1) + (zlen (rhn n2) + 20)) by (rewrite Hd, !zlen_app; lia). pose proof (zlen_rhn_pos n2). pose proof (zlen_rhn_pos n1).
  assert (Hbo : bytes_ok b) by (rewrite Hd, !bytes_ok_app in Hdata; tauto).
  unfold put_soa. rewrite Hd at 1. eapply name_written; [by apply emitted_start|done|constructor|cbn [app]; lia|done|]. cbn [app].
  intros s1 g1 G1 o1 l1 He1 Hgr1 Hz1. destruct (grows_sz _ _ _ _ _ _ _ _ Hgr1) as [Hsz1 Ha1]. r_bind. eapply run_must; [rewrite Hd; apply rhnlen_spec, Hn1|].
  r_assert; [lia|]. rewrite Hd at 1. rewrite zdrop_app_length.
  eapply name_written; [exact He1|done|by repeat constructor|rewrite zlen_app; lia|done|].
  intros s2 g2 G2 o2 l2 He2 Hgr2 Hz2. destruct (grows_sz _ _ _ _ _ _ _ _ Hgr2) as [Hsz2 Ha2].
  r_bind. eapply run_must; [rewrite Hd, zdrop_app_length; apply rhnlen_spec, Hn2|]. r_assert; [lia|].
  assert (Hsl : slice (zlen (rhn n1) + zlen (rhn n2)) 20 data = b).
  { rewrite Hd, app_assoc, slice_app_r by (rewrite zlen_app; lia). rewrite zlen_app, Z.sub_diag, <-Hb. by apply slice_all. }
  r_bind. eapply run_mono.
  { apply (data_written data (zlen (rhn n1) + zlen (rhn n2)) 20 [BYTES (zlen b)]); [exact He2|by repeat constructor|done|lia|lia|lia| |rewrite zlen_app; lia].
    rewrite Hsl. by apply fields_one. }
  cbn beta. intros _ s3 (G3 & He3 & Hgr3). rewrite Hsl in *. destruct (grows_sz _ _ _ _ _ _ _ _ Hgr3) as [Hsz3 _]. r_assert; [lia|].
  replace (zlen o1 + zlen o2 + 20) with (sz s3 - sz s) by lia. eapply Hk; [rewrite Hd, app_assoc; exact He3|].
  exact (grows_trans _ _ _ _ _ _ _ _ _ _ _ _ _ Hgr1 (grows_trans _ _ _ _ _ _ _ _ _ _ _ _ _ Hgr2 Hgr3)).
Qed.
Lemma put_px_spec b n1 n2 :
  data = b ++ rhn n1 ++ rhn n2 → zlen b = 2 → wf_name n1 → wf_name n2 → kont [BYTES (zlen b); NAME; NAME] [n1; n2] → run (put_px data k) Q s.
Proof.
  intros Hd Hb Hn1 Hn2 Hk. assert (Hzd : zlen data = 2 + (zlen (rhn n1) + zlen (rhn n2))) by (rewrite Hd, !zlen_app; lia). pose proof (zlen_rhn_pos n2). pose proof (zlen_rhn_pos n1).
  assert (Hbo : bytes_ok b) by (rewrite Hd, !bytes_ok_app in Hdata; tauto).
  assert (Hsl : slice 0 2 data = b) by (rewrite Hd, <-Hb; by apply slice_0_app).
  assert (Hdr : zdrop 2 data = rhn n1 ++ rhn n2) by (rewrite Hd, <-Hb; apply zdrop_app_length).
  unfold put_px. r_assert; [lia|]. r_bind. eapply run_mono.
  { apply (data_written data 0 2 [BYTES (zlen b)]); [by apply emitted_start|constructor|done|lia|lia|lia| |rewrite zlen_nil; lia].
    rewrite Hsl. by apply fields_one. }
  cbn beta zeta. intros _ s1 (G1 & He1 & Hgr1). rewrite Hsl in *. cbn [app] in He1. destruct (grows_sz _ _ _ _ _ _ _ _ Hgr1) as [Hsz1 Ha1]. rewrite Hdr.
  eapply name_written; [exact He1|done|by repeat constructor|rewrite zlen_app; lia|done|].
  intros s2 g2 G2 o2 l2 He2 Hgr2 Hz2. destruct (grows_sz _ _ _ _ _ _ _ _ Hgr2) as [Hsz2 Ha2].
  r_bind. eapply run_must; [apply rhnlen_spec, Hn1|]. r_assert; [lia|].
  assert (Hdr2 : zdrop (2 + zlen (rhn n1)) data = rhn n2).
  { replace (2 + zlen (rhn n1)) with (zlen (rhn n1) + 2) by lia. rewrite <-zdrop_zdrop by lia. rewrite Hdr. apply zdrop_app_length. }
  rewrite Hdr2, <-(app_nil_r (rhn n2)).
  eapply name_written; [exact He2|done|by repeat constructor|rewrite !zlen_app; lia|done|].
  intros s3 g3 G3 o3 l3 He3 Hgr3 Hz3. destruct (grows_sz _ _ _ _ _ _ _ _ Hgr3) as [Hsz3 _]. r_assert; [lia|].
  replace (2 + zlen o2 + zlen o3) with (sz s3 - sz s) by lia. eapply Hk; [rewrite Hd, app_assoc; exact He3|].
  exact (grows_trans _ _ _ _ _ _ _ _ _ _ _ _ _ Hgr1 (grows_trans _ _ _ _ _ _ _ _ _ _ _ _ _ Hgr2 Hgr3)).
Qed.
Lemma put_nxt_spec n1 b : data = rhn n1 ++ b → wf_name n1 → kont [NAME; REST] [n1] → run (put_nxt data k) Q s.
Proof.
  intros Hd Hn1 Hk. assert (Hzd : zlen data = zlen (rhn n1) + zlen b) by (rewrite Hd; apply zlen_app). pose proof (zlen_rhn_pos n1). pose proof (zlen_nonneg b).
  assert (Hbo : bytes_ok b) by (rewrite Hd, bytes_ok_app in Hdata; tauto).
  unfold put_nxt. rewrite Hd at 1. eapply name_written; [by apply emitted_start|done|constructor|cbn [app]; lia|done|]. cbn [app].
  intros s1 g1 G1 o1 l1 He1 Hgr1 Hz1. destruct (grows_sz _ _ _ _ _ _ _ _ Hgr1) as [Hsz1 Ha1]. r_bind. eapply run_must; [rewrite Hd; apply rhnlen_spec, Hn1|].
  r_assert; [lia|]. r_assert; [lia|].
  assert (Hsl : slice (zlen (rhn n1)) (zlen b) data = b).
  { rewrite Hd, slice_app_r by lia. rewrite Z.sub_diag. by apply slice_all. }
  destruct (zlen data >? zlen (rhn n1)) eqn:Hgt.
  - cbn zeta. replace (zlen data - zlen (rhn n1)) with (zlen b) by lia. r_bind. eapply run_mono.
    { apply (data_written data (zlen (rhn n1)) (zlen b) [REST]); [exact He1|by repeat constructor|done|lia|lia|lia| |lia].
      rewrite Hsl. by constructor. }
    cbn beta. intros _ s2 (G2 & He2 & Hgr2). rewrite Hsl in *. destruct (grows_sz _ _ _ _ _ _ _ _ Hgr2) as [Hsz2 _].
    replace (zlen o1 + zlen b) with (sz s2 - sz s) by lia. eapply Hk; [rewrite Hd; exact He2|]. exact (grows_trans _ _ _ _ _ _ _ _ _ _ _ _ _ Hgr1 Hgr2).
  - assert (b = []) as -> by (apply zlen_0_nil; lia). replace (zlen o1) with (sz s1 - sz s) by lia. eapply Hk; [|exact Hgr1].
    destruct He1 as [Hr Ho Hp Hrec Hb Hs Hf]. rewrite Hd. split; [done|done| | |done|by rewrite app_nil_r|by repeat constructor].
    + rewrite <-(app_nil_r (rhn l1)). eapply (parsed_snoc _ [NAME]); [exact Hp|by repeat constructor| |lia].
      apply put_rest; [by rewrite slice_0_len|rewrite zlen_nil; lia].
    + rewrite <-(app_nil_r (rhn l1)). apply (recoded_app [NAME] [REST] (rhn n1) (rhn l1) [] []); [done|by repeat constructor|constructor].
Qed.
Lemma naptr_ilen_spec strs pre rest (Q' : Z → reply X → Prop) :
  data = pre ++ rhn_labels strs ++ rest → 0 < zlen rest → Q' (zlen pre + zlen (rhn_labels strs)) s → run (naptr_ilen data (length strs) (zlen pre)) Q' s.
Proof.
  revert pre. induction strs as [|x strs IH]; intros pre Hd Hr HQ; cbn [length naptr_ilen].
  { apply run_ret. change (rhn_labels []) with (@nil Z) in HQ. by rewrite zlen_nil, Z.add_0_r in HQ. }
  change (rhn_labels (x :: strs)) with ((zlen x :: x) ++ rhn_labels strs) in *.
  r_bind. eapply run_must; [rewrite Hd; apply rd_text_end|]. rewrite <-!app_assoc in Hd. pose proof (zlen_nonneg (rhn_labels strs)).
  r_assert; [rewrite Hd; zlens; lia|]. replace (zlen pre + (zlen x + 1)) with (zlen (pre ++ zlen x :: x)) by (zlens; lia).
  apply IH; [rewrite Hd, <-app_assoc; done|done|]. revert HQ. rewrite !zlen_app, Z.add_assoc. done.
Qed.
Lemma put_naptr_spec b x y w nm :
  data = b ++ rhn_labels [x; y; w] ++ rhn nm → zlen b = 4 → zlen x < 256 → zlen y < 256 → zlen w < 256 → wf_name nm →
  kont [BYTES (zlen b); STRING; STRING; STRING; NAME] [nm] → run (put_naptr data k) Q s.
Proof.
  intros Hd Hb Hx Hy Hw Hn Hk. set (r := rhn_labels [x; y; w]) in *. pose proof (zlen_rhn_pos nm). pose proof (zlen_nonneg r).
  assert (Hzd : zlen data = 4 + (zlen r + zlen (rhn nm))) by (rewrite Hd, !zlen_app; lia).
  assert (Hsl : slice 0 (4 + zlen r) data = b ++ r) by (rewrite Hd, app_assoc; apply slice_0_app; rewrite zlen_app; lia).
  assert (Hf : fields [BYTES (zlen b); STRING; STRING; STRING] (b ++ r)).
  { rewrite Hd, !bytes_ok_app in Hdata. destruct Hdata as (Hb1 & Hr1 & _). unfold r, rhn_labels in Hr1. cbn [map concat] in Hr1. rewrite app_nil_r, !bytes_ok_app in Hr1.
    destruct Hr1 as (H1 & H2 & H3). apply list.Forall_cons in H1 as [_ H1]. apply list.Forall_cons in H2 as [_ H2]. apply list.Forall_cons in H3 as [_ H3].
    constructor; [done|]. unfold r, rhn_labels. cbn [map concat]. repeat (constructor; [done|done|]). constructor. }
  unfold put_naptr. r_assert; [lia|]. r_bind. replace 4 with (zlen b) at 1.
  eapply (naptr_ilen_spec [x; y; w]); [exact Hd|lia|]. fold r. rewrite Hb. r_bind. eapply run_mono.
  { apply (data_written data 0 (4 + zlen r) [BYTES (zlen b); STRING; STRING; STRING]); [by apply emitted_start|constructor|done|lia|lia|lia|by rewrite Hsl|rewrite zlen_nil; lia]. }
  cbn beta. intros _ s1 (G1 & He1 & Hgr1). rewrite Hsl in *. cbn [app] in He1. destruct (grows_sz _ _ _ _ _ _ _ _ Hgr1) as [Hsz1 Ha1]. rewrite zlen_app in Hsz1.
  assert (Hdr : zdrop (4 + zlen r) data = rhn nm) by (rewrite Hd, app_assoc, <-Hb, <-zlen_app; apply zdrop_app_length).
  rewrite Hdr, <-(app_nil_r (rhn nm)).
  eapply name_written; [exact He1|done|by repeat constructor|rewrite !zlen_app; lia|done|].
  intros s2 g2 G2 o2 l2 He2 Hgr2 Hz2. destruct (grows_sz _ _ _ _ _ _ _ _ Hgr2) as [Hsz2 _]. r_assert; [lia|].
  replace (4 + zlen r + zlen o2) with (sz s2 - sz s) by lia. eapply Hk; [rewrite Hd, app_assoc; exact He2|]. exact (grows_trans _ _ _ _ _ _ _ _ _ _ _ _ _ Hgr1 Hgr2).
Qed.
Lemma put_default_spec fs : fields fs data → kont fs [] → run (put_data data 0 (zlen data);; k (zlen data)) Q s.
Proof.
  intros Hf Hk. pose proof (zlen_nonneg data). assert (Hsl : slice 0 (zlen data) data = data) by (by apply slice_all).
  r_bind. eapply run_mono; [apply (data_written data 0 (zlen data) fs); [by apply emitted_start|constructor|done|lia|lia|lia|by rewrite Hsl|rewrite zlen_nil; lia]|].
  cbn beta. intros _ s1 (G1 & He1 & Hgr1). rewrite Hsl in *. cbn [app] in He1. destruct (grows_sz _ _ _ _ _ _ _ _ Hgr1) as [Hsz1 Ha1].
  replace (zlen data) with (sz s1 - sz s) by lia. by eapply Hk.
Qed.

(** the names that other records may need the addresses of *)
Definition targets (type : Z) (ls : list (list bytes)) : Prop := ∀ o nm, ar_off type = Some o → wf_name nm → zdrop o data = rhn nm → nm ∈ ls.

Lemma ar_off_cases type o : ar_off type = Some o → (o = 0 ∧ one_of type [T_NS; T_MD; T_MF; T_MB] = true) ∨ (o = 2 ∧ type = T_MX) ∨ (o = 6 ∧ type = T_SRV).
Proof.
  unfold ar_off, ar_offs. rewrite !list.filter_cons. cbn [fst].
  destruct (decide (T_NS = type)) as [<-|]; [intros [= <-]; by left|]. destruct (decide (T_MD = type)) as [<-|]; [intros [= <-]; by left|].
  destruct (decide (T_MF = type)) as [<-|]; [intros [= <-]; by left|]. destruct (decide (T_MB = type)) as [<-|]; [intros [= <-]; by left|].
  destruct (decide (T_MX = type)) as [<-|]; [intros [= <-]; by right; left|]. destruct (decide (T_SRV = type)) as [<-|]; [intros [= <-]; by right; right|]. done.
Qed.
Lemma targets_name type nm pre :
  data = pre ++ rhn nm → wf_name nm → (∀ o, ar_off type = Some o → o = zlen pre) → targets type [nm].
Proof.
  intros Hd [Hn _] Ho o nm' Hof [Hn' _] Hz. rewrite (Ho o Hof), Hd, zdrop_app_length in Hz. apply rhn_inj in Hz as ->; [by constructor|done|done].
Qed.
Lemma targets_none type ls : ar_off type = None → targets type ls.
Proof. intros H o nm Ho. by rewrite H in Ho. Qed.
Ltac no_target := match goal with |- ar_off ?type = None => destruct (ar_off type) eqn:Hat; [exfalso; apply ar_off_cases in Hat as [[_ ?]|[[_ ->]|[_ ->]]]; one_lia|done] end.
Lemma put_rdata_spec type fs :
  layout data type 0 = Some fs → fields fs data →
  (∀ ls, targets type ls → (plain type = true → ls = []) → kont fs ls) → run (put_rdata data k type) Q s.
Proof.
  intros Hl Hf Hk. unfold put_rdata. unfold layout in Hl.
  destruct (Z.eqb_spec type T_A) as [->|_]. { change (run (put_data data 0 (zlen data);; k (zlen data)) Q s). eapply put_default_spec; [done|]. by apply Hk; [apply targets_none|]. }
  destruct (one_of type [T_CNAME; T_MB; T_MD; T_MF; T_MG; T_MR; T_NS; T_PTR]) eqn:E1.
  { injection Hl as <-. apply fields_name_inv in Hf as (nm & d & Hd & Hn & ->%fields_nil_inv). rewrite app_nil_r in Hd. apply (put_one_name_spec nm Hd Hn), Hk; [|one_no].
    apply (targets_name _ _ []); [done|done|]. intros o [[-> _]|[[-> ->]|[-> ->]]]%ar_off_cases; done. }
  destruct (one_of type [T_MINFO; T_RP]) eqn:E2.
  { injection Hl as <-. apply fields_name_inv in Hf as (n1 & d & Hd & Hn1 & (n2 & d' & -> & Hn2 & ->%fields_nil_inv)%fields_name_inv). rewrite app_nil_r in Hd.
    apply (put_minfo_spec n1 n2 Hd Hn1 Hn2), Hk; [apply targets_none; by no_target|one_no]. }
  destruct (one_of type [T_MX; T_AFSDB; T_RT; T_KX]) eqn:E3.
  { injection Hl as <-. apply fields_bytes_inv in Hf as (b & d & Hd & Hb & Hbo & (nm & d' & -> & Hn & ->%fields_nil_inv)%fields_name_inv). rewrite app_nil_r in Hd.
    rewrite <-Hb in *. apply (put_after_spec b nm Hd Hbo Hn), Hk; [|one_no].
    apply (targets_name _ _ b); [done|done|]. intros o [[-> ?]|[[-> ->]|[-> ->]]]%ar_off_cases; [exfalso; one_lia|done|done]. }
  destruct (Z.eqb_spec type T_SOA) as [->|_].
  { injection Hl as <-. apply fields_name_inv in Hf as (n1 & d & Hd & Hn1 & (n2 & d' & -> & Hn2 & (b & d'' & -> & Hb & Hbo & ->%fields_nil_inv)%fields_bytes_inv)%fields_name_inv).
    rewrite app_nil_r in Hd. apply (put_soa_spec n1 n2 b Hd Hn1 Hn2 Hb). rewrite Hb. by apply Hk; [apply targets_none|]. }
  destruct (Z.eqb_spec type T_AAAA) as [->|_]. { change (run (put_data data 0 (zlen data);; k (zlen data)) Q s). eapply put_default_spec; [done|]. by apply Hk; [apply targets_none|]. }
  destruct (Z.eqb_spec type T_PX) as [->|_].
  { injection Hl as <-. apply fields_bytes_inv in Hf as (b & d & Hd & Hb & Hbo & (n1 & d' & -> & Hn1 & (n2 & d'' & -> & Hn2 & ->%fields_nil_inv)%fields_name_inv)%fields_name_inv).
    rewrite app_nil_r in Hd. apply (put_px_spec b n1 n2 Hd Hb Hn1 Hn2). rewrite Hb. by apply Hk; [apply targets_none|]. }
  destruct (Z.eqb_spec type T_SRV) as [->|Hsrv].
  { injection Hl as <-. apply fields_bytes_inv in Hf as (b & d & Hd & Hb & Hbo & (nm & d' & -> & Hn & ->%fields_nil_inv)%fields_name_inv). rewrite app_nil_r in Hd.
    rewrite <-Hb in *. apply (put_after_spec b nm Hd Hbo Hn), Hk; [|done]. apply (targets_name _ _ b); [done|done|]. by intros o [= <-]. }
  destruct (Z.eqb_spec type T_NXT) as [->|_].
  { injection Hl as <-. apply fields_name_inv in Hf as (n1 & d & Hd & Hn1 & _). apply (put_nxt_spec n1 d Hd Hn1). by apply Hk; [apply targets_none|]. }
  destruct (Z.eqb_spec type T_NAPTR) as [->|_].
  { injection Hl as <-. apply fields_bytes_inv in Hf as (b & d & Hd & Hb & Hbo & (x & d1 & -> & Hx & (y & d2 & -> & Hy & (w & d3 & -> & Hw & Hf)%fields_string_inv)%fields_string_inv)%fields_string_inv).
    apply fields_name_inv in Hf as (nm & d' & -> & Hn & ->%fields_nil_inv). rewrite app_nil_r in Hd.
    apply (put_naptr_spec b x y w nm); try done; [|rewrite Hb; by apply Hk; [apply targets_none|]].
    rewrite Hd. unfold rhn_labels. cbn [map concat]. by rewrite app_nil_r, <-!app_assoc. }
  eapply put_default_spec; [exact Hf|]. apply Hk; [|done]. intros o nm [[_ ?]|[[_ ?]|[_ ?]]]%ar_off_cases; exfalso; [one_lia|subst type; one_lia|done].
Qed.
End rdata.

(** ** The whole record *)

Lemma recoded_bytes_inv n fs d d' : recoded (BYTES n :: fs) d d' → ∃ b x x', d = b ++ x ∧ d' = b ++ x' ∧ zlen b = n.
Proof. inversion 1; subst. eauto 10. Qed.
Lemma parsed_bytes_inv m n fs off fin d : parsed m (BYTES n :: fs) off fin d → ∃ d', d = slice off n m ++ d' ∧ off + n ≤ fin.
Proof. inversion 1; subst. eauto. Qed.
Lemma layout_recoded m tp p fin fs data d' :
  layout data tp 0 = Some fs → parsed m fs p fin d' → recoded fs data d' → 0 ≤ p → fin ≤ zlen m → layout m tp p = Some fs.
Proof.
  unfold layout. repeat case_match; try done. destruct (rd data (0 + 1)) as [v|] eqn:Hr; cbn [mbind option_bind]; [|done].
  intros Hl Hp Hrec Hp0 Hf. assert (∃ fs', fs = BYTES 3 :: fs') as [fs' ->] by (repeat case_match; simplify_eq; by eexists).
  apply recoded_bytes_inv in Hrec as (b & d0 & d2 & -> & -> & Hzb). apply parsed_bytes_inv in Hp as (d1 & Hd & Hle).
  assert (Hb : b = slice p 3 m) by (apply app_inj_1 in Hd as [? _]; [done|]; pose proof (zlen_slice p 3 m) as Hz; unfold zlen in *; lia). subst b.
  destruct (rd_Some m p) as [v0 Hv0]; [lia|]. destruct (rd_Some m (p + 1)) as [v1 Hv1]; [lia|].
  rewrite Hv1. cbn [mbind option_bind]. assert (v1 = v) as ->; [|done]. apply rd_app_inv in Hr as [Hr|[Hge _]].
  - replace 3 with (1 + (1 + 1)) in Hr by lia. rewrite (slice_cons_rd _ _ _ _ Hv0), (slice_cons_rd _ _ _ _ Hv1) in Hr by lia. by injection Hr as ->.
  - rewrite zlen_slice in Hge by lia. lia.
Qed.

Lemma align_up n : 0 ≤ n → n ≤ Z.land (n + ALLOCCHUNKSIZEMASK) (Z.lnot ALLOCCHUNKSIZEMASK).
Proof.
  intros Hn. change ALLOCCHUNKSIZEMASK with (Z.ones 7). rewrite <-Z.ldiff_land, Z.ldiff_ones_r by done.
  rewrite Z.shiftl_mul_pow2, Z.shiftr_div_pow2 by done. change (Z.ones 7) with 127. change (2 ^ 7) with 128. pose proof (Z.div_mod (n + 127) 128). pose proof (Z.mod_pos_bound (n + 127) 128). lia.
Qed.
Lemma need_room_spec n (Q : bool → reply X → Prop) s :
  Inv (env s) → 0 ≤ n → 0 ≤ allocsz s ≤ 2 ^ 31 →
  (∀ s', Inv (env s') → Q false s') →
  (∀ x a, Inv x → dnsmsghdroffset + sz s + n ≤ a ≤ 2 ^ 31 → allocsz s ≤ a → Q true (mkReply x (hdr s) (body s) a (cb s) (sva s) (ar s))) →
  run (need_room n) Q s.
Proof.
  intros Hi Hn Ha Hfail HQ. unfold need_room. r_get. cbn zeta. pose proof (zlen_nonneg (body s)).
  destruct (dnsmsghdroffset + sz s + n >? allocsz s) eqn:Hgt.
  - r_bind. eapply run_env; [by apply realloc_law|]. cbn beta. intros b x [Hx Hb]. destruct b; [|by apply run_ret, Hfail].
    r_bind. apply run_modify, run_ret. cbn [env hdr body cb sva ar]. pose proof (align_up (dnsmsghdroffset + sz s + n)) as Hal.
    apply HQ; [done| |]; [split; [|by apply Hb]|]; unfold sz, sizeof_dns_hdr_t, dnsmsghdroffset in *; lia.
  - apply run_ret. destruct s as [x h b a c sv r]. cbn [env hdr body allocsz cb sva ar] in *. apply HQ; [done|lia|lia].
Qed.
Lemma clean_drop l l' c : clean l (l' ++ [c]) → unused c → clean l l'.
Proof.
  intros Hc Hu. remember (l' ++ [c]) as k eqn:Hk. revert l' Hk. induction Hc as [|c0 l k Hc IH|c0 l k Hu0 Hc IH]; intros l' Hk.
  - by destruct l'.
  - destruct l' as [|c1 l']; cbn [app] in Hk; injection Hk as -> Hk.
    + apply clean_skip; [done|]. by subst.
    + apply clean_keep. by apply IH.
  - apply clean_skip; [done|]. by apply IH.
Qed.

Definition good s g : Prop := ready s g (body s).
(** a record was added, which can be read back *)
Record added s g s' g' (r : arec) : Prop := {
  ad_good : good s' g';
  ad_prefix : g `prefix_of` g';
  ad_lists : sva s' = sva s ∧ ar s' = ar s;
  ad_body : ∃ ext, body s' = body s ++ ext;
  ad_written : written (holes 12 ++ body s') r (sz s) (sz s');
  ad_targets : ∀ o nm, ar_off (a_type r) = Some o → wf_name nm → zdrop o (a_data r) = rhn nm → knows g' nm;
}.
(** nothing was added *)
Definition dropped_rr s g s' : Prop := good s' g ∧ hdr s' = hdr s ∧ body s' = body s ∧ sva s' = sva s ∧ ar s' = ar s.

Lemma good_inv s g : good s g → Inv (env s).
Proof. apply rd_env. Qed.
(** the place of the header of the record *)
Lemma patch_body (B nb out hd z : bytes) :
  zlen z = zlen hd → splice (zlen (B ++ nb)) hd (B ++ nb ++ z ++ out) = B ++ nb ++ hd ++ out.
Proof.
  intros Hz. pose proof (zlen_nonneg hd). pose proof (zlen_nonneg (B ++ nb)). rewrite !(app_assoc B). unfold splice.
  rewrite ztake_app_length. f_equal. f_equal. rewrite zdrop_app_r by lia. apply zdrop_app_length'. lia.
Qed.
(** The name and room for the header stand in the message, and the data comes next. *)
Record begun s g nm dlen s4 g1 nb : Prop := {
  bg_ready : ready s4 g1 (body s ++ nb ++ holes 10);
  bg_body : body s4 = body s ++ nb ++ replicate 10 0;
  bg_keeps : hdr s4 = hdr s ∧ sva s4 = sva s ∧ ar s4 = ar s;
  bg_sz : sz s4 = sz s + zlen nb + 10;
  bg_room : dnsmsghdroffset + sz s4 + dlen ≤ allocsz s4;
  bg_name : ∃ ls h, name_at (holes 12 ++ body s ++ nb) (sz s) ls h (zlen nb) ∧ same_name ls nm ∧ h ≤ 128;
  bg_list : (g1 = g ∧ knows g nm) ∨ (g1 = g ++ [(sz s, nm)] ∧ (knows g nm → nm = [] ∨ 0x3fff < sz s));
}.
Lemma begun_prefix s g nm dlen s4 g1 nb : begun s g nm dlen s4 g1 nb → g `prefix_of` g1 ∧ knows g1 nm.
Proof.
  intros H. destruct (bg_list _ _ _ _ _ _ _ H) as [[-> ?]|[-> _]]; [done|]. split; [by eexists|].
  exists (length g), (sz s, nm). split; [by rewrite lookup_app_r, Nat.sub_diag|]. cbn [snd]. by rewrite common_self.
Qed.
Lemma begin_rr nm dlen (Q : bool → reply X → Prop) (k : Z → M (reply X) Empty_set bool) s g :
  good s g → wf_name nm → 0 ≤ dlen → (∀ s', Inv (env s') → Q false s') →
  (∀ s4 g1 nb, begun s g nm dlen s4 g1 nb → run (k (sz s4 - 10)) Q s4) →
  run (nbuf ← compress (rhn nm);
       match nbuf with
       | None => mret false
       | Some nbuf =>
           ok! need_room (zlen nbuf + sizeof_rr_hdr_t + dlen);
           append nbuf;; s' ← get; let rrht := sz s' in append (replicate (Z.to_nat sizeof_rr_hdr_t) 0);; k rrht
       end) Q s.
Proof.
  intros Hg Hn Hd Hfail Hk. pose proof (rd_room _ _ _ Hg) as Hroom. pose proof (zlen_nonneg (body s)). pose proof (ready_sz _ _ _ Hg) as Hsz.
  r_bind. rewrite <-(app_nil_r (rhn nm)). eapply run_mono; [by apply compress_spec|]. cbn beta.
  intros r s1 (Hi1 & Hb1 & (Hh1 & Ha1 & Hs1 & Hr1) & Hc1). destruct r as [nb|]; [|by apply run_ret, Hfail].
  destruct (Hc1 nb eq_refl) as (g1 & (Hent & [Hnl Hnb] & Hg1 & ls & h & Hat & Hsn & Hh) & Hcl). rewrite Hsz in Hat, Hg1.
  assert (Hsz1 : sz s1 = sz s) by (unfold sz; by rewrite Hb1). pose proof (zlen_nonneg nb). pose proof (wf_name_length _ Hn).
  assert (Ha0 : 0 ≤ allocsz s1 ≤ 2 ^ 31) by (rewrite Ha1; unfold dnsmsghdroffset, sz, sizeof_dns_hdr_t in Hroom; lia).
  r_bind. apply need_room_spec; [done|unfold sizeof_rr_hdr_t; lia|exact Ha0|intros s' Hi'; by apply run_ret, Hfail|].
  intros x a Hx Hra Hge. rewrite Hsz1, Hb1 in *. unfold sizeof_rr_hdr_t in Hra.
  r_bind. apply run_append; [unfold sz in *; cbn [body allocsz]; lia|]. cbn [env hdr body allocsz cb sva ar].
  set (s3 := mkReply _ _ _ _ _ _ _). assert (Hsz3 : sz s3 = sz s + zlen nb) by (unfold sz; cbn [body s3]; rewrite zlen_app; lia).
  assert (Hr3 : ready s3 g1 (body s ++ nb)).
  { split; [done|done|done|by rewrite app_assoc|exact Hcl|apply bytes_ok_app; split; [apply Hg|done]|]. split; [rewrite Hsz3; cbn [allocsz s3]; lia|apply Hra]. }
  r_get. cbn zeta. r_bind. eapply run_mono; [apply (append_ready (replicate 10 0) (holes 10) s3 g1 _ Hr3); [by repeat constructor|by apply covers_holes|done|]|].
  { rewrite Hsz3. change (zlen (replicate 10 0)) with 10. cbn [allocsz s3]. lia. }
  cbn beta. intros _ s4 (Hr4 & (Hh4 & Ha4 & Hs4 & Har4) & Hb4). rewrite <-app_assoc in Hr4. cbn [body s3] in Hb4. rewrite <-app_assoc in Hb4.
  assert (Hsz4 : sz s4 = sz s + zlen nb + 10) by (unfold sz; rewrite Hb4, !zlen_app; change (zlen (replicate 10 0)) with 10; lia).
  replace (sz s3) with (sz s4 - 10) by lia. apply (Hk s4 g1 nb). split; [done|done|by rewrite Hh4, Hs4, Har4|done|rewrite Hsz4, Ha4; cbn [allocsz s3]; lia| |done].
  exists ls, h. rewrite app_assoc. split_and!; [done|done|lia].
Qed.

(** the record does not fit and is taken back *)
Lemma take_back s g nm dlen s4 g1 nb s5 g5 G5 out :
  good s g → wf_name nm → knows g nm → begun s g nm dlen s4 g1 nb → ready s5 g5 G5 → grows s4 g1 (body s ++ nb ++ holes 10) s5 g5 G5 out [] →
  dropped_rr s g (mkReply (env s5) (hdr s5) (ztake (sz s - sizeof_dns_hdr_t) (body s5)) (allocsz s5) (cb s5) (sva s5) (ar s5)).
Proof.
  intros Hg Hn Hk Hbg Hr5 [(Hh5 & _ & Hs5 & Har5) Hbd5 _ _ _ Hnone]. destruct (bg_keeps _ _ _ _ _ _ _ Hbg) as (Hh4 & Hs4 & Ha4).
  assert (Htk : ztake (sz s - sizeof_dns_hdr_t) (body s5) = body s).
  { rewrite Hbd5, (bg_body _ _ _ _ _ _ _ Hbg), <-app_assoc. apply ztake_app_length'. unfold sz. lia. }
  pose proof (rd_room _ _ _ Hg) as Hroom. pose proof (rd_room _ _ _ Hr5) as Hroom5. pose proof (zlen_nonneg (body s)).
  unfold dropped_rr. cbn [hdr body sva ar]. rewrite Htk, Hh5, Hh4, Hs5, Hs4, Har5, Ha4. split; [|done].
  split; cbn [env body cb allocsz]; [apply Hr5|done|done|apply Hg| |apply Hg|].
  - pose proof (rd_cb _ _ _ Hr5) as Hc. rewrite (Hnone eq_refl) in Hc. destruct (bg_list _ _ _ _ _ _ _ Hbg) as [[-> _]|[-> Hun]]; [done|].
    rewrite map_app in Hc. eapply clean_drop; [exact Hc|]. exists (sz s, nm). split; [done|]. split; [done|]. cbn [fst snd]. split; [|by apply Hun].
    unfold dnsmsghdroffset, sz, sizeof_dns_hdr_t in *. lia.
  - revert Hroom5. unfold sz in *. rewrite Hbd5, (bg_body _ _ _ _ _ _ _ Hbg), !zlen_app. cbn [body]. pose proof (zlen_nonneg nb). pose proof (zlen_nonneg out).
    change (zlen (replicate 10 0)) with 10. lia.
Qed.
(** the header is filled in *)
Lemma fill_in s g nm type ttl data fs s4 g1 nb s5 g5 G5 out ls d' :
  good s g → wf_name nm → zlen data < 2 ^ 16 → layout data type 0 = Some fs → begun s g nm (zlen data) s4 g1 nb →
  emitted s5 g5 G5 (sz s4) fs data d' → grows s4 g1 (body s ++ nb ++ holes 10) s5 g5 G5 out ls → targets data type ls →
  let hd := be16 type ++ be16 C_IN ++ be32 ttl ++ be16 (sz s5 - sz s4) in
  ∀ h', added s g (mkReply (env s5) h' (splice (sz s4 - 10 - sizeof_dns_hdr_t) hd (body s5)) (allocsz s5) (cb s5) (sva s5) (ar s5)) g5 (mkArec nm type C_IN ttl data) ∧
    sz (mkReply (env s5) h' (splice (sz s4 - 10 - sizeof_dns_hdr_t) hd (body s5)) (allocsz s5) (cb s5) (sva s5) (ar s5)) = sz s5.
Proof.
  intros Hg Hn Hz16 Hl Hbg [Hr5 Hoff5 Hp5 Hrec5 Hb5 Hsz5 Hfo5] Hgr5 Htg hd h'. destruct (grows_sz _ _ _ _ _ _ _ _ Hgr5) as [Hszo _].
  destruct Hgr5 as [(Hh5 & _ & Hs5 & Har5) Hbd5 HG5 Hpre5 Hkn5 _]. destruct (bg_keeps _ _ _ _ _ _ _ Hbg) as (Hh4 & Hs4 & Ha4).
  pose proof (bg_sz _ _ _ _ _ _ _ Hbg) as Hsz4. destruct (begun_prefix _ _ _ _ _ _ _ Hbg) as [Hpre1 Hkn1]. destruct (bg_name _ _ _ _ _ _ _ Hbg) as (lsn & h & Hat & Hsn & Hh).
  rewrite (bg_body _ _ _ _ _ _ _ Hbg), <-!app_assoc in Hbd5. rewrite <-!app_assoc in HG5. pose proof (zlen_nonneg (body s)). pose proof (zlen_nonneg nb).
  destruct (be_hdr type C_IN ttl (sz s5 - sz s4)) as [Hhok Hhz]. fold hd in Hhok, Hhz. unfold sizeof_rr_hdr_t in Hhz.
  assert (Hb6 : splice (sz s4 - 10 - sizeof_dns_hdr_t) hd (body s5) = body s ++ nb ++ hd ++ out).
  { rewrite Hbd5, Hsz4. replace (sz s + zlen nb + 10 - 10 - sizeof_dns_hdr_t) with (zlen (body s ++ nb)) by (unfold sz; rewrite zlen_app; lia).
    apply patch_body. by rewrite Hhz. }
  rewrite Hb6. set (s6 := mkReply _ _ _ _ _ _ _).
  assert (Hcov : covers (holes 12 ++ G5) (holes 12 ++ body s6)).
  { cbn [body s6]. rewrite HG5. apply covers_app2; [done|done|]. apply covers_app2; [done|done|]. apply covers_app2; [done|done|].
    apply covers_app2; [by apply covers_holes; rewrite Hhz|by rewrite Hhz|done]. }
  assert (Hsz6 : sz s6 = sz s5) by (unfold sz; cbn [body s6]; rewrite Hbd5, !zlen_app, Hhz; done). split; [|done].
  assert (Hfin : zlen (holes 12 ++ body s6) = sz s5) by (rewrite zlen_holes12, <-Hsz6; done).
  split; [|by etrans|cbn [sva ar s6]; by rewrite Hs5, Hs4, Har5, Ha4|by exists (nb ++ hd ++ out)| |].
  - split; [apply Hr5|done|done|eapply entries_ok_covers; [exact Hcov|apply Hr5]|apply Hr5| |rewrite Hsz6; apply Hr5].
    cbn [body s6]. pose proof (rd_bytes _ _ _ Hr5) as Hbo. rewrite Hbd5, !bytes_ok_app in Hbo. rewrite !bytes_ok_app. tauto.
  - rewrite Hsz6. exists lsn, h, (zlen nb), d', fs. unfold sizeof_rr_hdr_t. cbn [a_name a_type a_class a_ttl a_data].
    assert (HzG5 : zlen (holes 12 ++ G5) = sz s5) by (by apply ready_sz in Hr5). replace (sz s + zlen nb + 10) with (sz s4) by lia.
    assert (H12 : 12 ≤ sz s) by (unfold sz, sizeof_dns_hdr_t; lia). split_and!; try done; try lia.
    + cbn [body s6]. replace (holes 12 ++ body s ++ nb ++ hd ++ out) with ((holes 12 ++ body s ++ nb) ++ hd ++ out) by (by rewrite <-!app_assoc). by apply name_at_app.
    + replace (sz s + zlen nb) with (zlen (holes 12 ++ body s ++ nb)) by (rewrite !zlen_app, zlen_holes by lia; unfold sz, sizeof_dns_hdr_t; lia).
      cbn [body s6]. replace (holes 12 ++ body s ++ nb ++ hd ++ out) with ((holes 12 ++ body s ++ nb) ++ hd ++ out) by (by rewrite <-!app_assoc). by apply slice_mid.
    + eapply layout_covers; [exact Hcov|]. eapply layout_recoded; [exact Hl|exact Hp5|exact Hrec5|lia|lia].
    + eapply parsed_covers; [exact Hcov|done|done|lia|lia|exact Hp5].
  - cbn [a_type a_data]. intros o nm' Ho Hn' Hd'. rewrite list.Forall_forall in Hkn5. by apply Hkn5, (Htg o).
Qed.

Lemma add_rr_spec nm type ttl data section udp s g :
  good s g → wf_name nm → wf_rdata type data →
  (is_additional section = true → knows g nm ∧ plain type = true) →
  run (add_rr (rhn nm) type ttl data section udp) (λ b s', Inv (env s') ∧ (b = true →
    (is_additional section = true ∧ dropped_rr s g s') ∨
    (hdr s' = count section (hdr s) ∧ (is_additional section = true → over_limit udp (sz s') = false) ∧
     ∃ g', added s g s' g' (mkArec nm type C_IN ttl data)))) s.
Proof.
  intros Hg Hn (Hz16 & Hnxt & fs & Hl & Hf) Hadd. pose proof (fields_ok _ _ Hf) as Hdata. pose proof (zlen_nonneg (body s)).
  unfold add_rr. r_get. apply (begin_rr nm (zlen data) _ (λ rrht, put_rdata data (finish_rr type ttl section udp (sz s) rrht) type) s g Hg Hn (zlen_nonneg _)); [done|].
  intros s4 g1 nb Hbg. pose proof (bg_sz _ _ _ _ _ _ _ Hbg) as Hsz4. pose proof (bg_keeps _ _ _ _ _ _ _ Hbg) as (Hh4 & _).
  apply (put_rdata_spec data _ _ s4 g1 _ (bg_ready _ _ _ _ _ _ _ Hbg) (bg_room _ _ _ _ _ _ _ Hbg) Hdata) with (fs := fs); [done|done|done|].
  intros ls Htg Hpl s5 g5 G5 out d' He5 Hgr5. pose proof (em_ready _ _ _ _ _ _ _ He5) as Hr5. pose proof Hgr5 as [(Hh5 & _) _ _ _ _ _].
  unfold finish_rr. r_get. destruct (over_limit udp (sz s5) && is_additional section) eqn:Hov.
  - apply andb_true_iff in Hov as [Hov Hsec]. destruct (Hadd Hsec) as [Hkn Hplain].
    r_bind. apply run_modify, run_ret. split; [apply Hr5|]. intros _. left. split; [done|].
    rewrite (Hpl Hplain) in Hgr5. exact (take_back _ _ _ _ _ _ _ _ _ _ _ Hg Hn Hkn Hbg Hr5 Hgr5).
  - destruct (grows_sz _ _ _ _ _ _ _ _ Hgr5) as [Hszo _]. pose proof (zlen_nonneg out). pose proof (bg_body _ _ _ _ _ _ _ Hbg).
    pose proof (fill_in _ _ _ _ ttl _ _ _ _ _ _ _ _ _ _ _ Hg Hn Hz16 Hl Hbg He5 Hgr5 Htg) as Hfill. cbn zeta in Hfill.
    destruct (be_hdr type C_IN ttl (sz s5 - sz s4)) as [_ Hhz]. unfold sizeof_rr_hdr_t in Hhz.
    r_bind. unfold write_at. r_get. r_assert.
    { rewrite Hhz. pose proof (em_off _ _ _ _ _ _ _ He5). pose proof (zlen_nonneg nb). unfold sz, sizeof_dns_hdr_t in *. lia. }
    apply run_modify. r_bind. apply run_modify, run_ret. split; [apply Hr5|]. intros _. right. cbn [env hdr body allocsz cb sva ar].
    destruct (Hfill (count section (hdr s5))) as [Hadded Hsz6]. rewrite Hh5, Hh4 in *. split; [done|]. split; [|by exists g5].
    intros Hsec. rewrite Hsz6, Hsec, andb_true_r in *. done.
Qed.
End answer.
