(* ===== verification/DnsAnswerSafe.v ===== *)
(** * Answers are composed right

    The contract of [compose_answer] (file DnsAnswer): the message is in the format of
    RFC 1035, it repeats the questions, its answers follow the chain of aliases in the
    entries that the resolver found, and its additional records are addresses of names in
    the other sections.  [log] is a ghost of what was added. *)

From S2P Require Import Prelude CInt DnsName DnsCompress RrTypes RrList DnsHash DnsCent DnsCache Contract DnsCacheInv DnsCacheAdd DnsCacheOps DnsCacheSafe DnsCacheFile DnsCacheRead DnsCacheDisk DnsCacheReload DnsResponse DnsResponseSpec DnsResponseCache DnsAnswer DnsAnswerSpec DnsAnswerRr.

(** ** What an answer says *)

(** The question stands from [off] to [fin]. *)
Definition asked (m : bytes) (qe : dns_queryel_t) (off fin : Z) : Prop :=
  ∃ nm ls h n, query qe = rhn nm ∧ wf_name nm ∧ name_at m off ls h n ∧ same_name ls nm ∧ h ≤ 128 ∧
    slice (off + n) 4 m = be16 (qtype qe) ++ be16 (qclass qe) ∧ fin = off + n + 4 ∧ fin ≤ zlen m.
Inductive all_asked (m : bytes) : list dns_queryel_t → Z → Z → Prop :=
  | asked_nil off : all_asked m [] off off
  | asked_cons qe qs off mid fin : asked m qe off mid → all_asked m qs mid fin → all_asked m (qe :: qs) off fin.

Lemma asked_covers m m' qe off fin : covers m m' → 0 ≤ off → asked m qe off fin → asked m' qe off fin.
Proof.
  intros Hc Ho (nm & ls & h & n & Hq & Hw & Hn & Hs & Hh & Hsl & -> & Hz). pose proof (name_at_bound _ _ _ _ _ Hn). pose proof Hc as [Hzc _].
  exists nm, ls, h, n. split_and!; try done; [| |lia].
  - eapply name_at_covers; [done|done|]. eapply same_name_bytes; [done|]. apply label_bytes, Hw.
  - rewrite (slice_covers m m'); [done|done|lia|lia|lia|]. rewrite Hsl, !be16_bytes. apply bytes_ok_app. split; apply be_bytes_ok.
Qed.
Lemma all_asked_covers m m' qs off fin : covers m m' → 0 ≤ off → all_asked m qs off fin → all_asked m' qs off fin.
Proof.
  intros Hc Ho Ha. revert Ho. induction Ha as [off|qe qs off mid fin Hq _ IH]; intros Ho; [constructor|].
  econstructor; [by eapply asked_covers|]. apply IH. destruct Hq as (nm & ls & h & n & _ & _ & Hn & _ & _ & _ & -> & _). apply name_at_bound in Hn. lia.
Qed.
Lemma all_asked_app m qs qs' off mid fin : all_asked m qs off mid → all_asked m qs' mid fin → all_asked m (qs ++ qs') off fin.
Proof. induction 1; [done|]. intros. econstructor; [done|auto]. Qed.
Lemma all_asked_le m qs off fin : all_asked m qs off fin → off ≤ fin.
Proof.
  induction 1 as [|qe qs off mid fin Hq _ IH]; [lia|]. destruct Hq as (nm & ls & h & n & _ & _ & Hn & _ & _ & _ & -> & _). apply name_at_bound in Hn. lia.
Qed.

(** [nm] is a name in a record, at which a client will look next. *)
Definition wanted (rs : list arec) (nm : list bytes) : Prop :=
  ∃ r o, r ∈ rs ∧ ar_off (a_type r) = Some o ∧ zdrop o (a_data r) = rhn nm.
Lemma wanted_mono rs rs' nm : rs ⊆ rs' → wanted rs nm → wanted rs' nm.
Proof. intros H (r & o & Hr & Ho). exists r, o. split; [by apply H|done]. Qed.

(** the three sections *)
Record log := mkLog { l_an : list arec; l_ns : list arec; l_ar : list arec }.
Definition l_all (L : log) : list arec := l_an L ++ l_ns L ++ l_ar L.
Definition l_main (L : log) : list arec := l_an L ++ l_ns L.
Definition log_add (section : sect) (r : arec) (L : log) : log :=
  match section with
  | S_ANSWER => mkLog (l_an L ++ [r]) (l_ns L) (l_ar L)
  | S_AUTHORITY => mkLog (l_an L) (l_ns L ++ [r]) (l_ar L)
  | S_ADDITIONAL => mkLog (l_an L) (l_ns L) (l_ar L ++ [r])
  end.
(** The sections are written one after another. *)
Definition in_turn (section : sect) (L : log) : Prop :=
  match section with S_ANSWER => l_ns L = [] ∧ l_ar L = [] | S_AUTHORITY => l_ar L = [] | S_ADDITIONAL => True end.
Lemma log_add_all section r L : in_turn section L → l_all (log_add section r L) = l_all L ++ [r].
Proof.
  destruct L as [a b c], section; unfold l_all; cbn; [intros [-> ->]|intros ->|intros _]; by rewrite ?app_nil_r, <-?app_assoc.
Qed.
Lemma log_add_main section r L : l_main L ⊆ l_main (log_add section r L).
Proof. destruct section; unfold l_main; cbn [log_add l_an l_ns]; set_solver. Qed.

Lemma log_main_inv section r L x : x ∈ l_main (log_add section r L) → x ∈ l_main L ∨ x = r.
Proof. destruct section; unfold l_main; cbn [log_add l_an l_ns]; set_solver. Qed.

(** The records of a type in an entry. *)
Section content.
Context (queryts : Z) (rnd_recs : bool) (found : list bytes → dns_cent_t → Prop).
Definition rec (nm : list bytes) (tp : Z) (s : rr_set_t) (b : bytes) : arec := mkArec nm tp C_IN (u32 (ans_ttl queryts s)) b.
Definition set_recs (nm : list bytes) (c : dns_cent_t) (tp : Z) (rs : list arec) : Prop :=
  match set_of c tp with
  | Some s => ∃ l, l ≡ₚ rrs s ∧ (rnd_recs = false → l = rrs s) ∧ rs = map (rec nm tp s) l
  | None => rs = []
  end.
Inductive sets_recs (nm : list bytes) (c : dns_cent_t) : list Z → list arec → Prop :=
  | sets_nil : sets_recs nm c [] []
  | sets_cons tp tps rs rs' : set_recs nm c tp rs → sets_recs nm c tps rs' → sets_recs nm c (tp :: tps) (rs ++ rs').
Definition stored (c : dns_cent_t) (tp : Z) : bool := is_type tp && has_records c tp.
(** the types that are answered; the alias when there are no records of the type *)
Definition answer_types (qtype : Z) (c : dns_cent_t) : list Z :=
  (if (qtype =? T_CNAME) || (qtype =? QT_ALL) || stored c qtype then [] else [T_CNAME]) ++
  (if qtype =? QT_MAILB then [T_MB; T_MG; T_MR]
   else if qtype =? QT_MAILA then [T_MD; T_MF]
   else if qtype =? QT_ALL then default [] (RRITERLIST c)
   else [qtype]).
(** the name that the entry is an alias of, when it is followed *)
Definition alias (recurse : bool) (qtype : Z) (c : dns_cent_t) : option bytes :=
  if recurse && negb ((qtype =? T_CNAME) || (qtype =? QT_ALL) || stored c qtype) then
    s ← set_of c T_CNAME; head (rrs s)
  else None.
(** the entries, and the answers, along a chain of at most [n] names *)
Inductive chain_answers (recurse : bool) (qtype : Z) : nat → list bytes → list dns_cent_t → list arec → Prop :=
  | chain_stop nm : chain_answers recurse qtype 0 nm [] []
  | chain_end n nm c rs :
      found nm c → sets_recs nm c (answer_types qtype c) rs → alias recurse qtype c = None →
      chain_answers recurse qtype (S n) nm [c] rs
  | chain_next n nm c rs nm' cs rs' :
      found nm c → sets_recs nm c (answer_types qtype c) rs → alias recurse qtype c = Some (rhn nm') →
      chain_answers recurse qtype n nm' cs rs' → chain_answers recurse qtype (S n) nm (c :: cs) (rs ++ rs').
Inductive answers_of (recurse : bool) : list dns_queryel_t → list dns_cent_t → list arec → Prop :=
  | answers_nil : answers_of recurse [] [] []
  | answers_cons qe qs nm cs cs' rs rs' :
      query qe = rhn nm → chain_answers recurse (qtype qe) (S MAX_HOPS) nm cs rs → answers_of recurse qs cs' rs' →
      answers_of recurse (qe :: qs) (cs ++ cs') (rs ++ rs').
(** the same when the resolver fails for a name of the chain of one of the questions *)
Inductive chain_broken (recurse : bool) (qtype : Z) : nat → list bytes → list dns_cent_t → list arec → Prop :=
  | broken_here n nm : chain_broken recurse qtype (S n) nm [] []
  | broken_next n nm c rs nm' cs rs' :
      found nm c → sets_recs nm c (answer_types qtype c) rs → alias recurse qtype c = Some (rhn nm') →
      chain_broken recurse qtype n nm' cs rs' → chain_broken recurse qtype (S n) nm (c :: cs) (rs ++ rs').
Inductive answers_broken (recurse : bool) : list dns_queryel_t → list dns_cent_t → list arec → Prop :=
  | broken_at qe qs nm cs rs :
      query qe = rhn nm → chain_broken recurse (qtype qe) (S MAX_HOPS) nm cs rs → answers_broken recurse (qe :: qs) cs rs
  | broken_later qe qs nm cs cs' rs rs' :
      query qe = rhn nm → chain_answers recurse (qtype qe) (S MAX_HOPS) nm cs rs → answers_broken recurse qs cs' rs' →
      answers_broken recurse (qe :: qs) (cs ++ cs') (rs ++ rs').
Definition is_local (c : dns_cent_t) : bool := has (c_flags c) DF_LOCAL.
End content.

(** ** The state of an answer *)

Lemma wf_target tp o b : ar_off tp = Some o → wf_rdata tp b → ∃ t, wf_name t ∧ zdrop o b = rhn t ∧ o ≤ zlen b.
Proof.
  intros Ho (_ & _ & fs & Hl & Hf). apply ar_off_cases in Ho as [[-> Ho]|[[-> ->]|[-> ->]]].
  - assert (fs = [NAME]) as ->.
    { unfold layout in Hl. destruct (Z.eqb_spec tp T_A) as [->|_]; [done|].
      replace (one_of tp [T_CNAME; T_MB; T_MD; T_MF; T_MG; T_MR; T_NS; T_PTR]) with true in Hl; [by injection Hl|]. symmetry. one_lia. }
    apply fields_name_inv in Hf as (nm & d & -> & Hn & ->%fields_nil_inv). exists nm. rewrite app_nil_r. split; [done|]. split; [done|apply zlen_nonneg].
  - injection Hl as <-. apply fields_bytes_inv in Hf as (b0 & d & -> & Hz & _ & (nm & d' & -> & Hn & ->%fields_nil_inv)%fields_name_inv).
    exists nm. rewrite app_nil_r, <-Hz. split; [done|]. split; [apply zdrop_app_length|]. rewrite zlen_app. pose proof (zlen_nonneg (rhn nm)). lia.
  - injection Hl as <-. apply fields_bytes_inv in Hf as (b0 & d & -> & Hz & _ & (nm & d' & -> & Hn & ->%fields_nil_inv)%fields_name_inv).
    exists nm. rewrite app_nil_r, <-Hz. split; [done|]. split; [apply zdrop_app_length|]. rewrite zlen_app. pose proof (zlen_nonneg (rhn nm)). lia.
Qed.
Lemma one_of_cons x y l : one_of x (y :: l) = (x =? y) || one_of x l.
Proof. done. Qed.

(** what can be read back *)
Definition rec_ok (r : arec) : Prop := wf_name (a_name r) ∧ (a_type r = T_NXT → zlen (a_data r) ≤ 1040) ∧ in_range r.
Lemma rec_ok_names rs : Forall rec_ok rs → Forall (λ r, wf_name (a_name r)) rs.
Proof. intros H. eapply list.Forall_impl; [exact H|]. by intros r []. Qed.
Lemma rec_ok_rr nm tp ttl d : wf_name nm → wf_rdata tp d → is_type tp = true → rec_ok (mkArec nm tp C_IN (u32 ttl) d).
Proof.
  intros Hn (_ & Hx & _) Ht. split; [done|]. split; [done|]. unfold in_range, is_type, T_MIN, T_MAX in *. cbn. pose proof (Z.mod_pos_bound ttl (2 ^ 32)).
  unfold u32, C_IN in *. lia.
Qed.
Lemma set_of_type c tp v : set_of c tp = Some v → is_type tp = true.
Proof. unfold set_of, is_type. destruct ((0 <=? tp - T_MIN) && (tp - T_MIN <? T_NUM)) eqn:H; [|done]. intros _. unfold T_MIN, T_MAX, T_NUM in *. lia. Qed.
Ltac type_ok := unfold is_type, T_MIN, T_MAX in *; one_lia.

(** what may be in [sva] and [ar] *)
Definition sva_ok (L : log) (e : sva_t) : Prop :=
  ∃ nm, wf_name nm ∧ sv_nm e = rhn nm ∧ (sv_tp e = T_NS → ∃ r, r ∈ l_main L ∧ a_type r = T_NS ∧ a_data r = sv_data e).
Definition ext_ok (L : log) (e : rr_ext_t) : Prop :=
  (re_tp e = RRETP_ADD ∧ ∃ nm, wf_name nm ∧ re_tnm e = rhn nm ∧ wanted (l_main L) nm) ∨
  (one_of (re_tp e) [T_NS; T_SOA] = true ∧ (∃ nm, wf_name nm ∧ re_nm e = rhn nm) ∧ wf_rdata (re_tp e) (re_tnm e)).
Lemma sva_ok_mono L L' e : l_main L ⊆ l_main L' → sva_ok L e → sva_ok L' e.
Proof. intros H (nm & Hn & He & Hr). exists nm. split; [done|]. split; [done|]. intros (r & Hin & ?)%Hr. exists r. split; [by apply H|done]. Qed.
Lemma ext_ok_mono L L' e : l_main L ⊆ l_main L' → ext_ok L e → ext_ok L' e.
Proof. intros H [(Ht & nm & Hn & He & Hw)|?]; [left|by right]. split; [done|]. exists nm. split; [done|]. split; [done|by eapply wanted_mono]. Qed.

Section answer.
Context {X : Type} {E : AnswerEnv X} {Inv : X → Prop} {found : list bytes → dns_cent_t → Prop} {L0 : AnswerEnvLaws X E Inv found}.
Abbreviation good := (@good X Inv).
Abbreviation run_t := (M (reply X) Empty_set bool).
Implicit Types (s : reply X) (g : list (Z * list bytes)) (L : log).

Record st (h0 : dns_hdr_t) (qs : list dns_queryel_t) s g L : Prop := {
  st_good : good s g;
  st_hdr : hdr s = set_counts (zlen qs) (zlen (l_an L)) (zlen (l_ns L)) (zlen (l_ar L)) h0;
  st_body : ∃ q, all_asked (holes 12 ++ body s) qs 12 q ∧ all_written (holes 12 ++ body s) (l_all L) q (sz s);
  st_names : Forall rec_ok (l_all L);
  st_known : ∀ nm, wf_name nm → wanted (l_main L) nm → knows g nm;
  st_sva : Forall (sva_ok L) (sva s);
  st_ar : Forall (ext_ok L) (ar s);
}.
Context (h0 : dns_hdr_t) (qs : list dns_queryel_t).
Definition out (P : reply X → log → Prop) : bool → reply X → Prop :=
  λ b s', Inv (env s') ∧ (b = true → ∃ g' L', st h0 qs s' g' L' ∧ P s' L').

Lemma st_inv s g L : st h0 qs s g L → Inv (env s).
Proof. intros H. apply (st_good _ _ _ _ _ H). Qed.
Lemma out_ok (P Q : reply X → log → Prop) (m k : run_t) s :
  run m (out P) s → (∀ s' g' L', st h0 qs s' g' L' → P s' L' → run k (out Q) s') → run (ok! m; k) (out Q) s.
Proof.
  intros Hm Hk. r_bind. eapply run_mono; [exact Hm|]. cbn beta. intros b s' [Hi H]. destruct b.
  - destruct (H eq_refl) as (g' & L' & Hst & HP). by eapply Hk.
  - apply run_ret. by split.
Qed.
Lemma out_ret (P : reply X → log → Prop) s g L : st h0 qs s g L → P s L → run (mret true : run_t) (out P) s.
Proof. intros Hst HP. apply run_ret. split; [by eapply st_inv|]. intros _. by exists g, L. Qed.
Lemma out_fail (P : reply X → log → Prop) s : Inv (env s) → run (mret false : run_t) (out P) s.
Proof. intros. apply run_ret. by split. Qed.
Lemma out_mono (P Q : reply X → log → Prop) (m : run_t) s : run m (out P) s → (∀ s' g' L', st h0 qs s' g' L' → P s' L' → Q s' L') → run m (out Q) s.
Proof.
  intros Hm HPQ. eapply run_mono; [exact Hm|]. intros b s' [Hi H]. split; [done|]. intros Hb. destruct (H Hb) as (g' & L' & Hst & HP).
  exists g', L'. split; [done|by eapply HPQ].
Qed.

(** what does not touch the message *)
Definition with_env (x : X) s : reply X := mkReply x (hdr s) (body s) (allocsz s) (cb s) (sva s) (ar s).
Lemma st_lists s g L x sv r :
  st h0 qs s g L → Inv x → Forall (sva_ok L) sv → Forall (ext_ok L) r →
  st h0 qs (mkReply x (hdr s) (body s) (allocsz s) (cb s) sv r) g L.
Proof.
  intros [Hg Hh Hb Hn Hk Hs Ha] Hi Hsv Hr. split; try done. destruct Hg as [? ? ? ? ? ? ?]. by split.
Qed.
Lemma st_env s g L x : st h0 qs s g L → Inv x → st h0 qs (with_env x s) g L.
Proof. intros H Hi. by apply st_lists; [done|done|apply H|apply H]. Qed.
Lemma run_call {T} (m : M X Empty_set T) (P : T → X → Prop) (Q : T → reply X → Prop) s :
  run m P (env s) → (∀ a x, P a x → Q a (with_env x s)) → run (on_env m) Q s.
Proof. apply run_env. Qed.

(** *** Adding to the message and to the lists *)

Definition rr_added section udp (r : arec) s L s' L' : Prop :=
  sva s' = sva s ∧ ar s' = ar s ∧
  ((L' = log_add section r L ∧ (is_additional section = true → over_limit udp (sz s') = false)) ∨
   (is_additional section = true ∧ L' = L ∧ sz s' = sz s)).
Lemma count_log section r L h : set_counts (zlen qs) (zlen (l_an (log_add section r L))) (zlen (l_ns (log_add section r L))) (zlen (l_ar (log_add section r L))) h =
  count section (set_counts (zlen qs) (zlen (l_an L)) (zlen (l_ns L)) (zlen (l_ar L)) h).
Proof.
  assert (Hu : ∀ l : list arec, u16 (zlen (l ++ [r])) = u16 (u16 (zlen l) + 1)) by (intros; rewrite zlen_app; unfold u16; by rewrite Zplus_mod_idemp_l).
  assert (Hi : ∀ v, u16 (u16 v) = u16 v) by (intros; apply Zmod_mod).
  destruct section; cbn; unfold set_counts; cbn [qdcount ancount nscount arcount id rd_flag tc aa opcode qr h_rcode cd ad z ra]; by rewrite ?Hi, Hu.
Qed.
Lemma st_add s g L s' g' section r :
  st h0 qs s g L → rec_ok r → in_turn section L →
  hdr s' = count section (hdr s) → added (Inv := Inv) s g s' g' r → st h0 qs s' g' (log_add section r L).
Proof.
  intros [Hg Hh (q & Hq & Hw) Hn Hk Hs Ha] Hnm Ht Hh' [Hg' Hpre [Hsv Har] (ext & Hb) Hwr Htg].
  pose proof (log_add_main section r L) as Hsub. pose proof (all_asked_le _ _ _ _ Hq) as Hle.
  assert (Hcov : covers (holes 12 ++ body s) (holes 12 ++ body s')) by (rewrite Hb, app_assoc; apply covers_app).
  split; [done|by rewrite Hh', Hh, count_log| | | | |].
  - exists q. split; [eapply all_asked_covers; [exact Hcov|lia|done]|]. rewrite log_add_all by done. eapply all_written_app; [|econstructor; [exact Hwr|constructor]].
    eapply all_written_covers; [exact Hcov|by apply rec_ok_names|lia|done].
  - rewrite log_add_all by done. apply Forall_app. split; [done|by apply list.Forall_singleton].
  - intros nm Hwn (r0 & o & Hr0 & Ho & Hz). apply log_main_inv in Hr0 as [Hr0| ->]; [|by eapply Htg].
    eapply knows_prefix; [done|]. apply Hk; [done|]. by exists r0, o.
  - rewrite Hsv. eapply list.Forall_impl; [exact Hs|]. intros e. by apply sva_ok_mono.
  - rewrite Har. eapply list.Forall_impl; [exact Ha|]. intros e. by apply ext_ok_mono.
Qed.
Lemma add_rr_st nm tp ttl data section udp s g L :
  st h0 qs s g L → wf_name nm → wf_rdata tp data → is_type tp = true → in_turn section L →
  (is_additional section = true → wanted (l_main L) nm ∧ plain tp = true) →
  run (add_rr (rhn nm) tp (u32 ttl) data section udp) (out (rr_added section udp (mkArec nm tp C_IN (u32 ttl) data) s L)) s.
Proof.
  intros Hst Hn Hd Hty Ht Hadd. eapply run_mono; [apply add_rr_spec; [apply Hst|done|done|]|].
  { intros Hsec. destruct (Hadd Hsec) as [Hw Hp]. split; [by eapply st_known|done]. }
  cbn beta. intros b s' [Hi H]. split; [done|]. intros Hb. destruct (H Hb) as [(Hsec & Hg & Hh & Hbd & Hsv & Har)|(Hh & Hlim & g' & Hadded)].
  - exists g, L. split; [|by unfold rr_added, sz; rewrite Hsv, Har, Hbd; auto 10].
    destruct Hst as [Hg0 Hh0 Hb0 Hn0 Hk0 Hs0 Ha0]. split; try done; rewrite ?Hsv, ?Har, ?Hh; try done. unfold sz. by rewrite Hbd.
  - exists g', (log_add section (mkArec nm tp C_IN (u32 ttl) data) L). split.
    + eapply st_add; [done|by apply rec_ok_rr|done..].
    + destruct (ad_lists _ _ _ _ _ Hadded). by split; [|split; [|left]].
Qed.
Lemma ztake_u16 (l : bytes) : zlen l < 2 ^ 16 → ztake (u16 (zlen l)) l = l.
Proof. intros Hz. pose proof (zlen_nonneg l). unfold u16. rewrite Z.mod_small by lia. by apply ztake_all. Qed.
Lemma sva_add_st nm tp data s g L :
  st h0 qs s g L → wf_name nm → zlen data < 2 ^ 16 → (tp = T_NS → ∃ r, r ∈ l_main L ∧ a_type r = T_NS ∧ a_data r = data) →
  run (sva_add (rhn nm) tp data) (out (λ s' L', L' = L ∧ ar s' = ar s ∧ sz s' = sz s)) s.
Proof.
  intros Hst Hn Hzd Hr. unfold sva_add. r_bind. pose proof (rhnlen_spec nm [] (proj1 Hn)) as Hlen. rewrite app_nil_r in Hlen. eapply run_must; [exact Hlen|].
  r_bind. apply (run_call _ _ _ _ (grow_list_law _ (st_inv _ _ _ Hst))). intros b x Hx. destruct b; [|by apply out_fail].
  r_get. r_bind. apply run_modify. eapply out_ret; [|done]. rewrite ztake_all by done. rewrite (ztake_u16 data) by done.
  apply (st_lists (with_env x s)); [by apply st_env|done| |apply Hst]. apply Forall_app. split; [apply Hst|]. constructor; [|constructor]. by exists nm.
Qed.
Lemma add_ar_st tp tnm nm ttl s g L :
  st h0 qs s g L → wf_name nm → zlen tnm < 2 ^ 16 → ext_ok L (mkExt tp ttl tnm (rhn nm)) →
  run (add_ar tp tnm (rhn nm) ttl) (out (λ s' L', L' = L)) s.
Proof.
  intros Hst Hn Hzt He. unfold add_ar. pose proof (rhnlen_spec nm [] (proj1 Hn)) as Hlen. rewrite app_nil_r in Hlen.
  assert (∃ n, run (if (tp =? T_NS) || (tp =? T_SOA) then must (rhnlen (rhn nm)) else mret 0) (λ a s', a = n ∧ s' = s) s ∧
    ext_ok L (mkExt tp ttl tnm (ztake n (rhn nm)))) as (n & Hrun & Hok).
  { destruct ((tp =? T_NS) || (tp =? T_SOA)) eqn:Htp.
    - exists (zlen (rhn nm)). split; [by eapply run_must|]. by rewrite ztake_all.
    - exists 0. split; [by apply run_ret|]. destruct He as [He|He]; [by left|]. cbn [re_tp] in He. rewrite !one_of_cons, orb_assoc, Htp in He. by destruct He. }
  r_bind. eapply run_mono; [exact Hrun|]. cbn beta. intros ? ? [-> ->].
  r_bind. apply (run_call _ _ _ _ (grow_list_law _ (st_inv _ _ _ Hst))). intros b x Hx. destruct b; [|by apply out_fail].
  r_get. r_bind. apply run_modify. eapply out_ret; [|done]. rewrite (ztake_u16 tnm) by done.
  apply (st_lists (with_env x s)); [by apply st_env|done|apply Hst|]. apply Forall_app. split; [apply Hst|]. by constructor.
Qed.

(** *** Sets of records *)

Context (queryts udpbufsize : Z) (rnd_recs : bool).

Lemma in_order_st {T} (l : list T) s :
  Inv (env s) → run (in_order rnd_recs l) (λ l' s', ∃ x, s' = with_env x s ∧ Inv x ∧ l' ≡ₚ l ∧ (rnd_recs = false → l' = l)) s.
Proof.
  intros Hi. assert (Hsame : s = with_env (env s) s) by (by destruct s). unfold in_order. destruct l as [|a l]; [apply run_ret; eauto|].
  destruct rnd_recs; [|apply run_ret; eauto]. r_bind. unfold randrr. r_bind. apply (run_call _ _ _ _ (random_law _ Hi)). intros r x Hx.
  apply run_ret, run_ret. exists x. split; [done|]. split; [done|]. split; [|done]. set (k := Z.to_nat _). rewrite <-(take_drop k (a :: l)) at 3. apply Permutation_app_comm.
Qed.
Definition put_an (rs : list arec) L : log := mkLog (l_an L ++ rs) (l_ns L) (l_ar L).
Lemma put_an_app rs rs' L : put_an rs' (put_an rs L) = put_an (rs ++ rs') L.
Proof. unfold put_an. cbn. by rewrite app_assoc. Qed.
Lemma put_an_nil L : put_an [] L = L.
Proof. destruct L. unfold put_an. cbn. by rewrite app_nil_r. Qed.
Lemma mark_ar_st nm tp ttl b s g L :
  st h0 qs s g L → wf_rdata tp b → mkArec nm tp C_IN ttl b ∈ l_main L → run (mark_ar tp b) (out (λ s' L', L' = L)) s.
Proof.
  intros Hst Hd Hin. unfold mark_ar. destruct (ar_off tp) as [o|] eqn:Ho; [|by eapply out_ret].
  destruct (wf_target _ _ _ Ho Hd) as (t & Ht & Hz & Hle). r_assert; [lia|]. apply (add_ar_st _ _ []) with (g := g); [done|by apply wf_nameb_spec|destruct Hd as [Hd _]; pose proof (ar_off_cases _ _ Ho); rewrite zlen_zdrop; lia|].
  left. split; [done|]. exists t. split; [done|]. split; [done|]. by exists (mkArec nm tp C_IN ttl b), o.
Qed.
Lemma add_records_st l nm tp rs udp s g L :
  st h0 qs s g L → wf_name nm → is_type tp = true → Forall (wf_rdata tp) l → in_turn S_ANSWER L →
  run (add_records queryts l (rhn nm) tp rs udp) (out (λ s' L', L' = put_an (map (rec queryts nm tp rs) l) L)) s.
Proof.
  intros Hst Hn Hty Hl. revert s g L Hst. induction Hl as [|b l Hb Hl IH]; intros s g L Hst Ht; cbn [add_records map].
  { eapply out_ret; [done|]. by rewrite put_an_nil. }
  eapply out_ok; [by eapply add_rr_st|]. intros s1 g1 L1 Hst1 (_ & _ & [[-> _]|[? _]]); [|done].
  set (L1 := log_add S_ANSWER _ L) in *. set (r := mkArec _ _ _ _ _) in *. assert (Hin : r ∈ l_main L1) by (unfold l_main; cbn; set_solver).
  eapply (out_ok (λ _ L', L' = L1)).
  { destruct (one_of tp [T_NS; T_A; T_AAAA]); [|by eapply out_ret]. eapply out_mono; [eapply sva_add_st; [done|done|apply Hb|]|by intros ??? _ (? & _)].
    intros ->. by exists r. }
  intros s2 g2 L2 Hst2 ->. eapply out_ok; [by eapply mark_ar_st|]. intros s3 g3 L3 Hst3 ->.
  eapply out_mono; [by eapply IH|]. intros s4 g4 L4 _ ->. change L1 with (put_an [r] L). by rewrite put_an_app.
Qed.
Lemma add_rrset_st nm tp c udp s g L :
  st h0 qs s g L → wf_name nm → good_cent c → in_turn S_ANSWER L →
  run (add_rrset queryts rnd_recs (rhn nm) tp c udp) (out (λ s' L', ∃ rs, set_recs queryts rnd_recs nm c tp rs ∧ L' = put_an rs L)) s.
Proof.
  intros Hst Hn Hc Ht. unfold add_rrset. r_bind. eapply run_must; [apply getrrset_spec, Hc|]. unfold set_recs. destruct (set_of c tp) as [v|] eqn:Hv.
  - r_bind. eapply run_mono; [apply in_order_st; by eapply st_inv|]. cbn beta. intros l s1 (x & -> & Hx & Hp & Hr).
    eapply out_mono; [eapply add_records_st; [by apply st_env|done|by eapply set_of_type| |done]|].
    + rewrite Hp. by apply Hc.
    + intros s2 g2 L2 _ ->. eexists. split; [|done]. by exists l.
  - eapply out_ret; [done|]. exists []. by rewrite put_an_nil.
Qed.
Lemma add_rrsets_st types nm c udp s g L :
  st h0 qs s g L → wf_name nm → good_cent c → in_turn S_ANSWER L →
  run (add_rrsets queryts rnd_recs types (rhn nm) c udp) (out (λ s' L', ∃ rs, sets_recs queryts rnd_recs nm c types rs ∧ L' = put_an rs L)) s.
Proof.
  intros Hst Hn Hc. revert s g L Hst. induction types as [|tp types IH]; intros s g L Hst Ht; cbn [add_rrsets].
  { eapply out_ret; [done|]. exists []. split; [constructor|by rewrite put_an_nil]. }
  eapply out_ok; [by eapply add_rrset_st|]. intros s1 g1 L1 Hst1 (rs & Hrs & ->). eapply out_mono; [by eapply IH|].
  intros s2 g2 L2 _ (rs' & Hrs' & ->). exists (rs ++ rs'). split; [by constructor|by rewrite put_an_app].
Qed.
Lemma sets_one nm c tp rs : set_recs queryts rnd_recs nm c tp rs → sets_recs queryts rnd_recs nm c [tp] rs.
Proof. intros H. rewrite <-(app_nil_r rs). constructor; [done|constructor]. Qed.
Lemma sets_app nm c tps tps' rs rs' :
  sets_recs queryts rnd_recs nm c tps rs → sets_recs queryts rnd_recs nm c tps' rs' → sets_recs queryts rnd_recs nm c (tps ++ tps') (rs ++ rs').
Proof. induction 1; intros H'; [done|]. rewrite <-app_assoc. cbn [app]. constructor; auto. Qed.

Lemma has_type_stored c qt : good_cent c → has_type c qt = Some (stored c qt).
Proof. intros Hc. unfold has_type, stored. destruct (is_type qt); [|done]. apply have_rr_spec, Hc. Qed.
Lemma RRITERLIST_total c : good_cent c → RRITERLIST c = Some (default [] (RRITERLIST c)).
Proof.
  intros Hc. pose proof (ok_tag _ (gc_ok _ Hc)) as Ht. unfold RRITERLIST, rr_of. destruct (negative c) eqn:Hn; [done|]. unfold cent_tag in Ht.
  destruct (u c); [congruence|done].
Qed.
Lemma add_to_response_st nm qt c udp s g L :
  st h0 qs s g L → wf_name nm → good_cent c → in_turn S_ANSWER L →
  run (add_to_response queryts rnd_recs (rhn nm) qt c udp)
    (out (λ s' L', ∃ rs, sets_recs queryts rnd_recs nm c (answer_types qt c) rs ∧ L' = put_an rs L)) s.
Proof.
  intros Hst Hn Hc Ht. unfold add_to_response. r_bind.
  apply (run_mono _ (λ h s', h = (qt =? T_CNAME) || (qt =? QT_ALL) || stored c qt ∧ s' = s)).
  { destruct (qt =? T_CNAME); cbn [negb andb orb]; [by apply run_ret|]. destruct (qt =? QT_ALL); cbn [negb andb orb]; [by apply run_ret|].
    eapply run_must; [by apply has_type_stored|done]. }
  intros h s1 [-> ->]. unfold answer_types. set (h := _ || stored c qt).
  eapply (out_ok (λ _ L', ∃ rs, sets_recs queryts rnd_recs nm c (if h then [] else [T_CNAME]) rs ∧ L' = put_an rs L)).
  { destruct h; [eapply out_ret; [done|]; exists []; split; [constructor|by rewrite put_an_nil]|].
    eapply out_mono; [by eapply add_rrset_st|]. intros s2 g2 L2 _ (rs & Hrs & ->). exists rs. split; [by apply sets_one|done]. }
  intros s2 g2 L2 Hst2 (rs & Hrs & ->).
  assert (Hsets : ∀ types, run (add_rrsets queryts rnd_recs types (rhn nm) c udp) (out (λ s' L', ∃ rs, sets_recs queryts rnd_recs nm c ((if h then [] else [T_CNAME]) ++ types) rs ∧ L' = put_an rs L)) s2).
  { intros types. eapply out_mono; [by eapply add_rrsets_st|]. intros s3 g3 L3 _ (rs' & Hrs' & ->). exists (rs ++ rs'). split; [by apply sets_app|by rewrite put_an_app]. }
  destruct ((qt =? QT_AXFR) || (qt =? QT_IXFR)); [by apply out_fail, (st_inv _ _ _ Hst2)|].
  destruct (qt =? QT_MAILB); [apply Hsets|]. destruct (qt =? QT_MAILA); [apply Hsets|].
  destruct (qt =? QT_ALL). { r_bind. eapply run_must; [by apply RRITERLIST_total|]. apply Hsets. }
  destruct (is_type qt); [|by apply out_fail, (st_inv _ _ _ Hst2)].
  eapply out_mono; [by eapply add_rrset_st|]. intros s3 g3 L3 _ (rs' & Hrs' & ->). exists (rs ++ rs').
  split; [by apply sets_app; [|apply sets_one]|by rewrite put_an_app].
Qed.

(** *** Addresses of names, and name servers *)

Lemma get_mu_set c tp i : cent_ok c → place tp = Some i → is_type tp = true → i < NRRMU → GET_RRSMU c i = Some (set_of c tp).
Proof.
  intros Hc Hp Ht Hi. rewrite <-getrrset_spec by done. unfold GET_RRSMU, getrrset. destruct (negative c); [done|]. unfold is_type in Ht. unfold place in Hp. rewrite Hp. cbn [mbind option_bind].
  replace ((0 <=? tp - T_MIN) && (tp - T_MIN <? T_NUM)) with true by (unfold T_MIN, T_MAX, T_NUM in *; lia).
  destruct (rr_of c) as [[mu ext]|]; [|done]. cbn [mbind option_bind fst]. by replace (i <? NRRMU) with true by lia.
Qed.
Lemma wf_label_len nm : wf_name nm → Forall label_len nm.
Proof. intros [H _]. eapply list.Forall_impl; [exact H|]. by intros l []. Qed.
Lemma already_added_st L l nm tp data :
  Forall (sva_ok L) l → wf_name nm →
  ∃ b, already_added l (rhn nm) tp data = Some b ∧ (b = true → tp = T_NS → ∃ r, r ∈ l_main L ∧ a_type r = T_NS ∧ a_data r = data).
Proof.
  intros Hl Hn. induction Hl as [|e l (nm' & Hn' & He & Hr) _ IH]; cbn [already_added]; [by exists false|].
  destruct (Z.eqb_spec (sv_tp e) tp) as [Htp|_]; [|done]. rewrite He. pose proof (rhnicmp_spec nm' nm [] []) as Hcmp. rewrite !app_nil_r in Hcmp.
  rewrite Hcmp by by apply wf_label_len. cbn [mbind option_bind]. destruct (bool_decide (same_name nm' nm) && bool_decide (sv_data e = data)) eqn:Hm; [|done].
  exists true. split; [done|]. intros _ ->. apply andb_true_iff in Hm as [_ <-%bool_decide_eq_true]. by apply Hr.
Qed.
Definition put_ns (rs : list arec) L : log := mkLog (l_an L) (l_ns L ++ rs) (l_ar L).
Definition put_ar (rs : list arec) L : log := mkLog (l_an L) (l_ns L) (l_ar L ++ rs).
Lemma put_ns_app rs rs' L : put_ns rs' (put_ns rs L) = put_ns (rs ++ rs') L.
Proof. unfold put_ns. cbn. by rewrite app_assoc. Qed.
Lemma put_ns_nil L : put_ns [] L = L.
Proof. destruct L. unfold put_ns. cbn. by rewrite app_nil_r. Qed.
Lemma put_ar_app rs rs' L : put_ar rs' (put_ar rs L) = put_ar (rs ++ rs') L.
Proof. unfold put_ar. cbn. by rewrite app_assoc. Qed.
Lemma put_ar_nil L : put_ar [] L = L.
Proof. destruct L. unfold put_ar. cbn. by rewrite app_nil_r. Qed.
(** records of the authority section, and addresses *)
Definition authority (r : arec) : Prop := one_of (a_type r) [T_NS; T_SOA] = true ∧ a_class r = C_IN.
Definition soa (r : arec) : Prop := a_type r = T_SOA ∧ a_class r = C_IN.
Definition address (main : list arec) (r : arec) : Prop := plain (a_type r) = true ∧ a_class r = C_IN ∧ wanted main (a_name r).
Definition fits (udp : option Z) s L : Prop := l_ar L ≠ [] → over_limit udp (sz s) = false.

Definition ns_added (P : arec → Prop) s L s' L' : Prop := ∃ rs, L' = put_ns rs L ∧ Forall P rs ∧ ar s' = ar s.
Lemma ns_added_trans P s1 L1 s2 L2 s3 L3 : ns_added P s1 L1 s2 L2 → ns_added P s2 L2 s3 L3 → ns_added P s1 L1 s3 L3.
Proof.
  intros (rs & -> & Hf & Ha) (rs' & -> & Hf' & Ha'). exists (rs ++ rs'). split; [by rewrite put_ns_app|]. split; [by apply Forall_app|congruence].
Qed.
Lemma ns_added_refl P s L s' : ar s' = ar s → ns_added P s L s' L.
Proof. intros H. exists []. by rewrite put_ns_nil. Qed.
Lemma ns_added_turn P s L s' L' : ns_added P s L s' L' → in_turn S_AUTHORITY L → in_turn S_AUTHORITY L'.
Proof. by intros (rs & -> & _). Qed.
Lemma ns_added_main P s L s' L' : ns_added P s L s' L' → l_main L ⊆ l_main L'.
Proof. intros (rs & -> & _). unfold l_main, put_ns. cbn. set_solver. Qed.
Definition ar_added udp s L s' L' : Prop := (∃ rs, L' = put_ar rs L ∧ Forall (address (l_main L)) rs) ∧ ar s' = ar s ∧ (fits udp s L → fits udp s' L').
Lemma ar_added_trans udp s1 L1 s2 L2 s3 L3 : ar_added udp s1 L1 s2 L2 → ar_added udp s2 L2 s3 L3 → ar_added udp s1 L1 s3 L3.
Proof.
  intros ((rs & -> & Hf) & Ha & Hfit) ((rs' & -> & Hf') & Ha' & Hfit'). split; [|split; [congruence|auto]].
  exists (rs ++ rs'). split; [by rewrite put_ar_app|]. by apply Forall_app.
Qed.
Lemma ar_added_refl udp s L s' : ar s' = ar s → sz s' = sz s → ar_added udp s L s' L.
Proof. intros H Hz. split; [|split; [done|unfold fits; by rewrite Hz]]. exists []. by rewrite put_ar_nil. Qed.
Lemma ar_added_main udp s L s' L' : ar_added udp s L s' L' → l_main L' = l_main L.
Proof. by intros ((rs & -> & _) & _). Qed.

Lemma add_ns_st nm tp ttl data udp s g L :
  st h0 qs s g L → wf_name nm → one_of tp [T_NS; T_SOA] = true → wf_rdata tp data → in_turn S_AUTHORITY L →
  run (add_additional_rr (rhn nm) tp ttl data S_AUTHORITY udp)
    (out (λ s' L', ns_added authority s L s' L' ∧ (tp = T_NS → ∃ r, r ∈ l_main L' ∧ a_type r = T_NS ∧ a_data r = data))) s.
Proof.
  intros Hst Hn Htp Hd Ht. unfold add_additional_rr. r_get. destruct (already_added_st L (sva s) nm tp data (st_sva _ _ _ _ _ Hst) Hn) as (d & Hdec & Hold).
  r_bind. eapply run_must; [exact Hdec|]. destruct d.
  { eapply out_ret; [done|]. split; [by apply ns_added_refl|]. by apply Hold. }
  eapply out_ok; [eapply add_rr_st; try done; by type_ok|]. intros s1 g1 L1 Hst1 (_ & Ha1 & [[-> _]|[? _]]); [|done].
  set (L1 := log_add S_AUTHORITY _ L) in *. set (r := mkArec _ _ _ _ _) in *. assert (Hin : r ∈ l_main L1) by (unfold l_main; cbn; set_solver).
  eapply out_mono; [eapply sva_add_st; [done|done|apply Hd|]|]; [by intros ->; exists r|].
  intros s2 g2 L2 _ (-> & Ha2 & _). split; [|by intros ->; exists r]. exists [r]. split; [done|]. split; [|congruence]. by apply list.Forall_singleton.
Qed.
Lemma add_address_st nm tp ttl data udp s g L :
  st h0 qs s g L → wf_name nm → wanted (l_main L) nm → plain tp = true → wf_rdata tp data →
  run (add_additional_rr (rhn nm) tp ttl data S_ADDITIONAL udp) (out (ar_added udp s L)) s.
Proof.
  intros Hst Hn Hw Hp Hd. unfold add_additional_rr. r_get. destruct (already_added_st L (sva s) nm tp data (st_sva _ _ _ _ _ Hst) Hn) as (d & Hdec & _).
  r_bind. eapply run_must; [exact Hdec|]. destruct d. { eapply out_ret; [done|]. by apply ar_added_refl. }
  eapply out_ok; [eapply add_rr_st; try done; by type_ok|]. intros s1 g1 L1 Hst1 (_ & Ha1 & Hadd).
  eapply out_mono; [eapply sva_add_st; [done|done|apply Hd|]; intros ->; by one_no|].
  intros s2 g2 L2 _ (-> & Ha2 & Hz2). destruct Hadd as [[-> Hlim]|(_ & -> & Hz1)]; [|apply ar_added_refl; congruence].
  split; [|split; [congruence|intros _ _; rewrite Hz2; by apply Hlim]]. eexists [_]. split; [done|]. by apply list.Forall_singleton.
Qed.
Lemma add_each_st l nm tp ttl udp s g L :
  st h0 qs s g L → wf_name nm → wanted (l_main L) nm → plain tp = true → Forall (wf_rdata tp) l →
  run (add_each l (rhn nm) tp ttl udp) (out (ar_added udp s L)) s.
Proof.
  intros Hst Hn Hw Hp Hl. revert s g L Hst Hw. induction Hl as [|b l Hb _ IH]; intros s g L Hst Hw; cbn [add_each].
  { eapply out_ret; [done|]. by apply ar_added_refl. }
  eapply out_ok; [by eapply add_address_st|]. intros s1 g1 L1 Hst1 Had. eapply out_mono; [eapply IH; [done|by erewrite ar_added_main]|].
  intros s2 g2 L2 _. by apply ar_added_trans.
Qed.
Lemma add_addresses_st nm tp c udp s g L :
  st h0 qs s g L → wf_name nm → wanted (l_main L) nm → plain tp = true → good_cent c →
  run (add_addresses queryts rnd_recs (rhn nm) tp (set_of c tp) udp) (out (ar_added udp s L)) s.
Proof.
  intros Hst Hn Hw Hp Hc. unfold add_addresses. destruct (set_of c tp) as [v|] eqn:Hv; [|eapply out_ret; [done|]; by apply ar_added_refl].
  unfold add_additional_rrs. r_bind. eapply run_mono; [apply in_order_st; by eapply st_inv|]. cbn beta. intros l s1 (x & -> & Hx & Hpm & _).
  eapply out_mono; [eapply add_each_st; [by apply st_env|done|done|done|]|].
  - rewrite Hpm. by apply Hc.
  - intros s2 g2 L2 _ Had. eapply ar_added_trans; [|exact Had]. by apply ar_added_refl.
Qed.
Lemma add_additional_a_st nm udp s g L :
  st h0 qs s g L → wf_name nm → wanted (l_main L) nm → run (add_additional_a queryts rnd_recs (rhn nm) udp) (out (ar_added udp s L)) s.
Proof.
  intros Hst Hn Hw. unfold add_additional_a. r_bind. apply (run_call _ _ _ _ (lookup_law _ _ (st_inv _ _ _ Hst) Hn)). intros o x [Hx Ho].
  assert (Hst1 : st h0 qs (with_env x s) g L) by (by apply st_env).
  assert (Hr1 : ar_added udp s L (with_env x s) L) by (by apply ar_added_refl).
  destruct o as [c|]; [|by eapply out_ret]. specialize (Ho c eq_refl).
  r_bind. eapply run_must; [by apply (get_mu_set c T_A); [apply Ho|..]|].
  eapply out_ok; [by eapply add_addresses_st|]. intros s2 g2 L2 Hst2 Had2. r_bind. eapply run_must; [by apply (get_mu_set c T_AAAA); [apply Ho|..]|].
  eapply out_mono; [eapply add_addresses_st; [done|done|by erewrite ar_added_main|done|done]|].
  intros s3 g3 L3 _ Had3. eapply ar_added_trans; [exact Hr1|]. by eapply ar_added_trans.
Qed.
End answer.
