(* ===== verification/DnsAnswerReply.v ===== *)
(** * The answer to a query

    [compose_answer] and [process_query] (file DnsAnswer) keep the contract of file
    DnsAnswerSafe, for every environment that keeps its laws. *)

From S2P Require Import Prelude CInt DnsName DnsCompress RrTypes RrList DnsHash DnsCent DnsCache Contract DnsCacheInv DnsCacheAdd DnsCacheOps DnsCacheSafe DnsCacheFile DnsCacheRead DnsCacheDisk DnsCacheReload DnsResponse DnsResponseSpec DnsResponseCache DnsAnswer DnsAnswerSpec DnsAnswerRr DnsAnswerSafe.

Section reply.
Context {X : Type} {E : AnswerEnv X} {Inv : X → Prop} {found : list bytes → dns_cent_t → Prop} {L0 : AnswerEnvLaws X E Inv found}.
Abbreviation st := (@DnsAnswerSafe.st X Inv).
Abbreviation out := (@DnsAnswerSafe.out X Inv).
Implicit Types (s : reply X) (g : list (Z * list bytes)) (L : log).
Context (queryts udpbufsize : Z) (rnd_recs : bool).

(** ** The sections after the answers *)

(** a set of name servers or SOA records, with the name it belongs to *)
Definition good_set (tp : Z) (o : option (dns_cent_t * rr_set_t)) : Prop :=
  ∀ c v, o = Some (c, v) → (∃ nm, wf_name nm ∧ qname c = rhn nm) ∧ Forall (wf_rdata tp) (rrs v).
Lemma good_set_of tp c v : good_cent c → set_of c tp = Some v → good_set tp (Some (c, v)).
Proof. intros Hc Hv c' v' [= <- <-]. split; [apply Hc|by apply Hc]. Qed.
Lemma good_set_not_negative tp c v : good_cent c → not_negative (set_of c tp) = Some v → good_set tp (Some (c, v)).
Proof.
  intros Hc. unfold not_negative. destruct (set_of c tp) as [v'|] eqn:Hv; [|done]. destruct (has (flags v') CF_NEGATIVE); [done|].
  intros [= <-]. by apply good_set_of.
Qed.
Lemma skip_to_parent nm (t : Z) (b : bool) : wf_name nm →
  ∃ o k, (if b then skipsegs (rhn nm) 0 (Z.to_nat (zlen nm - t)) else Some 0) = Some o ∧ zdrop o (rhn nm) = rhn (drop k nm) ∧ wf_name (drop k nm).
Proof.
  intros Hn. destruct b.
  - destruct (skip_labels nm (Z.to_nat (zlen nm - t)) Hn) as (o & Ho & Hd). exists o, (Z.to_nat (zlen nm - t)). split; [done|]. split; [done|by apply wf_name_drop].
  - exists 0, 0%nat. done.
Qed.
Lemma find_authority_spec tp c s :
  good_cent c → Inv (env s) → run (find_authority tp c) (λ o s', ∃ x, s' = with_env x s ∧ Inv x ∧ good_set tp o) s.
Proof.
  intros Hc Hi. assert (Hsame : ∀ x, with_env x (with_env x s) = with_env x s) by done. unfold find_authority.
  destruct (gc_name _ Hc) as (nm & Hn & Hq). rewrite Hq.
  r_bind. eapply run_must; [apply getrrset_spec, Hc|]. destruct (not_negative (set_of c tp)) as [v|] eqn:Hv.
  { apply run_ret. exists (env s). split; [by destruct s|]. split; [done|by apply good_set_not_negative]. }
  r_bind. eapply run_must; [by apply count_labels|]. cbn zeta. set (tc := if tp =? T_NS then _ else _).
  destruct (skip_to_parent nm tc (negb (tc =? cundef) && (tc <? zlen nm)) Hn) as (o & k & Ho & Hd & Hk).
  r_bind. apply (run_mono _ (λ a s', a = o ∧ s' = s)).
  { destruct (negb (tc =? cundef) && (tc <? zlen nm)); [by eapply run_must|]. injection Ho as <-. by apply run_ret. }
  intros ? ? [-> ->]. rewrite Hd. r_bind. apply (run_call _ _ _ _ (lookup_law _ _ Hi Hk)). intros o1 x [Hx Ho1].
  r_bind. apply (run_mono _ (λ o' s', s' = with_env x s ∧ good_set tp o')).
  { destruct o1 as [c1|]; [|by apply run_ret]. specialize (Ho1 c1 eq_refl). r_bind. eapply run_must; [apply getrrset_spec, Ho1|]. apply run_ret. split; [done|].
    destruct (not_negative (set_of c1 tp)) eqn:Hv1; [by apply good_set_not_negative|done]. }
  intros x1 ? [-> Hg1]. destruct x1 as [x1|]; [apply run_ret; by exists x|].
  destruct (has (c_flags c) DF_LOCAL); [|apply run_ret; by exists x].
  r_bind. apply (run_call _ _ _ _ (owner_law _ tp _ Hx Hn)). intros o2 x2 [Hx2 Ho2]. destruct o2 as [o2|]; [|apply run_ret; by exists x2].
  destruct (Ho2 o2 eq_refl) as [k2 Hk2]. rewrite Hk2.
  r_bind. apply (run_call _ _ _ _ (lookup_law _ _ Hx2 (wf_name_drop _ k2 Hn))). intros o3 x3 [Hx3 Ho3]. destruct o3 as [c3|]; [|apply run_ret; by exists x3].
  specialize (Ho3 c3 eq_refl). r_bind. eapply run_must; [apply getrrset_spec, Ho3|]. apply run_ret. exists x3. split; [done|]. split; [done|].
  destruct (set_of c3 tp) as [v3|] eqn:Hv3; [by apply good_set_of|done].
Qed.

Section sections.
Context (h0 : dns_hdr_t) (qs : list dns_queryel_t).
Abbreviation st := (st h0 qs).
Abbreviation out := (out h0 qs).

Lemma add_authorities_st l tp c v s g L :
  st s g L → one_of tp [T_NS; T_SOA] = true → (∃ nm, wf_name nm ∧ qname c = rhn nm) → Forall (wf_rdata tp) l →
  run (add_authorities queryts l tp c v) (out (λ s' L', L' = L)) s.
Proof.
  intros Hst Htp (nm & Hn & Hq) Hl. revert s g L Hst. induction Hl as [|b l Hb _ IH]; intros s g L Hst; cbn [add_authorities]; [by eapply out_ret|].
  rewrite Hq. eapply out_ok; [eapply add_ar_st; [done|done|apply Hb|]|]. { right. split; [done|]. split; [by exists nm|done]. }
  intros s1 g1 L1 Hst1 ->. by eapply IH.
Qed.
Lemma wanted_authority_total qt c : good_cent c → ∃ tp, wanted_authority qt c = Some tp ∧ one_of tp [T_NS; T_SOA] = true.
Proof.
  intros Hc. unfold wanted_authority. rewrite has_type_stored by done. cbn [mbind option_bind]. rewrite !have_rr_spec by apply Hc. cbn [mbind option_bind].
  eexists. split; [done|]. by destruct (_ || _).
Qed.
Lemma list_authority_st qt c s g L : st s g L → good_cent c → run (list_authority queryts qt c) (out (λ s' L', L' = L)) s.
Proof.
  intros Hst Hc. unfold list_authority. destruct (wanted_authority_total qt c Hc) as (tp & Htp & Hone). r_bind. eapply run_must; [exact Htp|].
  r_bind. eapply run_mono; [apply find_authority_spec; [done|by eapply st_inv]|]. cbn beta. intros o s1 (x & -> & Hx & Hg).
  destruct o as [[c' v]|]; [|by eapply out_ret; [apply st_env|]]. destruct (Hg c' v eq_refl) as [Hq Hr]. eapply add_authorities_st; [by apply st_env|done|done|done].
Qed.

(** the name server of an item of [ar] is in the message *)
Definition listed L (e : rr_ext_t) : Prop := re_tp e = T_NS → ∃ r, r ∈ l_main L ∧ a_type r = T_NS ∧ a_data r = re_tnm e.
Lemma add_authority_section_st l udp s g L :
  st s g L → Forall (ext_ok L) l → in_turn S_AUTHORITY L →
  run (add_authority_section l udp) (out (λ s' L', ns_added authority s L s' L' ∧ Forall (listed L') l)) s.
Proof.
  intros Hst Hl. revert s g L Hst Hl. induction l as [|e l IH]; intros s g L Hst Hl Ht; cbn [add_authority_section].
  { eapply out_ret; [done|]. split; [by apply ns_added_refl|constructor]. }
  apply list.Forall_cons in Hl as [He Hl].
  eapply out_ok with (P := (λ s' L', ns_added authority s L s' L' ∧ listed L' e)).
  { destruct (one_of (re_tp e) [T_NS; T_SOA]) eqn:Hone.
    - destruct He as [[He _]|(_ & (nm & Hn & Hre) & Hd)]; [by rewrite He in Hone|]. rewrite Hre. by eapply add_ns_st.
    - eapply out_ret; [done|]. split; [by apply ns_added_refl|]. intros Hns. by rewrite Hns in Hone. }
  intros s1 g1 L1 Hst1 [Had He1]. eapply out_mono; [eapply IH; [done| |by eapply ns_added_turn]|].
  - eapply list.Forall_impl; [exact Hl|]. intros e'. apply ext_ok_mono. by eapply ns_added_main.
  - intros s2 g2 L2 _ [Had2 Hl2]. split; [by eapply ns_added_trans|]. constructor; [|done]. intros Hns. destruct (He1 Hns) as (r & Hr & ?).
    exists r. split; [by eapply ns_added_main|done].
Qed.
Lemma ext_wanted L e : ext_ok L e → listed L e → one_of (re_tp e) [T_NS; RRETP_ADD] = true → ∃ nm, wf_name nm ∧ re_tnm e = rhn nm ∧ wanted (l_main L) nm.
Proof.
  intros [[_ H]|(Hone & _ & Hd)] Hli Hone2; [done|].
  assert (Hns : re_tp e = T_NS). { revert Hone Hone2. cbv [one_of existsb T_NS T_SOA RRETP_ADD]. lia. }
  destruct (Hli Hns) as (r & Hr & Ht & Hdr). rewrite Hns in Hd. destruct (wf_target T_NS 0 (re_tnm e) eq_refl Hd) as (t & Htn & Hz & _).
  change (re_tnm e = rhn t) in Hz. exists t. split; [done|]. split; [done|]. exists r, 0. rewrite Ht, Hdr. done.
Qed.
Lemma add_additional_section_st l udp s g L :
  st s g L → Forall (ext_ok L) l → Forall (listed L) l → run (add_additional_section queryts rnd_recs l udp) (out (ar_added udp s L)) s.
Proof.
  intros Hst Hl Hl2. revert s g L Hst Hl Hl2. induction l as [|e l IH]; intros s g L Hst Hl Hl2; cbn [add_additional_section].
  { eapply out_ret; [done|]. by apply ar_added_refl. }
  apply list.Forall_cons in Hl as [He Hl]. apply list.Forall_cons in Hl2 as [He2 Hl2].
  eapply out_ok with (P := ar_added udp s L).
  { destruct (one_of (re_tp e) [T_NS; RRETP_ADD]) eqn:Hone; [|eapply out_ret; [done|]; by apply ar_added_refl].
    destruct (ext_wanted _ _ He He2 Hone) as (nm & Hn & -> & Hw). by eapply add_additional_a_st. }
  intros s1 g1 L1 Hst1 Had. pose proof (ar_added_main _ _ _ _ _ Had) as Hmain. eapply out_mono; [eapply IH; [done| |]|].
  - eapply list.Forall_impl; [exact Hl|]. intros e'. apply ext_ok_mono. by rewrite Hmain.
  - eapply list.Forall_impl; [exact Hl2|]. intros e' H (r & ?)%H. exists r. by rewrite Hmain.
  - intros s2 g2 L2 _. by apply ar_added_trans.
Qed.

(** ** The OPT record *)

Definition opt_rec (rcode : Z) : arec := mkArec [] T_OPT (u16 udpbufsize) (u8 (Z.shiftr rcode 4) * 2 ^ 24) [].
Lemma opt_ttl v : be32 (u8 v * 2 ^ 24) = [u8 v; u8 0] ++ be16 0.
Proof.
  unfold be32, be16, u8. rewrite !Z.shiftr_div_pow2 by done. change (2 ^ 24) with 16777216. change (2 ^ 16) with 65536. change (2 ^ 8) with 256.
  pose proof (Z.mod_pos_bound v 256). set (w := v mod 256) in *. cbn [app].
  assert (w * 16777216 / 16777216 mod 256 = w) as -> by (Z.to_euclidean_division_equations; lia).
  assert (w * 16777216 / 65536 mod 256 = 0) as -> by (Z.to_euclidean_division_equations; lia).
  assert (w * 16777216 / 256 mod 256 = 0) as -> by (Z.to_euclidean_division_equations; lia).
  assert (w * 16777216 mod 256 = 0) as -> by (Z.to_euclidean_division_equations; lia). done.
Qed.
Lemma be16_u16 v : be16 (u16 v) = be16 v.
Proof. rewrite !be16_bytes. unfold be_bytes, le_bytes, u16. change (2 ^ 16) with 65536. do 2 f_equal; [|f_equal]; Z.to_euclidean_division_equations; lia. Qed.
Lemma opt_rec_ok rcode : rec_ok (opt_rec rcode).
Proof.
  split; [by apply wf_nameb_spec|]. split; [done|]. unfold in_range. cbn. pose proof (Z.mod_pos_bound udpbufsize (2 ^ 16)). pose proof (Z.mod_pos_bound (Z.shiftr rcode 4) (2 ^ 8)).
  unfold u16, u8, T_OPT. lia.
Qed.
Lemma opt_written m m' rcode :
  zlen m = m' → let b := [0] ++ be16 T_OPT ++ be16 udpbufsize ++ [u8 (Z.shiftr rcode 4); u8 0] ++ be16 0 ++ be16 0 in
  written (m ++ b) (opt_rec rcode) m' (m' + 11).
Proof.
  intros <- b. pose proof (zlen_nonneg m). exists [], 0, 1, [], [REST]. unfold sizeof_rr_hdr_t. cbn [a_name a_type a_class a_ttl a_data opt_rec]. rewrite be16_u16.
  replace (zlen m + 11 - (zlen m + 1 + 10)) with 0 by lia.
  assert (Hb : zlen b = 11) by done. split_and!; try done; try lia.
  - apply name_root. rewrite rd_app_r by lia. by rewrite Z.sub_diag.
  - replace (m ++ b) with ((m ++ [0]) ++ (be16 T_OPT ++ be16 udpbufsize ++ be32 (u8 (Z.shiftr rcode 4) * 2 ^ 24) ++ be16 0) ++ []).
    + replace (zlen m + 1) with (zlen (m ++ [0])) by (rewrite zlen_app; done). by apply slice_mid.
    + rewrite opt_ttl, app_nil_r, <-app_assoc. done.
  - rewrite zlen_app. lia.
  - by apply put_rest; [rewrite slice_0_len|rewrite zlen_nil; lia].
  - constructor.
  - constructor.
Qed.
Definition opt_bytes (rcode : Z) : bytes := [0] ++ be16 T_OPT ++ be16 udpbufsize ++ [u8 (Z.shiftr rcode 4); u8 0] ++ be16 0 ++ be16 0.
Definition opt_added rcode s L s' L' : Prop := L' = put_ar [opt_rec rcode] L ∧ ar s' = ar s ∧ sz s' = sz s + 11.
Lemma put_opt_st rcode s g L (Q : bool → reply X → Prop) :
  st s g L → dnsmsghdroffset + sz s + 11 ≤ allocsz s ≤ 2 ^ 31 →
  (∀ s' L', st s' g L' → opt_added rcode s L s' L' → Q true s') →
  run (append (opt_bytes rcode);; upd_hdr (count S_ADDITIONAL);; mret true) Q s.
Proof.
  intros Hst Ha HQ. pose proof (st_good _ _ _ _ _ Hst) as Hg. set (b := opt_bytes rcode). assert (Hb : zlen b = 11) by done.
  assert (Hbo : bytes_ok b). { unfold b, opt_bytes. rewrite !be16_bytes, !bytes_ok_app. split_and!; try apply be_bytes_ok; repeat constructor; try done; apply Z.mod_pos_bound; done. }
  r_bind. eapply run_mono; [apply (append_ready b b s g (body s) Hg Hbo)|]; [done|done|lia|].
  cbn beta. intros _ s2 (Hr2 & (Hh2 & Ha2 & Hs2 & Har2) & Hb2). r_bind. apply run_modify.
  assert (Hsz2 : sz s2 = sz s + 11) by (unfold sz; rewrite Hb2, zlen_app; lia).
  set (s3 := mkReply _ _ _ _ _ _ _). apply run_ret, (HQ s3 (put_ar [opt_rec rcode] L)); [|by split].
  eapply (st_add _ _ s g L s3 g S_ADDITIONAL); [done|by apply opt_rec_ok|done|by cbn [hdr s3]; rewrite Hh2|].
  split; [|done|done|by exists b| |by intros ???]; cbn [body s3].
  - rewrite <-Hb2 in Hr2. destruct Hr2; by split.
  - rewrite Hb2, app_assoc. change (sz s3) with (sz s2). rewrite Hsz2. apply opt_written. by apply (ready_sz _ _ _ Hg).
Qed.
Lemma add_opt_rr_st rcode s g L : st s g L → run (add_opt_pseudo_rr udpbufsize rcode 0 0) (out (opt_added rcode s L)) s.
Proof.
  intros Hst. pose proof (rd_room _ _ _ (st_good _ _ _ _ _ Hst)) as Hroom. pose proof (zlen_nonneg (body s)). unfold add_opt_pseudo_rr.
  r_bind. apply need_room_spec; [by eapply st_inv|done|unfold dnsmsghdroffset, sz, sizeof_dns_hdr_t in *; lia|intros; by apply out_fail|].
  intros x a Hx Ha Hge. set (s1 := mkReply _ _ _ _ _ _ _).
  assert (Hst1 : st s1 g L).
  { destruct Hst as [Hg ? ? ? ? ? ?]. split; try done. destruct Hg; split; try done. change (sz s1) with (sz s). cbn [allocsz s1]. lia. }
  eapply put_opt_st; [exact Hst1|exact Ha|]. intros s' L' Hst' Hadd. split; [by eapply st_inv|]. intros _. by exists g, L'.
Qed.
(** with room for it the record is always added *)
Lemma add_opt_room rcode s g L :
  st s g L → dnsmsghdroffset + sz s + 11 ≤ allocsz s ≤ 2 ^ 31 →
  run (add_opt_pseudo_rr udpbufsize rcode 0 0) (λ b s', Inv (env s') ∧ ∃ L', st s' g L' ∧ opt_added rcode s L s' L') s.
Proof.
  intros Hst Ha. unfold add_opt_pseudo_rr. r_bind. unfold need_room. r_get. cbn zeta. unfold sizeof_opt_pseudo_rr, sizeof_rr_hdr_t.
  replace (dnsmsghdroffset + sz s + (1 + 10) >? allocsz s) with false by lia. apply run_ret. eapply put_opt_st; [exact Hst|exact Ha|].
  intros s' L' Hst' Hadd. split; [by eapply st_inv|by exists L'].
Qed.

(** ** Names that do not exist *)

Lemma add_soas_st l nm v udp s g L :
  st s g L → wf_name nm → Forall (wf_rdata T_SOA) l → in_turn S_AUTHORITY L →
  run (add_soas queryts l (rhn nm) v udp) (out (ns_added soa s L)) s.
Proof.
  intros Hst Hn Hl. revert s g L Hst. induction Hl as [|b l Hb _ IH]; intros s g L Hst Ht; cbn [add_soas]. { eapply out_ret; [done|]. by apply ns_added_refl. }
  eapply out_ok; [by eapply add_rr_st|]. intros s1 g1 L1 Hst1 (_ & Ha1 & [[-> _]|[? _]]); [|done].
  eapply out_mono; [by eapply IH|]. intros s2 g2 L2 _. apply ns_added_trans. eexists [_]. split; [done|]. split; [|done]. by apply list.Forall_singleton.
Qed.
Lemma add_soa_of_st nm c_soa udp s g L :
  st s g L → wf_name nm → in_turn S_AUTHORITY L → run (add_soa_of queryts (rhn nm) c_soa udp) (out (ns_added soa s L)) s.
Proof.
  intros Hst Hn Ht. assert (Hskip : run (mret true) (out (ns_added soa s L)) s) by (eapply out_ret; [done|]; by apply ns_added_refl).
  unfold add_soa_of. destruct (c_soa =? cundef); [done|]. r_bind. eapply run_must; [by apply count_labels|]. destruct (c_soa <? zlen nm); [|done].
  destruct (skip_labels nm (Z.to_nat (zlen nm - c_soa)) Hn) as (o & Ho & Hd). r_bind. eapply run_must; [exact Ho|]. rewrite Hd.
  r_bind. apply (run_call _ _ _ _ (lookup_law _ _ (st_inv _ _ _ _ _ Hst) (wf_name_drop _ _ Hn))). intros oc x [Hx Hoc].
  assert (Hst1 : st (with_env x s) g L) by (by apply st_env).
  assert (Hskip1 : run (mret true) (out (ns_added soa s L)) (with_env x s)) by (eapply out_ret; [done|]; by apply ns_added_refl).
  destruct oc as [c|]; [|done]. specialize (Hoc c eq_refl). r_bind. eapply run_must; [by apply (get_mu_set c T_SOA); [apply Hoc|..]|].
  destruct (not_negative (set_of c T_SOA)) as [v|] eqn:Hv; [|done].
  destruct (good_set_not_negative _ _ _ Hoc Hv c v eq_refl) as [(nm' & Hn' & Hq) Hr]. rewrite Hq. eapply out_mono; [by eapply add_soas_st|]. done.
Qed.
Lemma add_opt_st edns rcode s g L :
  st s g L → run (add_opt udpbufsize edns rcode) (out (λ s' L', L' = put_ar (if edns then [opt_rec rcode] else []) L ∧ ar s' = ar s ∧
    sz s' = sz s + if edns then sizeof_opt_pseudo_rr else 0)) s.
Proof.
  intros Hst. unfold add_opt. destruct edns; [by eapply add_opt_rr_st|]. eapply out_ret; [done|]. by rewrite put_ar_nil, Z.add_0_r.
Qed.
End sections.

Lemma st_set_rcode v h0 qs s g L :
  st h0 qs s g L → st (set_rcode v h0) qs (mkReply (env s) (set_rcode v (hdr s)) (body s) (allocsz s) (cb s) (sva s) (ar s)) g L.
Proof.
  intros [Hg Hh Hb Hn Hk Hs Ha]. split; try done; cbn [hdr]; [|by rewrite Hh]. destruct Hg; by split.
Qed.
(** [P] when the loops go on; an error of the resolver ends them with an answer, for which
    [R] holds: for a name that does not exist it has SOA records and the OPT record, for
    other errors nothing more *)
Definition settled h0 qs (P : reply X → log → Prop) (R : Z → log → Prop) (f : flow) s' : Prop :=
  Inv (env s') ∧ match f with
  | GO_ON => ∃ g' L', st h0 qs s' g' L' ∧ P s' L'
  | RETURN rc => 0 < rc < 2 ^ 16 ∧ ∃ g' L', st (set_rcode rc h0) qs s' g' L' ∧ R rc L'
  | ERROR _ => True
  end.
Definition closing (edns : bool) (rc : Z) (ns ar : list arec) : Prop :=
  if rc =? RC_NAMEERR then Forall soa ns ∧ ar = (if edns then [opt_rec rc] else []) else ns = [] ∧ ar = [].
Definition closed (edns : bool) L (rc : Z) L' : Prop := ∃ ns ar, L' = put_ar ar (put_ns ns L) ∧ closing edns rc ns ar.
Lemma not_found_st nm rc c_soa edns udp h0 qs s g L (P : reply X → log → Prop) :
  st h0 qs s g L → wf_name nm → in_turn S_ANSWER L → 0 < rc < 2 ^ 16 →
  run (not_found queryts udpbufsize (rhn nm) rc c_soa edns udp) (settled h0 qs P (closed edns L)) s.
Proof.
  intros Hst Hn Ht Hrc. unfold not_found. replace (u16 rc) with rc by (unfold u16; rewrite Z.mod_small; lia).
  pose proof (st_set_rcode rc _ _ _ _ _ Hst) as Hst1. set (s1 := mkReply _ _ _ _ _ _ _) in Hst1. r_bind. apply run_modify. fold s1.
  destruct (rc =? RC_NAMEERR) eqn:Hname.
  - r_bind. eapply run_mono.
    { eapply out_ok with (Q := λ _ L', closed edns L rc L'); [eapply add_soa_of_st; [exact Hst1|done|by destruct Ht]|]. intros s2 g2 L2 Hst2 (ns & -> & Hns & _).
      eapply out_mono; [by eapply add_opt_st|]. intros s3 g3 L3 _ [-> _]. exists ns, (if edns then [opt_rec rc] else []). split; [done|]. unfold closing. by rewrite Hname. }
    cbn beta. intros b s3 [Hi Hb]. apply run_ret. split; [done|]. destruct b; [|done]. destruct (Hb eq_refl) as (g' & L' & Hst' & Hc).
    split; [done|]. by exists g', L'.
  - apply run_ret. split; [by eapply st_inv|]. split; [done|]. exists g, L. split; [done|]. exists [], []. unfold closing. by rewrite Hname, put_ns_nil, put_ar_nil.
Qed.

(** ** The chain of aliases *)

Lemma next_name_alias recurse qt c :
  good_cent c → next_name recurse qt c = Some (alias recurse qt c) ∧ ∀ b, alias recurse qt c = Some b → ∃ nm, wf_name nm ∧ b = rhn nm.
Proof.
  intros Hc. unfold next_name, alias. rewrite has_type_stored by done. cbn [mbind option_bind].
  assert (Hcn : ∀ v b l, set_of c T_CNAME = Some v → rrs v = b :: l → ∃ nm, wf_name nm ∧ b = rhn nm).
  { intros v b l Hv Hl. pose proof (gc_sets _ Hc _ _ Hv) as Hf. rewrite Hl in Hf. apply list.Forall_cons in Hf as [(_ & _ & fs & Hlay & Hfs) _].
    injection Hlay as <-. apply fields_name_inv in Hfs as (nm & d & -> & Hn & ->%fields_nil_inv). exists nm. by rewrite app_nil_r. }
  destruct recurse; cbn [andb]; [|done]. destruct (qt =? T_CNAME); [done|]. destruct (qt =? QT_ALL); [done|]. cbn [negb andb orb].
  destruct (stored c qt); [done|]. cbn [negb]. unfold follow_cname_chain. rewrite (get_mu_set c T_CNAME 2) by (done || apply Hc). cbn [mbind option_bind].
  destruct (set_of c T_CNAME) as [v|] eqn:Hv; [|done]. cbn [mbind option_bind]. destruct (rrs v) as [|b l] eqn:Hl; cbn [head]; [done|].
  destruct (Hcn v b l eq_refl Hl) as (nm & [Hn Hz] & ->). replace (zlen (rhn nm) <=? DNSNAMEBUFSIZE) with true by lia.
  split; [done|]. intros b [= <-]. by exists nm.
Qed.
Definition chained recurse qt n nm local L (local' : bool) (s' : reply X) L' : Prop :=
  ∃ cs rs, chain_answers queryts rnd_recs found recurse qt n nm cs rs ∧ L' = put_an rs L ∧ local' = local && forallb is_local cs.
Definition chain_failed recurse edns qt n nm L (rc : Z) L' : Prop :=
  ∃ cs rs, chain_broken queryts rnd_recs found recurse qt n nm cs rs ∧ closed edns (put_an rs L) rc L'.
Lemma answer_chain_st n nm qt recurse edns udp local h0 qs s g L :
  st h0 qs s g L → wf_name nm → in_turn S_ANSWER L →
  run (answer_chain queryts udpbufsize rnd_recs n (rhn nm) qt recurse edns udp local)
    (λ r, settled h0 qs (chained recurse qt n nm local L r.2) (chain_failed recurse edns qt n nm L) r.1) s.
Proof.
  intros Hst. revert nm local s g L Hst. induction n as [|n IH]; intros nm local s g L Hst Hn Ht; cbn [answer_chain].
  { apply run_ret. split; [by eapply st_inv|]. exists g, L. split; [done|]. exists [], []. split; [constructor|]. by rewrite put_an_nil, andb_true_r. }
  r_bind. apply (run_call _ _ _ _ (resolve_law _ qt _ (st_inv _ _ _ _ _ Hst) Hn)). intros [[rc oc] soa] x (Hx & Hrc & Hc). cbn [fst snd] in *.
  pose proof (st_env _ _ _ _ _ x Hst Hx) as Hst1. destruct (Z.eqb_spec rc 0) as [->|Hne]; cbn [negb].
  2: { r_bind. eapply run_mono; [apply not_found_st with (P := chained recurse qt (S n) nm local L local) (g := g) (L := L); [done|done|done|lia]|]. intros f s2 [Hi2 Hf]. apply run_ret. split; [done|].
    cbn [fst snd]. destruct f; [done| |done]. destruct Hf as (? & g' & L' & Hst' & Hc'). split; [done|]. exists g', L'. split; [done|].
    exists [], []. rewrite put_an_nil. split; [constructor|done]. }
  destruct (Hc eq_refl) as (c & -> & Hgc & Hfound). r_bind. eapply run_must; [done|]. fold (is_local c).
  r_bind. eapply run_mono; [by eapply add_to_response_st|]. cbn beta. intros b s2 [Hi2 Hb]. destruct b; cbn [negb]; [|by apply run_ret].
  destruct (Hb eq_refl) as (g2 & L2 & Hst2 & rs & Hrs & ->). destruct (next_name_alias recurse qt c Hgc) as [Hnext Hal].
  r_bind. eapply run_must; [exact Hnext|]. destruct (alias recurse qt c) as [b|] eqn:Ha.
  - destruct (Hal b eq_refl) as (nm' & Hn' & ->). eapply run_mono; [by eapply IH|]. cbn beta. intros r s3 [Hi3 Hr]. split; [done|]. destruct r.1 as [|rc|]; [| |done].
    2: { destruct Hr as (Hrc' & g3 & L3 & Hst3 & cs & rs' & Hcs & Hcl). split; [done|]. exists g3, L3. split; [done|]. exists (c :: cs), (rs ++ rs').
      rewrite put_an_app in Hcl. split; [by eapply broken_next|done]. }
    destruct Hr as (g3 & L3 & Hst3 & cs & rs' & Hcs & -> & Hloc). exists g3, (put_an rs' (put_an rs L)). split; [done|]. exists (c :: cs), (rs ++ rs').
    split; [by eapply chain_next|]. split; [by rewrite put_an_app|]. cbn [forallb]. by rewrite Hloc, andb_assoc.
  - r_bind. unfold or_error. r_bind. eapply run_mono; [by eapply list_authority_st|]. cbn beta. intros b s3 [Hi3 Hr]. apply run_ret, run_ret. cbn [fst snd]. split; [done|].
    destruct b; [|done]. destruct (Hr eq_refl) as (g3 & L3 & Hst3 & ->). exists g3, (put_an rs L). split; [done|]. exists [c], rs.
    split; [by apply chain_end|]. split; [done|]. cbn [forallb]. by rewrite andb_true_r.
Qed.
Definition answered recurse ql local L (local' : bool) (s' : reply X) L' : Prop :=
  ∃ cs rs, answers_of queryts rnd_recs found recurse ql cs rs ∧ L' = put_an rs L ∧ local' = local && forallb is_local cs.
Definition failed recurse edns ql L (rc : Z) L' : Prop :=
  ∃ cs rs, answers_broken queryts rnd_recs found recurse ql cs rs ∧ closed edns (put_an rs L) rc L'.
Definition good_query (qe : dns_queryel_t) : Prop := ∃ nm, wf_name nm ∧ query qe = rhn nm.
Lemma answer_queries_st ql recurse edns udp local h0 qs s g L :
  st h0 qs s g L → Forall good_query ql → in_turn S_ANSWER L →
  run (answer_queries queryts udpbufsize rnd_recs ql recurse edns udp local) 
    (λ r, settled h0 qs (answered recurse ql local L r.2) (failed recurse edns ql L) r.1) s.
Proof.
  intros Hst Hql. revert local s g L Hst. induction Hql as [|qe ql (nm & Hn & Hq) _ IH]; intros local s g L Hst Ht; cbn [answer_queries].
  { apply run_ret. split; [by eapply st_inv|]. exists g, L. split; [done|]. exists [], []. split; [constructor|]. by rewrite put_an_nil, andb_true_r. }
  r_bind. rewrite Hq. eapply run_mono; [by eapply answer_chain_st|]. cbn beta. intros [f loc] s1 [Hi1 Hf]. cbn [fst snd] in *. destruct f as [|rc|]; [| |by apply run_ret].
  2: { destruct Hf as (Hrc & g1 & L1 & Hst1 & cs & rs & Hcs & Hcl). apply run_ret. split; [done|]. split; [done|]. exists g1, L1. split; [done|].
    exists cs, rs. split; [by eapply broken_at|done]. }
  destruct Hf as (g1 & L1 & Hst1 & cs & rs & Hcs & -> & ->). eapply run_mono; [by eapply IH|]. cbn beta. intros r s2 [Hi2 Hr]. split; [done|]. destruct r.1 as [|rc|]; [| |done].
  2: { destruct Hr as (Hrc & g2 & L2 & Hst2 & cs' & rs' & Hcs' & Hcl). split; [done|]. exists g2, L2. split; [done|]. exists (cs ++ cs'), (rs ++ rs').
    rewrite put_an_app in Hcl. split; [by eapply broken_later|done]. }
  destruct Hr as (g2 & L2 & Hst2 & cs' & rs' & Hcs' & -> & ->). exists g2, (put_an rs' (put_an rs L)). split; [done|]. exists (cs ++ cs'), (rs ++ rs').
  split; [by eapply answers_cons|]. split; [by rewrite put_an_app|]. by rewrite forallb_app, andb_assoc.
Qed.

(** ** The questions *)

Definition no_log : log := mkLog [] [] [].
Lemma add_question_st h0 qs qe nm s g (k : M (reply X) Empty_set bool) (Q : bool → reply X → Prop) :
  st h0 qs s g no_log → wf_name nm → query qe = rhn nm → (∀ s', Inv (env s') → Q false s') →
  (∀ s' g', st h0 (qs ++ [qe]) s' g' no_log → run k Q s') →
  run (len ← must (rhnlen (query qe));
       ok! need_room (len + 4);
       r ← compress (query qe);
       match r with
       | None => mret false
       | Some out =>
           append (out ++ be16 (qtype qe) ++ be16 (qclass qe));;
           upd_hdr (λ h, set_counts (qdcount h + 1) (ancount h) (nscount h) (arcount h) h);; k
       end) Q s.
Proof.
  intros Hst Hn Hq Hfail Hk. pose proof Hst as [Hg Hh (q & Hqs & Hw) _ _ Hsva Har]. pose proof (rd_room _ _ _ Hg) as Hroom. pose proof (zlen_nonneg (body s)).
  assert (q = sz s) as -> by (by inversion Hw). rewrite Hq. pose proof (zlen_rhn_pos nm). pose proof (rhnlen_spec nm [] (proj1 Hn)) as Hlen. rewrite app_nil_r in Hlen. r_bind. eapply run_must; [exact Hlen|].
  r_bind. apply need_room_spec; [apply Hg|lia|unfold dnsmsghdroffset, sz, sizeof_dns_hdr_t in *; lia|intros s' Hi'; by apply run_ret, Hfail|].
  intros x a Hx Ha Hge. set (s1 := mkReply _ _ _ _ _ _ _).
  assert (Hg1 : ready (Inv := Inv) s1 g (body s)) by (destruct Hg; split; try done; change (sz s1) with (sz s); cbn [allocsz s1]; lia).
  r_bind. rewrite <-(app_nil_r (rhn nm)). eapply run_mono; [by apply compress_spec|]. cbn beta.
  intros r s2 (Hi2 & Hb2 & (Hh2 & Ha2 & Hs2 & Har2) & Hc2). destruct r as [nb|]; [|by apply run_ret, Hfail].
  destruct (Hc2 nb eq_refl) as (g1 & (Hent & [Hnl Hnb] & _ & ls & h & Hat & Hsn & Hh') & Hcl). rewrite (ready_sz _ _ _ Hg1) in Hat. cbn [hdr body allocsz sva ar s1] in Hb2, Hh2, Ha2, Hs2, Har2.
  change (sz s1) with (sz s) in Hat. set (b4 := be16 (qtype qe) ++ be16 (qclass qe)). pose proof (wf_name_length _ Hn).
  assert (Hb4 : bytes_ok b4) by (unfold b4; rewrite !be16_bytes, bytes_ok_app; split; apply be_bytes_ok). assert (Hz4 : zlen b4 = 4) by done.
  assert (Hsz2 : sz s2 = sz s) by (unfold sz; by rewrite Hb2).
  r_bind. apply run_append; [rewrite Hsz2, Ha2, zlen_app; lia|]. rewrite Hb2. r_bind. apply run_modify. cbn [env hdr body allocsz cb sva ar]. rewrite Hh2, Ha2, Hs2, Har2.
  set (s4 := mkReply _ _ _ _ _ _ _). assert (Hsz4 : sz s4 = sz s + zlen nb + 4) by (unfold sz; cbn [body s4]; rewrite !zlen_app, Hz4; lia).
  assert (Hm4 : holes 12 ++ body s4 = (holes 12 ++ body s) ++ nb ++ b4) by (by rewrite <-app_assoc).
  apply (Hk s4 g1). split; [split| | | |by intros nm' _ (r & o & Hr & _); inversion Hr|done|done]; cbn [env body cb allocsz s4 sva ar]; try done.
  - fold (body s4). rewrite app_assoc, <-app_assoc. rewrite (app_assoc (holes 12)). rewrite app_assoc. by apply entries_ok_app.
  - rewrite !bytes_ok_app. split; [apply Hg|done].
  - rewrite Hsz4. lia.
  - cbn [hdr s4]. rewrite Hh. unfold set_counts. cbn. rewrite zlen_app. unfold u16. by rewrite Zplus_mod_idemp_l.
  - exists (sz s4). split; [|constructor]. change (body s ++ nb ++ b4) with (body s4). rewrite Hm4. eapply all_asked_app.
    { eapply all_asked_covers; [apply covers_app|done|exact Hqs]. }
    assert (Hz : zlen (holes 12 ++ body s) = sz s) by exact (ready_sz _ _ _ Hg1).
    econstructor; [|constructor]. exists nm, ls, h, (zlen nb). split; [done|]. split; [done|]. split; [|split; [done|split; [lia|split; [|split; [lia|]]]]].
    + rewrite app_assoc. by apply name_at_app.
    + replace (sz s + zlen nb) with (zlen ((holes 12 ++ body s) ++ nb)) by (rewrite zlen_app; lia). rewrite app_assoc, <-(app_nil_r b4). by apply slice_mid.
    + rewrite Hsz4, !zlen_app, <-(zlen_app (holes 12)), Hz. lia.
Qed.
Lemma add_questions_st ql h0 qs s g :
  st h0 qs s g no_log → Forall good_query ql → run (add_questions ql) (out h0 (qs ++ ql) (λ _ L', L' = no_log)) s.
Proof.
  intros Hst Hql. revert qs s g Hst. induction Hql as [|qe ql (nm & Hn & Hq) _ IH]; intros qs s g Hst; cbn [add_questions].
  { rewrite app_nil_r. by eapply out_ret. }
  eapply add_question_st; [exact Hst|done|done|by split|]. intros s' g' Hst'. rewrite cons_middle, app_assoc. by eapply IH.
Qed.

(** ** The answer *)

Definition additional (edns : bool) (main ar : list arec) : Prop :=
  ar = [] ∨ ∃ rs, ar = (if edns then [opt_rec 0] else []) ++ rs ∧ Forall (address main) rs.
Lemma over_limit_le udp a b : a ≤ b → over_limit udp b = false → over_limit udp a = false.
Proof. destruct udp; cbn [over_limit]; [lia|done]. Qed.
Lemma other_sections_st edns udp h0 qs s g an :
  st h0 qs s g (mkLog an [] []) →
  run (other_sections queryts udpbufsize rnd_recs edns 0 udp)
    (out h0 qs (λ s' L', ∃ ns ar, L' = mkLog an ns ar ∧ Forall authority ns ∧ additional edns (an ++ ns) ar ∧ fits udp s' L')) s.
Proof.
  intros Hst. unfold other_sections. r_get. eapply out_ok; [eapply add_authority_section_st; [exact Hst|apply Hst|done]|].
  intros s1 g1 L1 Hst1 [(ns & -> & Hns & Har1) Hli]. cbn [put_ns l_an l_ns l_ar app] in *. set (L1 := put_ns ns _) in *. r_get.
  destruct (over_limit udp (sz s1 + sizeof_opt_pseudo_rr)) eqn:Hov.
  { eapply out_ret; [done|]. exists ns, []. split; [done|]. split; [done|]. split; [by left|intros H; by contradiction H]. }
  rewrite Har1. eapply out_ok; [by eapply add_opt_st|]. intros s2 g2 L2 Hst2 (-> & Har2 & Hsz2).
  set (L2 := put_ar _ L1) in *. assert (Hm2 : l_main L2 = l_main L1) by done.
  eapply out_mono; [eapply add_additional_section_st; [done| |]|].
  - rewrite <-Har1, <-Har2. apply Hst2.
  - eapply list.Forall_impl; [exact Hli|]. done.
  - intros s3 g3 L3 _ ((rs & -> & Hrs) & _ & Hfit). exists ns, ((if edns then [opt_rec 0] else []) ++ rs). split; [done|]. split; [done|].
    split; [right; by exists rs|]. apply Hfit. intros _. rewrite Hsz2. eapply over_limit_le; [|exact Hov]. destruct edns; unfold sizeof_opt_pseudo_rr, sizeof_rr_hdr_t; lia.
Qed.

(** the message, with its questions and records *)
Record message (ql : list dns_queryel_t) (h0 : dns_hdr_t) (an ns ar : list arec) (h' : dns_hdr_t) (b : bytes) : Prop := {
  ms_hdr : h' = set_counts (zlen ql) (zlen an) (zlen ns) (zlen ar) h0;
  ms_bytes : bytes_ok b;
  ms_recs : Forall rec_ok (an ++ ns ++ ar);
  ms_len : zlen (pack_hdr h' ++ b) < 2 ^ 31;
  ms_format : ∃ q, all_asked (pack_hdr h' ++ b) ql 12 q ∧ all_written (pack_hdr h' ++ b) (an ++ ns ++ ar) q (zlen (pack_hdr h' ++ b));
}.
Lemma st_message h0 h1 qs s g L h' :
  st h0 qs s g L → h' = set_counts (zlen qs) (zlen (l_an L)) (zlen (l_ns L)) (zlen (l_ar L)) h1 → message qs h1 (l_an L) (l_ns L) (l_ar L) h' (body s).
Proof.
  intros [Hg Hh (q & Hq & Hw) Hn _ _ _] Hh'. pose proof (rd_room _ _ _ Hg) as Hroom. assert (Hz : zlen (pack_hdr h' ++ body s) = sz s) by (rewrite zlen_app; done).
  assert (Hc : covers (holes 12 ++ body s) (pack_hdr h' ++ body s)) by (by apply covers_app2; [apply covers_holes|done|]).
  pose proof (all_asked_le _ _ _ _ Hq). split; [done|apply Hg|done|unfold dnsmsghdroffset in *; lia|]. exists q. split; [by eapply all_asked_covers|].
  rewrite Hz. eapply all_written_covers; [done|by apply rec_ok_names|lia|done].
Qed.
(** What [compose_answer] answers: [rc] is the return code.  An answer with an error has
    the records up to the name the resolver failed for; the size has no limit then. *)
Definition composed (ql : list dns_queryel_t) (h : dns_hdr_t) (edns : bool) (udp : option Z) (rc : Z) (h' : dns_hdr_t) (b : bytes) : Prop :=
  0 ≤ rc < 2 ^ 16 ∧ ∃ a an ns ar,
    message ql (set_aa a (set_rcode rc (answer_hdr h))) an ns ar h' b ∧
    (rc = 0 → ∃ cs, answers_of queryts rnd_recs found (negb (rd_flag h =? 0)) ql cs an ∧
       a = Z.b2z (forallb is_local cs) ∧ Forall authority ns ∧ additional edns (an ++ ns) ar ∧
       (ar ≠ [] → over_limit udp (zlen (pack_hdr h' ++ b)) = false)) ∧
    (rc ≠ 0 → a = 0 ∧
       (rc = RC_NOTSUPP ∧ any_unsupported ql = Some true ∧ an = [] ∧ ns = [] ∧ ar = [] ∨
        ∃ cs, answers_broken queryts rnd_recs found (negb (rd_flag h =? 0)) ql cs an ∧ closing edns rc ns ar)).

Lemma any_unsupported_total ql : ∃ b, any_unsupported ql = Some b.
Proof.
  induction ql as [|qe ql IH]; cbn [any_unsupported]; [by exists false|]. unfold unsupported.
  destruct (PDNSD_NOT_CACHED_TYPE_spec (qtype qe)) as (bad & -> & _). cbn [mbind option_bind]. destruct (_ || _); [by exists true|done].
Qed.
Lemma st_start h s x : Inv x → st (answer_hdr h) [] (mkReply x (answer_hdr h) [] ALLOCINITIALSIZE [] [] []) [] no_log.
Proof.
  intros Hx. split; [|done| |constructor|by intros nm _ (r & o & Hr & _); inversion Hr|constructor|constructor].
  - split; cbn [env body cb allocsz]; try done; constructor.
  - exists 12. split; constructor.
Qed.
Lemma compose_answer_st ql h edns udp s :
  Inv (env s) → Forall good_query ql →
  run (compose_answer queryts udpbufsize rnd_recs ql h edns udp)
    (λ r s', Inv (env s') ∧ ∀ h' b, r.1 = Some (h', b) → composed ql h edns udp r.2 h' b) s.
Proof.
  intros Hi Hql. set (Q := λ r s', Inv (env s') ∧ _). assert (Hnone : ∀ rc s', Inv (env s') → run (mret (None, rc) : M (reply X) Empty_set _) Q s').
  { intros rc s' Hi'. apply run_ret. by split. }
  unfold compose_answer. r_bind. apply (run_call _ _ _ _ (realloc_law _ _ Hi)). intros p x [Hx _]. destruct p; cbn [negb]; [|by apply Hnone].
  r_bind. apply run_modify. r_bind. eapply run_mono; [eapply add_questions_st; [by apply st_start|done]|]. cbn beta. intros b s1 [Hi1 Hb].
  destruct b; cbn [negb]; [|by apply Hnone]. destruct (Hb eq_refl) as (g1 & L1 & Hst1 & ->). cbn [app] in Hst1.
  assert (Herr : ∀ rc s' g' L', 0 < rc < 2 ^ 16 → st (set_rcode rc (answer_hdr h)) ql s' g' L' →
    (rc = RC_NOTSUPP ∧ any_unsupported ql = Some true ∧ L' = no_log ∨ failed (negb (rd_flag h =? 0)) edns ql no_log rc L') →
    run (s ← get; mret (Some (hdr s, body s), rc) : M (reply X) Empty_set _) Q s').
  { intros rc s' g' L' Hrc Hst' Hcont. r_get. apply run_ret. split; [by eapply st_inv|]. intros h' b [= <- <-]. split; [cbn [snd]; lia|]. exists 0, (l_an L'), (l_ns L'), (l_ar L').
    split; [eapply st_message; [exact Hst'|apply Hst']|]. split; [cbn [snd]; lia|]. intros _. split; [done|].
    destruct Hcont as [(? & ? & ->)|(cs & rs & Hcs & ns & ar & -> & Hcl)]; [by left|right]. by exists cs. }
  destruct (any_unsupported_total ql) as [bad Hbad]. r_bind. eapply run_must; [exact Hbad|]. destruct bad.
  { r_bind. apply run_modify. eapply (Herr RC_NOTSUPP); [done|by apply st_set_rcode|by left]. }
  r_bind. eapply run_mono; [by eapply answer_queries_st|]. cbn beta. intros [f loc] s2 [Hi2 Hf]. cbn [fst snd] in *. destruct f as [|rc|]; [|destruct Hf as (Hrc & g' & L' & Hst' & Hfl); eapply Herr; [done|done|by right]|by apply Hnone].
  destruct Hf as (g2 & L2 & Hst2 & cs & an & Han & -> & ->). r_bind. eapply run_mono; [by eapply other_sections_st|]. cbn beta. intros b s3 [Hi3 Hb3].
  destruct b; cbn [negb]; [|by apply Hnone]. destruct (Hb3 eq_refl) as (g3 & L3 & Hst3 & ns & ar & -> & Hns & Har & Hfit). cbn [andb].
  assert (Hdone : ∀ s4, env s4 = env s3 → body s4 = body s3 → hdr s4 = set_aa (Z.b2z (forallb is_local cs)) (hdr s3) → run (s ← get; mret (Some (hdr s, body s), 0) : M (reply X) Empty_set _) Q s4).
  { intros s4 He4 Hb4 Hh4. r_get. apply run_ret. split; [by rewrite He4|]. intros h' b [= <- <-]. split; [done|]. exists (Z.b2z (forallb is_local cs)), an, ns, ar. rewrite Hb4. split.
    - eapply (st_message _ _ _ _ _ _ _ Hst3). rewrite Hh4, (st_hdr _ _ _ _ _ Hst3). done.
    - split; [|done]. intros _. exists cs. split; [done|]. split; [done|]. split; [done|]. split; [done|]. intros Hne. rewrite zlen_app. by apply Hfit. }
  r_bind. destruct (forallb is_local cs); [apply run_modify|apply run_ret]; apply Hdone; try done. cbn [Z.b2z]. rewrite (st_hdr _ _ _ _ _ Hst3). done.
Qed.
End reply.
