(* ===== verification/DnsAnswerQuery.v ===== *)
(** * Queries are answered right

    [process_query] (file DnsAnswer) on any packet: which packets are ignored, which get an
    error, and that the others are answered by [compose_answer] for the questions they
    hold.  Then an environment that keeps the laws, and [remove_opt_pseudo_rr]. *)

From S2P Require Import Prelude CInt DnsName DnsCompress RrTypes RrList DnsHash DnsCent DnsCache Contract DnsCacheInv DnsCacheAdd DnsCacheOps DnsCacheSafe DnsCacheFile DnsCacheRead DnsCacheDisk DnsCacheReload DnsResponse DnsResponseSpec DnsResponseCache DnsAnswer DnsAnswerSpec DnsAnswerRr DnsAnswerSafe DnsAnswerReply.

(** ** The questions of a packet *)

(** The question stands in the packet from [off] to [fin]. *)
Definition posed (m : bytes) (qe : dns_queryel_t) (off fin : Z) : Prop :=
  ∃ nm h n, name_at m off nm h n ∧ h ≤ 255 ∧ wf_name nm ∧ query qe = rhn nm ∧
    be_at m (off + n) 2 = qtype qe ∧ be_at m (off + n + 2) 2 = qclass qe ∧ fin = off + n + 4 ∧ fin ≤ zlen m.
Inductive all_posed (m : bytes) : list dns_queryel_t → Z → Z → Prop :=
  | posed_nil off : all_posed m [] off off
  | posed_cons qe qs off mid fin : posed m qe off mid → all_posed m qs mid fin → all_posed m (qe :: qs) off fin.
Lemma all_posed_snoc m qs qe off mid fin : all_posed m qs off mid → posed m qe mid fin → all_posed m (qs ++ [qe]) off fin.
Proof. induction 1; intros; econstructor; eauto. constructor. Qed.
Lemma all_posed_good m qs off fin : all_posed m qs off fin → Forall good_query qs.
Proof. induction 1 as [|qe qs off mid fin (nm & h & n & _ & _ & Hn & Hq & _) _ IH]; constructor; [by exists nm|done]. Qed.

Section decode.
Context (data : bytes) (Hdata : bytes_ok data).

Lemma decompressed p cnt : 0 ≤ p → 0 ≤ cnt →
  ∃ r, decompress_name data p cnt = Some r ∧ match r with
    | Err e => e ≠ RC_OK
    | Ok used name => ∃ nm h, name_at data p nm h used ∧ h ≤ 255 ∧ 1 ≤ used ≤ cnt ∧ wf_name nm ∧ name = rhn nm
    end.
Proof.
  intros Hp Hc. destruct (decompress_name_names data p cnt Hdata Hp Hc) as (r & Hr & Hok). exists r. split; [done|]. destruct r as [used name|e].
  - destruct (proj1 (Hok used name) eq_refl) as (nm & h & Hn & Hh & Hu & -> & Hz). pose proof (name_at_bound _ _ _ _ _ Hn). exists nm, h.
    split_and!; try done; try lia. split; [by eapply name_at_bytes|done].
  - by eapply decompress_err.
Qed.
Lemma decode_question_spec p cnt : 12 ≤ p → 0 ≤ cnt → p + cnt = zlen data →
  ∃ r, decode_question data p cnt = Some r ∧ match r with
    | BREAK e => e ≠ RC_OK
    | QUESTION p' cnt' qe => posed data qe p p' ∧ 12 ≤ p' ∧ 0 ≤ cnt' ∧ p' + cnt' = zlen data
    end.
Proof.
  intros Hp Hc Hz. unfold decode_question. destruct (decompressed p cnt) as (r & -> & Hr); [lia..|]. cbn [mbind option_bind]. destruct r as [used name|e]; [|by eexists].
  destruct Hr as (nm & h & Hn & Hh & Hu & Hw & ->). cbn zeta. destruct (cnt - used <? 4) eqn:Hlt; [by eexists|].
  destruct (GETINT16_spec data Hdata (p + used)) as [-> _]; [lia..|]. destruct (GETINT16_spec data Hdata (p + used + 2)) as [-> _]; [lia..|].
  cbn [mbind option_bind]. eexists. split; [done|]. split; [|lia]. exists nm, h, used. split_and!; try done; lia.
Qed.
Lemma decode_query_additional_spec n p cnt numopt ep : 12 ≤ p → 0 ≤ cnt → p + cnt = zlen data → ∃ r, decode_query_additional data n p cnt numopt ep = Some r.
Proof.
  revert p cnt numopt ep. induction n as [|n IH]; intros p cnt numopt ep Hp Hc Hz; cbn [decode_query_additional]; [by eexists|].
  destruct (decompressed p cnt) as (r & -> & Hr); [lia..|]. cbn [mbind option_bind]. destruct r as [used name|e]; [|by eexists].
  destruct Hr as (nm & h & Hn & Hh & Hu & Hw & ->). cbn zeta. unfold sizeof_rr_hdr_t. destruct (cnt - used <? 10) eqn:Hlt; [by eexists|].
  destruct (GETINT16_spec data Hdata (p + used)) as [-> _]; [lia..|]. destruct (GETINT16_spec data Hdata (p + used + 2)) as [-> _]; [lia..|].
  destruct (GETINT16_spec data Hdata (p + used + 8)) as [-> Hl]; [lia..|]. cbn [mbind option_bind]. set (rl := be_at _ _ _) in *. set (cl := be_at data (p + used + 2) 2).
  destruct (cnt - used - 10 <? rl) eqn:Hlt2; [by eexists|]. destruct (be_at data (p + used) 2 =? T_OPT).
  - assert (∃ e, (if numopt =? 0 then read_opt data (mkHdr (be_at data (p + used) 2) cl 0 rl (p + used + 4)) else Some ep) = Some e) as [e ->].
    { destruct (numopt =? 0); [|by exists ep]. apply read_opt_spec; cbn [ttlp]; lia. }
    cbn [mbind option_bind]. apply IH; lia.
  - apply IH; lia.
Qed.
Lemma unpack_hdr_spec : 12 ≤ zlen data → ∃ h, unpack_hdr data = Some h ∧ id h = be_at data 0 2 ∧ 0 ≤ arcount h.
Proof.
  intros Hz. unfold unpack_hdr. destruct (GETINT16_spec data Hdata 0) as [-> _]; [lia..|]. destruct (rd_Some data 2) as [b ->]; [lia|]. destruct (rd_Some data 3) as [c ->]; [lia|].
  destruct (GETINT16_spec data Hdata 4) as [-> _]; [lia..|]. destruct (GETINT16_spec data Hdata 6) as [-> _]; [lia..|]. destruct (GETINT16_spec data Hdata 8) as [-> _]; [lia..|].
  destruct (GETINT16_spec data Hdata 10) as [-> Har]; [lia..|]. cbn [mbind option_bind]. eexists. split; [done|]. cbn [id arcount]. split; [done|lia].
Qed.
Lemma query_edns_spec udpbufsize h res p cnt udp : 12 ≤ p → 0 ≤ cnt → p + cnt = zlen data →
  ∃ y, query_edns udpbufsize data h res p cnt udp = Some y ∧ match y with
    | inl e => e = 1 ∨ e = RC_BADVERS
    | inr (edns, udp') => udp' = udp ∨ edns = true ∧ ∃ u v, udp = Some u ∧ udp' = Some v ∧ v ≤ udpbufsize
    end.
Proof.
  intros Hp Hc Hz. unfold query_edns. destruct (arcount h =? 0); [eexists; split; [done|by left]|]. destruct (negb (res =? 0)); [eexists; split; [done|by left]|].
  destruct (decode_query_additional_spec (Z.to_nat (arcount h)) p cnt 0 (mkEdns 0 0 0 0) Hp Hc Hz) as [[[e n] ep] ->]. cbn [mbind option_bind].
  destruct (negb _); [eexists; split; [done|by left]|]. destruct (n =? 0); [eexists; split; [done|by left]|].
  destruct (negb (e_version ep =? 0)); [eexists; split; [done|by right]|]. destruct (negb (e_rcode ep =? 0)); [eexists; split; [done|by left]|].
  eexists. split; [done|]. destruct udp as [u|]; [|by left]. destruct (udpsize ep >? UDP_BUFSIZE); [|by left]. right. split; [done|]. eexists u, _. split; [done|]. split; [done|lia].
Qed.
End decode.

(** ** The reply *)

(** the header of a message that is answered *)
Definition a_query (h : dns_hdr_t) : Prop :=
  qr h = QR_QUERY ∧ opcode h = OP_QUERY ∧ z h = 0 ∧ h_rcode h = 0 ∧ ancount h = 0 ∧ nscount h = 0.

Section query.
Context {X : Type} {E : AnswerEnv X} {Inv : X → Prop} {found : list bytes → dns_cent_t → Prop} {L0 : AnswerEnvLaws X E Inv found}.
Abbreviation st := (@DnsAnswerSafe.st X Inv).
Context (queryts udpbufsize : Z) (rnd_recs : bool) (data : bytes) (Hdata : bytes_ok data).
Implicit Types (s : reply X).

Definition decoded (n : nat) (r : Z * list dns_queryel_t * Z * Z) : Prop :=
  let '(res, ql, p, cnt) := r in
  12 ≤ p ∧ 0 ≤ cnt ∧ p + cnt = zlen data ∧
  ((res = 0 ∧ all_posed data ql 12 p ∧ length ql = n) ∨ (res = rc_number RC_TRUNC ∧ all_posed data ql 12 p) ∨ res = 1 ∨ res = RC_SERVFAIL).
Lemma decode_questions_st n p cnt ql s : Inv (env s) → 12 ≤ p → 0 ≤ cnt → p + cnt = zlen data → all_posed data ql 12 p →
  run (decode_questions data n p cnt ql) (λ r s', Inv (env s') ∧ decoded (length ql + n) r) s.
Proof.
  revert p cnt ql s. induction n as [|n IH]; intros p cnt ql s Hi Hp Hc Hz Hq; cbn [decode_questions].
  { apply run_ret. split; [done|]. split; [done|]. split; [done|]. split; [done|]. left. by rewrite Nat.add_0_r. }
  destruct (decode_question_spec data Hdata p cnt Hp Hc Hz) as (r & Hr & Hok). r_bind. eapply run_must; [exact Hr|]. destruct r as [e|p' cnt' qe].
  - destruct e; [done|apply run_ret..]; (split; [done|]); split; [done| |done|]; (split; [done|]); (split; [done|]); auto.
  - destruct Hok as (Hpo & Hp' & Hc' & Hz'). r_bind. apply (run_call _ _ _ _ (grow_list_law _ Hi)). intros b x Hx. destruct b.
    + eapply run_mono; [by apply IH; [done..|by eapply all_posed_snoc]|]. intros r s' [Hi' Hd]. split; [done|].
      rewrite length_app in Hd. cbn [length] in Hd. by replace (length ql + S n)%nat with (length ql + 1 + n)%nat by lia.
    + apply run_ret. split; [done|]. split; [done|]. split; [done|]. split; [done|]. auto.
Qed.

(** An error is a header, with an OPT record when the code needs one. *)
Definition error_message (rc : Z) (h' : dns_hdr_t) (b : bytes) : Prop :=
  ∃ op, message [] (mk_error_reply (be_at data 0 2) op rc) [] [] (if Z.land rc (Z.lnot 15) =? 0 then [] else [opt_rec udpbufsize rc]) h' b.
Lemma st_error i op res size s x :
  Inv x → sizeof_dns_msg_t ≤ size ≤ 2 ^ 31 → st (mk_error_reply i op res) [] (mkReply x (mk_error_reply i op res) [] size [] [] []) [] no_log.
Proof.
  intros Hx Hs. split; [|done| |constructor|by intros nm _ (r & o & Hr & _); inversion Hr|constructor|constructor].
  - split; cbn [env body cb allocsz]; try done; constructor.
  - exists 12. split; constructor.
Qed.
Lemma error_reply_st res s : 2 ≤ zlen data → Inv (env s) →
  run (error_reply udpbufsize data res) (λ r s', Inv (env s') ∧ ∀ h' b, r = Some (h', b) → error_message res h' b) s.
Proof.
  intros Hz Hi. unfold error_reply, error_message. r_bind. apply (run_call _ _ _ _ (realloc_law _ _ Hi)). intros p x [Hx _]. destruct p; cbn [negb]; [|by apply run_ret].
  r_bind. eapply run_must; [by apply GETINT16_spec; [done|lia|lia]|].
  r_bind. apply (run_mono _ (λ op s', s' = with_env x s)).
  { destruct (zlen data >=? 3) eqn:H3; [|by apply run_ret]. destruct (rd_Some data 2) as [b Hb]; [lia|]. r_bind. eapply run_must; [exact Hb|]. by apply run_ret. }
  intros op s1 ->. r_bind. apply run_modify. cbn [env with_env].
  pose proof (st_error (be_at data 0 2) op res (sizeof_dns_msg_t + (if negb (Z.land res (Z.lnot 15) =? 0) then sizeof_opt_pseudo_rr else 0)) s x Hx) as Hst.
  destruct (Z.land res (Z.lnot 15) =? 0); cbn [negb] in *.
  - r_bind. apply run_ret. r_get. apply run_ret. split; [done|]. intros h' b [= <- <-]. exists op. specialize (Hst ltac:(done)). by apply (st_message _ _ _ _ _ _ _ Hst).
  - r_bind. r_bind. eapply run_mono; [by eapply add_opt_room; [apply Hst|]|]. cbn beta. intros b0 s2 [Hi2 (L' & Hst2 & -> & _)].
    apply run_ret. r_get. apply run_ret. split; [done|]. intros h' b [= <- <-]. exists op. eapply (st_message _ _ _ _ _ _ _ Hst2). apply Hst2.
Qed.

(** What is sent for the packet, and the limit for the size. *)
Definition reply_ok (udp : option Z) (rc : Z) (udp' : option Z) (h' : dns_hdr_t) (b : bytes) : Prop :=
  id h' = be_at data 0 2 ∧ qr h' = QR_RESP ∧
  (error_message rc h' b ∨
   ∃ h ql p edns, unpack_hdr data = Some h ∧ a_query h ∧ all_posed data ql 12 p ∧ ql ≠ [] ∧ (zlen ql = qdcount h ∨ tc h ≠ 0) ∧
     (udp' = udp ∨ edns = true ∧ ∃ u v, udp = Some u ∧ udp' = Some v ∧ v ≤ udpbufsize) ∧
     composed (found := found) queryts udpbufsize rnd_recs ql h edns udp' rc h' b).
Definition answered_ok (udp : option Z) (r : option (dns_hdr_t * bytes) * Z * option Z) s' : Prop :=
  Inv (env s') ∧ ∀ h' b, r.1.1 = Some (h', b) → reply_ok udp r.1.2 r.2 h' b.
Lemma fail_st res udp udp' s : 2 ≤ zlen data → Inv (env s) →
  run (a ← error_reply udpbufsize data res; mret (a, res, udp')) (answered_ok udp) s.
Proof.
  intros Hz Hi. r_bind. eapply run_mono; [by apply error_reply_st|]. cbn beta. intros a s' [Hi' Ha]. apply run_ret. split; [done|]. cbn [fst snd].
  intros h' b ->. destruct (Ha h' b eq_refl) as [op Hm]. pose proof (ms_hdr _ _ _ _ _ _ _ Hm) as ->. split; [done|]. split; [done|]. left. by exists op.
Qed.

(** Nothing is sent for a packet that is too short, or is an answer itself. *)
Definition silent : Prop := zlen data < 2 ∨ ∃ h, unpack_hdr data = Some h ∧ qr h ≠ QR_QUERY.
Lemma ignore_st udp s : Inv (env s) →
  run (mret (None, 0, udp) : M (reply X) Empty_set _) (λ r s', answered_ok udp r s' ∧ (silent → r.1.1 = None)) s.
Proof. intros Hi. apply run_ret. by split; [split|]. Qed.
Lemma talk (m : M (reply X) Empty_set _) udp s : ¬ silent → run m (answered_ok udp) s → run m (λ r s', answered_ok udp r s' ∧ (silent → r.1.1 = None)) s.
Proof. intros Hs Hm. eapply run_mono; [exact Hm|]. intros r s' H. by split. Qed.
(** the questions are answered *)
Lemma answer_st h res ql p cnt edns udp udp' s :
  2 ≤ zlen data → Inv (env s) → unpack_hdr data = Some h → a_query h → id h = be_at data 0 2 →
  decoded (Z.to_nat (be_at data 4 2)) (res, ql, p, cnt) → (res = 0 ∨ res = rc_number RC_TRUNC ∧ tc h ≠ 0) →
  (udp' = udp ∨ edns = true ∧ ∃ u v, udp = Some u ∧ udp' = Some v ∧ v ≤ udpbufsize) →
  run (match ql with
       | [] => a ← error_reply udpbufsize data (rc_number RC_FORMAT); mret (a, rc_number RC_FORMAT, udp')
       | _ =>
           r ← compose_answer queryts udpbufsize rnd_recs ql h edns udp';
           match r.1 with
           | Some ans => mret (Some ans, r.2, udp')
           | None => a ← error_reply udpbufsize data RC_SERVFAIL; mret (a, RC_SERVFAIL, udp')
           end
       end) (answered_ok udp) s.
Proof.
  intros Hz Hi Hh Hq Hid (Hp & Hc & Hpc & Hd) Hres Hudp. destruct ql as [|qe ql]; [by apply fail_st|]. set (qs := qe :: ql) in *.
  assert (all_posed data qs 12 p ∧ (zlen qs = qdcount h ∨ tc h ≠ 0)) as [Hqs Hn].
  { destruct Hd as [(-> & Hqs & Hl)|[(-> & Hqs)|[->| ->]]], Hres as [Hres|[Hres Htc]]; try done; [|by auto].
    split; [done|]. left. assert (Hz12 : 12 ≤ zlen data) by lia. destruct (GETINT16_spec data Hdata 4) as [H4 Hr4]; [lia..|]. unfold zlen. rewrite Hl. rewrite Z2Nat.id by lia.
    unfold unpack_hdr in Hh. destruct (GETINT16 data 0), (rd data 2), (rd data 3); cbn [mbind option_bind] in Hh; try done. rewrite H4 in Hh. cbn [mbind option_bind] in Hh.
    destruct (GETINT16 data 6), (GETINT16 data 8), (GETINT16 data 10); cbn [mbind option_bind] in Hh; try done. by injection Hh as <-. }
  r_bind. eapply run_mono; [apply compose_answer_st; [done|by eapply all_posed_good]|]. cbn beta. intros [[[h' b]|] rc] s1 [Hi1 Hcomp]; cbn [fst snd] in *; [|by apply fail_st].
  apply run_ret. split; [done|]. cbn [fst snd]. intros h1 b1 [= <- <-]. specialize (Hcomp h' b eq_refl). pose proof Hcomp as (_ & a & an & ns & ar & Hm & _).
  pose proof (ms_hdr _ _ _ _ _ _ _ Hm) as ->. split; [done|]. split; [done|]. right. by exists h, qs, p, edns.
Qed.
Lemma process_query_st udp s : Inv (env s) →
  run (process_query queryts udpbufsize rnd_recs data udp) (λ r s', answered_ok udp r s' ∧ (silent → r.1.1 = None)) s.
Proof.
  intros Hi. unfold process_query. destruct (zlen data <? 2) eqn:H2; [by apply ignore_st|].
  destruct (zlen data <? sizeof_dns_hdr_t) eqn:H12.
  { apply talk; [|apply fail_st; [lia|done]]. intros [Hlt|(h & Hh & _)]; [lia|]. unfold unpack_hdr in Hh.
    do 6 apply bind_Some in Hh as (? & _ & Hh). apply bind_Some in Hh as (? & H10 & _).
    unfold GETINT16 in H10. apply bind_Some in H10 as (? & _ & H10). apply bind_Some in H10 as (? & H11 & _).
    apply rd_bound in H11. unfold sizeof_dns_hdr_t in H12. lia. }
  unfold sizeof_dns_hdr_t in H12. destruct (unpack_hdr_spec data Hdata) as (h & Hh & Hid & Har); [lia|]. r_bind. eapply run_must; [exact Hh|].
  assert (Hfail : ∀ res, run (a ← error_reply udpbufsize data res; mret (a, res, udp)) (answered_ok udp) s) by (intros; apply fail_st; [lia|done]).
  destruct (Z.eqb_spec (qr h) QR_QUERY) as [Hqr|Hqr]; cbn [negb]; [|by apply ignore_st].
  assert (Hns : ¬ silent). { intros [?|(h' & Hh' & ?)]; [lia|]. rewrite Hh in Hh'. by injection Hh' as <-. }
  destruct (Z.eqb_spec (opcode h) OP_QUERY) as [Hop|_]; cbn [negb]; [|by apply talk].
  destruct (Z.eqb_spec (z h) 0) as [Hzz|_]; cbn [negb]; [|by apply talk].
  destruct (Z.eqb_spec (h_rcode h) 0) as [Hrc|_]; cbn [negb]; [|by apply ignore_st].
  destruct (Z.eqb_spec (ancount h) 0) as [Han|_]; cbn [negb]; [|by apply talk].
  destruct (Z.eqb_spec (nscount h) 0) as [Hnc|_]; cbn [negb]; [|by apply talk].
  apply talk; [done|]. r_bind. unfold decode_query. r_bind. eapply run_must; [apply GETINT16_spec; [done|lia|lia]|].
  eapply run_mono; [apply (decode_questions_st _ _ _ [] s Hi); unfold sizeof_dns_hdr_t; [lia|lia|lia|constructor]|].
  cbn beta. cbn [length Nat.add]. intros [[[res ql] p] cnt] s1 [Hi1 Hdec]. pose proof Hdec as (Hp & Hc & Hpc & _).
  assert (Hfail1 : ∀ res, run (a ← error_reply udpbufsize data res; mret (a, res, udp)) (answered_ok udp) s1) by (intros; apply fail_st; [lia|done]).
  destruct ((res =? rc_number RC_TRUNC) && _) eqn:Ht; [done|]. destruct (negb (res =? 0) && negb (res =? rc_number RC_TRUNC)) eqn:Hr; [done|].
  destruct (query_edns_spec data Hdata udpbufsize h res p cnt udp Hp Hc Hpc) as (y & Hy & Hok). r_bind. eapply run_must; [exact Hy|].
  destruct y as [e|[edns udp']]; [done|]. eapply answer_st; [lia|done|exact Hh|done|done|exact Hdec| |exact Hok].
  destruct (Z.eqb_spec res 0) as [->|]; [by left|]. destruct (Z.eqb_spec res (rc_number RC_TRUNC)) as [->|]; [|done]. right. split; [done|].
  cbn [andb] in Ht. apply orb_false_iff in Ht as [Ht _]. lia.
Qed.
End query.
