(* ===== verification/DnsAnswerOk.v ===== *)
(** * The theorems about answers

    What clients and the resolver may rely on: the contract of [compose_answer] and
    [process_query] for every environment with the laws, that the decoder of responses reads
    an answer back, that the entries of a response can be answered from, and that
    [remove_opt_pseudo_rr] undoes [add_opt_pseudo_rr].  The environment at the end is an
    example. *)

From S2P Require Import Prelude CInt DnsName DnsCompress RrTypes RrList DnsHash DnsCent DnsCache Contract DnsCacheInv DnsCacheAdd DnsCacheOps DnsCacheSafe DnsCacheFile DnsCacheRead DnsCacheDisk DnsCacheReload DnsResponse DnsResponseSpec DnsResponseCache DnsAnswer DnsAnswerSpec DnsAnswerRr DnsAnswerSafe DnsAnswerReply DnsAnswerQuery.

(** ** Reading an answer back *)

(** a record that a client caches *)
Definition cacheable (r : arec) : Prop := a_class r = C_IN ∧ ∃ k, cached (a_type r) k.
(** The record that was decoded is the one that was added, but for the case of names. *)
Definition reads_back (r : arec) (x : crec) : Prop :=
  same_name (r_name x) (a_name r) ∧ r_type x = a_type r ∧ r_ttl x = a_ttl r ∧ ∃ fs, recoded fs (a_data r) (r_data x).

Lemma rr_at_weaken m off fin fin' ls tp cl t p n : rr_at m off fin ls tp cl t p n → fin ≤ fin' → rr_at m off fin' ls tp cl t p n ∧ p + n ≤ fin.
Proof. intros [ls' h k Hn Hh Hz Hle] Hf. split; [|lia]. eapply rr_at_intro; [exact Hn|done|done|lia]. Qed.
Lemma cached_not_opt tp k : cached tp k → tp ≠ T_OPT.
Proof. intros (_ & Hp & Hk) ->. vm_compute in Hp. injection Hp as <-. destruct Hk as [_ Hk]. by vm_compute in Hk. Qed.
Lemma written_le m r off mid : written m r off mid → off ≤ mid.
Proof. intros (ls & h & n & d & fs & Hat & _ & _ & _ & Hm & _). apply name_at_bound in Hat. unfold sizeof_rr_hdr_t in Hm. lia. Qed.
Lemma all_written_le m rs off fin : all_written m rs off fin → off ≤ fin.
Proof. induction 1 as [|r rs off mid fin Hw _ IH]; [done|]. apply written_le in Hw. lia. Qed.
Lemma all_written_split m rs rs' off fin : all_written m (rs ++ rs') off fin → ∃ mid, all_written m rs off mid ∧ all_written m rs' mid fin.
Proof.
  revert off. induction rs as [|r rs IH]; intros off; cbn [app]; [exists off; by split; [constructor|]|]. intros H. inversion H as [|? ? ? mid ? Hw Hws]; subst.
  destruct (IH mid Hws) as (mid' & H1 & H2). exists mid'. split; [by econstructor|done].
Qed.
Lemma written_section m f ts fin rs off mid :
  all_written m rs off mid → Forall rec_ok rs → Forall cacheable rs → 0 ≤ off → mid ≤ fin →
  ∃ more, section_at m f ts fin (length rs) off more mid ∧ Forall2 reads_back rs more.
Proof.
  induction 1 as [off|r rs off mid fin' Hw Hws IH]; intros Hr Hc Ho Hf; [exists []; split; constructor|].
  apply list.Forall_cons in Hr as [(Hn & Hx & Hran) Hr]. apply list.Forall_cons in Hc as [[Hcl [k Hk]] Hc].
  pose proof (written_le _ _ _ _ Hw) as Hmid. pose proof (all_written_le _ _ _ _ Hws) as Hle.
  destruct (written_rr m r off mid Hw Hn Hx Hran Ho) as (ls & p & fs & d & Hrr & Hsn & Hcan & Hlay & Hrec).
  destruct (IH Hr Hc) as (more & Hsec & Hback); [lia|lia|]. destruct (rr_at_weaken _ _ _ fin _ _ _ _ _ _ Hrr) as [Hrr' _]; [lia|]. rewrite Hcl in Hrr'.
  exists (mkRec ls (a_type r) (a_ttl r) d f ts :: more). split; [|constructor; [|done]].
  - cbn [length]. change (mkRec ls (a_type r) (a_ttl r) d f ts :: more) with ([mkRec ls (a_type r) (a_ttl r) d f ts] ++ more). eapply section_cons; [|exact Hsec].
    replace mid with (p + (mid - p)) by lia. eapply record_cached; [exact Hrr'|by eapply cached_not_opt|exact Hk|]. by replace (p + (mid - p)) with mid by lia.
  - split; [done|]. split; [done|]. split; [done|by exists fs].
Qed.

(** A section says one thing only. *)
Section unique.
Context (m : bytes) (Hm : bytes_ok m).
Lemma name_once off ls h n ls' h' n' :
  name_at m off ls h n → h ≤ 255 → zlen (rhn ls) ≤ DNSNAMEBUFSIZE → name_at m off ls' h' n' → h' ≤ 255 → zlen (rhn ls') ≤ DNSNAMEBUFSIZE → ls' = ls ∧ n' = n.
Proof.
  intros Hn Hh Hz Hn' Hh' Hz'. pose proof (name_at_bound _ _ _ _ _ Hn) as [? _]. pose proof (name_at_bound _ _ _ _ _ Hn').
  destruct (decompress_name_names m off (Z.max n n') Hm) as (r & _ & Hr); [lia|lia|].
  assert (r = Ok n (rhn ls)) as -> by (apply Hr; exists ls, h; split_and!; try done; lia).
  assert (Ok n (rhn ls) = Ok n' (rhn ls')) as [= <- Heq] by (apply Hr; exists ls', h'; split_and!; try done; lia).
  split; [|done]. apply rhn_inj in Heq; [done|by eapply name_at_bytes..].
Qed.
Lemma parsed_once fs off fin d d' : parsed m fs off fin d → parsed m fs off fin d' → d' = d.
Proof.
  intros Hp. revert d'. induction Hp as [off|off fin ls h n fs d Hn Hh Hz Hle _ IH|off fin n fs d Hle Hp IH|off fin n fs d Hr Hle Hp IH Hnn|off fin Hle]; intros d' Hp'.
  - by inversion Hp'.
  - inversion Hp' as [|? ? ls' h' n' ? ? Hn' Hh' Hz' _ Hp2| | |]; subst. destruct (name_once _ _ _ _ _ _ _ Hn Hh Hz Hn' Hh' Hz') as [-> ->]. by rewrite (IH _ Hp2).
  - inversion Hp' as [| |? ? ? ? ? _ Hp2| |]; subst. by rewrite (IH _ Hp2).
  - inversion Hp' as [| | |? ? n' ? ? Hr' _ Hp2 _|]; subst. rewrite Hr in Hr'. injection Hr' as <-. by rewrite (IH _ Hp2).
  - by inversion Hp'.
Qed.
Lemma rr_at_once off fin ls tp cl t p n ls' tp' cl' t' p' n' :
  rr_at m off fin ls tp cl t p n → rr_at m off fin ls' tp' cl' t' p' n' → ls' = ls ∧ tp' = tp ∧ cl' = cl ∧ t' = t ∧ p' = p ∧ n' = n.
Proof. intros [? h k Hn Hh Hz _] [? h' k' Hn' Hh' Hz' _]. by destruct (name_once _ _ _ _ _ _ _ Hn Hh Hz Hn' Hh' Hz') as [-> ->]. Qed.
Lemma record_once f ts off fin more mid more' mid' : record_at m f ts off fin more mid → record_at m f ts off fin more' mid' → more' = more ∧ mid' = mid.
Proof.
  intros [ls tp t p n d k Hr Ho Hk (fs & Hl & Hp & _)|ls tp cl t p n Hr Ho] [ls' tp' t' p' n' d' k' Hr' Ho' Hk' (fs' & Hl' & Hp' & _)|ls' tp' cl' t' p' n' Hr' Ho'];
    destruct (rr_at_once _ _ _ _ _ _ _ _ _ _ _ _ _ _ Hr Hr') as (-> & -> & Hcl & -> & -> & ->).
  - rewrite Hl in Hl'. injection Hl' as <-. by rewrite (parsed_once _ _ _ _ _ Hp Hp').
  - destruct Ho' as [?|[?|Hno]]; [done|done|by destruct (Hno k)].
  - destruct Ho as [?|[?|Hno]]; [done|congruence|by destruct (Hno k')].
  - done.
Qed.
Lemma section_unique f ts fin n off more mid more' mid' : section_at m f ts fin n off more mid → section_at m f ts fin n off more' mid' → more' = more.
Proof.
  intros H. revert more' mid'. induction H as [off|n off more mid recs off' Hr _ IH]; intros more' mid' H'; inversion H' as [|? ? more2 mid2 recs2 ? Hr2 H2]; subst; [done|].
  destruct (record_once _ _ _ _ _ _ _ _ Hr Hr2) as [-> ->]. by rewrite (IH _ _ H2).
Qed.
End unique.

(** the answers of a composed message are of the types that are cached *)
Lemma set_of_cached c tp v : set_of c tp = Some v → ∃ k, cached tp k.
Proof.
  unfold set_of. destruct ((0 <=? tp - T_MIN) && (tp - T_MIN <? T_NUM)) eqn:Hb; [|done]. destruct (place tp) as [i|] eqn:Hp; [|done].
  destruct (i <? NRRTOT) eqn:Hi; [|done]. intros _. exists i. pose proof (place_nonneg _ _ Hp). split; [lia|]. split; [done|lia].
Qed.
Section answers.
Context (queryts : Z) (rnd_recs : bool) (found : list bytes → dns_cent_t → Prop).
Lemma sets_cacheable nm c tps rs : sets_recs queryts rnd_recs nm c tps rs → Forall cacheable rs.
Proof.
  induction 1 as [|tp tps rs rs' Hs _ IH]; [constructor|]. apply Forall_app. split; [|done]. unfold set_recs in Hs. destruct (set_of c tp) as [v|] eqn:Hv; [|by subst rs].
  destruct Hs as (l & _ & _ & ->). apply list.Forall_fmap, list.Forall_forall. intros b _. split; [done|by eapply set_of_cached].
Qed.
Lemma chain_cacheable recurse qt n nm cs rs : chain_answers queryts rnd_recs found recurse qt n nm cs rs → Forall cacheable rs.
Proof. induction 1; [constructor|by eapply sets_cacheable|]. apply Forall_app. split; [by eapply sets_cacheable|done]. Qed.
Lemma answers_cacheable recurse ql cs rs : answers_of queryts rnd_recs found recurse ql cs rs → Forall cacheable rs.
Proof. induction 1; [constructor|]. apply Forall_app. split; [by eapply chain_cacheable|done]. Qed.
End answers.

Lemma pack_hdr_bytes ql an ns ar a rc h :
  0 ≤ rd_flag h ≤ 1 → 0 ≤ a ≤ 1 → bytes_ok (pack_hdr (set_counts ql an ns ar (set_aa a (set_rcode rc (answer_hdr h))))).
Proof.
  intros Hr Ha. unfold pack_hdr. rewrite !bytes_ok_app, !be16_bytes. split; [apply be_bytes_ok|]. split; [|split_and!; apply be_bytes_ok].
  cbn. pose proof (Z.land_nonneg rc 15). change 15 with (Z.ones 4) in *. rewrite Z.land_ones by done. pose proof (Z.mod_pos_bound rc (2 ^ 4)).
  unfold OP_QUERY, QR_RESP. constructor; [lia|]. constructor; [lia|constructor].
Qed.
Definition at_answers (m : bytes) (q : Z) : section := mkSection q (zlen m - q) None 0 (mkEdns 0 0 0 0).
Definition reads_all (m : bytes) (q : Z) (an : list arec) : Prop :=
  ∀ f ts mem L, dll (rl mem) L → mem_ok mem → ∃ s mem' nms more,
    rrs2cent m (length an) f ts (at_answers m q) mem = Some ((RET RC_OK, s), mem', []) ∧
    Forall2 reads_back an more ∧ collected nms (default [] (centa s)) more.
Lemma message_reads m q mid an : bytes_ok m → 0 ≤ q → mid ≤ zlen m → all_written m an q mid → Forall rec_ok an → Forall cacheable an → reads_all m q an.
Proof.
  intros Hm Hq Hmid Hw Hr Hc f ts mem L HL Hmem. destruct (written_section m f ts (zlen m) an q mid Hw Hr Hc Hq Hmid) as (more & Hsec & Hback).
  pose proof (all_written_le _ _ _ _ Hw). assert (Hin : within m (at_answers m q) (zlen m)) by (split_and!; cbn; lia).
  destruct (rrs2cent_read m Hm (length an) f ts (at_answers m q) (zlen m) [] mem L Hin (co_entries _ _ _ collected_nil) HL) as
    ([ret s] & mem' & Hrun & _ & _ & _ & Hno & nms & _ & Hok). cbn [fst snd] in *.
  assert (ret = RET RC_OK) as ->. { destruct (is_ok ret) eqn:He; [by destruct ret as [[]|]|]. exfalso. by eapply (Hno ltac:(by intros ->) Hmem). }
  destruct (Hok eq_refl) as (more' & Hsec' & _ & Hcol). exists s, mem', nms, more'. split; [done|]. split; [|exact (Hcol [] collected_nil)].
  assert (more' = more) as ->; [|done]. by eapply section_unique.
Qed.

(** ** Entries that come from a server

    What [rrs2cent] decodes keeps what [AnswerEnvLaws] asks of the entries of the resolver,
    if the data of every record is less than 2^16 bytes long. *)

Lemma expected_data recs nm tp v d : expected recs nm tp = Some v → d ∈ rrs v → ∃ x, x ∈ recs ∧ r_type x = tp ∧ r_data x = d.
Proof.
  revert v. induction recs as [|x recs IH] using rev_ind; intros v; [done|]. rewrite expected_snoc. assert (Hx : x ∈ recs ++ [x]) by set_solver.
  assert (Hold : ∀ v, expected recs nm tp = Some v → d ∈ rrs v → ∃ x0, x0 ∈ recs ++ [x] ∧ r_type x0 = tp ∧ r_data x0 = d).
  { intros w Hw Hd. destruct (IH w Hw Hd) as (y & Hy & ?). exists y. split; [set_solver|done]. }
  destruct (decide (of_set nm tp x)) as [[_ Ht]|]; [|by apply Hold]. destruct (expected recs nm tp) as [w|]; intros [= <-]; cbn [rrs].
  - case_bool_decide; [by apply Hold|]. intros [Hd|Hd]%elem_of_app; [by eapply Hold|]. apply list_elem_of_singleton in Hd as ->. by exists x.
  - intros ->%list_elem_of_singleton. by exists x.
Qed.
Lemma section_wf m f ts fin n off more off' : bytes_ok m → fin ≤ zlen m → section_at m f ts fin n off more off' →
  Forall (λ x, zlen (r_data x) < 2 ^ 16 → wf_rdata (r_type x) (r_data x)) more.
Proof.
  intros Hm Hf. induction 1 as [off|n off more mid recs off' Hr _ IH]; [constructor|]. apply Forall_app. split; [|done].
  destruct Hr as [ls tp t p k d i Hrr _ _ Hc|]; constructor; [|constructor]. cbn [r_data r_type]. intros Hz.
  destruct Hrr as [ls h j Hn _ _ Hle]. apply name_at_bound in Hn. eapply canonical_wf; [exact Hm| | |exact Hz|exact Hc]; lia.
Qed.
Theorem decoded_entries_good m n f ts s fin mem L s' mem' :
  bytes_ok m → within m s fin → centa s = None → dll (rl mem) L →
  rrs2cent m n f ts s mem = Some ((RET RC_OK, s'), mem', []) →
  Forall (λ c, (∀ tp v, set_of c tp = Some v → Forall (λ d, zlen d < 2 ^ 16) (rrs v)) → good_cent c) (default [] (centa s')).
Proof.
  intros Hm Hs Hnone HL Hrun. assert (Hcol0 : collected [] (default [] (centa s)) []) by (rewrite Hnone; apply collected_nil).
  destruct (rrs2cent_read m Hm n f ts s fin [] mem L Hs (co_entries _ _ _ Hcol0) HL) as ([ret s1] & m1 & Hrun1 & _ & _ & _ & _ & nms & He & Hok).
  rewrite Hrun in Hrun1. injection Hrun1 as <- <- <-. cbn [fst snd] in *. destruct (Hok eq_refl) as (more & Hsec & _ & Hcol). specialize (Hcol [] Hcol0). cbn [app] in Hcol.
  assert (Hfin : fin ≤ zlen m) by (by destruct Hs as (_ & _ & _ & ?)). pose proof (section_wf _ _ _ _ _ _ _ _ Hm Hfin Hsec) as Hwf. rewrite list.Forall_forall in Hwf.
  apply list.Forall_forall. intros c Hc Hlen. apply list_elem_of_lookup in Hc as [i Hi].
  destruct (list.Forall2_lookup_r _ _ _ _ _ (en_good _ _ He) Hi) as (nm & Hnm & [[Hw Hq] [Hcok _ _] _]).
  split; [by exists nm|done|]. intros tp v Hv. specialize (Hlen tp v Hv). rewrite list.Forall_forall in Hlen. apply list.Forall_forall. intros d Hd.
  destruct (set_of_cached _ _ _ Hv) as [k Hk]. pose proof (co_sets _ _ _ Hcol i nm c tp k Hnm Hi Hk) as Hview.
  assert (Hslot : slot c k = Some v).
  { destruct Hk as (Hr & Hp & Hk). unfold set_of in Hv. rewrite Hp in Hv. replace ((0 <=? tp - T_MIN) && (tp - T_MIN <? T_NUM)) with true in Hv by lia.
    by replace (k <? NRRTOT) with true in Hv by lia. }
  rewrite Hslot in Hview. cbn in Hview. symmetry in Hview. destruct (expected_data _ _ _ _ _ Hview Hd) as (x & Hx & <- & <-). apply Hwf; [done|by apply Hlen].
Qed.

(** ** The OPT record *)

Section opt.
Context {X : Type} `{AnswerEnv X}.
Definition counts_ok (h : dns_hdr_t) : Prop :=
  0 ≤ qdcount h < 2 ^ 16 ∧ 0 ≤ ancount h < 2 ^ 16 ∧ 0 ≤ nscount h < 2 ^ 16 ∧ 0 ≤ arcount h < 2 ^ 16 - 1.
Lemma count_undone h : counts_ok h → let h' := count S_ADDITIONAL h in
  arcount h' = arcount h + 1 ∧ set_counts (qdcount h') (ancount h') (nscount h') (arcount h' - 1) h' = h.
Proof.
  intros (Hq & Ha & Hn & Hr). destruct h as [? ? ? ? ? ? ? ? ? ? ? qd an ns rr]. unfold count, set_counts, u16. cbn in *.
  rewrite !(Z.mod_small qd), !(Z.mod_small an), !(Z.mod_small ns), !(Z.mod_small (rr + 1)) by lia. split; [done|]. f_equal. rewrite Z.mod_small; lia.
Qed.
Lemma opt_at_end b udpsize rcode v f : let o := [0] ++ be16 T_OPT ++ be16 udpsize ++ [u8 (Z.shiftr rcode 4); u8 v] ++ be16 f ++ be16 0 in
  zlen (b ++ o) = zlen b + sizeof_opt_pseudo_rr ∧ rd (b ++ o) (zlen b) = Some 0 ∧ GETINT16 (b ++ o) (zlen b + 1) = Some T_OPT ∧ ztake (zlen b) (b ++ o) = b.
Proof.
  intros o. assert (Ho : o = 0 :: 0 :: 41 :: drop 3 o) by done. split; [by rewrite zlen_app|]. unfold GETINT16. rewrite !rd_app_r by lia.
  replace (zlen b - zlen b) with 0 by lia. replace (zlen b + 1 - zlen b) with 1 by lia. replace (zlen b + 1 + 1 - zlen b) with 2 by lia. rewrite Ho.
  split; [done|]. split; [done|apply ztake_app_length].
Qed.
Lemma add_opt_adds udpsize rcode v f (s s' : reply X) es :
  add_opt_pseudo_rr udpsize rcode v f s = Some (true, s', es) →
  hdr s' = count S_ADDITIONAL (hdr s) ∧ body s' = body s ++ [0] ++ be16 T_OPT ++ be16 udpsize ++ [u8 (Z.shiftr rcode 4); u8 v] ++ be16 f ++ be16 0.
Proof.
  unfold add_opt_pseudo_rr. intros (b & s1 & e1 & e2 & Hn & Hrest & _)%M_bind_Some. destruct b; [|done].
  assert (Hs1 : hdr s1 = hdr s ∧ body s1 = body s).
  { unfold need_room in Hn. apply M_bind_Some in Hn as (? & ? & ? & ? & [= <- <- <-] & Hn & _). cbn zeta in Hn. destruct (_ >? _); [|by injection Hn as <- _].
    apply M_bind_Some in Hn as (b & s2 & ? & ? & Ho & Hn & _). unfold on_env in Ho. destruct (realloc_msg _ _) as [[[b9 x9] ?]|]; [|done]. injection Ho as <- <- _.
    destruct b9; [|done]. apply M_bind_Some in Hn as (? & ? & ? & ? & [= <- <- <-] & Hn & _). by injection Hn as <- _. }
  destruct Hs1 as [<- <-]. apply M_bind_Some in Hrest as (? & s3 & ? & ? & Hap & Hrest & _). apply M_bind_Some in Hrest as (? & s4 & ? & ? & Hh & Hrest & _).
  injection Hrest as <- _. injection Hh as <- <- _. unfold append in Hap. apply M_bind_Some in Hap as (? & ? & ? & ? & [= <- <- <-] & Hap & _).
  apply M_bind_Some in Hap as (? & s5 & ? & ? & Has & Hap & _). unfold ASSERT in Has. destruct (_ <=? _); [|done]. injection Has as <- <- _. by injection Hap as <- <- _.
Qed.
End opt.

(** ** An example

    A resolver that knows every name: "a" is an alias of "b", and the others have an address
    and the name server "n". *)

Definition ex_set (l : list bytes) : option rr_set_t := Some (mkSet 0 None 300 1000 0 l).
Definition ex_slots (name : bytes) : slots :=
  if bool_decide (name = rhn [[97]]) then [None; None; ex_set [rhn [[98]]]; None; None; None; None; None]
  else [ex_set [[10; 0; 0; 1]; [10; 0; 0; 2]]; ex_set [rhn [[110]]]; None; None; None; None; None; None].
Definition ex_cent (name : bytes) : dns_cent_t :=
  let c := mkCent name 0 0 0 (rr (ex_slots name) None) cundef cundef in
  mkCent name (cent_size c) (zsum slot_num (all_slots c)) 0 (rr (ex_slots name) None) cundef cundef.
Definition ex_found (nm : list bytes) (c : dns_cent_t) : Prop := c = ex_cent (rhn nm).
#[local] Instance ex_env : AnswerEnv unit := {|
  grow_list := mret true;
  realloc_msg n := mret (n <=? 2 ^ 31);
  random := mret 1;
  lookup name := mret (Some (ex_cent name));
  local_owner _ _ := mret None;
  resolve name _ := mret (0, Some (ex_cent name), cundef);
|}.
Lemma place_mu tp i : is_type tp = true → place tp = Some i → 0 ≤ i < NRRMU → rrmuiterlist !! Z.to_nat i = Some tp.
Proof.
  intros Ht Hp Hi.
  assert (Hall : Forall (λ tp, match place tp with Some i => i < NRRMU → rrmuiterlist !! Z.to_nat i = Some tp | None => True end) (seqZ T_MIN T_NUM)).
  { repeat (constructor; [cbn; try done; intros; first [reflexivity|by exfalso; lia]|]); constructor. }
  rewrite list.Forall_forall in Hall. specialize (Hall tp). rewrite Hp in Hall. apply Hall; [|lia]. apply elem_of_seqZ. unfold is_type, T_MIN, T_MAX, T_NUM in *. lia.
Qed.
Lemma ex_name_rdata tp nm : one_of tp [T_CNAME; T_NS] = true → wf_name nm → zlen (rhn nm) < 2 ^ 16 → wf_rdata tp (rhn nm).
Proof.
  intros Ht Hn Hz. split; [done|]. split; [intros ->; done|]. exists [NAME]. split.
  - unfold layout. destruct (Z.eqb_spec tp T_A) as [->|_]; [done|]. replace (one_of tp _) with true; [done|]. symmetry. one_lia.
  - rewrite <-(app_nil_r (rhn nm)). constructor; [done|constructor].
Qed.
Lemma ex_cent_good nm : wf_name nm → good_cent (ex_cent (rhn nm)).
Proof.
  intros Hn. assert (Htag : cent_tag (ex_cent (rhn nm))).
  { unfold cent_tag, ex_cent. cbn [u]. split; [done|]. unfold ex_slots. by case_bool_decide. }
  split; [by exists nm| |].
  - split; [done| |]; [done|]. done.
  - intros tp v Hv. pose proof (set_of_type _ _ _ Hv) as Ht. unfold set_of in Hv. destruct (_ && _); [|done]. destruct (place tp) as [i|] eqn:Hp; [|done].
    pose proof (place_nonneg _ _ Hp) as Hi. destruct (i <? NRRTOT); [|done]. unfold slot, all_slots, ex_cent in Hv. cbn [u from_option id] in Hv. rewrite app_nil_r in Hv.
    assert (Hw : ∀ l, wf_nameb l = true → one_of tp [T_CNAME; T_NS] = true → Forall (wf_rdata tp) [rhn l]).
    { intros l Hl Htp. constructor; [|constructor]. pose proof (wf_nameb_spec _ Hl) as [? Hz]. apply ex_name_rdata; [done|done|]. unfold DNSNAMEBUFSIZE in Hz. lia. }
    assert (Hlt : i < NRRMU).
    { destruct (ex_slots (rhn nm) !! Z.to_nat i) as [x|] eqn:Hx; [|done]. apply lookup_lt_Some in Hx. revert Hx. unfold ex_slots, NRRMU. case_bool_decide; cbn [length]; lia. }
    pose proof (place_mu tp i Ht Hp (conj Hi Hlt)) as Hmu. unfold NRRMU in Hlt.
    assert (i = 0 ∨ i = 1 ∨ i = 2 ∨ i = 3 ∨ i = 4 ∨ i = 5 ∨ i = 6 ∨ i = 7) as Hcases by lia. unfold ex_slots in Hv.
    case_bool_decide; destruct Hcases as [->|[->|[->|[->|[->|[->|[->| ->]]]]]]]; cbn in Hv, Hmu; try done; injection Hv as <-; injection Hmu as <-; cbn [rrs].
    + by apply (Hw [[98]]).
    + repeat constructor; try done; exists [BYTES 4]; (split; [done|]); apply (fields_one [10; 0; 0; _]); by apply bytes_okb_spec.
    + by apply (Hw [[110]]).
Qed.
#[local] Instance ex_laws : AnswerEnvLaws unit ex_env (λ _, True) ex_found.
Proof.
  split.
  - intros x _. by apply run_ret.
  - intros n x _. apply run_ret. split; [done|]. intros Hn. lia.
  - intros x _. by apply run_ret.
  - intros nm x _ Hn. apply run_ret. split; [done|]. intros c [= <-]. by apply ex_cent_good.
  - intros nm tp x _ Hn. by apply run_ret.
  - intros nm tp x _ Hn. apply run_ret. split; [done|]. split; [done|]. intros _. exists (ex_cent (rhn nm)). split; [done|]. split; [by apply ex_cent_good|done].
Qed.

(** "a" is asked for an address, with recursion. *)
Definition ex_query : bytes := [18; 52; 1; 0; 0; 1; 0; 0; 0; 0; 0; 0] ++ [1; 97; 0; 0; 1; 0; 1].
Definition ex_question : dns_queryel_t := mkQuery T_A C_IN (rhn [[97]]).
Definition ex_hdr : dns_hdr_t := mkDnsHdr 4660 1 0 0 0 0 0 0 0 0 0 1 0 0 0.
Definition ex_state : reply unit := mkReply tt ex_hdr [] 0 [] [] [].
(** the alias, two addresses from the one that was drawn, the name server and its addresses *)
Example ex_query_run :
  (λ r, (match r.1.1 with Some (h, b) => Some (pack_hdr h, b) | None => None end, r.2)) ∘ fst ∘ fst <$> process_query 1000 512 true ex_query (Some 512) ex_state =
  Some (Some ([18; 52; 129; 128; 0; 1; 0; 3; 0; 1; 0; 2],
    [1; 97; 0; 0; 1; 0; 1] ++ [192; 12; 0; 5; 0; 1; 0; 0; 1; 44; 0; 3; 1; 98; 0] ++
    [192; 31; 0; 1; 0; 1; 0; 0; 1; 44; 0; 4; 10; 0; 0; 2] ++ [192; 31; 0; 1; 0; 1; 0; 0; 1; 44; 0; 4; 10; 0; 0; 1] ++
    [192; 31; 0; 2; 0; 1; 0; 0; 1; 44; 0; 3; 1; 110; 0] ++ [192; 78; 0; 1; 0; 1; 0; 0; 1; 44; 0; 4; 10; 0; 0; 2] ++
    [192; 78; 0; 1; 0; 1; 0; 0; 1; 44; 0; 4; 10; 0; 0; 1]), Some 512).
Proof. vm_compute. reflexivity. Qed.

(** ** The theorems *)

Lemma ex_question_good : Forall good_query [ex_question].
Proof. constructor; [|constructor]. exists [[97]]. split; [by apply wf_nameb_spec|done]. Qed.

(** C37: [process_query] handles every packet, whatever its bytes are, without an access
    outside of it or a failed assertion.  It sends nothing for a packet of less than two
    bytes and for a response.  Whatever it sends has the identifier of the packet and is
    marked as a response, and is either a header with an error code, with an OPT record if
    the code needs one, or what [compose_answer] says to the questions of the packet, which
    are then all of them, or those that a truncated query still has; and the limit for the
    size changes only for a query with an OPT record, to at most [udpbufsize]. *)
Theorem process_query_correct {X} (E : AnswerEnv X) (Inv : X → Prop) found (Laws : AnswerEnvLaws X E Inv found) queryts udpbufsize rnd_recs data udp s :
  bytes_ok data → Inv (env s) →
  run (process_query queryts udpbufsize rnd_recs data udp)
    (λ r s', (Inv (env s') ∧ ∀ h' b, r.1.1 = Some (h', b) → reply_ok (found := found) queryts udpbufsize rnd_recs data udp r.1.2 r.2 h' b) ∧
      (silent data → r.1.1 = None)) s.
Proof. intros Hd. by apply process_query_st. Qed.
Lemma process_query_correct_witness :
  run (process_query 1000 512 true ex_query (Some 512))
    (λ r _, (True ∧ ∀ h' b, r.1.1 = Some (h', b) → reply_ok (found := ex_found) 1000 512 true ex_query (Some 512) r.1.2 r.2 h' b) ∧
      (silent ex_query → r.1.1 = None)) ex_state.
Proof. apply (process_query_correct ex_env (λ _, True) ex_found ex_laws); [by apply bytes_okb_spec|exact I]. Defined.

(** C38: What [compose_answer] answers can be decoded by [rrs2cent], the decoder of
    responses: with memory it succeeds on the answer section, and the entries it makes hold
    exactly the records that were to be sent, with their times to live, and with the data of
    the cache they came from but for the case of letters in names. *)
Theorem answers_decode {X} (E : AnswerEnv X) (Inv : X → Prop) found (Laws : AnswerEnvLaws X E Inv found) queryts udpbufsize rnd_recs ql h edns udp s :
  Inv (env s) → Forall good_query ql → 0 ≤ rd_flag h ≤ 1 →
  run (compose_answer queryts udpbufsize rnd_recs ql h edns udp)
    (λ r _, ∀ h' b, r = (Some (h', b), 0) → ∃ q cs an, all_asked (pack_hdr h' ++ b) ql 12 q ∧
      answers_of queryts rnd_recs found (negb (rd_flag h =? 0)) ql cs an ∧ ancount h' = u16 (zlen an) ∧ reads_all (pack_hdr h' ++ b) q an) s.
Proof.
  intros Hi Hql Hrd. eapply run_mono; [by apply compose_answer_st|]. cbn beta. intros r s' [_ Hr] h' b ->.
  destruct (Hr h' b eq_refl) as (_ & a & an & ns & ar & [Hh Hb Hrec Hlen (q & Hq & Hw)] & Hok & _). destruct (Hok eq_refl) as (cs & Han & Ha & _).
  exists q, cs, an. split; [done|]. split; [done|]. split; [by rewrite Hh|]. destruct (all_written_split _ _ _ _ _ Hw) as (mid & Hw1 & Hw2). apply Forall_app in Hrec as [Hrec _].
  pose proof (all_asked_le _ _ _ _ Hq). apply all_written_le in Hw2. eapply message_reads; [|lia|exact Hw2|exact Hw1|done|by eapply answers_cacheable].
  apply bytes_ok_app. split; [|done]. rewrite Hh. apply pack_hdr_bytes; [done|]. rewrite Ha. by destruct (forallb _ _).
Qed.
Lemma answers_decode_witness :
  run (compose_answer 1000 512 true [ex_question] ex_hdr false (Some 512))
    (λ r _, ∀ h' b, r = (Some (h', b), 0) → ∃ q cs an, all_asked (pack_hdr h' ++ b) [ex_question] 12 q ∧
      answers_of 1000 true ex_found true [ex_question] cs an ∧ ancount h' = u16 (zlen an) ∧ reads_all (pack_hdr h' ++ b) q an) ex_state.
Proof. apply (answers_decode ex_env (λ _, True) ex_found ex_laws 1000 512 true [ex_question] ex_hdr); [exact I|exact ex_question_good|split; discriminate]. Defined.

(** [remove_opt_pseudo_rr] finds the OPT record that [add_opt_pseudo_rr] put at the end
    of a message, whatever its contents are, and gives the message before back. *)
Theorem remove_opt_undoes_add {X} (E : AnswerEnv X) udpsize rcode ednsver Zflags (s s' : reply X) es :
  counts_ok (hdr s) → add_opt_pseudo_rr udpsize rcode ednsver Zflags s = Some (true, s', es) →
  remove_opt_pseudo_rr (hdr s') (body s') = Some (Some (hdr s, body s)).
Proof.
  intros Hc Hadd. destruct (add_opt_adds _ _ _ _ _ _ _ Hadd) as [-> ->]. destruct (opt_at_end (body s) udpsize rcode ednsver Zflags) as (Hz & Hr & Ht & Htake).
  destruct (count_undone (hdr s) Hc) as [Har Hund]. destruct Hc as (_ & _ & _ & Hr0). pose proof (zlen_nonneg (body s)). unfold remove_opt_pseudo_rr. cbn zeta. rewrite Hz, Har.
  replace ((arcount (hdr s) + 1 >? 0) && (zlen (body s) + sizeof_opt_pseudo_rr >=? sizeof_opt_pseudo_rr)) with true by lia. cbn [negb].
  replace (zlen (body s) + sizeof_opt_pseudo_rr - sizeof_opt_pseudo_rr) with (zlen (body s)) by lia. rewrite Hr, Ht. cbn [mbind option_bind]. rewrite Htake.
  rewrite Har in Hund. by rewrite Hund.
Qed.
Lemma remove_opt_undoes_add_witness :
  ∃ s', add_opt_pseudo_rr (X := unit) 1232 16 0 0 ex_state = Some (true, s', []) ∧
    remove_opt_pseudo_rr (hdr s') (body s') = Some (Some (ex_hdr, [])).
Proof.
  eexists. split; [vm_compute; reflexivity|]. eapply (remove_opt_undoes_add ex_env 1232 16 0 0 ex_state); [|vm_compute; reflexivity].
  repeat split; vm_compute; congruence.
Defined.
