(* ===== verification/Bavl.v ===== *)
(** * Balanced trees

    [structure/BAVL.h]: the AVL tree with parent pointers that [UdpGwClient] finds its
    connections in.  The tree is intrusive: a node is a field of the object it stands for.
    A node is an address; [nodes] are the nodes and [values] what is found [offset] bytes
    after each of them, which the client may write.

    This file has the code, without the counts of [BAVL_COUNT], which the program does not
    define.  The loops have the number of nodes as fuel ([fuel]).  File [BavlShape] relates
    the nodes in memory to trees, [BavlBalance] and [BavlOps] specify the functions, and
    [BavlSpec] and [BavlClient] hold the theorems. *)

From S2P Require Import Prelude CInt.

(** [link[0]] and [link[1]] *)
Record BAVLNode := mkNode {
  parent : option Z;
  link0 : option Z;
  link1 : option Z;
  balance : Z;                  (** [int8_t] *)
}.
(** sides are [uint8_t]s that are 0 or 1 *)
Definition link (c : BAVLNode) (side : bool) : option Z := if side then link1 c else link0 c.

Record BAVL {V : Type} := mkBAVL {
  root : option Z;
  nodes : gmap Z BAVLNode;
  values : gmap Z V;
}.
#[global] Arguments BAVL : clear implicits.
#[global] Arguments mkBAVL {V}.

Definition int8 (x : Z) : Z := let y := u8 x in if y >=? 128 then y - 256 else y.
Definition BAVL_MAX (a b : Z) : Z := if a >? b then a else b.
Definition BAVL_OPTNEG (a : Z) (neg : bool) : Z := if neg then - a else a.

Definition with_parent (p : option Z) (c : BAVLNode) : BAVLNode :=
  mkNode p (link0 c) (link1 c) (balance c).
Definition with_link (side : bool) (p : option Z) (c : BAVLNode) : BAVLNode :=
  if side then mkNode (parent c) (link0 c) p (balance c)
  else mkNode (parent c) p (link1 c) (balance c).
Definition with_balance (b : Z) (c : BAVLNode) : BAVLNode :=
  mkNode (parent c) (link0 c) (link1 c) b.

Section code.
Context {V : Type} (comparator : V → V → Z).
Abbreviation T := (M (BAVL V) Empty_set).

(** [*n], a pointer that is followed, and writes to [n] *)
Definition node (n : Z) : T BAVLNode :=
  o ← get; match nodes o !! n with Some c => mret c | None => unreachable end.
Definition deref (p : option Z) : T Z :=
  match p with Some n => mret n | None => unreachable end.
Definition on_nodes (f : gmap Z BAVLNode → gmap Z BAVLNode) (o : BAVL V) : BAVL V :=
  mkBAVL (root o) (f (nodes o)) (values o).
Definition write (n : Z) (f : BAVLNode → BAVLNode) : T unit :=
  node n;; modify (on_nodes (alter f n)).
Definition set_root (p : option Z) : T unit := modify (λ o, mkBAVL p (nodes o) (values o)).
(** [if (p) p->parent = q] *)
Definition set_parent_of (p q : option Z) : T unit :=
  match p with Some n => write n (with_parent q) | None => mret tt end.
(** [if (n->link[side] = p) n->link[side]->parent = n] *)
Definition adopt (n : Z) (side : bool) (p : option Z) : T unit :=
  write n (with_link side p);; set_parent_of p (Some n).
(** [if (p) p->link[n == p->link[1]] = q; else tree->root = q] *)
Definition replace_child (p : option Z) (n : Z) (q : option Z) : T unit :=
  match p with
  | Some a => c ← node a; write a (with_link (bool_decide (Some n = link c true)) q)
  | None => set_root q
  end.

Definition _BAVL_node_value (n : Z) : T V :=
  o ← get; match values o !! n with Some v => mret v | None => unreachable end.
Definition _BAVL_compare_values (v1 v2 : V) : T Z :=
  let res := comparator v1 v2 in
  ASSERT ((res =? -1) || (res =? 0) || (res =? 1));; mret res.
Definition _BAVL_compare_nodes (n1 n2 : Z) : T Z :=
  v1 ← _BAVL_node_value n1; v2 ← _BAVL_node_value n2; _BAVL_compare_values v1 v2.

Definition _BAVL_rotate (r : Z) (dir : bool) : T unit :=
  c ← node r;
  nr ← deref (link c (negb dir));
  cn ← node nr;
  adopt r (negb dir) (link cn dir);;
  write nr (with_link dir (Some r));;
  c ← node r;
  write nr (with_parent (parent c));;
  replace_child (parent c) r (Some nr);;
  write r (with_parent (Some nr)).

(** [while (n->link[side]) n = n->link[side]] *)
Fixpoint descend (fuel : nat) (side : bool) (n : Z) : T Z :=
  match fuel with
  | O => unreachable
  | S fuel =>
      c ← node n;
      match link c side with Some m => descend fuel side m | None => mret n end
  end.
Definition fuel (o : BAVL V) : nat := S (size (nodes o)).
Definition _BAVL_subtree_max (n : Z) : T Z := o ← get; descend (fuel o) true n.

Definition _BAVL_replace_subtree (dest : Z) (n : option Z) : T unit :=
  c ← node dest;
  replace_child (parent c) dest n;;
  c ← node dest;
  set_parent_of n (parent c).

(** [n2] is a child of [n1] *)
Definition swap_connected (n1 n2 : Z) : T unit :=
  c1 ← node n1;
  let side := bool_decide (Some n2 = link c1 true) in
  let c := link c1 (negb side) in
  c2 ← node n2; adopt n1 false (link c2 false);;
  c2 ← node n2; adopt n1 true (link c2 true);;
  c1 ← node n1;
  write n2 (with_parent (parent c1));;
  replace_child (parent c1) n1 (Some n2);;
  write n2 (with_link side (Some n1));;
  write n1 (with_parent (Some n2));;
  adopt n2 (negb side) c.
Definition swap_children (n1 n2 : Z) (side : bool) : T unit :=
  c1 ← node n1; c2 ← node n2;
  adopt n1 side (link c2 side);;
  adopt n2 side (link c1 side).
Definition swap_apart (n1 n2 : Z) : T unit :=
  c1 ← node n1; c2 ← node n2;
  write n1 (with_parent (parent c2));;
  replace_child (parent c2) n2 (Some n1);;
  write n2 (with_parent (parent c1));;
  replace_child (parent c1) n1 (Some n2);;
  swap_children n1 n2 false;;
  swap_children n1 n2 true.
Definition swap_balances (n1 n2 : Z) : T unit :=
  c1 ← node n1; c2 ← node n2;
  write n1 (with_balance (balance c2));;
  write n2 (with_balance (balance c1)).
Definition _BAVL_swap_nodes (n1 n2 : Z) : T unit :=
  c1 ← node n1; c2 ← node n2;
  (if bool_decide (parent c2 = Some n1) || bool_decide (parent c1 = Some n2) then
     if bool_decide (parent c1 = Some n2) then swap_connected n2 n1 else swap_connected n1 n2
   else swap_apart n1 n2);;
  swap_balances n1 n2.

(** the transformations: the node that is now at the top, and the change of the height *)
Definition transform (n : Z) (delta : Z) : T (Z * Z) :=
  c ← node n;
  if (balance c =? 2) || (balance c =? -2) then
    let bside := balance c =? 2 in
    let bsidef := if bside then 1 else -1 in
    child ← deref (link c bside);
    cc ← node child;
    if balance cc * bsidef =? 1 then
      _BAVL_rotate n (negb bside);;
      write n (with_balance 0);;
      write child (with_balance 0);;
      mret (child, int8 (delta - 1))
    else if balance cc * bsidef =? 0 then
      _BAVL_rotate n (negb bside);;
      write n (with_balance (int8 (1 * bsidef)));;
      write child (with_balance (int8 (-1 * bsidef)));;
      mret (child, delta)
    else if balance cc * bsidef =? -1 then
      gchild ← deref (link cc (negb bside));
      _BAVL_rotate child bside;;
      _BAVL_rotate n (negb bside);;
      g ← node gchild;
      write n (with_balance (int8 (- BAVL_MAX 0 (balance g * bsidef) * bsidef)));;
      write child (with_balance (int8 (BAVL_MAX 0 (- balance g * bsidef) * bsidef)));;
      write gchild (with_balance 0);;
      mret (gchild, int8 (delta - 1))
    else unreachable
  else mret (n, delta).

Fixpoint _BAVL_rebalance (fuel : nat) (n : Z) (side : bool) (deltac : Z) : T unit :=
  match fuel with
  | O => unreachable
  | S fuel =>
      c ← node n;
      ASSERT ((-1 <=? deltac) && (deltac <=? 1));;
      ASSERT ((-1 <=? balance c) && (balance c <=? 1));;
      if deltac =? 0 then mret tt
      else
        let delta := int8 (BAVL_MAX deltac (BAVL_OPTNEG (balance c) side) -
                           BAVL_MAX 0 (BAVL_OPTNEG (balance c) side)) in
        ASSERT ((-1 <=? delta) && (delta <=? 1));;
        write n (with_balance (int8 (balance c - BAVL_OPTNEG deltac side)));;
        x ← transform n delta;
        ASSERT ((-1 <=? x.2) && (x.2 <=? 1));;
        c ← node x.1;
        match parent c with
        | Some p =>
            cp ← node p;
            _BAVL_rebalance fuel p (bool_decide (Some x.1 = link cp true)) x.2
        | None => mret tt
        end
  end.

Definition BAVL_Init (o : BAVL V) : BAVL V := mkBAVL None (nodes o) (values o).

(** The loops of [BAVL_Insert], [BAVL_Lookup] and [BAVL_LookupExact]: the node that
    compares equal, or the leaf and the side on which the search left it. *)
Fixpoint search (compare : Z → T Z) (fuel : nat) (c : Z) : T (Z * option bool) :=
  match fuel with
  | O => unreachable
  | S fuel =>
      comp ← compare c;
      if comp =? 0 then mret (c, None)
      else
        let side := comp =? 1 in
        cc ← node c;
        match link cc side with
        | None => mret (c, Some side)
        | Some c' => search compare fuel c'
        end
  end.
Definition compare_with (v : V) (c : Z) : T Z :=
  w ← _BAVL_node_value c; _BAVL_compare_values v w.

(** the result and [*ref], which is the equal node when there is one *)
Definition BAVL_Insert (n : Z) : T (bool * option Z) :=
  o ← get;
  match root o with
  | None =>
      set_root (Some n);;
      write n (λ _, mkNode None None None 0);;
      mret (true, None)
  | Some c =>
      x ← search (_BAVL_compare_nodes n) (fuel o) c;
      match x with
      | (c, None) => mret (false, Some c)
      | (c, Some side) =>
          write c (with_link side (Some n));;
          write n (λ _, mkNode (Some c) None None 0);;
          _BAVL_rebalance (fuel o) c side 1;;
          mret (true, Some c)
      end
  end.

(** the part of [BAVL_Remove] where the node has at most one child *)
Definition remove_node (fuel : nat) (n : Z) : T unit :=
  c ← node n;
  ASSERT (negb (not_null (link0 c) && not_null (link1 c)));;
  let child := match link0 c with Some l => Some l | None => link1 c end in
  match parent c with
  | Some p =>
      cp ← node p;
      let side := bool_decide (Some n = link cp true) in
      _BAVL_replace_subtree n child;;
      _BAVL_rebalance fuel p side (-1)
  | None => _BAVL_replace_subtree n child
  end.
Definition BAVL_Remove (n : Z) : T unit :=
  o ← get;
  c ← node n;
  (match link0 c, link1 c with
   | Some l, Some _ => max ← _BAVL_subtree_max l; _BAVL_swap_nodes n max
   | _, _ => mret tt
   end);;
  remove_node (fuel o) n.

Definition BAVL_IsEmpty : T bool := o ← get; mret (negb (not_null (root o))).

Definition BAVL_Lookup (v : V) : T (option Z) :=
  o ← get;
  match root o with
  | None => mret None
  | Some c => x ← search (compare_with v) (fuel o) c; mret (Some x.1)
  end.
Definition BAVL_LookupExact (v : V) : T (option Z) :=
  o ← get;
  match root o with
  | None => mret None
  | Some c =>
      x ← search (compare_with v) (fuel o) c;
      mret (match x.2 with None => Some x.1 | Some _ => None end)
  end.

Definition BAVL_GetFirst : T (option Z) :=
  o ← get;
  match root o with
  | None => mret None
  | Some n => n ← descend (fuel o) false n; mret (Some n)
  end.
Definition BAVL_GetLast : T (option Z) :=
  o ← get;
  match root o with
  | None => mret None
  | Some n => n ← descend (fuel o) true n; mret (Some n)
  end.

(** [while (n->parent && n == n->parent->link[side]) n = n->parent; n = n->parent] *)
Fixpoint climb (fuel : nat) (side : bool) (n : Z) : T (option Z) :=
  match fuel with
  | O => unreachable
  | S fuel =>
      c ← node n;
      match parent c with
      | None => mret None
      | Some p =>
          cp ← node p;
          if bool_decide (Some n = link cp side) then climb fuel side p else mret (Some p)
      end
  end.
Definition BAVL_GetNext (n : Z) : T (option Z) :=
  o ← get; c ← node n;
  match link c true with
  | Some m => r ← descend (fuel o) false m; mret (Some r)
  | None => climb (fuel o) true n
  end.
Definition BAVL_GetPrev (n : Z) : T (option Z) :=
  o ← get; c ← node n;
  match link c false with
  | Some m => r ← descend (fuel o) true m; mret (Some r)
  | None => climb (fuel o) false n
  end.

(** the height; the assertions are those of [ASSERT_FORCE] *)
Fixpoint _BAVL_assert_recurser (fuel : nat) (n : Z) : T Z :=
  match fuel with
  | O => unreachable
  | S fuel =>
      c ← node n;
      ASSERT (balance c >=? -1);;
      ASSERT (balance c <=? 1);;
      let check_subtree (side : bool) : T Z :=
        match link c side with
        | None => mret 0
        | Some m =>
            cm ← node m;
            ASSERT (bool_decide (parent cm = Some n));;
            comp ← _BAVL_compare_nodes m n;
            ASSERT (comp =? if side then 1 else -1);;
            _BAVL_assert_recurser fuel m
        end in
      height_left ← check_subtree false;
      height_right ← check_subtree true;
      ASSERT (balance c =? height_right - height_left);;
      mret (BAVL_MAX height_left height_right + 1)
  end.
Definition BAVL_Verify : T unit :=
  o ← get;
  match root o with
  | None => mret tt
  | Some n =>
      c ← node n;
      ASSERT (negb (not_null (parent c)));;
      _BAVL_assert_recurser (fuel o) n;;
      mret tt
  end.
End code.
