(* ===== verification/BavlShape.v ===== *)
(** * Balanced trees: the shape in memory

    The nodes of a [BAVL] in memory as a tree with a focus: a subtree and the path from it
    to the root.  [focus] says that the memory holds such a tree; the functions that change
    links are specified by the tree they turn it into. *)

From S2P Require Import Prelude CInt Bavl.

(** ** Trees *)
Inductive tree := Leaf | Node (l : tree) (n : Z) (b : Z) (r : tree).

Definition ptr (t : tree) : option Z := match t with Leaf => None | Node _ n _ _ => Some n end.
Fixpoint elems (t : tree) : list Z :=
  match t with Leaf => [] | Node l n _ r => elems l ++ n :: elems r end.
(** the node [n] with [c] on side [s] and [o] on the other *)
Definition nd (s : bool) (c : tree) (n b : Z) (o : tree) : tree :=
  if s then Node o n b c else Node c n b o.
Definition cell (par : option Z) (s : bool) (c o : option Z) (b : Z) : BAVLNode :=
  if s then mkNode par o c b else mkNode par c o b.

(** one step of the path to the root: [fn] has the hole on side [fs] and [fo] on the other *)
Record frame := Frame { fs : bool; fn : Z; fb : Z; fo : tree }.
Abbreviation ctx := (list frame).
Fixpoint plug (K : ctx) (t : tree) : tree :=
  match K with [] => t | f :: K => plug K (nd (fs f) t (fn f) (fb f) (fo f)) end.
(** the parent of the hole, and the root when the hole has the root [h] *)
Definition top (base : option Z) (K : ctx) : option Z :=
  match K with [] => base | f :: _ => Some (fn f) end.
Fixpoint rootp (h : option Z) (K : ctx) : option Z :=
  match K with [] => h | f :: K => rootp (Some (fn f)) K end.
Fixpoint celems (K : ctx) : list Z :=
  match K with [] => [] | f :: K => fn f :: elems (fo f) ++ celems K end.

(** ** Memory *)
Abbreviation mem := (gmap Z BAVLNode).

Fixpoint rep (m : mem) (par : option Z) (t : tree) : Prop :=
  match t with
  | Leaf => True
  | Node l n b r =>
      m !! n = Some (mkNode par (ptr l) (ptr r) b) ∧ rep m (Some n) l ∧ rep m (Some n) r
  end.
Fixpoint crep (m : mem) (base hole : option Z) (K : ctx) : Prop :=
  match K with
  | [] => True
  | f :: K =>
      m !! fn f = Some (cell (top base K) (fs f) hole (ptr (fo f)) (fb f)) ∧
      rep m (Some (fn f)) (fo f) ∧ crep m base (Some (fn f)) K
  end.

(** The tree is [t] in the context [K]; the other nodes are those of [m0]. *)
Record focus {V} (vs : gmap Z V) (m0 : mem) (o : BAVL V) (K : ctx) (t : tree) : Prop := {
  focus_root : root o = rootp (ptr t) K;
  focus_ctx : crep (nodes o) None (ptr t) K;
  focus_rep : rep (nodes o) (top None K) t;
  focus_nodup : NoDup (elems t ++ celems K);
  focus_values : values o = vs;
  focus_frame k : k ∉ elems t ++ celems K → nodes o !! k = m0 !! k;
}.

Lemma rep_nd m par s c n b o :
  rep m par (nd s c n b o) ↔
  m !! n = Some (cell par s (ptr c) (ptr o) b) ∧ rep m (Some n) c ∧ rep m (Some n) o.
Proof. destruct s; cbn; tauto. Qed.
Lemma elems_nd s c n b o : elems (nd s c n b o) ≡ₚ n :: elems c ++ elems o.
Proof. destruct s; cbn; by rewrite <-Permutation_middle, 1?(Permutation_app_comm (elems o)). Qed.
Lemma ptr_nd s c n b o : ptr (nd s c n b o) = Some n.
Proof. by destruct s. Qed.
Lemma nd_negb s c n b o : nd (negb s) c n b o = nd s o n b c.
Proof. by destruct s. Qed.
Lemma cell_negb par s c o b : cell par (negb s) c o b = cell par s o c b.
Proof. by destruct s. Qed.
Lemma link_cell par s c o b : link (cell par s c o b) s = c.
Proof. by destruct s. Qed.
Lemma link_cell_negb par s c o b : link (cell par s c o b) (negb s) = o.
Proof. by destruct s. Qed.
Lemma with_link_cell par s c o b q : with_link s q (cell par s c o b) = cell par s q o b.
Proof. by destruct s. Qed.
Lemma with_link_cell_negb par s c o b q : with_link (negb s) q (cell par s c o b) = cell par s c q b.
Proof. by destruct s. Qed.
Lemma with_parent_cell par s c o b q : with_parent q (cell par s c o b) = cell q s c o b.
Proof. by destruct s. Qed.
Lemma with_balance_cell par s c o b q : with_balance q (cell par s c o b) = cell par s c o q.
Proof. by destruct s. Qed.
Lemma parent_cell par s c o b : parent (cell par s c o b) = par.
Proof. by destruct s. Qed.
Lemma balance_cell par s c o b : balance (cell par s c o b) = b.
Proof. by destruct s. Qed.
#[export] Hint Rewrite rep_nd ptr_nd nd_negb cell_negb link_cell link_cell_negb with_link_cell
  with_link_cell_negb with_parent_cell with_balance_cell parent_cell balance_cell negb_involutive : bavl.

Lemma ptr_elems t n : ptr t = Some n → n ∈ elems t.
Proof. destruct t as [|l m b r]; cbn; [done|intros [= ->]; set_solver]. Qed.

(** Moving the focus *)
Lemma focus_cons {V} (vs : gmap Z V) m0 o s n b x K t :
  focus vs m0 o (Frame s n b x :: K) t ↔ focus vs m0 o K (nd s t n b x).
Proof.
  assert (elems t ++ celems (Frame s n b x :: K) ≡ₚ elems (nd s t n b x) ++ celems K) as E.
  { rewrite elems_nd. cbn. by rewrite <-Permutation_middle, <-app_assoc. }
  split; intros [Hr Hc Ht Hn Hv Hf]; split; cbn in *; autorewrite with bavl in *;
    try done; try tauto; try (by rewrite ?E, <-?E in * );
    try (intros k Hk; apply Hf; by rewrite ?E, <-?E in * ).
Qed.
Lemma focus_plug {V} (vs : gmap Z V) m0 o K t : focus vs m0 o K t ↔ focus vs m0 o [] (plug K t).
Proof.
  revert t. induction K as [|[s n b x] K IH]; intros t; cbn; [done|].
  by rewrite <-IH, focus_cons.
Qed.
Lemma plug_app K K' t : plug (K ++ K') t = plug K' (plug K t).
Proof. revert t. induction K as [|f K IH]; intros t; cbn; [done|apply IH]. Qed.

(** ** Frame rules *)
Lemma rep_ext m m' par t : rep m par t → (∀ k, k ∈ elems t → m' !! k = m !! k) → rep m' par t.
Proof.
  revert par. induction t as [|l IHl n b r IHr]; intros par; cbn; [done|].
  intros (Hn & Hl & Hr) H. split; [rewrite H; [done|set_solver]|].
  split; [apply IHl|apply IHr]; try done; intros; apply H; set_solver.
Qed.
Lemma crep_ext m m' base h K :
  crep m base h K → (∀ k, k ∈ celems K → m' !! k = m !! k) → crep m' base h K.
Proof.
  revert h. induction K as [|[s n b x] K IH]; intros h; cbn; [done|].
  intros (Hn & Hx & Hc) H. split; [rewrite H; [done|set_solver]|].
  split; [apply (rep_ext m)|apply IH]; try done; intros; apply H; set_solver.
Qed.

(** ** Writes *)

(** [p] becomes the parent of the root of [x]; [q] fills the hole of [K] *)
Definition own (p : option Z) (x : tree) (m : mem) : mem :=
  match x with Leaf => m | Node _ n _ _ => alter (with_parent p) n m end.
Definition hook (q : option Z) (K : ctx) (m : mem) : mem :=
  match K with [] => m | f :: _ => alter (with_link (fs f) q) (fn f) m end.

Lemma lookup_own_ne p x m k : k ∉ elems x → own p x m !! k = m !! k.
Proof. destruct x as [|l n b r]; cbn; [done|]. intros. apply lookup_alter_ne. set_solver. Qed.
Lemma lookup_hook_ne q K m k : k ∉ celems K → hook q K m !! k = m !! k.
Proof. destruct K as [|f K]; cbn; [done|]. intros. apply lookup_alter_ne. set_solver. Qed.

Lemma rep_own m par p x : rep m par x → NoDup (elems x) → rep (own p x m) p x.
Proof.
  destruct x as [|l n b r]; cbn; [done|]. intros (Hn & Hl & Hr) Hnd.
  apply list.NoDup_app in Hnd as (_ & Hnl & [Hnr _]%list.NoDup_cons).
  split; [by rewrite lookup_alter_eq, Hn|].
  split; (eapply rep_ext; [done|]); intros k Hk; apply lookup_alter_ne; set_solver.
Qed.
Lemma crep_hook m base h q K : crep m base h K → NoDup (celems K) → crep (hook q K m) base q K.
Proof.
  destruct K as [|[s n b x] K]; cbn; [done|]. intros (Hn & Hx & Hc) [Hnin Hnd]%list.NoDup_cons.
  split; [by rewrite lookup_alter_eq, Hn; cbn; rewrite with_link_cell|].
  split; [eapply rep_ext|eapply crep_ext]; try done; intros k Hk; apply lookup_alter_ne; set_solver.
Qed.

(** [p] becomes the parent of the outermost node of the path [K] *)
Definition rebase (p : option Z) (K : ctx) (m : mem) : mem :=
  match rootp None K with Some x => alter (with_parent p) x m | None => m end.
Lemma rootp_cons h f K : rootp h (f :: K) = rootp None (f :: K).
Proof. done. Qed.
Lemma rootp_elem h K x : rootp h K = Some x → K ≠ [] → x ∈ celems K.
Proof.
  revert h. induction K as [|f K IH]; intros h E HK; [done|]. cbn in *.
  destruct K as [|g K]; [cbn in *; set_solver|]. specialize (IH _ E). set_solver.
Qed.
Lemma lookup_rebase_ne p K m k : k ∉ celems K → rebase p K m !! k = m !! k.
Proof.
  intros Hk. unfold rebase. destruct (rootp None K) as [x|] eqn:E; [|done].
  apply lookup_alter_ne. intros ->. apply Hk. apply (rootp_elem None); [done|]. by intros ->.
Qed.
Lemma crep_rebase m base p h K : crep m base h K → NoDup (celems K) → crep (rebase p K m) p h K.
Proof.
  revert h. induction K as [|[s n b x] K IH]; intros h; cbn; [done|].
  intros (Hn & Hx & Hc) [Hnin Hnd]%list.NoDup_cons.
  assert (∀ t, elems t ⊆ elems x → rep m (Some n) t → rep (rebase p (Frame s n b x :: K) m) (Some n) t) as Hrep.
  { intros t Ht Hrep. apply (rep_ext m); [done|]. intros k Hk. unfold rebase. cbn.
    destruct K as [|g K]; [cbn; apply lookup_alter_ne; set_solver|].
    apply (lookup_rebase_ne p (g :: K)). apply list.NoDup_app in Hnd as (_ & Hd & _). apply Hd. by apply Ht. }
  split_and!; [|by apply Hrep|].
  - unfold rebase. cbn. destruct K as [|g K]; cbn in *.
    + by rewrite lookup_alter_eq, Hn; cbn; rewrite with_parent_cell.
    + rewrite <-Hn. apply (lookup_rebase_ne p (g :: K)). cbn. set_solver.
  - destruct K as [|g K]; [done|]. apply (IH (Some n)); [done|]. by apply list.NoDup_app in Hnd as (_ & _ & ?).
Qed.

Lemma crep_app m base h K f K' :
  crep m base h (K ++ f :: K') ↔ crep m (Some (fn f)) h K ∧ crep m base (rootp h K) (f :: K').
Proof.
  revert h. induction K as [|g K IH]; intros h; cbn [app crep rootp]; [cbn; tauto|].
  rewrite IH. assert (top base (K ++ f :: K') = top (Some (fn f)) K) as -> by by destruct K.
  cbn. tauto.
Qed.
Lemma celems_app K K' : celems (K ++ K') = celems K ++ celems K'.
Proof. induction K as [|f K IH]; cbn; [done|]. by rewrite IH, <-app_assoc. Qed.
Lemma rootp_app h K K' : rootp h (K ++ K') = rootp (rootp h K) K'.
Proof. revert h. induction K; intros h; cbn; auto. Qed.

Section runs.
Context {V : Type} (r : option Z) (vs : gmap Z V).
Abbreviation T := (M (BAVL V) Empty_set).
Abbreviation st m := (mkBAVL r m vs).

Lemma node_run m n c : m !! n = Some c → node n (st m) = Some (c, st m, []).
Proof. intros H. unfold node. m_step. cbn. by rewrite H. Qed.
Lemma write_node_run m n f c : m !! n = Some c → write n f (st m) = Some (tt, st (alter f n m), []).
Proof. intros H. unfold write. m_run (node_run m n c H). done. Qed.
Lemma set_parent_of_run m par x p :
  rep m par x → set_parent_of (ptr x) p (st m) = Some (tt, st (own p x m), []).
Proof. destruct x as [|l n b y]; cbn; [done|]. intros [H _]. by eapply write_node_run. Qed.
Lemma adopt_run m n s c par x :
  m !! n = Some c → rep m par x → n ∉ elems x →
  adopt n s (ptr x) (st m) = Some (tt, st (own (Some n) x (alter (with_link s (ptr x)) n m)), []).
Proof.
  intros Hn Hx Hnin. unfold adopt. m_run (write_node_run m n (with_link s (ptr x)) c Hn).
  apply (set_parent_of_run _ par). apply (rep_ext m); [done|].
  intros k Hk. apply lookup_alter_ne. set_solver.
Qed.
Lemma hook_run m n q base K :
  crep m base (Some n) K → n ∉ celems K → K ≠ [] →
  replace_child (top base K) n q (st m) = Some (tt, st (hook q K m), []).
Proof.
  destruct K as [|[s a b x] K]; cbn; [done|]. intros (Ha & Hx & _) Hnin _.
  m_run (node_run _ _ _ Ha). rewrite (write_node_run _ _ _ _ Ha).
  replace (bool_decide _) with s; [done|]. symmetry.
  destruct s; cbn; [by apply bool_decide_eq_true|]. apply bool_decide_eq_false. intros E.
  symmetry in E. apply ptr_elems in E. set_solver.
Qed.
Lemma rebase_run m n s c base h K :
  m !! n = Some c → crep m base h K → K ≠ [] → n ∉ celems K →
  adopt n s (rootp None K) (st m) =
    Some (tt, st (rebase (Some n) K (alter (with_link s (rootp None K)) n m)), []).
Proof.
  intros Hn Hc HK Hnin. unfold adopt. m_run (write_node_run m n (with_link s (rootp None K)) c Hn).
  assert (∃ x cx, rootp None K = Some x ∧ m !! x = Some cx) as (x & cx & E & Hx).
  { clear -HK Hc. revert h Hc. induction K as [|[s n b x] K IH]; intros h; [done|].
    cbn. intros (Hn & _ & Hc). destruct K as [|g K]; [cbn; eauto|]. by eapply IH. }
  unfold rebase. rewrite E. cbn.
  apply (write_node_run _ _ _ cx). rewrite lookup_alter_ne; [done|]. intros ->. apply Hnin.
  by eapply rootp_elem.
Qed.
Lemma replace_child_run m n q K :
  crep m None (Some n) K → n ∉ celems K → r = rootp (Some n) K →
  replace_child (top None K) n q (st m) = Some (tt, mkBAVL (rootp q K) (hook q K m) vs, []).
Proof.
  destruct K as [|f K]; [by cbn; intros _ _ ->|]. intros Hc Hnin Hr.
  rewrite (hook_run m n q None) by done. by rewrite Hr.
Qed.
End runs.

(** Disjointness, lookups and frames *)
Definition apart (A B : list Z) : Prop := ∀ k, k ∈ A → k ∉ B.
Lemma NoDup_apart A B : NoDup (A ++ B) ↔ NoDup A ∧ apart A B ∧ NoDup B.
Proof. apply list.NoDup_app. Qed.
Lemma apart_app A B C : apart A (B ++ C) ↔ apart A B ∧ apart A C.
Proof. unfold apart. set_solver. Qed.
Lemma apart_cons A n C : apart A (n :: C) ↔ n ∉ A ∧ apart A C.
Proof. unfold apart. set_solver. Qed.
Ltac split_nodup :=
  repeat match goal with
    | H : NoDup (_ :: _) |- _ => apply list.NoDup_cons in H as [? H]
    | H : NoDup (_ ++ _) |- _ => apply NoDup_apart in H as (? & ? & H)
    | H : apart _ (_ ++ _) |- _ => apply apart_app in H as [? H]
    | H : apart _ (_ :: _) |- _ => apply apart_cons in H as [? H]
    | H : _ ∉ _ ++ _ |- _ => apply not_elem_of_app in H as [? H]
    | H : _ ∉ _ :: _ |- _ => apply not_elem_of_cons in H as [? H]
    end.
Ltac sep :=
  first
    [ assumption | done
    | intros ->; contradiction | intros <-; contradiction
    | match goal with
      | Hk : ?k ∈ ?A, D : apart ?A ?B |- ?k ∉ ?B => exact (D k Hk)
      | Hk : ?k ∈ ?A, D : apart ?B ?A |- ?k ∉ ?B => intros ?; by eapply D
      end ].
Ltac look :=
  repeat first
    [ rewrite lookup_alter_eq | rewrite lookup_alter_ne by sep
    | rewrite lookup_own_ne by sep | rewrite lookup_hook_ne by sep
    | rewrite lookup_rebase_ne by sep ].

Lemma apart_sym A B : apart A B → apart B A.
Proof. intros H k Hb Ha. by eapply H. Qed.
Lemma rep_alter m f n par t : rep m par t → n ∉ elems t → rep (alter f n m) par t.
Proof. intros H ?. apply (rep_ext m); [done|]. intros k Hk. by look. Qed.
Lemma rep_own_apart m p x par t : rep m par t → apart (elems x) (elems t) → rep (own p x m) par t.
Proof. intros H ?. apply (rep_ext m); [done|]. intros k Hk. by look. Qed.
Lemma rep_hook_apart m q K par t : rep m par t → apart (celems K) (elems t) → rep (hook q K m) par t.
Proof. intros H ?. apply (rep_ext m); [done|]. intros k Hk. by look. Qed.
Lemma crep_alter m f n base h K : crep m base h K → n ∉ celems K → crep (alter f n m) base h K.
Proof. intros H ?. apply (crep_ext m); [done|]. intros k Hk. by look. Qed.
Lemma crep_own m p x base h K : crep m base h K → apart (elems x) (celems K) → crep (own p x m) base h K.
Proof. intros H ?. apply (crep_ext m); [done|]. intros k Hk. by look. Qed.
Lemma crep_hook_apart m q K' base h K :
  crep m base h K → apart (celems K') (celems K) → crep (hook q K' m) base h K.
Proof. intros H ?. apply (crep_ext m); [done|]. intros k Hk. by look. Qed.
Lemma rep_rebase m p K par t : rep m par t → apart (celems K) (elems t) → rep (rebase p K m) par t.
Proof. intros H ?. apply (rep_ext m); [done|]. intros k Hk. by look. Qed.
Lemma crep_rebase_apart m p K' base h K :
  crep m base h K → apart (celems K') (celems K) → crep (rebase p K' m) base h K.
Proof. intros H ?. apply (crep_ext m); [done|]. intros k Hk. by look. Qed.

(** What the memory holds after writes: each write is to the part or beside it. *)
Ltac held :=
  lazymatch goal with
  | |- rep (alter _ _ _) _ _ => apply rep_alter; held
  | |- rep (own _ ?x _) _ ?x => eapply rep_own; held
  | |- rep (own _ _ _) _ _ => apply rep_own_apart; held
  | |- rep (hook _ _ _) _ _ => apply rep_hook_apart; held
  | |- crep (alter _ _ _) _ _ _ => apply crep_alter; held
  | |- crep (own _ _ _) _ _ _ => apply crep_own; held
  | |- crep (hook _ ?K _) _ _ ?K => eapply crep_hook; held
  | |- crep (hook _ _ _) _ _ _ => apply crep_hook_apart; held
  | |- rep (rebase _ _ _) _ _ => apply rep_rebase; held
  | |- crep (rebase _ ?K _) _ _ ?K => eapply crep_rebase; held
  | |- crep (rebase _ _ _) _ _ _ => apply crep_rebase_apart; held
  | |- apart _ _ => first [assumption | apply apart_sym; assumption]
  | |- _ !! _ = _ =>
      look; first [eassumption | reflexivity
        | match goal with H : _ = Some _ |- _ => rewrite H; cbn; autorewrite with bavl; reflexivity end ]
  | |- _ => first [eassumption | sep]
  end.
(** one step of a run, by the lemma about it *)
Tactic Notation "go" uconstr(lem) := erewrite M_bind_run0; [|eapply lem; held]; cbn beta iota.

Lemma rotate_spec {V} (vs : gmap Z V) m0 o K dir a r br x nr bn y :
  focus vs m0 o K (nd dir a r br (nd dir x nr bn y)) →
  ∃ o', _BAVL_rotate r dir o = Some (tt, o', []) ∧
    focus vs m0 o' K (nd dir (nd dir a r br x) nr bn y).
Proof.
  destruct o as [rt m vs']. intros [Hr Hc Ht Hn Hv Hf]. cbn in *. subst vs'.
  autorewrite with bavl in *. destruct Ht as (Hmr & Ha & (Hmn & Hx & Hy)).
  assert (elems (nd dir (nd dir a r br x) nr bn y) ≡ₚ elems (nd dir a r br (nd dir x nr bn y))) as E.
  { rewrite !elems_nd. solve_Permutation. }
  assert (NoDup (nr :: r :: elems a ++ elems x ++ elems y ++ celems K)) as Hn'.
  { rewrite <-E, !elems_nd in Hn. cbn in Hn. by rewrite <-!app_assoc in Hn. }
  split_nodup.
  unfold _BAVL_rotate.
  go node_run. rewrite link_cell_negb. m_step.
  go node_run. rewrite link_cell.
  go adopt_run. go write_node_run. go node_run. rewrite parent_cell.
  go write_node_run. go replace_child_run. erewrite write_node_run by held.
  eexists. split; [reflexivity|]. split; cbn; autorewrite with bavl; try done.
  - held.
  - repeat split; held.
  - rewrite E. apply NoDup_apart. auto.
  - intros k Hk. rewrite E in Hk. rewrite <-Hf by done. apply not_elem_of_app in Hk as [Hk ?].
    rewrite !elems_nd in Hk. split_nodup. by look.
Qed.

(** ** Swapping a node with a descendant

    [n1] is in the context [K1]; on its side [s] the path [K2] leads to [n2]. *)
Definition parts (m : mem) (K1 : ctx) (s : bool) (n1 : Z) (o : tree) (b1 : Z)
    (K2 : ctx) (n2 : Z) (l r : tree) (b2 : Z) : Prop :=
  crep m None (Some n1) K1 ∧ m !! n1 = Some (cell (top None K1) s (rootp (Some n2) K2) (ptr o) b1) ∧
  rep m (Some n1) o ∧ crep m (Some n1) (Some n2) K2 ∧
  m !! n2 = Some (mkNode (top (Some n1) K2) (ptr l) (ptr r) b2) ∧
  rep m (Some n2) l ∧ rep m (Some n2) r.
(** their nodes, of which there are no others *)
Definition part_elems (K1 : ctx) (n1 : Z) (o : tree) (K2 : ctx) (n2 : Z) (l r : tree) : list Z :=
  n1 :: n2 :: elems l ++ elems r ++ elems o ++ celems K2 ++ celems K1.

Section swap.
Context {V : Type} (vs : gmap Z V).
Context (m : mem) (K1 : ctx) (s : bool) (n1 : Z) (o : tree) (b1 : Z).
Context (K2 : ctx) (n2 : Z) (l r : tree) (b2 : Z).
Hypothesis Hp : parts m K1 s n1 o b1 K2 n2 l r b2.
Hypothesis Hn : NoDup (part_elems K1 n1 o K2 n2 l r).
Abbreviation st m := (mkBAVL (rootp (Some n1) K1) m vs).

Lemma swap_connected_run :
  K2 = [] →
  ∃ m', swap_connected n1 n2 (st m) = Some (tt, mkBAVL (rootp (Some n2) K1) m' vs, []) ∧
    parts m' K1 s n2 o b2 K2 n1 l r b1 ∧
    ∀ k, k ∉ part_elems K1 n1 o K2 n2 l r → m' !! k = m !! k.
Proof.
  intros HK. destruct Hp as (Hc1 & Hm1 & Ho & _ & Hm2 & Hl & Hr). unfold part_elems in *.
  rewrite HK in *. cbn [top rootp celems app] in *. split_nodup.
  unfold swap_connected.
  go node_run.
  replace (bool_decide _) with s.
  2: { symmetry. destruct s; cbn; [by apply bool_decide_eq_true|]. apply bool_decide_eq_false.
    intros E. symmetry in E. apply ptr_elems in E. contradiction. }
  rewrite link_cell_negb.
  go node_run. cbn [link link0 link1]. go adopt_run.
  go node_run. cbn [link link0 link1]. go adopt_run.
  go node_run. cbn [parent]. go write_node_run. go replace_child_run. go write_node_run. go write_node_run.
  erewrite adopt_run by held.
  eexists. split; [reflexivity|].
  split; [|intros k Hk; split_nodup; by look].
  unfold parts. cbn [crep top rootp]. split_and!; try done; try held.
  look. rewrite Hm2. by destruct s.
Qed.

Lemma swap_apart_run :
  K2 ≠ [] →
  ∃ m', swap_apart n1 n2 (st m) = Some (tt, mkBAVL (rootp (Some n2) K1) m' vs, []) ∧
    parts m' K1 s n2 o b2 K2 n1 l r b1 ∧
    ∀ k, k ∉ part_elems K1 n1 o K2 n2 l r → m' !! k = m !! k.
Proof.
  intros HK. destruct Hp as (Hc1 & Hm1 & Ho & Hc2 & Hm2 & Hl & Hr). unfold part_elems in *.
  assert (∀ h, rootp h K2 = rootp None K2) as Hroot by (by destruct K2). rewrite Hroot in Hm1.
  assert (∀ h h', top h K2 = top h' K2) as Htop by (by destruct K2).
  split_nodup. unfold swap_apart, swap_children.
  go node_run. go node_run. cbn [parent]. rewrite parent_cell.
  go write_node_run. go hook_run. go write_node_run. go replace_child_run.
  destruct s; cbn [cell] in *;
    (rewrite M_bind_assoc; go node_run; rewrite M_bind_assoc; go node_run; rewrite M_bind_assoc; cbn;
     go adopt_run; first [go adopt_run | go rebase_run]; go node_run; go node_run; cbn;
     go adopt_run; first [erewrite adopt_run by held | erewrite rebase_run by held];
     eexists; split; [reflexivity|]; split; [|intros k Hk; split_nodup; by look];
     unfold parts; rewrite ?(Hroot (Some n1)), ?(Htop (Some n2) (Some n1));
     split_and!; try done; held).
Qed.
End swap.

Lemma focus_parts {V} (vs : gmap Z V) m0 o K1 s n1 x b1 K2 n2 l r b2 :
  focus vs m0 o (K2 ++ Frame s n1 b1 x :: K1) (Node l n2 b2 r) ↔
  root o = rootp (Some n1) K1 ∧ parts (nodes o) K1 s n1 x b1 K2 n2 l r b2 ∧
  NoDup (part_elems K1 n1 x K2 n2 l r) ∧ values o = vs ∧
  ∀ k, k ∉ part_elems K1 n1 x K2 n2 l r → nodes o !! k = m0 !! k.
Proof.
  assert (elems (Node l n2 b2 r) ++ celems (K2 ++ Frame s n1 b1 x :: K1) ≡ₚ
    part_elems K1 n1 x K2 n2 l r) as E.
  { unfold part_elems. rewrite celems_app. cbn. solve_Permutation. }
  assert (top None (K2 ++ Frame s n1 b1 x :: K1) = top (Some n1) K2) as Htop by by destruct K2.
  unfold parts. split.
  - intros [Hr Hc Ht Hn Hv Hf]. rewrite rootp_app in Hr. apply crep_app in Hc. rewrite E in Hn.
    cbn in *. rewrite Htop in Ht. split_and!; try tauto. intros k Hk. apply Hf. by rewrite E.
  - intros (Hr & Hp & Hn & Hv & Hf). rewrite <-E in Hn. split; try done.
    + by rewrite rootp_app.
    + rewrite crep_app. cbn. tauto.
    + cbn. rewrite Htop. tauto.
    + intros k Hk. apply Hf. by rewrite <-E.
Qed.

Lemma swap_balances_run {V} r (vs : gmap Z V) m K1 s n1 o b1 K2 n2 l t b2 :
  parts m K1 s n1 o b1 K2 n2 l t b2 → NoDup (part_elems K1 n1 o K2 n2 l t) →
  ∃ m', swap_balances n2 n1 (mkBAVL r m vs) = Some (tt, mkBAVL r m' vs, []) ∧
    parts m' K1 s n1 o b2 K2 n2 l t b1 ∧
    ∀ k, k ∉ part_elems K1 n1 o K2 n2 l t → m' !! k = m !! k.
Proof.
  intros (Hc1 & Hm1 & Ho & Hc2 & Hm2 & Hl & Ht) Hn. unfold part_elems in *. split_nodup.
  unfold swap_balances. go node_run. go node_run. go write_node_run. erewrite write_node_run by held. cbn.
  rewrite ?balance_cell. eexists. split; [reflexivity|]. split; [|intros k Hk; split_nodup; by look].
  unfold parts. split_and!; held.
Qed.

Lemma swap_nodes_spec {V} (vs : gmap Z V) m0 o K1 s n1 x b1 K2 n2 l r b2 :
  focus vs m0 o (K2 ++ Frame s n1 b1 x :: K1) (Node l n2 b2 r) →
  ∃ o', _BAVL_swap_nodes n1 n2 o = Some (tt, o', []) ∧
    focus vs m0 o' (K2 ++ Frame s n2 b1 x :: K1) (Node l n1 b2 r).
Proof.
  destruct o as [rt m vs']. rewrite focus_parts. cbn [root nodes values].
  intros (-> & Hp & Hn & -> & Hf).
  assert (part_elems K1 n2 x K2 n1 l r ≡ₚ part_elems K1 n1 x K2 n2 l r) as E by apply perm_swap.
  pose proof Hp as (_ & Hm1 & _ & _ & Hm2 & _).
  assert (n1 ≠ n2 ∧ n2 ∉ celems K1 ∧ n1 ∉ celems K2) as (Hne & Hn2 & Hn1).
  { clear -Hn. unfold part_elems in Hn. split_nodup. auto. }
  assert (∃ m', (if bool_decide (top (Some n1) K2 = Some n1) || bool_decide (top None K1 = Some n2)
    then if bool_decide (top None K1 = Some n2) then swap_connected n2 n1 else swap_connected n1 n2
    else swap_apart n1 n2) (mkBAVL (rootp (Some n1) K1) m vs) =
      Some (tt, mkBAVL (rootp (Some n2) K1) m' vs, []) ∧
    parts m' K1 s n2 x b2 K2 n1 l r b1 ∧
    ∀ k, k ∉ part_elems K1 n1 x K2 n2 l r → m' !! k = m !! k) as (m' & Hrun & Hp' & Hf').
  { rewrite (bool_decide_eq_false_2 (top None K1 = _)).
    2: { destruct K1 as [|f K1]; cbn in *; [done|]. set_solver. }
    destruct K2 as [|f K2'] eqn:EK.
    - rewrite bool_decide_eq_true_2 by done. by apply swap_connected_run.
    - rewrite bool_decide_eq_false_2 by (cbn in *; set_solver). by apply swap_apart_run. }
  rewrite <-E in Hn.
  destruct (swap_balances_run (rootp (Some n2) K1) vs m' _ _ _ _ _ _ _ _ _ _ Hp' Hn) as (m'' & Hb & Hp'' & Hf'').
  exists (mkBAVL (rootp (Some n2) K1) m'' vs). split.
  - unfold _BAVL_swap_nodes. go node_run. go node_run. rewrite parent_cell. cbn [parent].
    m_run Hrun. exact Hb.
  - apply focus_parts. cbn. split_and!; try done.
    intros k Hk. rewrite Hf'' by done. rewrite E in Hk. rewrite Hf' by done. by apply Hf.
Qed.
