(* ===== verification/BavlBalance.v ===== *)
(** * Balanced trees: balance

    The AVL invariant, [_BAVL_rebalance], and the height of a tree.  A subtree whose height
    changed by [deltac] is put right on the way to the root. *)

From S2P Require Import Prelude CInt Bavl BavlShape.

Fixpoint height (t : tree) : Z :=
  match t with Leaf => 0 | Node l _ _ r => 1 + Z.max (height l) (height r) end.
Fixpoint avl (t : tree) : Prop :=
  match t with
  | Leaf => True
  | Node l _ b r => avl l ∧ avl r ∧ b = height r - height l ∧ -1 ≤ b ≤ 1
  end.
Definition sg (s : bool) : Z := if s then 1 else -1.
(** the path [K] is balanced when its hole has the height [h] *)
Fixpoint cbal (h : Z) (K : ctx) : Prop :=
  match K with
  | [] => True
  | f :: K =>
      avl (fo f) ∧ fb f = sg (fs f) * (h - height (fo f)) ∧ -1 ≤ fb f ≤ 1 ∧
      cbal (1 + Z.max h (height (fo f))) K
  end.

Lemma height_nonneg t : 0 ≤ height t.
Proof. induction t; cbn; lia. Qed.
Lemma height_nd s c n b o : height (nd s c n b o) = 1 + Z.max (height c) (height o).
Proof. destruct s; cbn; lia. Qed.
Lemma avl_nd s c n b o :
  avl (nd s c n b o) ↔ avl c ∧ avl o ∧ b = sg s * (height c - height o) ∧ -1 ≤ b ≤ 1.
Proof. destruct s; cbn; split; intros; split_and!; try tauto; lia. Qed.
Lemma nd_inv s t : t ≠ Leaf → ∃ c n b o, t = nd s c n b o.
Proof. destruct t as [|l n b r]; [done|]. destruct s; [by exists r, n, b, l|by exists l, n, b, r]. Qed.
Lemma cbal_plug h K t : cbal h K → avl t → height t = h → avl (plug K t).
Proof.
  revert h t. induction K as [|[s n b x] K IH]; intros h t; cbn; [done|].
  intros (Hx & Hb & Hb' & Hc) Ht <-. eapply IH; [done| |by rewrite height_nd].
  apply avl_nd. auto.
Qed.
Lemma plug_cbal K t : avl (plug K t) → avl t ∧ cbal (height t) K.
Proof.
  revert t. induction K as [|[s n b x] K IH]; intros t; cbn; [done|].
  intros [(Ht & Hx & Hb & Hb')%avl_nd Hc]%IH. rewrite height_nd in Hc. auto.
Qed.

Lemma elems_plug K t t' : elems t = elems t' → elems (plug K t) = elems (plug K t').
Proof.
  revert t t'. induction K as [|[s n b x] K IH]; intros t t' E; cbn; [done|].
  apply IH. destruct s; cbn; by rewrite E.
Qed.

Lemma int8_small x : -128 ≤ x < 128 → int8 x = x.
Proof.
  unfold int8, u8. intros H. destruct (decide (0 ≤ x)) as [Hx|Hx].
  - rewrite Z.mod_small by lia. zcase.
  - rewrite <-(Z.mod_add x 1), Z.mod_small by lia. zcase.
Qed.

(** heights, balances and the order of the elements after a rotation *)
Ltac solve_shape :=
  cbn [sg negb] in *; split_and!; try done; try lia; cbn;
  repeat (rewrite <-?app_assoc; cbn [app]); first [done | lia].

(** the new balances, for each balance [b] of the node that goes up *)
Ltac eval_balances s b :=
  assert (b = -1 ∨ b = 0 ∨ b = 1) as [-> | [-> | ->]] by lia; destruct s; cbn [sg negb] in *;
  repeat match goal with
    | |- context [int8 ?e] => let v := eval vm_compute in (int8 e) in change (int8 e) with v
    end.

(** A balanced tree of height [h] has at least [2 ^ (h / 2) - 1] nodes. *)
Lemma avl_size t : avl t → 2 ^ height t ≤ (zlen (elems t) + 1) * (zlen (elems t) + 1).
Proof.
  induction t as [|l IHl n b r IHr]; cbn; [done|]. intros (Hl & Hr & -> & Hb).
  specialize (IHl Hl). specialize (IHr Hr). rewrite zlen_app, zlen_cons.
  pose proof (zlen_nonneg (elems l)). pose proof (zlen_nonneg (elems r)).
  pose proof (height_nonneg l). pose proof (height_nonneg r).
  set (x := zlen (elems l) + 1) in *. set (y := zlen (elems r) + 1) in *.
  replace (zlen (elems l) + (1 + zlen (elems r)) + 1) with (x + y) by lia.
  set (h := Z.min (height l) (height r)).
  assert (2 ^ (1 + Z.max (height l) (height r)) ≤ 2 ^ height l + 2 ^ height r + 2 * 2 ^ h).
  { destruct (decide (height l = height r)) as [E|E].
    - replace h with (height l) by lia. rewrite <-E, Z.max_id, Z.pow_add_r by lia. lia.
    - destruct (decide (height l < height r)).
      + replace (Z.max _ _) with (h + 1) by lia. replace (height r) with (h + 1) by lia.
        replace (height l) with h by lia. rewrite !Z.pow_add_r by lia. lia.
      + replace (Z.max _ _) with (h + 1) by lia. replace (height l) with (h + 1) by lia.
        replace (height r) with h by lia. rewrite !Z.pow_add_r by lia. lia. }
  assert (2 ^ h ≤ x * y).
  { assert (0 < 2 ^ h) by (apply Z.pow_pos_nonneg; lia).
    assert (2 ^ h ≤ 2 ^ height l) by (apply Z.pow_le_mono_r; lia).
    assert (2 ^ h ≤ 2 ^ height r) by (apply Z.pow_le_mono_r; lia).
    apply Z.square_le_simpl_nonneg; [lia|]. nia. }
  nia.
Qed.
Lemma avl_height t : avl t → height t ≤ 2 * Z.log2 (zlen (elems t) + 1) + 1.
Proof.
  intros H%avl_size. pose proof (zlen_nonneg (elems t)). pose proof (height_nonneg t).
  assert (height t ≤ Z.log2 ((zlen (elems t) + 1) * (zlen (elems t) + 1))) by (apply Z.log2_le_pow2; lia).
  pose proof (Z.log2_mul_above (zlen (elems t) + 1) (zlen (elems t) + 1)). lia.
Qed.

Section balance.
Context {V : Type} (vs : gmap Z V) (m0 : mem).
Abbreviation Focus := (focus vs m0).

Lemma focus_up o s n b x K t : Focus o (Frame s n b x :: K) t → Focus o K (nd s t n b x).
Proof. apply focus_cons. Qed.
Lemma focus_down o s n b x K t : Focus o K (nd s t n b x) → Focus o (Frame s n b x :: K) t.
Proof. apply focus_cons. Qed.
Lemma node_focus o K s c n b x :
  Focus o K (nd s c n b x) →
  nodes o !! n = Some (cell (top None K) s (ptr c) (ptr x) b).
Proof. intros [_ _ Ht _ _ _]. apply rep_nd in Ht. tauto. Qed.
Lemma node_focus_run o K s c n b x :
  Focus o K (nd s c n b x) → node n o = Some (cell (top None K) s (ptr c) (ptr x) b, o, []).
Proof. intros H. destruct o. by apply node_run, (node_focus _ _ _ _ _ _ _ H). Qed.

Lemma set_balance_spec o K s c n b x b' :
  Focus o K (nd s c n b x) →
  ∃ o', write n (with_balance b') o = Some (tt, o', []) ∧ Focus o' K (nd s c n b' x).
Proof.
  intros H. pose proof (node_focus _ _ _ _ _ _ _ H) as Hm. destruct H as [Hr Hc Ht Hn Hv Hf].
  destruct o as [r m vs']. cbn in *. autorewrite with bavl in *. destruct Ht as (_ & Hcr & Hx).
  assert (elems (nd s c n b' x) = elems (nd s c n b x)) as E by by destruct s.
  pose proof Hn as Hn'. rewrite elems_nd in Hn'. cbn in Hn'. rewrite <-app_assoc in Hn'. split_nodup.
  eexists. split; [by eapply write_node_run|]. split; cbn; autorewrite with bavl; rewrite ?E; try done.
  - held.
  - split_and!; held.
  - apply NoDup_apart. auto.
  - intros k Hk. rewrite <-Hf by done. rewrite elems_nd in Hk. split_nodup. by look.
Qed.

Lemma set_balance_l o K s y a ba n b z b' :
  Focus o K (nd s y a ba (nd s z n b b')) → ∀ q,
  ∃ o', write n (with_balance q) o = Some (tt, o', []) ∧ Focus o' K (nd s y a ba (nd s z n q b')).
Proof.
  intros H q. rewrite <-nd_negb in H. apply focus_down in H.
  destruct (set_balance_spec _ _ _ _ _ _ _ q H) as (o' & Hrun & H'). exists o'. split; [done|].
  rewrite <-nd_negb. by apply focus_up.
Qed.
Lemma set_balance_r o K s y n b x a ba d :
  Focus o K (nd s (nd s y n b x) a ba d) → ∀ q,
  ∃ o', write n (with_balance q) o = Some (tt, o', []) ∧ Focus o' K (nd s (nd s y n q x) a ba d).
Proof.
  intros H q. apply focus_down in H.
  destruct (set_balance_spec _ _ _ _ _ _ _ q H) as (o' & Hrun & H'). exists o'. split; [done|].
  by apply focus_up.
Qed.
(** the rotation away from the side [s] *)
Lemma rotate_away o K s y c bc x n b d :
  Focus o K (nd s (nd s y c bc x) n b d) →
  ∃ o', _BAVL_rotate n (negb s) o = Some (tt, o', []) ∧ Focus o' K (nd s y c bc (nd s x n b d)).
Proof.
  intros H. rewrite <-(nd_negb s d), <-(nd_negb s x) in H.
  destruct (rotate_spec _ _ _ _ _ _ _ _ _ _ _ _ H) as (o' & Hrun & H').
  exists o'. by rewrite !nd_negb in H'.
Qed.

(** A subtree that is too high on the side [bs] is rotated. *)
Lemma transform_spec o K bs c n d delta :
  Focus o K (nd bs c n (2 * sg bs) d) → avl c → avl d → height c = height d + 2 → 0 ≤ delta ≤ 1 →
  ∃ o' n' t, transform n delta o = Some ((n', delta + (height t - (1 + height c))), o', []) ∧
    Focus o' K t ∧ ptr t = Some n' ∧ avl t ∧
    elems t = elems (nd bs c n (2 * sg bs) d) ∧ height t ≤ 1 + height c ≤ height t + 1.
Proof.
  intros H Hc Hd Hh Hdelta. pose proof (height_nonneg d) as Hd0.
  unfold transform. rewrite (M_bind_run0 _ _ _ _ _ (node_focus_run _ _ _ _ _ _ _ H)).
  rewrite balance_cell.
  replace ((2 * sg bs =? 2) || (2 * sg bs =? -2)) with true by by destruct bs.
  replace (2 * sg bs =? 2) with bs by by destruct bs. change (if bs then 1 else -1) with (sg bs).
  destruct (nd_inv bs c) as (y & child & bc & x & ->); [intros ->; cbn in Hh; lia|].
  apply avl_nd in Hc as (Hy & Hx & Hbc & Hbc'). rewrite height_nd in Hh.
  rewrite link_cell, ptr_nd. m_step.
  assert (Focus o (Frame bs n (2 * sg bs) d :: K) (nd bs y child bc x)) as Hchild by by apply focus_down.
  rewrite (M_bind_run0 _ _ _ _ _ (node_focus_run _ _ _ _ _ _ _ Hchild)). rewrite balance_cell.
  assert (bc * sg bs = height y - height x) as -> by (destruct bs; cbn in *; lia).
  destruct (Z.eqb_spec (height y - height x) 1) as [E1|E1];
    [|destruct (Z.eqb_spec (height y - height x) 0) as [E0|E0]].
  - destruct (rotate_away _ _ _ _ _ _ _ _ _ _ H) as (o1 & Hr1 & H1). m_run Hr1.
    destruct (set_balance_l _ _ _ _ _ _ _ _ _ _ H1 0) as (o2 & Hr2 & H2). m_run Hr2.
    destruct (set_balance_spec _ _ _ _ _ _ _ 0 H2) as (o3 & Hr3 & H3). m_run Hr3.
    rewrite int8_small by lia. eexists _, _, _. split; [|split; [exact H3|]].
    { unfold mret, M_ret. repeat f_equal. rewrite !height_nd. lia. }
    rewrite ptr_nd, !avl_nd, !height_nd. destruct bs; solve_shape.
  - destruct (rotate_away _ _ _ _ _ _ _ _ _ _ H) as (o1 & Hr1 & H1). m_run Hr1.
    destruct (set_balance_l _ _ _ _ _ _ _ _ _ _ H1 (sg bs)) as (o2 & Hr2 & H2).
    destruct (set_balance_spec _ _ _ _ _ _ _ (- sg bs) H2) as (o3 & Hr3 & H3).
    replace (int8 (1 * sg bs)) with (sg bs) by by destruct bs. m_run Hr2.
    replace (int8 (-1 * sg bs)) with (- sg bs) by by destruct bs. m_run Hr3.
    eexists _, _, _. split; [|split; [exact H3|]].
    { unfold mret, M_ret. repeat f_equal. rewrite !height_nd. lia. }
    rewrite ptr_nd, !avl_nd, !height_nd. destruct bs; solve_shape.
  - assert (height y - height x = -1) as E2 by (destruct bs; cbn in *; lia). rewrite E2. cbn [Z.eqb Pos.eqb].
    destruct (nd_inv bs x) as (p & g & bg & q & ->); [intros ->; pose proof (height_nonneg y); cbn in *; lia|].
    apply avl_nd in Hx as (Hp & Hq & Hbg & Hbg'). rewrite height_nd in *.
    rewrite link_cell_negb, ptr_nd. m_step.
    destruct (rotate_spec _ _ _ _ _ _ _ _ _ _ _ _ Hchild) as (o1 & Hr1 & H1). m_run Hr1.
    apply focus_up in H1.
    destruct (rotate_away _ _ _ _ _ _ _ _ _ _ H1) as (o2 & Hr2 & H2). m_run Hr2.
    rewrite (M_bind_run0 _ _ _ _ _ (node_focus_run _ _ _ _ _ _ _ H2)). rewrite balance_cell.
    match goal with |- context [write n (with_balance ?b)] =>
      destruct (set_balance_l _ _ _ _ _ _ _ _ _ _ H2 b) as (o3 & Hr3 & H3) end. m_run Hr3.
    match goal with |- context [write child (with_balance ?b)] =>
      destruct (set_balance_r _ _ _ _ _ _ _ _ _ _ H3 b) as (o4 & Hr4 & H4) end. m_run Hr4.
    destruct (set_balance_spec _ _ _ _ _ _ _ 0 H4) as (o5 & Hr5 & H5). m_run Hr5.
    rewrite int8_small by lia. eexists _, _, _. split; [|split; [exact H5|]].
    { unfold mret, M_ret. repeat f_equal. rewrite !height_nd. lia. }
    rewrite ptr_nd, !avl_nd, !height_nd. clear Hbc. eval_balances bs bg; solve_shape.
Qed.

Lemma transform_balanced o K s t n x delta h0 :
  let b := sg s * (height t - height x) in
  Focus o K (nd s t n b x) → avl t → avl x → -2 ≤ b ≤ 2 →
  delta = 1 + Z.max (height t) (height x) - h0 → -1 ≤ delta ≤ 1 → (b = 2 ∨ b = -2 → 0 ≤ delta) →
  ∃ o' n' t', transform n delta o = Some ((n', height t' - h0), o', []) ∧
    Focus o' K t' ∧ ptr t' = Some n' ∧ avl t' ∧ elems t' = elems (nd s t n b x) ∧
    -1 ≤ height t' - h0 ≤ 1.
Proof.
  intros b H Ht Hx Hb -> Hdelta Hpos.
  destruct (decide (b = 2 ∨ b = -2)) as [E|E].
  - assert (∃ bs c d, nd s t n b x = nd bs c n (2 * sg bs) d ∧ avl c ∧ avl d ∧
      height c = height d + 2 ∧ height c = Z.max (height t) (height x)) as (bs & c & d & Hnd & Hc & Hd & Hh & Hm).
    { destruct (decide (height x < height t)); [exists s, t, x|exists (negb s), x, t]; rewrite ?nd_negb;
        subst b; destruct s; cbn [sg negb] in *; split_and!; try done; try lia; f_equal; lia. }
    rewrite Hnd in *. specialize (Hpos E).
    destruct (transform_spec o K bs c n d (1 + Z.max (height t) (height x) - h0))
      as (o' & n' & t' & Hrun & HF & Hp & Ha & He & Hb'); try done; [lia|].
    exists o', n', t'. rewrite Hrun. split_and!; try done; [|lia..]. repeat f_equal. lia.
  - exists o, n, (nd s t n b x). unfold transform.
    rewrite (M_bind_run0 _ _ _ _ _ (node_focus_run _ _ _ _ _ _ _ H)), balance_cell.
    rewrite !(proj2 (Z.eqb_neq _ _)) by tauto. cbn [orb]. rewrite ptr_nd, height_nd, avl_nd.
    split_and!; try done; lia.
Qed.

(** the side of its parent that the focus is on *)
Lemma parent_link o f K t n s :
  Focus o (f :: K) t → ptr t = Some n →
  ∃ c, nodes o !! fn f = Some c ∧ bool_decide (Some n = link c s) = Bool.eqb s (fs f).
Proof.
  intros [_ Hc _ Hn _ _] Hp. rewrite Hp in Hc. destruct Hc as (Hm & _). eexists. split; [exact Hm|].
  assert (Some n ≠ ptr (fo f)) as Hne.
  { intros E. symmetry in E. apply ptr_elems in E, Hp.
    apply NoDup_apart in Hn as (_ & Hd & _). apply (Hd n Hp). cbn. set_solver. }
  destruct f as [[] a b x], s; cbn in *; by rewrite ?bool_decide_eq_true, ?bool_decide_eq_false.
Qed.
Lemma parent_side o f K t n :
  Focus o (f :: K) t → ptr t = Some n →
  ∃ c, nodes o !! fn f = Some c ∧ bool_decide (Some n = link c true) = fs f.
Proof.
  intros H Hp. destruct (parent_link o f K t n true H Hp) as (c & Hc & E). exists c. split; [done|].
  rewrite E. by destruct (fs f).
Qed.

Lemma rebalance_spec fuel o s n b x K t deltac :
  (length K < fuel)%nat →
  Focus o (Frame s n b x :: K) t → avl t → -1 ≤ deltac ≤ 1 →
  cbal (height t - deltac) (Frame s n b x :: K) →
  ∃ o' t', _BAVL_rebalance fuel n s deltac o = Some (tt, o', []) ∧
    Focus o' [] t' ∧ avl t' ∧ elems t' = elems (plug (Frame s n b x :: K) t).
Proof.
  revert o s n b x K t deltac. induction fuel as [|fuel IH]; intros o s n b x K t deltac; [lia|].
  intros Hfuel H Ht Hdeltac (Hx & Hb & Hb' & HK). cbn [fs fn fb fo] in *. cbn [_BAVL_rebalance].
  pose proof (focus_up _ _ _ _ _ _ _ H) as Hup.
  rewrite (M_bind_run0 _ _ _ _ _ (node_focus_run _ _ _ _ _ _ _ Hup)), balance_cell.
  rewrite !ASSERT_true by (rewrite andb_true_iff, !Z.leb_le; lia).
  destruct (Z.eqb_spec deltac 0) as [E|E].
  - exists o, (plug (Frame s n b x :: K) t). split_and!; try done; [by apply (focus_plug vs m0 o (Frame s n b x :: K))|].
    apply (cbal_plug (height t)); [|done..]. rewrite E, Z.sub_0_r in *. cbn. auto.
  - set (h0 := 1 + Z.max (height t - deltac) (height x)) in *.
    replace (int8 (BAVL_MAX _ _ - BAVL_MAX _ _)) with (1 + Z.max (height t) (height x) - h0).
    2: { rewrite int8_small; unfold BAVL_MAX, BAVL_OPTNEG; subst h0; destruct s; cbn [sg] in *; repeat zcase. }
    rewrite ASSERT_true by (rewrite andb_true_iff, !Z.leb_le; subst h0; lia).
    destruct (set_balance_spec _ _ _ _ _ _ _ (int8 (b - BAVL_OPTNEG deltac s)) Hup) as (o1 & Hr1 & H1).
    m_run Hr1.
    replace (int8 (b - BAVL_OPTNEG deltac s)) with (sg s * (height t - height x)) in H1.
    2: { rewrite int8_small; unfold BAVL_OPTNEG; destruct s; cbn [sg] in *; lia. }
    destruct (transform_balanced o1 K s t n x (1 + Z.max (height t) (height x) - h0) h0 H1 Ht Hx) as (o2 & n' & t' & Hr2 & H2 & Hp & Ha & He & Hd).
    { destruct s; cbn [sg] in *; lia. }
    { reflexivity. }
    { subst h0; lia. }
    { subst h0; destruct s; cbn [sg] in *; lia. }
    m_run Hr2. cbn [fst snd]. rewrite ASSERT_true by (rewrite andb_true_iff, !Z.leb_le; lia).
    destruct (nd_inv true t') as (c & m & bm & d & ->); [by intros ->|].
    rewrite ptr_nd in Hp. injection Hp as ->.
    rewrite (M_bind_run0 _ _ _ _ _ (node_focus_run _ _ _ _ _ _ _ H2)), parent_cell.
    assert (elems (plug K (nd true c n' bm d)) = elems (plug (Frame s n b x :: K) t)) as Eel.
    { cbn [plug fs fn fb fo]. apply elems_plug. rewrite He. by destruct s. }
    destruct K as [|g K]; cbn [top].
    + eexists _, _. split_and!; [reflexivity|exact H2|done..].
    + destruct (parent_side _ _ _ _ n' H2) as (cg & Hcg & Hside); [apply ptr_nd|].
      assert (node (fn g) o2 = Some (cg, o2, [])) as Hrun by (destruct o2; by apply node_run).
      m_run Hrun. rewrite Hside, <-Eel. destruct g as [s' p b' x'].
      apply IH; [cbn in *; lia|done|done|lia|].
      by replace (_ - (_ - h0)) with h0 by lia.
Qed.
End balance.
