(* ===== verification/BavlOps.v ===== *)
(** * Balanced trees: the operations

    What each function of [BAVL.h] does to the tree and returns, in terms of the elements in
    order: those before and after the focus are [lefts] and [rights]. *)

From stdpp Require Import sorting.
From S2P Require Import Prelude CInt Bavl BavlShape BavlBalance.

Fixpoint lefts (K : ctx) : list Z :=
  match K with [] => [] | f :: K => lefts K ++ if fs f then elems (fo f) ++ [fn f] else [] end.
Fixpoint rights (K : ctx) : list Z :=
  match K with [] => [] | f :: K => (if fs f then [] else fn f :: elems (fo f)) ++ rights K end.

Lemma elems_plug_split K t : elems (plug K t) = lefts K ++ elems t ++ rights K.
Proof.
  revert t. induction K as [|[s n b x] K IH]; intros t; cbn; [by rewrite app_nil_r|].
  rewrite IH. destruct s; cbn; rewrite <-!app_assoc; cbn; by rewrite <-?app_assoc.
Qed.
Lemma lefts_app K K' : lefts (K ++ K') = lefts K' ++ lefts K.
Proof. induction K as [|f K IH]; cbn; [by rewrite app_nil_r|]. by rewrite IH, app_assoc. Qed.
Lemma rights_app K K' : rights (K ++ K') = rights K ++ rights K'.
Proof. induction K as [|f K IH]; cbn; [done|]. by rewrite IH, app_assoc. Qed.
Lemma elems_plug_perm K t : elems (plug K t) ≡ₚ elems t ++ celems K.
Proof.
  revert t. induction K as [|[s n b x] K IH]; intros t; cbn; [by rewrite app_nil_r|].
  rewrite IH, elems_nd. cbn. by rewrite <-Permutation_middle, <-app_assoc.
Qed.
Lemma height_length t : height t ≤ zlen (elems t).
Proof.
  induction t as [|l IHl n b r IHr]; cbn; [done|]. rewrite zlen_app, zlen_cons.
  pose proof (zlen_nonneg (elems l)). pose proof (zlen_nonneg (elems r)). lia.
Qed.
Lemma length_celems K : (length K ≤ length (celems K))%nat.
Proof. induction K as [|f K IH]; cbn; [lia|]. rewrite length_app. lia. Qed.

(** ** Where a node is *)
Lemma focus_at t n :
  n ∈ elems t → ∃ K l b r, plug K (Node l n b r) = t.
Proof.
  induction t as [|l IHl m b r IHr]; cbn; [set_solver|].
  rewrite elem_of_app, elem_of_cons. intros [Hl|[->|Hr]].
  - destruct (IHl Hl) as (K & l' & b' & r' & <-). exists (K ++ [Frame false m b r]), l', b', r'.
    by rewrite plug_app.
  - by exists [], l, b, r.
  - destruct (IHr Hr) as (K & l' & b' & r' & <-). exists (K ++ [Frame true m b l]), l', b', r'.
    by rewrite plug_app.
Qed.
Lemma focus_app {V} (vs : gmap Z V) m0 o K K' t : focus vs m0 o K' (plug K t) ↔ focus vs m0 o (K ++ K') t.
Proof. rewrite (focus_plug vs m0 o K'), (focus_plug vs m0 o (K ++ K')). by rewrite plug_app. Qed.

Section ops.
Context {V : Type} (vs : gmap Z V) (m0 : mem).
Abbreviation Focus := (focus vs m0).
Abbreviation T := (M (BAVL V) Empty_set).

Lemma rep_lookup m par t n : rep m par t → n ∈ elems t → is_Some (m !! n).
Proof.
  revert par. induction t as [|l IHl k b r IHr]; intros par; cbn; [set_solver|].
  intros (Hk & Hl & Hr). rewrite elem_of_app, elem_of_cons. intros [?|[->|?]]; eauto.
Qed.
Lemma crep_lookup m base h K n : crep m base h K → n ∈ celems K → is_Some (m !! n).
Proof.
  revert h. induction K as [|f K IH]; intros h; cbn; [set_solver|].
  intros (Hk & Hx & Hc). rewrite elem_of_cons, elem_of_app. intros [->|[?|?]]; eauto using rep_lookup.
Qed.
Lemma focus_lookup o K t n : Focus o K t → n ∈ elems t ++ celems K → is_Some (nodes o !! n).
Proof.
  intros [_ Hc Ht _ _ _]. rewrite elem_of_app. intros [?|?]; eauto using rep_lookup, crep_lookup.
Qed.
(** the number of nodes is enough fuel *)
Lemma focus_fuel o K t : Focus o K t → (length (elems t ++ celems K) < fuel o)%nat.
Proof.
  intros H. pose proof (focus_nodup _ _ _ _ _ H) as Hn. unfold fuel.
  rewrite <-(size_list_to_set (C := gset Z)) by done. apply le_n_S.
  rewrite <-(size_dom (D := gset Z)). apply subseteq_size. intros n Hn'.
  apply elem_of_list_to_set in Hn'. by apply elem_of_dom, (focus_lookup _ _ _ _ H).
Qed.

Lemma node_at o K l n b r :
  Focus o K (Node l n b r) → node n o = Some (mkNode (top None K) (ptr l) (ptr r) b, o, []).
Proof. exact (node_focus_run vs m0 o K false l n b r). Qed.

(** ** Walking *)
Lemma descend_spec fuel o s K t n :
  Focus o K t → ptr t = Some n → height t ≤ Z.of_nat fuel →
  ∃ K' m b x, descend fuel s n o = Some (m, o, []) ∧ plug K' (nd s Leaf m b x) = t ∧
    (if s then rights K' else lefts K') = [].
Proof.
  revert K t n. induction fuel as [|fuel IH]; intros K t n H Hp Hf.
  { destruct t as [|l k b r]; [done|]. cbn in Hf. pose proof (height_nonneg l). lia. }
  destruct (nd_inv s t) as (c & k & b & x & ->); [by intros ->|].
  rewrite ptr_nd in Hp. injection Hp as ->. rewrite height_nd in Hf. cbn [descend].
  rewrite (M_bind_run0 _ _ _ _ _ (node_focus_run _ _ _ _ _ _ _ _ _ H)), link_cell.
  destruct c as [|cl a ba cr] eqn:E.
  - exists [], n, b, x. by destruct s.
  - rewrite <-E in *. replace (ptr c) with (Some a) by by rewrite E.
    destruct (IH (Frame s n b x :: K) c a) as (K' & m & b' & x' & Hr & Hpl & Hl).
    { by apply focus_down. } { by rewrite E. } { lia. }
    exists (K' ++ [Frame s n b x]), m, b', x'. split; [done|]. split; [by rewrite plug_app, Hpl|].
    clear -Hl. induction K' as [|f K' IH]; [by destruct s|]. cbn [app lefts rights].
    destruct s; cbn [rights lefts] in *; [apply app_eq_nil in Hl as [-> Hl]|apply app_eq_nil in Hl as [Hl ->]];
      by rewrite (IH Hl).
Qed.
(** the outermost element *)
Lemma descend_elems (s : bool) K' m b x :
  (if s then rights K' else lefts K') = [] →
  (if s then list.last (elems (plug K' (nd s Leaf m b x))) else list.head (elems (plug K' (nd s Leaf m b x)))) =
  Some m.
Proof.
  intros E. rewrite elems_plug_split. destruct s; rewrite E; cbn.
  - rewrite app_nil_r, list.last_app, list.last_app. done.
  - done.
Qed.

Lemma climb_spec fuel o s K t n :
  Focus o K t → ptr t = Some n → (length K < fuel)%nat →
  climb fuel s n o = Some (if s then list.head (rights K) else list.last (lefts K), o, []).
Proof.
  revert K t n. induction fuel as [|fuel IH]; intros K t n H Hp Hf; [lia|]. cbn [climb].
  destruct (nd_inv true t) as (c & k & b & x & ->); [by intros ->|].
  rewrite ptr_nd in Hp. injection Hp as ->.
  rewrite (M_bind_run0 _ _ _ _ _ (node_focus_run _ _ _ _ _ _ _ _ _ H)), parent_cell.
  destruct K as [|[s' p b' x'] K]; cbn [top fn]; [by destruct s|].
  destruct (parent_link _ _ _ _ _ _ n s H (ptr_nd _ _ _ _ _)) as (cp & Hcp & Hside). cbn [fn fs] in *.
  assert (node p o = Some (cp, o, [])) as Hrun by (destruct o; by apply node_run).
  m_run Hrun. rewrite Hside. pose proof (focus_up _ _ _ _ _ _ _ _ _ H) as Hup.
  destruct (Bool.eqb_spec s s') as [<-|Hne].
  - rewrite (IH K _ p Hup); [|by rewrite ptr_nd|cbn in Hf; lia].
    cbn. destruct s; cbn; [done|]. by rewrite app_nil_r.
  - cbn. destruct s, s'; try done; cbn. by rewrite app_assoc, list.last_app.
Qed.

(** ** Linking a node *)
Lemma link_spec {A} o s c b x K n (k : unit → T A) :
  Focus o (Frame s c b x :: K) Leaf → n ∉ celems (Frame s c b x :: K) → is_Some (nodes o !! n) →
  ∃ o', (write c (with_link s (Some n));; write n (λ _, mkNode (Some c) None None 0) ≫= k) o = k tt o' ∧
    Focus o' (Frame s c b x :: K) (Node Leaf n 0 Leaf).
Proof.
  intros H Hn [cn Hcn]. destruct o as [r m vs']. destruct H as [Hr Hc _ Hnd Hv Hf].
  cbn [root nodes values top plug elems ptr app fn fs fo fb crep rootp] in *.
  destruct Hc as (Hmc & Hx & Hc). pose proof Hnd as Hnd'. cbn [celems fn fo] in *. split_nodup.
  erewrite M_bind_run0 by (by eapply write_node_run).
  erewrite M_bind_run0 by (eapply write_node_run; held).
  eexists. split; [reflexivity|]. split; cbn [root nodes values top plug elems ptr app fn fs fo fb crep rep rootp celems].
  - done.
  - split_and!; held.
  - split_and!; try done. look. by rewrite Hcn.
  - repeat (rewrite list.NoDup_cons || rewrite NoDup_apart || rewrite not_elem_of_cons || rewrite not_elem_of_app).
    split_and!; held.
  - done.
  - intros k' Hk. rewrite <-Hf by (cbn; set_solver). split_nodup. by look.
Qed.

(** the insertion of [n] where the search has ended *)
Lemma insert_spec {A} o s c b x K n (k : unit → T A) :
  Focus o (Frame s c b x :: K) Leaf → n ∉ celems (Frame s c b x :: K) → is_Some (nodes o !! n) →
  avl (plug (Frame s c b x :: K) Leaf) →
  ∃ o' t, (write c (with_link s (Some n));; write n (λ _, mkNode (Some c) None None 0);;
      _BAVL_rebalance (fuel o) c s 1 ≫= k) o = k tt o' ∧
    Focus o' [] t ∧ avl t ∧ elems t = lefts (Frame s c b x :: K) ++ n :: rights (Frame s c b x :: K).
Proof.
  intros H Hn Ha Havl.
  destruct (link_spec o s c b x K n (λ _, _BAVL_rebalance (fuel o) c s 1 ≫= k) H Hn Ha) as (o1 & E & H1).
  rewrite E. apply plug_cbal in Havl as [_ Hbal].
  assert (length K < fuel o)%nat as Hfuel.
  { pose proof (focus_fuel _ _ _ H). pose proof (length_celems K). cbn in *. rewrite length_app in *. lia. }
  destruct (rebalance_spec vs m0 (fuel o) o1 s c b x K (Node Leaf n 0 Leaf) 1 Hfuel H1)
    as (o2 & t & Hr & H2 & Ht & He).
  { cbn. lia. } { lia. } { exact Hbal. }
  exists o2, t. m_run Hr. split_and!; try done. by rewrite He, elems_plug_split.
Qed.

(** ** Unlinking a node *)
Lemma replace_subtree_spec o K l n b r c :
  Focus o K (Node l n b r) → (l = c ∧ r = Leaf) ∨ (l = Leaf ∧ r = c) →
  ∃ o' cn, _BAVL_replace_subtree n (ptr c) o = Some (tt, o', []) ∧ nodes o' !! n = Some cn ∧
    n ∉ elems c ++ celems K ∧ focus vs (<[n := cn]> m0) o' K c.
Proof.
  intros H Hlr. destruct o as [rt m vs']. pose proof H as [Hr Hc Ht Hnd Hv Hf].
  cbn [root nodes values ptr rep] in *. destruct Ht as (Hm & Hl & Hrr).
  assert (NoDup (n :: elems c ++ celems K) ∧ rep m (Some n) c) as [Hnd' Hcc].
  { destruct Hlr as [[-> ->]|[-> ->]]; split; try done; cbn in *.
    rewrite <-app_assoc in Hnd. by rewrite (Permutation_middle (elems c)). }
  clear Hnd. split_nodup.
  unfold _BAVL_replace_subtree.
  go node_run. cbn [parent]. go replace_child_run. go node_run. cbn [parent].
  erewrite set_parent_of_run by held.
  eexists _, _. split; [reflexivity|]. split; [cbn; held|]. split; [set_solver|].
  split; cbn [root nodes values]; try held.
  - apply NoDup_apart. auto.
  - intros k Hk. destruct (decide (k = n)) as [->|Hne]; [rewrite lookup_insert_eq; held|].
    rewrite lookup_insert_ne by done. split_nodup. look. apply Hf.
    destruct Hlr as [[-> ->]|[-> ->]]; cbn; set_solver.
Qed.

Lemma remove_node_spec f o K l n b r :
  Focus o K (Node l n b r) → avl (plug K (Node l n b r)) → l = Leaf ∨ r = Leaf → (length K ≤ f)%nat →
  ∃ o' t cn, remove_node f n o = Some (tt, o', []) ∧ focus vs (<[n := cn]> m0) o' [] t ∧
    nodes o' !! n = Some cn ∧ avl t ∧ elems t = lefts K ++ elems l ++ elems r ++ rights K.
Proof.
  intros H Havl Hlr Hf. unfold remove_node.
  rewrite (M_bind_run0 _ _ _ _ _ (node_at _ _ _ _ _ _ H)). cbn [link0 link1 parent].
  rewrite ASSERT_true by (destruct Hlr as [-> | ->]; cbn; by rewrite ?andb_false_r).
  assert (∃ c, match ptr l with Some k => Some k | None => ptr r end = ptr c ∧
    ((l = c ∧ r = Leaf) ∨ (l = Leaf ∧ r = c))) as (c & -> & Hc).
  { destruct Hlr as [-> | ->]; cbn; [eauto|]. exists l. split; [by destruct l|auto]. }
  destruct (replace_subtree_spec _ _ _ _ _ _ c H Hc) as (o1 & cn & Hr1 & Hcn & Hnin & H1).
  apply plug_cbal in Havl as [Havl Hbal].
  assert (avl c ∧ height (Node l n b r) = height c + 1 ∧ elems l ++ elems r = elems c) as (Hac & Hh & Hel).
  { cbn in *. pose proof (height_nonneg c).
    destruct Hc as [[-> ->]|[-> ->]]; cbn in *; rewrite ?app_nil_r; split_and!; try tauto; lia. }
  destruct K as [|[s p b' x] K]; cbn [top fn].
  - exists o1, c, cn. cbn. rewrite !app_nil_r, Hel. auto.
  - destruct (parent_side _ _ _ _ _ _ n H eq_refl) as (cp & Hcp & Hside). cbn [fn fs] in *.
    assert (node p o = Some (cp, o, [])) as Hrun by (destruct o; by apply node_run).
    m_run Hrun. rewrite Hside. m_run Hr1.
    destruct (rebalance_spec vs (<[n := cn]> m0) f o1 s p b' x K c (-1)) as (o2 & t & Hr2 & H2 & Ht & He);
      [done|done|done|lia|by replace (height c - -1) with (height (Node l n b r)) by lia|].
    exists o2, t, cn. split_and!; try done.
    + rewrite (focus_frame _ _ _ _ _ H2); [by rewrite lookup_insert_eq|].
      cbn [celems]. rewrite app_nil_r, He. by rewrite elems_plug_perm.
    + rewrite He, elems_plug_split, <-Hel. by rewrite <-!app_assoc.
Qed.

Lemma cbal_rename h K2 s n n' b x K :
  cbal h (K2 ++ Frame s n b x :: K) → cbal h (K2 ++ Frame s n' b x :: K).
Proof. revert h. induction K2 as [|f K2 IH]; intros h; cbn; [done|]. intuition. Qed.

Lemma filter_ne (n : Z) l1 l2 :
  NoDup (l1 ++ n :: l2) → base.filter (λ k, k ≠ n) (l1 ++ n :: l2) = l1 ++ l2.
Proof.
  intros (_ & H1 & [H2 _]%list.NoDup_cons)%list.NoDup_app.
  assert (∀ l : list Z, n ∉ l → base.filter (λ k, k ≠ n) l = l) as Hid.
  { induction l as [|k l IH]; [done|]. intros [? ?]%not_elem_of_cons.
    rewrite filter_cons_True by done. by rewrite IH. }
  rewrite list.filter_app, filter_cons_False, !Hid; [done|done| |naive_solver].
  intros Hn. apply (H1 n Hn). set_solver.
Qed.

(** Removing [n] removes it from the sequence of the elements. *)
Lemma remove_spec o t n :
  Focus o [] t → avl t → n ∈ elems t →
  ∃ o' t' cn, BAVL_Remove n o = Some (tt, o', []) ∧ focus vs (<[n := cn]> m0) o' [] t' ∧
    nodes o' !! n = Some cn ∧ avl t' ∧ elems t' = base.filter (λ k, k ≠ n) (elems t).
Proof.
  intros H Havl Hin. destruct (focus_at t n Hin) as (K & l & b & r & <-).
  pose proof (focus_fuel _ _ _ H) as Hfuel. cbn [celems] in Hfuel. rewrite app_nil_r, elems_plug_perm in Hfuel.
  pose proof (focus_nodup _ _ _ _ _ H) as Hnd. cbn [celems] in Hnd. rewrite app_nil_r in Hnd.
  assert (base.filter (λ k, k ≠ n) (elems (plug K (Node l n b r))) =
    lefts K ++ elems l ++ elems r ++ rights K) as ->.
  { rewrite elems_plug_split in *. cbn in *. rewrite <-app_assoc, app_assoc in *. cbn in *.
    rewrite filter_ne by done. by rewrite <-app_assoc. }
  apply (focus_plug vs m0 o K) in H. unfold BAVL_Remove. m_step.
  rewrite (M_bind_run0 _ _ _ _ _ (node_at _ _ _ _ _ _ H)). cbn [link0 link1].
  pose proof (length_celems K) as HK. rewrite length_app in Hfuel.
  assert ((l = Leaf ∨ r = Leaf) ∨ (l ≠ Leaf ∧ r ≠ Leaf)) as [Hlr|[Hl0 Hr0]]
    by (destruct l; [auto|]; destruct r; auto).
  - rewrite (M_bind_run0 _ _ o tt o).
    + eapply remove_node_spec; try done. lia.
    + by destruct l, r; destruct Hlr.
  - assert (∃ ln, ptr l = Some ln) as [ln Hln] by (destruct l; [done|cbn; eauto]).
    assert (∃ rn, ptr r = Some rn) as [rn Hrn] by (destruct r; [done|cbn; eauto]).
    rewrite Hln, Hrn.
    assert (Focus o (Frame false n b r :: K) l) as Hl by by apply focus_down.
    assert (height l ≤ Z.of_nat (fuel o)) as Hh.
    { pose proof (height_length l). unfold zlen in *. cbn in Hfuel. rewrite length_app in Hfuel. lia. }
    destruct (descend_spec _ _ true _ _ _ Hl Hln Hh) as (K' & max & bm & x & Hdesc & Hpl & HK').
    cbn [nd] in Hpl. rewrite <-Hpl in Hl. apply focus_app in Hl.
    destruct (swap_nodes_spec _ _ _ _ _ _ _ _ _ _ _ _ _ Hl) as (o1 & Hswap & H1).
    erewrite M_bind_run0.
    2: { unfold _BAVL_subtree_max. rewrite M_bind_assoc. m_step. m_run Hdesc. exact Hswap. }
    cbn beta iota.
    destruct (remove_node_spec (fuel o) o1 (K' ++ Frame false max b r :: K) x n bm Leaf H1)
      as (o2 & t' & cn & Hr & H2 & Hcn & Ha & He).
    + rewrite <-Hpl in Havl. change (Node (plug K' (Node x max bm Leaf)) n b r) with
        (plug [Frame false n b r] (plug K' (Node x max bm Leaf))) in Havl.
      rewrite <-!plug_app in Havl. apply plug_cbal in Havl as [Hx Hbal].
      by apply (cbal_plug (height (Node x max bm Leaf))); [eapply cbal_rename|..].
    + auto.
    + pose proof (focus_fuel _ _ _ Hl) as Hf. pose proof (length_celems (K' ++ Frame false n b r :: K)) as Hc.
      rewrite !length_app in *. cbn in *. lia.
    + exists o2, t', cn. split_and!; try done. rewrite He, lefts_app, rights_app, HK', <-Hpl.
      rewrite elems_plug_split, HK'. cbn. by rewrite ?app_nil_r, <-!app_assoc.
Qed.
End ops.
