(* ===== verification/BavlSpec.v ===== *)
(** * Balanced trees: an ordered set of nodes

    The tree of a [BAVL] is a sequence of nodes whose values increase ([contents]).  Each
    function implements an operation on such sequences, does not fail, and keeps the tree
    balanced. *)

From stdpp Require Import sorting.
From S2P Require Import Prelude CInt Bavl BavlShape BavlBalance BavlOps.

(** ** The comparator

    The rules of [BAVL_comparator], for values that are [ok]. *)
Class Comparator {V} (comparator : V → V → Z) (ok : V → Prop) := {
  comparator_range a b : comparator a b = -1 ∨ comparator a b = 0 ∨ comparator a b = 1;
  comparator_antisym a b : ok a → ok b → comparator b a = - comparator a b;
  comparator_trans a b c :
    ok a → ok b → ok c → comparator a b ≤ 0 → comparator b c ≤ 0 → comparator a c ≤ 0;
}.

Section spec.
Context {V : Type} (comparator : V → V → Z) (ok : V → Prop) `{!Comparator comparator ok}.
Abbreviation T := (M (BAVL V) Empty_set).

Lemma comparator_lt_le a b c :
  ok a → ok b → ok c → comparator a b = -1 → comparator b c ≤ 0 → comparator a c = -1.
Proof.
  intros Ha Hb Hc Hab Hbc. assert (comparator a c ≤ 0) by (apply (comparator_trans a b c); try done; lia).
  destruct (comparator_range a c) as [?|[E|E]]; [done| |lia].
  assert (comparator b a ≤ 0) by (apply (comparator_trans b c a); try done; rewrite (comparator_antisym a c) by done; lia).
  rewrite (comparator_antisym a b) in * by done. lia.
Qed.
Lemma comparator_le_lt a b c :
  ok a → ok b → ok c → comparator a b ≤ 0 → comparator b c = -1 → comparator a c = -1.
Proof.
  intros Ha Hb Hc Hab Hbc. assert (comparator a c ≤ 0) by (apply (comparator_trans a b c); try done; lia).
  destruct (comparator_range a c) as [?|[E|E]]; [done| |lia].
  assert (comparator c b ≤ 0) by (apply (comparator_trans c a b); try done; rewrite (comparator_antisym a c) by done; lia).
  rewrite (comparator_antisym b c) in * by done. lia.
Qed.

(** ** Sequences of nodes, by the values of the objects *)
Section values.
Context (vs : gmap Z V).
(** how [v] compares to the value of [n] *)
Definition compared (v : V) (r : Z) (n : Z) : Prop :=
  ∃ w, vs !! n = Some w ∧ ok w ∧ comparator v w = r.
Definition before (a b : Z) : Prop := ∃ v, vs !! a = Some v ∧ ok v ∧ compared v (-1) b.
Definition keyed (n : Z) : Prop := ∃ v, vs !! n = Some v ∧ ok v.
Definition ordered (l : list Z) : Prop := Forall keyed l ∧ StronglySorted before l.

(** the node with the value [v] *)
Definition is_equal (v : V) (n : Z) : bool :=
  match vs !! n with Some w => comparator v w =? 0 | None => false end.
Definition lookup_in (v : V) (l : list Z) : option Z := List.find (is_equal v) l.
(** insertion before the first greater node *)
Fixpoint insert_in (v : V) (n : Z) (l : list Z) : list Z :=
  match l with
  | [] => [n]
  | m :: l' =>
      match vs !! m with
      | Some w => if comparator v w =? 1 then m :: insert_in v n l' else n :: m :: l'
      | None => n :: m :: l'
      end
  end.

(** between the lesser and the greater nodes *)
Definition splits (v : V) (l1 l2 : list Z) : Prop :=
  Forall (compared v 1) l1 ∧ Forall (compared v (-1)) l2.
Lemma lookup_in_splits v l1 l2 : splits v l1 l2 → lookup_in v (l1 ++ l2) = None.
Proof.
  intros [H1 H2]. unfold lookup_in. assert (Forall (λ n, is_equal v n = false) (l1 ++ l2)) as H.
  { apply Forall_app. split; eapply Forall_impl; try done; intros n (w & Hw & _ & E); unfold is_equal;
      rewrite Hw, E; done. }
  induction H as [|n l Hn _ IH]; cbn; [done|]. by rewrite Hn.
Qed.
Lemma insert_in_splits v n l1 l2 : splits v l1 l2 → insert_in v n (l1 ++ l2) = l1 ++ n :: l2.
Proof.
  intros [H1 H2]. induction H1 as [|m l1 (w & Hw & _ & E) _ IH]; cbn.
  - destruct H2 as [|m l2 (w & Hw & _ & E) _]; cbn; [done|]. by rewrite Hw, E.
  - by rewrite Hw, E, IH.
Qed.
Lemma ordered_insert v n l1 l2 :
  vs !! n = Some v → ok v → splits v l1 l2 → ordered (l1 ++ l2) → ordered (l1 ++ n :: l2).
Proof.
  intros Hn Hv [H1 H2] [Hk Hs]. apply Forall_app in Hk as [Hk1 Hk2]. apply StronglySorted_app in Hs as (Hd & Hs1 & Hs2).
  rewrite list.Forall_forall in H1, H2. split.
  - apply Forall_app. split; [done|]. constructor; [by exists v|done].
  - apply StronglySorted_app. split_and!; [|done|constructor; [done|]].
    + intros a b Ha [->|Hb]%elem_of_cons; [|by apply Hd].
      destruct (H1 a Ha) as (w & Hw & Hokw & E). exists w. split_and!; try done. exists v. split_and!; try done.
      rewrite (comparator_antisym v w) by done. lia.
    + apply list.Forall_forall. intros b Hb. exists v. auto.
Qed.
Lemma sublist_Forall (P : Z → Prop) l1 l2 : l1 `sublist_of` l2 → Forall P l2 → Forall P l1.
Proof.
  rewrite !list.Forall_forall. intros Hsub H x Hx. apply H.
  eapply elem_of_submseteq; [done|]. by apply sublist_submseteq.
Qed.
Lemma ordered_sublist l1 l2 : l1 `sublist_of` l2 → ordered l2 → ordered l1.
Proof.
  intros Hsub [Hk Hs]. split; [by eapply sublist_Forall|].
  induction Hsub as [|x l1 l2 Hsub IH|x l1 l2 Hsub IH]; [done|..];
    apply StronglySorted_inv in Hs as [Hs Hx]; apply Forall_cons_iff in Hk as [_ Hk].
  - constructor; [auto|]. by eapply sublist_Forall.
  - auto.
Qed.
Lemma ordered_NoDup l : ordered l → NoDup l.
Proof.
  intros [Hk Hs]. induction Hs as [|a l Hs IH Ha]; [constructor|].
  apply Forall_cons_iff in Hk as [_ Hk]. constructor; [|auto]. intros Hin.
  rewrite list.Forall_forall in Ha. destruct (Ha a Hin) as (v & Hv & Hok & w & Hw & _ & E).
  assert (comparator v v = - comparator v v) by by apply comparator_antisym. simplify_eq. lia.
Qed.
Lemma lookup_in_equal v n l :
  ok v → ordered l → n ∈ l → compared v 0 n → lookup_in v l = Some n.
Proof.
  intros Hv Hl Hin (w & Hw & Hokw & E). apply list_elem_of_split in Hin as (l1 & l2 & ->).
  destruct Hl as [_ (Hd & _ & _)%StronglySorted_app]. unfold lookup_in.
  induction l1 as [|m l1 IH]; cbn; unfold is_equal at 1; [by rewrite Hw, E|].
  destruct (Hd m n) as (wm & Hwm & Hokm & ? & ? & _ & E'); [set_solver..|]. simplify_eq. rewrite Hwm.
  destruct (Z.eqb_spec (comparator v wm) 0) as [E0|E0].
  - rewrite (comparator_le_lt v wm w) in E by (done || lia). done.
  - apply IH. intros; apply Hd; set_solver.
Qed.

(** ** The search *)

(** one step: the elements on the other side of the node [c] *)
Lemma splits_right v c w l l1 l2 :
  ok v → vs !! c = Some w → ok w → comparator v w = 1 → (∀ a, a ∈ l → before a c) →
  splits v l1 l2 → splits v (l1 ++ l ++ [c]) l2.
Proof.
  intros Hv Hw Hokw E Hl [H1 H2]. split; [|done]. rewrite !Forall_app. split_and!; [done| |].
  - apply list.Forall_forall. intros a Ha. destruct (Hl a Ha) as (x & Hx & Hokx & ? & ? & _ & E'). simplify_eq.
    exists x. split_and!; try done. rewrite (comparator_antisym x v), (comparator_lt_le x w v); try done.
    rewrite (comparator_antisym v w), E by done. lia.
  - constructor; [by exists w|done].
Qed.
Lemma splits_left v c w l l1 l2 :
  ok v → vs !! c = Some w → ok w → comparator v w = -1 → Forall (before c) l →
  splits v l1 l2 → splits v l1 (c :: l ++ l2).
Proof.
  intros Hv Hw Hokw E Hl [H1 H2]. split; [done|]. constructor; [by exists w|]. apply Forall_app. split; [|done].
  eapply list.Forall_impl; [exact Hl|]. intros b (? & ? & _ & x & Hx & Hokx & E'). simplify_eq.
  exists x. split_and!; try done. apply (comparator_lt_le v w x); try done. lia.
Qed.

(** the search in the tree [t0] ends at [n] *)
Definition search_result m0 o v t0 (n : Z) (r : option bool) : Prop :=
  match r with
  | None => n ∈ elems t0 ∧ compared v 0 n
  | Some s => ∃ b x K, focus vs m0 o (Frame s n b x :: K) Leaf ∧ plug (Frame s n b x :: K) Leaf = t0 ∧
      splits v (lefts (Frame s n b x :: K)) (rights (Frame s n b x :: K))
  end.
Lemma tree_search_spec m0 compare v fuel o K t c :
  focus vs m0 o K t → ptr t = Some c → height t ≤ Z.of_nat fuel → ok v →
  (∀ n w, vs !! n = Some w → compare n o = Some (comparator v w, o, [])) →
  ordered (elems t) → splits v (lefts K) (rights K) →
  ∃ n r, search compare fuel c o = Some ((n, r), o, []) ∧ search_result m0 o v (plug K t) n r.
Proof.
  intros H Hp Hf Hv Hcmp. revert K t c H Hp Hf.
  induction fuel as [|fuel IH]; intros K t c H Hp Hf Hord Hsp.
  { destruct t as [|l n b r]; [done|]. cbn in Hf. pose proof (height_nonneg l). lia. }
  destruct t as [|l n b r]; [done|]. injection Hp as ->. cbn [search].
  destruct Hord as [Hk Hs]. cbn in Hk, Hs, Hf.
  apply Forall_app in Hk as [Hkl [(w & Hw & Hokw) Hkr]%Forall_cons_iff].
  apply StronglySorted_app in Hs as (Hd & Hsl & [Hsr Hnr]%StronglySorted_inv).
  m_run (Hcmp c w Hw).
  destruct (Z.eqb_spec (comparator v w) 0) as [E|E].
  { exists c, None. split; [done|]. split; [|by exists w]. rewrite elems_plug_perm. cbn. set_solver. }
  rewrite (M_bind_run0 _ _ _ _ _ (node_at _ _ _ _ _ _ _ _ H)).
  assert (∀ s child other, nd s child c b other = Node l c b r → (height child ≤ Z.of_nat fuel) →
    splits v (lefts (Frame s c b other :: K)) (rights (Frame s c b other :: K)) → ordered (elems child) →
    ∃ n r', match ptr child with None => mret (c, Some s) | Some c' => search compare fuel c' end o =
        Some ((n, r'), o, []) ∧ search_result m0 o v (plug K (Node l c b r)) n r') as Hgo.
  { intros s child other Hnd Hf' Hsp' Hord'. rewrite <-Hnd in *.
    destruct (ptr child) as [c'|] eqn:Hc'.
    - apply (IH (Frame s c b other :: K) child c'); try done. by apply focus_down.
    - destruct child; [|done]. exists c, (Some s). split; [done|]. exists b, other, K.
      split_and!; try done. by apply focus_down. }
  destruct (Z.eqb_spec (comparator v w) 1) as [E1|E1]; cbn [link link0 link1].
  - apply (Hgo true r l); [done|lia| |done]. cbn. eapply splits_right; try done. set_solver.
  - apply (Hgo false l r); [done|lia| |done]. cbn. rewrite app_nil_r. eapply splits_left; try done.
    destruct (comparator_range v w) as [?|[?|?]]; lia.
Qed.

(** [r] is the last node before [v] or the first one after it *)
Definition near (v : V) (l : list Z) (r : option Z) : Prop :=
  match r with
  | None => l = []
  | Some n => ∃ l1 l2, l = l1 ++ l2 ∧ splits v l1 l2 ∧ (list.last l1 = Some n ∨ list.head l2 = Some n)
  end.
Lemma search_result_in m0 o v t n r :
  search_result m0 o v t n r → ok v → ordered (elems t) →
  lookup_in v (elems t) = (match r with None => Some n | Some _ => None end) ∧
  (r ≠ None → near v (elems t) (Some n)).
Proof.
  intros H Hv Hord. destruct r as [s|].
  - destruct H as (b & x & K & _ & <- & Hsp). rewrite elems_plug_split. cbn [elems app]. split.
    + by apply lookup_in_splits.
    + intros _. eexists _, _. split; [reflexivity|]. split; [done|].
      destruct s; cbn; [left|by right]. by rewrite app_assoc, list.last_app.
  - destruct H as [Hin Heq]. split; [by apply lookup_in_equal|done].
Qed.

(** comparing values *)
Lemma node_value_run (o : BAVL V) n w : values o !! n = Some w → _BAVL_node_value n o = Some (w, o, []).
Proof. intros H. unfold _BAVL_node_value. m_step. by rewrite H. Qed.
Lemma compare_values_run (o : BAVL V) v w :
  _BAVL_compare_values comparator v w o = Some (comparator v w, o, []).
Proof.
  unfold _BAVL_compare_values. rewrite ASSERT_true; [done|].
  rewrite !orb_true_iff, !Z.eqb_eq. destruct (comparator_range v w) as [?|[?|?]]; auto.
Qed.
Lemma compare_with_run (o : BAVL V) v n w :
  values o !! n = Some w → compare_with comparator v n o = Some (comparator v w, o, []).
Proof. intros H. unfold compare_with. m_run (node_value_run o n w H). apply compare_values_run. Qed.
Lemma compare_nodes_run (o : BAVL V) n v m w :
  values o !! n = Some v → values o !! m = Some w →
  _BAVL_compare_nodes comparator n m o = Some (comparator v w, o, []).
Proof.
  intros Hn Hm. unfold _BAVL_compare_nodes. m_run (node_value_run o n v Hn).
  m_run (node_value_run o m w Hm). apply compare_values_run.
Qed.

(** [_BAVL_assert_recurser] finds nothing wrong and returns the height. *)
Lemma assert_recurser_spec m0 fuel o K t n :
  focus vs m0 o K t → avl t → ordered (elems t) → ptr t = Some n → height t ≤ Z.of_nat fuel →
  _BAVL_assert_recurser comparator fuel n o = Some (height t, o, []).
Proof.
  revert K t n. induction fuel as [|fuel IH]; intros K t n H Ht Hord Hp Hf.
  { destruct t as [|l k b r]; [done|]. cbn in Hf. pose proof (height_nonneg l). lia. }
  destruct t as [|l k b r]; [done|]. injection Hp as ->. destruct Ht as (Hl & Hr & Hb & Hb').
  destruct Hord as [Hk Hs]. cbn in Hk, Hs, Hf.
  apply Forall_app in Hk as [Hkl [(w & Hw & Hokw) Hkr]%Forall_cons_iff].
  apply StronglySorted_app in Hs as (Hd & Hsl & [Hsr Hnr]%StronglySorted_inv).
  rewrite list.Forall_forall in Hnr.
  cbn [_BAVL_assert_recurser].
  rewrite (M_bind_run0 _ _ _ _ _ (node_at _ _ _ _ _ _ _ _ H)). cbn [balance link link0 link1].
  rewrite !ASSERT_true by (rewrite ?Z.geb_leb, Z.leb_le; lia).
  assert (∀ (s : bool) child other, nd s child n b other = Node l n b r → avl child → ordered (elems child) →
    height child ≤ Z.of_nat fuel → (∀ a, a ∈ elems child → if s then before n a else before a n) →
    match ptr child with
    | None => mret 0
    | Some m =>
        cm ← node m;
        ASSERT (bool_decide (parent cm = Some n));;
        comp ← _BAVL_compare_nodes comparator m n;
        ASSERT (comp =? if s then 1 else -1);;
        _BAVL_assert_recurser comparator fuel m
    end o = Some (height child, o, [])) as Hgo.
  { intros s child other Hnd Hac Hoc Hfc Hbef. rewrite <-Hnd in H. apply focus_down in H.
    destruct (ptr child) as [m|] eqn:Hpm; [|by destruct child].
    assert (∃ wm, vs !! m = Some wm ∧ comparator wm w = (if s then 1 else -1)) as (wm & Hwm & Ecmp).
    { specialize (Hbef m (ptr_elems _ _ Hpm)).
      destruct s; destruct Hbef as (y & Hy & Hoky & x & Hx & Hokx & E); simplify_eq; [|by exists y].
      exists x. split; [done|]. rewrite (comparator_antisym w x), E by done. lia. }
    assert (∃ cm, node m o = Some (cm, o, []) ∧ parent cm = Some n) as (cm & Hcm & Hpar).
    { destruct child as [|cl m' bm cr]; [done|]. injection Hpm as ->.
      eexists. split; [exact (node_at _ _ _ _ _ _ _ _ H)|done]. }
    m_run Hcm. rewrite Hpar, ASSERT_true by by apply bool_decide_eq_true.
    m_run (compare_nodes_run o m wm n w (eq_trans (f_equal (lookup m) (focus_values _ _ _ _ _ H)) Hwm)
      (eq_trans (f_equal (lookup n) (focus_values _ _ _ _ _ H)) Hw)).
    rewrite ASSERT_true by (rewrite Ecmp; by destruct s).
    by eapply (IH _ child m). }
  erewrite M_bind_run0; [|apply (Hgo false l r); try done; [lia|set_solver]]. cbn beta iota.
  erewrite M_bind_run0; [|apply (Hgo true r l); try done; lia]. cbn beta iota.
  rewrite ASSERT_true by (rewrite Hb; apply Z.eqb_refl).
  replace (height (Node l n b r)) with (BAVL_MAX (height l) (height r) + 1); [done|].
  unfold BAVL_MAX. cbn [height]. zcase.
Qed.
End values.

Lemma ordered_ext (vs vs' : gmap Z V) l :
  (∀ k, k ∈ l → vs' !! k = vs !! k) → ordered vs l → ordered vs' l.
Proof.
  intros E [Hk Hs]. induction Hs as [|a l Hs IH Ha]; [split; constructor|].
  apply Forall_cons_iff in Hk as [[v Hv] Hk]. destruct IH as [IHk IHs]; [intros k Hk0; apply E; by right|done|].
  rewrite list.Forall_forall in Ha. split; constructor; try done.
  - exists v. rewrite E; [done|set_solver].
  - apply list.Forall_forall. intros b Hb. destruct (Ha b Hb) as (x & Hx & Hox & y & Hy & Hoy & ?).
    exists x. split_and!; [rewrite E; [done|set_solver]|done|]. exists y. rewrite E; [done|set_solver].
Qed.

(** ** The specification *)

(** the nodes in order, and the values of all objects *)
Record contents := mkContents { order : list Z; objects : gmap Z V }.

Inductive op :=
| OpInsert (n : Z)
| OpRemove (n : Z)
| OpLookup (v : V)
| OpLookupExact (v : V)
| OpGetFirst
| OpGetLast
| OpGetNext (n : Z)
| OpGetPrev (n : Z)
| OpIsEmpty
| OpVerify
| OpSetValue (n : Z) (v : V).     (** the client writes to an object *)
Inductive answer :=
| Done
| Inserted (success : bool) (ref : option Z)
| Found (n : option Z)
| Flag (b : bool).

Definition call (i : op) : T answer :=
  match i with
  | OpInsert n => x ← BAVL_Insert comparator n; mret (Inserted x.1 x.2)
  | OpRemove n => BAVL_Remove n;; mret Done
  | OpLookup v => x ← BAVL_Lookup comparator v; mret (Found x)
  | OpLookupExact v => x ← BAVL_LookupExact comparator v; mret (Found x)
  | OpGetFirst => x ← BAVL_GetFirst; mret (Found x)
  | OpGetLast => x ← BAVL_GetLast; mret (Found x)
  | OpGetNext n => x ← BAVL_GetNext n; mret (Found x)
  | OpGetPrev n => x ← BAVL_GetPrev n; mret (Found x)
  | OpIsEmpty => x ← BAVL_IsEmpty; mret (Flag x)
  | OpVerify => BAVL_Verify comparator;; mret Done
  | OpSetValue n v => modify (λ o, mkBAVL (root o) (nodes o) (<[n := v]> (values o)));; mret Done
  end.

(** A node may be inserted when it is not in the tree, and be removed or walked from when it
    is; the value of an object may change while its node is not in the tree. *)
Definition allowed (A : contents) (i : op) : Prop :=
  match i with
  | OpInsert n => n ∉ order A ∧ ∃ v, objects A !! n = Some v ∧ ok v
  | OpRemove n | OpGetNext n | OpGetPrev n => n ∈ order A
  | OpLookup v | OpLookupExact v => ok v
  | OpSetValue n v => n ∉ order A ∧ is_Some (objects A !! n)
  | OpGetFirst | OpGetLast | OpIsEmpty | OpVerify => True
  end.
Definition after (A : contents) (i : op) : contents :=
  match i with
  | OpInsert n =>
      match objects A !! n with
      | Some v =>
          match lookup_in (objects A) v (order A) with
          | Some _ => A
          | None => mkContents (insert_in (objects A) v n (order A)) (objects A)
          end
      | None => A
      end
  | OpRemove n => mkContents (base.filter (λ k, k ≠ n) (order A)) (objects A)
  | OpSetValue n v => mkContents (order A) (<[n := v]> (objects A))
  | _ => A
  end.
(** A failed insertion answers with the node that compares equal, unlike the comment of
    [BAVL_Insert]; [near] is what that comment says. *)
Definition answers (A : contents) (i : op) (a : answer) : Prop :=
  match i with
  | OpInsert n =>
      match objects A !! n with
      | Some v =>
          match lookup_in (objects A) v (order A) with
          | Some m => a = Inserted false (Some m)
          | None => ∃ r, a = Inserted true r ∧ near (objects A) v (order A) r
          end
      | None => False
      end
  | OpRemove _ | OpVerify | OpSetValue _ _ => a = Done
  | OpLookup v =>
      match lookup_in (objects A) v (order A) with
      | Some m => a = Found (Some m)
      | None => ∃ r, a = Found r ∧ near (objects A) v (order A) r
      end
  | OpLookupExact v => a = Found (lookup_in (objects A) v (order A))
  | OpGetFirst => a = Found (list.head (order A))
  | OpGetLast => a = Found (list.last (order A))
  | OpGetNext n => ∃ l1 l2, order A = l1 ++ n :: l2 ∧ a = Found (list.head l2)
  | OpGetPrev n => ∃ l1 l2, order A = l1 ++ n :: l2 ∧ a = Found (list.last l1)
  | OpIsEmpty => a = Flag (bool_decide (order A = []))
  end.

(** [o] holds [A] in the balanced tree [t]. *)
Record holds_in (o : BAVL V) (A : contents) (t : tree) : Prop := {
  in_focus : focus (objects A) (nodes o) o [] t;
  in_avl : avl t;
  in_elems : elems t = order A;
  in_ordered : ordered (objects A) (order A);
  in_nodes n : is_Some (objects A !! n) → is_Some (nodes o !! n);
}.
Definition holds (o : BAVL V) (A : contents) : Prop := ∃ t, holds_in o A t.

Lemma holds_intro m0 o t vs l :
  focus vs m0 o [] t → avl t → elems t = l → ordered vs l →
  (∀ n, is_Some (vs !! n) → is_Some (nodes o !! n)) → holds o (mkContents l vs).
Proof. intros [Hr Hc Ht Hn Hv Hf] ? ? ? ?. exists t. by split. Qed.
Lemma nodes_stay (vs : gmap Z V) (m m0 : mem) (o : BAVL V) t :
  focus vs m0 o [] t → (∀ k, is_Some (m !! k) → is_Some (m0 !! k)) →
  ∀ k, is_Some (m !! k) → is_Some (nodes o !! k).
Proof.
  intros H Hm k Hk. destruct (decide (k ∈ elems t)) as [Hin|Hnin].
  - apply (focus_lookup _ _ _ _ _ k H). set_solver.
  - rewrite (focus_frame _ _ _ _ _ H); [by apply Hm|]. cbn. by rewrite app_nil_r.
Qed.

Section calls.
Context (o : BAVL V) (A : contents) (t : tree).
Hypothesis Hholds : holds_in o A t.
Let Hfocus := in_focus _ _ _ Hholds.
Let Havl := in_avl _ _ _ Hholds.
Let Helems := in_elems _ _ _ Hholds.
Let Hord := in_ordered _ _ _ Hholds.
Let Halloc := in_nodes _ _ _ Hholds.

Lemma call_root : root o = ptr t.
Proof. by destruct Hfocus. Qed.
Lemma call_values : values o = objects A.
Proof. by destruct Hfocus. Qed.
Lemma call_fuel : (length (elems t) < fuel o)%nat.
Proof. pose proof (focus_fuel _ _ _ _ _ Hfocus) as H. cbn in H. by rewrite app_nil_r in H. Qed.
Lemma call_height : height t ≤ Z.of_nat (fuel o).
Proof. pose proof call_fuel. pose proof (height_length t). unfold zlen in *. lia. Qed.
Lemma call_holds : holds o A.
Proof. by exists t. Qed.
Lemma call_order_nil : order A = [] ↔ ptr t = None.
Proof. rewrite <-Helems. destruct t; cbn; [done|]. split; [|done]. intros E. by destruct (app_cons_not_nil _ _ _ (eq_sym E)). Qed.
Lemma call_at n :
  n ∈ order A → ∃ K l b r, focus (objects A) (nodes o) o K (Node l n b r) ∧
    order A = (lefts K ++ elems l) ++ n :: elems r ++ rights K ∧
    node n o = Some (mkNode (top None K) (ptr l) (ptr r) b, o, []) ∧
    height l ≤ Z.of_nat (fuel o) ∧ height r ≤ Z.of_nat (fuel o) ∧ (length K < fuel o)%nat.
Proof.
  rewrite <-Helems. intros Hin. destruct (focus_at t n Hin) as (K & l & b & r & E).
  pose proof Hfocus as H. rewrite <-E in H. apply (focus_plug _ _ _ K) in H.
  exists K, l, b, r. pose proof (focus_fuel _ _ _ _ _ H) as Hf.
  pose proof (length_celems K). pose proof (height_length l). pose proof (height_length r). unfold zlen in *.
  cbn in Hf. rewrite !length_app in Hf. cbn in Hf.
  split_and!; try lia; [done| |by apply (node_at _ _ _ _ _ _ _ _ H)].
  rewrite <-E, elems_plug_split. cbn. by rewrite <-!app_assoc.
Qed.
Lemma call_search compare v c :
  root o = Some c → ok v →
  (∀ n w, objects A !! n = Some w → compare n o = Some (comparator v w, o, [])) →
  ∃ n r, search compare (fuel o) c o = Some ((n, r), o, []) ∧
    search_result (objects A) (nodes o) o v t n r.
Proof.
  rewrite call_root. intros Hc Hv Hcmp.
  apply (tree_search_spec (objects A) (nodes o) compare v (fuel o) o [] t c); try done.
  - apply call_height.
  - by rewrite Helems.
Qed.

Lemma call_lookups v :
  ok v →
  BAVL_LookupExact comparator v o = Some (lookup_in (objects A) v (order A), o, []) ∧
  ∃ r, BAVL_Lookup comparator v o = Some (r, o, []) ∧
    match lookup_in (objects A) v (order A) with
    | Some m => r = Some m
    | None => near (objects A) v (order A) r
    end.
Proof.
  intros Hv. unfold BAVL_LookupExact, BAVL_Lookup.
  destruct (root o) as [c|] eqn:Hc.
  - destruct (call_search (compare_with comparator v) v c Hc Hv) as (n & r & Hrun & Hres).
    { intros n w Hw. apply compare_with_run. by rewrite call_values. }
    apply search_result_in in Hres as [Hl Hn]; [|done|by rewrite Helems]. rewrite Helems in Hl, Hn.
    split.
    + m_step. rewrite Hc. m_run Hrun. rewrite Hl. by destruct r.
    + exists (Some n). split; [m_step; rewrite Hc; by m_run Hrun|].
      rewrite Hl. destruct r; [by apply Hn|done].
  - assert (order A = []) as -> by by rewrite call_order_nil, <-call_root.
    split; [m_step; by rewrite Hc|]. exists None. split; [m_step; by rewrite Hc|done].
Qed.

(** the outermost node of a subtree *)
Lemma call_descend s K c k :
  focus (objects A) (nodes o) o K c → ptr c = Some k → height c ≤ Z.of_nat (fuel o) →
  ∃ m, descend (fuel o) s k o = Some (m, o, []) ∧
    (if s then list.last (elems c) else list.head (elems c)) = Some m.
Proof.
  intros H Hp Hh. destruct (descend_spec _ _ (fuel o) o s K c k H Hp Hh) as (K' & m & b & x & Hr & Hpl & HK').
  exists m. split; [done|]. rewrite <-Hpl. by apply descend_elems.
Qed.
Lemma call_GetFirst : BAVL_GetFirst o = Some (list.head (order A), o, []).
Proof.
  unfold BAVL_GetFirst. m_step. rewrite call_root, <-Helems. destruct (ptr t) as [k|] eqn:Hp.
  - destruct (call_descend false _ _ _ Hfocus Hp call_height) as (m & Hr & ->). by m_run Hr.
  - by destruct t.
Qed.
Lemma call_GetLast : BAVL_GetLast o = Some (list.last (order A), o, []).
Proof.
  unfold BAVL_GetLast. m_step. rewrite call_root, <-Helems. destruct (ptr t) as [k|] eqn:Hp.
  - destruct (call_descend true _ _ _ Hfocus Hp call_height) as (m & Hr & ->). by m_run Hr.
  - by destruct t.
Qed.
Lemma call_GetNext n :
  n ∈ order A → ∃ l1 l2, order A = l1 ++ n :: l2 ∧ BAVL_GetNext n o = Some (list.head l2, o, []).
Proof.
  intros Hin. destruct (call_at n Hin) as (K & l & b & r & H & E & Hn & Hl & Hr & HK).
  eexists _, _. split; [exact E|]. unfold BAVL_GetNext. m_step. m_run Hn. cbn [link link1].
  destruct (ptr r) as [k|] eqn:Hp.
  - destruct (call_descend false (Frame true n b l :: K) r k) as (m & Hrun & Hm); [by apply focus_down|done..|].
    m_run Hrun. destruct (elems r); [done|]. injection Hm as ->. done.
  - rewrite (climb_spec _ _ (fuel o) o true K _ n H eq_refl HK). by destruct r.
Qed.
Lemma call_GetPrev n :
  n ∈ order A → ∃ l1 l2, order A = l1 ++ n :: l2 ∧ BAVL_GetPrev n o = Some (list.last l1, o, []).
Proof.
  intros Hin. destruct (call_at n Hin) as (K & l & b & r & H & E & Hn & Hl & Hr & HK).
  eexists _, _. split; [exact E|]. unfold BAVL_GetPrev. m_step. m_run Hn. cbn [link link0].
  destruct (ptr l) as [k|] eqn:Hp.
  - destruct (call_descend true (Frame false n b r :: K) l k) as (m & Hrun & Hm); [by apply focus_down|done..|].
    m_run Hrun. by rewrite list.last_app, Hm.
  - rewrite (climb_spec _ _ (fuel o) o false K _ n H eq_refl HK). destruct l; [|done]. cbn. by rewrite app_nil_r.
Qed.
Lemma call_Verify : BAVL_Verify comparator o = Some (tt, o, []).
Proof.
  unfold BAVL_Verify. m_step. rewrite call_root. destruct (ptr t) as [k|] eqn:Hp; [|done].
  assert (∃ c, node k o = Some (c, o, []) ∧ parent c = None) as (c & Hc & E).
  { pose proof Hfocus as H. destruct t as [|l k' b r]; [done|]. injection Hp as ->.
    eexists. split; [by apply (node_at _ _ _ _ _ _ _ _ H)|done]. }
  m_run Hc. rewrite E. rewrite ASSERT_true by done.
  m_run (assert_recurser_spec _ _ (fuel o) o [] t k Hfocus Havl
    (eq_rect_r (ordered (objects A)) Hord Helems) Hp call_height). done.
Qed.

Lemma call_Remove n :
  n ∈ order A → ∃ o', BAVL_Remove n o = Some (tt, o', []) ∧ holds o' (after A (OpRemove n)).
Proof.
  intros Hin. rewrite <-Helems in Hin.
  destruct (remove_spec _ _ o t n Hfocus Havl Hin) as (o' & t' & cn & Hr & H & Hcn & Ha & He).
  exists o'. split; [done|]. eapply holds_intro; [exact H|done|by rewrite He, Helems| |].
  - eapply ordered_sublist; [|exact Hord]. apply sublist_filter.
  - intros k Hk. apply (nodes_stay _ (nodes o) _ _ _ H); [|by apply Halloc].
    intros j Hj. destruct (decide (j = n)) as [->|?]; [by rewrite lookup_insert_eq|by rewrite lookup_insert_ne].
Qed.

Lemma call_Insert n v :
  n ∉ order A → objects A !! n = Some v → ok v →
  ∃ b r o', BAVL_Insert comparator n o = Some ((b, r), o', []) ∧
    match lookup_in (objects A) v (order A) with
    | Some m => b = false ∧ r = Some m
    | None => b = true ∧ near (objects A) v (order A) r
    end ∧ holds o' (after A (OpInsert n)).
Proof.
  intros Hn Hv Hok. unfold BAVL_Insert. cbn [after]. rewrite Hv.
  destruct (root o) as [c|] eqn:Hc.
  - destruct (call_search (_BAVL_compare_nodes comparator n) v c Hc Hok) as (m & r & Hrun & Hres).
    { intros k w Hw. apply compare_nodes_run; by rewrite call_values. }
    pose proof Hres as Hres'. apply search_result_in in Hres' as [Hl Hnear]; [|done|by rewrite Helems].
    rewrite Helems in Hl, Hnear. m_step. rewrite Hc. m_run Hrun. rewrite Hl. destruct r as [s|].
    + destruct Hres as (b & x & K & H & Hpl & Hsp).
      assert (order A = lefts (Frame s m b x :: K) ++ rights (Frame s m b x :: K)) as Eord
        by by rewrite <-Helems, <-Hpl, elems_plug_split.
      destruct (insert_spec _ _ o s m b x K n (λ _, mret (true, Some m)) H)
        as (o' & t' & Hrun' & H' & Ha & He).
      { rewrite <-Helems, <-Hpl, elems_plug_perm in Hn. done. }
      { apply Halloc. by exists v. }
      { by rewrite Hpl. }
      exists true, (Some m), o'. split; [exact Hrun'|]. split; [split; [done|by apply Hnear]|].
      eapply holds_intro; [exact H'|done| | |].
      * by rewrite He, Eord, insert_in_splits.
      * rewrite Eord, insert_in_splits by done. apply (ordered_insert _ v); try done. by rewrite <-Eord.
      * intros k Hk. by apply (nodes_stay _ (nodes o) _ _ _ H'), Halloc.
    + exists false, (Some m), o. split_and!; [done..|]. apply call_holds.
  - assert (t = Leaf) as -> by (rewrite call_root in Hc; by destruct t).
    rewrite <-Helems. cbn [elems lookup_in List.find insert_in].
    destruct (Halloc n) as [cn Hcn]; [by exists v|].
    destruct o as [rt m vs'] eqn:Eo. cbn in Hc, Hcn. subst rt.
    exists true, None. eexists. split.
    { m_step. cbn [root]. m_step. m_run (write_node_run (Some n) vs' m n (λ _, mkNode None None None 0) cn Hcn). done. }
    split; [done|]. eapply (holds_intro (nodes o) _ (Node Leaf n 0 Leaf)); [|cbn; lia|done| |].
    + split; cbn; try done.
      * by rewrite lookup_alter_eq, Hcn.
      * repeat constructor. set_solver.
      * by destruct Hfocus.
      * intros k Hk. rewrite lookup_alter_ne by set_solver. by rewrite Eo.
    + split; [constructor; [by exists v|done]|]. repeat constructor.
    + intros k Hk. cbn. destruct (Halloc k Hk) as [c' Hc']. cbn in Hc'.
      destruct (decide (k = n)) as [->|?]; [by rewrite lookup_alter_eq, Hcn|by rewrite lookup_alter_ne, Hc'].
Qed.
End calls.

Lemma call_spec o A i :
  holds o A → allowed A i →
  ∃ a o', call i o = Some (a, o', []) ∧ answers A i a ∧ holds o' (after A i).
Proof.
  intros [t Ht] Hi. pose proof (call_holds o A t Ht) as Hh.
  destruct i as [n|n|v|v| | |n|n| | |n v]; cbn [call allowed answers] in *.
  - destruct Hi as (Hn & v & Hv & Hok).
    destruct (call_Insert o A t Ht n v Hn Hv Hok) as (b & r & o' & Hr & Hres & H').
    exists (Inserted b r), o'. split; [by m_run Hr|]. split; [|done]. rewrite Hv.
    destruct (lookup_in _ _ _); destruct Hres as [-> ?]; [by simplify_eq|eauto].
  - destruct (call_Remove o A t Ht n Hi) as (o' & Hr & H').
    exists Done, o'. split; [by m_run Hr|done].
  - destruct (call_lookups o A t Ht v Hi) as (_ & r & Hr & Hres).
    exists (Found r), o. split; [by m_run Hr|]. split; [|done].
    destruct (lookup_in _ _ _); [by subst|eauto].
  - destruct (call_lookups o A t Ht v Hi) as (Hr & _). eexists _, o. split; [by m_run Hr|done].
  - eexists _, o. split; [by m_run (call_GetFirst o A t Ht)|done].
  - eexists _, o. split; [by m_run (call_GetLast o A t Ht)|done].
  - destruct (call_GetNext o A t Ht n Hi) as (l1 & l2 & E & Hr).
    eexists _, o. split; [by m_run Hr|]. split; [by exists l1, l2|done].
  - destruct (call_GetPrev o A t Ht n Hi) as (l1 & l2 & E & Hr).
    eexists _, o. split; [by m_run Hr|]. split; [by exists l1, l2|done].
  - eexists _, o. split; [unfold BAVL_IsEmpty; rewrite M_bind_assoc; m_step; m_step; reflexivity|].
    split; [|done]. f_equal. rewrite (call_root o A t Ht).
    pose proof (call_order_nil o A t Ht) as E. destruct (ptr t); cbn; symmetry;
      [apply bool_decide_eq_false|apply bool_decide_eq_true]; rewrite E; done.
  - eexists _, o. split; [by m_run (call_Verify o A t Ht)|done].
  - destruct Hi as [Hn Hv]. eexists _, _. split; [reflexivity|]. split; [done|]. cbn [after].
    destruct Ht as [[Hr Hc Hrep Hnd Hvs Hf] Hb He Ho Ha].
    apply (holds_intro (nodes o) _ t); [|done|done| |].
    + split; try done. cbn. by rewrite Hvs.
    + apply (ordered_ext (objects A)); [|done]. intros k Hk. apply lookup_insert_ne. by intros ->.
    + intros k Hk. apply Ha. destruct (decide (k = n)) as [->|?]; [done|by rewrite lookup_insert_ne in Hk].
Qed.

(** ** Sequences of calls *)
Fixpoint call_all (ins : list op) : T (list answer) :=
  match ins with
  | [] => mret []
  | i :: ins => a ← call i; l ← call_all ins; mret (a :: l)
  end.
Fixpoint all_allowed (A : contents) (ins : list op) : Prop :=
  match ins with [] => True | i :: ins => allowed A i ∧ all_allowed (after A i) ins end.
Fixpoint all_answers (A : contents) (ins : list op) (l : list answer) : Prop :=
  match ins, l with
  | [], [] => True
  | i :: ins, a :: l => answers A i a ∧ all_answers (after A i) ins l
  | _, _ => False
  end.
Definition after_all (A : contents) (ins : list op) : contents := foldl after A ins.

Lemma call_all_spec o A ins :
  holds o A → all_allowed A ins →
  ∃ l o', call_all ins o = Some (l, o', []) ∧ all_answers A ins l ∧ holds o' (after_all A ins).
Proof.
  revert o A. induction ins as [|i ins IH]; intros o A Ho; cbn.
  - intros _. by exists [], o.
  - intros [Hi Hrest]. destruct (call_spec o A i Ho Hi) as (a & o1 & Hr & Ha & H1).
    destruct (IH o1 _ H1 Hrest) as (l & o2 & Hr2 & Hl & H2).
    exists (a :: l), o2. split; [m_run Hr; by m_run Hr2|done].
Qed.
Lemma BAVL_Init_holds (o : BAVL V) :
  (∀ n, is_Some (values o !! n) → is_Some (nodes o !! n)) →
  holds (BAVL_Init o) (mkContents [] (values o)).
Proof.
  intros H. apply (holds_intro (nodes o) _ Leaf); [|done|done| |exact H].
  - split; try done. constructor.
  - split; constructor.
Qed.

(** C39: A tree that [BAVL_Init] made and that is used as [BAVL.h] allows, by insertions,
    removals, lookups, walks in both directions and [BAVL_Verify] in any order, with
    objects whose values change while they are out of the tree, answers every call as the
    ordered sequence of its nodes does.  No call follows a null pointer, fails an assertion
    or does not return, the tree in memory is always balanced, and a lookup in it takes at
    most [2 log2 (n + 1) + 1] comparisons.  One answer is not what [BAVL.h] says: when an
    insertion fails because a node compares equal, [*ref] is that node, where the comment
    has the next lesser or the next greater node, whether the insertion succeeded or not;
    after an insertion that succeeds [*ref] is as documented. *)
Theorem BAVL_refines_ordered_nodes (o : BAVL V) ins :
  let A := mkContents [] (values o) in
  (∀ n, is_Some (values o !! n) → is_Some (nodes o !! n)) →
  all_allowed A ins →
  ∃ l o', call_all ins (BAVL_Init o) = Some (l, o', []) ∧ all_answers A ins l ∧
    ordered (objects (after_all A ins)) (order (after_all A ins)) ∧
    ∃ t, elems t = order (after_all A ins) ∧ avl t ∧ focus (values o') (nodes o') o' [] t ∧
      ∀ v c steps, ok v → root o' = Some c → 2 * Z.log2 (zlen (elems t) + 1) + 1 ≤ Z.of_nat steps →
        ∃ x, search (compare_with comparator v) steps c o' = Some (x, o', []).
Proof.
  intros A Hn Hi. destruct (call_all_spec _ _ _ (BAVL_Init_holds o Hn) Hi) as (l & o' & Hr & Hl & t & [Hf Hb He Ho _]).
  exists l, o'. split_and!; try done. exists t. pose proof (focus_values _ _ _ _ _ Hf) as Hv.
  rewrite Hv. split_and!; try done.
  intros v c steps Hok Hc Hsteps. rewrite (focus_root _ _ _ _ _ Hf) in Hc.
  destruct (tree_search_spec (objects (after_all A ins)) (nodes o') (compare_with comparator v) v steps o' [] t c)
    as (n & r & Hs & _); try done.
  - pose proof (avl_height t Hb). lia.
  - intros n w Hw. apply compare_with_run. by rewrite Hv.
  - by rewrite He.
  - eauto.
Qed.
End spec.

(** Objects whose nodes are not in a tree *)
Definition blank {V} (vs : gmap Z V) : BAVL V := mkBAVL None ((λ _, mkNode None None None 0) <$> vs) vs.
Lemma blank_nodes {V} (vs : gmap Z V) n : is_Some (values (blank vs) !! n) → is_Some (nodes (blank vs) !! n).
Proof. cbn. rewrite lookup_fmap. by intros [v ->]. Qed.
(** decides what is [allowed] of calls on concrete objects *)
Ltac decide_allowed :=
  repeat match goal with
    | |- _ ∧ _ => split
    | |- ∃ v, _ => eexists
    | |- _ !! _ = _ => vm_compute; reflexivity
    | |- is_Some _ => eexists; vm_compute; reflexivity
    | |- _ ∉ _ => apply (bool_decide_unpack _); vm_compute; exact I
    | |- _ ∈ _ => apply (bool_decide_unpack _); vm_compute; exact I
    | |- True => exact I
    end.

#[export] Instance B_COMPARE_comparator : Comparator B_COMPARE (λ _, True).
Proof.
  split; intros; rewrite ?B_COMPARE_spec in *.
  - destruct (a ?= b); auto.
  - rewrite (Z.compare_antisym a b). by destruct (a ?= b).
  - destruct (Z.compare_spec a b), (Z.compare_spec b c), (Z.compare_spec a c); lia.
Qed.

(** Ascending insertions, a double rotation, the removal of the root and of a node that is
    inserted again with another value. *)
Definition sample_objects : gmap Z Z := list_to_map ((λ n, (n, 10 * n)) <$> [1; 2; 3; 4; 5; 6; 7; 8; 9]).
Definition sample_calls : list (op (V := Z)) :=
  (OpInsert <$> [1; 2; 3; 4; 5; 9; 7]) ++
  [OpVerify; OpLookup 45; OpRemove 4; OpGetNext 3; OpLookupExact 40; OpRemove 2; OpSetValue 2 60; OpInsert 2;
   OpGetPrev 7; OpInsert 6; OpVerify; OpRemove 1; OpRemove 3; OpVerify; OpGetFirst; OpGetLast].
Example sample_answers :
  (λ r, r.1.1) <$> call_all B_COMPARE sample_calls (BAVL_Init (blank sample_objects)) = Some
    [Inserted true None; Inserted true (Some 1); Inserted true (Some 2); Inserted true (Some 3);
     Inserted true (Some 4); Inserted true (Some 5); Inserted true (Some 9);
     Done; Found (Some 5); Done; Found (Some 5); Found None; Done; Done; Inserted true (Some 5);
     Found (Some 2); Inserted false (Some 2); Done; Done; Done; Done; Found (Some 5); Found (Some 9)].
Proof. vm_compute. reflexivity. Qed.
Lemma BAVL_refines_ordered_nodes_witness :
  ∃ l o', call_all B_COMPARE sample_calls (BAVL_Init (blank sample_objects)) = Some (l, o', []) ∧
    all_answers B_COMPARE (λ _, True) (mkContents [] sample_objects) sample_calls l.
Proof.
  destruct (BAVL_refines_ordered_nodes B_COMPARE (λ _, True) (blank sample_objects) sample_calls)
    as (l & o' & Hr & Ha & _).
  - apply blank_nodes.
  - cbn [all_allowed sample_calls fmap list_fmap app allowed]. decide_allowed.
  - exists l, o'. exact (conj Hr Ha).
Defined.
