(* ===== verification/BavlClient.v ===== *)
(** * Balanced trees: the client

    [udpgw_client/UdpGwClient.c] keeps its connections in two trees.  File [UdpGw] has a
    tree as the list of its nodes and their keys; here that list is implemented by a [BAVL],
    with the comparators of the client. *)

From stdpp Require Import sorting.
From S2P Require Import Prelude CInt Addr UdpGw Bavl BavlShape BavlBalance BavlOps BavlSpec.

(** ** The comparators *)
Lemma comparator_pullback {U V} (f : U → V) cmp (ok : V → Prop) :
  Comparator cmp ok → Comparator (λ a b, cmp (f a) (f b)) (λ a, ok (f a)).
Proof.
  intros [Hr Ha Ht]. split; [by intros|by intros; apply Ha|].
  intros a b c. apply Ht.
Qed.
(** one comparator, and a second one for values of which it says that they are equal *)
Lemma comparator_lex {V} (c1 c2 : V → V → Z) (ok : V → Prop) :
  Comparator c1 ok →
  (∀ a b, c2 a b = -1 ∨ c2 a b = 0 ∨ c2 a b = 1) →
  (∀ a b, ok a → ok b → c1 a b = 0 → c2 b a = - c2 a b) →
  (∀ a b c, ok a → ok b → ok c → c1 a b = 0 → c1 b c = 0 → c2 a b ≤ 0 → c2 b c ≤ 0 → c2 a c ≤ 0) →
  Comparator (λ a b, if negb (c1 a b =? 0) then c1 a b else c2 a b) ok.
Proof.
  intros C1 Hr2 Ha2 Ht2. split.
  - intros a b. pose proof (comparator_range (ok := ok) (comparator := c1) a b).
    specialize (Hr2 a b). by destruct (_ =? _).
  - intros a b Ha Hb. rewrite (comparator_antisym (comparator := c1) a b) by done.
    specialize (Ha2 a b Ha Hb). repeat zcase.
  - intros a b c Ha Hb Hc.
    pose proof (comparator_range (ok := ok) (comparator := c1) a b).
    pose proof (comparator_range (ok := ok) (comparator := c1) b c).
    pose proof (comparator_antisym (comparator := c1) a c Ha Hc).
    pose proof (comparator_antisym (comparator := c1) a b Ha Hb).
    pose proof (comparator_antisym (comparator := c1) b c Hb Hc).
    pose proof (comparator_trans (comparator := c1) a b c Ha Hb Hc).
    pose proof (comparator_trans (comparator := c1) b c a Hb Hc Ha).
    pose proof (comparator_trans (comparator := c1) c a b Hc Ha Hb).
    specialize (Ht2 a b c Ha Hb Hc).
    repeat zcase.
Qed.
Lemma comparator_lex2 {V} (c1 c2 : V → V → Z) (ok : V → Prop) :
  Comparator c1 ok → Comparator c2 ok →
  Comparator (λ a b, if negb (c1 a b =? 0) then c1 a b else c2 a b) ok.
Proof. intros C1 [Hr Ha Ht]. apply comparator_lex; auto. intros; by eapply (Ht a b c). Qed.
Lemma comparator_ext {V} (c1 c2 : V → V → Z) (ok : V → Prop) :
  (∀ a b, c1 a b = c2 a b) → Comparator c1 ok → Comparator c2 ok.
Proof.
  intros E [Hr Ha Ht]. split; [intros a b; by rewrite <-E|intros a b; rewrite <-!E; apply Ha|].
  intros a b c. rewrite <-!E. apply Ht.
Qed.
Lemma comparator_weaken {V} (c : V → V → Z) (ok ok' : V → Prop) :
  (∀ a, ok' a → ok a) → Comparator c ok → Comparator c ok'.
Proof. intros E [Hr Ha Ht]. split; [done|intros; apply Ha; auto|intros a b d ? ? ?; apply Ht; auto]. Qed.

#[export] Instance uint16_comparator_ok : Comparator uint16_comparator (λ _, True).
Proof. exact B_COMPARE_comparator. Qed.

#[export] Instance memcmp_comparator n : Comparator memcmp (λ l, zlen l = n).
Proof.
  split.
  - apply memcmp_range.
  - intros. apply memcmp_antisym.
  - intros a. revert n. induction a as [|x a IH]; intros n b c Ha Hb Hc.
    + rewrite zlen_nil in Ha. subst n. apply zlen_0_nil in Hb as ->. done.
    + rewrite zlen_cons in Ha. destruct b as [|y b]; [rewrite zlen_nil in Hb; pose proof (zlen_nonneg a); lia|].
      destruct c as [|z c]; [rewrite zlen_nil in Hc; pose proof (zlen_nonneg a); lia|].
      rewrite zlen_cons in Hb, Hc. specialize (IH (n - 1) b c). cbn [memcmp].
      repeat zcase.
Qed.

#[export] Instance BAddr_CompareOrder_comparator : Comparator BAddr_CompareOrder BAddr_ok.
Proof.
  assert (C4 : Comparator (λ a b : Z * Z, if negb (B_COMPARE (ntoh32 a.1) (ntoh32 b.1) =? 0)
      then B_COMPARE (ntoh32 a.1) (ntoh32 b.1) else B_COMPARE (ntoh16 a.2) (ntoh16 b.2)) (λ _, True)).
  { apply comparator_lex2; [apply (comparator_pullback (λ p : Z * Z, ntoh32 p.1) B_COMPARE (λ _, True))
      |apply (comparator_pullback (λ p : Z * Z, ntoh16 p.2) B_COMPARE (λ _, True))]; exact B_COMPARE_comparator. }
  assert (C6 : Comparator (λ a b : bytes * Z, if negb (memcmp a.1 b.1 =? 0)
      then memcmp a.1 b.1 else B_COMPARE (ntoh16 a.2) (ntoh16 b.2)) (λ a, zlen a.1 = 16)).
  { apply comparator_lex2; [apply (comparator_pullback fst memcmp (λ l, zlen l = 16)), _|].
    apply (comparator_weaken _ (λ _, True)); [done|].
    apply (comparator_pullback (λ p : bytes * Z, ntoh16 p.2) B_COMPARE (λ _, True)). exact B_COMPARE_comparator. }
  unfold BAddr_CompareOrder.
  assert (C1 : Comparator (λ a b, B_COMPARE (BAddr_type a) (BAddr_type b)) BAddr_ok).
  { apply (comparator_weaken _ (λ _, True)); [done|].
    apply (comparator_pullback BAddr_type B_COMPARE (λ _, True)). exact B_COMPARE_comparator. }
  assert (E6 : ∀ x y, B_COMPARE (memcmp x y) 0 = memcmp x y).
  { intros x y. by destruct (memcmp_range x y) as [-> | [-> | ->]]. }
  apply comparator_lex; [exact C1|..].
  - intros [|x p|x p] [|y q|y q]; auto; rewrite ?E6.
    + apply (comparator_range (Comparator := C4) (x, p) (y, q)).
    + apply (comparator_range (Comparator := C6) (x, p) (y, q)).
  - intros [|x p|x p] [|y q|y q] Ha Hb _; try done; rewrite ?E6.
    + by apply (comparator_antisym (Comparator := C4) (x, p) (y, q)).
    + apply (comparator_antisym (Comparator := C6) (x, p) (y, q)); [apply Ha|apply Hb].
  - intros [|x p|x p] [|y q|y q] [|z r|z r] Ha Hb Hc; try done; rewrite ?E6; intros _ _.
    + by apply (comparator_trans (Comparator := C4) (x, p) (y, q) (z, r)).
    + apply (comparator_trans (Comparator := C6) (x, p) (y, q) (z, r)); [apply Ha|apply Hb|apply Hc].
Qed.

(** the addresses of a connection *)
Definition conaddr_ok (a : UdpGwClient_conaddr) : Prop := BAddr_ok (remote_addr a) ∧ BAddr_ok (local_addr a).
#[export] Instance conaddr_comparator_ok : Comparator conaddr_comparator conaddr_ok.
Proof.
  apply (comparator_lex2 (λ a b, BAddr_CompareOrder (remote_addr a) (remote_addr b))
    (λ a b, BAddr_CompareOrder (local_addr a) (local_addr b))).
  - apply (comparator_weaken _ (λ a, BAddr_ok (remote_addr a))); [by intros a []|].
    apply (comparator_pullback remote_addr), _.
  - apply (comparator_weaken _ (λ a, BAddr_ok (local_addr a))); [by intros a []|].
    apply (comparator_pullback local_addr), _.
Qed.

(** ** The trees of the client *)
Section trees.
Context {K : Type} (cmp : K → K → Z) (ok : K → Prop) `{!Comparator cmp ok}.

(** The list [t] has the nodes of the tree with their keys. *)
Definition lists (t : list (K * Z)) (A : contents (V := K)) : Prop :=
  order A ≡ₚ t.*2 ∧ ∀ k n, (k, n) ∈ t → objects A !! n = Some k ∧ ok k.

Lemma insert_in_perm vs v n l : insert_in cmp vs v n l ≡ₚ n :: l.
Proof.
  induction l as [|m l IH]; cbn; [done|]. repeat case_match; [|done..]. rewrite IH. apply perm_swap.
Qed.
Lemma BAVL_Remove_keys (t : list (K * Z)) n : (UdpGw.BAVL_Remove t n).*2 = base.filter (λ k, k ≠ n) t.*2.
Proof.
  unfold UdpGw.BAVL_Remove. induction t as [|[k m] t IH]; cbn [List.filter snd fmap list_fmap]; [done|].
  destruct (Z.eqb_spec m n) as [->|Hne]; cbn [negb].
  - by rewrite filter_cons_False by naive_solver.
  - rewrite filter_cons_True by done. cbn. by rewrite <-IH.
Qed.
Lemma lists_lookup t A key :
  lists t A → ok key → ordered cmp ok (objects A) (order A) →
  lookup_in cmp (objects A) key (order A) = UdpGw.BAVL_LookupExact cmp t key.
Proof.
  intros [Hp Ht] Hk Hord. unfold UdpGw.BAVL_LookupExact.
  destruct (List.find _ t) as [[k n]|] eqn:E; cbn.
  - apply find_some in E as [Hin%list_elem_of_In E]. cbn in E. apply Z.eqb_eq in E.
    destruct (Ht k n Hin) as [Hn Hok].
    apply (lookup_in_equal cmp ok); [done|done|rewrite Hp; by apply (list_elem_of_fmap_2' snd t (k, n))|].
    exists k. split_and!; try done. rewrite (comparator_antisym k key) by done. lia.
  - destruct (lookup_in _ _ _ _) as [n|] eqn:E'; [|done].
    unfold lookup_in in E'. apply find_some in E' as [Hin%list_elem_of_In E'].
    rewrite Hp in Hin. apply list_elem_of_fmap in Hin as ([k n'] & -> & Hin). cbn in *.
    destruct (Ht k n' Hin) as [Hn Hok]. unfold is_equal in E'. rewrite Hn in E'. apply Z.eqb_eq in E'.
    apply list_elem_of_In in Hin. pose proof (find_none _ _ E _ Hin) as Hf. cbn in Hf.
    rewrite (comparator_antisym key k), E' in Hf by done. done.
Qed.

(** What the client does with a tree: it writes the key of a new node and inserts it, it
    removes a node, it looks for a key. *)
Inductive tree_op :=
| AddNode (key : K) (n : Z)
| RemoveNode (n : Z)
| FindNode (key : K).
Inductive tree_reply := Added (success : bool) | Removed | FoundNode (n : option Z).

(** on a [BAVL] *)
Definition tree_call (i : tree_op) : M (BAVL K) Empty_set tree_reply :=
  match i with
  | AddNode key n =>
      modify (λ o, mkBAVL (root o) (nodes o) (<[n := key]> (values o)));;
      x ← Bavl.BAVL_Insert cmp n; mret (Added x.1)
  | RemoveNode n => Bavl.BAVL_Remove n;; mret Removed
  | FindNode key => x ← Bavl.BAVL_LookupExact cmp key; mret (FoundNode x)
  end.
Fixpoint tree_calls (ins : list tree_op) : M (BAVL K) Empty_set (list tree_reply) :=
  match ins with
  | [] => mret []
  | i :: ins => a ← tree_call i; l ← tree_calls ins; mret (a :: l)
  end.
(** on the list of file [UdpGw] *)
Definition list_call (t : list (K * Z)) (i : tree_op) : tree_reply * list (K * Z) :=
  match i with
  | AddNode key n =>
      match UdpGw.BAVL_Insert cmp t key n with
      | Some t' => (Added true, t')
      | None => (Added false, t)
      end
  | RemoveNode n => (Removed, UdpGw.BAVL_Remove t n)
  | FindNode key => (FoundNode (UdpGw.BAVL_LookupExact cmp t key), t)
  end.
Fixpoint list_calls (t : list (K * Z)) (ins : list tree_op) : list tree_reply :=
  match ins with
  | [] => []
  | i :: ins => (list_call t i).1 :: list_calls (list_call t i).2 ins
  end.
(** only the nodes of objects are inserted, and not twice *)
Definition list_allowed (objs : gmap Z K) (t : list (K * Z)) (i : tree_op) : Prop :=
  match i with
  | AddNode key n => n ∉ t.*2 ∧ is_Some (objs !! n) ∧ ok key
  | RemoveNode n => n ∈ t.*2
  | FindNode key => ok key
  end.
Fixpoint all_list_allowed (objs : gmap Z K) (t : list (K * Z)) (ins : list tree_op) : Prop :=
  match ins with
  | [] => True
  | i :: ins => list_allowed objs t i ∧ all_list_allowed objs (list_call t i).2 ins
  end.

Lemma find_call o A t key :
  holds cmp ok o A → lists t A → ok key →
  Bavl.BAVL_LookupExact cmp key o = Some (UdpGw.BAVL_LookupExact cmp t key, o, []).
Proof.
  intros [tr Ht] Hl Hk. destruct (call_lookups cmp ok o A tr Ht key Hk) as [H _].
  by rewrite H, (lists_lookup t) by (done || apply Ht).
Qed.
Lemma add_call o A t key n :
  holds cmp ok o A → lists t A → n ∉ t.*2 → is_Some (objects A !! n) → ok key →
  ∃ o' A', tree_call (AddNode key n) o = Some ((list_call t (AddNode key n)).1, o', []) ∧
    holds cmp ok o' A' ∧ lists (list_call t (AddNode key n)).2 A' ∧
    ∀ m, is_Some (objects A !! m) → is_Some (objects A' !! m).
Proof.
  intros Ho [Hp Ht] Hn Hobj Hk. assert (n ∉ order A) as Hn' by by rewrite Hp.
  destruct (call_spec cmp ok o A (OpSetValue n key) Ho (conj Hn' Hobj)) as (a & o1 & Hr1 & _ & H1).
  cbn in H1. set (A1 := mkContents (order A) (<[n:=key]> (objects A))) in *.
  assert (lists t A1) as Hl1.
  { split; [done|]. intros k m Hm. cbn. rewrite lookup_insert_ne; [by apply Ht|].
    intros ->. apply Hn. by apply (list_elem_of_fmap_2' snd t (k, m)). }
  assert (objects A1 !! n = Some key) as Hkey by (cbn; by rewrite lookup_insert_eq).
  assert (∀ m, is_Some (objects A !! m) → is_Some (objects A1 !! m)) as Hobj1.
  { intros m Hm. cbn. destruct (decide (m = n)) as [->|?]; [by rewrite lookup_insert_eq|by rewrite lookup_insert_ne]. }
  injection Hr1 as _ Eo1. rewrite <-Eo1 in H1. pose proof H1 as [tr Htr].
  destruct (call_Insert cmp ok _ A1 tr Htr n key Hn' Hkey Hk) as (b & r & o2 & Hr & Hres & H2).
  cbn [after] in H2. rewrite Hkey in H2.
  rewrite (lists_lookup t A1) in Hres, H2 by (done || apply Htr).
  exists o2. unfold tree_call, list_call, UdpGw.BAVL_Insert. m_step.
  destruct (UdpGw.BAVL_LookupExact cmp t key) as [m|] eqn:E; destruct Hres as [-> Hnear]; cbn [fst snd].
  - exists A1. split; [by m_run Hr|done].
  - eexists. split; [by m_run Hr|]. split; [exact H2|]. split; [|exact Hobj1].
    split.
    + cbn. rewrite fmap_app, insert_in_perm, Hp. cbn. by rewrite <-Permutation_cons_append.
    + intros k m. rewrite elem_of_app, list_elem_of_singleton. intros [Hm|[= -> ->]]; [by apply Hl1|done].
Qed.
Lemma remove_call o A t n :
  holds cmp ok o A → lists t A → n ∈ t.*2 →
  ∃ o' A', Bavl.BAVL_Remove n o = Some (tt, o', []) ∧ holds cmp ok o' A' ∧
    lists (UdpGw.BAVL_Remove t n) A' ∧ objects A' = objects A.
Proof.
  intros [tr Ht] [Hp Hl] Hn.
  destruct (call_Remove cmp ok o A tr Ht n) as (o' & Hr & H'); [by rewrite Hp|].
  exists o', (after cmp A (OpRemove n)). split_and!; try done. split.
  - cbn. by rewrite BAVL_Remove_keys, Hp.
  - intros k m Hm. apply Hl. unfold UdpGw.BAVL_Remove in Hm.
    apply list_elem_of_In, filter_In in Hm as [Hm _]. by apply list_elem_of_In.
Qed.

Lemma tree_calls_spec objs o A t ins :
  holds cmp ok o A → lists t A → (∀ n, is_Some (objs !! n) → is_Some (objects A !! n)) →
  all_list_allowed objs t ins →
  ∃ o', tree_calls ins o = Some (list_calls t ins, o', []).
Proof.
  revert o A t. induction ins as [|i ins IH]; intros o A t Ho Hl Hobj; cbn; [by exists o|].
  intros [Hi Hrest].
  assert (∃ o1 A1, tree_call i o = Some ((list_call t i).1, o1, []) ∧ holds cmp ok o1 A1 ∧
    lists (list_call t i).2 A1 ∧ ∀ m, is_Some (objects A !! m) → is_Some (objects A1 !! m))
    as (o1 & A1 & Hr & H1 & Hl1 & Hobj1).
  { destruct i as [key n|n|key]; cbn in Hi.
    - destruct Hi as (Hn & Hs & Hk). by apply (add_call o A); auto.
    - destruct (remove_call o A t n Ho Hl Hi) as (o1 & A1 & Hr & H1 & Hl1 & E).
      exists o1, A1. rewrite E. split_and!; try done. cbn. by m_run Hr.
    - exists o, A. split_and!; try done. cbn. by m_run (find_call o A t key Ho Hl Hi). }
  destruct (IH o1 A1 _ H1 Hl1) as (o2 & Hr2); [auto|done|].
  exists o2. m_run Hr. by m_run Hr2.
Qed.
End trees.

(** C40: The trees of connections in the model of [UdpGwClient], which are lists of keys and
    nodes, give the replies of the balanced trees of the code: in any sequence in which the
    client adds nodes that are not in the tree, removes nodes that are, and looks for keys,
    the [BAVL] never fails and answers each call as the list does.  Both comparators of the
    client, of 16-bit identifiers and of pairs of addresses, are of the kind [BAVL] needs. *)
Theorem connection_trees_equiv (byid : BAVL Z) (byaddr : BAVL UdpGwClient_conaddr) ids addrs :
  (∀ n, is_Some (values byid !! n) → is_Some (nodes byid !! n)) →
  (∀ n, is_Some (values byaddr !! n) → is_Some (nodes byaddr !! n)) →
  all_list_allowed uint16_comparator (λ _, True) (values byid) [] ids →
  all_list_allowed conaddr_comparator conaddr_ok (values byaddr) [] addrs →
  (∃ o', tree_calls uint16_comparator ids (BAVL_Init byid) =
     Some (list_calls uint16_comparator [] ids, o', [])) ∧
  (∃ o', tree_calls conaddr_comparator addrs (BAVL_Init byaddr) =
     Some (list_calls conaddr_comparator [] addrs, o', [])).
Proof.
  intros H1 H2 Ha1 Ha2.
  split.
  - apply (tree_calls_spec uint16_comparator (λ _, True) (values byid) _ (mkContents [] (values byid)));
      [by apply BAVL_Init_holds|split; [done|by intros ? ? ?%elem_of_nil]|done|done].
  - apply (tree_calls_spec conaddr_comparator conaddr_ok (values byaddr) _ (mkContents [] (values byaddr)));
      [by apply BAVL_Init_holds|split; [done|by intros ? ? ?%elem_of_nil]|done|done].
Qed.

Lemma connection_trees_equiv_witness :
  let addr ip := mkConaddr (BAddr_v4 ip 53) (BAddr_v4 134744072 53) in
  let ids := [AddNode 5 1; AddNode 3 2; AddNode 4 3; AddNode 5 4; FindNode 4; RemoveNode 1; FindNode 5; AddNode 9 1] in
  let addrs := [AddNode (addr 2) 1; AddNode (addr 1) 2; AddNode (addr 3) 3; FindNode (addr 2); RemoveNode 1;
    AddNode (addr 4) 1; FindNode (addr 2); FindNode (addr 4)] in
  (∃ o', tree_calls uint16_comparator ids (BAVL_Init (blank sample_objects)) =
     Some (list_calls uint16_comparator [] ids, o', [])) ∧
  (∃ o', tree_calls conaddr_comparator addrs (BAVL_Init (blank ((λ _, addr 0) <$> sample_objects))) =
     Some (list_calls conaddr_comparator [] addrs, o', [])).
Proof.
  intros addr ids addrs. apply connection_trees_equiv.
  - apply blank_nodes.
  - apply blank_nodes.
  - cbn [all_list_allowed ids list_allowed]. decide_allowed.
  - cbn [all_list_allowed addrs list_allowed]. decide_allowed; (split; cbn; lia).
Defined.
